(* ===== verification/_CoqProject ===== *)
-Q . S2P
Prelude.v
Uint256.v
Consensus.v
Pow.v
Serialize.v
Script.v
Interpreter.v
ScriptTheorems.v
Standard.v
Hashes.v
Codecs.v
Transaction.v
Bloom.v
TxVerify.v
SigHash.v
Compressor.v
Policy.v
Coins.v
Mempool.v
MempoolInv.v
MempoolOps.v
MempoolAdd.v
MempoolReorg.v
MempoolTheorems.v
Ledger.v
Connect.v
Inputs.v
Merkle.v
Block.v
Payments.v
BlockCheck.v
Base58.v
TextCodecs.v
Bech32.v
MerkleBlock.v
Chain.v
StakeModifier.v
ChainSelect.v
Activate.v
Receive.v
Manager.v
Kernel.v
BlockFiles.v
Accept.v
ConnectBlock.v
ConnectTheorems.v
MempoolAccept.v
MempoolView.v
MempoolRelay.v
CheckQueue.v
