(* ===== verification/Prelude.v ===== *)
(** * Passion Core: a verification library

    Passion Core (src/src/) is a full node of a proof-of-stake currency of the
    Bitcoin family, with masternodes, a budget, cold staking, Sapling shielded
    transactions and a disabled Zerocoin layer.  This library models the part of
    it that decides which blocks and transactions are valid and what they do to
    the set of unspent outputs, and proves what makes that part correct.

    ** How the program is put together, and where it is modelled

    A block arrives as bytes.  It is read (serialization), checked on its own
    ([CheckBlock]), checked against the branch it extends (difficulty, times,
    proof of stake), added to the tree of known blocks (block index), and, when
    its branch becomes the best one, connected to the coin set ([ConnectBlock]),
    which runs the scripts of its inputs on a queue of worker threads.  Taking a
    block off the chain replays its undo records.  The files follow that path;
    each requires only files listed before it.

    - Prelude: machine integers, arrays, counted loops, the failure monad, hint
      databases and tactics.
    - Uint256: [base_uint<256>] on 32-bit limbs (arith_uint256.h/.cpp, uint256.h).
    - Consensus: [Consensus::Params], network upgrades (consensus/params.h,
      upgrades.cpp, chainparams.cpp).
    - Pow: retargeting and [CheckProofOfWork] (pow.cpp).
    - Serialize, Codecs: the wire format primitives and the interface
      [Serializable] every type of the format instantiates (serialize.h,
      crypto/common.h, prevector.h).
    - Script: opcodes, script numbers, pushes, parsing (script/script.h/.cpp).
    - Interpreter: [EvalScript], one definition per opcode group, and
      [VerifyScript] (script/interpreter.cpp); ScriptTheorems: what it accepts.
    - Standard: templates, destinations and the solver (script/standard.cpp,
      pubkey.h).
    - Hashes: SHA-256, SHA-1 and RIPEMD-160 (crypto/*.cpp).
    - Transaction: transactions and their format (primitives/transaction.h/.cpp,
      sapling/sapling_transaction.h).
    - Bloom: Bloom filters, the filters of peers and the rolling filter
      (bloom.h/.cpp, hash.cpp, net_processing.cpp).
    - TxVerify: [CheckTransaction] (consensus/tx_verify.cpp,
      sapling/sapling_validation.cpp, consensus/zerocoin_verify.cpp).
    - SigHash: [SignatureHash] and the signature checker (script/interpreter.cpp).
    - Compressor: compressed coins and undo records (compressor.h/.cpp, coins.h,
      undo.h).
    - Policy: fee rates, dust, standard transactions and inputs (policy/feerate.cpp,
      policy/policy.cpp, validation.cpp).
    - Coins: the coin database and its caches behind the interface of a view, the class
      [CCoinsView] with the laws [CoinsReader] (reading) and [CoinsView] (writing)
      (coins.h/.cpp, txdb.cpp); Ledger: caches refine a plain map.
    - Mempool: the entries, links and index of the memory pool, the walks to
      ancestors and descendants with their limits, and every operation that changes
      the pool (txmempool.h/.cpp, validation.cpp); MempoolInv: the consistency
      [pool_ok], each step of a removal; MempoolOps: the operations that
      remove; MempoolAdd: adding, limits, priorities; MempoolReorg:
      [UpdateTransactionsFromBlock]; MempoolTheorems: the pool as a state
      machine and what holds of it.
    - Connect: [UpdateCoins], [DisconnectBlock] (validation.cpp).
    - Inputs: [CheckInputs], [CheckTxInputs] (validation.cpp, coins.cpp).
    - Merkle: the constant-space Merkle computation (consensus/merkle.cpp).
    - Block: headers, Quark hash, blocks (primitives/block.h/.cpp, hash.h).
    - Payments: rewards, masternode and budget payments (validation.cpp,
      masternode-payments.cpp, budget/budgetmanager.cpp).
    - BlockCheck: [CheckBlock] and block signatures (validation.cpp,
      blocksignature.cpp).
    - Base58: addresses and private keys as texts (base58.h/.cpp).
    - TextCodecs: regrouping of bits, hexadecimal, base 64 and 32, amounts and
      fixed-point numbers (utilstrencodings.h/.cpp, utilmoneystr.cpp).
    - Bech32: checksummed texts and the texts of Sapling addresses and keys
      (bech32.cpp, sapling/key_io_sapling.cpp, sapling/address.h, zip32.h).
    - MerkleBlock: partial Merkle trees and filtered blocks (merkleblock.h/.cpp).
    - Chain: block index entries, skip list and the active chain (chain.h/.cpp).
    - StakeModifier: stake modifiers of both versions and [AddToBlockIndex]
      (chain.cpp, legacy/stakemodifier.cpp, validation.cpp).
    - ChainSelect: candidates for the tip, invalid blocks, [FindMostWorkChain],
      [ActivateBestChain], [ReceivedBlockTransactions], [InvalidateBlock]
      (validation.cpp), over an interface [ChainIO] to the coins; Activate: the
      activation ends on the best usable chain; Receive: blocks received in any
      order; Manager: the books of the chain manager as one invariant.
    - Kernel: stake inputs behind their interface, the kernel and
      [CheckProofOfStake] (kernel.cpp, stakeinput.cpp, zpiv/zpos.cpp).
    - BlockFiles: positions in the block and undo files (validation.cpp, chain.h).
    - Accept: contextual checks, [AcceptBlock], [ProcessNewBlock]
      (validation.cpp, checkpoints.cpp, sapling/sapling_validation.cpp).
    - ConnectBlock: the whole of [ConnectBlock] (validation.cpp);
      ConnectTheorems: what an accepted block does.
    - MempoolAccept: [AcceptToMemoryPool] with the pool over the coins of the tip as
      a view, priorities and fees, and [UpdateMempoolForReorg] (validation.cpp,
      txmempool.cpp, coins.cpp); MempoolView: reading through that view and what
      stays cached when it is cut off; MempoolRelay: what an accepted
      transaction has passed, and that the pool stays backed by the coins.
    - CheckQueue: the worker threads of script checks (checkqueue.h).

    ** How code becomes definitions

    An integer is a [Z] with the wrap-around of its C++ type written out ([u32],
    [i64], ...) wherever the source can leave the range; an array is a list; a
    pointer into the block index is the hash of the entry, the key of
    [mapBlockIndex]; a map is a [gmap].  Mutated objects are passed along and
    returned.  [option] at the outside of a result stands for what must not
    happen: a failed assertion, an exception nobody catches, an access outside an
    array, or exhausted fuel; theorems about such definitions say that a result
    is returned.  Rejections are values: the boolean with the changed
    [CValidationState], as in the source.  Loops over a list are structural; a
    loop with no structure has fuel, chosen from the data (the length of the
    script for [EvalScript], the height of a block for walks up the tree, the
    number of limbs for division), and the theorems prove that the fuel is
    enough.  Threads are a step relation with one rule per critical section.

    ** Parameters

    What is not in the repository, or is a cryptographic primitive, is an argument
    with its documented interface as hypotheses, and every theorem that has one
    is also applied to a concrete instance: [ScriptCrypto] (hash functions with
    their digest lengths; Hashes defines them concretely), [SigCrypto] (ECDSA
    verification, BLAKE2b), [SphLib] (the 512-bit functions of Quark),
    [SaplingTreeLib] (the note commitment tree of librustzcash),
    [SaplingVerifier] (its proof verifier), [ZerocoinEnv], [ConnectEnv] and
    [AcceptEnv] (libzerocoin calls, databases, disk, settings of the node),
    [RelayEnv] (the chain, clock, settings, memory use and trimming order that
    relaying reads, [pow] of the C library, the periodic flush of the coins),
    [BudgetManager] (the votes), [Abi] and [BlockAbi] ([sizeof] of four structs,
    which bound the chunks vectors are read in).  Binding properties are stated
    as: equal contents, or two colliding inputs are exhibited.

    ** What the theorems show

    - Money: an accepted block raises the transparent money by at most its reward,
      budget and what leaves the shielded pool; every input exists, is mature,
      unspent and signed, and covers the outputs but for the coinstake, which is
      exempt (both above the heights where proof of stake and V5.0 start); undoing a block restores the coin set; the caches
      answer as a plain map does.
    - Scripts: evaluation of any script ends without failed assertion and within
      its limits; pay-to-script-hash and pay-to-public-key-hash verdicts;
      multi-signature matching (complete for signatures and keys whose encodings
      the flags allow); DER encodings; signature hashes bind what they
      sign.
    - Blocks: shape and commitment of accepted blocks, Merkle roots, proof of
      work, retargeting within its limits, payees and subsidies.
    - The chain: ancestors, forks, tips and locators agree with the paths of the
      tree, for every shape of it; adding a block keeps the index well formed, and
      the stake modifier it needs can be computed, unless the block has no coinstake
      where V3.4 is in force, which the code does not look at.
    - The best chain: the search for the most work returns the best usable
      candidate; the activation ends, with the coins of the chain it ends on, and no
      usable block beats its tip, whatever blocks are rejected on the way; received
      blocks are linked in whatever order they come; processing a block keeps all of
      this, and positions given to blocks never overlap.
    - Memory pool: every sequence of operations leaves links that are mutual and
      free of cycles, no output spent twice, and exact counts, sizes, fees and
      signature operations of every package (the fees with ancestors until a priority
      is changed); a block takes out exactly what it confirms or makes impossible, with
      what descends from the latter; accepted packages are within their limits;
      removing what was added restores the pool; the links lost in a
      reorganization are restored; two operations break the pool's own check.
      Handing over a transaction always returns; whatever the answer, the coins
      stand for the same ledger and every input of the pool is available from the
      ledger or the pool; what is accepted is standard, final, without conflict,
      with standard inputs (outside regtest), few enough signature operations, a
      package within the limits and valid scripts under both sets of flags, and keeps
      the fee rules the caller asks for.
      Zerocoin spends are left out of the pool's transactions; sums of sizes are
      below [2 ^ 63] and of signature operations below [2 ^ 31]; the order of
      trimming and the memory used are parameters.
    - Proof of stake: what [CheckProofOfStake] accepts, exactly - on the main network
      an output of any depth, since the upgrade that asks for one has no height; the wrap-around of
      its target; the missing bound on the staked output.
    - Light clients: a filter never misses what was added to it; a filtered block
      tells its reader exactly the matched transactions; no tree with the right number
      of transactions claims others, and with a wrong one a tree can claim the root itself.
    - Threads: every execution of the script check queue ends, with the
      conjunction of all checks.
    - Formats: everything written is read back, and everything read can be
      written, for transactions, blocks, coins, undo records, addresses and keys;
      amounts are read exactly; Bech32 detects any three wrong characters.
    - Numbers: limb arithmetic is arithmetic modulo [2 ^ 256]; hashers compute
      the padded digest of what was written in any chunks.

    ** Not modelled

    Networking and peers, RPC, HTTP, the graphical interface, the wallet and its
    databases, initialization and logging (input and output with no rule of
    validity); the Sapling prover and libzerocoin (foreign libraries, parameters
    here); elliptic-curve arithmetic (libsecp256k1, a parameter); the vendored
    libraries (leveldb, univalue, secp256k1) and sphlib.  The
    estimation of fees from past blocks computes with floating-point numbers and
    decides nothing about a transaction; priorities are modelled with the
    IEEE numbers of SpecFloat.  The masternode list and
    the budget votes are collected from the messages of peers and differ between
    nodes; what validity needs of them is the parameter [BudgetManager] and the
    payees of Payments. *)
From Stdlib Require Import ZArith Lia List Bool.
Import ListNotations.
Local Open Scope Z_scope.

(** * Machine integers

    A C++ integer is a [Z] together with the wrap-around of its type, written
    out where the source converts or computes at that width. *)

Definition u8 (x : Z) : Z := x mod 2 ^ 8.
Definition u16 (x : Z) : Z := x mod 2 ^ 16.
Definition u32 (x : Z) : Z := x mod 2 ^ 32.
Definition u64 (x : Z) : Z := x mod 2 ^ 64.

(** Two's complement reading of the low [w] bits. *)
Definition signed (w x : Z) : Z :=
  let y := x mod 2 ^ w in if y <? 2 ^ (w - 1) then y else y - 2 ^ w.
Definition i32 (x : Z) : Z := signed 32 x.
Definition i64 (x : Z) : Z := signed 64 x.

(** * Arrays: total read with a default, write that ignores out-of-range
      indices (the models only index within range, and the invariants prove
      it). *)

Fixpoint upd {A} (l : list A) (i : nat) (v : A) : list A :=
  match l, i with
  | [], _ => []
  | _ :: t, O => v :: t
  | x :: t, S j => x :: upd t j v
  end.

Declare Scope passion_scope.
Delimit Scope passion_scope with passion.
Notation "l .[ i ]" := (nth i l 0)
  (at level 1, left associativity, format "l .[ i ]") : passion_scope.
Notation "l .[ i := v ]" := (upd l i v)
  (at level 1, left associativity, format "l .[ i  :=  v ]") : passion_scope.
Open Scope passion_scope.

(** * Counted loops

    [for_loop lo n body s] is
    [for (i = lo; i < lo + n; i++) s = body(i, s)]. *)

Fixpoint for_loop {S} (lo n : nat) (body : nat -> S -> S) (s : S) : S :=
  match n with
  | O => s
  | Datatypes.S m => for_loop (Datatypes.S lo) m body (body lo s)
  end.

(** The invariant rule. *)
Lemma for_loop_inv {S} (I : nat -> S -> Prop) body n : forall lo s,
  I lo s ->
  (forall i s, (lo <= i < lo + n)%nat -> I i s -> I (i + 1)%nat (body i s)) ->
  I (lo + n)%nat (for_loop lo n body s).
Proof.
  induction n as [|n IH]; intros lo s H0 Hs; cbn.
  - now rewrite Nat.add_0_r.
  - replace (lo + Datatypes.S n)%nat with (Datatypes.S lo + n)%nat by lia.
    apply IH.
    + replace (Datatypes.S lo) with (lo + 1)%nat by lia. apply Hs; [lia | assumption].
    + intros i s' Hi. apply Hs; lia.
Qed.

(** * Failure

    [obind] sequences computations that may throw or stop early. *)

Definition obind {A B} (m : option A) (k : A -> option B) : option B :=
  match m with Some x => k x | None => None end.
Notation "x <- m ;; k" := (obind m (fun x => k))
  (at level 100, m at next level, right associativity) : passion_scope.
Notation "' p <- m ;; k" := (obind m (fun x => match x with p => k end))
  (at level 100, p pattern, m at next level, right associativity) : passion_scope.

Lemma obind_Some {A B} (m : option A) (k : A -> option B) y :
  obind m k = Some y <-> exists x, m = Some x /\ k x = Some y.
Proof.
  split.
  - destruct m as [x|]; cbn; [now exists x | discriminate].
  - now intros (x & -> & Hk).
Qed.

(** * Hint databases and tactics *)

Create HintDb passion.
Create Rewrite HintDb passion_rw.

(** Break every [match]/[if] scrutinee met in the goal or in a hypothesis. *)
Ltac case_match_goal :=
  match goal with
  | |- context [match ?x with _ => _ end] => destruct x eqn:?
  end.
Ltac case_match_hyp H :=
  match type of H with
  | context [match ?x with _ => _ end] => destruct x eqn:?
  end.

(** Boolean comparisons of [Z] and [nat] as propositions. *)
Ltac breflect :=
  repeat match goal with
  | H : (_ && _)%bool = true |- _ => apply andb_true_iff in H; destruct H
  | H : (_ || _)%bool = false |- _ => apply orb_false_iff in H; destruct H
  | H : negb _ = true |- _ => apply negb_true_iff in H
  | H : negb _ = false |- _ => apply negb_false_iff in H
  | H : (_ =? _)%Z = true |- _ => apply Z.eqb_eq in H
  | H : (_ =? _)%Z = false |- _ => apply Z.eqb_neq in H
  | H : (_ <? _)%Z = true |- _ => apply Z.ltb_lt in H
  | H : (_ <? _)%Z = false |- _ => apply Z.ltb_ge in H
  | H : (_ <=? _)%Z = true |- _ => apply Z.leb_le in H
  | H : (_ <=? _)%Z = false |- _ => apply Z.leb_gt in H
  | H : (_ >? _)%Z = _ |- _ => rewrite Z.gtb_ltb in H
  | H : (_ >=? _)%Z = _ |- _ => rewrite Z.geb_leb in H
  | H : (_ =? _)%nat = true |- _ => apply Nat.eqb_eq in H
  | H : (_ =? _)%nat = false |- _ => apply Nat.eqb_neq in H
  | H : (_ <? _)%nat = true |- _ => apply Nat.ltb_lt in H
  | H : (_ <? _)%nat = false |- _ => apply Nat.ltb_ge in H
  | H : (_ <=? _)%nat = true |- _ => apply Nat.leb_le in H
  | H : (_ <=? _)%nat = false |- _ => apply Nat.leb_gt in H
  end.

(** * Lemmas on machine integers *)

Lemma pow2_pos n : 0 <= n -> 0 < 2 ^ n.
Proof. intros; apply Z.pow_pos_nonneg; lia. Qed.
#[export] Hint Resolve pow2_pos : passion.

Lemma u32_range x : 0 <= u32 x < 2 ^ 32.
Proof. apply Z.mod_pos_bound; reflexivity. Qed.
Lemma u64_range x : 0 <= u64 x < 2 ^ 64.
Proof. apply Z.mod_pos_bound; reflexivity. Qed.
Lemma u8_range x : 0 <= u8 x < 2 ^ 8.
Proof. apply Z.mod_pos_bound; reflexivity. Qed.
Lemma u32_small x : 0 <= x < 2 ^ 32 -> u32 x = x.
Proof. apply Z.mod_small. Qed.
Lemma u64_small x : 0 <= x < 2 ^ 64 -> u64 x = x.
Proof. apply Z.mod_small. Qed.
Lemma u8_small x : 0 <= x < 2 ^ 8 -> u8 x = x.
Proof. apply Z.mod_small. Qed.
Lemma i32_small x : - 2 ^ 31 <= x < 2 ^ 31 -> i32 x = x.
Proof.
  intros Hx. unfold i32, signed. change (32 - 1) with 31. destruct (Z_lt_le_dec x 0).
  - replace (x mod 2 ^ 32) with (x + 2 ^ 32) by (apply (Z.mod_unique _ _ (-1)); lia).
    destruct (Z.ltb_spec (x + 2 ^ 32) (2 ^ 31)); lia.
  - rewrite Z.mod_small by lia. destruct (Z.ltb_spec x (2 ^ 31)); lia.
Qed.
#[export] Hint Resolve u8_range u32_range u64_range : passion.

Lemma land_mask n x : 0 <= n -> Z.land x (2 ^ n - 1) = x mod 2 ^ n.
Proof. intros. rewrite <- Z.land_ones by lia. now rewrite Z.ones_equiv, Z.sub_1_r. Qed.
Lemma land_ffffffff x : Z.land x 0xffffffff = x mod 2 ^ 32.
Proof. apply (land_mask 32); lia. Qed.
#[export] Hint Rewrite land_ffffffff : passion_rw.

(** Values with disjoint bits add. *)
Lemma lor_add_disjoint a b k :
  0 <= k -> 0 <= b < 2 ^ k -> a mod 2 ^ k = 0 -> Z.lor a b = a + b.
Proof.
  intros Hk Hb Ha. symmetry.
  assert (Hl : Z.land a b = 0).
  { apply Z.bits_inj'. intros i Hi. rewrite Z.land_spec, Z.bits_0.
    destruct (Z.ltb_spec i k).
    - rewrite <- (Z.mod_pow2_bits_low a k i) by lia.
      now rewrite Ha, Z.bits_0.
    - rewrite <- (Z.mod_small b (2 ^ k)) by lia.
      rewrite Z.mod_pow2_bits_high by lia. apply andb_false_r. }
  rewrite Z.add_nocarry_lxor by assumption. now rewrite Z.lxor_lor.
Qed.

(** * Lemmas on arrays *)

Lemma length_upd {A} (l : list A) i v : length (upd l i v) = length l.
Proof. revert i; induction l; intros [|i]; cbn; congruence. Qed.
#[export] Hint Rewrite @length_upd : passion_rw.

Lemma nth_upd_eq {A} (l : list A) i v d : (i < length l)%nat -> nth i (upd l i v) d = v.
Proof. revert i; induction l; intros [|i]; cbn; intros; try lia; auto. apply IHl; lia. Qed.
Lemma nth_upd_ne {A} (l : list A) i j v d : i <> j -> nth j (upd l i v) d = nth j l d.
Proof. revert i j; induction l; intros [|i] [|j]; cbn; intros; try lia; auto. Qed.
Lemma nth_upd {A} (l : list A) i j v d :
  (i < length l)%nat -> nth j (upd l i v) d = if (i =? j)%nat then v else nth j l d.
Proof.
  intros. destruct (Nat.eqb_spec i j); subst;
    [now apply nth_upd_eq | now apply nth_upd_ne].
Qed.
