(* ===== verification/Uint256.v ===== *)
(** [base_uint<BITS>]: fixed-width big integers on 32-bit limbs
    (src/arith_uint256.h, src/arith_uint256.cpp, src/uint256.h, src/uint256.cpp).

    An object is its array [pn] of [WIDTH] limbs, least significant first.  The
    operators are the source's loops over the limbs; [val] reads an array as a
    number and the theorems say that every operator is the operation of
    arithmetic modulo [2 ^ BITS]. *)
From Stdlib Require Import ZArith Lia List Bool.
From S2P Require Import Prelude.
Import ListNotations.
Local Open Scope Z_scope.

Section BaseUint.
Variable WIDTH : nat.

(** ** Construction *)

Definition base_uint_zero : list Z := repeat 0 WIDTH.

Definition base_uint_of_u64 (b : Z) : list Z :=
  let pn := base_uint_zero in
  let pn := pn.[0%nat := u32 b] in
  let pn := pn.[1%nat := u32 (Z.shiftr b 32)] in
  for_loop 2 (WIDTH - 2) (fun i pn => pn.[i := 0]) pn.

(** ** Predicates and comparisons *)

Definition base_uint_IsNull (pn : list Z) : bool :=
  for_loop 0 WIDTH (fun i acc => if negb (pn.[i] =? 0) then false else acc) true.

Fixpoint compare_limbs (pn b : list Z) (n : nat) : Z :=
  match n with
  | O => 0
  | S i =>
      if pn.[i] <? b.[i] then -1
      else if pn.[i] >? b.[i] then 1
      else compare_limbs pn b i
  end.
Definition CompareTo (pn b : list Z) : Z := compare_limbs pn b WIDTH.

Definition base_uint_lt (a b : list Z) : bool := CompareTo a b <? 0.
Definition base_uint_gt (a b : list Z) : bool := CompareTo a b >? 0.
Definition base_uint_ge (a b : list Z) : bool := CompareTo a b >=? 0.
Definition base_uint_le (a b : list Z) : bool := CompareTo a b <=? 0.

Fixpoint high_limbs_zero (pn : list Z) (n : nat) : bool :=
  match n with
  | O => true
  | S i => if (i <? 2)%nat then true
           else if negb (pn.[i] =? 0) then false else high_limbs_zero pn i
  end.
Definition EqualTo (pn : list Z) (b : Z) : bool :=
  if negb (high_limbs_zero pn WIDTH) then false
  else if negb (pn.[1%nat] =? Z.shiftr b 32) then false
  else if negb (pn.[0%nat] =? Z.land b 0xffffffff) then false
  else true.

(** ** Bitwise operators *)

Definition base_uint_not (pn : list Z) : list Z :=
  for_loop 0 WIDTH (fun i ret => ret.[i := u32 (Z.lnot pn.[i])]) base_uint_zero.
Definition xor_assign (pn b : list Z) : list Z :=
  for_loop 0 WIDTH (fun i pn => pn.[i := Z.lxor pn.[i] b.[i]]) pn.
Definition and_assign (pn b : list Z) : list Z :=
  for_loop 0 WIDTH (fun i pn => pn.[i := Z.land pn.[i] b.[i]]) pn.
Definition or_assign (pn b : list Z) : list Z :=
  for_loop 0 WIDTH (fun i pn => pn.[i := Z.lor pn.[i] b.[i]]) pn.

(** ** Increment, decrement *)

(** [while (++pn[i] == 0 && i < WIDTH-1) i++]; at most [WIDTH] rounds. *)
Fixpoint inc_loop (fuel i : nat) (pn : list Z) : list Z :=
  match fuel with
  | O => pn
  | S f =>
      let pn := pn.[i := u32 (pn.[i] + 1)] in
      if (pn.[i] =? 0) && (i <? WIDTH - 1)%nat then inc_loop f (S i) pn else pn
  end.
Definition base_uint_inc (pn : list Z) : list Z := inc_loop WIDTH 0 pn.

Fixpoint dec_loop (fuel i : nat) (pn : list Z) : list Z :=
  match fuel with
  | O => pn
  | S f =>
      let pn := pn.[i := u32 (pn.[i] - 1)] in
      if (pn.[i] =? u32 (-1)) && (i <? WIDTH - 1)%nat then dec_loop f (S i) pn else pn
  end.
Definition base_uint_dec (pn : list Z) : list Z := dec_loop WIDTH 0 pn.

(** ** Ring operators *)

Definition base_uint_neg (pn : list Z) : list Z :=
  let ret := for_loop 0 WIDTH (fun i ret => ret.[i := u32 (Z.lnot pn.[i])]) base_uint_zero in
  base_uint_inc ret.

Definition add_assign (pn b : list Z) : list Z :=
  fst (for_loop 0 WIDTH
         (fun i '(pn, carry) =>
            let n := u64 (carry + pn.[i] + b.[i]) in
            (pn.[i := Z.land n 0xffffffff], Z.shiftr n 32))
         (pn, 0)).

Definition sub_assign (pn b : list Z) : list Z := add_assign pn (base_uint_neg b).

Definition mul32_assign (pn : list Z) (b32 : Z) : list Z :=
  fst (for_loop 0 WIDTH
         (fun i '(pn, carry) =>
            let n := u64 (carry + u64 (b32 * pn.[i])) in
            (pn.[i := Z.land n 0xffffffff], Z.shiftr n 32))
         (pn, 0)).

Definition mul_row (a b : list Z) (j : nat) (pn : list Z) : list Z :=
  fst (for_loop 0 (WIDTH - j)
         (fun i '(pn, carry) =>
            let n := u64 (carry + pn.[(i + j)%nat] + u64 (a.[j] * b.[i])) in
            (pn.[(i + j)%nat := Z.land n 0xffffffff], Z.shiftr n 32))
         (pn, 0)).
Definition mul_assign (pn b : list Z) : list Z :=
  let a := pn in
  for_loop 0 WIDTH (mul_row a b) (base_uint_of_u64 0).

(** ** Shifts *)

Definition shl_assign (pn : list Z) (shift : Z) : list Z :=
  let a := pn in
  let k := Z.to_nat (shift / 32) in
  let shift := shift mod 32 in
  for_loop 0 WIDTH
    (fun i pn =>
       let pn :=
         if (i + k + 1 <? WIDTH)%nat && negb (shift =? 0)
         then pn.[(i + k + 1)%nat := Z.lor pn.[(i + k + 1)%nat] (Z.shiftr a.[i] (32 - shift))]
         else pn in
       if (i + k <? WIDTH)%nat
       then pn.[(i + k)%nat := Z.lor pn.[(i + k)%nat] (u32 (Z.shiftl a.[i] shift))]
       else pn)
    base_uint_zero.

Definition shr_assign (pn : list Z) (shift : Z) : list Z :=
  let a := pn in
  let k := Z.to_nat (shift / 32) in
  let shift := shift mod 32 in
  for_loop 0 WIDTH
    (fun i pn =>
       let pn :=
         if (k + 1 <=? i)%nat && negb (shift =? 0)
         then pn.[(i - k - 1)%nat := Z.lor pn.[(i - k - 1)%nat] (u32 (Z.shiftl a.[i] (32 - shift)))]
         else pn in
       if (k <=? i)%nat
       then pn.[(i - k)%nat := Z.lor pn.[(i - k)%nat] (Z.shiftr a.[i] shift)]
       else pn)
    base_uint_zero.

(** ** Number of bits *)

(** [for (bits = 31; bits > 0; bits--) if (pn[pos] & 1 << bits) return 32*pos + bits + 1;
     return 32*pos + 1;] *)
Fixpoint bits_in_limb (limb : Z) (pos bits : nat) : Z :=
  match bits with
  | O => 32 * Z.of_nat pos + 1
  | S b =>
      if negb (Z.land limb (Z.shiftl 1 (Z.of_nat bits)) =? 0)
      then 32 * Z.of_nat pos + Z.of_nat bits + 1
      else bits_in_limb limb pos b
  end.
Fixpoint bits_from (pn : list Z) (n : nat) : Z :=
  match n with
  | O => 0
  | S pos => if negb (pn.[pos] =? 0) then bits_in_limb pn.[pos] pos 31
             else bits_from pn pos
  end.
Definition base_uint_bits (pn : list Z) : Z := bits_from pn WIDTH.

(** ** Division *)

(** [while (shift >= 0) { ... shift--; }], [n] is [shift + 1]; the state is the
    quotient, [num] and [div]. *)
Fixpoint div_loop (n : nat) (pn num div : list Z) : list Z :=
  match n with
  | O => pn
  | S shift =>
      let '(num, pn) :=
        if base_uint_ge num div
        then (sub_assign num div,
              pn.[(shift / 32)%nat
                  := Z.lor pn.[(shift / 32)%nat]
                           (u32 (Z.shiftl 1 (Z.land (Z.of_nat shift) 31)))])
        else (num, pn) in
      let div := shr_assign div 1 in
      div_loop shift pn num div
  end.

(** [None]: [throw uint_error("Division by zero")]. *)
Definition div_assign (pn b : list Z) : option (list Z) :=
  let div := b in
  let num := pn in
  let pn := base_uint_of_u64 0 in
  let num_bits := base_uint_bits num in
  let div_bits := base_uint_bits div in
  if div_bits =? 0 then None
  else if div_bits >? num_bits then Some pn
  else
    let shift := num_bits - div_bits in
    let div := shl_assign div shift in
    Some (div_loop (Z.to_nat (shift + 1)) pn num div).

(** ** Reading words *)

Definition GetLow64 (pn : list Z) : Z := Z.lor pn.[0%nat] (u64 (Z.shiftl pn.[1%nat] 32)).

End BaseUint.

(** * 256-bit integers and the compact format *)

Definition WIDTH256 : nat := 8.

(** [SetCompact]: the new value and the two out-parameters. *)
Definition SetCompact (nCompact : Z) : list Z * bool * bool :=
  let nSize := Z.shiftr nCompact 24 in
  let nWord := Z.land nCompact 0x007fffff in
  let '(this, nWord) :=
    if nSize <=? 3 then
      let nWord := Z.shiftr nWord (8 * (3 - nSize)) in
      (base_uint_of_u64 WIDTH256 nWord, nWord)
    else
      (shl_assign WIDTH256 (base_uint_of_u64 WIDTH256 nWord) (8 * (nSize - 3)), nWord) in
  let fNegative := negb (nWord =? 0) && negb (Z.land nCompact 0x00800000 =? 0) in
  let fOverflow :=
    negb (nWord =? 0) && ((nSize >? 34)
                          || ((nWord >? 0xff) && (nSize >? 33))
                          || ((nWord >? 0xffff) && (nSize >? 32))) in
  (this, fNegative, fOverflow).

(** [GetCompact]; [None] when one of the two assertions fails. *)
Definition GetCompact (pn : list Z) (fNegative : bool) : option Z :=
  let nSize := (base_uint_bits WIDTH256 pn + 7) / 8 in
  let nCompact :=
    if nSize <=? 3 then u32 (u64 (Z.shiftl (GetLow64 pn) (8 * (3 - nSize))))
    else
      let bn := shr_assign WIDTH256 pn (8 * (nSize - 3)) in
      u32 (GetLow64 bn) in
  let '(nCompact, nSize) :=
    if negb (Z.land nCompact 0x00800000 =? 0)
    then (Z.shiftr nCompact 8, nSize + 1)
    else (nCompact, nSize) in
  if negb (Z.land nCompact (u32 (Z.lnot 0x007fffff)) =? 0) then None
  else if negb (nSize <? 256) then None
  else
    let nCompact := Z.lor nCompact (u32 (Z.shiftl nSize 24)) in
    let nCompact :=
      Z.lor nCompact
        (if fNegative && negb (Z.land nCompact 0x007fffff =? 0) then 0x00800000 else 0) in
    Some nCompact.

(** * Meaning of an array *)

(** Value of the [n] low limbs. *)
Fixpoint pval (n : nat) (l : list Z) : Z :=
  match n with
  | O => 0
  | S k => pval k l + l.[k] * 2 ^ (32 * Z.of_nat k)
  end.

Definition limbs_ok (l : list Z) : Prop := forall i, 0 <= l.[i] < 2 ^ 32.

(** A well-formed object of [WIDTH] limbs. *)
Definition wf (W : nat) (l : list Z) : Prop := length l = W /\ limbs_ok l.

Definition val (W : nat) (l : list Z) : Z := pval W l.
Definition modulus (W : nat) : Z := 2 ^ (32 * Z.of_nat W).

(** * Arrays as numbers *)

Lemma limb_pow n : 2 ^ (32 * Z.of_nat (S n)) = 2 ^ 32 * 2 ^ (32 * Z.of_nat n).
Proof. rewrite <- Z.pow_add_r by lia. f_equal; lia. Qed.

Lemma modulus_pos W : 0 < modulus W.
Proof. apply pow2_pos; lia. Qed.

Lemma pval_bound n l : limbs_ok l -> 0 <= pval n l < 2 ^ (32 * Z.of_nat n).
Proof.
  intros H. induction n as [|n IH]; [cbn; lia|].
  cbn [pval]. rewrite limb_pow. specialize (H n). nia.
Qed.

Lemma pval_ext n l l' : (forall i, (i < n)%nat -> l.[i] = l'.[i]) -> pval n l = pval n l'.
Proof.
  induction n as [|n IH]; intros H; [reflexivity|]. cbn [pval].
  rewrite IH by (intros; apply H; lia). now rewrite H by lia.
Qed.

Lemma pval_upd_ge n l i v : (n <= i)%nat -> pval n (upd l i v) = pval n l.
Proof. intros. apply pval_ext. intros j Hj. apply nth_upd_ne. lia. Qed.

Lemma pval_upd n l i v :
  (i < length l)%nat -> (i < n)%nat ->
  pval n (upd l i v) = pval n l + (v - l.[i]) * 2 ^ (32 * Z.of_nat i).
Proof.
  intros Hi. induction n as [|n IH]; intros Hn; [lia|]. cbn [pval].
  destruct (Nat.eq_dec i n) as [->|].
  - rewrite pval_upd_ge, nth_upd_eq by lia. ring.
  - rewrite IH, nth_upd_ne by lia. ring.
Qed.

Lemma pval_zero n l : (forall i, (i < n)%nat -> l.[i] = 0) -> pval n l = 0.
Proof.
  induction n as [|n IH]; intros H; [reflexivity|]. cbn [pval].
  rewrite IH, H by (lia || (intros; apply H; lia)). lia.
Qed.

Lemma limbs_ok_upd l i v : limbs_ok l -> 0 <= v < 2 ^ 32 -> limbs_ok (upd l i v).
Proof.
  intros H Hv j. destruct (Nat.ltb_spec i (length l)).
  - rewrite nth_upd by assumption. destruct (i =? j)%nat; auto.
  - destruct (Nat.eq_dec i j) as [->|].
    + rewrite nth_overflow by (rewrite length_upd; lia). lia.
    + rewrite nth_upd_ne by assumption. auto.
Qed.
#[export] Hint Resolve limbs_ok_upd : passion.

Lemma wf_upd W l i v : wf W l -> 0 <= v < 2 ^ 32 -> wf W (upd l i v).
Proof. intros [Hl H] Hv. split; [now rewrite length_upd | auto with passion]. Qed.
#[export] Hint Resolve wf_upd : passion.

Lemma wf_zero W : wf W (base_uint_zero W).
Proof.
  split; [apply repeat_length|]. intros i. unfold base_uint_zero.
  destruct (Nat.ltb_spec i W).
  - rewrite nth_repeat_lt by assumption. lia.
  - rewrite nth_overflow by (rewrite repeat_length; lia). lia.
Qed.
#[export] Hint Resolve wf_zero : passion.

Lemma nth_zero W i : (base_uint_zero W).[i] = 0.
Proof. apply nth_repeat. Qed.

Lemma val_range W l : wf W l -> 0 <= val W l < modulus W.
Proof. intros [_ H]. now apply pval_bound. Qed.
#[export] Hint Resolve val_range : passion.

Lemma digit_unique P r r' a a' :
  0 <= r < P -> 0 <= r' < P -> r + a * P = r' + a' * P -> a = a'.
Proof.
  intros. destruct (Z.lt_total a a') as [H2|[H2|H2]]; [|assumption|]; exfalso; nia.
Qed.

(** Well-formed arrays with the same value are equal: [memcmp] equality is
    equality of the numbers. *)
Lemma pval_inj n l l' : limbs_ok l -> limbs_ok l' ->
  pval n l = pval n l' -> forall i, (i < n)%nat -> l.[i] = l'.[i].
Proof.
  intros H H'. induction n as [|n IH]; intros E i Hi; [lia|]. cbn in E.
  pose proof (pval_bound n l H). pose proof (pval_bound n l' H').
  assert (l.[n] = l'.[n]) by (eapply digit_unique; [| | exact E]; assumption).
  destruct (Nat.eq_dec i n) as [->|]; [assumption|]. apply IH; [|lia].
  rewrite H2 in E. lia.
Qed.

Lemma val_inj W l l' : wf W l -> wf W l' -> val W l = val W l' -> l = l'.
Proof.
  intros [Hl H] [Hl' H'] E. apply (nth_ext _ _ 0 0); [congruence|].
  intros i Hi. apply (pval_inj W); auto; lia.
Qed.

(** ** The low 64 bits *)

Lemma val_of_u64 W b : (2 <= W)%nat -> 0 <= b < 2 ^ 64 ->
  wf W (base_uint_of_u64 W b) /\ val W (base_uint_of_u64 W b) = b.
Proof.
  intros HW Hb. unfold base_uint_of_u64.
  set (p := upd _ 1%nat _).
  assert (Hp : wf W p) by (unfold p; auto using wf_zero, u32_range with passion).
  assert (Hb' : Z.shiftr b 32 = b / 2 ^ 32) by (apply Z.shiftr_div_pow2; lia).
  assert (0 <= b / 2 ^ 32 < 2 ^ 32)
    by (split; [apply Z.div_pos; lia | apply Z.div_lt_upper_bound; lia]).
  assert (Hi : forall i, p.[i] = match i with 0%nat => b mod 2 ^ 32 | 1%nat => b / 2 ^ 32 | _ => 0 end).
  { intros i. unfold p. rewrite Hb', (u32_small (b / 2 ^ 32)) by assumption.
    rewrite !nth_upd by (rewrite ?length_upd; unfold base_uint_zero; rewrite repeat_length; lia).
    destruct i as [|[|i]]; cbn; try reflexivity. apply nth_zero. }
  set (r := for_loop _ _ _ _).
  assert (Hr : wf W r /\ forall i, r.[i] = p.[i]).
  { unfold r. replace W with (2 + (W - 2))%nat at 1 by lia.
    apply (for_loop_inv (fun _ q => wf (2 + (W - 2)) q /\ forall i, q.[i] = p.[i])).
    - replace (2 + (W - 2))%nat with W by lia. auto.
    - intros i q Hr [Hq Eq]. split; [apply wf_upd; [assumption|lia]|].
      intros j. destruct Hq as [Hlen _].
      rewrite nth_upd by lia. rewrite <- Eq.
      destruct (Nat.eqb_spec i j); [subst|reflexivity].
      rewrite Eq, Hi. destruct j as [|[|j]]; lia. }
  destruct Hr as [Hw Hr]. split; [assumption|].
  unfold val. rewrite (pval_ext W r p) by auto.
  destruct W as [|[|W]]; try lia.
  assert (E : forall n, pval (S (S n)) p = b).
  { induction n as [|n IH].
    - cbn [pval]. rewrite !Hi. change (32 * Z.of_nat 0) with 0. change (32 * Z.of_nat 1) with 32.
      pose proof (Z.div_mod b (2 ^ 32)). lia.
    - cbn [pval] in *. rewrite IH. rewrite (Hi (S (S n))). lia. }
  apply E.
Qed.

(** ** Ring operators *)

Lemma val_congr W l x q :
  wf W l -> val W l = x + q * modulus W -> val W l = x mod modulus W.
Proof.
  intros H E. pose proof (val_range W l H).
  replace x with (val W l + (-q) * modulus W) by lia.
  rewrite Z.mod_add by (pose proof (modulus_pos W); lia). now rewrite Z.mod_small.
Qed.

Lemma split32 n : 0 <= n -> Z.land n 0xffffffff = n - Z.shiftr n 32 * 2 ^ 32 /\
  0 <= Z.land n 0xffffffff < 2 ^ 32 /\ 0 <= Z.shiftr n 32.
Proof.
  intros. rewrite land_ffffffff, Z.shiftr_div_pow2 by lia.
  pose proof (Z.div_mod n (2 ^ 32)). pose proof (Z.mod_pos_bound n (2 ^ 32)).
  pose proof (Z.div_pos n (2 ^ 32)). lia.
Qed.

(** Invariant of the carry loops: a sum written into limb [i], its carry kept. *)
Lemma carry_step W p c i n x :
  wf W p -> (i < W)%nat -> 0 <= n < 2 ^ 64 -> n = c + p.[i] + x ->
  let p' := p.[i := Z.land n 0xffffffff] in
  wf W p' /\
  val W p' + Z.shiftr n 32 * 2 ^ (32 * Z.of_nat (S i)) =
    val W p + (c + x) * 2 ^ (32 * Z.of_nat i) /\
  0 <= Z.shiftr n 32 < 2 ^ 32.
Proof.
  intros Hw Hi Hn En. destruct (split32 n) as (E & R & S0); [lia|].
  split; [auto with passion|]. split.
  - unfold val. rewrite pval_upd by (destruct Hw; lia). rewrite E, limb_pow. nia.
  - rewrite Z.shiftr_div_pow2 in * by lia. split; [lia|].
    apply Z.div_lt_upper_bound; lia.
Qed.

Lemma add_assign_val W a b : wf W a -> wf W b ->
  wf W (add_assign W a b) /\ val W (add_assign W a b) = (val W a + val W b) mod modulus W.
Proof.
  intros Ha Hb. unfold add_assign.
  set (body := fun _ _ => _).
  pose proof (for_loop_inv (fun i '(p, c) => wf W p /\ 0 <= c <= 1 /\
     val W p + c * 2 ^ (32 * Z.of_nat i) = val W a + pval i b /\
     (forall j, (i <= j)%nat -> p.[j] = a.[j])) body W 0%nat (a, 0)) as H.
  destruct (for_loop 0 W body (a, 0)) as [r c].
  destruct H as (Hr & Hc & Hv & _).
  - repeat split; try apply Ha; cbn [pval]; lia.
  - intros i [p c'] Hi (Hp & Hc & Hv & Hj). cbn [body].
    pose proof (proj2 Hp i) as Rp. pose proof (proj2 Hb i) as Rb.
    rewrite u64_small by lia.
    destruct (carry_step W p c' i (c' + p.[i] + b.[i]) b.[i]) as (H1 & H2 & H3); auto; try lia.
    split; [exact H1|]. replace (i + 1)%nat with (S i) by lia. split.
    { rewrite Z.shiftr_div_pow2 in * by lia. split; [lia|].
      apply Z.lt_succ_r. apply Z.div_lt_upper_bound; lia. }
    split; [cbn [pval]; lia|].
    intros j Hj'. rewrite nth_upd_ne by lia. apply Hj. lia.
  - cbn [fst]. split; [exact Hr|]. apply (val_congr W r _ (- c)); [exact Hr|].
    unfold val, modulus in *. cbn [Nat.add] in Hv. lia.
Qed.

Lemma mul32_assign_val W a b : wf W a -> 0 <= b < 2 ^ 32 ->
  wf W (mul32_assign W a b) /\ val W (mul32_assign W a b) = (val W a * b) mod modulus W.
Proof.
  intros Ha Hb. unfold mul32_assign.
  set (body := fun _ _ => _).
  pose proof (for_loop_inv (fun i '(p, c) => wf W p /\ 0 <= c < 2 ^ 32 /\
     val W p + c * 2 ^ (32 * Z.of_nat i) = val W a + pval i a * (b - 1) /\
     (forall j, (i <= j)%nat -> p.[j] = a.[j])) body W 0%nat (a, 0)) as H.
  destruct (for_loop 0 W body (a, 0)) as [r c].
  destruct H as (Hr & Hc & Hv & _).
  - repeat split; try apply Ha; cbn [pval]; lia.
  - intros i [p c'] Hi (Hp & Hc & Hv & Hj). cbn [body].
    pose proof (proj2 Hp i) as Rp.
    rewrite (u64_small (b * _)), u64_small by nia.
    destruct (carry_step W p c' i (c' + b * p.[i]) ((b - 1) * p.[i])) as (H1 & H2 & H3);
      auto; try nia; try lia.
    split; [exact H1|]. replace (i + 1)%nat with (S i) by lia. split; [exact H3|].
    split.
    + cbn [pval]. rewrite H2, (Hj i) by lia. rewrite <- (Hj i) by lia. nia.
    + intros j Hj'. rewrite nth_upd_ne by lia. apply Hj. lia.
  - cbn [fst]. split; [exact Hr|]. apply (val_congr W r _ (- c)); [exact Hr|].
    unfold val, modulus in *. cbn [Nat.add] in Hv. lia.
Qed.

(** Shifted by [j] limbs, the limbs of [b] from [W - j] up are multiples of the
    modulus. *)
Lemma pval_low_limbs W b j : (j <= W)%nat -> exists q,
  2 ^ (32 * Z.of_nat j) * pval W b =
  2 ^ (32 * Z.of_nat j) * pval (W - j) b + q * modulus W.
Proof.
  intros Hj.
  assert (E : forall k, (k <= j)%nat -> exists q,
     2 ^ (32 * Z.of_nat j) * pval (W - j + k) b =
     2 ^ (32 * Z.of_nat j) * pval (W - j) b + q * modulus W).
  { induction k as [|k IH]; intros Hk.
    - exists 0. rewrite Nat.add_0_r. lia.
    - destruct IH as [q Hq]; [lia|]. replace (W - j + S k)%nat with (S (W - j + k)) by lia.
      exists (q + b.[(W - j + k)%nat] * 2 ^ (32 * Z.of_nat k)).
      cbn [pval]. rewrite Z.mul_add_distr_l, Hq. unfold modulus.
      replace (32 * Z.of_nat (W - j + k)) with (32 * Z.of_nat W - 32 * Z.of_nat j + 32 * Z.of_nat k) by lia.
      rewrite Z.pow_add_r by lia.
      replace (2 ^ (32 * Z.of_nat W)) with (2 ^ (32 * Z.of_nat W - 32 * Z.of_nat j) * 2 ^ (32 * Z.of_nat j))
        by (rewrite <- Z.pow_add_r by lia; f_equal; lia). ring. }
  destruct (E j) as [q Hq]; [lia|]. exists q. now replace (W - j + j)%nat with W in Hq by lia.
Qed.

Lemma mul_row_val W a b j p : wf W a -> wf W b -> wf W p -> (j < W)%nat ->
  wf W (mul_row W a b j p) /\
  exists q, val W (mul_row W a b j p) =
    val W p + a.[j] * 2 ^ (32 * Z.of_nat j) * val W b + q * modulus W.
Proof.
  intros Ha Hb Hp Hj. unfold mul_row.
  set (body := fun _ _ => _).
  pose proof (for_loop_inv (fun i '(r, c) => wf W r /\ 0 <= c < 2 ^ 32 /\
     val W r + c * 2 ^ (32 * Z.of_nat (i + j)) =
       val W p + a.[j] * 2 ^ (32 * Z.of_nat j) * pval i b) body (W - j) 0%nat (p, 0)) as H.
  destruct (for_loop 0 (W - j) body (p, 0)) as [r c].
  destruct H as (Hr & Hc & Hv).
  - repeat split; try apply Hp; cbn [pval]; lia.
  - intros i [r' c'] Hi (Hr & Hc & Hv). cbn [body].
    pose proof (proj2 Hr (i + j)%nat) as Rp. pose proof (proj2 Ha j) as Ra.
    pose proof (proj2 Hb i) as Rb.
    rewrite (u64_small (_ * _)), u64_small by nia.
    destruct (carry_step W r' c' (i + j) (c' + r'.[(i + j)%nat] + a.[j] * b.[i]) (a.[j] * b.[i]))
      as (H1 & H2 & H3); auto; try nia; try lia.
    split; [exact H1|]. split; [exact H3|].
    replace (i + 1 + j)%nat with (S (i + j)) by lia. rewrite H2.
    replace (i + 1)%nat with (S i) by lia. cbn [pval].
    replace (32 * Z.of_nat (i + j)) with (32 * Z.of_nat i + 32 * Z.of_nat j) in * by lia.
    rewrite Z.pow_add_r in * by lia. lia.
  - cbn [fst]. split; [exact Hr|].
    replace (0 + (W - j) + j)%nat with W in Hv by lia. fold (modulus W) in Hv.
    destruct (pval_low_limbs W b j) as [q Hq]; [lia|].
    exists (- c - a.[j] * q). cbn [Nat.add] in Hv.
    replace (a.[j] * 2 ^ (32 * Z.of_nat j) * val W b)
      with (a.[j] * (2 ^ (32 * Z.of_nat j) * pval W b)) by (unfold val; ring).
    rewrite Hq. lia.
Qed.

Lemma mul_assign_val W a b : (2 <= W)%nat -> wf W a -> wf W b ->
  wf W (mul_assign W a b) /\ val W (mul_assign W a b) = (val W a * val W b) mod modulus W.
Proof.
  intros HW Ha Hb. unfold mul_assign.
  destruct (val_of_u64 W 0 HW) as [Hz Ez]; [lia|].
  pose proof (for_loop_inv (fun i p => wf W p /\ exists q,
     val W p = pval i a * val W b + q * modulus W) (mul_row W a b) W 0%nat
     (base_uint_of_u64 W 0)) as H.
  destruct H as [Hr [q Hq]].
  - split; [exact Hz|]. exists 0. rewrite Ez. cbn [pval]. lia.
  - intros i p Hi [Hp [q Hq]].
    destruct (mul_row_val W a b i p) as [H1 [q' H2]]; auto; [lia|].
    split; [exact H1|]. exists (q + q'). rewrite H2, Hq.
    replace (i + 1)%nat with (S i) by lia. cbn [pval]. ring.
  - split; [exact Hr|]. apply (val_congr W _ _ q); [exact Hr|]. exact Hq.
Qed.

(** ** Increment and decrement *)

Lemma inc_loop_val W f : forall i p, wf W p -> (i < W)%nat -> f = (W - i)%nat ->
  wf W (inc_loop W f i p) /\ exists q,
  val W (inc_loop W f i p) = val W p + 2 ^ (32 * Z.of_nat i) + q * modulus W.
Proof.
  induction f as [|f IH]; intros i p Hp Hi Hf; [lia|]. cbn [inc_loop].
  pose proof (proj2 Hp i) as Ri.
  assert (Hlen : (i < length p)%nat) by (destruct Hp; lia).
  assert (Hp' : wf W p.[i := u32 (p.[i] + 1)]) by auto with passion.
  assert (Hv : val W p.[i := u32 (p.[i] + 1)] =
               val W p + (u32 (p.[i] + 1) - p.[i]) * 2 ^ (32 * Z.of_nat i))
    by (apply pval_upd; lia).
  rewrite nth_upd_eq by assumption.
  destruct (Z.eq_dec (p.[i] + 1) (2 ^ 32)) as [E|E].
  - assert (E0 : u32 (p.[i] + 1) = 0) by (rewrite E; reflexivity).
    rewrite E0 in *. cbn [Z.eqb andb].
    replace (p.[i]) with (2 ^ 32 - 1) in Hv by lia.
    pose proof (limb_pow i) as HL.
    destruct (Nat.ltb_spec i (W - 1)).
    + destruct (IH (S i) p.[i := 0] Hp') as [H1 [q Hq]]; [lia|lia|].
      split; [exact H1|]. exists q. rewrite Hq, Hv, HL. ring.
    + split; [exact Hp'|]. exists (-1). rewrite Hv. unfold modulus.
      replace W with (S i) by lia. rewrite HL. ring.
  - rewrite u32_small in * by lia.
    destruct (Z.eqb_spec (p.[i] + 1) 0); [lia|]. cbn [andb].
    split; [exact Hp'|]. exists 0. rewrite Hv. ring.
Qed.

Lemma dec_loop_val W f : forall i p, wf W p -> (i < W)%nat -> f = (W - i)%nat ->
  wf W (dec_loop W f i p) /\ exists q,
  val W (dec_loop W f i p) = val W p - 2 ^ (32 * Z.of_nat i) + q * modulus W.
Proof.
  induction f as [|f IH]; intros i p Hp Hi Hf; [lia|]. cbn [dec_loop].
  pose proof (proj2 Hp i) as Ri.
  assert (Hlen : (i < length p)%nat) by (destruct Hp; lia).
  assert (Hp' : wf W p.[i := u32 (p.[i] - 1)]) by auto with passion.
  assert (Hv : val W p.[i := u32 (p.[i] - 1)] =
               val W p + (u32 (p.[i] - 1) - p.[i]) * 2 ^ (32 * Z.of_nat i))
    by (apply pval_upd; lia).
  rewrite nth_upd_eq by assumption.
  change (u32 (-1)) with (2 ^ 32 - 1).
  destruct (Z.eq_dec p.[i] 0) as [E|E].
  - assert (E0 : u32 (p.[i] - 1) = 2 ^ 32 - 1) by (rewrite E; reflexivity).
    rewrite E0 in *. rewrite Z.eqb_refl. cbn [andb].
    rewrite E in Hv. pose proof (limb_pow i) as HL.
    destruct (Nat.ltb_spec i (W - 1)).
    + destruct (IH (S i) p.[i := 2 ^ 32 - 1] Hp') as [H1 [q Hq]]; [lia|lia|].
      split; [exact H1|]. exists q. rewrite Hq, Hv, HL. ring.
    + split; [exact Hp'|]. exists 1. rewrite Hv. unfold modulus.
      replace W with (S i) by lia. rewrite HL. ring.
  - rewrite u32_small in * by lia.
    destruct (Z.eqb_spec (p.[i] - 1) (2 ^ 32 - 1)); [lia|]. cbn [andb].
    split; [exact Hp'|]. exists 0. rewrite Hv. ring.
Qed.

Lemma base_uint_inc_val W p : (0 < W)%nat -> wf W p ->
  wf W (base_uint_inc W p) /\ val W (base_uint_inc W p) = (val W p + 1) mod modulus W.
Proof.
  intros HW Hp. destruct (inc_loop_val W W 0 p Hp) as [H [q Hq]]; [lia|lia|].
  split; [exact H|]. now apply (val_congr W _ _ q).
Qed.

Lemma base_uint_dec_val W p : (0 < W)%nat -> wf W p ->
  wf W (base_uint_dec W p) /\ val W (base_uint_dec W p) = (val W p - 1) mod modulus W.
Proof.
  intros HW Hp. destruct (dec_loop_val W W 0 p Hp) as [H [q Hq]]; [lia|lia|].
  split; [exact H|]. now apply (val_congr W _ _ q).
Qed.

(** ** Pointwise loops *)

Lemma for_pointwise W (g : nat -> Z -> Z) p :
  wf W p -> (forall i, (i < W)%nat -> 0 <= g i p.[i] < 2 ^ 32) ->
  wf W (for_loop 0 W (fun i q => q.[i := g i q.[i]]) p) /\
  forall i, (i < W)%nat -> (for_loop 0 W (fun i q => q.[i := g i q.[i]]) p).[i] = g i p.[i].
Proof.
  intros Hp Hg.
  pose proof (for_loop_inv (fun n q => wf W q /\ forall i,
    q.[i] = if (i <? n)%nat then g i p.[i] else p.[i])
    (fun i q => q.[i := g i q.[i]]) W 0%nat p) as H.
  destruct H as [H1 H2].
  - split; [exact Hp|]. intros i. now destruct (Nat.ltb_spec i 0); [lia|].
  - intros n q Hn [Hq E]. specialize (Hg n). rewrite (E n), Nat.ltb_irrefl.
    split; [apply wf_upd; auto; apply Hg; lia|].
    intros i. destruct (Nat.eq_dec n i) as [->|].
    + rewrite nth_upd_eq by (destruct Hq; lia).
      destruct (Nat.ltb_spec i (i + 1)); [reflexivity|lia].
    + rewrite nth_upd_ne by assumption. rewrite E.
      destruct (Nat.ltb_spec i n), (Nat.ltb_spec i (n + 1)); auto; lia.
  - split; [exact H1|]. intros i Hi. rewrite H2.
    destruct (Nat.ltb_spec i (0 + W)); [reflexivity|lia].
Qed.

Lemma lnot_u32 x : 0 <= x < 2 ^ 32 -> u32 (Z.lnot x) = 2 ^ 32 - 1 - x.
Proof.
  intros. unfold u32. replace (Z.lnot x) with ((2 ^ 32 - 1 - x) + (-1) * 2 ^ 32)
    by (unfold Z.lnot; lia).
  rewrite Z.mod_add by lia. now rewrite Z.mod_small by lia.
Qed.

Lemma pval_complement n l l' :
  (forall i, (i < n)%nat -> l'.[i] = 2 ^ 32 - 1 - l.[i]) ->
  pval n l' = 2 ^ (32 * Z.of_nat n) - 1 - pval n l.
Proof.
  induction n as [|n IH]; intros H; [reflexivity|]. cbn [pval].
  rewrite IH by (intros; apply H; lia). rewrite H, limb_pow by lia. ring.
Qed.

Lemma base_uint_not_val W a : wf W a ->
  wf W (base_uint_not W a) /\ val W (base_uint_not W a) = modulus W - 1 - val W a.
Proof.
  intros Ha. unfold base_uint_not.
  destruct (for_pointwise W (fun i _ => u32 (Z.lnot a.[i])) (base_uint_zero W)) as [H1 H2];
    auto with passion.
  split; [exact H1|]. apply pval_complement. intros i Hi.
  rewrite H2, lnot_u32 by (auto; apply Ha). reflexivity.
Qed.

Lemma base_uint_neg_val W a : (0 < W)%nat -> wf W a ->
  wf W (base_uint_neg W a) /\ val W (base_uint_neg W a) = (- val W a) mod modulus W.
Proof.
  intros HW Ha. destruct (base_uint_not_val W a Ha) as [H1 H2].
  destruct (base_uint_inc_val W _ HW H1) as [H3 H4].
  split; [exact H3|]. unfold base_uint_neg. fold (base_uint_not W a). rewrite H4, H2.
  replace (modulus W - 1 - val W a + 1) with (- val W a + 1 * modulus W) by ring.
  apply Z.mod_add. pose proof (modulus_pos W); lia.
Qed.

Lemma sub_assign_val W a b : (0 < W)%nat -> wf W a -> wf W b ->
  wf W (sub_assign W a b) /\ val W (sub_assign W a b) = (val W a - val W b) mod modulus W.
Proof.
  intros HW Ha Hb. destruct (base_uint_neg_val W b HW Hb) as [H1 H2].
  destruct (add_assign_val W a _ Ha H1) as [H3 H4]. split; [exact H3|].
  unfold sub_assign. rewrite H4, H2. rewrite Zplus_mod_idemp_r. f_equal; lia.
Qed.

(** ** Bitwise operators *)

Lemma testbit_pval n l : limbs_ok l -> forall i, 0 <= i < 32 * Z.of_nat n ->
  Z.testbit (pval n l) i = Z.testbit l.[Z.to_nat (i / 32)] (i mod 32).
Proof.
  intros H. induction n as [|n IH]; intros i Hi; [lia|]. cbn [pval].
  pose proof (pval_bound n l H) as B. pose proof (H n) as Hn.
  set (k := 32 * Z.of_nat n) in *.
  rewrite Z.add_comm, <- (lor_add_disjoint (l.[n] * 2 ^ k) (pval n l) k);
    [|lia|assumption|apply Z.mod_mul; pose proof (pow2_pos k); lia].
  rewrite Z.lor_spec, <- Z.shiftl_mul_pow2, Z.shiftl_spec by lia.
  destruct (Z.ltb_spec i k).
  - rewrite (Z.testbit_neg_r _ (i - k)) by lia. apply IH. lia.
  - rewrite <- (Z.mod_small (pval n l) (2 ^ k)), Z.mod_pow2_bits_high, orb_false_r by lia.
    assert (E : i / 32 = Z.of_nat n) by (symmetry; apply (Z.div_unique _ _ _ (i - k)); lia).
    rewrite E, Nat2Z.id. f_equal. pose proof (Z.div_mod i 32). lia.
Qed.

Lemma pointwise_bits W (op : Z -> Z -> Z) (f : bool -> bool -> bool) a b r :
  (forall x y i, Z.testbit (op x y) i = f (Z.testbit x i) (Z.testbit y i)) ->
  f false false = false -> wf W a -> wf W b -> wf W r ->
  (forall i, (i < W)%nat -> r.[i] = op a.[i] b.[i]) -> val W r = op (val W a) (val W b).
Proof.
  intros Hop Hf Ha Hb Hr E. apply Z.bits_inj'. intros i Hi. rewrite Hop.
  destruct (Z.ltb_spec i (32 * Z.of_nat W)).
  - unfold val. rewrite !testbit_pval by (try lia; apply Hr || apply Ha || apply Hb).
    rewrite E, Hop; [reflexivity|].
    pose proof (Z.div_lt_upper_bound i 32 (Z.of_nat W)). lia.
  - rewrite <- (Z.mod_small (val W r) (modulus W)), <- (Z.mod_small (val W a) (modulus W)),
      <- (Z.mod_small (val W b) (modulus W)) by auto with passion.
    unfold modulus. rewrite !Z.mod_pow2_bits_high by lia. now rewrite Hf.
Qed.

Lemma op_limb_range op f x y :
  (forall x y i, Z.testbit (op x y) i = f (Z.testbit x i) (Z.testbit y i)) ->
  f false false = false ->
  0 <= x < 2 ^ 32 -> 0 <= y < 2 ^ 32 -> 0 <= op x y < 2 ^ 32.
Proof.
  intros Hop Hf Hx Hy. replace (op x y) with ((op x y) mod 2 ^ 32).
  - apply Z.mod_pos_bound; reflexivity.
  - apply Z.bits_inj'. intros i Hi. destruct (Z.ltb_spec i 32).
    + now rewrite Z.mod_pow2_bits_low by lia.
    + rewrite Z.mod_pow2_bits_high, Hop by lia.
      rewrite <- (Z.mod_small x (2 ^ 32)), <- (Z.mod_small y (2 ^ 32)) by lia.
      now rewrite !Z.mod_pow2_bits_high by lia.
Qed.

Lemma pointwise_val W (op : Z -> Z -> Z) (f : bool -> bool -> bool) a b :
  (forall x y i, Z.testbit (op x y) i = f (Z.testbit x i) (Z.testbit y i)) ->
  f false false = false -> wf W a -> wf W b ->
  let r := for_loop 0 W (fun i pn => pn.[i := op pn.[i] b.[i]]) a in
  wf W r /\ val W r = op (val W a) (val W b).
Proof.
  intros Hop Hf Ha Hb r.
  destruct (for_pointwise W (fun i x => op x b.[i]) a Ha) as [H1 H2].
  - intros i Hi. apply (op_limb_range op f); auto; [apply Ha | apply Hb].
  - split; [exact H1|]. now apply (pointwise_bits W op f).
Qed.

(** ** Comparisons *)

Lemma compare_limbs_spec a b n : limbs_ok a -> limbs_ok b ->
  compare_limbs a b n = match pval n a ?= pval n b with Lt => -1 | Eq => 0 | Gt => 1 end.
Proof.
  intros Ha Hb. induction n as [|n IH]; [reflexivity|]. cbn [compare_limbs pval].
  pose proof (pval_bound n a Ha). pose proof (pval_bound n b Hb).
  rewrite Z.gtb_ltb. destruct (Z.ltb_spec a.[n] b.[n]).
  - destruct (Z.compare_spec (pval n a + a.[n] * 2 ^ (32 * Z.of_nat n))
                             (pval n b + b.[n] * 2 ^ (32 * Z.of_nat n))); nia.
  - destruct (Z.ltb_spec b.[n] a.[n]).
    + destruct (Z.compare_spec (pval n a + a.[n] * 2 ^ (32 * Z.of_nat n))
                               (pval n b + b.[n] * 2 ^ (32 * Z.of_nat n))); nia.
    + replace b.[n] with a.[n] by lia. now rewrite IH, Zcompare_plus_compat_r || rewrite IH, !(Z.add_comm _ (a.[n] * _)), Zcompare_plus_compat.
Qed.

Lemma CompareTo_spec W a b : wf W a -> wf W b ->
  CompareTo W a b = match val W a ?= val W b with Lt => -1 | Eq => 0 | Gt => 1 end.
Proof. intros [_ Ha] [_ Hb]. now apply compare_limbs_spec. Qed.

Lemma base_uint_ge_spec W a b : wf W a -> wf W b ->
  base_uint_ge W a b = (val W b <=? val W a).
Proof.
  intros Ha Hb. unfold base_uint_ge. rewrite CompareTo_spec by assumption.
  destruct (Z.compare_spec (val W a) (val W b)); symmetry; cbn;
    [apply Z.leb_le | apply Z.leb_gt | apply Z.leb_le]; lia.
Qed.
Lemma base_uint_gt_spec W a b : wf W a -> wf W b ->
  base_uint_gt W a b = (val W b <? val W a).
Proof.
  intros Ha Hb. unfold base_uint_gt. rewrite CompareTo_spec by assumption.
  destruct (Z.compare_spec (val W a) (val W b)); symmetry; cbn;
    [apply Z.ltb_ge | apply Z.ltb_ge | apply Z.ltb_lt]; lia.
Qed.
Lemma base_uint_lt_spec W a b : wf W a -> wf W b ->
  base_uint_lt W a b = (val W a <? val W b).
Proof.
  intros Ha Hb. unfold base_uint_lt. rewrite CompareTo_spec by assumption.
  destruct (Z.compare_spec (val W a) (val W b)); symmetry; cbn;
    [apply Z.ltb_ge | apply Z.ltb_lt | apply Z.ltb_ge]; lia.
Qed.
Lemma base_uint_le_spec W a b : wf W a -> wf W b ->
  base_uint_le W a b = (val W a <=? val W b).
Proof.
  intros Ha Hb. unfold base_uint_le. rewrite CompareTo_spec by assumption.
  destruct (Z.compare_spec (val W a) (val W b)); symmetry; cbn;
    [apply Z.leb_le | apply Z.leb_le | apply Z.leb_gt]; lia.
Qed.

Lemma pval_zero_iff n l : limbs_ok l ->
  (pval n l = 0 <-> forall i, (i < n)%nat -> l.[i] = 0).
Proof.
  intros H. split; [|apply pval_zero].
  induction n as [|n IH]; intros E i Hi; [lia|]. cbn [pval] in E.
  pose proof (pval_bound n l H). pose proof (H n).
  pose proof (pow2_pos (32 * Z.of_nat n)).
  assert (l.[n] = 0) by nia. destruct (Nat.eq_dec i n) as [->|]; [assumption|].
  apply IH; [nia|lia].
Qed.

Lemma base_uint_IsNull_spec W a : wf W a -> base_uint_IsNull W a = (val W a =? 0).
Proof.
  intros Ha. unfold base_uint_IsNull.
  pose proof (for_loop_inv (fun n (acc : bool) => acc = (pval n a =? 0))
    (fun i acc => if negb (a.[i] =? 0) then false else acc) W 0%nat true) as H.
  apply H; [reflexivity|]. intros i s Hi ->.
  replace (i + 1)%nat with (S i) by lia. cbn [pval].
  pose proof (pval_bound i a (proj2 Ha)). pose proof (proj2 Ha i).
  pose proof (pow2_pos (32 * Z.of_nat i)).
  destruct (Z.eqb_spec a.[i] 0) as [->|]; cbn [negb]; [f_equal; lia|].
  symmetry. apply Z.eqb_neq. nia.
Qed.

(** ** Number of bits *)

Lemma land_bit x k : 0 <= k -> (Z.land x (Z.shiftl 1 k) =? 0) = negb (Z.testbit x k).
Proof.
  intros Hk. rewrite Z.shiftl_1_l. destruct (Z.testbit x k) eqn:E; cbn.
  - apply Z.eqb_neq. intros H. apply (f_equal (fun z => Z.testbit z k)) in H.
    rewrite Z.land_spec, E, Z.pow2_bits_true, Z.bits_0 in H by lia. discriminate.
  - apply Z.eqb_eq. apply Z.bits_inj'. intros i Hi.
    rewrite Z.land_spec, Z.bits_0, Z.pow2_bits_eqb by lia.
    destruct (Z.eqb_spec k i); [subst; now rewrite E | apply andb_false_r].
Qed.

Lemma bits_in_limb_spec x pos n : 0 < x -> x < 2 ^ (Z.of_nat n + 1) ->
  bits_in_limb x pos n = 32 * Z.of_nat pos + Z.log2 x + 1.
Proof.
  intros Hx. induction n as [|n IH]; intros Hn; cbn [bits_in_limb].
  - replace x with 1 by (cbn in Hn; lia). cbn. lia.
  - rewrite land_bit, negb_involutive by lia.
    destruct (Z.testbit x (Z.of_nat (S n))) eqn:E.
    + replace (Z.log2 x) with (Z.of_nat (S n)); [reflexivity|]. symmetry.
      apply Z.log2_unique; [lia|]. split; [|replace (Z.succ (Z.of_nat (S n))) with (Z.of_nat (S n) + 1); lia].
      destruct (Z.le_gt_cases (2 ^ Z.of_nat (S n)) x) as [|C]; [assumption|].
      rewrite <- (Z.mod_small x (2 ^ Z.of_nat (S n))) in E by lia.
      rewrite Z.mod_pow2_bits_high in E by lia. discriminate.
    + apply IH. destruct (Z.le_gt_cases (2 ^ Z.of_nat (S n)) x) as [C|];
        [|replace (Z.of_nat n + 1) with (Z.of_nat (S n)) by lia; assumption].
      rewrite <- (Z.log2_unique x (Z.of_nat (S n))) in E by
        (try lia; replace (Z.succ (Z.of_nat (S n))) with (Z.of_nat (S n) + 1); lia).
      rewrite Z.bit_log2 in E by lia. discriminate.
Qed.

Lemma bits_from_spec l n : limbs_ok l ->
  bits_from l n = if pval n l =? 0 then 0 else Z.log2 (pval n l) + 1.
Proof.
  intros H. induction n as [|n IH]; [reflexivity|]. cbn [bits_from pval].
  pose proof (pval_bound n l H) as B. pose proof (H n) as Hn.
  pose proof (pow2_pos (32 * Z.of_nat n)).
  destruct (Z.eqb_spec l.[n] 0) as [E|E]; cbn [negb].
  - rewrite E, Z.mul_0_l, Z.add_0_r. exact IH.
  - rewrite bits_in_limb_spec by lia.
    destruct (Z.eqb_spec (pval n l + l.[n] * 2 ^ (32 * Z.of_nat n)) 0); [nia|].
    rewrite (Z.log2_unique (pval n l + _) (32 * Z.of_nat n + Z.log2 l.[n])); [lia| |].
    + pose proof (Z.log2_nonneg l.[n]); lia.
    + pose proof (Z.log2_nonneg l.[n]).
      replace (Z.succ (32 * Z.of_nat n + Z.log2 l.[n])) with
        (32 * Z.of_nat n + Z.succ (Z.log2 l.[n])) by lia.
      rewrite !Z.pow_add_r by lia.
      destruct (Z.log2_spec l.[n]) as [L1 L2]; [lia|]. split; nia.
Qed.

Lemma base_uint_bits_spec W a : wf W a ->
  base_uint_bits W a = if val W a =? 0 then 0 else Z.log2 (val W a) + 1.
Proof. intros [_ H]. now apply bits_from_spec. Qed.

(** The value is below [2 ^ bits], and [bits] is the least such number. *)
Lemma base_uint_bits_bound W a : wf W a ->
  0 <= base_uint_bits W a <= 32 * Z.of_nat W /\
  val W a < 2 ^ base_uint_bits W a /\
  (val W a <> 0 -> 2 ^ (base_uint_bits W a - 1) <= val W a).
Proof.
  intros Ha. rewrite base_uint_bits_spec by assumption.
  pose proof (val_range W a Ha) as R. unfold modulus in R.
  destruct (Z.eqb_spec (val W a) 0) as [E|E]; [rewrite E; change (2 ^ 0) with 1; lia|].
  pose proof (Z.log2_spec (val W a)). pose proof (Z.log2_nonneg (val W a)).
  replace (Z.log2 (val W a) + 1 - 1) with (Z.log2 (val W a)) by lia.
  replace (Z.succ (Z.log2 (val W a))) with (Z.log2 (val W a) + 1) in * by lia.
  assert (Z.log2 (val W a) < 32 * Z.of_nat W) by (apply Z.log2_lt_pow2; lia). lia.
Qed.

(** ** Shifts *)

Lemma guarded_upd_val W p m x :
  wf W p -> ((m < W)%nat -> 0 <= p.[m] + x < 2 ^ 32) ->
  let p' := if (m <? W)%nat then p.[m := p.[m] + x] else p in
  wf W p' /\ exists q, val W p' = val W p + x * 2 ^ (32 * Z.of_nat m) + q * modulus W.
Proof.
  intros Hp Hx. cbn zeta. destruct (Nat.ltb_spec m W) as [Hm|Hm].
  - split; [auto with passion|]. exists 0. unfold val.
    rewrite pval_upd by (destruct Hp; lia). ring.
  - split; [assumption|]. exists (- x * 2 ^ (32 * Z.of_nat (m - W))).
    unfold modulus. rewrite <- Z.mul_assoc, <- Z.pow_add_r by lia.
    replace (32 * Z.of_nat (m - W) + 32 * Z.of_nat W) with (32 * Z.of_nat m) by lia. ring.
Qed.

(** The two pieces of a limb shifted left by [s]. *)
Lemma shl_pieces A s : 0 <= A < 2 ^ 32 -> 0 <= s < 32 ->
  let hi := Z.shiftr A (32 - s) in let lo := u32 (Z.shiftl A s) in
  0 <= hi < 2 ^ s /\ 0 <= lo < 2 ^ 32 /\ lo mod 2 ^ s = 0 /\ lo + hi * 2 ^ 32 = A * 2 ^ s.
Proof.
  intros HA Hs. cbn zeta. rewrite Z.shiftr_div_pow2, Z.shiftl_mul_pow2 by lia. unfold u32.
  assert (E : 2 ^ 32 = 2 ^ (32 - s) * 2 ^ s) by (rewrite <- Z.pow_add_r by lia; f_equal; lia).
  pose proof (pow2_pos s) as P1. pose proof (pow2_pos (32 - s)) as P2.
  rewrite E, Z.mul_mod_distr_r by lia.
  pose proof (Z.div_mod A (2 ^ (32 - s))). pose proof (Z.mod_pos_bound A (2 ^ (32 - s))).
  split; [split; [apply Z.div_pos; lia | apply Z.div_lt_upper_bound; lia]|].
  split; [nia|]. split; [apply Z.mod_mul; lia | nia].
Qed.

Lemma shl_step W a p k s i :
  wf W a -> wf W p -> 0 <= s < 32 -> (i < W)%nat ->
  (forall j, (i + k < j)%nat -> p.[j] = 0) -> p.[(i + k)%nat] < 2 ^ s ->
  let p1 := if (i + k + 1 <? W)%nat && negb (s =? 0)
            then p.[(i + k + 1)%nat := Z.lor p.[(i + k + 1)%nat] (Z.shiftr a.[i] (32 - s))]
            else p in
  let p2 := if (i + k <? W)%nat
            then p1.[(i + k)%nat := Z.lor p1.[(i + k)%nat] (u32 (Z.shiftl a.[i] s))] else p1 in
  wf W p2 /\
  (exists q, val W p2 = val W p + a.[i] * 2 ^ (32 * Z.of_nat (i + k) + s) + q * modulus W) /\
  (forall j, (i + 1 + k < j)%nat -> p2.[j] = 0) /\ p2.[(i + 1 + k)%nat] < 2 ^ s.
Proof.
  intros Ha Hp Hs Hi Hz Hl p1 p2.
  destruct (shl_pieces a.[i] s (proj2 Ha i) Hs) as (Rh & Rl & Ml & Es). revert Rh Rl Ml Es.
  set (hi := Z.shiftr _ _) in *. set (lo := u32 _) in *. intros.
  assert (Hle : 2 ^ s <= 2 ^ 32) by (apply Z.pow_le_mono_r; lia).
  assert (E1 : p1 = if (i + k + 1 <? W)%nat then p.[(i + k + 1)%nat := p.[(i + k + 1)%nat] + hi] else p).
  { unfold p1. destruct (Nat.ltb_spec (i + k + 1) W); [|reflexivity].
    rewrite (Hz (i + k + 1)%nat), Z.lor_0_l by lia. cbn [andb].
    destruct (Z.eqb_spec s 0) as [->|]; [|reflexivity]. cbn [negb].
    replace hi with 0 by (change (2 ^ 0) with 1 in Rh; lia). symmetry. apply (nth_ext _ _ 0 0); [apply length_upd|].
    intros j Hj. rewrite nth_upd by (destruct Hp; lia).
    destruct (Nat.eqb_spec (i + k + 1) j); [subst; rewrite Hz by lia|]; reflexivity. }
  destruct (guarded_upd_val W p (i + k + 1) hi Hp) as [W1 [q1 V1]];
    [intros; rewrite Hz by lia; lia|]. rewrite <- E1 in W1, V1.
  assert (N1 : forall j, (i + 1 + k < j)%nat -> p1.[j] = 0).
  { intros j Hj. rewrite E1. destruct (_ <? _)%nat; [rewrite nth_upd_ne by lia|]; apply Hz; lia. }
  assert (N2 : p1.[(i + k)%nat] = p.[(i + k)%nat]).
  { rewrite E1. destruct (_ <? _)%nat; [now rewrite nth_upd_ne by lia|reflexivity]. }
  assert (N3 : p1.[(i + 1 + k)%nat] < 2 ^ s).
  { rewrite E1. replace (i + 1 + k)%nat with (i + k + 1)%nat by lia.
    destruct (Nat.ltb_spec (i + k + 1) W); [rewrite nth_upd_eq by (destruct Hp; lia)|];
      rewrite Hz by lia; lia. }
  pose proof (proj2 Hp (i + k)%nat) as R0.
  assert (E2 : p2 = if (i + k <? W)%nat then p1.[(i + k)%nat := p1.[(i + k)%nat] + lo] else p1).
  { unfold p2. rewrite Z.lor_comm, N2, (lor_add_disjoint lo _ s) by lia. now rewrite Z.add_comm. }
  assert (Rlo : lo + 2 ^ s <= 2 ^ 32).
  { assert (E : 2 ^ 32 = 2 ^ s * 2 ^ (32 - s)) by (rewrite <- Z.pow_add_r by lia; f_equal; lia).
    pose proof (Z.div_mod lo (2 ^ s)). pose proof (pow2_pos s).
    assert (lo / 2 ^ s < 2 ^ (32 - s)) by (apply Z.div_lt_upper_bound; lia). nia. }
  destruct (guarded_upd_val W p1 (i + k) lo W1) as [W2 [q2 V2]]; [intros; lia|].
  rewrite <- E2 in W2, V2. split; [exact W2|]. split; [|split].
  - exists (q1 + q2). rewrite V2, V1. rewrite Z.pow_add_r by lia.
    replace (i + k + 1)%nat with (S (i + k)) by lia. rewrite limb_pow. nia.
  - intros j Hj. rewrite E2. destruct (i + k <? W)%nat; [rewrite nth_upd_ne by lia|]; apply N1; lia.
  - rewrite E2. destruct (i + k <? W)%nat; [rewrite nth_upd_ne by lia|]; exact N3.
Qed.

Lemma shl_assign_val W a shift : wf W a -> 0 <= shift ->
  wf W (shl_assign W a shift) /\ val W (shl_assign W a shift) = (val W a * 2 ^ shift) mod modulus W.
Proof.
  intros Ha Hsh. unfold shl_assign. cbn zeta.
  set (k := Z.to_nat (shift / 32)). set (s := shift mod 32).
  assert (Hs : 0 <= s < 32) by (apply Z.mod_pos_bound; lia).
  assert (Ek : shift = 32 * Z.of_nat k + s).
  { unfold k, s. rewrite Z2Nat.id by (apply Z.div_pos; lia). apply Z.div_mod. lia. }
  set (body := fun _ _ => _).
  pose proof (for_loop_inv (fun i p => wf W p /\
     (exists q, val W p = pval i a * 2 ^ shift + q * modulus W) /\
     (forall j, (i + k < j)%nat -> p.[j] = 0) /\ p.[(i + k)%nat] < 2 ^ s)
     body W 0%nat (base_uint_zero W)) as H.
  destruct H as (H1 & [q H2] & _).
  - split; [auto with passion|]. split.
    + exists 0. unfold val. rewrite pval_zero by (intros; apply nth_zero). cbn [pval]. lia.
    + split; intros; rewrite nth_zero; [reflexivity|]. apply pow2_pos; lia.
  - intros i p Hi (Hp & [q Hq] & Hz & Hl).
    destruct (shl_step W a p k s i) as (S1 & [q' S2] & S3 & S4); auto; [lia|].
    split; [exact S1|]. split; [|split; assumption].
    exists (q + q'). unfold body. rewrite S2, Hq. replace (i + 1)%nat with (S i) by lia. cbn [pval].
    rewrite Ek. replace (32 * Z.of_nat (i + k) + s) with (32 * Z.of_nat i + (32 * Z.of_nat k + s)) by lia.
    rewrite (Z.pow_add_r _ (32 * Z.of_nat i)) by lia. ring.
  - split; [exact H1|]. now apply (val_congr W _ _ q).
Qed.

(** The two pieces of a limb shifted right by [s]. *)
Lemma shr_pieces A s : 0 <= A < 2 ^ 32 -> 0 <= s < 32 ->
  let hi := Z.shiftr A s in
  let lo := if s =? 0 then 0 else u32 (Z.shiftl A (32 - s)) in
  0 <= hi < 2 ^ (32 - s) /\ 0 <= lo < 2 ^ 32 /\ lo mod 2 ^ (32 - s) = 0 /\
  lo + hi * 2 ^ 32 = A * 2 ^ (32 - s).
Proof.
  intros HA Hs. cbn zeta. rewrite Z.shiftr_div_pow2, Z.shiftl_mul_pow2 by lia. unfold u32.
  assert (E : 2 ^ 32 = 2 ^ s * 2 ^ (32 - s)) by (rewrite <- Z.pow_add_r by lia; f_equal; lia).
  pose proof (pow2_pos s) as P1. pose proof (pow2_pos (32 - s)) as P2.
  split; [split; [apply Z.div_pos; lia | apply Z.div_lt_upper_bound; lia]|].
  destruct (Z.eqb_spec s 0) as [->|N].
  - rewrite Z.pow_0_r, Z.div_1_r. repeat split; try lia.
  - rewrite E, Z.mul_mod_distr_r by lia.
    pose proof (Z.div_mod A (2 ^ s)). pose proof (Z.mod_pos_bound A (2 ^ s)).
    split; [nia|]. split; [apply Z.mod_mul; lia | nia].
Qed.

(** One round of the loop, for a limb [i] at or above the word shift [k]. *)
Lemma shr_step W a p k s i :
  wf W a -> wf W p -> 0 <= s < 32 -> (k < i < W)%nat ->
  (forall j, (i - k <= j)%nat -> p.[j] = 0) -> p.[(i - k - 1)%nat] < 2 ^ (32 - s) ->
  let p1 := if (k + 1 <=? i)%nat && negb (s =? 0)
            then p.[(i - k - 1)%nat := Z.lor p.[(i - k - 1)%nat] (u32 (Z.shiftl a.[i] (32 - s)))]
            else p in
  let p2 := p1.[(i - k)%nat := Z.lor p1.[(i - k)%nat] (Z.shiftr a.[i] s)] in
  wf W p2 /\
  val W p2 = val W p + a.[i] * 2 ^ (32 * Z.of_nat (i - k) - s) /\
  (forall j, (i + 1 - k <= j)%nat -> p2.[j] = 0) /\ p2.[(i - k)%nat] < 2 ^ (32 - s).
Proof.
  intros Ha Hp Hs Hi Hz Hl p1 p2.
  destruct (shr_pieces a.[i] s (proj2 Ha i) Hs) as (Rh & Rl & Ml & Es). revert Rh Rl Ml Es.
  set (hi := Z.shiftr a.[i] s) in *. set (lo := if s =? 0 then _ else _). intros.
  pose proof (proj2 Hp (i - k - 1)%nat) as R0.
  assert (Hlen : length p = W) by apply Hp.
  assert (Hle : 2 ^ (32 - s) <= 2 ^ 32) by (apply Z.pow_le_mono_r; lia).
  assert (E1 : p1 = p.[(i - k - 1)%nat := p.[(i - k - 1)%nat] + lo]).
  { unfold p1. destruct (Nat.leb_spec (k + 1) i); [|lia]. cbn [andb].
    unfold lo in *. destruct (Z.eqb_spec s 0) as [->|]; cbn [negb].
    - apply (nth_ext _ _ 0 0); [now rewrite length_upd|]. intros j Hj.
      rewrite nth_upd by lia. destruct (Nat.eqb_spec (i - k - 1) j); [subst; lia|reflexivity].
    - rewrite Z.lor_comm, (lor_add_disjoint _ _ (32 - s)) by lia. now rewrite Z.add_comm. }
  assert (Rlo : lo + 2 ^ (32 - s) <= 2 ^ 32).
  { assert (E : 2 ^ 32 = 2 ^ (32 - s) * 2 ^ s) by (rewrite <- Z.pow_add_r by lia; f_equal; lia).
    pose proof (Z.div_mod lo (2 ^ (32 - s))). pose proof (pow2_pos (32 - s)).
    assert (lo / 2 ^ (32 - s) < 2 ^ s) by (apply Z.div_lt_upper_bound; lia). nia. }
  assert (W1 : wf W p1) by (rewrite E1; apply wf_upd; [assumption|lia]).
  assert (N0 : p1.[(i - k)%nat] = 0) by (rewrite E1, nth_upd_ne by lia; apply Hz; lia).
  assert (E2 : p2 = p1.[(i - k)%nat := hi]) by (unfold p2; now rewrite N0, Z.lor_0_l).
  rewrite E2. split; [apply wf_upd; [assumption|lia]|]. split; [|split].
  - unfold val. rewrite pval_upd by (rewrite ?E1, ?length_upd; lia). rewrite N0, E1.
    rewrite pval_upd by lia.
    replace (32 * Z.of_nat (i - k) - s) with (32 * Z.of_nat (i - k - 1) + (32 - s)) by lia.
    assert (E3 : 2 ^ (32 * Z.of_nat (i - k)) = 2 ^ 32 * 2 ^ (32 * Z.of_nat (i - k - 1)))
      by (rewrite <- limb_pow; do 3 f_equal; lia).
    rewrite E3, Z.pow_add_r by lia. nia.
  - intros j Hj. rewrite nth_upd_ne, E1, nth_upd_ne by lia. apply Hz. lia.
  - rewrite nth_upd_eq by (rewrite E1, length_upd; lia). lia.
Qed.

Lemma shr_low W a p s k :
  wf W a -> wf W p -> 0 <= s < 32 -> (k < W)%nat -> (forall j, p.[j] = 0) ->
  let p2 := p.[0%nat := Z.lor p.[0%nat] (Z.shiftr a.[k] s)] in
  wf W p2 /\ val W p2 = pval (S k) a / 2 ^ (32 * Z.of_nat k + s) /\
  (forall j, (1 <= j)%nat -> p2.[j] = 0) /\ p2.[0%nat] < 2 ^ (32 - s).
Proof.
  intros Ha Hp Hs Hk Hz. cbn zeta. rewrite (Hz 0%nat), Z.lor_0_l.
  destruct (shr_pieces a.[k] s (proj2 Ha k) Hs) as (Rh & _).
  assert (2 ^ (32 - s) <= 2 ^ 32) by (apply Z.pow_le_mono_r; lia).
  assert (Hlen : length p = W) by apply Hp.
  split; [apply wf_upd; [assumption|lia]|]. split; [|split].
  - unfold val. rewrite pval_upd, (pval_zero W p) by (auto; lia). rewrite Hz.
    cbn [pval]. rewrite Z.pow_add_r, <- Z.div_div by (try apply pow2_pos; try lia;
      pose proof (pow2_pos (32 * Z.of_nat k)); lia).
    rewrite Z.div_add, (Z.div_small (pval k a)) by
      (try apply (pval_bound k a (proj2 Ha)); pose proof (pow2_pos (32 * Z.of_nat k)); lia).
    rewrite Z.shiftr_div_pow2 by lia. cbn. lia.
  - intros j Hj. rewrite nth_upd_ne by lia. apply Hz.
  - rewrite nth_upd_eq by lia. lia.
Qed.

Lemma shr_assign_val W a shift : wf W a -> 0 <= shift ->
  wf W (shr_assign W a shift) /\ val W (shr_assign W a shift) = val W a / 2 ^ shift.
Proof.
  intros Ha Hsh. unfold shr_assign. cbn zeta.
  set (k := Z.to_nat (shift / 32)). set (s := shift mod 32).
  assert (Hs : 0 <= s < 32) by (apply Z.mod_pos_bound; lia).
  assert (Ek : shift = 32 * Z.of_nat k + s).
  { unfold k, s. rewrite Z2Nat.id by (apply Z.div_pos; lia). apply Z.div_mod. lia. }
  set (body := fun _ _ => _).
  pose proof (for_loop_inv (fun i p => wf W p /\ val W p = pval i a / 2 ^ shift /\
     (forall j, (i - k <= j)%nat -> p.[j] = 0) /\
     ((k < i)%nat -> p.[(i - k - 1)%nat] < 2 ^ (32 - s)))
     body W 0%nat (base_uint_zero W)) as H.
  destruct H as (H1 & H2 & _).
  - split; [auto with passion|]. split; [|split; intros; [apply nth_zero|lia]].
    unfold val. rewrite pval_zero by (intros; apply nth_zero). reflexivity.
  - intros i p Hi (Hp & Hv & Hz & Hl). unfold body. replace (i + 1)%nat with (S i) in * by lia.
    destruct (Nat.lt_total i k) as [C|[->|C]].
    + destruct (Nat.leb_spec (k + 1) i), (Nat.leb_spec k i); try lia. cbn [andb].
      repeat split; try apply Hp; try lia; [|intros; apply Hz; lia].
      pose proof (pval_bound i a (proj2 Ha)). pose proof (pval_bound (S i) a (proj2 Ha)).
      assert (2 ^ (32 * Z.of_nat (S i)) <= 2 ^ shift) by (apply Z.pow_le_mono_r; lia).
      rewrite Hv, limb_pow in *. rewrite !Z.div_small by nia. reflexivity.
    + destruct (Nat.leb_spec (k + 1) k), (Nat.leb_spec k k); try lia. cbn [andb].
      rewrite Nat.sub_diag. replace (S k - k)%nat with 1%nat by lia. cbn [Nat.sub].
      rewrite Ek. destruct (shr_low W a p s k) as (S1 & S2 & S3 & S4);
        [assumption|assumption|assumption|lia|intros; apply Hz; lia|].
      auto.
    + destruct (shr_step W a p k s i) as (S1 & S2 & S3 & S4); auto; [lia|].
      destruct (Nat.leb_spec k i); [|lia].
      split; [exact S1|]. split; [|split; [intros; apply S3; lia|]].
      * rewrite S2, Hv. cbn [pval].
        replace (32 * Z.of_nat i) with ((32 * Z.of_nat (i - k) - s) + shift) by lia.
        rewrite Z.pow_add_r, Z.mul_assoc, Z.div_add by (pose proof (pow2_pos shift); lia).
        reflexivity.
      * intros _. replace (S i - k - 1)%nat with (i - k)%nat by lia. exact S4.
  - split; [exact H1|]. exact H2.
Qed.

(** ** Division *)

(** Setting bit [sh] of a number whose low [sh + 1] bits are clear adds [2 ^ sh]. *)
Lemma set_bit_val W p sh :
  wf W p -> (sh < 32 * W)%nat -> val W p mod 2 ^ (Z.of_nat sh + 1) = 0 ->
  let p' := p.[(sh / 32)%nat := Z.lor p.[(sh / 32)%nat]
                                     (u32 (Z.shiftl 1 (Z.land (Z.of_nat sh) 31)))] in
  wf W p' /\ val W p' = val W p + 2 ^ Z.of_nat sh.
Proof.
  intros Hp Hsh Hm. cbn zeta.
  set (w := (sh / 32)%nat). set (s := Z.of_nat sh mod 32).
  assert (Hw : (w < W)%nat) by (apply Nat.Div0.div_lt_upper_bound; lia).
  assert (Hs : 0 <= s < 32) by (apply Z.mod_pos_bound; lia).
  assert (Es : Z.of_nat sh = 32 * Z.of_nat w + s).
  { unfold w, s. rewrite Nat2Z.inj_div. apply Z.div_mod. lia. }
  replace (Z.land (Z.of_nat sh) 31) with s by (symmetry; apply (land_mask 5); lia).
  rewrite Z.shiftl_1_l, u32_small by (split; [lia | apply Z.pow_lt_mono_r; lia]).
  pose proof (proj2 Hp w) as Rw. pose proof (pow2_pos s).
  assert (Hlow : p.[w] mod 2 ^ (s + 1) = 0).
  { apply Z.bits_inj'. intros i Hi. rewrite Z.bits_0.
    destruct (Z.ltb_spec i (s + 1)); [|now rewrite Z.mod_pow2_bits_high by lia].
    rewrite Z.mod_pow2_bits_low by lia.
    apply (f_equal (fun z => Z.testbit z (32 * Z.of_nat w + i))) in Hm.
    rewrite Z.mod_pow2_bits_low, Z.bits_0 in Hm by lia. unfold val in Hm.
    rewrite testbit_pval in Hm by (try apply Hp; lia).
    replace ((32 * Z.of_nat w + i) / 32) with (Z.of_nat w) in Hm
      by (apply (Z.div_unique _ _ _ i); lia).
    replace ((32 * Z.of_nat w + i) mod 32) with i in Hm
      by (apply (Z.mod_unique _ _ (Z.of_nat w)); lia).
    now rewrite Nat2Z.id in Hm. }
  assert (P1 : 2 ^ (s + 1) = 2 * 2 ^ s) by (rewrite Z.pow_add_r by lia; lia).
  assert (Hhi : p.[w] + 2 ^ (s + 1) <= 2 ^ 32).
  { assert (E : 2 ^ 32 = 2 ^ (s + 1) * 2 ^ (31 - s)) by (rewrite <- Z.pow_add_r by lia; f_equal; lia).
    pose proof (Z.div_mod p.[w] (2 ^ (s + 1))).
    assert (p.[w] / 2 ^ (s + 1) < 2 ^ (31 - s)) by (apply Z.div_lt_upper_bound; lia). nia. }
  rewrite (lor_add_disjoint _ _ (s + 1)) by lia.
  split; [apply wf_upd; [assumption|lia]|].
  unfold val. rewrite pval_upd by (destruct Hp; lia).
  rewrite Es, Z.pow_add_r by lia. ring.
Qed.

Lemma div_loop_val W N B n : forall pn num div,
  (0 < W)%nat -> wf W pn -> wf W num -> wf W div -> 0 < B -> (n <= 32 * W)%nat ->
  ((0 < n)%nat -> val W div = B * 2 ^ (Z.of_nat n - 1)) ->
  val W pn mod 2 ^ Z.of_nat n = 0 -> val W pn * B + val W num = N ->
  val W num < B * 2 ^ Z.of_nat n ->
  wf W (div_loop W n pn num div) /\ val W (div_loop W n pn num div) = N / B.
Proof.
  induction n as [|n IH]; intros pn num div HW Hpn Hnum Hdiv HB Hn Ed Em EN Hlt; cbn [div_loop].
  - split; [assumption|]. apply (Z.div_unique _ _ _ (val W num)); [|lia].
    pose proof (val_range W num Hnum). cbn in Hlt. lia.
  - specialize (Ed ltac:(lia)). replace (Z.of_nat (S n) - 1) with (Z.of_nat n) in Ed by lia.
    rewrite Nat2Z.inj_succ in *. unfold Z.succ in *.
    assert (P : 2 ^ (Z.of_nat n + 1) = 2 * 2 ^ Z.of_nat n) by (rewrite Z.pow_add_r by lia; lia).
    destruct (shr_assign_val W div 1 Hdiv) as [Hd' Ed']; [lia|].
    assert (Ed2 : (0 < n)%nat -> val W (shr_assign W div 1) = B * 2 ^ (Z.of_nat n - 1)).
    { intros. rewrite Ed', Ed. replace (Z.of_nat n) with (Z.of_nat n - 1 + 1) at 1 by lia.
      rewrite Z.pow_add_r, Z.mul_assoc by lia. apply Z.div_mul. lia. }
    assert (Em' : val W pn mod 2 ^ Z.of_nat n = 0).
    { apply Z.mod_divide in Em; [|pose proof (pow2_pos (Z.of_nat n)); lia].
      apply Z.mod_divide; [pose proof (pow2_pos (Z.of_nat n)); lia|].
      destruct Em as [z Ez]. exists (2 * z). rewrite Ez, P. ring. }
    rewrite base_uint_ge_spec by assumption. destruct (Z.leb_spec (val W div) (val W num)).
    + destruct (sub_assign_val W num div) as [Hs Es]; auto.
      rewrite Z.mod_small in Es by (pose proof (val_range W num Hnum); pose proof (val_range W div Hdiv); lia).
      destruct (set_bit_val W pn n) as [Hb Eb]; [assumption|lia|assumption|].
      apply IH; auto; try lia.
      rewrite Eb, Z.add_mod, Z.mod_same, Em' by (pose proof (pow2_pos (Z.of_nat n)); lia).
      reflexivity.
    + apply IH; auto; lia.
Qed.

Lemma div_assign_val W a b : (2 <= W)%nat -> wf W a -> wf W b ->
  match div_assign W a b with
  | None => val W b = 0
  | Some q => val W b <> 0 /\ wf W q /\ val W q = val W a / val W b
  end.
Proof.
  intros HW Ha Hb. unfold div_assign.
  destruct (val_of_u64 W 0 HW) as [Hz Ez]; [lia|].
  pose proof (val_range W a Ha) as Ra. pose proof (val_range W b Hb) as Rb.
  destruct (base_uint_bits_bound W a Ha) as (Ba & La & Ga).
  destruct (base_uint_bits_bound W b Hb) as (Bb & Lb & Gb).
  destruct (Z.eqb_spec (base_uint_bits W b) 0) as [E|E].
  { rewrite E in Lb. change (2 ^ 0) with 1 in Lb. lia. }
  assert (Nb : val W b <> 0).
  { intros C. rewrite base_uint_bits_spec, C in E by assumption. now apply E. }
  specialize (Gb Nb). rewrite Z.gtb_ltb.
  destruct (Z.ltb_spec (base_uint_bits W a) (base_uint_bits W b)) as [L|L].
  - split; [assumption|]. split; [assumption|]. rewrite Ez.
    assert (2 ^ base_uint_bits W a <= 2 ^ (base_uint_bits W b - 1)) by (apply Z.pow_le_mono_r; lia).
    symmetry. apply Z.div_small. lia.
  - set (sh := base_uint_bits W a - base_uint_bits W b).
    destruct (shl_assign_val W b sh Hb) as [Hs Es]; [lia|].
    assert (Esh : base_uint_bits W a = base_uint_bits W b + sh) by lia.
    rewrite Z.mod_small in Es.
    2:{ split; [apply Z.mul_nonneg_nonneg; [lia|apply Z.pow_nonneg; lia]|].
        apply Z.lt_le_trans with (2 ^ base_uint_bits W a);
          [rewrite Esh, Z.pow_add_r by lia; apply Z.mul_lt_mono_pos_r; [apply pow2_pos; lia|assumption]
          |apply Z.pow_le_mono_r; lia]. }
    split; [assumption|]. apply div_loop_val; auto; try lia.
    + intros _. rewrite Es. do 2 f_equal. lia.
    + rewrite Ez. apply Z.mod_0_l. pose proof (pow2_pos (Z.of_nat (Z.to_nat (sh + 1)))); lia.
    + replace (Z.of_nat (Z.to_nat (sh + 1))) with (sh + 1) by lia.
      rewrite Z.pow_add_r by lia. change (2 ^ 1) with 2.
      rewrite Esh in La.
      replace (base_uint_bits W b + sh) with ((base_uint_bits W b - 1) + (sh + 1)) in La by lia.
      rewrite !Z.pow_add_r in La by lia. change (2 ^ 1) with 2 in La.
      pose proof (pow2_pos sh). nia.
Qed.

(** ** The low 64 bits *)

Lemma GetLow64_val W a : (2 <= W)%nat -> wf W a -> GetLow64 a = val W a mod 2 ^ 64.
Proof.
  intros HW Ha. unfold GetLow64.
  pose proof (proj2 Ha 0%nat). pose proof (proj2 Ha 1%nat).
  rewrite Z.shiftl_mul_pow2, u64_small, Z.lor_comm by lia.
  rewrite (lor_add_disjoint _ _ 32) by (try apply Z.mod_mul; lia).
  assert (E : forall n, exists q, pval (S (S n)) a = a.[1%nat] * 2 ^ 32 + a.[0%nat] + q * 2 ^ 64).
  { induction n as [|n [q Hq]].
    - exists 0. cbn [pval]. change (32 * Z.of_nat 0) with 0. change (32 * Z.of_nat 1) with 32. lia.
    - exists (q + a.[S (S n)] * 2 ^ (32 * Z.of_nat n)). cbn [pval] in *. rewrite Hq, !limb_pow. ring. }
  destruct W as [|[|n]]; try lia. destruct (E n) as [q Hq]. unfold val. rewrite Hq.
  rewrite Z.mod_add by lia. now rewrite Z.mod_small by lia.
Qed.

(** ** The compact format *)

Lemma modulus256 : modulus WIDTH256 = 2 ^ 256.
Proof. reflexivity. Qed.

Lemma land_sign n : (Z.land n 0x00800000 =? 0) = negb (Z.testbit n 23).
Proof. apply (land_bit n 23). lia. Qed.

Lemma land_7fffff n : Z.land n 0x007fffff = n mod 2 ^ 23.
Proof. apply (land_mask 23). lia. Qed.

(** Overflow exactly when the denoted number does not fit 256 bits. *)
Lemma compact_overflow_test size word : 0 <= size < 256 -> 0 <= word < 2 ^ 23 ->
  negb (word =? 0) && ((size >? 34) || ((word >? 0xff) && (size >? 33))
                       || ((word >? 0xffff) && (size >? 32))) =
  (2 ^ 256 <=? word * 2 ^ (8 * (size - 3))).
Proof.
  intros Hs Hw. rewrite !Z.gtb_ltb. symmetry.
  destruct (Z.eqb_spec word 0) as [->|Nw]; [reflexivity|]. cbn [negb andb].
  destruct (Z.ltb_spec 34 size); cbn [orb].
  { apply Z.leb_le. apply Z.le_trans with (1 * 2 ^ (8 * (size - 3)));
      [rewrite Z.mul_1_l; apply Z.pow_le_mono_r; lia | apply Z.mul_le_mono_nonneg_r; [apply Z.pow_nonneg|]; lia]. }
  destruct (Z.eq_dec size 34) as [->|]; [|destruct (Z.eq_dec size 33) as [->|]].
  - cbn [Z.ltb Z.compare Pos.compare Pos.compare_cont andb orb].
    change (8 * (34 - 3)) with 248. destruct (Z.ltb_spec 255 word); cbn [orb andb];
      [apply Z.leb_le; lia|]. destruct (Z.ltb_spec 65535 word); [lia|]. apply Z.leb_gt. lia.
  - cbn [Z.ltb Z.compare Pos.compare Pos.compare_cont andb orb].
    change (8 * (33 - 3)) with 240. rewrite andb_false_r, andb_true_r. cbn [orb].
    destruct (Z.ltb_spec 65535 word); [apply Z.leb_le | apply Z.leb_gt]; lia.
  - destruct (Z.ltb_spec 33 size), (Z.ltb_spec 32 size); try lia. rewrite !andb_false_r. cbn [orb].
    apply Z.leb_gt. apply Z.le_lt_trans with (word * 2 ^ 232).
    + apply Z.mul_le_mono_nonneg_l; [lia|]. apply Z.pow_le_mono_r; lia.
    + lia.
Qed.

(** The number a compact word denotes, sign aside. *)
Definition compact_value (nCompact : Z) : Z :=
  let size := nCompact / 2 ^ 24 in
  let word := nCompact mod 2 ^ 23 in
  if size <=? 3 then word / 2 ^ (8 * (3 - size)) else word * 2 ^ (8 * (size - 3)).

Lemma SetCompact_value c : 0 <= c < 2 ^ 32 ->
  let '(this, neg, ovf) := SetCompact c in
  wf WIDTH256 this /\
  val WIDTH256 this = compact_value c mod 2 ^ 256 /\
  ovf = (2 ^ 256 <=? compact_value c) /\
  neg = negb (compact_value c =? 0) && Z.testbit c 23.
Proof.
  intros Hc. unfold SetCompact, compact_value.
  rewrite (Z.shiftr_div_pow2 c 24), land_7fffff, land_sign, negb_involutive by lia.
  set (size := c / 2 ^ 24). set (word := c mod 2 ^ 23).
  assert (Hs : 0 <= size < 256) by (split; [apply Z.div_pos | apply Z.div_lt_upper_bound]; lia).
  assert (Hw : 0 <= word < 2 ^ 23) by (apply Z.mod_pos_bound; lia).
  destruct (Z.leb_spec size 3) as [L|L].
  - rewrite Z.shiftr_div_pow2 by lia. set (w := word / 2 ^ (8 * (3 - size))).
    assert (0 <= w < 2 ^ 23).
    { unfold w. pose proof (pow2_pos (8 * (3 - size))). split; [apply Z.div_pos; lia|].
      apply Z.div_lt_upper_bound; nia. }
    destruct (val_of_u64 WIDTH256 w) as [H1 H2]; [unfold WIDTH256; lia|lia|].
    split; [exact H1|]. split; [rewrite H2, Z.mod_small by lia; reflexivity|]. split; [|reflexivity].
    rewrite compact_overflow_test by lia.
    destruct (Z.eq_dec size 3) as [->|].
    { cbn [Z.sub Z.mul Z.add Z.opp Z.pos_sub Z.pow]. rewrite Z.mul_1_r. reflexivity. }
    rewrite (Z.pow_neg_r 2 (8 * (size - 3))) by lia. symmetry. rewrite Z.mul_0_r. apply Z.leb_gt. lia.
  - destruct (val_of_u64 WIDTH256 word) as [H1 H2]; [unfold WIDTH256; lia|lia|].
    destruct (shl_assign_val WIDTH256 _ (8 * (size - 3)) H1) as [H3 H4]; [lia|].
    split; [exact H3|]. rewrite H4, H2. split; [reflexivity|].
    split; [now apply compact_overflow_test|]. do 2 f_equal.
    pose proof (pow2_pos (8 * (size - 3))).
    destruct (Z.eqb_spec word 0) as [->|]; [reflexivity|]. symmetry. apply Z.eqb_neq. nia.
Qed.

(** Mantissa and exponent [GetCompact] computes. *)
Definition compact_parts (v : Z) (bits : Z) : Z * Z :=
  let n := (bits + 7) / 8 in
  let m := if n <=? 3 then v * 2 ^ (8 * (3 - n)) else v / 2 ^ (8 * (n - 3)) in
  if 2 ^ 23 <=? m then (m / 2 ^ 8, n + 1) else (m, n).

Lemma compact_mantissa_bound v bits : 0 <= bits -> 0 <= v < 2 ^ bits ->
  let n := (bits + 7) / 8 in
  let m := if n <=? 3 then v * 2 ^ (8 * (3 - n)) else v / 2 ^ (8 * (n - 3)) in
  0 <= m < 2 ^ 24.
Proof.
  intros Hb Hv. cbn zeta. set (n := (bits + 7) / 8).
  assert (Hn : bits <= 8 * n) by (pose proof (Z.div_mod (bits + 7) 8); pose proof (Z.mod_pos_bound (bits + 7) 8); lia).
  assert (Hv' : v < 2 ^ (8 * n)) by (apply Z.lt_le_trans with (2 ^ bits); [lia|apply Z.pow_le_mono_r; lia]).
  destruct (Z.leb_spec n 3).
  - pose proof (pow2_pos (8 * (3 - n))).
    replace 24 with (8 * n + 8 * (3 - n)) by lia. rewrite Z.pow_add_r by lia. nia.
  - pose proof (pow2_pos (8 * (n - 3))). split; [apply Z.div_pos; lia|].
    apply Z.div_lt_upper_bound; [lia|]. rewrite <- Z.pow_add_r by lia.
    replace (8 * (n - 3) + 24) with (8 * n) by lia. assumption.
Qed.

Lemma testbit_23 m : 0 <= m < 2 ^ 24 -> Z.testbit m 23 = (2 ^ 23 <=? m).
Proof.
  intros Hm. rewrite Z.testbit_eqb by lia.
  destruct (Z.leb_spec (2 ^ 23) m).
  - replace (m / 2 ^ 23) with 1; [reflexivity|]. apply (Z.div_unique _ _ _ (m - 2 ^ 23)); lia.
  - now rewrite Z.div_small by lia.
Qed.

(** The end of [GetCompact]: the assertions hold and mantissa and exponent are
    assembled. *)
Lemma compact_assemble m k : 0 <= m < 2 ^ 23 -> 0 <= k <= 33 ->
  (if negb (Z.land m (u32 (Z.lnot 0x007fffff)) =? 0) then None
   else if negb (k <? 256) then None
   else Some (Z.lor (Z.lor m (u32 (Z.shiftl k 24)))
               (if false && negb (Z.land (Z.lor m (u32 (Z.shiftl k 24))) 0x007fffff =? 0)
                then 0x00800000 else 0))) = Some (m + k * 2 ^ 24).
Proof.
  intros Hm' Hk. replace (Z.land m _) with 0.
  2:{ symmetry. change (u32 (Z.lnot 0x007fffff)) with (511 * 2 ^ 23).
      apply Z.bits_inj'. intros i Hi. rewrite Z.land_spec, Z.bits_0.
      destruct (Z.ltb_spec i 23).
      - rewrite Z.mul_pow2_bits_low by lia. apply andb_false_r.
      - rewrite <- (Z.mod_small m (2 ^ 23)), Z.mod_pow2_bits_high by lia. reflexivity. }
  cbn [Z.eqb negb]. destruct (Z.ltb_spec k 256); [|lia]. cbn [negb andb].
  rewrite Z.lor_0_r, Z.shiftl_mul_pow2, u32_small, Z.lor_comm by lia.
  rewrite (lor_add_disjoint _ _ 24) by (try apply Z.mod_mul; lia). f_equal; lia.
Qed.

Lemma GetCompact_parts a : wf WIDTH256 a ->
  let '(m, n) := compact_parts (val WIDTH256 a) (base_uint_bits WIDTH256 a) in
  GetCompact a false = Some (m + n * 2 ^ 24) /\ 0 <= m < 2 ^ 23 /\ 0 <= n <= 33.
Proof.
  intros Ha. unfold GetCompact, compact_parts.
  destruct (base_uint_bits_bound WIDTH256 a Ha) as (Hb & Hlt & _).
  pose proof (val_range WIDTH256 a Ha) as Hv. rewrite modulus256 in Hv.
  pose proof (compact_mantissa_bound (val WIDTH256 a) (base_uint_bits WIDTH256 a)) as Hm.
  cbn zeta in Hm. specialize (Hm ltac:(lia) ltac:(lia)).
  set (bits := base_uint_bits WIDTH256 a) in *. set (v := val WIDTH256 a) in *.
  change (32 * Z.of_nat WIDTH256) with 256 in Hb.
  set (n := (bits + 7) / 8) in *.
  assert (Hn : 0 <= n < 33) by (split; [apply Z.div_pos|apply Z.div_lt_upper_bound]; lia).
  set (m0 := if n <=? 3 then v * 2 ^ (8 * (3 - n)) else _) in *.
  match goal with |- context [if negb (Z.land ?e _ =? 0) then _ else _] => assert (E : e = m0) end.
  { unfold m0. destruct (Z.leb_spec n 3).
    - rewrite (GetLow64_val WIDTH256) by (assumption || (unfold WIDTH256; lia)). fold v.
      assert (v < 2 ^ 24) by (apply Z.lt_le_trans with (2 ^ bits); [lia|]; apply Z.pow_le_mono_r;
        [lia|]; pose proof (Z.div_mod (bits + 7) 8); pose proof (Z.mod_pos_bound (bits + 7) 8); lia).
      rewrite Z.mod_small, Z.shiftl_mul_pow2 by lia.
      unfold m0 in Hm. destruct (Z.leb_spec n 3); [|lia].
      rewrite u64_small, u32_small by lia. reflexivity.
    - destruct (shr_assign_val WIDTH256 a (8 * (n - 3)) Ha) as [Hr Er]; [lia|].
      rewrite (GetLow64_val WIDTH256), Er by (assumption || (unfold WIDTH256; lia)). fold v.
      unfold m0 in Hm. destruct (Z.leb_spec n 3); [lia|].
      rewrite Z.mod_small, u32_small by lia. reflexivity. }
  rewrite E, land_sign, negb_involutive, testbit_23 by assumption.
  destruct (Z.leb_spec (2 ^ 23) m0).
  - assert (0 <= m0 / 2 ^ 8 < 2 ^ 23) by (split; [apply Z.div_pos|apply Z.div_lt_upper_bound]; lia).
    rewrite Z.shiftr_div_pow2 by lia. split; [apply compact_assemble; lia|lia].
  - split; [apply compact_assemble; lia|lia].
Qed.

(** Bit width as a function of the number. *)
Definition bitlen (v : Z) : Z := if v =? 0 then 0 else Z.log2 v + 1.

Lemma bitlen_bound v : 0 <= v -> 0 <= bitlen v /\ v < 2 ^ bitlen v /\
  (0 < v -> 0 < bitlen v /\ 2 ^ (bitlen v - 1) <= v).
Proof.
  intros Hv. unfold bitlen. destruct (Z.eqb_spec v 0) as [->|]; [cbn; lia|].
  pose proof (Z.log2_nonneg v). pose proof (Z.log2_spec v).
  replace (Z.log2 v + 1 - 1) with (Z.log2 v) by lia.
  replace (Z.succ (Z.log2 v)) with (Z.log2 v + 1) in * by lia. lia.
Qed.

Lemma bitlen_unique v b : 0 < b -> 2 ^ (b - 1) <= v < 2 ^ b -> bitlen v = b.
Proof.
  intros Hb Hv. unfold bitlen. pose proof (pow2_pos (b - 1)).
  destruct (Z.eqb_spec v 0); [lia|]. rewrite (Z.log2_unique v (b - 1)); [lia|lia|].
  now replace (Z.succ (b - 1)) with b by lia.
Qed.

(** Number of low bits the compact format drops. *)
Definition compact_dropped (n : Z) : Z := 8 * Z.max 0 (n - 3).

Lemma floor_pow v j k : 0 <= j -> 0 <= k -> v / 2 ^ (j + k) = v / 2 ^ j / 2 ^ k.
Proof.
  intros. rewrite Z.pow_add_r, Z.div_div by
    (try apply pow2_pos; try lia; pose proof (pow2_pos j); lia). reflexivity.
Qed.

Lemma compact_parts_dropped v : 0 <= v ->
  let '(m, n) := compact_parts v (bitlen v) in
  compact_dropped n <= Z.max 0 (bitlen v - 16) /\
  (if n <=? 3 then m / 2 ^ (8 * (3 - n)) else m * 2 ^ (8 * (n - 3))) =
  v / 2 ^ compact_dropped n * 2 ^ compact_dropped n.
Proof.
  intros Hv. unfold compact_parts, compact_dropped.
  destruct (bitlen_bound v Hv) as (Hb & Hlt & _).
  set (b := bitlen v) in *. set (n := (b + 7) / 8).
  assert (Hn : b <= 8 * n <= b + 7) by
    (unfold n; pose proof (Z.div_mod (b + 7) 8); pose proof (Z.mod_pos_bound (b + 7) 8); lia).
  destruct (Z.leb_spec n 3) as [L|L].
  - pose proof (pow2_pos (8 * (3 - n))) as P.
    destruct (Z.leb_spec (2 ^ 23) (v * 2 ^ (8 * (3 - n)))) as [M|M].
    + destruct (Z.eq_dec n 3) as [->|].
      * rewrite Z.sub_diag, Z.mul_0_r, Z.pow_0_r, !Z.mul_1_r in *.
        change (3 + 1 <=? 3) with false. change (8 * Z.max 0 (3 + 1 - 3)) with 8.
        change (8 * (3 + 1 - 3)) with 8. split; [|reflexivity]. destruct (Z.lt_ge_cases b 24); [|lia].
        assert (2 ^ b <= 2 ^ 23) by (apply Z.pow_le_mono_r; lia). lia.
      * destruct (Z.leb_spec (n + 1) 3); [|lia].
        replace (Z.max 0 (n + 1 - 3)) with 0 by lia. rewrite Z.mul_0_r, Z.pow_0_r, Z.div_1_r, Z.mul_1_r.
        split; [lia|]. replace (8 * (3 - n)) with (8 * (3 - (n + 1)) + 8) by lia.
        rewrite Z.pow_add_r, Z.mul_assoc, Z.div_mul by lia. apply Z.div_mul.
        pose proof (pow2_pos (8 * (3 - (n + 1)))); lia.
    + destruct (Z.leb_spec n 3); [|lia]. replace (Z.max 0 (n - 3)) with 0 by lia.
      rewrite Z.mul_0_r, Z.pow_0_r, Z.div_1_r, Z.mul_1_r, Z.div_mul by lia. lia.
  - pose proof (pow2_pos (8 * (n - 3))) as P.
    destruct (Z.leb_spec (2 ^ 23) (v / 2 ^ (8 * (n - 3)))) as [M|M].
    + destruct (Z.leb_spec (n + 1) 3); [lia|]. replace (Z.max 0 (n + 1 - 3)) with (n + 1 - 3) by lia.
      replace (8 * (n + 1 - 3)) with (8 * (n - 3) + 8) by lia.
      rewrite <- floor_pow by lia. split; [|reflexivity].
      assert (Hv2 : 2 ^ 23 * 2 ^ (8 * (n - 3)) <= v).
      { pose proof (Z.div_mod v (2 ^ (8 * (n - 3)))). pose proof (Z.mod_pos_bound v (2 ^ (8 * (n - 3)))). nia. }
      rewrite <- Z.pow_add_r in Hv2 by lia.
      destruct (Z.lt_ge_cases b (8 * (n - 3) + 24)); [|lia].
      assert (2 ^ b <= 2 ^ (23 + 8 * (n - 3))) by (apply Z.pow_le_mono_r; lia). lia.
    + destruct (Z.leb_spec n 3); [lia|]. replace (Z.max 0 (n - 3)) with (n - 3) by lia.
      split; [lia|reflexivity].
Qed.

Lemma floor_mult_bounds v j : 0 <= v -> 0 <= j ->
  v / 2 ^ j * 2 ^ j <= v < v / 2 ^ j * 2 ^ j + 2 ^ j.
Proof.
  intros. pose proof (pow2_pos j). pose proof (Z.div_mod v (2 ^ j)).
  pose proof (Z.mod_pos_bound v (2 ^ j)). lia.
Qed.

(** Dropping fewer bits than the width keeps the width. *)
Lemma bitlen_floor v j : 0 < v -> 0 <= j < bitlen v -> bitlen (v / 2 ^ j * 2 ^ j) = bitlen v.
Proof.
  intros Hv Hj. destruct (bitlen_bound v) as (Hb & Hlt & H1); [lia|].
  destruct (H1 Hv) as [Hp Hle]. pose proof (floor_mult_bounds v j) as F.
  apply bitlen_unique; [assumption|]. split; [|lia].
  replace (bitlen v - 1) with ((bitlen v - 1 - j) + j) in * by lia.
  rewrite Z.pow_add_r in * by lia.
  apply Z.mul_le_mono_nonneg_r; [apply Z.pow_nonneg; lia|].
  apply Z.div_le_lower_bound; [apply pow2_pos; lia|lia].
Qed.

Lemma compact_parts_idem v : 0 <= v ->
  let '(m, n) := compact_parts v (bitlen v) in
  let t := v / 2 ^ compact_dropped n * 2 ^ compact_dropped n in
  compact_parts t (bitlen t) = (m, n).
Proof.
  intros Hv. pose proof (compact_parts_dropped v Hv) as D.
  destruct (compact_parts v (bitlen v)) as [m n] eqn:E. destruct D as [D _].
  destruct (Z.eq_dec v 0) as [->|Nv].
  { cbn in E. injection E as <- <-. reflexivity. }
  destruct (bitlen_bound v Hv) as (_ & _ & B). destruct (B ltac:(lia)) as [B1 _].
  assert (D0 : 0 <= compact_dropped n) by (unfold compact_dropped; lia).
  cbn zeta. rewrite bitlen_floor by lia. rewrite <- E. clear D B.
  unfold compact_parts in *. set (k := (bitlen v + 7) / 8) in *.
  destruct (Z.leb_spec k 3) as [L|L].
  - destruct (Z.leb_spec (2 ^ 23) (v * 2 ^ (8 * (3 - k)))) as [M|M]; injection E as <- <-;
      unfold compact_dropped in *.
    + destruct (Z.eq_dec k 3) as [K|].
      * rewrite K in *. change (8 * Z.max 0 (3 + 1 - 3)) with 8.
        rewrite Z.sub_diag, Z.mul_0_r, Z.pow_0_r, !Z.mul_1_r in *.
        destruct (Z.leb_spec (2 ^ 23) (v / 2 ^ 8 * 2 ^ 8)); [now rewrite Z.div_mul by lia|].
        pose proof (Z.div_le_lower_bound v (2 ^ 8) (2 ^ 15)). lia.
      * replace (Z.max 0 (k + 1 - 3)) with 0 by lia.
        rewrite Z.mul_0_r, Z.pow_0_r, Z.div_1_r, Z.mul_1_r.
        now destruct (Z.leb_spec (2 ^ 23) (v * 2 ^ (8 * (3 - k)))); [|lia].
    + replace (Z.max 0 (k - 3)) with 0 by lia.
      rewrite Z.mul_0_r, Z.pow_0_r, Z.div_1_r, Z.mul_1_r.
      now destruct (Z.leb_spec (2 ^ 23) (v * 2 ^ (8 * (3 - k)))); [lia|].
  - pose proof (pow2_pos (8 * (k - 3))) as P.
    destruct (Z.leb_spec (2 ^ 23) (v / 2 ^ (8 * (k - 3)))) as [M|M]; injection E as <- <-;
      unfold compact_dropped in *.
    + replace (Z.max 0 (k + 1 - 3)) with (k - 3 + 1) by lia.
      replace (8 * (k - 3 + 1)) with (8 * (k - 3) + 8) by lia.
      rewrite floor_pow, (Z.add_comm _ 8), Z.pow_add_r, Z.mul_assoc, Z.div_mul by lia.
      destruct (Z.leb_spec (2 ^ 23) (v / 2 ^ (8 * (k - 3)) / 2 ^ 8 * 2 ^ 8)); [now rewrite Z.div_mul by lia|].
      pose proof (Z.div_le_lower_bound (v / 2 ^ (8 * (k - 3))) (2 ^ 8) (2 ^ 15)). lia.
    + replace (Z.max 0 (k - 3)) with (k - 3) by lia. rewrite Z.div_mul by lia.
      now destruct (Z.leb_spec (2 ^ 23) (v / 2 ^ (8 * (k - 3)))); [lia|].
Qed.

Lemma compact_word_fields m n : 0 <= m < 2 ^ 23 -> 0 <= n <= 33 ->
  let c := m + n * 2 ^ 24 in
  0 <= c < 2 ^ 32 /\ Z.testbit c 23 = false /\
  compact_value c = if n <=? 3 then m / 2 ^ (8 * (3 - n)) else m * 2 ^ (8 * (n - 3)).
Proof.
  intros Hm Hn. cbn zeta. unfold compact_value.
  replace ((m + n * 2 ^ 24) / 2 ^ 24) with n by (apply (Z.div_unique _ _ _ m); lia).
  replace ((m + n * 2 ^ 24) mod 2 ^ 23) with m by (apply (Z.mod_unique _ _ (2 * n)); lia).
  split; [lia|]. split; [|reflexivity].
  rewrite Z.testbit_eqb by lia.
  replace ((m + n * 2 ^ 24) / 2 ^ 23) with (n * 2) by (apply (Z.div_unique _ _ _ m); lia).
  now rewrite Z.mod_mul by lia.
Qed.

(** * Properties *)

(** The ring operators of [base_uint] — [+=], [-=], unary [-], [~], [*=]
    (by a limb and by a big integer), [++] and [--] — produce well-formed
    objects whose values are the results of arithmetic modulo [2 ^ BITS];
    no intermediate 64-bit sum or product loses a carry. *)
Theorem base_uint_ring_refinement W a b b32 :
  (2 <= W)%nat -> wf W a -> wf W b -> 0 <= b32 < 2 ^ 32 ->
  let M := modulus W in
  (wf W (add_assign W a b) /\ val W (add_assign W a b) = (val W a + val W b) mod M) /\
  (wf W (sub_assign W a b) /\ val W (sub_assign W a b) = (val W a - val W b) mod M) /\
  (wf W (base_uint_neg W a) /\ val W (base_uint_neg W a) = (- val W a) mod M) /\
  (wf W (base_uint_not W a) /\ val W (base_uint_not W a) = M - 1 - val W a) /\
  (wf W (mul32_assign W a b32) /\ val W (mul32_assign W a b32) = (val W a * b32) mod M) /\
  (wf W (mul_assign W a b) /\ val W (mul_assign W a b) = (val W a * val W b) mod M) /\
  (wf W (base_uint_inc W a) /\ val W (base_uint_inc W a) = (val W a + 1) mod M) /\
  (wf W (base_uint_dec W a) /\ val W (base_uint_dec W a) = (val W a - 1) mod M).
Proof.
  intros HW Ha Hb Hc.
  exact (conj (add_assign_val W a b Ha Hb)
        (conj (sub_assign_val W a b ltac:(lia) Ha Hb)
        (conj (base_uint_neg_val W a ltac:(lia) Ha)
        (conj (base_uint_not_val W a Ha)
        (conj (mul32_assign_val W a b32 Ha Hc)
        (conj (mul_assign_val W a b HW Ha Hb)
        (conj (base_uint_inc_val W a ltac:(lia) Ha)
              (base_uint_dec_val W a ltac:(lia) Ha)))))))).
Qed.

(** A concrete well-formed object is recognised by evaluation. *)
Definition wfb (W : nat) (l : list Z) : bool :=
  (length l =? W)%nat && forallb (fun x => (0 <=? x) && (x <? 2 ^ 32)) l.

Lemma wfb_sound W l : wfb W l = true -> wf W l.
Proof.
  unfold wfb. intros H. breflect. split; [assumption|]. intros i.
  destruct (Nat.ltb_spec i (length l)).
  - rewrite forallb_forall in H0. specialize (H0 l.[i] (nth_In l 0 H1)).
    breflect. lia.
  - rewrite nth_overflow by lia. lia.
Qed.

Definition ex_a : list Z := [0xffffffff; 0xffffffff; 5; 0; 0; 0; 0; 0].
Definition ex_b : list Z := [1; 0; 0x80000000; 7; 0; 0; 0; 0x80000000].

Lemma base_uint_ring_refinement_witness :
  wf 8 ex_a /\ val 8 (add_assign 8 ex_a ex_b) = (val 8 ex_a + val 8 ex_b) mod modulus 8.
Proof.
  split; [now apply wfb_sound|].
  apply (base_uint_ring_refinement 8 ex_a ex_b 3); try lia; now apply wfb_sound.
Defined.

(** [operator<<=] multiplies by [2 ^ shift] modulo [2 ^ BITS] and
    [operator>>=] is the floor division by [2 ^ shift], for every shift amount,
    those beyond the width included. *)
Theorem base_uint_shift_refinement W a shift :
  wf W a -> 0 <= shift ->
  (wf W (shl_assign W a shift) /\
   val W (shl_assign W a shift) = (val W a * 2 ^ shift) mod modulus W) /\
  (wf W (shr_assign W a shift) /\ val W (shr_assign W a shift) = val W a / 2 ^ shift).
Proof. intros Ha Hs. split; [now apply shl_assign_val | now apply shr_assign_val]. Qed.

Lemma base_uint_shift_refinement_witness :
  val 8 (shl_assign 8 ex_a 45) = (val 8 ex_a * 2 ^ 45) mod modulus 8 /\
  val 8 (shr_assign 8 ex_b 300) = 0.
Proof.
  split.
  - apply (base_uint_shift_refinement 8 ex_a 45); [now apply wfb_sound|lia].
  - rewrite (proj2 (proj2 (base_uint_shift_refinement 8 ex_b 300 ltac:(now apply wfb_sound) ltac:(lia)))).
    vm_compute. reflexivity.
Defined.

(** The shift-and-subtract loop of [operator/=] terminates with the floor
    quotient, and it throws exactly when the divisor is zero. *)
Theorem base_uint_division W a b :
  (2 <= W)%nat -> wf W a -> wf W b ->
  (val W b = 0 -> div_assign W a b = None) /\
  (val W b <> 0 -> exists q, div_assign W a b = Some q /\ wf W q /\ val W q = val W a / val W b).
Proof.
  intros HW Ha Hb. pose proof (div_assign_val W a b HW Ha Hb) as H.
  destruct (div_assign W a b) as [q|].
  - destruct H as (H1 & H2 & H3). split; [contradiction|]. intros _. now exists q.
  - split; [reflexivity|]. intros N. contradiction.
Qed.

Lemma base_uint_division_witness :
  exists q, div_assign 8 ex_b ex_a = Some q /\ wf 8 q /\ val 8 q = val 8 ex_b / val 8 ex_a.
Proof.
  apply (base_uint_division 8 ex_b ex_a); [lia|now apply wfb_sound|now apply wfb_sound|].
  vm_compute. discriminate.
Defined.

(** Comparisons decide the order of the values, [IsNull] decides zero,
    the bitwise operators act on the bits of the values, and [bits()] is the
    position of the highest bit set plus one (zero for zero). *)
Theorem base_uint_order_and_bits W a b :
  wf W a -> wf W b ->
  base_uint_lt W a b = (val W a <? val W b) /\
  base_uint_le W a b = (val W a <=? val W b) /\
  base_uint_gt W a b = (val W b <? val W a) /\
  base_uint_ge W a b = (val W b <=? val W a) /\
  (CompareTo W a b = 0 <-> a = b) /\
  base_uint_IsNull W a = (val W a =? 0) /\
  val W (xor_assign W a b) = Z.lxor (val W a) (val W b) /\
  val W (and_assign W a b) = Z.land (val W a) (val W b) /\
  val W (or_assign W a b) = Z.lor (val W a) (val W b) /\
  base_uint_bits W a = (if val W a =? 0 then 0 else Z.log2 (val W a) + 1).
Proof.
  intros Ha Hb. split; [now apply base_uint_lt_spec|]. split; [now apply base_uint_le_spec|].
  split; [now apply base_uint_gt_spec|]. split; [now apply base_uint_ge_spec|]. split.
  { rewrite CompareTo_spec by assumption. destruct (Z.compare_spec (val W a) (val W b)) as [E|L|L];
      split; try discriminate; intros C; try (subst; lia); [now apply (val_inj W)]. }
  split; [now apply base_uint_IsNull_spec|].
  split; [apply (pointwise_val W Z.lxor xorb); auto using Z.lxor_spec|].
  split; [apply (pointwise_val W Z.land andb); auto using Z.land_spec|].
  split; [apply (pointwise_val W Z.lor orb); auto using Z.lor_spec|].
  now apply base_uint_bits_spec.
Qed.

Lemma base_uint_order_and_bits_witness :
  base_uint_lt 8 ex_a ex_b = (val 8 ex_a <? val 8 ex_b) /\ base_uint_bits 8 ex_b = 256.
Proof.
  pose proof (base_uint_order_and_bits 8 ex_a ex_b ltac:(now apply wfb_sound) ltac:(now apply wfb_sound)) as H.
  split; [apply H | vm_compute; reflexivity].
Defined.

(** [SetCompact] decodes a 32-bit compact word to the number it denotes;
    [*pfOverflow] is set exactly when that number does not fit 256 bits (so a
    word accepted by the callers is decoded without truncation), and
    [*pfNegative] exactly when it is a nonzero number with the sign bit. *)
Theorem SetCompact_decodes c :
  0 <= c < 2 ^ 32 ->
  let '(this, neg, ovf) := SetCompact c in
  wf WIDTH256 this /\
  (ovf = false -> val WIDTH256 this = compact_value c) /\
  (ovf = true <-> 2 ^ 256 <= compact_value c) /\
  (neg = true <-> compact_value c <> 0 /\ Z.testbit c 23 = true).
Proof.
  intros Hc. pose proof (SetCompact_value c Hc) as H.
  destruct (SetCompact c) as [[this neg] ovf]. destruct H as (H1 & H2 & -> & ->).
  assert (0 <= compact_value c).
  { unfold compact_value. pose proof (Z.mod_pos_bound c (2 ^ 23)).
    destruct (_ <=? 3) eqn:E; breflect; [apply Z.div_pos|apply Z.mul_nonneg_nonneg];
      try lia; try apply pow2_pos; try apply Z.pow_nonneg; lia. }
  split; [exact H1|]. split; [|split].
  - intros E. breflect. rewrite H2, Z.mod_small by lia. reflexivity.
  - rewrite Z.leb_le. reflexivity.
  - rewrite andb_true_iff, negb_true_iff, Z.eqb_neq. reflexivity.
Qed.

Lemma SetCompact_decodes_witness :
  let '(this, neg, ovf) := SetCompact 0x1e0ffff0 in
  wf WIDTH256 this /\ (ovf = true <-> 2 ^ 256 <= compact_value 0x1e0ffff0).
Proof.
  pose proof (SetCompact_decodes 0x1e0ffff0 ltac:(lia)) as H.
  destruct (SetCompact 0x1e0ffff0) as [[this neg] ovf]. split; apply H.
Defined.

Lemma GetCompact_decodes_back a :
  wf WIDTH256 a ->
  exists c, GetCompact a false = Some c /\ 0 <= c < 2 ^ 32 /\
  let '(t, neg, ovf) := SetCompact c in
  wf WIDTH256 t /\ neg = false /\ ovf = false /\
  val WIDTH256 t <= val WIDTH256 a < val WIDTH256 t + 2 ^ Z.max 0 (base_uint_bits WIDTH256 a - 16) /\
  GetCompact t false = Some c.
Proof.
  intros Ha. pose proof (GetCompact_parts a Ha) as G.
  pose proof (val_range WIDTH256 a Ha) as Hv. rewrite modulus256 in Hv.
  rewrite base_uint_bits_spec in * by assumption. fold (bitlen (val WIDTH256 a)) in *.
  set (v := val WIDTH256 a) in *.
  pose proof (compact_parts_dropped v ltac:(lia)) as D.
  pose proof (compact_parts_idem v ltac:(lia)) as I.
  destruct (compact_parts v (bitlen v)) as [m n]. destruct G as (G & Hm & Hn), D as [D1 D2].
  destruct (compact_word_fields m n Hm Hn) as (Hc & Hbit & Hval).
  exists (m + n * 2 ^ 24). split; [exact G|]. split; [exact Hc|].
  pose proof (SetCompact_value _ Hc) as S.
  destruct (SetCompact (m + n * 2 ^ 24)) as [[t neg] ovf].
  rewrite Hval, D2, Hbit in S. destruct S as (S1 & S2 & S3 & S4).
  pose proof (floor_mult_bounds v (compact_dropped n) ltac:(lia) ltac:(unfold compact_dropped; lia)) as F.
  set (tv := v / 2 ^ compact_dropped n * 2 ^ compact_dropped n) in *.
  assert (0 <= tv).
  { unfold tv. apply Z.mul_nonneg_nonneg; [apply Z.div_pos; [lia|apply pow2_pos]|apply Z.pow_nonneg];
      unfold compact_dropped; lia. }
  rewrite Z.mod_small in S2 by lia. rewrite S2. split; [exact S1|].
  split; [rewrite S4; apply andb_false_r|]. split; [rewrite S3; apply Z.leb_gt; lia|].
  assert (2 ^ compact_dropped n <= 2 ^ Z.max 0 (bitlen v - 16)) by (apply Z.pow_le_mono_r; lia).
  split; [lia|].
  pose proof (GetCompact_parts t S1) as G2. rewrite base_uint_bits_spec, S2 in G2 by assumption.
  fold (bitlen tv) in G2. rewrite I in G2. apply G2.
Qed.

(** [GetCompact] never trips its assertions; decoding what it produces
    gives back the number rounded down, with an error below
    [2 ^ (bits - 16)] and none for numbers of at most 16 bits, with neither the
    sign nor the overflow flag; and encoding the decoded number again gives the
    same word, so compact words produced by the program are canonical. *)
Theorem GetCompact_roundtrip a :
  wf WIDTH256 a ->
  exists c, GetCompact a false = Some c /\ 0 <= c < 2 ^ 32 /\
  let '(t, neg, ovf) := SetCompact c in
  wf WIDTH256 t /\ neg = false /\ ovf = false /\
  val WIDTH256 t <= val WIDTH256 a < val WIDTH256 t + 2 ^ Z.max 0 (base_uint_bits WIDTH256 a - 16) /\
  GetCompact t false = Some c.
Proof. apply GetCompact_decodes_back. Qed.

Lemma GetCompact_roundtrip_witness :
  wf WIDTH256 ex_b /\ exists c, GetCompact ex_b false = Some c /\ 0 <= c < 2 ^ 32.
Proof.
  split; [now apply wfb_sound|].
  destruct (GetCompact_roundtrip ex_b ltac:(now apply wfb_sound)) as (c & H1 & H2 & _).
  now exists c.
Defined.
