(* ===== verification/Consensus.v ===== *)
(** Consensus parameters and network upgrades
    (src/consensus/params.h, src/consensus/params.cpp, src/consensus/upgrades.cpp). *)
From Stdlib Require Import ZArith Lia List Bool.
From S2P Require Import Prelude.
Import ListNotations.
Local Open Scope Z_scope.

(** [enum UpgradeIndex : uint32_t] *)
Definition BASE_NETWORK : Z := 0.
Definition UPGRADE_POS : Z := 1.
Definition UPGRADE_POS_V2 : Z := 2.
Definition UPGRADE_ZC : Z := 3.
Definition UPGRADE_ZC_V2 : Z := 4.
Definition UPGRADE_BIP65 : Z := 5.
Definition UPGRADE_ZC_PUBLIC : Z := 6.
Definition UPGRADE_V3_4 : Z := 7.
Definition UPGRADE_V4_0 : Z := 8.
Definition UPGRADE_V5_0 : Z := 9.
Definition UPGRADE_V6_0 : Z := 10.
Definition UPGRADE_TESTDUMMY : Z := 11.
Definition MAX_NETWORK_UPGRADES : Z := 12.

Definition ALWAYS_ACTIVE : Z := 0.
Definition NO_ACTIVATION_HEIGHT : Z := -1.

Record NetworkUpgrade := {
  nProtocolVersion : Z;
  nActivationHeight : Z;
  hashActivationBlock : option (list Z)
}.

(** The consensus parameters the modelled code reads; big integers are limb
    arrays of [base_uint<256>]. *)
Record Params := {
  powLimit : list Z;
  posLimitV1 : list Z;
  posLimitV2 : list Z;
  nBudgetCycleBlocks : Z;
  nCoinbaseMaturity : Z;
  nFutureTimeDriftPoW : Z;
  nFutureTimeDriftPoS : Z;
  nMaxMoneyOut : Z;
  nStakeMinAge : Z;
  nStakeMinDepth : Z;
  nTargetTimespan : Z;
  nTargetTimespanV2 : Z;
  nTargetSpacing : Z;
  nTimeSlotLength : Z;
  vUpgrades : list NetworkUpgrade;
  ZC_MaxPublicSpendsPerTx : Z;
  ZC_MaxSpendsPerTx : Z
}.

(** ** upgrades.cpp *)

Inductive UpgradeState := UPGRADE_DISABLED | UPGRADE_PENDING | UPGRADE_ACTIVE.

Definition is_ACTIVE (s : UpgradeState) : bool :=
  match s with UPGRADE_ACTIVE => true | _ => false end.
Definition is_PENDING (s : UpgradeState) : bool :=
  match s with UPGRADE_PENDING => true | _ => false end.

Definition no_upgrade : NetworkUpgrade :=
  {| nProtocolVersion := 0; nActivationHeight := NO_ACTIVATION_HEIGHT; hashActivationBlock := None |}.

Definition upgrade_height (params : Params) (idx : Z) : Z :=
  nActivationHeight (nth (Z.to_nat idx) (vUpgrades params) no_upgrade).

(** [None]: one of the two assertions fails. *)
Definition NetworkUpgradeState (nHeight : Z) (params : Params) (idx : Z) : option UpgradeState :=
  if negb (nHeight >=? 0) then None
  else if negb ((idx >=? BASE_NETWORK) && (idx <? MAX_NETWORK_UPGRADES)) then None
  else
    let nActivationHeight := upgrade_height params idx in
    if nActivationHeight =? NO_ACTIVATION_HEIGHT then Some UPGRADE_DISABLED
    else if nHeight >=? nActivationHeight then Some UPGRADE_ACTIVE
    else Some UPGRADE_PENDING.

(** The free function of upgrades.cpp. *)
Definition NetworkUpgradeActive_free (nHeight : Z) (params : Params) (idx : Z) : option bool :=
  option_map is_ACTIVE (NetworkUpgradeState nHeight params idx).

(** [Params::NetworkUpgradeActive]: an index or a height out of range is logged
    and counts as not active. *)
Definition NetworkUpgradeActive (params : Params) (nHeight idx : Z) : bool :=
  if idx >=? MAX_NETWORK_UPGRADES then false
  else if nHeight <? 0 then false
  else match NetworkUpgradeState nHeight params idx with
       | Some s => is_ACTIVE s
       | None => false
       end.

(** [for (idxInt = MAX - 1; idxInt > BASE_NETWORK; idxInt--)], [n] is [idxInt]. *)
Fixpoint current_epoch_from (n : nat) (nHeight : Z) (params : Params) : option Z :=
  match n with
  | O => Some BASE_NETWORK
  | S m =>
      match NetworkUpgradeActive_free nHeight params (Z.of_nat n) with
      | None => None
      | Some true => Some (Z.of_nat n)
      | Some false => current_epoch_from m nHeight params
      end
  end.
Definition CurrentEpoch (nHeight : Z) (params : Params) : option Z :=
  current_epoch_from (Z.to_nat (MAX_NETWORK_UPGRADES - 1)) nHeight params.

Definition IsActivationHeight (nHeight : Z) (params : Params) (idx : Z) : option bool :=
  if negb ((idx >=? BASE_NETWORK) && (idx <? MAX_NETWORK_UPGRADES)) then None
  else if idx =? BASE_NETWORK then Some false
  else Some ((nHeight >=? 0) && (nHeight =? upgrade_height params idx)).

Fixpoint any_activation_from (n : nat) (idx nHeight : Z) (params : Params) : bool :=
  match n with
  | O => false
  | S m => if nHeight =? upgrade_height params idx then true
           else any_activation_from m (idx + 1) nHeight params
  end.
Definition IsActivationHeightForAnyUpgrade (nHeight : Z) (params : Params) : bool :=
  if nHeight <? 0 then false
  else any_activation_from (Z.to_nat (MAX_NETWORK_UPGRADES - 1)) (BASE_NETWORK + 1) nHeight params.

(** [for (idx = BASE_NETWORK + 1; idx < MAX; idx++)] over [n] remaining indices. *)
Fixpoint next_epoch_from (n : nat) (idx nHeight : Z) (params : Params) : option Z :=
  match n with
  | O => None
  | S m =>
      match NetworkUpgradeState nHeight params idx with
      | Some UPGRADE_PENDING => Some idx
      | _ => next_epoch_from m (idx + 1) nHeight params
      end
  end.
Definition NextEpoch (nHeight : Z) (params : Params) : option Z :=
  if nHeight <? 0 then None
  else next_epoch_from (Z.to_nat (MAX_NETWORK_UPGRADES - 1)) (BASE_NETWORK + 1) nHeight params.

Definition NextActivationHeight (nHeight : Z) (params : Params) : option Z :=
  match NextEpoch nHeight params with
  | Some idx => Some (upgrade_height params idx)
  | None => None
  end.

(** ** params.h *)

Definition TargetTimespan (p : Params) (fV2 : bool) : Z :=
  if fV2 then nTargetTimespanV2 p else nTargetTimespan p.
Definition ProofOfStakeLimit (p : Params) (fV2 : bool) : list Z :=
  if fV2 then posLimitV2 p else posLimitV1 p.
Definition MoneyRange (p : Params) (nValue : Z) : bool :=
  (nValue >=? 0) && (nValue <=? nMaxMoneyOut p).
Definition IsTimeProtocolV2 (p : Params) (nHeight : Z) : bool :=
  NetworkUpgradeActive p nHeight UPGRADE_V4_0.

Definition FutureBlockTimeDrift (p : Params) (nHeight : Z) : Z :=
  if IsTimeProtocolV2 p nHeight then nTimeSlotLength p - 1
  else if NetworkUpgradeActive p nHeight UPGRADE_POS then nFutureTimeDriftPoS p
  else nFutureTimeDriftPoW p.

Definition IsValidBlockTimeStamp (p : Params) (nTime nHeight : Z) : bool :=
  if negb (IsTimeProtocolV2 p nHeight) then true
  else Z.rem nTime (nTimeSlotLength p) =? 0.

(** The age test adds an [int] to a [uint32_t]: unsigned, modulo [2 ^ 32]. *)
Definition HasStakeMinAgeOrDepth (p : Params)
    (contextHeight contextTime utxoFromBlockHeight utxoFromBlockTime : Z) : bool :=
  if negb (NetworkUpgradeActive p contextHeight UPGRADE_V3_4)
  then u32 (utxoFromBlockTime + nStakeMinAge p) <=? contextTime
  else contextHeight - utxoFromBlockHeight >=? nStakeMinDepth p.

(** * Theorems *)

Lemma NetworkUpgradeState_total h p idx :
  0 <= h -> 0 <= idx < MAX_NETWORK_UPGRADES -> exists s, NetworkUpgradeState h p idx = Some s.
Proof.
  unfold NetworkUpgradeState, BASE_NETWORK. intros. rewrite !Z.geb_leb.
  destruct (Z.leb_spec 0 h); [|lia]. destruct (Z.leb_spec 0 idx); [|lia].
  destruct (Z.ltb_spec idx MAX_NETWORK_UPGRADES); [|lia]. cbn [negb andb].
  repeat case_match_goal; eauto.
Qed.

Lemma NetworkUpgradeActive_iff p h idx : 0 <= idx ->
  NetworkUpgradeActive p h idx = true <->
  0 <= h /\ idx < MAX_NETWORK_UPGRADES /\ upgrade_height p idx <> NO_ACTIVATION_HEIGHT /\
  upgrade_height p idx <= h.
Proof.
  intros Hi. unfold NetworkUpgradeActive, NetworkUpgradeState, BASE_NETWORK. rewrite !Z.geb_leb.
  destruct (Z.leb_spec MAX_NETWORK_UPGRADES idx); [split; [discriminate|lia]|].
  destruct (Z.ltb_spec h 0); [split; [discriminate|lia]|].
  destruct (Z.leb_spec 0 h), (Z.leb_spec 0 idx); try lia.
  destruct (Z.ltb_spec idx MAX_NETWORK_UPGRADES); [|lia]. cbn [negb andb].
  destruct (Z.eqb_spec (upgrade_height p idx) NO_ACTIVATION_HEIGHT); [split; [discriminate|lia]|].
  destruct (Z.leb_spec (upgrade_height p idx) h); cbn; split; (discriminate || lia || auto).
Qed.

Lemma NetworkUpgradeActive_free_eq p h idx :
  0 <= h -> 0 <= idx < MAX_NETWORK_UPGRADES ->
  NetworkUpgradeActive_free h p idx = Some (NetworkUpgradeActive p h idx).
Proof.
  intros Hh Hi. destruct (NetworkUpgradeState_total h p idx Hh Hi) as [s E].
  unfold NetworkUpgradeActive_free, NetworkUpgradeActive. rewrite E, Z.geb_leb.
  destruct (Z.leb_spec MAX_NETWORK_UPGRADES idx); [lia|]. destruct (Z.ltb_spec h 0); [lia|reflexivity].
Qed.

Lemma current_epoch_from_spec p h n : 0 <= h -> Z.of_nat n < MAX_NETWORK_UPGRADES ->
  exists e, current_epoch_from n h p = Some e /\ 0 <= e <= Z.of_nat n /\
  (e = BASE_NETWORK \/ NetworkUpgradeActive p h e = true) /\
  (forall i, e < i <= Z.of_nat n -> NetworkUpgradeActive p h i = false).
Proof.
  intros Hh. induction n as [|n IH]; intros Hn.
  - exists BASE_NETWORK. unfold BASE_NETWORK. repeat split; auto; lia.
  - cbn [current_epoch_from]. rewrite NetworkUpgradeActive_free_eq by lia.
    destruct (NetworkUpgradeActive p h (Z.of_nat (S n))) eqn:E.
    + exists (Z.of_nat (S n)). repeat split; auto; lia.
    + destruct IH as (e & E1 & E2 & E3 & E4); [lia|]. exists e. repeat split; auto; try lia.
      intros i Hi. destruct (Z.eq_dec i (Z.of_nat (S n))) as [->|]; [assumption|]. apply E4. lia.
Qed.

Lemma next_epoch_from_spec p h n : forall idx, 0 <= h -> 0 <= idx ->
  idx + Z.of_nat n = MAX_NETWORK_UPGRADES ->
  match next_epoch_from n idx h p with
  | Some i => idx <= i < MAX_NETWORK_UPGRADES /\ NetworkUpgradeState h p i = Some UPGRADE_PENDING /\
      forall j, idx <= j < i -> NetworkUpgradeState h p j <> Some UPGRADE_PENDING
  | None => forall j, idx <= j < MAX_NETWORK_UPGRADES -> NetworkUpgradeState h p j <> Some UPGRADE_PENDING
  end.
Proof.
  induction n as [|n IH]; intros idx Hh Hi Hn; cbn [next_epoch_from]; [lia|].
  specialize (IH (idx + 1) Hh ltac:(lia) ltac:(lia)).
  assert (F : NetworkUpgradeState h p idx <> Some UPGRADE_PENDING ->
     match next_epoch_from n (idx + 1) h p with
     | Some i => idx <= i < MAX_NETWORK_UPGRADES /\ NetworkUpgradeState h p i = Some UPGRADE_PENDING /\
         forall j, idx <= j < i -> NetworkUpgradeState h p j <> Some UPGRADE_PENDING
     | None => forall j, idx <= j < MAX_NETWORK_UPGRADES -> NetworkUpgradeState h p j <> Some UPGRADE_PENDING
     end).
  { intros N. destruct (next_epoch_from n (idx + 1) h p) as [i|].
    - destruct IH as (H1 & H2 & H3). split; [lia|]. split; [assumption|]. intros j Hj.
      destruct (Z.eq_dec j idx) as [->|]; [assumption|]. apply H3. lia.
    - intros j Hj. destruct (Z.eq_dec j idx) as [->|]; [assumption|]. apply IH. lia. }
  destruct (NetworkUpgradeState h p idx) as [[| |]|] eqn:E; try (apply F; discriminate).
  split; [lia|]. split; [assumption|]. lia.
Qed.

Lemma NetworkUpgradeState_pending h p idx :
  NetworkUpgradeState h p idx = Some UPGRADE_PENDING -> h < upgrade_height p idx.
Proof.
  unfold NetworkUpgradeState. intros H.
  destruct (negb (h >=? 0)); [discriminate|]. destruct (negb _); [discriminate|].
  destruct (_ =? _); [discriminate|]. destruct (h >=? _) eqn:E; [discriminate|].
  rewrite Z.geb_leb in E. breflect. lia.
Qed.

(** Upgrades never deactivate — an upgrade active at a height is active at
    every later height — and they become active exactly at their activation
    height: [CurrentEpoch] is the highest active upgrade index (the base
    network if none), and [NextActivationHeight] is the activation height,
    above the current one, of the first upgrade that is still pending. *)
Theorem network_upgrade_schedule p h :
  0 <= h ->
  (forall idx h', 0 <= idx -> h <= h' ->
     NetworkUpgradeActive p h idx = true -> NetworkUpgradeActive p h' idx = true) /\
  (exists e, CurrentEpoch h p = Some e /\
     (e = BASE_NETWORK \/ NetworkUpgradeActive p h e = true) /\
     forall i, e < i < MAX_NETWORK_UPGRADES -> NetworkUpgradeActive p h i = false) /\
  match NextActivationHeight h p with
  | Some a => h < a /\ exists i, BASE_NETWORK < i < MAX_NETWORK_UPGRADES /\
      upgrade_height p i = a /\ NetworkUpgradeState h p i = Some UPGRADE_PENDING
  | None => forall i, BASE_NETWORK < i < MAX_NETWORK_UPGRADES ->
      NetworkUpgradeState h p i <> Some UPGRADE_PENDING
  end.
Proof.
  intros Hh. split; [|split].
  - intros idx h' Hi Hle H. apply NetworkUpgradeActive_iff in H; [|assumption].
    apply NetworkUpgradeActive_iff; lia.
  - destruct (current_epoch_from_spec p h 11 Hh) as (e & E1 & _ & E3 & E4); [reflexivity|].
    exists e. split; [exact E1|]. split; [exact E3|]. intros i Hi. apply E4.
    unfold MAX_NETWORK_UPGRADES in *. lia.
  - unfold NextActivationHeight, NextEpoch. destruct (Z.ltb_spec h 0); [lia|].
    pose proof (next_epoch_from_spec p h 11 1 Hh ltac:(lia) ltac:(reflexivity)) as N.
    change (Z.to_nat (MAX_NETWORK_UPGRADES - 1)) with 11%nat. change (BASE_NETWORK + 1) with 1.
    unfold BASE_NETWORK. destruct (next_epoch_from 11 1 h p) as [i|].
    + destruct N as (N1 & N2 & _). split; [now apply NetworkUpgradeState_pending|].
      exists i. repeat split; auto; lia.
    + intros i Hi. apply N. lia.
Qed.

(** The main-network schedule (src/chainparams.cpp). *)
Definition mainnet_upgrades : list NetworkUpgrade :=
  map (fun h => {| nProtocolVersion := 0; nActivationHeight := h; hashActivationBlock := None |})
    [ALWAYS_ACTIVE; 51; 51; 2 ^ 31 - 1; 2 ^ 31 - 1; 1; 2 ^ 31 - 1; 51; 51; 1;
     NO_ACTIVATION_HEIGHT; NO_ACTIVATION_HEIGHT].

Definition ex_params : Params := {|
  powLimit := [0xffffffff; 0xffffffff; 0xffffffff; 0xffffffff; 0xffffffff; 0xffffffff; 0xffffffff; 0xfff];
  posLimitV1 := [0xffffffff; 0xffffffff; 0xffffffff; 0xffffffff; 0xffffffff; 0xffffffff; 0xffffffff; 0xff];
  posLimitV2 := [0xffffffff; 0xffffffff; 0xffffffff; 0xffffffff; 0xffffffff; 0xffffffff; 0xffffffff; 0xfff];
  nBudgetCycleBlocks := 43200; nCoinbaseMaturity := 6; nFutureTimeDriftPoW := 7200;
  nFutureTimeDriftPoS := 180; nMaxMoneyOut := 21000000 * 100000000; nStakeMinAge := 60;
  nStakeMinDepth := 6; nTargetTimespan := 40 * 60; nTargetTimespanV2 := 30 * 60;
  nTargetSpacing := 60; nTimeSlotLength := 15; vUpgrades := mainnet_upgrades;
  ZC_MaxPublicSpendsPerTx := 637; ZC_MaxSpendsPerTx := 7 |}.

Lemma network_upgrade_schedule_witness :
  CurrentEpoch 50 ex_params = Some UPGRADE_V5_0 /\ NextActivationHeight 50 ex_params = Some 51 /\
  NetworkUpgradeActive ex_params 51 UPGRADE_POS = true /\
  NetworkUpgradeActive ex_params 100 UPGRADE_POS = true.
Proof.
  split; [vm_compute; reflexivity|]. split; [vm_compute; reflexivity|].
  assert (H : NetworkUpgradeActive ex_params 51 UPGRADE_POS = true) by (vm_compute; reflexivity).
  split; [exact H|].
  apply (proj1 (network_upgrade_schedule ex_params 51 ltac:(lia)) UPGRADE_POS 100);
    [unfold UPGRADE_POS; lia | lia | exact H].
Defined.
