(* ===== verification/Pow.v ===== *)
(** Difficulty retargeting and proof of work (src/pow.cpp).

    A chain of block indices linked by [pprev] is the list of its entries from
    the tip down; a null pointer is the empty list.  Results are [option]: [None]
    stands for a null dereference, an exception of [uint256] or a failed
    assertion, and the theorems show that it is not reached. *)
From Stdlib Require Import ZArith Lia List Bool.
From S2P Require Import Prelude Uint256 Consensus.
Import ListNotations.
Local Open Scope Z_scope.

(** The fields of [CBlockIndex] that pow.cpp reads. *)
Record PowIndex := { pi_nHeight : Z; pi_nTime : Z; pi_nBits : Z }.

Definition pi_GetBlockTime (b : PowIndex) : Z := pi_nTime b.

(** [uint256 x; x.SetCompact(nBits)] *)
Definition uint256_SetCompact (nBits : Z) : list Z := fst (fst (SetCompact nBits)).

(** [a * n] and [a *= n] with an [int64_t] on the right select the [uint32_t]
    overload; [/] and [+] convert it through [base_uint(uint64_t)]. *)
Definition mul_i64 (a : list Z) (n : Z) : list Z := mul32_assign WIDTH256 a (u32 n).
Definition div_i64 (a : list Z) (n : Z) : option (list Z) :=
  div_assign WIDTH256 a (base_uint_of_u64 WIDTH256 (u64 n)).
Definition add_256 (a b : list Z) : list Z := add_assign WIDTH256 a b.

(** State of the loop over the last 24 blocks. *)
Record DGWState := {
  dgw_actual : Z;       (* nActualTimespan *)
  dgw_lastTime : Z;     (* LastBlockTime *)
  dgw_count : Z;        (* CountBlocks *)
  dgw_avg : list Z;     (* PastDifficultyAverage *)
  dgw_avgPrev : list Z  (* PastDifficultyAveragePrev *)
}.

Definition PastBlocksMin : Z := 24.
Definition PastBlocksMax : Z := 24.

(** The body of the loop, for the block [BlockReading]. *)
Definition dgw_body (BlockReading : PowIndex) (s : DGWState) : option DGWState :=
  let CountBlocks := dgw_count s + 1 in
  let avg :=
    if CountBlocks <=? PastBlocksMin then
      (if CountBlocks =? 1 then Some (uint256_SetCompact (pi_nBits BlockReading))
       else div_i64 (add_256 (mul_i64 (dgw_avgPrev s) CountBlocks)
                             (uint256_SetCompact (pi_nBits BlockReading)))
                    (CountBlocks + 1))
    else Some (dgw_avg s) in
  match avg with
  | None => None
  | Some PastDifficultyAverage =>
      Some {| dgw_actual :=
                if dgw_lastTime s >? 0
                then dgw_actual s + (dgw_lastTime s - pi_GetBlockTime BlockReading)
                else dgw_actual s;
              dgw_lastTime := pi_GetBlockTime BlockReading;
              dgw_count := CountBlocks;
              dgw_avg := PastDifficultyAverage;
              dgw_avgPrev := if CountBlocks <=? PastBlocksMin then PastDifficultyAverage
                             else dgw_avgPrev s |}
  end.

(** [for (i = 1; BlockReading && BlockReading->nHeight > 0; i++)] *)
Fixpoint dgw_loop (i : Z) (BlockReading : list PowIndex) (s : DGWState) : option DGWState :=
  match BlockReading with
  | [] => Some s
  | b :: pprev =>
      if negb (pi_nHeight b >? 0) then Some s
      else if (PastBlocksMax >? 0) && (i >? PastBlocksMax) then Some s
      else match dgw_body b s with
           | None => None
           | Some s' =>
               match pprev with
               | [] => Some s'
               | _ => dgw_loop (i + 1) pprev s'
               end
           end
  end.

Definition dgw_init : DGWState := {|
  dgw_actual := 0; dgw_lastTime := 0; dgw_count := 0;
  dgw_avg := base_uint_zero WIDTH256; dgw_avgPrev := base_uint_zero WIDTH256 |}.

(** The proof-of-stake retarget (second branch of [GetNextWorkRequired]). *)
Definition pos_actual_spacing (consensus : Params) (fTimeV2 : bool) (tip prev : PowIndex) : Z :=
  let nActualSpacing :=
    if negb (pi_nHeight tip =? 0) then pi_GetBlockTime tip - pi_GetBlockTime prev else 0 in
  let nActualSpacing := if nActualSpacing <? 0 then 1 else nActualSpacing in
  if fTimeV2 && (nActualSpacing >? nTargetSpacing consensus * 10)
  then nTargetSpacing consensus * 10 else nActualSpacing.

Definition pos_next_work (consensus : Params) (tip prev : PowIndex) : option Z :=
  let fTimeV2 := IsTimeProtocolV2 consensus (pi_nHeight tip + 1) in
  let bnTargetLimit := ProofOfStakeLimit consensus fTimeV2 in
  let nTargetTimespan := TargetTimespan consensus fTimeV2 in
  let nActualSpacing := pos_actual_spacing consensus fTimeV2 tip prev in
  let bnNew := uint256_SetCompact (pi_nBits tip) in
  let bnNew :=
    if fTimeV2 && negb (IsTimeProtocolV2 consensus (pi_nHeight tip))
    then shl_assign WIDTH256 bnNew 4 else bnNew in
  let nInterval := Z.quot nTargetTimespan (nTargetSpacing consensus) in
  let bnNew := mul_i64 bnNew ((nInterval - 1) * nTargetSpacing consensus
                              + nActualSpacing + nActualSpacing) in
  match div_i64 bnNew ((nInterval + 1) * nTargetSpacing consensus) with
  | None => None
  | Some bnNew =>
      let bnNew :=
        if base_uint_le WIDTH256 bnNew (base_uint_of_u64 WIDTH256 0)
           || base_uint_gt WIDTH256 bnNew bnTargetLimit
        then bnTargetLimit else bnNew in
      GetCompact bnNew false
  end.

(** The end of the DarkGravity branch: clamp the timespan and retarget. *)
Definition dgw_retarget (consensus : Params) (s : DGWState) : option Z :=
  let bnNew := dgw_avg s in
  let nActualTimespan := dgw_actual s in
  let nTargetTimespan := dgw_count s * nTargetSpacing consensus in
  let nActualTimespan :=
    if nActualTimespan <? Z.quot nTargetTimespan 3 then Z.quot nTargetTimespan 3
    else nActualTimespan in
  let nActualTimespan :=
    if nActualTimespan >? nTargetTimespan * 3 then nTargetTimespan * 3 else nActualTimespan in
  let bnNew := mul_i64 bnNew nActualTimespan in
  match div_i64 bnNew nTargetTimespan with
  | None => None
  | Some bnNew =>
      let bnNew := if base_uint_gt WIDTH256 bnNew (powLimit consensus)
                   then powLimit consensus else bnNew in
      GetCompact bnNew false
  end.

Definition GetNextWorkRequired (fRegTest : bool) (consensus : Params)
    (pindexLast : list PowIndex) : option Z :=
  match fRegTest, pindexLast with
  | true, [] => None
  | true, tip :: _ => Some (pi_nBits tip)
  | false, [] => GetCompact (powLimit consensus) false
  | false, tip :: rest =>
      if (pi_nHeight tip =? 0) || (pi_nHeight tip <? PastBlocksMin)
      then GetCompact (powLimit consensus) false
      else if NetworkUpgradeActive consensus (pi_nHeight tip + 1) UPGRADE_POS then
        match rest with
        | [] => None
        | prev :: _ => pos_next_work consensus tip prev
        end
      else
        match dgw_loop 1 pindexLast dgw_init with
        | None => None
        | Some s => dgw_retarget consensus s
        end
  end.

Definition CheckProofOfWork (fRegTest : bool) (consensus : Params) (hash : list Z) (nBits : Z) : bool :=
  if fRegTest then true
  else
    let '(bnTarget, fNegative, fOverflow) := SetCompact nBits in
    if fNegative || base_uint_IsNull WIDTH256 bnTarget || fOverflow
       || base_uint_gt WIDTH256 bnTarget (powLimit consensus)
    then false
    else if base_uint_gt WIDTH256 hash bnTarget then false
    else true.

Definition GetBlockProof (nBits : Z) : option (list Z) :=
  let '(bnTarget, fNegative, fOverflow) := SetCompact nBits in
  if fNegative || fOverflow || base_uint_IsNull WIDTH256 bnTarget
  then Some (base_uint_zero WIDTH256)
  else
    match div_assign WIDTH256 (base_uint_not WIDTH256 bnTarget)
            (add_256 bnTarget (base_uint_of_u64 WIDTH256 1)) with
    | None => None
    | Some q => Some (add_256 q (base_uint_of_u64 WIDTH256 1))
    end.

(** * Theorems *)

Lemma W256_ge2 : (2 <= WIDTH256)%nat.
Proof. unfold WIDTH256; lia. Qed.
#[export] Hint Resolve W256_ge2 : passion.

Lemma compact_value_nonneg c : 0 <= c -> 0 <= compact_value c.
Proof.
  intros Hc. unfold compact_value. pose proof (Z.mod_pos_bound c (2 ^ 23)).
  destruct (_ <=? 3) eqn:E; breflect; [apply Z.div_pos|apply Z.mul_nonneg_nonneg];
    try lia; try apply pow2_pos; try apply Z.pow_nonneg; lia.
Qed.

(** No compact word denotes [2 ^ 256 - 1]: the numbers that fit a mantissa are
    small, the others are even. *)
Lemma compact_value_not_max c : 0 <= c -> compact_value c <> 2 ^ 256 - 1.
Proof.
  intros Hc. unfold compact_value. pose proof (Z.mod_pos_bound c (2 ^ 23)) as Hm.
  destruct (_ <=? 3) eqn:E; breflect; intros C.
  - pose proof (pow2_pos (8 * (3 - c / 2 ^ 24))).
    assert (c mod 2 ^ 23 / 2 ^ (8 * (3 - c / 2 ^ 24)) <= c mod 2 ^ 23)
      by (apply Z.div_le_upper_bound; nia). lia.
  - replace (8 * (c / 2 ^ 24 - 3)) with (8 * (c / 2 ^ 24 - 3) - 1 + 1) in C by lia.
    rewrite Z.pow_add_r in C by lia. lia.
Qed.

Lemma uint256_SetCompact_val c : 0 <= c < 2 ^ 32 ->
  wf WIDTH256 (uint256_SetCompact c) /\
  val WIDTH256 (uint256_SetCompact c) = compact_value c mod 2 ^ 256.
Proof.
  intros Hc. unfold uint256_SetCompact. pose proof (SetCompact_value c Hc) as H.
  destruct (SetCompact c) as [[t n] o]. cbn. tauto.
Qed.

(** Outside the regression-test network, [CheckProofOfWork] accepts exactly
    the hashes that do not exceed the target denoted by [nBits], for a target
    that is positive, has no sign bit and is within the proof-of-work limit. *)
Theorem CheckProofOfWork_accepts consensus hash nBits :
  wf WIDTH256 (powLimit consensus) -> wf WIDTH256 hash -> 0 <= nBits < 2 ^ 32 ->
  (CheckProofOfWork false consensus hash nBits = true <->
   Z.testbit nBits 23 = false /\ 0 < compact_value nBits /\
   compact_value nBits <= val WIDTH256 (powLimit consensus) /\
   val WIDTH256 hash <= compact_value nBits).
Proof.
  intros Hl Hh Hn. unfold CheckProofOfWork. pose proof (SetCompact_value nBits Hn) as S.
  pose proof (compact_value_nonneg nBits ltac:(lia)) as Hv.
  pose proof (val_range _ _ Hl) as Rl. rewrite modulus256 in Rl.
  destruct (SetCompact nBits) as [[t neg] ovf]. destruct S as (S1 & S2 & -> & ->).
  rewrite base_uint_IsNull_spec, !base_uint_gt_spec by assumption.
  destruct (Z.leb_spec (2 ^ 256) (compact_value nBits)) as [L|L].
  { rewrite orb_true_r. cbn [orb]. split; [discriminate|lia]. }
  rewrite S2, Z.mod_small by lia. rewrite orb_false_r.
  destruct (Z.eqb_spec (compact_value nBits) 0) as [E|E]; cbn [negb andb orb].
  { split; [discriminate|lia]. }
  destruct (Z.testbit nBits 23); cbn [orb]; [split; [discriminate|intros []; discriminate]|].
  destruct (Z.ltb_spec (val WIDTH256 (powLimit consensus)) (compact_value nBits)); [split; [discriminate|lia]|].
  destruct (Z.ltb_spec (compact_value nBits) (val WIDTH256 hash)); split; (discriminate || lia || auto).
Qed.

Definition ex_hash : list Z := [123; 0; 0; 0; 0; 0; 1; 0].

Lemma CheckProofOfWork_accepts_witness :
  wf WIDTH256 ex_hash /\ CheckProofOfWork false ex_params ex_hash 0x1d0fffff = true.
Proof.
  split; [now apply wfb_sound|].
  apply (CheckProofOfWork_accepts ex_params ex_hash 0x1d0fffff);
    [now apply wfb_sound | now apply wfb_sound | lia |].
  vm_compute. repeat split; congruence.
Defined.

(** The work of a block is [2 ^ 256 / (target + 1)], computed without an
    intermediate of 257 bits and without a division by zero; it is zero for a
    block whose [nBits] is negative, overflowing or zero. *)
Theorem GetBlockProof_value nBits :
  0 <= nBits < 2 ^ 32 ->
  exists w, GetBlockProof nBits = Some w /\ wf WIDTH256 w /\
  val WIDTH256 w =
    (let t := compact_value nBits in
     if Z.testbit nBits 23 || (2 ^ 256 <=? t) || (t =? 0) then 0 else 2 ^ 256 / (t + 1)).
Proof.
  intros Hn. unfold GetBlockProof. pose proof (SetCompact_value nBits Hn) as S.
  pose proof (compact_value_nonneg nBits ltac:(lia)) as Hv.
  pose proof (compact_value_not_max nBits ltac:(lia)) as Hmax.
  destruct (SetCompact nBits) as [[t neg] ovf]. destruct S as (S1 & S2 & -> & ->).
  set (v := compact_value nBits) in *. rewrite base_uint_IsNull_spec by assumption.
  assert (Z0 : exists w, Some (base_uint_zero WIDTH256) = Some w /\ wf WIDTH256 w /\ val WIDTH256 w = 0)
    by (eexists; repeat split; try apply wf_zero; reflexivity).
  destruct (Z.leb_spec (2 ^ 256) v) as [L|L]; [rewrite !orb_true_r; exact Z0|].
  rewrite S2, Z.mod_small by lia. rewrite !orb_false_r.
  destruct (Z.eqb_spec v 0) as [E|E]; cbn [negb andb orb];
    [rewrite orb_true_r; exact Z0|]. rewrite orb_false_r.
  destruct (Z.testbit nBits 23); cbn [orb]; [exact Z0|].
  rewrite Z.mod_small in S2 by lia.
  destruct (val_of_u64 WIDTH256 1) as [O1 O2]; [auto with passion|lia|].
  destruct (base_uint_not_val WIDTH256 t S1) as [N1 N2].
  destruct (add_assign_val WIDTH256 t _ S1 O1) as [A1 A2].
  rewrite modulus256 in N2, A2. rewrite S2, O2, Z.mod_small in A2 by lia.
  pose proof (div_assign_val WIDTH256 _ _ W256_ge2 N1 A1) as D.
  unfold add_256. destruct (div_assign WIDTH256 _ _) as [q|]; [|lia].
  destruct D as (_ & D1 & D2). destruct (add_assign_val WIDTH256 q _ D1 O1) as [B1 B2].
  eexists. split; [reflexivity|]. split; [exact B1|].
  assert (Q : (2 ^ 256 - 1 - v) / (v + 1) + 1 = 2 ^ 256 / (v + 1)).
  { replace (2 ^ 256) with ((2 ^ 256 - 1 - v) + 1 * (v + 1)) at 2 by ring.
    rewrite Z.div_add by lia. reflexivity. }
  rewrite B2, O2, D2, N2, S2, A2, modulus256, Q. apply Z.mod_small. split; [apply Z.div_pos; lia|].
  apply Z.div_lt_upper_bound; lia.
Qed.

Lemma GetBlockProof_value_witness :
  exists w, GetBlockProof 0x1d00ffff = Some w /\ val WIDTH256 w = 4295032833.
Proof.
  destruct (GetBlockProof_value 0x1d00ffff ltac:(lia)) as (w & H1 & H2 & H3).
  exists w. split; [exact H1|]. rewrite H3. vm_compute. reflexivity.
Defined.

(** ** Retargeting *)

(** What the chain parameters of every network satisfy. *)
Record retarget_ok (p : Params) : Prop := {
  ro_pow : wf WIDTH256 (powLimit p);
  ro_pos1 : wf WIDTH256 (posLimitV1 p);
  ro_pos2 : wf WIDTH256 (posLimitV2 p);
  ro_pos1_pos : 0 < val WIDTH256 (posLimitV1 p);
  ro_pos2_pos : 0 < val WIDTH256 (posLimitV2 p);
  ro_spacing : 0 < nTargetSpacing p < 2 ^ 24;
  ro_span1 : nTargetSpacing p <= nTargetTimespan p < 2 ^ 31;
  ro_span2 : nTargetSpacing p <= nTargetTimespanV2 p < 2 ^ 31
}.

Definition index_ok (b : PowIndex) : Prop :=
  0 <= pi_nTime b < 2 ^ 32 /\ 0 <= pi_nBits b < 2 ^ 32.

(** A compact word that denotes a target in [(0, limit]]. *)
Definition target_within (c limit : Z) : Prop :=
  0 <= c < 2 ^ 32 /\
  let '(t, neg, ovf) := SetCompact c in
  neg = false /\ ovf = false /\ 0 < val WIDTH256 t <= limit.

Lemma GetCompact_within bn limit : wf WIDTH256 bn -> 0 < val WIDTH256 bn <= limit ->
  exists c, GetCompact bn false = Some c /\ target_within c limit.
Proof.
  intros Hb Hv. destruct (GetCompact_decodes_back bn Hb) as (c & E & Hc & H).
  exists c. split; [exact E|]. split; [exact Hc|].
  destruct (SetCompact c) as [[t neg] ovf]. destruct H as (Ht & Hn & Ho & Hb2 & _).
  repeat split; auto; [|lia].
  destruct (base_uint_bits_bound WIDTH256 bn Hb) as (B1 & _ & B3).
  specialize (B3 ltac:(lia)). pose proof (val_range _ _ Ht).
  destruct (Z.eq_dec (val WIDTH256 t) 0) as [C|]; [|lia]. rewrite C in Hb2.
  assert (0 < base_uint_bits WIDTH256 bn).
  { destruct (Z.eq_dec (base_uint_bits WIDTH256 bn) 0) as [D|]; [|lia].
    rewrite base_uint_bits_spec in D by assumption.
    destruct (Z.eqb_spec (val WIDTH256 bn) 0); [lia|]. pose proof (Z.log2_nonneg (val WIDTH256 bn)). lia. }
  assert (2 ^ Z.max 0 (base_uint_bits WIDTH256 bn - 16) <= 2 ^ (base_uint_bits WIDTH256 bn - 1))
    by (apply Z.pow_le_mono_r; lia). lia.
Qed.

Lemma mul_div_i64 a f d : wf WIDTH256 a -> 0 < d < 2 ^ 64 ->
  exists q, div_i64 (mul_i64 a f) d = Some q /\ wf WIDTH256 q /\
  val WIDTH256 q = (val WIDTH256 a * (f mod 2 ^ 32)) mod 2 ^ 256 / d.
Proof.
  intros Ha Hd. unfold div_i64, mul_i64.
  destruct (mul32_assign_val WIDTH256 a (u32 f) Ha (u32_range f)) as [M1 M2].
  destruct (val_of_u64 WIDTH256 (u64 d)) as [D1 D2]; [auto with passion|apply u64_range|].
  rewrite u64_small in * by lia.
  pose proof (div_assign_val WIDTH256 _ _ W256_ge2 M1 D1) as H.
  destruct (div_assign WIDTH256 _ _) as [q|]; [|lia].
  exists q. destruct H as (_ & H1 & H2). rewrite H2, M2, D2, modulus256. auto.
Qed.

Lemma limit_ok p v2 : retarget_ok p ->
  wf WIDTH256 (ProofOfStakeLimit p v2) /\ 0 < val WIDTH256 (ProofOfStakeLimit p v2).
Proof. intros []. destruct v2; cbn; auto. Qed.

Lemma interval_bounds p v2 : retarget_ok p ->
  let n := Z.quot (TargetTimespan p v2) (nTargetSpacing p) in
  1 <= n /\ 0 < (n + 1) * nTargetSpacing p < 2 ^ 64.
Proof.
  intros []. cbn zeta.
  assert (H : nTargetSpacing p <= TargetTimespan p v2 < 2 ^ 31) by (destruct v2; assumption).
  rewrite Z.quot_div_nonneg by lia.
  assert (1 <= TargetTimespan p v2 / nTargetSpacing p) by (apply Z.div_le_lower_bound; lia).
  pose proof (Z.mul_div_le (TargetTimespan p v2) (nTargetSpacing p)). nia.
Qed.

(** Target the tip contributes, the factor and the divisor of the retarget. *)
Definition pos_old_target (p : Params) (tip : PowIndex) : Z :=
  let t := compact_value (pi_nBits tip) mod 2 ^ 256 in
  if IsTimeProtocolV2 p (pi_nHeight tip + 1) && negb (IsTimeProtocolV2 p (pi_nHeight tip))
  then (t * 16) mod 2 ^ 256 else t.
Definition pos_factor (p : Params) (tip prev : PowIndex) : Z :=
  let v2 := IsTimeProtocolV2 p (pi_nHeight tip + 1) in
  let a := pos_actual_spacing p v2 tip prev in
  (Z.quot (TargetTimespan p v2) (nTargetSpacing p) - 1) * nTargetSpacing p + 2 * a.
Definition pos_divisor (p : Params) (tip : PowIndex) : Z :=
  (Z.quot (TargetTimespan p (IsTimeProtocolV2 p (pi_nHeight tip + 1))) (nTargetSpacing p) + 1)
  * nTargetSpacing p.

(** The retarget on integers: scale, then clamp to the limit. *)
Definition pos_target_spec (old f d limit : Z) : Z :=
  let v := old * f / d in if (v <=? 0) || (limit <? v) then limit else v.

Lemma pos_next_work_spec p tip prev :
  retarget_ok p -> index_ok tip ->
  let limit := val WIDTH256 (ProofOfStakeLimit p (IsTimeProtocolV2 p (pi_nHeight tip + 1))) in
  exists bn, pos_next_work p tip prev = GetCompact bn false /\ wf WIDTH256 bn /\
  0 < val WIDTH256 bn <= limit /\
  (0 <= pos_factor p tip prev < 2 ^ 32 ->
   pos_old_target p tip * pos_factor p tip prev < 2 ^ 256 ->
   val WIDTH256 bn = pos_target_spec (pos_old_target p tip) (pos_factor p tip prev)
                       (pos_divisor p tip) limit).
Proof.
  intros Hp [Ht Hb]. cbn zeta. unfold pos_next_work, pos_factor, pos_divisor, pos_old_target.
  set (v2 := IsTimeProtocolV2 p (pi_nHeight tip + 1)).
  destruct (limit_ok p v2 Hp) as [L1 L2]. destruct (interval_bounds p v2 Hp) as [I1 I2].
  set (lim := ProofOfStakeLimit p v2) in *. set (n := Z.quot _ _) in *.
  destruct (uint256_SetCompact_val _ Hb) as [C1 C2].
  set (a := pos_actual_spacing p v2 tip prev).
  set (bn0 := if v2 && _ then shl_assign _ _ _ else _).
  assert (B : wf WIDTH256 bn0 /\ val WIDTH256 bn0 =
    if v2 && negb (IsTimeProtocolV2 p (pi_nHeight tip))
    then (compact_value (pi_nBits tip) mod 2 ^ 256 * 16) mod 2 ^ 256
    else compact_value (pi_nBits tip) mod 2 ^ 256).
  { unfold bn0. destruct (v2 && _); [|auto].
    destruct (shl_assign_val WIDTH256 _ 4 C1) as [S1 S2]; [lia|]. rewrite S2, C2. auto. }
  destruct B as [B1 B2]. rewrite <- B2.
  replace ((n - 1) * nTargetSpacing p + a + a) with ((n - 1) * nTargetSpacing p + 2 * a) by ring.
  set (f := (n - 1) * nTargetSpacing p + 2 * a). set (d := (n + 1) * nTargetSpacing p) in *.
  destruct (mul_div_i64 bn0 f d B1 I2) as (q & Q1 & Q2 & Q3). rewrite Q1.
  destruct (val_of_u64 WIDTH256 0) as [Z1 Z2]; [auto with passion|lia|].
  rewrite base_uint_le_spec, base_uint_gt_spec, Z2 by assumption.
  pose proof (val_range _ _ Q2) as Rq. pose proof (val_range _ _ B1) as Rb.
  eexists. split; [reflexivity|].
  assert (E : 0 <= f < 2 ^ 32 -> val WIDTH256 bn0 * f < 2 ^ 256 ->
              val WIDTH256 q = val WIDTH256 bn0 * f / d).
  { intros Hf Hlt. rewrite Q3, (Z.mod_small f), Z.mod_small by nia. reflexivity. }
  unfold pos_target_spec.
  destruct ((val WIDTH256 q <=? 0) || (val WIDTH256 lim <? val WIDTH256 q)) eqn:C.
  - split; [exact L1|]. split; [lia|]. intros Hf Hlt. rewrite <- E by assumption. now rewrite C.
  - split; [exact Q2|]. pose proof C as C'. apply orb_false_iff in C as [C3 C4].
    apply Z.leb_gt in C3. apply Z.ltb_ge in C4.
    split; [lia|]. intros Hf Hlt. rewrite <- E by assumption. now rewrite C'.
Qed.

(** The blocks the DarkGravity loop reads: at most [n], down to the genesis
    block, which is not read. *)
Fixpoint dgw_window (n : nat) (chain : list PowIndex) : list PowIndex :=
  match n, chain with
  | S m, b :: rest => if pi_nHeight b >? 0 then b :: dgw_window m rest else []
  | _, _ => []
  end.

(** The weighted average on integers; [c] blocks are already counted. *)
Fixpoint dgw_average (c avg : Z) (blocks : list PowIndex) : Z :=
  match blocks with
  | [] => avg
  | b :: rest =>
      let c' := c + 1 in
      let t := compact_value (pi_nBits b) in
      dgw_average c' (if c' =? 1 then t else (avg * c' + t) / (c' + 1)) rest
  end.

(** Invariant of the loop after [dgw_count] blocks. *)
Definition dgw_inv (s : DGWState) : Prop :=
  wf WIDTH256 (dgw_avg s) /\ dgw_avgPrev s = dgw_avg s /\ 0 <= dgw_count s <= 24.

Lemma dgw_body_spec b s : index_ok b -> dgw_inv s -> dgw_count s < 24 ->
  exists s', dgw_body b s = Some s' /\ dgw_inv s' /\ dgw_count s' = dgw_count s + 1 /\
  dgw_lastTime s' = pi_nTime b /\
  dgw_actual s' = (if dgw_lastTime s >? 0 then dgw_actual s + (dgw_lastTime s - pi_nTime b) else dgw_actual s) /\
  (val WIDTH256 (dgw_avg s) < 2 ^ 250 -> compact_value (pi_nBits b) < 2 ^ 250 ->
   val WIDTH256 (dgw_avg s') = dgw_average (dgw_count s) (val WIDTH256 (dgw_avg s)) [b] /\
   val WIDTH256 (dgw_avg s') < 2 ^ 250).
Proof.
  intros [Ht Hb] (I1 & I2 & I3) Hc. unfold dgw_body, PastBlocksMin.
  set (c := dgw_count s + 1). destruct (Z.leb_spec c 24); [|lia].
  destruct (uint256_SetCompact_val _ Hb) as [C1 C2].
  pose proof (compact_value_nonneg (pi_nBits b) ltac:(lia)) as Hv.
  cbn [dgw_average]. fold c. destruct (Z.eqb_spec c 1) as [E|E].
  - eexists. split; [reflexivity|]. cbn [dgw_avg dgw_count dgw_lastTime dgw_actual].
    split; [repeat split; cbn; auto; try apply C1; lia|].
    do 3 (split; [reflexivity|]). intros Hv1 Hv2. rewrite C2, Z.mod_small by lia. auto.
  - rewrite I2. unfold div_i64, mul_i64, add_256.
    destruct (mul32_assign_val WIDTH256 (dgw_avg s) (u32 c) I1 (u32_range c)) as [M1 M2].
    destruct (add_assign_val WIDTH256 _ _ M1 C1) as [A1 A2].
    destruct (val_of_u64 WIDTH256 (u64 (c + 1))) as [D1 D2]; [auto with passion|apply u64_range|].
    rewrite u64_small in * by lia. rewrite u32_small in * by lia.
    pose proof (div_assign_val WIDTH256 _ _ W256_ge2 A1 D1) as D.
    destruct (div_assign WIDTH256 _ _) as [q|]; [|lia]. destruct D as (_ & Q1 & Q2).
    eexists. split; [reflexivity|]. cbn [dgw_avg dgw_count dgw_lastTime dgw_actual].
    split; [repeat split; cbn; auto; try apply Q1; lia|].
    do 3 (split; [reflexivity|]). intros Hv1 Hv2.
    pose proof (val_range _ _ I1) as R. rewrite modulus256 in *.
    rewrite C2, (Z.mod_small (compact_value _)) in A2 by lia.
    rewrite (Z.mod_small (_ * _)) in M2 by nia.
    rewrite M2, Z.mod_small in A2 by nia. rewrite Q2, A2, D2. split; [reflexivity|].
    apply Z.div_lt_upper_bound; nia.
Qed.

Lemma last_indep {A} (l : list A) d d' : l <> [] -> last l d = last l d'.
Proof. induction l as [|x [|y l] IH]; intros H; [contradiction|reflexivity|]. apply IH. discriminate. Qed.

(** What the loop has done when it leaves: it has read the window, and, on
    targets below [2 ^ 250] and positive timestamps, the average and the time
    span are those of the window. *)
Definition dgw_post (n : nat) (chain : list PowIndex) (s s' : DGWState) : Prop :=
  dgw_inv s' /\
  dgw_count s' = dgw_count s + Z.of_nat (length (dgw_window n chain)) /\
  (val WIDTH256 (dgw_avg s) < 2 ^ 250 ->
   Forall (fun b => compact_value (pi_nBits b) < 2 ^ 250) chain ->
   val WIDTH256 (dgw_avg s') =
     dgw_average (dgw_count s) (val WIDTH256 (dgw_avg s)) (dgw_window n chain)) /\
  (0 < dgw_lastTime s -> Forall (fun b => 0 < pi_nTime b) chain ->
   dgw_actual s' = dgw_actual s + dgw_lastTime s
                   - last (map pi_nTime (dgw_window n chain)) (dgw_lastTime s)).

Lemma dgw_post_stop n chain s : dgw_window n chain = [] -> dgw_inv s -> dgw_post n chain s s.
Proof.
  intros E Hi. unfold dgw_post. rewrite E. cbn [length map last dgw_average].
  repeat split; auto; try apply Hi; lia.
Qed.

Lemma dgw_post_step n b rest s s1 s' :
  (pi_nHeight b >? 0) = true -> index_ok b -> dgw_inv s -> dgw_count s < 24 ->
  dgw_body b s = Some s1 -> dgw_post n rest s1 s' -> dgw_post (S n) (b :: rest) s s'.
Proof.
  intros Eh Hb Hi Hc E1 (G2 & G3 & G4 & G5).
  destruct (dgw_body_spec b s Hb Hi Hc) as (s1' & E1' & Hi1 & Ec & El & Ea & Ev).
  rewrite E1 in E1'. injection E1' as <-. unfold dgw_post. cbn [dgw_window]. rewrite Eh.
  split; [exact G2|]. split; [cbn [length]; lia|]. split.
  - intros Hv Hf. inversion Hf; subst. destruct (Ev Hv) as [V1 V2]; [assumption|].
    rewrite G4, V1, Ec by assumption. reflexivity.
  - intros Hl Hf. inversion Hf; subst. rewrite G5, Ea, El by (assumption || lia).
    rewrite Z.gtb_ltb. destruct (Z.ltb_spec 0 (dgw_lastTime s)); [|lia].
    cbn [map last]. destruct (map pi_nTime (dgw_window n rest)) eqn:Em; [cbn; lia|].
    rewrite <- Em.
    rewrite (last_indep (map pi_nTime (dgw_window n rest)) (pi_nTime b) (dgw_lastTime s)) by congruence.
    lia.
Qed.

Lemma dgw_loop_spec chain : forall n s,
  Forall index_ok chain -> dgw_inv s -> dgw_count s = 24 - Z.of_nat n ->
  exists s', dgw_loop (dgw_count s + 1) chain s = Some s' /\ dgw_post n chain s s'.
Proof.
  induction chain as [|b rest IH]; intros n s Hok Hi Hn; cbn [dgw_loop].
  - exists s. split; [reflexivity|]. apply dgw_post_stop; [now destruct n|assumption].
  - destruct (pi_nHeight b >? 0) eqn:Eh; cbn [negb].
    2:{ exists s. split; [reflexivity|]. apply dgw_post_stop; [|assumption].
        destruct n; cbn; [reflexivity|now rewrite Eh]. }
    destruct n as [|n].
    { exists s. replace (dgw_count s + 1) with 25 by lia. split; [reflexivity|].
      now apply dgw_post_stop. }
    unfold PastBlocksMax. rewrite (Z.gtb_ltb (dgw_count s + 1)).
    destruct (Z.ltb_spec 24 (dgw_count s + 1)); [lia|]. cbn [andb Z.gtb Z.compare].
    inversion Hok as [|? ? Hb Hrest]; subst.
    destruct (dgw_body_spec b s Hb Hi) as (s1 & E1 & Hi1 & Ec & _); [lia|]. rewrite E1.
    assert (G : exists s', match rest with [] => Some s1 | _ => dgw_loop (dgw_count s + 1 + 1) rest s1 end
                           = Some s' /\ dgw_post n rest s1 s').
    { rewrite <- Ec. destruct rest as [|b' rest'].
      - exists s1. split; [reflexivity|]. apply dgw_post_stop; [now destruct n|assumption].
      - apply IH; auto. lia. }
    destruct G as (s' & G1 & G2). exists s'. split; [exact G1|].
    apply (dgw_post_step n b rest s s1 s'); auto. lia.
Qed.

Lemma dgw_init_inv : dgw_inv dgw_init.
Proof. repeat split; try apply wf_zero; cbn; lia. Qed.

Lemma dgw_window_pos n b rest : (pi_nHeight b >? 0) = true ->
  dgw_window (S n) (b :: rest) = b :: dgw_window n rest.
Proof. intros E. cbn. now rewrite E. Qed.

Lemma GetCompact_at_most bn limit : wf WIDTH256 bn -> val WIDTH256 bn <= limit ->
  exists c, GetCompact bn false = Some c /\ 0 <= c < 2 ^ 32 /\
  let '(t, neg, ovf) := SetCompact c in neg = false /\ ovf = false /\ val WIDTH256 t <= limit.
Proof.
  intros Hb Hv. destruct (GetCompact_decodes_back bn Hb) as (c & E & Hc & H).
  exists c. split; [exact E|]. split; [exact Hc|].
  destruct (SetCompact c) as [[t neg] ovf]. destruct H as (Ht & Hn & Ho & Hb2 & _).
  repeat split; auto; lia.
Qed.

(** Span used by the retarget: the observed one, kept within a factor three. *)
Definition dgw_span (actual target : Z) : Z :=
  Z.min (Z.max actual (target / 3)) (target * 3).

Lemma dgw_retarget_spec p s : retarget_ok p -> dgw_inv s -> 1 <= dgw_count s ->
  exists bn, dgw_retarget p s = GetCompact bn false /\ wf WIDTH256 bn /\
  val WIDTH256 bn <= val WIDTH256 (powLimit p) /\
  (val WIDTH256 (dgw_avg s) * dgw_span (dgw_actual s) (dgw_count s * nTargetSpacing p) < 2 ^ 256 ->
   val WIDTH256 bn =
     Z.min (val WIDTH256 (powLimit p))
       (val WIDTH256 (dgw_avg s) * dgw_span (dgw_actual s) (dgw_count s * nTargetSpacing p)
        / (dgw_count s * nTargetSpacing p))).
Proof.
  intros Hp (I1 & I2 & I3) Hc. pose proof (ro_spacing _ Hp) as Hs. pose proof (ro_pow _ Hp) as Hl.
  unfold dgw_retarget, dgw_span. set (T := dgw_count s * nTargetSpacing p).
  assert (HT : 0 < T < 2 ^ 29) by (unfold T; nia).
  rewrite Z.quot_div_nonneg by lia. set (a := dgw_actual s).
  match goal with |- context [mul_i64 _ ?e] => set (f := e) end.
  assert (HT3 : 0 <= T / 3) by (apply Z.div_pos; lia).
  assert (Ef : f = Z.min (Z.max a (T / 3)) (T * 3)).
  { unfold f. rewrite Z.gtb_ltb. destruct (Z.ltb_spec a (T / 3));
      [destruct (Z.ltb_spec (T * 3) (T / 3)) | destruct (Z.ltb_spec (T * 3) a)]; lia. }
  destruct (mul_div_i64 (dgw_avg s) f T I1) as (q & Q1 & Q2 & Q3); [lia|]. rewrite Q1.
  rewrite base_uint_gt_spec by assumption. eexists. split; [reflexivity|].
  pose proof (val_range _ _ I1) as R.
  assert (E : val WIDTH256 (dgw_avg s) * f < 2 ^ 256 ->
              val WIDTH256 q = val WIDTH256 (dgw_avg s) * f / T).
  { intros Hlt. rewrite Q3, (Z.mod_small f), Z.mod_small by nia. reflexivity. }
  rewrite <- Ef.
  destruct (Z.ltb_spec (val WIDTH256 (powLimit p)) (val WIDTH256 q)); split; auto; split; try lia;
    intros Hlt; rewrite <- E by assumption; lia.
Qed.

(** C35: outside regtest and with at least two blocks in the chain, [GetNextWorkRequired]
    always returns (no null dereference, no division by zero, no failed assertion), and the
    word it returns denotes, without sign or overflow, a target no easier than the limit of
    the branch taken — the proof-of-stake limit once proof of stake is active, the
    proof-of-work limit before — and in the proof-of-stake branch a positive one. *)
Theorem GetNextWorkRequired_within_limit p tip prev rest :
  retarget_ok p -> Forall index_ok (tip :: prev :: rest) ->
  exists c, GetNextWorkRequired false p (tip :: prev :: rest) = Some c /\ 0 <= c < 2 ^ 32 /\
  let fPoS := negb (pi_nHeight tip <? PastBlocksMin)
              && NetworkUpgradeActive p (pi_nHeight tip + 1) UPGRADE_POS in
  let limit := if fPoS then ProofOfStakeLimit p (IsTimeProtocolV2 p (pi_nHeight tip + 1))
               else powLimit p in
  let '(t, neg, ovf) := SetCompact c in
  neg = false /\ ovf = false /\ val WIDTH256 t <= val WIDTH256 limit /\
  (fPoS = true -> 0 < val WIDTH256 t).
Proof.
  intros Hp Hok. pose proof (ro_pow _ Hp) as Hl. inversion Hok as [|? ? Htip _]; subst.
  assert (Early : forall bn, wf WIDTH256 bn -> val WIDTH256 bn <= val WIDTH256 (powLimit p) ->
    exists c, GetCompact bn false = Some c /\ 0 <= c < 2 ^ 32 /\
    let '(t, neg, ovf) := SetCompact c in
    neg = false /\ ovf = false /\ val WIDTH256 t <= val WIDTH256 (powLimit p) /\
    (false = true -> 0 < val WIDTH256 t)).
  { intros bn Hbn Hle. destruct (GetCompact_at_most bn _ Hbn Hle) as (c & E & Hc & H).
    exists c. split; [exact E|]. split; [exact Hc|]. destruct (SetCompact c) as [[t n] o].
    destruct H as (H1 & H2 & H3). repeat split; auto. discriminate. }
  cbn [GetNextWorkRequired]. unfold PastBlocksMin in *. cbv zeta.
  destruct (Z.ltb_spec (pi_nHeight tip) 24) as [L|L]; cbn [negb andb].
  { rewrite orb_true_r. apply Early; [assumption|lia]. }
  destruct (Z.eqb_spec (pi_nHeight tip) 0); [lia|]. cbn [orb].
  destruct (NetworkUpgradeActive p (pi_nHeight tip + 1) UPGRADE_POS).
  - destruct (pos_next_work_spec p tip prev Hp Htip) as (bn & E & Hbn & Hv & _). rewrite E.
    destruct (GetCompact_within bn _ Hbn Hv) as (c & Ec & Hc & H).
    exists c. split; [exact Ec|]. split; [exact Hc|]. destruct (SetCompact c) as [[t n'] o].
    destruct H as (H1 & H2 & H3 & H4). repeat split; auto.
  - destruct (dgw_loop_spec (tip :: prev :: rest) 24 dgw_init Hok dgw_init_inv) as (s & E & P); [reflexivity|].
    change (dgw_count dgw_init + 1) with 1 in E. rewrite E. destruct P as (P1 & P2 & _).
    rewrite dgw_window_pos in P2 by (rewrite Z.gtb_ltb; apply Z.ltb_lt; lia).
    cbn [length dgw_count dgw_init] in P2.
    destruct (dgw_retarget_spec p s Hp P1) as (bn & Eb & Hbn & Hv & _); [lia|].
    rewrite Eb. now apply Early.
Qed.

Definition ex_tip : PowIndex := {| pi_nHeight := 100; pi_nTime := 1600000075; pi_nBits := 0x1e0ffff0 |}.
Definition ex_prev : PowIndex := {| pi_nHeight := 99; pi_nTime := 1600000000; pi_nBits := 0x1e0ffff0 |}.

Lemma ex_params_retarget_ok : retarget_ok ex_params.
Proof. constructor; try (now apply wfb_sound); vm_compute; repeat split; congruence. Qed.

Lemma GetNextWorkRequired_within_limit_witness :
  Forall index_ok [ex_tip; ex_prev] /\
  exists c, GetNextWorkRequired false ex_params [ex_tip; ex_prev] = Some c /\ 0 <= c < 2 ^ 32.
Proof.
  assert (H : Forall index_ok [ex_tip; ex_prev]) by (repeat constructor; cbn; lia).
  split; [exact H|].
  destruct (GetNextWorkRequired_within_limit ex_params ex_tip ex_prev [] ex_params_retarget_ok H)
    as (c & E & Hc & _).
  exists c. split; [exact E|exact Hc].
Defined.

(** Once proof of stake is active, the next target is the tip's target
    (times 16 at the switch to time protocol V2) scaled by
    [((n - 1) * spacing + 2 * actual) / ((n + 1) * spacing)], and replaced by the
    limit when the scaled target is zero or exceeds it.  The scaling factor is
    converted to 32 bits and the product taken modulo [2 ^ 256], so the formula
    holds under the two stated no-overflow conditions. *)
Theorem pos_retarget_formula p tip prev rest :
  retarget_ok p -> index_ok tip -> PastBlocksMin <= pi_nHeight tip ->
  NetworkUpgradeActive p (pi_nHeight tip + 1) UPGRADE_POS = true ->
  0 <= pos_factor p tip prev < 2 ^ 32 ->
  pos_old_target p tip * pos_factor p tip prev < 2 ^ 256 ->
  exists bn, GetNextWorkRequired false p (tip :: prev :: rest) = GetCompact bn false /\
  wf WIDTH256 bn /\
  val WIDTH256 bn =
    pos_target_spec (pos_old_target p tip) (pos_factor p tip prev) (pos_divisor p tip)
      (val WIDTH256 (ProofOfStakeLimit p (IsTimeProtocolV2 p (pi_nHeight tip + 1)))).
Proof.
  unfold PastBlocksMin. intros Hp Ht Hh Ha Hf Hlt.
  destruct (pos_next_work_spec p tip prev Hp Ht) as (bn & E & Hbn & _ & Hv).
  exists bn. cbn [GetNextWorkRequired]. unfold PastBlocksMin.
  destruct (Z.eqb_spec (pi_nHeight tip) 0); [lia|].
  destruct (Z.ltb_spec (pi_nHeight tip) 24); [lia|]. cbn [orb]. rewrite Ha.
  split; [exact E|]. split; [exact Hbn|]. now apply Hv.
Qed.

Lemma pos_retarget_formula_witness :
  exists bn, GetNextWorkRequired false ex_params [ex_tip; ex_prev] = GetCompact bn false /\
  val WIDTH256 bn = pos_target_spec (compact_value 0x1e0ffff0) 1890 1860
                      (val WIDTH256 (posLimitV2 ex_params)).
Proof.
  destruct (pos_retarget_formula ex_params ex_tip ex_prev [] ex_params_retarget_ok)
    as (bn & E & _ & V).
  - split; cbn; lia.
  - vm_compute. discriminate.
  - vm_compute. reflexivity.
  - vm_compute. split; congruence.
  - vm_compute. reflexivity.
  - exists bn. split; [exact E|]. rewrite V. vm_compute. reflexivity.
Defined.

(** Before proof of stake, the DarkGravity retarget reads the last 24 blocks
    above genesis; on positive timestamps and targets below [2 ^ 250] the next
    target is the weighted average of their targets, scaled by the time between
    the newest and the oldest of them (kept within a factor three of the
    expected time) over the expected time, and capped by the proof-of-work
    limit. *)
Theorem dgw_retarget_formula p tip rest :
  retarget_ok p -> Forall index_ok (tip :: rest) ->
  Forall (fun b => 0 < pi_nTime b /\ compact_value (pi_nBits b) < 2 ^ 250) (tip :: rest) ->
  PastBlocksMin <= pi_nHeight tip ->
  NetworkUpgradeActive p (pi_nHeight tip + 1) UPGRADE_POS = false ->
  let window := dgw_window 24 (tip :: rest) in
  let expected := Z.of_nat (length window) * nTargetSpacing p in
  let span := dgw_span (pi_nTime tip - last (map pi_nTime window) 0) expected in
  let avg := dgw_average 0 0 window in
  avg * span < 2 ^ 256 ->
  exists bn, GetNextWorkRequired false p (tip :: rest) = GetCompact bn false /\
  wf WIDTH256 bn /\
  val WIDTH256 bn = Z.min (val WIDTH256 (powLimit p)) (avg * span / expected).
Proof.
  intros Hp Hok Hpos Hh Ha window expected span avg Hlt. unfold PastBlocksMin in Hh.
  assert (Hgt : (pi_nHeight tip >? 0) = true) by (rewrite Z.gtb_ltb; apply Z.ltb_lt; lia).
  inversion Hok as [|? ? Htip Hrest]; subst. inversion Hpos as [|? ? [Ht0 Htv] Hprest]; subst.
  pose proof Hprest as Hprest'.
  apply Forall_and_inv in Hprest as [Hpt Hpv].
  destruct (dgw_body_spec tip dgw_init Htip dgw_init_inv) as (s1 & E1 & I1 & C1 & L1 & A1 & V1);
    [cbn; lia|].
  assert (Hs : exists s, dgw_loop 1 (tip :: rest) dgw_init = Some s /\ dgw_post 23 rest s1 s).
  { cbn [dgw_loop]. rewrite Hgt. cbn [negb]. change ((PastBlocksMax >? 0) && (1 >? PastBlocksMax)) with false.
    cbv iota. rewrite E1. destruct rest as [|b r].
    - exists s1. split; [reflexivity|]. now apply dgw_post_stop.
    - change (1 + 1) with (dgw_count dgw_init + 1 + 1). rewrite <- C1.
      apply dgw_loop_spec; auto. }
  destruct Hs as (s & Es & P1 & P2 & P3 & P4).
  cbn [dgw_count dgw_init dgw_avg dgw_actual dgw_lastTime] in *.
  destruct V1 as [V1 V1b]; [vm_compute; reflexivity|assumption|].
  assert (Ew : window = tip :: dgw_window 23 rest) by (unfold window; now rewrite dgw_window_pos).
  assert (Ec : dgw_count s = Z.of_nat (length window)) by (rewrite Ew, P2, C1; cbn [length]; lia).
  assert (Eavg : val WIDTH256 (dgw_avg s) = avg).
  { rewrite P3, V1 by assumption. unfold avg. rewrite Ew, C1. reflexivity. }
  assert (Eact : dgw_actual s = pi_nTime tip - last (map pi_nTime window) 0).
  { rewrite P4, A1, L1 by (assumption || lia). cbn [Z.gtb Z.compare]. rewrite Ew. cbn [map last].
    destruct (map pi_nTime (dgw_window 23 rest)) eqn:Em; [cbn; lia|].
    rewrite (last_indep _ (pi_nTime tip) 0) by discriminate. lia. }
  destruct (dgw_retarget_spec p s Hp P1) as (bn & Eb & Hbn & _ & Hv); [lia|].
  exists bn. cbn [GetNextWorkRequired]. unfold PastBlocksMin.
  destruct (Z.eqb_spec (pi_nHeight tip) 0); [lia|].
  destruct (Z.ltb_spec (pi_nHeight tip) 24); [lia|]. cbn [orb]. rewrite Ha.
  rewrite Es. split; [exact Eb|]. split; [exact Hbn|].
  rewrite Ec, Eavg, Eact in Hv. now apply Hv.
Qed.

Definition ex_pow_chain : list PowIndex :=
  map (fun i => {| pi_nHeight := 30 - i; pi_nTime := 1600000000 + 60 * (30 - i); pi_nBits := 0x1d00ffff |})
    [0; 1; 2; 3].

Lemma dgw_retarget_formula_witness :
  exists bn, GetNextWorkRequired false ex_params ex_pow_chain = GetCompact bn false /\
  val WIDTH256 bn = dgw_average 0 0 ex_pow_chain * 180 / 240.
Proof.
  destruct (dgw_retarget_formula ex_params (hd ex_tip ex_pow_chain) (tl ex_pow_chain) ex_params_retarget_ok)
    as (bn & E & _ & V).
  - repeat constructor; cbn; lia.
  - repeat constructor; vm_compute; congruence.
  - vm_compute. discriminate.
  - vm_compute. reflexivity.
  - vm_compute. reflexivity.
  - exists bn. split; [exact E|]. rewrite V. vm_compute. reflexivity.
Defined.
