(* ===== verification/Serialize.v ===== *)
(** Serialization primitives (src/serialize.h, src/crypto/common.h): byte order,
    the stream readers, compact sizes, variable-length integers, vectors, and the
    interface every serializable type satisfies. *)
From Stdlib Require Import ZArith Lia List Bool.
From S2P Require Import Prelude.
Import ListNotations.
Local Open Scope Z_scope.

(** * Byte order

    A byte is a [Z] between 0 and 255. *)

Definition byte_ok (b : Z) : Prop := 0 <= b < 256.
Definition bytes_ok (l : list Z) : Prop := Forall byte_ok l.

(** The [n] low bytes of [x], least significant first. *)
Fixpoint le_bytes (n : nat) (x : Z) : list Z :=
  match n with
  | O => []
  | S m => x mod 256 :: le_bytes m (x / 256)
  end.
Fixpoint le_value (l : list Z) : Z :=
  match l with
  | [] => 0
  | b :: t => b + 256 * le_value t
  end.

Definition WriteLE16 (x : Z) : list Z := le_bytes 2 x.
Definition WriteLE32 (x : Z) : list Z := le_bytes 4 x.
Definition WriteLE64 (x : Z) : list Z := le_bytes 8 x.
Definition ReadLE16 (ptr : list Z) : Z := le_value (firstn 2 ptr).
Definition ReadLE32 (ptr : list Z) : Z := le_value (firstn 4 ptr).
Definition ReadLE64 (ptr : list Z) : Z := le_value (firstn 8 ptr).
Definition WriteBE32 (x : Z) : list Z := rev (le_bytes 4 x).
Definition WriteBE64 (x : Z) : list Z := rev (le_bytes 8 x).
Definition ReadBE32 (ptr : list Z) : Z := le_value (rev (firstn 4 ptr)).
Definition ReadBE64 (ptr : list Z) : Z := le_value (rev (firstn 8 ptr)).

(** The portable loop of [CountBits]; a 64-bit word shifts out in 64 steps. *)
Fixpoint count_bits_loop (fuel : nat) (x ret : Z) : Z :=
  match fuel with
  | O => ret
  | S f => if x =? 0 then ret else count_bits_loop f (Z.shiftr x 1) (ret + 1)
  end.
Definition CountBits (x : Z) : Z := count_bits_loop 64 x 0.

(** * Streams

    A reader consumes bytes from the front of the stream and fails with
    [std::ios_base::failure] when too few are left or the encoding is refused. *)

Definition Reader (A : Type) : Type := list Z -> option (A * list Z).

(** [CBaseDataStream::read]; requests are far below [2 ^ 32], so the 32-bit
    position does not wrap. *)
Definition stream_read (n : nat) : Reader (list Z) := fun s =>
  if (n <=? length s)%nat then Some (firstn n s, skipn n s) else None.

Definition ser_writedata8 (obj : Z) : list Z := [u8 obj].
Definition ser_writedata16 (obj : Z) : list Z := WriteLE16 (u16 obj).
Definition ser_writedata32 (obj : Z) : list Z := WriteLE32 (u32 obj).
Definition ser_writedata64 (obj : Z) : list Z := WriteLE64 (u64 obj).
Definition ser_readdata8 : Reader Z := fun s =>
  '(b, r) <- stream_read 1 s;; Some (le_value b, r).
Definition ser_readdata16 : Reader Z := fun s =>
  '(b, r) <- stream_read 2 s;; Some (ReadLE16 b, r).
Definition ser_readdata32 : Reader Z := fun s =>
  '(b, r) <- stream_read 4 s;; Some (ReadLE32 b, r).
Definition ser_readdata64 : Reader Z := fun s =>
  '(b, r) <- stream_read 8 s;; Some (ReadLE64 b, r).

(** * Compact sizes *)

Definition MAX_SIZE : Z := 0x02000000.

Definition GetSizeOfCompactSize (nSize : Z) : Z :=
  if nSize <? 253 then 1
  else if nSize <=? 0xffff then 1 + 2
  else if nSize <=? 0xffffffff then 1 + 4
  else 1 + 8.

Definition WriteCompactSize (nSize : Z) : list Z :=
  if nSize <? 253 then ser_writedata8 nSize
  else if nSize <=? 0xffff then ser_writedata8 253 ++ ser_writedata16 nSize
  else if nSize <=? 0xffffffff then ser_writedata8 254 ++ ser_writedata32 nSize
  else ser_writedata8 255 ++ ser_writedata64 nSize.

Definition ReadCompactSize : Reader Z := fun s =>
  '(chSize, s) <- ser_readdata8 s;;
  '(nSizeRet, s) <-
    (if chSize <? 253 then Some (chSize, s)
     else if chSize =? 253 then
       '(n, s) <- ser_readdata16 s;; if n <? 253 then None else Some (n, s)
     else if chSize =? 254 then
       '(n, s) <- ser_readdata32 s;; if n <? 0x10000 then None else Some (n, s)
     else
       '(n, s) <- ser_readdata64 s;; if n <? 0x100000000 then None else Some (n, s));;
  if nSizeRet >? MAX_SIZE then None else Some (nSizeRet, s).

(** * Variable-length integers

    [bits] is [sizeof(I) * 8] and [max] is [std::numeric_limits<I>::max()]. *)

Fixpoint size_of_varint_loop (fuel : nat) (n nRet : Z) : option Z :=
  match fuel with
  | O => None
  | S f =>
      let nRet := nRet + 1 in
      if n <=? 0x7F then Some nRet
      else size_of_varint_loop f (Z.shiftr n 7 - 1) nRet
  end.
Definition GetSizeOfVarInt (bits n : Z) : option Z :=
  size_of_varint_loop (Z.to_nat bits) n 0.

(** [tmp] holds the bytes written so far, [tmp[len - 1]] first: the order in
    which the second loop emits them.  [room] is what is left of the array
    [tmp[(sizeof(n)*8+6)/7]]; [None] is a write past its end. *)
Fixpoint write_varint_loop (room : nat) (n len : Z) (tmp : list Z) : option (list Z) :=
  match room with
  | O => None
  | S r =>
      let tmp := Z.lor (Z.land n 0x7F) (if len =? 0 then 0 else 0x80) :: tmp in
      if n <=? 0x7F then Some tmp
      else write_varint_loop r (Z.shiftr n 7 - 1) (len + 1) tmp
  end.
Definition WriteVarInt (bits n : Z) : option (list Z) :=
  write_varint_loop (Z.to_nat ((bits + 6) / 7)) n 0 [].

Fixpoint read_varint_loop (max n : Z) (s : list Z) : option (Z * list Z) :=
  match s with
  | [] => None
  | chData :: s =>
      if n >? Z.shiftr max 7 then None
      else
        let n := Z.lor (Z.shiftl n 7) (Z.land chData 0x7F) in
        if negb (Z.land chData 0x80 =? 0) then
          if n =? max then None else read_varint_loop max (n + 1) s
        else Some (n, s)
  end.
Definition ReadVarInt (max : Z) : Reader Z := read_varint_loop max 0.

(** * Vectors *)

(** [Serialize_impl] for vectors, prevectors and strings of bytes. *)
Definition Serialize_bytes (v : list Z) : list Z :=
  WriteCompactSize (Z.of_nat (length v)) ++ v.

(** The block loop of [Unserialize_impl]: at most 5,000,000 bytes are allocated
    and read at a time. *)
Fixpoint read_blocks (fuel : nat) (i nSize : Z) (v : list Z) : Reader (list Z) := fun s =>
  if i <? nSize then
    match fuel with
    | O => None
    | S f =>
        let blk := Z.min (nSize - i) (1 + 4999999 / 1) in
        '(chunk, s) <- stream_read (Z.to_nat blk) s;;
        read_blocks f (i + blk) nSize (v ++ chunk) s
    end
  else Some (v, s).
Definition Unserialize_bytes : Reader (list Z) := fun s =>
  '(nSize, s) <- ReadCompactSize s;;
  let nSize := u32 nSize in
  read_blocks (Z.to_nat (nSize / 5000000 + 1)) 0 nSize [] s.

(** [LimitedString<Limit>::Unserialize] *)
Definition LimitedString_Unserialize (Limit : Z) : Reader (list Z) := fun s =>
  '(size, s) <- ReadCompactSize s;;
  if size >? Limit then None
  else if negb (size =? 0) then stream_read (Z.to_nat size) s
  else Some ([], s).

Section Elements.
Context {A : Type} (ser : A -> list Z) (unser : Reader A).

Fixpoint write_elements (v : list A) : list Z :=
  match v with
  | [] => []
  | x :: t => ser x ++ write_elements t
  end.
Definition Serialize_vector (v : list A) : list Z :=
  WriteCompactSize (Z.of_nat (length v)) ++ write_elements v.

Fixpoint read_elements (n : nat) : Reader (list A) := fun s =>
  match n with
  | O => Some ([], s)
  | S m =>
      '(x, s) <- unser s;;
      '(v, s) <- read_elements m s;;
      Some (x :: v, s)
  end.
(** The element-wise [Unserialize_impl]; the vector grows [chunk] =
    [5000000 / sizeof(T)] slots at a time.  [v] holds the [i] elements read. *)
Fixpoint read_chunks (fuel : nat) (chunk nMid nSize : Z) (v : list A) : Reader (list A) :=
  fun s =>
  if nMid <? nSize then
    match fuel with
    | O => None
    | S f =>
        let nMid' := if nMid + chunk >? nSize then nSize else nMid + chunk in
        '(more, s) <- read_elements (Z.to_nat nMid' - length v) s;;
        read_chunks f chunk nMid' nSize (v ++ more) s
    end
  else Some (v, s).
Definition Unserialize_chunked (chunk : Z) : Reader (list A) := fun s =>
  '(nSize, s) <- ReadCompactSize s;;
  let nSize := u32 nSize in
  read_chunks (Z.to_nat nSize) chunk 0 nSize [] s.

(** The list form, one element after the other. *)
Definition Unserialize_list : Reader (list A) := fun s =>
  '(nSize, s) <- ReadCompactSize s;;
  read_elements (Z.to_nat (u32 nSize)) s.

(** [Optional<T>] *)
Definition Serialize_optional (item : option A) : list Z :=
  match item with
  | Some x => ser_writedata8 0x01 ++ ser x
  | None => ser_writedata8 0x00
  end.
Definition Unserialize_optional : Reader (option A) := fun s =>
  '(discriminant, s) <- ser_readdata8 s;;
  if discriminant =? 0x00 then Some (None, s)
  else '(x, s) <- unser s;; Some (Some x, s).
End Elements.

(** * Lemmas: byte order and streams *)

Lemma length_le_bytes n x : length (le_bytes n x) = n.
Proof. revert x; induction n; cbn; congruence. Qed.
#[export] Hint Rewrite length_le_bytes : passion_rw.

Lemma le_bytes_ok n x : bytes_ok (le_bytes n x).
Proof.
  revert x; induction n; cbn; intros x; constructor; [|apply IHn].
  apply Z.mod_pos_bound; lia.
Qed.
#[export] Hint Resolve le_bytes_ok : passion.

Lemma le_value_bytes n x : le_value (le_bytes n x) = x mod 256 ^ Z.of_nat n.
Proof.
  revert x; induction n; intros x; cbn [le_bytes le_value].
  - now rewrite Z.mod_1_r.
  - rewrite IHn, Nat2Z.inj_succ, Z.pow_succ_r by lia.
    rewrite Z.rem_mul_r by (try apply Z.pow_nonzero; lia). reflexivity.
Qed.

Lemma le_value_range l : bytes_ok l -> 0 <= le_value l < 256 ^ Z.of_nat (length l).
Proof.
  induction 1 as [|b l Hb _ IH]; cbn [le_value length]; [cbn; lia|].
  rewrite Nat2Z.inj_succ, Z.pow_succ_r by lia. unfold byte_ok in Hb. nia.
Qed.

Lemma le_bytes_value l : bytes_ok l -> le_bytes (length l) (le_value l) = l.
Proof.
  induction 1 as [|b l Hb _ IH]; cbn [le_value length le_bytes]; [reflexivity|].
  unfold byte_ok in Hb.
  replace (b + 256 * le_value l) with (b + le_value l * 256) by ring.
  rewrite Z.mod_add, Z.mod_small, Z.div_add, Z.div_small, Z.add_0_l by lia.
  now rewrite IH.
Qed.

Lemma stream_read_app l r : stream_read (length l) (l ++ r) = Some (l, r).
Proof.
  unfold stream_read. rewrite length_app.
  destruct (Nat.leb_spec (length l) (length l + length r)); [|lia].
  now rewrite firstn_app, skipn_app, Nat.sub_diag, firstn_all, skipn_all, app_nil_r.
Qed.

Lemma stream_read_length n l r : length l = n -> stream_read n (l ++ r) = Some (l, r).
Proof. intros <-. apply stream_read_app. Qed.

Lemma stream_read_Some n s l r :
  stream_read n s = Some (l, r) <-> s = l ++ r /\ length l = n.
Proof.
  unfold stream_read. split.
  - destruct (Nat.leb_spec n (length s)); [|discriminate]. intros [= <- <-].
    now rewrite firstn_skipn, length_firstn, Nat.min_l.
  - intros [-> H]. rewrite <- H. apply stream_read_app.
Qed.

Lemma bytes_ok_app l r : bytes_ok (l ++ r) <-> bytes_ok l /\ bytes_ok r.
Proof. apply Forall_app. Qed.

(** Reading [n] bytes as a little-endian word, then writing the word, is the
    identity on the stream, and conversely. *)
Definition read_le (n : nat) : Reader Z := fun s =>
  '(b, r) <- stream_read n s;; Some (le_value b, r).

Lemma read_le_bytes n x r : 0 <= x < 256 ^ Z.of_nat n -> read_le n (le_bytes n x ++ r) = Some (x, r).
Proof.
  intros Hx. unfold read_le.
  rewrite (stream_read_length n) by apply length_le_bytes. cbn [obind].
  now rewrite le_value_bytes, Z.mod_small.
Qed.

Lemma read_le_Some n s x r :
  bytes_ok s -> read_le n s = Some (x, r) ->
  s = le_bytes n x ++ r /\ 0 <= x < 256 ^ Z.of_nat n.
Proof.
  intros Hs (p & Hp & Hx)%obind_Some. destruct p as [b r']. injection Hx as <- <-.
  apply stream_read_Some in Hp as [-> <-]. apply bytes_ok_app in Hs as [Hb _].
  split; [now rewrite le_bytes_value | now apply le_value_range].
Qed.

Lemma read_le_word n s (f : list Z -> Z) :
  (forall b, length b = n -> f b = le_value b) ->
  ('(b, r) <- stream_read n s;; Some (f b, r)) = read_le n s.
Proof.
  intros Hf. unfold read_le. destruct (stream_read n s) as [[b r]|] eqn:E; cbn; [|reflexivity].
  apply stream_read_Some in E as [_ E]. now rewrite Hf.
Qed.

Lemma ser_readdata8_le s : ser_readdata8 s = read_le 1 s.
Proof. now apply read_le_word. Qed.
Lemma ser_readdata16_le s : ser_readdata16 s = read_le 2 s.
Proof. apply read_le_word. intros b Hb. unfold ReadLE16. now rewrite firstn_all2 by lia. Qed.
Lemma ser_readdata32_le s : ser_readdata32 s = read_le 4 s.
Proof. apply read_le_word. intros b Hb. unfold ReadLE32. now rewrite firstn_all2 by lia. Qed.
Lemma ser_readdata64_le s : ser_readdata64 s = read_le 8 s.
Proof. apply read_le_word. intros b Hb. unfold ReadLE64. now rewrite firstn_all2 by lia. Qed.
#[export] Hint Rewrite ser_readdata8_le ser_readdata16_le ser_readdata32_le ser_readdata64_le : passion_rw.

Lemma ser_writedata8_le x : 0 <= x < 2 ^ 8 -> ser_writedata8 x = le_bytes 1 x.
Proof. intros. unfold ser_writedata8. cbn [le_bytes]. reflexivity. Qed.
Lemma ser_writedata16_le x : 0 <= x < 2 ^ 16 -> ser_writedata16 x = le_bytes 2 x.
Proof. intros. unfold ser_writedata16, u16. now rewrite Z.mod_small. Qed.
Lemma ser_writedata32_le x : 0 <= x < 2 ^ 32 -> ser_writedata32 x = le_bytes 4 x.
Proof. intros. unfold ser_writedata32. now rewrite u32_small. Qed.
Lemma ser_writedata64_le x : 0 <= x < 2 ^ 64 -> ser_writedata64 x = le_bytes 8 x.
Proof. intros. unfold ser_writedata64. now rewrite u64_small. Qed.

(** * Compact sizes *)

Lemma ser_readdata8_cons x r : ser_readdata8 (x :: r) = Some (x, r).
Proof. unfold ser_readdata8, stream_read; cbn. now rewrite Z.add_0_r. Qed.

Lemma ser_readdata8_Some s x r : ser_readdata8 s = Some (x, r) <-> s = x :: r.
Proof.
  split; [|intros ->; apply ser_readdata8_cons].
  destruct s as [|y s]; [discriminate|]. rewrite ser_readdata8_cons. congruence.
Qed.

Lemma WriteCompactSize_cases n : 0 <= n < 2 ^ 64 ->
  WriteCompactSize n =
    if n <? 253 then [n]
    else if n <=? 0xffff then 253 :: le_bytes 2 n
    else if n <=? 0xffffffff then 254 :: le_bytes 4 n
    else 255 :: le_bytes 8 n.
Proof.
  intros Hn. unfold WriteCompactSize.
  repeat (case_match_goal; breflect);
    rewrite ?ser_writedata16_le, ?ser_writedata32_le, ?ser_writedata64_le by lia;
    try reflexivity.
  unfold ser_writedata8. now rewrite u8_small by lia.
Qed.

(** The tail of [ReadCompactSize]: a word of [w] bytes refused below [lo]. *)
Lemma read_size_word w lo n r (Hn : 0 <= n < 256 ^ Z.of_nat w) :
  lo <= n -> ('(n, s) <- read_le w (le_bytes w n ++ r);; if n <? lo then None else Some (n, s)) = Some (n, r).
Proof.
  intros Hlo. rewrite read_le_bytes by assumption. cbn [obind].
  now destruct (Z.ltb_spec n lo); [lia|].
Qed.

Lemma ReadCompactSize_write n r :
  0 <= n <= MAX_SIZE -> ReadCompactSize (WriteCompactSize n ++ r) = Some (n, r).
Proof.
  intros Hn. pose proof (eq_refl : MAX_SIZE = 33554432) as HM.
  rewrite WriteCompactSize_cases by lia. unfold ReadCompactSize.
  destruct (n <? 253) eqn:?; [|destruct (n <=? 0xffff) eqn:?;
    [|destruct (n <=? 0xffffffff) eqn:?]]; breflect; [| | |lia];
    cbn [app]; rewrite ser_readdata8_cons; cbn [obind].
  - destruct (Z.ltb_spec n 253); [|lia]. cbn [obind].
    destruct (Z.gtb_spec n MAX_SIZE); [lia|reflexivity].
  - cbn [Z.ltb Z.eqb Z.compare Pos.compare Pos.compare_cont Pos.eqb].
    rewrite ser_readdata16_le, read_size_word by lia. cbn [obind].
    destruct (Z.gtb_spec n MAX_SIZE); [lia|reflexivity].
  - cbn [Z.ltb Z.eqb Z.compare Pos.compare Pos.compare_cont Pos.eqb].
    rewrite ser_readdata32_le, read_size_word by lia. cbn [obind].
    destruct (Z.gtb_spec n MAX_SIZE); [lia|reflexivity].
Qed.

(** A compact size has one encoding: whatever is accepted was written. *)
Lemma ReadCompactSize_Some s n r :
  bytes_ok s -> ReadCompactSize s = Some (n, r) ->
  s = WriteCompactSize n ++ r /\ 0 <= n <= MAX_SIZE.
Proof.
  intros Hs H. pose proof (eq_refl : MAX_SIZE = 33554432) as HM.
  apply obind_Some in H as ([c s1] & Hc & H). apply ser_readdata8_Some in Hc as ->.
  apply Forall_cons_iff in Hs as [Hc Hs]. unfold byte_ok in Hc.
  apply obind_Some in H as ([m s2] & Hm & H).
  destruct (Z.gtb_spec m MAX_SIZE) as [|HmM]; [discriminate|]. injection H as -> ->.
  assert (Hw : forall w lo,
     ('(n, s) <- read_le w s1;; if n <? lo then None else Some (n, s)) = Some (n, r) ->
     s1 = le_bytes w n ++ r /\ 0 <= n /\ lo <= n < 256 ^ Z.of_nat w).
  { intros w lo ([k s3] & Hk & Hn)%obind_Some.
    destruct (Z.ltb_spec k lo); [discriminate|]. injection Hn as -> ->.
    apply read_le_Some in Hk as [-> ?]; [|assumption]. repeat split; lia. }
  destruct (Z.ltb_spec c 253).
  { injection Hm as -> ->. split; [|lia]. rewrite WriteCompactSize_cases by lia.
    destruct (Z.ltb_spec n 253); [reflexivity|lia]. }
  destruct (Z.eqb_spec c 253) as [->|]; [|destruct (Z.eqb_spec c 254) as [->|]];
    rewrite ?ser_readdata16_le, ?ser_readdata32_le, ?ser_readdata64_le in Hm;
    apply Hw in Hm as (-> & ? & Hn); (split; [|lia]);
    rewrite WriteCompactSize_cases by lia.
  all: repeat (case_match_goal; breflect; try lia); reflexivity.
Qed.

(** * Variable-length integers *)

(** The bytes before the last one carry the continuation bit; they encode [m]
    as [m + 1] for the rest of the number. *)
Fixpoint varint_prefix (fuel : nat) (m : Z) : list Z :=
  match fuel with
  | O => []
  | S f =>
      if m <=? 0x7F then [Z.lor (Z.land m 0x7F) 0x80]
      else varint_prefix f (Z.shiftr m 7 - 1) ++ [Z.lor (Z.land m 0x7F) 0x80]
  end.
Definition varint_bytes (fuel : nat) (n : Z) : list Z :=
  if n <=? 0x7F then [n]
  else varint_prefix fuel (Z.shiftr n 7 - 1) ++ [Z.land n 0x7F].

Lemma shiftr7 n : Z.shiftr n 7 = n / 128.
Proof. now rewrite Z.shiftr_div_pow2. Qed.
Lemma land7f n : Z.land n 0x7F = n mod 128.
Proof. apply (land_mask 7); lia. Qed.
Lemma lor80 n : Z.lor (n mod 128) 0x80 = n mod 128 + 128.
Proof.
  rewrite Z.lor_comm, (lor_add_disjoint 128 (n mod 128) 7); [lia|lia| |reflexivity].
  apply Z.mod_pos_bound; lia.
Qed.
Create Rewrite HintDb varint.
#[local] Hint Rewrite shiftr7 land7f lor80 : varint.

(** How many continuation bytes [m] needs is bounded by its width. *)
Definition varint_fits (fuel : nat) (m : Z) : Prop := 0 <= m < 128 ^ Z.of_nat fuel.

Lemma varint_fits_step fuel m :
  varint_fits (S fuel) m -> 0x7F < m -> varint_fits fuel (m / 128 - 1).
Proof.
  unfold varint_fits. rewrite Nat2Z.inj_succ, Z.pow_succ_r by lia. intros H Hm.
  pose proof (Z.div_mod m 128). pose proof (Z.mod_pos_bound m 128). nia.
Qed.

Lemma varint_fits_S fuel m : varint_fits fuel m -> varint_fits (S fuel) m.
Proof.
  unfold varint_fits. rewrite Nat2Z.inj_succ, Z.pow_succ_r by lia.
  pose proof (Z.pow_pos_nonneg 128 (Z.of_nat fuel)). lia.
Qed.

Lemma write_varint_loop_prefix fuel : forall m len tmp,
  varint_fits fuel m -> 0 < len -> (0 < fuel)%nat ->
  write_varint_loop fuel m len tmp = Some (varint_prefix fuel m ++ tmp).
Proof.
  induction fuel as [|f IH]; intros m len tmp Hm Hl Hf; [lia|].
  cbn [write_varint_loop varint_prefix].
  destruct (Z.eqb_spec len 0); [lia|]. autorewrite with varint.
  destruct (Z.leb_spec m 0x7F); [reflexivity|].
  destruct f as [|f].
  { unfold varint_fits in Hm. cbn in Hm. lia. }
  rewrite IH by (try apply varint_fits_step; auto; lia).
  now rewrite <- app_assoc.
Qed.

Lemma WriteVarInt_bytes bits n fuel :
  Z.to_nat ((bits + 6) / 7) = S (S fuel) -> 0 <= n < 128 ^ Z.of_nat (S (S fuel)) ->
  WriteVarInt bits n = Some (varint_bytes (S fuel) n).
Proof.
  intros Hb Hn. unfold WriteVarInt, varint_bytes. rewrite Hb.
  remember (S fuel) as room. cbn [write_varint_loop]. cbn [Z.eqb]. autorewrite with varint. rewrite Z.lor_0_r.
  destruct (Z.leb_spec n 0x7F) as [H|H].
  - now rewrite Z.mod_small by lia.
  - rewrite write_varint_loop_prefix; [reflexivity| |lia|lia].
    now apply varint_fits_step.
Qed.

Lemma testbit80 c : byte_ok c -> (Z.land c 0x80 =? 0) = (c <? 128).
Proof.
  unfold byte_ok. intros Hc.
  assert (H : Forall (fun c => (Z.land c 0x80 =? 0) = (c <? 128)) (map Z.of_nat (seq 0 256)))
    by (repeat constructor).
  rewrite Forall_forall in H. apply H, in_map_iff.
  exists (Z.to_nat c). split; [lia|]. apply in_seq. lia.
Qed.

Section ReadVarInt.
Context (max : Z) (Hmax : 0 < max).

(** One step of the read loop, arithmetically. *)
Lemma read_varint_step n c s : 0 <= n -> byte_ok c ->
  read_varint_loop max n (c :: s) =
    if n >? max / 128 then None
    else if c <? 128 then Some (128 * n + c, s)
    else if 128 * n + (c - 128) =? max then None
    else read_varint_loop max (128 * n + (c - 128) + 1) s.
Proof.
  intros Hn Hc. cbn [read_varint_loop]. autorewrite with varint.
  rewrite testbit80 by assumption. unfold byte_ok in Hc.
  assert (E : Z.lor (Z.shiftl n 7) (c mod 128) = 128 * n + c mod 128).
  { rewrite Z.shiftl_mul_pow2 by lia. change (2 ^ 7) with 128.
    rewrite (lor_add_disjoint _ _ 7); [lia|lia| |].
    - apply Z.mod_pos_bound; lia.
    - change (2 ^ 7) with 128. now rewrite Z.mod_mul by lia. }
  rewrite E. destruct (n >? max / 128); [reflexivity|].
  destruct (Z.ltb_spec c 128); cbn [negb].
  - now rewrite Z.mod_small by lia.
  - assert (c mod 128 = c - 128) as -> by
      (symmetry; apply Z.mod_unique with 1; lia).
    reflexivity.
Qed.

Lemma read_varint_prefix fuel : forall m r,
  varint_fits fuel m -> (0 < fuel)%nat -> 0 <= m < max ->
  read_varint_loop max 0 (varint_prefix fuel m ++ r) = read_varint_loop max (m + 1) r.
Proof.
  induction fuel as [|f IH]; intros m r Hf Hpos Hm; [lia|].
  cbn [varint_prefix]. autorewrite with varint.
  pose proof (Z.mod_pos_bound m 128) as Hmod. pose proof (Z.div_mod m 128) as Hdm.
  destruct (Z.leb_spec m 0x7F) as [H|H].
  - cbn [app]. rewrite read_varint_step by (unfold byte_ok; lia).
    rewrite Z.mod_small in * by lia.
    destruct (Z.gtb_spec 0 (max / 128)); [pose proof (Z.div_pos max 128); lia|].
    destruct (Z.ltb_spec (m + 128) 128); [lia|].
    destruct (Z.eqb_spec (128 * 0 + (m + 128 - 128)) max); [lia|]. f_equal. lia.
  - destruct f as [|f]; [unfold varint_fits in Hf; cbn in Hf; lia|].
    rewrite <- app_assoc, IH; [|now apply varint_fits_step|lia|nia].
    cbn [app]. rewrite read_varint_step by (unfold byte_ok; lia).
    destruct (Z.gtb_spec (m / 128 - 1 + 1) (max / 128)) as [Hg|].
    { pose proof (Z.div_le_mono m max 128). lia. }
    destruct (Z.ltb_spec (m mod 128 + 128) 128); [lia|].
    destruct (Z.eqb_spec (128 * (m / 128 - 1 + 1) + (m mod 128 + 128 - 128)) max); [lia|].
    f_equal. lia.
Qed.

Lemma read_varint_bytes fuel n r :
  0 <= n <= max -> varint_fits (S fuel) n -> (0 < fuel)%nat ->
  ReadVarInt max (varint_bytes fuel n ++ r) = Some (n, r).
Proof.
  intros Hn Hf Hpos. unfold ReadVarInt, varint_bytes. autorewrite with varint.
  pose proof (Z.mod_pos_bound n 128) as Hmod. pose proof (Z.div_mod n 128) as Hdm.
  destruct (Z.leb_spec n 0x7F).
  - cbn [app]. rewrite read_varint_step by (unfold byte_ok; lia).
    destruct (Z.gtb_spec 0 (max / 128)); [pose proof (Z.div_pos max 128); lia|].
    destruct (Z.ltb_spec n 128); [|lia]. do 2 f_equal. 
  - rewrite <- app_assoc, read_varint_prefix; [|now apply varint_fits_step|lia|nia].
    cbn [app]. rewrite read_varint_step by (unfold byte_ok; lia).
    destruct (Z.gtb_spec (n / 128 - 1 + 1) (max / 128)).
    { pose proof (Z.div_le_mono n max 128). lia. }
    destruct (Z.ltb_spec (n mod 128) 128); [|lia]. do 2 f_equal. lia.
Qed.
End ReadVarInt.

Lemma varint_prefix_more fuel : forall m,
  varint_fits fuel m -> (0 < fuel)%nat -> varint_prefix (S fuel) m = varint_prefix fuel m.
Proof.
  induction fuel as [|f IH]; intros m Hm Hf; [lia|].
  remember (S f) as f'. cbn [varint_prefix]. subst f'. autorewrite with varint.
  destruct (Z.leb_spec m 0x7F) as [H|H].
  - cbn [varint_prefix]. autorewrite with varint. now destruct (Z.leb_spec m 0x7F); [|lia].
  - destruct f as [|f]; [unfold varint_fits in Hm; cbn in Hm; lia|].
    rewrite IH by (try apply varint_fits_step; auto; lia).
    remember (S f) as f'. cbn [varint_prefix]. autorewrite with varint.
    now destruct (Z.leb_spec m 0x7F); [lia|].
Qed.

Section VarIntCanonical.
Context (max : Z) (Hmax : 0 < max) (F : nat) (HF : (0 < F)%nat) (Hfit : varint_fits F max).

(** What the read loop has consumed when it holds [n]. *)
Definition varint_consumed (n : Z) : list Z :=
  if n =? 0 then [] else varint_prefix F (n - 1).

Lemma varint_consumed_step n d :
  0 <= n -> 0 <= d < 128 -> 128 * n + d <= max ->
  varint_consumed (128 * n + d + 1) = varint_consumed n ++ [d + 128].
Proof.
  intros Hn Hd Hle. unfold varint_consumed.
  destruct (Z.eqb_spec (128 * n + d + 1) 0); [lia|].
  replace (128 * n + d + 1 - 1) with (128 * n + d) by lia.
  assert (Hm : varint_fits F (128 * n + d)) by (unfold varint_fits in *; lia).
  assert (Ed : (128 * n + d) / 128 = n) by (symmetry; apply Z.div_unique with d; lia).
  assert (Em : (128 * n + d) mod 128 = d) by (symmetry; apply Z.mod_unique with n; lia).
  rewrite <- varint_prefix_more by assumption.
  remember F as f. cbn [varint_prefix]. autorewrite with varint. rewrite Em, Ed.
  destruct (Z.leb_spec (128 * n + d) 0x7F); destruct (Z.eqb_spec n 0); try lia; reflexivity.
Qed.

Lemma varint_bytes_consumed n c :
  0 <= n -> 0 <= c < 128 -> varint_bytes F (128 * n + c) = varint_consumed n ++ [c].
Proof.
  intros Hn Hc. unfold varint_bytes, varint_consumed.
  assert (Ed : (128 * n + c) / 128 = n) by (symmetry; apply Z.div_unique with c; lia).
  assert (Em : (128 * n + c) mod 128 = c) by (symmetry; apply Z.mod_unique with n; lia).
  autorewrite with varint. rewrite Ed, Em.
  destruct (Z.leb_spec (128 * n + c) 0x7F); destruct (Z.eqb_spec n 0); try lia; [|reflexivity].
  subst. reflexivity.
Qed.

Lemma read_varint_Some s : forall n x r,
  bytes_ok s -> 0 <= n -> read_varint_loop max n s = Some (x, r) ->
  varint_consumed n ++ s = varint_bytes F x ++ r /\ 0 <= x < 128 * (max / 128) + 128.
Proof.
  induction s as [|c s IH]; intros n x r Hs Hn H; [discriminate|].
  apply Forall_cons_iff in Hs as [Hc Hs].
  rewrite read_varint_step in H by assumption. unfold byte_ok in Hc.
  destruct (Z.gtb_spec n (max / 128)) as [|Hg]; [discriminate|].
  pose proof (Z.mul_div_le max 128).
  destruct (Z.ltb_spec c 128).
  - assert (x = 128 * n + c) as -> by congruence. assert (r = s) as -> by congruence.
    rewrite varint_bytes_consumed by lia.
    rewrite <- app_assoc. split; [reflexivity|lia].
  - destruct (Z.eqb_spec (128 * n + (c - 128)) max); [discriminate|].
    destruct (Z.leb_spec (128 * n + (c - 128)) max) as [Hle|Hle].
    + apply IH in H as [H Hx]; [|assumption|lia].
      split; [|assumption]. rewrite <- H, varint_consumed_step by lia.
      rewrite <- app_assoc. cbn [app]. do 3 f_equal. lia.
    + exfalso. destruct s as [|c' s]; [discriminate|].
      apply Forall_cons_iff in Hs as [Hc' _].
      rewrite read_varint_step in H by (auto; lia).
      destruct (Z.gtb_spec (128 * n + (c - 128) + 1) (max / 128)); [discriminate|].
      pose proof (Z.div_le_upper_bound max 128 max). lia.
Qed.
End VarIntCanonical.

(** The number of bytes of a variable-length integer. *)
Lemma size_of_varint_loop_ok fuel : forall n k,
  varint_fits fuel n -> (0 < fuel)%nat ->
  size_of_varint_loop fuel n k = Some (k + Z.of_nat (length (varint_prefix fuel n))).
Proof.
  induction fuel as [|f IH]; intros n k Hn Hf; [lia|].
  cbn [size_of_varint_loop varint_prefix]. autorewrite with varint.
  destruct (Z.leb_spec n 0x7F) as [H|H]; [reflexivity|].
  destruct f as [|f]; [unfold varint_fits in Hn; cbn in Hn; lia|].
  rewrite IH by (try apply varint_fits_step; auto; lia).
  rewrite length_app. cbn [length]. f_equal. lia.
Qed.

Lemma length_varint_prefix_bytes fuel n :
  length (varint_prefix (S fuel) n) = length (varint_bytes fuel n).
Proof.
  unfold varint_bytes. cbn [varint_prefix].
  destruct (n <=? 0x7F); [reflexivity|]. now rewrite !length_app.
Qed.

Lemma varint_prefix_enough k fuel : forall n,
  varint_fits fuel n -> (0 < fuel)%nat -> varint_prefix (k + fuel) n = varint_prefix fuel n.
Proof.
  induction k as [|k IH]; intros n Hn Hf; [reflexivity|].
  cbn [Nat.add]. rewrite varint_prefix_more; [now apply IH| |lia].
  unfold varint_fits in *. split; [lia|].
  apply Z.lt_le_trans with (1 := proj2 Hn). apply Z.pow_le_mono_r; lia.
Qed.

Lemma varint_bytes_enough k fuel n :
  varint_fits (S fuel) n -> (0 < fuel)%nat -> varint_bytes (k + fuel) n = varint_bytes fuel n.
Proof.
  intros Hn Hf. unfold varint_bytes. autorewrite with varint.
  destruct (Z.leb_spec n 0x7F); [reflexivity|].
  rewrite varint_prefix_enough by (try apply varint_fits_step; auto). reflexivity.
Qed.

(** Every value of a 32- or 64-bit unsigned type (and every nonnegative value of
    a signed one) is written without overrunning the local array
    [tmp[(sizeof(n)*8+6)/7]]; reading consumes exactly those bytes and returns
    the value, [GetSizeOfVarInt] is their number, and no other byte sequence
    decodes to the value. *)
Theorem VarInt_roundtrip bits max n :
  bits = 32 \/ bits = 64 -> 0 < max < 2 ^ bits -> 0 <= n <= max ->
  exists l, WriteVarInt bits n = Some l /\
    GetSizeOfVarInt bits n = Some (Z.of_nat (length l)) /\
    (forall rest, ReadVarInt max (l ++ rest) = Some (n, rest)) /\
    (forall s rest, bytes_ok s -> ReadVarInt max s = Some (n, rest) -> s = l ++ rest).
Proof.
  intros Hbits Hmax Hn.
  assert (HF : exists F, Z.to_nat ((bits + 6) / 7) = S (S F) /\ (0 < F)%nat /\
      varint_fits (S (S F)) max /\ exists k, Z.to_nat bits = S (k + S F))
    by (destruct Hbits as [-> | ->]; [exists 3%nat | exists 8%nat];
        (split; [reflexivity|split; [lia|split; [unfold varint_fits; lia|]]]);
        [exists 27%nat | exists 54%nat]; reflexivity).
  destruct HF as (F & HF & Fpos & Hfit & k & Hk).
  assert (Hnf : varint_fits (S (S F)) n) by (unfold varint_fits in *; lia).
  exists (varint_bytes (S F) n). repeat split.
  - apply WriteVarInt_bytes; [assumption|apply Hnf].
  - unfold GetSizeOfVarInt. rewrite Hk, size_of_varint_loop_ok; [| |lia].
    + now rewrite length_varint_prefix_bytes, varint_bytes_enough by (auto; lia).
    + unfold varint_fits in *. split; [lia|].
      apply Z.lt_le_trans with (1 := proj2 Hnf). apply Z.pow_le_mono_r; lia.
  - intros rest. apply read_varint_bytes; auto; lia.
  - intros s rest Hs H.
    apply (read_varint_Some max ltac:(lia) (S (S F))) in H as [H _]; auto; try lia.
    rewrite <- (varint_bytes_enough 1 (S F)) by (auto; lia). exact H.
Qed.

Lemma VarInt_roundtrip_witness :
  exists l, WriteVarInt 32 65535 = Some l /\
    GetSizeOfVarInt 32 65535 = Some (Z.of_nat (length l)) /\
    (forall rest, ReadVarInt (2 ^ 32 - 1) (l ++ rest) = Some (65535, rest)) /\
    (forall s rest, bytes_ok s -> ReadVarInt (2 ^ 32 - 1) s = Some (65535, rest) -> s = l ++ rest).
Proof. apply VarInt_roundtrip; [now left | lia | lia]. Defined.

Lemma WriteCompactSize_length n : 0 <= n < 2 ^ 64 ->
  Z.of_nat (length (WriteCompactSize n)) = GetSizeOfCompactSize n.
Proof.
  intros Hn. rewrite WriteCompactSize_cases by assumption. unfold GetSizeOfCompactSize.
  repeat case_match_goal; cbn [length]; rewrite ?length_le_bytes; reflexivity.
Qed.

(** A compact size up to [MAX_SIZE] is read back as written, takes
    [GetSizeOfCompactSize] bytes, and every accepted encoding is the written
    one: the longer, non-canonical encodings are refused, and so is any size
    above [MAX_SIZE]. *)
Theorem CompactSize_roundtrip n :
  (0 <= n < 2 ^ 64 -> Z.of_nat (length (WriteCompactSize n)) = GetSizeOfCompactSize n) /\
  (0 <= n <= MAX_SIZE ->
     forall rest, ReadCompactSize (WriteCompactSize n ++ rest) = Some (n, rest)) /\
  (forall s rest, bytes_ok s -> ReadCompactSize s = Some (n, rest) ->
     s = WriteCompactSize n ++ rest /\ 0 <= n <= MAX_SIZE).
Proof.
  repeat split.
  - apply WriteCompactSize_length.
  - intros Hn rest. now apply ReadCompactSize_write.
  - now apply (ReadCompactSize_Some s n rest).
  - now apply (ReadCompactSize_Some s n rest).
  - now apply (ReadCompactSize_Some s n rest).
Qed.
Lemma CompactSize_roundtrip_witness :
  ReadCompactSize (WriteCompactSize 70000 ++ [7]) = Some (70000, [7]) /\
  Z.of_nat (length (WriteCompactSize 70000)) = 5.
Proof.
  split.
  - apply (CompactSize_roundtrip 70000). unfold MAX_SIZE. lia.
  - rewrite (proj1 (CompactSize_roundtrip 70000)); [reflexivity | lia].
Defined.

(** * Vectors *)

Lemma stream_read_split a b s : stream_read (a + b) s =
  ('(l1, s) <- stream_read a s;; '(l2, s) <- stream_read b s;; Some (l1 ++ l2, s)).
Proof.
  unfold stream_read.
  destruct (Nat.leb_spec (a + b) (length s)); destruct (Nat.leb_spec a (length s)); try lia;
    cbn [obind]; try reflexivity;
    (destruct (Nat.leb_spec b (length (skipn a s))) as [Hb|Hb];
       rewrite length_skipn in Hb; try lia; cbn [obind]); try reflexivity.
  rewrite skipn_skipn, (Nat.add_comm b a). do 2 f_equal.
  rewrite <- (firstn_skipn a s) at 1.
  rewrite firstn_app, firstn_firstn, length_firstn, (Nat.min_l a (length s)), Nat.min_r by lia.
  now replace (a + b - a)%nat with b by lia.
Qed.

(** The block loop reads what one read of the whole size would. *)
Lemma read_blocks_eq fuel : forall i nSize v s,
  0 <= i <= nSize -> nSize - i <= 5000000 * Z.of_nat fuel ->
  read_blocks fuel i nSize v s =
    ('(l, s) <- stream_read (Z.to_nat (nSize - i)) s;; Some (v ++ l, s)).
Proof.
  induction fuel as [|f IH]; intros i nSize v s Hi Hf; cbn [read_blocks];
    destruct (Z.ltb_spec i nSize); try lia.
  - replace (nSize - i) with 0 by lia. cbn. now rewrite app_nil_r.
  - set (blk := Z.min (nSize - i) (1 + 4999999 / 1)).
    assert (Hb : blk = Z.min (nSize - i) 5000000) by reflexivity.
    replace (Z.to_nat (nSize - i)) with (Z.to_nat blk + Z.to_nat (nSize - (i + blk)))%nat by lia.
    rewrite stream_read_split.
    destruct (stream_read (Z.to_nat blk) s) as [[l1 s1]|]; cbn [obind]; [|reflexivity].
    rewrite IH by lia.
    destruct (stream_read _ s1) as [[l2 s2]|]; cbn [obind]; [|reflexivity].
    now rewrite app_assoc.
  - replace (nSize - i) with 0 by lia. cbn. now rewrite app_nil_r.
Qed.

Lemma Unserialize_bytes_eq s :
  bytes_ok s ->
  Unserialize_bytes s =
    ('(nSize, s) <- ReadCompactSize s;; stream_read (Z.to_nat nSize) s).
Proof.
  intros Hs. unfold Unserialize_bytes.
  destruct (ReadCompactSize s) as [[n r]|] eqn:E; cbn [obind]; [|reflexivity].
  apply ReadCompactSize_Some in E as [_ Hn]; [|assumption].
  pose proof (eq_refl : MAX_SIZE = 33554432). rewrite u32_small by lia.
  rewrite read_blocks_eq.
  - rewrite Z.sub_0_r. now destruct (stream_read _ r) as [[l r']|].
  - lia.
  - pose proof (Z.div_mod n 5000000). pose proof (Z.mod_pos_bound n 5000000).
    pose proof (Z.div_pos n 5000000). lia.
Qed.

Lemma Unserialize_bytes_ser v r :
  Z.of_nat (length v) <= MAX_SIZE ->
  Unserialize_bytes (Serialize_bytes v ++ r) = Some (v, r).
Proof.
  intros Hv. unfold Unserialize_bytes, Serialize_bytes. rewrite <- app_assoc.
  rewrite ReadCompactSize_write by lia. cbn [obind].
  pose proof (eq_refl : MAX_SIZE = 33554432). rewrite u32_small by lia.
  rewrite read_blocks_eq; [|lia|].
  - rewrite Z.sub_0_r, Nat2Z.id, stream_read_app. reflexivity.
  - set (n := Z.of_nat (length v)) in *.
    pose proof (Z.div_mod n 5000000). pose proof (Z.mod_pos_bound n 5000000).
    pose proof (Z.div_pos n 5000000). lia.
Qed.

Section ElementLemmas.
Context {A : Type} (ser : A -> list Z) (unser : Reader A).

Lemma read_elements_split a : forall b s, read_elements unser (a + b) s =
  ('(l1, s) <- read_elements unser a s;;
   '(l2, s) <- read_elements unser b s;; Some (l1 ++ l2, s)).
Proof.
  induction a as [|a IH]; intros b s; cbn [Nat.add read_elements obind app].
  - now destruct (read_elements unser b s) as [[l s']|].
  - destruct (unser s) as [[x s1]|]; cbn [obind]; [|reflexivity].
    rewrite IH. destruct (read_elements unser a s1) as [[l1 s2]|]; cbn [obind]; [|reflexivity].
    now destruct (read_elements unser b s2) as [[l2 s3]|].
Qed.

Lemma read_elements_length n : forall s v r,
  read_elements unser n s = Some (v, r) -> length v = n.
Proof.
  induction n as [|n IH]; intros s v r; cbn [read_elements].
  - now intros [= <- <-].
  - intros ([x s1] & _ & H)%obind_Some. apply obind_Some in H as ([v' s2] & Hv & [= <- <-]).
    cbn. f_equal. now apply IH in Hv.
Qed.

(** Growing the vector in chunks reads the same elements. *)
Lemma read_chunks_eq fuel chunk : forall nMid nSize v s,
  0 < chunk -> 0 <= nMid <= nSize -> nSize - nMid <= Z.of_nat fuel ->
  length v = Z.to_nat nMid ->
  read_chunks unser fuel chunk nMid nSize v s =
    ('(l, s) <- read_elements unser (Z.to_nat (nSize - nMid)) s;; Some (v ++ l, s)).
Proof.
  induction fuel as [|f IH]; intros nMid nSize v s Hc Hm Hf Hv; cbn [read_chunks];
    destruct (Z.ltb_spec nMid nSize); try lia.
  - replace (nSize - nMid) with 0 by lia. cbn. now rewrite app_nil_r.
  - set (nMid' := if nMid + chunk >? nSize then nSize else nMid + chunk).
    assert (Hm' : nMid < nMid' <= nSize) by
      (unfold nMid'; destruct (Z.gtb_spec (nMid + chunk) nSize); lia).
    replace (Z.to_nat (nSize - nMid))
      with ((Z.to_nat nMid' - length v) + Z.to_nat (nSize - nMid'))%nat by lia.
    rewrite read_elements_split.
    destruct (read_elements unser (Z.to_nat nMid' - length v) s) as [[l1 s1]|] eqn:E;
      cbn [obind]; [|reflexivity].
    apply read_elements_length in E.
    rewrite IH by (rewrite ?length_app; lia).
    destruct (read_elements _ _ s1) as [[l2 s2]|]; cbn [obind]; [|reflexivity].
    now rewrite app_assoc.
  - replace (nSize - nMid) with 0 by lia. cbn. now rewrite app_nil_r.
Qed.

Lemma Unserialize_chunked_eq chunk s :
  0 < chunk -> Unserialize_chunked unser chunk s = Unserialize_list unser s.
Proof.
  intros Hc. unfold Unserialize_chunked, Unserialize_list.
  destruct (ReadCompactSize s) as [[n r]|]; cbn [obind]; [|reflexivity].
  pose proof (u32_range n). rewrite read_chunks_eq by (cbn; lia).
  rewrite Z.sub_0_r. now destruct (read_elements _ _ r) as [[l r']|].
Qed.

Context (ok : A -> Prop).
Context (Hrt : forall x r, ok x -> unser (ser x ++ r) = Some (x, r)).

Lemma read_elements_write v r :
  Forall ok v -> read_elements unser (length v) (write_elements ser v ++ r) = Some (v, r).
Proof.
  induction 1 as [|x v Hx _ IH]; cbn [length read_elements write_elements]; [reflexivity|].
  rewrite <- app_assoc, Hrt by assumption. cbn [obind]. now rewrite IH.
Qed.

Lemma Unserialize_list_ser v r :
  Z.of_nat (length v) <= MAX_SIZE -> Forall ok v ->
  Unserialize_list unser (Serialize_vector ser v ++ r) = Some (v, r).
Proof.
  intros Hl Hv. unfold Unserialize_list, Serialize_vector.
  rewrite <- app_assoc, ReadCompactSize_write by lia. cbn [obind].
  pose proof (eq_refl : MAX_SIZE = 33554432).
  rewrite u32_small, Nat2Z.id by lia. now apply read_elements_write.
Qed.

Lemma Unserialize_optional_ser o r :
  (forall x, o = Some x -> ok x) ->
  Unserialize_optional unser (Serialize_optional ser o ++ r) = Some (o, r).
Proof.
  intros Ho. unfold Unserialize_optional. destruct o as [x|]; cbn [Serialize_optional].
  - unfold ser_writedata8. cbn [app]. rewrite ser_readdata8_cons. cbn [obind].
    change (u8 1 =? 0) with false. cbv iota. now rewrite Hrt by auto.
  - unfold ser_writedata8. cbn [app]. rewrite ser_readdata8_cons. reflexivity.
Qed.
End ElementLemmas.

(** * The serialization interface

    What the wire format of a type promises to the types built from it: a
    written value is read back, and nothing behind it is consumed. *)

Class Serializable (A : Type) := {
  Serialize : A -> list Z;
  Unserialize : Reader A;
  ser_ok : A -> Prop;
  Unserialize_Serialize : forall x r, ser_ok x -> Unserialize (Serialize x ++ r) = Some (x, r);
  Unserialize_ok : forall s x r, bytes_ok s -> Unserialize s = Some (x, r) -> ser_ok x /\ bytes_ok r
}.

(** [uint32_t], [uint64_t], [int64_t] and [uint256] (an opaque 32-byte blob). *)
Definition Serialize_u32 : Z -> list Z := ser_writedata32.
Definition Serialize_i64 (x : Z) : list Z := ser_writedata64 x.
Definition Unserialize_i64 : Reader Z := fun s =>
  '(x, s) <- ser_readdata64 s;; Some (i64 x, s).

Lemma Unserialize_u32_ser x r : 0 <= x < 2 ^ 32 -> ser_readdata32 (ser_writedata32 x ++ r) = Some (x, r).
Proof.
  intros. rewrite ser_writedata32_le, ser_readdata32_le by assumption.
  now apply read_le_bytes.
Qed.
Lemma Unserialize_i64_ser x r :
  - 2 ^ 63 <= x < 2 ^ 63 -> Unserialize_i64 (Serialize_i64 x ++ r) = Some (x, r).
Proof.
  intros Hx. unfold Unserialize_i64, Serialize_i64, ser_writedata64, WriteLE64.
  rewrite ser_readdata64_le, read_le_bytes by apply u64_range. cbn [obind].
  unfold i64, signed, u64. rewrite Z.mod_mod by lia.
  do 2 f_equal. destruct (Z.ltb_spec (x mod 2 ^ 64) (2 ^ (64 - 1))); Z.to_euclidean_division_equations; lia.
Qed.
Lemma Unserialize_i32_ser x r : - 2 ^ 31 <= x < 2 ^ 31 ->
  ('(y, s) <- ser_readdata32 (ser_writedata32 x ++ r);; Some (i32 y, s)) = Some (x, r).
Proof.
  intros Hx. unfold ser_writedata32, WriteLE32.
  rewrite ser_readdata32_le, read_le_bytes by apply u32_range. cbn [obind].
  unfold i32, signed, u32. rewrite Z.mod_mod by lia.
  do 2 f_equal. destruct (Z.ltb_spec (x mod 2 ^ 32) (2 ^ (32 - 1))); Z.to_euclidean_division_equations; lia.
Qed.

(** The readers of vectors that bound their allocations — byte vectors read
    in blocks of 5,000,000, other vectors grown [5000000 / sizeof(T)] elements
    at a time — terminate and return exactly what reading the announced number
    of elements at once returns, failures included; and a vector of at most
    [MAX_SIZE] elements is read back as written. *)
Theorem vector_readers_equivalent {A} (ser : A -> list Z) (unser : Reader A) (ok : A -> Prop) :
  (forall x r, ok x -> unser (ser x ++ r) = Some (x, r)) ->
  (forall s, bytes_ok s ->
     Unserialize_bytes s = ('(n, s) <- ReadCompactSize s;; stream_read (Z.to_nat n) s)) /\
  (forall chunk s, 0 < chunk -> Unserialize_chunked unser chunk s = Unserialize_list unser s) /\
  (forall v r, Z.of_nat (length v) <= MAX_SIZE ->
     Unserialize_bytes (Serialize_bytes v ++ r) = Some (v, r)) /\
  (forall chunk v r, 0 < chunk -> Z.of_nat (length v) <= MAX_SIZE -> Forall ok v ->
     Unserialize_chunked unser chunk (Serialize_vector ser v ++ r) = Some (v, r)).
Proof.
  intros Hrt. repeat split.
  - intros s Hs. now apply Unserialize_bytes_eq.
  - intros chunk s Hc. now apply Unserialize_chunked_eq.
  - intros v r Hv. now apply Unserialize_bytes_ser.
  - intros chunk v r Hc Hl Hv. rewrite Unserialize_chunked_eq by assumption.
    now apply (Unserialize_list_ser ser unser ok).
Qed.
Lemma vector_readers_equivalent_witness :
  Unserialize_chunked ser_readdata32 3 (Serialize_vector ser_writedata32 [1; 2; 3; 4; 5] ++ [9])
    = Some ([1; 2; 3; 4; 5], [9]).
Proof.
  apply (vector_readers_equivalent ser_writedata32 ser_readdata32 (fun x => 0 <= x < 2 ^ 32)).
  - intros x r Hx. now apply Unserialize_u32_ser.
  - lia.
  - cbn. unfold MAX_SIZE. lia.
  - repeat (apply Forall_cons; [lia|]). apply Forall_nil.
Defined.
