(* ===== verification/Script.v ===== *)
(** Scripts (src/script/script.h, src/script/script.cpp): opcodes, script numbers,
    pushing and parsing, signature-operation counts and script templates.  A
    script is its list of bytes; a position in it is the list of the bytes from
    there to the end. *)
From Stdlib Require Import ZArith Lia List Bool.
From S2P Require Import Prelude Serialize.
Import ListNotations.
Local Open Scope Z_scope.

Definition MAX_SCRIPT_ELEMENT_SIZE : Z := 520.
Definition MAX_PUBKEYS_PER_MULTISIG : Z := 20.
Definition MAX_SCRIPT_SIZE : Z := 10000.
Definition LOCKTIME_THRESHOLD : Z := 500000000.

(** * Opcodes: [enum opcodetype] *)

Definition OP_0 : Z := 0x00.
Definition OP_FALSE : Z := OP_0.
Definition OP_PUSHDATA1 : Z := 0x4c.
Definition OP_PUSHDATA2 : Z := 0x4d.
Definition OP_PUSHDATA4 : Z := 0x4e.
Definition OP_1NEGATE : Z := 0x4f.
Definition OP_RESERVED : Z := 0x50.
Definition OP_1 : Z := 0x51.
Definition OP_TRUE : Z := OP_1.
Definition OP_2 : Z := 0x52.
Definition OP_3 : Z := 0x53.
Definition OP_4 : Z := 0x54.
Definition OP_5 : Z := 0x55.
Definition OP_6 : Z := 0x56.
Definition OP_7 : Z := 0x57.
Definition OP_8 : Z := 0x58.
Definition OP_9 : Z := 0x59.
Definition OP_10 : Z := 0x5a.
Definition OP_11 : Z := 0x5b.
Definition OP_12 : Z := 0x5c.
Definition OP_13 : Z := 0x5d.
Definition OP_14 : Z := 0x5e.
Definition OP_15 : Z := 0x5f.
Definition OP_16 : Z := 0x60.
Definition OP_NOP : Z := 0x61.
Definition OP_VER : Z := 0x62.
Definition OP_IF : Z := 0x63.
Definition OP_NOTIF : Z := 0x64.
Definition OP_VERIF : Z := 0x65.
Definition OP_VERNOTIF : Z := 0x66.
Definition OP_ELSE : Z := 0x67.
Definition OP_ENDIF : Z := 0x68.
Definition OP_VERIFY : Z := 0x69.
Definition OP_RETURN : Z := 0x6a.
Definition OP_TOALTSTACK : Z := 0x6b.
Definition OP_FROMALTSTACK : Z := 0x6c.
Definition OP_2DROP : Z := 0x6d.
Definition OP_2DUP : Z := 0x6e.
Definition OP_3DUP : Z := 0x6f.
Definition OP_2OVER : Z := 0x70.
Definition OP_2ROT : Z := 0x71.
Definition OP_2SWAP : Z := 0x72.
Definition OP_IFDUP : Z := 0x73.
Definition OP_DEPTH : Z := 0x74.
Definition OP_DROP : Z := 0x75.
Definition OP_DUP : Z := 0x76.
Definition OP_NIP : Z := 0x77.
Definition OP_OVER : Z := 0x78.
Definition OP_PICK : Z := 0x79.
Definition OP_ROLL : Z := 0x7a.
Definition OP_ROT : Z := 0x7b.
Definition OP_SWAP : Z := 0x7c.
Definition OP_TUCK : Z := 0x7d.
Definition OP_CAT : Z := 0x7e.
Definition OP_SUBSTR : Z := 0x7f.
Definition OP_LEFT : Z := 0x80.
Definition OP_RIGHT : Z := 0x81.
Definition OP_SIZE : Z := 0x82.
Definition OP_INVERT : Z := 0x83.
Definition OP_AND : Z := 0x84.
Definition OP_OR : Z := 0x85.
Definition OP_XOR : Z := 0x86.
Definition OP_EQUAL : Z := 0x87.
Definition OP_EQUALVERIFY : Z := 0x88.
Definition OP_RESERVED1 : Z := 0x89.
Definition OP_RESERVED2 : Z := 0x8a.
Definition OP_1ADD : Z := 0x8b.
Definition OP_1SUB : Z := 0x8c.
Definition OP_2MUL : Z := 0x8d.
Definition OP_2DIV : Z := 0x8e.
Definition OP_NEGATE : Z := 0x8f.
Definition OP_ABS : Z := 0x90.
Definition OP_NOT : Z := 0x91.
Definition OP_0NOTEQUAL : Z := 0x92.
Definition OP_ADD : Z := 0x93.
Definition OP_SUB : Z := 0x94.
Definition OP_MUL : Z := 0x95.
Definition OP_DIV : Z := 0x96.
Definition OP_MOD : Z := 0x97.
Definition OP_LSHIFT : Z := 0x98.
Definition OP_RSHIFT : Z := 0x99.
Definition OP_BOOLAND : Z := 0x9a.
Definition OP_BOOLOR : Z := 0x9b.
Definition OP_NUMEQUAL : Z := 0x9c.
Definition OP_NUMEQUALVERIFY : Z := 0x9d.
Definition OP_NUMNOTEQUAL : Z := 0x9e.
Definition OP_LESSTHAN : Z := 0x9f.
Definition OP_GREATERTHAN : Z := 0xa0.
Definition OP_LESSTHANOREQUAL : Z := 0xa1.
Definition OP_GREATERTHANOREQUAL : Z := 0xa2.
Definition OP_MIN : Z := 0xa3.
Definition OP_MAX : Z := 0xa4.
Definition OP_WITHIN : Z := 0xa5.
Definition OP_RIPEMD160 : Z := 0xa6.
Definition OP_SHA1 : Z := 0xa7.
Definition OP_SHA256 : Z := 0xa8.
Definition OP_HASH160 : Z := 0xa9.
Definition OP_HASH256 : Z := 0xaa.
Definition OP_CODESEPARATOR : Z := 0xab.
Definition OP_CHECKSIG : Z := 0xac.
Definition OP_CHECKSIGVERIFY : Z := 0xad.
Definition OP_CHECKMULTISIG : Z := 0xae.
Definition OP_CHECKMULTISIGVERIFY : Z := 0xaf.
Definition OP_NOP1 : Z := 0xb0.
Definition OP_NOP2 : Z := 0xb1.
Definition OP_CHECKLOCKTIMEVERIFY : Z := OP_NOP2.
Definition OP_NOP3 : Z := 0xb2.
Definition OP_NOP4 : Z := 0xb3.
Definition OP_NOP5 : Z := 0xb4.
Definition OP_NOP6 : Z := 0xb5.
Definition OP_NOP7 : Z := 0xb6.
Definition OP_NOP8 : Z := 0xb7.
Definition OP_NOP9 : Z := 0xb8.
Definition OP_NOP10 : Z := 0xb9.
Definition OP_ZEROCOINMINT : Z := 0xc1.
Definition OP_ZEROCOINSPEND : Z := 0xc2.
Definition OP_ZEROCOINPUBLICSPEND : Z := 0xc3.
Definition OP_CHECKCOLDSTAKEVERIFY : Z := 0xd1.
Definition OP_INVALIDOPCODE : Z := 0xff.

Definition size {A} (l : list A) : Z := Z.of_nat (length l).

(** * CScriptNum

    The value is an [int64_t]. *)
Module ScriptNum.

Definition nDefaultMaxNumSize : Z := 4.

Fixpoint serialize_loop (fuel : nat) (absvalue : Z) (result : list Z) : list Z :=
  match fuel with
  | O => result
  | S f =>
      if absvalue =? 0 then result
      else serialize_loop f (Z.shiftr absvalue 8) (result ++ [Z.land absvalue 0xff])
  end.
Definition back (l : list Z) : Z := last l 0.

Definition serialize (value : Z) : list Z :=
  if value =? 0 then []
  else
    let neg := value <? 0 in
    let absvalue := if neg then u64 (u64 (Z.lnot (u64 value)) + 1) else u64 value in
    let result := serialize_loop 8 absvalue [] in
    if negb (Z.land (back result) 0x80 =? 0) then result ++ [if neg then 0x80 else 0]
    else if neg then removelast result ++ [Z.lor (back result) 0x80]
    else result.

Fixpoint set_vch_loop (vch : list Z) (i result : Z) : Z :=
  match vch with
  | [] => result
  | b :: t => set_vch_loop t (i + 1) (Z.lor result (i64 (Z.shiftl b (8 * i))))
  end.
Definition set_vch (vch : list Z) : Z :=
  match vch with
  | [] => 0
  | _ =>
      let result := set_vch_loop vch 0 0 in
      if negb (Z.land (back vch) 0x80 =? 0) then
        - i64 (Z.land (u64 result) (u64 (Z.lnot (u64 (Z.shiftl 0x80 (8 * (size vch - 1)))))))
      else result
  end.

(** The constructor from a stack element; [None] is [scriptnum_error]. *)
Definition CScriptNum (vch : list Z) (fRequireMinimal : bool) (nMaxNumSize : Z) : option Z :=
  if size vch >? nMaxNumSize then None
  else if fRequireMinimal && (size vch >? 0)
          && (Z.land (back vch) 0x7f =? 0)
          && ((size vch <=? 1) || (Z.land vch.[Z.to_nat (size vch - 2)] 0x80 =? 0))
       then None
  else Some (set_vch vch).

Definition INT64_MIN : Z := - 2 ^ 63.
Definition INT64_MAX : Z := 2 ^ 63 - 1.

(** The operators with assertions; [None] is a failed assertion. *)
Definition negate (m_value : Z) : option Z :=
  if m_value =? INT64_MIN then None else Some (- m_value).
Definition plus_assign (m_value rhs : Z) : option Z :=
  if (rhs =? 0) || ((rhs >? 0) && (m_value <=? INT64_MAX - rhs))
     || ((rhs <? 0) && (m_value >=? INT64_MIN - rhs))
  then Some (m_value + rhs) else None.
Definition minus_assign (m_value rhs : Z) : option Z :=
  if (rhs =? 0) || ((rhs >? 0) && (m_value >=? INT64_MIN + rhs))
     || ((rhs <? 0) && (m_value <=? INT64_MAX + rhs))
  then Some (m_value - rhs) else None.

Definition getint (m_value : Z) : Z :=
  if m_value >? 2 ^ 31 - 1 then 2 ^ 31 - 1
  else if m_value <? - 2 ^ 31 then - 2 ^ 31
  else m_value.
End ScriptNum.

(** * CScript *)

Definition CScript : Type := list Z.

(** [operator<<(opcodetype)]; [None] is the thrown [runtime_error]. *)
Definition push_opcode (script : CScript) (opcode : Z) : option CScript :=
  if (opcode <? 0) || (opcode >? 0xff) then None else Some (script ++ [opcode]).

(** [operator<<(const std::vector<unsigned char>&)] *)
Definition push_data (script : CScript) (b : list Z) : CScript :=
  let prefix :=
    if size b <? OP_PUSHDATA1 then [u8 (size b)]
    else if size b <=? 0xff then [OP_PUSHDATA1; u8 (size b)]
    else if size b <=? 0xffff then OP_PUSHDATA2 :: WriteLE16 (u16 (size b))
    else OP_PUSHDATA4 :: WriteLE32 (u32 (size b)) in
  script ++ prefix ++ b.

Definition push_int64 (script : CScript) (n : Z) : CScript :=
  if (n =? -1) || ((n >=? 1) && (n <=? 16)) then script ++ [u8 (n + (OP_1 - 1))]
  else if n =? 0 then script ++ [OP_0]
  else push_data script (ScriptNum.serialize n).

(** [GetOp2]: the opcode, its immediate operand and the position behind it.
    The position a failing call leaves the iterator at is [GetOp_failed] below;
    only the signature serializer uses it. *)
Definition GetOp2 (pc : CScript) : option (Z * list Z * CScript) :=
  match pc with
  | [] => None
  | opcode :: pc =>
      if opcode <=? OP_PUSHDATA4 then
        '(nSize, pc) <-
          (if opcode <? OP_PUSHDATA1 then Some (opcode, pc)
           else if opcode =? OP_PUSHDATA1 then
             match pc with [] => None | b :: pc => Some (b, pc) end
           else if opcode =? OP_PUSHDATA2 then
             if size pc <? 2 then None else Some (ReadLE16 pc, skipn 2 pc)
           else
             if size pc <? 4 then None else Some (ReadLE32 pc, skipn 4 pc));;
        if u32 (size pc) <? nSize then None
        else Some (opcode, firstn (Z.to_nat nSize) pc, skipn (Z.to_nat nSize) pc)
      else Some (opcode, [], pc)
  end.
Definition GetOp : CScript -> option (Z * list Z * CScript) := GetOp2.
Definition GetOp_failed (pc : CScript) : CScript :=
  match pc with
  | [] => []
  | opcode :: pc =>
      if opcode <? OP_PUSHDATA1 then pc
      else if opcode =? OP_PUSHDATA1 then skipn 1 pc
      else if opcode =? OP_PUSHDATA2 then if size pc <? 2 then pc else skipn 2 pc
      else if size pc <? 4 then pc else skipn 4 pc
  end.

(** [None] is a failed assertion. *)
Definition DecodeOP_N (opcode : Z) : option Z :=
  if opcode =? OP_0 then Some 0
  else if (opcode >=? OP_1) && (opcode <=? OP_16) then Some (opcode - (OP_1 - 1))
  else None.
Definition EncodeOP_N (n : Z) : option Z :=
  if (n >=? 0) && (n <=? 16) then
    if n =? 0 then Some OP_0 else Some (OP_1 + n - 1)
  else None.

Fixpoint list_eqb (a b : list Z) : bool :=
  match a, b with
  | [], [] => true
  | x :: a, y :: b => (x =? y) && list_eqb a b
  | _, _ => false
  end.

(** The inner loop of [FindAndDelete]: skip the copies of [b] at [pc]. *)
Fixpoint skip_copies (fuel : nat) (b pc : CScript) (nFound : Z) : CScript * Z :=
  match fuel with
  | O => (pc, nFound)
  | S f =>
      if (size pc >=? size b) && list_eqb b (firstn (length b) pc)
      then skip_copies f b (skipn (length b) pc) (nFound + 1)
      else (pc, nFound)
  end.
(** The bytes between the positions [from] and [to] of one script. *)
Definition between (from to : CScript) : CScript :=
  firstn (length from - length to) from.
Fixpoint find_and_delete_loop (fuel : nat) (b pc2 pc result : CScript) (nFound : Z)
  : option (CScript * CScript * Z) :=
  match fuel with
  | O => None
  | S f =>
      let result := result ++ between pc2 pc in
      let '(pc, nFound) := skip_copies (length pc) b pc nFound in
      match GetOp pc with
      | Some (_, _, pc') => find_and_delete_loop f b pc pc' result nFound
      | None => Some (result, pc, nFound)
      end
  end.
(** The script after the deletions and their number. *)
Definition FindAndDelete (script b : CScript) : option (CScript * Z) :=
  match b with
  | [] => Some (script, 0)
  | _ =>
      '(result, pc2, nFound) <-
        find_and_delete_loop (S (length script)) b script script [] 0;;
      if nFound >? 0 then Some (result ++ pc2, nFound) else Some (script, nFound)
  end.

(** [Find]; the fuel is the number of bytes left. *)
Fixpoint find_loop (fuel : nat) (op : Z) (pc : CScript) (nFound : Z) : Z :=
  match fuel, pc with
  | S f, _ :: _ =>
      match GetOp pc with
      | Some (opcode, _, pc) => find_loop f op pc (if opcode =? op then nFound + 1 else nFound)
      | None => nFound
      end
  | _, _ => nFound
  end.
Definition Find (script : CScript) (op : Z) : Z := find_loop (length script) op script 0.

Fixpoint sigop_loop (fuel : nat) (fAccurate : bool) (pc : CScript) (lastOpcode n : Z) : option Z :=
  match pc with
  | [] => Some n
  | _ =>
      match fuel with
      | O => None
      | S f =>
          match GetOp pc with
          | None => Some n
          | Some (opcode, _, pc) =>
              n <- (if (opcode =? OP_CHECKSIG) || (opcode =? OP_CHECKSIGVERIFY) then Some (u32 (n + 1))
                    else if (opcode =? OP_CHECKMULTISIG) || (opcode =? OP_CHECKMULTISIGVERIFY) then
                      if fAccurate && (lastOpcode >=? OP_1) && (lastOpcode <=? OP_16)
                      then k <- DecodeOP_N lastOpcode;; Some (u32 (n + k))
                      else Some (u32 (n + MAX_PUBKEYS_PER_MULTISIG))
                    else Some n);;
              sigop_loop f fAccurate pc opcode n
          end
      end
  end.
Definition GetSigOpCount (script : CScript) (fAccurate : bool) : option Z :=
  sigop_loop (length script) fAccurate script OP_INVALIDOPCODE 0.

Definition IsPayToPublicKeyHash (s : CScript) : bool :=
  (size s =? 25) && (s.[0] =? OP_DUP) && (s.[1] =? OP_HASH160) && (s.[2] =? 0x14)
  && (s.[23] =? OP_EQUALVERIFY) && (s.[24] =? OP_CHECKSIG).
Definition IsPayToScriptHash (s : CScript) : bool :=
  (size s =? 23) && (s.[0] =? OP_HASH160) && (s.[1] =? 0x14) && (s.[22] =? OP_EQUAL).
Definition IsPayToColdStaking (s : CScript) : bool :=
  (size s =? 51) && (s.[2] =? OP_ROT) && (s.[4] =? OP_CHECKCOLDSTAKEVERIFY)
  && (s.[5] =? 0x14) && (s.[27] =? 0x14) && (s.[49] =? OP_EQUALVERIFY) && (s.[50] =? OP_CHECKSIG).
Definition StartsWithOpcode (s : CScript) (opcode : Z) : bool :=
  match s with [] => false | b :: _ => b =? opcode end.
Definition IsZerocoinMint (s : CScript) : bool := StartsWithOpcode s OP_ZEROCOINMINT.
Definition IsZerocoinSpend (s : CScript) : bool := StartsWithOpcode s OP_ZEROCOINSPEND.
Definition IsZerocoinPublicSpend (s : CScript) : bool := StartsWithOpcode s OP_ZEROCOINPUBLICSPEND.

(** The last element pushed by a script of pushes; [None] when the script is
    malformed or has another opcode. *)
Fixpoint last_push_loop (fuel : nat) (pc : CScript) (data : list Z) : option (option (list Z)) :=
  match pc with
  | [] => Some (Some data)
  | _ =>
      match fuel with
      | O => None
      | S f =>
          match GetOp pc with
          | None => Some None
          | Some (opcode, data, pc) =>
              if opcode >? OP_16 then Some None else last_push_loop f pc data
          end
      end
  end.
(** [GetSigOpCount(scriptSig)] *)
Definition GetSigOpCount_P2SH (script scriptSig : CScript) : option Z :=
  if negb (IsPayToScriptHash script) then GetSigOpCount script true
  else
    d <- last_push_loop (length scriptSig) scriptSig [];;
    match d with
    | None => Some 0
    | Some data => GetSigOpCount data true
    end.

Fixpoint push_only_loop (fuel : nat) (pc : CScript) : option bool :=
  match pc with
  | [] => Some true
  | _ =>
      match fuel with
      | O => None
      | S f =>
          match GetOp pc with
          | None => Some false
          | Some (opcode, _, pc) =>
              if opcode >? OP_16 then Some false else push_only_loop f pc
          end
      end
  end.
Definition IsPushOnly (script : CScript) : option bool := push_only_loop (length script) script.

Definition IsUnspendable (s : CScript) : bool :=
  ((size s >? 0) && (s.[0] =? OP_RETURN)) || (size s >? MAX_SCRIPT_SIZE).

(** * Script numbers: round trip *)

Lemma size_nonneg {A} (l : list A) : 0 <= size l.
Proof. unfold size. lia. Qed.
Lemma size_app {A} (l r : list A) : size (l ++ r) = size l + size r.
Proof. unfold size. rewrite length_app. lia. Qed.
Lemma size_cons {A} (x : A) l : size (x :: l) = size l + 1.
Proof. unfold size. cbn [length]. lia. Qed.
#[export] Hint Rewrite @size_app @size_cons : passion_rw.

Lemma le_value_app l r : le_value (l ++ r) = le_value l + 256 ^ size l * le_value r.
Proof.
  induction l as [|b l IH]; cbn [app le_value]; [change (size (@nil Z)) with 0; lia|].
  rewrite IH, size_cons, Z.add_1_r, Z.pow_succ_r by apply size_nonneg. ring.
Qed.
Lemma le_value_snoc l m : le_value (l ++ [m]) = le_value l + m * 256 ^ size l.
Proof. rewrite le_value_app. cbn [le_value]. ring. Qed.

Lemma le_value_size l : bytes_ok l -> 0 <= le_value l < 256 ^ size l.
Proof. apply le_value_range. Qed.

(** The digits of a positive number, most significant byte nonzero. *)
Definition digits (a : Z) : list Z := ScriptNum.serialize_loop 8 a [].

Lemma land_ff n : Z.land n 0xff = n mod 256.
Proof. apply (land_mask 8); lia. Qed.
Lemma shiftr8 n : Z.shiftr n 8 = n / 256.
Proof. now rewrite Z.shiftr_div_pow2. Qed.

Lemma serialize_loop_value fuel : forall a res,
  0 <= a < 256 ^ Z.of_nat fuel ->
  exists l, ScriptNum.serialize_loop fuel a res = res ++ l /\ le_value l = a /\ bytes_ok l /\
    (l <> [] -> last l 0 <> 0) /\ (length l <= fuel)%nat.
Proof.
  induction fuel as [|f IH]; intros a res Ha; cbn [ScriptNum.serialize_loop].
  - exists []. rewrite app_nil_r. cbn in Ha |- *. repeat split; try lia; try easy. constructor.
  - destruct (Z.eqb_spec a 0) as [->|Hn].
    { exists []. rewrite app_nil_r. repeat split; try easy; [constructor|cbn; lia]. }
    rewrite land_ff, shiftr8.
    rewrite Nat2Z.inj_succ, Z.pow_succ_r in Ha by lia.
    pose proof (Z.div_mod a 256). pose proof (Z.mod_pos_bound a 256).
    destruct (IH (a / 256) (res ++ [a mod 256])) as (l & -> & Hv & Hb & Hl & Hlen); [nia|].
    exists (a mod 256 :: l). rewrite <- app_assoc. cbn [app le_value].
    repeat split; try lia.
    + constructor; [unfold byte_ok; lia|assumption].
    + intros _. destruct l as [|y l].
      * cbn in Hv |- *. lia.
      * change (last (a mod 256 :: y :: l) 0) with (last (y :: l) 0). now apply Hl.
    + cbn [length]. lia.
Qed.

Lemma digits_value a : 0 <= a < 2 ^ 64 ->
  le_value (digits a) = a /\ bytes_ok (digits a) /\ (a <> 0 -> last (digits a) 0 <> 0).
Proof.
  intros Ha. unfold digits.
  destruct (serialize_loop_value 8 a []) as (l & -> & Hv & Hb & Hl & _); [exact Ha|].
  cbn [app]. repeat split; auto. intros Hn. apply Hl. intros E. rewrite E in Hv. cbn in Hv. lia.
Qed.

(** The digits are determined by the value. *)
Lemma le_value_inj l : forall r,
  bytes_ok l -> bytes_ok r -> le_value l = le_value r -> length l = length r -> l = r.
Proof.
  intros r Hl Hr Hv Hlen. rewrite <- (le_bytes_value l), <- (le_bytes_value r) by assumption.
  now rewrite Hv, Hlen.
Qed.

Lemma snoc_bounds p m : bytes_ok p -> byte_ok m -> m <> 0 ->
  256 ^ size p <= le_value (p ++ [m]) < 256 ^ (size p + 1).
Proof.
  intros Hp Hm Hn. rewrite le_value_snoc. pose proof (le_value_size p Hp).
  unfold byte_ok in Hm. pose proof (size_nonneg p).
  rewrite Z.pow_add_r by lia. nia.
Qed.

Lemma last_snoc_inv (l : list Z) : l <> [] -> exists p m, l = p ++ [m] /\ last l 0 = m.
Proof.
  intros Hl. exists (removelast l), (last l 0). split; [|reflexivity].
  now apply app_removelast_last.
Qed.

Lemma digits_unique l :
  bytes_ok l -> l <> [] -> last l 0 <> 0 -> (length l <= 8)%nat -> digits (le_value l) = l.
Proof.
  intros Hb Hne Hl Hlen.
  assert (Hr : 0 <= le_value l < 2 ^ 64).
  { pose proof (le_value_size l Hb). change (2 ^ 64) with (256 ^ 8).
    assert (256 ^ size l <= 256 ^ 8) by (apply Z.pow_le_mono_r; unfold size; lia). lia. }
  assert (Hpos : le_value l <> 0).
  { destruct (last_snoc_inv l Hne) as (p & m & -> & E). rewrite E in Hl.
    apply bytes_ok_app in Hb as [Hp Hm]. apply Forall_inv in Hm.
    pose proof (snoc_bounds p m Hp Hm Hl). pose proof (size_nonneg p).
    pose proof (Z.pow_pos_nonneg 256 (size p)). lia. }
  destruct (digits_value (le_value l) Hr) as (Hv & Hd & Hdl).
  specialize (Hdl Hpos).
  assert (Hdne : digits (le_value l) <> []) by (intros E; rewrite E in Hv; cbn in Hv; lia).
  apply le_value_inj; auto.
  destruct (last_snoc_inv _ Hdne) as (p & m & Ed & Em).
  destruct (last_snoc_inv _ Hne) as (q & k & El & Ek).
  rewrite Em in Hdl. rewrite Ek in Hl. rewrite Ed in Hv, Hd |- *. rewrite El in Hv, Hb |- *.
  apply bytes_ok_app in Hd as [Hp Hm%Forall_inv]. apply bytes_ok_app in Hb as [Hq Hk%Forall_inv].
  pose proof (snoc_bounds p m Hp Hm Hdl) as B1. pose proof (snoc_bounds q k Hq Hk Hl) as B2.
  rewrite Hv in B1. rewrite !length_app. cbn [length]. f_equal.
  destruct (Z.lt_trichotomy (size p) (size q)) as [Hc|[Hc|Hc]]; [exfalso| |exfalso].
  - assert (256 ^ (size p + 1) <= 256 ^ size q) by (apply Z.pow_le_mono_r; lia). lia.
  - unfold size in Hc. lia.
  - assert (256 ^ (size q + 1) <= 256 ^ size p) by (apply Z.pow_le_mono_r; lia). lia.
Qed.

Lemma clear_top_bit k a : 0 <= k < 64 -> 0 <= a < 2 ^ k ->
  Z.land (u64 (2 ^ k + a)) (u64 (Z.lnot (u64 (2 ^ k)))) = a.
Proof.
  intros Hk Ha.
  assert (H2 : 2 * 2 ^ k <= 2 ^ 64).
  { replace (2 * 2 ^ k) with (2 ^ (k + 1)) by (rewrite Z.pow_add_r by lia; lia).
    apply Z.pow_le_mono_r; lia. }
  rewrite !(u64_small (2 ^ k)), u64_small by lia.
  rewrite <- (lor_add_disjoint (2 ^ k) a k) by
    (try apply Z.mod_same; try lia; pose proof (pow2_pos k); lia).
  unfold u64. rewrite <- Z.land_ones by lia.
  apply Z.bits_inj'. intros i Hi.
  rewrite !Z.land_spec, Z.lor_spec, Z.lnot_spec, Z.pow2_bits_eqb by lia.
  destruct (Z.eqb_spec k i) as [->|Hne]; cbn [negb orb andb].
  - destruct (Z.eq_dec a 0) as [->|]; [now rewrite Z.bits_0|].
    rewrite (Z.bits_above_log2 a i); [reflexivity|lia|]. apply Z.log2_lt_pow2; lia.
  - destruct (Z.ltb_spec i 64).
    + rewrite Z.ones_spec_low by lia. apply andb_true_r.
    + rewrite Z.ones_spec_high by lia.
      destruct (Z.eq_dec a 0) as [->|]; [now rewrite Z.bits_0|].
      rewrite (Z.bits_above_log2 a i); [reflexivity|lia|].
      apply Z.lt_le_trans with k; [|lia]. apply Z.log2_lt_pow2; lia.
Qed.

Lemma i64_small x : - 2 ^ 63 <= x < 2 ^ 63 -> i64 x = x.
Proof.
  intros H. unfold i64, signed.
  destruct (Z.ltb_spec (x mod 2 ^ 64) (2 ^ (64 - 1))); Z.to_euclidean_division_equations; lia.
Qed.

Lemma pow256 n : 0 <= n -> 256 ^ n = 2 ^ (8 * n).
Proof. intros. rewrite Z.pow_mul_r by lia. reflexivity. Qed.

Lemma set_vch_loop_value vch : forall i result,
  bytes_ok vch -> 0 <= i -> i + size vch <= 7 -> 0 <= result < 256 ^ i ->
  ScriptNum.set_vch_loop vch i result = result + 256 ^ i * le_value vch.
Proof.
  induction vch as [|b t IH]; intros i result Hb Hi Hs Hr;
    cbn [ScriptNum.set_vch_loop le_value]; [ring|].
  apply Forall_cons_iff in Hb as [Hb Ht]. unfold byte_ok in Hb.
  rewrite size_cons in Hs. pose proof (size_nonneg t).
  assert (H56 : 256 ^ i * 256 <= 2 ^ 56).
  { rewrite pow256 by lia. change 256 with (2 ^ 8). rewrite <- Z.pow_add_r by lia.
    apply Z.pow_le_mono_r; lia. }
  assert (E : i64 (Z.shiftl b (8 * i)) = b * 256 ^ i).
  { rewrite Z.shiftl_mul_pow2, <- pow256 by lia. apply i64_small. nia. }
  rewrite E, Z.lor_comm, (lor_add_disjoint _ _ (8 * i)); [|lia|rewrite <- pow256 by lia; lia|].
  2: { rewrite pow256 by lia. apply Z.mod_mul. pose proof (pow2_pos (8 * i)). lia. }
  rewrite IH by (try assumption; try lia; rewrite Z.add_1_r, Z.pow_succ_r by lia; nia).
  rewrite Z.add_1_r, Z.pow_succ_r by lia. ring.
Qed.

(** What a vector of at most seven bytes denotes: sign and magnitude. *)
Lemma set_vch_value p m : bytes_ok p -> byte_ok m -> size p <= 6 ->
  ScriptNum.set_vch (p ++ [m]) =
    if m <? 128 then le_value p + m * 256 ^ size p
    else - (le_value p + (m - 128) * 256 ^ size p).
Proof.
  intros Hp Hm Hs. unfold ScriptNum.set_vch.
  assert (Hne : p ++ [m] <> []) by now destruct p.
  destruct (p ++ [m]) as [|x l] eqn:El; [easy|]. rewrite <- El. clear x l El Hne.
  pose proof (size_nonneg p) as Hp0. pose proof (le_value_size p Hp) as Hpv.
  rewrite set_vch_loop_value;
    [|apply bytes_ok_app; split; [assumption|now constructor]|lia
     |rewrite size_app; cbn; lia|lia].
  rewrite Z.pow_0_r, Z.mul_1_l, Z.add_0_l.
  unfold ScriptNum.back. rewrite last_last, testbit80 by assumption.
  unfold byte_ok in Hm. rewrite le_value_snoc.
  destruct (Z.ltb_spec m 128) as [Hlt|Hge]; cbn [negb]; [reflexivity|].
  rewrite size_app. cbn [size length Z.of_nat Pos.of_succ_nat]. change (size [m]) with 1.
  replace (size p + 1 - 1) with (size p) by lia.
  set (B := 256 ^ size p) in *.
  assert (Ek : 0x80 * 2 ^ (8 * size p) = 2 ^ (8 * size p + 7))
    by (rewrite Z.pow_add_r by lia; change (2 ^ 7) with 128; lia).
  rewrite Z.shiftl_mul_pow2, Ek by lia.
  assert (EB : 2 ^ (8 * size p + 7) = 128 * B) by (unfold B; rewrite pow256 by lia; lia).
  replace (le_value p + m * B) with (2 ^ (8 * size p + 7) + (le_value p + (m - 128) * B)) by lia.
  rewrite clear_top_bit; [|lia|nia].
  rewrite i64_small; [reflexivity|].
  assert (128 * B <= 2 ^ 63) by (rewrite <- EB; apply Z.pow_le_mono_r; lia). nia.
Qed.

Lemma land7f_byte m : byte_ok m -> Z.land m 0x7f = if m <? 128 then m else m - 128.
Proof.
  unfold byte_ok. intros Hm. rewrite land7f.
  destruct (Z.ltb_spec m 128); [apply Z.mod_small; lia|].
  symmetry. apply Z.mod_unique with 1; lia.
Qed.

(** [serialize] appends the sign to the digits of the magnitude. *)
Lemma serialize_value v : - 2 ^ 63 < v < 2 ^ 63 -> v <> 0 ->
  ScriptNum.serialize v =
    let d := digits (Z.abs v) in
    if last d 0 >=? 128 then d ++ [if v <? 0 then 0x80 else 0]
    else if v <? 0 then removelast d ++ [last d 0 + 128] else d.
Proof.
  intros Hv Hn. unfold ScriptNum.serialize.
  destruct (Z.eqb_spec v 0); [lia|].
  assert (E : (if v <? 0 then u64 (u64 (Z.lnot (u64 v)) + 1) else u64 v) = Z.abs v).
  { destruct (Z.ltb_spec v 0).
    - unfold u64, Z.lnot. rewrite Z.add_mod_idemp_l by lia.
      replace (v mod 2 ^ 64) with (v + 2 ^ 64) by (Z.to_euclidean_division_equations; lia).
      replace (Z.pred (- (v + 2 ^ 64)) + 1) with (- v + (-1) * 2 ^ 64) by lia.
      rewrite Z.mod_add, Z.mod_small by lia. lia.
    - rewrite u64_small by lia. lia. }
  rewrite E. cbv zeta. fold (digits (Z.abs v)). unfold ScriptNum.back.
  destruct (digits_value (Z.abs v)) as (_ & Hd & _); [lia|].
  assert (Hl : byte_ok (last (digits (Z.abs v)) 0)).
  { destruct (digits (Z.abs v)) as [|x d] eqn:Ed; [unfold byte_ok; cbn; lia|].
    unfold bytes_ok in Hd. rewrite Forall_forall in Hd. apply Hd.
    destruct (last_snoc_inv (x :: d)) as (p & m & E' & Em); [easy|].
    rewrite Em, E'. apply in_app_iff. right. now left. }
  rewrite testbit80 by assumption. rewrite Z.geb_leb.
  set (m := last (digits (Z.abs v)) 0) in *. unfold byte_ok in Hl.
  destruct (Z.ltb_spec m 128); destruct (Z.leb_spec 128 m); try lia; cbn [negb]; [|reflexivity].
  destruct (v <? 0); [|reflexivity]. do 2 f_equal.
  rewrite Z.lor_comm, (lor_add_disjoint 128 m 7); [lia|lia|lia|reflexivity].
Qed.

Lemma nth_last (p : list Z) m :
  p <> [] -> (p ++ [m]).[Z.to_nat (size (p ++ [m]) - 2)] = last p 0.
Proof.
  intros Hp. destruct (last_snoc_inv p Hp) as (q & k & -> & ->).
  rewrite !size_app. change (size [m]) with 1. change (size [k]) with 1.
  rewrite <- app_assoc, app_nth2 by (unfold size; lia).
  now replace (Z.to_nat (size q + 1 + 1 - 2) - length q)%nat with 0%nat by (unfold size; lia).
Qed.

(** The minimality test of the constructor on a nonempty vector. *)
Definition magnitude (m : Z) : Z := if m <? 128 then m else m - 128.
Definition minimal_ok (p : list Z) (m : Z) : Prop :=
  magnitude m <> 0 \/ (p <> [] /\ 128 <= last p 0).

Lemma minimal_test p m : bytes_ok p -> byte_ok m ->
  (true && (size (p ++ [m]) >? 0) && (Z.land (ScriptNum.back (p ++ [m])) 0x7f =? 0)
    && ((size (p ++ [m]) <=? 1) || (Z.land (p ++ [m]).[Z.to_nat (size (p ++ [m]) - 2)] 0x80 =? 0)))
  = false <-> minimal_ok p m.
Proof.
  intros Hp Hm. unfold minimal_ok, ScriptNum.back.
  rewrite last_last, land7f_byte by assumption. fold (magnitude m).
  assert (Hs : size (p ++ [m]) = size p + 1) by (rewrite size_app; reflexivity).
  pose proof (size_nonneg p).
  destruct (Z.gtb_spec (size (p ++ [m])) 0); [|lia].
  destruct (Z.eqb_spec (magnitude m) 0) as [E|E]; cbn [andb orb]; [|intuition].
  destruct p as [|x p'] eqn:Ep.
  - cbn. split; [discriminate|]. intros [?|[? _]]; congruence.
  - rewrite <- Ep in *. rewrite nth_last by (subst; easy).
    assert (Hl : byte_ok (last p 0)).
    { destruct (last_snoc_inv p) as (q & k & E1 & E2); [subst; easy|]. rewrite E2.
      rewrite E1 in Hp. apply bytes_ok_app in Hp as [_ Hk]. now apply Forall_inv in Hk. }
    rewrite testbit80 by assumption. clear x p' Ep. unfold byte_ok in Hl.
    destruct (Z.leb_spec (size (p ++ [m])) 1).
    { destruct p; [|rewrite size_cons in Hs; pose proof (size_nonneg p); lia].
      cbn in Hl |- *. split; [discriminate|]. intros [?|[? _]]; congruence. }
    cbn [orb]. assert (p <> []) by (intros ->; cbn in *; lia).
    destruct (Z.ltb_spec (last p 0) 128); split; try discriminate; try lia; intuition lia.
Qed.

Lemma CScriptNum_snoc p m b max : bytes_ok p -> byte_ok m -> size p + 1 <= max ->
  minimal_ok p m -> ScriptNum.CScriptNum (p ++ [m]) b max = Some (ScriptNum.set_vch (p ++ [m])).
Proof.
  intros Hp Hm Hs Hmin. unfold ScriptNum.CScriptNum.
  assert (size (p ++ [m]) = size p + 1) as -> by (rewrite size_app; reflexivity).
  destruct (Z.gtb_spec (size p + 1) max); [lia|].
  destruct b; [|reflexivity].
  apply minimal_test in Hmin; auto.
  replace (size p + 1) with (size (p ++ [m])) by (rewrite size_app; reflexivity).
  now rewrite Hmin.
Qed.

(** The magnitude of a nonzero number, with its most significant byte. *)
Lemma digits_snoc v : v <> 0 -> - 2 ^ 63 < v < 2 ^ 63 -> exists p m,
  digits (Z.abs v) = p ++ [m] /\ bytes_ok p /\ byte_ok m /\ m <> 0 /\
  Z.abs v = le_value p + m * 256 ^ size p.
Proof.
  intros Hn Hv. destruct (digits_value (Z.abs v)) as (Hd & Hb & Hl); [lia|].
  specialize (Hl ltac:(lia)).
  destruct (last_snoc_inv (digits (Z.abs v))) as (p & m & E & Em).
  { intros E. rewrite E in Hd. cbn in Hd. lia. }
  exists p, m. rewrite E in Hb, Hd. rewrite Em in Hl. apply bytes_ok_app in Hb as [Hp Hm%Forall_inv].
  repeat split; auto. 1-2: apply Hm. rewrite <- Hd. apply le_value_snoc.
Qed.

Lemma CScriptNum_serialize v b max :
  1 <= max <= 7 -> Z.abs v < 2 ^ (8 * max - 1) ->
  ScriptNum.CScriptNum (ScriptNum.serialize v) b max = Some v.
Proof.
  intros Hmax Hv. destruct (Z.eq_dec v 0) as [->|Hn].
  { unfold ScriptNum.CScriptNum. cbn. destruct (Z.gtb_spec 0 max); [lia|].
    now rewrite !andb_false_r. }
  assert (H63 : 2 ^ (8 * max - 1) <= 2 ^ 63) by (apply Z.pow_le_mono_r; lia).
  rewrite serialize_value by lia. cbv zeta.
  destruct (digits_snoc v Hn) as (p & m & -> & Hp & Hm & Hm0 & Hval); [lia|].
  rewrite last_last, removelast_last. unfold byte_ok in Hm.
  pose proof (size_nonneg p). pose proof (le_value_size p Hp) as Hpv.
  assert (HB : 2 ^ (8 * size p) <= Z.abs v) by (rewrite <- pow256 by lia; nia).
  assert (Hsp : 8 * size p < 8 * max - 1) by (apply (Z.pow_lt_mono_r_iff 2); lia).
  destruct (Z.geb_spec m 128) as [Hge|Hlt].
  - assert (H128 : 2 ^ (8 * size p + 7) <= Z.abs v)
      by (rewrite Z.pow_add_r, <- pow256 by lia; change (2 ^ 7) with 128; nia).
    assert (Hsp' : 8 * size p + 7 < 8 * max - 1) by (apply (Z.pow_lt_mono_r_iff 2); lia).
    assert (Hpm : bytes_ok (p ++ [m])) by (apply bytes_ok_app; split; [assumption|now repeat constructor]).
    assert (Esz : size (p ++ [m]) = size p + 1) by (rewrite size_app; reflexivity).
    rewrite CScriptNum_snoc; auto; try lia.
    2: destruct (v <? 0); unfold byte_ok; lia.
    2: { right. rewrite last_last. split; [now destruct p|lia]. }
    f_equal. rewrite set_vch_value by (auto; try lia; destruct (v <? 0); unfold byte_ok; lia).
    rewrite le_value_snoc. destruct (Z.ltb_spec v 0); cbn [Z.ltb Z.compare Pos.compare Pos.compare_cont]; lia.
  - destruct (Z.ltb_spec v 0).
    + rewrite CScriptNum_snoc; auto; try (unfold byte_ok; lia).
      2: { left. unfold magnitude. destruct (Z.ltb_spec (m + 128) 128); lia. }
      f_equal. rewrite set_vch_value by (auto; unfold byte_ok; lia).
      destruct (Z.ltb_spec (m + 128) 128); [lia|].
      replace (m + 128 - 128) with m by lia. lia.
    + rewrite CScriptNum_snoc; auto; try lia.
      2: { left. unfold magnitude. destruct (Z.ltb_spec m 128); lia. }
      f_equal. rewrite set_vch_value by (auto; lia).
      destruct (Z.ltb_spec m 128); lia.
Qed.

Lemma CScriptNum_inv vch b max v : ScriptNum.CScriptNum vch b max = Some v ->
  size vch <= max /\ v = ScriptNum.set_vch vch /\
  (b = true -> bytes_ok vch -> forall p m, vch = p ++ [m] -> minimal_ok p m).
Proof.
  unfold ScriptNum.CScriptNum. destruct (Z.gtb_spec (size vch) max); [discriminate|].
  destruct (b && (size vch >? 0) && _ && _) eqn:E; [discriminate|]. intros [= <-].
  repeat split; [lia|]. intros -> Hb p m ->. apply bytes_ok_app in Hb as [Hp Hm%Forall_inv].
  now apply minimal_test.
Qed.

(** A decoded number is within the range of its size. *)
Lemma CScriptNum_range vch b max v : bytes_ok vch -> 1 <= max <= 7 ->
  ScriptNum.CScriptNum vch b max = Some v -> Z.abs v < 2 ^ (8 * max - 1).
Proof.
  intros Hb Hmax (Hs & -> & _)%CScriptNum_inv.
  destruct vch as [|x l]; [apply pow2_pos; lia|].
  destruct (last_snoc_inv (x :: l)) as (p & m & E & _); [easy|].
  rewrite E in *. clear x l E. apply bytes_ok_app in Hb as [Hp Hm%Forall_inv].
  rewrite size_app in Hs. change (size [m]) with 1 in Hs.
  rewrite set_vch_value by (auto; lia).
  pose proof (le_value_size p Hp) as Hpv. pose proof (size_nonneg p). unfold byte_ok in Hm.
  apply Z.lt_le_trans with (128 * 256 ^ size p); [destruct (Z.ltb_spec m 128); nia|].
  rewrite pow256 by lia. change 128 with (2 ^ 7). rewrite <- Z.pow_add_r by lia.
  apply Z.pow_le_mono_r; lia.
Qed.

(** A minimally encoded number is the serialization of its value. *)
Lemma CScriptNum_minimal vch max v : bytes_ok vch -> 1 <= max <= 7 ->
  ScriptNum.CScriptNum vch true max = Some v -> ScriptNum.serialize v = vch.
Proof.
  intros Hb Hmax H. pose proof (CScriptNum_range _ _ _ _ Hb Hmax H) as Hr.
  assert (H63 : 2 ^ (8 * max - 1) <= 2 ^ 63) by (apply Z.pow_le_mono_r; lia).
  apply CScriptNum_inv in H as (Hs & Hv & Hmin).
  destruct vch as [|x l]; [now subst|].
  destruct (last_snoc_inv (x :: l)) as (p & m & E & _); [easy|].
  rewrite E in *. clear x l E. specialize (Hmin eq_refl Hb p m eq_refl).
  apply bytes_ok_app in Hb as [Hp Hm%Forall_inv].
  rewrite size_app in Hs. change (size [m]) with 1 in Hs.
  rewrite set_vch_value in Hv by (auto; lia).
  pose proof (le_value_size p Hp) as Hpv. pose proof (size_nonneg p). 
  pose proof (Z.pow_pos_nonneg 256 (size p)) as HB.
  assert (Habs : Z.abs v = le_value (p ++ [magnitude m]) /\ (v < 0 -> 128 <= m) /\
                 (0 < v -> m < 128)).
  { rewrite le_value_snoc. unfold magnitude, byte_ok in *.
    destruct (Z.ltb_spec m 128); subst v; repeat split; nia. }
  destruct Habs as (Habs & Hneg & Hpos).
  destruct (Z.eq_dec (magnitude m) 0) as [Hmag|Hmag].
  - destruct Hmin as [?|[Hpne Hlast]]; [contradiction|].
    rewrite Hmag, le_value_snoc, Z.mul_0_l, Z.add_0_r in Habs.
    assert (Hd : digits (Z.abs v) = p).
    { rewrite Habs. apply digits_unique; auto; [lia|]. unfold size in *. lia. }
    assert (v <> 0).
    { intros ->. destruct (last_snoc_inv p Hpne) as (q & k & E & Ek). rewrite Ek in Hlast.
      rewrite E in Habs, Hp. apply bytes_ok_app in Hp as [Hq Hk%Forall_inv].
      pose proof (snoc_bounds q k Hq Hk ltac:(lia)). pose proof (size_nonneg q).
      pose proof (Z.pow_pos_nonneg 256 (size q)). lia. }
    rewrite serialize_value by lia. cbv zeta. rewrite Hd.
    destruct (Z.geb_spec (last p 0) 128); [|lia]. do 2 f_equal.
    unfold magnitude, byte_ok in *.
    destruct (Z.ltb_spec m 128); destruct (Z.ltb_spec v 0); lia.
  - assert (Hd : digits (Z.abs v) = p ++ [magnitude m]).
    { rewrite Habs. apply digits_unique; [| |now rewrite last_last|].
      - apply bytes_ok_app. split; [assumption|]. constructor; [|constructor].
        unfold magnitude, byte_ok in *. destruct (Z.ltb_spec m 128); lia.
      - now destruct p.
      - rewrite length_app. cbn [length]. unfold size in *. lia. }
    assert (v <> 0).
    { intros ->. rewrite le_value_snoc in Habs. unfold magnitude, byte_ok in *.
      destruct (Z.ltb_spec m 128); nia. }
    rewrite serialize_value by lia. cbv zeta. rewrite Hd, last_last, removelast_last.
    unfold magnitude, byte_ok in *.
    destruct (Z.ltb_spec m 128); destruct (Z.ltb_spec v 0); try lia;
      match goal with |- context [?a >=? 128] => destruct (Z.geb_spec a 128) end; try lia;
      try reflexivity. do 2 f_equal. lia.
Qed.

(** * Parsing *)

Lemma firstn_skipn_eq {A} n (l : list A) : l = firstn n l ++ skipn n l.
Proof. symmetry. apply firstn_skipn. Qed.

(** [GetOp2] consumes at least the opcode, and what is left is a suffix. *)
Lemma GetOp2_suffix pc op data pc' :
  GetOp2 pc = Some (op, data, pc') ->
  exists pre, pc = op :: pre ++ pc' /\ (op > OP_PUSHDATA4 -> pre = [] /\ data = []).
Proof.
  unfold GetOp2. destruct pc as [|c pc]; [discriminate|].
  destruct (Z.leb_spec c OP_PUSHDATA4) as [Hc|Hc].
  2: { intros [= <- <- <-]. now exists []. }
  intros ([n r] & Hn & H)%obind_Some.
  destruct (u32 (size r) <? n); [discriminate|]. injection H as <- <- <-.
  assert (Hr : exists p, pc = p ++ r).
  { repeat (case_match_hyp Hn; try discriminate);
      [exists [] | exists [z] | exists (firstn 2 pc); replace r with (skipn 2 pc) by congruence
      | exists (firstn 4 pc); replace r with (skipn 4 pc) by congruence];
      solve [apply firstn_skipn_eq | cbn; congruence]. }
  destruct Hr as [p ->]. exists (p ++ firstn (Z.to_nat n) r).
  rewrite <- app_assoc, firstn_skipn. split; [reflexivity|lia].
Qed.

Lemma GetOp_progress pc op data pc' :
  GetOp pc = Some (op, data, pc') -> (length pc' < length pc)%nat.
Proof.
  intros (pre & -> & _)%GetOp2_suffix. cbn [length]. rewrite length_app. lia.
Qed.

Lemma GetOp2_bytes pc op data pc' :
  bytes_ok pc -> GetOp2 pc = Some (op, data, pc') -> bytes_ok pc' /\ byte_ok op /\ bytes_ok data.
Proof.
  intros Hb H. pose proof H as (pre & E & _)%GetOp2_suffix. rewrite E in Hb.
  apply Forall_cons_iff in Hb as [Hop Hb]. apply bytes_ok_app in Hb as [Hpre Hpc].
  split; [assumption|]. split; [assumption|].
  unfold GetOp2 in H. rewrite E in H.
  destruct (op <=? OP_PUSHDATA4); [|injection H as <- _; constructor].
  apply obind_Some in H as ([n r] & Hn & H).
  destruct (u32 (size r) <? n); [discriminate|]. injection H as <- _.
  assert (Hr : bytes_ok r).
  { assert (Hall : bytes_ok (pre ++ pc')) by now apply bytes_ok_app.
    assert (Hsk : forall k, bytes_ok (skipn k (pre ++ pc'))).
    { intros k. rewrite (firstn_skipn_eq k) in Hall. now apply bytes_ok_app in Hall as [_ ?]. }
    repeat (case_match_hyp Hn; try discriminate);
      [replace r with (skipn 0 (pre ++ pc')) by (cbn; congruence)
      |replace r with (skipn 1 (z :: l)) by (cbn; congruence)
      |replace r with (skipn 2 (pre ++ pc')) by congruence
      |replace r with (skipn 4 (pre ++ pc')) by congruence]; apply Hsk. }
  rewrite (firstn_skipn_eq (Z.to_nat n)) in Hr. now apply bytes_ok_app in Hr as [? _].
Qed.

(** * Pushing and parsing back *)

Definition push_opcode_of (b : list Z) : Z :=
  if size b <? OP_PUSHDATA1 then size b
  else if size b <=? 0xff then OP_PUSHDATA1
  else if size b <=? 0xffff then OP_PUSHDATA2
  else OP_PUSHDATA4.

(** The tail of [GetOp2]: an operand of the announced size is taken whole. *)
Lemma take_operand {T} (k : list Z -> list Z -> T) b rest :
  size (b ++ rest) < 2 ^ 32 ->
  (if u32 (size (b ++ rest)) <? size b then None
   else Some (k (firstn (Z.to_nat (size b)) (b ++ rest)) (skipn (Z.to_nat (size b)) (b ++ rest))))
  = Some (k b rest).
Proof.
  intros Hs. pose proof (size_nonneg (b ++ rest)). pose proof (size_nonneg rest).
  rewrite u32_small by lia. rewrite size_app in *.
  destruct (Z.ltb_spec (size b + size rest) (size b)); [lia|].
  unfold size. rewrite Nat2Z.id.
  now rewrite firstn_app, skipn_app, Nat.sub_diag, firstn_all, skipn_all, app_nil_r.
Qed.

Lemma GetOp_push_data b rest :
  size (b ++ rest) < 2 ^ 32 ->
  GetOp (push_data [] b ++ rest) = Some (push_opcode_of b, b, rest).
Proof.
  intros Hs. pose proof (size_nonneg b) as Hb0. pose proof (size_nonneg rest) as Hr0.
  pose proof Hs as Hs'. rewrite size_app in Hs'.
  unfold GetOp, push_data, push_opcode_of. cbn [app].
  destruct (Z.ltb_spec (size b) OP_PUSHDATA1) as [H1|H1];
    [|destruct (Z.leb_spec (size b) 0xff) as [H2|H2];
      [|destruct (Z.leb_spec (size b) 0xffff) as [H3|H3]]]; unfold OP_PUSHDATA1 in H1.
  - rewrite u8_small by lia. cbn [app]. unfold GetOp2.
    destruct (Z.leb_spec (size b) OP_PUSHDATA4); [|unfold OP_PUSHDATA4 in *; lia].
    destruct (Z.ltb_spec (size b) OP_PUSHDATA1); [|unfold OP_PUSHDATA1 in *; lia].
    cbn [obind]. now apply (take_operand (fun d r => (size b, d, r))).
  - rewrite u8_small by lia. cbn [app]. cbn [GetOp2 Z.leb Z.ltb Z.eqb Z.compare obind].
    now apply (take_operand (fun d r => (OP_PUSHDATA1, d, r))).
  - assert (E2 : (size ((WriteLE16 (u16 (size b)) ++ b) ++ rest) <? 2) = false).
    { apply Z.ltb_ge. rewrite !size_app. change (size (WriteLE16 (u16 (size b)))) with 2. lia. }
    cbn [app]. unfold GetOp2.
    change (OP_PUSHDATA2 <=? OP_PUSHDATA4) with true. change (OP_PUSHDATA2 <? OP_PUSHDATA1) with false.
    change (OP_PUSHDATA2 =? OP_PUSHDATA1) with false. change (OP_PUSHDATA2 =? OP_PUSHDATA2) with true.
    cbv iota. rewrite E2, <- app_assoc. cbn [obind].
    assert (ER : ReadLE16 (WriteLE16 (u16 (size b)) ++ b ++ rest) = size b).
    { unfold ReadLE16, WriteLE16. rewrite firstn_app, firstn_all2 by reflexivity.
      rewrite length_le_bytes, Nat.sub_diag, app_nil_r, le_value_bytes.
      unfold u16. rewrite Z.mod_mod, Z.mod_small by lia. reflexivity. }
    rewrite ER. change (skipn 2 (WriteLE16 (u16 (size b)) ++ b ++ rest)) with (b ++ rest).
    now apply (take_operand (fun d r => (OP_PUSHDATA2, d, r))).
  - assert (E4 : (size ((WriteLE32 (u32 (size b)) ++ b) ++ rest) <? 4) = false).
    { apply Z.ltb_ge. rewrite !size_app. change (size (WriteLE32 (u32 (size b)))) with 4. lia. }
    cbn [app]. unfold GetOp2.
    change (OP_PUSHDATA4 <=? OP_PUSHDATA4) with true. change (OP_PUSHDATA4 <? OP_PUSHDATA1) with false.
    change (OP_PUSHDATA4 =? OP_PUSHDATA1) with false. change (OP_PUSHDATA4 =? OP_PUSHDATA2) with false.
    cbv iota. rewrite E4, <- app_assoc. cbn [obind].
    assert (ER : ReadLE32 (WriteLE32 (u32 (size b)) ++ b ++ rest) = size b).
    { unfold ReadLE32, WriteLE32. rewrite firstn_app, firstn_all2 by reflexivity.
      rewrite length_le_bytes, Nat.sub_diag, app_nil_r, le_value_bytes.
      unfold u32. rewrite Z.mod_mod, Z.mod_small by lia. reflexivity. }
    rewrite ER. change (skipn 4 (WriteLE32 (u32 (size b)) ++ b ++ rest)) with (b ++ rest).
    now apply (take_operand (fun d r => (OP_PUSHDATA4, d, r))).
Qed.

(** * Counting signature operations *)

Lemma DecodeOP_N_range op : OP_1 <= op <= OP_16 -> exists k, DecodeOP_N op = Some k /\ 1 <= k <= 16.
Proof.
  unfold OP_1, OP_16. intros H. exists (op - (OP_1 - 1)). unfold DecodeOP_N.
  destruct (Z.eqb_spec op OP_0) as [->|]; [unfold OP_0 in *; lia|].
  destruct (Z.geb_spec op OP_1); [|unfold OP_1 in *; lia].
  destruct (Z.leb_spec op OP_16); [|unfold OP_16 in *; lia].
  split; [reflexivity|]. unfold OP_1. lia.
Qed.

(** What one opcode adds to the count. *)
Definition sigops_of (fAccurate : bool) (lastOpcode opcode : Z) : Z :=
  if (opcode =? OP_CHECKSIG) || (opcode =? OP_CHECKSIGVERIFY) then 1
  else if (opcode =? OP_CHECKMULTISIG) || (opcode =? OP_CHECKMULTISIGVERIFY) then
    if fAccurate && (lastOpcode >=? OP_1) && (lastOpcode <=? OP_16)
    then lastOpcode - (OP_1 - 1) else MAX_PUBKEYS_PER_MULTISIG
  else 0.

Lemma sigops_of_range b l o : 0 <= sigops_of b l o <= 20.
Proof.
  unfold sigops_of, MAX_PUBKEYS_PER_MULTISIG, OP_1, OP_16.
  repeat (case_match_goal; breflect); lia.
Qed.
Lemma sigops_of_accurate l o : sigops_of true l o <= sigops_of false l o.
Proof.
  unfold sigops_of, MAX_PUBKEYS_PER_MULTISIG, OP_1, OP_16. cbn [andb].
  repeat (case_match_goal; breflect); lia.
Qed.

Lemma sigop_loop_step f fAccurate x pc lastOpcode n opcode data pc' :
  GetOp (x :: pc) = Some (opcode, data, pc') ->
  0 <= n -> n + 20 < 2 ^ 32 ->
  sigop_loop (S f) fAccurate (x :: pc) lastOpcode n =
    sigop_loop f fAccurate pc' opcode (n + sigops_of fAccurate lastOpcode opcode).
Proof.
  intros E Hn H32. cbn [sigop_loop]. rewrite E. unfold sigops_of, DecodeOP_N.
  repeat (case_match_goal; breflect); cbn [obind];
    try (unfold OP_1, OP_0, OP_16 in *; lia);
    rewrite ?u32_small by (unfold MAX_PUBKEYS_PER_MULTISIG, OP_1, OP_16 in *; lia);
    rewrite ?Z.add_0_r; reflexivity.
Qed.

(** The two counts of one script, side by side. *)
Lemma sigop_loops fuel : forall pc lastOpcode na ni,
  (length pc <= fuel)%nat -> 0 <= na <= ni -> ni + 20 * size pc < 2 ^ 32 ->
  exists ra ri, sigop_loop fuel true pc lastOpcode na = Some ra /\
    sigop_loop fuel false pc lastOpcode ni = Some ri /\
    na <= ra /\ ra <= ri /\ ri <= ni + 20 * size pc.
Proof.
  induction fuel as [|f IH]; intros [|x pc] lastOpcode na ni Hf Hn Hb;
    try (exists na, ni; cbn; repeat split; try lia; fail).
  { cbn in Hf. lia. }
  rewrite size_cons in *. pose proof (size_nonneg pc).
  destruct (GetOp (x :: pc)) as [[[op d] pc']|] eqn:E.
  - rewrite !(sigop_loop_step _ _ _ _ _ _ _ _ _ E) by lia.
    pose proof (GetOp_progress _ _ _ _ E) as Hp. cbn [length] in Hp, Hf.
    assert (Hsz : size pc' <= size pc) by (unfold size; lia).
    pose proof (sigops_of_range true lastOpcode op). pose proof (sigops_of_range false lastOpcode op).
    pose proof (sigops_of_accurate lastOpcode op).
    destruct (IH pc' op (na + sigops_of true lastOpcode op) (ni + sigops_of false lastOpcode op))
      as (ra & ri & -> & -> & ?); [lia..|].
    exists ra, ri. repeat split; lia.
  - cbn [sigop_loop]. rewrite E. exists na, ni. repeat split; lia.
Qed.

Lemma last_push_loop_total fuel : forall pc data, (length pc <= fuel)%nat ->
  exists r, last_push_loop fuel pc data = Some r.
Proof.
  induction fuel as [|f IH]; intros [|x pc] data Hf; try (eexists; reflexivity).
  { cbn in Hf. lia. }
  cbn [last_push_loop]. destruct (GetOp (x :: pc)) as [[[op d] pc']|] eqn:E; [|now exists None].
  pose proof (GetOp_progress _ _ _ _ E) as Hp. cbn [length] in Hp, Hf.
  destruct (op >? OP_16); [now exists None|]. apply IH. lia.
Qed.

Lemma push_only_loop_total fuel : forall pc, (length pc <= fuel)%nat ->
  exists b, push_only_loop fuel pc = Some b.
Proof.
  induction fuel as [|f IH]; intros [|x pc] Hf; try (eexists; reflexivity).
  { cbn in Hf. lia. }
  cbn [push_only_loop]. destruct (GetOp (x :: pc)) as [[[op d] pc']|] eqn:E; [|now exists false].
  pose proof (GetOp_progress _ _ _ _ E) as Hp. cbn [length] in Hp, Hf.
  destruct (op >? OP_16); [now exists false|]. apply IH. lia.
Qed.

Lemma IsPushOnly_total s : exists b, IsPushOnly s = Some b.
Proof. now apply push_only_loop_total. Qed.

(** * Templates *)

Lemma list_split_at {A} n (l : list A) d : (n < length l)%nat ->
  l = firstn n l ++ nth n l d :: skipn (S n) l.
Proof.
  revert l; induction n as [|n IH]; intros [|x l] H; cbn in H; try lia; [reflexivity|].
  change (x :: l = x :: (firstn n l ++ nth n l d :: skipn (S n) l)). f_equal. apply IH. lia.
Qed.

Lemma IsPayToScriptHash_iff s : IsPayToScriptHash s = true <->
  exists h, length h = 20%nat /\ s = OP_HASH160 :: 0x14 :: h ++ [OP_EQUAL].
Proof.
  unfold IsPayToScriptHash. split.
  - intros H. breflect. destruct s as [|a [|b s]]; try discriminate.
    rewrite !size_cons in H. cbn [nth] in *. subst a b. exists (firstn 20 s).
    unfold size in H. split; [rewrite length_firstn; lia|]. do 2 f_equal.
    rewrite (list_split_at 20 s 0) at 1 by lia. f_equal.
    assert (length (skipn 21 s) = 0%nat) as E by (rewrite length_skipn; lia).
    destruct (skipn 21 s); [|discriminate]. congruence.
  - intros (h & Hh & ->). do 20 (destruct h as [|? h]; [discriminate|]).
    destruct h; [reflexivity|discriminate].
Qed.

Lemma IsPayToPublicKeyHash_iff s : IsPayToPublicKeyHash s = true <->
  exists h, length h = 20%nat /\
    s = OP_DUP :: OP_HASH160 :: 0x14 :: h ++ [OP_EQUALVERIFY; OP_CHECKSIG].
Proof.
  unfold IsPayToPublicKeyHash. split.
  - intros H. breflect. destruct s as [|a [|b [|c s]]]; try discriminate.
    rewrite !size_cons in H. cbn [nth] in *. subst a b c. exists (firstn 20 s).
    unfold size in H. split; [rewrite length_firstn; lia|]. do 3 f_equal.
    rewrite (list_split_at 20 s 0) at 1 by lia. f_equal.
    assert (length (skipn 22 s) = 0%nat) as E by (rewrite length_skipn; lia).
    rewrite (list_split_at 0 (skipn 21 s) 0) by (rewrite length_skipn; lia).
    rewrite skipn_skipn, nth_skipn. cbn [firstn app Nat.add] in *.
    destruct (skipn 22 s); [|discriminate]. congruence.
  - intros (h & Hh & ->). do 20 (destruct h as [|? h]; [discriminate|]).
    destruct h; [reflexivity|discriminate].
Qed.

(** * FindAndDelete

    The specification: scan the script one instruction at a time; at every
    instruction boundary drop the copies of [b] found there, keep the
    instruction otherwise; from the first malformed instruction on keep
    everything. *)
Inductive deletes (b : CScript) : CScript -> CScript -> Z -> Prop :=
| deletes_copy rest out n :
    deletes b rest out n -> deletes b (b ++ rest) out (n + 1)
| deletes_keep pc op data pc' pre out n :
    (forall rest, pc <> b ++ rest) ->
    GetOp pc = Some (op, data, pc') -> pc = pre ++ pc' ->
    deletes b pc' out n -> deletes b pc (pre ++ out) n
| deletes_end pc :
    (forall rest, pc <> b ++ rest) -> GetOp pc = None -> deletes b pc pc 0.

Lemma list_eqb_eq a b : list_eqb a b = true <-> a = b.
Proof.
  revert b; induction a as [|x a IH]; intros [|y b]; cbn; try (split; congruence).
  rewrite andb_true_iff, Z.eqb_eq, IH. split; [intros [-> ->]; reflexivity|intros [= -> ->]; auto].
Qed.

(** [k] copies of [b] in front of what does not start with [b]. *)
Fixpoint copies (k : nat) (b rest : CScript) : CScript :=
  match k with O => rest | S k => b ++ copies k b rest end.

Lemma prefix_test b pc :
  (size pc >=? size b) && list_eqb b (firstn (length b) pc) = true <-> exists rest, pc = b ++ rest.
Proof.
  rewrite andb_true_iff, list_eqb_eq, Z.geb_le. split.
  - intros [_ E]. exists (skipn (length b) pc). now rewrite E at 1; rewrite firstn_skipn.
  - intros [rest ->]. rewrite firstn_app, Nat.sub_diag, firstn_all, app_nil_r.
    split; [rewrite size_app; pose proof (size_nonneg rest); lia|reflexivity].
Qed.

Lemma skip_copies_spec b : b <> [] -> forall fuel pc nFound, (length pc <= fuel)%nat ->
  exists k rest, pc = copies k b rest /\ (forall r, rest <> b ++ r) /\
    skip_copies fuel b pc nFound = (rest, nFound + Z.of_nat k).
Proof.
  intros Hb. induction fuel as [|f IH]; intros pc nFound Hf.
  - destruct pc; [|cbn in Hf; lia]. exists 0%nat, []. cbn. rewrite Z.add_0_r.
    repeat split. intros r E. destruct b; [easy|discriminate].
  - cbn [skip_copies]. destruct (_ && _) eqn:E.
    + apply prefix_test in E as [rest ->].
      assert (Hs : skipn (length b) (b ++ rest) = rest)
        by now rewrite skipn_app, Nat.sub_diag, skipn_all.
      rewrite Hs. destruct (IH rest (nFound + 1)) as (k & r & -> & Hr & ->).
      { rewrite length_app in Hf. destruct b; [easy|]. cbn in Hf. lia. }
      exists (S k), r. repeat split; auto. f_equal. lia.
    + exists 0%nat, pc. cbn. rewrite Z.add_0_r. repeat split.
      intros r ->. enough (true = false) by discriminate. rewrite <- E. symmetry.
      apply prefix_test. now exists r.
Qed.

Lemma deletes_copies b k rest out n :
  deletes b rest out n -> deletes b (copies k b rest) out (n + Z.of_nat k).
Proof.
  intros H. induction k as [|k IH]; cbn [copies]; [now rewrite Z.add_0_r|].
  replace (n + Z.of_nat (S k)) with (n + Z.of_nat k + 1) by lia. now constructor.
Qed.

Lemma between_app pre pc : between (pre ++ pc) pc = pre.
Proof.
  unfold between. rewrite length_app, Nat.add_sub, firstn_app, Nat.sub_diag, firstn_all.
  cbn [firstn]. apply app_nil_r.
Qed.

Lemma find_and_delete_loop_spec b : b <> [] -> forall fuel pc pre result nFound,
  (length pc < fuel)%nat ->
  exists mid pc2 n, find_and_delete_loop fuel b (pre ++ pc) pc result nFound
      = Some (result ++ pre ++ mid, pc2, nFound + n) /\
    deletes b pc (mid ++ pc2) n /\ 0 <= n.
Proof.
  intros Hb. induction fuel as [|f IH]; intros pc pre result nFound Hf; [lia|].
  cbn [find_and_delete_loop]. rewrite between_app.
  destruct (skip_copies_spec b Hb (length pc) pc nFound (le_n _)) as (k & rest & Epc & Hr & ->).
  assert (Hlen : (length rest <= length pc)%nat).
  { rewrite Epc. clear. induction k; cbn [copies]; [lia|]. rewrite length_app. lia. }
  destruct (GetOp rest) as [[[op d] pc']|] eqn:E.
  - pose proof (GetOp_progress _ _ _ _ E) as Hp.
    pose proof E as (pre' & Erest & _)%GetOp2_suffix.
    destruct (IH pc' (op :: pre') (result ++ pre) (nFound + Z.of_nat k)) as (mid & pc2 & n & H & Hd & Hn);
      [lia|].
    cbn [app] in H. rewrite <- Erest in H.
    exists (op :: pre' ++ mid), pc2, (n + Z.of_nat k).
    rewrite H, <- app_assoc. split; [do 2 f_equal; lia|]. split; [|lia].
    rewrite Epc. apply deletes_copies. rewrite Erest.
    change ((op :: pre' ++ mid) ++ pc2) with ((op :: (pre' ++ mid)) ++ pc2).
    cbn [app]. rewrite <- app_assoc.
    apply (deletes_keep b (op :: pre' ++ pc') op d pc' (op :: pre')); auto;
      rewrite <- Erest; auto.
  - exists [], rest, (Z.of_nat k). rewrite app_nil_r. split; [reflexivity|]. split; [|lia].
    rewrite Epc. cbn [app]. apply (deletes_copies b k rest rest 0). now constructor.
Qed.

Lemma deletes_none b pc out n : deletes b pc out n -> 0 <= n /\ (n = 0 -> out = pc).
Proof.
  induction 1 as [rest out n _ [IH1 IH2]|pc op d pc' pre out n _ _ -> _ [IH1 IH2]|]; split; try lia;
    try easy.
  intros ->. now rewrite IH2.
Qed.

Lemma deletes_functional b pc out n : deletes b pc out n ->
  forall out' n', deletes b pc out' n' -> out' = out /\ n' = n.
Proof.
  induction 1 as [rest out n _ IH|pc op d pc' pre out n Hp HG Epc _ IH|pc Hp HG]; intros out' n' H';
    inversion H' as [rest' o' m' Hd Epc'|pc2 op2 d2 pc2' pre2 o' m' Hp' HG' Epc' Hd|pc2 Hp' HG']; subst;
    try congruence.
  - apply app_inv_head in Epc' as ->. apply IH in Hd as [-> ->]. auto.
  - assert (pc2' = pc') as -> by congruence. apply IH in Hd as [-> ->].
    apply app_inv_tail in Epc' as ->. auto.
  - auto.
Qed.

Lemma FindAndDelete_deletes script b :
  b <> [] -> exists out n, FindAndDelete script b = Some (out, n) /\ deletes b script out n.
Proof.
  intros Hb. unfold FindAndDelete. destruct b as [|x b'] eqn:Eb; [easy|]. rewrite <- Eb in *.
  destruct (find_and_delete_loop_spec b Hb (S (length script)) script [] [] 0)
    as (mid & pc2 & n & H & Hd & Hn); [lia|].
  cbn [app] in H. rewrite H. cbn [obind Z.add].
  destruct (Z.gtb_spec n 0).
  - now exists (mid ++ pc2), n.
  - apply deletes_none in Hd as Hz. assert (n = 0) as -> by lia.
    rewrite (proj2 Hz eq_refl) in Hd. now exists script, 0.
Qed.

(** [FindAndDelete] terminates and deletes exactly the copies of [b] that
    stand at an instruction boundary, as the specification [deletes] says (which
    determines the result), and returns their number; the loop over iterators and the range insertions lose
    no byte of the rest. *)
Theorem FindAndDelete_spec script b :
  b <> [] -> exists out n, FindAndDelete script b = Some (out, n) /\ deletes b script out n /\
    (forall out' n', deletes b script out' n' -> out' = out /\ n' = n).
Proof.
  intros Hb. destruct (FindAndDelete_deletes script b Hb) as (out & n & HF & HD).
  exists out, n. split; [assumption|]. split; [assumption|].
  exact (deletes_functional b script out n HD).
Qed.
Lemma FindAndDelete_spec_witness :
  exists out n, FindAndDelete [OP_0; OP_CHECKSIG; 2; OP_0; OP_CHECKSIG; OP_0; OP_CHECKSIG] [OP_0; OP_CHECKSIG]
    = Some (out, n) /\
  deletes [OP_0; OP_CHECKSIG] [OP_0; OP_CHECKSIG; 2; OP_0; OP_CHECKSIG; OP_0; OP_CHECKSIG] out n.
Proof.
  destruct (FindAndDelete_spec [OP_0; OP_CHECKSIG; 2; OP_0; OP_CHECKSIG; OP_0; OP_CHECKSIG] [OP_0; OP_CHECKSIG])
    as (out & n & HF & HD & _); [discriminate|]. now exists out, n.
Defined.

(** A script number that fits the size limit survives serialization, and with
    the minimality check on the decoder accepts only that serialization; every
    decoded number is in the range of the limit. *)
Theorem CScriptNum_roundtrip nMaxNumSize :
  1 <= nMaxNumSize <= 7 ->
  (forall v fRequireMinimal, Z.abs v < 2 ^ (8 * nMaxNumSize - 1) ->
     ScriptNum.CScriptNum (ScriptNum.serialize v) fRequireMinimal nMaxNumSize = Some v) /\
  (forall vch v, bytes_ok vch ->
     ScriptNum.CScriptNum vch true nMaxNumSize = Some v -> vch = ScriptNum.serialize v) /\
  (forall vch v fRequireMinimal, bytes_ok vch ->
     ScriptNum.CScriptNum vch fRequireMinimal nMaxNumSize = Some v ->
     Z.abs v < 2 ^ (8 * nMaxNumSize - 1)).
Proof.
  intros Hm. split; [|split].
  - intros v b Hv. now apply CScriptNum_serialize.
  - intros vch v Hb H. symmetry. now apply (CScriptNum_minimal vch nMaxNumSize).
  - intros vch v b Hb H. now apply (CScriptNum_range vch b).
Qed.
Lemma CScriptNum_roundtrip_witness :
  ScriptNum.CScriptNum (ScriptNum.serialize (-255)) true 4 = Some (-255) /\
  ScriptNum.serialize (-255) = [255; 128].
Proof.
  split; [|reflexivity].
  apply (proj1 (CScriptNum_roundtrip 4 ltac:(lia)) (-255) true). reflexivity.
Defined.

(** Parsing the push of a byte vector gives the vector back and stops right
    behind it, with the shortest of the four push forms; and pushing a number
    yields one instruction that denotes it: [OP_1NEGATE], [OP_1] to [OP_16], [OP_0]
    or a push of its serialization. *)
Theorem push_GetOp_roundtrip rest :
  (forall b, size (b ++ rest) < 2 ^ 32 ->
     GetOp (push_data [] b ++ rest) = Some (push_opcode_of b, b, rest)) /\
  (forall n, - 2 ^ 63 < n < 2 ^ 63 -> size rest + 9 < 2 ^ 32 ->
     exists op data, GetOp (push_int64 [] n ++ rest) = Some (op, data, rest) /\
       (data = ScriptNum.serialize n \/ (data = [] /\ op = n + (OP_1 - 1) /\ (n = -1 \/ 1 <= n <= 16)))).
Proof.
  split; [intros b Hb; now apply GetOp_push_data|].
  intros n Hn Hr. unfold push_int64.
  destruct ((n =? -1) || _) eqn:E.
  - assert (Hc : n = -1 \/ 1 <= n <= 16).
    { apply orb_true_iff in E as [E|E]; breflect; lia. }
    assert (Ho : u8 (n + (OP_1 - 1)) = n + (OP_1 - 1)) by (apply u8_small; unfold OP_1; lia).
    rewrite Ho. exists (n + (OP_1 - 1)), []. split; [|now right].
    cbn [app]. unfold GetOp, GetOp2.
    destruct (Z.leb_spec (n + (OP_1 - 1)) OP_PUSHDATA4); [|reflexivity].
    unfold OP_1, OP_PUSHDATA4 in *. lia.
  - destruct (Z.eqb_spec n 0) as [->|Hn0].
    + exists 0, []. split; [|now left].
      change (([] ++ [OP_0]) ++ rest) with (push_data [] [] ++ rest).
      rewrite GetOp_push_data by (cbn [app]; lia). reflexivity.
    + exists (push_opcode_of (ScriptNum.serialize n)), (ScriptNum.serialize n).
      split; [|now left]. apply GetOp_push_data.
      assert (Hlen : size (ScriptNum.serialize n) <= 9).
      { rewrite serialize_value by lia. cbv zeta. unfold digits.
        destruct (serialize_loop_value 8 (Z.abs n) []) as (l & -> & _ & _ & _ & Hl); [lia|].
        cbn [app]. assert (length (removelast l) <= length l)%nat.
        { destruct l as [|x l]; [easy|]. rewrite (app_removelast_last 0 (l := x :: l)) at 2 by easy.
          rewrite length_app. lia. }
        unfold size. destruct (last l 0 >=? 128); [|destruct (n <? 0)];
          rewrite ?length_app; cbn [length]; lia. }
      rewrite size_app. lia.
Qed.
Lemma push_GetOp_roundtrip_witness :
  GetOp (push_data [] (repeat 7 300) ++ [OP_DROP]) = Some (OP_PUSHDATA2, repeat 7 300, [OP_DROP]).
Proof. apply (proj1 (push_GetOp_roundtrip [OP_DROP]) (repeat 7 300)). reflexivity. Defined.

(** Counting signature operations always ends without tripping the assertion of
    [DecodeOP_N]; the accurate count never exceeds the legacy count, which is at
    most twenty per byte, so the 32-bit counter does not wrap on scripts below
    200 MB; counting through pay-to-script-hash is bounded by the redeem script
    the same way. *)
Theorem GetSigOpCount_bounds script scriptSig :
  20 * size script < 2 ^ 32 ->
  exists acc legacy, GetSigOpCount script true = Some acc /\
    GetSigOpCount script false = Some legacy /\
    0 <= acc <= legacy /\ legacy <= 20 * size script /\
    (IsPayToScriptHash script = true ->
       (last_push_loop (length scriptSig) scriptSig [] = Some None /\
          GetSigOpCount_P2SH script scriptSig = Some 0) \/
       exists redeem, last_push_loop (length scriptSig) scriptSig [] = Some (Some redeem) /\
          GetSigOpCount_P2SH script scriptSig = GetSigOpCount redeem true) /\
    (IsPayToScriptHash script = false -> GetSigOpCount_P2SH script scriptSig = Some acc).
Proof.
  intros Hs. unfold GetSigOpCount at 1 2.
  destruct (sigop_loops (length script) script OP_INVALIDOPCODE 0 0) as (ra & ri & Ha & Hi & ?); [lia..|].
  exists ra, ri. repeat split; try assumption; try lia.
  - intros HP. unfold GetSigOpCount_P2SH. rewrite HP. cbn [negb].
    destruct (last_push_loop_total (length scriptSig) scriptSig [] (le_n _)) as [[d|] ->]; cbn [obind].
    + right. now exists d.
    + now left.
  - intros HP. unfold GetSigOpCount_P2SH, GetSigOpCount. now rewrite HP.
Qed.
Lemma GetSigOpCount_bounds_witness :
  exists acc legacy, GetSigOpCount [OP_2; OP_CHECKMULTISIG] true = Some acc /\
    GetSigOpCount [OP_2; OP_CHECKMULTISIG] false = Some legacy /\ 0 <= acc <= legacy /\ legacy <= 40.
Proof.
  destruct (GetSigOpCount_bounds [OP_2; OP_CHECKMULTISIG] []) as (a & l & ? & ? & ? & ? & _).
  - reflexivity.
  - exists a, l. split; [assumption|]. split; [assumption|]. split; [assumption|]. cbn in *. lia.
Defined.
