(* ===== verification/Interpreter.v ===== *)
(** The script interpreter (src/script/interpreter.cpp, src/script/interpreter.h,
    src/script/script_error.h): encoding checks, one definition per opcode group,
    the evaluation loop and [VerifyScript].

    The stacks are lists with the top first.  An evaluation step has three
    outcomes: a value, a script error ([set_error], or [SCRIPT_ERR_UNKNOWN_ERROR]
    for an exception caught by the loop's handler), or [Abort], a failed
    assertion; running out of fuel is an [Abort] too.  Both are proved never to
    happen. *)
From Stdlib Require Import ZArith Lia List Bool.
From S2P Require Import Prelude Serialize Script.
Import ListNotations.
Local Open Scope Z_scope.

Inductive ScriptError :=
| SCRIPT_ERR_OK
| SCRIPT_ERR_UNKNOWN_ERROR
| SCRIPT_ERR_EVAL_FALSE
| SCRIPT_ERR_OP_RETURN
| SCRIPT_ERR_SCRIPT_SIZE
| SCRIPT_ERR_PUSH_SIZE
| SCRIPT_ERR_OP_COUNT
| SCRIPT_ERR_STACK_SIZE
| SCRIPT_ERR_SIG_COUNT
| SCRIPT_ERR_PUBKEY_COUNT
| SCRIPT_ERR_VERIFY
| SCRIPT_ERR_EQUALVERIFY
| SCRIPT_ERR_CHECKCOLDSTAKEVERIFY
| SCRIPT_ERR_CHECKMULTISIGVERIFY
| SCRIPT_ERR_CHECKSIGVERIFY
| SCRIPT_ERR_NUMEQUALVERIFY
| SCRIPT_ERR_BAD_OPCODE
| SCRIPT_ERR_DISABLED_OPCODE
| SCRIPT_ERR_INVALID_STACK_OPERATION
| SCRIPT_ERR_INVALID_ALTSTACK_OPERATION
| SCRIPT_ERR_UNBALANCED_CONDITIONAL
| SCRIPT_ERR_NEGATIVE_LOCKTIME
| SCRIPT_ERR_UNSATISFIED_LOCKTIME
| SCRIPT_ERR_SIG_HASHTYPE
| SCRIPT_ERR_SIG_DER
| SCRIPT_ERR_MINIMALDATA
| SCRIPT_ERR_SIG_PUSHONLY
| SCRIPT_ERR_SIG_HIGH_S
| SCRIPT_ERR_SIG_NULLDUMMY
| SCRIPT_ERR_PUBKEYTYPE
| SCRIPT_ERR_DISCOURAGE_UPGRADABLE_NOPS
| SCRIPT_ERR_ERROR_COUNT.

(** * Outcomes *)

Inductive result (A : Type) :=
| Ok (x : A)
| Err (e : ScriptError)
| Abort.
Arguments Ok {A} x.
Arguments Err {A} e.
Arguments Abort {A}.

Definition rbind {A B} (m : result A) (k : A -> result B) : result B :=
  match m with Ok x => k x | Err e => Err e | Abort => Abort end.
Notation "x <~ m ;; k" := (rbind m (fun x => k))
  (at level 100, m at next level, right associativity) : passion_scope.
Notation "' p <~ m ;; k" := (rbind m (fun x => match x with p => k end))
  (at level 100, p pattern, m at next level, right associativity) : passion_scope.

(** An exception thrown inside the loop ends in the [catch (...)] clause. *)
Definition or_throw {A} (m : option A) : result A :=
  match m with Some x => Ok x | None => Err SCRIPT_ERR_UNKNOWN_ERROR end.
(** A failed assertion. *)
Definition or_abort {A} (m : option A) : result A :=
  match m with Some x => Ok x | None => Abort end.
Definition check (b : bool) (e : ScriptError) : result unit :=
  if b then Ok tt else Err e.

(** * Flags *)

Definition SIGHASH_ALL : Z := 1.
Definition SIGHASH_NONE : Z := 2.
Definition SIGHASH_SINGLE : Z := 3.
Definition SIGHASH_ANYONECANPAY : Z := 0x80.

Definition SCRIPT_VERIFY_NONE : Z := 0.
Definition SCRIPT_VERIFY_P2SH : Z := Z.shiftl 1 0.
Definition SCRIPT_VERIFY_STRICTENC : Z := Z.shiftl 1 1.
Definition SCRIPT_VERIFY_DERSIG : Z := Z.shiftl 1 2.
Definition SCRIPT_VERIFY_LOW_S : Z := Z.shiftl 1 3.
Definition SCRIPT_VERIFY_NULLDUMMY : Z := Z.shiftl 1 4.
Definition SCRIPT_VERIFY_SIGPUSHONLY : Z := Z.shiftl 1 5.
Definition SCRIPT_VERIFY_MINIMALDATA : Z := Z.shiftl 1 6.
Definition SCRIPT_VERIFY_DISCOURAGE_UPGRADABLE_NOPS : Z := Z.shiftl 1 7.
Definition SCRIPT_VERIFY_CLEANSTACK : Z := Z.shiftl 1 8.
Definition SCRIPT_VERIFY_CHECKLOCKTIMEVERIFY : Z := Z.shiftl 1 9.

(** [(flags & mask) != 0] *)
Definition has_flag (flags mask : Z) : bool := negb (Z.land flags mask =? 0).

(** * What the interpreter takes from other components *)

Definition valtype : Type := list Z.

Inductive SigVersion := SIGVERSION_BASE | SIGVERSION_SAPLING.

(** [class BaseSignatureChecker].  [CheckSig] is [None] when it throws (a
    Sapling transaction signed with the wrong version). *)
Record BaseSignatureChecker := {
  CheckSig : valtype -> valtype -> CScript -> SigVersion -> option bool;
  CheckLockTime : Z -> bool;
  CheckColdStake : CScript -> bool
}.

(** The hash functions of src/crypto and what their digests look like, and
    [CPubKey::CheckLowS] of the elliptic-curve library. *)
Class ScriptCrypto := {
  RIPEMD160 : list Z -> list Z;
  SHA1 : list Z -> list Z;
  SHA256 : list Z -> list Z;
  CheckLowS : list Z -> bool;
  RIPEMD160_digest : forall m, length (RIPEMD160 m) = 20%nat /\ bytes_ok (RIPEMD160 m);
  SHA1_digest : forall m, length (SHA1 m) = 20%nat /\ bytes_ok (SHA1 m);
  SHA256_digest : forall m, length (SHA256 m) = 32%nat /\ bytes_ok (SHA256 m)
}.

Section Interpreter.
Context {crypto : ScriptCrypto}.

(** hash.h: [CHash160] and [CHash256] *)
Definition Hash160 (m : list Z) : list Z := RIPEMD160 (SHA256 m).
Definition Hash256 (m : list Z) : list Z := SHA256 (SHA256 m).

(** * Values and encodings *)

Fixpoint CastToBool (vch : valtype) : bool :=
  match vch with
  | [] => false
  | b :: t =>
      if negb (b =? 0) then
        match t with [] => negb (b =? 0x80) | _ => true end
      else CastToBool t
  end.

Definition IsCompressedOrUncompressedPubKey (vchPubKey : valtype) : bool :=
  if size vchPubKey <? 33 then false
  else if vchPubKey.[0] =? 0x04 then size vchPubKey =? 65
  else if (vchPubKey.[0] =? 0x02) || (vchPubKey.[0] =? 0x03) then size vchPubKey =? 33
  else false.

Definition IsValidSignatureEncoding (sig : valtype) : bool :=
  if size sig <? 9 then false
  else if size sig >? 73 then false
  else if negb (sig.[0] =? 0x30) then false
  else if negb (sig.[1] =? size sig - 3) then false
  else
    let lenR := sig.[3] in
    if 5 + lenR >=? size sig then false
    else
      let lenS := sig.[Z.to_nat (5 + lenR)] in
      if negb (lenR + lenS + 7 =? size sig) then false
      else if negb (sig.[2] =? 0x02) then false
      else if lenR =? 0 then false
      else if negb (Z.land sig.[4] 0x80 =? 0) then false
      else if (lenR >? 1) && (sig.[4] =? 0x00) && (Z.land sig.[5] 0x80 =? 0) then false
      else if negb (sig.[Z.to_nat (lenR + 4)] =? 0x02) then false
      else if lenS =? 0 then false
      else if negb (Z.land sig.[Z.to_nat (lenR + 6)] 0x80 =? 0) then false
      else if (lenS >? 1) && (sig.[Z.to_nat (lenR + 6)] =? 0x00)
              && (Z.land sig.[Z.to_nat (lenR + 7)] 0x80 =? 0) then false
      else true.

Definition IsLowDERSignature (vchSig : valtype) : result unit :=
  if negb (IsValidSignatureEncoding vchSig) then Err SCRIPT_ERR_SIG_DER
  else
    let vchSigCopy := firstn (length vchSig - 1) vchSig in
    if negb (CheckLowS vchSigCopy) then Err SCRIPT_ERR_SIG_HIGH_S else Ok tt.

Definition IsDefinedHashtypeSignature (vchSig : valtype) : bool :=
  if size vchSig =? 0 then false
  else
    let nHashType := u8 (Z.land vchSig.[length vchSig - 1] (Z.lnot SIGHASH_ANYONECANPAY)) in
    negb ((nHashType <? SIGHASH_ALL) || (nHashType >? SIGHASH_SINGLE)).

Definition CheckSignatureEncoding (vchSig : valtype) (flags : Z) : result unit :=
  if size vchSig =? 0 then Ok tt
  else if has_flag flags (Z.lor (Z.lor SCRIPT_VERIFY_DERSIG SCRIPT_VERIFY_LOW_S) SCRIPT_VERIFY_STRICTENC)
          && negb (IsValidSignatureEncoding vchSig) then Err SCRIPT_ERR_SIG_DER
  else
    _ <~ (if has_flag flags SCRIPT_VERIFY_LOW_S then IsLowDERSignature vchSig else Ok tt);;
    check (negb (has_flag flags SCRIPT_VERIFY_STRICTENC && negb (IsDefinedHashtypeSignature vchSig)))
      SCRIPT_ERR_SIG_HASHTYPE.

Definition CheckPubKeyEncoding (vchPubKey : valtype) (flags : Z) : result unit :=
  check (negb (has_flag flags SCRIPT_VERIFY_STRICTENC && negb (IsCompressedOrUncompressedPubKey vchPubKey)))
    SCRIPT_ERR_PUBKEYTYPE.

Definition CheckMinimalPush (data : valtype) (opcode : Z) : bool :=
  if size data =? 0 then opcode =? OP_0
  else if (size data =? 1) && (data.[0] >=? 1) && (data.[0] <=? 16) then opcode =? OP_1 + (data.[0] - 1)
  else if (size data =? 1) && (data.[0] =? 0x81) then opcode =? OP_1NEGATE
  else if size data <=? 75 then opcode =? size data
  else if size data <=? 255 then opcode =? OP_PUSHDATA1
  else if size data <=? 65535 then opcode =? OP_PUSHDATA2
  else true.

(** * Opcodes that only touch the stack *)

Definition Stack : Type := list valtype.
Definition invalid_stack {A} : result A := Err SCRIPT_ERR_INVALID_STACK_OPERATION.

Definition vchFalse : valtype := [].
Definition vchTrue : valtype := [1].
Definition vch_of_bool (b : bool) : valtype := if b then vchTrue else vchFalse.
Definition bn_of_bool (b : bool) : Z := if b then 1 else 0.

(** [CScriptNum(vch, fRequireMinimal)]: an exception when refused. *)
Definition to_num (fRequireMinimal : bool) (vch : valtype) : result Z :=
  or_throw (ScriptNum.CScriptNum vch fRequireMinimal ScriptNum.nDefaultMaxNumSize).

(** [stacktop(-i)], an exception when out of range. *)
Definition stacktop (stack : Stack) (i : Z) : result valtype :=
  or_throw (nth_error stack (Z.to_nat (i - 1))).
(** [popstack], an exception when empty. *)
Definition popstack (stack : Stack) : result Stack :=
  match stack with [] => Err SCRIPT_ERR_UNKNOWN_ERROR | _ :: s => Ok s end.
Fixpoint popstack_n (n : nat) (stack : Stack) : result Stack :=
  match n with
  | O => Ok stack
  | S m => s <~ popstack stack;; popstack_n m s
  end.

(** OP_1NEGATE, OP_1 to OP_16 *)
Definition op_push_small (opcode : Z) (stack : Stack) : result Stack :=
  Ok (ScriptNum.serialize (opcode - (OP_1 - 1)) :: stack).

Definition op_verify (stack : Stack) : result Stack :=
  match stack with
  | vch :: s => if CastToBool vch then Ok s else Err SCRIPT_ERR_VERIFY
  | _ => invalid_stack
  end.

Definition op_2drop (stack : Stack) : result Stack :=
  match stack with _ :: _ :: s => Ok s | _ => invalid_stack end.
Definition op_2dup (stack : Stack) : result Stack :=
  match stack with x2 :: x1 :: s => Ok (x2 :: x1 :: x2 :: x1 :: s) | _ => invalid_stack end.
Definition op_3dup (stack : Stack) : result Stack :=
  match stack with
  | x3 :: x2 :: x1 :: s => Ok (x3 :: x2 :: x1 :: x3 :: x2 :: x1 :: s)
  | _ => invalid_stack
  end.
Definition op_2over (stack : Stack) : result Stack :=
  match stack with
  | x4 :: x3 :: x2 :: x1 :: s => Ok (x2 :: x1 :: x4 :: x3 :: x2 :: x1 :: s)
  | _ => invalid_stack
  end.
Definition op_2rot (stack : Stack) : result Stack :=
  match stack with
  | x6 :: x5 :: x4 :: x3 :: x2 :: x1 :: s => Ok (x2 :: x1 :: x6 :: x5 :: x4 :: x3 :: s)
  | _ => invalid_stack
  end.
Definition op_2swap (stack : Stack) : result Stack :=
  match stack with
  | x4 :: x3 :: x2 :: x1 :: s => Ok (x2 :: x1 :: x4 :: x3 :: s)
  | _ => invalid_stack
  end.
Definition op_ifdup (stack : Stack) : result Stack :=
  match stack with
  | vch :: s => if CastToBool vch then Ok (vch :: vch :: s) else Ok (vch :: s)
  | _ => invalid_stack
  end.
Definition op_depth (stack : Stack) : result Stack :=
  Ok (ScriptNum.serialize (size stack) :: stack).
Definition op_drop (stack : Stack) : result Stack :=
  match stack with _ :: s => Ok s | _ => invalid_stack end.
Definition op_dup (stack : Stack) : result Stack :=
  match stack with vch :: s => Ok (vch :: vch :: s) | _ => invalid_stack end.
Definition op_nip (stack : Stack) : result Stack :=
  match stack with x2 :: _ :: s => Ok (x2 :: s) | _ => invalid_stack end.
Definition op_over (stack : Stack) : result Stack :=
  match stack with x2 :: x1 :: s => Ok (x1 :: x2 :: x1 :: s) | _ => invalid_stack end.

(** OP_PICK and OP_ROLL *)
Definition op_pick_roll (opcode : Z) (fRequireMinimal : bool) (stack : Stack) : result Stack :=
  match stack with
  | [] | [_] => invalid_stack
  | top :: s =>
      n <~ to_num fRequireMinimal top;;
      let n := ScriptNum.getint n in
      if (n <? 0) || (n >=? size s) then invalid_stack
      else
        vch <~ stacktop s (n + 1);;
        let s := if opcode =? OP_ROLL
                 then firstn (Z.to_nat n) s ++ skipn (S (Z.to_nat n)) s else s in
        Ok (vch :: s)
  end.

Definition op_rot (stack : Stack) : result Stack :=
  match stack with x3 :: x2 :: x1 :: s => Ok (x1 :: x3 :: x2 :: s) | _ => invalid_stack end.
Definition op_swap (stack : Stack) : result Stack :=
  match stack with x2 :: x1 :: s => Ok (x1 :: x2 :: s) | _ => invalid_stack end.
Definition op_tuck (stack : Stack) : result Stack :=
  match stack with x2 :: x1 :: s => Ok (x2 :: x1 :: x2 :: s) | _ => invalid_stack end.
Definition op_size (stack : Stack) : result Stack :=
  match stack with
  | vch :: s => Ok (ScriptNum.serialize (size vch) :: vch :: s)
  | _ => invalid_stack
  end.

Definition op_equal (opcode : Z) (stack : Stack) : result Stack :=
  match stack with
  | vch2 :: vch1 :: s =>
      let fEqual := list_eqb vch1 vch2 in
      if opcode =? OP_EQUALVERIFY then
        if fEqual then Ok s else Err SCRIPT_ERR_EQUALVERIFY
      else Ok (vch_of_bool fEqual :: s)
  | _ => invalid_stack
  end.

(** OP_1ADD to OP_0NOTEQUAL *)
Definition op_unary (opcode : Z) (fRequireMinimal : bool) (stack : Stack) : result Stack :=
  match stack with
  | top :: s =>
      bn <~ to_num fRequireMinimal top;;
      bn <~ (if opcode =? OP_1ADD then or_abort (ScriptNum.plus_assign bn 1)
             else if opcode =? OP_1SUB then or_abort (ScriptNum.minus_assign bn 1)
             else if opcode =? OP_NEGATE then or_abort (ScriptNum.negate bn)
             else if opcode =? OP_ABS then
               if bn <? 0 then or_abort (ScriptNum.negate bn) else Ok bn
             else if opcode =? OP_NOT then Ok (bn_of_bool (bn =? 0))
             else if opcode =? OP_0NOTEQUAL then Ok (bn_of_bool (negb (bn =? 0)))
             else Abort);;
      Ok (ScriptNum.serialize bn :: s)
  | _ => invalid_stack
  end.

(** OP_ADD to OP_MAX *)
Definition op_binary (opcode : Z) (fRequireMinimal : bool) (stack : Stack) : result Stack :=
  match stack with
  | top2 :: top1 :: s =>
      bn1 <~ to_num fRequireMinimal top1;;
      bn2 <~ to_num fRequireMinimal top2;;
      bn <~ (if opcode =? OP_ADD then Ok (i64 (bn1 + bn2))
             else if opcode =? OP_SUB then Ok (i64 (bn1 - bn2))
             else if opcode =? OP_BOOLAND then Ok (bn_of_bool (negb (bn1 =? 0) && negb (bn2 =? 0)))
             else if opcode =? OP_BOOLOR then Ok (bn_of_bool (negb (bn1 =? 0) || negb (bn2 =? 0)))
             else if opcode =? OP_NUMEQUAL then Ok (bn_of_bool (bn1 =? bn2))
             else if opcode =? OP_NUMEQUALVERIFY then Ok (bn_of_bool (bn1 =? bn2))
             else if opcode =? OP_NUMNOTEQUAL then Ok (bn_of_bool (negb (bn1 =? bn2)))
             else if opcode =? OP_LESSTHAN then Ok (bn_of_bool (bn1 <? bn2))
             else if opcode =? OP_GREATERTHAN then Ok (bn_of_bool (bn1 >? bn2))
             else if opcode =? OP_LESSTHANOREQUAL then Ok (bn_of_bool (bn1 <=? bn2))
             else if opcode =? OP_GREATERTHANOREQUAL then Ok (bn_of_bool (bn1 >=? bn2))
             else if opcode =? OP_MIN then Ok (if bn1 <? bn2 then bn1 else bn2)
             else if opcode =? OP_MAX then Ok (if bn1 >? bn2 then bn1 else bn2)
             else Abort);;
      let out := ScriptNum.serialize bn in
      if opcode =? OP_NUMEQUALVERIFY then
        if CastToBool out then Ok s else Err SCRIPT_ERR_NUMEQUALVERIFY
      else Ok (out :: s)
  | _ => invalid_stack
  end.

Definition op_within (fRequireMinimal : bool) (stack : Stack) : result Stack :=
  match stack with
  | top3 :: top2 :: top1 :: s =>
      bn1 <~ to_num fRequireMinimal top1;;
      bn2 <~ to_num fRequireMinimal top2;;
      bn3 <~ to_num fRequireMinimal top3;;
      Ok (vch_of_bool ((bn2 <=? bn1) && (bn1 <? bn3)) :: s)
  | _ => invalid_stack
  end.

(** OP_RIPEMD160, OP_SHA1, OP_SHA256, OP_HASH160, OP_HASH256 *)
Definition op_hash (opcode : Z) (stack : Stack) : result Stack :=
  match stack with
  | vch :: s =>
      let vchHash := if opcode =? OP_RIPEMD160 then RIPEMD160 vch
                     else if opcode =? OP_SHA1 then SHA1 vch
                     else if opcode =? OP_SHA256 then SHA256 vch
                     else if opcode =? OP_HASH160 then Hash160 vch
                     else Hash256 vch in
      Ok (vchHash :: s)
  | _ => invalid_stack
  end.

(** * The state of the evaluation loop *)

Record EvalState := {
  stack : Stack;
  altstack : Stack;
  vfExec : list bool;          (* innermost condition first *)
  nOpCount : Z;
  pbegincodehash : CScript     (* the script from the last code separator on *)
}.
Definition with_stack (st : EvalState) (s : Stack) : EvalState :=
  {| stack := s; altstack := altstack st; vfExec := vfExec st;
     nOpCount := nOpCount st; pbegincodehash := pbegincodehash st |}.
Definition with_vfExec (st : EvalState) (v : list bool) : EvalState :=
  {| stack := stack st; altstack := altstack st; vfExec := v;
     nOpCount := nOpCount st; pbegincodehash := pbegincodehash st |}.
Definition with_nOpCount (st : EvalState) (n : Z) : EvalState :=
  {| stack := stack st; altstack := altstack st; vfExec := vfExec st;
     nOpCount := n; pbegincodehash := pbegincodehash st |}.

Section Eval.
Context (script : CScript) (flags : Z) (checker : BaseSignatureChecker) (sigversion : SigVersion).

Definition fRequireMinimal : bool := has_flag flags SCRIPT_VERIFY_MINIMALDATA.

(** ** Control *)

Definition op_checklocktimeverify (stack : Stack) : result Stack :=
  if negb (has_flag flags SCRIPT_VERIFY_CHECKLOCKTIMEVERIFY) then
    if has_flag flags SCRIPT_VERIFY_DISCOURAGE_UPGRADABLE_NOPS
    then Err SCRIPT_ERR_DISCOURAGE_UPGRADABLE_NOPS else Ok stack
  else match stack with
  | [] => invalid_stack
  | top :: _ =>
      nLockTime <~ or_throw (ScriptNum.CScriptNum top fRequireMinimal 5);;
      if nLockTime <? 0 then Err SCRIPT_ERR_NEGATIVE_LOCKTIME
      else if negb (CheckLockTime checker nLockTime) then Err SCRIPT_ERR_UNSATISFIED_LOCKTIME
      else Ok stack
  end.

Definition op_upgradable_nop (stack : Stack) : result Stack :=
  if has_flag flags SCRIPT_VERIFY_DISCOURAGE_UPGRADABLE_NOPS
  then Err SCRIPT_ERR_DISCOURAGE_UPGRADABLE_NOPS else Ok stack.

(** OP_IF and OP_NOTIF *)
Definition op_if (opcode : Z) (fExec : bool) (st : EvalState) : result EvalState :=
  if fExec then
    match stack st with
    | [] => Err SCRIPT_ERR_UNBALANCED_CONDITIONAL
    | vch :: s =>
        let fValue := CastToBool vch in
        let fValue := if opcode =? OP_NOTIF then negb fValue else fValue in
        Ok (with_vfExec (with_stack st s) (fValue :: vfExec st))
    end
  else Ok (with_vfExec st (false :: vfExec st)).

Definition op_else (st : EvalState) : result EvalState :=
  match vfExec st with
  | [] => Err SCRIPT_ERR_UNBALANCED_CONDITIONAL
  | b :: v => Ok (with_vfExec st (negb b :: v))
  end.
Definition op_endif (st : EvalState) : result EvalState :=
  match vfExec st with
  | [] => Err SCRIPT_ERR_UNBALANCED_CONDITIONAL
  | _ :: v => Ok (with_vfExec st v)
  end.

Definition op_toaltstack (st : EvalState) : result EvalState :=
  match stack st with
  | [] => invalid_stack
  | x :: s =>
      Ok {| stack := s; altstack := x :: altstack st; vfExec := vfExec st;
            nOpCount := nOpCount st; pbegincodehash := pbegincodehash st |}
  end.
Definition op_fromaltstack (st : EvalState) : result EvalState :=
  match altstack st with
  | [] => Err SCRIPT_ERR_INVALID_ALTSTACK_OPERATION
  | x :: a =>
      Ok {| stack := x :: stack st; altstack := a; vfExec := vfExec st;
            nOpCount := nOpCount st; pbegincodehash := pbegincodehash st |}
  end.

(** ** Signatures *)

Definition op_codeseparator (pc : CScript) (st : EvalState) : result EvalState :=
  Ok {| stack := stack st; altstack := altstack st; vfExec := vfExec st;
        nOpCount := nOpCount st; pbegincodehash := pc |}.

(** [scriptCode.FindAndDelete(CScript(vchSig))] *)
Definition drop_signature (scriptCode : CScript) (vchSig : valtype) : result CScript :=
  '(s, _) <~ or_abort (FindAndDelete scriptCode (push_data [] vchSig));; Ok s.

Definition op_checksig (opcode : Z) (st : EvalState) : result Stack :=
  match stack st with
  | vchPubKey :: vchSig :: s =>
      scriptCode <~ drop_signature (pbegincodehash st) vchSig;;
      _ <~ CheckSignatureEncoding vchSig flags;;
      _ <~ CheckPubKeyEncoding vchPubKey flags;;
      fSuccess <~ or_throw (CheckSig checker vchSig vchPubKey scriptCode sigversion);;
      if opcode =? OP_CHECKSIGVERIFY then
        if (fSuccess : bool) then Ok s else Err SCRIPT_ERR_CHECKSIGVERIFY
      else Ok (vch_of_bool fSuccess :: s)
  | _ => invalid_stack
  end.

(** [for (k = 0; k < nSigsCount; k++)] with [n] signatures left *)
Fixpoint drop_signatures (n : nat) (k isig : Z) (stack : Stack) (scriptCode : CScript)
  : result CScript :=
  match n with
  | O => Ok scriptCode
  | S m =>
      vchSig <~ stacktop stack (isig + k);;
      scriptCode <~ drop_signature scriptCode vchSig;;
      drop_signatures m (k + 1) isig stack scriptCode
  end.

(** [while (fSuccess && nSigsCount > 0)]: the matching of signatures to keys. *)
Fixpoint multisig_loop (fuel : nat) (stack : Stack) (scriptCode : CScript)
    (isig nSigsCount ikey nKeysCount : Z) (fSuccess : bool) : result bool :=
  if fSuccess && (nSigsCount >? 0) then
    match fuel with
    | O => Abort
    | S f =>
        vchSig <~ stacktop stack isig;;
        vchPubKey <~ stacktop stack ikey;;
        _ <~ CheckSignatureEncoding vchSig flags;;
        _ <~ CheckPubKeyEncoding vchPubKey flags;;
        fOk <~ or_throw (CheckSig checker vchSig vchPubKey scriptCode sigversion);;
        let '(isig, nSigsCount) :=
          if (fOk : bool) then (isig + 1, nSigsCount - 1) else (isig, nSigsCount) in
        let ikey := ikey + 1 in
        let nKeysCount := nKeysCount - 1 in
        multisig_loop f stack scriptCode isig nSigsCount ikey nKeysCount
          (if nSigsCount >? nKeysCount then false else fSuccess)
    end
  else Ok fSuccess.

Definition op_checkmultisig (opcode : Z) (st : EvalState) : result EvalState :=
  let stk := stack st in
  let i := 1 in
  if size stk <? i then invalid_stack
  else
    top <~ stacktop stk i;;
    n <~ to_num fRequireMinimal top;;
    let nKeysCount := ScriptNum.getint n in
    if (nKeysCount <? 0) || (nKeysCount >? MAX_PUBKEYS_PER_MULTISIG) then Err SCRIPT_ERR_PUBKEY_COUNT
    else
      let nOpCount := nOpCount st + nKeysCount in
      if nOpCount >? 201 then Err SCRIPT_ERR_OP_COUNT
      else
        let i := i + 1 in
        let ikey := i in
        let i := i + nKeysCount in
        if size stk <? i then invalid_stack
        else
          top <~ stacktop stk i;;
          n <~ to_num fRequireMinimal top;;
          let nSigsCount := ScriptNum.getint n in
          if (nSigsCount <? 0) || (nSigsCount >? nKeysCount) then Err SCRIPT_ERR_SIG_COUNT
          else
            let i := i + 1 in
            let isig := i in
            let i := i + nSigsCount in
            if size stk <? i then invalid_stack
            else
              scriptCode <~ drop_signatures (Z.to_nat nSigsCount) 0 isig stk (pbegincodehash st);;
              fSuccess <~ multisig_loop (Z.to_nat nKeysCount) stk scriptCode
                            isig nSigsCount ikey nKeysCount true;;
              s <~ popstack_n (Z.to_nat (i - 1)) stk;;
              match s with
              | [] => invalid_stack
              | dummy :: s =>
                  if has_flag flags SCRIPT_VERIFY_NULLDUMMY && negb (size dummy =? 0)
                  then Err SCRIPT_ERR_SIG_NULLDUMMY
                  else
                    if opcode =? OP_CHECKMULTISIGVERIFY then
                      if (fSuccess : bool) then Ok (with_nOpCount (with_stack st s) nOpCount)
                      else Err SCRIPT_ERR_CHECKMULTISIGVERIFY
                    else Ok (with_nOpCount (with_stack st (vch_of_bool fSuccess :: s)) nOpCount)
              end.

Definition op_checkcoldstakeverify (stack : Stack) : result Stack :=
  if negb (CheckColdStake checker script) then Err SCRIPT_ERR_CHECKCOLDSTAKEVERIFY else Ok stack.

(** ** Dispatch *)

Definition is_disabled (opcode : Z) : bool :=
  existsb (Z.eqb opcode)
    [OP_CAT; OP_SUBSTR; OP_LEFT; OP_RIGHT; OP_INVERT; OP_AND; OP_OR; OP_XOR;
     OP_2MUL; OP_2DIV; OP_MUL; OP_DIV; OP_MOD; OP_LSHIFT; OP_RSHIFT].

Definition one_of (opcode : Z) (l : list Z) : bool := existsb (Z.eqb opcode) l.

(** The cases that only use the stack; [None] for the other opcodes. *)
Definition stack_op (opcode : Z) : option (Stack -> result Stack) :=
  if one_of opcode [OP_1NEGATE; OP_1; OP_2; OP_3; OP_4; OP_5; OP_6; OP_7; OP_8; OP_9; OP_10;
                    OP_11; OP_12; OP_13; OP_14; OP_15; OP_16] then Some (op_push_small opcode)
  else if opcode =? OP_NOP then Some (fun s => Ok s)
  else if opcode =? OP_CHECKLOCKTIMEVERIFY then Some op_checklocktimeverify
  else if one_of opcode [OP_NOP1; OP_NOP3; OP_NOP4; OP_NOP5; OP_NOP6; OP_NOP7; OP_NOP8;
                         OP_NOP9; OP_NOP10] then Some op_upgradable_nop
  else if opcode =? OP_VERIFY then Some op_verify
  else if opcode =? OP_RETURN then Some (fun _ => Err SCRIPT_ERR_OP_RETURN)
  else if opcode =? OP_2DROP then Some op_2drop
  else if opcode =? OP_2DUP then Some op_2dup
  else if opcode =? OP_3DUP then Some op_3dup
  else if opcode =? OP_2OVER then Some op_2over
  else if opcode =? OP_2ROT then Some op_2rot
  else if opcode =? OP_2SWAP then Some op_2swap
  else if opcode =? OP_IFDUP then Some op_ifdup
  else if opcode =? OP_DEPTH then Some op_depth
  else if opcode =? OP_DROP then Some op_drop
  else if opcode =? OP_DUP then Some op_dup
  else if opcode =? OP_NIP then Some op_nip
  else if opcode =? OP_OVER then Some op_over
  else if one_of opcode [OP_PICK; OP_ROLL] then Some (op_pick_roll opcode fRequireMinimal)
  else if opcode =? OP_ROT then Some op_rot
  else if opcode =? OP_SWAP then Some op_swap
  else if opcode =? OP_TUCK then Some op_tuck
  else if opcode =? OP_SIZE then Some op_size
  else if one_of opcode [OP_EQUAL; OP_EQUALVERIFY] then Some (op_equal opcode)
  else if one_of opcode [OP_1ADD; OP_1SUB; OP_NEGATE; OP_ABS; OP_NOT; OP_0NOTEQUAL]
       then Some (op_unary opcode fRequireMinimal)
  else if one_of opcode [OP_ADD; OP_SUB; OP_BOOLAND; OP_BOOLOR; OP_NUMEQUAL; OP_NUMEQUALVERIFY;
                         OP_NUMNOTEQUAL; OP_LESSTHAN; OP_GREATERTHAN; OP_LESSTHANOREQUAL;
                         OP_GREATERTHANOREQUAL; OP_MIN; OP_MAX]
       then Some (op_binary opcode fRequireMinimal)
  else if opcode =? OP_WITHIN then Some (op_within fRequireMinimal)
  else if one_of opcode [OP_RIPEMD160; OP_SHA1; OP_SHA256; OP_HASH160; OP_HASH256]
       then Some (op_hash opcode)
  else if opcode =? OP_CHECKCOLDSTAKEVERIFY then Some op_checkcoldstakeverify
  else None.

(** [switch (opcode)]; [pc] is the position behind the instruction. *)
Definition exec_opcode (opcode : Z) (fExec : bool) (pc : CScript) (st : EvalState)
  : result EvalState :=
  match stack_op opcode with
  | Some op => s <~ op (stack st);; Ok (with_stack st s)
  | None =>
      if one_of opcode [OP_IF; OP_NOTIF] then op_if opcode fExec st
      else if opcode =? OP_ELSE then op_else st
      else if opcode =? OP_ENDIF then op_endif st
      else if opcode =? OP_TOALTSTACK then op_toaltstack st
      else if opcode =? OP_FROMALTSTACK then op_fromaltstack st
      else if opcode =? OP_CODESEPARATOR then op_codeseparator pc st
      else if one_of opcode [OP_CHECKSIG; OP_CHECKSIGVERIFY] then
        s <~ op_checksig opcode st;; Ok (with_stack st s)
      else if one_of opcode [OP_CHECKMULTISIG; OP_CHECKMULTISIGVERIFY] then op_checkmultisig opcode st
      else Err SCRIPT_ERR_BAD_OPCODE
  end.

(** The body of the loop: one instruction, the position behind it and the new
    state. *)
Definition eval_step (pc : CScript) (st : EvalState) : result (CScript * EvalState) :=
  let fExec := forallb (fun b => b) (vfExec st) in
  match GetOp pc with
  | None => Err SCRIPT_ERR_BAD_OPCODE
  | Some (opcode, vchPushValue, pc) =>
      if size vchPushValue >? MAX_SCRIPT_ELEMENT_SIZE then Err SCRIPT_ERR_PUSH_SIZE
      else
        let n := if opcode >? OP_16 then nOpCount st + 1 else nOpCount st in
        if (opcode >? OP_16) && (n >? 201) then Err SCRIPT_ERR_OP_COUNT
        else if is_disabled opcode then Err SCRIPT_ERR_DISABLED_OPCODE
        else
          let st := with_nOpCount st n in
          st <~ (if fExec && (0 <=? opcode) && (opcode <=? OP_PUSHDATA4) then
                   if fRequireMinimal && negb (CheckMinimalPush vchPushValue opcode)
                   then Err SCRIPT_ERR_MINIMALDATA
                   else Ok (with_stack st (vchPushValue :: stack st))
                 else if fExec || ((OP_IF <=? opcode) && (opcode <=? OP_ENDIF))
                 then exec_opcode opcode fExec pc st
                 else Ok st);;
          if size (stack st) + size (altstack st) >? 1000 then Err SCRIPT_ERR_STACK_SIZE
          else Ok (pc, st)
  end.

Fixpoint eval_loop (fuel : nat) (pc : CScript) (st : EvalState) : result EvalState :=
  match pc with
  | [] => Ok st
  | _ =>
      match fuel with
      | O => Abort
      | S f => '(pc, st) <~ eval_step pc st;; eval_loop f pc st
      end
  end.

(** The final stack, or the error.  Every instruction takes at least a byte, so
    the size of the script bounds the number of steps. *)
Definition EvalScript (stk : Stack) : result Stack :=
  if size script >? MAX_SCRIPT_SIZE then Err SCRIPT_ERR_SCRIPT_SIZE
  else
    st <~ eval_loop (length script) script
            {| stack := stk; altstack := []; vfExec := []; nOpCount := 0;
               pbegincodehash := script |};;
    match vfExec st with
    | [] => Ok (stack st)
    | _ => Err SCRIPT_ERR_UNBALANCED_CONDITIONAL
    end.
End Eval.

(** * VerifyScript *)

Definition eval_false {A} : result A := Err SCRIPT_ERR_EVAL_FALSE.

(** [stack.empty()] and [CastToBool(stack.back())] *)
Definition check_top (s : Stack) : result unit :=
  match s with
  | [] => eval_false
  | top :: _ => if CastToBool top then Ok tt else eval_false
  end.

Definition VerifyScript (scriptSig scriptPubKey : CScript) (flags : Z)
    (checker : BaseSignatureChecker) (sigversion : SigVersion) : result unit :=
  _ <~ (if has_flag flags SCRIPT_VERIFY_SIGPUSHONLY then
          b <~ or_abort (IsPushOnly scriptSig);; check b SCRIPT_ERR_SIG_PUSHONLY
        else Ok tt);;
  stack1 <~ EvalScript scriptSig flags checker sigversion [];;
  stack2 <~ EvalScript scriptPubKey flags checker sigversion stack1;;
  _ <~ check_top stack2;;
  if has_flag flags SCRIPT_VERIFY_P2SH && IsPayToScriptHash scriptPubKey then
    b <~ or_abort (IsPushOnly scriptSig);;
    _ <~ check b SCRIPT_ERR_SIG_PUSHONLY;;
    match stack1 with
    | [] => Abort
    | pubKeySerialized :: stackCopy =>
        stack3 <~ EvalScript pubKeySerialized flags checker sigversion stackCopy;;
        check_top stack3
    end
  else Ok tt.

End Interpreter.

(** * Elements and outcomes *)

Definition elem_ok (v : valtype) : Prop := bytes_ok v /\ size v <= MAX_SCRIPT_ELEMENT_SIZE.
Definition stack_ok (s : Stack) : Prop := Forall elem_ok s.

(** No assertion fails, and a result satisfies [P]. *)
Definition good {A} (P : A -> Prop) (m : result A) : Prop :=
  match m with Ok x => P x | Err _ => True | Abort => False end.

Lemma good_bind {A B} (P : A -> Prop) (Q : B -> Prop) m (k : A -> result B) :
  good P m -> (forall x, P x -> good Q (k x)) -> good Q (rbind m k).
Proof. destruct m; cbn; auto. Qed.
Lemma good_weaken {A} (P Q : A -> Prop) m : good P m -> (forall x, P x -> Q x) -> good Q m.
Proof. destruct m; cbn; auto. Qed.
Lemma good_or_throw {A} (P : A -> Prop) m : (forall x, m = Some x -> P x) -> good P (or_throw m).
Proof. destruct m; cbn; auto. Qed.
Lemma good_check b e : good (fun _ => True) (check b e).
Proof. now destruct b. Qed.

Lemma serialize_elem n : - 2 ^ 63 < n < 2 ^ 63 -> elem_ok (ScriptNum.serialize n).
Proof.
  intros Hn. unfold elem_ok, MAX_SCRIPT_ELEMENT_SIZE.
  destruct (Z.eq_dec n 0) as [->|H0]; [split; [constructor|cbn; lia]|].
  rewrite serialize_value by lia. cbv zeta.
  destruct (digits_snoc n H0 Hn) as (p & m & E & Hp & Hm & Hm0 & _). 
  assert (Hs : size (digits (Z.abs n)) <= 8).
  { unfold digits. destruct (serialize_loop_value 8 (Z.abs n) []) as (l & -> & _ & _ & _ & Hl); [lia|].
    cbn [app]. unfold size. lia. }
  rewrite E in *. rewrite last_last, removelast_last. rewrite size_app in Hs. change (size [m]) with 1 in Hs.
  unfold byte_ok in Hm.
  destruct (Z.geb_spec m 128); [|destruct (n <? 0)].
  - split.
    + repeat (apply bytes_ok_app; split); auto; repeat constructor; try lia; destruct (n <? 0); lia.
    + rewrite !size_app. change (size [m]) with 1. change (size [if n <? 0 then 128 else 0]) with 1. lia.
  - split; [apply bytes_ok_app; split; auto; repeat constructor; lia|].
    rewrite size_app. change (size [m + 128]) with 1. lia.
  - split; [apply bytes_ok_app; split; auto; repeat constructor; lia|].
    rewrite size_app. change (size [m]) with 1. lia.
Qed.

Lemma to_num_good b v : elem_ok v -> good (fun n => - 2 ^ 31 < n < 2 ^ 31) (to_num b v).
Proof.
  intros [Hb _]. apply good_or_throw. intros n H.
  apply CScriptNum_range in H; [|assumption|cbv; split; discriminate].
  change (2 ^ (8 * ScriptNum.nDefaultMaxNumSize - 1)) with (2 ^ 31) in H. lia.
Qed.

Lemma vch_of_bool_elem b : elem_ok (vch_of_bool b).
Proof.
  unfold elem_ok, MAX_SCRIPT_ELEMENT_SIZE.
  destruct b; cbn; (split; [|lia]); repeat constructor; lia.
Qed.
#[export] Hint Resolve serialize_elem vch_of_bool_elem : passion.

Lemma stack_ok_cons v s : stack_ok (v :: s) <-> elem_ok v /\ stack_ok s.
Proof. apply Forall_cons_iff. Qed.

(** Split the stack hypothesis and rebuild the goal's. *)
Ltac stack_cases s :=
  repeat match goal with
  | |- context [match s with _ => _ end] => destruct s as [|? s]; cbn [good invalid_stack]; auto
  end;
  repeat match goal with H : stack_ok (_ :: _) |- _ => apply stack_ok_cons in H; destruct H end.
Ltac stack_solve :=
  cbn [good]; repeat (apply stack_ok_cons; split); auto with passion.

Section StackOps.
Context {crypto : ScriptCrypto}.

Lemma op_moves_good : forall op : Stack -> result Stack,
  In op [op_verify; op_2drop; op_2dup; op_3dup; op_2over; op_2rot; op_2swap; op_ifdup;
         op_drop; op_dup; op_nip; op_over; op_rot; op_swap; op_tuck] ->
  forall s, stack_ok s -> good stack_ok (op s).
Proof.
  intros op Hin s Hs.
  repeat (destruct Hin as [<-|Hin]; [|]); [..|destruct Hin];
  match goal with |- good _ (?f _) => unfold f end; stack_cases s; try (stack_solve; fail);
  destruct (CastToBool _); stack_solve.
Qed.

Lemma size_range {A} (s : list A) : size s < 2 ^ 63 -> - 2 ^ 63 < size s < 2 ^ 63.
Proof. pose proof (size_nonneg s). lia. Qed.

Lemma op_depth_good s : size s < 2 ^ 63 -> stack_ok s -> good stack_ok (op_depth s).
Proof. intros Hl Hs. unfold op_depth. stack_solve. apply serialize_elem. now apply size_range. Qed.

Lemma op_size_good s : stack_ok s -> good stack_ok (op_size s).
Proof.
  intros Hs. unfold op_size. stack_cases s. stack_solve. apply serialize_elem, size_range.
  destruct H as [_ H]. unfold MAX_SCRIPT_ELEMENT_SIZE in H. lia.
Qed.

Lemma op_push_small_good op s : 0 <= op < 256 -> stack_ok s -> good stack_ok (op_push_small op s).
Proof. intros Ho Hs. unfold op_push_small. stack_solve. apply serialize_elem. unfold OP_1. lia. Qed.

Lemma stack_ok_nth s n v : stack_ok s -> nth_error s n = Some v -> elem_ok v.
Proof. intros Hs Hn. apply nth_error_In in Hn. unfold stack_ok in Hs. rewrite Forall_forall in Hs. auto. Qed.

Lemma stacktop_good s i : stack_ok s -> good elem_ok (stacktop s i).
Proof. intros Hs. apply good_or_throw. intros v. now apply stack_ok_nth. Qed.

Lemma stack_ok_app s t : stack_ok (s ++ t) <-> stack_ok s /\ stack_ok t.
Proof. apply Forall_app. Qed.
Lemma stack_ok_firstn n s : stack_ok s -> stack_ok (firstn n s).
Proof. intros H. rewrite (firstn_skipn_eq n s) in H. now apply stack_ok_app in H as [? _]. Qed.
Lemma stack_ok_skipn n s : stack_ok s -> stack_ok (skipn n s).
Proof. intros H. rewrite (firstn_skipn_eq n s) in H. now apply stack_ok_app in H as [_ ?]. Qed.

Lemma op_pick_roll_good op b s : stack_ok s -> good stack_ok (op_pick_roll op b s).
Proof.
  intros Hs. unfold op_pick_roll. destruct s as [|top [|x s]]; [easy|easy|].
  apply stack_ok_cons in Hs as [Ht Hs].
  apply (good_bind _ _ _ _ (to_num_good b top Ht)). intros n _.
  destruct (_ || _); [easy|].
  apply (good_bind _ _ _ _ (stacktop_good (x :: s) _ Hs)). intros v Hv.
  apply stack_ok_cons. split; [assumption|]. destruct (op =? OP_ROLL); [|assumption].
  apply stack_ok_app. split; [now apply stack_ok_firstn | now apply stack_ok_skipn].
Qed.

Lemma op_equal_good op s : stack_ok s -> good stack_ok (op_equal op s).
Proof.
  intros Hs. unfold op_equal. stack_cases s.
  destruct (op =? OP_EQUALVERIFY); [destruct (list_eqb _ _); now cbn|]. stack_solve.
Qed.

(** Numbers within four bytes never trip the assertions of the operators. *)
Lemma num_asserts n : - 2 ^ 31 < n < 2 ^ 31 ->
  ScriptNum.plus_assign n 1 = Some (n + 1) /\ ScriptNum.minus_assign n 1 = Some (n - 1) /\
  ScriptNum.negate n = Some (- n).
Proof.
  intros Hn. unfold ScriptNum.plus_assign, ScriptNum.minus_assign, ScriptNum.negate,
    ScriptNum.INT64_MIN, ScriptNum.INT64_MAX. repeat split.
  - replace (n <=? 2 ^ 63 - 1 - 1) with true by (symmetry; apply Z.leb_le; lia). reflexivity.
  - replace (n >=? - 2 ^ 63 + 1) with true by (symmetry; apply Z.geb_le; lia). reflexivity.
  - destruct (Z.eqb_spec n (- 2 ^ 63)); [lia|reflexivity].
Qed.

Definition unary_ops : list Z := [OP_1ADD; OP_1SUB; OP_NEGATE; OP_ABS; OP_NOT; OP_0NOTEQUAL].
Definition binary_ops : list Z :=
  [OP_ADD; OP_SUB; OP_BOOLAND; OP_BOOLOR; OP_NUMEQUAL; OP_NUMEQUALVERIFY;
   OP_NUMNOTEQUAL; OP_LESSTHAN; OP_GREATERTHAN; OP_LESSTHANOREQUAL;
   OP_GREATERTHANOREQUAL; OP_MIN; OP_MAX].

Lemma one_of_In op l : one_of op l = true <-> In op l.
Proof.
  unfold one_of. rewrite existsb_exists. split.
  - intros (x & Hx & E). apply Z.eqb_eq in E. now subst.
  - intros H. exists op. split; [assumption|apply Z.eqb_refl].
Qed.

Lemma bn_of_bool_range b : 0 <= bn_of_bool b <= 1.
Proof. destruct b; cbn; lia. Qed.

Lemma op_unary_good op b s : In op unary_ops -> stack_ok s -> good stack_ok (op_unary op b s).
Proof.
  intros Hin Hs. unfold op_unary. stack_cases s.
  apply (good_bind _ _ _ _ (to_num_good b v H)). intros n Hn.
  destruct (num_asserts n Hn) as (-> & -> & ->).
  apply (good_bind (fun m => - 2 ^ 32 < m < 2 ^ 32)).
  - repeat (destruct Hin as [<-|Hin]; [cbn [Z.eqb Pos.eqb]|]); [..|destruct Hin];
      repeat case_match_goal; cbn [or_abort good]; try lia;
      pose proof (bn_of_bool_range (n =? 0)); pose proof (bn_of_bool_range (negb (n =? 0))); lia.
  - intros m Hm. stack_solve. apply serialize_elem. lia.
Qed.
End StackOps.

(** Decide the comparisons of opcode constants that select a branch. *)
Ltac eval_opcode_tests :=
  repeat match goal with
  | |- context [if (?a =? ?b) then _ else _] =>
      let c := eval vm_compute in (a =? b) in
      match c with true => idtac | false => idtac end;
      change (a =? b) with c; cbv iota
  end.

Section Safety.
Context {crypto : ScriptCrypto}.

Lemma i64_add_small a b : - 2 ^ 31 < a < 2 ^ 31 -> - 2 ^ 31 < b < 2 ^ 31 ->
  i64 (a + b) = a + b /\ i64 (a - b) = a - b.
Proof. intros. split; apply i64_small; lia. Qed.

Lemma op_binary_good op b s : In op binary_ops -> stack_ok s -> good stack_ok (op_binary op b s).
Proof.
  intros Hin Hs. unfold op_binary. stack_cases s.
  apply (good_bind _ _ _ _ (to_num_good b v0 H0)). intros n1 Hn1.
  apply (good_bind _ _ _ _ (to_num_good b v H)). intros n2 Hn2.
  destruct (i64_add_small n1 n2 Hn1 Hn2) as [-> ->].
  assert (Hb : forall c, - 2 ^ 32 < bn_of_bool c < 2 ^ 32)
    by (intros c; pose proof (bn_of_bool_range c); lia).
  apply (good_bind (fun m => - 2 ^ 32 < m < 2 ^ 32)).
  - repeat (destruct Hin as [<-|Hin]; [eval_opcode_tests|]); [..|destruct Hin];
      cbn [good]; auto; try lia; destruct (n1 <? n2), (n1 >? n2); lia.
  - intros m Hm. assert (elem_ok (ScriptNum.serialize m)) by (apply serialize_elem; lia).
    destruct (op =? OP_NUMEQUALVERIFY); [destruct (CastToBool _); now cbn|]. stack_solve.
Qed.

Lemma op_within_good b s : stack_ok s -> good stack_ok (op_within b s).
Proof.
  intros Hs. unfold op_within. stack_cases s.
  apply (good_bind _ _ _ _ (to_num_good b v1 H1)). intros n1 _.
  apply (good_bind _ _ _ _ (to_num_good b v0 H0)). intros n2 _.
  apply (good_bind _ _ _ _ (to_num_good b v H)). intros n3 _. stack_solve.
Qed.

Lemma digest_elem n (d : list Z) : length d = n -> bytes_ok d -> (n <= 32)%nat -> elem_ok d.
Proof. intros Hl Hb Hn. split; [assumption|]. unfold size, MAX_SCRIPT_ELEMENT_SIZE. lia. Qed.

Lemma op_hash_good op s : stack_ok s -> good stack_ok (op_hash op s).
Proof.
  intros Hs. unfold op_hash, Hash160, Hash256. stack_cases s. stack_solve.
  repeat case_match_goal;
    [apply (digest_elem 20); try apply RIPEMD160_digest | apply (digest_elem 20); try apply SHA1_digest
    | apply (digest_elem 32); try apply SHA256_digest | apply (digest_elem 20); try apply RIPEMD160_digest
    | apply (digest_elem 32); try apply SHA256_digest]; lia.
Qed.

Section EvalSafety.
Context (script : CScript) (flags : Z) (checker : BaseSignatureChecker) (sigversion : SigVersion).
Notation stack_op := (stack_op script flags checker).
Notation exec_opcode := (exec_opcode script flags checker sigversion).
Notation eval_step := (eval_step script flags checker sigversion).
Notation eval_loop := (eval_loop script flags checker sigversion).
Notation EvalScript := (EvalScript script flags checker sigversion).

Lemma op_flags_good s : stack_ok s ->
  good stack_ok (op_checklocktimeverify flags checker s) /\ good stack_ok (op_upgradable_nop flags s) /\
  good stack_ok (op_checkcoldstakeverify script checker s).
Proof.
  intros Hs. unfold op_checklocktimeverify, op_upgradable_nop, op_checkcoldstakeverify.
  repeat split; try (repeat case_match_goal; now cbn).
  destruct (negb (has_flag flags SCRIPT_VERIFY_CHECKLOCKTIMEVERIFY)); [destruct (has_flag flags _); now cbn|].
  destruct s as [|top s]; [easy|].
  apply (good_bind (fun _ => True)); [now apply good_or_throw|]. intros n _.
  repeat case_match_goal; now cbn.
Qed.

Lemma stack_op_good opcode op s :
  0 <= opcode < 256 -> stack_op opcode = Some op -> size s < 2 ^ 63 -> stack_ok s -> good stack_ok (op s).
Proof.
  intros Ho H Hl Hs. unfold stack_op in H. pose proof (op_flags_good s Hs) as (? & ? & ?).
  repeat (case_match_hyp H; [injection H as <-|]); [..|discriminate];
    try assumption; try exact I;
    try (apply op_moves_good; [cbn; tauto|assumption]);
    auto using op_push_small_good, op_depth_good, op_size_good, op_pick_roll_good, op_equal_good,
      op_within_good, op_hash_good.
  - apply op_unary_good; [now apply one_of_In|assumption].
  - apply op_binary_good; [now apply one_of_In|assumption].
Qed.

(** ** Signatures *)

Lemma push_data_nonempty b : push_data [] b <> [].
Proof. unfold push_data. repeat case_match_goal; discriminate. Qed.

Lemma drop_signature_good code sig : good (fun c => True) (drop_signature code sig).
Proof.
  unfold drop_signature, FindAndDelete. pose proof (push_data_nonempty sig).
  destruct (push_data [] sig) as [|x l] eqn:E; [easy|]. rewrite <- E in *.
  destruct (find_and_delete_loop_spec (push_data [] sig) ltac:(assumption)
    (S (length code)) code [] [] 0) as (mid & pc2 & n & Hf & _); [lia|].
  cbn [app] in Hf. rewrite Hf. cbn [obind].
  match goal with |- context [if ?c then _ else _] => destruct c end; exact I.
Qed.


Lemma CheckSignatureEncoding_good sig : good (fun _ => True) (CheckSignatureEncoding sig flags).
Proof.
  unfold CheckSignatureEncoding, IsLowDERSignature.
  destruct (size sig =? 0); [exact I|]. destruct (_ && _); [exact I|].
  apply (good_bind (fun _ => True)); [|intros; apply good_check].
  repeat case_match_goal; exact I.
Qed.
Lemma CheckPubKeyEncoding_good key : good (fun _ => True) (CheckPubKeyEncoding key flags).
Proof. apply good_check. Qed.

Lemma op_checksig_good opcode st :
  stack_ok (stack st) -> good stack_ok (op_checksig flags checker sigversion opcode st).
Proof.
  intros Hs. unfold op_checksig. destruct (stack st) as [|key [|sig s]]; [easy|easy|].
  apply stack_ok_cons in Hs as [_ Hs]. apply stack_ok_cons in Hs as [_ Hs].
  apply (good_bind _ _ _ _ (drop_signature_good _ _)). intros code _.
  apply (good_bind _ _ _ _ (CheckSignatureEncoding_good _)). intros _ _.
  apply (good_bind _ _ _ _ (CheckPubKeyEncoding_good _)). intros _ _.
  apply (good_bind (fun _ => True)); [now apply good_or_throw|]. intros ok _.
  destruct (opcode =? OP_CHECKSIGVERIFY); [now destruct ok|].
  apply stack_ok_cons. auto with passion.
Qed.

Lemma drop_signatures_good n : forall k isig stk code,
  stack_ok stk -> good (fun _ => True) (drop_signatures n k isig stk code).
Proof.
  induction n as [|n IH]; intros k isig stk code Hs; [exact I|]. cbn [drop_signatures].
  apply (good_bind _ _ _ _ (stacktop_good stk _ Hs)). intros sig _.
  apply (good_bind _ _ _ _ (drop_signature_good _ _)). intros code' _. now apply IH.
Qed.

(** The loop ends: each round uses up a key, and it gives up once there are
    fewer keys than signatures left. *)
Lemma multisig_loop_good fuel : forall stk code isig nsigs ikey nkeys ok,
  stack_ok stk -> nkeys <= Z.of_nat fuel -> (ok = true -> nsigs <= nkeys) ->
  good (fun _ => True) (multisig_loop flags checker sigversion fuel stk code isig nsigs ikey nkeys ok).
Proof.
  induction fuel as [|f IH]; intros stk code isig nsigs ikey nkeys ok Hs Hf Hk; cbn [multisig_loop].
  - destruct ok; cbn [andb]; [|exact I]. specialize (Hk eq_refl).
    destruct (Z.gtb_spec nsigs 0); [lia|exact I].
  - destruct (ok && (nsigs >? 0)); [|exact I].
    apply (good_bind _ _ _ _ (stacktop_good stk _ Hs)). intros sig _.
    apply (good_bind _ _ _ _ (stacktop_good stk _ Hs)). intros key _.
    apply (good_bind _ _ _ _ (CheckSignatureEncoding_good _)). intros _ _.
    apply (good_bind _ _ _ _ (CheckPubKeyEncoding_good _)). intros _ _.
    apply (good_bind (fun _ => True)); [now apply good_or_throw|]. intros fOk _.
    destruct fOk; apply IH; auto; try lia.
    + destruct (Z.gtb_spec (nsigs - 1) (nkeys - 1)); [discriminate|lia].
    + destruct (Z.gtb_spec nsigs (nkeys - 1)); [discriminate|lia].
Qed.

Lemma popstack_n_good n : forall s, stack_ok s -> good stack_ok (popstack_n n s).
Proof.
  induction n as [|n IH]; intros s Hs; [assumption|]. cbn [popstack_n].
  destruct s as [|x s]; [exact I|]. apply stack_ok_cons in Hs as [_ Hs]. now apply IH.
Qed.

(** ** Invariant of the loop *)

Definition suffix_of (pc whole : CScript) : Prop := exists pre, whole = pre ++ pc.

(** What every opcode preserves. *)
Definition exec_inv (st : EvalState) : Prop :=
  stack_ok (stack st) /\ stack_ok (altstack st) /\ 0 <= nOpCount st <= 201 /\
  suffix_of (pbegincodehash st) script.
(** What holds between instructions. *)
Definition eval_inv (st : EvalState) : Prop :=
  exec_inv st /\ size (stack st) + size (altstack st) <= 1000.

Lemma exec_inv_with_stack st s : exec_inv st -> stack_ok s -> exec_inv (with_stack st s).
Proof. unfold exec_inv. cbn. intuition. Qed.

Lemma op_checkmultisig_good opcode st :
  exec_inv st -> good exec_inv (op_checkmultisig flags checker sigversion opcode st).
Proof.
  intros (Hs & Ha & Hn & Hp). unfold op_checkmultisig.
  destruct (size (stack st) <? 1); [exact I|].
  apply (good_bind _ _ _ _ (stacktop_good _ _ Hs)). intros top Ht.
  apply (good_bind _ _ _ _ (to_num_good _ top Ht)). intros n _.
  set (nk := ScriptNum.getint n).
  destruct ((nk <? 0) || _) eqn:Enk; [exact I|]. breflect.
  destruct (Z.gtb_spec (nOpCount st + nk) 201); [exact I|].
  destruct (size (stack st) <? 1 + 1 + nk); [exact I|].
  apply (good_bind _ _ _ _ (stacktop_good _ _ Hs)). intros top2 Ht2.
  apply (good_bind _ _ _ _ (to_num_good _ top2 Ht2)). intros m _.
  set (ns := ScriptNum.getint m).
  destruct ((ns <? 0) || _) eqn:Ens; [exact I|]. breflect.
  destruct (size (stack st) <? _); [exact I|].
  apply (good_bind _ _ _ _ (drop_signatures_good _ _ _ _ _ Hs)). intros code _.
  apply (good_bind (fun _ => True)); [apply multisig_loop_good; [assumption|lia|lia]|].
  intros ok _.
  apply (good_bind _ _ _ _ (popstack_n_good _ _ Hs)). intros s' Hs'.
  destruct s' as [|dummy s']; [exact I|]. apply stack_ok_cons in Hs' as [_ Hs'].
  destruct (has_flag flags _ && _); [exact I|].
  destruct (opcode =? OP_CHECKMULTISIGVERIFY); [destruct ok|]; cbn [good]; try exact I;
    unfold exec_inv; cbn [stack altstack nOpCount pbegincodehash with_stack with_nOpCount];
    (split; [try apply stack_ok_cons; auto with passion|]); repeat split; auto; lia.
Qed.

Lemma exec_opcode_good opcode fExec pc st :
  0 <= opcode < 256 -> suffix_of pc script -> eval_inv st ->
  good exec_inv (exec_opcode opcode fExec pc st).
Proof.
  intros Ho Hpc [Hinv Hsz]. pose proof Hinv as (Hs & Ha & Hn & Hp).
  unfold exec_opcode. destruct (stack_op opcode) as [op|] eqn:E.
  { apply (good_bind stack_ok).
    - apply (stack_op_good opcode); auto. pose proof (size_nonneg (altstack st)). lia.
    - intros s Hs'. now apply exec_inv_with_stack. }
  unfold op_if, op_else, op_endif, op_toaltstack, op_fromaltstack, op_codeseparator.
  repeat match goal with |- context [if ?c then _ else _] => destruct c eqn:? end;
    try (apply op_checkmultisig_good; assumption); try exact I.
  all: try (destruct (stack st) eqn:Es; [exact I|]).
  all: try (destruct (vfExec st); [exact I|]).
  all: try (destruct (altstack st) eqn:Ea; [exact I|]).
  all: try (apply (good_bind stack_ok); [apply op_checksig_good; assumption|];
            intros s' Hs'; now apply exec_inv_with_stack).
  all: cbn [good]; unfold exec_inv; cbn [stack altstack nOpCount pbegincodehash with_stack with_vfExec].
  all: repeat match goal with H : stack_ok (_ :: _) |- _ => apply stack_ok_cons in H; destruct H end.
  all: repeat split; try (apply stack_ok_cons; split); auto; try lia; congruence.
Qed.

Context (Hscript : bytes_ok script).

Lemma suffix_bytes pc : suffix_of pc script -> bytes_ok pc.
Proof. intros [pre E]. rewrite E in Hscript. now apply bytes_ok_app in Hscript as [_ ?]. Qed.

Lemma GetOp_suffix pc opcode data pc' :
  suffix_of pc script -> GetOp pc = Some (opcode, data, pc') -> suffix_of pc' script.
Proof.
  intros [pre E] (mid & -> & _)%GetOp2_suffix. exists (pre ++ opcode :: mid).
  now rewrite <- app_assoc.
Qed.

Lemma eval_step_good pc st :
  suffix_of pc script -> eval_inv st ->
  good (fun '(pc', st') => suffix_of pc' script /\ (length pc' < length pc)%nat /\ eval_inv st')
    (eval_step pc st).
Proof.
  intros Hpc Hinv. pose proof Hinv as [(Hs & Ha & Hn & Hp) Hsz]. unfold eval_step.
  destruct (GetOp pc) as [[[opcode data] pc']|] eqn:E; [|exact I].
  pose proof (GetOp2_bytes _ _ _ _ (suffix_bytes pc Hpc) E) as (_ & Ho & Hd). unfold byte_ok in Ho.
  pose proof (GetOp_suffix _ _ _ _ Hpc E) as Hpc'. pose proof (GetOp_progress _ _ _ _ E) as Hlt.
  destruct (Z.gtb_spec (size data) MAX_SCRIPT_ELEMENT_SIZE); [exact I|].
  set (n := if opcode >? OP_16 then nOpCount st + 1 else nOpCount st).
  destruct ((opcode >? OP_16) && (n >? 201)) eqn:En; [exact I|].
  destruct (is_disabled opcode); [exact I|].
  assert (Hn' : 0 <= n <= 201).
  { unfold n in *. destruct (opcode >? OP_16); cbn [andb] in En; [|lia].
    destruct (Z.gtb_spec (nOpCount st + 1) 201); [discriminate|lia]. }
  assert (Hinv' : eval_inv (with_nOpCount st n)) by (repeat split; cbn; auto; lia).
  apply (good_bind exec_inv).
  - destruct (forallb _ _ && _ && _).
    { destruct (fRequireMinimal flags && _); [exact I|]. apply exec_inv_with_stack; [apply Hinv'|].
      apply stack_ok_cons. repeat split; auto. }
    destruct (forallb _ _ || _); [now apply exec_opcode_good | apply Hinv'].
  - intros st' Hst'. destruct (Z.gtb_spec (size (stack st') + size (altstack st')) 1000); [exact I|].
    cbn [good]. repeat split; auto; apply Hst'.
Qed.

Lemma eval_loop_cons f x pc st :
  eval_loop (S f) (x :: pc) st = ('(pc, st) <~ eval_step (x :: pc) st;; eval_loop f pc st).
Proof. reflexivity. Qed.

Lemma eval_loop_good fuel : forall pc st,
  (length pc <= fuel)%nat -> suffix_of pc script -> eval_inv st -> good eval_inv (eval_loop fuel pc st).
Proof.
  induction fuel as [|f IH]; intros [|x pc] st Hf Hpc Hinv; try exact Hinv.
  { cbn in Hf. lia. }
  rewrite eval_loop_cons. apply (good_bind _ _ _ _ (eval_step_good (x :: pc) st Hpc Hinv)).
  intros [pc' st'] (Hs & Hl & Hi). cbn [length] in *. apply IH; auto. lia.
Qed.

Definition initial_state (s : Stack) : EvalState :=
  {| stack := s; altstack := []; vfExec := []; nOpCount := 0; pbegincodehash := script |}.

Lemma initial_inv s : stack_ok s -> size s <= 1000 -> eval_inv (initial_state s).
Proof.
  intros Hs Hl. split; [split; [assumption|split; [constructor|split; [cbn; lia|now exists []]]]|].
  change (size s + 0 <= 1000). lia.
Qed.

Lemma EvalScript_good s : stack_ok s -> size s <= 1000 ->
  good (fun s' => stack_ok s' /\ size s' <= 1000) (EvalScript s).
Proof.
  intros Hs Hl. unfold EvalScript. destruct (size script >? MAX_SCRIPT_SIZE); [exact I|].
  apply (good_bind eval_inv).
  - apply eval_loop_good; [lia|now exists []|now apply initial_inv].
  - intros st [(H1 & _) H2]. destruct (vfExec st); [|exact I].
    cbn [good]. split; [assumption|]. pose proof (size_nonneg (altstack st)). lia.
Qed.

(** ** Reachable states *)

Inductive reaches (pc : CScript) (st : EvalState) : CScript -> EvalState -> Prop :=
| reaches_refl : reaches pc st pc st
| reaches_step pc1 st1 pc2 st2 :
    reaches pc st pc1 st1 -> pc1 <> [] -> eval_step pc1 st1 = Ok (pc2, st2) -> reaches pc st pc2 st2.

Lemma reaches_inv s pc st : stack_ok s -> size s <= 1000 ->
  reaches script (initial_state s) pc st -> suffix_of pc script /\ eval_inv st.
Proof.
  intros Hs Hl H. induction H as [|pc1 st1 pc2 st2 _ [IHs IHi] _ E].
  - split; [now exists []|now apply initial_inv].
  - pose proof (eval_step_good pc1 st1 IHs IHi) as G. rewrite E in G. cbn in G. intuition.
Qed.
End EvalSafety.
End Safety.

(** A small instance for evaluating concrete scripts: digests that keep the low
    bytes of the message. *)
Definition low_bytes (n : nat) (m : list Z) : list Z := le_bytes n (le_value m).
Lemma low_bytes_digest n m : length (low_bytes n m) = n /\ bytes_ok (low_bytes n m).
Proof. split; [apply length_le_bytes | apply le_bytes_ok]. Qed.
Definition toy_crypto : ScriptCrypto := {|
  RIPEMD160 := low_bytes 20; SHA1 := low_bytes 20; SHA256 := low_bytes 32;
  CheckLowS := fun _ => true;
  RIPEMD160_digest := low_bytes_digest 20;
  SHA1_digest := low_bytes_digest 20;
  SHA256_digest := low_bytes_digest 32 |}.
(** Accepts a signature equal to the key. *)
Definition toy_checker : BaseSignatureChecker := {|
  CheckSig := fun sig key _ _ => Some (list_eqb sig key);
  CheckLockTime := fun n => n <=? 100;
  CheckColdStake := fun _ => false |}.

(** C4: evaluating any script on any admissible stack ends without a failed assertion, and the
    machine stays within its limits in every reachable state: at most 1000 elements on the two
    stacks, none longer than 520 bytes, at most 201 operations counted, and a code-separator
    position inside the script. *)
Theorem EvalScript_safe {crypto : ScriptCrypto} script flags checker sigversion s :
  bytes_ok script -> stack_ok s -> size s <= 1000 ->
  EvalScript script flags checker sigversion s <> Abort /\
  (forall pc st, reaches script flags checker sigversion script (initial_state script s) pc st ->
     stack_ok (stack st) /\ stack_ok (altstack st) /\
     size (stack st) + size (altstack st) <= 1000 /\
     0 <= nOpCount st <= 201 /\ suffix_of (pbegincodehash st) script) /\
  (forall s', EvalScript script flags checker sigversion s = Ok s' -> stack_ok s' /\ size s' <= 1000).
Proof.
  intros Hb Hs Hl. pose proof (EvalScript_good script flags checker sigversion Hb s Hs Hl) as G.
  split; [|split].
  - intros E. now rewrite E in G.
  - intros pc st H. apply reaches_inv in H as [_ [(? & ? & ? & ?) ?]]; auto.
  - intros s' E. now rewrite E in G.
Qed.
Lemma EvalScript_safe_witness :
  EvalScript (crypto := toy_crypto) [OP_2; OP_3; OP_ADD; OP_5; OP_NUMEQUAL] 0 toy_checker SIGVERSION_BASE []
    = Ok [[1]] /\ stack_ok [[1]].
Proof.
  assert (E : EvalScript (crypto := toy_crypto) [OP_2; OP_3; OP_ADD; OP_5; OP_NUMEQUAL] 0 toy_checker
                SIGVERSION_BASE [] = Ok [[1]]) by reflexivity.
  split; [exact E|].
  refine (proj1 (proj2 (proj2 (EvalScript_safe (crypto := toy_crypto)
    [OP_2; OP_3; OP_ADD; OP_5; OP_NUMEQUAL] 0 toy_checker SIGVERSION_BASE [] _ _ _)) _ E)).
  - repeat constructor; discriminate.
  - constructor.
  - discriminate.
Defined.
