(* ===== verification/ScriptTheorems.v ===== *)
(** What script evaluation accepts: the shape of every successful script,
    unspendable outputs, pushes, the standard templates, multi-signature
    matching, DER encodings, and the flags (src/script/interpreter.cpp). *)
From Stdlib Require Import ZArith Lia List Bool.
From S2P Require Import Prelude Serialize Script Interpreter.
Import ListNotations.
Local Open Scope Z_scope.

(** * The shape of a successful script *)

(** The opcodes of a well-formed script, in order. *)
Inductive parses : CScript -> list Z -> Prop :=
| parses_nil : parses [] []
| parses_cons pc opcode data pc' ops :
    GetOp pc = Some (opcode, data, pc') -> parses pc' ops -> parses pc (opcode :: ops).

(** Nesting depth after the opcodes, [None] for an unmatched OP_ELSE or
    OP_ENDIF. *)
Fixpoint nesting (depth : nat) (ops : list Z) : option nat :=
  match ops with
  | [] => Some depth
  | op :: ops =>
      if (op =? OP_IF) || (op =? OP_NOTIF) then nesting (S depth) ops
      else if op =? OP_ELSE then
        match depth with O => None | S _ => nesting depth ops end
      else if op =? OP_ENDIF then
        match depth with O => None | S d => nesting d ops end
      else nesting depth ops
  end.

Fixpoint count_nonpush (ops : list Z) : Z :=
  match ops with
  | [] => 0
  | op :: ops => (if op >? OP_16 then 1 else 0) + count_nonpush ops
  end.

Lemma rbind_Ok {A B} (m : result A) (k : A -> result B) y :
  rbind m k = Ok y <-> exists x, m = Ok x /\ k x = Ok y.
Proof.
  split.
  - destruct m; cbn; intros; try discriminate. eauto.
  - now intros (x & -> & H).
Qed.

Section Shape.
Context {crypto : ScriptCrypto}.
Context (script : CScript) (flags : Z) (checker : BaseSignatureChecker) (sigversion : SigVersion).

Lemma op_checkmultisig_frame opcode st st' :
  op_checkmultisig flags checker sigversion opcode st = Ok st' ->
  vfExec st' = vfExec st /\ nOpCount st <= nOpCount st'.
Proof.
  unfold op_checkmultisig. intros H.
  repeat match type of H with
  | (if ?c then _ else _) = Ok _ => destruct c eqn:?; [discriminate H|]
  | rbind _ _ = Ok _ => apply rbind_Ok in H; destruct H as (? & _ & H)
  end.
  destruct x5 as [|dummy s]; [discriminate|]. breflect.
  destruct (has_flag flags _ && _); [discriminate|].
  destruct (opcode =? OP_CHECKMULTISIGVERIFY).
  - destruct x4; [|discriminate]. injection H as <-. cbn. split; [reflexivity|]. lia.
  - injection H as <-. cbn. split; [reflexivity|]. lia.
Qed.

(** How one executed opcode moves the conditions and the operation count. *)
Lemma exec_opcode_frame opcode fExec pc st st' :
  exec_opcode script flags checker sigversion opcode fExec pc st = Ok st' ->
  nesting (length (vfExec st)) [opcode] = Some (length (vfExec st')) /\ nOpCount st <= nOpCount st'.
Proof.
  unfold exec_opcode. intros H.
  destruct (stack_op script flags checker opcode) as [op|] eqn:E.
  { apply rbind_Ok in H as (s & _ & [= <-]). cbn [vfExec with_stack nOpCount].
    split; [|lia]. cbn [nesting].
    repeat match goal with |- context [opcode =? ?c] =>
      destruct (Z.eqb_spec opcode c) as [->|]; [discriminate E|cbn [orb]] end.
    reflexivity. }
  cbn [nesting].
  repeat match type of H with
  | (if one_of opcode ?l then _ else _) = _ => destruct (one_of opcode l) eqn:?
  | (if opcode =? ?c then _ else _) = _ => destruct (Z.eqb_spec opcode c) as [->|?]
  end; try discriminate;
  repeat match goal with H : one_of _ _ = true |- _ =>
    apply one_of_In in H; repeat (destruct H as [<-|H]; [|]); try contradiction end;
  unfold op_if, op_else, op_endif, op_toaltstack, op_fromaltstack, op_codeseparator in H;
  cbn [Z.eqb Pos.eqb orb] in *.
  all: try (apply op_checkmultisig_frame in H as [-> ?]; split; [reflexivity|assumption]).
  all: try (apply rbind_Ok in H as (s & _ & [= <-]); cbn; split; [reflexivity|lia]).
  all: repeat case_match_hyp H; try discriminate; injection H as <-; cbn;
       try rewrite Heql; cbn; split; try reflexivity; try lia.
Qed.

Lemma nesting_cons d op ops : nesting d (op :: ops) =
  match nesting d [op] with Some d' => nesting d' ops | None => None end.
Proof. cbn [nesting]. repeat case_match_goal; reflexivity. Qed.

Lemma nesting_other d op :
  ((OP_IF <=? op) && (op <=? OP_ENDIF)) = false -> nesting d [op] = Some d.
Proof.
  intros H. cbn [nesting].
  destruct (Z.eqb_spec op OP_IF) as [->|]; [discriminate|].
  destruct (Z.eqb_spec op OP_NOTIF) as [->|]; [discriminate|].
  destruct (Z.eqb_spec op OP_ELSE) as [->|]; [discriminate|].
  destruct (Z.eqb_spec op OP_ENDIF) as [->|]; [discriminate|]. reflexivity.
Qed.

(** OP_VERIF and OP_VERNOTIF are refused even when not executed. *)
Definition never_valid (op : Z) : bool := is_disabled op || (op =? OP_VERIF) || (op =? OP_VERNOTIF).

Lemma exec_never_valid opcode fExec pc st st' :
  exec_opcode script flags checker sigversion opcode fExec pc st = Ok st' ->
  ((opcode =? OP_VERIF) || (opcode =? OP_VERNOTIF)) = false.
Proof.
  intros H. destruct (Z.eqb_spec opcode OP_VERIF) as [->|]; [discriminate|].
  destruct (Z.eqb_spec opcode OP_VERNOTIF) as [->|]; [discriminate|reflexivity].
Qed.

Lemma eval_step_frame pc st pc' st' :
  eval_step script flags checker sigversion pc st = Ok (pc', st') ->
  exists op data, GetOp pc = Some (op, data, pc') /\ never_valid op = false /\
    nesting (length (vfExec st)) [op] = Some (length (vfExec st')) /\
    nOpCount st + (if op >? OP_16 then 1 else 0) <= nOpCount st'.
Proof.
  unfold eval_step. destruct (GetOp pc) as [[[op data] pc1]|]; [|discriminate]. intros H.
  exists op, data.
  destruct (size data >? _); [discriminate|]. destruct ((op >? OP_16) && _); [discriminate|].
  destruct (is_disabled op) eqn:Ed; [discriminate|].
  apply rbind_Ok in H as (st1 & H1 & H). destruct (_ + _ >? 1000); [discriminate|].
  injection H as -> ->. unfold never_valid. rewrite Ed. cbn [orb].
  set (n := if op >? OP_16 then nOpCount st + 1 else nOpCount st) in *.
  assert (Hn : n = nOpCount st + (if op >? OP_16 then 1 else 0)) by (unfold n; destruct (op >? OP_16); lia).
  destruct (forallb _ _ && _ && _) eqn:Ep.
  - destruct (fRequireMinimal flags && _); [discriminate|]. injection H1 as <-.
    breflect. cbn [vfExec nOpCount with_stack with_nOpCount].
    assert (Hr : ((OP_IF <=? op) && (op <=? OP_ENDIF)) = false).
    { destruct (Z.leb_spec OP_IF op); [|reflexivity]. unfold OP_IF, OP_PUSHDATA4 in *. lia. }
    rewrite nesting_other by assumption. repeat split; [|lia].
    unfold OP_PUSHDATA4 in *.
    destruct (Z.eqb_spec op OP_VERIF) as [->|]; [unfold OP_VERIF in *; lia|].
    destruct (Z.eqb_spec op OP_VERNOTIF) as [->|]; [unfold OP_VERNOTIF in *; lia|reflexivity].
  - destruct (forallb _ _ || _) eqn:Er.
    + pose proof (exec_never_valid _ _ _ _ _ H1).
      apply exec_opcode_frame in H1 as [Hd Hc]. cbn [vfExec nOpCount with_nOpCount] in *.
      repeat split; auto. lia.
    + injection H1 as <-. cbn [vfExec nOpCount with_nOpCount].
      apply orb_false_iff in Er as [_ Er]. rewrite nesting_other by assumption.
      repeat split; [|lia].
      destruct (Z.eqb_spec op OP_VERIF) as [->|]; [discriminate|].
      destruct (Z.eqb_spec op OP_VERNOTIF) as [->|]; [discriminate|reflexivity].
Qed.

Lemma eval_loop_shape fuel : forall pc st st',
  eval_loop script flags checker sigversion fuel pc st = Ok st' ->
  exists ops, parses pc ops /\ forallb (fun op => negb (never_valid op)) ops = true /\
    nesting (length (vfExec st)) ops = Some (length (vfExec st')) /\
    nOpCount st + count_nonpush ops <= nOpCount st'.
Proof.
  induction fuel as [|f IH]; intros [|x pc] st st' H; try discriminate.
  1-2: injection H as <-; exists []; cbn; repeat split; try constructor; lia.
  rewrite eval_loop_cons in H. apply rbind_Ok in H as ([pc1 st1] & Hstep & H).
  apply eval_step_frame in Hstep as (op & data & Hop & Hv & Hd & Hc).
  apply IH in H as (ops & Hops & Hnv & Hd' & Hc').
  exists (op :: ops). repeat split.
  - now apply parses_cons with data pc1.
  - cbn [forallb]. now rewrite Hv, Hnv.
  - now rewrite nesting_cons, Hd.
  - cbn [count_nonpush]. lia.
Qed.

End Shape.

(** A script that evaluates successfully is well formed in full, executed or
    not: it parses to the end into at most 201 operations beyond pushes, contains
    no disabled opcode and no OP_VERIF or OP_VERNOTIF even in a branch not taken,
    and its conditionals are balanced. *)
Theorem EvalScript_well_formed {crypto : ScriptCrypto} script flags checker sigversion s s' :
  bytes_ok script -> stack_ok s -> size s <= 1000 ->
  EvalScript script flags checker sigversion s = Ok s' ->
  exists ops, parses script ops /\
    forallb (fun op => negb (never_valid op)) ops = true /\
    nesting 0 ops = Some O /\ count_nonpush ops <= 201 /\ size script <= MAX_SCRIPT_SIZE.
Proof.
  intros Hb Hs Hl. unfold EvalScript.
  destruct (Z.gtb_spec (size script) MAX_SCRIPT_SIZE) as [|Hsz]; [discriminate|]. intros H.
  apply rbind_Ok in H as (st & Hloop & H).
  pose proof (eval_loop_good script flags checker sigversion Hb (length script) script
    (initial_state script s) (le_n _) (ex_intro _ [] eq_refl) (initial_inv script s Hs Hl)) as G.
  change (eval_loop script flags checker sigversion (length script) script (initial_state script s)
          = Ok st) in Hloop.
  rewrite Hloop in G. cbn in G. destruct G as [(_ & _ & Hn & _) _].
  apply eval_loop_shape in Hloop as (ops & Hops & Hv & Hd & Hc).
  destruct (vfExec st); [|discriminate]. cbn in Hd, Hc.
  exists ops. repeat split; auto; lia.
Qed.
Lemma EvalScript_well_formed_witness :
  exists ops, parses [OP_1; OP_IF; OP_2; OP_ELSE; OP_3; OP_ENDIF] ops /\
    forallb (fun op => negb (never_valid op)) ops = true /\
    nesting 0 ops = Some O /\ count_nonpush ops <= 201 /\ size [OP_1; OP_IF; OP_2; OP_ELSE; OP_3; OP_ENDIF] <= MAX_SCRIPT_SIZE.
Proof.
  apply (EvalScript_well_formed (crypto := toy_crypto) _ 0 toy_checker SIGVERSION_BASE [] [[2]]).
  - repeat constructor; discriminate.
  - constructor.
  - discriminate.
  - reflexivity.
Defined.

(** An output marked unspendable really is: whatever the stack left by the
    input, flags and checker, evaluating its script fails, so dropping it from
    the coin set loses nothing. *)
Theorem IsUnspendable_fails {crypto : ScriptCrypto} script flags checker sigversion s :
  IsUnspendable script = true ->
  exists e, EvalScript script flags checker sigversion s = Err e /\
    (e = SCRIPT_ERR_SCRIPT_SIZE \/ e = SCRIPT_ERR_OP_RETURN).
Proof.
  unfold IsUnspendable, EvalScript. intros H.
  destruct (size script >? MAX_SCRIPT_SIZE) eqn:E.
  { exists SCRIPT_ERR_SCRIPT_SIZE. auto. }
  rewrite orb_false_r in H. destruct script as [|op pc]; [discriminate|].
  breflect. cbn [nth] in *. subst op. exists SCRIPT_ERR_OP_RETURN. auto.
Qed.
Lemma IsUnspendable_fails_witness :
  exists e, EvalScript (crypto := toy_crypto) [OP_RETURN; 2; 7; 7] 0 toy_checker SIGVERSION_BASE [[1]] = Err e /\
    (e = SCRIPT_ERR_SCRIPT_SIZE \/ e = SCRIPT_ERR_OP_RETURN).
Proof. apply IsUnspendable_fails. reflexivity. Defined.

(** * Running instructions one by one *)

Lemma push_data_cons d : exists x l, push_data [] d = x :: l.
Proof. pose proof (push_data_nonempty d). destruct (push_data [] d); [easy|eauto]. Qed.

(** A push written by [operator<<] is minimal from two bytes on. *)
Lemma push_data_minimal d : 2 <= size d <= MAX_SCRIPT_ELEMENT_SIZE ->
  CheckMinimalPush d (push_opcode_of d) = true.
Proof.
  unfold MAX_SCRIPT_ELEMENT_SIZE, CheckMinimalPush, push_opcode_of, OP_PUSHDATA1. intros H.
  destruct (Z.eqb_spec (size d) 0); [lia|]. destruct (Z.eqb_spec (size d) 1); [lia|]. cbn [andb].
  destruct (Z.ltb_spec (size d) 0x4c), (Z.leb_spec (size d) 75); try lia.
  destruct (Z.leb_spec (size d) 255); [reflexivity|].
  destruct (Z.leb_spec (size d) 65535); [reflexivity|lia].
Qed.

Section Run.
Context {crypto : ScriptCrypto}.
Context (script : CScript) (flags : Z) (checker : BaseSignatureChecker) (sigversion : SigVersion).

Definition run (pc : CScript) (st : EvalState) : result EvalState :=
  eval_loop script flags checker sigversion (length pc) pc st.

Lemma eval_step_progress pc st pc' st' :
  eval_step script flags checker sigversion pc st = Ok (pc', st') -> (length pc' < length pc)%nat.
Proof. intros (op & d & H & _)%eval_step_frame. now apply GetOp_progress in H. Qed.

Lemma eval_loop_fuel f : forall g pc st, (length pc <= f)%nat -> (length pc <= g)%nat ->
  eval_loop script flags checker sigversion f pc st = eval_loop script flags checker sigversion g pc st.
Proof.
  induction f as [|f IH]; intros [|g] [|x pc] st Hf Hg; cbn [length] in *; try lia; try reflexivity.
  rewrite !eval_loop_cons.
  destruct (eval_step script flags checker sigversion (x :: pc) st) as [[pc1 st1]|e|] eqn:E;
    cbn [rbind]; try reflexivity.
  apply eval_step_progress in E. cbn [length] in E. apply IH; lia.
Qed.

Lemma run_cons x pc st :
  run (x :: pc) st = ('(pc, st) <~ eval_step script flags checker sigversion (x :: pc) st;; run pc st).
Proof.
  unfold run at 1. cbn [length]. rewrite eval_loop_cons.
  destruct (eval_step script flags checker sigversion (x :: pc) st) as [[pc1 st1]|e|] eqn:E;
    cbn [rbind]; try reflexivity.
  apply eval_step_progress in E. cbn [length] in E. apply eval_loop_fuel; lia.
Qed.

(** The check at the end of every round. *)
Definition limit (st : EvalState) (k : EvalState -> result EvalState) : result EvalState :=
  if size (stack st) + size (altstack st) >? 1000 then Err SCRIPT_ERR_STACK_SIZE else k st.

Lemma run_op op pc st :
  OP_16 < op -> is_disabled op = false -> vfExec st = [] -> nOpCount st < 201 ->
  run (op :: pc) st =
    (st <~ exec_opcode script flags checker sigversion op true pc (with_nOpCount st (nOpCount st + 1));;
     limit st (run pc)).
Proof.
  intros Ho Hd Hv Hn. rewrite run_cons. unfold eval_step, GetOp, GetOp2. unfold OP_16 in Ho.
  destruct (Z.leb_spec op OP_PUSHDATA4); [unfold OP_PUSHDATA4 in *; lia|].
  change (size (@nil Z)) with 0. change (0 >? MAX_SCRIPT_ELEMENT_SIZE) with false. cbv iota.
  destruct (Z.gtb_spec op OP_16); [|unfold OP_16 in *; lia]. cbn [andb].
  destruct (Z.gtb_spec (nOpCount st + 1) 201); [lia|]. rewrite Hd, Hv. cbn [forallb orb andb].
  replace ((0 <=? op) && (op <=? OP_PUSHDATA4)) with false
    by (symmetry; apply andb_false_iff; right; apply Z.leb_gt; assumption).
  unfold limit.
  destruct (exec_opcode _ _ _ _ op true pc _) as [st1|e|]; cbn [rbind]; try reflexivity.
  now destruct (_ >? 1000).
Qed.

Lemma run_push d pc st :
  size d <= MAX_SCRIPT_ELEMENT_SIZE -> size (d ++ pc) < 2 ^ 32 -> vfExec st = [] ->
  (fRequireMinimal flags = true -> CheckMinimalPush d (push_opcode_of d) = true) ->
  run (push_data [] d ++ pc) st = limit (with_stack st (d :: stack st)) (run pc).
Proof.
  intros Hd Hs Hv Hm. destruct (push_data_cons d) as (x & l & E).
  pose proof (GetOp_push_data d pc Hs) as Hop. rewrite E in *. cbn [app] in *.
  rewrite run_cons. unfold eval_step. rewrite Hop.
  destruct (Z.gtb_spec (size d) MAX_SCRIPT_ELEMENT_SIZE); [lia|].
  assert (Hp : 0 <= push_opcode_of d <= OP_PUSHDATA4).
  { unfold push_opcode_of, OP_PUSHDATA1, OP_PUSHDATA2, OP_PUSHDATA4. pose proof (size_nonneg d).
    repeat (case_match_goal; breflect); lia. }
  unfold OP_PUSHDATA4 in Hp.
  destruct (Z.gtb_spec (push_opcode_of d) OP_16); [unfold OP_16 in *; lia|]. cbn [andb].
  assert (Hdis : is_disabled (push_opcode_of d) = false).
  { apply not_true_is_false. intros Hc. apply existsb_exists in Hc as (y & Hy & Ey).
    apply Z.eqb_eq in Ey. subst y. cbn in Hy.
    repeat (destruct Hy as [Hy|Hy]; [rewrite <- Hy in Hp; cbv in Hp; intuition|]). exact Hy. }
  rewrite Hdis, Hv. cbn [forallb andb].
  destruct (Z.leb_spec 0 (push_opcode_of d)); [|lia].
  destruct (Z.leb_spec (push_opcode_of d) OP_PUSHDATA4); [|unfold OP_PUSHDATA4 in *; lia].
  cbn [andb].
  assert (Hmin : fRequireMinimal flags && negb (CheckMinimalPush d (push_opcode_of d)) = false).
  { destruct (fRequireMinimal flags); [|reflexivity]. now rewrite Hm. }
  rewrite Hmin. cbn [rbind]. unfold limit.
  replace (with_stack (with_nOpCount st (nOpCount st)) (d :: stack (with_nOpCount st (nOpCount st))))
    with (with_stack st (d :: stack st)) by (now destruct st).
  now destruct (_ >? 1000).
Qed.
End Run.

(** * Standard templates *)

Lemma EvalScript_run {crypto : ScriptCrypto} script flags checker sigversion s :
  size script <= MAX_SCRIPT_SIZE ->
  EvalScript script flags checker sigversion s =
    (st <~ run script flags checker sigversion script (initial_state script s);;
     match vfExec st with [] => Ok (stack st) | _ => Err SCRIPT_ERR_UNBALANCED_CONDITIONAL end).
Proof.
  intros H. unfold EvalScript. now destruct (Z.gtb_spec (size script) MAX_SCRIPT_SIZE); [lia|].
Qed.

Lemma run_nil {crypto : ScriptCrypto} script flags checker sigversion st :
  run script flags checker sigversion [] st = Ok st.
Proof. reflexivity. Qed.

Lemma limit_small st k : size (stack st) + size (altstack st) <= 1000 -> limit st k = k st.
Proof. intros H. unfold limit. now destruct (Z.gtb_spec (size (stack st) + size (altstack st)) 1000); [lia|]. Qed.

Lemma push_data_app script d : push_data script d = script ++ push_data [] d.
Proof. reflexivity. Qed.

Lemma push_data_size d : size d <= MAX_SCRIPT_ELEMENT_SIZE -> size (push_data [] d) <= size d + 3.
Proof.
  unfold MAX_SCRIPT_ELEMENT_SIZE. intros H. unfold push_data. cbn [app]. rewrite size_app.
  assert (Hw : forall x, size (WriteLE16 x) = 2) by reflexivity.
  repeat (case_match_goal; breflect; try lia); rewrite ?size_cons, ?Hw;
    change (size (@nil Z)) with 0; lia.
Qed.

(** An input script of pushes leaves the pushed elements on the stack. *)
Fixpoint pushes (l : list valtype) : CScript :=
  match l with [] => [] | d :: l => push_data [] d ++ pushes l end.

Lemma pushes_size l : Forall (fun d => size d <= MAX_SCRIPT_ELEMENT_SIZE) l ->
  size (pushes l) <= 523 * size l.
Proof.
  induction 1 as [|d l Hd _ IH]; cbn [pushes]; [change (size (@nil Z)) with 0; cbn; lia|].
  rewrite size_app, size_cons. pose proof (push_data_size d Hd).
  unfold MAX_SCRIPT_ELEMENT_SIZE in Hd. lia.
Qed.

Lemma run_pushes {crypto : ScriptCrypto} script flags checker sigversion l : forall st,
  Forall (fun d => 2 <= size d <= MAX_SCRIPT_ELEMENT_SIZE) l ->
  vfExec st = [] -> size (stack st) + size (altstack st) + size l <= 1000 ->
  run script flags checker sigversion (pushes l) st = Ok (with_stack st (rev l ++ stack st)).
Proof.
  induction l as [|d l IH]; intros st Hl Hv Hs; cbn [pushes rev app].
  - rewrite run_nil. now destruct st.
  - apply Forall_cons_iff in Hl as [Hd Hl]. rewrite size_cons in Hs. pose proof (size_nonneg l).
    rewrite run_push; [|lia| |assumption|intros _; now apply push_data_minimal].
    2: { rewrite size_app.
         assert (size (pushes l) <= 523 * size l).
         { apply pushes_size. eapply Forall_impl; [|exact Hl]. intros a Ha. cbv beta in Ha. lia. }
         pose proof (size_nonneg (stack st)). pose proof (size_nonneg (altstack st)).
         unfold MAX_SCRIPT_ELEMENT_SIZE in Hd. lia. }
    rewrite limit_small by (cbn [stack altstack with_stack]; rewrite size_cons; lia).
    rewrite IH by (cbn [stack altstack vfExec with_stack]; rewrite ?size_cons; auto; lia).
    f_equal. unfold with_stack; cbn. f_equal. rewrite <- app_assoc. reflexivity.
Qed.

Lemma push_only_pushes l : forall fuel,
  Forall (fun d => size d <= MAX_SCRIPT_ELEMENT_SIZE) l -> size l <= 1000 ->
  (length (pushes l) <= fuel)%nat -> push_only_loop fuel (pushes l) = Some true.
Proof.
  induction l as [|d l IH]; intros fuel Hl Hs Hf; cbn [pushes] in *; [now destruct fuel|].
  apply Forall_cons_iff in Hl as [Hd Hl]. rewrite size_cons in Hs. pose proof (size_nonneg l).
  destruct (push_data_cons d) as (x & t & E).
  assert (Hop : GetOp (push_data [] d ++ pushes l) = Some (push_opcode_of d, d, pushes l)).
  { apply GetOp_push_data. rewrite size_app. pose proof (pushes_size l Hl).
    unfold MAX_SCRIPT_ELEMENT_SIZE in Hd. lia. }
  rewrite E in *. cbn [app length] in *. destruct fuel as [|f]; [lia|].
  cbn [push_only_loop]. rewrite Hop.
  assert (Hle : push_opcode_of d <= OP_16).
  { unfold push_opcode_of, OP_PUSHDATA1, OP_PUSHDATA2, OP_PUSHDATA4, OP_16.
    repeat (case_match_goal; breflect); lia. }
  destruct (Z.gtb_spec (push_opcode_of d) OP_16); [lia|].
  apply IH; auto; [lia|]. rewrite length_app in Hf. lia.
Qed.

(** Pay to public key hash, as [IsPayToPublicKeyHash] recognises it. *)
Definition p2pkh_script (h : list Z) : CScript :=
  OP_DUP :: OP_HASH160 :: push_data [] h ++ [OP_EQUALVERIFY; OP_CHECKSIG].

Lemma run_exec {crypto : ScriptCrypto} script flags checker sigversion op pc st st' :
  OP_16 < op -> is_disabled op = false -> vfExec st = [] -> nOpCount st < 201 ->
  exec_opcode script flags checker sigversion op true pc (with_nOpCount st (nOpCount st + 1)) = Ok st' ->
  size (stack st') + size (altstack st') <= 1000 ->
  run script flags checker sigversion (op :: pc) st = run script flags checker sigversion pc st'.
Proof.
  intros Ho Hd Hv Hn He Hs. rewrite run_op by assumption. rewrite He. cbn [rbind].
  now apply limit_small.
Qed.

Section P2PKH.
Context {crypto : ScriptCrypto}.
Context (flags : Z) (checker : BaseSignatureChecker) (sigversion : SigVersion).
Context (sig key h : valtype).
Context (Hsig : 2 <= size sig <= MAX_SCRIPT_ELEMENT_SIZE) (Hkey : 2 <= size key <= MAX_SCRIPT_ELEMENT_SIZE).
Context (Hh : size h = 20).

Definition p2pkh_state (s : Stack) (n : Z) : EvalState :=
  {| stack := s; altstack := []; vfExec := []; nOpCount := n; pbegincodehash := p2pkh_script h |}.

Lemma p2pkh_eval :
  EvalScript (p2pkh_script h) flags checker sigversion [key; sig] =
    if list_eqb (Hash160 key) h then
      code <~ drop_signature (p2pkh_script h) sig;;
      _ <~ CheckSignatureEncoding sig flags;;
      _ <~ CheckPubKeyEncoding key flags;;
      ok <~ or_throw (CheckSig checker sig key code sigversion);;
      Ok [vch_of_bool ok]
    else Err SCRIPT_ERR_EQUALVERIFY.
Proof.
  assert (Hph : push_data [] h = 20 :: h).
  { unfold push_data. rewrite Hh. reflexivity. }
  rewrite EvalScript_run.
  2: { unfold p2pkh_script. rewrite Hph. rewrite ?size_cons, ?size_app, ?size_cons, Hh. discriminate. }
  unfold p2pkh_script at 2.
  change (initial_state (p2pkh_script h) [key; sig]) with (p2pkh_state [key; sig] 0).
  rewrite (run_exec _ _ _ _ OP_DUP _ _ (p2pkh_state [key; key; sig] 1)) by (reflexivity || discriminate).
  rewrite (run_exec _ _ _ _ OP_HASH160 _ _ (p2pkh_state [Hash160 key; key; sig] 2)) by (reflexivity || discriminate).
  rewrite run_push; [|rewrite Hh; discriminate|rewrite size_app, Hh; reflexivity|reflexivity
    |intros _; apply push_data_minimal; rewrite Hh; split; discriminate].
  rewrite limit_small by discriminate.
  change (with_stack _ _) with (p2pkh_state [h; Hash160 key; key; sig] 2).
  rewrite run_op by reflexivity.
  change (exec_opcode _ _ _ _ OP_EQUALVERIFY _ _ _) with
    (s <~ (if list_eqb (Hash160 key) h then Ok [key; sig] else Err SCRIPT_ERR_EQUALVERIFY);;
     Ok (p2pkh_state s 3)).
  destruct (list_eqb (Hash160 key) h); [|reflexivity]. cbn [rbind].
  rewrite limit_small by discriminate. rewrite run_op by reflexivity.
  change (exec_opcode _ _ _ _ OP_CHECKSIG _ _ _) with
    (s <~ op_checksig flags checker sigversion OP_CHECKSIG (p2pkh_state [key; sig] 4);; Ok (p2pkh_state s 4)).
  unfold op_checksig. change (stack (p2pkh_state [key; sig] 4)) with [key; sig]. cbv iota.
  change (pbegincodehash (p2pkh_state [key; sig] 4)) with (p2pkh_script h).
  destruct (drop_signature (p2pkh_script h) sig) as [code|e|]; cbn [rbind]; try reflexivity.
  destruct (CheckSignatureEncoding sig flags); cbn [rbind]; try reflexivity.
  destruct (CheckPubKeyEncoding key flags); cbn [rbind]; try reflexivity.
  now destruct (CheckSig checker sig key code sigversion) as [[|]|].
Qed.
End P2PKH.

Lemma pushes_two a b : push_data (push_data [] a) b = pushes [a; b].
Proof. cbn [pushes]. now rewrite push_data_app, app_nil_r. Qed.

Lemma EvalScript_pushes {crypto : ScriptCrypto} flags checker sigversion l :
  Forall (fun d => 2 <= size d <= MAX_SCRIPT_ELEMENT_SIZE) l -> 523 * size l <= MAX_SCRIPT_SIZE ->
  EvalScript (pushes l) flags checker sigversion [] = Ok (rev l).
Proof.
  intros Hl Hs. pose proof (size_nonneg l). unfold MAX_SCRIPT_SIZE in Hs.
  assert (Hl' : Forall (fun d => size d <= MAX_SCRIPT_ELEMENT_SIZE) l)
    by (eapply Forall_impl; [|exact Hl]; intros a Ha; apply Ha).
  pose proof (pushes_size l Hl'). rewrite EvalScript_run by (unfold MAX_SCRIPT_SIZE; lia).
  rewrite run_pushes; [|assumption|reflexivity|cbn [initial_state stack altstack]].
  - cbn. now rewrite app_nil_r.
  - change (size (@nil valtype)) with 0. lia.
Qed.

Lemma IsPushOnly_pushes l :
  Forall (fun d => size d <= MAX_SCRIPT_ELEMENT_SIZE) l -> size l <= 1000 ->
  IsPushOnly (pushes l) = Some true.
Proof. intros. now apply push_only_pushes. Qed.

(** Spending a pay-to-public-key-hash output with a signature and a key, under
    any flags: the key must hash to the output's hash, the encodings must pass the
    flags' checks, and then the signature check on the output script (with the
    signature's own push deleted) decides; every failure gives its own error. *)
Theorem VerifyScript_p2pkh {crypto : ScriptCrypto} flags checker sigversion sig key h :
  2 <= size sig <= MAX_SCRIPT_ELEMENT_SIZE -> 2 <= size key <= MAX_SCRIPT_ELEMENT_SIZE ->
  size h = 20 ->
  IsPayToPublicKeyHash (p2pkh_script h) = true /\
  VerifyScript (push_data (push_data [] sig) key) (p2pkh_script h) flags checker sigversion =
    if list_eqb (Hash160 key) h then
      code <~ drop_signature (p2pkh_script h) sig;;
      _ <~ CheckSignatureEncoding sig flags;;
      _ <~ CheckPubKeyEncoding key flags;;
      ok <~ or_throw (CheckSig checker sig key code sigversion);;
      if (ok : bool) then Ok tt else Err SCRIPT_ERR_EVAL_FALSE
    else Err SCRIPT_ERR_EQUALVERIFY.
Proof.
  intros Hsig Hkey Hh.
  assert (Hph : p2pkh_script h = OP_DUP :: OP_HASH160 :: 0x14 :: h ++ [OP_EQUALVERIFY; OP_CHECKSIG]).
  { unfold p2pkh_script, push_data. now rewrite Hh. }
  split.
  { apply IsPayToPublicKeyHash_iff. exists h. split; [unfold size in Hh; lia|assumption]. }
  unfold VerifyScript. rewrite pushes_two.
  assert (Hl : Forall (fun d => 2 <= size d <= MAX_SCRIPT_ELEMENT_SIZE) [sig; key]) by auto.
  rewrite IsPushOnly_pushes; [|repeat constructor; lia|discriminate].
  rewrite EvalScript_pushes; [|assumption|discriminate]. cbn [rev app or_abort rbind check].
  rewrite p2pkh_eval by assumption.
  assert (Hnp : IsPayToScriptHash (p2pkh_script h) = false).
  { unfold IsPayToScriptHash. rewrite Hph, !size_cons, size_app, Hh. reflexivity. }
  rewrite Hnp, andb_false_r.
  assert (E : (if has_flag flags SCRIPT_VERIFY_SIGPUSHONLY then Ok tt else Ok tt) = Ok tt)
    by now destruct (has_flag _ _).
  rewrite E. cbn [rbind].
  destruct (list_eqb (Hash160 key) h); [|reflexivity].
  destruct (drop_signature (p2pkh_script h) sig) as [code|e|]; cbn [rbind]; try reflexivity.
  destruct (CheckSignatureEncoding sig flags); cbn [rbind]; try reflexivity.
  destruct (CheckPubKeyEncoding key flags); cbn [rbind]; try reflexivity.
  now destruct (CheckSig checker sig key code sigversion) as [[|]|].
Qed.
Lemma VerifyScript_p2pkh_witness :
  VerifyScript (crypto := toy_crypto) (push_data (push_data [] [5; 6; 7]) [5; 6; 7])
    (p2pkh_script (5 :: 6 :: 7 :: repeat 0 17)) 0 toy_checker SIGVERSION_BASE = Ok tt.
Proof.
  rewrite (proj2 (VerifyScript_p2pkh (crypto := toy_crypto) 0 toy_checker SIGVERSION_BASE
    [5; 6; 7] [5; 6; 7] (5 :: 6 :: 7 :: repeat 0 17)
    ltac:(split; discriminate) ltac:(split; discriminate) eq_refl)).
  reflexivity.
Defined.

(** * Pay to script hash *)

Definition p2sh_script (h : list Z) : CScript := OP_HASH160 :: push_data [] h ++ [OP_EQUAL].

Lemma IsPayToScriptHash_script spk : IsPayToScriptHash spk = true ->
  exists h, size h = 20 /\ spk = p2sh_script h.
Proof.
  intros (h & Hl & ->)%IsPayToScriptHash_iff. assert (Hs : size h = 20) by (unfold size; lia).
  exists h. split; [assumption|]. unfold p2sh_script, push_data. now rewrite Hs.
Qed.

Section P2SH.
Context {crypto : ScriptCrypto}.
Context (flags : Z) (checker : BaseSignatureChecker) (sigversion : SigVersion).

(** The output script alone only compares the hash of the top element. *)
Lemma p2sh_eval h s : size h = 20 -> size s <= 998 ->
  EvalScript (p2sh_script h) flags checker sigversion s =
    match s with
    | [] => Err SCRIPT_ERR_INVALID_STACK_OPERATION
    | top :: s => Ok (vch_of_bool (list_eqb (Hash160 top) h) :: s)
    end.
Proof.
  intros Hh Hs.
  assert (Hph : push_data [] h = 20 :: h) by (unfold push_data; rewrite Hh; reflexivity).
  rewrite EvalScript_run.
  2: { unfold p2sh_script. rewrite Hph, ?size_cons, ?size_app, ?size_cons, Hh. discriminate. }
  unfold p2sh_script at 2. destruct s as [|top s]; [reflexivity|].
  rewrite size_cons in Hs. pose proof (size_nonneg s).
  set (st n s := {| stack := s; altstack := []; vfExec := []; nOpCount := n;
                    pbegincodehash := p2sh_script h |}).
  change (initial_state (p2sh_script h) (top :: s)) with (st 0 (top :: s)).
  assert (Hst : forall n x, size (stack (st n x)) + size (altstack (st n x)) = size x)
    by (intros; cbn [st stack altstack]; change (size (@nil valtype)) with 0; lia).
  rewrite (run_exec _ _ _ _ OP_HASH160 _ _ (st 1 (Hash160 top :: s)))
    by (try reflexivity; rewrite Hst, size_cons; lia).
  rewrite run_push; [|rewrite Hh; discriminate|rewrite size_app, Hh; reflexivity|reflexivity
    |intros _; apply push_data_minimal; rewrite Hh; split; discriminate].
  change (with_stack _ _) with (st 1 (h :: Hash160 top :: s)).
  rewrite limit_small by (rewrite Hst, !size_cons; lia).
  rewrite (run_exec _ _ _ _ OP_EQUAL _ _ (st 2 (vch_of_bool (list_eqb (Hash160 top) h) :: s)))
    by (try reflexivity; rewrite Hst, size_cons; lia).
  reflexivity.
Qed.

(** With 999 or 1000 elements the hash pushes the stack over its limit. *)
Lemma p2sh_eval_top h s s' : size h = 20 ->
  EvalScript (p2sh_script h) flags checker sigversion s = Ok s' ->
  exists top r, s = top :: r /\ s' = vch_of_bool (list_eqb (Hash160 top) h) :: r.
Proof.
  intros Hh. destruct (Z.leb_spec (size s) 998) as [Hs|Hs].
  { rewrite p2sh_eval by assumption. destruct s as [|top s]; [discriminate|].
    intros [= <-]. eauto. }
  assert (Hph : push_data [] h = 20 :: h) by (unfold push_data; rewrite Hh; reflexivity).
  rewrite EvalScript_run.
  2: { unfold p2sh_script. rewrite Hph, ?size_cons, ?size_app, ?size_cons, Hh. discriminate. }
  unfold p2sh_script at 2. destruct s as [|top s]; [discriminate|].
  set (st n s := {| stack := s; altstack := []; vfExec := []; nOpCount := n;
                    pbegincodehash := p2sh_script h |}).
  change (initial_state (p2sh_script h) (top :: s)) with (st 0 (top :: s)).
  rewrite run_op by reflexivity.
  change (exec_opcode _ _ _ _ OP_HASH160 _ _ _) with (Ok (st 1 (Hash160 top :: s))). cbn [rbind].
  unfold limit at 1. destruct (_ >? 1000); [discriminate|].
  rewrite run_push; [|rewrite Hh; discriminate|rewrite size_app, Hh; reflexivity|reflexivity
    |intros _; apply push_data_minimal; rewrite Hh; split; discriminate].
  change (with_stack _ _) with (st 1 (h :: Hash160 top :: s)).
  unfold limit at 1. destruct (_ >? 1000); [discriminate|].
  rewrite run_op by reflexivity.
  change (exec_opcode _ _ _ _ OP_EQUAL _ _ _) with
    (Ok (st 2 (vch_of_bool (list_eqb (Hash160 top) h) :: s))). cbn [rbind].
  unfold limit. destruct (_ >? 1000); [discriminate|]. intros [= <-]. eauto.
Qed.

Lemma check_top_Ok s : check_top s = Ok tt <-> exists top r, s = top :: r /\ CastToBool top = true.
Proof.
  destruct s as [|top r]; cbn; [split; [discriminate|intros (? & ? & ? & _); discriminate]|].
  destruct (CastToBool top) eqn:E; split; try discriminate; eauto.
  intros (? & ? & [= <- <-] & H). congruence.
Qed.
Lemma check_top_good s : good (fun _ => True) (check_top s).
Proof. destruct s as [|top s]; cbn; [exact I|]. now destruct (CastToBool top). Qed.

Lemma VerifyScript_good scriptSig scriptPubKey :
  bytes_ok scriptSig -> bytes_ok scriptPubKey ->
  good (fun _ => True) (VerifyScript scriptSig scriptPubKey flags checker sigversion).
Proof.
  intros Hsig Hpk. unfold VerifyScript. destruct (IsPushOnly_total scriptSig) as [po Hpo].
  rewrite Hpo. cbn [or_abort].
  apply (good_bind (fun _ => True)); [destruct (has_flag flags _); [apply good_check|exact I]|].
  intros _ _.
  destruct (EvalScript scriptSig flags checker sigversion []) as [s1|e|] eqn:E1; cbn [rbind]; [|exact I|].
  2: { pose proof (EvalScript_good scriptSig flags checker sigversion Hsig [] ltac:(constructor)
         ltac:(discriminate)) as G. rewrite E1 in G. exact G. }
  pose proof (EvalScript_good scriptSig flags checker sigversion Hsig [] ltac:(constructor)
    ltac:(discriminate)) as G. rewrite E1 in G. destruct G as [Hs1 Hl1].
  pose proof (EvalScript_good scriptPubKey flags checker sigversion Hpk s1 Hs1 Hl1) as G2.
  destruct (EvalScript scriptPubKey flags checker sigversion s1) as [s2|e|] eqn:E2;
    cbn [rbind]; [|exact I|exact G2].
  apply (good_bind _ _ _ _ (check_top_good s2)). intros _ _.
  destruct (has_flag flags SCRIPT_VERIFY_P2SH && IsPayToScriptHash scriptPubKey) eqn:Ep; [|exact I].
  breflect. cbn [rbind]. apply (good_bind _ _ _ _ (good_check _ _)). intros _ _.
  apply IsPayToScriptHash_script in H0 as (h & Hh & ->).
  apply p2sh_eval_top in E2 as (top & r & -> & _); [|assumption].
  apply stack_ok_cons in Hs1 as [[Ht _] Hr]. rewrite size_cons in Hl1.
  apply (good_bind (fun _ => True)); [|intros; apply check_top_good].
  eapply good_weaken; [apply (EvalScript_good top flags checker sigversion Ht r Hr); lia|trivial].
Qed.
End P2SH.

(** C7: [VerifyScript] always returns and never trips [assert(!stackCopy.empty())] or any
    other assertion. With P2SH enforced, success on a pay-to-script-hash output means: the
    input script only pushes, the element it leaves on top hashes to the output's hash, and
    that element, run as a script on the remaining stack, leaves a true element on top. *)
Theorem VerifyScript_p2sh_sound {crypto : ScriptCrypto} scriptSig scriptPubKey flags checker sigversion :
  bytes_ok scriptSig -> bytes_ok scriptPubKey ->
  VerifyScript scriptSig scriptPubKey flags checker sigversion <> Abort /\
  (forall h, VerifyScript scriptSig scriptPubKey flags checker sigversion = Ok tt ->
     has_flag flags SCRIPT_VERIFY_P2SH = true ->
     size h = 20 -> scriptPubKey = p2sh_script h ->
     IsPushOnly scriptSig = Some true /\
     exists redeem rest final top,
       EvalScript scriptSig flags checker sigversion [] = Ok (redeem :: rest) /\
       Hash160 redeem = h /\
       EvalScript redeem flags checker sigversion rest = Ok (top :: final) /\
       CastToBool top = true).
Proof.
  intros Hsig Hpk. split.
  { intros E. pose proof (VerifyScript_good flags checker sigversion _ _ Hsig Hpk) as G.
    now rewrite E in G. }
  intros h H Hflag Hh ->. unfold VerifyScript in H.
  apply rbind_Ok in H as ([] & _ & H). apply rbind_Ok in H as (s1 & E1 & H).
  apply rbind_Ok in H as (s2 & E2 & H). apply rbind_Ok in H as ([] & Ht & H).
  apply p2sh_eval_top in E2 as (redeem & rest & -> & ->); [|assumption].
  apply check_top_Ok in Ht as (? & ? & [= <- <-] & Ht).
  assert (Hp : IsPayToScriptHash (p2sh_script h) = true).
  { apply IsPayToScriptHash_iff. exists h. split; [unfold size in Hh; lia|].
    unfold p2sh_script, push_data. now rewrite Hh. }
  rewrite Hflag, Hp in H. cbn [andb] in H.
  apply rbind_Ok in H as (b & Hb & H). apply rbind_Ok in H as ([] & Hc & H).
  destruct b; [|discriminate]. destruct (IsPushOnly scriptSig) as [[|]|]; try discriminate.
  split; [reflexivity|].
  apply rbind_Ok in H as (s3 & E3 & H). apply check_top_Ok in H as (top & final & -> & Htop).
  exists redeem, rest, final, top. repeat split; auto.
  destruct (list_eqb (Hash160 redeem) h) eqn:E; [now apply list_eqb_eq|discriminate Ht].
Qed.
Lemma VerifyScript_p2sh_sound_witness :
  exists redeem rest final top,
    EvalScript (crypto := toy_crypto) (push_data [] [OP_1; OP_NOP]) SCRIPT_VERIFY_P2SH toy_checker SIGVERSION_BASE []
      = Ok (redeem :: rest) /\
    Hash160 (crypto := toy_crypto) redeem = OP_1 :: OP_NOP :: repeat 0 18 /\
    EvalScript (crypto := toy_crypto) redeem SCRIPT_VERIFY_P2SH toy_checker SIGVERSION_BASE rest = Ok (top :: final) /\
    CastToBool top = true.
Proof.
  refine (proj2 (proj2 (VerifyScript_p2sh_sound (crypto := toy_crypto) (push_data [] [OP_1; OP_NOP])
    (p2sh_script (OP_1 :: OP_NOP :: repeat 0 18)) SCRIPT_VERIFY_P2SH toy_checker SIGVERSION_BASE _ _)
    (OP_1 :: OP_NOP :: repeat 0 18) _ _ _ _)).
  - repeat constructor; discriminate.
  - repeat constructor; discriminate.
  - reflexivity.
  - reflexivity.
  - reflexivity.
  - reflexivity.
Defined.

(** * Multi-signature matching *)

Section Multisig.
Context {crypto : ScriptCrypto}.
Context (flags : Z) (checker : BaseSignatureChecker) (sigversion : SigVersion) (code : CScript).

Definition sig_valid (sig key : valtype) : bool :=
  match CheckSig checker sig key code sigversion with Some b => b | None => false end.

(** An order-preserving assignment of distinct keys to the signatures. *)
Inductive matching : list valtype -> list valtype -> Prop :=
| matching_nil keys : matching [] keys
| matching_take sig sigs key keys :
    sig_valid sig key = true -> matching sigs keys -> matching (sig :: sigs) (key :: keys)
| matching_skip sig sigs key keys :
    matching (sig :: sigs) keys -> matching (sig :: sigs) (key :: keys).

Lemma matching_tail sig sigs keys : matching (sig :: sigs) keys -> matching sigs keys.
Proof.
  remember (sig :: sigs) as l eqn:E. intros H. revert sig sigs E.
  induction H as [|s ss k ks Hv Hm IH|s ss k ks Hm IH]; intros sig sigs [= -> ->].
  - destruct sigs; [constructor|]. now apply matching_skip.
  - specialize (IH sig sigs eq_refl). destruct sigs; [constructor|]. now apply matching_skip.
Qed.

(** Taking the first key that fits never loses. *)
Lemma matching_greedy sig sigs key keys :
  sig_valid sig key = true -> matching (sig :: sigs) (key :: keys) -> matching sigs keys.
Proof.
  intros _ H. inversion H as [|? ? ? ? _ Hm|? ? ? ? Hm]; subst; [assumption|].
  now apply matching_tail in Hm.
Qed.

Lemma matching_length sigs keys : matching sigs keys -> (length sigs <= length keys)%nat.
Proof. induction 1; cbn in *; lia. Qed.

Context (stk : Stack).
(** The [n] elements of the stack from position [i] on, as [stacktop] counts. *)
Definition elements (i : Z) (l : list valtype) : Prop :=
  forall j, (j < length l)%nat -> nth_error stk (Z.to_nat (i + Z.of_nat j - 1)) = nth_error l j.

Lemma elements_cons i x l : 1 <= i -> elements i (x :: l) ->
  stacktop stk i = Ok x /\ elements (i + 1) l.
Proof.
  intros Hi H. split.
  - unfold stacktop. specialize (H 0%nat ltac:(cbn; lia)). cbn in H.
    rewrite Z.add_0_r in H. now rewrite H.
  - intros j Hj. specialize (H (S j) ltac:(cbn; lia)). cbn [nth_error] in H. rewrite <- H.
    f_equal. lia.
Qed.

(** Whatever the loop accepts is a matching; an encoding it refuses ends it with an error. *)
Lemma multisig_loop_sound keys : forall sigs isig ikey,
  1 <= isig -> 1 <= ikey -> elements isig sigs -> elements ikey keys ->
  (length sigs <= length keys)%nat ->
  multisig_loop flags checker sigversion (length keys) stk code
    isig (Z.of_nat (length sigs)) ikey (Z.of_nat (length keys)) true = Ok true -> matching sigs keys.
Proof.
  induction keys as [|key keys IH]; intros sigs isig ikey Hi Hk Hsigs Hkeys Hlen.
  { destruct sigs; [|cbn in Hlen; lia]. constructor. }
  destruct sigs as [|sig sigs]; [constructor|].
  cbn [multisig_loop length].
  destruct (Z.gtb_spec (Z.of_nat (S (length sigs))) 0); [|lia]. cbn [andb].
  pose proof (elements_cons isig sig sigs Hi Hsigs) as [-> Hsigs'].
  pose proof (elements_cons ikey key keys Hk Hkeys) as [-> Hkeys']. cbn [rbind].
  destruct (CheckSignatureEncoding sig flags); cbn [rbind]; [|discriminate..].
  destruct (CheckPubKeyEncoding key flags); cbn [rbind]; [|discriminate..].
  destruct (CheckSig checker sig key code sigversion) as [ok|] eqn:E; cbn [or_throw rbind]; [|discriminate].
  assert (Hv : sig_valid sig key = ok) by (unfold sig_valid; now rewrite E).
  cbn [length] in Hlen. replace (Z.of_nat (S (length keys)) - 1) with (Z.of_nat (length keys)) by lia.
  destruct ok.
  - replace (Z.of_nat (S (length sigs)) - 1) with (Z.of_nat (length sigs)) by lia.
    destruct (Z.gtb_spec (Z.of_nat (length sigs)) (Z.of_nat (length keys))); [lia|].
    intros H1. apply matching_take; [assumption|]. now apply (IH sigs (isig + 1) (ikey + 1)); try lia.
  - destruct (Z.gtb_spec (Z.of_nat (S (length sigs))) (Z.of_nat (length keys))); [now destruct (length keys)|].
    intros H1. apply matching_skip. apply (IH (sig :: sigs) isig (ikey + 1)); try assumption; cbn [length]; lia.
Qed.

Lemma multisig_loop_matching keys : forall sigs isig ikey,
  Forall (fun sig => CheckSignatureEncoding sig flags = Ok tt) sigs ->
  Forall (fun key => CheckPubKeyEncoding key flags = Ok tt) keys ->
  (forall sig key, In sig sigs -> In key keys -> CheckSig checker sig key code sigversion <> None) ->
  1 <= isig -> 1 <= ikey -> elements isig sigs -> elements ikey keys ->
  (length sigs <= length keys)%nat ->
  exists b, multisig_loop flags checker sigversion (length keys) stk code
              isig (Z.of_nat (length sigs)) ikey (Z.of_nat (length keys)) true = Ok b /\
            (b = true <-> matching sigs keys).
Proof.
  induction keys as [|key keys IH]; intros sigs isig ikey Hse Hke Hnt Hi Hk Hsigs Hkeys Hlen.
  { destruct sigs; [|cbn in Hlen; lia]. exists true. split; [reflexivity|]. split; auto. constructor. }
  destruct sigs as [|sig sigs].
  { exists true. split; [reflexivity|]. split; auto. constructor. }
  cbn [multisig_loop length].
  destruct (Z.gtb_spec (Z.of_nat (S (length sigs))) 0); [|lia]. cbn [andb].
  pose proof (elements_cons isig sig sigs Hi Hsigs) as [-> Hsigs'].
  pose proof (elements_cons ikey key keys Hk Hkeys) as [-> Hkeys']. cbn [rbind].
  inversion Hse as [|? ? Hse1 Hse2]; subst. inversion Hke as [|? ? Hke1 Hke2]; subst.
  rewrite Hse1, Hke1. cbn [rbind].
  pose proof (Hnt sig key (or_introl eq_refl) (or_introl eq_refl)) as Hn.
  destruct (CheckSig checker sig key code sigversion) as [ok|] eqn:E; [|easy].
  cbn [or_throw rbind].
  assert (Hv : sig_valid sig key = ok) by (unfold sig_valid; now rewrite E).
  cbn [length] in Hlen.
  replace (Z.of_nat (S (length keys)) - 1) with (Z.of_nat (length keys)) by lia.
  destruct ok.
  - replace (Z.of_nat (S (length sigs)) - 1) with (Z.of_nat (length sigs)) by lia.
    destruct (Z.gtb_spec (Z.of_nat (length sigs)) (Z.of_nat (length keys))); [lia|].
    destruct (IH sigs (isig + 1) (ikey + 1)) as (b & Hb & Hm); [assumption|assumption|intros; apply Hnt; now right|lia|lia|assumption|assumption|lia|].
    exists b. split; [exact Hb|]. rewrite Hm. split.
    + intros H1. now constructor.
    + now apply matching_greedy.
  - destruct (Z.gtb_spec (Z.of_nat (S (length sigs))) (Z.of_nat (length keys))) as [Hg|Hg].
    + exists false. split; [now destruct (length keys)|]. split; [discriminate|].
      intros Hm. inversion Hm as [|? ? ? ? Hs' _|? ? ? ? Hm']; subst; [congruence|].
      apply matching_length in Hm'. cbn in Hm'. lia.
    + destruct (IH (sig :: sigs) isig (ikey + 1)) as (b & Hb & Hm);
        [assumption|assumption|intros ? ? Hs' Hk'; apply Hnt; [assumption|now right]|lia|lia|assumption|assumption|cbn [length]; lia|].
      exists b. split; [exact Hb|]. rewrite Hm. split.
      * intros H1. now apply matching_skip.
      * intros H1. inversion H1; subst; [congruence|assumption].
Qed.
End Multisig.

(** C30: the pairing loop of OP_CHECKMULTISIG under any flags. When it succeeds, the
    signatures can be assigned to distinct keys in the same order, each valid under its key.
    When moreover the encodings of the signatures and keys of the operation pass the checks
    the flags ask for, and the checker throws on none of them, the loop ends with a verdict,
    and the verdict is yes exactly when there is such an assignment: trying every signature
    against the next key only, with the early exit when fewer keys than signatures remain,
    misses none. *)
Theorem multisig_loop_complete {crypto : ScriptCrypto} flags checker sigversion code stk sigs keys isig ikey :
  1 <= isig -> 1 <= ikey -> elements stk isig sigs -> elements stk ikey keys ->
  (length sigs <= length keys)%nat ->
  let run := multisig_loop flags checker sigversion (length keys) stk code
               isig (Z.of_nat (length sigs)) ikey (Z.of_nat (length keys)) true in
  (run = Ok true -> matching checker sigversion code sigs keys) /\
  (Forall (fun sig => CheckSignatureEncoding sig flags = Ok tt) sigs ->
   Forall (fun key => CheckPubKeyEncoding key flags = Ok tt) keys ->
   (forall sig key, In sig sigs -> In key keys -> CheckSig checker sig key code sigversion <> None) ->
   exists b, run = Ok b /\ (b = true <-> matching checker sigversion code sigs keys)).
Proof.
  intros Hi Hk Hs Hks Hl run. split.
  - now apply multisig_loop_sound with (flags := flags) (stk := stk).
  - intros. now apply multisig_loop_matching.
Qed.
(** Two signatures in DER form, under the flags of a block, and three compressed keys. *)
Definition ex_der (n : Z) : valtype := [0x30; 6; 2; 1; n; 2; 1; n; 1].
Definition ex_key (n : Z) : valtype := 2 :: repeat n 32.
Definition ex_der_checker : BaseSignatureChecker := {|
  CheckSig := fun sig key _ _ => Some (nth 4 sig 0 =? nth 1 key 0);
  CheckLockTime := fun _ => false; CheckColdStake := fun _ => false |}.
Definition ex_der_flags : Z := Z.lor (Z.lor SCRIPT_VERIFY_DERSIG SCRIPT_VERIFY_LOW_S) SCRIPT_VERIFY_STRICTENC.
Lemma multisig_loop_complete_witness :
  exists b, multisig_loop (crypto := toy_crypto) ex_der_flags ex_der_checker SIGVERSION_BASE 3
              [[3]; ex_key 7; ex_key 8; ex_key 9; [2]; ex_der 7; ex_der 9; []] [] 6 2 2 3 true = Ok b /\
            (b = true <-> matching ex_der_checker SIGVERSION_BASE [] [ex_der 7; ex_der 9] [ex_key 7; ex_key 8; ex_key 9]).
Proof.
  apply (multisig_loop_complete (crypto := toy_crypto) ex_der_flags ex_der_checker SIGVERSION_BASE []
    [[3]; ex_key 7; ex_key 8; ex_key 9; [2]; ex_der 7; ex_der 9; []] [ex_der 7; ex_der 9] [ex_key 7; ex_key 8; ex_key 9] 6 2).
  - discriminate.
  - discriminate.
  - intros [|[|j]] Hj; [reflexivity|reflexivity|cbn in Hj; lia].
  - intros [|[|[|j]]] Hj; [reflexivity|reflexivity|reflexivity|cbn in Hj; lia].
  - cbn. lia.
  - repeat constructor.
  - repeat constructor.
  - discriminate.
Defined.

(** * Flags *)

(** Two flag words the interpreter cannot tell apart. *)
Definition tested_flags : list Z :=
  [SCRIPT_VERIFY_P2SH; SCRIPT_VERIFY_STRICTENC;
   Z.lor (Z.lor SCRIPT_VERIFY_DERSIG SCRIPT_VERIFY_LOW_S) SCRIPT_VERIFY_STRICTENC;
   SCRIPT_VERIFY_LOW_S; SCRIPT_VERIFY_NULLDUMMY; SCRIPT_VERIFY_SIGPUSHONLY;
   SCRIPT_VERIFY_MINIMALDATA; SCRIPT_VERIFY_DISCOURAGE_UPGRADABLE_NOPS;
   SCRIPT_VERIFY_CHECKLOCKTIMEVERIFY].
Definition same_flags (f g : Z) : Prop :=
  Forall (fun m => has_flag f m = has_flag g m) tested_flags.

Section Flags.
Context {crypto : ScriptCrypto}.
Context (script : CScript) (checker : BaseSignatureChecker) (sigversion : SigVersion).
Context (f g : Z) (Hfg : same_flags f g).

Lemma same_flag m : In m tested_flags -> has_flag f m = has_flag g m.
Proof. intros H. unfold same_flags in Hfg. rewrite Forall_forall in Hfg. auto. Qed.

Ltac same_flag_rw :=
  repeat match goal with
  | |- context [has_flag f ?m] => rewrite (same_flag m) by (cbn; tauto)
  end.

Lemma CheckSignatureEncoding_flags sig : CheckSignatureEncoding sig f = CheckSignatureEncoding sig g.
Proof. unfold CheckSignatureEncoding. now same_flag_rw. Qed.
Lemma CheckPubKeyEncoding_flags key : CheckPubKeyEncoding key f = CheckPubKeyEncoding key g.
Proof. unfold CheckPubKeyEncoding. now same_flag_rw. Qed.
Lemma fRequireMinimal_flags : fRequireMinimal f = fRequireMinimal g.
Proof. unfold fRequireMinimal. now same_flag_rw. Qed.

Lemma op_checklocktimeverify_flags s :
  op_checklocktimeverify f checker s = op_checklocktimeverify g checker s.
Proof. unfold op_checklocktimeverify. rewrite fRequireMinimal_flags. now same_flag_rw. Qed.
Lemma op_upgradable_nop_flags s : op_upgradable_nop f s = op_upgradable_nop g s.
Proof. unfold op_upgradable_nop. now same_flag_rw. Qed.

Lemma multisig_loop_flags fuel : forall stk code isig ns ikey nk ok,
  multisig_loop f checker sigversion fuel stk code isig ns ikey nk ok =
  multisig_loop g checker sigversion fuel stk code isig ns ikey nk ok.
Proof.
  induction fuel as [|n IH]; intros; cbn [multisig_loop]; [reflexivity|].
  destruct (ok && _); [|reflexivity].
  destruct (stacktop stk isig) as [sig| |]; cbn [rbind]; try reflexivity.
  destruct (stacktop stk ikey) as [key| |]; cbn [rbind]; try reflexivity.
  rewrite CheckSignatureEncoding_flags, CheckPubKeyEncoding_flags.
  destruct (CheckSignatureEncoding sig g); cbn [rbind]; try reflexivity.
  destruct (CheckPubKeyEncoding key g); cbn [rbind]; try reflexivity.
  destruct (or_throw _) as [[|]| |]; cbn [rbind]; try reflexivity; apply IH.
Qed.

Lemma op_checksig_flags op st :
  op_checksig f checker sigversion op st = op_checksig g checker sigversion op st.
Proof.
  unfold op_checksig. destruct (stack st) as [|key [|sig s]]; try reflexivity.
  destruct (drop_signature _ _); cbn [rbind]; try reflexivity.
  now rewrite CheckSignatureEncoding_flags, CheckPubKeyEncoding_flags.
Qed.

Lemma rbind_ext {A B} (m : result A) (k1 k2 : A -> result B) :
  (forall x, k1 x = k2 x) -> rbind m k1 = rbind m k2.
Proof. destruct m; cbn; auto. Qed.

Lemma op_checkmultisig_flags op st :
  op_checkmultisig f checker sigversion op st = op_checkmultisig g checker sigversion op st.
Proof.
  unfold op_checkmultisig. rewrite fRequireMinimal_flags. same_flag_rw.
  destruct (_ <? 1); [reflexivity|].
  apply rbind_ext; intros top. apply rbind_ext; intros n.
  destruct (_ || _); [reflexivity|]. destruct (_ >? 201); [reflexivity|].
  destruct (_ <? _); [reflexivity|].
  apply rbind_ext; intros top2. apply rbind_ext; intros m.
  destruct (_ || _); [reflexivity|]. destruct (_ <? _); [reflexivity|].
  apply rbind_ext; intros code. now rewrite multisig_loop_flags.
Qed.

Lemma exec_opcode_flags op fExec pc st :
  exec_opcode script f checker sigversion op fExec pc st =
  exec_opcode script g checker sigversion op fExec pc st.
Proof.
  unfold exec_opcode, stack_op. rewrite fRequireMinimal_flags.
  rewrite op_checksig_flags, op_checkmultisig_flags.
  repeat match goal with
  | |- context [if ?c then _ else _] => destruct c
  end; try reflexivity; cbn [rbind];
  now rewrite ?op_checklocktimeverify_flags, ?op_upgradable_nop_flags.
Qed.

Lemma eval_loop_flags fuel : forall pc st,
  eval_loop script f checker sigversion fuel pc st = eval_loop script g checker sigversion fuel pc st.
Proof.
  induction fuel as [|n IH]; intros [|x pc] st; [reflexivity|reflexivity|reflexivity|].
  rewrite !eval_loop_cons.
  assert (E : eval_step script f checker sigversion (x :: pc) st
            = eval_step script g checker sigversion (x :: pc) st).
  { unfold eval_step. destruct (GetOp (x :: pc)) as [[[op d] pc']|]; [|reflexivity].
    now rewrite fRequireMinimal_flags, exec_opcode_flags. }
  rewrite E. apply rbind_ext. intros [pc' st']. apply IH.
Qed.

Lemma EvalScript_flags s :
  EvalScript script f checker sigversion s = EvalScript script g checker sigversion s.
Proof. unfold EvalScript. now rewrite eval_loop_flags. Qed.
End Flags.

Lemma VerifyScript_flags {crypto : ScriptCrypto} f g scriptSig scriptPubKey checker sigversion :
  same_flags f g ->
  VerifyScript scriptSig scriptPubKey f checker sigversion = VerifyScript scriptSig scriptPubKey g checker sigversion.
Proof.
  intros H. unfold VerifyScript.
  rewrite !(same_flag f g H) by (cbn; tauto).
  rewrite !(EvalScript_flags _ _ _ f g H).
  apply rbind_ext. intros _. apply rbind_ext. intros s1.
  rewrite (EvalScript_flags _ _ _ f g H). apply rbind_ext. intros s2. apply rbind_ext. intros _.
  destruct (_ && _); [|reflexivity]. apply rbind_ext. intros b. apply rbind_ext. intros _.
  destruct s1 as [|r s1]; [reflexivity|]. now rewrite (EvalScript_flags _ _ _ f g H).
Qed.

Lemma has_flag_cleanstack f m : Z.land SCRIPT_VERIFY_CLEANSTACK m = 0 ->
  has_flag (Z.lor f SCRIPT_VERIFY_CLEANSTACK) m = has_flag f m.
Proof. intros H. unfold has_flag. now rewrite Z.land_lor_distr_l, H, Z.lor_0_r. Qed.

(** [SCRIPT_VERIFY_CLEANSTACK] has no effect: with the flag or without it
    [VerifyScript] gives the same verdict and the same error, so an input that
    leaves more than one element on the stack is still accepted. *)
Theorem CLEANSTACK_not_enforced {crypto : ScriptCrypto} scriptSig scriptPubKey flags checker sigversion :
  VerifyScript scriptSig scriptPubKey (Z.lor flags SCRIPT_VERIFY_CLEANSTACK) checker sigversion =
  VerifyScript scriptSig scriptPubKey flags checker sigversion.
Proof.
  apply VerifyScript_flags. unfold same_flags, tested_flags.
  repeat (apply Forall_cons; [apply has_flag_cleanstack; reflexivity|]). apply Forall_nil.
Qed.

(** * Signature encodings *)

(** A positive big-endian integer in its shortest form. *)
Definition der_int (x : list Z) : Prop :=
  match x with
  | [] => False
  | [a] => a < 128
  | a :: b :: _ => a < 128 /\ (a = 0 -> 128 <= b)
  end.

Definition der_encoding (r s : list Z) (ht : Z) : list Z :=
  [0x30; size r + size s + 4; 0x02; size r] ++ r ++ [0x02; size s] ++ s ++ [ht].

Lemma nth_app_at (l r : list Z) i k : i = (length l + k)%nat -> (l ++ r).[i] = r.[k].
Proof. intros ->. rewrite app_nth2 by lia. f_equal. lia. Qed.

(** The tests on an integer of length [n] whose first bytes are [a] and [b]. *)
Lemma der_int_test x rest a b :
  bytes_ok x -> a = (x ++ rest).[0] -> (x <> [] -> b = (x ++ rest).[1]) ->
  (negb (size x =? 0) && (Z.land a 0x80 =? 0) &&
   negb ((size x >? 1) && (a =? 0) && (Z.land b 0x80 =? 0))) = true <-> der_int x.
Proof.
  intros Hx Ha Hb. destruct x as [|a' [|b' x]].
  - cbn. split; [discriminate|easy].
  - cbn in Ha. subst a'. apply Forall_inv in Hx. rewrite testbit80 by assumption.
    cbn [der_int]. change (size [a]) with 1. cbn. rewrite andb_true_r. apply Z.ltb_lt.
  - cbn in Ha, Hb. specialize (Hb ltac:(discriminate)). subst a' b'.
    apply Forall_cons_iff in Hx as [Ha Hx]. apply Forall_inv in Hx as Hb.
    rewrite !testbit80 by assumption. cbn [der_int]. rewrite !size_cons.
    pose proof (size_nonneg x). destruct (Z.eqb_spec (size x + 1 + 1) 0); [lia|].
    destruct (Z.gtb_spec (size x + 1 + 1) 1); [|lia]. cbn [negb andb].
    destruct (Z.ltb_spec a 128); cbn [andb]; [|split; [discriminate|intuition lia]].
    destruct (Z.eqb_spec a 0); cbn [andb negb]; [|intuition].
    destruct (Z.ltb_spec b 128); cbn; intuition lia.
Qed.

Section DER.
Context (r s : list Z) (ht : Z) (Hr : bytes_ok r) (Hs : bytes_ok s).

Lemma der_size : size (der_encoding r s ht) = size r + size s + 7.
Proof. unfold der_encoding. rewrite !size_app. cbn [size length]. change (size [ht]) with 1. 
  change (size [2; size s]) with 2. change (size [48; size r + size s + 4; 2; size r]) with 4. lia. Qed.

Lemma der_nth_R k : (der_encoding r s ht).[(4 + k)%nat] = (r ++ [0x02; size s] ++ s ++ [ht]).[k].
Proof. now apply (nth_app_at [0x30; size r + size s + 4; 0x02; size r]). Qed.

Lemma der_nth_S k : (der_encoding r s ht).[Z.to_nat (size r + 4 + Z.of_nat k)]
  = ([0x02; size s] ++ s ++ [ht]).[k].
Proof.
  replace (Z.to_nat (size r + 4 + Z.of_nat k)) with (4 + (length r + k))%nat by (unfold size; lia).
  rewrite der_nth_R. now apply nth_app_at.
Qed.

Lemma IsValidSignatureEncoding_der :
  IsValidSignatureEncoding (der_encoding r s ht) = true <->
  size r + size s <= 66 /\ der_int r /\ der_int s.
Proof.
  pose proof (size_nonneg r). pose proof (size_nonneg s).
  rewrite <- (der_int_test r ([0x02; size s] ++ s ++ [ht])
    (der_encoding r s ht).[4] (der_encoding r s ht).[5] Hr (der_nth_R 0) (fun _ => der_nth_R 1)).
  rewrite <- (der_int_test s [ht] (der_encoding r s ht).[Z.to_nat (size r + 6)]
    (der_encoding r s ht).[Z.to_nat (size r + 7)] Hs).
  2: { transitivity ([0x02; size s] ++ s ++ [ht]).[2]; [|reflexivity].
       rewrite <- (der_nth_S 2). f_equal. lia. }
  2: { intros _. transitivity ([0x02; size s] ++ s ++ [ht]).[3]; [|reflexivity].
       rewrite <- (der_nth_S 3). f_equal. lia. }
  unfold IsValidSignatureEncoding. rewrite der_size.
  change (der_encoding r s ht).[0] with 0x30. change (der_encoding r s ht).[1] with (size r + size s + 4).
  change (der_encoding r s ht).[2] with 0x02. change (der_encoding r s ht).[3] with (size r).
  replace (Z.to_nat (5 + size r)) with (Z.to_nat (size r + 4 + Z.of_nat 1)) by lia.
  replace (Z.to_nat (size r + 4)) with (Z.to_nat (size r + 4 + Z.of_nat 0)) by lia.
  rewrite !der_nth_S. cbn [app nth].
  set (a := (der_encoding r s ht).[4]). set (b := (der_encoding r s ht).[5]).
  set (c := (der_encoding r s ht).[Z.to_nat (size r + 6)]).
  set (d := (der_encoding r s ht).[Z.to_nat (size r + 7)]).
  change (0x30 =? 0x30) with true. change (0x02 =? 0x02) with true. cbn [negb].
  replace (size r + size s + 4 =? size r + size s + 7 - 3) with true by (symmetry; apply Z.eqb_eq; lia).
  replace (size r + size s + 7 =? size r + size s + 7) with true by (symmetry; apply Z.eqb_refl).
  cbn [negb].
  destruct (Z.geb_spec (5 + size r) (size r + size s + 7)); [lia|].
  destruct (Z.eqb_spec (size r) 0); destruct (Z.eqb_spec (size s) 0);
    destruct (Z.ltb_spec (size r + size s + 7) 9); destruct (Z.gtb_spec (size r + size s + 7) 73);
    cbn [negb andb]; try lia; try (split; [discriminate|intuition (discriminate || lia)]);
    destruct (Z.land a 0x80 =? 0), (Z.land c 0x80 =? 0); cbn [negb andb];
    repeat match goal with |- context [if ?t then _ else _] => destruct t eqn:? end;
    rewrite ?Heqb0, ?Heqb1; cbn [negb]; split; try discriminate; try (intuition (discriminate || lia)).
Qed.
End DER.

Lemma bytes_ok_nth l i : bytes_ok l -> 0 <= l.[i] < 256.
Proof.
  intros Hl. revert i; induction Hl as [|b l Hb _ IH]; intros [|i]; cbn [nth]; auto; lia.
Qed.

(** The length tests alone fix the layout. *)
Lemma IsValidSignatureEncoding_layout sig :
  bytes_ok sig -> IsValidSignatureEncoding sig = true ->
  exists r s ht, sig = der_encoding r s ht /\ bytes_ok r /\ bytes_ok s.
Proof.
  intros Hb H. unfold IsValidSignatureEncoding in H.
  pose proof (bytes_ok_nth sig (Z.to_nat (5 + sig.[3])) Hb) as HlenS.
  repeat match type of H with (if ?c then _ else _) = true => destruct c eqn:?; [discriminate H|] end.
  clear H. breflect.
  destruct sig as [|b0 [|b1 [|b2 [|lenR t]]]]; try (cbn in *; lia).
  cbn [nth] in *. rewrite !size_cons in *. subst b0 b2.
  do 4 apply Forall_cons_iff in Hb as [? Hb]. unfold byte_ok in *.
  set (n := Z.to_nat lenR). assert (Hn : (n + 3 <= length t)%nat) by (unfold n, size in *; lia).
  exists (firstn n t).
  assert (Ht : t = firstn n t ++ t.[n] :: t.[S n] :: skipn (S (S n)) t).
  { rewrite (list_split_at n t 0) at 1 by lia. do 2 f_equal.
    rewrite (list_split_at 0 (skipn (S n) t) 0) by (rewrite length_skipn; lia).
    cbn [firstn app]. rewrite nth_skipn, skipn_skipn.
    now replace (S n + 0)%nat with (S n) by lia. }
  set (u := skipn (S (S n)) t) in *.
  assert (Hu : length u = S (Z.to_nat t.[S n])).
  { unfold u. rewrite length_skipn.
    replace (Z.to_nat (5 + lenR)) with (4 + S n)%nat in * by (unfold n; lia).
    cbn [nth Nat.add] in *. unfold n, size in *. lia. }
  assert (Hune : u <> []) by (intros ->; discriminate).
  exists (removelast u), (last u 0).
  assert (Hsr : size (firstn n t) = lenR) by (unfold size; rewrite length_firstn; unfold n; lia).
  assert (Hss : size (removelast u) = t.[S n]).
  { pose proof (app_removelast_last 0 Hune) as E. apply (f_equal (@length Z)) in E.
    rewrite length_app in E. cbn [length] in E.
    replace (Z.to_nat (5 + lenR)) with (4 + S n)%nat in * by (unfold n; lia).
    cbn [nth Nat.add] in *. unfold size in *. lia. }
  rewrite Ht in Hb at 1. apply bytes_ok_app in Hb as [Hbr Hb]. do 2 apply Forall_cons_iff in Hb as [_ Hb].
  rewrite (app_removelast_last 0 Hune) in Hb. apply bytes_ok_app in Hb as [Hbs _].
  repeat split; auto. unfold der_encoding. rewrite Hsr, Hss.
  replace (Z.to_nat (5 + lenR)) with (4 + S n)%nat in * by (unfold n; lia).
  replace (Z.to_nat (lenR + 4)) with (4 + n)%nat in * by (unfold n; lia).
  cbn [nth Nat.add] in *. cbn [app]. do 4 f_equal; [lia|].
  rewrite Ht at 1. f_equal. do 2 f_equal; [congruence|].
  now apply app_removelast_last.
Qed.

(** [IsValidSignatureEncoding] accepts exactly the strict DER encodings of
    two positive integers in shortest form followed by a hash-type byte, of at
    most 73 bytes in all; its indexing never leaves the signature. *)
Theorem IsValidSignatureEncoding_iff_der sig :
  bytes_ok sig ->
  (IsValidSignatureEncoding sig = true <->
   exists r s ht, sig = der_encoding r s ht /\ bytes_ok r /\ bytes_ok s /\
     size r + size s <= 66 /\ der_int r /\ der_int s).
Proof.
  intros Hb. split.
  - intros H. destruct (IsValidSignatureEncoding_layout sig Hb H) as (r & s & ht & -> & Hr & Hs).
    exists r, s, ht. apply IsValidSignatureEncoding_der in H; auto.
  - intros (r & s & ht & -> & Hr & Hs & H). now apply IsValidSignatureEncoding_der.
Qed.
Lemma IsValidSignatureEncoding_iff_der_witness :
  IsValidSignatureEncoding [0x30; 7; 2; 1; 5; 2; 2; 0; 200; 1] = true.
Proof.
  apply IsValidSignatureEncoding_iff_der.
  - repeat constructor; discriminate.
  - exists [5], [0; 200], 1. split; [reflexivity|]. split; [repeat constructor; discriminate|].
    split; [repeat constructor; discriminate|]. split; [discriminate|]. cbn. lia.
Defined.

(** * Minimal pushes *)

Lemma GetOp_push_form pc opcode data pc' :
  bytes_ok pc -> opcode <= OP_PUSHDATA4 -> size pc < 2 ^ 32 ->
  GetOp pc = Some (opcode, data, pc') ->
  exists len, pc = opcode :: len ++ data ++ pc' /\
    (opcode < OP_PUSHDATA1 -> len = [] /\ size data = opcode) /\
    (opcode = OP_PUSHDATA1 -> len = [size data]) /\
    (opcode = OP_PUSHDATA2 -> len = WriteLE16 (size data)) /\
    (opcode = OP_PUSHDATA4 -> len = WriteLE32 (size data)).
Proof.
  intros Hb Ho Hsz H. unfold GetOp, GetOp2 in H. destruct pc as [|c pc]; [discriminate|].
  apply Forall_cons_iff in Hb as [Hc Hb]. rewrite size_cons in Hsz.
  assert (c = opcode) as ->.
  { destruct (c <=? OP_PUSHDATA4); [|congruence]. apply obind_Some in H as ([n r] & _ & H).
    destruct (_ <? n); congruence. }
  destruct (Z.leb_spec opcode OP_PUSHDATA4); [|lia].
  apply obind_Some in H as ([n r] & Hn & H).
  destruct (Z.ltb_spec (u32 (size r)) n) as [|Hle]; [discriminate|].
  assert (Hd : data = firstn (Z.to_nat n) r) by congruence.
  assert (Hp : pc' = skipn (Z.to_nat n) r) by congruence. clear H.
  assert (Hlen : exists len, pc = len ++ r /\ 0 <= n /\
    (opcode < OP_PUSHDATA1 -> len = [] /\ n = opcode) /\ (opcode = OP_PUSHDATA1 -> len = [n]) /\
    (opcode = OP_PUSHDATA2 -> len = WriteLE16 n) /\ (opcode = OP_PUSHDATA4 -> len = WriteLE32 n)).
  { unfold byte_ok in Hc. unfold OP_PUSHDATA1, OP_PUSHDATA2, OP_PUSHDATA4 in *.
    destruct (Z.ltb_spec opcode 0x4c).
    { injection Hn as <- <-. exists []. repeat split; auto; lia. }
    destruct (Z.eqb_spec opcode 0x4c).
    { destruct pc as [|b pc]; [discriminate|]. injection Hn as <- <-.
      apply Forall_inv in Hb. unfold byte_ok in Hb. exists [b]. repeat split; auto; lia. }
    assert (Hrd : forall k, (size pc <? Z.of_nat k) = false ->
      let l := firstn k pc in pc = l ++ skipn k pc /\ le_bytes k (le_value l) = l /\ 0 <= le_value l).
    { intros k Hk l. apply Z.ltb_ge in Hk. assert (Hbl : bytes_ok l).
      { rewrite (firstn_skipn_eq k) in Hb. now apply bytes_ok_app in Hb as [? _]. }
      split; [apply firstn_skipn_eq|]. split.
      - rewrite <- (le_bytes_value l Hbl) at 2. f_equal. unfold l, size in *.
        rewrite length_firstn. lia.
      - pose proof (le_value_size l Hbl). lia. }
    destruct (Z.eqb_spec opcode 0x4d).
    - destruct (size pc <? 2) eqn:E2; [discriminate|]. destruct (Hrd 2%nat E2) as (H1 & H2 & H3).
      assert (n = ReadLE16 pc) as -> by congruence. assert (r = skipn 2 pc) as -> by congruence.
      exists (firstn 2 pc). unfold ReadLE16, WriteLE16. repeat split; auto; lia.
    - destruct (size pc <? 4) eqn:E4; [discriminate|]. destruct (Hrd 4%nat E4) as (H1 & H2 & H3).
      assert (n = ReadLE32 pc) as -> by congruence. assert (r = skipn 4 pc) as -> by congruence.
      exists (firstn 4 pc). unfold ReadLE32, WriteLE32. repeat split; auto; lia. }
  destruct Hlen as (len & -> & Hn0 & H1 & H2 & H3 & H4).
  rewrite size_app in Hsz. pose proof (size_nonneg len). pose proof (size_nonneg r).
  rewrite u32_small in Hle by lia.
  assert (Hsd : size data = n).
  { subst data. unfold size in *. rewrite length_firstn. lia. }
  exists len. rewrite Hsd, Hd, Hp, firstn_skipn. repeat split; auto; apply H1; auto.
Qed.

(** With [SCRIPT_VERIFY_MINIMALDATA], an executed push has only one encoding:
    the bytes of the instruction are exactly those [operator<<] writes for the
    pushed value, and values that have an opcode of their own (the empty vector
    apart, small integers and -1) are not accepted from a push at all. *)
Theorem minimal_push_unique pc opcode data pc' :
  bytes_ok pc -> size pc < 2 ^ 32 -> size data <= MAX_SCRIPT_ELEMENT_SIZE ->
  GetOp pc = Some (opcode, data, pc') -> opcode <= OP_PUSHDATA4 ->
  CheckMinimalPush data opcode = true ->
  pc = push_data [] data ++ pc' /\ (forall n, -1 <= n <= 16 -> n <> 0 -> data <> ScriptNum.serialize n).
Proof.
  intros Hb Hsz Hd H Ho Hm.
  destruct (GetOp_push_form _ _ _ _ Hb Ho Hsz H) as (len & E & H1 & H2 & H3 & H4).
  pose proof (size_nonneg data). unfold CheckMinimalPush in Hm.
  split.
  - rewrite E. unfold push_data. cbn [app]. rewrite <- app_assoc.
    unfold MAX_SCRIPT_ELEMENT_SIZE, OP_PUSHDATA1, OP_PUSHDATA2, OP_PUSHDATA4, OP_0, OP_1, OP_1NEGATE in *.
    repeat match type of Hm with
    | (if ?c then _ else _) = true => destruct c eqn:?
    end; breflect; try lia;
    repeat (case_match_goal; breflect; try lia); rewrite ?u8_small by lia;
    try (destruct H1 as [-> ?]; [lia|]; cbn [app]; f_equal; lia);
    try (rewrite H2 by lia; cbn [app]; f_equal; lia).
    rewrite H3 by lia. unfold u16. rewrite Z.mod_small by lia. cbn [app]. f_equal; lia.
  - intros n Hn Hn0 Edata.
    assert (Hs : data = [if n =? -1 then 0x81 else n]).
    { subst data. assert (Hc : In n (map Z.of_nat (seq 1 16)) \/ n = -1).
      { destruct (Z.eq_dec n (-1)); [now right|]. left. apply in_map_iff. exists (Z.to_nat n).
        split; [lia|]. apply in_seq. lia. }
      destruct Hc as [Hc| ->]; [|reflexivity]. cbn in Hc.
      repeat (destruct Hc as [<-|Hc]; [reflexivity|]). destruct Hc. }
    rewrite Hs in Hm. unfold OP_1NEGATE, OP_1, OP_PUSHDATA4 in *.
    change (size [if n =? -1 then 129 else n]) with 1 in Hm. cbn [nth Z.eqb Pos.eqb andb] in Hm.
    destruct (Z.eqb_spec n (-1)); [cbn in Hm; breflect; lia|].
    destruct (Z.geb_spec n 1); [|lia]. destruct (Z.leb_spec n 16); [|lia]. cbn [andb] in Hm.
    breflect. lia.
Qed.
Lemma minimal_push_unique_witness :
  [2; 7; 8; OP_DROP] = push_data [] [7; 8] ++ [OP_DROP].
Proof.
  apply (minimal_push_unique [2; 7; 8; OP_DROP] 2 [7; 8] [OP_DROP]).
  - repeat constructor; discriminate.
  - reflexivity.
  - discriminate.
  - reflexivity.
  - discriminate.
  - reflexivity.
Defined.
