(* ===== verification/Standard.v ===== *)
(** Standard output scripts (src/script/standard.cpp, src/pubkey.h): the templates,
    the scripts built for destinations and the solver that recognises them. *)
From Stdlib Require Import ZArith Lia List Bool.
From S2P Require Import Prelude Serialize Script Interpreter.
Import ListNotations.
Local Open Scope Z_scope.
Local Open Scope passion_scope.

(** * Public keys as byte strings *)

Definition PUBLIC_KEY_SIZE : Z := 65.
Definition COMPRESSED_PUBLIC_KEY_SIZE : Z := 33.
Definition GetLen (chHeader : Z) : Z :=
  if (chHeader =? 2) || (chHeader =? 3) then COMPRESSED_PUBLIC_KEY_SIZE
  else if (chHeader =? 4) || (chHeader =? 6) || (chHeader =? 7) then PUBLIC_KEY_SIZE
  else 0.
Definition ValidSize (vch : list Z) : bool := (size vch >? 0) && (GetLen (vch.[0]) =? size vch).
(** [CPubKey(vch)]; the empty list is the invalid key. *)
Definition CPubKey (vch : list Z) : list Z := if ValidSize vch then vch else [].
Definition CPubKey_IsValid (key : list Z) : bool := size key >? 0.

(** * Templates *)

Inductive txnouttype :=
  TX_NONSTANDARD | TX_PUBKEY | TX_PUBKEYHASH | TX_SCRIPTHASH | TX_MULTISIG | TX_NULL_DATA | TX_COLDSTAKE.

(** [valtype(script.begin() + from, script.begin() + to)] *)
Definition range (script : CScript) (from to : nat) : list Z := firstn (to - from) (skipn from script).

Definition MatchPayToPubkey (script : CScript) : option (list Z) :=
  if (size script =? PUBLIC_KEY_SIZE + 2) && (script.[0] =? PUBLIC_KEY_SIZE) && (last script 0 =? OP_CHECKSIG) then
    let pubkey := range script 1 66 in if ValidSize pubkey then Some pubkey else None
  else if (size script =? COMPRESSED_PUBLIC_KEY_SIZE + 2) && (script.[0] =? COMPRESSED_PUBLIC_KEY_SIZE) && (last script 0 =? OP_CHECKSIG) then
    let pubkey := range script 1 34 in if ValidSize pubkey then Some pubkey else None
  else None.

Definition MatchPayToPubkeyHash (script : CScript) : option (list Z) :=
  if (size script =? 25) && (script.[0] =? OP_DUP) && (script.[1] =? OP_HASH160) && (script.[2] =? 20)
     && (script.[23] =? OP_EQUALVERIFY) && (script.[24] =? OP_CHECKSIG)
  then Some (range script 3 23) else None.

Definition MatchPayToColdStaking (script : CScript) : option (list Z * list Z) :=
  if IsPayToColdStaking script then Some (range script 6 26, range script 28 48) else None.

Definition IsSmallInteger (opcode : Z) : bool := (opcode >=? OP_1) && (opcode <=? OP_16).

(** The loop over the keys: the opcode that ended it, the position and the keys.  A
    failing [GetOp] leaves [OP_INVALIDOPCODE]. *)
Fixpoint multisig_keys (fuel : nat) (it : CScript) (pubkeys : list (list Z)) : option (Z * CScript * list (list Z)) :=
  match GetOp it with
  | None => Some (OP_INVALIDOPCODE, GetOp_failed it, pubkeys)
  | Some (opcode, data, it) =>
      if ValidSize data then match fuel with O => None | S fuel => multisig_keys fuel it (pubkeys ++ [data]) end
      else Some (opcode, it, pubkeys)
  end.
Definition MatchMultisig (script : CScript) : option (Z * list (list Z)) :=
  if (size script <? 1) || negb (last script 0 =? OP_CHECKMULTISIG) then None
  else
    match GetOp script with
    | None => None
    | Some (opcode, _, it) =>
        if negb (IsSmallInteger opcode) then None
        else
          required <- DecodeOP_N opcode;;
          ' (opcode, it, pubkeys) <- multisig_keys (length script) it [];;
          if negb (IsSmallInteger opcode) then None
          else
            keys <- DecodeOP_N opcode;;
            if negb (size pubkeys =? keys) || (keys <? required) then None
            else if size it =? 1 then Some (required, pubkeys) else None
    end.

(** [None]: the solver answers false. *)
Definition Solver (scriptPubKey : CScript) : option (txnouttype * list (list Z)) :=
  if size scriptPubKey =? 0 then None
  else if IsPayToScriptHash scriptPubKey then Some (TX_SCRIPTHASH, [range scriptPubKey 2 22])
  else if (size scriptPubKey >=? 1) && (scriptPubKey.[0] =? OP_RETURN)
          && (match IsPushOnly (skipn 1 scriptPubKey) with Some b => b | None => false end)
  then Some (TX_NULL_DATA, [])
  else match MatchPayToPubkey scriptPubKey with
  | Some data => Some (TX_PUBKEY, [data])
  | None =>
  match MatchPayToPubkeyHash scriptPubKey with
  | Some data => Some (TX_PUBKEYHASH, [data])
  | None =>
  match MatchPayToColdStaking scriptPubKey with
  | Some (data, data1) => Some (TX_COLDSTAKE, [data; data1])
  | None =>
  match MatchMultisig scriptPubKey with
  | Some (required, keys) => Some (TX_MULTISIG, [u8 required] :: keys ++ [[u8 (size keys)]])
  | None => None
  end end end end.

Definition ScriptSigArgsExpected (t : txnouttype) (vSolutions : list (list Z)) : Z :=
  match t with
  | TX_NONSTANDARD | TX_NULL_DATA => -1
  | TX_PUBKEY => 1
  | TX_PUBKEYHASH => 2
  | TX_COLDSTAKE => 3
  | TX_MULTISIG =>
      match vSolutions with
      | (m :: _) :: _ => m + 1
      | _ => -1
      end
  | TX_SCRIPTHASH => 1
  end.

(** * Destinations *)

Inductive CTxDestination := CNoDestination | CKeyID (h : list Z) | CScriptID (h : list Z).
Definition IsValidDestination (dest : CTxDestination) : bool := match dest with CNoDestination => false | _ => true end.

(** [uint160(vector)] asserts the size. *)
Definition uint160_of (v : list Z) : option (list Z) := if size v =? 20 then Some v else None.

Section Destinations.
Context {crypto : ScriptCrypto}.

Definition GetID (key : list Z) : list Z := Hash160 key.

(** The outer [None] is a failed assertion, the inner one the answer false. *)
Definition ExtractDestination (scriptPubKey : CScript) (fColdStake : bool) : option (option CTxDestination) :=
  match Solver scriptPubKey with
  | None => Some None
  | Some (TX_PUBKEY, v :: _) =>
      let pubKey := CPubKey v in
      if negb (CPubKey_IsValid pubKey) then Some None else Some (Some (CKeyID (GetID pubKey)))
  | Some (TX_PUBKEYHASH, v :: _) => h <- uint160_of v;; Some (Some (CKeyID h))
  | Some (TX_SCRIPTHASH, v :: _) => h <- uint160_of v;; Some (Some (CScriptID h))
  | Some (TX_COLDSTAKE, v) => h <- uint160_of (nth (if fColdStake then 0 else 1) v []);; Some (Some (CKeyID h))
  | Some _ => Some None
  end.

(** Type, destinations and number of signatures. *)
Definition ExtractDestinations (scriptPubKey : CScript) : option (option (txnouttype * list CTxDestination * Z)) :=
  match Solver scriptPubKey with
  | None => Some None
  | Some (TX_NULL_DATA, _) => Some None
  | Some (TX_MULTISIG, vSolutions) =>
      let keys := removelast (tl vSolutions) in
      let addressRet := map (fun k => CKeyID (GetID k)) (filter CPubKey_IsValid (map CPubKey keys)) in
      match addressRet with
      | [] => Some None
      | _ => Some (Some (TX_MULTISIG, addressRet, nth 0 (nth 0 vSolutions []) 0))
      end
  | Some (TX_COLDSTAKE, vSolutions) =>
      if size vSolutions <? 2 then Some None
      else
        a <- uint160_of (nth 0 vSolutions []);;
        b <- uint160_of (nth 1 vSolutions []);;
        Some (Some (TX_COLDSTAKE, [CKeyID a; CKeyID b], 2))
  | Some (t, _) =>
      d <- ExtractDestination scriptPubKey false;;
      match d with None => Some None | Some address => Some (Some (t, [address], 1)) end
  end.
End Destinations.

Definition GetScriptForDestination (dest : CTxDestination) : CScript :=
  match dest with
  | CNoDestination => []
  | CKeyID keyID => push_data [OP_DUP; OP_HASH160] keyID ++ [OP_EQUALVERIFY; OP_CHECKSIG]
  | CScriptID scriptID => push_data [OP_HASH160] scriptID ++ [OP_EQUAL]
  end.
Definition GetScriptForRawPubKey (pubKey : list Z) : CScript := push_data [] pubKey ++ [OP_CHECKSIG].
Definition GetScriptForStakeDelegation (stakingKey spendingKey : list Z) : CScript :=
  push_data (push_data [OP_DUP; OP_HASH160; OP_ROT; OP_IF; OP_CHECKCOLDSTAKEVERIFY] stakingKey ++ [OP_ELSE]) spendingKey
  ++ [OP_ENDIF; OP_EQUALVERIFY; OP_CHECKSIG].
Definition GetScriptForMultisig (nRequired : Z) (keys : list (list Z)) : option CScript :=
  m <- EncodeOP_N nRequired;;
  n <- EncodeOP_N (size keys);;
  Some (fold_left push_data keys [m] ++ [n; OP_CHECKMULTISIG]).
Definition GetScriptForOpReturn (message : list Z) : CScript := push_data [OP_RETURN] message.

(** [CTxOut::GetKeyIDFromUTXO] *)
Definition GetKeyIDFromUTXO {crypto : ScriptCrypto} (scriptPubKey : CScript) : option (option (list Z)) :=
  if size scriptPubKey =? 0 then Some None
  else match Solver scriptPubKey with
  | Some (TX_PUBKEY, v :: _) => Some (Some (GetID (CPubKey v)))
  | Some (TX_PUBKEYHASH, v :: _) | Some (TX_COLDSTAKE, v :: _) => h <- uint160_of v;; Some (Some h)
  | _ => Some None
  end.

(** * The solver and the builders *)

Lemma ValidSize_cases k : ValidSize k = true -> size k = 33 \/ size k = 65.
Proof.
  unfold ValidSize, GetLen, COMPRESSED_PUBLIC_KEY_SIZE, PUBLIC_KEY_SIZE. intros [H1 H2]%andb_true_iff. apply Z.eqb_eq in H2. rewrite Z.gtb_lt in H1.
  destruct (_ || _) in H2; [lia|]. destruct (_ || _ || _) in H2; lia.
Qed.
Lemma push_small script b : size b < 76 -> push_data script b = script ++ size b :: b.
Proof.
  intros H. unfold push_data. destruct (Z.ltb_spec (size b) OP_PUSHDATA1) as [_|X]; [|unfold OP_PUSHDATA1 in X; lia].
  rewrite u8_small; [reflexivity|]. pose proof (size_nonneg b). lia.
Qed.
Lemma push_data_length k : ValidSize k = true -> push_data [] k = size k :: k.
Proof. intros H. apply ValidSize_cases in H. rewrite push_small by lia. reflexivity. Qed.

(** A list known by its first element, its last one and its length. *)
Lemma split_ends (s : list Z) n : length s = S (S n) -> s = nth 0 s 0 :: firstn n (skipn 1 s) ++ [last s 0].
Proof.
  intros H. destruct s as [|a s]; [discriminate|]. cbn [nth skipn]. injection H as H. f_equal.
  assert (Hne : s <> []) by (destruct s; discriminate).
  pose proof (app_removelast_last 0 Hne) as E. rewrite removelast_firstn_len, H in E. cbn [Nat.pred] in E.
  replace (last (a :: s) 0) with (last s 0) by (destruct s; [now destruct Hne|reflexivity]). exact E.
Qed.
Lemma MatchPayToPubkey_iff s k : MatchPayToPubkey s = Some k <-> ValidSize k = true /\ s = GetScriptForRawPubKey k.
Proof.
  unfold MatchPayToPubkey, GetScriptForRawPubKey. split.
  - intros H. assert (exists n, (n = 65 \/ n = 33)%nat /\ size s = Z.of_nat n + 2 /\ nth 0 s 0 = Z.of_nat n /\ last s 0 = OP_CHECKSIG /\
      range s 1 (1 + n) = k /\ ValidSize k = true) as (n & Hn & H1 & H2 & H3 & H4 & H5).
    { destruct (_ && _ && _) eqn:E1 in H; [|destruct (_ && _ && _) eqn:E2 in H; [|discriminate]]; breflect; [exists 65%nat|exists 33%nat];
        (destruct (ValidSize _) eqn:EV in H; [|discriminate]; injection H as <-; repeat split; auto). }
    split; [exact H5|]. rewrite push_data_length by exact H5.
    assert (Hl : length s = S (S n)) by (unfold size in H1; lia). rewrite (split_ends s n Hl). unfold range in H4.
    replace (1 + n - 1)%nat with n in H4 by lia. rewrite H4, H2, H3. cbn [app]. f_equal.
    unfold size. rewrite <- H4, length_firstn, length_skipn, Hl. f_equal. lia.
  - intros [HV ->]. rewrite push_data_length by exact HV. cbn [app].
    assert (HL : forall n, length k = n -> range (size k :: k ++ [OP_CHECKSIG]) 1 (1 + n) = k).
    { intros n <-. unfold range. cbn [skipn]. replace (1 + length k - 1)%nat with (length k) by lia.
      now rewrite firstn_app, firstn_all, Nat.sub_diag, app_nil_r. }
    assert (Hlast : last (size k :: k ++ [OP_CHECKSIG]) 0 = OP_CHECKSIG)
      by (change (size k :: k ++ [OP_CHECKSIG]) with ((size k :: k) ++ [OP_CHECKSIG]); apply last_last).
    rewrite size_cons, size_app. change (size [OP_CHECKSIG]) with 1. cbn [nth]. rewrite Hlast.
    destruct (ValidSize_cases k HV) as [E|E]; rewrite E; cbn -[ValidSize range]; pose proof E as E'; unfold size in E'.
    + pose proof (HL 33%nat ltac:(lia)) as R. cbn [Nat.add] in R. rewrite E in R. now rewrite R, HV.
    + pose proof (HL 65%nat ltac:(lia)) as R. cbn [Nat.add] in R. rewrite E in R. now rewrite R, HV.
Qed.
Lemma MatchPayToPubkeyHash_iff s h : MatchPayToPubkeyHash s = Some h <-> length h = 20%nat /\ s = GetScriptForDestination (CKeyID h).
Proof.
  assert (E : MatchPayToPubkeyHash s = if IsPayToPublicKeyHash s then Some (range s 3 23) else None) by reflexivity.
  rewrite E. clear E. cbn [GetScriptForDestination]. split.
  - destruct (IsPayToPublicKeyHash s) eqn:Ep; [|discriminate]. apply IsPayToPublicKeyHash_iff in Ep as (h' & Hh & ->). intros [= <-].
    unfold range. cbn [skipn Nat.sub]. rewrite firstn_app, <- Hh, firstn_all, Nat.sub_diag. cbn [firstn]. rewrite app_nil_r.
    split; [reflexivity|]. rewrite push_small by (unfold size; lia). unfold size. now rewrite Hh.
  - intros [Hh ->]. rewrite push_small by (unfold size; lia). unfold size. rewrite Hh. cbn [app Z.of_nat Pos.of_succ_nat Pos.succ].
    rewrite (proj2 (IsPayToPublicKeyHash_iff _)) by (exists h; auto).
    unfold range. cbn [skipn Nat.sub]. now rewrite firstn_app, <- Hh, firstn_all, Nat.sub_diag, app_nil_r.
Qed.

(** Each answer of the solver comes from its own test. *)
Lemma Solver_type s t v : Solver s = Some (t, v) ->
  match t with
  | TX_SCRIPTHASH => IsPayToScriptHash s = true /\ v = [range s 2 22]
  | TX_NULL_DATA => nth 0 s 0 = OP_RETURN /\ v = []
  | TX_PUBKEY => exists k, MatchPayToPubkey s = Some k /\ v = [k]
  | TX_PUBKEYHASH => exists h, MatchPayToPubkeyHash s = Some h /\ v = [h]
  | TX_COLDSTAKE => exists a b, MatchPayToColdStaking s = Some (a, b) /\ v = [a; b]
  | TX_MULTISIG => exists m keys, MatchMultisig s = Some (m, keys) /\ v = [u8 m] :: keys ++ [[u8 (size keys)]]
  | TX_NONSTANDARD => False
  end.
Proof.
  unfold Solver. intros H. destruct (size s =? 0); [discriminate|].
  destruct (IsPayToScriptHash s) eqn:E1; [injection H as <- <-; auto|].
  destruct (_ && _) eqn:E2 in H; [injection H as <- <-; breflect; auto|].
  destruct (MatchPayToPubkey s) eqn:E3; [injection H as <- <-; eauto|].
  destruct (MatchPayToPubkeyHash s) eqn:E4; [injection H as <- <-; eauto|].
  destruct (MatchPayToColdStaking s) as [[]|] eqn:E5; [injection H as <- <-; eauto|].
  destruct (MatchMultisig s) as [[]|] eqn:E6; [injection H as <- <-; eauto|discriminate].
Qed.

Lemma IsPayToScriptHash_first s : nth 0 s 0 <> OP_HASH160 -> IsPayToScriptHash s = false.
Proof. intros H. unfold IsPayToScriptHash. apply Z.eqb_neq in H. now rewrite H, andb_false_r. Qed.
Lemma MatchPayToPubkeyHash_first s : nth 0 s 0 <> OP_DUP -> MatchPayToPubkeyHash s = None.
Proof. intros H. unfold MatchPayToPubkeyHash. apply Z.eqb_neq in H. now rewrite H, andb_false_r. Qed.
Lemma MatchPayToPubkey_first s : nth 0 s 0 <> 65 -> nth 0 s 0 <> 33 -> MatchPayToPubkey s = None.
Proof.
  intros H H'. unfold MatchPayToPubkey, PUBLIC_KEY_SIZE, COMPRESSED_PUBLIC_KEY_SIZE. apply Z.eqb_neq in H, H'. now rewrite H, H', !andb_false_r.
Qed.

Lemma script_hash_script h : length h = 20%nat -> GetScriptForDestination (CScriptID h) = OP_HASH160 :: 0x14 :: h ++ [OP_EQUAL].
Proof. intros H. cbn [GetScriptForDestination]. rewrite push_small by (unfold size; lia). unfold size. now rewrite H. Qed.
Lemma key_hash_script h : length h = 20%nat ->
  GetScriptForDestination (CKeyID h) = OP_DUP :: OP_HASH160 :: 0x14 :: h ++ [OP_EQUALVERIFY; OP_CHECKSIG].
Proof. intros H. cbn [GetScriptForDestination]. rewrite push_small by (unfold size; lia). unfold size. now rewrite H. Qed.

Lemma range_exact pre h rest n m : length pre = n -> m = (n + length h)%nat -> range (pre ++ h ++ rest) n m = h.
Proof.
  intros <- ->. unfold range. rewrite skipn_app, skipn_all, Nat.sub_diag. cbn [app skipn].
  replace (length pre + length h - length pre)%nat with (length h) by lia.
  now rewrite firstn_app, firstn_all, Nat.sub_diag, app_nil_r.
Qed.

Lemma range_script_hash h : length h = 20%nat -> range (OP_HASH160 :: 0x14 :: h ++ [OP_EQUAL]) 2 22 = h.
Proof. intros H. apply (range_exact [OP_HASH160; 0x14]); [reflexivity|lia]. Qed.

Lemma Solver_script_hash s h : Solver s = Some (TX_SCRIPTHASH, [h]) <-> length h = 20%nat /\ s = GetScriptForDestination (CScriptID h).
Proof.
  split.
  - intros H. apply Solver_type in H as [H1 H2]. apply IsPayToScriptHash_iff in H1 as (h' & Hh & ->). injection H2 as ->.
    rewrite range_script_hash by exact Hh. split; [exact Hh|].
    symmetry. now apply script_hash_script.
  - intros [Hh ->]. rewrite script_hash_script by exact Hh. unfold Solver.
    rewrite (proj2 (IsPayToScriptHash_iff _)) by (exists h; auto).
    rewrite range_script_hash by exact Hh.
    destruct (Z.eqb_spec (size (OP_HASH160 :: 0x14 :: h ++ [OP_EQUAL])) 0) as [E|_]; [|reflexivity].
    rewrite !size_cons in E. pose proof (size_nonneg (h ++ [OP_EQUAL])). lia.
Qed.

(** A script that starts with neither [OP_HASH160] nor [OP_RETURN] goes past the
    first tests. *)
Lemma Solver_tests s : s <> [] -> nth 0 s 0 <> OP_RETURN -> IsPayToScriptHash s = false ->
  Solver s = match MatchPayToPubkey s with
  | Some data => Some (TX_PUBKEY, [data])
  | None => match MatchPayToPubkeyHash s with
    | Some data => Some (TX_PUBKEYHASH, [data])
    | None => match MatchPayToColdStaking s with
      | Some (data, data1) => Some (TX_COLDSTAKE, [data; data1])
      | None => match MatchMultisig s with
        | Some (required, keys) => Some (TX_MULTISIG, [u8 required] :: keys ++ [[u8 (size keys)]])
        | None => None
        end end end end.
Proof.
  intros Hne Hr Hp. unfold Solver. rewrite Hp. apply Z.eqb_neq in Hr. rewrite Hr, andb_false_r. cbn [andb].
  destruct (Z.eqb_spec (size s) 0) as [E|_]; [|reflexivity]. destruct s; [now destruct Hne|]. rewrite size_cons in E.
  pose proof (size_nonneg s). lia.
Qed.

Lemma Solver_key_hash s h : Solver s = Some (TX_PUBKEYHASH, [h]) <-> length h = 20%nat /\ s = GetScriptForDestination (CKeyID h).
Proof.
  rewrite <- MatchPayToPubkeyHash_iff. split.
  - intros H. apply Solver_type in H as (h' & H1 & [= ->]). exact H1.
  - intros H. pose proof H as Hs. apply MatchPayToPubkeyHash_iff in Hs as [Hh ->]. rewrite key_hash_script in * by exact Hh.
    rewrite Solver_tests; [|discriminate..|]; [|now apply IsPayToScriptHash_first]. now rewrite MatchPayToPubkey_first, H.
Qed.
Lemma Solver_pubkey s k : Solver s = Some (TX_PUBKEY, [k]) <-> ValidSize k = true /\ s = GetScriptForRawPubKey k.
Proof.
  rewrite <- MatchPayToPubkey_iff. split.
  - intros H. apply Solver_type in H as (k' & H1 & [= ->]). exact H1.
  - intros H. pose proof H as Hs. apply MatchPayToPubkey_iff in Hs as [Hk ->]. unfold GetScriptForRawPubKey in *.
    rewrite push_data_length in * by exact Hk. cbn [app] in *. pose proof (ValidSize_cases k Hk) as Hc.
    rewrite Solver_tests; [now rewrite H|discriminate| |apply IsPayToScriptHash_first]; cbn [nth]; unfold OP_RETURN, OP_HASH160; lia.
Qed.
Lemma Solver_coldstake a b : length a = 20%nat -> length b = 20%nat ->
  Solver (GetScriptForStakeDelegation a b) = Some (TX_COLDSTAKE, [a; b]).
Proof.
  intros Ha Hb. do 20 (destruct a as [|? a]; [discriminate|]). do 20 (destruct b as [|? b]; [discriminate|]).
  destruct a; [|discriminate]. destruct b; [|discriminate]. reflexivity.
Qed.

(** ** Multisignature scripts *)

Lemma fold_push_data keys : forall s, fold_left push_data keys s = s ++ concat (map (push_data []) keys).
Proof.
  induction keys as [|k keys IH]; intros s; cbn [fold_left map concat]; [now rewrite app_nil_r|].
  rewrite IH. unfold push_data at 1 3. cbn [app]. now rewrite <- app_assoc.
Qed.
Definition keys_size (keys : list (list Z)) : Z := size (concat (map (push_data []) keys)).
Lemma keys_size_form keys : Forall (fun k => ValidSize k = true) keys ->
  exists a b, 0 <= a /\ 0 <= b /\ keys_size keys = 34 * a + 66 * b /\ size keys = a + b.
Proof.
  unfold keys_size. induction 1 as [|k keys Hk HF (a & b & Ha & Hb & E & E')]; [exists 0, 0; cbn; lia|].
  cbn [map concat]. rewrite size_app, push_data_length, !size_cons, E, E' by exact Hk.
  destruct (ValidSize_cases k Hk) as [-> | ->]; [exists (a + 1), b|exists a, (b + 1)]; lia.
Qed.

Lemma multisig_keys_spec n : ValidSize [] = false -> OP_1 <= n <= OP_16 -> forall keys fuel acc,
  Forall (fun k => ValidSize k = true) keys -> keys_size keys < 2 ^ 31 -> (length keys <= fuel)%nat ->
  multisig_keys fuel (concat (map (push_data []) keys) ++ [n; OP_CHECKMULTISIG]) acc = Some (n, [OP_CHECKMULTISIG], acc ++ keys).
Proof.
  intros H0 Hn. unfold OP_1, OP_16 in Hn. induction keys as [|k keys IH]; intros fuel acc HF Hs Hf; cbn [map concat app].
  - destruct fuel; cbn [multisig_keys GetOp GetOp2]; (destruct (Z.leb_spec n OP_PUSHDATA4) as [X|_]; [unfold OP_PUSHDATA4 in X; lia|]);
      rewrite H0, app_nil_r; reflexivity.
  - apply Forall_cons_iff in HF as [Hk HF]. unfold keys_size in Hs. cbn [map concat] in Hs. rewrite size_app in Hs.
    pose proof (size_nonneg (push_data [] k)). pose proof (size_nonneg (concat (map (push_data []) keys))).
    destruct fuel as [|fuel]; [cbn in Hf; lia|]. cbn [multisig_keys]. rewrite <- app_assoc, GetOp_push_data.
    + rewrite Hk, IH by (unfold keys_size; auto; cbn in Hf; lia). now rewrite <- app_assoc.
    + rewrite push_data_length, size_cons in * by exact Hk. rewrite !size_app. change (size [n; OP_CHECKMULTISIG]) with 2. lia.
Qed.

Lemma EncodeOP_N_small n : 1 <= n <= 16 -> EncodeOP_N n = Some (OP_1 + n - 1) /\ DecodeOP_N (OP_1 + n - 1) = Some n /\
  IsSmallInteger (OP_1 + n - 1) = true /\ OP_1 <= OP_1 + n - 1 <= OP_16.
Proof.
  intros H. assert (E : n = 1 \/ n = 2 \/ n = 3 \/ n = 4 \/ n = 5 \/ n = 6 \/ n = 7 \/ n = 8 \/ n = 9 \/ n = 10 \/ n = 11 \/ n = 12 \/ n = 13 \/ n = 14 \/ n = 15 \/ n = 16) by lia.
  repeat (destruct E as [-> | E]; [repeat split; discriminate|]). subst n. repeat split; discriminate.
Qed.

Lemma Solver_multisig m keys : Forall (fun k => ValidSize k = true) keys -> 1 <= m <= size keys -> size keys <= 16 ->
  exists s, GetScriptForMultisig m keys = Some s /\ Solver s = Some (TX_MULTISIG, [m] :: keys ++ [[size keys]]).
Proof.
  intros HF Hm Hk. destruct (EncodeOP_N_small m ltac:(lia)) as (E1 & D1 & I1 & R1), (EncodeOP_N_small (size keys) ltac:(lia)) as (E2 & D2 & I2 & R2).
  destruct (keys_size_form keys HF) as (a & b & Ha & Hb & Hsz & Hab).
  unfold GetScriptForMultisig. rewrite E1, E2. cbn [obind]. eexists. split; [reflexivity|]. rewrite fold_push_data, <- app_assoc. cbn [app].
  set (om := OP_1 + m - 1) in *. set (on := OP_1 + size keys - 1) in *. unfold OP_1, OP_16 in R1, R2.
  set (s := om :: _). assert (Hss : size s = keys_size keys + 3).
  { unfold s. rewrite size_cons, size_app. fold (keys_size keys). change (size [on; OP_CHECKMULTISIG]) with 2. lia. }
  assert (Hlast : last s 0 = OP_CHECKMULTISIG).
  { unfold s. change [on; OP_CHECKMULTISIG] with ([on] ++ [OP_CHECKMULTISIG]). rewrite app_assoc.
    apply (last_last (om :: concat (map (push_data []) keys) ++ [on])). }
  assert (Hkl : (length keys <= length s)%nat) by (unfold size in *; lia).
  rewrite Solver_tests; [|discriminate|unfold s, OP_RETURN; cbn [nth]; lia|apply IsPayToScriptHash_first; unfold s, OP_HASH160; cbn [nth]; lia].
  rewrite MatchPayToPubkey_first, MatchPayToPubkeyHash_first by (unfold s, OP_DUP; cbn [nth]; lia).
  unfold MatchPayToColdStaking, IsPayToColdStaking. destruct (Z.eqb_spec (size s) 51) as [X|_]; [lia|]. cbn [andb].
  unfold MatchMultisig. rewrite Hlast. destruct (Z.ltb_spec (size s) 1) as [X|_]; [lia|]. cbn [orb negb Z.eqb Pos.eqb OP_CHECKMULTISIG].
  assert (HG : GetOp s = Some (om, [], concat (map (push_data []) keys) ++ [on; OP_CHECKMULTISIG])).
  { unfold s, GetOp, GetOp2. destruct (Z.leb_spec om OP_PUSHDATA4) as [X|_]; [unfold OP_PUSHDATA4 in X; lia|reflexivity]. }
  rewrite HG, I1, D1. cbn [negb obind].
  rewrite (multisig_keys_spec on eq_refl R2 keys (length s) [] HF) by lia.
  cbn [obind app]. rewrite I2, D2. cbn [negb obind]. rewrite Z.eqb_refl. cbn [negb orb].
  destruct (Z.ltb_spec (size keys) m) as [X|_]; [lia|]. change (size [OP_CHECKMULTISIG] =? 1) with true. cbv iota.
  rewrite !u8_small by lia. reflexivity.
Qed.

(** The solver recognises exactly the scripts built for a key hash, a script
    hash and a public key, and every script built for a multisignature or a stake
    delegation, returning what they were built from; a destination comes back
    from its own script. *)
Theorem Solver_templates {crypto : ScriptCrypto} :
  (forall s h, Solver s = Some (TX_PUBKEYHASH, [h]) <-> length h = 20%nat /\ s = GetScriptForDestination (CKeyID h)) /\
  (forall s h, Solver s = Some (TX_SCRIPTHASH, [h]) <-> length h = 20%nat /\ s = GetScriptForDestination (CScriptID h)) /\
  (forall s k, Solver s = Some (TX_PUBKEY, [k]) <-> ValidSize k = true /\ s = GetScriptForRawPubKey k) /\
  (forall a b, length a = 20%nat -> length b = 20%nat ->
     Solver (GetScriptForStakeDelegation a b) = Some (TX_COLDSTAKE, [a; b])) /\
  (forall m keys, Forall (fun k => ValidSize k = true) keys -> 1 <= m <= size keys -> size keys <= 16 ->
     exists s, GetScriptForMultisig m keys = Some s /\ Solver s = Some (TX_MULTISIG, [m] :: keys ++ [[size keys]])) /\
  (forall dest f, match dest with CNoDestination => True | CKeyID h | CScriptID h => length h = 20%nat end ->
     ExtractDestination (GetScriptForDestination dest) f = Some (if IsValidDestination dest then Some dest else None)).
Proof.
  split; [exact Solver_key_hash|]. split; [exact Solver_script_hash|]. split; [exact Solver_pubkey|].
  split; [exact Solver_coldstake|]. split; [exact Solver_multisig|].
  intros [|h|h] f Hh; unfold ExtractDestination; cbn [IsValidDestination].
  - reflexivity.
  - rewrite (proj2 (Solver_key_hash _ h)) by auto. unfold uint160_of, size. now rewrite Hh.
  - rewrite (proj2 (Solver_script_hash _ h)) by auto. unfold uint160_of, size. now rewrite Hh.
Qed.

(** The cold-staking test is looser: bytes 0, 1, 3, 26 and 48 are not looked at, so
    that a script with the branches exchanged ([OP_NOTIF] for [OP_IF]) is taken for
    the template. *)
Theorem coldstake_template_not_exact :
  exists s, s <> GetScriptForStakeDelegation (repeat 1 20) (repeat 2 20) /\ nth 3 s 0 = OP_NOTIF /\
    Solver s = Some (TX_COLDSTAKE, [repeat 1 20; repeat 2 20]).
Proof.
  exists (upd (GetScriptForStakeDelegation (repeat 1 20) (repeat 2 20)) 3 OP_NOTIF).
  split; [discriminate|]. split; reflexivity.
Qed.

#[local] Existing Instance toy_crypto.
Lemma Solver_templates_witness :
  ExtractDestination (GetScriptForDestination (CKeyID (repeat 3 20))) false = Some (Some (CKeyID (repeat 3 20))) /\
  exists s, GetScriptForMultisig 1 [2 :: repeat 7 32] = Some s /\ Solver s = Some (TX_MULTISIG, [[1]; 2 :: repeat 7 32; [1]]).
Proof.
  split.
  - apply (Solver_templates (crypto := toy_crypto)). reflexivity.
  - apply (Solver_templates (crypto := toy_crypto)); [repeat constructor|cbn; lia|cbn; lia].
Defined.
