(* ===== verification/Hashes.v ===== *)
(** The hash functions of scripts and block headers (src/crypto/sha256.cpp,
    sha1.cpp, ripemd160.cpp): the unrolled compression functions, the incremental
    hasher objects, and the digests they compute. *)
From Stdlib Require Import ZArith Lia List Bool.
From S2P Require Import Prelude Serialize Script Interpreter.
Import ListNotations.
Local Open Scope Z_scope.

(** * The incremental hasher

    [Write] and [Finalize] of the three classes differ only in the compression
    function and in the byte order of the length; the state is the chaining
    value, a buffer of 64 bytes and the number of bytes hashed. *)

Record Hasher := {
  hs : list Z;       (* uint32_t s[] *)
  hbuf : list Z;     (* unsigned char buf[64] *)
  hbytes : Z         (* size_t bytes *)
}.

(** [memcpy(buf + at, data, n)] *)
Definition memcpy (buf : list Z) (at_ : nat) (data : list Z) (n : nat) : list Z :=
  firstn at_ buf ++ firstn n data ++ skipn (at_ + n) buf.

Section Hasher.
Context (Transform : list Z -> list Z -> list Z).

(** [while (end >= data + 64)] *)
Fixpoint write_chunks (fuel : nat) (s data : list Z) (bytes : Z) : list Z * list Z * Z :=
  match fuel with
  | O => (s, data, bytes)
  | S f =>
      if (64 <=? length data)%nat
      then write_chunks f (Transform s data) (skipn 64 data) (u64 (bytes + 64))
      else (s, data, bytes)
  end.

Definition hasher_Write (st : Hasher) (data : list Z) : Hasher :=
  let len := length data in
  let bufsize := Z.to_nat (hbytes st mod 64) in
  let '(s, buf, bytes, data, bufsize) :=
    if negb (bufsize =? 0)%nat && (64 <=? bufsize + len)%nat then
      let buf := memcpy (hbuf st) bufsize data (64 - bufsize) in
      (Transform (hs st) buf, buf, u64 (hbytes st + Z.of_nat (64 - bufsize)),
       skipn (64 - bufsize) data, O)
    else (hs st, hbuf st, hbytes st, data, bufsize) in
  let '(s, data, bytes) := write_chunks (length data) s data bytes in
  if (0 <? length data)%nat then
    {| hs := s; hbuf := memcpy buf bufsize data (length data);
       hbytes := u64 (bytes + Z.of_nat (length data)) |}
  else {| hs := s; hbuf := buf; hbytes := bytes |}.

(** [static const unsigned char pad[64] = {0x80}] *)
Definition pad : list Z := 0x80 :: repeat 0 63.

(** The two writes of [Finalize]: the padding and the length in bits. *)
Definition hasher_pad (sizedesc : Z -> list Z) (st : Hasher) : Hasher :=
  let desc := sizedesc (u64 (Z.shiftl (hbytes st) 3)) in
  let st := hasher_Write st (firstn (Z.to_nat (1 + (119 - hbytes st mod 64) mod 64)) pad) in
  hasher_Write st desc.
End Hasher.

(** * SHA-256 *)
Definition sha256_Ch (x y z : Z) : Z := Z.lxor z (Z.land x (Z.lxor y z)).
Definition sha256_Maj (x y z : Z) : Z := Z.lor (Z.land x y) (Z.land z (Z.lor x y)).
(** [x >> n | x << (32 - n)] *)
Definition sha256_rotr (x n : Z) : Z := Z.lor (Z.shiftr x n) (u32 (Z.shiftl x (32 - n))).
Definition sha256_Sigma0 (x : Z) : Z := Z.lxor (Z.lxor (sha256_rotr x 2) (sha256_rotr x 13)) (sha256_rotr x 22).
Definition sha256_Sigma1 (x : Z) : Z := Z.lxor (Z.lxor (sha256_rotr x 6) (sha256_rotr x 11)) (sha256_rotr x 25).
Definition sha256_sigma0 (x : Z) : Z := Z.lxor (Z.lxor (sha256_rotr x 7) (sha256_rotr x 18)) (Z.shiftr x 3).
Definition sha256_sigma1 (x : Z) : Z := Z.lxor (Z.lxor (sha256_rotr x 17) (sha256_rotr x 19)) (Z.shiftr x 10).

(** The new values of [d] and [h]. *)
Definition sha256_Round (a b c d e f g h k w : Z) : Z * Z :=
  let t1 := u32 (u32 (u32 (u32 (h + sha256_Sigma1 e) + sha256_Ch e f g) + k) + w) in
  let t2 := u32 (sha256_Sigma0 a + sha256_Maj a b c) in
  (u32 (d + t1), u32 (t1 + t2)).

Definition sha256_Initialize : list Z :=
  [0x6a09e667; 0xbb67ae85; 0x3c6ef372; 0xa54ff53a; 0x510e527f; 0x9b05688c; 0x1f83d9ab; 0x5be0cd19].

(** The rounds on the sixteen words of the chunk. *)
Definition sha256_rounds (s : list Z) (w0 w1 w2 w3 w4 w5 w6 w7 w8 w9 w10 w11 w12 w13 w14 w15 : Z) : list Z :=
  let a := s.[0] in let b := s.[1] in let c := s.[2] in let d := s.[3] in
  let e := s.[4] in let f := s.[5] in let g := s.[6] in let h := s.[7] in
  let '(d, h) := sha256_Round a b c d e f g h 0x428a2f98 w0 in
  let '(c, g) := sha256_Round h a b c d e f g 0x71374491 w1 in
  let '(b, f) := sha256_Round g h a b c d e f 0xb5c0fbcf w2 in
  let '(a, e) := sha256_Round f g h a b c d e 0xe9b5dba5 w3 in
  let '(h, d) := sha256_Round e f g h a b c d 0x3956c25b w4 in
  let '(g, c) := sha256_Round d e f g h a b c 0x59f111f1 w5 in
  let '(f, b) := sha256_Round c d e f g h a b 0x923f82a4 w6 in
  let '(e, a) := sha256_Round b c d e f g h a 0xab1c5ed5 w7 in
  let '(d, h) := sha256_Round a b c d e f g h 0xd807aa98 w8 in
  let '(c, g) := sha256_Round h a b c d e f g 0x12835b01 w9 in
  let '(b, f) := sha256_Round g h a b c d e f 0x243185be w10 in
  let '(a, e) := sha256_Round f g h a b c d e 0x550c7dc3 w11 in
  let '(h, d) := sha256_Round e f g h a b c d 0x72be5d74 w12 in
  let '(g, c) := sha256_Round d e f g h a b c 0x80deb1fe w13 in
  let '(f, b) := sha256_Round c d e f g h a b 0x9bdc06a7 w14 in
  let '(e, a) := sha256_Round b c d e f g h a 0xc19bf174 w15 in
  let w0 := u32 (w0 + u32 (u32 (sha256_sigma1 w14 + w9) + sha256_sigma0 w1)) in
  let '(d, h) := sha256_Round a b c d e f g h 0xe49b69c1 w0 in
  let w1 := u32 (w1 + u32 (u32 (sha256_sigma1 w15 + w10) + sha256_sigma0 w2)) in
  let '(c, g) := sha256_Round h a b c d e f g 0xefbe4786 w1 in
  let w2 := u32 (w2 + u32 (u32 (sha256_sigma1 w0 + w11) + sha256_sigma0 w3)) in
  let '(b, f) := sha256_Round g h a b c d e f 0x0fc19dc6 w2 in
  let w3 := u32 (w3 + u32 (u32 (sha256_sigma1 w1 + w12) + sha256_sigma0 w4)) in
  let '(a, e) := sha256_Round f g h a b c d e 0x240ca1cc w3 in
  let w4 := u32 (w4 + u32 (u32 (sha256_sigma1 w2 + w13) + sha256_sigma0 w5)) in
  let '(h, d) := sha256_Round e f g h a b c d 0x2de92c6f w4 in
  let w5 := u32 (w5 + u32 (u32 (sha256_sigma1 w3 + w14) + sha256_sigma0 w6)) in
  let '(g, c) := sha256_Round d e f g h a b c 0x4a7484aa w5 in
  let w6 := u32 (w6 + u32 (u32 (sha256_sigma1 w4 + w15) + sha256_sigma0 w7)) in
  let '(f, b) := sha256_Round c d e f g h a b 0x5cb0a9dc w6 in
  let w7 := u32 (w7 + u32 (u32 (sha256_sigma1 w5 + w0) + sha256_sigma0 w8)) in
  let '(e, a) := sha256_Round b c d e f g h a 0x76f988da w7 in
  let w8 := u32 (w8 + u32 (u32 (sha256_sigma1 w6 + w1) + sha256_sigma0 w9)) in
  let '(d, h) := sha256_Round a b c d e f g h 0x983e5152 w8 in
  let w9 := u32 (w9 + u32 (u32 (sha256_sigma1 w7 + w2) + sha256_sigma0 w10)) in
  let '(c, g) := sha256_Round h a b c d e f g 0xa831c66d w9 in
  let w10 := u32 (w10 + u32 (u32 (sha256_sigma1 w8 + w3) + sha256_sigma0 w11)) in
  let '(b, f) := sha256_Round g h a b c d e f 0xb00327c8 w10 in
  let w11 := u32 (w11 + u32 (u32 (sha256_sigma1 w9 + w4) + sha256_sigma0 w12)) in
  let '(a, e) := sha256_Round f g h a b c d e 0xbf597fc7 w11 in
  let w12 := u32 (w12 + u32 (u32 (sha256_sigma1 w10 + w5) + sha256_sigma0 w13)) in
  let '(h, d) := sha256_Round e f g h a b c d 0xc6e00bf3 w12 in
  let w13 := u32 (w13 + u32 (u32 (sha256_sigma1 w11 + w6) + sha256_sigma0 w14)) in
  let '(g, c) := sha256_Round d e f g h a b c 0xd5a79147 w13 in
  let w14 := u32 (w14 + u32 (u32 (sha256_sigma1 w12 + w7) + sha256_sigma0 w15)) in
  let '(f, b) := sha256_Round c d e f g h a b 0x06ca6351 w14 in
  let w15 := u32 (w15 + u32 (u32 (sha256_sigma1 w13 + w8) + sha256_sigma0 w0)) in
  let '(e, a) := sha256_Round b c d e f g h a 0x14292967 w15 in
  let w0 := u32 (w0 + u32 (u32 (sha256_sigma1 w14 + w9) + sha256_sigma0 w1)) in
  let '(d, h) := sha256_Round a b c d e f g h 0x27b70a85 w0 in
  let w1 := u32 (w1 + u32 (u32 (sha256_sigma1 w15 + w10) + sha256_sigma0 w2)) in
  let '(c, g) := sha256_Round h a b c d e f g 0x2e1b2138 w1 in
  let w2 := u32 (w2 + u32 (u32 (sha256_sigma1 w0 + w11) + sha256_sigma0 w3)) in
  let '(b, f) := sha256_Round g h a b c d e f 0x4d2c6dfc w2 in
  let w3 := u32 (w3 + u32 (u32 (sha256_sigma1 w1 + w12) + sha256_sigma0 w4)) in
  let '(a, e) := sha256_Round f g h a b c d e 0x53380d13 w3 in
  let w4 := u32 (w4 + u32 (u32 (sha256_sigma1 w2 + w13) + sha256_sigma0 w5)) in
  let '(h, d) := sha256_Round e f g h a b c d 0x650a7354 w4 in
  let w5 := u32 (w5 + u32 (u32 (sha256_sigma1 w3 + w14) + sha256_sigma0 w6)) in
  let '(g, c) := sha256_Round d e f g h a b c 0x766a0abb w5 in
  let w6 := u32 (w6 + u32 (u32 (sha256_sigma1 w4 + w15) + sha256_sigma0 w7)) in
  let '(f, b) := sha256_Round c d e f g h a b 0x81c2c92e w6 in
  let w7 := u32 (w7 + u32 (u32 (sha256_sigma1 w5 + w0) + sha256_sigma0 w8)) in
  let '(e, a) := sha256_Round b c d e f g h a 0x92722c85 w7 in
  let w8 := u32 (w8 + u32 (u32 (sha256_sigma1 w6 + w1) + sha256_sigma0 w9)) in
  let '(d, h) := sha256_Round a b c d e f g h 0xa2bfe8a1 w8 in
  let w9 := u32 (w9 + u32 (u32 (sha256_sigma1 w7 + w2) + sha256_sigma0 w10)) in
  let '(c, g) := sha256_Round h a b c d e f g 0xa81a664b w9 in
  let w10 := u32 (w10 + u32 (u32 (sha256_sigma1 w8 + w3) + sha256_sigma0 w11)) in
  let '(b, f) := sha256_Round g h a b c d e f 0xc24b8b70 w10 in
  let w11 := u32 (w11 + u32 (u32 (sha256_sigma1 w9 + w4) + sha256_sigma0 w12)) in
  let '(a, e) := sha256_Round f g h a b c d e 0xc76c51a3 w11 in
  let w12 := u32 (w12 + u32 (u32 (sha256_sigma1 w10 + w5) + sha256_sigma0 w13)) in
  let '(h, d) := sha256_Round e f g h a b c d 0xd192e819 w12 in
  let w13 := u32 (w13 + u32 (u32 (sha256_sigma1 w11 + w6) + sha256_sigma0 w14)) in
  let '(g, c) := sha256_Round d e f g h a b c 0xd6990624 w13 in
  let w14 := u32 (w14 + u32 (u32 (sha256_sigma1 w12 + w7) + sha256_sigma0 w15)) in
  let '(f, b) := sha256_Round c d e f g h a b 0xf40e3585 w14 in
  let w15 := u32 (w15 + u32 (u32 (sha256_sigma1 w13 + w8) + sha256_sigma0 w0)) in
  let '(e, a) := sha256_Round b c d e f g h a 0x106aa070 w15 in
  let w0 := u32 (w0 + u32 (u32 (sha256_sigma1 w14 + w9) + sha256_sigma0 w1)) in
  let '(d, h) := sha256_Round a b c d e f g h 0x19a4c116 w0 in
  let w1 := u32 (w1 + u32 (u32 (sha256_sigma1 w15 + w10) + sha256_sigma0 w2)) in
  let '(c, g) := sha256_Round h a b c d e f g 0x1e376c08 w1 in
  let w2 := u32 (w2 + u32 (u32 (sha256_sigma1 w0 + w11) + sha256_sigma0 w3)) in
  let '(b, f) := sha256_Round g h a b c d e f 0x2748774c w2 in
  let w3 := u32 (w3 + u32 (u32 (sha256_sigma1 w1 + w12) + sha256_sigma0 w4)) in
  let '(a, e) := sha256_Round f g h a b c d e 0x34b0bcb5 w3 in
  let w4 := u32 (w4 + u32 (u32 (sha256_sigma1 w2 + w13) + sha256_sigma0 w5)) in
  let '(h, d) := sha256_Round e f g h a b c d 0x391c0cb3 w4 in
  let w5 := u32 (w5 + u32 (u32 (sha256_sigma1 w3 + w14) + sha256_sigma0 w6)) in
  let '(g, c) := sha256_Round d e f g h a b c 0x4ed8aa4a w5 in
  let w6 := u32 (w6 + u32 (u32 (sha256_sigma1 w4 + w15) + sha256_sigma0 w7)) in
  let '(f, b) := sha256_Round c d e f g h a b 0x5b9cca4f w6 in
  let w7 := u32 (w7 + u32 (u32 (sha256_sigma1 w5 + w0) + sha256_sigma0 w8)) in
  let '(e, a) := sha256_Round b c d e f g h a 0x682e6ff3 w7 in
  let w8 := u32 (w8 + u32 (u32 (sha256_sigma1 w6 + w1) + sha256_sigma0 w9)) in
  let '(d, h) := sha256_Round a b c d e f g h 0x748f82ee w8 in
  let w9 := u32 (w9 + u32 (u32 (sha256_sigma1 w7 + w2) + sha256_sigma0 w10)) in
  let '(c, g) := sha256_Round h a b c d e f g 0x78a5636f w9 in
  let w10 := u32 (w10 + u32 (u32 (sha256_sigma1 w8 + w3) + sha256_sigma0 w11)) in
  let '(b, f) := sha256_Round g h a b c d e f 0x84c87814 w10 in
  let w11 := u32 (w11 + u32 (u32 (sha256_sigma1 w9 + w4) + sha256_sigma0 w12)) in
  let '(a, e) := sha256_Round f g h a b c d e 0x8cc70208 w11 in
  let w12 := u32 (w12 + u32 (u32 (sha256_sigma1 w10 + w5) + sha256_sigma0 w13)) in
  let '(h, d) := sha256_Round e f g h a b c d 0x90befffa w12 in
  let w13 := u32 (w13 + u32 (u32 (sha256_sigma1 w11 + w6) + sha256_sigma0 w14)) in
  let '(g, c) := sha256_Round d e f g h a b c 0xa4506ceb w13 in
  let '(f, b) := sha256_Round c d e f g h a b 0xbef9a3f7 (u32 (u32 (u32 (w14 + sha256_sigma1 w12) + w7) + sha256_sigma0 w15)) in
  let '(e, a) := sha256_Round b c d e f g h a 0xc67178f2 (u32 (u32 (u32 (w15 + sha256_sigma1 w13) + w8) + sha256_sigma0 w0)) in
  [u32 (s.[0] + a); u32 (s.[1] + b); u32 (s.[2] + c); u32 (s.[3] + d);
   u32 (s.[4] + e); u32 (s.[5] + f); u32 (s.[6] + g); u32 (s.[7] + h)].

Definition sha256_Transform (s chunk : list Z) : list Z :=
  sha256_rounds s
    (ReadBE32 (skipn 0 chunk)) (ReadBE32 (skipn 4 chunk)) (ReadBE32 (skipn 8 chunk)) (ReadBE32 (skipn 12 chunk))
    (ReadBE32 (skipn 16 chunk)) (ReadBE32 (skipn 20 chunk)) (ReadBE32 (skipn 24 chunk)) (ReadBE32 (skipn 28 chunk))
    (ReadBE32 (skipn 32 chunk)) (ReadBE32 (skipn 36 chunk)) (ReadBE32 (skipn 40 chunk)) (ReadBE32 (skipn 44 chunk))
    (ReadBE32 (skipn 48 chunk)) (ReadBE32 (skipn 52 chunk)) (ReadBE32 (skipn 56 chunk)) (ReadBE32 (skipn 60 chunk)).

(** [CSHA256()]; the buffer starts with whatever is in memory. *)
Definition CSHA256 (memory : list Z) : Hasher :=
  {| hs := sha256_Initialize; hbuf := memory; hbytes := 0 |}.
Definition CSHA256_Write (st : Hasher) (data : list Z) : Hasher := hasher_Write sha256_Transform st data.
(** [None] is the thrown [length_error]. *)
Definition CSHA256_FinalizeNoPadding (st : Hasher) (enforce_compression : bool) : option (list Z) :=
  if enforce_compression && negb (hbytes st =? 64) then None
  else Some (flat_map WriteBE32 (hs st)).
Definition CSHA256_Finalize (st : Hasher) : option (list Z) :=
  CSHA256_FinalizeNoPadding (hasher_pad sha256_Transform WriteBE64 st) false.
Definition CSHA256_Reset (st : Hasher) : Hasher :=
  {| hs := sha256_Initialize; hbuf := hbuf st; hbytes := 0 |}.

(** * SHA-1 *)
(** The new values of [b] and [e]. *)
Definition sha1_Round (a b c d e f k w : Z) : Z * Z :=
  (Z.lor (u32 (Z.shiftl b 30)) (Z.shiftr b 2),
   u32 (e + u32 (u32 (u32 (Z.lor (u32 (Z.shiftl a 5)) (Z.shiftr a 27) + f) + k) + w))).

Definition sha1_f1 (b c d : Z) : Z := Z.lxor d (Z.land b (Z.lxor c d)).
Definition sha1_f2 (b c d : Z) : Z := Z.lxor (Z.lxor b c) d.
Definition sha1_f3 (b c d : Z) : Z := Z.lor (Z.land b c) (Z.land d (Z.lor b c)).
Definition sha1_left32 (x : Z) : Z := Z.lor (u32 (Z.shiftl x 1)) (Z.shiftr x 31).

Definition sha1_Initialize : list Z := [0x67452301; 0xEFCDAB89; 0x98BADCFE; 0x10325476; 0xC3D2E1F0].

Definition sha1_k1 : Z := 0x5A827999.
Definition sha1_k2 : Z := 0x6ED9EBA1.
Definition sha1_k3 : Z := 0x8F1BBCDC.
Definition sha1_k4 : Z := 0xCA62C1D6.

(** The rounds on the sixteen words of the chunk. *)
Definition sha1_rounds (s : list Z) (w0 w1 w2 w3 w4 w5 w6 w7 w8 w9 w10 w11 w12 w13 w14 w15 : Z) : list Z :=
  let a := s.[0] in let b := s.[1] in let c := s.[2] in let d := s.[3] in let e := s.[4] in
  let '(b, e) := sha1_Round a b c d e (sha1_f1 b c d) sha1_k1 w0 in
  let '(a, d) := sha1_Round e a b c d (sha1_f1 a b c) sha1_k1 w1 in
  let '(e, c) := sha1_Round d e a b c (sha1_f1 e a b) sha1_k1 w2 in
  let '(d, b) := sha1_Round c d e a b (sha1_f1 d e a) sha1_k1 w3 in
  let '(c, a) := sha1_Round b c d e a (sha1_f1 c d e) sha1_k1 w4 in
  let '(b, e) := sha1_Round a b c d e (sha1_f1 b c d) sha1_k1 w5 in
  let '(a, d) := sha1_Round e a b c d (sha1_f1 a b c) sha1_k1 w6 in
  let '(e, c) := sha1_Round d e a b c (sha1_f1 e a b) sha1_k1 w7 in
  let '(d, b) := sha1_Round c d e a b (sha1_f1 d e a) sha1_k1 w8 in
  let '(c, a) := sha1_Round b c d e a (sha1_f1 c d e) sha1_k1 w9 in
  let '(b, e) := sha1_Round a b c d e (sha1_f1 b c d) sha1_k1 w10 in
  let '(a, d) := sha1_Round e a b c d (sha1_f1 a b c) sha1_k1 w11 in
  let '(e, c) := sha1_Round d e a b c (sha1_f1 e a b) sha1_k1 w12 in
  let '(d, b) := sha1_Round c d e a b (sha1_f1 d e a) sha1_k1 w13 in
  let '(c, a) := sha1_Round b c d e a (sha1_f1 c d e) sha1_k1 w14 in
  let '(b, e) := sha1_Round a b c d e (sha1_f1 b c d) sha1_k1 w15 in
  let w0 := sha1_left32 (Z.lxor (Z.lxor (Z.lxor w0 w13) w8) w2) in
  let '(a, d) := sha1_Round e a b c d (sha1_f1 a b c) sha1_k1 w0 in
  let w1 := sha1_left32 (Z.lxor (Z.lxor (Z.lxor w1 w14) w9) w3) in
  let '(e, c) := sha1_Round d e a b c (sha1_f1 e a b) sha1_k1 w1 in
  let w2 := sha1_left32 (Z.lxor (Z.lxor (Z.lxor w2 w15) w10) w4) in
  let '(d, b) := sha1_Round c d e a b (sha1_f1 d e a) sha1_k1 w2 in
  let w3 := sha1_left32 (Z.lxor (Z.lxor (Z.lxor w3 w0) w11) w5) in
  let '(c, a) := sha1_Round b c d e a (sha1_f1 c d e) sha1_k1 w3 in
  let w4 := sha1_left32 (Z.lxor (Z.lxor (Z.lxor w4 w1) w12) w6) in
  let '(b, e) := sha1_Round a b c d e (sha1_f2 b c d) sha1_k2 w4 in
  let w5 := sha1_left32 (Z.lxor (Z.lxor (Z.lxor w5 w2) w13) w7) in
  let '(a, d) := sha1_Round e a b c d (sha1_f2 a b c) sha1_k2 w5 in
  let w6 := sha1_left32 (Z.lxor (Z.lxor (Z.lxor w6 w3) w14) w8) in
  let '(e, c) := sha1_Round d e a b c (sha1_f2 e a b) sha1_k2 w6 in
  let w7 := sha1_left32 (Z.lxor (Z.lxor (Z.lxor w7 w4) w15) w9) in
  let '(d, b) := sha1_Round c d e a b (sha1_f2 d e a) sha1_k2 w7 in
  let w8 := sha1_left32 (Z.lxor (Z.lxor (Z.lxor w8 w5) w0) w10) in
  let '(c, a) := sha1_Round b c d e a (sha1_f2 c d e) sha1_k2 w8 in
  let w9 := sha1_left32 (Z.lxor (Z.lxor (Z.lxor w9 w6) w1) w11) in
  let '(b, e) := sha1_Round a b c d e (sha1_f2 b c d) sha1_k2 w9 in
  let w10 := sha1_left32 (Z.lxor (Z.lxor (Z.lxor w10 w7) w2) w12) in
  let '(a, d) := sha1_Round e a b c d (sha1_f2 a b c) sha1_k2 w10 in
  let w11 := sha1_left32 (Z.lxor (Z.lxor (Z.lxor w11 w8) w3) w13) in
  let '(e, c) := sha1_Round d e a b c (sha1_f2 e a b) sha1_k2 w11 in
  let w12 := sha1_left32 (Z.lxor (Z.lxor (Z.lxor w12 w9) w4) w14) in
  let '(d, b) := sha1_Round c d e a b (sha1_f2 d e a) sha1_k2 w12 in
  let w13 := sha1_left32 (Z.lxor (Z.lxor (Z.lxor w13 w10) w5) w15) in
  let '(c, a) := sha1_Round b c d e a (sha1_f2 c d e) sha1_k2 w13 in
  let w14 := sha1_left32 (Z.lxor (Z.lxor (Z.lxor w14 w11) w6) w0) in
  let '(b, e) := sha1_Round a b c d e (sha1_f2 b c d) sha1_k2 w14 in
  let w15 := sha1_left32 (Z.lxor (Z.lxor (Z.lxor w15 w12) w7) w1) in
  let '(a, d) := sha1_Round e a b c d (sha1_f2 a b c) sha1_k2 w15 in
  let w0 := sha1_left32 (Z.lxor (Z.lxor (Z.lxor w0 w13) w8) w2) in
  let '(e, c) := sha1_Round d e a b c (sha1_f2 e a b) sha1_k2 w0 in
  let w1 := sha1_left32 (Z.lxor (Z.lxor (Z.lxor w1 w14) w9) w3) in
  let '(d, b) := sha1_Round c d e a b (sha1_f2 d e a) sha1_k2 w1 in
  let w2 := sha1_left32 (Z.lxor (Z.lxor (Z.lxor w2 w15) w10) w4) in
  let '(c, a) := sha1_Round b c d e a (sha1_f2 c d e) sha1_k2 w2 in
  let w3 := sha1_left32 (Z.lxor (Z.lxor (Z.lxor w3 w0) w11) w5) in
  let '(b, e) := sha1_Round a b c d e (sha1_f2 b c d) sha1_k2 w3 in
  let w4 := sha1_left32 (Z.lxor (Z.lxor (Z.lxor w4 w1) w12) w6) in
  let '(a, d) := sha1_Round e a b c d (sha1_f2 a b c) sha1_k2 w4 in
  let w5 := sha1_left32 (Z.lxor (Z.lxor (Z.lxor w5 w2) w13) w7) in
  let '(e, c) := sha1_Round d e a b c (sha1_f2 e a b) sha1_k2 w5 in
  let w6 := sha1_left32 (Z.lxor (Z.lxor (Z.lxor w6 w3) w14) w8) in
  let '(d, b) := sha1_Round c d e a b (sha1_f2 d e a) sha1_k2 w6 in
  let w7 := sha1_left32 (Z.lxor (Z.lxor (Z.lxor w7 w4) w15) w9) in
  let '(c, a) := sha1_Round b c d e a (sha1_f2 c d e) sha1_k2 w7 in
  let w8 := sha1_left32 (Z.lxor (Z.lxor (Z.lxor w8 w5) w0) w10) in
  let '(b, e) := sha1_Round a b c d e (sha1_f3 b c d) sha1_k3 w8 in
  let w9 := sha1_left32 (Z.lxor (Z.lxor (Z.lxor w9 w6) w1) w11) in
  let '(a, d) := sha1_Round e a b c d (sha1_f3 a b c) sha1_k3 w9 in
  let w10 := sha1_left32 (Z.lxor (Z.lxor (Z.lxor w10 w7) w2) w12) in
  let '(e, c) := sha1_Round d e a b c (sha1_f3 e a b) sha1_k3 w10 in
  let w11 := sha1_left32 (Z.lxor (Z.lxor (Z.lxor w11 w8) w3) w13) in
  let '(d, b) := sha1_Round c d e a b (sha1_f3 d e a) sha1_k3 w11 in
  let w12 := sha1_left32 (Z.lxor (Z.lxor (Z.lxor w12 w9) w4) w14) in
  let '(c, a) := sha1_Round b c d e a (sha1_f3 c d e) sha1_k3 w12 in
  let w13 := sha1_left32 (Z.lxor (Z.lxor (Z.lxor w13 w10) w5) w15) in
  let '(b, e) := sha1_Round a b c d e (sha1_f3 b c d) sha1_k3 w13 in
  let w14 := sha1_left32 (Z.lxor (Z.lxor (Z.lxor w14 w11) w6) w0) in
  let '(a, d) := sha1_Round e a b c d (sha1_f3 a b c) sha1_k3 w14 in
  let w15 := sha1_left32 (Z.lxor (Z.lxor (Z.lxor w15 w12) w7) w1) in
  let '(e, c) := sha1_Round d e a b c (sha1_f3 e a b) sha1_k3 w15 in
  let w0 := sha1_left32 (Z.lxor (Z.lxor (Z.lxor w0 w13) w8) w2) in
  let '(d, b) := sha1_Round c d e a b (sha1_f3 d e a) sha1_k3 w0 in
  let w1 := sha1_left32 (Z.lxor (Z.lxor (Z.lxor w1 w14) w9) w3) in
  let '(c, a) := sha1_Round b c d e a (sha1_f3 c d e) sha1_k3 w1 in
  let w2 := sha1_left32 (Z.lxor (Z.lxor (Z.lxor w2 w15) w10) w4) in
  let '(b, e) := sha1_Round a b c d e (sha1_f3 b c d) sha1_k3 w2 in
  let w3 := sha1_left32 (Z.lxor (Z.lxor (Z.lxor w3 w0) w11) w5) in
  let '(a, d) := sha1_Round e a b c d (sha1_f3 a b c) sha1_k3 w3 in
  let w4 := sha1_left32 (Z.lxor (Z.lxor (Z.lxor w4 w1) w12) w6) in
  let '(e, c) := sha1_Round d e a b c (sha1_f3 e a b) sha1_k3 w4 in
  let w5 := sha1_left32 (Z.lxor (Z.lxor (Z.lxor w5 w2) w13) w7) in
  let '(d, b) := sha1_Round c d e a b (sha1_f3 d e a) sha1_k3 w5 in
  let w6 := sha1_left32 (Z.lxor (Z.lxor (Z.lxor w6 w3) w14) w8) in
  let '(c, a) := sha1_Round b c d e a (sha1_f3 c d e) sha1_k3 w6 in
  let w7 := sha1_left32 (Z.lxor (Z.lxor (Z.lxor w7 w4) w15) w9) in
  let '(b, e) := sha1_Round a b c d e (sha1_f3 b c d) sha1_k3 w7 in
  let w8 := sha1_left32 (Z.lxor (Z.lxor (Z.lxor w8 w5) w0) w10) in
  let '(a, d) := sha1_Round e a b c d (sha1_f3 a b c) sha1_k3 w8 in
  let w9 := sha1_left32 (Z.lxor (Z.lxor (Z.lxor w9 w6) w1) w11) in
  let '(e, c) := sha1_Round d e a b c (sha1_f3 e a b) sha1_k3 w9 in
  let w10 := sha1_left32 (Z.lxor (Z.lxor (Z.lxor w10 w7) w2) w12) in
  let '(d, b) := sha1_Round c d e a b (sha1_f3 d e a) sha1_k3 w10 in
  let w11 := sha1_left32 (Z.lxor (Z.lxor (Z.lxor w11 w8) w3) w13) in
  let '(c, a) := sha1_Round b c d e a (sha1_f3 c d e) sha1_k3 w11 in
  let w12 := sha1_left32 (Z.lxor (Z.lxor (Z.lxor w12 w9) w4) w14) in
  let '(b, e) := sha1_Round a b c d e (sha1_f2 b c d) sha1_k4 w12 in
  let w13 := sha1_left32 (Z.lxor (Z.lxor (Z.lxor w13 w10) w5) w15) in
  let '(a, d) := sha1_Round e a b c d (sha1_f2 a b c) sha1_k4 w13 in
  let w14 := sha1_left32 (Z.lxor (Z.lxor (Z.lxor w14 w11) w6) w0) in
  let '(e, c) := sha1_Round d e a b c (sha1_f2 e a b) sha1_k4 w14 in
  let w15 := sha1_left32 (Z.lxor (Z.lxor (Z.lxor w15 w12) w7) w1) in
  let '(d, b) := sha1_Round c d e a b (sha1_f2 d e a) sha1_k4 w15 in
  let w0 := sha1_left32 (Z.lxor (Z.lxor (Z.lxor w0 w13) w8) w2) in
  let '(c, a) := sha1_Round b c d e a (sha1_f2 c d e) sha1_k4 w0 in
  let w1 := sha1_left32 (Z.lxor (Z.lxor (Z.lxor w1 w14) w9) w3) in
  let '(b, e) := sha1_Round a b c d e (sha1_f2 b c d) sha1_k4 w1 in
  let w2 := sha1_left32 (Z.lxor (Z.lxor (Z.lxor w2 w15) w10) w4) in
  let '(a, d) := sha1_Round e a b c d (sha1_f2 a b c) sha1_k4 w2 in
  let w3 := sha1_left32 (Z.lxor (Z.lxor (Z.lxor w3 w0) w11) w5) in
  let '(e, c) := sha1_Round d e a b c (sha1_f2 e a b) sha1_k4 w3 in
  let w4 := sha1_left32 (Z.lxor (Z.lxor (Z.lxor w4 w1) w12) w6) in
  let '(d, b) := sha1_Round c d e a b (sha1_f2 d e a) sha1_k4 w4 in
  let w5 := sha1_left32 (Z.lxor (Z.lxor (Z.lxor w5 w2) w13) w7) in
  let '(c, a) := sha1_Round b c d e a (sha1_f2 c d e) sha1_k4 w5 in
  let w6 := sha1_left32 (Z.lxor (Z.lxor (Z.lxor w6 w3) w14) w8) in
  let '(b, e) := sha1_Round a b c d e (sha1_f2 b c d) sha1_k4 w6 in
  let w7 := sha1_left32 (Z.lxor (Z.lxor (Z.lxor w7 w4) w15) w9) in
  let '(a, d) := sha1_Round e a b c d (sha1_f2 a b c) sha1_k4 w7 in
  let w8 := sha1_left32 (Z.lxor (Z.lxor (Z.lxor w8 w5) w0) w10) in
  let '(e, c) := sha1_Round d e a b c (sha1_f2 e a b) sha1_k4 w8 in
  let w9 := sha1_left32 (Z.lxor (Z.lxor (Z.lxor w9 w6) w1) w11) in
  let '(d, b) := sha1_Round c d e a b (sha1_f2 d e a) sha1_k4 w9 in
  let w10 := sha1_left32 (Z.lxor (Z.lxor (Z.lxor w10 w7) w2) w12) in
  let '(c, a) := sha1_Round b c d e a (sha1_f2 c d e) sha1_k4 w10 in
  let w11 := sha1_left32 (Z.lxor (Z.lxor (Z.lxor w11 w8) w3) w13) in
  let '(b, e) := sha1_Round a b c d e (sha1_f2 b c d) sha1_k4 w11 in
  let w12 := sha1_left32 (Z.lxor (Z.lxor (Z.lxor w12 w9) w4) w14) in
  let '(a, d) := sha1_Round e a b c d (sha1_f2 a b c) sha1_k4 w12 in
  let '(e, c) := sha1_Round d e a b c (sha1_f2 e a b) sha1_k4 (sha1_left32 (Z.lxor (Z.lxor (Z.lxor w13 w10) w5) w15)) in
  let '(d, b) := sha1_Round c d e a b (sha1_f2 d e a) sha1_k4 (sha1_left32 (Z.lxor (Z.lxor (Z.lxor w14 w11) w6) w0)) in
  let '(c, a) := sha1_Round b c d e a (sha1_f2 c d e) sha1_k4 (sha1_left32 (Z.lxor (Z.lxor (Z.lxor w15 w12) w7) w1)) in
  [u32 (s.[0] + a); u32 (s.[1] + b); u32 (s.[2] + c); u32 (s.[3] + d); u32 (s.[4] + e)].

Definition sha1_Transform (s chunk : list Z) : list Z :=
  sha1_rounds s
    (ReadBE32 (skipn 0 chunk)) (ReadBE32 (skipn 4 chunk)) (ReadBE32 (skipn 8 chunk)) (ReadBE32 (skipn 12 chunk))
    (ReadBE32 (skipn 16 chunk)) (ReadBE32 (skipn 20 chunk)) (ReadBE32 (skipn 24 chunk)) (ReadBE32 (skipn 28 chunk))
    (ReadBE32 (skipn 32 chunk)) (ReadBE32 (skipn 36 chunk)) (ReadBE32 (skipn 40 chunk)) (ReadBE32 (skipn 44 chunk))
    (ReadBE32 (skipn 48 chunk)) (ReadBE32 (skipn 52 chunk)) (ReadBE32 (skipn 56 chunk)) (ReadBE32 (skipn 60 chunk)).

Definition CSHA1 (memory : list Z) : Hasher :=
  {| hs := sha1_Initialize; hbuf := memory; hbytes := 0 |}.
Definition CSHA1_Write (st : Hasher) (data : list Z) : Hasher := hasher_Write sha1_Transform st data.
Definition CSHA1_Finalize (st : Hasher) : list Z :=
  flat_map WriteBE32 (hs (hasher_pad sha1_Transform WriteBE64 st)).
Definition CSHA1_Reset (st : Hasher) : Hasher :=
  {| hs := sha1_Initialize; hbuf := hbuf st; hbytes := 0 |}.

(** * RIPEMD-160 *)
(** [~x] of a [uint32_t] *)
Definition ripemd160_not32 (x : Z) : Z := u32 (Z.lnot x).
Definition ripemd160_f1 (x y z : Z) : Z := Z.lxor (Z.lxor x y) z.
Definition ripemd160_f2 (x y z : Z) : Z := Z.lor (Z.land x y) (Z.land (ripemd160_not32 x) z).
Definition ripemd160_f3 (x y z : Z) : Z := Z.lxor (Z.lor x (ripemd160_not32 y)) z.
Definition ripemd160_f4 (x y z : Z) : Z := Z.lor (Z.land x z) (Z.land y (ripemd160_not32 z)).
Definition ripemd160_f5 (x y z : Z) : Z := Z.lxor x (Z.lor y (ripemd160_not32 z)).

Definition ripemd160_Initialize : list Z := [0x67452301; 0xEFCDAB89; 0x98BADCFE; 0x10325476; 0xC3D2E1F0].

Definition ripemd160_rol (x i : Z) : Z := Z.lor (u32 (Z.shiftl x i)) (Z.shiftr x (32 - i)).

(** The new values of [a] and [c]. *)
Definition ripemd160_Round (a b c d e f x k r : Z) : Z * Z :=
  (u32 (ripemd160_rol (u32 (u32 (u32 (a + f) + x) + k)) r + e), ripemd160_rol c 10).

Definition ripemd160_R11 (a b c d e x r : Z) : Z * Z := ripemd160_Round a b c d e (ripemd160_f1 b c d) x 0 r.
Definition ripemd160_R21 (a b c d e x r : Z) : Z * Z := ripemd160_Round a b c d e (ripemd160_f2 b c d) x 0x5A827999 r.
Definition ripemd160_R31 (a b c d e x r : Z) : Z * Z := ripemd160_Round a b c d e (ripemd160_f3 b c d) x 0x6ED9EBA1 r.
Definition ripemd160_R41 (a b c d e x r : Z) : Z * Z := ripemd160_Round a b c d e (ripemd160_f4 b c d) x 0x8F1BBCDC r.
Definition ripemd160_R51 (a b c d e x r : Z) : Z * Z := ripemd160_Round a b c d e (ripemd160_f5 b c d) x 0xA953FD4E r.
Definition ripemd160_R12 (a b c d e x r : Z) : Z * Z := ripemd160_Round a b c d e (ripemd160_f5 b c d) x 0x50A28BE6 r.
Definition ripemd160_R22 (a b c d e x r : Z) : Z * Z := ripemd160_Round a b c d e (ripemd160_f4 b c d) x 0x5C4DD124 r.
Definition ripemd160_R32 (a b c d e x r : Z) : Z * Z := ripemd160_Round a b c d e (ripemd160_f3 b c d) x 0x6D703EF3 r.
Definition ripemd160_R42 (a b c d e x r : Z) : Z * Z := ripemd160_Round a b c d e (ripemd160_f2 b c d) x 0x7A6D76E9 r.
Definition ripemd160_R52 (a b c d e x r : Z) : Z * Z := ripemd160_Round a b c d e (ripemd160_f1 b c d) x 0 r.

(** The rounds on the sixteen words of the chunk. *)
Definition ripemd160_rounds (s : list Z) (w0 w1 w2 w3 w4 w5 w6 w7 w8 w9 w10 w11 w12 w13 w14 w15 : Z) : list Z :=
  let a1 := s.[0] in let b1 := s.[1] in let c1 := s.[2] in let d1 := s.[3] in let e1 := s.[4] in
  let a2 := a1 in let b2 := b1 in let c2 := c1 in let d2 := d1 in let e2 := e1 in
  let '(a1, c1) := ripemd160_R11 a1 b1 c1 d1 e1 w0 11 in
  let '(a2, c2) := ripemd160_R12 a2 b2 c2 d2 e2 w5 8 in
  let '(e1, b1) := ripemd160_R11 e1 a1 b1 c1 d1 w1 14 in
  let '(e2, b2) := ripemd160_R12 e2 a2 b2 c2 d2 w14 9 in
  let '(d1, a1) := ripemd160_R11 d1 e1 a1 b1 c1 w2 15 in
  let '(d2, a2) := ripemd160_R12 d2 e2 a2 b2 c2 w7 9 in
  let '(c1, e1) := ripemd160_R11 c1 d1 e1 a1 b1 w3 12 in
  let '(c2, e2) := ripemd160_R12 c2 d2 e2 a2 b2 w0 11 in
  let '(b1, d1) := ripemd160_R11 b1 c1 d1 e1 a1 w4 5 in
  let '(b2, d2) := ripemd160_R12 b2 c2 d2 e2 a2 w9 13 in
  let '(a1, c1) := ripemd160_R11 a1 b1 c1 d1 e1 w5 8 in
  let '(a2, c2) := ripemd160_R12 a2 b2 c2 d2 e2 w2 15 in
  let '(e1, b1) := ripemd160_R11 e1 a1 b1 c1 d1 w6 7 in
  let '(e2, b2) := ripemd160_R12 e2 a2 b2 c2 d2 w11 15 in
  let '(d1, a1) := ripemd160_R11 d1 e1 a1 b1 c1 w7 9 in
  let '(d2, a2) := ripemd160_R12 d2 e2 a2 b2 c2 w4 5 in
  let '(c1, e1) := ripemd160_R11 c1 d1 e1 a1 b1 w8 11 in
  let '(c2, e2) := ripemd160_R12 c2 d2 e2 a2 b2 w13 7 in
  let '(b1, d1) := ripemd160_R11 b1 c1 d1 e1 a1 w9 13 in
  let '(b2, d2) := ripemd160_R12 b2 c2 d2 e2 a2 w6 7 in
  let '(a1, c1) := ripemd160_R11 a1 b1 c1 d1 e1 w10 14 in
  let '(a2, c2) := ripemd160_R12 a2 b2 c2 d2 e2 w15 8 in
  let '(e1, b1) := ripemd160_R11 e1 a1 b1 c1 d1 w11 15 in
  let '(e2, b2) := ripemd160_R12 e2 a2 b2 c2 d2 w8 11 in
  let '(d1, a1) := ripemd160_R11 d1 e1 a1 b1 c1 w12 6 in
  let '(d2, a2) := ripemd160_R12 d2 e2 a2 b2 c2 w1 14 in
  let '(c1, e1) := ripemd160_R11 c1 d1 e1 a1 b1 w13 7 in
  let '(c2, e2) := ripemd160_R12 c2 d2 e2 a2 b2 w10 14 in
  let '(b1, d1) := ripemd160_R11 b1 c1 d1 e1 a1 w14 9 in
  let '(b2, d2) := ripemd160_R12 b2 c2 d2 e2 a2 w3 12 in
  let '(a1, c1) := ripemd160_R11 a1 b1 c1 d1 e1 w15 8 in
  let '(a2, c2) := ripemd160_R12 a2 b2 c2 d2 e2 w12 6 in
  let '(e1, b1) := ripemd160_R21 e1 a1 b1 c1 d1 w7 7 in
  let '(e2, b2) := ripemd160_R22 e2 a2 b2 c2 d2 w6 9 in
  let '(d1, a1) := ripemd160_R21 d1 e1 a1 b1 c1 w4 6 in
  let '(d2, a2) := ripemd160_R22 d2 e2 a2 b2 c2 w11 13 in
  let '(c1, e1) := ripemd160_R21 c1 d1 e1 a1 b1 w13 8 in
  let '(c2, e2) := ripemd160_R22 c2 d2 e2 a2 b2 w3 15 in
  let '(b1, d1) := ripemd160_R21 b1 c1 d1 e1 a1 w1 13 in
  let '(b2, d2) := ripemd160_R22 b2 c2 d2 e2 a2 w7 7 in
  let '(a1, c1) := ripemd160_R21 a1 b1 c1 d1 e1 w10 11 in
  let '(a2, c2) := ripemd160_R22 a2 b2 c2 d2 e2 w0 12 in
  let '(e1, b1) := ripemd160_R21 e1 a1 b1 c1 d1 w6 9 in
  let '(e2, b2) := ripemd160_R22 e2 a2 b2 c2 d2 w13 8 in
  let '(d1, a1) := ripemd160_R21 d1 e1 a1 b1 c1 w15 7 in
  let '(d2, a2) := ripemd160_R22 d2 e2 a2 b2 c2 w5 9 in
  let '(c1, e1) := ripemd160_R21 c1 d1 e1 a1 b1 w3 15 in
  let '(c2, e2) := ripemd160_R22 c2 d2 e2 a2 b2 w10 11 in
  let '(b1, d1) := ripemd160_R21 b1 c1 d1 e1 a1 w12 7 in
  let '(b2, d2) := ripemd160_R22 b2 c2 d2 e2 a2 w14 7 in
  let '(a1, c1) := ripemd160_R21 a1 b1 c1 d1 e1 w0 12 in
  let '(a2, c2) := ripemd160_R22 a2 b2 c2 d2 e2 w15 7 in
  let '(e1, b1) := ripemd160_R21 e1 a1 b1 c1 d1 w9 15 in
  let '(e2, b2) := ripemd160_R22 e2 a2 b2 c2 d2 w8 12 in
  let '(d1, a1) := ripemd160_R21 d1 e1 a1 b1 c1 w5 9 in
  let '(d2, a2) := ripemd160_R22 d2 e2 a2 b2 c2 w12 7 in
  let '(c1, e1) := ripemd160_R21 c1 d1 e1 a1 b1 w2 11 in
  let '(c2, e2) := ripemd160_R22 c2 d2 e2 a2 b2 w4 6 in
  let '(b1, d1) := ripemd160_R21 b1 c1 d1 e1 a1 w14 7 in
  let '(b2, d2) := ripemd160_R22 b2 c2 d2 e2 a2 w9 15 in
  let '(a1, c1) := ripemd160_R21 a1 b1 c1 d1 e1 w11 13 in
  let '(a2, c2) := ripemd160_R22 a2 b2 c2 d2 e2 w1 13 in
  let '(e1, b1) := ripemd160_R21 e1 a1 b1 c1 d1 w8 12 in
  let '(e2, b2) := ripemd160_R22 e2 a2 b2 c2 d2 w2 11 in
  let '(d1, a1) := ripemd160_R31 d1 e1 a1 b1 c1 w3 11 in
  let '(d2, a2) := ripemd160_R32 d2 e2 a2 b2 c2 w15 9 in
  let '(c1, e1) := ripemd160_R31 c1 d1 e1 a1 b1 w10 13 in
  let '(c2, e2) := ripemd160_R32 c2 d2 e2 a2 b2 w5 7 in
  let '(b1, d1) := ripemd160_R31 b1 c1 d1 e1 a1 w14 6 in
  let '(b2, d2) := ripemd160_R32 b2 c2 d2 e2 a2 w1 15 in
  let '(a1, c1) := ripemd160_R31 a1 b1 c1 d1 e1 w4 7 in
  let '(a2, c2) := ripemd160_R32 a2 b2 c2 d2 e2 w3 11 in
  let '(e1, b1) := ripemd160_R31 e1 a1 b1 c1 d1 w9 14 in
  let '(e2, b2) := ripemd160_R32 e2 a2 b2 c2 d2 w7 8 in
  let '(d1, a1) := ripemd160_R31 d1 e1 a1 b1 c1 w15 9 in
  let '(d2, a2) := ripemd160_R32 d2 e2 a2 b2 c2 w14 6 in
  let '(c1, e1) := ripemd160_R31 c1 d1 e1 a1 b1 w8 13 in
  let '(c2, e2) := ripemd160_R32 c2 d2 e2 a2 b2 w6 6 in
  let '(b1, d1) := ripemd160_R31 b1 c1 d1 e1 a1 w1 15 in
  let '(b2, d2) := ripemd160_R32 b2 c2 d2 e2 a2 w9 14 in
  let '(a1, c1) := ripemd160_R31 a1 b1 c1 d1 e1 w2 14 in
  let '(a2, c2) := ripemd160_R32 a2 b2 c2 d2 e2 w11 12 in
  let '(e1, b1) := ripemd160_R31 e1 a1 b1 c1 d1 w7 8 in
  let '(e2, b2) := ripemd160_R32 e2 a2 b2 c2 d2 w8 13 in
  let '(d1, a1) := ripemd160_R31 d1 e1 a1 b1 c1 w0 13 in
  let '(d2, a2) := ripemd160_R32 d2 e2 a2 b2 c2 w12 5 in
  let '(c1, e1) := ripemd160_R31 c1 d1 e1 a1 b1 w6 6 in
  let '(c2, e2) := ripemd160_R32 c2 d2 e2 a2 b2 w2 14 in
  let '(b1, d1) := ripemd160_R31 b1 c1 d1 e1 a1 w13 5 in
  let '(b2, d2) := ripemd160_R32 b2 c2 d2 e2 a2 w10 13 in
  let '(a1, c1) := ripemd160_R31 a1 b1 c1 d1 e1 w11 12 in
  let '(a2, c2) := ripemd160_R32 a2 b2 c2 d2 e2 w0 13 in
  let '(e1, b1) := ripemd160_R31 e1 a1 b1 c1 d1 w5 7 in
  let '(e2, b2) := ripemd160_R32 e2 a2 b2 c2 d2 w4 7 in
  let '(d1, a1) := ripemd160_R31 d1 e1 a1 b1 c1 w12 5 in
  let '(d2, a2) := ripemd160_R32 d2 e2 a2 b2 c2 w13 5 in
  let '(c1, e1) := ripemd160_R41 c1 d1 e1 a1 b1 w1 11 in
  let '(c2, e2) := ripemd160_R42 c2 d2 e2 a2 b2 w8 15 in
  let '(b1, d1) := ripemd160_R41 b1 c1 d1 e1 a1 w9 12 in
  let '(b2, d2) := ripemd160_R42 b2 c2 d2 e2 a2 w6 5 in
  let '(a1, c1) := ripemd160_R41 a1 b1 c1 d1 e1 w11 14 in
  let '(a2, c2) := ripemd160_R42 a2 b2 c2 d2 e2 w4 8 in
  let '(e1, b1) := ripemd160_R41 e1 a1 b1 c1 d1 w10 15 in
  let '(e2, b2) := ripemd160_R42 e2 a2 b2 c2 d2 w1 11 in
  let '(d1, a1) := ripemd160_R41 d1 e1 a1 b1 c1 w0 14 in
  let '(d2, a2) := ripemd160_R42 d2 e2 a2 b2 c2 w3 14 in
  let '(c1, e1) := ripemd160_R41 c1 d1 e1 a1 b1 w8 15 in
  let '(c2, e2) := ripemd160_R42 c2 d2 e2 a2 b2 w11 14 in
  let '(b1, d1) := ripemd160_R41 b1 c1 d1 e1 a1 w12 9 in
  let '(b2, d2) := ripemd160_R42 b2 c2 d2 e2 a2 w15 6 in
  let '(a1, c1) := ripemd160_R41 a1 b1 c1 d1 e1 w4 8 in
  let '(a2, c2) := ripemd160_R42 a2 b2 c2 d2 e2 w0 14 in
  let '(e1, b1) := ripemd160_R41 e1 a1 b1 c1 d1 w13 9 in
  let '(e2, b2) := ripemd160_R42 e2 a2 b2 c2 d2 w5 6 in
  let '(d1, a1) := ripemd160_R41 d1 e1 a1 b1 c1 w3 14 in
  let '(d2, a2) := ripemd160_R42 d2 e2 a2 b2 c2 w12 9 in
  let '(c1, e1) := ripemd160_R41 c1 d1 e1 a1 b1 w7 5 in
  let '(c2, e2) := ripemd160_R42 c2 d2 e2 a2 b2 w2 12 in
  let '(b1, d1) := ripemd160_R41 b1 c1 d1 e1 a1 w15 6 in
  let '(b2, d2) := ripemd160_R42 b2 c2 d2 e2 a2 w13 9 in
  let '(a1, c1) := ripemd160_R41 a1 b1 c1 d1 e1 w14 8 in
  let '(a2, c2) := ripemd160_R42 a2 b2 c2 d2 e2 w9 12 in
  let '(e1, b1) := ripemd160_R41 e1 a1 b1 c1 d1 w5 6 in
  let '(e2, b2) := ripemd160_R42 e2 a2 b2 c2 d2 w7 5 in
  let '(d1, a1) := ripemd160_R41 d1 e1 a1 b1 c1 w6 5 in
  let '(d2, a2) := ripemd160_R42 d2 e2 a2 b2 c2 w10 15 in
  let '(c1, e1) := ripemd160_R41 c1 d1 e1 a1 b1 w2 12 in
  let '(c2, e2) := ripemd160_R42 c2 d2 e2 a2 b2 w14 8 in
  let '(b1, d1) := ripemd160_R51 b1 c1 d1 e1 a1 w4 9 in
  let '(b2, d2) := ripemd160_R52 b2 c2 d2 e2 a2 w12 8 in
  let '(a1, c1) := ripemd160_R51 a1 b1 c1 d1 e1 w0 15 in
  let '(a2, c2) := ripemd160_R52 a2 b2 c2 d2 e2 w15 5 in
  let '(e1, b1) := ripemd160_R51 e1 a1 b1 c1 d1 w5 5 in
  let '(e2, b2) := ripemd160_R52 e2 a2 b2 c2 d2 w10 12 in
  let '(d1, a1) := ripemd160_R51 d1 e1 a1 b1 c1 w9 11 in
  let '(d2, a2) := ripemd160_R52 d2 e2 a2 b2 c2 w4 9 in
  let '(c1, e1) := ripemd160_R51 c1 d1 e1 a1 b1 w7 6 in
  let '(c2, e2) := ripemd160_R52 c2 d2 e2 a2 b2 w1 12 in
  let '(b1, d1) := ripemd160_R51 b1 c1 d1 e1 a1 w12 8 in
  let '(b2, d2) := ripemd160_R52 b2 c2 d2 e2 a2 w5 5 in
  let '(a1, c1) := ripemd160_R51 a1 b1 c1 d1 e1 w2 13 in
  let '(a2, c2) := ripemd160_R52 a2 b2 c2 d2 e2 w8 14 in
  let '(e1, b1) := ripemd160_R51 e1 a1 b1 c1 d1 w10 12 in
  let '(e2, b2) := ripemd160_R52 e2 a2 b2 c2 d2 w7 6 in
  let '(d1, a1) := ripemd160_R51 d1 e1 a1 b1 c1 w14 5 in
  let '(d2, a2) := ripemd160_R52 d2 e2 a2 b2 c2 w6 8 in
  let '(c1, e1) := ripemd160_R51 c1 d1 e1 a1 b1 w1 12 in
  let '(c2, e2) := ripemd160_R52 c2 d2 e2 a2 b2 w2 13 in
  let '(b1, d1) := ripemd160_R51 b1 c1 d1 e1 a1 w3 13 in
  let '(b2, d2) := ripemd160_R52 b2 c2 d2 e2 a2 w13 6 in
  let '(a1, c1) := ripemd160_R51 a1 b1 c1 d1 e1 w8 14 in
  let '(a2, c2) := ripemd160_R52 a2 b2 c2 d2 e2 w14 5 in
  let '(e1, b1) := ripemd160_R51 e1 a1 b1 c1 d1 w11 11 in
  let '(e2, b2) := ripemd160_R52 e2 a2 b2 c2 d2 w0 15 in
  let '(d1, a1) := ripemd160_R51 d1 e1 a1 b1 c1 w6 8 in
  let '(d2, a2) := ripemd160_R52 d2 e2 a2 b2 c2 w3 13 in
  let '(c1, e1) := ripemd160_R51 c1 d1 e1 a1 b1 w15 5 in
  let '(c2, e2) := ripemd160_R52 c2 d2 e2 a2 b2 w9 11 in
  let '(b1, d1) := ripemd160_R51 b1 c1 d1 e1 a1 w13 6 in
  let '(b2, d2) := ripemd160_R52 b2 c2 d2 e2 a2 w11 11 in
  let t := s.[0] in
  [u32 (u32 (s.[1] + c1) + d2); u32 (u32 (s.[2] + d1) + e2); u32 (u32 (s.[3] + e1) + a2);
   u32 (u32 (s.[4] + a1) + b2); u32 (u32 (t + b1) + c2)].

Definition ripemd160_Transform (s chunk : list Z) : list Z :=
  ripemd160_rounds s
    (ReadLE32 (skipn 0 chunk)) (ReadLE32 (skipn 4 chunk)) (ReadLE32 (skipn 8 chunk)) (ReadLE32 (skipn 12 chunk))
    (ReadLE32 (skipn 16 chunk)) (ReadLE32 (skipn 20 chunk)) (ReadLE32 (skipn 24 chunk)) (ReadLE32 (skipn 28 chunk))
    (ReadLE32 (skipn 32 chunk)) (ReadLE32 (skipn 36 chunk)) (ReadLE32 (skipn 40 chunk)) (ReadLE32 (skipn 44 chunk))
    (ReadLE32 (skipn 48 chunk)) (ReadLE32 (skipn 52 chunk)) (ReadLE32 (skipn 56 chunk)) (ReadLE32 (skipn 60 chunk)).

Definition CRIPEMD160 (memory : list Z) : Hasher :=
  {| hs := ripemd160_Initialize; hbuf := memory; hbytes := 0 |}.
Definition CRIPEMD160_Write (st : Hasher) (data : list Z) : Hasher := hasher_Write ripemd160_Transform st data.
Definition CRIPEMD160_Finalize (st : Hasher) : list Z :=
  flat_map WriteLE32 (hs (hasher_pad ripemd160_Transform WriteLE64 st)).
Definition CRIPEMD160_Reset (st : Hasher) : Hasher :=
  {| hs := ripemd160_Initialize; hbuf := hbuf st; hbytes := 0 |}.

Example sha256_abc :
  CSHA256_Finalize (CSHA256_Write (CSHA256 (repeat 0 64)) [97; 98; 99]) =
  Some (WriteBE32 0xba7816bf ++ WriteBE32 0x8f01cfea ++ WriteBE32 0x414140de ++ WriteBE32 0x5dae2223
        ++ WriteBE32 0xb00361a3 ++ WriteBE32 0x96177a9c ++ WriteBE32 0xb410ff61 ++ WriteBE32 0xf20015ad).
Proof. vm_compute. reflexivity. Qed.
Example sha1_abc :
  CSHA1_Finalize (CSHA1_Write (CSHA1 (repeat 0 64)) [97; 98; 99]) =
  WriteBE32 0xa9993e36 ++ WriteBE32 0x4706816a ++ WriteBE32 0xba3e2571 ++ WriteBE32 0x7850c26c
  ++ WriteBE32 0x9cd0d89d.
Proof. vm_compute. reflexivity. Qed.
Example ripemd160_abc :
  CRIPEMD160_Finalize (CRIPEMD160_Write (CRIPEMD160 (repeat 0 64)) [97; 98; 99]) =
  WriteBE32 0x8eb208f7 ++ WriteBE32 0xe05d987a ++ WriteBE32 0x9b044a8e ++ WriteBE32 0x98c6b087
  ++ WriteBE32 0xf15a0bfc.
Proof. vm_compute. reflexivity. Qed.

(** * Specification: absorbing a message block by block *)

Section Absorb.
Context (Transform : list Z -> list Z -> list Z).
Context (HT : forall s l, Transform s (firstn 64 l) = Transform s l).

(** The chaining value after the full blocks of [m], and what is left. *)
Definition absorb (s m : list Z) : list Z * list Z :=
  let '(s', r, _) := write_chunks Transform (length m) s m 0 in (s', r).

Lemma write_chunks_fuel f : forall g s m b, (length m <= f)%nat -> (length m <= g)%nat ->
  write_chunks Transform f s m b = write_chunks Transform g s m b.
Proof.
  induction f as [|f IH]; intros [|g] s m b Hf Hg; cbn [write_chunks]; try reflexivity.
  - now destruct m; [|cbn in Hf; lia].
  - now destruct m; [|cbn in Hg; lia].
  - destruct (Nat.leb_spec 64 (length m)); [|reflexivity]. apply IH; rewrite length_skipn; lia.
Qed.

Lemma write_chunks_absorb f : forall s m b, (length m <= f)%nat -> 0 <= b -> b + Z.of_nat (length m) < 2 ^ 64 ->
  exists s' r, write_chunks Transform f s m b = (s', r, b + Z.of_nat (length m - length r)) /\
    absorb s m = (s', r) /\ (length r < 64)%nat /\ (length r <= length m)%nat /\
    length r = (length m mod 64)%nat.
Proof.
  induction f as [|f IH]; intros s m b Hf Hb H64.
  - destruct m; [|cbn in Hf; lia]. exists s, []. rewrite Z.add_0_r. repeat split; try reflexivity; cbn; lia.
  - cbn [write_chunks]. destruct (Nat.leb_spec 64 (length m)) as [H|H].
    + assert (Hl : length (skipn 64 m) = (length m - 64)%nat) by apply length_skipn.
      destruct (IH (Transform s m) (skipn 64 m) (b + 64)) as (s' & r & E & Ea & Hr & Hle & Hm);
        [lia|lia|lia|].
      exists s', r. rewrite u64_small by lia. rewrite E. split; [f_equal; lia|].
      split; [|repeat split; try lia; rewrite Hm, Hl;
        replace (length m) with (length m - 64 + 1 * 64)%nat at 2 by lia; now rewrite Nat.Div0.mod_add].
      rewrite <- Ea. unfold absorb.
      rewrite (write_chunks_fuel (length m) (S (length m)) s m 0) by lia.
      cbn [write_chunks]. destruct (Nat.leb_spec 64 (length m)); [|lia].
      change (u64 (0 + 64)) with 64.
      destruct (IH (Transform s m) (skipn 64 m) 64) as (s1 & r1 & E1 & Ea1 & _); [lia|lia|lia|].
      destruct (IH (Transform s m) (skipn 64 m) 0) as (s2 & r2 & E2 & Ea2 & _); [lia|lia|lia|].
      rewrite (write_chunks_fuel (length m) f), E1 by lia.
      rewrite (write_chunks_fuel (length (skipn 64 m)) f), E2 by lia. congruence.
    + exists s, m. rewrite Nat.sub_diag, Z.add_0_r.
      split; [reflexivity|]. split; [|repeat split; try lia; now rewrite Nat.mod_small].
      unfold absorb. destruct m as [|x m']; [reflexivity|]. set (m := x :: m') in *.
      change (length m) with (S (length m')). cbn [write_chunks].
      now destruct (Nat.leb_spec 64 (length m)); [lia|].
Qed.

Lemma absorb_spec s m : Z.of_nat (length m) < 2 ^ 64 ->
  exists s' r, absorb s m = (s', r) /\ (length r < 64)%nat /\ length r = (length m mod 64)%nat.
Proof.
  intros H. destruct (write_chunks_absorb (length m) s m 0) as (s' & r & _ & ? & ? & _ & ?); eauto; lia.
Qed.

Lemma absorb_short s m : (length m < 64)%nat -> absorb s m = (s, m).
Proof.
  intros H. unfold absorb. destruct m as [|x m']; [reflexivity|]. set (m := x :: m') in *.
  change (length m) with (S (length m')). cbn [write_chunks].
  now destruct (Nat.leb_spec 64 (length m)); [lia|].
Qed.

Lemma absorb_block s m : (64 <= length m)%nat -> Z.of_nat (length m) < 2 ^ 63 ->
  absorb s m = absorb (Transform s m) (skipn 64 m).
Proof.
  intros H H63. destruct (length m) as [|n] eqn:En; [lia|].
  assert (Hl : length (skipn 64 m) = (length m - 64)%nat) by apply length_skipn.
  destruct (write_chunks_absorb n (Transform s m) (skipn 64 m) 64) as (s1 & r1 & E1 & Ea1 & _); [lia..|].
  rewrite Ea1. unfold absorb. rewrite En. cbn [write_chunks].
  destruct (Nat.leb_spec 64 (length m)); [|lia]. change (u64 (0 + 64)) with 64. now rewrite E1.
Qed.

(** Absorbing can be interrupted anywhere. *)
Lemma absorb_app n : forall s m d, (length m <= n)%nat -> Z.of_nat (length m + length d) < 2 ^ 63 ->
  absorb s (m ++ d) = let '(s', r) := absorb s m in absorb s' (r ++ d).
Proof.
  induction n as [|n IH]; intros s m d Hn H63.
  - destruct m; [reflexivity|cbn in Hn; lia].
  - destruct (Nat.ltb_spec (length m) 64) as [H|H]; [now rewrite (absorb_short s m)|].
    rewrite (absorb_block s m) by lia. rewrite absorb_block by (rewrite length_app; lia).
    rewrite <- (HT s (m ++ d)), firstn_app.
    replace (64 - length m)%nat with 0%nat by lia. rewrite app_nil_r, HT.
    rewrite skipn_app. replace (64 - length m)%nat with 0%nat by lia.
    apply IH; rewrite length_skipn; lia.
Qed.

(** * The hasher refines the specification

    [repr st m]: the object has been fed [m]; the rest of the buffer is
    arbitrary. *)
Definition repr (init : list Z) (st : Hasher) (m : list Z) : Prop :=
  exists r, absorb init m = (hs st, r) /\ firstn (length r) (hbuf st) = r /\
    length (hbuf st) = 64%nat /\ hbytes st = Z.of_nat (length m).

Lemma length_memcpy buf at_ data n :
  (at_ + n <= length buf)%nat -> (n <= length data)%nat -> length (memcpy buf at_ data n) = length buf.
Proof.
  intros H1 H2. unfold memcpy. rewrite !length_app, !length_firstn, length_skipn. lia.
Qed.

Lemma firstn_memcpy buf at_ data n : (at_ + n <= length buf)%nat -> (n <= length data)%nat ->
  firstn (at_ + n) (memcpy buf at_ data n) = firstn at_ buf ++ firstn n data.
Proof.
  intros H1 H2. unfold memcpy. rewrite app_assoc, firstn_app.
  rewrite length_app, !length_firstn, !Nat.min_l by lia. rewrite Nat.sub_diag, app_nil_r.
  apply firstn_all2. rewrite length_app, !length_firstn. lia.
Qed.

Lemma mod64 n : Z.to_nat (Z.of_nat n mod 64) = (n mod 64)%nat.
Proof. change 64 with (Z.of_nat 64). rewrite <- Nat2Z.inj_mod. apply Nat2Z.id. Qed.

Lemma hasher_Write_repr init st m d :
  repr init st m -> Z.of_nat (length m + length d) < 2 ^ 63 ->
  repr init (hasher_Write Transform st d) (m ++ d).
Proof.
  intros (r & Ha & Hr & Hb & Hn) H63. unfold hasher_Write.
  destruct (absorb_spec init m) as (s0 & r0 & Ea & Hr64 & Hrm); [lia|].
  rewrite Ha in Ea. injection Ea as <- <-.
  assert (Hrle : (length r <= length m)%nat) by (rewrite Hrm; apply Nat.Div0.mod_le).
  rewrite Hn, mod64, <- Hrm. unfold repr.
  rewrite (absorb_app (length m)), Ha by lia. rewrite length_app.
  destruct (negb (length r =? 0)%nat && (64 <=? length r + length d)%nat) eqn:E.
  - breflect. set (k := (64 - length r)%nat). assert (Hk : (k + length r = 64)%nat) by (unfold k; lia).
    set (buf := memcpy (hbuf st) (length r) d k).
    assert (Hbuf : buf = r ++ firstn k d).
    { pose proof (firstn_memcpy (hbuf st) (length r) d k ltac:(lia) ltac:(lia)) as Hf.
      rewrite Hr in Hf. rewrite <- Hf. symmetry. apply firstn_all2. unfold buf.
      rewrite length_memcpy; lia. }
    assert (Hsk : length (skipn k d) = (length d - k)%nat) by apply length_skipn.
    assert (Hab : absorb (hs st) (r ++ d) = absorb (Transform (hs st) buf) (skipn k d)).
    { rewrite absorb_block by (rewrite length_app; lia).
      rewrite skipn_app, (skipn_all2 r) by lia. fold k. cbn [app]. f_equal.
      rewrite <- (HT (hs st) (r ++ d)), firstn_app, (firstn_all2 r) by lia. fold k. now rewrite Hbuf. }
    rewrite u64_small by lia. rewrite Hab.
    destruct (write_chunks_absorb (length (skipn k d)) (Transform (hs st) buf) (skipn k d)
      (Z.of_nat (length m) + Z.of_nat k)) as (s' & r' & -> & Hab' & Hr' & Hle & _); [lia..|].
    exists r'. rewrite Hab'.
    destruct (Nat.ltb_spec 0 (length r')) as [Hp|Hp]; cbn [hs hbuf hbytes].
    + rewrite u64_small by lia.
      assert (Hlb : length buf = 64%nat) by (unfold buf; rewrite length_memcpy; lia).
      repeat split; try lia; [|rewrite length_memcpy; lia].
      rewrite <- (Nat.add_0_l (length r')) at 1. rewrite firstn_memcpy by lia. cbn. apply firstn_all.
    + destruct r'; [|cbn in Hp; lia]. cbn [length firstn].
      repeat split; [unfold buf; rewrite length_memcpy; lia|cbn in *; lia].
  - destruct (Nat.ltb_spec (length r) 1) as [Hz|Hz].
    + destruct r; [|cbn in Hz; lia]. cbn [app length] in *.
      destruct (write_chunks_absorb (length d) (hs st) d (Z.of_nat (length m)))
        as (s' & r' & -> & Hab' & Hr' & Hle & _); [lia..|].
      exists r'. rewrite Hab'.
      destruct (Nat.ltb_spec 0 (length r')) as [Hp|Hp]; cbn [hs hbuf hbytes].
      * rewrite u64_small by lia. repeat split; try lia; [|rewrite length_memcpy; lia].
        rewrite <- (Nat.add_0_l (length r')) at 1. rewrite firstn_memcpy by lia. cbn. apply firstn_all.
      * destruct r'; [|cbn in Hp; lia]. cbn [length firstn]. repeat split; [lia|cbn in *; lia].
    + assert (Hlt : (length r + length d < 64)%nat).
      { destruct (Nat.eqb_spec (length r) 0); [lia|]. cbn [negb andb] in E. breflect. lia. }
      destruct (write_chunks_absorb (length d) (hs st) d (Z.of_nat (length m)))
        as (s' & r' & -> & Hab' & _); [lia..|].
      rewrite absorb_short in Hab' by lia. injection Hab' as <- <-.
      exists (r ++ d). rewrite absorb_short by (rewrite length_app; lia). rewrite length_app.
      destruct (Nat.ltb_spec 0 (length d)) as [Hp|Hp]; cbn [hs hbuf hbytes].
      * rewrite u64_small by lia. repeat split; try lia; [|rewrite length_memcpy; lia].
        rewrite firstn_memcpy, Hr by lia. f_equal. apply firstn_all.
      * destruct d; [|cbn in Hp; lia]. rewrite app_nil_r. cbn [length].
        rewrite Nat.add_0_r. repeat split; auto; lia.
Qed.

(** The padded message. *)
Definition padding (sizedesc : Z -> list Z) (n : nat) : list Z :=
  (0x80 :: repeat 0 (Z.to_nat ((119 - Z.of_nat n mod 64) mod 64))) ++ sizedesc (8 * Z.of_nat n).

Lemma pad_prefix k : (k <= 63)%nat -> firstn (S k) pad = 0x80 :: repeat 0 k.
Proof.
  intros H. unfold pad. cbn [firstn]. f_equal.
  replace 63%nat with (k + (63 - k))%nat by lia. rewrite repeat_app, firstn_app, repeat_length, Nat.sub_diag.
  rewrite firstn_all2 by now rewrite repeat_length. apply app_nil_r.
Qed.

Lemma hasher_pad_repr init st m sizedesc :
  (forall x, length (sizedesc x) = 8%nat) ->
  repr init st m -> Z.of_nat (length m) < 2 ^ 61 - 128 ->
  repr init (hasher_pad Transform sizedesc st) (m ++ padding sizedesc (length m)).
Proof.
  intros Hd Hst Hl. pose proof Hst as (_ & _ & _ & _ & Hn). unfold hasher_pad, padding.
  rewrite Hn. set (k := (119 - Z.of_nat (length m) mod 64) mod 64).
  assert (Hk : 0 <= k < 64) by (apply Z.mod_pos_bound; lia).
  replace (Z.to_nat (1 + k)) with (S (Z.to_nat k)) by lia.
  rewrite pad_prefix by lia. rewrite app_assoc.
  replace (u64 (Z.shiftl (Z.of_nat (length m)) 3)) with (8 * Z.of_nat (length m)).
  2: { rewrite Z.shiftl_mul_pow2 by lia. rewrite u64_small by (change (2 ^ 3) with 8; lia).
       change (2 ^ 3) with 8. lia. }
  apply hasher_Write_repr.
  - apply hasher_Write_repr; [assumption|]. cbn [length]. rewrite repeat_length. lia.
  - rewrite Hd, length_app. cbn [length]. rewrite repeat_length. lia.
Qed.

(** The padded message is a whole number of blocks. *)
Lemma padded_length sizedesc m : (forall x, length (sizedesc x) = 8%nat) ->
  (length (m ++ padding sizedesc (length m)) mod 64 = 0)%nat.
Proof.
  intros Hd. unfold padding. rewrite !length_app, Hd. cbn [length]. rewrite repeat_length.
  set (n := length m). apply Nat2Z.inj. rewrite Nat2Z.inj_mod, !Nat2Z.inj_add.
  rewrite Nat2Z.inj_succ, Z2Nat.id by (apply Z.mod_pos_bound; lia).
  Z.to_euclidean_division_equations; lia.
Qed.
End Absorb.

(** * The digests *)

Lemma read_window k (l : list Z) : (k + 4 <= 64)%nat -> firstn 4 (skipn k (firstn 64 l)) = firstn 4 (skipn k l).
Proof.
  intros H. rewrite skipn_firstn_comm, firstn_firstn. now rewrite Nat.min_l by lia.
Qed.
Lemma ReadBE32_window k l : (k + 4 <= 64)%nat -> ReadBE32 (skipn k (firstn 64 l)) = ReadBE32 (skipn k l).
Proof. intros H. unfold ReadBE32. now rewrite read_window. Qed.
Lemma ReadLE32_window k l : (k + 4 <= 64)%nat -> ReadLE32 (skipn k (firstn 64 l)) = ReadLE32 (skipn k l).
Proof. intros H. unfold ReadLE32. now rewrite read_window. Qed.

(** The compression functions read 64 bytes. *)
Lemma sha256_Transform_window s l : sha256_Transform s (firstn 64 l) = sha256_Transform s l.
Proof. unfold sha256_Transform. now rewrite !ReadBE32_window by lia. Qed.
Lemma sha1_Transform_window s l : sha1_Transform s (firstn 64 l) = sha1_Transform s l.
Proof. unfold sha1_Transform. now rewrite !ReadBE32_window by lia. Qed.
Lemma ripemd160_Transform_window s l : ripemd160_Transform s (firstn 64 l) = ripemd160_Transform s l.
Proof. unfold ripemd160_Transform. now rewrite !ReadLE32_window by lia. Qed.

Lemma length_sha256_Transform s l : length (sha256_Transform s l) = 8%nat.
Proof. reflexivity. Qed.
Lemma length_sha1_Transform s l : length (sha1_Transform s l) = 5%nat.
Proof. reflexivity. Qed.
Lemma length_ripemd160_Transform s l : length (ripemd160_Transform s l) = 5%nat.
Proof. reflexivity. Qed.

Lemma absorb_length T n : (forall s l, length (T s l) = n) -> forall f s m b,
  length s = n -> length (fst (fst (write_chunks T f s m b))) = n.
Proof.
  intros HT f. induction f as [|f IH]; intros s m b Hs; [exact Hs|].
  cbn [write_chunks]. destruct (64 <=? length m)%nat; [apply IH, HT|exact Hs].
Qed.

Lemma flat_map_words (w : Z -> list Z) : (forall x, length (w x) = 4%nat /\ bytes_ok (w x)) ->
  forall l, length (flat_map w l) = (4 * length l)%nat /\ bytes_ok (flat_map w l).
Proof.
  intros Hw. induction l as [|x l [IH1 IH2]]; cbn [flat_map length]; [split; [lia|constructor]|].
  destruct (Hw x). rewrite length_app. split; [lia|]. apply bytes_ok_app. auto.
Qed.
Lemma WriteBE32_word x : length (WriteBE32 x) = 4%nat /\ bytes_ok (WriteBE32 x).
Proof.
  unfold WriteBE32. rewrite length_rev, length_le_bytes. split; [reflexivity|].
  apply Forall_rev. apply le_bytes_ok.
Qed.
Lemma WriteLE32_word x : length (WriteLE32 x) = 4%nat /\ bytes_ok (WriteLE32 x).
Proof. split; [apply length_le_bytes|apply le_bytes_ok]. Qed.

(** The digest of a message: absorb the padded message, write out the words. *)
Definition digest (T : list Z -> list Z -> list Z) (init : list Z) (sizedesc w : Z -> list Z)
    (m : list Z) : list Z :=
  flat_map w (fst (absorb T init (m ++ padding sizedesc (length m)))).

Lemma digest_shape T init sizedesc w n m :
  (forall s l, length (T s l) = n) -> length init = n ->
  (forall x, length (w x) = 4%nat /\ bytes_ok (w x)) ->
  length (digest T init sizedesc w m) = (4 * n)%nat /\ bytes_ok (digest T init sizedesc w m).
Proof.
  intros HT Hi Hw. unfold digest, absorb.
  set (p := m ++ _).
  pose proof (absorb_length T n HT (length p) init p 0 Hi) as Hl.
  destruct (write_chunks T (length p) init p 0) as [[s r] b]. cbn [fst] in *.
  rewrite <- Hl. now apply flat_map_words.
Qed.

Definition sha256 : list Z -> list Z := digest sha256_Transform sha256_Initialize WriteBE64 WriteBE32.
Definition sha1 : list Z -> list Z := digest sha1_Transform sha1_Initialize WriteBE64 WriteBE32.
Definition ripemd160 : list Z -> list Z := digest ripemd160_Transform ripemd160_Initialize WriteLE64 WriteLE32.

Lemma repr_initial T init memory : length memory = 64%nat ->
  repr T init {| hs := init; hbuf := memory; hbytes := 0 |} [].
Proof. intros H. exists []. repeat split. exact H. Qed.

Lemma repr_writes T init (HT : forall s l, T s (firstn 64 l) = T s l) parts : forall st m,
  repr T init st m -> Z.of_nat (length (m ++ concat parts)) < 2 ^ 63 ->
  repr T init (fold_left (hasher_Write T) parts st) (m ++ concat parts).
Proof.
  induction parts as [|d parts IH]; intros st m Hst Hl; cbn [fold_left concat] in *.
  - now rewrite app_nil_r.
  - rewrite app_assoc in *. apply IH; [|assumption]. apply hasher_Write_repr; [assumption..|].
    rewrite !length_app in Hl. lia.
Qed.

(** The incremental object computes the digest of all that was written. *)
Lemma hasher_digest T init sizedesc w memory parts :
  (forall s l, T s (firstn 64 l) = T s l) -> (forall x, length (sizedesc x) = 8%nat) ->
  length memory = 64%nat -> Z.of_nat (length (concat parts)) < 2 ^ 61 - 128 ->
  flat_map w (hs (hasher_pad T sizedesc
    (fold_left (hasher_Write T) parts {| hs := init; hbuf := memory; hbytes := 0 |}))) =
  digest T init sizedesc w (concat parts).
Proof.
  intros HT Hd Hm Hl.
  pose proof (repr_writes T init HT parts _ [] (repr_initial T init memory Hm) ltac:(cbn; lia)) as H.
  cbn [app] in H. apply (hasher_pad_repr T HT init _ _ sizedesc Hd) in H; [|assumption].
  destruct H as (r & H & _). unfold digest. now rewrite H.
Qed.

Lemma WriteBE64_length x : length (WriteBE64 x) = 8%nat.
Proof. reflexivity. Qed.

(** C38: the buffered hashers of SHA-256, SHA-1 and RIPEMD-160 compute the hash of the
    concatenation of everything written, whatever the sizes of the writes and the initial
    content of the buffer: each digest is the compression function folded over the blocks of
    the message padded with 0x80, zeros and its length in bits, the padded message being a
    whole number of blocks. *)
Theorem hashers_compute_digests memory parts :
  length memory = 64%nat -> Z.of_nat (length (concat parts)) < 2 ^ 61 - 128 ->
  CSHA256_Finalize (fold_left CSHA256_Write parts (CSHA256 memory)) = Some (sha256 (concat parts)) /\
  CSHA1_Finalize (fold_left CSHA1_Write parts (CSHA1 memory)) = sha1 (concat parts) /\
  CRIPEMD160_Finalize (fold_left CRIPEMD160_Write parts (CRIPEMD160 memory)) = ripemd160 (concat parts) /\
  (forall m, length (m ++ padding WriteBE64 (length m)) mod 64 = 0)%nat.
Proof.
  intros Hm Hl. split; [|split; [|split]].
  - unfold CSHA256_Finalize, CSHA256_FinalizeNoPadding. cbn [andb]. f_equal.
    apply hasher_digest; auto using sha256_Transform_window, WriteBE64_length.
  - apply hasher_digest; auto using sha1_Transform_window, WriteBE64_length.
  - apply hasher_digest; auto using ripemd160_Transform_window.
  - intros m. now apply padded_length.
Qed.
Lemma hashers_compute_digests_witness :
  CSHA256_Finalize (fold_left CSHA256_Write [[97]; repeat 98 70; [99]] (CSHA256 (repeat 255 64)))
    = Some (sha256 (concat [[97]; repeat 98 70; [99]])).
Proof.
  refine (proj1 (hashers_compute_digests (repeat 255 64) [[97]; repeat 98 70; [99]] _ _)); reflexivity.
Defined.

(** The interface the interpreter relies on, with the real hash functions. *)
Definition passion_crypto (CheckLowS : list Z -> bool) : ScriptCrypto := {|
  Interpreter.RIPEMD160 := ripemd160; Interpreter.SHA1 := sha1; Interpreter.SHA256 := sha256;
  Interpreter.CheckLowS := CheckLowS;
  RIPEMD160_digest := fun m => digest_shape ripemd160_Transform ripemd160_Initialize WriteLE64 WriteLE32 5 m length_ripemd160_Transform eq_refl WriteLE32_word;
  SHA1_digest := fun m => digest_shape sha1_Transform sha1_Initialize WriteBE64 WriteBE32 5 m length_sha1_Transform eq_refl WriteBE32_word;
  SHA256_digest := fun m => digest_shape sha256_Transform sha256_Initialize WriteBE64 WriteBE32 8 m length_sha256_Transform eq_refl WriteBE32_word |}.
