(* ===== verification/Codecs.v ===== *)
(** Codecs: the serialization interface instantiated at the basic types and
    containers the wire format is built from (src/serialize.h,
    src/prevector.h, src/arith_uint256.h). *)
From Stdlib Require Import ZArith Lia List Bool.
From S2P Require Import Prelude Serialize.
Import ListNotations.
Local Open Scope Z_scope.
Local Open Scope passion_scope.

Lemma signed_word w x :
  0 < w -> - 2 ^ (w - 1) <= x < 2 ^ (w - 1) -> signed w (x mod 2 ^ w) = x.
Proof.
  intros Hw Hx. unfold signed. rewrite Z.mod_mod by (apply Z.pow_nonzero; lia).
  assert (E : 2 ^ w = 2 * 2 ^ (w - 1)) by (rewrite <- Z.pow_succ_r by lia; f_equal; lia).
  rewrite E in *. set (h := 2 ^ (w - 1)) in *.
  destruct (Z.leb_spec 0 x).
  - rewrite Z.mod_small by lia. destruct (Z.ltb_spec x h); lia.
  - rewrite <- (Z.mod_unique x (2 * h) (-1) (x + 2 * h)) by lia.
    destruct (Z.ltb_spec (x + 2 * h) h); lia.
Qed.
Lemma signed_range w x : 0 < w -> - 2 ^ (w - 1) <= signed w x < 2 ^ (w - 1).
Proof.
  intros Hw. unfold signed.
  pose proof (Z.mod_pos_bound x (2 ^ w) ltac:(apply Z.pow_pos_nonneg; lia)).
  assert (E : 2 ^ w = 2 * 2 ^ (w - 1)) by (rewrite <- Z.pow_succ_r by lia; f_equal; lia).
  destruct (Z.ltb_spec (x mod 2 ^ w) (2 ^ (w - 1))); lia.
Qed.

Lemma stream_read_ok n s l r :
  bytes_ok s -> stream_read n s = Some (l, r) -> (length l = n /\ bytes_ok l) /\ bytes_ok r.
Proof.
  intros Hs H. apply stream_read_Some in H as [-> Hl]. apply bytes_ok_app in Hs as [? ?]. auto.
Qed.

Lemma read_le_ok n s x r :
  bytes_ok s -> read_le n s = Some (x, r) -> 0 <= x < 256 ^ Z.of_nat n /\ bytes_ok r.
Proof.
  intros Hs H. apply read_le_Some in H; [|assumption].
  destruct H as (E & H). split; [lia|]. rewrite E in Hs. now apply bytes_ok_app in Hs as [? ?].
Qed.

(** The decision procedure for byte strings. *)
Definition bytes_okb (l : list Z) : bool := forallb (fun b => (0 <=? b) && (b <? 256)) l.
Lemma bytes_okb_ok l : bytes_okb l = true -> bytes_ok l.
Proof.
  unfold bytes_okb. intros H. apply Forall_forall. intros b Hb.
  apply forallb_forall with (x := b) in H; [|assumption]. unfold byte_ok. lia.
Qed.

(** * Integers *)

Definition Serialize_i16 (x : Z) : list Z := ser_writedata16 x.
Definition Unserialize_i16 : Reader Z := fun s =>
  '(x, s) <- ser_readdata16 s;; Some (signed 16 x, s).

Lemma Unserialize_i16_ser x r :
  - 2 ^ 15 <= x < 2 ^ 15 -> Unserialize_i16 (Serialize_i16 x ++ r) = Some (x, r).
Proof.
  intros Hx. unfold Unserialize_i16, Serialize_i16, ser_writedata16, WriteLE16.
  assert (0 <= u16 x < 2 ^ 16) by (apply Z.mod_pos_bound; lia).
  rewrite ser_readdata16_le, read_le_bytes by assumption. cbn [obind].
  unfold u16. now rewrite signed_word by lia.
Qed.

Definition ser_uint32 : Serializable Z.
Proof.
  refine {| Serialize := Serialize_u32; Unserialize := ser_readdata32;
            ser_ok := fun x => 0 <= x < 2 ^ 32 |}.
  - exact Unserialize_u32_ser.
  - intros s x r Hs H. rewrite ser_readdata32_le in H. now apply read_le_ok in H.
Defined.

Definition ser_int64 : Serializable Z.
Proof.
  refine {| Serialize := Serialize_i64; Unserialize := Unserialize_i64;
            ser_ok := fun x => - 2 ^ 63 <= x < 2 ^ 63 |}.
  - exact Unserialize_i64_ser.
  - intros s x r Hs ([y s'] & H & E)%obind_Some. injection E as <- <-.
    rewrite ser_readdata64_le in H. apply read_le_ok in H as [_ H]; [|assumption].
    split; [apply (signed_range 64); lia | assumption].
Defined.

Definition ser_int16 : Serializable Z.
Proof.
  refine {| Serialize := Serialize_i16; Unserialize := Unserialize_i16;
            ser_ok := fun x => - 2 ^ 15 <= x < 2 ^ 15 |}.
  - exact Unserialize_i16_ser.
  - intros s x r Hs ([y s'] & H & E)%obind_Some. injection E as <- <-.
    rewrite ser_readdata16_le in H. apply read_le_ok in H as [_ H]; [|assumption].
    split; [apply (signed_range 16); lia | assumption].
Defined.

(** * Blobs, arrays and byte vectors *)

(** [uint256] and the other fixed-size blobs are written from memory. *)
Definition ser_blob (n : nat) : Serializable (list Z).
Proof.
  refine {| Serialize := fun x => x; Unserialize := stream_read n;
            ser_ok := fun x => length x = n /\ bytes_ok x |}.
  - intros x r [Hx _]. now apply stream_read_length.
  - apply stream_read_ok.
Defined.

(** [std::array<unsigned char, N>], element by element. *)
Definition Serialize_array : list Z -> list Z := write_elements ser_writedata8.
Definition Unserialize_array (n : nat) : Reader (list Z) := read_elements ser_readdata8 n.

Lemma Serialize_array_eq x : bytes_ok x -> Serialize_array x = x.
Proof.
  induction 1 as [|b x Hb _ IH]; [reflexivity|]. unfold Serialize_array in *. cbn.
  now rewrite IH, u8_small by (unfold byte_ok in Hb; lia).
Qed.
Lemma Unserialize_array_eq n : forall s, Unserialize_array n s = stream_read n s.
Proof.
  induction n as [|n IH]; intros s; [reflexivity|].
  change (S n) with (1 + n)%nat. rewrite stream_read_split.
  unfold Unserialize_array in *. cbn [Nat.add read_elements]. destruct s as [|b s]; [reflexivity|].
  rewrite ser_readdata8_cons. cbn [obind]. rewrite IH.
  change (stream_read 1 (b :: s)) with (Some ([b], s)). cbn [obind].
  now destruct (stream_read n s) as [[l r]|].
Qed.

Definition ser_array (n : nat) : Serializable (list Z).
Proof.
  refine {| Serialize := Serialize_array; Unserialize := Unserialize_array n;
            ser_ok := fun x => length x = n /\ bytes_ok x |}.
  - intros x r [Hx Hb]. rewrite Unserialize_array_eq, Serialize_array_eq by assumption.
    now apply stream_read_length.
  - intros s x r Hs. rewrite Unserialize_array_eq. now apply stream_read_ok.
Defined.

(** [std::vector<unsigned char>] and [CScript]. *)
Definition ser_bytes : Serializable (list Z).
Proof.
  refine {| Serialize := Serialize_bytes; Unserialize := Unserialize_bytes;
            ser_ok := fun x => Z.of_nat (length x) <= MAX_SIZE /\ bytes_ok x |}.
  - intros x r [Hx _]. now apply Unserialize_bytes_ser.
  - intros s x r Hs H. rewrite Unserialize_bytes_eq in H by assumption.
    apply obind_Some in H as ([n s1] & Hn & H).
    apply ReadCompactSize_Some in Hn as [-> Hn]; [|assumption]. apply bytes_ok_app in Hs as [_ Hs].
    apply stream_read_ok in H as [[Hl Hx] Hr]; [|assumption]. repeat split; auto; lia.
Defined.

(** * Containers *)

Section Containers.
Context {A : Type} {codec : Serializable A}.

Lemma read_elements_ok n : forall s v r,
  bytes_ok s -> read_elements Unserialize n s = Some (v, r) -> Forall ser_ok v /\ bytes_ok r.
Proof.
  induction n as [|n IH]; intros s v r Hs; cbn [read_elements].
  - intros [= <- <-]. auto.
  - intros ([x s1] & Hx & H)%obind_Some. apply Unserialize_ok in Hx as [Hx Hs1]; [|assumption].
    apply obind_Some in H as ([v' s2] & Hv & [= <- <-]). apply IH in Hv as [Hv Hr]; auto.
Qed.

(** [std::vector<T>] with its growth step. *)
Definition ser_vector (chunk : Z) (Hchunk : 0 < chunk) : Serializable (list A).
Proof.
  refine {| Serialize := Serialize_vector Serialize;
            Unserialize := Unserialize_chunked Unserialize chunk;
            ser_ok := fun v => Z.of_nat (length v) <= MAX_SIZE /\ Forall ser_ok v |}.
  - intros v r [Hl Hv]. rewrite Unserialize_chunked_eq by assumption.
    apply (Unserialize_list_ser Serialize Unserialize ser_ok); auto using Unserialize_Serialize.
  - intros s v r Hs. rewrite Unserialize_chunked_eq by assumption.
    intros ([n s1] & Hn & H)%obind_Some.
    apply ReadCompactSize_Some in Hn as [-> Hn]; [|assumption]. apply bytes_ok_app in Hs as [_ Hs].
    pose proof (eq_refl : MAX_SIZE = 33554432). rewrite u32_small in H by lia.
    pose proof (read_elements_length _ _ _ _ _ H).
    apply read_elements_ok in H as [Hv Hr]; [|assumption]. repeat split; auto; lia.
Defined.

(** [Optional<T>]; reading takes any nonzero discriminant. *)
Definition ser_Optional : Serializable (option A).
Proof.
  refine {| Serialize := Serialize_optional Serialize;
            Unserialize := Unserialize_optional Unserialize;
            ser_ok := fun o => forall x, o = Some x -> ser_ok x |}.
  - intros o r Ho. now apply (Unserialize_optional_ser Serialize Unserialize ser_ok Unserialize_Serialize).
  - intros s o r Hs ([d s1] & Hd & H)%obind_Some. apply ser_readdata8_Some in Hd as ->.
    apply Forall_cons_iff in Hs as [_ Hs]. destruct (d =? 0).
    + injection H as <- <-. easy.
    + apply obind_Some in H as ([x s2] & Hx & [= <- <-]).
      apply Unserialize_ok in Hx as [Hx Hr]; [|assumption]. split; [|assumption]. congruence.
Defined.
End Containers.
