(* ===== verification/Transaction.v ===== *)
(** Transactions: their data, wire format and predicates
    (src/primitives/transaction.h, src/primitives/transaction.cpp,
    src/sapling/sapling_transaction.h). *)
From Stdlib Require Import ZArith Lia List Bool.
From S2P Require Import Prelude Serialize Codecs Script Interpreter.
Import ListNotations.
Local Open Scope Z_scope.
Local Open Scope passion_scope.

(** * Data

    A [uint256] field is its 32 bytes of memory. *)

(** [COutPoint]: its [isTransparent] is always true and not serialized. *)
Record COutPoint := mkOutPoint {
  out_hash : list Z;
  out_n : Z
}.

Record CTxIn := mkTxIn {
  prevout : COutPoint;
  scriptSig : CScript;
  nSequence : Z
}.

Record CTxOut := mkTxOut {
  nValue : Z;
  scriptPubKey : CScript;
  nRounds : Z
}.

Record SpendDescription := mkSpend {
  cv : list Z;
  anchor : list Z;
  nullifier : list Z;
  rk : list Z;
  zkproof : list Z;
  spendAuthSig : list Z
}.

Record OutputDescription := mkOutput {
  output_cv : list Z;
  cmu : list Z;
  ephemeralKey : list Z;
  encCiphertext : list Z;
  outCiphertext : list Z;
  output_zkproof : list Z
}.

Record SaplingTxData := mkSapData {
  valueBalance : Z;
  vShieldedSpend : list SpendDescription;
  vShieldedOutput : list OutputDescription;
  bindingSig : list Z
}.

(** [CTransaction] and [CMutableTransaction] hold the same fields; the cached
    hash of the former is [GetHash] below. *)
Record CTransaction := mkTx {
  nVersion : Z;
  nType : Z;
  vin : list CTxIn;
  vout : list CTxOut;
  nLockTime : Z;
  sapData : option SaplingTxData;
  extraPayload : option (list Z)
}.

Definition GROTH_PROOF_SIZE : nat := 48 + 96 + 48.
Definition ZC_SAPLING_ENCCIPHERTEXT_SIZE : nat := (1 + 11 + 8 + 32 + 512) + 16.
Definition ZC_SAPLING_OUTCIPHERTEXT_SIZE : nat := (32 + 32) + 16.
Definition OUTPUTDESCRIPTION_SIZE : Z := 948.
Definition SPENDDESCRIPTION_SIZE : Z := 384.
Definition BINDINGSIG_SIZE : nat := 64.

Definition SaplingTxData_default : SaplingTxData := mkSapData 0 [] [] (repeat 0 BINDINGSIG_SIZE).

Definition LEGACY : Z := 1.
Definition SAPLING : Z := 3.
Definition TOOHIGH : Z := 4.
Definition NORMAL : Z := 0.
Definition CURRENT_VERSION : Z := LEGACY.

Definition CMutableTransaction_default : CTransaction :=
  mkTx CURRENT_VERSION NORMAL [] [] 0 (Some SaplingTxData_default) None.

Definition SEQUENCE_FINAL : Z := 0xffffffff.

(** * Predicates *)

Definition all_zero (b : list Z) : bool := forallb (fun x => x =? 0) b.

(** [n == (uint32_t) -1] *)
Definition COutPoint_IsNull (o : COutPoint) : bool :=
  all_zero (out_hash o) && (out_n o =? 0xffffffff).
Definition COutPoint_eqb (a b : COutPoint) : bool :=
  list_eqb (out_hash a) (out_hash b) && (out_n a =? out_n b).

Definition IsFinal (i : CTxIn) : bool := nSequence i =? SEQUENCE_FINAL.
Definition CTxIn_IsNull (i : CTxIn) : bool :=
  COutPoint_IsNull (prevout i) && (size (scriptSig i) =? 0) && IsFinal i.
Definition CTxIn_IsZerocoinSpend (i : CTxIn) : bool :=
  all_zero (out_hash (prevout i)) && IsZerocoinSpend (scriptSig i).
Definition CTxIn_IsZerocoinPublicSpend (i : CTxIn) : bool := IsZerocoinPublicSpend (scriptSig i).

Definition CTxOut_null : CTxOut := mkTxOut (-1) [] (-10).
Definition CTxOut_IsNull (o : CTxOut) : bool := nValue o =? -1.
Definition IsEmpty (o : CTxOut) : bool := (nValue o =? 0) && (size (scriptPubKey o) =? 0).
Definition CTxOut_IsZerocoinMint (o : CTxOut) : bool := IsZerocoinMint (scriptPubKey o).

Definition hasBindingSig (d : SaplingTxData) : bool := existsb (fun c => negb (c =? 0)) (bindingSig d).

Definition empty {A} (l : list A) : bool := match l with [] => true | _ => false end.

Section Predicates.
Variable tx : CTransaction.

Definition CTransaction_IsNull : bool := empty (vin tx) && empty (vout tx).
Definition hasSaplingData : bool :=
  match sapData tx with
  | None => false
  | Some d => negb (empty (vShieldedOutput d)) || negb (empty (vShieldedSpend d))
              || negb (valueBalance d =? 0) || hasBindingSig d
  end.
Definition isSaplingVersion : bool := nVersion tx >=? SAPLING.
Definition IsShieldedTx : bool := isSaplingVersion && hasSaplingData.
Definition hasExtraPayload : bool :=
  match extraPayload tx with None => false | Some p => negb (empty p) end.
Definition IsSpecialTx : bool := isSaplingVersion && negb (nType tx =? NORMAL) && hasExtraPayload.
Definition IsNormalType : bool := nType tx =? NORMAL.
Definition GetRequiredSigVersion : SigVersion :=
  if isSaplingVersion then SIGVERSION_SAPLING else SIGVERSION_BASE.

Definition HasZerocoinSpendInputs : bool :=
  existsb (fun txin => CTxIn_IsZerocoinSpend txin || CTxIn_IsZerocoinPublicSpend txin) (vin tx).
Definition HasZerocoinMintOutputs : bool := existsb CTxOut_IsZerocoinMint (vout tx).
Definition HasZerocoinPublicSpendInputs : bool := existsb CTxIn_IsZerocoinPublicSpend (vin tx).
Definition ContainsZerocoins : bool := HasZerocoinSpendInputs || HasZerocoinMintOutputs.

Definition IsCoinBase : bool :=
  match vin tx with
  | [txin] => COutPoint_IsNull (prevout txin) && negb ContainsZerocoins
  | _ => false
  end.
Definition IsCoinStake : bool :=
  match vin tx with
  | [] => false
  | txin :: _ =>
      let fAllowNull := CTxIn_IsZerocoinSpend txin in
      if COutPoint_IsNull (prevout txin) && negb fAllowNull then false
      else match vout tx with
           | out :: _ :: _ => IsEmpty out
           | _ => false
           end
  end.
Definition HasP2CSOutputs : bool := existsb (fun o => IsPayToColdStaking (scriptPubKey o)) (vout tx).

(** * Values

    [None] is the thrown [runtime_error].  The wrap check computes the sum at
    64 bits and compares. *)

Fixpoint value_out_loop (outs : list CTxOut) (nValueOut : Z) : option Z :=
  match outs with
  | [] => Some nValueOut
  | it :: outs =>
      if nValue it <? 0 then None
      else if i64 (nValueOut + nValue it) <? nValueOut then None
      else value_out_loop outs (i64 (nValueOut + nValue it))
  end.
Definition GetValueOut : option Z :=
  nValueOut <- value_out_loop (vout tx) 0;;
  match sapData tx with
  | Some d =>
      if hasSaplingData && (valueBalance d <? 0) then
        let nValueOut := i64 (nValueOut + i64 (- valueBalance d)) in
        if negb isSaplingVersion then None else Some nValueOut
      else Some nValueOut
  | None => Some nValueOut
  end.

Definition GetShieldedValueIn : option Z :=
  match sapData tx with
  | Some d =>
      if hasSaplingData && (valueBalance d >? 0) then
        if negb isSaplingVersion then None else Some (valueBalance d)
      else Some 0
  | None => Some 0
  end.

Definition COIN : Z := 100000000.

(** [nSequence * COIN]: the [uint32_t] is promoted to [int64_t]. *)
Definition GetZerocoinSpent : Z :=
  fold_left (fun nValueOut txin =>
               if negb (CTxIn_IsZerocoinSpend txin) then nValueOut
               else i64 (nValueOut + i64 (nSequence txin * COIN))) (vin tx) 0.
End Predicates.

(** * Wire format *)

(** What the allocation step of vectors takes from the platform. *)
Class Abi := {
  sizeof_CTxIn : Z;
  sizeof_CTxOut : Z;
  sizeof_SpendDescription : Z;
  sizeof_OutputDescription : Z;
  sizeof_range : Forall (fun s => 0 < s <= 5000000)
    [sizeof_CTxIn; sizeof_CTxOut; sizeof_SpendDescription; sizeof_OutputDescription]
}.

Lemma vector_step s : 0 < s <= 5000000 -> 0 < 5000000 / s.
Proof. intros. apply Z.div_str_pos. lia. Qed.

Ltac abi_step := apply vector_step; pose proof sizeof_range as H; rewrite !Forall_cons_iff in H; tauto.

(** Read the fields of a record back one by one. *)
Ltac read_back :=
  rewrite <- ?app_assoc;
  repeat (rewrite Unserialize_Serialize by (cbn; auto); cbn [obind]); try reflexivity.
(** Collect what reading a record tells about its fields. *)
Ltac read_facts H :=
  repeat (let p := fresh "p" in let s := fresh "s" in let Hp := fresh "Hp" in
    apply obind_Some in H as ([p s] & Hp & H);
    apply Unserialize_ok in Hp as [? ?]; [|assumption]).

#[export] Instance ser_COutPoint : Serializable COutPoint.
Proof.
  refine {|
    Serialize := fun o => Serialize (Serializable := ser_blob 32) (out_hash o) ++
                          Serialize (Serializable := ser_uint32) (out_n o);
    Unserialize := fun s =>
      '(h, s) <- Unserialize (Serializable := ser_blob 32) s;;
      '(n, s) <- Unserialize (Serializable := ser_uint32) s;;
      Some (mkOutPoint h n, s);
    ser_ok := fun o => ser_ok (Serializable := ser_blob 32) (out_hash o) /\
                       ser_ok (Serializable := ser_uint32) (out_n o) |}.
  - intros [h n] r [Hh Hn]. cbn [out_hash out_n] in *. read_back.
  - intros s x r Hs H. read_facts H. injection H as <- <-. auto.
Defined.

#[export] Instance ser_CTxIn : Serializable CTxIn.
Proof.
  refine {|
    Serialize := fun i => Serialize (prevout i) ++
                          Serialize (Serializable := ser_bytes) (scriptSig i) ++
                          Serialize (Serializable := ser_uint32) (nSequence i);
    Unserialize := fun s =>
      '(o, s) <- Unserialize s;;
      '(sc, s) <- Unserialize (Serializable := ser_bytes) s;;
      '(n, s) <- Unserialize (Serializable := ser_uint32) s;;
      Some (mkTxIn o sc n, s);
    ser_ok := fun i => ser_ok (prevout i) /\ ser_ok (Serializable := ser_bytes) (scriptSig i) /\
                       ser_ok (Serializable := ser_uint32) (nSequence i) |}.
  - intros [o sc n] r (? & ? & ?). cbn [prevout scriptSig nSequence] in *. read_back.
  - intros s x r Hs H. read_facts H. injection H as <- <-. auto.
Defined.

(** Reading starts from a null output, whose [nRounds] is -10. *)
#[export] Instance ser_CTxOut : Serializable CTxOut.
Proof.
  refine {|
    Serialize := fun o => Serialize (Serializable := ser_int64) (nValue o) ++
                          Serialize (Serializable := ser_bytes) (scriptPubKey o);
    Unserialize := fun s =>
      '(v, s) <- Unserialize (Serializable := ser_int64) s;;
      '(sc, s) <- Unserialize (Serializable := ser_bytes) s;;
      Some (mkTxOut v sc (nRounds CTxOut_null), s);
    ser_ok := fun o => ser_ok (Serializable := ser_int64) (nValue o) /\
                       ser_ok (Serializable := ser_bytes) (scriptPubKey o) /\
                       nRounds o = nRounds CTxOut_null |}.
  - intros [v sc n] r (? & ? & Hn). cbn [nValue scriptPubKey nRounds] in *. rewrite Hn. read_back.
  - intros s x r Hs H. read_facts H. injection H as <- <-. auto.
Defined.

#[export] Instance ser_SpendDescription : Serializable SpendDescription.
Proof.
  refine {|
    Serialize := fun d => Serialize (Serializable := ser_blob 32) (cv d) ++
                          Serialize (Serializable := ser_blob 32) (anchor d) ++
                          Serialize (Serializable := ser_blob 32) (nullifier d) ++
                          Serialize (Serializable := ser_blob 32) (rk d) ++
                          Serialize (Serializable := ser_array GROTH_PROOF_SIZE) (zkproof d) ++
                          Serialize (Serializable := ser_array 64) (spendAuthSig d);
    Unserialize := fun s =>
      '(a, s) <- Unserialize (Serializable := ser_blob 32) s;;
      '(b, s) <- Unserialize (Serializable := ser_blob 32) s;;
      '(c, s) <- Unserialize (Serializable := ser_blob 32) s;;
      '(d, s) <- Unserialize (Serializable := ser_blob 32) s;;
      '(e, s) <- Unserialize (Serializable := ser_array GROTH_PROOF_SIZE) s;;
      '(f, s) <- Unserialize (Serializable := ser_array 64) s;;
      Some (mkSpend a b c d e f, s);
    ser_ok := fun d => ser_ok (Serializable := ser_blob 32) (cv d) /\
                       ser_ok (Serializable := ser_blob 32) (anchor d) /\
                       ser_ok (Serializable := ser_blob 32) (nullifier d) /\
                       ser_ok (Serializable := ser_blob 32) (rk d) /\
                       ser_ok (Serializable := ser_array GROTH_PROOF_SIZE) (zkproof d) /\
                       ser_ok (Serializable := ser_array 64) (spendAuthSig d) |}.
  - intros [a b c d e f] r (? & ? & ? & ? & ? & ?).
    cbn [cv anchor nullifier rk zkproof spendAuthSig] in *. read_back.
  - intros s x r Hs H. read_facts H. injection H as <- <-. split; [|assumption]; repeat (split; [assumption|]); assumption.
Defined.

#[export] Instance ser_OutputDescription : Serializable OutputDescription.
Proof.
  refine {|
    Serialize := fun d =>
      Serialize (Serializable := ser_blob 32) (output_cv d) ++
      Serialize (Serializable := ser_blob 32) (cmu d) ++
      Serialize (Serializable := ser_blob 32) (ephemeralKey d) ++
      Serialize (Serializable := ser_array ZC_SAPLING_ENCCIPHERTEXT_SIZE) (encCiphertext d) ++
      Serialize (Serializable := ser_array ZC_SAPLING_OUTCIPHERTEXT_SIZE) (outCiphertext d) ++
      Serialize (Serializable := ser_array GROTH_PROOF_SIZE) (output_zkproof d);
    Unserialize := fun s =>
      '(a, s) <- Unserialize (Serializable := ser_blob 32) s;;
      '(b, s) <- Unserialize (Serializable := ser_blob 32) s;;
      '(c, s) <- Unserialize (Serializable := ser_blob 32) s;;
      '(d, s) <- Unserialize (Serializable := ser_array ZC_SAPLING_ENCCIPHERTEXT_SIZE) s;;
      '(e, s) <- Unserialize (Serializable := ser_array ZC_SAPLING_OUTCIPHERTEXT_SIZE) s;;
      '(f, s) <- Unserialize (Serializable := ser_array GROTH_PROOF_SIZE) s;;
      Some (mkOutput a b c d e f, s);
    ser_ok := fun d =>
      ser_ok (Serializable := ser_blob 32) (output_cv d) /\
      ser_ok (Serializable := ser_blob 32) (cmu d) /\
      ser_ok (Serializable := ser_blob 32) (ephemeralKey d) /\
      ser_ok (Serializable := ser_array ZC_SAPLING_ENCCIPHERTEXT_SIZE) (encCiphertext d) /\
      ser_ok (Serializable := ser_array ZC_SAPLING_OUTCIPHERTEXT_SIZE) (outCiphertext d) /\
      ser_ok (Serializable := ser_array GROTH_PROOF_SIZE) (output_zkproof d) |}.
  - intros [a b c d e f] r (? & ? & ? & ? & ? & ?).
    cbn [output_cv cmu ephemeralKey encCiphertext outCiphertext output_zkproof] in *. read_back.
  - intros s x r Hs H. read_facts H. injection H as <- <-. split; [|assumption]; repeat (split; [assumption|]); assumption.
Defined.

Section Format.
Context {abi : Abi}.

#[export] Instance ser_vin : Serializable (list CTxIn).
Proof. refine (ser_vector (5000000 / sizeof_CTxIn) _). abi_step. Defined.
#[export] Instance ser_vout : Serializable (list CTxOut).
Proof. refine (ser_vector (5000000 / sizeof_CTxOut) _). abi_step. Defined.
#[export] Instance ser_vShieldedSpend : Serializable (list SpendDescription).
Proof. refine (ser_vector (5000000 / sizeof_SpendDescription) _). abi_step. Defined.
#[export] Instance ser_vShieldedOutput : Serializable (list OutputDescription).
Proof. refine (ser_vector (5000000 / sizeof_OutputDescription) _). abi_step. Defined.

#[export] Instance ser_SaplingTxData : Serializable SaplingTxData.
Proof.
  refine {|
    Serialize := fun d => Serialize (Serializable := ser_int64) (valueBalance d) ++
                          Serialize (vShieldedSpend d) ++ Serialize (vShieldedOutput d) ++
                          Serialize (Serializable := ser_array BINDINGSIG_SIZE) (bindingSig d);
    Unserialize := fun s =>
      '(v, s) <- Unserialize (Serializable := ser_int64) s;;
      '(sp, s) <- Unserialize s;;
      '(ou, s) <- Unserialize s;;
      '(b, s) <- Unserialize (Serializable := ser_array BINDINGSIG_SIZE) s;;
      Some (mkSapData v sp ou b, s);
    ser_ok := fun d => ser_ok (Serializable := ser_int64) (valueBalance d) /\
                       ser_ok (vShieldedSpend d) /\ ser_ok (vShieldedOutput d) /\
                       ser_ok (Serializable := ser_array BINDINGSIG_SIZE) (bindingSig d) |}.
  - intros [v sp ou b] r (? & ? & ? & ?).
    cbn [valueBalance vShieldedSpend vShieldedOutput bindingSig] in *. read_back.
  - intros s x r Hs H. read_facts H. injection H as <- <-. split; [|assumption]; repeat (split; [assumption|]); assumption.
Defined.

Definition SerializeTransaction (tx : CTransaction) : list Z :=
  Serialize (Serializable := ser_int16) (nVersion tx) ++
  Serialize (Serializable := ser_int16) (nType tx) ++
  Serialize (vin tx) ++
  Serialize (vout tx) ++
  Serialize (Serializable := ser_uint32) (nLockTime tx) ++
  (if isSaplingVersion tx then
     Serialize (Serializable := ser_Optional) (sapData tx) ++
     (if negb (IsNormalType tx) then
        Serialize (Serializable := ser_Optional (codec := ser_bytes)) (extraPayload tx)
      else [])
   else []).

(** Reads into [tx]; the fields of the version that is read are overwritten,
    the others keep what they held. *)
Definition UnserializeTransaction (tx : CTransaction) : Reader CTransaction := fun s =>
  '(nVersion, s) <- Unserialize (Serializable := ser_int16) s;;
  '(nType, s) <- Unserialize (Serializable := ser_int16) s;;
  '(vin, s) <- Unserialize s;;
  '(vout, s) <- Unserialize s;;
  '(nLockTime, s) <- Unserialize (Serializable := ser_uint32) s;;
  let tx := mkTx nVersion nType vin vout nLockTime (sapData tx) (extraPayload tx) in
  if isSaplingVersion tx then
    '(sapData, s) <- Unserialize (Serializable := ser_Optional) s;;
    let tx := mkTx nVersion nType vin vout nLockTime sapData (extraPayload tx) in
    if negb (IsNormalType tx) then
      '(extraPayload, s) <- Unserialize (Serializable := ser_Optional (codec := ser_bytes)) s;;
      Some (mkTx nVersion nType vin vout nLockTime sapData extraPayload, s)
    else Some (tx, s)
  else Some (tx, s).
(** [CTransaction(deserialize, s)] *)
Definition CTransaction_deserialize : Reader CTransaction :=
  UnserializeTransaction CMutableTransaction_default.

Definition GetTotalSize (tx : CTransaction) : Z := u32 (Z.of_nat (length (SerializeTransaction tx))).

(** [41U + min(110U, (unsigned int)size)] cannot wrap. *)
Fixpoint modified_size_loop (ins : list CTxIn) (nTxSize : Z) : Z :=
  match ins with
  | [] => nTxSize
  | it :: ins =>
      let offset := 41 + Z.min 110 (u32 (size (scriptSig it))) in
      modified_size_loop ins (if nTxSize >? offset then nTxSize - offset else nTxSize)
  end.
Definition CalculateModifiedSize (tx : CTransaction) (nTxSize : Z) : Z :=
  modified_size_loop (vin tx) (if nTxSize =? 0 then GetTotalSize tx else nTxSize).

(** * Transactions as values of the format *)

(** The transactions the format can carry: a field the version does not
    serialize holds its default. *)
Definition tx_ok (tx : CTransaction) : Prop :=
  - 2 ^ 15 <= nVersion tx < 2 ^ 15 /\ - 2 ^ 15 <= nType tx < 2 ^ 15 /\
  ser_ok (vin tx) /\ ser_ok (vout tx) /\ 0 <= nLockTime tx < 2 ^ 32 /\
  (if isSaplingVersion tx then
     (forall d, sapData tx = Some d -> ser_ok d) /\
     (if IsNormalType tx then extraPayload tx = None
      else forall p, extraPayload tx = Some p -> ser_ok (Serializable := ser_bytes) p)
   else sapData tx = Some SaplingTxData_default /\ extraPayload tx = None).

#[export] Instance ser_CTransaction : Serializable CTransaction.
Proof.
  refine {| Serialize := SerializeTransaction; Unserialize := CTransaction_deserialize;
            ser_ok := tx_ok |}.
  - intros [v t i o l d p] r (? & ? & ? & ? & ? & H). unfold SerializeTransaction.
    unfold CTransaction_deserialize, UnserializeTransaction.
    cbn [nVersion nType vin vout nLockTime sapData extraPayload] in *. read_back.
    change (isSaplingVersion (mkTx v t i o l (Some SaplingTxData_default) None))
      with (isSaplingVersion (mkTx v t i o l d p)).
    destruct (isSaplingVersion _) eqn:EV; [|destruct H as [-> ->]; reflexivity].
    destruct H as [Hd H]. rewrite <- ?app_assoc.
    rewrite Unserialize_Serialize by exact Hd. cbn [obind].
    unfold IsNormalType in *. cbn [nType] in *.
    destruct (t =? NORMAL); cbn [negb].
    + now rewrite H.
    + now rewrite Unserialize_Serialize by exact H.
  - intros s x r Hs H. unfold CTransaction_deserialize, UnserializeTransaction in H. read_facts H.
    match type of H with context [isSaplingVersion ?t] => destruct (isSaplingVersion t) eqn:EV end.
    + read_facts H.
      match type of H with context [IsNormalType ?t] => destruct (IsNormalType t) eqn:EN end;
        cbn [negb] in H.
      * injection H as <- <-. unfold tx_ok, isSaplingVersion, IsNormalType in *.
        cbn [nVersion nType vin vout nLockTime sapData extraPayload] in *. rewrite EV, EN. auto 10.
      * read_facts H. injection H as <- <-. unfold tx_ok, isSaplingVersion, IsNormalType in *.
        cbn [nVersion nType vin vout nLockTime sapData extraPayload] in *. rewrite EV, EN. auto 10.
    + injection H as <- <-. unfold tx_ok, isSaplingVersion in *.
      cbn [nVersion nType vin vout nLockTime sapData extraPayload] in *. rewrite EV. auto 10.
Defined.
End Format.

(** [SerializeHash]: double SHA-256 of the serialization. *)
Definition GetHash {abi : Abi} {crypto : ScriptCrypto} (tx : CTransaction) : list Z :=
  Hash256 (SerializeTransaction tx).

(** * Equality *)

Lemma COutPoint_eqb_eq a b : COutPoint_eqb a b = true <-> a = b.
Proof.
  unfold COutPoint_eqb. rewrite andb_true_iff, list_eqb_eq, Z.eqb_eq.
  destruct a, b; cbn. split; [intros [-> ->]; reflexivity | now intros [= -> ->]].
Qed.

(** * The value of the outputs *)

Definition total (outs : list CTxOut) : Z := fold_right (fun o acc => nValue o + acc) 0 outs.
Definition value_ok (o : CTxOut) : Prop := - 2 ^ 63 <= nValue o < 2 ^ 63.

Lemma total_nonneg outs : Forall (fun o => 0 <= nValue o) outs -> 0 <= total outs.
Proof. unfold total. induction 1; cbn; lia. Qed.

Lemma i64_sum_wraps a b :
  0 <= a < 2 ^ 63 -> 0 <= b < 2 ^ 63 ->
  (i64 (a + b) <? a) = negb (a + b <? 2 ^ 63).
Proof.
  intros Ha Hb. unfold i64, signed. rewrite Z.mod_small by lia.
  change (2 ^ (64 - 1)) with (2 ^ 63).
  destruct (Z.ltb_spec (a + b) (2 ^ 63)); cbn [negb].
  - destruct (Z.ltb_spec (a + b) a); lia.
  - destruct (Z.ltb_spec (a + b - 2 ^ 64) a); lia.
Qed.

Lemma value_out_loop_spec outs : Forall value_ok outs -> forall acc, 0 <= acc < 2 ^ 63 ->
  value_out_loop outs acc =
    if forallb (fun o => 0 <=? nValue o) outs && (acc + total outs <? 2 ^ 63)
    then Some (acc + total outs) else None.
Proof.
  induction 1 as [|o outs Ho Houts IH]; intros acc Hacc; cbn [value_out_loop forallb total fold_right].
  - rewrite Z.add_0_r. destruct (Z.ltb_spec acc (2 ^ 63)); [reflexivity|lia].
  - unfold value_ok in Ho. fold (total outs).
    destruct (Z.ltb_spec (nValue o) 0); destruct (Z.leb_spec 0 (nValue o)); try lia; [reflexivity|].
    rewrite i64_sum_wraps by lia. destruct (Z.ltb_spec (acc + nValue o) (2 ^ 63)); cbn [negb andb].
    + rewrite i64_small by lia. rewrite IH by lia.
      now replace (acc + nValue o + total outs) with (acc + (nValue o + total outs)) by lia.
    + destruct (forallb _ outs) eqn:F; [|reflexivity]. cbn [andb].
      assert (Forall (fun o => 0 <= nValue o) outs).
      { apply Forall_forall. intros x Hx. apply forallb_forall with (x := x) in F; [lia|assumption]. }
      pose proof (total_nonneg outs H2).
      destruct (Z.ltb_spec (acc + (nValue o + total outs)) (2 ^ 63)); [lia|reflexivity].
Qed.

(** * The wire format: round trip *)

Lemma size_SpendDescription (d : SpendDescription) :
  ser_ok d -> size (Serialize d) = SPENDDESCRIPTION_SIZE.
Proof.
  intros ([H1 _] & [H2 _] & [H3 _] & [H4 _] & [H5 B5] & [H6 B6]).
  unfold size. cbn -[Serialize_array Nat.add]. rewrite !length_app, !Serialize_array_eq by assumption.
  rewrite H1, H2, H3, H4, H5, H6. reflexivity.
Qed.
Lemma size_OutputDescription (d : OutputDescription) :
  ser_ok d -> size (Serialize d) = OUTPUTDESCRIPTION_SIZE.
Proof.
  intros ([H1 _] & [H2 _] & [H3 _] & [H4 B4] & [H5 B5] & [H6 B6]).
  unfold size. cbn -[Serialize_array Nat.add]. rewrite !length_app, !Serialize_array_eq by assumption.
  rewrite H1, H2, H3, H4, H5, H6. reflexivity.
Qed.

(** A transaction the format can carry is read back exactly, whatever follows
    it and whatever the platform's element sizes; conversely any transaction
    read from a stream is one the format can carry, so that writing it again
    loses nothing (its identifier is a function of what was read); shielded
    spends and outputs take the protocol's 384 and 948 bytes. *)
Theorem CTransaction_roundtrip {abi : Abi} :
  (forall tx r, tx_ok tx -> CTransaction_deserialize (SerializeTransaction tx ++ r) = Some (tx, r)) /\
  (forall s tx r, bytes_ok s -> CTransaction_deserialize s = Some (tx, r) ->
     tx_ok tx /\ bytes_ok r /\
     CTransaction_deserialize (SerializeTransaction tx ++ r) = Some (tx, r)) /\
  (forall d : SpendDescription, ser_ok d -> size (Serialize d) = SPENDDESCRIPTION_SIZE) /\
  (forall d : OutputDescription, ser_ok d -> size (Serialize d) = OUTPUTDESCRIPTION_SIZE).
Proof.
  split; [exact (Unserialize_Serialize (Serializable := ser_CTransaction))|].
  split; [|exact (conj size_SpendDescription size_OutputDescription)].
  intros s tx r Hs H.
  destruct (Unserialize_ok (Serializable := ser_CTransaction) s tx r Hs H) as [Htx Hr].
  split; [exact Htx|]. split; [exact Hr|].
  exact (Unserialize_Serialize (Serializable := ser_CTransaction) tx r Htx).
Qed.

(** The platform of a 64-bit build. *)
Definition abi64 : Abi.
Proof.
  refine {| sizeof_CTxIn := 88; sizeof_CTxOut := 48;
            sizeof_SpendDescription := 384; sizeof_OutputDescription := 948 |}.
  repeat (apply Forall_cons; [lia|]). apply Forall_nil.
Defined.
Definition ex_tx : CTransaction :=
  mkTx 3 0 [mkTxIn (mkOutPoint (repeat 7 32) 1) [OP_1; OP_DROP] 5]
       [mkTxOut 100 [OP_1] (-10); mkTxOut 7 [] (-10)] 9 None None.
(** Concrete values are values of the format. *)
Ltac format_ok :=
  repeat match goal with
         | |- _ /\ _ => split
         | |- bytes_ok _ => now apply bytes_okb_ok
         | |- Forall _ [] => apply Forall_nil
         | |- Forall _ (_ :: _) => apply Forall_cons
         | |- _ => first [lia | reflexivity | discriminate]
         end.
Lemma ex_tx_ok : tx_ok (abi := abi64) ex_tx.
Proof.
  pose proof (eq_refl : MAX_SIZE = 33554432).
  unfold tx_ok, ex_tx. cbn -[Z.pow MAX_SIZE bytes_ok]. format_ok.
Qed.
Lemma CTransaction_roundtrip_witness :
  tx_ok (abi := abi64) ex_tx /\
  CTransaction_deserialize (abi := abi64) (SerializeTransaction (abi := abi64) ex_tx ++ [1; 2]) =
    Some (ex_tx, [1; 2]).
Proof.
  split; [exact ex_tx_ok|]. apply (CTransaction_roundtrip (abi := abi64)). exact ex_tx_ok.
Defined.
