(* ===== verification/Bloom.v ===== *)
(** Bloom filters of peers and the rolling filter of recent inventory (src/bloom.h,
    src/bloom.cpp, src/hash.cpp [MurmurHash3], the filter messages of
    src/net_processing.cpp). The sizes the constructors compute in floating point are
    not modelled. *)
From Stdlib Require Import ZArith Lia List Bool.
From stdpp Require Import base list.
From S2P Require Import Prelude Consensus Serialize Script Interpreter Standard Codecs Transaction.
Import ListNotations.
Local Open Scope Z_scope.
Local Open Scope passion_scope.

(** * MurmurHash3 *)

Definition ROTL32 (x r : Z) : Z := Z.lor (u32 (Z.shiftl x r)) (Z.shiftr x (32 - r)).
Definition murmur_k (k1 : Z) : Z := u32 (ROTL32 (u32 (k1 * 0xcc9e2d51)) 15 * 0x1b873593).
(** The words of the body; the bytes that are left. *)
Fixpoint murmur_body (h1 : Z) (data : list Z) : Z * list Z :=
  match data with
  | b0 :: b1 :: b2 :: b3 :: data =>
      let h1 := Z.lxor h1 (murmur_k (ReadLE32 [b0; b1; b2; b3])) in
      murmur_body (u32 (ROTL32 h1 13 * 5 + 0xe6546b64)) data
  | tail => (h1, tail)
  end.
Definition murmur_tail (h1 : Z) (tail : list Z) : Z :=
  match tail with
  | [] => h1
  | t0 :: tail =>
      let k1 := match tail with [] => 0 | t1 :: tail => Z.lxor (match tail with [] => 0 | t2 :: _ => Z.shiftl t2 16 end) (Z.shiftl t1 8) end in
      Z.lxor h1 (murmur_k (Z.lxor k1 t0))
  end.
Definition murmur_final (h1 : Z) (n : nat) : Z :=
  let h1 := Z.lxor h1 (u32 (Z.of_nat n)) in
  let h1 := Z.lxor h1 (Z.shiftr h1 16) in
  let h1 := u32 (h1 * 0x85ebca6b) in
  let h1 := Z.lxor h1 (Z.shiftr h1 13) in
  let h1 := u32 (h1 * 0xc2b2ae35) in
  Z.lxor h1 (Z.shiftr h1 16).
Definition MurmurHash3 (nHashSeed : Z) (vDataToHash : list Z) : Z :=
  let '(h1, tail) := murmur_body nHashSeed vDataToHash in
  murmur_final (murmur_tail h1 tail) (length vDataToHash).

(** * The filter *)

Definition MAX_BLOOM_FILTER_SIZE : Z := 36000.
Definition MAX_HASH_FUNCS : Z := 50.
Definition BLOOM_UPDATE_ALL : Z := 1.
Definition BLOOM_UPDATE_P2PUBKEY_ONLY : Z := 2.
Definition BLOOM_UPDATE_MASK : Z := 3.
Record CBloomFilter := mkBloom {
  vData : list Z;
  isFull : bool;
  isEmpty : bool;
  nHashFuncs : Z;
  nTweak : Z;
  bf_nFlags : Z
}.
Definition CBloomFilter_default : CBloomFilter := mkBloom [] true false 0 0 0.
Definition with_data (f : CBloomFilter) (v : list Z) : CBloomFilter := mkBloom v (isFull f) (isEmpty f) (nHashFuncs f) (nTweak f) (bf_nFlags f).
Definition with_marks (f : CBloomFilter) (full empty : bool) : CBloomFilter := mkBloom (vData f) full empty (nHashFuncs f) (nTweak f) (bf_nFlags f).
(** [None]: a division by zero. *)
Definition bloom_Hash (f : CBloomFilter) (nHashNum : Z) (vDataToHash : list Z) : option Z :=
  let n := Z.of_nat (length (vData f)) * 8 in
  if n =? 0 then None else Some (MurmurHash3 (u32 (nHashNum * 0xFBA4C795 + nTweak f)) vDataToHash mod n).
(** [vData[nIndex >> 3] |= (1 << (7 & nIndex))] and the test of that bit *)
Definition set_bit (v : list Z) (nIndex : Z) : option (list Z) :=
  b <- v !! Z.to_nat (Z.shiftr nIndex 3);;
  Some (<[Z.to_nat (Z.shiftr nIndex 3) := u8 (Z.lor b (Z.shiftl 1 (Z.land 7 nIndex)))]> v).
Definition get_bit (v : list Z) (nIndex : Z) : option bool :=
  b <- v !! Z.to_nat (Z.shiftr nIndex 3);;
  Some (negb (Z.land b (Z.shiftl 1 (Z.land 7 nIndex)) =? 0)).
(** The hash functions from number [i] on, [n] of them. *)
Fixpoint insert_bits (f : CBloomFilter) (n : nat) (i : Z) (vKey : list Z) : option CBloomFilter :=
  match n with
  | O => Some f
  | S n =>
      nIndex <- bloom_Hash f i vKey;;
      v <- set_bit (vData f) nIndex;;
      insert_bits (with_data f v) n (i + 1) vKey
  end.
Definition bloom_insert (f : CBloomFilter) (vKey : list Z) : option CBloomFilter :=
  if isFull f then Some f
  else f <- insert_bits f (Z.to_nat (nHashFuncs f)) 0 vKey;; Some (with_marks f (isFull f) false).
Fixpoint test_bits (f : CBloomFilter) (n : nat) (i : Z) (vKey : list Z) : option bool :=
  match n with
  | O => Some true
  | S n =>
      nIndex <- bloom_Hash f i vKey;;
      b <- get_bit (vData f) nIndex;;
      if negb b then Some false else test_bits f n (i + 1) vKey
  end.
Definition bloom_contains (f : CBloomFilter) (vKey : list Z) : option bool :=
  if isFull f then Some true
  else if isEmpty f then Some false
  else test_bits f (Z.to_nat (nHashFuncs f)) 0 vKey.
(** [stream << outpoint] *)
Definition outpoint_key (o : COutPoint) : list Z := Serialize o.
Definition bloom_clear (f : CBloomFilter) : CBloomFilter := with_marks (with_data f (map (fun _ => 0) (vData f))) false true.
Definition bloom_reset (f : CBloomFilter) (nNewTweak : Z) : CBloomFilter :=
  let f := bloom_clear f in mkBloom (vData f) (isFull f) (isEmpty f) (nHashFuncs f) nNewTweak (bf_nFlags f).
Definition IsWithinSizeConstraints (f : CBloomFilter) : bool :=
  (Z.of_nat (length (vData f)) <=? MAX_BLOOM_FILTER_SIZE) && (nHashFuncs f <=? MAX_HASH_FUNCS).
Definition MatchesAll (f : CBloomFilter) : bool := forallb (fun b => b =? 0xff) (vData f).
(** [None]: the first byte of an empty vector is written. *)
Definition Merge (f filter : CBloomFilter) : option (bool * CBloomFilter) :=
  if negb (MatchesAll f) && negb (MatchesAll filter) then
    if negb ((length (vData filter) =? length (vData f))%nat && (nHashFuncs filter =? nHashFuncs f) && (nTweak filter =? nTweak f))
    then Some (false, f)
    else Some (true, with_data f (zip_with Z.lor (vData f) (vData filter)))
  else
    let v : list Z := [] in
    _ <- v !! O;; Some (true, with_data f (<[O := 0xff]> v)).
Definition UpdateEmptyFull (f : CBloomFilter) : CBloomFilter :=
  with_marks f (forallb (fun b => b =? 0xff) (vData f)) (forallb (fun b => b =? 0) (vData f)).

(** ** Transactions *)

Section Relevant.
Context {crypto : ScriptCrypto} {abi : Abi}.

(** Some element of the script is in the filter. [None]: as in [bloom_contains], or
    not enough fuel. *)
Fixpoint script_matches (fuel : nat) (f : CBloomFilter) (pc : CScript) : option bool :=
  match pc with
  | [] => Some false
  | _ =>
      match fuel with
      | O => None
      | S fuel =>
          match GetOp pc with
          | None => Some false
          | Some (_, data, pc) =>
              found <- (if negb (size data =? 0) then bloom_contains f data else Some false);;
              if found : bool then Some true else script_matches fuel f pc
          end
      end
  end.
Definition script_has (f : CBloomFilter) (script : CScript) : option bool := script_matches (length script) f script.
(** The flags ask to watch the output. *)
Definition update_output (f : CBloomFilter) (scriptPubKey : CScript) : bool :=
  let flags := Z.land (bf_nFlags f) BLOOM_UPDATE_MASK in
  if flags =? BLOOM_UPDATE_ALL then true
  else if flags =? BLOOM_UPDATE_P2PUBKEY_ONLY then
    match Solver scriptPubKey with
    | Some (TX_PUBKEY, _) | Some (TX_MULTISIG, _) => true
    | _ => false
    end
  else false.
Fixpoint match_outputs (f : CBloomFilter) (hash : list Z) (i : Z) (outs : list CTxOut) (fFound : bool) : option (bool * CBloomFilter) :=
  match outs with
  | [] => Some (fFound, f)
  | txout :: outs =>
      found <- script_has f (scriptPubKey txout);;
      f <- (if found && update_output f (scriptPubKey txout) then bloom_insert f (outpoint_key (mkOutPoint hash i)) else Some f);;
      match_outputs f hash (u32 (i + 1)) outs (fFound || found)
  end.
Fixpoint match_inputs (f : CBloomFilter) (ins : list CTxIn) : option bool :=
  match ins with
  | [] => Some false
  | txin :: ins =>
      spent <- bloom_contains f (outpoint_key (prevout txin));;
      if spent : bool then Some true
      else
        found <- script_has f (scriptSig txin);;
        if found : bool then Some true else match_inputs f ins
  end.
Definition IsRelevantAndUpdate (f : CBloomFilter) (tx : CTransaction) : option (bool * CBloomFilter) :=
  if isFull f then Some (true, f)
  else if isEmpty f then Some (false, f)
  else
    let hash := GetHash tx in
    fFound <- bloom_contains f hash;;
    r <- match_outputs f hash 0 (vout tx) fFound;;
    let '(fFound, f) := r in
    if fFound : bool then Some (true, f)
    else found <- match_inputs f (vin tx);; Some (found, f).
End Relevant.

(** * Nothing inserted is ever missed *)

(** What keeps a division by zero away. *)
Definition filter_ok (f : CBloomFilter) : Prop := isFull f = false -> vData f <> [].
(** A later state of the same filter: bits are only added. *)
Record grows (f f' : CBloomFilter) : Prop := {
  gr_length : length (vData f') = length (vData f);
  gr_params : nHashFuncs f' = nHashFuncs f /\ nTweak f' = nTweak f /\ bf_nFlags f' = bf_nFlags f;
  gr_full : isFull f' = isFull f;
  gr_empty : isEmpty f' = true -> isEmpty f = true;
  gr_bits : forall n, get_bit (vData f) n = Some true -> get_bit (vData f') n = Some true
}.
#[export] Instance grows_po : PreOrder grows.
Proof.
  split; [intros f; by split|]. intros f1 f2 f3 [A1 (A2 & A3 & A4) A5 A6 A7] [B1 (B2 & B3 & B4) B5 B6 B7].
  split; [congruence|split; [congruence|split; congruence]|congruence|auto|auto].
Qed.
Lemma filter_ok_grows f f' : grows f f' -> filter_ok f -> filter_ok f'.
Proof. intros [L _ F _ _] Ok Nf E. rewrite F in Nf. apply (Ok Nf). apply length_zero_iff_nil. by rewrite <- L, E. Qed.
Lemma bloom_Hash_grows f f' i k : grows f f' -> bloom_Hash f' i k = bloom_Hash f i k.
Proof. intros [L (_ & T & _) _ _ _]. unfold bloom_Hash. by rewrite L, T. Qed.

Lemma bit_set b n : 0 <= n -> negb (Z.land b (Z.shiftl 1 n) =? 0) = Z.testbit b n.
Proof.
  intros Hn. destruct (Z.testbit b n) eqn:T.
  - apply negb_true_iff, Z.eqb_neq. intros E. apply (f_equal (fun x => Z.testbit x n)) in E.
    rewrite Z.land_spec, T, Z.shiftl_spec, Z.sub_diag, Z.bits_0 in E by done. done.
  - apply negb_false_iff, Z.eqb_eq, Z.bits_inj'. intros m Hm. rewrite Z.land_spec, Z.shiftl_spec, Z.bits_0 by done.
    destruct (Z.eq_dec m n) as [->|N]; [by rewrite T|]. change 1 with (2 ^ 0). rewrite Z.pow2_bits_false by lia. apply andb_false_r.
Qed.
Lemma land7 n : 0 <= Z.land 7 n < 8.
Proof. change 7 with (Z.ones 3). rewrite Z.land_comm, Z.land_ones by lia. apply Z.mod_pos_bound. done. Qed.
Lemma u8_bits x n : 0 <= n < 8 -> Z.testbit (u8 x) n = Z.testbit x n.
Proof. intros Hn. unfold u8. by rewrite Z.mod_pow2_bits_low by lia. Qed.
Lemma set_bit_spec v n : 0 <= n < Z.of_nat (length v) * 8 ->
  exists v', set_bit v n = Some v' /\ length v' = length v /\ get_bit v' n = Some true /\ forall m, get_bit v m = Some true -> get_bit v' m = Some true.
Proof.
  intros Hn. unfold set_bit, get_bit. set (i := Z.to_nat (Z.shiftr n 3)).
  assert (Hi : (i < length v)%nat) by (unfold i; rewrite Z.shiftr_div_pow2 by lia; apply Nat2Z.inj_lt; rewrite Z2Nat.id by (apply Z.div_pos; lia); apply Z.div_lt_upper_bound; lia).
  destruct (lookup_lt_is_Some_2 v i Hi) as [b Eb]. rewrite Eb. cbn [obind]. pose proof (land7 n) as H7. set (b' := u8 _).
  assert (T : forall k, 0 <= k < 8 -> Z.testbit b' k = Z.testbit b k || (k =? Z.land 7 n)).
  { intros k Hk. unfold b'. rewrite u8_bits, Z.lor_spec, Z.shiftl_spec by lia. f_equal. destruct (Z.eqb_spec k (Z.land 7 n)) as [->|N]; [by rewrite Z.sub_diag|].
    change 1 with (2 ^ 0). apply Z.pow2_bits_false. lia. }
  exists (<[i := b']> v). split; [done|]. split; [apply length_insert|]. split.
  - rewrite list_lookup_insert_eq by done. cbn [obind]. rewrite bit_set, T, Z.eqb_refl, orb_true_r by lia. done.
  - intros m Hm. destruct (decide (Z.to_nat (Z.shiftr m 3) = i)) as [Em|N]; [|by rewrite list_lookup_insert_ne].
    rewrite Em, Eb in Hm. rewrite Em, list_lookup_insert_eq by done. cbn [obind] in *. pose proof (land7 m). rewrite bit_set in * by lia. rewrite T by lia.
    injection Hm as ->. done.
Qed.
Lemma bloom_Hash_range f i k : vData f <> [] -> exists n, bloom_Hash f i k = Some n /\ 0 <= n < Z.of_nat (length (vData f)) * 8.
Proof.
  intros N. unfold bloom_Hash. assert (0 < length (vData f))%nat by (destruct (vData f); [done|cbn; lia]).
  destruct (Z.eqb_spec (Z.of_nat (length (vData f)) * 8) 0); [lia|]. eexists. split; [done|]. apply Z.mod_pos_bound. lia.
Qed.
Lemma insert_bits_spec k n : forall f i, vData f <> [] ->
  exists f', insert_bits f n i k = Some f' /\ grows f f' /\ isEmpty f' = isEmpty f /\
    forall j, i <= j < i + Z.of_nat n -> exists m, bloom_Hash f j k = Some m /\ get_bit (vData f') m = Some true.
Proof.
  induction n as [|n IH]; intros f i N; cbn [insert_bits]; [exists f; split; [done|]; split; [done|]; split; [done|]; intros j Hj; lia|].
  destruct (bloom_Hash_range f i k N) as (m & Em & Hm). destruct (set_bit_spec (vData f) m Hm) as (v & Ev & Lv & Tv & Mv). rewrite Em. cbn [obind]. rewrite Ev. cbn [obind].
  assert (G1 : grows f (with_data f v)) by (by split).
  destruct (IH (with_data f v) (i + 1)) as (f' & E' & G & Em' & B); [intros C; cbn in C; subst v; destruct (vData f); done|].
  exists f'. split; [done|]. split; [by etrans|]. split; [done|]. intros j Hj. destruct (Z.eq_dec j i) as [->|Nj].
  - exists m. split; [done|]. by apply (gr_bits _ _ G).
  - destruct (B j ltac:(lia)) as (m' & H1 & H2). exists m'. rewrite <- (bloom_Hash_grows _ _ j k G1). done.
Qed.
Lemma test_bits_iff f k n : forall i, vData f <> [] ->
  exists b, test_bits f n i k = Some b /\ (b = true <-> forall j, i <= j < i + Z.of_nat n -> exists m, bloom_Hash f j k = Some m /\ get_bit (vData f) m = Some true).
Proof.
  induction n as [|n IH]; intros i N; cbn [test_bits]; [exists true; split; [done|]; split; [intros _ j Hj; lia|done]|].
  destruct (bloom_Hash_range f i k N) as (m & Em & Hm). rewrite Em. cbn [obind].
  assert (exists c, get_bit (vData f) m = Some c) as [c Ec].
  { unfold get_bit. destruct (lookup_lt_is_Some_2 (vData f) (Z.to_nat (Z.shiftr m 3))) as [b ->]; [|cbn; eauto].
    rewrite Z.shiftr_div_pow2 by lia. apply Nat2Z.inj_lt. rewrite Z2Nat.id by (apply Z.div_pos; lia). apply Z.div_lt_upper_bound; lia. }
  rewrite Ec. cbn [obind]. destruct c; cbn [negb].
  - destruct (IH (i + 1) N) as (b & Eb & Hb). exists b. split; [done|]. rewrite Hb. split; intros H j Hj; [|apply H; lia].
    destruct (Z.eq_dec j i) as [->|]; [eauto|apply H; lia].
  - exists false. split; [done|]. split; [done|]. intros H. destruct (H i ltac:(lia)) as (m' & H1 & H2). congruence.
Qed.

(** The filter answers for the key with yes. *)
Abbreviation has f k := (bloom_contains f k = Some true).
Lemma contains_total f k : filter_ok f -> exists b, bloom_contains f k = Some b.
Proof.
  intros Ok. unfold bloom_contains. destruct (isFull f) eqn:F; [eauto|]. destruct (isEmpty f); [eauto|].
  destruct (test_bits_iff f k (Z.to_nat (nHashFuncs f)) 0 (Ok F)) as (b & E & _). eauto.
Qed.
Lemma has_grows f f' k : filter_ok f -> grows f f' -> has f k -> has f' k.
Proof.
  intros Ok G H. pose proof (filter_ok_grows _ _ G Ok) as Ok'. pose proof G as [_ (Gn & _) Gf Ge Gb]. unfold bloom_contains in *. rewrite Gf, Gn.
  destruct (isFull f) eqn:F; [done|]. destruct (isEmpty f); [done|]. destruct (isEmpty f'); [by discriminate Ge|].
  destruct (test_bits_iff f k (Z.to_nat (nHashFuncs f)) 0 (Ok F)) as (b & E & Hb). rewrite E in H. injection H as ->.
  destruct (test_bits_iff f' k (Z.to_nat (nHashFuncs f)) 0 (Ok' Gf)) as (b' & E' & Hb'). rewrite E'. f_equal. apply Hb'.
  intros j Hj. destruct (proj1 Hb eq_refl j Hj) as (m & H1 & H2). exists m. rewrite (bloom_Hash_grows f f') by done. auto.
Qed.
Lemma bloom_insert_spec f k : filter_ok f -> exists f', bloom_insert f k = Some f' /\ grows f f' /\ has f' k.
Proof.
  intros Ok. unfold bloom_insert. destruct (isFull f) eqn:F; [exists f; split; [done|]; split; [done|]; unfold bloom_contains; by rewrite F|].
  destruct (insert_bits_spec k (Z.to_nat (nHashFuncs f)) f 0 (Ok F)) as (f1 & E & G & Em & B). rewrite E. cbn [obind]. set (f' := with_marks f1 (isFull f1) false).
  assert (G' : grows f f') by (destruct G as [A1 A2 A3 A4 A5]; by split). exists f'. split; [done|]. split; [done|].
  pose proof G' as [_ (Gn & _) Gf _ _]. unfold bloom_contains. rewrite Gf, F, Gn. change (isEmpty f') with false. cbn iota.
  pose proof (filter_ok_grows _ _ G' Ok) as Ok'. rewrite F in Gf. destruct (test_bits_iff f' k (Z.to_nat (nHashFuncs f)) 0 (Ok' Gf)) as (b' & E' & Hb'). rewrite E'. f_equal. apply Hb'.
  intros j Hj. destruct (B j Hj) as (m & H1 & H2). exists m. by rewrite (bloom_Hash_grows f f').
Qed.
Lemma UpdateEmptyFull_ok f : filter_ok (UpdateEmptyFull f).
Proof. intros F E. unfold UpdateEmptyFull in *. cbn in *. by rewrite E in F. Qed.

(** * Relevant transactions *)

Section Relevance.
Context {crypto : ScriptCrypto} {abi : Abi}.

(** The elements [GetOp] reads, up to a malformed one. *)
Inductive element : CScript -> list Z -> Prop :=
| element_here pc op data pc' : GetOp pc = Some (op, data, pc') -> data <> [] -> element pc data
| element_later pc op data pc' d : GetOp pc = Some (op, data, pc') -> element pc' d -> element pc d.
Lemma script_matches_spec f : filter_ok f -> forall fuel pc, (length pc <= fuel)%nat ->
  exists b, script_matches fuel f pc = Some b /\ (b = true <-> exists d, element pc d /\ has f d).
Proof.
  intros Ok. induction fuel as [|fuel IH]; intros pc Hf; cbn [script_matches].
  { destruct pc; [|cbn in Hf; lia]. exists false. split; [done|]. split; [done|]. intros (d & H & _). by inversion H. }
  destruct pc as [|x pc]; [exists false; split; [done|]; split; [done|]; intros (d & H & _); by inversion H|].
  destruct (GetOp (x :: pc)) as [[[op data] pc']|] eqn:E.
  2:{ exists false. split; [done|]. split; [done|]. intros (d & H & _). inversion H; congruence. }
  pose proof (GetOp_progress _ _ _ _ E) as P. destruct (IH pc' ltac:(lia)) as (b & Eb & Hb).
  assert (D : size data = 0 <-> data = []) by (unfold size; destruct data; cbn; split; (done || lia)).
  assert (Hd : exists c, (if negb (size data =? 0) then bloom_contains f data else Some false) = Some c /\ (c = true <-> data <> [] /\ has f data)).
  { destruct (Z.eqb_spec (size data) 0) as [Z0|Z0]; cbn [negb]; [exists false; split; [done|]; split; [done|]; intros [N _]; tauto|].
    destruct (contains_total f data Ok) as [c Ec]. exists c. split; [done|]. rewrite Ec. split; [intros ->; split; [tauto|done]|intros [_ [= ->]]; done]. }
  destruct Hd as (c & Ec & Hc). rewrite Ec. cbn [obind]. destruct c.
  - exists true. split; [done|]. split; [intros _|done]. exists data. destruct (proj1 Hc eq_refl) as [Nd Hd]. split; [by eapply element_here|done].
  - exists b. split; [done|]. rewrite Hb. split; intros (d & H & Hd).
    + exists d. split; [by eapply element_later|done].
    + inversion H as [? ? ? ? E' Nd|? ? ? ? ? E' H']; subst; rewrite E in E'; injection E' as <- <- <-; [|eauto]. exfalso. by discriminate (proj2 Hc (conj Nd Hd)).
Qed.
Lemma script_has_spec f script : filter_ok f -> exists b, script_has f script = Some b /\ (b = true <-> exists d, element script d /\ has f d).
Proof. intros Ok. by apply script_matches_spec. Qed.

(** Some output has an element of the filter. *)
Definition pays (f : CBloomFilter) (outs : list CTxOut) : Prop := exists o d, o ∈ outs /\ element (scriptPubKey o) d /\ has f d.
Lemma match_outputs_spec hash : forall outs f i found, filter_ok f -> 0 <= i -> i + Z.of_nat (length outs) <= 2 ^ 32 ->
  exists b f', match_outputs f hash i outs found = Some (b, f') /\ grows f f' /\ (found = true \/ pays f outs -> b = true) /\ (b = true -> found = true \/ pays f' outs) /\
    forall n o d, outs !! n = Some o -> element (scriptPubKey o) d -> has f d -> update_output f (scriptPubKey o) = true -> has f' (outpoint_key (mkOutPoint hash (i + Z.of_nat n))).
Proof.
  induction outs as [|o outs IH]; intros f i found Ok Hi Hl; cbn [match_outputs].
  { exists found, f. split; [done|]. split; [done|]. split; [intros [|(o & d & H & _)]; [done|by apply elem_of_nil in H]|]. split; [by left|]. intros n o d H. by rewrite lookup_nil in H. }
  destruct (script_has_spec f (scriptPubKey o) Ok) as (c & Ec & Hc). rewrite Ec. cbn [obind length] in *.
  assert (Ins : exists f1, (if c && update_output f (scriptPubKey o) then bloom_insert f (outpoint_key (mkOutPoint hash i)) else Some f) = Some f1 /\ grows f f1 /\
    (c = true -> update_output f (scriptPubKey o) = true -> has f1 (outpoint_key (mkOutPoint hash i)))).
  { destruct (c && update_output f (scriptPubKey o)) eqn:U; [destruct (bloom_insert_spec f (outpoint_key (mkOutPoint hash i)) Ok) as (f1 & ? & ? & ?); eauto|].
    exists f. split; [done|]. split; [done|]. intros -> U'. by rewrite U' in U. }
  destruct Ins as (f1 & E1 & G1 & W1). rewrite E1. cbn [obind]. pose proof (filter_ok_grows _ _ G1 Ok) as Ok1.
  destruct (IH f1 (u32 (i + 1)) (found || c) Ok1) as (b & f' & E' & G' & H1 & H2 & H3); [apply u32_range|destruct outs; [cbn; pose proof (u32_range (i + 1)); lia|rewrite u32_small; cbn [length] in *; lia]|].
  exists b, f'. split; [done|]. split; [by etrans|]. split; [|split].
  - intros [->|(o' & d & [->|Ho]%elem_of_cons & He & Hd)]; apply H1; [by left| |].
    + left. rewrite (proj2 Hc); [apply orb_true_r|eauto].
    + right. exists o', d. split; [done|]. split; [done|]. by apply (has_grows f).
  - intros Hb. destruct (H2 Hb) as [[->| ->]%orb_true_iff|(o' & d & Ho & He & Hd)]; [by left|right|right].
    + destruct (proj1 Hc eq_refl) as (d & He & Hd). exists o, d. split; [by left|]. split; [done|]. apply (has_grows f); [done|by etrans|done].
    + exists o', d. split; [by right|done].
  - intros [|n] o' d Ho He Hd Hu; cbn in Ho.
    + injection Ho as <-. rewrite Z.add_0_r. apply (has_grows f1); [done|done|]. apply W1; [|done]. apply Hc. eauto.
    + replace (i + Z.of_nat (S n)) with (u32 (i + 1) + Z.of_nat n).
      * apply (H3 n o' d); [done|done|by apply (has_grows f)|]. revert Hu. unfold update_output. by rewrite (proj2 (proj2 (gr_params _ _ G1))).
      * apply lookup_lt_Some in Ho. rewrite u32_small; lia.
Qed.
Definition spends (f : CBloomFilter) (ins : list CTxIn) : Prop :=
  exists i, i ∈ ins /\ (has f (outpoint_key (prevout i)) \/ exists d, element (scriptSig i) d /\ has f d).
Lemma match_inputs_spec f ins : filter_ok f -> exists b, match_inputs f ins = Some b /\ (b = true <-> spends f ins).
Proof.
  intros Ok. induction ins as [|i ins (b & Eb & Hb)]; cbn [match_inputs]; [exists false; split; [done|]; split; [done|]; intros (i & H & _); by apply elem_of_nil in H|].
  destruct (contains_total f (outpoint_key (prevout i)) Ok) as [c Ec]. rewrite Ec. cbn [obind].
  destruct c; [exists true; split; [done|]; split; [intros _; exists i; split; [left|by left]|done]|].
  destruct (script_has_spec f (scriptSig i) Ok) as (c & Es & Hs). rewrite Es. cbn [obind].
  destruct c; [exists true; split; [done|]; split; [intros _; exists i; split; [left|right; by apply Hs]|done]|].
  exists b. split; [done|]. rewrite Hb. split; intros (j & Hj & H); [exists j; split; [by right|done]|]. apply elem_of_cons in Hj as [->|Hj]; [|by exists j].
  exfalso. destruct H as [H|H]; [congruence|by apply Hs in H].
Qed.
(** The filter has something of the transaction. *)
Definition relevant (f : CBloomFilter) (tx : CTransaction) : Prop := has f (GetHash tx) \/ pays f (vout tx) \/ spends f (vin tx).
Lemma relevant_grows f f' tx : filter_ok f -> grows f f' -> relevant f tx -> relevant f' tx.
Proof.
  intros Ok G [H|[(o & d & H1 & H2 & H3)|(i & Hi & [H|(d & H2 & H3)])]]; [left; by apply (has_grows f)|right; left|right; right; exists i..].
  - exists o, d. split; [done|]. split; [done|]. by apply (has_grows f).
  - split; [done|]. left. by apply (has_grows f).
  - split; [done|]. right. exists d. split; [done|]. by apply (has_grows f).
Qed.
Definition watches (f f' : CBloomFilter) (tx : CTransaction) : Prop :=
  forall n o d, vout tx !! n = Some o -> element (scriptPubKey o) d -> has f d -> update_output f (scriptPubKey o) = true -> has f' (outpoint_key (mkOutPoint (GetHash tx) (Z.of_nat n))).
Lemma IsRelevantAndUpdate_spec f tx : filter_ok f -> Z.of_nat (length (vout tx)) <= 2 ^ 32 ->
  exists b f', IsRelevantAndUpdate f tx = Some (b, f') /\ grows f f' /\ (relevant f tx -> b = true) /\ (b = true -> relevant f' tx) /\ watches f f' tx.
Proof.
  intros Ok Hl. unfold IsRelevantAndUpdate. destruct (isFull f) eqn:F.
  { assert (A : forall k, has f k) by (intros k; unfold bloom_contains; by rewrite F). exists true, f. split; [done|]. split; [done|]. split; [done|]. split; [intros _; left; apply A|intros n o d _ _ _ _; apply A]. }
  destruct (isEmpty f) eqn:Em.
  { assert (A : forall k, ~ has f k) by (intros k; unfold bloom_contains; by rewrite F, Em). exists false, f. split; [done|]. split; [done|]. split; [|split; [done|intros n o d _ _ H _; by apply A in H]].
    intros [H|[(o & d & _ & _ & H)|(i & _ & [H|(d & _ & H)])]]; by apply A in H. }
  destruct (contains_total f (GetHash tx) Ok) as [c Ec]. rewrite Ec. cbn [obind].
  destruct (match_outputs_spec (GetHash tx) (vout tx) f 0 c Ok ltac:(lia) Hl) as (b & f' & E & G & H1 & H2 & H3). rewrite E. cbn [obind].
  pose proof (filter_ok_grows _ _ G Ok) as Ok'. assert (W : watches f f' tx) by (intros n o d; apply H3). destruct b.
  - exists true, f'. split; [done|]. split; [done|]. split; [done|]. split; [|done]. intros _. destruct (H2 eq_refl) as [->|P]; [left; by apply (has_grows f)|by right; left].
  - destruct (match_inputs_spec f' (vin tx) Ok') as (b & Eb & Hb). rewrite Eb. cbn [obind]. exists b, f'. split; [done|]. split; [done|]. split; [|split; [|done]].
    + intros [H|[P|Sp]]; [rewrite H in Ec; injection Ec as <-; discriminate H1; by left|discriminate H1; by right|]. apply Hb.
      destruct Sp as (i & Hi & [H|(d & He & H)]); exists i; (split; [done|]); [left|right; exists d; split; [done|]]; by apply (has_grows f).
    + intros ->. right. right. by apply Hb.
Qed.
End Relevance.

(** * The filter of a peer *)

(** The filter is replaced when its pointer is. *)
Record PeerFilter := mkPeer { pfilter : option CBloomFilter; fRelayTxes : bool; nMisbehavior : Z }.
Definition peer_start : PeerFilter := mkPeer (Some CBloomFilter_default) false 0.
Definition Misbehaving (p : PeerFilter) (howmuch : Z) : PeerFilter := mkPeer (pfilter p) (fRelayTxes p) (nMisbehavior p + howmuch).
(** [vRecv >> filter], into a filter made by the default constructor *)
Definition read_filter : Reader CBloomFilter := fun s =>
  v <- Unserialize (Serializable := ser_bytes) s;; let '(v, s) := v in
  n <- ser_readdata32 s;; let '(n, s) := n in
  t <- ser_readdata32 s;; let '(t, s) := t in
  g <- ser_readdata8 s;; let '(g, s) := g in
  Some (mkBloom v (isFull CBloomFilter_default) (isEmpty CBloomFilter_default) n t g, s).
Inductive FilterMessage := FILTERLOAD (vRecv : list Z) | FILTERADD (vRecv : list Z) | FILTERCLEAR.
(** A message that cannot be read changes nothing: the exception ends its processing. *)
Definition ProcessFilterMessage (node_bloom : bool) (m : FilterMessage) (p : PeerFilter) : option PeerFilter :=
  if negb node_bloom then Some (Misbehaving p 100)
  else
    match m with
    | FILTERLOAD vRecv =>
        match read_filter vRecv with
        | None => Some p
        | Some (filter, _) =>
            if negb (IsWithinSizeConstraints filter) then Some (Misbehaving p 100)
            else Some (mkPeer (Some (UpdateEmptyFull filter)) true (nMisbehavior p))
        end
    | FILTERADD vRecv =>
        match Unserialize (Serializable := ser_bytes) vRecv with
        | None => Some p
        | Some (v, _) =>
            if Z.of_nat (length v) >? MAX_SCRIPT_ELEMENT_SIZE then Some (Misbehaving p 100)
            else
              match pfilter p with
              | Some f => f <- bloom_insert f v;; Some (mkPeer (Some f) (fRelayTxes p) (nMisbehavior p))
              | None => Some (Misbehaving p 100)
              end
        end
    | FILTERCLEAR => Some (mkPeer (Some CBloomFilter_default) true (nMisbehavior p))
    end.

Section Peer.
Context {crypto : ScriptCrypto} {abi : Abi}.

(** A transaction is offered to the peer; the answer is whether it is sent. *)
Definition relay_tx (p : PeerFilter) (tx : CTransaction) : option (bool * PeerFilter) :=
  match pfilter p with
  | None => Some (true, p)
  | Some f => r <- IsRelevantAndUpdate f tx;; let '(b, f) := r in Some (b, mkPeer (Some f) (fRelayTxes p) (nMisbehavior p))
  end.
Inductive PeerEvent := Received (m : FilterMessage) | Offer (tx : CTransaction).
Fixpoint peer_run (evs : list PeerEvent) (p : PeerFilter) : option (list bool * PeerFilter) :=
  match evs with
  | [] => Some ([], p)
  | Received m :: evs => p <- ProcessFilterMessage true m p;; peer_run evs p
  | Offer tx :: evs =>
      r <- relay_tx p tx;; let '(b, p) := r in
      r <- peer_run evs p;; let '(bs, p) := r in Some (b :: bs, p)
  end.

(** ** What a peer relies on *)

Definition peer_ok (p : PeerFilter) : Prop := forall f, pfilter p = Some f -> filter_ok f.
Definition event_ok (e : PeerEvent) : Prop := match e with Offer tx => Z.of_nat (length (vout tx)) <= 2 ^ 32 | _ => True end.
(** The messages that replace the filter. *)
Definition replaces (e : PeerEvent) : bool := match e with Received (FILTERLOAD _) | Received FILTERCLEAR => true | _ => false end.
(** The key occurs in the transaction. *)
Definition involves (k : list Z) (tx : CTransaction) : Prop :=
  k = GetHash tx \/ (exists o, o ∈ vout tx /\ element (scriptPubKey o) k) \/
  (exists i, i ∈ vin tx /\ (k = outpoint_key (prevout i) \/ element (scriptSig i) k)).
Lemma involves_relevant f k tx : has f k -> involves k tx -> relevant f tx.
Proof.
  intros H [->|[(o & Ho & He)|(i & Hi & [->|He])]]; [by left|right; left; by exists o, k|right; right; exists i; split; [done|by left]|right; right; exists i; split; [done|right; eauto]].
Qed.
Definition peer_has (p : PeerFilter) (k : list Z) : Prop := match pfilter p with Some f => has f k | None => True end.
Lemma default_ok : filter_ok CBloomFilter_default.
Proof. by intros F. Qed.
Lemma message_ok m p : peer_ok p -> exists p', ProcessFilterMessage true m p = Some p' /\ peer_ok p' /\ (replaces (Received m) = false -> forall k, peer_has p k -> peer_has p' k).
Proof.
  intros Ok. cbn [ProcessFilterMessage negb]. destruct m as [s|s|].
  - destruct (read_filter s) as [[f r]|]; [|by exists p]. destruct (negb (IsWithinSizeConstraints f)); [by exists (Misbehaving p 100)|].
    eexists. split; [reflexivity|]. split; [|done]. intros f' [= <-]. apply UpdateEmptyFull_ok.
  - destruct (Unserialize s) as [[v r]|]; [|by exists p]. destruct (_ >? _); [by exists (Misbehaving p 100)|].
    destruct (pfilter p) as [f|] eqn:E; [|exists (Misbehaving p 100); split; [done|]; split; [by intros f; cbn; rewrite E|intros _ k; unfold peer_has; cbn; by rewrite E]].
    destruct (bloom_insert_spec f v (Ok f E)) as (f' & -> & G & _). cbn [obind]. eexists. split; [reflexivity|]. split.
    + intros f1 [= <-]. eapply filter_ok_grows; [done|by apply Ok].
    + intros _ k. unfold peer_has. rewrite E. cbn. by apply has_grows; [apply Ok|].
  - eexists. split; [reflexivity|]. split; [|done]. intros f' [= <-]. apply default_ok.
Qed.
Lemma relay_ok p tx : peer_ok p -> Z.of_nat (length (vout tx)) <= 2 ^ 32 ->
  exists b p', relay_tx p tx = Some (b, p') /\ peer_ok p' /\ (forall k, peer_has p k -> peer_has p' k) /\ forall k, peer_has p k -> involves k tx -> b = true.
Proof.
  intros Ok Hl. unfold relay_tx, peer_has. destruct (pfilter p) as [f|] eqn:E; [|exists true, p; rewrite E; by repeat split].
  destruct (IsRelevantAndUpdate_spec f tx (Ok f E) Hl) as (b & f' & -> & G & R & _ & _). cbn [obind]. eexists b, _. split; [reflexivity|]. split; [|split].
  - intros f1 [= <-]. eapply filter_ok_grows; [done|by apply Ok].
  - intros k. cbn. by apply has_grows; [apply Ok|].
  - intros k Hk Hi. apply R. by eapply involves_relevant.
Qed.
Lemma peer_run_ok evs : forall p, peer_ok p -> Forall event_ok evs ->
  exists bs p', peer_run evs p = Some (bs, p') /\ peer_ok p' /\ (Forall (fun e => replaces e = false) evs -> forall k, peer_has p k -> peer_has p' k).
Proof.
  induction evs as [|[m|tx] evs IH]; intros p Ok F; cbn [peer_run]; [by exists [], p| |]; apply Forall_cons in F as [F1 F].
  - destruct (message_ok m p Ok) as (p1 & E1 & Ok1 & K1). destruct (IH p1 Ok1 F) as (bs & p' & E & Ok' & K). rewrite E1. cbn [obind]. exists bs, p'. split; [done|]. split; [done|].
    intros [N1 N]%Forall_cons k Hk. apply K, K1; done.
  - destruct (relay_ok p tx Ok F1) as (b & p1 & E1 & Ok1 & K1 & _). destruct (IH p1 Ok1 F) as (bs & p' & E & Ok' & K). rewrite E1. cbn [obind]. rewrite E. cbn [obind].
    exists (b :: bs), p'. split; [done|]. split; [done|]. intros [N1 N]%Forall_cons k Hk. apply K, K1; done.
Qed.
Lemma peer_run_app evs1 evs2 p bs1 p1 : peer_run evs1 p = Some (bs1, p1) -> peer_run (evs1 ++ evs2) p = (r <- peer_run evs2 p1;; Some (bs1 ++ fst r, snd r)).
Proof.
  revert p bs1. induction evs1 as [|[m|tx] evs1 IH]; intros p bs1; cbn [peer_run app].
  - intros [= <- <-]. by destruct (peer_run evs2 p) as [[bs p']|].
  - destruct (ProcessFilterMessage true m p) as [p2|]; cbn [obind]; [|done]. apply IH.
  - destruct (relay_tx p tx) as [[b p2]|]; cbn [obind]; [|done]. destruct (peer_run evs1 p2) as [[bs p3]|] eqn:E; cbn [obind]; [|done]. intros [= <- <-].
    rewrite (IH _ _ E). destruct (peer_run evs2 p3) as [[bs' p4]|]; done.
Qed.

Lemma add_has vRecv k rest p : peer_ok p -> Unserialize (Serializable := ser_bytes) vRecv = Some (k, rest) -> Z.of_nat (length k) <= MAX_SCRIPT_ELEMENT_SIZE ->
  exists p', ProcessFilterMessage true (FILTERADD vRecv) p = Some p' /\ peer_ok p' /\ peer_has p' k.
Proof.
  intros Ok Hk Hs. destruct (message_ok (FILTERADD vRecv) p Ok) as (p' & E & Ok' & _). exists p'. split; [done|]. split; [done|].
  cbn [ProcessFilterMessage negb] in E. rewrite Hk in E. rewrite Z.gtb_ltb, (proj2 (Z.ltb_ge _ _) Hs) in E. unfold peer_has. destruct (pfilter p) as [f|] eqn:F.
  - destruct (bloom_insert_spec f k (Ok f F)) as (f' & Ei & _ & H). rewrite Ei in E. by injection E as <-.
  - injection E as <-. cbn. by rewrite F.
Qed.

(** C25: whatever messages a peer sends and whatever transactions are offered to it, its
    filter never divides by zero or leaves its data. A key it has added is matched by every
    later transaction that contains it, as its hash, an element of an output or input script
    or a spent outpoint, until the peer loads or clears the filter, and however the filter is
    updated in between. *)
Theorem peer_filter_complete (p : PeerFilter) (before between : list PeerEvent) (vRecv k rest : list Z) (tx : CTransaction) :
  peer_ok p -> Forall event_ok (before ++ between ++ [Offer tx]) ->
  Unserialize (Serializable := ser_bytes) vRecv = Some (k, rest) -> Z.of_nat (length k) <= MAX_SCRIPT_ELEMENT_SIZE ->
  Forall (fun e => replaces e = false) between -> involves k tx ->
  exists bs p', peer_run (before ++ [Received (FILTERADD vRecv)] ++ between ++ [Offer tx]) p = Some (bs ++ [true], p') /\ peer_ok p'.
Proof.
  intros Ok F Hk Hs Nr Inv. rewrite !Forall_app, Forall_singleton in F. destruct F as (F1 & F2 & F3).
  destruct (peer_run_ok before p Ok F1) as (bs1 & p1 & E1 & Ok1 & _). destruct (add_has vRecv k rest p1 Ok1 Hk Hs) as (p2 & E2 & Ok2 & H2).
  destruct (peer_run_ok between p2 Ok2 F2) as (bs3 & p3 & E3 & Ok3 & K3). destruct (relay_ok p3 tx Ok3 F3) as (b & p4 & E4 & Ok4 & _ & R).
  rewrite (R k (K3 Nr k H2) Inv) in E4. exists (bs1 ++ bs3), p4. split; [|done].
  rewrite (peer_run_app _ _ _ _ _ E1). cbn [app peer_run]. rewrite E2. cbn [obind]. rewrite (peer_run_app _ _ _ _ _ E3). cbn [peer_run]. rewrite E4. cbn. by rewrite app_assoc.
Qed.
End Peer.

(** * Example: the filter of the unit tests *)

Definition bl_filter : CBloomFilter := mkBloom [0; 0; 0] false false 5 0 1.
Definition hex1 : list Z := [0x99;0x10;0x8a;0xd8;0xed;0x9b;0xb6;0x27;0x4d;0x39;0x80;0xba;0xb5;0xa8;0x5c;0x04;0x8f;0x09;0x50;0xc8].
Definition hex2 : list Z := [0xb5;0xa2;0xc7;0x86;0xd9;0xef;0x46;0x58;0x28;0x7c;0xed;0x59;0x14;0xb3;0x7a;0x1b;0x4a;0xa3;0x2e;0xee].
Definition hex3 : list Z := [0xb9;0x30;0x06;0x70;0xb4;0xc5;0x36;0x6e;0x95;0xb2;0x69;0x9e;0x8b;0x18;0xbc;0x75;0xe5;0xf7;0x29;0xc5].
Example bloom_test_vector : (f <- bloom_insert bl_filter hex1;; f <- bloom_insert f hex2;; f <- bloom_insert f hex3;; Some (vData f)) = Some [0x61; 0x4e; 0x9b].
Proof. vm_compute. reflexivity. Qed.
Example bloom_test_murmur : MurmurHash3 0 [0x21; 0x43; 0x65; 0x87] = 0xF55B516B /\ MurmurHash3 0x5082EDEE [0x21; 0x43; 0x65; 0x87] = 0x2362F9DE /\
  MurmurHash3 0 [0x21; 0x43; 0x65] = 0x7E4A8634 /\ MurmurHash3 0 [0x21; 0x43] = 0xA0F7B07A /\ MurmurHash3 0 [0x21] = 0x72661CF4.
Proof. vm_compute. repeat split. Qed.

(** [Merge] with a filter that matches everything writes outside its data. *)
Lemma Merge_overruns f filter : MatchesAll f = true \/ MatchesAll filter = true -> Merge f filter = None.
Proof. intros [E|E]; unfold Merge; rewrite E; [done|]. by rewrite andb_false_r. Qed.

#[local] Existing Instances abi64 toy_crypto.
Definition bl_tx (script : CScript) : CTransaction := mkTx 1 0 [] [mkTxOut 5 script (-10)] 0 None None.
Definition bl_load : list Z := [3; 0; 0; 0; 5; 0; 0; 0; 0; 0; 0; 0; 1].
Lemma peer_filter_complete_witness :
  (r <- peer_run [Received (FILTERLOAD bl_load); Offer (bl_tx (20 :: hex1)); Received (FILTERADD (20 :: hex1)); Offer (bl_tx (20 :: hex2)); Offer (bl_tx (20 :: hex1))] peer_start;;
   Some (fst r)) = Some [false; false; true] /\
  exists bs p', peer_run ([Received (FILTERLOAD bl_load); Offer (bl_tx (20 :: hex1))] ++ [Received (FILTERADD (20 :: hex1))] ++ [Offer (bl_tx (20 :: hex2))] ++ [Offer (bl_tx (20 :: hex1))])
    peer_start = Some (bs ++ [true], p') /\ peer_ok p'.
Proof.
  split; [vm_compute; reflexivity|]. apply (peer_filter_complete peer_start _ _ (20 :: hex1) hex1 []).
  - intros f [= <-]. apply default_ok.
  - repeat constructor; vm_compute; discriminate.
  - vm_compute. reflexivity.
  - vm_compute. discriminate.
  - repeat constructor.
  - right. left. exists (mkTxOut 5 (20 :: hex1) (-10)). split; [left|]. apply (element_here _ 20 hex1 []); [vm_compute; reflexivity|discriminate].
Defined.

(** * The rolling filter *)

Record CRollingBloomFilter := mkRolling {
  nEntriesPerGeneration : Z;
  nEntriesThisGeneration : Z;
  nGeneration : Z;
  rb_data : list Z;
  rb_nTweak : Z;
  rb_nHashFuncs : Z
}.
Definition with_cells (f : CRollingBloomFilter) (d : list Z) : CRollingBloomFilter :=
  mkRolling (nEntriesPerGeneration f) (nEntriesThisGeneration f) (nGeneration f) d (rb_nTweak f) (rb_nHashFuncs f).
Definition with_counters (f : CRollingBloomFilter) (n g : Z) : CRollingBloomFilter :=
  mkRolling (nEntriesPerGeneration f) n g (rb_data f) (rb_nTweak f) (rb_nHashFuncs f).
(** Two bits of a word; [None]: there is none. *)
Definition cell_index (d : list Z) (position : Z) : nat := Z.to_nat (Z.shiftr position 4 mod Z.of_nat (length d)).
Definition rb_get (d : list Z) (position : Z) : option Z :=
  cell <- d !! cell_index d position;; Some (Z.land (Z.shiftr cell (2 * Z.land position 0xF)) 3).
Definition rb_put (d : list Z) (position val : Z) : option (list Z) :=
  cell <- d !! cell_index d position;;
  let s := 2 * Z.land position 0xF in
  Some (<[cell_index d position := Z.lor (Z.land cell (Z.lnot (Z.shiftl 3 s))) (u32 (Z.shiftl val s))]> d).
Definition rb_Hash (f : CRollingBloomFilter) (nHashNum : Z) (vDataToHash : list Z) : option Z :=
  let n := Z.of_nat (length (rb_data f)) * 16 in
  if n =? 0 then None else Some (MurmurHash3 (u32 (nHashNum * 0xFBA4C795 + rb_nTweak f)) vDataToHash mod n).
(** Positions from [p] on, [n] of them. *)
Fixpoint wipe (d : list Z) (n : nat) (p g : Z) : option (list Z) :=
  match n with
  | O => Some d
  | S n =>
      v <- rb_get d p;;
      d <- (if v =? g then rb_put d p 0 else Some d);;
      wipe d n (p + 1) g
  end.
Fixpoint put_all (f : CRollingBloomFilter) (m : nat) (n : Z) (vKey : list Z) : option CRollingBloomFilter :=
  match m with
  | O => Some f
  | S m =>
      h <- rb_Hash f n vKey;;
      d <- rb_put (rb_data f) h (nGeneration f);;
      put_all (with_cells f d) m (n + 1) vKey
  end.
Definition rolling_insert (f : CRollingBloomFilter) (vKey : list Z) : option CRollingBloomFilter :=
  f <- (if nEntriesThisGeneration f =? nEntriesPerGeneration f then
          let g := if nGeneration f + 1 =? 4 then 1 else nGeneration f + 1 in
          d <- wipe (rb_data f) (length (rb_data f) * 16) 0 g;;
          Some (with_cells (with_counters f 0 g) d)
        else Some f);;
  let f := with_counters f (nEntriesThisGeneration f + 1) (nGeneration f) in
  put_all f (Z.to_nat (rb_nHashFuncs f)) 0 vKey.
Fixpoint test_all (f : CRollingBloomFilter) (m : nat) (n : Z) (vKey : list Z) : option bool :=
  match m with
  | O => Some true
  | S m =>
      h <- rb_Hash f n vKey;;
      v <- rb_get (rb_data f) h;;
      if v =? 0 then Some false else test_all f m (n + 1) vKey
  end.
Definition rolling_contains (f : CRollingBloomFilter) (vKey : list Z) : option bool := test_all f (Z.to_nat (rb_nHashFuncs f)) 0 vKey.
(** [tweak] is drawn at random. *)
Definition rolling_reset (f : CRollingBloomFilter) (tweak : Z) : CRollingBloomFilter :=
  mkRolling (nEntriesPerGeneration f) 0 1 (map (fun _ => 0) (rb_data f)) tweak (rb_nHashFuncs f).

(** ** Cells *)

Abbreviation cells d := (Z.of_nat (length d) * 16).
Lemma land15 n : 0 <= Z.land n 0xF < 16.
Proof. change 0xF with (Z.ones 4). rewrite Z.land_ones by lia. apply Z.mod_pos_bound. done. Qed.
Lemma position_split p : 0 <= p -> p = 16 * Z.shiftr p 4 + Z.land p 0xF.
Proof. intros H. change 0xF with (Z.ones 4). rewrite Z.land_ones, Z.shiftr_div_pow2 by lia. apply Z.div_mod. done. Qed.
Lemma cell_index_in d p : 0 <= p < cells d -> Z.of_nat (cell_index d p) = Z.shiftr p 4 /\ (cell_index d p < length d)%nat.
Proof.
  intros H. assert (0 <= Z.shiftr p 4 < Z.of_nat (length d)) by (pose proof (position_split p); pose proof (land15 p); lia).
  unfold cell_index. rewrite Z.mod_small by done. rewrite Z2Nat.id by lia. split; [done|lia].
Qed.
Lemma two_bits x s m : 0 <= s -> 0 <= m -> Z.testbit (Z.land (Z.shiftr x s) 3) m = (m <? 2) && Z.testbit x (m + s).
Proof.
  intros Hs Hm. change 3 with (Z.ones 2). rewrite Z.land_spec, Z.shiftr_spec by done.
  destruct (Z.ltb_spec m 2); [rewrite Z.ones_spec_low by lia; by rewrite andb_true_r|rewrite Z.ones_spec_high by lia; by rewrite andb_false_r].
Qed.
Lemma put_bits x v s m : 0 <= v < 4 -> 0 <= s <= 30 -> 0 <= m ->
  Z.testbit (Z.lor (Z.land x (Z.lnot (Z.shiftl 3 s))) (u32 (Z.shiftl v s))) m = if (s <=? m) && (m <? s + 2) then Z.testbit v (m - s) else Z.testbit x m.
Proof.
  intros Hv Hs Hm. assert (E : u32 (Z.shiftl v s) = Z.shiftl v s).
  { apply u32_small. rewrite Z.shiftl_mul_pow2 by lia. assert (0 < 2 ^ s) by lia. assert (2 ^ s <= 2 ^ 30) by (apply Z.pow_le_mono_r; lia). nia. }
  rewrite E, Z.lor_spec, Z.land_spec, Z.lnot_spec, !Z.shiftl_spec by lia. change 3 with (Z.ones 2).
  destruct (Z.leb_spec s m), (Z.ltb_spec m (s + 2)); cbn [andb].
  - rewrite Z.ones_spec_low by lia. by rewrite andb_false_r.
  - rewrite Z.ones_spec_high by lia. rewrite (Z.bits_above_log2 v (m - s)); [by rewrite andb_true_r, orb_false_r|lia|].
    destruct (Z.eq_dec v 0) as [->|]; [cbn; lia|]. apply Z.log2_lt_pow2; [lia|]. assert (2 ^ 2 <= 2 ^ (m - s)) by (apply Z.pow_le_mono_r; lia). lia.
  - rewrite !(Z.testbit_neg_r _ (m - s)) by lia. by rewrite andb_true_r, orb_false_r.
  - lia.
Qed.
Lemma rb_put_spec d p v : 0 <= p < cells d -> 0 <= v < 4 ->
  exists d', rb_put d p v = Some d' /\ length d' = length d /\ forall q, 0 <= q < cells d -> rb_get d' q = if q =? p then Some v else rb_get d q.
Proof.
  intros Hp Hv. destruct (cell_index_in d p Hp) as [Ip Lp]. destruct (lookup_lt_is_Some_2 d _ Lp) as [x Ex]. unfold rb_put. rewrite Ex. cbn [obind].
  eexists. split; [reflexivity|]. split; [apply length_insert|]. intros q Hq. destruct (cell_index_in d q Hq) as [Iq Lq].
  assert (CI : cell_index (<[cell_index d p := Z.lor (Z.land x (Z.lnot (Z.shiftl 3 (2 * Z.land p 0xF)))) (u32 (Z.shiftl v (2 * Z.land p 0xF)))]> d) q = cell_index d q)
    by (unfold cell_index; by rewrite length_insert).
  unfold rb_get. rewrite CI. pose proof (land15 p) as B1. pose proof (land15 q) as B2. pose proof (position_split p ltac:(lia)) as S1. pose proof (position_split q ltac:(lia)) as S2.
  destruct (decide (cell_index d q = cell_index d p)) as [Eq|Nq].
  - rewrite Eq, list_lookup_insert_eq, Ex by done. cbn [obind]. destruct (Z.eqb_spec q p) as [->|N]; f_equal; apply Z.bits_inj'; intros m Hm.
    + rewrite two_bits, put_bits by lia. destruct (Z.ltb_spec m 2); cbn [andb].
      * rewrite (proj2 (Z.leb_le _ _)), (proj2 (Z.ltb_lt _ _)) by lia. cbn [andb]. f_equal. lia.
      * symmetry. destruct (Z.eq_dec v 0) as [->|]; [apply Z.bits_0|]. apply Z.bits_above_log2; [lia|]. apply Z.log2_lt_pow2; [lia|]. assert (2 ^ 2 <= 2 ^ m) by (apply Z.pow_le_mono_r; lia). lia.
    + rewrite !two_bits, put_bits by lia. destruct (Z.ltb_spec m 2); cbn [andb]; [|done].
      destruct (Z.leb_spec (2 * Z.land p 15) (m + 2 * Z.land q 15)), (Z.ltb_spec (m + 2 * Z.land q 15) (2 * Z.land p 15 + 2)); cbn [andb]; try done. exfalso. lia.
  - rewrite list_lookup_insert_ne by done. destruct (Z.eqb_spec q p) as [->|]; done.
Qed.
Lemma rb_get_range d p : 0 <= p < cells d -> exists v, rb_get d p = Some v /\ 0 <= v < 4.
Proof.
  intros Hp. destruct (cell_index_in d p Hp) as [_ Lp]. destruct (lookup_lt_is_Some_2 d _ Lp) as [x Ex]. unfold rb_get. rewrite Ex. cbn [obind]. eexists. split; [done|].
  change 3 with (Z.ones 2). rewrite Z.land_ones by lia. apply Z.mod_pos_bound. done.
Qed.

(** ** The generations *)

Lemma wipe_spec g n : forall d p, 0 <= p -> p + Z.of_nat n <= cells d ->
  exists d', wipe d n p g = Some d' /\ length d' = length d /\
    forall q, 0 <= q < cells d -> rb_get d' q = if (p <=? q) && (q <? p + Z.of_nat n) && bool_decide (rb_get d q = Some g) then Some 0 else rb_get d q.
Proof.
  induction n as [|n IH]; intros d p Hp Hn; cbn [wipe].
  { exists d. split; [done|]. split; [done|]. intros q Hq. destruct (Z.leb_spec p q), (Z.ltb_spec q (p + Z.of_nat 0)); cbn [andb]; (done || lia). }
  destruct (rb_get_range d p ltac:(lia)) as (v & Ev & Hv). rewrite Ev. cbn [obind].
  assert (S1 : exists d1, (if v =? g then rb_put d p 0 else Some d) = Some d1 /\ length d1 = length d /\
    forall q, 0 <= q < cells d -> rb_get d1 q = if (q =? p) && bool_decide (rb_get d q = Some g) then Some 0 else rb_get d q).
  { destruct (Z.eqb_spec v g) as [->|N].
    - destruct (rb_put_spec d p 0 ltac:(lia) ltac:(lia)) as (d1 & E1 & L1 & G1). exists d1. split; [done|]. split; [done|]. intros q Hq. rewrite G1 by done.
      destruct (Z.eqb_spec q p) as [->|]; cbn [andb]; [by rewrite bool_decide_true|done].
    - exists d. split; [done|]. split; [done|]. intros q Hq. destruct (Z.eqb_spec q p) as [->|]; cbn [andb]; [|done]. rewrite bool_decide_false; [done|congruence]. }
  destruct S1 as (d1 & -> & L1 & G1). cbn [obind]. destruct (IH d1 (p + 1) ltac:(lia) ltac:(rewrite L1; lia)) as (d' & E' & L' & G'). exists d'. split; [done|]. split; [congruence|].
  intros q Hq. rewrite G', G1 by (rewrite ?L1; lia). destruct (Z.eqb_spec q p) as [->|N]; cbn [andb].
  - rewrite (proj2 (Z.leb_gt (p + 1) p)), (proj2 (Z.leb_le p p)), (proj2 (Z.ltb_lt p (p + Z.of_nat (S n)))) by lia. done.
  - replace (p + 1 <=? q) with (p <=? q) by (destruct (Z.leb_spec p q), (Z.leb_spec (p + 1) q); (done || lia)).
    replace (q <? p + 1 + Z.of_nat n) with (q <? p + Z.of_nat (S n)) by (f_equal; lia). done.
Qed.

(** [a] generations ago: the numbers 1, 2, 3 are used in turn. *)
Definition age (g v : Z) : Z := (g - v) mod 3.
Definition slot f k j p : Prop := 0 <= j < rb_nHashFuncs f /\ rb_Hash f j k = Some p.
(** The cells of the key were written at most [a] generations ago. *)
Definition fresh (f : CRollingBloomFilter) (k : list Z) (a : Z) : Prop :=
  forall j p, slot f k j p -> exists v, rb_get (rb_data f) p = Some v /\ 1 <= v <= 3 /\ age (nGeneration f) v <= a.
Record rolling_ok (f : CRollingBloomFilter) : Prop := {
  ro_data : rb_data f <> [];
  ro_generation : 1 <= nGeneration f <= 3;
  ro_entries : 0 <= nEntriesThisGeneration f <= nEntriesPerGeneration f /\ 1 <= nEntriesPerGeneration f
}.
Lemma rb_Hash_range f i k : rb_data f <> [] -> exists p, rb_Hash f i k = Some p /\ 0 <= p < cells (rb_data f).
Proof.
  intros N. unfold rb_Hash. assert (0 < length (rb_data f))%nat by (destruct (rb_data f); [done|cbn; lia]).
  destruct (Z.eqb_spec (cells (rb_data f)) 0); [lia|]. eexists. split; [done|]. apply Z.mod_pos_bound. lia.
Qed.
Lemma rb_Hash_same f f' i k : length (rb_data f') = length (rb_data f) -> rb_nTweak f' = rb_nTweak f -> rb_Hash f' i k = rb_Hash f i k.
Proof. intros L T. unfold rb_Hash. by rewrite L, T. Qed.
Record same_setup (f f' : CRollingBloomFilter) : Prop := {
  ss_length : length (rb_data f') = length (rb_data f);
  ss_tweak : rb_nTweak f' = rb_nTweak f;
  ss_funcs : rb_nHashFuncs f' = rb_nHashFuncs f;
  ss_limit : nEntriesPerGeneration f' = nEntriesPerGeneration f
}.
Lemma slot_same f f' k j p : same_setup f f' -> slot f' k j p -> slot f k j p.
Proof. intros [L T F _] [H1 H2]. split; [by rewrite <- F|]. by rewrite <- (rb_Hash_same f f' j k L T). Qed.
Lemma put_all_spec k m : forall f n, rb_data f <> [] -> 1 <= nGeneration f <= 3 ->
  exists f', put_all f m n k = Some f' /\ same_setup f f' /\ nGeneration f' = nGeneration f /\ nEntriesThisGeneration f' = nEntriesThisGeneration f /\
    (forall q, 0 <= q < cells (rb_data f) -> rb_get (rb_data f') q = Some (nGeneration f) \/ rb_get (rb_data f') q = rb_get (rb_data f) q) /\
    forall j p, n <= j < n + Z.of_nat m -> rb_Hash f j k = Some p -> rb_get (rb_data f') p = Some (nGeneration f).
Proof.
  induction m as [|m IH]; intros f n N Hg; cbn [put_all].
  { exists f. split; [done|]. split; [done|]. split; [done|]. split; [done|]. split; [by right|]. intros j p Hj. lia. }
  destruct (rb_Hash_range f n k N) as (h & Eh & Hh). rewrite Eh. cbn [obind]. destruct (rb_put_spec (rb_data f) h (nGeneration f) Hh ltac:(lia)) as (d & Ed & Ld & Gd). rewrite Ed. cbn [obind].
  destruct (IH (with_cells f d) (n + 1)) as (f' & E' & [L' T' F' M'] & G' & C' & K' & B'); [intros C; cbn in C; subst d; destruct (rb_data f); done|done|]. cbn in L', T', F', M', G', C', K', B'.
  exists f'. split; [done|]. split; [split; [congruence|done..]|]. split; [done|]. split; [done|].
  assert (K1 : forall q, 0 <= q < cells (rb_data f) -> rb_get (rb_data f') q = Some (nGeneration f) \/ rb_get (rb_data f') q = rb_get d q) by (intros q Hq; apply K'; by rewrite Ld). split.
  - intros q Hq. destruct (K1 q Hq) as [|Kq]; [by left|]. rewrite Kq, Gd by done. destruct (Z.eqb_spec q h); [by left|by right].
  - intros j p Hj Ep. destruct (Z.eq_dec j n) as [->|]; [|apply (B' j); [lia|by rewrite <- Ep; apply rb_Hash_same]].
    rewrite Eh in Ep. injection Ep as <-. destruct (K1 h Hh) as [|Kh]; [done|]. by rewrite Kh, Gd, Z.eqb_refl.
Qed.
Lemma age_next g v : 1 <= g <= 3 -> 1 <= v <= 3 -> let g' := if g + 1 =? 4 then 1 else g + 1 in
  1 <= g' <= 3 /\ (age g v <= 1 -> v <> g' /\ age g' v <= age g v + 1).
Proof.
  intros Hg Hv. assert (g = 1 \/ g = 2 \/ g = 3) as [-> | [-> | ->]] by lia; assert (v = 1 \/ v = 2 \/ v = 3) as [-> | [-> | ->]] by lia; vm_compute; (split; [split; discriminate|]); intros H; split; try discriminate; try (by destruct H).
Qed.
Lemma age_self g : age g g = 0.
Proof. unfold age. by rewrite Z.sub_diag. Qed.
(** An insertion, with or without the change of the generation. *)
Lemma rolling_insert_spec f k : rolling_ok f -> exists f', rolling_insert f k = Some f' /\ rolling_ok f' /\ same_setup f f' /\ fresh f' k 0 /\
  if nEntriesThisGeneration f =? nEntriesPerGeneration f then nEntriesThisGeneration f' = 1 /\ forall k' a, 0 <= a <= 1 -> fresh f k' a -> fresh f' k' (a + 1)
  else nEntriesThisGeneration f' = nEntriesThisGeneration f + 1 /\ forall k' a, 0 <= a -> fresh f k' a -> fresh f' k' a.
Proof.
  intros [N Hg [He H1]]. unfold rolling_insert. set (roll := nEntriesThisGeneration f =? nEntriesPerGeneration f).
  set (g := if nGeneration f + 1 =? 4 then 1 else nGeneration f + 1).
  assert (Mid : exists f1, (if roll then d <- wipe (rb_data f) (length (rb_data f) * 16) 0 g;; Some (with_cells (with_counters f 0 g) d) else Some f) = Some f1 /\
    same_setup f f1 /\ 1 <= nGeneration f1 <= 3 /\ (nEntriesThisGeneration f1 = if roll then 0 else nEntriesThisGeneration f) /\
    forall k' a, fresh f k' a -> (if roll then 0 <= a <= 1 else 0 <= a) -> fresh f1 k' (if roll then a + 1 else a)).
  { destruct roll; [|exists f; done]. destruct (wipe_spec g (length (rb_data f) * 16) (rb_data f) 0 ltac:(lia) ltac:(lia)) as (d & Ed & Ld & Gd). rewrite Ed. cbn [obind].
    eexists. split; [reflexivity|]. assert (SS : same_setup f (with_cells (with_counters f 0 g) d)) by (by split). split; [done|].
    destruct (age_next (nGeneration f) (nGeneration f) Hg Hg) as [Hg' _]. fold g in Hg'. split; [done|]. split; [done|].
    intros k' a Fr Ha j p Sl. apply (slot_same f) in Sl; [|done]. destruct (Fr j p Sl) as (v & Ev & Hv & Av). exists v. cbn.
    destruct (age_next (nGeneration f) v Hg Hv) as [_ An]. fold g in An. destruct An as [Nv Av']; [lia|]. split; [|split; [done|lia]].
    destruct Sl as [_ Hp]. destruct (rb_Hash_range f j k' N) as (p' & Ep & Hr). rewrite Hp in Ep. injection Ep as <-. rewrite Gd by done.
    rewrite bool_decide_false by congruence. by rewrite andb_false_r. }
  destruct Mid as (f1 & -> & SS1 & Hg1 & C1 & K1). cbn [obind]. set (f2 := with_counters f1 (nEntriesThisGeneration f1 + 1) (nGeneration f1)).
  assert (N2 : rb_data f2 <> []) by (intros C; cbn in C; apply N, length_zero_iff_nil; by rewrite <- (ss_length _ _ SS1), C).
  destruct (put_all_spec k (Z.to_nat (rb_nHashFuncs f2)) f2 0 N2 Hg1) as (f' & E' & SS' & G' & C' & K' & B'). exists f'. split; [done|]. cbn in G', C'.
  assert (SS2 : same_setup f1 f') by (destruct SS'; by split).
  assert (Cn : nEntriesThisGeneration f' = if roll then 1 else nEntriesThisGeneration f + 1) by (rewrite C', C1; by destruct roll).
  assert (Keep : forall k' a, 0 <= a -> fresh f1 k' a -> fresh f' k' a).
  { intros k' a Ha Fr j p Sl. apply (slot_same f1) in Sl; [|done]. destruct (Fr j p Sl) as (v & Ev & Hv & Av). rewrite G'.
    destruct Sl as [_ Hp]. destruct (rb_Hash_range f1 j k' N2) as (p' & Ep & Hr). rewrite Hp in Ep. injection Ep as <-.
    destruct (K' p Hr) as [Kp|Kp]; [exists (nGeneration f1); split; [done|]; split; [done|]; rewrite age_self; lia|exists v; split; [by rewrite Kp|done]]. }
  split; [|split; [|split]].
  - split; [intros C; apply N2, length_zero_iff_nil; by rewrite <- (ss_length _ _ SS'), C|by rewrite G'|]. rewrite (ss_limit _ _ SS2), (ss_limit _ _ SS1), Cn.
    subst roll. destruct (Z.eqb_spec (nEntriesThisGeneration f) (nEntriesPerGeneration f)); lia.
  - destruct SS1 as [A1 A2 A3 A4], SS2 as [B1 B2 B3 B4]. split; congruence.
  - intros j p Sl. apply (slot_same f1) in Sl; [|done]. destruct Sl as [Hj Hp]. exists (nGeneration f1). rewrite (B' j p); [|cbn; lia|done].
    split; [done|]. split; [done|]. rewrite G', age_self. done.
  - destruct roll; (split; [done|]); intros k' a Ha Fr; apply Keep; [| |done|by apply (K1 k' a)].
    + lia.
    + by apply (K1 k' a).
Qed.
Fixpoint insert_all (f : CRollingBloomFilter) (ks : list (list Z)) : option CRollingBloomFilter :=
  match ks with [] => Some f | k :: ks => f <- rolling_insert f k;; insert_all f ks end.
Lemma insert_all_app ks1 ks2 f f1 : insert_all f ks1 = Some f1 -> insert_all f (ks1 ++ ks2) = insert_all f1 ks2.
Proof. revert f. induction ks1 as [|k ks1 IH]; intros f; cbn; [by intros [= ->]|]. destruct (rolling_insert f k); cbn [obind]; [apply IH|done]. Qed.
Lemma insert_all_total ks : forall f, rolling_ok f -> exists f', insert_all f ks = Some f' /\ rolling_ok f' /\ same_setup f f'.
Proof.
  induction ks as [|k ks IH]; intros f Ok; cbn [insert_all]; [by exists f|]. destruct (rolling_insert_spec f k Ok) as (f1 & -> & Ok1 & S1 & _). cbn [obind].
  destruct (IH f1 Ok1) as (f' & E & Ok' & [A1 A2 A3 A4]). exists f'. split; [done|]. split; [done|]. destruct S1 as [B1 B2 B3 B4]. split; congruence.
Qed.
Lemma fresh_contained f k a : rolling_ok f -> fresh f k a -> rolling_contains f k = Some true.
Proof.
  intros [N _ _] Fr. unfold rolling_contains. assert (H : forall m n, 0 <= n -> n + Z.of_nat m <= Z.max 0 (rb_nHashFuncs f) -> test_all f m n k = Some true).
  { induction m as [|m IH]; intros n Hn Hm; cbn [test_all]; [done|]. destruct (rb_Hash_range f n k N) as (p & Ep & _). rewrite Ep. cbn [obind].
    destruct (Fr n p) as (v & Ev & Hv & _); [split; [lia|done]|]. rewrite Ev. cbn [obind]. destruct (Z.eqb_spec v 0); [lia|]. apply IH; lia. }
  apply H; lia.
Qed.
Lemma fresh_survives k ks : forall f a, rolling_ok f -> 0 <= a -> fresh f k a ->
  a * nEntriesPerGeneration f + nEntriesThisGeneration f + Z.of_nat (length ks) <= 3 * nEntriesPerGeneration f ->
  exists f', insert_all f ks = Some f' /\ rolling_contains f' k = Some true.
Proof.
  induction ks as [|k' ks IH]; intros f a Ok Ha Fr Hl; cbn [insert_all]; [exists f; split; [done|by eapply fresh_contained]|].
  destruct (rolling_insert_spec f k' Ok) as (f1 & -> & Ok1 & S1 & _ & Step). cbn [obind length] in *. pose proof (ro_entries _ Ok) as [He H1]. pose proof (ss_limit _ _ S1) as Lm.
  destruct (Z.eqb_spec (nEntriesThisGeneration f) (nEntriesPerGeneration f)) as [E|E]; destruct Step as [Cn Step].
  - assert (a <= 1) by nia. apply (IH f1 (a + 1)); [done|lia|by apply Step|]. rewrite Lm, Cn. lia.
  - apply (IH f1 a); [done|done|by apply Step|]. rewrite Lm, Cn. lia.
Qed.

(** C29: the rolling filter contains each of the last [nElements] keys inserted, whatever was
    inserted before and however its words overlap: insertions never fail, and a key is only
    forgotten once two whole generations of [(nElements + 1) / 2] further keys have been
    inserted. *)
Theorem rolling_filter_remembers (f : CRollingBloomFilter) (nElements tweak : Z) (before after : list (list Z)) (k : list Z) :
  rb_data f <> [] -> nEntriesPerGeneration f = (nElements + 1) / 2 -> 0 < nElements -> Z.of_nat (length after) <= 2 * nEntriesPerGeneration f ->
  nElements <= 2 * nEntriesPerGeneration f /\
  exists f', insert_all (rolling_reset f tweak) (before ++ k :: after) = Some f' /\ rolling_contains f' k = Some true.
Proof.
  intros N E0 Hn Ha. assert (Hd : nElements <= 2 * nEntriesPerGeneration f) by (rewrite E0; pose proof (Z.div_mod (nElements + 1) 2 ltac:(lia)); pose proof (Z.mod_pos_bound (nElements + 1) 2 ltac:(lia)); lia).
  split; [done|]. assert (Ok : rolling_ok (rolling_reset f tweak)) by (split; cbn; [by destruct (rb_data f)|lia|lia]).
  destruct (insert_all_total before _ Ok) as (f1 & E1 & Ok1 & S1). destruct (rolling_insert_spec f1 k Ok1) as (f2 & E2 & Ok2 & S2 & Fr & _).
  rewrite (insert_all_app _ _ _ _ E1). cbn [insert_all]. rewrite E2. cbn [obind]. apply (fresh_survives k after f2 0); [done|lia|done|].
  pose proof (ro_entries _ Ok2) as [He _]. pose proof (ss_limit _ _ S2) as L2. pose proof (ss_limit _ _ S1) as L1. cbn in L1. lia.
Qed.
Definition rolling_example : CRollingBloomFilter := mkRolling 2 0 1 [7; 8] 0 3.
Lemma rolling_filter_remembers_witness :
  4 <= 2 * nEntriesPerGeneration rolling_example /\
  (f <- insert_all (rolling_reset rolling_example 5) [[1]; [2]; [3]; [4]; [5]; [6]];; rolling_contains f [3]) = Some true /\
  exists f', insert_all (rolling_reset rolling_example 5) ([[1]; [2]] ++ [3] :: [[4]; [5]; [6]]) = Some f' /\ rolling_contains f' [3] = Some true.
Proof.
  destruct (rolling_filter_remembers rolling_example 4 5 [[1]; [2]] [[4]; [5]; [6]] [3] ltac:(discriminate) eq_refl eq_refl ltac:(cbn; lia)) as [H1 H2].
  split; [exact H1|]. split; [vm_compute; reflexivity|exact H2].
Defined.
