(* ===== verification/TxVerify.v ===== *)
(** Context-independent transaction checks
    (src/consensus/validation.h, src/consensus/tx_verify.cpp,
    src/sapling/sapling_validation.cpp, src/tiertwo/specialtx_validation.cpp,
    src/consensus/zerocoin_verify.cpp). *)
From Stdlib Require Import String.
From Stdlib Require Import ZArith Lia List Bool.
From S2P Require Import Prelude Consensus Serialize Codecs Script Interpreter Transaction.
Import ListNotations.
Local Open Scope Z_scope.
Local Open Scope passion_scope.

(** * Validation state *)

Inductive mode_state := MODE_VALID | MODE_INVALID | MODE_ERROR.

Record CValidationState := mkState {
  mode : mode_state;
  nDoS : Z;
  strRejectReason : string;
  chRejectCode : Z;
  corruptionPossible : bool;
  strDebugMessage : string
}.
Definition CValidationState_default : CValidationState :=
  mkState MODE_VALID 0 EmptyString 0 false EmptyString.

Definition DoS (level : Z) (ret : bool) (chRejectCodeIn : Z) (strRejectReasonIn : string)
    (corruptionIn : bool) (strDebugMessageIn : string) (st : CValidationState)
    : bool * CValidationState :=
  match mode st with
  | MODE_ERROR =>
      (ret, mkState MODE_ERROR (nDoS st) strRejectReasonIn chRejectCodeIn corruptionIn strDebugMessageIn)
  | _ =>
      (ret, mkState MODE_INVALID (i32 (nDoS st + level)) strRejectReasonIn chRejectCodeIn
                    corruptionIn strDebugMessageIn)
  end.
Definition Invalid (ret : bool) (code : Z) (reason debug : string) : CValidationState -> bool * CValidationState :=
  DoS 0 ret code reason false debug.
Definition state_Error (reason : string) (st : CValidationState) : bool * CValidationState :=
  (false, mkState MODE_ERROR (nDoS st)
            (match mode st with MODE_VALID => reason | _ => strRejectReason st end)
            (chRejectCode st) (corruptionPossible st) (strDebugMessage st)).
Definition IsValid (st : CValidationState) : bool :=
  match mode st with MODE_VALID => true | _ => false end.
Definition IsInvalid (st : CValidationState) : bool :=
  match mode st with MODE_INVALID => true | _ => false end.

Definition REJECT_INVALID : Z := 0x10.

(** ** Checks

    A check updates the state and returns its verdict; [None] is a thrown
    exception or a failed assertion. *)

Definition Check := CValidationState -> option (bool * CValidationState).
Definition accept : Check := fun st => Some (true, st).
Definition reject (level : Z) (code : Z) (reason : string) : Check := fun st =>
  Some (DoS level false code reason false EmptyString st).
(** [return state.DoS(level, error(...))] *)
Definition reject_plain (level : Z) : Check := reject level 0 EmptyString.
(** [if (!c) return false; k] *)
Definition and_then (c k : Check) : Check := fun st =>
  '(ok, st) <- c st;; if ok : bool then k st else Some (false, st).
(** [if (!c) return r; k] *)
Definition or_else (c r k : Check) : Check := fun st =>
  '(ok, st) <- c st;; if ok : bool then k st else r st.

(** * sapling_validation.cpp *)

Definition MAX_TX_SIZE_AFTER_SAPLING : Z := 400000.
Definition MAX_ZEROCOIN_TX_SIZE : Z := 150000.
Definition MAX_SPECIALTX_EXTRAPAYLOAD : Z := 10000.
Definition MIN_COLDSTAKING_AMOUNT : Z := 1 * COIN.

Section Checks.
Context {abi : Abi} {crypto : ScriptCrypto}.
Variable consensus : Params.

Definition mem (x : list Z) (l : list (list Z)) : bool := existsb (list_eqb x) l.

(** The nullifiers seen so far are [vSaplingNullifiers]. *)
Fixpoint check_nullifiers (spends : list SpendDescription) (vSaplingNullifiers : list (list Z)) : Check :=
  match spends with
  | [] => accept
  | spend_desc :: spends =>
      if mem (nullifier spend_desc) vSaplingNullifiers
      then reject 100 REJECT_INVALID "bad-spend-description-nullifiers-duplicate"
      else check_nullifiers spends (nullifier spend_desc :: vSaplingNullifiers)
  end.

(** The checks that pass the running value [nValueOut] on return it beside
    the verdict. *)
Definition with_value (nValueOut : Z) (c : Check) (st : CValidationState)
    : option (bool * Z * CValidationState) :=
  '(ok, st) <- c st;; Some (ok, nValueOut, st).

Definition CheckTransactionWithoutProofVerification (tx : CTransaction) (nValueOut : Z)
    (st : CValidationState) : option (bool * Z * CValidationState) :=
  if negb (isSaplingVersion tx) then None else
  match sapData tx with
  | None => None
  | Some d =>
      if empty (vShieldedSpend d) && empty (vShieldedOutput d) && negb (valueBalance d =? 0)
      then with_value nValueOut (reject 100 REJECT_INVALID "bad-txns-valuebalance-nonzero") st
      else if (valueBalance d >? nMaxMoneyOut consensus) || (valueBalance d <? - nMaxMoneyOut consensus)
      then with_value nValueOut (reject 100 REJECT_INVALID "bad-txns-valuebalance-toolarge") st
      else
        let nValueOut' :=
          if valueBalance d <? 0 then i64 (nValueOut + i64 (- valueBalance d)) else nValueOut in
        if (valueBalance d <? 0) && negb (MoneyRange consensus nValueOut')
        then with_value nValueOut' (reject 100 REJECT_INVALID "bad-txns-txouttotal-toolarge") st
        else if (valueBalance d >? 0) && negb (MoneyRange consensus (valueBalance d))
        then with_value nValueOut' (reject 100 REJECT_INVALID "bad-txns-txintotal-toolarge") st
        else with_value nValueOut' (check_nullifiers (vShieldedSpend d) []) st
  end.

(** [SaplingValidation::CheckTransaction] *)
Definition Sapling_CheckTransaction (tx : CTransaction) (nValueOut : Z) (fIsSaplingActive : bool)
    (st : CValidationState) : option (bool * Z * CValidationState) :=
  let hasSaplingData := hasSaplingData tx in
  if negb (isSaplingVersion tx) && hasSaplingData
  then with_value nValueOut (reject 100 REJECT_INVALID "bad-txns-form-not-sapling") st
  else if negb hasSaplingData then with_value nValueOut accept st
  else if IsCoinStake tx || IsCoinBase tx || HasZerocoinSpendInputs tx || HasZerocoinMintOutputs tx
  then with_value nValueOut (reject 100 REJECT_INVALID "bad-txns-invalid-sapling") st
  else if negb fIsSaplingActive
  then with_value nValueOut (reject 100 REJECT_INVALID "bad-txns-invalid-sapling-act") st
  else CheckTransactionWithoutProofVerification tx nValueOut st.

(** * specialtx_validation.cpp *)

Definition CheckSpecialTx (tx : CTransaction) (fIsSaplingActive : bool) : Check :=
  let hasExtraPayload := hasExtraPayload tx in
  if negb fIsSaplingActive then fun st => Some (negb hasExtraPayload, st)
  else if negb (isSaplingVersion tx) && negb (nType tx =? NORMAL)
  then reject 100 REJECT_INVALID "bad-txns-type-version"
  else if nType tx =? NORMAL then
    if hasExtraPayload then reject 100 REJECT_INVALID "bad-txns-type-payload" else accept
  else if negb hasExtraPayload then reject 100 REJECT_INVALID "bad-txns-payload-empty"
  else if match extraPayload tx with
          | Some p => size p >? MAX_SPECIALTX_EXTRAPAYLOAD
          | None => false
          end
  then reject 100 REJECT_INVALID "bad-txns-payload-oversize"
  else reject 10 REJECT_INVALID "bad-tx-type".

(** * zerocoin_verify.cpp *)

(** What [CheckZerocoinSpend] reads of a [libzerocoin::CoinSpend]. *)
Record CoinSpend := mkCoinSpend {
  getDenomination : Z;
  getTxOutHash : list Z;
  getCoinSerialNumber : Z
}.
Definition ZQ_ERROR : Z := 0.
Definition ZerocoinDenominationToInt (denomination : Z) : Z :=
  if existsb (Z.eqb denomination) [1; 5; 10; 50; 100; 500; 1000; 5000] then denomination else 0.
Definition ZerocoinDenominationToAmount (denomination : Z) : Z :=
  COIN * ZerocoinDenominationToInt denomination.

(** The zerocoin library and the chain lookups: [GetOutput] finds the spent
    output, [parseCoinSpend] and [validateInput] are those of [ZPASSIONModule],
    [TxInToZerocoinSpend] may throw. *)
Record ZerocoinEnv := {
  GetOutput : list Z -> Z -> CValidationState -> bool * CTxOut * CValidationState;
  parseCoinSpend : CTxIn -> CTransaction -> CTxOut -> option CoinSpend;
  TxInToZerocoinSpend : CTxIn -> option CoinSpend;
  validateInput : CTxIn -> CTxOut -> CTransaction -> bool
}.
Variable zc : ZerocoinEnv.

(** The coin spend of one input; the inner [None] is a rejection. *)
Definition input_spend (tx : CTransaction) (txin : CTxIn) (isPublicSpend : bool) (st : CValidationState)
    : option (option (CoinSpend * CTxOut) * CValidationState) :=
  if isPublicSpend then
    let '(found, prevOut, st) := GetOutput zc (out_hash (prevout txin)) (out_n (prevout txin)) st in
    if negb found then '(_, st) <- reject_plain 100 st;; Some (None, st)
    else match parseCoinSpend zc txin tx prevOut with
         | None => '(_, st) <- reject_plain 100 st;; Some (None, st)
         | Some publicSpend => Some (Some (publicSpend, prevOut), st)
         end
  else
    newSpend <- TxInToZerocoinSpend zc txin;; Some (Some (newSpend, CTxOut_null), st).

(** The loop over the inputs: the serials met, the total redeemed and whether
    any spend was validated. *)
Fixpoint check_spends (tx : CTransaction) (hashTxOut : list Z) (ins : list CTxIn)
    (serials : list Z) (nTotalRedeemed : Z) (fValidated : bool) (st : CValidationState)
    : option (option (Z * bool) * CValidationState) :=
  match ins with
  | [] => Some (Some (nTotalRedeemed, fValidated), st)
  | txin :: ins =>
      let isPublicSpend := CTxIn_IsZerocoinPublicSpend txin in
      if negb (CTxIn_IsZerocoinSpend txin) && negb isPublicSpend
      then check_spends tx hashTxOut ins serials nTotalRedeemed fValidated st
      else
        '(spend, st) <- input_spend tx txin isPublicSpend st;;
        match spend with
        | None => Some (None, st)
        | Some (newSpend, prevOut) =>
            if (getDenomination newSpend =? ZQ_ERROR)
               || negb (getDenomination newSpend =? nSequence txin)
               || negb (list_eqb (getTxOutHash newSpend) hashTxOut)
               || isPublicSpend && negb (validateInput zc txin prevOut tx)
               || existsb (Z.eqb (getCoinSerialNumber newSpend)) serials
            then '(_, st) <- reject_plain 100 st;; Some (None, st)
            else
              check_spends tx hashTxOut ins (getCoinSerialNumber newSpend :: serials)
                (i64 (nTotalRedeemed + ZerocoinDenominationToAmount (getDenomination newSpend)))
                true st
        end
  end.

Definition CheckZerocoinSpend (tx : CTransaction) (fVerifySignature fFakeSerialAttack : bool) : Check :=
  fun st =>
  let outs := Z.of_nat (length (filter (fun out => negb (CTxOut_IsZerocoinMint out)) (vout tx))) in
  if (Z.of_nat (length (vout tx)) >? 2) && ((outs >? 2) && negb (IsCoinStake tx)) then reject_plain 100 st
  else
    let txTemp := mkTx CURRENT_VERSION NORMAL [] (vout tx) 0 (Some SaplingTxData_default) None in
    let hashTxOut := GetHash txTemp in
    '(res, st) <- check_spends tx hashTxOut (vin tx) [] 0 false st;;
    match res with
    | None => Some (false, st)
    | Some (nTotalRedeemed, fValidated) =>
        if IsCoinStake tx then Some (fValidated, st)
        else
          valueOut <- GetValueOut tx;;
          if nTotalRedeemed <? valueOut then reject_plain 100 st else Some (fValidated, st)
    end.

(** * tx_verify.cpp *)

(** [GetAdjustedTime()] is [adjustedTime]. *)
Definition IsFinalTx (adjustedTime : Z) (tx : CTransaction) (nBlockHeight nBlockTime : Z) : bool :=
  if nLockTime tx =? 0 then true
  else
    let nBlockTime := if nBlockTime =? 0 then adjustedTime else nBlockTime in
    if nLockTime tx <? (if nLockTime tx <? LOCKTIME_THRESHOLD then nBlockHeight else nBlockTime)
    then true
    else forallb IsFinal (vin tx).

(** Add the counts of a list of scripts to an [unsigned int]. *)
Fixpoint add_sigops (counts : list (option Z)) (nSigOps : Z) : option Z :=
  match counts with
  | [] => Some nSigOps
  | c :: counts => c <- c;; add_sigops counts (u32 (nSigOps + c))
  end.
Definition GetLegacySigOpCount (tx : CTransaction) : option Z :=
  nSigOps <- add_sigops (map (fun txin => GetSigOpCount (scriptSig txin) false) (vin tx)) 0;;
  add_sigops (map (fun txout => GetSigOpCount (scriptPubKey txout) false) (vout tx)) nSigOps.

(** [AccessCoin] is the output the view holds for an outpoint. *)
Definition GetP2SHSigOpCount (AccessCoin : COutPoint -> CTxOut) (tx : CTransaction) : option Z :=
  if IsCoinBase tx || HasZerocoinSpendInputs tx then Some 0
  else
    add_sigops
      (map (fun txin =>
              let prev := AccessCoin (prevout txin) in
              if IsPayToScriptHash (scriptPubKey prev)
              then GetSigOpCount_P2SH (scriptPubKey prev) (scriptSig txin) else Some 0) (vin tx)) 0.

(** The loop over the outputs. *)
Fixpoint check_outputs (tx : CTransaction) (fColdStakingActive : bool) (outs : list CTxOut)
    (nValueOut : Z) : Check :=
  match outs with
  | [] => accept
  | txout :: outs =>
      if IsEmpty txout && negb (IsCoinBase tx) && negb (IsCoinStake tx)
      then reject 100 REJECT_INVALID "bad-txns-vout-empty"
      else if nValue txout <? 0 then reject 100 REJECT_INVALID "bad-txns-vout-negative"
      else if nValue txout >? nMaxMoneyOut consensus
      then reject 100 REJECT_INVALID "bad-txns-vout-toolarge"
      else
        let nValueOut := i64 (nValueOut + nValue txout) in
        if negb (MoneyRange consensus nValueOut)
        then reject 100 REJECT_INVALID "bad-txns-txouttotal-toolarge"
        else if IsPayToColdStaking (scriptPubKey txout) && negb fColdStakingActive
        then reject 10 REJECT_INVALID "cold-stake-inactive"
        else if IsPayToColdStaking (scriptPubKey txout) && (nValue txout <? MIN_COLDSTAKING_AMOUNT)
        then reject 100 REJECT_INVALID "cold-stake-vout-toosmall"
        else check_outputs tx fColdStakingActive outs nValueOut
  end.

(** The loop over the inputs: [None] when an outpoint repeats, otherwise the
    number of zerocoin spends. *)
Fixpoint check_duplicates (ins : list CTxIn) (vInOutPoints : list COutPoint) (nZCSpendCount : Z) : option Z :=
  match ins with
  | [] => Some nZCSpendCount
  | txin :: ins =>
      if existsb (COutPoint_eqb (prevout txin)) vInOutPoints then None
      else if negb (CTxIn_IsZerocoinSpend txin)
      then check_duplicates ins (prevout txin :: vInOutPoints) nZCSpendCount
      else check_duplicates ins vInOutPoints
             (if negb (CTxIn_IsZerocoinPublicSpend txin) then nZCSpendCount + 1 else nZCSpendCount)
  end.

(** The block that runs while zerocoins are active; [fVerifySignature] is the
    condition on the age of the tip. *)
Definition check_zerocoins (tx : CTransaction) (fVerifySignature fFakeSerialAttack : bool) (nZCSpendCount : Z)
    : Check :=
  if nZCSpendCount >? ZC_MaxSpendsPerTx consensus then reject_plain 100
  else if HasZerocoinSpendInputs tx then
    if existsb (fun i => negb (CTxIn_IsZerocoinSpend i) && negb (CTxIn_IsZerocoinPublicSpend i)) (vin tx)
    then reject_plain 100
    else or_else (CheckZerocoinSpend tx fVerifySignature fFakeSerialAttack) (reject_plain 100) accept
  else accept.

(** The last checks, by kind of transaction. *)
Definition check_inputs_by_kind (tx : CTransaction) (fZerocoinActive : bool) : Check :=
  if IsCoinBase tx then
    match vin tx with
    | txin :: _ =>
        if (size (scriptSig txin) <? 2) || (size (scriptSig txin) >? 150)
        then reject 100 REJECT_INVALID "bad-cb-length" else accept
    | [] => accept
    end
  else if fZerocoinActive && HasZerocoinSpendInputs tx then
    if Z.of_nat (length (vin tx)) <? 1 then reject 10 REJECT_INVALID "bad-zc-spend-min-inputs"
    else if i32 (Z.of_nat (length (vin tx))) >?
            (if HasZerocoinPublicSpendInputs tx then ZC_MaxPublicSpendsPerTx consensus
             else ZC_MaxSpendsPerTx consensus)
    then reject 10 REJECT_INVALID "bad-zc-spend-max-inputs"
    else accept
  else if existsb (fun txin => COutPoint_IsNull (prevout txin)
                               && (fZerocoinActive && negb (CTxIn_IsZerocoinSpend txin))) (vin tx)
  then reject 10 REJECT_INVALID "bad-txns-prevout-null"
  else accept.

Definition spends_empty (tx : CTransaction) : bool :=
  match sapData tx with Some d => empty (vShieldedSpend d) | None => false end.
Definition outputs_empty (tx : CTransaction) : bool :=
  match sapData tx with Some d => empty (vShieldedOutput d) | None => false end.

(** [CheckTransaction]; [fVerifySignature] stands for
    [!IsInitialBlockDownload() && GetTime() - tip time < 24h], which only
    [CheckZerocoinSpend] receives. *)
Definition CheckTransaction (tx : CTransaction) (fZerocoinActive fVerifySignature : bool)
    (fFakeSerialAttack fColdStakingActive fSaplingActive : bool) : Check := fun st =>
  if empty (vin tx) && spends_empty tx then reject 10 REJECT_INVALID "bad-txns-vin-empty" st
  else if empty (vout tx) && outputs_empty tx then reject 10 REJECT_INVALID "bad-txns-vout-empty" st
  else if fSaplingActive && ((nVersion tx <? 1) || (nVersion tx >=? TOOHIGH))
  then reject 10 REJECT_INVALID "bad-tx-version-too-high" st
  else
    let nMaxSize := if IsShieldedTx tx then MAX_TX_SIZE_AFTER_SAPLING else MAX_ZEROCOIN_TX_SIZE in
    if GetTotalSize tx >? nMaxSize then reject 10 REJECT_INVALID "bad-txns-oversize" st
    else
      '(ok, nValueOut, st) <- Sapling_CheckTransaction tx 0 fSaplingActive st;;
      if negb ok then Some (false, st)
      else
        and_then (CheckSpecialTx tx fSaplingActive)
        (and_then (check_outputs tx fColdStakingActive (vout tx) nValueOut)
        (match check_duplicates (vin tx) [] 0 with
         | None => reject 100 REJECT_INVALID "bad-txns-inputs-duplicate"
         | Some nZCSpendCount =>
             and_then (if fZerocoinActive
                       then check_zerocoins tx fVerifySignature fFakeSerialAttack nZCSpendCount
                       else accept)
                      (check_inputs_by_kind tx fZerocoinActive)
         end)) st.
Definition CheckPublicCoinSpendEnforced (blockHeight : Z) (isPublicSpend : bool) : bool :=
  if NetworkUpgradeActive consensus blockHeight UPGRADE_ZC_PUBLIC then isPublicSpend else negb isPublicSpend.
End Checks.

(** * What an accepted transaction satisfies *)

Section Accepted.
Context {abi : Abi} {crypto : ScriptCrypto}.
Variables (consensus : Params) (zc : ZerocoinEnv).

Lemma reject_true level code reason st st' : reject level code reason st = Some (true, st') -> False.
Proof. unfold reject, DoS. destruct (mode st); discriminate. Qed.
Lemma accept_true st st' : accept st = Some (true, st') -> st' = st.
Proof. unfold accept. congruence. Qed.
Lemma and_then_true c k st st' :
  and_then c k st = Some (true, st') ->
  exists st1, c st = Some (true, st1) /\ k st1 = Some (true, st').
Proof.
  unfold and_then. intros ([ok st1] & Hc & H)%obind_Some. destruct ok; [|discriminate]. eauto.
Qed.
Lemma with_value_true v c st v' st' :
  with_value v c st = Some (true, v', st') -> v' = v /\ c st = Some (true, st').
Proof. unfold with_value. intros ([ok st1] & Hc & H)%obind_Some. injection H as -> <- <-. auto. Qed.

(** Go through the early returns of an accepting run. *)
Ltac accepted H :=
  repeat (match type of H with
          | (if ?b then _ else _) = _ => destruct b eqn:?
          | (if ?b then _ else _) _ = _ => destruct b eqn:?
          end; try (exfalso; (apply reject_true in H || (apply with_value_true in H as [_ H];
                      apply reject_true in H)); exact H)).

Lemma mem_In x l : mem x l = true <-> In x l.
Proof.
  unfold mem. rewrite existsb_exists. split.
  - intros (y & Hy & E). apply list_eqb_eq in E. now subst.
  - intros H. exists x. split; [assumption|]. now apply list_eqb_eq.
Qed.

Lemma check_nullifiers_true spends : forall seen st st',
  NoDup seen -> check_nullifiers spends seen st = Some (true, st') ->
  NoDup (rev (map nullifier spends) ++ seen) /\ st' = st.
Proof.
  induction spends as [|d spends IH]; intros seen st st' Hs H; cbn [check_nullifiers map rev app] in *.
  - apply accept_true in H. auto.
  - accepted H. rewrite <- app_assoc. apply IH; [|assumption].
    constructor; [|assumption]. intros Hin. apply mem_In in Hin. congruence.
Qed.

(** The shielded value leaving the transparent pool. *)
Definition shielded_out (tx : CTransaction) : Z :=
  match sapData tx with Some d => Z.max 0 (- valueBalance d) | None => 0 end.
Definition shielded_in (tx : CTransaction) : Z :=
  match sapData tx with Some d => Z.max 0 (valueBalance d) | None => 0 end.
Definition balance_ok (tx : CTransaction) : Prop :=
  forall d, sapData tx = Some d -> - 2 ^ 63 <= valueBalance d < 2 ^ 63.
Definition nullifiers (tx : CTransaction) : list (list Z) :=
  match sapData tx with Some d => map nullifier (vShieldedSpend d) | None => [] end.

Lemma hasSaplingData_false tx :
  hasSaplingData tx = false ->
  match sapData tx with
  | Some d => valueBalance d = 0 /\ vShieldedSpend d = [] /\ vShieldedOutput d = []
  | None => True
  end.
Proof.
  unfold hasSaplingData. destruct (sapData tx) as [d|]; [|trivial].
  rewrite !orb_false_iff, !negb_false_iff, Z.eqb_eq. intros [[[H1 H2] H3] _].
  destruct (vShieldedOutput d), (vShieldedSpend d); try discriminate. auto.
Qed.

Definition money_bound : Prop := 0 <= nMaxMoneyOut consensus < 2 ^ 62.

(** The shielded part of an accepted transaction. *)
Definition sapling_valid (tx : CTransaction) : Prop :=
  0 <= shielded_out tx <= nMaxMoneyOut consensus /\ NoDup (nullifiers tx) /\
  (hasSaplingData tx = true -> isSaplingVersion tx = true) /\
  (forall d, sapData tx = Some d -> valueBalance d <= nMaxMoneyOut consensus).

Lemma without_proofs_true tx st v st' :
  money_bound -> balance_ok tx ->
  CheckTransactionWithoutProofVerification consensus tx 0 st = Some (true, v, st') ->
  v = shielded_out tx /\ st' = st /\ sapling_valid tx.
Proof.
  unfold money_bound, balance_ok. intros Hm Hb H. unfold CheckTransactionWithoutProofVerification in H.
  destruct (isSaplingVersion tx) eqn:EV; cbn [negb] in H; [|discriminate].
  unfold sapling_valid, shielded_out, nullifiers. destruct (sapData tx) as [d|] eqn:Ed; [|discriminate].
  specialize (Hb d eq_refl). accepted H. breflect.
  apply with_value_true in H as [Hv H]. apply check_nullifiers_true in H as [Hn Hst]; [|constructor].
  rewrite app_nil_r in Hn. apply NoDup_rev in Hn. rewrite rev_involutive in Hn.
  assert (v = Z.max 0 (- valueBalance d)).
  { rewrite Hv. destruct (Z.ltb_spec (valueBalance d) 0); [|lia]. rewrite (i64_small (- valueBalance d)), i64_small; lia. }
  repeat split; auto; try lia. intros d' [= <-]. lia.
Qed.

Lemma Sapling_CheckTransaction_true tx active st v st' :
  money_bound -> balance_ok tx ->
  Sapling_CheckTransaction consensus tx 0 active st = Some (true, v, st') ->
  v = shielded_out tx /\ st' = st /\ sapling_valid tx.
Proof.
  intros Hm Hb H. unfold Sapling_CheckTransaction in H. accepted H.
  - apply with_value_true in H as [-> H]. apply accept_true in H.
    unfold sapling_valid, shielded_out, nullifiers. breflect.
    pose proof (hasSaplingData_false tx ltac:(assumption)) as Hf. unfold money_bound in Hm.
    destruct (sapData tx) as [d|];
      [destruct Hf as (Hv & Hs & _); rewrite Hv, Hs; cbn [map]|];
      repeat split; auto; try lia; try apply NoDup_nil; try congruence.
    intros d' [= <-]. lia.
  - now apply without_proofs_true.
Qed.

(** ** Outputs *)

Definition output_valid (tx : CTransaction) (fColdStakingActive : bool) (o : CTxOut) : Prop :=
  0 <= nValue o <= nMaxMoneyOut consensus /\
  (IsEmpty o = true -> IsCoinBase tx = true \/ IsCoinStake tx = true) /\
  (IsPayToColdStaking (scriptPubKey o) = true ->
     fColdStakingActive = true /\ MIN_COLDSTAKING_AMOUNT <= nValue o).

Lemma check_outputs_true tx cold outs : forall v st st',
  money_bound -> 0 <= v <= nMaxMoneyOut consensus ->
  check_outputs consensus tx cold outs v st = Some (true, st') ->
  Forall (output_valid tx cold) outs /\ v + total outs <= nMaxMoneyOut consensus /\ st' = st.
Proof.
  unfold money_bound, total.
  induction outs as [|o outs IH]; intros v st st' Hm Hv H; cbn [check_outputs fold_right] in *.
  - apply accept_true in H. repeat split; auto; lia.
  - accepted H. breflect. rewrite i64_small in * by lia. unfold MoneyRange in *. breflect.
    apply IH in H as (Ho & Ht & ->); [|lia..]. repeat split; [|lia].
    constructor; [|assumption]. unfold output_valid. split; [lia|]. split.
    + intros He. rewrite He in *. destruct (IsCoinBase tx); [auto|]. destruct (IsCoinStake tx); [auto|discriminate].
    + intros Hc. rewrite Hc in *. destruct cold; [|discriminate]. split; [reflexivity|].
      cbn [andb] in *. breflect. lia.
Qed.

(** ** Inputs *)

Definition plain_prevouts (ins : list CTxIn) : list COutPoint :=
  map prevout (filter (fun i => negb (CTxIn_IsZerocoinSpend i)) ins).

Lemma existsb_outpoint o l : existsb (COutPoint_eqb o) l = true <-> In o l.
Proof.
  rewrite existsb_exists. split.
  - intros (y & Hy & E). apply COutPoint_eqb_eq in E. now subst.
  - intros H. exists o. split; [assumption|]. now apply COutPoint_eqb_eq.
Qed.

Lemma check_duplicates_Some ins : forall seen k n,
  NoDup seen -> check_duplicates ins seen k = Some n -> NoDup (rev (plain_prevouts ins) ++ seen).
Proof.
  unfold plain_prevouts.
  induction ins as [|i ins IH]; intros seen k n Hs H; cbn [check_duplicates filter map] in *; [assumption|].
  destruct (existsb _ seen) eqn:E; [discriminate|].
  destruct (CTxIn_IsZerocoinSpend i); cbn [negb map rev] in *; [now apply IH in H|].
  rewrite <- app_assoc. eapply IH; [|eassumption].
  constructor; [|assumption]. intros Hin. apply existsb_outpoint in Hin. congruence.
Qed.

Definition kind_valid (tx : CTransaction) (fZerocoinActive : bool) : Prop :=
  (IsCoinBase tx = true -> forall txin, In txin (vin tx) -> 2 <= size (scriptSig txin) <= 150) /\
  (IsCoinBase tx = false -> fZerocoinActive = true -> HasZerocoinSpendInputs tx = false ->
     forall txin, In txin (vin tx) -> COutPoint_IsNull (prevout txin) = false).

Lemma no_spend_input tx txin :
  HasZerocoinSpendInputs tx = false -> In txin (vin tx) -> CTxIn_IsZerocoinSpend txin = false.
Proof.
  unfold HasZerocoinSpendInputs. intros H Hin. destruct (CTxIn_IsZerocoinSpend txin) eqn:E; [|reflexivity].
  rewrite <- H. symmetry. apply existsb_exists. exists txin. now rewrite E.
Qed.

Lemma check_inputs_by_kind_true tx zact st st' :
  check_inputs_by_kind consensus tx zact st = Some (true, st') -> kind_valid tx zact.
Proof.
  unfold check_inputs_by_kind, kind_valid. intros H. destruct (IsCoinBase tx) eqn:EC.
  - split; [|discriminate]. intros _ txin Hin. unfold IsCoinBase in EC.
    destruct (vin tx) as [|i [|]]; try discriminate. destruct Hin as [<-|[]].
    accepted H. breflect. lia.
  - split; [discriminate|]. intros _ -> HZ. rewrite HZ in H. cbn [andb] in H.
    accepted H. intros txin Hin. destruct (COutPoint_IsNull (prevout txin)) eqn:EN; [|reflexivity].
    rewrite <- Heqb. symmetry. apply existsb_exists. exists txin. split; [assumption|].
    now rewrite EN, (no_spend_input tx txin).
Qed.

Lemma check_zerocoins_true tx vs fake n st st' :
  check_zerocoins consensus zc tx vs fake n st = Some (true, st') ->
  n <= ZC_MaxSpendsPerTx consensus /\
  (HasZerocoinSpendInputs tx = true -> forall txin, In txin (vin tx) ->
     CTxIn_IsZerocoinSpend txin = true \/ CTxIn_IsZerocoinPublicSpend txin = true).
Proof.
  unfold check_zerocoins. intros H. accepted H; breflect; (split; [lia|]); [|congruence].
  intros _ txin Hin.
  destruct (CTxIn_IsZerocoinSpend txin) eqn:E1; [auto|].
  destruct (CTxIn_IsZerocoinPublicSpend txin) eqn:E2; [auto|].
  exfalso. enough (true = false) by discriminate. rewrite <- Heqb1. symmetry. apply existsb_exists.
  exists txin. now rewrite E1, E2.
Qed.

(** ** The whole check *)

Lemma CheckTransaction_true tx zact vs fake cold sact st st' :
  money_bound -> balance_ok tx ->
  CheckTransaction consensus zc tx zact vs fake cold sact st = Some (true, st') ->
  sapling_valid tx /\
  Forall (output_valid tx cold) (vout tx) /\
  shielded_out tx + total (vout tx) <= nMaxMoneyOut consensus /\
  GetTotalSize tx <= (if IsShieldedTx tx then MAX_TX_SIZE_AFTER_SAPLING else MAX_ZEROCOIN_TX_SIZE) /\
  NoDup (plain_prevouts (vin tx)) /\ kind_valid tx zact /\
  (zact = true -> HasZerocoinSpendInputs tx = true -> forall txin, In txin (vin tx) ->
     CTxIn_IsZerocoinSpend txin = true \/ CTxIn_IsZerocoinPublicSpend txin = true).
Proof.
  intros Hm Hb H. unfold CheckTransaction in H. cbv zeta in H. accepted H. breflect.
  apply obind_Some in H as ([[ok v] st1] & HS & H). destruct ok; [|discriminate].
  apply Sapling_CheckTransaction_true in HS as (-> & -> & HV); [|assumption..].
  cbn [negb] in H. apply and_then_true in H as (st1 & _ & H). apply and_then_true in H as (st2 & HO & H).
  apply check_outputs_true in HO as (HO & Ht & ->); [|assumption|apply HV].
  destruct (check_duplicates (vin tx) [] 0) as [n|] eqn:ED; [|now apply reject_true in H].
  apply check_duplicates_Some in ED; [|constructor]. rewrite app_nil_r in ED.
  apply NoDup_rev in ED. rewrite rev_involutive in ED.
  apply and_then_true in H as (st2 & HZ & H). apply check_inputs_by_kind_true in H.
  repeat (split; [assumption|]). intros ->. now apply check_zerocoins_true in HZ as [_ HZ].
Qed.
End Accepted.

(** * Totality: the assertion of the shielded check is never reached with an old version. *)

Create HintDb checks.

Section Total.
Context {abi : Abi} {crypto : ScriptCrypto}.
Variables (consensus : Params) (zc : ZerocoinEnv).

Definition returns {A} (o : option A) : Prop := exists x, o = Some x.

Lemma returns_reject level code reason st : returns (reject level code reason st).
Proof. now eexists. Qed.
Lemma returns_accept st : returns (accept st).
Proof. now eexists. Qed.
Lemma returns_and_then c k st :
  (forall st, returns (c st)) -> (forall st, returns (k st)) -> returns (and_then c k st).
Proof.
  intros Hc Hk. unfold and_then. destruct (Hc st) as [[[] st1] ->]; cbn [obind]; [apply Hk | now eexists].
Qed.
Lemma returns_with_value v c st : returns (c st) -> returns (with_value v c st).
Proof. intros [[ok st'] E]. unfold with_value. rewrite E. now eexists. Qed.
Lemma returns_if {A} (b : bool) (x y : option A) : returns x -> returns y -> returns (if b then x else y).
Proof. now destruct b. Qed.
Lemma returns_if_check (b : bool) (x y : Check) st :
  returns (x st) -> returns (y st) -> returns ((if b then x else y) st).
Proof. now destruct b. Qed.
Hint Resolve returns_reject returns_accept returns_and_then returns_with_value returns_if returns_if_check : checks.

Lemma returns_nullifiers spends : forall seen st, returns (check_nullifiers spends seen st).
Proof. induction spends; intros seen st; cbn; auto with checks. Qed.
Lemma returns_outputs tx cold outs : forall v st, returns (check_outputs consensus tx cold outs v st).
Proof. induction outs; intros v st; cbn; auto 12 with checks. Qed.
Lemma returns_by_kind tx zact st : returns (check_inputs_by_kind consensus tx zact st).
Proof. unfold check_inputs_by_kind. destruct (vin tx); auto 12 with checks. Qed.
Lemma returns_special tx sact st : returns (CheckSpecialTx tx sact st).
Proof. unfold CheckSpecialTx. destruct sact; [|now eexists]. cbn [negb]. auto 12 with checks. Qed.
Hint Resolve returns_nullifiers returns_outputs returns_by_kind returns_special : checks.

Lemma returns_sapling tx v sact st : returns (Sapling_CheckTransaction consensus tx v sact st).
Proof.
  unfold Sapling_CheckTransaction. destruct (isSaplingVersion tx) eqn:EV; cbn [negb andb].
  2: { destruct (hasSaplingData tx); cbn [negb]; auto with checks. }
  destruct (hasSaplingData tx) eqn:EH; cbn [negb]; [|auto with checks].
  apply returns_if; [auto with checks|]. apply returns_if; [auto with checks|].
  unfold CheckTransactionWithoutProofVerification. rewrite EV. cbn [negb].
  unfold hasSaplingData in EH. destruct (sapData tx); [|discriminate]. auto 12 with checks.
Qed.

Lemma returns_CheckTransaction tx vs fake cold sact st :
  returns (CheckTransaction consensus zc tx false vs fake cold sact st).
Proof.
  unfold CheckTransaction. cbv zeta. repeat (apply returns_if; [auto with checks|]).
  destruct (returns_sapling tx 0 sact st) as [[[ok v] st1] ->]. cbn [obind].
  apply returns_if; [now eexists|].
  destruct (check_duplicates (vin tx) [] 0); auto 12 with checks.
Qed.
End Total.

(** The amounts of a transaction whose parts are in range. *)
Lemma amounts_exact {abi : Abi} {crypto : ScriptCrypto} consensus tx cold :
  money_bound consensus -> balance_ok tx -> sapling_valid consensus tx -> Forall (output_valid consensus tx cold) (vout tx) ->
  shielded_out tx + total (vout tx) <= nMaxMoneyOut consensus ->
  GetValueOut tx = Some (total (vout tx) + shielded_out tx) /\
  0 <= total (vout tx) + shielded_out tx <= nMaxMoneyOut consensus /\
  GetShieldedValueIn tx = Some (shielded_in tx) /\ 0 <= shielded_in tx <= nMaxMoneyOut consensus.
Proof.
  intros Hm Hb HS HO Ht.
  destruct HS as (Hs & _ & Hver & Hin). unfold money_bound in Hm.
  assert (Hpos : Forall (fun o => 0 <= nValue o) (vout tx)).
  { eapply Forall_impl; [|exact HO]. intros o [H _]. lia. }
  pose proof (total_nonneg _ Hpos).
  assert (Hval : Forall value_ok (vout tx)).
  { eapply Forall_impl; [|exact HO]. intros o [? _]. unfold value_ok. lia. }
  unfold GetValueOut, GetShieldedValueIn. rewrite value_out_loop_spec by (auto; lia).
  replace (forallb (fun o => 0 <=? nValue o) (vout tx)) with true.
  2: { symmetry. apply forallb_forall. intros o Ho. rewrite Forall_forall in Hpos. specialize (Hpos o Ho). lia. }
  cbn [andb]. destruct (Z.ltb_spec (0 + total (vout tx)) (2 ^ 63)); [|lia]. cbn [obind].
  unfold shielded_out, shielded_in, balance_ok in *.
  pose proof (hasSaplingData_false tx) as Hf.
  destruct (sapData tx) as [d|]; [|repeat split; try lia; f_equal; lia].
  specialize (Hb d eq_refl). specialize (Hin d eq_refl).
  destruct (hasSaplingData tx); cbn [andb].
  - rewrite Hver by reflexivity. cbn [negb]. split; [|split; [lia|]].
    + destruct (Z.ltb_spec (valueBalance d) 0); f_equal; [|lia].
      rewrite (i64_small (- valueBalance d)), i64_small; lia.
    + rewrite Z.gtb_ltb. destruct (Z.ltb_spec 0 (valueBalance d)); (split; [f_equal|]; lia).
  - destruct (Hf eq_refl) as [-> _]. repeat split; try lia; f_equal; lia.
Qed.
(** The amounts of an accepted transaction, exact and in range. *)
Lemma CheckTransaction_amounts {abi : Abi} {crypto : ScriptCrypto} consensus zc tx zact vs fake cold sact st st' :
  money_bound consensus -> balance_ok tx ->
  CheckTransaction consensus zc tx zact vs fake cold sact st = Some (true, st') ->
  Forall (output_valid consensus tx cold) (vout tx) /\
  GetValueOut tx = Some (total (vout tx) + shielded_out tx) /\
  0 <= total (vout tx) + shielded_out tx <= nMaxMoneyOut consensus /\
  GetShieldedValueIn tx = Some (shielded_in tx) /\ 0 <= shielded_in tx <= nMaxMoneyOut consensus.
Proof.
  intros Hm Hb H. apply CheckTransaction_true in H as (HS & HO & Ht & _); [|assumption..].
  split; [assumption|]. now apply amounts_exact with (cold := cold).
Qed.

(** ** Totality while zerocoins are active *)

Section TotalZerocoin.
Context {abi : Abi} {crypto : ScriptCrypto}.
Variables (consensus : Params) (zc : ZerocoinEnv).

(** Every private zerocoin spend can be deserialized ([TxInToZerocoinSpend] throws otherwise). *)
Definition spends_readable (tx : CTransaction) : Prop :=
  forall txin, In txin (vin tx) -> CTxIn_IsZerocoinSpend txin = true -> CTxIn_IsZerocoinPublicSpend txin = false ->
  TxInToZerocoinSpend zc txin <> None.

Lemma returns_input_spend tx txin st : (CTxIn_IsZerocoinPublicSpend txin = false -> TxInToZerocoinSpend zc txin <> None) ->
  returns (input_spend zc tx txin (CTxIn_IsZerocoinPublicSpend txin) st).
Proof.
  intros H. unfold input_spend, reject_plain, reject, DoS. destruct (CTxIn_IsZerocoinPublicSpend txin).
  - destruct (GetOutput zc _ _ st) as [[found prevOut] st1].
    destruct found; cbn [negb]; [destruct (parseCoinSpend zc txin tx prevOut); [now eexists|]|]; destruct (mode st1); now eexists.
  - destruct (TxInToZerocoinSpend zc txin); [now eexists|]. now destruct (H eq_refl).
Qed.
Lemma returns_spends tx h ins : forall serials total_ valid st,
  (forall txin, In txin ins -> CTxIn_IsZerocoinSpend txin = true -> CTxIn_IsZerocoinPublicSpend txin = false ->
     TxInToZerocoinSpend zc txin <> None) ->
  returns (check_spends zc tx h ins serials total_ valid st).
Proof.
  induction ins as [|txin ins IH]; intros serials total_ valid st H; cbn [check_spends]; [now eexists|].
  assert (IH' := fun a b c d => IH a b c d (fun i Hi => H i (or_intror Hi))).
  destruct (_ && _) eqn:E; [apply IH'|].
  destruct (returns_input_spend tx txin st) as [[[[sp o]|] st1] ->]; cbn [obind].
  - intros Hp. apply (H txin (or_introl eq_refl)); [|assumption]. rewrite Hp in E. now destruct (CTxIn_IsZerocoinSpend txin).
  - unfold reject_plain, reject, DoS. destruct (_ || _); [destruct (mode st1); now eexists|apply IH'].
  - now eexists.
Qed.
Lemma returns_zerocoins tx vs fake n v st : spends_readable tx -> GetValueOut tx = Some v ->
  returns (check_zerocoins consensus zc tx vs fake n st).
Proof.
  intros H Hv. unfold check_zerocoins. apply returns_if_check; [apply returns_reject|].
  apply returns_if_check; [|apply returns_accept]. apply returns_if_check; [apply returns_reject|].
  assert (Z : returns (CheckZerocoinSpend zc tx vs fake st)).
  { unfold CheckZerocoinSpend. cbv zeta. apply returns_if; [apply returns_reject|].
    destruct (returns_spends tx (GetHash (mkTx CURRENT_VERSION NORMAL [] (vout tx) 0 (Some SaplingTxData_default) None))
      (vin tx) [] 0 false st H) as [[[[t b]|] st1] ->]; cbn [obind]; [|now eexists].
    apply returns_if; [now eexists|]. rewrite Hv. cbn [obind]. apply returns_if; [apply returns_reject|now eexists]. }
  unfold or_else. destruct Z as [[[] st1] ->]; cbn [obind]; [apply returns_accept|apply returns_reject].
Qed.
Lemma returns_CheckTransaction_any tx zact vs fake cold sact st : money_bound consensus -> balance_ok tx ->
  (zact = true -> spends_readable tx) -> returns (CheckTransaction consensus zc tx zact vs fake cold sact st).
Proof.
  intros Hm Hb Hz. destruct zact; [specialize (Hz eq_refl)|apply returns_CheckTransaction].
  unfold CheckTransaction. cbv zeta. repeat (apply returns_if; [apply returns_reject|]).
  destruct (returns_sapling consensus tx 0 sact st) as [[[ok v] st1] E]. rewrite E. cbn [obind].
  destruct ok; cbn [negb]; [|now eexists]. apply Sapling_CheckTransaction_true in E as (-> & -> & HS); [|assumption..].
  unfold and_then at 1. destruct (returns_special tx sact st) as [[[] st1] ->]; cbn [obind]; [|now eexists].
  unfold and_then at 1. destruct (returns_outputs consensus tx cold (vout tx) (shielded_out tx) st1) as [[[] st2] EO];
    rewrite EO; cbn [obind]; [|now eexists].
  apply check_outputs_true in EO as (HO & Ht & ->); [|assumption|apply HS].
  destruct (amounts_exact consensus tx cold Hm Hb HS HO Ht) as [Hv _].
  destruct (check_duplicates (vin tx) [] 0) as [n|]; [|apply returns_reject].
  unfold and_then. destruct (returns_zerocoins tx vs fake n _ st1 Hz Hv) as [[[] st3] ->]; cbn [obind];
    [apply returns_by_kind|now eexists].
Qed.
End TotalZerocoin.


(** A zerocoin library that recognises nothing. *)
Definition no_zerocoin : ZerocoinEnv := {|
  GetOutput := fun _ _ st => (false, CTxOut_null, st);
  parseCoinSpend := fun _ _ _ => None;
  TxInToZerocoinSpend := fun _ => None;
  validateInput := fun _ _ _ => false |}.
Definition ex_state := CValidationState_default.


(** An accepted transaction spends nothing twice by itself: the outpoints of
    its inputs (zerocoin spends apart, which have none) are pairwise different,
    and so are the nullifiers of its shielded spends; it is within the size limit
    of its kind, a coinbase carries 2 to 150 bytes, and while zerocoins are active
    a transaction mixes no zerocoin spends with other inputs and, without them,
    has no null outpoint. *)
Theorem CheckTransaction_inputs {abi : Abi} {crypto : ScriptCrypto} consensus zc tx zact vs fake cold sact st st' :
  0 <= nMaxMoneyOut consensus < 2 ^ 62 -> balance_ok tx ->
  CheckTransaction consensus zc tx zact vs fake cold sact st = Some (true, st') ->
  NoDup (plain_prevouts (vin tx)) /\ NoDup (nullifiers tx) /\
  GetTotalSize tx <= (if IsShieldedTx tx then MAX_TX_SIZE_AFTER_SAPLING else MAX_ZEROCOIN_TX_SIZE) /\
  (IsCoinBase tx = true -> forall txin, In txin (vin tx) -> 2 <= size (scriptSig txin) <= 150) /\
  (zact = true -> forall txin, In txin (vin tx) ->
     if HasZerocoinSpendInputs tx
     then CTxIn_IsZerocoinSpend txin = true \/ CTxIn_IsZerocoinPublicSpend txin = true
     else IsCoinBase tx = true \/ COutPoint_IsNull (prevout txin) = false).
Proof.
  intros Hm Hb H. apply CheckTransaction_true in H as (HS & _ & _ & Hsz & Hdup & [HC HK] & HZ); [|assumption..].
  split; [assumption|]. split; [apply HS|]. split; [assumption|]. split; [assumption|].
  intros Hz txin Hin. destruct (HasZerocoinSpendInputs tx); [now apply HZ|].
  destruct (IsCoinBase tx); [auto|]. right. now apply HK.
Qed.
Lemma CheckTransaction_inputs_witness : NoDup (plain_prevouts (vin ex_tx)).
Proof.
  apply (CheckTransaction_inputs (abi := abi64) (crypto := toy_crypto) ex_params no_zerocoin ex_tx
           true false false false true ex_state ex_state).
  - vm_compute. split; [discriminate | reflexivity].
  - intros d [=].
  - vm_compute. reflexivity.
Defined.

(** The stream of a Sapling transaction without inputs, outputs and shielded data. *)
Definition empty_tx_bytes : list Z := [3; 0; 0; 0; 0; 0; 0; 0; 0; 0; 0].

(** The emptiness checks do not cover a transaction that carries no Sapling
    data: the eleven bytes of a version-3 transaction whose optional Sapling data
    is absent decode to a transaction without any input or output, transparent or
    shielded, and [CheckTransaction] accepts it whatever the flags. *)
Theorem CheckTransaction_accepts_empty {abi : Abi} {crypto : ScriptCrypto} consensus zc zact vs fake cold sact st :
  exists tx, CTransaction_deserialize empty_tx_bytes = Some (tx, []) /\
    vin tx = [] /\ vout tx = [] /\ hasSaplingData tx = false /\
    (0 <= ZC_MaxSpendsPerTx consensus ->
     CheckTransaction consensus zc tx zact vs fake cold sact st = Some (true, st)).
Proof.
  set (tx := mkTx 3 0 [] [] 0 None None).
  assert (Hok : tx_ok tx).
  { unfold tx_ok. cbn. pose proof (eq_refl : MAX_SIZE = 33554432). repeat split; try lia; auto; discriminate. }
  exists tx. split; [|repeat split].
  - change empty_tx_bytes with (SerializeTransaction tx ++ []).
    now apply (Unserialize_Serialize (Serializable := ser_CTransaction)).
  - intros HZ. unfold CheckTransaction.
    change (GetTotalSize tx) with 11. change (vin tx) with (@nil CTxIn). change (vout tx) with (@nil CTxOut).
    change (isSaplingVersion tx) with true. cbn -[check_zerocoins].
    replace (sact && ((3 <? 1) || (3 >=? TOOHIGH)))%bool with false by now destruct sact.
    unfold check_zerocoins. rewrite Z.gtb_ltb. destruct (Z.ltb_spec (ZC_MaxSpendsPerTx consensus) 0); [lia|].
    cbn. destruct sact, zact; reflexivity.
Qed.
Lemma CheckTransaction_accepts_empty_witness :
  exists tx, CTransaction_deserialize (abi := abi64) empty_tx_bytes = Some (tx, []) /\
    vin tx = [] /\ vout tx = [] /\
    CheckTransaction (abi := abi64) (crypto := toy_crypto) ex_params no_zerocoin tx
      true false false true true ex_state = Some (true, ex_state).
Proof.
  destruct (CheckTransaction_accepts_empty (abi := abi64) (crypto := toy_crypto) ex_params no_zerocoin
              true false false true true ex_state) as (tx & Hd & Hi & Ho & _ & H).
  exists tx. repeat split; try assumption. apply H. vm_compute. discriminate.
Defined.
