(* ===== verification/SigHash.v ===== *)
(** Signature hashes and the transaction signature checker
    (src/script/interpreter.cpp from [CTransactionSignatureSerializer] to
    [TransactionSignatureChecker::CheckColdStake], src/pubkey.h;
    [SignatureHashOld] of src/test/sighash_tests.cpp is the reference). *)
From Stdlib Require Import ZArith Lia List Bool.
From S2P Require Import Prelude Serialize Codecs Script Interpreter ScriptTheorems Standard Transaction TxVerify.
Import ListNotations.
Local Open Scope Z_scope.
Local Open Scope passion_scope.

Definition NOT_AN_INPUT : Z := 0xffffffff.
Definition UINT256_ZERO : list Z := repeat 0 32.
Definition UINT256_ONE : list Z := 1 :: repeat 0 31.

(** libsodium's keyed-less BLAKE2b with a personalization string, and
    [CPubKey::Verify] of the elliptic-curve library. *)
Class SigCrypto := {
  BLAKE2b : list Z -> list Z -> list Z;
  Verify : list Z -> list Z -> list Z -> bool;
  BLAKE2b_digest : forall p m, length (BLAKE2b p m) = 32%nat /\ bytes_ok (BLAKE2b p m)
}.

(** * The serializer of the original signature hash *)

Section Serializer.
Context {abi : Abi}.
Variables (txTo : CTransaction) (scriptCode : CScript) (nIn nHashType : Z).

Definition fAnyoneCanPay : bool := negb (Z.land nHashType SIGHASH_ANYONECANPAY =? 0).
Definition fHashSingle : bool := Z.land nHashType 0x1f =? SIGHASH_SINGLE.
Definition fHashNone : bool := Z.land nHashType 0x1f =? SIGHASH_NONE.

(** The first loop of [SerializeScriptCode]; the fuel is the script's length. *)
Fixpoint count_separators (fuel : nat) (it : CScript) (nCodeSeparators : Z) : Z :=
  match fuel, GetOp it with
  | S f, Some (opcode, _, it) =>
      count_separators f it (if opcode =? OP_CODESEPARATOR then nCodeSeparators + 1 else nCodeSeparators)
  | _, _ => nCodeSeparators
  end.
(** The second loop: writes up to each separator; ends with the bytes behind
    the last one up to where [GetOp] stopped. *)
Fixpoint write_code (fuel : nat) (itBegin it : CScript) : list Z :=
  match fuel, GetOp it with
  | S f, Some (opcode, _, it') =>
      if opcode =? OP_CODESEPARATOR
      then firstn (length itBegin - length it' - 1) itBegin ++ write_code f it' it'
      else write_code f itBegin it'
  | _, _ => match itBegin with [] => [] | _ => between itBegin (GetOp_failed it) end
  end.
Definition SerializeScriptCode : list Z :=
  let nCodeSeparators := count_separators (length scriptCode) scriptCode 0 in
  WriteCompactSize (u32 (size scriptCode - nCodeSeparators)) ++
  write_code (length scriptCode) scriptCode scriptCode.

(** [None]: indexing past the end of a vector, or the assertion. *)
Definition SerializeInput (nInput : Z) : option (list Z) :=
  let nInput := if fAnyoneCanPay then nIn else nInput in
  txin <- nth_error (vin txTo) (Z.to_nat nInput);;
  if nInput =? NOT_AN_INPUT then None
  else Some (
    Serialize (prevout txin) ++
    (if negb (nInput =? nIn) then Serialize_bytes [] else SerializeScriptCode) ++
    (if negb (nInput =? nIn) && (fHashSingle || fHashNone)
     then ser_writedata32 0 else ser_writedata32 (nSequence txin))).

Definition SerializeOutput (nOutput : Z) : option (list Z) :=
  if fHashSingle && negb (nOutput =? nIn) then Some (Serialize CTxOut_null)
  else txout <- nth_error (vout txTo) (Z.to_nat nOutput);; Some (Serialize txout).

(** [for (k = from; n items; k++) body(k)] *)
Fixpoint write_range (body : Z -> option (list Z)) (from : Z) (n : nat) : option (list Z) :=
  match n with
  | O => Some []
  | S n => x <- body from;; rest <- write_range body (from + 1) n;; Some (x ++ rest)
  end.

Definition nInputs : Z := if fAnyoneCanPay then 1 else u32 (Z.of_nat (length (vin txTo))).
Definition nOutputs : Z :=
  if fHashNone then 0
  else if fHashSingle then u32 (nIn + 1) else u32 (Z.of_nat (length (vout txTo))).

Definition serializer_Serialize : option (list Z) :=
  ins <- write_range SerializeInput 0 (Z.to_nat nInputs);;
  outs <- write_range SerializeOutput 0 (Z.to_nat nOutputs);;
  Some (Serialize (Serializable := ser_int16) (nVersion txTo) ++
        Serialize (Serializable := ser_int16) (nType txTo) ++
        WriteCompactSize nInputs ++ ins ++
        WriteCompactSize nOutputs ++ outs ++
        Serialize (Serializable := ser_uint32) (nLockTime txTo)).
End Serializer.

(** * The hashes of the Sapling signature hash *)

Definition personal (s : list Z) : list Z := s ++ repeat 0 (16 - length s).
Definition PREVOUTS_HASH_PERSONALIZATION : list Z :=
  personal [0x50; 0x49; 0x56; 0x58; 0x50; 0x72; 0x65; 0x76; 0x6f; 0x75; 0x74; 0x48; 0x61; 0x73; 0x68].
Definition SEQUENCE_HASH_PERSONALIZATION : list Z :=
  personal [0x50; 0x49; 0x56; 0x58; 0x53; 0x65; 0x71; 0x75; 0x65; 0x6e; 0x63; 0x48; 0x61; 0x73; 0x68].
Definition OUTPUTS_HASH_PERSONALIZATION : list Z :=
  personal [0x50; 0x49; 0x56; 0x58; 0x4f; 0x75; 0x74; 0x70; 0x75; 0x74; 0x73; 0x48; 0x61; 0x73; 0x68].
Definition SHIELDED_SPENDS_HASH_PERSONALIZATION : list Z :=
  personal [0x50; 0x49; 0x56; 0x58; 0x53; 0x53; 0x70; 0x65; 0x6e; 0x64; 0x73; 0x48; 0x61; 0x73; 0x68].
Definition SHIELDED_OUTPUTS_HASH_PERSONALIZATION : list Z :=
  personal [0x50; 0x49; 0x56; 0x58; 0x53; 0x4f; 0x75; 0x74; 0x70; 0x75; 0x74; 0x48; 0x61; 0x73; 0x68].
(** Twelve characters of "PassionSigHash" and the branch id 0. *)
Definition SIGHASH_PERSONALIZATION : list Z :=
  [0x50; 0x61; 0x73; 0x73; 0x69; 0x6f; 0x6e; 0x53; 0x69; 0x67; 0x48; 0x61] ++ WriteLE32 0.

Section Hashes.
Context {abi : Abi} {crypto : ScriptCrypto} {sig : SigCrypto}.

Definition GetPrevoutHash (txTo : CTransaction) : list Z :=
  BLAKE2b PREVOUTS_HASH_PERSONALIZATION (write_elements (fun i => Serialize (prevout i)) (vin txTo)).
Definition GetSequenceHash (txTo : CTransaction) : list Z :=
  BLAKE2b SEQUENCE_HASH_PERSONALIZATION
    (write_elements (fun i => Serialize (Serializable := ser_uint32) (nSequence i)) (vin txTo)).
Definition GetOutputsHash (txTo : CTransaction) : list Z :=
  BLAKE2b OUTPUTS_HASH_PERSONALIZATION (write_elements Serialize (vout txTo)).

(** A shielded spend without its authorizing signature. *)
Definition spend_without_sig (n : SpendDescription) : list Z :=
  Serialize (Serializable := ser_blob 32) (cv n) ++
  Serialize (Serializable := ser_blob 32) (anchor n) ++
  Serialize (Serializable := ser_blob 32) (nullifier n) ++
  Serialize (Serializable := ser_blob 32) (rk n) ++
  Serialize (Serializable := ser_array GROTH_PROOF_SIZE) (zkproof n).
Definition GetShieldedSpendsHash (d : SaplingTxData) : list Z :=
  BLAKE2b SHIELDED_SPENDS_HASH_PERSONALIZATION (write_elements spend_without_sig (vShieldedSpend d)).
Definition GetShieldedOutputsHash (d : SaplingTxData) : list Z :=
  BLAKE2b SHIELDED_OUTPUTS_HASH_PERSONALIZATION (write_elements Serialize (vShieldedOutput d)).

Record PrecomputedTransactionData := mkPrecomputed {
  hashPrevouts : list Z;
  hashSequence : list Z;
  hashOutputs : list Z;
  hashShieldedSpends : list Z;
  hashShieldedOutputs : list Z
}.
Definition Precomputed (txTo : CTransaction) : PrecomputedTransactionData :=
  mkPrecomputed (GetPrevoutHash txTo) (GetSequenceHash txTo) (GetOutputsHash txTo)
    (match sapData txTo with Some d => GetShieldedSpendsHash d | None => UINT256_ZERO end)
    (match sapData txTo with Some d => GetShieldedOutputsHash d | None => UINT256_ZERO end).

(** [cache ? cache->field : compute] *)
Definition cached (cache : option PrecomputedTransactionData)
    (field : PrecomputedTransactionData -> list Z) (computed : list Z) : list Z :=
  match cache with Some c => field c | None => computed end.

Definition hasSapData (txTo : CTransaction) : bool :=
  match sapData txTo with
  | Some d => negb (empty (vShieldedSpend d)) || negb (empty (vShieldedOutput d))
  | None => false
  end.

(** What the Sapling branch writes to its hash. *)
Definition sapling_preimage (scriptCode : CScript) (txTo : CTransaction) (nIn nHashType amount : Z)
    (cache : option PrecomputedTransactionData) : option (list Z) :=
  let anyone := fAnyoneCanPay nHashType in
  let single := fHashSingle nHashType in
  let none := fHashNone nHashType in
  let hPrevouts := if negb anyone then cached cache hashPrevouts (GetPrevoutHash txTo) else UINT256_ZERO in
  let hSequence := if negb anyone && negb single && negb none
                   then cached cache hashSequence (GetSequenceHash txTo) else UINT256_ZERO in
  let hOutputs :=
    if negb single && negb none then cached cache hashOutputs (GetOutputsHash txTo)
    else if single && (nIn <? Z.of_nat (length (vout txTo))) then
      BLAKE2b OUTPUTS_HASH_PERSONALIZATION (Serialize (nth (Z.to_nat nIn) (vout txTo) CTxOut_null))
    else UINT256_ZERO in
  let sapling :=
    match sapData txTo with
    | None => []
    | Some d =>
        let hSpends := if negb (empty (vShieldedSpend d))
                       then cached cache hashShieldedSpends (GetShieldedSpendsHash d) else UINT256_ZERO in
        let hShielded := if negb (empty (vShieldedOutput d))
                         then cached cache hashShieldedOutputs (GetShieldedOutputsHash d) else UINT256_ZERO in
        if hasSapData txTo
        then hSpends ++ hShielded ++ Serialize (Serializable := ser_int64) (valueBalance d) else []
    end in
  input <- (if negb (nIn =? NOT_AN_INPUT) then
              txin <- nth_error (vin txTo) (Z.to_nat nIn);;
              Some (Serialize (prevout txin) ++ Serialize (Serializable := ser_bytes) scriptCode ++
                    Serialize (Serializable := ser_int64) amount ++
                    Serialize (Serializable := ser_uint32) (nSequence txin))
            else Some []);;
  let payload :=
    if IsSpecialTx txTo then
      match extraPayload txTo with
      | Some p => Serialize (Serializable := ser_bytes) p
      | None => []
      end
    else [] in
  Some (Serialize (Serializable := ser_int16) (nVersion txTo) ++
        Serialize (Serializable := ser_int16) (nType txTo) ++
        hPrevouts ++ hSequence ++ hOutputs ++ sapling ++ input ++ payload ++
        Serialize (Serializable := ser_uint32) (nLockTime txTo) ++ ser_writedata32 nHashType).

Definition is_SAPLING (v : SigVersion) : bool :=
  match v with SIGVERSION_SAPLING => true | SIGVERSION_BASE => false end.

Definition SignatureHash (scriptCode : CScript) (txTo : CTransaction) (nIn nHashType amount : Z)
    (sigversion : SigVersion) (cache : option PrecomputedTransactionData) : option (list Z) :=
  if (nIn >=? Z.of_nat (length (vin txTo))) && negb (nIn =? NOT_AN_INPUT) then Some UINT256_ONE
  else if isSaplingVersion txTo && negb (is_SAPLING sigversion) then None
  else if is_SAPLING sigversion then
    m <- sapling_preimage scriptCode txTo nIn nHashType amount cache;;
    Some (BLAKE2b SIGHASH_PERSONALIZATION m)
  else if fHashSingle nHashType && (nIn >=? Z.of_nat (length (vout txTo))) then Some UINT256_ONE
  else
    txTmp <- serializer_Serialize txTo scriptCode nIn nHashType;;
    Some (Hash256 (txTmp ++ ser_writedata32 nHashType)).

(** * The signature checker *)

Section Checker.
Variables (txTo : CTransaction) (nIn amount : Z) (cache : option PrecomputedTransactionData).

Definition checker_CheckSig (vchSigIn vchPubKey : list Z) (scriptCode : CScript) (sigversion : SigVersion)
    : option bool :=
  if negb (CPubKey_IsValid (CPubKey vchPubKey)) then Some false
  else match vchSigIn with
  | [] => Some false
  | _ =>
      let nHashType := last vchSigIn 0 in
      let vchSig := removelast vchSigIn in
      sighash <- SignatureHash scriptCode txTo nIn nHashType amount sigversion cache;;
      Some (Verify vchPubKey sighash vchSig)
  end.

(** [txTo->vin[nIn]]: the checker is built with an index of an input; past the
    end the model reads a final input. *)
Definition checker_CheckLockTime (n : Z) : bool :=
  if negb ((nLockTime txTo <? LOCKTIME_THRESHOLD) && (n <? LOCKTIME_THRESHOLD)
           || (nLockTime txTo >=? LOCKTIME_THRESHOLD) && (n >=? LOCKTIME_THRESHOLD)) then false
  else if n >? nLockTime txTo then false
  else match nth_error (vin txTo) (Z.to_nat nIn) with
       | Some txin => negb (IsFinal txin)
       | None => false
       end.

(** The loop over the outputs from index [i]; [None] is the early false. *)
Fixpoint coldstake_loop (prevoutScript : CScript) (n i : Z) (outs : list CTxOut) (outValue : Z) : option Z :=
  match outs with
  | [] => Some outValue
  | o :: outs =>
      if negb (list_eqb (scriptPubKey o) prevoutScript) then
        if negb (i =? n - 1) || (n <? 3) then None
        else coldstake_loop prevoutScript n (i + 1) outs outValue
      else coldstake_loop prevoutScript n (i + 1) outs (i64 (outValue + nValue o))
  end.
Definition checker_CheckColdStake (prevoutScript : CScript) : bool :=
  if negb (IsCoinStake txTo) then false
  else if negb (Z.of_nat (length (vin txTo)) =? 1) then false
  else
    let outs := Z.of_nat (length (vout txTo)) in
    match coldstake_loop prevoutScript outs 1 (tl (vout txTo)) 0 with
    | Some outValue => outValue >? amount
    | None => false
    end.

Definition TransactionSignatureChecker : BaseSignatureChecker := {|
  CheckSig := checker_CheckSig;
  CheckLockTime := checker_CheckLockTime;
  CheckColdStake := checker_CheckColdStake |}.
End Checker.
End Hashes.

(** * The original algorithm, on a modified copy of the transaction *)

(** [for (i = 0; i < v.size(); i++) v[i] = f(i, v[i])] *)
Fixpoint mapi_from {A B} (f : nat -> A -> B) (i : nat) (v : list A) : list B :=
  match v with
  | [] => []
  | x :: v => f i x :: mapi_from f (S i) v
  end.
Definition mapi {A B} (f : nat -> A -> B) : list A -> list B := mapi_from f 0.

Definition with_scriptSig (s : CScript) (i : CTxIn) : CTxIn := mkTxIn (prevout i) s (nSequence i).
Definition with_nSequence (n : Z) (i : CTxIn) : CTxIn := mkTxIn (prevout i) (scriptSig i) n.

Definition SignatureHashOld {abi : Abi} {crypto : ScriptCrypto} (scriptCode : CScript) (txTo : CTransaction)
    (nIn nHashType : Z) : option (list Z) :=
  if nIn >=? Z.of_nat (length (vin txTo)) then Some UINT256_ONE
  else
    let n := Z.to_nat nIn in
    '(scriptCode, _) <- FindAndDelete scriptCode [OP_CODESEPARATOR];;
    let ins := map (with_scriptSig []) (vin txTo) in
    let ins := mapi (fun i txin => if (i =? n)%nat then with_scriptSig scriptCode txin else txin) ins in
    let others_update := mapi (fun i txin => if negb (i =? n)%nat then with_nSequence 0 txin else txin) in
    let mode := Z.land nHashType 0x1f in
    if (mode =? SIGHASH_SINGLE) && (nIn >=? Z.of_nat (length (vout txTo))) then Some UINT256_ONE
    else
      let outs :=
        if mode =? SIGHASH_NONE then []
        else if mode =? SIGHASH_SINGLE
        then mapi (fun i txout => if (i <? n)%nat then CTxOut_null else txout) (firstn (n + 1) (vout txTo))
        else vout txTo in
      let ins := if (mode =? SIGHASH_NONE) || (mode =? SIGHASH_SINGLE) then others_update ins else ins in
      let ins := if negb (Z.land nHashType SIGHASH_ANYONECANPAY =? 0) then firstn 1 (skipn n ins) else ins in
      let txTmp := mkTx (nVersion txTo) (nType txTo) ins outs (nLockTime txTo) (sapData txTo) (extraPayload txTo) in
      Some (Hash256 (SerializeTransaction txTmp ++ ser_writedata32 nHashType)).

(** * Lemmas *)

Lemma nth_error_mapi_from {A B} (f : nat -> A -> B) v : forall i k,
  nth_error (mapi_from f i v) k = option_map (f (i + k)%nat) (nth_error v k).
Proof.
  induction v as [|x v IH]; intros i [|k]; cbn; try reflexivity.
  - now rewrite Nat.add_0_r.
  - rewrite IH. now rewrite Nat.add_succ_r.
Qed.
Lemma length_mapi {A B} (f : nat -> A -> B) v : length (mapi f v) = length v.
Proof. unfold mapi. generalize 0%nat. induction v; intros i; cbn; congruence. Qed.

Lemma write_range_elements {A} (ser : A -> list Z) body (l : list A) : forall from,
  (forall k x, nth_error l k = Some x -> body (from + Z.of_nat k) = Some (ser x)) ->
  write_range body from (length l) = Some (write_elements ser l).
Proof.
  induction l as [|x l IH]; intros from H; cbn [length write_range write_elements]; [reflexivity|].
  pose proof (H 0%nat x eq_refl) as H0. rewrite Z.add_0_r in H0. rewrite H0. cbn [obind].
  rewrite IH; [reflexivity|]. intros k y Hk. rewrite <- (H (S k) y Hk). f_equal. lia.
Qed.

(** Skipping the separators while writing is deleting them first. *)
Lemma deletes_size b pc out n : deletes b pc out n -> size pc = size out + n * size b.
Proof.
  induction 1; rewrite ?size_app in *; subst; rewrite ?size_app; lia.
Qed.

Lemma separator_GetOp rest : GetOp (OP_CODESEPARATOR :: rest) = Some (OP_CODESEPARATOR, [], rest).
Proof. reflexivity. Qed.

Lemma write_code_deletes it out n :
  deletes [OP_CODESEPARATOR] it out n -> forall ops fuel pre k,
  parses it ops -> (length it <= fuel)%nat ->
  count_separators fuel it k = k + n /\ write_code fuel (pre ++ it) it = pre ++ out.
Proof.
  induction 1 as [rest out n Hd IH|pc op d pc' pre' out n Hp HG Epc Hd IH|pc Hp HG]; intros ops fuel pre k HP Hf.
  - cbn [app] in *. destruct fuel as [|f]; [cbn in Hf; lia|]. cbn [count_separators write_code].
    inversion HP as [|pc op d pc' ops' HG HP']; subst. rewrite separator_GetOp in HG |- *.
    injection HG as <- <- <-. rewrite Z.eqb_refl.
    destruct (IH ops' f [] (k + 1) HP') as [-> E]; [cbn in Hf; lia|]. cbn [app] in E. rewrite E.
    split; [lia|]. f_equal. rewrite length_app. cbn [length].
    replace (length pre + S (length rest) - length rest - 1)%nat with (length pre + 0)%nat by lia.
    rewrite firstn_app_2. cbn. apply app_nil_r.
  - pose proof (GetOp_progress _ _ _ _ HG). destruct fuel as [|f]; [lia|]. cbn [count_separators write_code].
    inversion HP as [E|pc1 op1 d1 pc1' ops' HG1 HP']; [exfalso; clear - HG E; subst; discriminate HG|]. subst pc1.
    rewrite HG in *. injection HG1 as <- <- <-.
    replace (op =? OP_CODESEPARATOR) with false.
    + destruct (IH ops' f (pre ++ pre') k HP') as [-> E]; [lia|]. split; [reflexivity|].
      rewrite Epc, app_assoc, E. now rewrite app_assoc.
    + symmetry. apply Z.eqb_neq. intros ->. pose proof HG as (mid & E & _)%GetOp2_suffix.
      now apply (Hp (mid ++ pc')).
  - inversion HP as [E|pc1 op1 d1 pc1' ops' HG1 HP']; [|congruence]. subst pc.
    destruct fuel as [|f]; cbn [count_separators write_code GetOp GetOp2 GetOp_failed];
      (split; [lia|]); rewrite app_nil_r; destruct pre; try reflexivity;
      unfold between; now rewrite Nat.sub_0_r, firstn_all.
Qed.

Lemma SerializeScriptCode_eq scriptCode ops out n :
  size scriptCode < 2 ^ 32 -> parses scriptCode ops ->
  deletes [OP_CODESEPARATOR] scriptCode out n -> SerializeScriptCode scriptCode = Serialize_bytes out.
Proof.
  intros Hs HP HD. unfold SerializeScriptCode.
  destruct (write_code_deletes _ _ _ HD ops (length scriptCode) [] 0 HP) as [-> E]; [lia|].
  cbn [app] in E. rewrite E. pose proof (deletes_size _ _ _ _ HD) as Hz.
  change (size [OP_CODESEPARATOR]) with 1 in Hz. pose proof (size_nonneg out).
  pose proof (proj1 (deletes_none _ _ _ _ HD)).
  rewrite u32_small by lia. unfold Serialize_bytes. unfold size in *. do 2 f_equal. lia.
Qed.

Section Equivalence.
Context {abi : Abi} {crypto : ScriptCrypto} {sig : SigCrypto}.
Variables (scriptCode : CScript) (txTo : CTransaction) (nIn nHashType : Z) (ops : list Z) (out : CScript) (nDel : Z).
Hypothesis Hcode : size scriptCode < 2 ^ 32.
Hypothesis Hparse : parses scriptCode ops.
Hypothesis Hdel : deletes [OP_CODESEPARATOR] scriptCode out nDel.
Hypothesis Hin : 0 <= nIn < Z.of_nat (length (vin txTo)).
Hypothesis Hvin : Z.of_nat (length (vin txTo)) < 2 ^ 32 - 1.

(** The inputs and outputs of the modified copy. *)
Definition old_input (i : nat) (txin : CTxIn) : CTxIn :=
  let txin := with_scriptSig (if (i =? Z.to_nat nIn)%nat then out else []) txin in
  if (fHashNone nHashType || fHashSingle nHashType) && negb (i =? Z.to_nat nIn)%nat
  then with_nSequence 0 txin else txin.

Lemma index_eqb k : (Z.of_nat k =? nIn) = (k =? Z.to_nat nIn)%nat.
Proof. destruct (Nat.eqb_spec k (Z.to_nat nIn)); [apply Z.eqb_eq | apply Z.eqb_neq]; lia. Qed.

Lemma SerializeInput_old k txin :
  fAnyoneCanPay nHashType = false -> nth_error (vin txTo) k = Some txin ->
  SerializeInput txTo scriptCode nIn nHashType (Z.of_nat k) = Some (Serialize (old_input k txin)).
Proof.
  intros HA Hk. unfold SerializeInput. rewrite HA, Nat2Z.id, Hk. cbn [obind].
  pose proof (proj1 (nth_error_Some (vin txTo) k) ltac:(congruence)).
  replace (Z.of_nat k =? NOT_AN_INPUT) with false by (symmetry; apply Z.eqb_neq; unfold NOT_AN_INPUT; lia).
  rewrite index_eqb. unfold old_input.
  rewrite (SerializeScriptCode_eq scriptCode ops out nDel) by assumption.
  rewrite (orb_comm (fHashSingle nHashType)).
  destruct (k =? Z.to_nat nIn)%nat, (fHashNone nHashType || fHashSingle nHashType); reflexivity.
Qed.

Lemma SerializeInput_anyone txin nInput :
  fAnyoneCanPay nHashType = true -> nth_error (vin txTo) (Z.to_nat nIn) = Some txin ->
  SerializeInput txTo scriptCode nIn nHashType nInput = Some (Serialize (old_input (Z.to_nat nIn) txin)).
Proof.
  intros HA Hk. unfold SerializeInput. rewrite HA, Hk. cbn [obind].
  replace (nIn =? NOT_AN_INPUT) with false by (symmetry; apply Z.eqb_neq; unfold NOT_AN_INPUT; lia).
  rewrite Z.eqb_refl. unfold old_input. rewrite Nat.eqb_refl, andb_false_r. cbn [negb andb].
  now rewrite (SerializeScriptCode_eq scriptCode ops out nDel) by assumption.
Qed.

Definition old_inputs : list CTxIn :=
  let ins := mapi old_input (vin txTo) in
  if fAnyoneCanPay nHashType then firstn 1 (skipn (Z.to_nat nIn) ins) else ins.

Lemma nth_error_in_range : exists txin, nth_error (vin txTo) (Z.to_nat nIn) = Some txin.
Proof.
  destruct (nth_error (vin txTo) (Z.to_nat nIn)) as [x|] eqn:E; [now exists x|].
  apply nth_error_None in E. lia.
Qed.

Lemma firstn1_skipn {A} (l : list A) n x : nth_error l n = Some x -> firstn 1 (skipn n l) = [x].
Proof.
  revert n. induction l as [|y l IH]; intros [|n] H; try discriminate.
  - now injection H as <-.
  - apply IH in H. exact H.
Qed.

Lemma write_inputs :
  write_range (SerializeInput txTo scriptCode nIn nHashType) 0 (Z.to_nat (nInputs txTo nHashType)) =
    Some (write_elements Serialize old_inputs) /\
  nInputs txTo nHashType = Z.of_nat (length old_inputs).
Proof.
  unfold nInputs, old_inputs. destruct (fAnyoneCanPay nHashType) eqn:HA.
  - destruct nth_error_in_range as [txin Hx].
    assert (E : nth_error (mapi old_input (vin txTo)) (Z.to_nat nIn) = Some (old_input (Z.to_nat nIn) txin)).
    { unfold mapi. now rewrite nth_error_mapi_from, Hx. }
    rewrite (firstn1_skipn _ _ _ E). split; [|reflexivity].
    apply (write_range_elements Serialize _ [old_input (Z.to_nat nIn) txin]).
    intros [|[|k]] x H; try discriminate. injection H as <-. now apply SerializeInput_anyone.
  - rewrite u32_small by lia. rewrite Nat2Z.id, length_mapi. split; [|reflexivity].
    rewrite <- (length_mapi old_input (vin txTo)). apply write_range_elements.
    intros k x Hk. unfold mapi in Hk. rewrite nth_error_mapi_from in Hk.
    destruct (nth_error (vin txTo) k) as [txin|] eqn:E; [|discriminate]. injection Hk as <-.
    rewrite Z.add_0_l. now apply SerializeInput_old.
Qed.

Definition old_outputs : list CTxOut :=
  if fHashNone nHashType then []
  else if fHashSingle nHashType
  then mapi (fun i txout => if (i <? Z.to_nat nIn)%nat then CTxOut_null else txout)
            (firstn (Z.to_nat nIn + 1) (vout txTo))
  else vout txTo.

Hypothesis Hvout : Z.of_nat (length (vout txTo)) < 2 ^ 32.
Hypothesis Hsingle : fHashSingle nHashType = true -> nIn < Z.of_nat (length (vout txTo)).

Lemma write_outputs :
  write_range (SerializeOutput txTo nIn nHashType) 0 (Z.to_nat (nOutputs txTo nIn nHashType)) =
    Some (write_elements Serialize old_outputs) /\
  nOutputs txTo nIn nHashType = Z.of_nat (length old_outputs).
Proof.
  unfold nOutputs, old_outputs. destruct (fHashNone nHashType); [now split|].
  destruct (fHashSingle nHashType) eqn:HS.
  - specialize (Hsingle eq_refl). rewrite u32_small by lia.
    match goal with |- context [mapi ?f ?l] => set (outs := mapi f l) end.
    assert (HL : length outs = Z.to_nat (nIn + 1)).
    { unfold outs. rewrite length_mapi, length_firstn. lia. }
    split; [|lia]. rewrite <- HL. apply write_range_elements. intros k x Hk.
    assert (Hkl : (k < Z.to_nat nIn + 1)%nat).
    { assert (k < length outs)%nat by (apply nth_error_Some; congruence). lia. }
    unfold outs, mapi in Hk. rewrite nth_error_mapi_from, nth_error_firstn in Hk.
    destruct (Nat.ltb_spec k (Z.to_nat nIn + 1)); [|lia].
    destruct (nth_error (vout txTo) k) as [o|] eqn:E; [|discriminate]. injection Hk as <-.
    unfold SerializeOutput. rewrite HS, Z.add_0_l, index_eqb, Nat2Z.id, E. cbn [Nat.add andb].
    destruct (Nat.eqb_spec k (Z.to_nat nIn)), (Nat.ltb_spec k (Z.to_nat nIn)); try lia; reflexivity.
  - rewrite u32_small by lia. rewrite Nat2Z.id. split; [|reflexivity].
    apply write_range_elements. intros k x Hk.
    unfold SerializeOutput. now rewrite HS, Z.add_0_l, Nat2Z.id, Hk.
Qed.

Lemma serializer_old : isSaplingVersion txTo = false ->
  serializer_Serialize txTo scriptCode nIn nHashType =
    Some (SerializeTransaction (mkTx (nVersion txTo) (nType txTo) old_inputs old_outputs (nLockTime txTo)
                                     (sapData txTo) (extraPayload txTo))).
Proof.
  intros HV. unfold serializer_Serialize, SerializeTransaction.
  destruct write_inputs as [-> EI]. destruct write_outputs as [-> EO]. cbn [obind].
  unfold isSaplingVersion in *. cbn [nVersion nType vin vout nLockTime sapData extraPayload].
  rewrite HV, EI, EO, app_nil_r. cbn. unfold Serialize_vector. now rewrite <- !app_assoc.
Qed.
End Equivalence.

(** Blanking in the two passes of the reference. *)
Lemma mapi_passes (f : CTxIn -> CTxIn) (g h : nat -> CTxIn -> CTxIn) v :
  mapi g (mapi h (map f v)) = mapi (fun i x => g i (h i (f x))) v.
Proof. unfold mapi. generalize 0%nat. induction v; intros i; cbn; congruence. Qed.
Lemma mapi_pass (f : CTxIn -> CTxIn) (h : nat -> CTxIn -> CTxIn) v :
  mapi h (map f v) = mapi (fun i x => h i (f x)) v.
Proof. unfold mapi. generalize 0%nat. induction v; intros i; cbn; congruence. Qed.
Lemma mapi_ext {A B} (f g : nat -> A -> B) v : (forall i x, f i x = g i x) -> mapi f v = mapi g v.
Proof. intros H. unfold mapi. generalize 0%nat. induction v; intros i; cbn; congruence. Qed.

Lemma SignatureHashOld_copy {abi : Abi} {crypto : ScriptCrypto} scriptCode txTo nIn nHashType out nDel :
  FindAndDelete scriptCode [OP_CODESEPARATOR] = Some (out, nDel) ->
  nIn < Z.of_nat (length (vin txTo)) ->
  (fHashSingle nHashType = true -> nIn < Z.of_nat (length (vout txTo))) ->
  SignatureHashOld scriptCode txTo nIn nHashType =
    Some (Hash256 (SerializeTransaction
      (mkTx (nVersion txTo) (nType txTo) (old_inputs txTo nIn nHashType out)
            (old_outputs txTo nIn nHashType) (nLockTime txTo) (sapData txTo) (extraPayload txTo))
      ++ ser_writedata32 nHashType)).
Proof.
  intros HF Hin Hs. unfold SignatureHashOld. rewrite HF. cbn [obind].
  destruct (Z.geb_spec nIn (Z.of_nat (length (vin txTo)))); [lia|].
  change (Z.land nHashType 0x1f =? SIGHASH_SINGLE) with (fHashSingle nHashType).
  change (Z.land nHashType 0x1f =? SIGHASH_NONE) with (fHashNone nHashType).
  replace (fHashSingle nHashType && (nIn >=? Z.of_nat (length (vout txTo)))) with false.
  2: { destruct (fHashSingle nHashType); [|reflexivity]. specialize (Hs eq_refl).
       destruct (Z.geb_spec nIn (Z.of_nat (length (vout txTo)))); [lia|reflexivity]. }
  unfold old_inputs, old_outputs, fAnyoneCanPay. do 7 f_equal.
  assert (E : (if fHashNone nHashType || fHashSingle nHashType
               then mapi (fun i txin => if negb (i =? Z.to_nat nIn)%nat then with_nSequence 0 txin else txin)
                      (mapi (fun i txin => if (i =? Z.to_nat nIn)%nat then with_scriptSig out txin else txin)
                        (map (with_scriptSig []) (vin txTo)))
               else mapi (fun i txin => if (i =? Z.to_nat nIn)%nat then with_scriptSig out txin else txin)
                      (map (with_scriptSig []) (vin txTo)))
            = mapi (old_input nIn nHashType out) (vin txTo)).
  { destruct (fHashNone nHashType || fHashSingle nHashType) eqn:EH; rewrite ?mapi_passes, ?mapi_pass;
      apply mapi_ext; intros i x; unfold old_input; rewrite EH; destruct (i =? Z.to_nat nIn)%nat; reflexivity. }
  now rewrite E.
Qed.

(** The midstate cache computed for a transaction is transparent. *)
Lemma sapling_preimage_cache {sig : SigCrypto} scriptCode txTo nIn nHashType amount :
  sapling_preimage scriptCode txTo nIn nHashType amount (Some (Precomputed txTo)) =
  sapling_preimage scriptCode txTo nIn nHashType amount None.
Proof.
  unfold sapling_preimage, Precomputed, cached.
  cbn [hashPrevouts hashSequence hashOutputs hashShieldedSpends hashShieldedOutputs].
  now destruct (sapData txTo).
Qed.

(** C28: for a transaction before Sapling the in-place serializer computes the hash of the
    original algorithm, which copies the transaction, deletes the code separators from the
    script, blanks scripts, sequences and outputs as the hash type says and serializes the
    copy: on every hash type, index in or out of range included, and every script that parses;
    no index leaves its vector. The precomputed hashes of a transaction never change any
    result. *)
Theorem SignatureHash_equivalence {abi : Abi} {crypto : ScriptCrypto} {sig : SigCrypto}
    scriptCode txTo nIn nHashType amount ops :
  (size scriptCode < 2 ^ 32 -> parses scriptCode ops -> 0 <= nIn < NOT_AN_INPUT ->
   Z.of_nat (length (vin txTo)) < NOT_AN_INPUT -> Z.of_nat (length (vout txTo)) < 2 ^ 32 ->
   isSaplingVersion txTo = false ->
   exists h, SignatureHash scriptCode txTo nIn nHashType amount SIGVERSION_BASE None = Some h /\
     SignatureHashOld scriptCode txTo nIn nHashType = Some h) /\
  (forall sigversion,
     SignatureHash scriptCode txTo nIn nHashType amount sigversion (Some (Precomputed txTo)) =
     SignatureHash scriptCode txTo nIn nHashType amount sigversion None).
Proof.
  split.
  - intros Hc HP Hn Hvin Hvout HV. unfold NOT_AN_INPUT in *.
    destruct (FindAndDelete_deletes scriptCode [OP_CODESEPARATOR]) as (out & nDel & HF & HD); [discriminate|].
    unfold SignatureHash. rewrite HV. cbn [andb is_SAPLING].
    replace (nIn =? NOT_AN_INPUT) with false by (symmetry; apply Z.eqb_neq; unfold NOT_AN_INPUT; lia).
    rewrite andb_true_r. destruct (Z.geb_spec nIn (Z.of_nat (length (vin txTo)))) as [Hr|Hr].
    { exists UINT256_ONE. split; [reflexivity|]. unfold SignatureHashOld.
      now destruct (Z.geb_spec nIn (Z.of_nat (length (vin txTo)))); [|lia]. }
    destruct (fHashSingle nHashType && (nIn >=? Z.of_nat (length (vout txTo)))) eqn:ES.
    { exists UINT256_ONE. split; [reflexivity|]. unfold SignatureHashOld. rewrite HF. cbn [obind].
      destruct (Z.geb_spec nIn (Z.of_nat (length (vin txTo)))); [lia|].
      change (Z.land nHashType 0x1f =? SIGHASH_SINGLE) with (fHashSingle nHashType). now rewrite ES. }
    assert (Hs : fHashSingle nHashType = true -> nIn < Z.of_nat (length (vout txTo))).
    { intros E. rewrite E in ES. cbn [andb] in ES. breflect. lia. }
    rewrite (serializer_old scriptCode txTo nIn nHashType ops out nDel) by (assumption || lia).
    cbn [obind]. eexists. split; [reflexivity|]. now apply SignatureHashOld_copy with (nDel := nDel).
  - intros sigversion. unfold SignatureHash. now rewrite sapling_preimage_cache.
Qed.

(** A stand-in for the external functions. *)
Definition toy_sig : SigCrypto.
Proof.
  refine {| BLAKE2b := fun p m => map u8 (firstn 32 (m ++ repeat 0 32));
            Verify := fun _ _ _ => true |}.
  intros p m. split.
  - rewrite length_map, length_firstn, length_app, repeat_length. lia.
  - apply Forall_forall. intros x Hx. apply in_map_iff in Hx as (y & <- & _). exact (u8_range y).
Defined.
Definition ex_legacy : CTransaction :=
  mkTx 1 0 [mkTxIn (mkOutPoint (repeat 7 32) 1) [] 5; mkTxIn (mkOutPoint (repeat 9 32) 0) [OP_1] 6]
       [mkTxOut 100 [OP_1] (-10); mkTxOut 7 [] (-10)] 9 (Some SaplingTxData_default) None.
Lemma SignatureHash_equivalence_witness :
  exists h,
    SignatureHash (crypto := toy_crypto) (sig := toy_sig)
      [OP_DUP; OP_CODESEPARATOR; OP_CHECKSIG] ex_legacy 1 0x83 0 SIGVERSION_BASE None = Some h /\
    SignatureHashOld (abi := abi64) (crypto := toy_crypto)
      [OP_DUP; OP_CODESEPARATOR; OP_CHECKSIG] ex_legacy 1 0x83 = Some h.
Proof.
  apply (SignatureHash_equivalence (abi := abi64) (crypto := toy_crypto) (sig := toy_sig)
           [OP_DUP; OP_CODESEPARATOR; OP_CHECKSIG] ex_legacy 1 0x83 0
           [OP_DUP; OP_CODESEPARATOR; OP_CHECKSIG]).
  - reflexivity.
  - repeat (eapply parses_cons; [reflexivity|]). apply parses_nil.
  - unfold NOT_AN_INPUT. lia.
  - reflexivity.
  - reflexivity.
  - reflexivity.
Defined.

(** * What a Sapling signature commits to *)

Lemma ser_app_inj {A} {codec : Serializable A} (x y : A) r r' :
  ser_ok x -> ser_ok y -> Serialize x ++ r = Serialize y ++ r' -> x = y /\ r = r'.
Proof.
  intros Hx Hy E. pose proof (Unserialize_Serialize x r Hx) as E1. rewrite E in E1.
  rewrite (Unserialize_Serialize y r' Hy) in E1. now injection E1 as -> ->.
Qed.

Lemma app_length_inj {A} (x y r r' : list A) :
  length x = length y -> x ++ r = y ++ r' -> x = y /\ r = r'.
Proof.
  revert y. induction x as [|a x IH]; intros [|b y] HL E; try discriminate; [auto|].
  injection E as -> E. apply IH in E as [-> ->]; auto.
Qed.

(** Element encodings that can be cut off a stream. *)
Definition delimited {A B} (ok : A -> Prop) (view : A -> B) (ser : A -> list Z) : Prop :=
  (forall x y r r', ok x -> ok y -> ser x ++ r = ser y ++ r' -> view x = view y /\ r = r') /\
  (forall x, ok x -> ser x <> []).

Lemma write_elements_inj {A B} (ok : A -> Prop) (view : A -> B) ser l : delimited ok view ser ->
  forall l', Forall ok l -> Forall ok l' -> write_elements ser l = write_elements ser l' ->
  map view l = map view l'.
Proof.
  intros [Hinj Hne]. induction l as [|x l IH]; intros [|y l'] Hl Hl' E; cbn [write_elements map] in *.
  - reflexivity.
  - apply Forall_cons_iff in Hl' as [Hy _]. symmetry in E. apply app_eq_nil in E as [E _]. now apply Hne in E.
  - apply Forall_cons_iff in Hl as [Hx _]. apply app_eq_nil in E as [E _]. now apply Hne in E.
  - apply Forall_cons_iff in Hl as [Hx Hl]. apply Forall_cons_iff in Hl' as [Hy Hl'].
    apply Hinj in E as [-> E]; [|assumption..]. f_equal. now apply IH.
Qed.

Lemma Serialize_bytes_nonempty p r : Serialize_bytes p ++ r <> [].
Proof. unfold Serialize_bytes, WriteCompactSize. repeat case_match_goal; discriminate. Qed.

Section Binding.
Context {crypto : ScriptCrypto} {sig : SigCrypto}.

(** Two different messages with one BLAKE2b hash. *)
Definition collision : Prop := exists p m m', m <> m' /\ BLAKE2b p m = BLAKE2b p m'.

Lemma hash_or_collision p m m' : BLAKE2b p m = BLAKE2b p m' -> collision \/ m = m'.
Proof.
  intros E. destruct (list_eq_dec Z.eq_dec m m') as [|Hne]; [auto|].
  left. now exists p, m, m'.
Qed.

Lemma prevouts_delimited :
  delimited (fun i : CTxIn => ser_ok i) prevout (fun i => Serialize (prevout i)).
Proof.
  split.
  - intros x y r r' (Hx & _) (Hy & _). now apply ser_app_inj.
  - intros x (([Hl _] & _) & _) E. apply app_eq_nil in E as [E _]. cbn in E. now rewrite E in Hl.
Qed.
Lemma sequences_delimited :
  delimited (fun i : CTxIn => ser_ok i) nSequence (fun i => Serialize (Serializable := ser_uint32) (nSequence i)).
Proof.
  split.
  - intros x y r r' (_ & _ & Hx) (_ & _ & Hy). now apply ser_app_inj.
  - discriminate.
Qed.
Lemma outputs_delimited : delimited (fun o : CTxOut => ser_ok o) (fun o => o) Serialize.
Proof.
  split.
  - intros x y r r' Hx Hy. now apply ser_app_inj.
  - discriminate.
Qed.
Lemma shielded_outputs_delimited : delimited (fun o : OutputDescription => ser_ok o) (fun o => o) Serialize.
Proof.
  split.
  - intros x y r r' Hx Hy. now apply ser_app_inj.
  - intros x ([Hl _] & _) E. apply app_eq_nil in E as [E _]. cbn in E. now rewrite E in Hl.
Qed.

(** A spend without its signature, as a value. *)
Definition unsigned_spend (d : SpendDescription) :=
  (cv d, anchor d, nullifier d, rk d, zkproof d).
Lemma spends_delimited : delimited (fun d : SpendDescription => ser_ok d) unsigned_spend spend_without_sig.
Proof.
  split.
  - intros x y r r' (X1 & X2 & X3 & X4 & X5 & _) (Y1 & Y2 & Y3 & Y4 & Y5 & _) E.
    unfold spend_without_sig in E. rewrite <- !app_assoc in E.
    apply ser_app_inj in E as [E1 E]; [|assumption..]. apply ser_app_inj in E as [E2 E]; [|assumption..].
    apply ser_app_inj in E as [E3 E]; [|assumption..]. apply ser_app_inj in E as [E4 E]; [|assumption..].
    apply ser_app_inj in E as [E5 E]; [|assumption..]. unfold unsigned_spend. split; [congruence|assumption].
  - intros x ([Hl _] & _) E. apply app_eq_nil in E as [E _]. cbn in E. now rewrite E in Hl.
Qed.

(** Equal hashes of lists of elements give equal lists, or a collision. *)
Lemma elements_or_collision {A B} (ok : A -> Prop) (view : A -> B) ser p l l' :
  delimited ok view ser -> Forall ok l -> Forall ok l' ->
  BLAKE2b p (write_elements ser l) = BLAKE2b p (write_elements ser l') ->
  collision \/ map view l = map view l'.
Proof.
  intros Hd Hl Hl' E. destruct (hash_or_collision _ _ _ E) as [|E']; [auto|].
  right. now apply (write_elements_inj ok view ser l Hd).
Qed.

(** Which of the shielded lists are empty. *)
Definition shape (tx : CTransaction) : bool * bool :=
  match sapData tx with
  | Some d => (empty (vShieldedSpend d), empty (vShieldedOutput d))
  | None => (true, true)
  end.
Definition spends_of (tx : CTransaction) : list SpendDescription :=
  match sapData tx with Some d => vShieldedSpend d | None => [] end.
Definition outputs_of (tx : CTransaction) : list OutputDescription :=
  match sapData tx with Some d => vShieldedOutput d | None => [] end.
Definition balance_of (tx : CTransaction) : Z :=
  match sapData tx with Some d => valueBalance d | None => 0 end.
(** Hash types that sign everything. *)
Definition signs_all (nHashType : Z) : Prop :=
  0 <= nHashType < 2 ^ 32 /\ fAnyoneCanPay nHashType = false /\
  fHashSingle nHashType = false /\ fHashNone nHashType = false.

Definition spends_hash (tx : CTransaction) : list Z :=
  if fst (shape tx) then UINT256_ZERO
  else BLAKE2b SHIELDED_SPENDS_HASH_PERSONALIZATION (write_elements spend_without_sig (spends_of tx)).
Definition shielded_hash (tx : CTransaction) : list Z :=
  if snd (shape tx) then UINT256_ZERO
  else BLAKE2b SHIELDED_OUTPUTS_HASH_PERSONALIZATION (write_elements Serialize (outputs_of tx)).
Definition sapling_part (tx : CTransaction) : list Z :=
  if hasSapData tx
  then spends_hash tx ++ shielded_hash tx ++ Serialize (Serializable := ser_int64) (balance_of tx) else [].
Definition payload_part (tx : CTransaction) : list Z :=
  if IsSpecialTx tx then
    match extraPayload tx with Some p => Serialize (Serializable := ser_bytes) p | None => [] end
  else [].

Lemma sapling_preimage_all scriptCode tx nIn nHashType amount txin :
  signs_all nHashType -> nIn <> NOT_AN_INPUT -> nth_error (vin tx) (Z.to_nat nIn) = Some txin ->
  sapling_preimage scriptCode tx nIn nHashType amount None = Some (
    Serialize (Serializable := ser_int16) (nVersion tx) ++
    Serialize (Serializable := ser_int16) (nType tx) ++
    GetPrevoutHash tx ++ GetSequenceHash tx ++ GetOutputsHash tx ++ sapling_part tx ++
    Serialize (prevout txin) ++ Serialize (Serializable := ser_bytes) scriptCode ++
    Serialize (Serializable := ser_int64) amount ++
    Serialize (Serializable := ser_uint32) (nSequence txin) ++ payload_part tx ++
    Serialize (Serializable := ser_uint32) (nLockTime tx) ++
    Serialize (Serializable := ser_uint32) nHashType).
Proof.
  intros (_ & HA & HS & HN) Hn Hx. unfold sapling_preimage. rewrite HA, HS, HN, Hx. cbn [negb andb].
  apply Z.eqb_neq in Hn. rewrite Hn. cbn [negb obind cached]. rewrite <- !app_assoc. f_equal.
  unfold sapling_part, payload_part, spends_hash, shielded_hash, shape, spends_of, outputs_of, balance_of.
  destruct (sapData tx) as [d|] eqn:Ed.
  - cbn [fst snd].
    now destruct (hasSapData tx), (empty (vShieldedSpend d)), (empty (vShieldedOutput d)).
  - unfold hasSapData. now rewrite Ed.
Qed.

Lemma digest_inj p p' m m' r r' :
  BLAKE2b p m ++ r = BLAKE2b p' m' ++ r' -> BLAKE2b p m = BLAKE2b p' m' /\ r = r'.
Proof. apply app_length_inj. now rewrite !(proj1 (BLAKE2b_digest _ _)). Qed.

Lemma shape_hasSapData tx : hasSapData tx = negb (fst (shape tx)) || negb (snd (shape tx)).
Proof. unfold hasSapData, shape. now destruct (sapData tx). Qed.

(** The shielded parts of two messages of one shape. *)
Definition shielded_ok (tx : CTransaction) : Prop :=
  Forall ser_ok (spends_of tx) /\ Forall ser_ok (outputs_of tx) /\
  - 2 ^ 63 <= balance_of tx < 2 ^ 63.
Definition same_shielded (tx tx' : CTransaction) : Prop :=
  map unsigned_spend (spends_of tx) = map unsigned_spend (spends_of tx') /\
  outputs_of tx = outputs_of tx' /\ (hasSapData tx = true -> balance_of tx = balance_of tx').

Lemma shape_empty tx :
  (fst (shape tx) = true -> spends_of tx = []) /\ (snd (shape tx) = true -> outputs_of tx = []).
Proof.
  unfold shape, spends_of, outputs_of. destruct (sapData tx) as [d|]; [|auto]. cbn [fst snd].
  destruct (vShieldedSpend d), (vShieldedOutput d); split; (reflexivity || discriminate).
Qed.

Lemma sapling_part_inj tx tx' r r' :
  shielded_ok tx -> shielded_ok tx' -> shape tx = shape tx' ->
  sapling_part tx ++ r = sapling_part tx' ++ r' -> collision \/ same_shielded tx tx' /\ r = r'.
Proof.
  intros (Hs & Ho & Hb) (Hs' & Ho' & Hb') Hsh. unfold sapling_part, same_shielded.
  rewrite !shape_hasSapData, <- Hsh. unfold spends_hash, shielded_hash. rewrite <- Hsh.
  destruct (shape_empty tx) as [E1 E2]. destruct (shape_empty tx') as [E1' E2']. rewrite <- Hsh in E1', E2'.
  destruct (fst (shape tx)), (snd (shape tx)); cbn [negb orb]; rewrite <- ?app_assoc; intros E.
  - right. rewrite E1, E1', E2, E2' by reflexivity. repeat split; [discriminate | exact E].
  - apply app_inv_head in E. apply digest_inj in E as [EO E].
    apply ser_app_inj in E as [EB E]; [|assumption..].
    destruct (elements_or_collision _ _ _ _ _ _ shielded_outputs_delimited Ho Ho' EO) as [|EO']; [auto|].
    rewrite !map_id in EO'. right. rewrite E1, E1' by reflexivity. auto.
  - apply digest_inj in E as [ES E]. apply app_inv_head in E.
    apply ser_app_inj in E as [EB E]; [|assumption..].
    destruct (elements_or_collision _ _ _ _ _ _ spends_delimited Hs Hs' ES) as [|ES']; [auto|].
    right. rewrite E2, E2' by reflexivity. auto.
  - apply digest_inj in E as [ES E]. apply digest_inj in E as [EO E].
    apply ser_app_inj in E as [EB E]; [|assumption..].
    destruct (elements_or_collision _ _ _ _ _ _ spends_delimited Hs Hs' ES) as [|ES']; [auto|].
    destruct (elements_or_collision _ _ _ _ _ _ shielded_outputs_delimited Ho Ho' EO) as [|EO']; [auto|].
    rewrite !map_id in EO'. auto.
Qed.

(** The end of the message: an optional payload and eight bytes. *)
Lemma payload_part_inj tx tx' t t' :
  (forall p, extraPayload tx = Some p -> ser_ok (Serializable := ser_bytes) p) ->
  (forall p, extraPayload tx' = Some p -> ser_ok (Serializable := ser_bytes) p) ->
  length t = length t' -> payload_part tx ++ t = payload_part tx' ++ t' ->
  IsSpecialTx tx = IsSpecialTx tx' /\ (IsSpecialTx tx = true -> extraPayload tx = extraPayload tx') /\ t = t'.
Proof.
  intros Hp Hp' HL. unfold payload_part.
  assert (Hsome : forall tx, IsSpecialTx tx = true -> exists p, extraPayload tx = Some p).
  { intros x. unfold IsSpecialTx, hasExtraPayload. destruct (extraPayload x) as [p|]; [eauto|].
    now rewrite andb_false_r. }
  assert (Habs : forall p (l l' : list Z), length l = length l' -> Serialize_bytes p ++ l <> l').
  { intros p l l' Hl E. apply (f_equal (@length Z)) in E. rewrite length_app in E.
    pose proof (Serialize_bytes_nonempty p []) as Hn. rewrite app_nil_r in Hn.
    destruct (Serialize_bytes p); [easy|]. cbn [length] in E. lia. }
  destruct (IsSpecialTx tx) eqn:E1, (IsSpecialTx tx') eqn:E2; intros E.
  - destruct (Hsome tx E1) as [p Ep]. destruct (Hsome tx' E2) as [p' Ep']. rewrite Ep, Ep' in *.
    apply ser_app_inj in E as [-> E]; auto.
  - destruct (Hsome tx E1) as [p Ep]. rewrite Ep in E. now apply Habs in E.
  - destruct (Hsome tx' E2) as [p Ep]. rewrite Ep in E. symmetry in E. now apply Habs in E.
  - repeat split; auto. discriminate.
Qed.
End Binding.

Lemma Some_inj {A} (x y : A) : Some x = Some y -> x = y.
Proof. congruence. Qed.

Lemma tx_ok_shielded {abi : Abi} tx : tx_ok tx -> isSaplingVersion tx = true -> shielded_ok tx.
Proof.
  intros (_ & _ & _ & _ & _ & H) HV. rewrite HV in H. destruct H as [H _].
  unfold shielded_ok, spends_of, outputs_of, balance_of. destruct (sapData tx) as [d|]; [|repeat split; auto; lia].
  destruct (H d eq_refl) as (Hb & [_ Hs] & [_ Ho] & _). auto.
Qed.
Lemma tx_ok_payload {abi : Abi} tx p :
  tx_ok tx -> extraPayload tx = Some p -> ser_ok (Serializable := ser_bytes) p.
Proof.
  intros (_ & _ & _ & _ & _ & H) E. destruct (isSaplingVersion tx); [|destruct H; congruence].
  destruct H as [_ H]. destruct (IsNormalType tx); [congruence|auto].
Qed.

Lemma nth_error_ok {A} (P : A -> Prop) l k x : Forall P l -> nth_error l k = Some x -> P x.
Proof. intros H E. rewrite Forall_forall in H. apply H. now apply nth_error_In in E. Qed.

(** Two messages that a signature of everything is made for. *)
Lemma sapling_message_inj {abi : Abi} {crypto : ScriptCrypto} {sig : SigCrypto}
    sc sc' tx tx' nIn nIn' ht ht' amount amount' m :
  tx_ok tx -> tx_ok tx' -> isSaplingVersion tx = true -> isSaplingVersion tx' = true ->
  shape tx = shape tx' -> signs_all ht -> signs_all ht' ->
  ser_ok (Serializable := ser_bytes) sc -> ser_ok (Serializable := ser_bytes) sc' ->
  - 2 ^ 63 <= amount < 2 ^ 63 -> - 2 ^ 63 <= amount' < 2 ^ 63 ->
  nIn <> NOT_AN_INPUT -> nIn' <> NOT_AN_INPUT ->
  sapling_preimage sc tx nIn ht amount None = Some m ->
  sapling_preimage sc' tx' nIn' ht' amount' None = Some m ->
  collision \/
  (nVersion tx = nVersion tx' /\ nType tx = nType tx' /\ nLockTime tx = nLockTime tx' /\
   map prevout (vin tx) = map prevout (vin tx') /\ map nSequence (vin tx) = map nSequence (vin tx') /\
   vout tx = vout tx' /\ same_shielded tx tx' /\
   (IsSpecialTx tx = true -> extraPayload tx = extraPayload tx') /\
   sc = sc' /\ amount = amount' /\ ht = ht' /\
   option_map prevout (nth_error (vin tx) (Z.to_nat nIn)) =
   option_map prevout (nth_error (vin tx') (Z.to_nat nIn'))).
Proof.
  intros Hok Hok' HV HV' Hsh Ht Ht' Hsc Hsc' Ha Ha' Hn Hn' E E'.
  destruct (nth_error (vin tx) (Z.to_nat nIn)) as [txin|] eqn:Ex.
  2: { unfold sapling_preimage in E. apply Z.eqb_neq in Hn. rewrite Hn, Ex in E. discriminate. }
  destruct (nth_error (vin tx') (Z.to_nat nIn')) as [txin'|] eqn:Ex'.
  2: { unfold sapling_preimage in E'. apply Z.eqb_neq in Hn'. rewrite Hn', Ex' in E'. discriminate. }
  rewrite (sapling_preimage_all _ _ _ _ _ txin) in E by assumption.
  rewrite (sapling_preimage_all _ _ _ _ _ txin') in E' by assumption. rewrite <- E in E'. apply Some_inj in E'.
  pose proof (tx_ok_shielded tx Hok HV) as Hsap. pose proof (tx_ok_shielded tx' Hok' HV') as Hsap'.
  pose proof (fun p => tx_ok_payload tx p Hok) as Hpay. pose proof (fun p => tx_ok_payload tx' p Hok') as Hpay'.
  destruct Hok as (Hv & Hty & [_ Hvin] & [_ Hvout] & Hlt & _).
  destruct Hok' as (Hv' & Hty' & [_ Hvin'] & [_ Hvout'] & Hlt' & _).
  destruct (nth_error_ok _ _ _ _ Hvin Ex) as (Hpo & _ & Hsq).
  destruct (nth_error_ok _ _ _ _ Hvin' Ex') as (Hpo' & _ & Hsq').
  symmetry in E'.
  apply ser_app_inj in E' as [EV E']; [|assumption..]. apply ser_app_inj in E' as [ET E']; [|assumption..].
  apply digest_inj in E' as [EP E']. apply digest_inj in E' as [EQ E']. apply digest_inj in E' as [EO E'].
  destruct (elements_or_collision _ _ _ _ _ _ prevouts_delimited Hvin Hvin' EP) as [|EP']; [auto|].
  destruct (elements_or_collision _ _ _ _ _ _ sequences_delimited Hvin Hvin' EQ) as [|EQ']; [auto|].
  destruct (elements_or_collision _ _ _ _ _ _ outputs_delimited Hvout Hvout' EO) as [|EO']; [auto|].
  rewrite !map_id in EO'.
  apply sapling_part_inj in E' as [|[ES E']]; [auto|auto|assumption..].
  apply ser_app_inj in E' as [EPo E']; [|assumption..]. apply ser_app_inj in E' as [ESc E']; [|assumption..].
  apply ser_app_inj in E' as [EA E']; [|assumption..]. apply ser_app_inj in E' as [ESq E']; [|assumption..].
  apply payload_part_inj in E' as (_ & EX & E'); [|assumption..|reflexivity].
  apply ser_app_inj in E' as [EL E']; [|assumption..].
  rewrite <- (app_nil_r (Serialize (Serializable := ser_uint32) ht)) in E'.
  rewrite <- (app_nil_r (Serialize (Serializable := ser_uint32) ht')) in E'.
  apply ser_app_inj in E' as [EH _]; [|apply Ht|apply Ht'].
  right. repeat (split; [assumption|]). cbn. congruence.
Qed.

Lemma SignatureHash_sapling {crypto : ScriptCrypto} {sig : SigCrypto} sc tx nIn ht amount h :
  0 <= nIn < Z.of_nat (length (vin tx)) ->
  SignatureHash sc tx nIn ht amount SIGVERSION_SAPLING None = Some h ->
  exists m, sapling_preimage sc tx nIn ht amount None = Some m /\ h = BLAKE2b SIGHASH_PERSONALIZATION m.
Proof.
  intros Hn. unfold SignatureHash. destruct (Z.geb_spec nIn (Z.of_nat (length (vin tx)))); [lia|].
  cbn [andb is_SAPLING negb]. rewrite andb_false_r. intros (m & Hm & E)%obind_Some. exists m. split; congruence.
Qed.

(** A Sapling signature of hash type ALL binds the transaction: if two
    transactions of the same shielded shape have one signature hash for their
    inputs, scripts and amounts, then they agree on version, type, lock time,
    every outpoint and sequence number, every output, every shielded spend (its
    own signature apart) and output, the value balance and the extra payload, and
    so do the outpoint, script, amount and hash type being signed; unless a
    collision of BLAKE2b has been found. *)
Theorem SignatureHash_sapling_binding {abi : Abi} {crypto : ScriptCrypto} {sig : SigCrypto}
    sc sc' tx tx' nIn nIn' ht ht' amount amount' h :
  tx_ok tx -> tx_ok tx' -> isSaplingVersion tx = true -> isSaplingVersion tx' = true ->
  shape tx = shape tx' -> signs_all ht -> signs_all ht' ->
  ser_ok (Serializable := ser_bytes) sc -> ser_ok (Serializable := ser_bytes) sc' ->
  - 2 ^ 63 <= amount < 2 ^ 63 -> - 2 ^ 63 <= amount' < 2 ^ 63 ->
  0 <= nIn < Z.of_nat (length (vin tx)) -> 0 <= nIn' < Z.of_nat (length (vin tx')) ->
  SignatureHash sc tx nIn ht amount SIGVERSION_SAPLING None = Some h ->
  SignatureHash sc' tx' nIn' ht' amount' SIGVERSION_SAPLING None = Some h ->
  collision \/
  (nVersion tx = nVersion tx' /\ nType tx = nType tx' /\ nLockTime tx = nLockTime tx' /\
   map prevout (vin tx) = map prevout (vin tx') /\ map nSequence (vin tx) = map nSequence (vin tx') /\
   vout tx = vout tx' /\ same_shielded tx tx' /\
   (IsSpecialTx tx = true -> extraPayload tx = extraPayload tx') /\
   sc = sc' /\ amount = amount' /\ ht = ht' /\
   option_map prevout (nth_error (vin tx) (Z.to_nat nIn)) =
   option_map prevout (nth_error (vin tx') (Z.to_nat nIn'))).
Proof.
  intros Hok Hok' HV HV' Hsh Ht Ht' Hsc Hsc' Ha Ha' Hn Hn' E E'.
  apply SignatureHash_sapling in E as (m & Em & ->); [|assumption].
  apply SignatureHash_sapling in E' as (m' & Em' & E'); [|assumption].
  destruct (hash_or_collision _ _ _ E') as [|<-]; [auto|].
  pose proof (proj1 (proj1 (proj2 (proj2 Hok)))). pose proof (proj1 (proj1 (proj2 (proj2 Hok')))).
  pose proof (eq_refl : MAX_SIZE = 33554432).
  apply (sapling_message_inj sc sc' tx tx' nIn nIn' ht ht' amount amount' m); auto; unfold NOT_AN_INPUT; lia.
Qed.
(** The same transaction before its input is signed. *)
Definition ex_unsigned : CTransaction :=
  mkTx 3 0 [mkTxIn (mkOutPoint (repeat 7 32) 1) [] 5] (vout ex_tx) 9 None None.
Lemma ex_unsigned_ok : tx_ok (abi := abi64) ex_unsigned.
Proof.
  destruct ex_tx_ok as (H1 & H2 & [_ H3] & H4 & H5 & H6).
  apply Forall_cons_iff in H3 as [(Hp & _ & Hq) _]. pose proof (eq_refl : MAX_SIZE = 33554432).
  split; [exact H1|]. split; [exact H2|]. split; [|split; [exact H4 | split; [exact H5 | exact H6]]].
  split; [cbn; lia|]. constructor; [|constructor]. split; [exact Hp|]. split; [|exact Hq].
  split; [cbn; lia | constructor].
Qed.
Lemma SignatureHash_sapling_binding_witness :
  collision (sig := toy_sig) \/ map prevout (vin ex_tx) = map prevout (vin ex_unsigned).
Proof.
  assert (Hsc : ser_ok (Serializable := ser_bytes) [OP_CHECKSIG]).
  { split; [cbn; pose proof (eq_refl : MAX_SIZE = 33554432); lia | now apply bytes_okb_ok]. }
  assert (Ht : signs_all 1) by (split; [lia | now vm_compute]).
  destruct (SignatureHash_sapling_binding (abi := abi64) (crypto := toy_crypto) (sig := toy_sig)
              [OP_CHECKSIG] [OP_CHECKSIG] ex_tx ex_unsigned 0 0 1 1 50 50
              (BLAKE2b (SigCrypto := toy_sig) SIGHASH_PERSONALIZATION
                 match sapling_preimage (sig := toy_sig) [OP_CHECKSIG] ex_tx 0 1 50 None with
                 | Some m => m | None => [] end))
    as [H|H]; try assumption; try reflexivity; try lia; try (cbn; lia).
  - exact ex_tx_ok.
  - exact ex_unsigned_ok.
  - now left.
  - right. apply H.
Defined.

(** * The checker's other checks *)

Definition pays (script : CScript) (o : CTxOut) : bool := list_eqb (scriptPubKey o) script.

Lemma coldstake_loop_Some script n : forall outs i v w,
  Forall (fun o => 0 <= nValue o) outs -> 0 <= v -> v + total outs < 2 ^ 63 ->
  (coldstake_loop script n i outs v = Some w <->
   (forall k o, nth_error outs k = Some o -> pays script o = false -> i + Z.of_nat k = n - 1 /\ 3 <= n) /\
   w = v + total (filter (pays script) outs)).
Proof.
  induction outs as [|o outs IH]; intros i v w Hpos Hv Hsum; cbn [coldstake_loop filter].
  - change (total []) with 0. rewrite Z.add_0_r. split; [intros [= <-] | intros [_ ->]; reflexivity].
    split; [|reflexivity]. intros [|k] x H; discriminate.
  - apply Forall_cons_iff in Hpos as [Ho Hpos]. pose proof (total_nonneg outs Hpos) as Ht.
    change (total (o :: outs)) with (nValue o + total outs) in Hsum.
    change (list_eqb (scriptPubKey o) script) with (pays script o).
    assert (Hshift : forall i', (forall k x, nth_error (o :: outs) k = Some x -> pays script x = false ->
                       i' + Z.of_nat k = n - 1 /\ 3 <= n) <->
                     (pays script o = false -> i' = n - 1 /\ 3 <= n) /\
                     (forall k x, nth_error outs k = Some x -> pays script x = false ->
                       i' + 1 + Z.of_nat k = n - 1 /\ 3 <= n)).
    { intros i'. split.
      - intros H. split; [intros E; destruct (H 0%nat o eq_refl E); lia|].
        intros k x Hk E. destruct (H (S k) x Hk E). lia.
      - intros [H0 H] [|k] x Hk E; [injection Hk as <-; destruct (H0 E); lia|].
        destruct (H k x Hk E). lia. }
    rewrite Hshift. destruct (pays script o) eqn:E; cbn [negb].
    + rewrite i64_small by lia. rewrite IH by (auto; lia).
      change (total (o :: filter (pays script) outs)) with (nValue o + total (filter (pays script) outs)).
      rewrite Z.add_assoc. split; [intros [? ?]; split; [split; [discriminate|assumption]|assumption]|].
      now intros [[_ ?] ?].
    + destruct (Z.eqb_spec i (n - 1)); destruct (Z.ltb_spec n 3); cbn [negb orb];
        try (split; [discriminate | intros [[Hx _] _]; destruct (Hx eq_refl); lia]).
      rewrite IH by (auto; lia). split; [|now intros [[_ ?] ?]].
      intros [Hc Hw]. split; [split; [intros _; lia | exact Hc] | exact Hw].
Qed.

(** Cold staking cannot move the owner's coins: the check for
    OP_CHECKCOLDSTAKEVERIFY accepts exactly the coinstakes with a single input in
    which every output after the first pays the script being spent, the last one
    alone excepted when there are three or more, and which return to that script
    more than the spent amount.  (Its assertion that a coinstake has two outputs
    holds.) *)
Theorem CheckColdStake_exact {crypto : ScriptCrypto} {sig : SigCrypto} tx nIn amount cache script :
  Forall (fun o => 0 <= nValue o) (vout tx) -> total (vout tx) < 2 ^ 63 ->
  (CheckColdStake (TransactionSignatureChecker tx nIn amount cache) script = true <->
   IsCoinStake tx = true /\ length (vin tx) = 1%nat /\
   (forall k o, (1 <= k)%nat -> nth_error (vout tx) k = Some o -> scriptPubKey o <> script ->
      k = (length (vout tx) - 1)%nat /\ (3 <= length (vout tx))%nat) /\
   amount < total (filter (pays script) (tl (vout tx)))).
Proof.
  intros Hpos Hsum. cbn [CheckColdStake TransactionSignatureChecker]. unfold checker_CheckColdStake.
  destruct (IsCoinStake tx) eqn:EC; cbn [negb]; [|split; [discriminate | intros [H _]; discriminate]].
  assert (exists o outs, vout tx = o :: outs) as (o & outs & Ev).
  { unfold IsCoinStake in EC. destruct (vin tx); [discriminate|].
    destruct (COutPoint_IsNull _ && _); [discriminate|]. destruct (vout tx) as [|o outs]; [discriminate|eauto]. }
  rewrite Ev in *. apply Forall_cons_iff in Hpos as [Ho Hpos]. pose proof (total_nonneg outs Hpos).
  change (total (o :: outs)) with (nValue o + total outs) in Hsum. cbn [tl length].
  destruct (Z.eqb_spec (Z.of_nat (length (vin tx))) 1) as [E1|E1]; cbn [negb];
    [|split; [discriminate | intros (_ & H1 & _); lia]].
  pose proof (fun w => coldstake_loop_Some script (Z.of_nat (S (length outs))) outs 1 0 w Hpos) as HL.
  assert (Hcond : (forall k x, nth_error outs k = Some x -> pays script x = false ->
                     1 + Z.of_nat k = Z.of_nat (S (length outs)) - 1 /\ 3 <= Z.of_nat (S (length outs))) <->
                  (forall k x, (1 <= k)%nat -> nth_error (o :: outs) k = Some x -> scriptPubKey x <> script ->
                     k = (S (length outs) - 1)%nat /\ (3 <= S (length outs))%nat)).
  { assert (Hp : forall x, pays script x = false <-> scriptPubKey x <> script).
    { intros x. unfold pays. rewrite <- not_true_iff_false, list_eqb_eq. reflexivity. }
    split.
    - intros Hc [|k] x Hk Hx Hs; [lia|]. apply Hp in Hs. destruct (Hc k x Hx Hs). lia.
    - intros Hc k x Hx Hs. apply Hp in Hs. destruct (Hc (S k) x ltac:(lia) Hx Hs). lia. }
  rewrite <- Hcond. destruct (coldstake_loop _ _ _ _ _) as [w|] eqn:EL.
  - destruct (proj1 (HL w ltac:(lia) ltac:(lia)) eq_refl) as [Hc ->]. rewrite Z.gtb_lt. split.
    { intros Ha. split; [reflexivity|]. split; [lia|]. split; [exact Hc|lia]. }
    intros (_ & _ & _ & Ha). lia.
  - split; [discriminate|]. intros (_ & _ & Hc & _).
    discriminate (proj2 (HL _ ltac:(lia) ltac:(lia)) (conj Hc eq_refl)).
Qed.

Definition ex_stake : CTransaction :=
  mkTx 1 0 [mkTxIn (mkOutPoint (repeat 7 32) 1) [OP_1] 5]
       [mkTxOut 0 [] (-10); mkTxOut 60 [OP_2] (-10); mkTxOut 60 [OP_2] (-10); mkTxOut 3 [OP_3] (-10)] 0
       (Some SaplingTxData_default) None.
Lemma CheckColdStake_exact_witness :
  CheckColdStake (TransactionSignatureChecker (crypto := toy_crypto) (sig := toy_sig) ex_stake 0 100 None) [OP_2]
    = true /\ 100 < total (filter (pays [OP_2]) (tl (vout ex_stake))).
Proof.
  assert (E : CheckColdStake (TransactionSignatureChecker (crypto := toy_crypto) (sig := toy_sig)
                ex_stake 0 100 None) [OP_2] = true) by (vm_compute; reflexivity).
  split; [exact E|].
  apply (CheckColdStake_exact (crypto := toy_crypto) (sig := toy_sig) ex_stake 0 100 None [OP_2]) in E.
  - apply E.
  - repeat (apply Forall_cons; [cbn; lia|]). apply Forall_nil.
  - vm_compute. reflexivity.
Defined.

(** OP_CHECKLOCKTIMEVERIFY keeps its promise: when it lets a script continue
    and the transaction is final for a block (by [IsFinalTx] at that height and
    time), the lock popped as a script number is nonnegative and the block is past
    it, in height or in time according to the kind of the lock. *)
Theorem CHECKLOCKTIMEVERIFY_sound {crypto : ScriptCrypto} {sig : SigCrypto}
    flags tx nIn amount cache top s s' adjustedTime nBlockHeight nBlockTime :
  has_flag flags SCRIPT_VERIFY_CHECKLOCKTIMEVERIFY = true -> 0 <= nBlockHeight -> 0 <= nBlockTime ->
  0 <= adjustedTime ->
  op_checklocktimeverify flags (TransactionSignatureChecker tx nIn amount cache) (top :: s) = Ok s' ->
  IsFinalTx adjustedTime tx nBlockHeight nBlockTime = true ->
  exists lock, ScriptNum.CScriptNum top (fRequireMinimal flags) 5 = Some lock /\ 0 <= lock /\ s' = top :: s /\
    (lock = 0 \/
     lock < (if lock <? LOCKTIME_THRESHOLD then nBlockHeight
             else if nBlockTime =? 0 then adjustedTime else nBlockTime)).
Proof.
  intros Hf Hh Ht Ha H HF. unfold op_checklocktimeverify in H. rewrite Hf in H. cbn [negb] in H.
  destruct (ScriptNum.CScriptNum top (fRequireMinimal flags) 5) as [lock|]; [|discriminate].
  cbn [or_throw rbind] in H. exists lock. split; [reflexivity|].
  destruct (Z.ltb_spec lock 0); [discriminate|]. split; [lia|].
  cbn [CheckLockTime TransactionSignatureChecker] in H.
  destruct (checker_CheckLockTime tx nIn lock) eqn:EL; [|discriminate]. cbn [negb] in H.
  unfold checker_CheckLockTime in EL. destruct (negb _) eqn:EK in EL; [discriminate|]. apply negb_false_iff in EK.
  destruct (Z.gtb_spec lock (nLockTime tx)); [discriminate|].
  destruct (nth_error (vin tx) (Z.to_nat nIn)) as [txin|] eqn:Ex; [|discriminate].
  apply negb_true_iff in EL.
  split; [congruence|]. unfold IsFinalTx in HF.
  assert (Hnf : forallb IsFinal (vin tx) = false).
  { apply not_true_iff_false. intros HA. rewrite forallb_forall in HA.
    specialize (HA txin (nth_error_In _ _ Ex)). congruence. }
  destruct (Z.eqb_spec (nLockTime tx) 0); [left; lia|]. right. rewrite Hnf in HF.
  destruct (Z.ltb_spec (nLockTime tx) LOCKTIME_THRESHOLD); destruct (Z.ltb_spec lock LOCKTIME_THRESHOLD);
    destruct (Z.geb_spec (nLockTime tx) LOCKTIME_THRESHOLD); destruct (Z.geb_spec lock LOCKTIME_THRESHOLD);
    try discriminate EK; try lia;
    (match type of HF with (if ?b then _ else _) = _ => destruct b eqn:EB; [|discriminate] end);
    apply Z.ltb_lt in EB; lia.
Qed.
Lemma CHECKLOCKTIMEVERIFY_sound_witness :
  exists lock, ScriptNum.CScriptNum [100] false 5 = Some lock /\ 0 <= lock /\
    (lock = 0 \/ lock < 200).
Proof.
  destruct (CHECKLOCKTIMEVERIFY_sound (crypto := toy_crypto) (sig := toy_sig) SCRIPT_VERIFY_CHECKLOCKTIMEVERIFY
              (mkTx 1 0 [mkTxIn (mkOutPoint (repeat 7 32) 1) [] 5] [] 150 (Some SaplingTxData_default) None)
              0 0 None [100] [] [[100]] 0 200 1600000000)
    as (lock & H1 & H2 & _ & H3); try reflexivity; try lia.
  exists lock. split; [exact H1|]. split; [exact H2|].
  assert (lock = 100) as -> by (cbv in H1; congruence). exact H3.
Defined.
