(* ===== verification/Compressor.v ===== *)
(** Compressed serialization of outputs and coins
    (src/compressor.h, src/compressor.cpp, [Coin] of src/coins.h, src/undo.h). *)
From Stdlib Require Import ZArith Lia List Bool.
From S2P Require Import Prelude Serialize Codecs Script Transaction.
Import ListNotations.
Local Open Scope Z_scope.
Local Open Scope passion_scope.

(** * Amounts *)

(** [while (n % 10 == 0 && e < 9) { n /= 10; e++; }]; the fuel is [9 - e]. *)
Fixpoint strip_zeros (fuel : nat) (n e : Z) : Z * Z :=
  match fuel with
  | O => (n, e)
  | S f => if (n mod 10 =? 0) && (e <? 9) then strip_zeros f (n / 10) (e + 1) else (n, e)
  end.
(** [None]: the assertion on the last digit fails. *)
Definition CompressAmount (n : Z) : option Z :=
  if n =? 0 then Some 0
  else
    let '(n, e) := strip_zeros 9 n 0 in
    if e <? 9 then
      let d := n mod 10 in
      if (d >=? 1) && (d <=? 9) then
        let n := n / 10 in
        Some (u64 (1 + u64 (u64 (u64 (n * 9) + d - 1) * 10) + e))
      else None
    else Some (u64 (1 + u64 (u64 (n - 1) * 10) + 9)).

(** [while (e) { n *= 10; e--; }] *)
Fixpoint scale_up (e : nat) (n : Z) : Z :=
  match e with O => n | S e => scale_up e (u64 (n * 10)) end.
Definition DecompressAmount (x : Z) : Z :=
  if x =? 0 then 0
  else
    let x := x - 1 in
    let e := x mod 10 in
    let x := x / 10 in
    let n := if e <? 9 then u64 (x / 9 * 10 + (x mod 9 + 1)) else x + 1 in
    scale_up (Z.to_nat e) n.

(** * Scripts *)

(** The elliptic-curve library: a fully valid uncompressed key is recovered
    from the abscissa and the parity of the ordinate. *)
Class PubKeyLib := {
  IsFullyValid : list Z -> bool;
  pubkey_Decompress : list Z -> option (list Z);
  Decompress_valid : forall k, length k = 65%nat -> bytes_ok k -> nth 0 k 0 = 4 -> IsFullyValid k = true ->
    pubkey_Decompress (2 + Z.land (nth 64 k 0) 1 :: firstn 32 (skipn 1 k)) = Some k
}.

Section Compressor.
Context {lib : PubKeyLib}.

(** [script[i]] *)
Definition at_ (script : CScript) (i : nat) : Z := nth i script 0.
Definition slice (from n : nat) (l : list Z) : list Z := firstn n (skipn from l).

Definition IsToKeyID (script : CScript) : option (list Z) :=
  if (size script =? 25) && (at_ script 0 =? OP_DUP) && (at_ script 1 =? OP_HASH160)
     && (at_ script 2 =? 20) && (at_ script 23 =? OP_EQUALVERIFY) && (at_ script 24 =? OP_CHECKSIG)
  then Some (slice 3 20 script) else None.
Definition IsToScriptID (script : CScript) : option (list Z) :=
  if (size script =? 23) && (at_ script 0 =? OP_HASH160) && (at_ script 1 =? 20) && (at_ script 22 =? OP_EQUAL)
  then Some (slice 2 20 script) else None.
Definition IsToPubKey (script : CScript) : option (list Z) :=
  if (size script =? 35) && (at_ script 0 =? 33) && (at_ script 34 =? OP_CHECKSIG)
     && ((at_ script 1 =? 0x02) || (at_ script 1 =? 0x03))
  then Some (slice 1 33 script)
  else if (size script =? 67) && (at_ script 0 =? 65) && (at_ script 66 =? OP_CHECKSIG) && (at_ script 1 =? 0x04)
  then if IsFullyValid (slice 1 65 script) then Some (slice 1 65 script) else None
  else None.

Definition Compress (script : CScript) : option (list Z) :=
  match IsToKeyID script with
  | Some keyID => Some (0x00 :: keyID)
  | None =>
      match IsToScriptID script with
      | Some scriptID => Some (0x01 :: scriptID)
      | None =>
          match IsToPubKey script with
          | Some pubkey =>
              if (at_ pubkey 0 =? 0x02) || (at_ pubkey 0 =? 0x03)
              then Some (at_ pubkey 0 :: slice 1 32 pubkey)
              else if at_ pubkey 0 =? 0x04
              then Some (Z.lor 0x04 (Z.land (at_ pubkey 64) 0x01) :: slice 1 32 pubkey)
              else None
          | None => None
          end
      end
  end.

Definition GetSpecialSize (nSize : Z) : Z :=
  if (nSize =? 0) || (nSize =? 1) then 20
  else if (nSize =? 2) || (nSize =? 3) || (nSize =? 4) || (nSize =? 5) then 32
  else 0.

(** [None]: returns false and leaves the script as it is. *)
Definition Decompress (nSize : Z) (input : list Z) : option CScript :=
  if nSize =? 0x00 then Some ([OP_DUP; OP_HASH160; 20] ++ firstn 20 input ++ [OP_EQUALVERIFY; OP_CHECKSIG])
  else if nSize =? 0x01 then Some ([OP_HASH160; 20] ++ firstn 20 input ++ [OP_EQUAL])
  else if (nSize =? 0x02) || (nSize =? 0x03) then Some ([33; nSize] ++ firstn 32 input ++ [OP_CHECKSIG])
  else if (nSize =? 0x04) || (nSize =? 0x05) then
    match pubkey_Decompress (nSize - 2 :: firstn 32 input) with
    | Some pubkey => Some ([65] ++ firstn 65 pubkey ++ [OP_CHECKSIG])
    | None => None
    end
  else None.

Definition nSpecialScripts : Z := 6.

Definition CScriptCompressor_Serialize (script : CScript) : option (list Z) :=
  match Compress script with
  | Some compr => Some compr
  | None =>
      let nSize := u32 (size script + nSpecialScripts) in
      v <- WriteVarInt 32 nSize;; Some (v ++ script)
  end.

(** Reads over the script [script0] already held. *)
Definition CScriptCompressor_Unserialize (script0 : CScript) : Reader CScript := fun s =>
  '(nSize, s) <- ReadVarInt (2 ^ 32 - 1) s;;
  if nSize <? nSpecialScripts then
    '(vch, s) <- stream_read (Z.to_nat (GetSpecialSize nSize)) s;;
    Some (match Decompress nSize vch with Some script => script | None => script0 end, s)
  else
    let nSize := nSize - nSpecialScripts in
    if nSize >? MAX_SCRIPT_SIZE then
      '(_, s) <- stream_read (Z.to_nat nSize) s;; Some (script0 ++ [OP_RETURN], s)
    else stream_read (Z.to_nat nSize) s.

(** * Outputs, coins and undo records *)

Definition CTxOutCompressor_Serialize (txout : CTxOut) : option (list Z) :=
  nVal <- CompressAmount (u64 (nValue txout));;
  v <- WriteVarInt 64 nVal;;
  s <- CScriptCompressor_Serialize (scriptPubKey txout);;
  Some (v ++ s).
Definition CTxOutCompressor_Unserialize (txout : CTxOut) : Reader CTxOut := fun s =>
  '(nVal, s) <- ReadVarInt (2 ^ 64 - 1) s;;
  '(script, s) <- CScriptCompressor_Unserialize (scriptPubKey txout) s;;
  Some (mkTxOut (i64 (DecompressAmount nVal)) script (nRounds txout), s).

Record Coin := mkCoin {
  fCoinBase : bool;
  fCoinStake : bool;
  coin_out : CTxOut;
  coin_nHeight : Z
}.
Definition coinEmpty : Coin := mkCoin false false CTxOut_null 0.
Definition IsSpent (c : Coin) : bool := CTxOut_IsNull (coin_out c).

Definition coin_code (c : Coin) : Z :=
  u32 (coin_nHeight c * 4 + (if fCoinBase c then 2 else 0) + (if fCoinStake c then 1 else 0)).
(** [None]: the assertion that the coin is unspent fails. *)
Definition Coin_Serialize (c : Coin) : option (list Z) :=
  if IsSpent c then None
  else
    code <- WriteVarInt 32 (coin_code c);;
    out <- CTxOutCompressor_Serialize (coin_out c);;
    Some (code ++ out).
Definition Coin_Unserialize : Reader Coin := fun s =>
  '(code, s) <- ReadVarInt (2 ^ 32 - 1) s;;
  '(out, s) <- CTxOutCompressor_Unserialize CTxOut_null s;;
  Some (mkCoin (negb (Z.land code 2 =? 0)) (negb (Z.land code 1 =? 0)) out (Z.shiftr code 2), s).

Definition TxInUndo_Serialize (c : Coin) : option (list Z) :=
  code <- WriteVarInt 32 (coin_code c);;
  out <- CTxOutCompressor_Serialize (coin_out c);;
  Some (code ++ (if coin_nHeight c >? 0 then ser_writedata8 0 else []) ++ out).
Definition TxInUndo_Unserialize : Reader Coin := fun s =>
  '(nCode, s) <- ReadVarInt (2 ^ 32 - 1) s;;
  let nHeight := Z.shiftr nCode 2 in
  '(_, s) <- (if nHeight >? 0 then ReadVarInt (2 ^ 32 - 1) s else Some (0, s));;
  '(out, s) <- CTxOutCompressor_Unserialize CTxOut_null s;;
  Some (mkCoin (negb (Z.land nCode 2 =? 0)) (negb (Z.land nCode 1 =? 0)) out nHeight, s).
End Compressor.

(** * Lemmas: amounts *)

Lemma strip_zeros_spec fuel : forall n e,
  0 < n -> 0 <= e -> e + Z.of_nat fuel = 9 ->
  exists m k, strip_zeros fuel n e = (m, e + Z.of_nat k) /\ n = m * 10 ^ Z.of_nat k /\ 0 < m /\
    e + Z.of_nat k <= 9 /\ (e + Z.of_nat k < 9 -> m mod 10 <> 0).
Proof.
  induction fuel as [|f IH]; intros n e Hn He Hf; cbn [strip_zeros].
  - exists n, 0%nat. change (10 ^ Z.of_nat 0) with 1. rewrite Z.add_0_r, Z.mul_1_r. repeat split; lia.
  - destruct (Z.eqb_spec (n mod 10) 0) as [E|E]; destruct (Z.ltb_spec e 9); cbn [andb]; try lia.
    + pose proof (Z.div_mod n 10). destruct (IH (n / 10) (e + 1)) as (m & k & -> & En & Hm & Hk & Hd); [lia..|].
      exists m, (S k). rewrite Nat2Z.inj_succ, Z.pow_succ_r by lia.
      split; [f_equal; lia|]. repeat split; try lia; intros; apply Hd; lia.
    + exists n, 0%nat. change (10 ^ Z.of_nat 0) with 1. rewrite Z.add_0_r, Z.mul_1_r. repeat split; lia.
Qed.

Lemma scale_up_eq e : forall n, 0 <= n -> n * 10 ^ Z.of_nat e < 2 ^ 64 -> scale_up e n = n * 10 ^ Z.of_nat e.
Proof.
  induction e as [|e IH]; intros n Hn Hb; cbn [scale_up].
  - change (10 ^ Z.of_nat 0) with 1. lia.
  - rewrite Nat2Z.inj_succ, Z.pow_succ_r in * by lia.
    pose proof (Z.pow_pos_nonneg 10 (Z.of_nat e)). rewrite u64_small by nia. rewrite IH by nia. lia.
Qed.

Lemma CompressAmount_spec n : 0 <= n < 2 ^ 60 ->
  exists x, CompressAmount n = Some x /\ 0 <= x < 2 ^ 64 /\ DecompressAmount x = n.
Proof.
  intros Hn. unfold CompressAmount. destruct (Z.eqb_spec n 0) as [->|Hz].
  { exists 0. repeat split; lia. }
  destruct (strip_zeros_spec 9 n 0) as (m & k & -> & En & Hm & Hk & Hd); [lia..|]. rewrite Z.add_0_l in *.
  assert (Hmn : m <= n) by (pose proof (Z.pow_pos_nonneg 10 (Z.of_nat k)); nia).
  destruct (Z.ltb_spec (Z.of_nat k) 9) as [Hk9|Hk9].
  - pose proof (Z.mod_pos_bound m 10). pose proof (Z.div_mod m 10). specialize (Hd Hk9).
    destruct (Z.geb_spec (m mod 10) 1); [|lia]. destruct (Z.leb_spec (m mod 10) 9); [|lia]. cbn [andb].
    set (d := m mod 10) in *. set (q := m / 10) in *.
    rewrite (u64_small (q * 9)), (u64_small (q * 9 + d - 1)), (u64_small ((q * 9 + d - 1) * 10)), u64_small by lia.
    eexists. split; [reflexivity|]. split; [lia|]. unfold DecompressAmount.
    destruct (Z.eqb_spec (1 + (q * 9 + d - 1) * 10 + Z.of_nat k) 0); [lia|].
    replace (1 + (q * 9 + d - 1) * 10 + Z.of_nat k - 1) with (Z.of_nat k + (q * 9 + d - 1) * 10) by lia.
    rewrite Z.mod_add, Z.div_add, (Z.mod_small (Z.of_nat k)), (Z.div_small (Z.of_nat k)), Z.add_0_l by lia.
    destruct (Z.ltb_spec (Z.of_nat k) 9); [|lia].
    replace (q * 9 + d - 1) with (d - 1 + q * 9) by lia.
    rewrite Z.mod_add, Z.div_add, (Z.mod_small (d - 1)), (Z.div_small (d - 1)), Z.add_0_l, Nat2Z.id by lia.
    replace (q * 10 + (d - 1 + 1)) with m by lia. rewrite u64_small by lia. rewrite scale_up_eq by lia. lia.
  - assert (Z.of_nat k = 9) as Ek by lia. rewrite (u64_small (m - 1)), (u64_small ((m - 1) * 10)), u64_small by lia.
    eexists. split; [reflexivity|]. split; [lia|]. unfold DecompressAmount.
    destruct (Z.eqb_spec (1 + (m - 1) * 10 + 9) 0); [lia|].
    replace (1 + (m - 1) * 10 + 9 - 1) with (9 + (m - 1) * 10) by lia.
    rewrite Z.mod_add, Z.div_add by lia. cbn [Z.ltb Z.compare].
    change (9 mod 10) with 9. change (9 / 10) with 0. change (9 <? 9) with false. cbv iota.
    rewrite scale_up_eq; change (10 ^ Z.of_nat (Z.to_nat 9)) with (10 ^ 9); rewrite Ek in En; lia.
Qed.

(** * Lemmas: scripts *)

Lemma slice_nth a n (l : list Z) : (a + n <= length l)%nat -> slice a n l = map (fun i => nth i l 0) (seq a n).
Proof.
  revert a. unfold slice. induction n as [|n IH]; intros a H; [reflexivity|].
  cbn [seq map]. rewrite <- IH by lia.
  rewrite <- (firstn_skipn (S a) l) at 3. rewrite (firstn_skipn (S a) l).
  assert (E : skipn a l = nth a l 0 :: skipn (S a) l).
  { clear - H. revert l H. induction a as [|a IHa]; intros [|x l] H; cbn in *; try lia; [reflexivity|].
    apply IHa. lia. }
  now rewrite E.
Qed.

Lemma layout a b c (l : list Z) : length l = (a + b + c)%nat ->
  l = map (fun i => nth i l 0) (seq 0 a) ++ slice a b l ++ map (fun i => nth i l 0) (seq (a + b) c).
Proof.
  intros H. rewrite <- (slice_nth 0 a), <- (slice_nth (a + b) c) by lia. unfold slice. cbn [skipn].
  rewrite (firstn_all2 (skipn (a + b) l)) by (rewrite length_skipn; lia).
  rewrite <- (firstn_skipn a l) at 1. f_equal.
  rewrite <- (firstn_skipn b (skipn a l)) at 1. now rewrite skipn_skipn, (Nat.add_comm b a).
Qed.

Lemma length_slice a n (l : list Z) : (a + n <= length l)%nat -> length (slice a n l) = n.
Proof. intros. rewrite slice_nth by assumption. now rewrite length_map, length_seq. Qed.

Lemma firstn_length_eq {A} n (l : list A) : length l = n -> firstn n l = l.
Proof. intros <-. apply firstn_all. Qed.

Lemma varint_roundtrip bits n : bits = 32 \/ bits = 64 -> 0 <= n < 2 ^ bits ->
  exists v, WriteVarInt bits n = Some v /\ forall r, ReadVarInt (2 ^ bits - 1) (v ++ r) = Some (n, r).
Proof.
  intros Hb Hn.
  assert (exists F, Z.to_nat ((bits + 6) / 7) = S (S F) /\ 2 ^ bits <= 128 ^ Z.of_nat (S (S F))) as (F & HF & Hp).
  { destruct Hb as [-> | ->]; [exists 3%nat | exists 8%nat]; (split; [reflexivity | now vm_compute]). }
  exists (varint_bytes (S F) n). split; [apply WriteVarInt_bytes; [assumption|lia]|].
  intros r. apply read_varint_bytes; [|lia|unfold varint_fits; lia|lia].
  destruct Hb as [-> | ->]; lia.
Qed.

Lemma read_small_varint max n r : 0 < max -> 0 <= n < 128 -> ReadVarInt max (n :: r) = Some (n, r).
Proof.
  intros Hm Hn. unfold ReadVarInt. rewrite read_varint_step by (unfold byte_ok; lia).
  destruct (Z.gtb_spec 0 (max / 128)); [pose proof (Z.div_pos max 128); lia|].
  destruct (Z.ltb_spec n 128); [reflexivity|lia].
Qed.

(** Replace the bytes of a script that are known. *)
Ltac known_bytes :=
  repeat match goal with E : nth _ _ 0 = _ |- _ => rewrite E; clear E end; reflexivity.

Section ScriptLemmas.
Context {lib : PubKeyLib}.

(** One of the six special forms: reading [n :: payload] gives what
    [Decompress] makes of the payload. *)
Lemma read_special s0 n payload script r :
  0 <= n < nSpecialScripts -> Z.of_nat (length payload) = GetSpecialSize n ->
  Decompress n payload = Some script ->
  CScriptCompressor_Unserialize s0 ((n :: payload) ++ r) = Some (script, r).
Proof.
  unfold nSpecialScripts. intros Hn Hl HD. unfold CScriptCompressor_Unserialize. cbn [app].
  rewrite read_small_varint by lia. cbn [obind].
  destruct (Z.ltb_spec n nSpecialScripts); [|unfold nSpecialScripts in *; lia].
  rewrite stream_read_length by lia. cbn [obind]. now rewrite HD.
Qed.

Lemma size_length (l : list Z) n : size l = Z.of_nat n -> length l = n.
Proof. unfold size. lia. Qed.

Lemma Compress_keyid script h : IsToKeyID script = Some h ->
  length h = 20%nat /\ Decompress 0 h = Some script.
Proof.
  unfold IsToKeyID, at_. intros H. destruct (_ && _) eqn:E in H; [|discriminate]. breflect.
  injection H as <-. pose proof (size_length script 25 ltac:(assumption)) as HL.
  assert (Hs : length (slice 3 20 script) = 20%nat) by (apply length_slice; lia).
  split; [assumption|]. unfold Decompress. cbn [Z.eqb Pos.eqb orb]. rewrite firstn_length_eq by assumption.
  rewrite (layout 3 20 2 script HL) at 2. cbn [seq map Nat.add]. known_bytes.
Qed.
Lemma Compress_scriptid script h : IsToScriptID script = Some h ->
  length h = 20%nat /\ Decompress 1 h = Some script.
Proof.
  unfold IsToScriptID, at_. intros H. destruct (_ && _) eqn:E in H; [|discriminate]. breflect.
  injection H as <-. pose proof (size_length script 23 ltac:(assumption)) as HL.
  assert (Hs : length (slice 2 20 script) = 20%nat) by (apply length_slice; lia).
  split; [assumption|]. unfold Decompress. cbn [Z.eqb Pos.eqb orb]. rewrite firstn_length_eq by assumption.
  rewrite (layout 2 20 1 script HL) at 2. cbn [seq map Nat.add]. known_bytes.
Qed.

Lemma parity_header y : byte_ok y -> Z.lor 4 (Z.land y 1) = 4 + Z.land y 1 /\ 0 <= Z.land y 1 <= 1.
Proof.
  intros _. assert (H : Z.land y 1 = y mod 2) by (apply (land_mask 1); lia). rewrite H.
  pose proof (Z.mod_pos_bound y 2 ltac:(lia)). split; [|lia].
  apply (lor_add_disjoint 4 (y mod 2) 1); [lia| |reflexivity]. lia.
Qed.

Lemma nth_slice a n i (l : list Z) : (i < n)%nat -> (a + n <= length l)%nat ->
  nth i (slice a n l) 0 = nth (a + i) l 0.
Proof.
  intros Hi Hl. unfold slice. rewrite nth_firstn. destruct (Nat.ltb_spec i n); [|lia]. apply nth_skipn.
Qed.

Lemma slice_slice a n b m (l : list Z) : (b + m <= n)%nat -> slice b m (slice a n l) = slice (a + b) m l.
Proof.
  intros Hm. unfold slice. rewrite skipn_firstn_comm, firstn_firstn, skipn_skipn.
  rewrite (Nat.add_comm b a), Nat.min_l by lia. reflexivity.
Qed.

Lemma bytes_ok_slice a n l : bytes_ok l -> bytes_ok (slice a n l).
Proof.
  intros H. unfold slice. apply Forall_forall. intros x Hx.
  unfold bytes_ok in H. rewrite Forall_forall in H. apply H.
  rewrite <- (firstn_skipn a l). apply in_or_app. right.
  rewrite <- (firstn_skipn n (skipn a l)). apply in_or_app. now left.
Qed.

(** A special form and the script it stands for. *)
Definition special_form (compr : list Z) (script : CScript) : Prop :=
  exists n payload, compr = n :: payload /\ 0 <= n < nSpecialScripts /\
    Z.of_nat (length payload) = GetSpecialSize n /\ Decompress n payload = Some script.

Lemma special_compressed_key script :
  length script = 35%nat -> nth 0 script 0 = 33 -> nth 34 script 0 = OP_CHECKSIG ->
  nth 1 script 0 = 2 \/ nth 1 script 0 = 3 ->
  special_form (nth 1 script 0 :: slice 2 32 script) script.
Proof.
  intros HL H0 H34 Hn.
  assert (Hs : length (slice 2 32 script) = 32%nat) by (apply length_slice; lia).
  exists (nth 1 script 0), (slice 2 32 script). split; [reflexivity|].
  split; [unfold nSpecialScripts; lia|].
  assert (HD : Decompress (nth 1 script 0) (slice 2 32 script) =
               Some ([33; nth 1 script 0] ++ slice 2 32 script ++ [OP_CHECKSIG])).
  { unfold Decompress. rewrite !firstn_length_eq with (n := 32%nat) by assumption.
    destruct Hn as [-> | ->]; reflexivity. }
  rewrite Hs, HD. split; [destruct Hn as [-> | ->]; reflexivity|].
  rewrite (layout 2 32 1 script HL) at 3. cbn [seq map Nat.add]. now rewrite H0, H34.
Qed.

Lemma special_full_key script : bytes_ok script ->
  length script = 67%nat -> nth 0 script 0 = 65 -> nth 66 script 0 = OP_CHECKSIG ->
  nth 1 script 0 = 4 -> IsFullyValid (slice 1 65 script) = true ->
  special_form (Z.lor 4 (Z.land (nth 65 script 0) 1) :: slice 2 32 script) script.
Proof.
  intros Hok HL H0 H66 H1 HV. pose proof (bytes_ok_slice 1 65 script Hok) as Hk.
  assert (Hs : length (slice 1 65 script) = 65%nat) by (apply length_slice; lia).
  assert (Hb : byte_ok (nth 65 script 0)).
  { unfold bytes_ok in Hok. rewrite Forall_forall in Hok. apply Hok, nth_In. lia. }
  destruct (parity_header _ Hb) as [-> Hp].
  exists (4 + Z.land (nth 65 script 0) 1), (slice 2 32 script). split; [reflexivity|].
  split; [unfold nSpecialScripts; lia|].
  pose proof (Decompress_valid (slice 1 65 script) Hs Hk) as HD.
  rewrite !nth_slice in HD by lia. cbn [Nat.add] in HD. specialize (HD H1 HV).
  change (firstn 32 (skipn 1 (slice 1 65 script))) with (slice 1 32 (slice 1 65 script)) in HD.
  rewrite slice_slice in HD by lia. cbn [Nat.add] in HD.
  assert (Hs2 : length (slice 2 32 script) = 32%nat) by (apply length_slice; lia). rewrite Hs2.
  set (b := Z.land (nth 65 script 0) 1) in *.
  assert (HDD : Decompress (4 + b) (slice 2 32 script) = Some ([65] ++ slice 1 65 script ++ [OP_CHECKSIG])).
  { unfold Decompress. rewrite !(firstn_length_eq 32 (slice 2 32 script) Hs2).
    replace (4 + b - 2) with (2 + b) by lia. rewrite HD, (firstn_length_eq 65 (slice 1 65 script) Hs).
    assert (Hc : b = 0 \/ b = 1) by lia. destruct Hc as [-> | ->]; reflexivity. }
  rewrite HDD. split; [assert (Hc : b = 0 \/ b = 1) by lia; destruct Hc as [-> | ->]; reflexivity|].
  rewrite (layout 1 65 1 script HL) at 2. cbn [seq map Nat.add]. now rewrite H0, H66.
Qed.

Lemma Compress_special script compr : bytes_ok script ->
  Compress script = Some compr -> special_form compr script.
Proof.
  intros Hok HC. unfold Compress in HC. destruct (IsToKeyID script) as [h|] eqn:EK.
  { apply Compress_keyid in EK as [Hl HD]. injection HC as <-. exists 0, h. rewrite Hl.
    unfold nSpecialScripts. repeat split; auto; lia. }
  destruct (IsToScriptID script) as [h|] eqn:ES.
  { apply Compress_scriptid in ES as [Hl HD]. injection HC as <-. exists 1, h. rewrite Hl.
    unfold nSpecialScripts. repeat split; auto; lia. }
  clear EK ES. unfold IsToPubKey, at_ in HC. destruct (_ && _) eqn:E1 in HC.
  - breflect. pose proof (size_length script 35 ltac:(assumption)) as HL.
    assert (Hn : nth 1 script 0 = 2 \/ nth 1 script 0 = 3).
    { match goal with E : (_ || _) = true |- _ => apply orb_true_iff in E as [E|E]; apply Z.eqb_eq in E; auto end. }
    rewrite nth_slice, slice_slice in HC by lia. cbn [Nat.add] in HC.
    replace ((nth 1 script 0 =? 2) || (nth 1 script 0 =? 3)) with true in HC
      by (symmetry; destruct Hn as [-> | ->]; reflexivity).
    injection HC as <-. now apply special_compressed_key.
  - clear E1. destruct (_ && _) eqn:E2 in HC; [|discriminate]. breflect.
    pose proof (size_length script 67 ltac:(assumption)) as HL.
    destruct (IsFullyValid (slice 1 65 script)) eqn:EV; [|discriminate].
    rewrite !nth_slice, slice_slice in HC by lia. cbn [Nat.add] in HC.
    match goal with E : nth 1 script 0 = 4 |- _ => rewrite E in HC end. cbn [Z.eqb Pos.eqb orb] in HC.
    injection HC as <-. now apply special_full_key.
Qed.

Lemma CScriptCompressor_roundtrip s0 script r : bytes_ok script -> size script <= MAX_SCRIPT_SIZE ->
  exists v, CScriptCompressor_Serialize script = Some v /\
    CScriptCompressor_Unserialize s0 (v ++ r) = Some (script, r).
Proof.
  intros Hok Hs. pose proof (eq_refl : MAX_SCRIPT_SIZE = 10000). pose proof (size_nonneg script).
  unfold CScriptCompressor_Serialize. destruct (Compress script) as [compr|] eqn:EC.
  - exists compr. split; [reflexivity|]. apply Compress_special in EC as (n & p & -> & Hn & Hl & HD); [|assumption].
    now apply read_special.
  - unfold nSpecialScripts. rewrite u32_small by lia.
    destruct (varint_roundtrip 32 (size script + 6)) as (v & -> & HR); [auto|lia|]. cbn [obind].
    exists (v ++ script). split; [reflexivity|]. unfold CScriptCompressor_Unserialize.
    rewrite <- app_assoc, HR. cbn [obind]. unfold nSpecialScripts.
    destruct (Z.ltb_spec (size script + 6) 6); [lia|].
    replace (size script + 6 - 6) with (size script) by lia. destruct (Z.gtb_spec (size script) MAX_SCRIPT_SIZE); [lia|].
    apply stream_read_length. unfold size. lia.
Qed.
End ScriptLemmas.

(** * Coins *)

Section CoinLemmas.
Context {lib : PubKeyLib}.

(** Outputs the compressed form carries: amounts below 2^60 (the supply is far
    below) and scripts within the limit that are byte strings. *)
Definition compressible (o : CTxOut) : Prop :=
  0 <= nValue o < 2 ^ 60 /\ bytes_ok (scriptPubKey o) /\ size (scriptPubKey o) <= MAX_SCRIPT_SIZE /\
  nRounds o = nRounds CTxOut_null.

Lemma CTxOutCompressor_roundtrip o r : compressible o ->
  exists v, CTxOutCompressor_Serialize o = Some v /\
    CTxOutCompressor_Unserialize CTxOut_null (v ++ r) = Some (o, r).
Proof.
  intros (Hv & Hb & Hs & Hr). unfold CTxOutCompressor_Serialize. rewrite u64_small by lia.
  destruct (CompressAmount_spec (nValue o) Hv) as (x & -> & Hx & HD). cbn [obind].
  destruct (varint_roundtrip 64 x) as (v & -> & HR); [auto|lia|]. cbn [obind].
  destruct (CScriptCompressor_roundtrip (scriptPubKey CTxOut_null) (scriptPubKey o) r Hb Hs) as (c & -> & HU).
  cbn [obind]. exists (v ++ c). split; [reflexivity|]. unfold CTxOutCompressor_Unserialize.
  rewrite <- app_assoc, HR. cbn [obind]. rewrite HU. cbn [obind].
  rewrite HD, i64_small, <- Hr by lia. now destruct o.
Qed.

Definition coin_ok (c : Coin) : Prop := 0 <= coin_nHeight c < 2 ^ 30 /\ compressible (coin_out c).

Lemma coin_code_parts c : 0 <= coin_nHeight c < 2 ^ 30 ->
  0 <= coin_code c < 2 ^ 32 /\ Z.shiftr (coin_code c) 2 = coin_nHeight c /\
  negb (Z.land (coin_code c) 2 =? 0) = fCoinBase c /\ negb (Z.land (coin_code c) 1 =? 0) = fCoinStake c.
Proof.
  intros Hh. unfold coin_code.
  set (f := (if fCoinBase c then 2 else 0) + (if fCoinStake c then 1 else 0)).
  assert (Hf : 0 <= f <= 3) by (unfold f; destruct (fCoinBase c), (fCoinStake c); lia).
  replace (coin_nHeight c * 4 + _ + _) with (coin_nHeight c * 4 + f) by (unfold f; lia).
  rewrite u32_small by lia. split; [lia|]. split.
  - rewrite Z.shiftr_div_pow2 by lia. change (2 ^ 2) with 4.
    rewrite Z.add_comm, Z.div_add, Z.div_small by lia. lia.
  - assert (Hl : forall m, 0 <= m <= 3 -> Z.land (coin_nHeight c * 4 + f) m = Z.land f m).
    { intros m Hm. replace m with (Z.land (Z.ones 2) m) at 1.
      2: { change (Z.ones 2) with 3. assert (H : m = 0 \/ m = 1 \/ m = 2 \/ m = 3) by lia.
           destruct H as [-> | [-> | [-> | ->]]]; reflexivity. }
      rewrite Z.land_assoc, Z.land_ones by lia. change (2 ^ 2) with 4.
      rewrite Z.add_comm, Z.mod_add, Z.mod_small by lia. reflexivity. }
    rewrite !Hl by lia. unfold f. destruct (fCoinBase c), (fCoinStake c); split; reflexivity.
Qed.
End CoinLemmas.

(** Coins and undo records survive their compressed form: for a coin with an
    amount below 2^60, a script within the size limit and a height below 2^30,
    writing succeeds (no assertion, no overrun, no 64-bit overflow in the amount
    code) and reading returns the same coin, height, flags, amount and script,
    and leaves what follows; a coin that is spent is never written. *)
Theorem Coin_roundtrip {lib : PubKeyLib} c :
  coin_ok c ->
  IsSpent c = false /\
  (exists s, Coin_Serialize c = Some s /\ forall r, Coin_Unserialize (s ++ r) = Some (c, r)) /\
  (exists s, TxInUndo_Serialize c = Some s /\ forall r, TxInUndo_Unserialize (s ++ r) = Some (c, r)) /\
  (forall c', IsSpent c' = true -> Coin_Serialize c' = None).
Proof.
  intros [Hh Ho]. destruct (coin_code_parts c Hh) as (Hc & EH & EB & ES).
  assert (Hsp : IsSpent c = false) by (unfold IsSpent, CTxOut_IsNull; destruct Ho; lia).
  destruct (varint_roundtrip 32 (coin_code c)) as (v & HW & HR); [auto|assumption|].
  assert (HO : exists o, CTxOutCompressor_Serialize (coin_out c) = Some o /\
             forall r, CTxOutCompressor_Unserialize CTxOut_null (o ++ r) = Some (coin_out c, r)).
  { destruct (CTxOutCompressor_roundtrip (coin_out c) [] Ho) as (o & E & _). exists o. split; [assumption|].
    intros r. destruct (CTxOutCompressor_roundtrip (coin_out c) r Ho) as (o' & E' & H). congruence. }
  destruct HO as (o & EO & HO). split; [assumption|]. split; [|split].
  - exists (v ++ o). unfold Coin_Serialize. rewrite Hsp, HW. cbn [obind]. rewrite EO. split; [reflexivity|].
    intros r. unfold Coin_Unserialize. rewrite <- app_assoc, HR. cbn [obind]. rewrite HO. cbn [obind].
    rewrite EH, EB, ES. now destruct c.
  - exists (v ++ (if coin_nHeight c >? 0 then ser_writedata8 0 else []) ++ o).
    unfold TxInUndo_Serialize. rewrite HW. cbn [obind]. rewrite EO. split; [reflexivity|].
    intros r. unfold TxInUndo_Unserialize. rewrite <- !app_assoc, HR. cbn [obind]. rewrite EH, EB, ES.
    destruct (coin_nHeight c >? 0); cbn [app].
    + change (ser_writedata8 0) with [0]. cbn [app]. rewrite read_small_varint by lia. cbn [obind].
      rewrite HO. cbn [obind]. now destruct c.
    + cbn [obind]. rewrite HO. cbn [obind]. now destruct c.
  - intros c' Hc'. unfold Coin_Serialize. now rewrite Hc'.
Qed.

(** A toy curve: the ordinate is the abscissa up to the last bit. *)
Definition toy_y (x : list Z) (parity : Z) : list Z := firstn 31 x ++ [2 * (nth 31 x 0 / 2) + parity].
Definition toy_pubkeys : PubKeyLib.
Proof.
  refine {|
    IsFullyValid := fun k => list_eqb (skipn 33 k) (toy_y (slice 1 32 k) (Z.land (nth 64 k 0) 1));
    pubkey_Decompress := fun k => Some (4 :: slice 1 32 k ++ toy_y (slice 1 32 k) (nth 0 k 0 - 2)) |}.
  intros k HL Hb H0 HV. apply list_eqb_eq in HV. f_equal.
  change (firstn 32 (skipn 1 k)) with (slice 1 32 k).
  assert (Hs : length (slice 1 32 k) = 32%nat) by (apply length_slice; lia).
  assert (E : slice 1 32 (2 + Z.land (nth 64 k 0) 1 :: slice 1 32 k) = slice 1 32 k)
    by (unfold slice at 1; cbn [skipn]; now rewrite firstn_length_eq).
  rewrite E. cbn [nth]. replace (2 + Z.land (nth 64 k 0) 1 - 2) with (Z.land (nth 64 k 0) 1) by lia.
  rewrite <- HV. rewrite (layout 1 32 32 k HL) at 3. rewrite <- (slice_nth (1 + 32) 32) by lia.
  cbn [seq map app]. rewrite H0. do 2 f_equal. unfold slice. cbn [Nat.add]. rewrite firstn_all2; [reflexivity|].
  rewrite length_skipn. lia.
Defined.
Definition ex_coin : Coin :=
  mkCoin false true (mkTxOut 250000000 (OP_DUP :: OP_HASH160 :: 20 :: repeat 9 20 ++ [OP_EQUALVERIFY; OP_CHECKSIG]) (-10)) 1234.
Lemma Coin_roundtrip_witness :
  exists s, Coin_Serialize (lib := toy_pubkeys) ex_coin = Some s /\
    forall r, Coin_Unserialize (lib := toy_pubkeys) (s ++ r) = Some (ex_coin, r).
Proof.
  apply (Coin_roundtrip (lib := toy_pubkeys) ex_coin).
  split; [vm_compute; split; [discriminate | reflexivity]|].
  split; [vm_compute; split; [discriminate | reflexivity]|].
  split; [now apply bytes_okb_ok|]. split; [vm_compute; discriminate | reflexivity].
Defined.
