(* ===== verification/Policy.v ===== *)
(** Relay policy: fees by size, dust, and which transactions are standard
    (src/policy/feerate.cpp, src/policy/policy.cpp, src/policy/policy.h). *)
From Stdlib Require Import String.
From Stdlib Require Import ZArith Lia List Bool.
From stdpp Require Import base list.
From S2P Require Import Prelude Consensus Serialize Codecs Script Interpreter Standard Transaction Compressor TxVerify.
Import ListNotations.
Local Open Scope Z_scope.
Local Open Scope passion_scope.

(** * Fee rates *)

(** The member [nSatoshisPerK]; [size_t] makes the arithmetic unsigned. *)
Definition CFeeRate_of (nFeePaid nSize : Z) : Z :=
  if nSize >? 0 then i64 (u64 (i64 (nFeePaid * 1000)) / nSize) else 0.
Definition GetFee (nSatoshisPerK nSize : Z) : Z :=
  let nFee := i64 (u64 (u64 nSatoshisPerK * nSize) / 1000) in
  if (nFee =? 0) && (nSatoshisPerK >? 0) then nSatoshisPerK else nFee.
Definition GetFeePerK (nSatoshisPerK : Z) : Z := GetFee nSatoshisPerK 1000.

(** * Constants and settings *)

Definition MAX_P2SH_SIGOPS : Z := 15.
Definition MAX_STANDARD_TX_SIZE : Z := 100000.
Definition DEFAULT_BLOCK_PRIORITY_SIZE : Z := 50000.
Definition DEFAULT_SHIELDEDTXFEE_K : Z := 100.
Definition CTXOUT_REGULAR_SIZE : Z := 34.
Record PolicySettings := mkPolicy {
  minRelayTxFee : Z;
  fIsBareMultisigStd : bool;
  arg_datacarrier : bool;
  nMaxDatacarrierBytes : Z
}.

Section Policy.
Context {abi : Abi} {crypto : ScriptCrypto}.
Variables (consensus : Params) (settings : PolicySettings).

(** * Dust *)

Definition GetDustThreshold (txout : CTxOut) (dustRelayFee : Z) : Z :=
  if IsUnspendable (scriptPubKey txout) then 0
  else i64 (3 * GetFee dustRelayFee (Z.of_nat (length (Serialize txout)) + (32 + 4 + 1 + 107 + 4))).
Definition GetDustThreshold_typical (dustRelayFee : Z) : Z := i64 (3 * GetFee dustRelayFee 182).
Definition IsDust (txout : CTxOut) (dustRelayFee : Z) : bool := nValue txout <? GetDustThreshold txout dustRelayFee.
Definition GetShieldedDustThreshold (dustRelayFee : Z) : Z :=
  i64 (3 * DEFAULT_SHIELDEDTXFEE_K * GetFee dustRelayFee (SPENDDESCRIPTION_SIZE + CTXOUT_REGULAR_SIZE +
    Z.of_nat BINDINGSIG_SIZE)).

(** * Standard outputs *)

(** The type the solver finds when the answer is yes. [None]: no element to read. *)
Definition IsStandard (script : CScript) : option (option txnouttype) :=
  match Solver script with
  | None => Some None
  | Some (TX_MULTISIG, vSolutions) =>
      front <- hd_error vSolutions;; m <- hd_error front;;
      back <- last vSolutions;; n <- hd_error back;;
      Some (if (n <? 1) || (n >? 3) then None else if (m <? 1) || (m >? n) then None else Some TX_MULTISIG)
  | Some (TX_NULL_DATA, _) =>
      Some (if negb (arg_datacarrier settings) || (size script >? nMaxDatacarrierBytes settings) then None else Some
        TX_NULL_DATA)
  | Some (TX_NONSTANDARD, _) => Some None
  | Some (whichType, _) => Some (Some whichType)
  end.

(** * Standard transactions: [Some reason] when not *)

Fixpoint standard_inputs (ins : list CTxIn) : option (option string) :=
  match ins with
  | [] => Some None
  | txin :: ins =>
      if CTxIn_IsZerocoinSpend txin || CTxIn_IsZerocoinPublicSpend txin then standard_inputs ins
      else if size (scriptSig txin) >? 1650 then Some (Some "scriptsig-size"%string)
      else
        push <- IsPushOnly (scriptSig txin);;
        if negb push then Some (Some "scriptsig-not-pushonly"%string) else standard_inputs ins
  end.
Fixpoint standard_outputs (outs : list CTxOut) (nDataOut : Z) : option (option string) :=
  match outs with
  | [] => Some (if nDataOut >? 1 then Some "multi-op-return"%string else None)
  | txout :: outs =>
      whichType <- IsStandard (scriptPubKey txout);;
      match whichType with
      | None => Some (Some "scriptpubkey"%string)
      | Some TX_NULL_DATA => standard_outputs outs (u32 (nDataOut + 1))
      | Some whichType =>
          if (match whichType with TX_MULTISIG => true | _ => false end) && negb (fIsBareMultisigStd settings)
          then Some (Some "bare-multisig"%string)
          else if IsDust txout (minRelayTxFee settings) then Some (Some "dust"%string)
          else standard_outputs outs nDataOut
      end
  end.
Definition IsStandardTx (adjustedTime : Z) (tx : CTransaction) (nBlockHeight : Z) : option (option string) :=
  if negb (NetworkUpgradeActive consensus nBlockHeight UPGRADE_V5_0) &&
    negb (nVersion tx =? 1) then Some (Some "version"%string)
  else if negb (IsFinalTx adjustedTime tx nBlockHeight 0) then Some (Some "non-final"%string)
  else
    let nMaxSize := if IsShieldedTx tx then MAX_TX_SIZE_AFTER_SAPLING
                    else if ContainsZerocoins tx then MAX_ZEROCOIN_TX_SIZE else MAX_STANDARD_TX_SIZE in
    if GetTotalSize tx >=? nMaxSize then Some (Some "tx-size"%string)
    else
      r <- standard_inputs (vin tx);;
      match r with Some reason => Some (Some reason) | None => standard_outputs (vout tx) 0 end.

(** * Standard inputs *)

(** [BaseSignatureChecker()] *)
Definition no_checker : BaseSignatureChecker := {|
  CheckSig := fun _ _ _ _ => Some false;
  CheckLockTime := fun _ => false;
  CheckColdStake := fun _ => false |}.
(** What one input says: go on, or the answer of the whole check. *)
Definition input_standard (sigversion : SigVersion) (prev : CTxOut) (txin : CTxIn) : option (option bool) :=
  match Solver (scriptPubKey prev) with
  | None => Some (Some false)
  | Some (whichType, vSolutions) =>
      let nArgsExpected := ScriptSigArgsExpected whichType vSolutions in
      if nArgsExpected <? 0 then Some (Some false)
      else
        match EvalScript (scriptSig txin) 0 no_checker sigversion [] with
        | Abort => None
        | Err _ => Some (Some false)
        | Ok stack =>
            let matches n := if negb (Z.of_nat (length stack) =? u32 n) then Some (Some false) else Some None in
            match whichType with
            | TX_SCRIPTHASH =>
                match stack with
                | [] => Some (Some false)
                | subscript :: _ =>
                    match Solver subscript with
                    | Some (whichType2, vSolutions2) =>
                        let tmpExpected := ScriptSigArgsExpected whichType2 vSolutions2 in
                        if tmpExpected <? 0 then Some (Some false) else matches (nArgsExpected + tmpExpected)
                    | None => sigops <- GetSigOpCount subscript true;; Some (Some (sigops <=? MAX_P2SH_SIGOPS))
                    end
                end
            | _ => matches nArgsExpected
            end
        end
  end.
Fixpoint inputs_standard (AccessCoin : COutPoint ->
  Coin) (sigversion : SigVersion) (ins : list CTxIn) : option bool :=
  match ins with
  | [] => Some true
  | txin :: ins =>
      r <- input_standard sigversion (coin_out (AccessCoin (prevout txin))) txin;;
      match r with Some b => Some b | None => inputs_standard AccessCoin sigversion ins end
  end.
(** [AccessCoin]: the coin the view holds for an outpoint. *)
Definition AreInputsStandard (AccessCoin : COutPoint -> Coin) (tx : CTransaction) : option bool :=
  if IsCoinBase tx || HasZerocoinSpendInputs tx then Some true
  else inputs_standard AccessCoin (GetRequiredSigVersion tx) (vin tx).

(** * Fees of relayed transactions (src/validation.cpp) *)

Definition GetMinRelayFee (nBytes : Z) (fAllowFree : bool) : Z :=
  let nMinFee := GetFee (minRelayTxFee settings) nBytes in
  let nMinFee := if fAllowFree && (nBytes <? DEFAULT_BLOCK_PRIORITY_SIZE - 1000) then 0 else nMinFee in
  if negb (MoneyRange consensus nMinFee) then nMaxMoneyOut consensus else nMinFee.
(** [None]: the transaction is not shielded. *)
Definition GetShieldedTxMinFee (tx : CTransaction) : option Z :=
  if negb (IsShieldedTx tx) then None
  else
    let nMinFee := i64 (GetFee (minRelayTxFee settings) (GetTotalSize tx) * DEFAULT_SHIELDEDTXFEE_K) in
    Some (if negb (MoneyRange consensus nMinFee) then nMaxMoneyOut consensus else nMinFee).
End Policy.

(** * What the checks mean *)

(** Fees are exact as long as the product fits, and never zero under a positive rate. *)
Lemma GetFee_exact rate n : 0 <= rate -> 0 <= n -> rate * n < 2 ^ 63 ->
  GetFee rate n = if rate * n <? 1000 then rate else rate * n / 1000.
Proof.
  intros Hr Hn Hb. assert (Hp : 0 <= rate * n) by nia. unfold GetFee. destruct (Z.eq_dec n 0) as [->|Hz].
  { rewrite !Z.mul_0_r. cbn. destruct (rate >? 0) eqn:E; [done|]. rewrite Z.gtb_ltb in E. apply Z.ltb_ge in E.
    by replace rate with 0 by lia. }
  assert (Hrate : rate < 2 ^ 63) by nia. rewrite (u64_small rate), (u64_small (rate * n)) by lia.
  pose proof (Z.div_le_upper_bound (rate * n) 1000 (2 ^ 63 - 1) ltac:(lia) ltac:(lia)).
  pose proof (Z.div_pos (rate * n) 1000 ltac:(lia) ltac:(lia)). rewrite i64_small by lia.
  destruct (Z.ltb_spec (rate * n) 1000) as [Hs|Hs].
  - rewrite Z.div_small by lia. cbn. destruct (rate >? 0) eqn:E; [done|]. rewrite Z.gtb_ltb in E. apply Z.ltb_ge in E.
    by replace rate with 0 by lia.
  - assert (1 <= rate * n / 1000) by (apply Z.div_le_lower_bound; lia).
    by replace (rate * n / 1000 =? 0) with false by (symmetry; apply Z.eqb_neq; lia).
Qed.

#[export] Instance txnouttype_eq_dec : EqDecision txnouttype.
Proof. solve_decision. Defined.

Section Meaning.
Context {abi : Abi} {crypto : ScriptCrypto}.
Variables (consensus : Params) (settings : PolicySettings).

(** Any number of keys up to sixteen can be spent, three are relayed. *)
Lemma IsStandard_multisig m keys : Forall (fun k => ValidSize k = true) keys -> 1 <= m <= size keys ->
  size keys <= 16 ->
  exists s, GetScriptForMultisig m keys = Some s /\
    IsStandard settings s = Some (if size keys <=? 3 then Some TX_MULTISIG else None).
Proof.
  intros HF Hm Hs. destruct (Solver_multisig m keys HF Hm Hs) as (s & E & S). exists s. split; [done|].
  unfold IsStandard. rewrite S. cbn [hd_error obind]. rewrite app_comm_cons, last_snoc. cbn [hd_error obind]. f_equal.
  rewrite !Z.gtb_ltb. destruct (Z.leb_spec (size keys) 3); repeat case_match; try done;
    rewrite ?orb_true_iff, ?orb_false_iff, ?Z.ltb_lt, ?Z.ltb_ge in *; lia.
Qed.

Lemma Solver_multisig_shape s sols : Solver s = Some (TX_MULTISIG, sols) -> exists m keys n,
  sols = [m] :: keys ++ [[n]].
Proof. unfold Solver. intros E. repeat case_match; simplify_eq; eauto. Qed.
Lemma IsStandard_total s : exists r, IsStandard settings s = Some r.
Proof.
  unfold IsStandard. destruct (Solver s) as [[t sols]|] eqn:E; [|by eexists]. destruct t; try by eexists.
  apply Solver_multisig_shape in E as (m & keys & n & ->). cbn [hd_error obind]. rewrite app_comm_cons, last_snoc.
  by eexists.
Qed.

Definition standard_input (i : CTxIn) : Prop :=
  CTxIn_IsZerocoinSpend i || CTxIn_IsZerocoinPublicSpend i = true \/
  (size (scriptSig i) <= 1650 /\ IsPushOnly (scriptSig i) = Some true).
Definition standard_output (o : CTxOut) : Prop :=
  exists t, IsStandard settings (scriptPubKey o) = Some (Some t) /\
    (t <> TX_NULL_DATA -> (t = TX_MULTISIG -> fIsBareMultisigStd settings = true) /\
       GetDustThreshold o (minRelayTxFee settings) <= nValue o).
Definition carries_data (o : CTxOut) : bool :=
  match IsStandard settings (scriptPubKey o) with Some (Some TX_NULL_DATA) => true | _ => false end.
Definition data_outputs (outs : list CTxOut) : Z := Z.of_nat (length (List.filter carries_data outs)).
Record standard_tx (adjustedTime : Z) (tx : CTransaction) (nBlockHeight : Z) : Prop := {
  st_version : NetworkUpgradeActive consensus nBlockHeight UPGRADE_V5_0 = true \/ nVersion tx = 1;
  st_final : IsFinalTx adjustedTime tx nBlockHeight 0 = true;
  st_size : GetTotalSize tx < (if IsShieldedTx tx then MAX_TX_SIZE_AFTER_SAPLING
                               else if ContainsZerocoins tx then MAX_ZEROCOIN_TX_SIZE else MAX_STANDARD_TX_SIZE);
  st_inputs : Forall standard_input (vin tx);
  st_outputs : Forall standard_output (vout tx);
  st_data : data_outputs (vout tx) <= 1
}.

Lemma standard_inputs_spec ins : exists r, standard_inputs ins = Some r /\ (r = None <-> Forall standard_input ins).
Proof.
  induction ins as [|i ins (r & E & IH)]; [by exists None|]. cbn [standard_inputs]. setoid_rewrite Forall_cons.
    unfold standard_input at 1.
  destruct (_ || _) eqn:Ez; [exists r; split; [done|]; rewrite IH; tauto|].
  destruct (Z.gtb_spec (size (scriptSig i)) 1650) as [Hs|Hs].
  { eexists. split; [done|]. split; [done|]. intros [[?|[? _]] _]; [done|lia]. }
  destruct (IsPushOnly_total (scriptSig i)) as [push Ep]. rewrite Ep. cbn [obind]. destruct push; cbn [negb].
  - exists r. split; [done|]. rewrite IH. split; [intros H; split; [by right|done]|tauto].
  - eexists. split; [done|]. split; [done|]. by intros [[?|[_ ?]] _].
Qed.
Definition is_multisig (t : txnouttype) : bool := match t with TX_MULTISIG => true | _ => false end.
Lemma standard_outputs_step o outs t n : IsStandard settings (scriptPubKey o) = Some (Some t) -> t <> TX_NULL_DATA ->
  standard_outputs settings (o :: outs) n =
    (if is_multisig t && negb (fIsBareMultisigStd settings) then Some (Some "bare-multisig"%string)
     else if IsDust o (minRelayTxFee settings) then Some (Some "dust"%string) else standard_outputs settings outs n).
Proof. intros E N. cbn [standard_outputs]. rewrite E. cbn [obind]. by destruct t. Qed.
Lemma standard_outputs_spec outs : forall n, 0 <= n -> n + Z.of_nat (length outs) < 2 ^ 32 ->
  exists r, standard_outputs settings outs n = Some r /\
    (r = None <-> Forall standard_output outs /\ n + data_outputs outs <= 1).
Proof.
  induction outs as [|o outs IH]; intros n Hn Hb.
  { unfold data_outputs. cbn. destruct (Z.gtb_spec n 1); (eexists; split; [done|]);
      split; [done|intros [_ ?]; lia|intros _; split; [done|lia]|done]. }
  cbn [length] in *. setoid_rewrite Forall_cons. destruct (IsStandard_total (scriptPubKey o)) as [[t|] Et].
  2:{ cbn [standard_outputs]. rewrite Et. eexists. split; [done|]. split; [done|]. intros [[(t & Ht & _) _] _].
    by rewrite Et in Ht. }
  assert (So : standard_output o <-> (t <> TX_NULL_DATA -> (t = TX_MULTISIG -> fIsBareMultisigStd settings = true) /\
    GetDustThreshold o (minRelayTxFee settings) <= nValue o)).
  { unfold standard_output. rewrite Et. split; [intros (? & [= <-] & H); exact H|by exists t]. }
  setoid_rewrite So. destruct (decide (t = TX_NULL_DATA)) as [->|N].
  - destruct (IH (n + 1)) as (r & Er & Hr); [lia|lia|]. cbn [standard_outputs]. rewrite Et. cbn [obind].
    rewrite u32_small by lia. exists r. split; [done|]. rewrite Hr. unfold data_outputs. cbn [List.filter].
    unfold carries_data at 2. rewrite Et. cbn [length]. rewrite Nat2Z.inj_succ.
      split; intros [H1 H2]; split; (done || lia || tauto).
  - destruct (IH n) as (r & Er & Hr); [lia|lia|]. rewrite (standard_outputs_step o outs t n Et N).
    assert (D : data_outputs (o :: outs) = data_outputs outs)
      by (unfold data_outputs; cbn [List.filter]; unfold carries_data at 1; rewrite Et; by destruct t).
    rewrite D. destruct (is_multisig t && _) eqn:Em.
    { eexists. split; [done|]. split; [done|]. intros [[H _] _]. apply andb_true_iff in Em as [E1 E2%negb_true_iff].
      destruct (H N) as [H1 _]. rewrite H1 in E2; [done|by destruct t]. }
    unfold IsDust. destruct (Z.ltb_spec (nValue o) (GetDustThreshold o (minRelayTxFee settings))) as [Hd|Hd].
    { eexists. split; [done|]. split; [done|]. intros [[H _] _]. destruct (H N). lia. }
    exists r. split; [done|]. rewrite Hr. split; [|tauto]. intros [H1 H2]. split; [|done]. split; [|done].
    intros _. split; [|done]. intros ->. by destruct (fIsBareMultisigStd settings).
Qed.
Lemma IsStandardTx_exact adjustedTime tx nBlockHeight : Z.of_nat (length (vout tx)) < 2 ^ 32 ->
  exists r, IsStandardTx consensus settings adjustedTime tx nBlockHeight = Some r /\ (r = None <->
    standard_tx adjustedTime tx nBlockHeight).
Proof.
  intros Hl. unfold IsStandardTx. destruct (_ && _) eqn:Ev.
  { apply andb_true_iff in Ev as [E1%negb_true_iff E2%negb_true_iff]. apply Z.eqb_neq in E2. eexists. split; [done|].
    split; [done|]. intros [[?|?] _ _ _ _ _]; congruence. }
  destruct (IsFinalTx _ _ _ _) eqn:Ef; cbn [negb]; [|eexists; split; [done|]; split; [done|]; intros []; congruence].
  destruct (Z.geb_spec (GetTotalSize tx) (if IsShieldedTx tx then MAX_TX_SIZE_AFTER_SAPLING
    else if ContainsZerocoins tx then MAX_ZEROCOIN_TX_SIZE else MAX_STANDARD_TX_SIZE)) as [Hs|Hs];
    [eexists; split; [done|]; split; [done|]; intros []; lia|].
  destruct (standard_inputs_spec (vin tx)) as (r & -> & Hr). cbn [obind].
  destruct r as [reason|]; [eexists; split; [done|]; split; [done|]; intros []; tauto|].
  destruct (standard_outputs_spec (vout tx) 0) as (r & -> & Ho); [lia|lia|]. exists r. split; [done|]. rewrite Ho.
  assert (Hv : NetworkUpgradeActive consensus nBlockHeight UPGRADE_V5_0 = true \/ nVersion tx = 1).
  { apply andb_false_iff in Ev as [E%negb_false_iff|E%negb_false_iff]; [by left|right; by apply Z.eqb_eq]. }
  split; [intros [H1 H2]; split; try done; by apply Hr|]. intros []. split; [done|lia].
Qed.

(** * Standard inputs *)

Lemma GetSigOpCount_total script b : 20 * size script < 2 ^ 32 -> exists n, GetSigOpCount script b = Some n /\
  0 <= n <= 20 * size script.
Proof.
  intros Hs. unfold GetSigOpCount. destruct (sigop_loops (length script) script OP_INVALIDOPCODE 0 0) as (ra & ri & Ha
  & Hi & ?); [lia..|].
  destruct b; eexists; (split; [done|]); lia.
Qed.
Lemma EvalScript_returns script flags checker sv : bytes_ok script ->
  (exists e, EvalScript script flags checker sv [] = Err e) \/
  (exists s, EvalScript script flags checker sv [] = Ok s /\ Forall (fun v => size v <= MAX_SCRIPT_ELEMENT_SIZE) s).
Proof.
  intros Hb. pose proof (EvalScript_good script flags checker sv Hb [] (Forall_nil_2 _) ltac:(by vm_compute)) as G.
  destruct (EvalScript script flags checker sv []) as [s|e|]; [right|left; by exists e|done].
  exists s. split; [done|]. destruct G as [G _]. eapply Forall_impl; [exact G|]. by intros v [_ H].
Qed.
Lemma input_standard_total sv prev txin : bytes_ok (scriptSig txin) -> exists r, input_standard sv prev txin = Some r.
Proof.
  intros Hb. unfold input_standard. destruct (Solver (scriptPubKey prev)) as [[t sols]|]; [|by eexists].
  cbv zeta. destruct (_ <? 0); [by eexists|].
  destruct (EvalScript_returns (scriptSig txin) 0 no_checker sv Hb) as [[e ->]|(s & -> & Hs)]; [by eexists|].
  destruct t; try (case_match; by eexists). destruct s as [|sub s]; [by eexists|].
  apply Forall_cons in Hs as [Hsub _]. destruct (Solver sub) as [[t2 sols2]|].
  - repeat case_match; by eexists.
  - destruct (GetSigOpCount_total sub true) as (n & -> & _); [unfold MAX_SCRIPT_ELEMENT_SIZE in Hsub; lia|by eexists].
Qed.
Lemma AreInputsStandard_total AccessCoin tx : Forall (fun i => bytes_ok (scriptSig i)) (vin tx) ->
  exists b, AreInputsStandard AccessCoin tx = Some b.
Proof.
  intros HF. unfold AreInputsStandard. destruct (_ || _); [by eexists|].
  induction HF as [|i ins Hi HF IH]; [by eexists|]. cbn [inputs_standard].
  destruct (input_standard_total (GetRequiredSigVersion tx) (coin_out (AccessCoin (prevout i))) i Hi) as [[b|] ->];
  [by eexists|done].
Qed.

(** Only the coins of the inputs matter. *)
Lemma AreInputsStandard_ext A B tx : Forall (fun i => A (prevout i) = B (prevout i)) (vin tx) ->
  AreInputsStandard A tx = AreInputsStandard B tx.
Proof.
  intros H. unfold AreInputsStandard. destruct (_ || _); [done|]. induction H as [|i ins Hi HF IH]; [done|].
  cbn [inputs_standard]. by rewrite Hi, IH.
Qed.
Lemma inputs_standard_app AccessCoin sv pre post : Forall (fun i =>
  input_standard sv (coin_out (AccessCoin (prevout i))) i = Some None) pre ->
  inputs_standard AccessCoin sv (pre ++ post) = inputs_standard AccessCoin sv post.
Proof. induction 1 as [|i pre Hi HF IH]; [done|]. cbn [inputs_standard app]. by rewrite Hi. Qed.

(** C39: an input that pays to the hash of a script of no known form, with at most
    [MAX_P2SH_SIGOPS] signature operations, ends the check with the answer yes: the inputs
    after it are not looked at, whatever they are. *)
Theorem AreInputsStandard_stops_early AccessCoin tx pre txin post subscript stack n :
  IsCoinBase tx = false -> HasZerocoinSpendInputs tx = false -> vin tx = pre ++ txin :: post ->
  Forall (fun i => input_standard (GetRequiredSigVersion tx) (coin_out (AccessCoin (prevout i))) i = Some None) pre ->
  IsPayToScriptHash (scriptPubKey (coin_out (AccessCoin (prevout txin)))) = true ->
  EvalScript (scriptSig txin) 0 no_checker (GetRequiredSigVersion tx) [] = Ok (subscript :: stack) ->
  Solver subscript = None -> GetSigOpCount subscript true = Some n -> n <= MAX_P2SH_SIGOPS ->
  AreInputsStandard AccessCoin tx = Some true.
Proof.
  intros Hc Hz Hv Hpre Hp He Hs Hn Hle. unfold AreInputsStandard. rewrite Hc, Hz, Hv, inputs_standard_app by done.
  cbn [orb inputs_standard]. unfold input_standard at 1.
  assert (S : Solver (scriptPubKey (coin_out (AccessCoin (prevout txin)))) =
    Some (TX_SCRIPTHASH, [range (scriptPubKey (coin_out (AccessCoin (prevout txin)))) 2 22])).
  { unfold Solver. rewrite Hp. unfold IsPayToScriptHash in Hp. destruct (size _ =? 0) eqn:E; [|done].
    apply Z.eqb_eq in E. rewrite E in Hp. done. }
  rewrite S, He, Hs, Hn. cbn [ScriptSigArgsExpected obind]. by rewrite (proj2 (Z.leb_le n MAX_P2SH_SIGOPS) Hle).
Qed.
End Meaning.

#[local] Existing Instances abi64 toy_crypto.
(** Two inputs: the hash of a script of no known form, and a script nothing is known of. *)
Definition ex_redeem : CScript := [OP_1; OP_DROP; OP_1].
Definition ex_p2sh : CScript := GetScriptForDestination (CScriptID (Hash160 ex_redeem)).
Definition ex_inputs : list CTxIn :=
  [mkTxIn (mkOutPoint (repeat 1 32) 0) (push_data [] ex_redeem) 0; mkTxIn (mkOutPoint (repeat 2 32) 0) [OP_1] 0].
Definition ex_coins_of (o : COutPoint) : Coin :=
  mkCoin false false (mkTxOut 1000 (if list_eqb (out_hash o) (repeat 1 32) then ex_p2sh else [OP_NOP; OP_1]) (-10)) 7.
Definition ex_order (ins : list CTxIn) : CTransaction := mkTx 1 0 ins [mkTxOut 900 ex_p2sh (-10)] 0 None None.
Lemma AreInputsStandard_stops_early_witness :
  AreInputsStandard ex_coins_of (ex_order ex_inputs) = Some true /\
  AreInputsStandard ex_coins_of (ex_order (rev ex_inputs)) = Some false.
Proof.
  split; [|reflexivity].
  apply (AreInputsStandard_stops_early ex_coins_of (ex_order ex_inputs) [] (nth 0 ex_inputs (mkTxIn (mkOutPoint [] 0)
  [] 0))
           (tl ex_inputs) ex_redeem [] 0); try reflexivity; [constructor|discriminate].
Defined.
