(* ===== verification/Coins.v ===== *)
(** The set of unspent outputs: the coin database and the caches over it
    (src/coins.h, src/coins.cpp, src/txdb.cpp, src/sapling/sapling_txdb.cpp).

    A view is anything that keeps the interface [CoinsView]; the database and a
    cache over any view are instances, so caches stack as in the program. *)
From Stdlib Require Import ZArith Lia List Bool.
From stdpp Require Import base gmap list.
From S2P Require Import Prelude Serialize Script Transaction Compressor.
Import ListNotations.
Local Open Scope Z_scope.
Local Open Scope passion_scope.

#[export] Instance COutPoint_eq_dec : EqDecision COutPoint.
Proof. solve_decision. Defined.
#[export] Instance COutPoint_countable : Countable COutPoint.
Proof.
  apply (inj_countable' (fun o => (out_hash o, out_n o)) (fun p => mkOutPoint (fst p) (snd p))).
  by intros [].
Defined.

(** The note commitment tree, used through its root. *)
Class SaplingTreeLib := {
  SaplingMerkleTree : Type;
  tree_root : SaplingMerkleTree -> list Z;
  new_tree : SaplingMerkleTree;
  (* throws when the tree is full *)
  tree_append : SaplingMerkleTree -> list Z -> option SaplingMerkleTree;
  empty_root : list Z;
  root_of_new_tree : tree_root new_tree = empty_root;
  empty_root_not_null : all_zero empty_root = false
}.

(** * Cache entries; the bits of [flags] are booleans *)

Record CCoinsCacheEntry := mkEntry {
  coin : Coin;
  DIRTY : bool;
  FRESH : bool
}.
Record CNullifiersCacheEntry := mkNullifierEntry {
  entered : bool;
  nf_DIRTY : bool
}.
Record CAnchorsSaplingCacheEntry `{SaplingTreeLib} := mkAnchorEntry {
  an_entered : bool;
  tree : SaplingMerkleTree;
  an_DIRTY : bool
}.
Abbreviation CCoinsMap := (gmap COutPoint CCoinsCacheEntry).
Abbreviation CNullifiersMap := (gmap (list Z) CNullifiersCacheEntry).
Abbreviation CAnchorsSaplingMap := (gmap (list Z) CAnchorsSaplingCacheEntry).

(** * What a view stands for

    The unspent coins, the revealed nullifiers, the tip, the roots that may be
    used as anchors and the newest of them. *)
Record Ledger := mkLedger {
  l_utxo : COutPoint -> option Coin;
  l_spent : list Z -> bool;
  l_best : list Z;
  l_anchors : list Z -> bool;
  l_anchor : list Z
}.
Definition leq (l l' : Ledger) : Prop :=
  (forall o, l_utxo l o = l_utxo l' o) /\ (forall n, l_spent l n = l_spent l' n) /\ l_best l = l_best l' /\
  (forall r, l_anchors l r = l_anchors l' r) /\ l_anchor l = l_anchor l'.
#[export] Instance leq_equivalence : Equivalence leq.
Proof.
  split.
  - intros l. by repeat split.
  - intros l l' (H1 & H2 & H3 & H4 & H5). by repeat split; symmetry.
  - intros l l' l'' (H1 & H2 & H3 & H4 & H5) (K1 & K2 & K3 & K4 & K5).
    repeat split; intros; etransitivity; eauto.
Qed.

(** The coin an entry contributes to the set of unspent outputs. *)
Definition live (c : Coin) : option Coin := if IsSpent c then None else Some c.

Section Batches.
Context `{SaplingTreeLib}.

Record Batch := mkBatch {
  b_coins : CCoinsMap;
  b_best : list Z;
  b_anchor : list Z;
  b_anchors : CAnchorsSaplingMap;
  b_nullifiers : CNullifiersMap
}.

(** The ledger after the changes of a batch: its dirty entries. *)
Definition apply_coins (m : CCoinsMap) (utxo : COutPoint -> option Coin) (o : COutPoint) : option Coin :=
  match m !! o with
  | Some e => if DIRTY e then live (coin e) else utxo o
  | None => utxo o
  end.
Definition apply_nullifiers (m : CNullifiersMap) (spent : list Z -> bool) (n : list Z) : bool :=
  match m !! n with
  | Some e => if nf_DIRTY e then entered e else spent n
  | None => spent n
  end.
Definition apply_anchors (m : CAnchorsSaplingMap) (anchors : list Z -> bool) (r : list Z) : bool :=
  match m !! r with
  | Some e => if an_DIRTY e then an_entered e else anchors r
  | None => anchors r
  end.
Definition apply_batch (b : Batch) (l : Ledger) : Ledger :=
  mkLedger (apply_coins (b_coins b) (l_utxo l)) (apply_nullifiers (b_nullifiers b) (l_spent l)) (b_best b)
           (apply_anchors (b_anchors b) (l_anchors l)) (b_anchor b).

(** Batches a view must be able to take: no entry marked FRESH for an output the
    view holds, anchors under their own roots, and the root of the empty tree is
    never withdrawn. *)
Record batch_ok (b : Batch) (l : Ledger) : Prop := {
  best_set : all_zero (b_best b) = false;
  anchor_set : all_zero (b_anchor b) = false;
  fresh_ok : forall o e, b_coins b !! o = Some e -> DIRTY e = true -> FRESH e = true -> l_utxo l o = None;
  anchors_rooted : forall r e, b_anchors b !! r = Some e -> tree_root (tree e) = r;
  empty_root_kept : forall e, b_anchors b !! empty_root = Some e -> an_entered e = true
}.
End Batches.

(** * The interface of views

    The virtual functions of [CCoinsView]; reading may fill caches, so a read returns the
    view too. *)
Class CCoinsView `{SaplingTreeLib} (V : Type) := {
  GetCoin : V -> COutPoint -> option Coin * V;
  GetNullifier : V -> list Z -> bool * V;
  GetBestBlock : V -> list Z * V;
  GetSaplingAnchorAt : V -> list Z -> option SaplingMerkleTree * V;
  GetBestAnchor : V -> list Z * V;
  BatchWrite : V -> Batch -> option V
}.
(** A view that can be read: it stands for a ledger, which reads leave as it is. *)
Class CoinsReader `{SaplingTreeLib} (V : Type) := {
  view_functions :: CCoinsView V;
  view_ok : V -> Prop;
  ledger : V -> Ledger;

  GetCoin_spec : forall v o r v', view_ok v -> GetCoin v o = (r, v') ->
    view_ok v' /\ leq (ledger v') (ledger v) /\ l_utxo (ledger v) o = match r with Some c => live c | None => None end;
  GetNullifier_spec : forall v n b v', view_ok v -> GetNullifier v n = (b, v') ->
    view_ok v' /\ leq (ledger v') (ledger v) /\ l_spent (ledger v) n = b;
  GetBestBlock_spec : forall v h v', view_ok v -> GetBestBlock v = (h, v') ->
    view_ok v' /\ leq (ledger v') (ledger v) /\ l_best (ledger v) = h;
  GetSaplingAnchorAt_spec : forall v rt r v', view_ok v -> GetSaplingAnchorAt v rt = (r, v') ->
    view_ok v' /\ leq (ledger v') (ledger v) /\
    match r with Some t => l_anchors (ledger v) rt = true /\ tree_root t = rt | None => l_anchors (ledger v) rt = false end;
  GetBestAnchor_spec : forall v h v', view_ok v -> GetBestAnchor v = (h, v') ->
    view_ok v' /\ leq (ledger v') (ledger v) /\ l_anchor (ledger v) = h;
  empty_root_anchor : forall v, view_ok v -> l_anchors (ledger v) empty_root = true
}.
(** And written: a batch changes the ledger as it should. *)
Class CoinsView `{SaplingTreeLib} (V : Type) := {
  view_reader :: CoinsReader V;
  BatchWrite_spec : forall v b, view_ok v -> batch_ok b (ledger v) ->
    exists v', BatchWrite v b = Some v' /\ view_ok v' /\ leq (ledger v') (apply_batch b (ledger v))
}.

(** * The database: key ranges of the key-value store as maps *)

Section Database.
Context `{SaplingTreeLib}.

Record CCoinsViewDB := mkDB {
  db_coins : gmap COutPoint Coin;
  db_nullifiers : gset (list Z);
  db_best : list Z;
  db_heads : list (list Z);
  db_anchors : gmap (list Z) SaplingMerkleTree;
  db_anchor : option (list Z)
}.

Definition db_write_coin (coins : gmap COutPoint Coin) (it : COutPoint * CCoinsCacheEntry) : gmap COutPoint Coin :=
  if DIRTY it.2 then if IsSpent (coin it.2) then delete it.1 coins else <[it.1 := coin it.2]> coins
  else coins.
Definition db_write_nullifier (nfs : gset (list Z)) (it : list Z * CNullifiersCacheEntry) : gset (list Z) :=
  if nf_DIRTY it.2 then if entered it.2 then {[it.1]} ∪ nfs else nfs ∖ {[it.1]}
  else nfs.
Definition db_write_anchor (anchors : gmap (list Z) SaplingMerkleTree) (it : list Z * CAnchorsSaplingCacheEntry)
    : gmap (list Z) SaplingMerkleTree :=
  if an_DIRTY it.2 then
    if negb (an_entered it.2) then delete it.1 anchors
    else if negb (list_eqb it.1 empty_root) then <[it.1 := tree it.2]> anchors else anchors
  else anchors.

Definition db_GetCoin (db : CCoinsViewDB) (o : COutPoint) : option Coin := db_coins db !! o.
Definition db_GetNullifier (db : CCoinsViewDB) (n : list Z) : bool := bool_decide (n ∈ db_nullifiers db).
Definition db_GetBestBlock (db : CCoinsViewDB) : list Z := db_best db.
Definition db_GetSaplingAnchorAt (db : CCoinsViewDB) (rt : list Z) : option SaplingMerkleTree :=
  if list_eqb rt empty_root then Some new_tree else db_anchors db !! rt.
Definition db_GetBestAnchor (db : CCoinsViewDB) : list Z :=
  match db_anchor db with Some h => h | None => empty_root end.

(** Partial batches are all written by the end; [None] is a failed assertion. *)
Definition db_BatchWrite (db : CCoinsViewDB) (b : Batch) : option CCoinsViewDB :=
  if all_zero (b_best b) then None
  else if all_zero (db_GetBestBlock db) && (Z.of_nat (length (db_heads db)) =? 2)
          && negb (list_eqb (nth 0%nat (db_heads db) []) (b_best b)) then None
  else Some (mkDB (fold_left db_write_coin (map_to_list (b_coins b)) (db_coins db))
                  (fold_left db_write_nullifier (map_to_list (b_nullifiers b)) (db_nullifiers db))
                  (b_best b) []
                  (fold_left db_write_anchor (map_to_list (b_anchors b)) (db_anchors db))
                  (if all_zero (b_anchor b) then db_anchor db else Some (b_anchor b))).
End Database.

(** * The cache *)

Section Cache.
Context `{STL : SaplingTreeLib} {V : Type} {view : CCoinsView V}.

Record CCoinsViewCache := mkCache {
  base : V;
  hashBlock : list Z;
  cacheCoins : CCoinsMap;
  hashSaplingAnchor : list Z;
  cacheSaplingAnchors : CAnchorsSaplingMap;
  cacheSaplingNullifiers : CNullifiersMap
}.

Definition with_base (c : CCoinsViewCache) (b : V) : CCoinsViewCache :=
  mkCache b (hashBlock c) (cacheCoins c) (hashSaplingAnchor c) (cacheSaplingAnchors c) (cacheSaplingNullifiers c).
Definition with_coins (c : CCoinsViewCache) (m : CCoinsMap) : CCoinsViewCache :=
  mkCache (base c) (hashBlock c) m (hashSaplingAnchor c) (cacheSaplingAnchors c) (cacheSaplingNullifiers c).
Definition with_nullifiers (c : CCoinsViewCache) (m : CNullifiersMap) : CCoinsViewCache :=
  mkCache (base c) (hashBlock c) (cacheCoins c) (hashSaplingAnchor c) (cacheSaplingAnchors c) m.
Definition with_hashBlock (c : CCoinsViewCache) (h : list Z) : CCoinsViewCache :=
  mkCache (base c) h (cacheCoins c) (hashSaplingAnchor c) (cacheSaplingAnchors c) (cacheSaplingNullifiers c).
Definition with_anchor (c : CCoinsViewCache) (h : list Z) : CCoinsViewCache :=
  mkCache (base c) (hashBlock c) (cacheCoins c) h (cacheSaplingAnchors c) (cacheSaplingNullifiers c).
Definition with_anchors (c : CCoinsViewCache) (m : CAnchorsSaplingMap) : CCoinsViewCache :=
  mkCache (base c) (hashBlock c) (cacheCoins c) (hashSaplingAnchor c) m (cacheSaplingNullifiers c).

Definition CCoinsViewCache_new (baseIn : V) : CCoinsViewCache := mkCache baseIn (repeat 0 32) ∅ (repeat 0 32) ∅ ∅.

Definition FetchCoin (c : CCoinsViewCache) (o : COutPoint) : option CCoinsCacheEntry * CCoinsViewCache :=
  match cacheCoins c !! o with
  | Some it => (Some it, c)
  | None =>
      let '(tmp, b) := GetCoin (base c) o in
      match tmp with
      | None => (None, with_base c b)
      | Some tmp =>
          let ret := mkEntry tmp false (IsSpent tmp) in
          (Some ret, with_coins (with_base c b) (<[o := ret]> (cacheCoins c)))
      end
  end.

Definition cache_GetCoin (c : CCoinsViewCache) (o : COutPoint) : option Coin * CCoinsViewCache :=
  let '(it, c) := FetchCoin c o in (option_map coin it, c).
Definition AccessCoin (c : CCoinsViewCache) (o : COutPoint) : Coin * CCoinsViewCache :=
  let '(it, c) := FetchCoin c o in
  (match it with Some e => coin e | None => coinEmpty end, c).
Definition HaveCoin (c : CCoinsViewCache) (o : COutPoint) : bool * CCoinsViewCache :=
  let '(it, c) := FetchCoin c o in
  (match it with Some e => negb (IsSpent (coin e)) | None => false end, c).
Definition HaveCoinInCache (c : CCoinsViewCache) (o : COutPoint) : bool :=
  match cacheCoins c !! o with Some _ => true | None => false end.

(** [None]: the assertion fails or the call throws. *)
Definition AddCoin (c : CCoinsViewCache) (o : COutPoint) (cn : Coin) (possible_overwrite : bool)
    : option CCoinsViewCache :=
  if IsSpent cn then None
  else if IsUnspendable (scriptPubKey (coin_out cn)) then Some c
  else if CTxOut_IsZerocoinMint (coin_out cn) then Some c
  else
    let it := match cacheCoins c !! o with Some e => e | None => mkEntry coinEmpty false false end in
    if negb possible_overwrite && negb (IsSpent (coin it)) then None
    else
      let fresh := negb possible_overwrite && negb (DIRTY it) in
      Some (with_coins c (<[o := mkEntry cn true (FRESH it || fresh)]> (cacheCoins c))).

(** The coin moved out, and the cache. *)
Definition SpendCoin (c : CCoinsViewCache) (o : COutPoint) : option Coin * CCoinsViewCache :=
  let '(it, c) := FetchCoin c o in
  match it with
  | None => (None, c)
  | Some e =>
      (Some (coin e),
       if FRESH e then with_coins c (delete o (cacheCoins c))
       else with_coins c (<[o := mkEntry coinEmpty true (FRESH e)]> (cacheCoins c)))
  end.

Definition cache_GetBestBlock (c : CCoinsViewCache) : list Z * CCoinsViewCache :=
  if all_zero (hashBlock c) then
    let '(h, b) := GetBestBlock (base c) in (h, with_hashBlock (with_base c b) h)
  else (hashBlock c, c).
Definition SetBestBlock (c : CCoinsViewCache) (h : list Z) : CCoinsViewCache := with_hashBlock c h.

Definition cache_GetNullifier (c : CCoinsViewCache) (n : list Z) : bool * CCoinsViewCache :=
  match cacheSaplingNullifiers c !! n with
  | Some e => (entered e, c)
  | None =>
      let '(tmp, b) := GetNullifier (base c) n in
      (tmp, with_nullifiers (with_base c b) (<[n := mkNullifierEntry tmp false]> (cacheSaplingNullifiers c)))
  end.
Definition set_nullifier (isSpent : bool) (m : CNullifiersMap) (d : SpendDescription) : CNullifiersMap :=
  <[nullifier d := mkNullifierEntry isSpent true]> m.
Definition SetNullifiers (c : CCoinsViewCache) (tx : CTransaction) (isSpent : bool) : CCoinsViewCache :=
  match sapData tx with
  | Some d => with_nullifiers c (fold_left (set_nullifier isSpent) (vShieldedSpend d) (cacheSaplingNullifiers c))
  | None => c
  end.

Definition cache_GetSaplingAnchorAt (c : CCoinsViewCache) (rt : list Z) : option SaplingMerkleTree * CCoinsViewCache :=
  match cacheSaplingAnchors c !! rt with
  | Some e => (if an_entered e then Some (tree e) else None, c)
  | None =>
      let '(t, b) := GetSaplingAnchorAt (base c) rt in
      match t with
      | None => (None, with_base c b)
      | Some t => (Some t, with_anchors (with_base c b) (<[rt := mkAnchorEntry _ true t false]> (cacheSaplingAnchors c)))
      end
  end.
Definition cache_GetBestAnchor (c : CCoinsViewCache) : list Z * CCoinsViewCache :=
  if all_zero (hashSaplingAnchor c) then
    let '(h, b) := GetBestAnchor (base c) in (h, with_anchor (with_base c b) h)
  else (hashSaplingAnchor c, c).
Definition PushAnchor (c : CCoinsViewCache) (t : SaplingMerkleTree) : CCoinsViewCache :=
  let newrt := tree_root t in
  let '(currentRoot, c) := cache_GetBestAnchor c in
  if negb (list_eqb currentRoot newrt)
  then with_anchor (with_anchors c (<[newrt := mkAnchorEntry _ true t true]> (cacheSaplingAnchors c))) newrt
  else c.
(** [None]: the current best anchor is not there. *)
Definition PopAnchor (c : CCoinsViewCache) (newrt : list Z) : option CCoinsViewCache :=
  let '(currentRoot, c) := cache_GetBestAnchor c in
  if negb (list_eqb currentRoot newrt) then
    let '(t, c) := cache_GetSaplingAnchorAt c currentRoot in
    match t with
    | None => None
    | Some t =>
        let e := match cacheSaplingAnchors c !! currentRoot with Some e => tree e | None => new_tree end in
        Some (with_anchor (with_anchors c (<[currentRoot := mkAnchorEntry _ false e true]> (cacheSaplingAnchors c))) newrt)
    end
  else Some c.

(** The tests of the shielded spends, one after the other. *)
Fixpoint shielded_requirements (ds : list SpendDescription) (c : CCoinsViewCache) : bool * CCoinsViewCache :=
  match ds with
  | [] => (true, c)
  | d :: ds =>
      let '(b, c) := cache_GetNullifier c (nullifier d) in
      if b then (false, c)
      else
        let '(t, c) := cache_GetSaplingAnchorAt c (anchor d) in
        match t with
        | None => (false, c)
        | Some _ => shielded_requirements ds c
        end
  end.
Definition HaveShieldedRequirements (c : CCoinsViewCache) (tx : CTransaction) : bool * CCoinsViewCache :=
  if IsShieldedTx tx then
    match sapData tx with Some d => shielded_requirements (vShieldedSpend d) c | None => (true, c) end
  else (true, c).

(** One entry of the child written into the parent's map; [None] is the thrown
    [logic_error]. *)
Definition batch_coin (us : option CCoinsMap) (it : COutPoint * CCoinsCacheEntry) : option CCoinsMap :=
  us <- us;;
  if DIRTY it.2 then
    match us !! it.1 with
    | None =>
        if FRESH it.2 && IsSpent (coin it.2) then Some us
        else Some (<[it.1 := mkEntry (coin it.2) true (FRESH it.2)]> us)
    | Some itUs =>
        if FRESH it.2 && negb (IsSpent (coin itUs)) then None
        else if FRESH itUs && IsSpent (coin it.2) then Some (delete it.1 us)
        else Some (<[it.1 := mkEntry (coin it.2) true (FRESH itUs)]> us)
    end
  else Some us.
Definition batch_nullifier (us : CNullifiersMap) (it : list Z * CNullifiersCacheEntry) : CNullifiersMap :=
  if nf_DIRTY it.2 then
    match us !! it.1 with
    | None => <[it.1 := mkNullifierEntry (entered it.2) true]> us
    | Some parent =>
        if negb (Bool.eqb (entered parent) (entered it.2))
        then <[it.1 := mkNullifierEntry (entered it.2) true]> us else us
    end
  else us.
Definition batch_anchor (us : CAnchorsSaplingMap) (it : list Z * CAnchorsSaplingCacheEntry) : CAnchorsSaplingMap :=
  if an_DIRTY it.2 then
    match us !! it.1 with
    | None => <[it.1 := mkAnchorEntry _ (an_entered it.2) (tree it.2) true]> us
    | Some parent =>
        if negb (Bool.eqb (an_entered parent) (an_entered it.2))
        then <[it.1 := mkAnchorEntry _ (an_entered it.2) (tree parent) true]> us else us
    end
  else us.
Definition cache_BatchWrite (c : CCoinsViewCache) (b : Batch) : option CCoinsViewCache :=
  coins <- fold_left batch_coin (map_to_list (b_coins b)) (Some (cacheCoins c));;
  let anchors := fold_left batch_anchor (map_to_list (b_anchors b)) (cacheSaplingAnchors c) in
  let nfs := fold_left batch_nullifier (map_to_list (b_nullifiers b)) (cacheSaplingNullifiers c) in
  Some (mkCache (base c) (b_best b) coins (b_anchor b) anchors nfs).

Definition Flush (c : CCoinsViewCache) : option CCoinsViewCache :=
  b <- BatchWrite (base c)
         (mkBatch (cacheCoins c) (hashBlock c) (hashSaplingAnchor c) (cacheSaplingAnchors c) (cacheSaplingNullifiers c));;
  Some (mkCache b (hashBlock c) ∅ (hashSaplingAnchor c) ∅ ∅).

Definition Uncache (c : CCoinsViewCache) (o : COutPoint) : CCoinsViewCache :=
  match cacheCoins c !! o with
  | Some e => if negb (DIRTY e) && negb (FRESH e) then with_coins c (delete o (cacheCoins c)) else c
  | None => c
  end.

#[export] Instance CCoinsViewCache_functions : CCoinsView CCoinsViewCache | 10 := {|
  GetCoin := cache_GetCoin;
  GetNullifier := cache_GetNullifier;
  GetBestBlock := cache_GetBestBlock;
  GetSaplingAnchorAt := cache_GetSaplingAnchorAt;
  GetBestAnchor := cache_GetBestAnchor;
  BatchWrite := cache_BatchWrite |}.
End Cache.
Arguments CCoinsViewCache {STL} V.

(** * Loops over the entries of a map

    The order of an unordered map does not matter when the step for a key only
    touches that key. *)

Section MapLoops.
Context {K A B : Type} `{Countable K}.
Implicit Types (m : gmap K A) (us : gmap K B).

(** [f] of the entry decides what the key holds afterwards. *)
Definition pointwise (f : option B -> A -> option B) (step : gmap K B -> K * A -> gmap K B) : Prop :=
  forall us it k, step us it !! k = if decide (it.1 = k) then f (us !! k) it.2 else us !! k.

(** The same at one key. *)
Definition pointwise_at (k : K) (f : option B -> A -> option B) (step : gmap K B -> K * A -> gmap K B) : Prop :=
  forall us it, step us it !! k = if decide (it.1 = k) then f (us !! k) it.2 else us !! k.

Lemma fold_pointwise_at f step (l : list (K * A)) k : pointwise_at k f step -> NoDup l.*1 -> forall us,
  fold_left step l us !! k =
    match (list_to_map l : gmap K A) !! k with Some e => f (us !! k) e | None => us !! k end.
Proof.
  intros Hp. induction l as [|[k0 e0] l IH]; intros HN us; [done|].
  apply NoDup_cons in HN as [Hni HN]. cbn [fold_left list_to_map foldr]. rewrite IH by done. rewrite Hp. cbn [fst snd].
  rewrite lookup_insert. destruct (decide (k0 = k)) as [->|Hne]; [|done].
  by rewrite (not_elem_of_list_to_map_1 l k).
Qed.

Lemma fold_map_pointwise_at k f step m us : pointwise_at k f step ->
  fold_left step (map_to_list m) us !! k =
    match m !! k with Some e => f (us !! k) e | None => us !! k end.
Proof.
  intros Hp. rewrite (fold_pointwise_at f) by (done || apply NoDup_fst_map_to_list).
  by rewrite list_to_map_to_list.
Qed.
Lemma fold_map_pointwise f step m us k : pointwise f step ->
  fold_left step (map_to_list m) us !! k =
    match m !! k with Some e => f (us !! k) e | None => us !! k end.
Proof. intros Hp. apply fold_map_pointwise_at. intros us' it. apply Hp. Qed.

(** A step that may throw runs like the total one while it does not. *)
Definition agrees (ostep : option (gmap K B) -> K * A -> option (gmap K B)) (step : gmap K B -> K * A -> gmap K B)
    (safe : option B -> A -> Prop) : Prop :=
  forall us it, safe (us !! it.1) it.2 -> ostep (Some us) it = Some (step us it).

Lemma fold_agrees f ostep step safe (l : list (K * A)) : agrees ostep step safe -> pointwise f step -> NoDup l.*1 ->
  forall us, (forall it, it ∈ l -> safe (us !! it.1) it.2) -> fold_left ostep l (Some us) = Some (fold_left step l us).
Proof.
  intros Ha Hp. induction l as [|it l IH]; intros HN us Hs; [done|].
  apply NoDup_cons in HN as [Hni HN]. cbn [fold_left].
  rewrite Ha by (apply Hs; left). apply IH; [done|].
  intros it' Hit. rewrite Hp. destruct (decide (it.1 = it'.1)) as [E|_]; [|apply Hs; by right].
  exfalso. apply Hni. rewrite E. by apply list_elem_of_fmap_2.
Qed.
End MapLoops.

(** * The database keeps the interface *)

Section DatabaseView.
Context `{STL : SaplingTreeLib}.

Definition db_utxo (db : CCoinsViewDB) (o : COutPoint) : option Coin :=
  match db_GetCoin db o with Some c => live c | None => None end.
Definition db_has_anchor (db : CCoinsViewDB) (r : list Z) : bool :=
  match db_GetSaplingAnchorAt db r with Some _ => true | None => false end.
Definition db_ledger (db : CCoinsViewDB) : Ledger :=
  mkLedger (db_utxo db) (db_GetNullifier db) (db_GetBestBlock db) (db_has_anchor db) (db_GetBestAnchor db).
(** Not in the middle of a replay; trees under their roots. *)
Definition db_ok (db : CCoinsViewDB) : Prop :=
  db_heads db = [] /\ forall r t, db_anchors db !! r = Some t -> tree_root t = r.

Lemma db_write_coin_pointwise :
  pointwise (fun us e => if DIRTY e then live (coin e) else us) db_write_coin.
Proof.
  intros us [o e] k. cbn. unfold db_write_coin, live. cbn. destruct (DIRTY e), (IsSpent (coin e));
    rewrite ?lookup_delete, ?lookup_insert; by case_decide.
Qed.

Lemma db_write_anchor_pointwise r :
  pointwise_at r (fun us e => if an_DIRTY e then
                         if an_entered e then if list_eqb r empty_root then us else Some (tree e) else None else us)
            db_write_anchor.
Proof.
  intros us [o e]. cbn. unfold db_write_anchor. cbn. destruct (an_DIRTY e), (an_entered e); cbn; try by case_decide.
  - destruct (decide (o = r)) as [->|E].
    + destruct (list_eqb r empty_root); cbn; [done|]. by rewrite lookup_insert_eq.
    + destruct (list_eqb o empty_root); cbn; [done|]. by rewrite lookup_insert_ne.
  - rewrite lookup_delete. by case_decide.
Qed.

Lemma db_write_nullifiers_spec l nfs n : NoDup l.*1 ->
  bool_decide (n ∈ fold_left db_write_nullifier l nfs) =
    apply_nullifiers (list_to_map l : CNullifiersMap) (fun n => bool_decide (n ∈ nfs)) n.
Proof.
  revert nfs. induction l as [|[n0 e0] l IH]; intros nfs HN; [done|].
  apply NoDup_cons in HN as [Hni HN]. cbn [fold_left]. rewrite IH by done. unfold apply_nullifiers.
  rewrite list_to_map_cons, lookup_insert. unfold db_write_nullifier. cbn [fst snd].
  destruct (decide (n0 = n)) as [->|Hne].
  - rewrite (not_elem_of_list_to_map_1 l n) by done.
    destruct (nf_DIRTY e0), (entered e0); try done; case_bool_decide; set_solver.
  - destruct (list_to_map l !! n) as [e|]; [destruct (nf_DIRTY e); [done|]|];
      destruct (nf_DIRTY e0), (entered e0); try done; apply bool_decide_ext; set_solver.
Qed.

Lemma live_idem c : match live c with Some d => live d | None => None end = live c.
Proof. unfold live. destruct (IsSpent c) eqn:E; [done|]. by rewrite E. Qed.

Lemma db_BatchWrite_spec db b : db_ok db -> batch_ok b (db_ledger db) ->
  exists db', db_BatchWrite db b = Some db' /\ db_ok db' /\ leq (db_ledger db') (apply_batch b (db_ledger db)).
Proof.
  intros [Hok Htr] [Hh Ha _ Hroot Hempty]. unfold db_BatchWrite. rewrite Hh, Ha, Hok. cbn [length Z.of_nat Z.eqb].
  rewrite andb_false_r. cbn [andb]. eexists. split; [done|]. split; [split; [done|]|].
  - intros r t. cbn [db_anchors]. rewrite (fold_map_pointwise_at r _ _ _ _ (db_write_anchor_pointwise r)).
    destruct (b_anchors b !! r) as [e|] eqn:Ee; [|apply Htr].
    destruct (an_DIRTY e); [|apply Htr]. destruct (an_entered e); [|done].
    destruct (list_eqb r empty_root); [apply Htr|]. intros [= <-]. by apply Hroot.
  - split; [|split; [|split; [done|split]]].
    + intros o. cbn. unfold db_utxo, db_GetCoin, apply_coins. cbn [db_coins].
      rewrite (fold_map_pointwise _ _ _ _ _ db_write_coin_pointwise).
      destruct (b_coins b !! o) as [e|]; [|done]. destruct (DIRTY e); [apply live_idem|done].
    + intros n. cbn. unfold db_GetNullifier. cbn [db_nullifiers].
      rewrite db_write_nullifiers_spec by apply NoDup_fst_map_to_list. by rewrite list_to_map_to_list.
    + intros r. cbn. unfold db_has_anchor, db_GetSaplingAnchorAt, apply_anchors. cbn [db_anchors].
      rewrite (fold_map_pointwise_at r _ _ _ _ (db_write_anchor_pointwise r)).
      destruct (list_eqb r empty_root) eqn:Er.
      * apply list_eqb_eq in Er. subst r. destruct (b_anchors b !! empty_root) as [e|] eqn:Ee; [|done].
        rewrite (Hempty e eq_refl). by destruct (an_DIRTY e).
      * destruct (b_anchors b !! r) as [e|]; [|done]. destruct (an_DIRTY e); [|done]. by destruct (an_entered e).
    + done.
Qed.

Lemma db_GetSaplingAnchorAt_root db rt t : db_ok db -> db_GetSaplingAnchorAt db rt = Some t -> tree_root t = rt.
Proof.
  intros [_ Htr]. unfold db_GetSaplingAnchorAt. destruct (list_eqb rt empty_root) eqn:E; [|apply Htr].
  apply list_eqb_eq in E. subst rt. intros [= <-]. apply root_of_new_tree.
Qed.

#[export] Instance CCoinsViewDB_functions : CCoinsView CCoinsViewDB | 10 := {|
  GetCoin db o := (db_GetCoin db o, db);
  GetNullifier db n := (db_GetNullifier db n, db);
  GetBestBlock db := (db_GetBestBlock db, db);
  GetSaplingAnchorAt db r := (db_GetSaplingAnchorAt db r, db);
  GetBestAnchor db := (db_GetBestAnchor db, db);
  BatchWrite := db_BatchWrite |}.
#[export] Instance CCoinsViewDB_reader : CoinsReader CCoinsViewDB | 10.
Proof.
  refine {| view_functions := CCoinsViewDB_functions; view_ok := db_ok; ledger := db_ledger |}.
  - by intros v o r v' Hok [= <- <-].
  - by intros v n b v' Hok [= <- <-].
  - by intros v h v' Hok [= <- <-].
  - intros v rt r v' Hok [= <- <-]. split; [done|]. split; [done|]. cbn. unfold db_has_anchor.
    destruct (db_GetSaplingAnchorAt v rt) as [t|] eqn:E; [|done]. split; [done|]. by apply (db_GetSaplingAnchorAt_root v).
  - by intros v h v' Hok [= <- <-].
  - intros v Hok. cbn. unfold db_has_anchor, db_GetSaplingAnchorAt. by rewrite (proj2 (list_eqb_eq _ _) eq_refl).
Defined.
#[export] Instance CCoinsViewDB_view : CoinsView CCoinsViewDB := {| view_reader := CCoinsViewDB_reader; BatchWrite_spec := db_BatchWrite_spec |}.
End DatabaseView.

(** * A cache keeps the interface *)

Section CacheView.
Context `{STL : SaplingTreeLib} {V : Type} {view : CoinsReader V}.
Implicit Types (c : CCoinsViewCache V).

Definition cache_utxo c (o : COutPoint) : option Coin :=
  match cacheCoins c !! o with Some e => live (coin e) | None => l_utxo (ledger (base c)) o end.
Definition cache_spent c (n : list Z) : bool :=
  match cacheSaplingNullifiers c !! n with Some e => entered e | None => l_spent (ledger (base c)) n end.
Definition cache_best c : list Z := if all_zero (hashBlock c) then l_best (ledger (base c)) else hashBlock c.
Definition cache_has_anchor c (r : list Z) : bool :=
  match cacheSaplingAnchors c !! r with Some e => an_entered e | None => l_anchors (ledger (base c)) r end.
Definition cache_anchor c : list Z :=
  if all_zero (hashSaplingAnchor c) then l_anchor (ledger (base c)) else hashSaplingAnchor c.
Definition cache_ledger c : Ledger :=
  mkLedger (cache_utxo c) (cache_spent c) (cache_best c) (cache_has_anchor c) (cache_anchor c).

(** What an entry promises about the view below. *)
Definition entry_ok (below : option Coin) (e : CCoinsCacheEntry) : Prop :=
  (FRESH e = true -> below = None) /\ (DIRTY e = false -> below = live (coin e)).
Definition nullifier_ok (below : bool) (e : CNullifiersCacheEntry) : Prop := nf_DIRTY e = false -> below = entered e.
Definition anchor_ok (below : bool) (r : list Z) (e : CAnchorsSaplingCacheEntry) : Prop :=
  tree_root (tree e) = r /\ (an_DIRTY e = false -> below = an_entered e) /\ (r = empty_root -> an_entered e = true).
Record cache_ok c : Prop := {
  base_ok : view_ok (base c);
  coins_ok : forall o e, cacheCoins c !! o = Some e -> entry_ok (l_utxo (ledger (base c)) o) e;
  nullifiers_ok : forall n e, cacheSaplingNullifiers c !! n = Some e -> nullifier_ok (l_spent (ledger (base c)) n) e;
  anchors_ok : forall r e, cacheSaplingAnchors c !! r = Some e -> anchor_ok (l_anchors (ledger (base c)) r) r e
}.

(** A read of the view below. *)
Lemma with_base_ok c b : cache_ok c -> view_ok b -> leq (ledger b) (ledger (base c)) ->
  cache_ok (with_base c b) /\ leq (cache_ledger (with_base c b)) (cache_ledger c).
Proof.
  intros [Hv Hc Hn Ha] Hb (Hu & Hs & Hbest & Har & Hra). split.
  - split; [done|..]; cbn.
    + intros o e. rewrite Hu. apply Hc.
    + intros n e. rewrite Hs. apply Hn.
    + intros r e. rewrite Har. apply Ha.
  - unfold cache_ledger, cache_utxo, cache_spent, cache_best, cache_has_anchor, cache_anchor. cbn.
    repeat split; cbn; intros; by rewrite ?Hu, ?Hs, ?Hbest, ?Har, ?Hra.
Qed.

(** Writing an entry that keeps its promise. *)
Lemma insert_coin_ok c o e : cache_ok c -> entry_ok (l_utxo (ledger (base c)) o) e ->
  cache_ok (with_coins c (<[o := e]> (cacheCoins c))).
Proof.
  intros [Hv Hc Hn Ha] He. split; [done| |done|done]. intros o' e'. cbn. rewrite lookup_insert.
  case_decide; [intros [= <-]; by subst|apply Hc].
Qed.
Lemma delete_coin_ok c o : cache_ok c -> cache_ok (with_coins c (delete o (cacheCoins c))).
Proof.
  intros [Hv Hc Hn Ha]. split; [done| |done|done]. intros o' e'. cbn. rewrite lookup_delete.
  case_decide; [done|apply Hc].
Qed.
Lemma insert_anchor_ok c r e : cache_ok c -> anchor_ok (l_anchors (ledger (base c)) r) r e ->
  cache_ok (with_anchors c (<[r := e]> (cacheSaplingAnchors c))).
Proof.
  intros [Hv Hc Hn Ha] He. split; [done|done|done|]. intros r' e'. cbn. rewrite lookup_insert.
  case_decide; [intros [= <-]; by subst|apply Ha].
Qed.
Lemma insert_coin_utxo c o e o' :
  cache_utxo (with_coins c (<[o := e]> (cacheCoins c))) o' = if decide (o = o') then live (coin e) else cache_utxo c o'.
Proof. unfold cache_utxo. cbn. rewrite lookup_insert. by case_decide. Qed.
Lemma delete_coin_utxo c o o' :
  cache_utxo (with_coins c (delete o (cacheCoins c))) o' =
    if decide (o = o') then l_utxo (ledger (base c)) o' else cache_utxo c o'.
Proof. unfold cache_utxo. cbn. rewrite lookup_delete. by case_decide. Qed.
Lemma insert_anchor_has c r e r' :
  cache_has_anchor (with_anchors c (<[r := e]> (cacheSaplingAnchors c))) r' =
    if decide (r = r') then an_entered e else cache_has_anchor c r'.
Proof. unfold cache_has_anchor. cbn. rewrite lookup_insert. by case_decide. Qed.

(** The hashes remembered so far; reads only ever add to them. *)
Definition keeps_hashes c c' : Prop :=
  (all_zero (hashBlock c) = false -> hashBlock c' = hashBlock c) /\
  (all_zero (hashSaplingAnchor c) = false -> hashSaplingAnchor c' = hashSaplingAnchor c).

Lemma FetchCoin_spec c o r c' : cache_ok c -> FetchCoin c o = (r, c') ->
  cache_ok c' /\ leq (cache_ledger c') (cache_ledger c) /\ keeps_hashes c c' /\ cacheCoins c' !! o = r /\
  cache_utxo c o = match r with Some e => live (coin e) | None => None end.
Proof.
  intros Hok. unfold FetchCoin. destruct (cacheCoins c !! o) as [e|] eqn:El.
  { intros [= <- <-]. repeat (split; [done|]). unfold cache_utxo. by rewrite El. }
  destruct (GetCoin (base c) o) as [tmp b] eqn:Eg.
  destruct (GetCoin_spec _ _ _ _ (base_ok c Hok) Eg) as (Hb & Hl & Hr).
  destruct (with_base_ok c b Hok Hb Hl) as [Hok' Hsame].
  assert (Eu : cache_utxo c o = l_utxo (ledger (base c)) o) by (unfold cache_utxo; by rewrite El).
  destruct tmp as [t|]; intros [= <- <-].
  - split; [apply (insert_coin_ok (with_base c b)); [done|]|].
    { cbn. rewrite (proj1 Hl), Hr. split; cbn; [|done]. intros Hsp. unfold live. by rewrite Hsp. }
    split; [|split; [done|split; [cbn; by rewrite lookup_insert_eq|by rewrite Eu]]].
    destruct Hsame as (S1 & S2). split; [|exact S2]. intros o'. cbn.
    rewrite (insert_coin_utxo (with_base c b)). case_decide; [subst o'|apply S1]. by rewrite Eu, Hr.
  - repeat (split; [done|]). by rewrite Eu.
Qed.

Lemma cache_GetNullifier_spec c n b c' : cache_ok c -> cache_GetNullifier c n = (b, c') ->
  cache_ok c' /\ leq (cache_ledger c') (cache_ledger c) /\ keeps_hashes c c' /\ cache_spent c n = b.
Proof.
  intros Hok. unfold cache_GetNullifier. destruct (cacheSaplingNullifiers c !! n) as [e|] eqn:El.
  { intros [= <- <-]. repeat (split; [done|]). unfold cache_spent. by rewrite El. }
  destruct (GetNullifier (base c) n) as [tmp b0] eqn:Eg. intros [= <- <-].
  destruct (GetNullifier_spec _ _ _ _ (base_ok c Hok) Eg) as (Hb & Hl & Hr).
  destruct (with_base_ok c b0 Hok Hb Hl) as [[Hv Hc Hn Ha] (S1 & S2 & S3)].
  assert (Es : cache_spent c n = tmp) by (unfold cache_spent; by rewrite El).
  split; [|split; [|done]].
  - split; [done|done| |done]. intros n' e. cbn. rewrite lookup_insert.
    case_decide; [intros [= <-] _; subst n'; cbn; by rewrite (proj1 (proj2 Hl))|apply Hn].
  - split; [done|]. split; [|done]. intros n'. rewrite <- S2. cbn. unfold cache_spent. cbn. rewrite lookup_insert.
    case_decide; [subst n'; cbn; by rewrite El, (proj1 (proj2 Hl))|done].
Qed.

Lemma cache_GetBestBlock_spec c h c' : cache_ok c -> cache_GetBestBlock c = (h, c') ->
  cache_ok c' /\ leq (cache_ledger c') (cache_ledger c) /\ keeps_hashes c c' /\ hashBlock c' = h /\ cache_best c = h.
Proof.
  intros Hok. unfold cache_GetBestBlock. destruct (all_zero (hashBlock c)) eqn:Ez.
  2:{ intros [= <- <-]. repeat (split; [done|]). unfold cache_best. by rewrite Ez. }
  destruct (GetBestBlock (base c)) as [h0 b] eqn:Eg. intros [= <- <-].
  destruct (GetBestBlock_spec _ _ _ (base_ok c Hok) Eg) as (Hb & Hl & Hr).
  destruct (with_base_ok c b Hok Hb Hl) as [[Hv Hc Hn Ha] (S1 & S2 & S3 & S4 & S5)].
  assert (Eb : cache_best c = h0) by (unfold cache_best; by rewrite Ez).
  split; [done|]. split; [|split; [split; [by rewrite Ez|done]|done]].
  split; [done|]. split; [done|]. split; [|done]. cbn [cache_ledger l_best]. rewrite Eb.
  unfold cache_best. cbn [hashBlock with_hashBlock with_base base].
  rewrite (proj1 (proj2 (proj2 Hl))), Hr. by case_match.
Qed.

Lemma cache_GetBestAnchor_spec c h c' : cache_ok c -> cache_GetBestAnchor c = (h, c') ->
  cache_ok c' /\ leq (cache_ledger c') (cache_ledger c) /\ keeps_hashes c c' /\ hashSaplingAnchor c' = h /\ cache_anchor c = h.
Proof.
  intros Hok. unfold cache_GetBestAnchor. destruct (all_zero (hashSaplingAnchor c)) eqn:Ez.
  2:{ intros [= <- <-]. repeat (split; [done|]). unfold cache_anchor. by rewrite Ez. }
  destruct (GetBestAnchor (base c)) as [h0 b] eqn:Eg. intros [= <- <-].
  destruct (GetBestAnchor_spec _ _ _ (base_ok c Hok) Eg) as (Hb & Hl & Hr).
  destruct (with_base_ok c b Hok Hb Hl) as [[Hv Hc Hn Ha] (S1 & S2 & S3 & S4 & S5)].
  assert (Eb : cache_anchor c = h0) by (unfold cache_anchor; by rewrite Ez).
  split; [done|]. split; [|split; [split; [done|by rewrite Ez]|done]].
  split; [done|]. split; [done|]. split; [done|]. split; [done|]. cbn [cache_ledger l_anchor]. rewrite Eb.
  unfold cache_anchor. cbn [hashSaplingAnchor with_anchor with_base base].
  rewrite (proj2 (proj2 (proj2 (proj2 Hl)))), Hr. by case_match.
Qed.

Lemma cache_GetSaplingAnchorAt_spec c rt r c' : cache_ok c -> cache_GetSaplingAnchorAt c rt = (r, c') ->
  cache_ok c' /\ leq (cache_ledger c') (cache_ledger c) /\ keeps_hashes c c' /\
  match r with
  | Some t => cache_has_anchor c rt = true /\ tree_root t = rt /\ exists e, cacheSaplingAnchors c' !! rt = Some e
  | None => cache_has_anchor c rt = false
  end.
Proof.
  intros Hok. unfold cache_GetSaplingAnchorAt. destruct (cacheSaplingAnchors c !! rt) as [e|] eqn:El.
  { intros [= <- <-]. repeat (split; [done|]). unfold cache_has_anchor. rewrite El.
    destruct (an_entered e); [|done]. split; [done|]. split; [by apply (anchors_ok c Hok rt e)|by exists e]. }
  destruct (GetSaplingAnchorAt (base c) rt) as [t b] eqn:Eg.
  destruct (GetSaplingAnchorAt_spec _ _ _ _ (base_ok c Hok) Eg) as (Hb & Hl & Hr).
  destruct (with_base_ok c b Hok Hb Hl) as [Hok' Hsame].
  assert (Eu : cache_has_anchor c rt = l_anchors (ledger (base c)) rt) by (unfold cache_has_anchor; by rewrite El).
  destruct t as [t|]; intros [= <- <-].
  - destruct Hr as [Hr1 Hr2]. destruct Hl as (L1 & L2 & L3 & L4 & L5).
    split; [apply (insert_anchor_ok (with_base c b)); [done|]|].
    { split; [done|]. split; cbn; [intros _; by rewrite L4|done]. }
    split; [|split; [done|split; [by rewrite Eu|split; [done|eexists; cbn; by rewrite lookup_insert_eq]]]].
    destruct Hsame as (S1 & S2 & S3 & S4 & S5). repeat (split; [done|]). split; [|done]. intros r'. cbn.
    rewrite (insert_anchor_has (with_base c b)). case_decide; [subst r'; by rewrite Eu|apply S4].
  - repeat (split; [done|]). by rewrite Eu.
Qed.

(** The total step of [BatchWrite] and what it leaves under the key. *)
Definition batch_entry (us : option CCoinsCacheEntry) (e : CCoinsCacheEntry) : option CCoinsCacheEntry :=
  if DIRTY e then
    match us with
    | None => if FRESH e && IsSpent (coin e) then None else Some (mkEntry (coin e) true (FRESH e))
    | Some u => if FRESH u && IsSpent (coin e) then None else Some (mkEntry (coin e) true (FRESH u))
    end
  else us.
Definition batch_total (us : CCoinsMap) (it : COutPoint * CCoinsCacheEntry) : CCoinsMap :=
  partial_alter (fun u => batch_entry u it.2) it.1 us.
Definition batch_safe (us : option CCoinsCacheEntry) (e : CCoinsCacheEntry) : Prop :=
  DIRTY e = true -> FRESH e = true -> forall u, us = Some u -> IsSpent (coin u) = true.

Lemma batch_total_pointwise : pointwise batch_entry batch_total.
Proof. intros us it k. unfold batch_total. rewrite lookup_partial_alter. by case_decide; subst. Qed.

Lemma batch_coin_agrees : agrees batch_coin batch_total batch_safe.
Proof.
  intros us [o e] Hs. unfold batch_coin, batch_total. cbn in *. unfold batch_safe in Hs.
  destruct (us !! o) as [u|] eqn:El; destruct (DIRTY e) eqn:Ed.
  - destruct (FRESH e) eqn:Ef; cbn; [rewrite (Hs eq_refl eq_refl u eq_refl); cbn|];
      destruct (FRESH u && IsSpent (coin e)) eqn:Eu; f_equal;
      apply map_eq; intros k; rewrite lookup_partial_alter, ?lookup_delete, ?lookup_insert;
      (case_decide; [subst; unfold batch_entry; by rewrite ?El, ?Ed, ?Eu|done]).
  - f_equal. apply map_eq. intros k. rewrite lookup_partial_alter.
    case_decide; [subst; unfold batch_entry; by rewrite El, Ed|done].
  - destruct (FRESH e && IsSpent (coin e)) eqn:Eu; f_equal;
      apply map_eq; intros k; rewrite lookup_partial_alter, ?lookup_insert;
      (case_decide; [subst; unfold batch_entry; by rewrite ?El, ?Ed, ?Eu|done]).
  - f_equal. apply map_eq. intros k. rewrite lookup_partial_alter.
    case_decide; [subst; unfold batch_entry; by rewrite El, Ed|done].
Qed.

Lemma batch_nullifier_pointwise :
  pointwise (fun u e => if nf_DIRTY e then
                          match u with
                          | Some p => if Bool.eqb (entered p) (entered e) then Some p else Some (mkNullifierEntry (entered e) true)
                          | None => Some (mkNullifierEntry (entered e) true)
                          end else u) batch_nullifier.
Proof.
  intros us [n e] k. unfold batch_nullifier. cbn. destruct (nf_DIRTY e); [|by case_decide].
  destruct (us !! n) as [p|] eqn:El.
  - destruct (Bool.eqb (entered p) (entered e)) eqn:Ee; cbn; rewrite ?lookup_insert; case_decide; subst; by rewrite ?El, ?Ee.
  - rewrite lookup_insert. case_decide; subst; by rewrite ?El.
Qed.

Lemma batch_anchor_pointwise :
  pointwise (fun u e => if an_DIRTY e then
                          match u with
                          | Some p => if Bool.eqb (an_entered p) (an_entered e) then Some p
                                      else Some (mkAnchorEntry _ (an_entered e) (tree p) true)
                          | None => Some (mkAnchorEntry _ (an_entered e) (tree e) true)
                          end else u) batch_anchor.
Proof.
  intros us [n e] k. unfold batch_anchor. cbn. destruct (an_DIRTY e); [|by case_decide].
  destruct (us !! n) as [p|] eqn:El.
  - destruct (Bool.eqb (an_entered p) (an_entered e)) eqn:Ee; cbn; rewrite ?lookup_insert; case_decide; subst; by rewrite ?El, ?Ee.
  - rewrite lookup_insert. case_decide; subst; by rewrite ?El.
Qed.

(** One key of a batch: the promise is kept and the entry takes effect. *)
Lemma batch_entry_ok below us e :
  (forall u, us = Some u -> entry_ok below u) ->
  (DIRTY e = true -> FRESH e = true -> match us with Some u => live (coin u) | None => below end = None) ->
  (forall u, batch_entry us e = Some u -> entry_ok below u) /\
  match batch_entry us e with Some u => live (coin u) | None => below end =
    if DIRTY e then live (coin e) else match us with Some u => live (coin u) | None => below end.
Proof.
  intros Hus Hf. unfold batch_entry. destruct (DIRTY e); [|split; [apply Hus|done]].
  destruct us as [u|].
  - destruct (Hus u eq_refl) as [Hu1 Hu2].
    destruct (FRESH u && IsSpent (coin e)) eqn:E.
    + apply andb_true_iff in E as [E1 E2]. split; [done|]. unfold live. rewrite E2. by apply Hu1.
    + split; [|done]. intros w [= <-]. by split.
  - destruct (FRESH e && IsSpent (coin e)) eqn:E.
    + apply andb_true_iff in E as [E1 E2]. split; [done|]. unfold live. rewrite E2. by apply Hf.
    + split; [|done]. intros w [= <-]. split; [|done]. cbn. intros E1. by apply Hf.
Qed.

Lemma batch_coins_run c m : cache_ok c ->
  (forall o e, m !! o = Some e -> DIRTY e = true -> FRESH e = true -> cache_utxo c o = None) ->
  exists us, fold_left batch_coin (map_to_list m) (Some (cacheCoins c)) = Some us /\
    (forall o e, us !! o = Some e -> entry_ok (l_utxo (ledger (base c)) o) e) /\
    (forall o, match us !! o with Some e => live (coin e) | None => l_utxo (ledger (base c)) o end = apply_coins m (cache_utxo c) o).
Proof.
  intros Hok Hf. eexists. split; [|assert (Hus := fun o => fold_map_pointwise batch_entry batch_total m (cacheCoins c) o batch_total_pointwise)].
  - apply (fold_agrees batch_entry _ batch_total batch_safe);
      [apply batch_coin_agrees|apply batch_total_pointwise|apply NoDup_fst_map_to_list|].
    intros [o e] Hin%elem_of_map_to_list Hd Hfr u Hu. cbn in *.
    specialize (Hf o e Hin Hd Hfr). unfold cache_utxo in Hf. rewrite Hu in Hf. unfold live in Hf.
    by destruct (IsSpent (coin u)).
  - assert (He : forall o e, m !! o = Some e -> _) by
      (intros o e Hm; exact (batch_entry_ok (l_utxo (ledger (base c)) o) (cacheCoins c !! o) e (coins_ok c Hok o) (Hf o e Hm))).
    split; intros o.
    + intros u. rewrite Hus. destruct (m !! o) as [e|] eqn:Hm; [apply (He o e Hm)|apply (coins_ok c Hok)].
    + rewrite Hus. unfold apply_coins. destruct (m !! o) as [e|] eqn:Hm; [apply (He o e Hm)|done].
Qed.

Lemma batch_nullifiers_run c nf : cache_ok c ->
  let nfs := fold_left batch_nullifier (map_to_list nf) (cacheSaplingNullifiers c) in
  (forall n e, nfs !! n = Some e -> nullifier_ok (l_spent (ledger (base c)) n) e) /\
  (forall n, match nfs !! n with Some e => entered e | None => l_spent (ledger (base c)) n end = apply_nullifiers nf (cache_spent c) n).
Proof.
  intros Hok nfs. unfold nfs. split; intros n; rewrite (fold_map_pointwise _ _ _ _ _ batch_nullifier_pointwise).
  - intros e. pose proof (nullifiers_ok c Hok n) as Hn. destruct (nf !! n) as [d|]; [|apply Hn].
    destruct (nf_DIRTY d); [|apply Hn].
    destruct (cacheSaplingNullifiers c !! n) as [p|] eqn:Ep; [destruct (Bool.eqb (entered p) (entered d))|];
      intros [= <-]; try done; by apply Hn.
  - unfold cache_spent, apply_nullifiers.
    destruct (nf !! n) as [d|]; [|done]. destruct (nf_DIRTY d); [|done].
    destruct (cacheSaplingNullifiers c !! n) as [p|]; [|done].
    destruct (Bool.eqb (entered p) (entered d)) eqn:Ee; [by apply eqb_prop|done].
Qed.

Lemma batch_anchors_run c m : cache_ok c ->
  (forall r e, m !! r = Some e -> tree_root (tree e) = r) -> (forall e, m !! empty_root = Some e -> an_entered e = true) ->
  let ans := fold_left batch_anchor (map_to_list m) (cacheSaplingAnchors c) in
  (forall r e, ans !! r = Some e -> anchor_ok (l_anchors (ledger (base c)) r) r e) /\
  (forall r, match ans !! r with Some e => an_entered e | None => l_anchors (ledger (base c)) r end = apply_anchors m (cache_has_anchor c) r).
Proof.
  intros Hok Hroot Hempty ans. unfold ans.
  split; intros r; rewrite (fold_map_pointwise _ _ _ _ _ batch_anchor_pointwise).
  - intros e. pose proof (anchors_ok c Hok r) as Hn. destruct (m !! r) as [d|] eqn:Ed; [|apply Hn].
    destruct (an_DIRTY d); [|apply Hn].
    assert (He : r = empty_root -> an_entered d = true) by (intros ->; by apply Hempty).
    destruct (cacheSaplingAnchors c !! r) as [p|] eqn:Ep; [destruct (Bool.eqb (an_entered p) (an_entered d))|].
    + intros [= <-]. by apply Hn.
    + intros [= <-]. split; [by apply (Hn p)|done].
    + intros [= <-]. split; [exact (Hroot r d Ed)|done].
  - unfold cache_has_anchor, apply_anchors.
    destruct (m !! r) as [d|]; [|done]. destruct (an_DIRTY d); [|done].
    destruct (cacheSaplingAnchors c !! r) as [p|]; [|done].
    destruct (Bool.eqb (an_entered p) (an_entered d)) eqn:Ee; [by apply eqb_prop|done].
Qed.

Lemma cache_BatchWrite_spec c b : cache_ok c -> batch_ok b (cache_ledger c) ->
  exists c', cache_BatchWrite c b = Some c' /\ cache_ok c' /\ leq (cache_ledger c') (apply_batch b (cache_ledger c)).
Proof.
  intros Hok [Hh Ha Hf Hroot Hempty].
  destruct (batch_coins_run c (b_coins b) Hok Hf) as (us & Hrun & Hus1 & Hus2).
  destruct (batch_nullifiers_run c (b_nullifiers b) Hok) as [Hn1 Hn2].
  destruct (batch_anchors_run c (b_anchors b) Hok Hroot Hempty) as [Ha1 Ha2].
  unfold cache_BatchWrite. rewrite Hrun. cbn [obind]. eexists. split; [done|]. split.
  - split; [apply (base_ok c Hok)|exact Hus1|exact Hn1|exact Ha1].
  - split; [exact Hus2|]. split; [exact Hn2|]. cbn [cache_ledger apply_batch l_best l_anchors l_anchor].
    unfold cache_best, cache_anchor. cbn [hashBlock hashSaplingAnchor]. rewrite Hh, Ha. done.
Qed.

Lemma cache_empty_root c : cache_ok c -> cache_has_anchor c empty_root = true.
Proof.
  intros Hok. unfold cache_has_anchor. destruct (cacheSaplingAnchors c !! empty_root) as [e|] eqn:E.
  - by apply (anchors_ok c Hok empty_root e E).
  - apply empty_root_anchor, (base_ok c Hok).
Qed.

#[export] Instance CCoinsViewCache_reader : CoinsReader (CCoinsViewCache V) | 10.
Proof.
  refine {| view_functions := CCoinsViewCache_functions; view_ok := cache_ok; ledger := cache_ledger |}.
  - intros c o r c' Hok. cbn [GetCoin CCoinsViewCache_functions]. unfold cache_GetCoin. destruct (FetchCoin c o) as [it c1] eqn:Ef. intros [= <- <-].
    destruct (FetchCoin_spec _ _ _ _ Hok Ef) as (H1 & H2 & _ & _ & H3).
    split; [done|]. split; [done|]. by destruct it.
  - intros c n b c' Hok Hr. destruct (cache_GetNullifier_spec _ _ _ _ Hok Hr) as (H1 & H2 & _ & H3). done.
  - intros c h c' Hok Hr. destruct (cache_GetBestBlock_spec _ _ _ Hok Hr) as (H1 & H2 & _ & _ & H3). done.
  - intros c rt r c' Hok Hr. destruct (cache_GetSaplingAnchorAt_spec _ _ _ _ Hok Hr) as (H1 & H2 & _ & H3).
    split; [done|]. split; [done|]. destruct r; [|done]. by destruct H3 as (? & ? & _).
  - intros c h c' Hok Hr. destruct (cache_GetBestAnchor_spec _ _ _ Hok Hr) as (H1 & H2 & _ & _ & H3). done.
  - exact cache_empty_root.
Defined.
#[export] Instance CCoinsViewCache_view : CoinsView (CCoinsViewCache V) := {| view_reader := CCoinsViewCache_reader; BatchWrite_spec := cache_BatchWrite_spec |}.
End CacheView.
