(* ===== verification/Mempool.v ===== *)
(** The memory pool: unconfirmed transactions with the statistics of their ancestors and
    descendants (src/txmempool.h, src/txmempool.cpp). *)
From Stdlib Require Import ZArith Lia List Bool SpecFloat.
From stdpp Require Import base list gmap sets sorting.
From S2P Require Import Prelude Serialize Script Interpreter Transaction Compressor Coins.
Import ListNotations.
Local Open Scope Z_scope.
Local Open Scope passion_scope.

(** * Data *)

(** [double] *)
Definition double_add : spec_float -> spec_float -> spec_float := SFadd 53 1024.

Abbreviation txid := (list Z).
(** Priorities, which are floating-point numbers, and memory usage are not kept. *)
Record CTxMemPoolEntry := mkPoolEntry {
  e_tx : CTransaction;
  nFee : Z;
  nTxSize : Z;
  e_nTime : Z;
  spendsCoinbaseOrCoinstake : bool;
  sigOpCount : Z;
  feeDelta : Z;
  nCountWithDescendants : Z;
  nSizeWithDescendants : Z;
  nModFeesWithDescendants : Z;
  nCountWithAncestors : Z;
  nSizeWithAncestors : Z;
  nModFeesWithAncestors : Z;
  nSigOpCountWithAncestors : Z
}.
Record TxLinks := mkLinks { lk_parents : gset txid; lk_children : gset txid }.
(** [txiter] is the hash of the transaction; [mapDeltas] holds changes of priority, a
    [double], and of fee. *)
Record CTxMemPool := mkPool {
  mapTx : gmap txid CTxMemPoolEntry;
  mapLinks : gmap txid TxLinks;
  mapNextTx : gmap COutPoint CTransaction;
  mapDeltas : gmap txid (spec_float * Z);
  mapSaplingNullifiers : gmap txid CTransaction;
  totalTxSize : Z;
  nTransactionsUpdated : Z
}.
Definition with_tx (p : CTxMemPool) (m : gmap txid CTxMemPoolEntry) : CTxMemPool :=
  mkPool m (mapLinks p) (mapNextTx p) (mapDeltas p) (mapSaplingNullifiers p) (totalTxSize p) (nTransactionsUpdated p).
Definition with_links (p : CTxMemPool) (m : gmap txid TxLinks) : CTxMemPool :=
  mkPool (mapTx p) m (mapNextTx p) (mapDeltas p) (mapSaplingNullifiers p) (totalTxSize p) (nTransactionsUpdated p).
Definition with_deltas (p : CTxMemPool) (m : gmap txid (spec_float * Z)) : CTxMemPool :=
  mkPool (mapTx p) (mapLinks p) (mapNextTx p) m (mapSaplingNullifiers p) (totalTxSize p) (nTransactionsUpdated p).
(** [mapDeltas[hash]], zeros when there is none. *)
Definition deltas_of (p : CTxMemPool) (hash : txid) : spec_float * Z := default (S754_zero false, 0) (mapDeltas p !! hash).
Definition fee_delta (p : CTxMemPool) (hash : txid) : Z := snd (deltas_of p hash).
(** A [std::set] of iterators is walked in the order of the hashes as numbers. *)
Definition hash_le (a b : txid) : Prop := le_value a <= le_value b.
#[export] Instance hash_le_dec : RelDecision hash_le := fun a b => Z_le_dec (le_value a) (le_value b).
Definition in_order (s : gset txid) : list txid := merge_sort hash_le (elements s).
(** The loops over such a set. *)
Fixpoint each {S A} (f : S -> A -> option S) (l : list A) (s : S) : option S :=
  match l with [] => Some s | a :: l => s <- f s a;; each f l s end.

#[export] Instance CTxIn_eq_dec : EqDecision CTxIn.
Proof. solve_decision. Defined.
#[export] Instance CTxOut_eq_dec : EqDecision CTxOut.
Proof. solve_decision. Defined.
#[export] Instance SpendDescription_eq_dec : EqDecision SpendDescription.
Proof. solve_decision. Defined.
#[export] Instance OutputDescription_eq_dec : EqDecision OutputDescription.
Proof. solve_decision. Defined.
#[export] Instance SaplingTxData_eq_dec : EqDecision SaplingTxData.
Proof. solve_decision. Defined.
#[export] Instance CTransaction_eq_dec : EqDecision CTransaction.
Proof. solve_decision. Defined.

(** ** Entries *)

Definition GetModifiedFee (e : CTxMemPoolEntry) : Z := i64 (nFee e + feeDelta e).
(** [None]: a failed assertion. *)
Definition UpdateDescendantState (modifySize modifyFee modifyCount : Z) (e : CTxMemPoolEntry) : option CTxMemPoolEntry
  :=
  let s := u64 (nSizeWithDescendants e + modifySize) in
  let c := u64 (nCountWithDescendants e + modifyCount) in
  if negb (i64 s >? 0) then None
  else if negb (i64 c >? 0) then None
  else Some (mkPoolEntry (e_tx e) (nFee e) (nTxSize e) (e_nTime e) (spendsCoinbaseOrCoinstake e) (sigOpCount e)
    (feeDelta e)
               c s (i64 (nModFeesWithDescendants e + modifyFee))
               (nCountWithAncestors e) (nSizeWithAncestors e) (nModFeesWithAncestors e) (nSigOpCountWithAncestors e)).
Definition UpdateAncestorState (modifySize modifyFee modifyCount modifySigOps : Z) (e : CTxMemPoolEntry) : option
  CTxMemPoolEntry :=
  let s := u64 (nSizeWithAncestors e + modifySize) in
  let c := u64 (nCountWithAncestors e + modifyCount) in
  let o := u32 (nSigOpCountWithAncestors e + modifySigOps) in
  if negb (i64 s >? 0) then None
  else if negb (i64 c >? 0) then None
  else if negb (i32 o >=? 0) then None
  else Some (mkPoolEntry (e_tx e) (nFee e) (nTxSize e) (e_nTime e) (spendsCoinbaseOrCoinstake e) (sigOpCount e)
    (feeDelta e)
               (nCountWithDescendants e) (nSizeWithDescendants e) (nModFeesWithDescendants e)
               c s (i64 (nModFeesWithAncestors e + modifyFee)) o).
Definition UpdateFeeDelta (newFeeDelta : Z) (e : CTxMemPoolEntry) : option CTxMemPoolEntry :=
  Some (mkPoolEntry (e_tx e) (nFee e) (nTxSize e) (e_nTime e) (spendsCoinbaseOrCoinstake e) (sigOpCount e) newFeeDelta
          (nCountWithDescendants e) (nSizeWithDescendants e) (i64 (nModFeesWithDescendants e + i64 (newFeeDelta -
            feeDelta e)))
          (nCountWithAncestors e) (nSizeWithAncestors e) (i64 (nModFeesWithAncestors e + i64 (newFeeDelta - feeDelta
            e))) (nSigOpCountWithAncestors e)).
(** [mapTx.modify(it, f)] *)
Definition modify (p : CTxMemPool) (it : txid) (f : CTxMemPoolEntry -> option CTxMemPoolEntry) : option CTxMemPool :=
  e <- mapTx p !! it;; e <- f e;; Some (with_tx p (<[it := e]> (mapTx p))).

(** ** Links *)

Definition GetMemPoolParents (p : CTxMemPool) (it : txid) : option (gset txid) := l <- mapLinks p !! it;;
  Some (lk_parents l).
Definition GetMemPoolChildren (p : CTxMemPool) (it : txid) : option (gset txid) := l <- mapLinks p !! it;;
  Some (lk_children l).
(** [mapLinks[entry]] makes an entry when there is none. *)
Definition links_of (p : CTxMemPool) (it : txid) : TxLinks := default (mkLinks ∅ ∅) (mapLinks p !! it).
Definition UpdateChild (p : CTxMemPool) (entry child : txid) (add : bool) : CTxMemPool :=
  let l := links_of p entry in
  with_links p (<[entry := mkLinks (lk_parents l) (if add then {[child]} ∪ lk_children l else lk_children l ∖
    {[child]})]> (mapLinks p)).
Definition UpdateParent (p : CTxMemPool) (entry parent : txid) (add : bool) : CTxMemPool :=
  let l := links_of p entry in
  with_links p (<[entry := mkLinks (if add then {[parent]} ∪ lk_parents l else lk_parents l ∖ {[parent]}) (lk_children
    l)]> (mapLinks p)).

(** ** Walks *)

(** The children that are not accounted for yet join the stage. *)
Definition stage_new (seen : gset txid) (next stage : gset txid) : gset txid := stage ∪ (next ∖ seen).
Fixpoint descendants_walk (fuel : nat) (p : CTxMemPool) (stage setDescendants : gset txid) : option (gset txid) :=
  match fuel with
  | O => None
  | S fuel =>
      match in_order stage with
      | [] => Some setDescendants
      | it :: _ =>
          let setDescendants := {[it]} ∪ setDescendants in
          let stage := stage ∖ {[it]} in
          setChildren <- GetMemPoolChildren p it;;
          descendants_walk fuel p (stage_new setDescendants setChildren stage) setDescendants
      end
  end.
Definition CalculateDescendants (p : CTxMemPool) (entryit : txid) (setDescendants : gset txid) : option (gset txid) :=
  let stage := if bool_decide (entryit ∈ setDescendants) then ∅ else {[entryit]} in
  descendants_walk (S (base.size (mapTx p))) p stage setDescendants.
Inductive AncestorError := TooManyParents | DescendantSize (h : txid) | TooManyDescendants (h : txid) | AncestorSize |
  TooManyAncestors.
Record Limits := mkLimits { limitAncestorCount : Z; limitAncestorSize : Z; limitDescendantCount : Z;
  limitDescendantSize : Z }.
Definition nNoLimit : Z := 2 ^ 64 - 1.
Definition no_limits : Limits := mkLimits nNoLimit nNoLimit nNoLimit nNoLimit.
Definition set_size (s : gset txid) : Z := Z.of_nat (base.size s).
Fixpoint search_parents (p : CTxMemPool) (lim : Limits) (ins : list CTxIn) (parentHashes : gset txid) : AncestorError
  + gset txid :=
  match ins with
  | [] => inr parentHashes
  | i :: ins =>
      match mapTx p !! out_hash (prevout i) with
      | None => search_parents p lim ins parentHashes
      | Some _ =>
          let parentHashes := {[out_hash (prevout i)]} ∪ parentHashes in
          if u64 (set_size parentHashes + 1) >? limitAncestorCount lim then inl TooManyParents
          else search_parents p lim ins parentHashes
      end
  end.
Fixpoint stage_parents (lim : Limits) (setAncestors : gset txid) (ps : list txid) (parentHashes : gset txid) :
  AncestorError + gset txid :=
  match ps with
  | [] => inr parentHashes
  | phash :: ps =>
      let parentHashes := if bool_decide (phash ∈ setAncestors) then parentHashes else {[phash]} ∪ parentHashes in
      if u64 (set_size parentHashes + set_size setAncestors + 1) >? limitAncestorCount lim then inl TooManyAncestors
      else stage_parents lim setAncestors ps parentHashes
  end.
Fixpoint ancestors_walk (fuel : nat) (p : CTxMemPool) (lim : Limits) (nSize : Z) (parentHashes setAncestors : gset
  txid) (total : Z)
    : option (AncestorError + gset txid) :=
  match fuel with
  | O => None
  | S fuel =>
      match in_order parentHashes with
      | [] => Some (inr setAncestors)
      | stageit :: _ =>
          e <- mapTx p !! stageit;;
          let setAncestors := {[stageit]} ∪ setAncestors in
          let parentHashes := parentHashes ∖ {[stageit]} in
          let total := u64 (total + nTxSize e) in
          if u64 (nSizeWithDescendants e + nSize) >? limitDescendantSize lim then Some (inl (DescendantSize stageit))
          else if u64 (nCountWithDescendants e + 1) >? limitDescendantCount lim then Some (inl (TooManyDescendants
            stageit))
          else if total >? limitAncestorSize lim then Some (inl AncestorSize)
          else
            ps <- GetMemPoolParents p stageit;;
            match stage_parents lim setAncestors (in_order ps) parentHashes with
            | inl e => Some (inl e)
            | inr parentHashes => ancestors_walk fuel p lim nSize parentHashes setAncestors total
            end
      end
  end.
Definition CalculateMemPoolAncestors (p : CTxMemPool) (it : txid) (entry : CTxMemPoolEntry) (lim : Limits)
  (fSearchForParents : bool) : option (AncestorError + gset txid) :=
  parentHashes <- (if fSearchForParents then Some (search_parents p lim (vin (e_tx entry)) ∅)
                   else ps <- GetMemPoolParents p it;; Some (inr ps));;
  match parentHashes with
  | inl e => Some (inl e)
  | inr parentHashes => ancestors_walk (S (base.size (mapTx p))) p lim (nTxSize entry) parentHashes ∅ (nTxSize entry)
  end.
(** A call without limits; no limit is ever exceeded (lemma [all_ancestors_exact]). *)
Definition all_ancestors (p : CTxMemPool) (it : txid) (entry : CTxMemPoolEntry) (fSearchForParents : bool) : option
  (gset txid) :=
  r <- CalculateMemPoolAncestors p it entry no_limits fSearchForParents;;
  match r with inr s => Some s | inl _ => None end.

(** * Operations *)

Section Pool.
Context {abi : Abi} {crypto : ScriptCrypto}.

(** The constructor; [nValueIn] is the output value plus the fee, and the assertion compares
    it with the value of the inputs that are in the chain. *)
Definition new_entry (tx : CTransaction) (fee time : Z) (spends : bool) (sigOps inChainInputValue nValueOut : Z) :
  option CTxMemPoolEntry :=
  let n := Z.of_nat (length (SerializeTransaction tx)) in
  if inChainInputValue <=? i64 (nValueOut + fee)
  then Some (mkPoolEntry tx fee n time spends sigOps 0 1 n fee 1 n fee sigOps)
  else None.
Definition nullifiers (tx : CTransaction) : list txid :=
  if IsShieldedTx tx then match sapData tx with Some d => map nullifier (vShieldedSpend d) | None => [] end else [].
Definition exists_tx (p : CTxMemPool) (h : txid) : bool := bool_decide (is_Some (mapTx p !! h)).
Definition exists_outpoint (p : CTxMemPool) (o : COutPoint) : bool :=
  match mapTx p !! out_hash o with Some e => out_n o <? Z.of_nat (length (vout (e_tx e))) | None => false end.
Definition isSpent (p : CTxMemPool) (o : COutPoint) : bool := bool_decide (is_Some (mapNextTx p !! o)).
Definition nullifierExists (p : CTxMemPool) (nf : txid) : bool :=
  bool_decide (is_Some (mapSaplingNullifiers p !! nf)).
Definition HasNoInputsOf (p : CTxMemPool) (tx : CTransaction) : bool :=
  HasZerocoinSpendInputs tx || forallb (fun i => negb (exists_tx p (out_hash (prevout i)))) (vin tx).

(** ** Adding *)

Definition UpdateAncestorsOf (p : CTxMemPool) (add : bool) (it : txid) (setAncestors : gset txid) : option CTxMemPool
  :=
  parentIters <- GetMemPoolParents p it;;
  let p := foldl (fun p piter => UpdateChild p piter it add) p (in_order parentIters) in
  e <- mapTx p !! it;;
  let updateCount := if add then 1 else -1 in
  let updateSize := i64 (updateCount * nTxSize e) in
  let updateFee := i64 (updateCount * GetModifiedFee e) in
  each (fun p a => modify p a (UpdateDescendantState updateSize updateFee updateCount)) (in_order setAncestors) p.
Definition UpdateEntryForAncestors (p : CTxMemPool) (it : txid) (setAncestors : gset txid) : option CTxMemPool :=
  sums <- each (fun s a => e <- mapTx p !! a;;
                  let '(sz, fee, ops) := s in Some (i64 (sz + nTxSize e), i64 (fee + GetModifiedFee e),
                    i32 (ops + sigOpCount e)))
               (in_order setAncestors) (0, 0, 0);;
  let '(updateSize, updateFee, updateSigOps) := sums in
  modify p it (UpdateAncestorState updateSize updateFee (set_size setAncestors) updateSigOps).
Definition mark_spent (m : gmap COutPoint CTransaction) (tx : CTransaction) : gmap COutPoint CTransaction :=
  foldl (fun m i => match m !! prevout i with Some _ => m | None => <[prevout i := tx]> m end) m (vin tx).
Definition addUnchecked (p : CTxMemPool) (hash : txid) (entry : CTxMemPoolEntry) (setAncestors : gset txid) : option
  CTxMemPool :=
  let newit := GetHash (e_tx entry) in
  let p := match mapTx p !! newit with Some _ => p | None => with_tx p (<[newit := entry]> (mapTx p)) end in
  let p := match mapLinks p !! newit with Some _ => p | None => with_links p (<[newit :=
    mkLinks ∅ ∅]> (mapLinks p)) end in
  p <- (match mapDeltas p !! hash with
        | Some deltas => if snd deltas =? 0 then Some p else modify p newit (UpdateFeeDelta (snd deltas))
        | None => Some p
        end);;
  e <- mapTx p !! newit;;
  let tx := e_tx e in
  let '(next, setParentTransactions) :=
    if HasZerocoinSpendInputs tx then (mapNextTx p, ∅)
    else (mark_spent (mapNextTx p) tx, list_to_set (map (fun i => out_hash (prevout i)) (vin tx)) : gset txid) in
  let p := mkPool (mapTx p) (mapLinks p) next (mapDeltas p) (mapSaplingNullifiers p) (totalTxSize p)
    (nTransactionsUpdated p) in
  let p := foldl (fun p phash => if exists_tx p phash then UpdateParent p newit phash true else p) p (in_order
    setParentTransactions) in
  p <- UpdateAncestorsOf p true newit setAncestors;;
  p <- UpdateEntryForAncestors p newit setAncestors;;
  Some (mkPool (mapTx p) (mapLinks p) (mapNextTx p) (mapDeltas p)
          (foldl (fun m nf => <[nf := tx]> m) (mapSaplingNullifiers p) (nullifiers tx))
          (u64 (totalTxSize p + nTxSize entry)) (u32 (nTransactionsUpdated p + 1))).
Definition addUnchecked_simple (p : CTxMemPool) (hash : txid) (entry : CTxMemPoolEntry) : option CTxMemPool :=
  setAncestors <- all_ancestors p hash entry true;; addUnchecked p hash entry setAncestors.

(** ** Returning the transactions of disconnected blocks *)

(** The children of one entry in the walk of [UpdateForDescendants]. *)
Fixpoint walk_children (cachedDescendants : gmap txid (gset txid)) (cs : list txid) (stageEntries setAllDescendants :
  gset txid) : gset txid * gset txid :=
  match cs with
  | [] => (stageEntries, setAllDescendants)
  | childEntry :: cs =>
      match cachedDescendants !! childEntry with
      | Some s => walk_children cachedDescendants cs stageEntries (setAllDescendants ∪ s)
      | None =>
          if bool_decide (childEntry ∈ setAllDescendants) then walk_children cachedDescendants cs stageEntries
            setAllDescendants
          else walk_children cachedDescendants cs ({[childEntry]} ∪ stageEntries) setAllDescendants
      end
  end.
Fixpoint update_walk (fuel : nat) (p : CTxMemPool) (cachedDescendants : gmap txid (gset txid)) (stageEntries
  setAllDescendants : gset txid) : option (gset txid) :=
  match fuel with
  | O => None
  | S fuel =>
      match in_order stageEntries with
      | [] => Some setAllDescendants
      | cit :: _ =>
          setChildren <- GetMemPoolChildren p cit;;
          let '(stageEntries, setAllDescendants) :=
            walk_children cachedDescendants (in_order setChildren) (stageEntries ∖ {[cit]}) ({[cit]} ∪
            setAllDescendants) in
          update_walk fuel p cachedDescendants stageEntries setAllDescendants
      end
  end.
Record update_sums := mkUpdateSums { us_pool : CTxMemPool; us_cached : gmap txid (gset txid); us_size : Z; us_fee : Z;
  us_count : Z }.
Definition update_descendant (updateIt : txid) (setExclude : gset txid) (s : update_sums) (cit : txid) : option
  update_sums :=
  e <- mapTx (us_pool s) !! cit;;
  if bool_decide (GetHash (e_tx e) ∈ setExclude) then Some s
  else
    u <- mapTx (us_pool s) !! updateIt;;
    p <- modify (us_pool s) cit (UpdateAncestorState (i64 (nTxSize u)) (GetModifiedFee u) 1 (i32 (sigOpCount u)));;
    Some (mkUpdateSums p (<[updateIt := {[cit]} ∪ default ∅ (us_cached s !! updateIt)]> (us_cached s))
            (i64 (us_size s + nTxSize e)) (i64 (us_fee s + GetModifiedFee e)) (i64 (us_count s + 1))).
Definition UpdateForDescendants (p : CTxMemPool) (updateIt : txid) (cachedDescendants : gmap txid (gset txid))
  (setExclude : gset txid) : option (CTxMemPool * gmap txid (gset txid)) :=
  stageEntries <- GetMemPoolChildren p updateIt;;
  setAllDescendants <- update_walk (S (base.size (mapTx p))) p cachedDescendants stageEntries ∅;;
  s <- each (update_descendant updateIt setExclude) (in_order setAllDescendants) (mkUpdateSums p cachedDescendants 0 0
    0);;
  p <- modify (us_pool s) updateIt (UpdateDescendantState (us_size s) (us_fee s) (us_count s));;
  Some (p, us_cached s).
(** The spenders of the outputs of [hash], in the order of the outputs. *)
Definition by_output (a b : COutPoint * CTransaction) : Prop := out_n (fst a) <= out_n (fst b).
#[export] Instance by_output_dec : RelDecision by_output := fun a b => Z_le_dec (out_n (fst a)) (out_n (fst b)).
Definition next_of (p : CTxMemPool) (hash : txid) : list CTransaction :=
  map snd (merge_sort by_output (filter (fun ot : COutPoint * CTransaction =>
    out_hash (fst ot) = hash) (map_to_list (mapNextTx p)))).
Definition link_child (hash : txid) (setAlreadyIncluded : gset txid) (s : CTxMemPool * gset txid) (t : CTransaction) :
  option (CTxMemPool * gset txid) :=
  let '(p, setChildren) := s in
  let childHash := GetHash t in
  _ <- mapTx p !! childHash;;
  if bool_decide (childHash ∈ setChildren) then Some (p, setChildren)
  else Some (if bool_decide (childHash ∈ setAlreadyIncluded) then p else UpdateParent (UpdateChild p hash childHash
    true) childHash hash true, {[childHash]} ∪ setChildren).
Definition update_from_block (setAlreadyIncluded : gset txid) (s : CTxMemPool * gmap txid (gset txid)) (hash : txid) :
  option (CTxMemPool * gmap txid (gset txid)) :=
  let '(p, mapMemPoolDescendantsToUpdate) := s in
  match mapTx p !! hash with
  | None => Some s
  | Some _ =>
      l <- each (link_child hash setAlreadyIncluded) (next_of p hash) (p, ∅);;
      UpdateForDescendants (fst l) hash mapMemPoolDescendantsToUpdate setAlreadyIncluded
  end.
Definition UpdateTransactionsFromBlock (p : CTxMemPool) (vHashesToUpdate : list txid) : option CTxMemPool :=
  s <- each (update_from_block (list_to_set vHashesToUpdate)) (rev vHashesToUpdate) (p, ∅);; Some (fst s).

(** ** Removing *)

Definition UpdateChildrenForRemoval (p : CTxMemPool) (it : txid) : option CTxMemPool :=
  setMemPoolChildren <- GetMemPoolChildren p it;;
  Some (foldl (fun p updateIt => UpdateParent p updateIt it false) p (in_order setMemPoolChildren)).
Definition UpdateForRemoveFromMempool (p : CTxMemPool) (entriesToRemove : gset txid) (updateDescendants : bool) :
  option CTxMemPool :=
  p <- (if updateDescendants then
          each (fun p removeIt =>
                  setDescendants <- CalculateDescendants p removeIt ∅;;
                  e <- mapTx p !! removeIt;;
                  each (fun p dit => modify p dit (UpdateAncestorState (i64 (- nTxSize e)) (i64 (- GetModifiedFee e))
                    (-1) (i32 (- sigOpCount e))))
                       (in_order (setDescendants ∖ {[removeIt]})) p)
               (in_order entriesToRemove) p
        else Some p);;
  p <- each (fun p removeIt =>
               e <- mapTx p !! removeIt;;
               setAncestors <- all_ancestors p removeIt e false;;
               UpdateAncestorsOf p false removeIt setAncestors)
            (in_order entriesToRemove) p;;
  each UpdateChildrenForRemoval (in_order entriesToRemove) p.
Definition removeUnchecked (p : CTxMemPool) (it : txid) : option CTxMemPool :=
  e <- mapTx p !! it;;
  let tx := e_tx e in
  Some (mkPool (delete it (mapTx p)) (delete it (mapLinks p))
          (foldl (fun m i => delete (prevout i) m) (mapNextTx p) (vin tx)) (mapDeltas p)
          (foldl (fun m nf => delete nf m) (mapSaplingNullifiers p) (nullifiers tx))
          (u64 (totalTxSize p - nTxSize e)) (u32 (nTransactionsUpdated p + 1))).
Definition RemoveStaged (p : CTxMemPool) (stage : gset txid) (updateDescendants : bool) : option CTxMemPool :=
  p <- UpdateForRemoveFromMempool p stage updateDescendants;; each removeUnchecked (in_order stage) p.
(** The descendants of a set, with the set. *)
Definition all_descendants (p : CTxMemPool) (txs : gset txid) : option (gset txid) :=
  each (fun s it => CalculateDescendants p it s) (in_order txs) ∅.
Definition ClearPrioritisation (p : CTxMemPool) (hash : txid) : CTxMemPool :=
  with_deltas p (delete hash (mapDeltas p)).
(** The spenders of the outputs of a transaction; [None]: a spender that is not in the pool. *)
Definition spenders_of (p : CTxMemPool) (origTx : CTransaction) : option (gset txid) :=
  each (fun s i => match mapNextTx p !! mkOutPoint (GetHash origTx) (Z.of_nat i) with
                   | None => Some s
                   | Some t => _ <- mapTx p !! GetHash t;; Some ({[GetHash t]} ∪ s)
                   end) (seq 0 (length (vout origTx))) ∅.
Definition removeRecursive (p : CTxMemPool) (origTx : CTransaction) : option CTxMemPool :=
  txToRemove <- (if exists_tx p (GetHash origTx) then Some ({[GetHash origTx]} : gset txid) else spenders_of p
    origTx);;
  setAllRemoves <- all_descendants p txToRemove;;
  RemoveStaged p setAllRemoves false.
(** [CheckFinalTx] and the coins are what the caller's chain gives. *)
Definition immature (AccessCoin : COutPoint -> Coin) (nMemPoolHeight nCoinbaseMaturity : Z) (p : CTxMemPool) (e :
  CTxMemPoolEntry) : bool :=
  existsb (fun i => negb (exists_tx p (out_hash (prevout i))) &&
                    let coin := AccessCoin (prevout i) in
                    IsSpent coin || ((fCoinBase coin || fCoinStake coin) &&
                      (nMemPoolHeight - coin_nHeight coin <? nCoinbaseMaturity))) (vin (e_tx e)).
Definition removeForReorg (CheckFinalTx : CTransaction -> bool) (AccessCoin : COutPoint ->
  Coin) (nMemPoolHeight nCoinbaseMaturity : Z) (p : CTxMemPool) : option CTxMemPool :=
  let txToRemove := dom (filter (fun he : txid * CTxMemPoolEntry =>
    negb (CheckFinalTx (e_tx he.2)) || (spendsCoinbaseOrCoinstake he.2 &&
      immature AccessCoin nMemPoolHeight nCoinbaseMaturity p he.2) = true) (mapTx p)) in
  setAllRemoves <- all_descendants p txToRemove;;
  RemoveStaged p setAllRemoves false.
Definition anchors (tx : CTransaction) : list txid :=
  if IsShieldedTx tx then match sapData tx with Some d => map anchor (vShieldedSpend d) | None => [] end else [].
(** The transactions are collected first, in the order of [mapTx]. *)
Definition removeWithAnchor (p : CTxMemPool) (invalidRoot : txid) : option CTxMemPool :=
  let transactionsToRemove := filter (fun tx => bool_decide (invalidRoot ∈ anchors tx) = true) (map (fun he =>
    e_tx he.2) (map_to_list (mapTx p))) in
  each removeRecursive transactionsToRemove p.
Definition remove_conflict (p : CTxMemPool) (tx : CTransaction) (found : option CTransaction) : option CTxMemPool :=
  match found with
  | Some txConflict =>
      if bool_decide (GetHash txConflict = GetHash tx) then Some p
      else p <- removeRecursive p txConflict;; Some (ClearPrioritisation p (GetHash txConflict))
  | None => Some p
  end.
Definition removeConflicts (p : CTxMemPool) (tx : CTransaction) : option CTxMemPool :=
  p <- each (fun p i => remove_conflict p tx (mapNextTx p !! prevout i)) (vin tx) p;;
  each (fun p nf => remove_conflict p tx (mapSaplingNullifiers p !! nf)) (nullifiers tx) p.
Definition removeForBlock (p : CTxMemPool) (vtx : list CTransaction) : option CTxMemPool :=
  each (fun p tx =>
          p <- (if exists_tx p (GetHash tx) then RemoveStaged p {[GetHash tx]} true else Some p);;
          p <- removeConflicts p tx;;
          Some (ClearPrioritisation p (GetHash tx))) vtx p.
(** The index by time yields the entries older than [time]. *)
Definition Expire (p : CTxMemPool) (time : Z) : option (CTxMemPool * Z) :=
  let toremove := dom (filter (fun he : txid * CTxMemPoolEntry => e_nTime he.2 < time) (mapTx p)) in
  stage <- all_descendants p toremove;;
  p <- RemoveStaged p stage false;;
  Some (p, set_size stage).
(** The outpoints the removed transactions leave unspent. *)
Definition no_spends_remaining (p : CTxMemPool) (txn : list CTransaction) : list COutPoint :=
  filter (fun o => negb (exists_tx p (out_hash o)) && negb (isSpent p o) = true) (flat_map (fun tx =>
    map prevout (vin tx)) txn).
(** [DynamicMemoryUsage] and the first entry by descendant score are given: the score is
    compared in floating point. [None]: there is no first entry, or the fuel is used up. *)
Fixpoint TrimToSize (fuel : nat) (DynamicMemoryUsage : CTxMemPool -> Z) (worst : CTxMemPool ->
  option txid) (sizelimit : Z)
    (p : CTxMemPool) (vNoSpendsRemaining : list COutPoint) : option (CTxMemPool * list COutPoint) :=
  match fuel with
  | O => None
  | S fuel =>
      if DynamicMemoryUsage p >? sizelimit then
        it <- worst p;;
        stage <- CalculateDescendants p it ∅;;
        let txn := omap (fun h => e_tx <$> mapTx p !! h) (in_order stage) in
        p <- RemoveStaged p stage false;;
        TrimToSize fuel DynamicMemoryUsage worst sizelimit p (vNoSpendsRemaining ++ no_spends_remaining p txn)
      else Some (p, vNoSpendsRemaining)
  end.
Definition clear (p : CTxMemPool) : CTxMemPool :=
  mkPool ∅ ∅ ∅ (mapDeltas p) (mapSaplingNullifiers p) 0 (u32 (nTransactionsUpdated p + 1)).
Definition PrioritiseTransaction (p : CTxMemPool) (hash : txid) (dPriorityDelta : spec_float) (nFeeDelta : Z) :
  option CTxMemPool :=
  let d := i64 (fee_delta p hash + nFeeDelta) in
  let p := with_deltas p (<[hash := (double_add (fst (deltas_of p hash)) dPriorityDelta, d)]> (mapDeltas p)) in
  match mapTx p !! hash with
  | None => Some p
  | Some _ =>
      p <- modify p hash (UpdateFeeDelta d);;
      e <- mapTx p !! hash;;
      setAncestors <- all_ancestors p hash e false;;
      each (fun p a => modify p a (UpdateDescendantState 0 nFeeDelta 0)) (in_order setAncestors) p
  end.
Definition ApplyDeltas (p : CTxMemPool) (hash : txid) (dPriorityDelta : spec_float) (nFeeDelta : Z) : spec_float * Z :=
  match mapDeltas p !! hash with
  | None => (dPriorityDelta, nFeeDelta)
  | Some deltas => (double_add dPriorityDelta (fst deltas), i64 (nFeeDelta + snd deltas))
  end.
Definition checkNullifiers (p : CTxMemPool) : bool :=
  forallb (fun nt : txid * CTransaction => match mapTx p !! GetHash nt.2 with Some e =>
    bool_decide (GetHash (e_tx e) = GetHash nt.2) | None => false end) (map_to_list (mapSaplingNullifiers p)).
(** ** The consistency check *)

(** The assertions of [check] about the pool itself, [None] where one fails; those about the
    coins that are spent and the memory usage are left out. *)
Definition parents_check (p : CTxMemPool) (tx : CTransaction) : gset txid := filter (fun h =>
  exists_tx p h = true) (list_to_set (map (fun i => out_hash (prevout i)) (vin tx))).
Definition children_check (p : CTxMemPool) (it : txid) : option (gset txid * Z) :=
  each (fun s t => e <- mapTx p !! GetHash t;;
          Some (if bool_decide (GetHash t ∈ fst s) then s else ({[GetHash t]} ∪ fst s,
            i64 (snd s + nTxSize e)))) (next_of p it) (∅, 0).
(** The inputs are marked in [mapNextTx]; [None]: one is not. The result tells whether a
    zerocoin spend was met. *)
Fixpoint inputs_check (p : CTxMemPool) (tx : CTransaction) (ins : list CTxIn) (fHasZerocoinSpends : bool) : option
  bool :=
  match ins with
  | [] => Some fHasZerocoinSpends
  | txin :: ins =>
      let fHasZerocoinSpends := fHasZerocoinSpends || (negb (exists_tx p (out_hash (prevout txin))) &&
        (CTxIn_IsZerocoinSpend txin || CTxIn_IsZerocoinPublicSpend txin)) in
      if fHasZerocoinSpends then inputs_check p tx ins fHasZerocoinSpends
      else t <- mapNextTx p !! prevout txin;; if bool_decide (GetHash t = GetHash tx) then inputs_check p tx ins
        fHasZerocoinSpends else None
  end.
Record ancestor_check := mkAncestorCheck { nSizeCheck : Z; nFeesCheck : Z; nSigOpCheck : Z }.
Definition sum_ancestors (p : CTxMemPool) (e : CTxMemPoolEntry) (setAncestors : gset txid) : option ancestor_check :=
  each (fun s a => f <- mapTx p !! a;; Some (mkAncestorCheck (u64 (nSizeCheck s + nTxSize f)) (i64 (nFeesCheck s +
    GetModifiedFee f)) (u32 (nSigOpCheck s + sigOpCount f))))
       (in_order setAncestors) (mkAncestorCheck (nTxSize e) (GetModifiedFee e) (sigOpCount e)).
Definition check_entry (p : CTxMemPool) (it : txid) (e : CTxMemPoolEntry) : option unit :=
  links <- mapLinks p !! it;;
  fHasZerocoinSpends <- inputs_check p (e_tx e) (vin (e_tx e)) false;;
  setAncestors <- (if bool_decide (parents_check p (e_tx e) = lk_parents links) then all_ancestors p it e true else
    None);;
  s <- sum_ancestors p e setAncestors;;
  if negb ((nCountWithAncestors e =? u64 (set_size setAncestors + 1)) && (nSizeWithAncestors e =? nSizeCheck s) &&
           (nSigOpCountWithAncestors e =? nSigOpCheck s) && (nModFeesWithAncestors e =? nFeesCheck s)) then None
  else if fHasZerocoinSpends : bool then Some tt
  else
    '(setChildrenCheck, childSizes) <- children_check p it;;
    if bool_decide (setChildrenCheck = lk_children links) &&
      (u64 (childSizes + nTxSize e) <=? nSizeWithDescendants e) then Some tt else None.
Definition check_pool (p : CTxMemPool) : bool :=
  forallb (fun he => bool_decide (is_Some (check_entry p (fst he) (snd he)))) (map_to_list (mapTx p)) &&
  forallb (fun ot : COutPoint * CTransaction => match mapTx p !! GetHash ot.2 with Some e =>
    bool_decide (e_tx e = ot.2) | None => false end) (map_to_list (mapNextTx p)) &&
  checkNullifiers p &&
  (totalTxSize p =? foldr (fun he n => u64 (nTxSize (snd he) + n)) 0 (map_to_list (mapTx p))).
End Pool.

(** * Finite sets and sums over them *)

Lemma elem_of_in_order x s : x ∈ in_order s <-> x ∈ s.
Proof. unfold in_order. rewrite merge_sort_Permutation. apply elem_of_elements. Qed.
Lemma NoDup_in_order s : NoDup (in_order s).
Proof. unfold in_order. rewrite merge_sort_Permutation. apply NoDup_elements. Qed.
Lemma in_order_nil s : in_order s = [] <-> s = ∅.
Proof.
  split; [|intros ->; reflexivity]. intros E. apply set_eq. intros x. rewrite <- elem_of_in_order, E. set_solver.
Qed.
Definition wsum (f : txid -> Z) (s : gset txid) : Z := foldr (fun a n => f a + n) 0 (elements s).
Lemma foldr_sum_perm (f : txid -> Z) l l' : l ≡ₚ l' -> foldr (fun a n => f a + n) 0 l = foldr (fun a n =>
  f a + n) 0 l'.
Proof. induction 1; cbn; lia. Qed.
Lemma foldr_sum_app (f : txid -> Z) l l' : foldr (fun a n => f a + n) 0 (l ++ l') = foldr (fun a n =>
  f a + n) 0 l + foldr (fun a n => f a + n) 0 l'.
Proof. induction l; cbn; lia. Qed.
Lemma wsum_empty f : wsum f ∅ = 0.
Proof. reflexivity. Qed.
Lemma wsum_union f s t : s ## t -> wsum f (s ∪ t) = wsum f s + wsum f t.
Proof. intros D. unfold wsum. rewrite (foldr_sum_perm f _ _ (elements_disj_union s t D)). apply foldr_sum_app. Qed.
Lemma wsum_singleton f a : wsum f {[a]} = f a.
Proof. unfold wsum. rewrite elements_singleton. cbn. lia. Qed.
Lemma wsum_ext f g s : (forall a, a ∈ s -> f a = g a) -> wsum f s = wsum g s.
Proof.
  intros H. unfold wsum. assert (G : forall l, (forall a, a ∈ l -> a ∈ s) -> foldr (fun a n =>
  f a + n) 0 l = foldr (fun a n => g a + n) 0 l); [|apply G; intros a; apply elem_of_elements].
  induction l as [|a l IH]; intros Hl; [done|]. cbn. rewrite H, IH; [done| |]; intros; apply Hl; set_solver.
Qed.
Lemma wsum_insert f a s : a ∉ s -> wsum f ({[a]} ∪ s) = f a + wsum f s.
Proof. intros N. rewrite wsum_union by set_solver. by rewrite wsum_singleton. Qed.
Lemma wsum_remove f a s : a ∈ s -> wsum f (s ∖ {[a]}) = wsum f s - f a.
Proof. intros H. rewrite (union_difference_L {[a]} s) at 2 by set_solver. rewrite wsum_insert by set_solver. lia. Qed.
Lemma wsum_nonneg f s : (forall a, a ∈ s -> 0 <= f a) -> 0 <= wsum f s.
Proof.
  revert s. refine (set_ind_L _ _ _); [done|]. intros a s N IH H. rewrite wsum_insert by done.
    specialize (IH ltac:(set_solver)). specialize (H a ltac:(set_solver)). lia.
Qed.
Lemma wsum_mono f s t : s ⊆ t -> (forall a, a ∈ t -> 0 <= f a) -> wsum f s <= wsum f t.
Proof.
  intros S H. rewrite (union_difference_L s t S), wsum_union by set_solver.
  pose proof (wsum_nonneg f (t ∖ s) ltac:(set_solver)). lia.
Qed.
Lemma wsum_one s : wsum (fun _ => 1) s = set_size s.
Proof.
  unfold set_size. revert s. refine (set_ind_L _ _ _); [done|]. intros a s N IH. rewrite wsum_insert, IH by done.
    rewrite size_union by set_solver. rewrite size_singleton. lia.
Qed.

(** * Walks over the links *)

(** Everything that [seen] leads to is seen or follows from the stage. *)
Definition closed (R : txid -> txid -> Prop) (seen stage : gset txid) : Prop := forall x y, x ∈ seen -> R x y ->
  y ∈ seen \/ y ∈ stage.
Lemma closed_reach R seen stage x y : closed R seen stage -> x ∈ seen -> rtc R x y -> y ∈ seen \/ exists z,
  z ∈ stage /\ rtc R z y.
Proof.
  intros C Hx P. induction P as [x|x c y Rxc P IH]; [by left|]. destruct (C x c Hx Rxc) as [Hc|Hc]; [by apply IH|].
  right. by exists c.
Qed.
(** One round of such a walk. *)
Lemma walk_round (R : txid -> txid -> Prop) (it : txid) (next stage seen : gset txid) : (forall y, y ∈ next <->
  R it y) -> it ∈ stage -> stage ## seen -> closed R seen stage ->
  let seen' := {[it]} ∪ seen in let stage' := (stage ∖ {[it]}) ∪ (next ∖ seen') in
  stage' ## seen' /\ closed R seen' stage' /\
  forall y, (y ∈ seen' \/ exists z, z ∈ stage' /\ rtc R z y) <-> (y ∈ seen \/ exists z, z ∈ stage /\ rtc R z y).
Proof.
  intros N Hi D C seen' stage'. assert (C' : closed R seen' stage').
  { intros x y Hx Rxy. unfold seen', stage'. destruct (decide (y ∈ {[it]} ∪ seen)) as [|Ny]; [by left|]. right.
    apply elem_of_union in Hx as [->%elem_of_singleton|Hx].
    - apply N in Rxy. set_solver.
    - destruct (C x y Hx Rxy); set_solver. }
  split; [unfold stage', seen'; set_solver|]. split; [done|]. intros y. split.
  - intros [[->%elem_of_singleton|H]%elem_of_union|(z & Hz & P)]; [right; by exists it|by left|]. unfold stage' in Hz.
    apply elem_of_union in Hz as [Hz|Hz]; [right; exists z; set_solver|].
    right. exists it. split; [done|]. apply rtc_l with z; [apply N; set_solver|done].
  - intros [H|(z & Hz & P)]; [left; unfold seen'; set_solver|]. destruct (decide (z = it)) as [->|Nz].
    + apply (closed_reach R seen' stage' it y C'); [unfold seen'; set_solver|done].
    + right. exists z. split; [unfold stage'; set_solver|done].
Qed.
Lemma measure_step (U seen : gset txid) it fuel : it ∈ U -> it ∉ seen -> (base.size (U ∖ seen) < S fuel)%nat ->
  (base.size (U ∖ ({[it]} ∪ seen)) < fuel)%nat.
Proof.
  intros Hu Hs L. replace (U ∖ ({[it]} ∪ seen)) with ((U ∖ seen) ∖ {[it]}) by set_solver.
  rewrite size_difference by set_solver. rewrite size_singleton.
  assert (base.size (U ∖ seen) <> 0%nat); [|lia]. intros E. apply size_empty_iff in E. set_solver.
Qed.
Section Walk.
Variable p : CTxMemPool.
Abbreviation U := (dom (mapTx p)).
Definition child_of (a c : txid) : Prop := exists l, mapLinks p !! a = Some l /\ c ∈ lk_children l.
Definition parent_of (c a : txid) : Prop := exists l, mapLinks p !! c = Some l /\ a ∈ lk_parents l.
Lemma descendants_walk_exact : dom (mapLinks p) = U -> (forall a c, child_of a c -> c ∈ U) ->
  forall fuel stage seen, stage ## seen -> stage ⊆ U -> closed child_of seen stage ->
    (base.size (U ∖ seen) < fuel)%nat ->
  exists r, descendants_walk fuel p stage seen = Some r /\ forall y, y ∈ r <-> y ∈ seen \/ exists z, z ∈ stage /\
    rtc child_of z y.
Proof.
  intros Dm Ch. induction fuel as [|fuel IH]; intros stage seen D Sub C L; [lia|]. cbn [descendants_walk].
  destruct (in_order stage) as [|it rest] eqn:E.
  - apply in_order_nil in E as ->. exists seen. split; [done|]. intros y. set_solver.
  - assert (Hi : it ∈ stage) by (apply elem_of_in_order; rewrite E; set_solver). assert (Hu : it ∈ U) by set_solver.
    rewrite <- Dm in Hu. apply elem_of_dom in Hu as [l Hl]. unfold GetMemPoolChildren. rewrite Hl. cbn [obind].
    assert (N : forall y, y ∈ lk_children l <-> child_of it y) by (intros y; split;
    [intros; by exists l|intros (l' & E' & H); congruence]).
    destruct (walk_round child_of it (lk_children l) stage seen N Hi D C) as (D' & C' & Eq). unfold stage_new.
    destruct (IH _ _ D') as (r & Er & Hr); [|done|apply measure_step; [set_solver|set_solver|done]|].
    + intros y [Hy|Hy]%elem_of_union; [set_solver|]. apply (Ch it). apply N. set_solver.
    + exists r. split; [exact Er|]. intros y. rewrite Hr. apply Eq.
Qed.
(** The limits may stop the walk; when they do not, the result is exact. *)
Lemma stage_parents_spec lim seen ps : forall stage, match stage_parents lim seen ps stage with
  | inr stage' => stage' = stage ∪ (list_to_set ps ∖ seen)
  | inl e => e = TooManyAncestors
  end.
Proof.
  induction ps as [|q ps IH]; intros stage; cbn [stage_parents list_to_set]; [set_solver|].
    destruct (_ >? _); [done|]. specialize (IH (if bool_decide (q ∈ seen) then stage else {[q]} ∪ stage)).
  destruct (stage_parents _ _ _ _); [done|]. rewrite IH. case_bool_decide; set_solver.
Qed.
Lemma ancestors_walk_exact lim n : dom (mapLinks p) = U -> (forall c a, parent_of c a -> a ∈ U) ->
  forall fuel stage seen total, stage ## seen -> stage ⊆ U -> closed parent_of seen stage ->
    (base.size (U ∖ seen) < fuel)%nat ->
  exists r, ancestors_walk fuel p lim n stage seen total = Some r /\
    match r with inr s => forall y, y ∈ s <-> y ∈ seen \/ exists z, z ∈ stage /\ rtc parent_of z y | inl _ =>
      True end.
Proof.
  intros Dm Ch. induction fuel as [|fuel IH]; intros stage seen total D Sub C L; [lia|]. cbn [ancestors_walk].
  destruct (in_order stage) as [|it rest] eqn:E.
  - apply in_order_nil in E as ->. eexists. split; [done|]. intros y. set_solver.
  - assert (Hi : it ∈ stage) by (apply elem_of_in_order; rewrite E; set_solver). assert (Hu : it ∈ U) by set_solver.
    pose proof Hu as Hu'. rewrite <- Dm in Hu. apply elem_of_dom in Hu as [l Hl]. apply elem_of_dom in Hu' as [e He].
    rewrite He. cbn [obind]. destruct (_ >? limitDescendantSize lim); [by eexists|].
    destruct (_ >? limitDescendantCount lim); [by eexists|]. destruct (_ >? limitAncestorSize lim); [by eexists|].
    unfold GetMemPoolParents. rewrite Hl. cbn [obind].
      pose proof (stage_parents_spec lim ({[it]} ∪ seen) (in_order (lk_parents l)) (stage ∖ {[it]})) as Sp.
    destruct (stage_parents _ _ _ _) as [|stage']; [by eexists|].
    assert (N : forall y, y ∈ lk_parents l <-> parent_of it y) by (intros y; split;
    [intros; by exists l|intros (l' & E' & H); congruence]).
    replace (list_to_set (in_order (lk_parents l))) with (lk_parents l) in Sp by (apply set_eq; intros y;
      rewrite elem_of_list_to_set, elem_of_in_order; done).
    destruct (walk_round parent_of it (lk_parents l) stage seen N Hi D C) as (D' & C' & Eq).
    rewrite <- Sp in D', C', Eq. destruct (IH stage' ({[it]} ∪ seen) (u64 (total + nTxSize e)) D') as (r & Er & Hr);
    [|done|apply measure_step; [set_solver|set_solver|done]|].
    + intros y Hy. rewrite Sp in Hy. apply elem_of_union in Hy as [Hy|Hy]; [set_solver|]. apply (Ch it). apply N.
      set_solver.
    + exists r. split; [exact Er|]. destruct r as [|s]; [done|]. intros y. rewrite Hr. apply Eq.
Qed.
End Walk.
Lemma no_limit_exceeded x : (u64 x >? nNoLimit) = false.
Proof. pose proof (u64_range x). unfold nNoLimit. lia. Qed.
Lemma tc_first {A} (R : A -> A -> Prop) x y : tc R x y <-> exists z, R x z /\ rtc R z y.
Proof.
  split; [|intros (z & H & P); eapply tc_rtc_r; [by apply tc_once|done]]. intros P.
  destruct P as [x y H|x y z H P]; [exists y; split; [done|reflexivity]|exists y; split; [done|by apply tc_rtc]].
Qed.
Section AllAncestors.
Variable p : CTxMemPool.
Hypothesis Dm : dom (mapLinks p) = dom (mapTx p).
Hypothesis Ch : forall c a, parent_of p c a -> a ∈ dom (mapTx p).
Lemma stage_parents_unlimited seen ps : forall stage, exists s, stage_parents no_limits seen ps stage = inr s.
Proof. induction ps as [|q ps IH]; intros stage; cbn [stage_parents]; [by eexists|].
  cbn [limitAncestorCount no_limits]. rewrite no_limit_exceeded. apply IH. Qed.
Lemma ancestors_walk_unlimited n : forall fuel stage seen t r, 0 <= t < 2 ^ 64 ->
  ancestors_walk fuel p no_limits n stage seen t = Some r -> exists s, r = inr s.
Proof.
  induction fuel as [|fuel IH]; intros stage seen t r Ht; cbn [ancestors_walk]; [done|].
    destruct (in_order stage); [intros [= <-]; by eexists|]. intros H. apply obind_Some in H as (e & _ & H).
  cbn [limitDescendantSize limitDescendantCount limitAncestorSize no_limits] in H. rewrite !no_limit_exceeded in H.
    apply obind_Some in H as (ps & _ & H).
  destruct (stage_parents_unlimited ({[l]} ∪ seen) (in_order ps) (stage ∖ {[l]})) as [s Es]. rewrite Es in H.
  eapply IH; [|exact H]. apply u64_range.
Qed.
Lemma walk_from_parents stage n : stage ⊆ dom (mapTx p) -> 0 <= n < 2 ^ 64 ->
  exists s, ancestors_walk (S (base.size (mapTx p))) p no_limits n stage ∅ n = Some (inr s) /\ forall y, y ∈ s <->
    exists z, z ∈ stage /\ rtc (parent_of p) z y.
Proof.
  intros Sub Hn. destruct (ancestors_walk_exact p no_limits n Dm Ch (S (base.size (mapTx p))) stage ∅ n) as (r & E &
  H); [set_solver|done|intros x y Hx; set_solver| |].
  - rewrite difference_empty_L, size_dom. lia.
  - destruct (ancestors_walk_unlimited n _ _ _ _ _ Hn E) as [s ->]. exists s. split; [done|]. intros y. rewrite H.
    set_solver.
Qed.
(** The ancestors through the links. *)
Lemma all_ancestors_exact it e : it ∈ dom (mapTx p) -> 0 <= nTxSize e < 2 ^ 64 ->
  exists s, all_ancestors p it e false = Some s /\ forall y, y ∈ s <-> tc (parent_of p) it y.
Proof.
  intros Hi Hn. rewrite <- Dm in Hi. apply elem_of_dom in Hi as [l Hl].
  unfold all_ancestors, CalculateMemPoolAncestors, GetMemPoolParents. rewrite Hl. cbn [obind].
  destruct (walk_from_parents (lk_parents l) (nTxSize e)) as (s & E & H);
  [intros y Hy; apply (Ch it); by exists l|done|]. rewrite E. cbn [obind]. exists s. split; [done|]. intros y.
  rewrite H. split.
  - intros (z & Hz & P). apply tc_first. exists z. split; [by exists l|done].
  - intros (z & (l' & E' & Hz) & P)%tc_first. rewrite Hl in E'. injection E' as <-. by exists z.
Qed.
(** And of a transaction that is not in the pool, through its inputs. *)
Definition spends_from (tx : CTransaction) (a : txid) : Prop := exists i, i ∈ vin tx /\ out_hash (prevout i) = a.
Lemma search_parents_spec lim ins : forall acc, match search_parents p lim ins acc with
  | inr s => forall y, y ∈ s <-> y ∈ acc \/ (y ∈ dom (mapTx p) /\ exists i, i ∈ ins /\ out_hash (prevout i) = y)
  | inl e => e = TooManyParents
  end.
Proof.
  induction ins as [|i ins IH]; intros acc; cbn [search_parents]; [intros y; set_solver|].
    destruct (mapTx p !! out_hash (prevout i)) eqn:E.
  - destruct (_ >? _); [done|]. specialize (IH ({[out_hash (prevout i)]} ∪ acc)).
    destruct (search_parents _ _ _ _); [done|]. intros y. rewrite IH.
    assert (Hd : out_hash (prevout i) ∈ dom (mapTx p)) by (apply elem_of_dom; by eexists).
    split; [intros [[->%elem_of_singleton|H]%elem_of_union|(H1 & j & Hj & Ej)]|intros [H|(H1 & j &
    [->|Hj]%elem_of_cons & Ej)]]; [right; split; [done|]; exists i; set_solver|by left|right; split; [done|];
    exists j; set_solver|left; set_solver|left; set_solver|right; split; [done|]; by exists j].
  - specialize (IH acc). destruct (search_parents _ _ _ _); [done|]. intros y. rewrite IH. apply not_elem_of_dom in E.
    split; [intros [H|(H1 & j & Hj & Ej)]|intros [H|(H1 & j & [->|Hj]%elem_of_cons & Ej)]];
    [by left|right; split; [done|]; exists j; set_solver|by left|congruence|right; split; [done|]; by exists j].
Qed.
Lemma search_parents_unlimited ins : forall acc, exists s, search_parents p no_limits ins acc = inr s.
Proof. induction ins as [|i ins IH]; intros acc; cbn [search_parents]; [by eexists|].
  destruct (mapTx p !! _); [|apply IH]. cbn [limitAncestorCount no_limits]. rewrite no_limit_exceeded. apply IH. Qed.
Definition new_ancestor (tx : CTransaction) (y : txid) : Prop := exists z, z ∈ dom (mapTx p) /\ spends_from tx z /\
  rtc (parent_of p) z y.
Lemma new_ancestors_exact it e : 0 <= nTxSize e < 2 ^ 64 -> exists s, all_ancestors p it e true = Some s /\ forall y,
  y ∈ s <-> new_ancestor (e_tx e) y.
Proof.
  intros Hn. unfold all_ancestors, CalculateMemPoolAncestors. cbn [obind].
  destruct (search_parents_unlimited (vin (e_tx e)) ∅) as [ps Ep]. rewrite Ep.
  pose proof (search_parents_spec no_limits (vin (e_tx e)) ∅) as Sp. rewrite Ep in Sp.
    destruct (walk_from_parents ps (nTxSize e)) as (s & E & H); [intros y Hy; apply Sp in Hy; set_solver|done|].
  rewrite E. cbn [obind]. exists s. split; [done|]. intros y. rewrite H. unfold new_ancestor, spends_from.
  split; intros (z & Hz); exists z; [destruct Hz as [Hz P]; apply Sp in Hz; set_solver|destruct Hz as (H1 & H2 &
  P); split; [apply Sp; by right|done]].
Qed.
(** With limits: what is found is exact too, and the limits hold. *)
Lemma limited_ancestors_exact it e lim s : CalculateMemPoolAncestors p it e lim true = Some (inr s) -> forall y,
  y ∈ s <-> new_ancestor (e_tx e) y.
Proof.
  unfold CalculateMemPoolAncestors. cbn [obind]. pose proof (search_parents_spec lim (vin (e_tx e)) ∅) as Sp.
    destruct (search_parents _ _ _ _) as [|ps]; [done|]. intros E y.
  destruct (ancestors_walk_exact p lim (nTxSize e) Dm Ch (S (base.size (mapTx p))) ps ∅ (nTxSize e)) as (r & E' & H);
  [set_solver|intros z Hz; apply Sp in Hz; set_solver|intros a b Ha; set_solver|rewrite difference_empty_L, size_dom;
  lia|].
  rewrite E in E'. injection E' as <-. rewrite H. unfold new_ancestor, spends_from.
  split; [intros [?|(z & Hz & P)]; [set_solver|]; apply Sp in Hz; exists z; set_solver|intros (z & H1 & H2 & P);
  right; exists z; split; [apply Sp; by right|done]].
Qed.
End AllAncestors.
(** The descendants of an entry, with itself, added to those of a set that has all of its own. *)
Lemma CalculateDescendants_exact p it seen : dom (mapLinks p) = dom (mapTx p) -> (forall a c, child_of p a c ->
  c ∈ dom (mapTx p)) -> it ∈ dom (mapTx p) ->
  (forall x y, x ∈ seen -> child_of p x y -> y ∈ seen) -> exists r, CalculateDescendants p it seen = Some r /\
    forall y, y ∈ r <-> y ∈ seen \/ rtc (child_of p) it y.
Proof.
  intros Dm Ch Hi C. unfold CalculateDescendants. assert (L : (base.size (dom (mapTx p) ∖ seen) < S (base.size (mapTx
  p)))%nat) by (rewrite <- (size_dom (mapTx p)); pose proof (subseteq_size (dom (mapTx p) ∖ seen) (dom (mapTx p))
  ltac:(set_solver)); lia).
  case_bool_decide as E0.
  - destruct (descendants_walk_exact p Dm Ch (S (base.size (mapTx p))) ∅ seen) as (r & Er & Hr);
    [set_solver|set_solver|intros x y Hx Rxy; left; by eapply C|done|]. exists r. split; [done|]. intros y.
    rewrite Hr.
    split; [intros [H|(z & Hz & _)]; [by left|set_solver]|]. intros [H|P]; [by left|]. left. clear - E0 P C.
    induction P as [x|x c y Rxc P IH]; [done|]. apply IH. by eapply C.
  - destruct (descendants_walk_exact p Dm Ch (S (base.size (mapTx p))) {[it]} seen) as (r & Er & Hr);
    [set_solver|set_solver|intros x y Hx Rxy; left; by eapply C|done|]. exists r. split; [done|]. intros y.
    rewrite Hr.
    split; [intros [H|(z & ->%elem_of_singleton & P)]; [by left|by right]|]. intros [H|P]; [by left|]. right.
    exists it. set_solver.
Qed.
Lemma all_descendants_exact p s : dom (mapLinks p) = dom (mapTx p) -> (forall a c, child_of p a c ->
  c ∈ dom (mapTx p)) -> s ⊆ dom (mapTx p) ->
  exists r, all_descendants p s = Some r /\ (forall y, y ∈ r <-> exists x, x ∈ s /\ rtc (child_of p) x y).
Proof.
  intros Dm Ch Sub. unfold all_descendants. assert (G : forall l acc, (forall x, x ∈ l -> x ∈ dom (mapTx p)) ->
  (forall x y, x ∈ acc -> child_of p x y -> y ∈ acc) ->
    exists r, each (fun s it => CalculateDescendants p it s) l acc = Some r /\ forall y, y ∈ r <-> y ∈ acc \/
      exists x, x ∈ l /\ rtc (child_of p) x y).
  { induction l as [|it l IH]; intros acc Hl C; cbn [each]; [exists acc; split; [done|]; intros y; set_solver|].
    destruct (CalculateDescendants_exact p it acc Dm Ch (Hl it ltac:(set_solver)) C) as (r & Er & Hr). rewrite Er.
    cbn [obind]. destruct (IH r) as (r' & Er' & Hr'); [set_solver| |].
    - intros x y Hx Rxy. apply Hr in Hx as [Hx|Hx]; apply Hr; [left; by eapply C|right]. eapply rtc_r; done.
    - exists r'. split; [done|]. intros y. rewrite Hr', Hr.
      split; [intros [[H|P]|(x & Hx & P)]|intros [H|(x & [->|Hx]%elem_of_cons & P)]];
      [by left|right; exists it; set_solver|right; exists x; set_solver|by left; left|by left; right|right;
      by exists x]. }
  destruct (G (in_order s) ∅) as (r & Er & Hr); [intros x Hx; apply elem_of_in_order in Hx; set_solver|set_solver|].
  exists r. split; [done|]. intros y. rewrite Hr.
  split; [intros [?|(x & Hx & P)]; [set_solver|]; exists x; split;
  [by apply elem_of_in_order|done]|intros (x & Hx & P); right; exists x; split; [by apply elem_of_in_order|done]].
Qed.
