(* ===== verification/MempoolInv.v ===== *)
(** The invariant of the memory pool: links, indexes and statistics are those of the
    transactions in the pool, and every operation keeps it. *)
From Stdlib Require Import ZArith Lia List Bool.
From stdpp Require Import base list gmap sets sorting relations.
From S2P Require Import Prelude Serialize Script Interpreter Transaction Codecs Compressor Coins Mempool.
Import ListNotations.
Local Open Scope Z_scope.
Local Open Scope passion_scope.
#[local] Remove Hints finite.finite_countable : typeclass_instances.

(** * Statistics *)

Inductive stat := Count | Size | Fee | Ops.
#[export] Instance stat_eq_dec : EqDecision stat.
Proof. solve_decision. Defined.
Definition weight_of (k : stat) (e : CTxMemPoolEntry) : Z :=
  match k with Count => 1 | Size => nTxSize e | Fee => GetModifiedFee e | Ops => sigOpCount e end.
(** The type of the field. *)
Definition wrap (k : stat) : Z -> Z := match k with Count | Size => u64 | Fee => i64 | Ops => u32 end.
(** There is no field for the signature operations of descendants. *)
Definition desc_stat (k : stat) (e : CTxMemPoolEntry) : Z :=
  match k with Count => nCountWithDescendants e | Size => nSizeWithDescendants e | Fee =>
    nModFeesWithDescendants e | Ops => 0 end.
Definition anc_stat (k : stat) (e : CTxMemPoolEntry) : Z :=
  match k with Count => nCountWithAncestors e | Size => nSizeWithAncestors e | Fee => nModFeesWithAncestors e | Ops =>
    nSigOpCountWithAncestors e end.
Definition modulus (k : stat) : Z := match k with Ops => 2 ^ 32 | _ => 2 ^ 64 end.

Lemma signed_mod w x : 0 < w -> signed w x mod 2 ^ w = x mod 2 ^ w.
Proof.
  intros Hw. pose proof (pow2_pos w ltac:(lia)). unfold signed. destruct (_ <? _); [apply Z.mod_mod; lia|].
  rewrite <- (Z.mod_mod x (2 ^ w)) at 2 by lia. apply (Z_mod_plus_full (x mod 2 ^ w) (-1)).
Qed.
Lemma wrap_mod k x : wrap k x mod modulus k = x mod modulus k.
Proof. destruct k; cbn [wrap modulus]; [apply Z.mod_mod; lia|apply Z.mod_mod; lia|by apply (signed_mod 64)|apply
  Z.mod_mod; lia]. Qed.
Lemma wrap_eq k x y : x mod modulus k = y mod modulus k -> wrap k x = wrap k y.
Proof. destruct k; cbn [wrap modulus]; unfold u64, u32, i64, signed; intros H; rewrite ?H; done. Qed.
Lemma wrap_modulus_pos k : modulus k <> 0.
Proof. by destruct k. Qed.
Lemma wrap_add_l k x y : wrap k (wrap k x + y) = wrap k (x + y).
Proof. apply wrap_eq. pose proof (wrap_modulus_pos k).
  by rewrite (Z.add_mod (wrap k x)), wrap_mod, <- Z.add_mod by done. Qed.
Lemma wrap_add_r k x y y' : y mod modulus k = y' mod modulus k -> wrap k (x + y) = wrap k (x + y').
Proof. intros E. apply wrap_eq. pose proof (wrap_modulus_pos k). by rewrite (Z.add_mod x y), E, <- Z.add_mod by done.
  Qed.
Lemma i64_mod x : i64 x mod 2 ^ 64 = x mod 2 ^ 64.
Proof. by apply (signed_mod 64). Qed.
Lemma i32_mod x : i32 x mod 2 ^ 32 = x mod 2 ^ 32.
Proof. by apply (signed_mod 32). Qed.
Lemma i64_i64_add x y : i64 (i64 x + y) = i64 (x + y).
Proof. apply (wrap_add_l Fee). Qed.
Lemma i64_u64 x : i64 (u64 x) = i64 x.
Proof. apply (wrap_eq Fee). by apply Z.mod_mod. Qed.
Lemma i64_pos x : 0 < x < 2 ^ 63 -> 0 < i64 (u64 x).
Proof. intros H. rewrite i64_u64, i64_small; lia. Qed.
Lemma i32_nonneg x : 0 <= x < 2 ^ 31 -> 0 <= i32 (u32 x).
Proof. intros H. rewrite u32_small, i32_small; lia. Qed.

(** The updates without their assertions. *)
Definition bump_desc (d : stat -> Z) (e : CTxMemPoolEntry) : CTxMemPoolEntry :=
  mkPoolEntry (e_tx e) (nFee e) (nTxSize e) (e_nTime e) (spendsCoinbaseOrCoinstake e) (sigOpCount e) (feeDelta e)
    (u64 (nCountWithDescendants e + d Count)) (u64 (nSizeWithDescendants e + d Size)) (i64 (nModFeesWithDescendants e
      + d Fee))
    (nCountWithAncestors e) (nSizeWithAncestors e) (nModFeesWithAncestors e) (nSigOpCountWithAncestors e).
Definition bump_anc (d : stat -> Z) (e : CTxMemPoolEntry) : CTxMemPoolEntry :=
  mkPoolEntry (e_tx e) (nFee e) (nTxSize e) (e_nTime e) (spendsCoinbaseOrCoinstake e) (sigOpCount e) (feeDelta e)
    (nCountWithDescendants e) (nSizeWithDescendants e) (nModFeesWithDescendants e)
    (u64 (nCountWithAncestors e + d Count)) (u64 (nSizeWithAncestors e + d Size)) (i64 (nModFeesWithAncestors e + d
      Fee)) (u32 (nSigOpCountWithAncestors e + d Ops)).
Definition stat_fun (c s f o : Z) (k : stat) : Z := match k with Count => c | Size => s | Fee => f | Ops => o end.
Lemma UpdateDescendantState_ok s f c e x y : u64 (nSizeWithDescendants e + s) = u64 x -> 0 < x < 2 ^ 63 ->
  u64 (nCountWithDescendants e + c) = u64 y -> 0 < y < 2 ^ 63 ->
    UpdateDescendantState s f c e = Some (bump_desc (stat_fun c s f 0) e).
Proof.
  intros Ex Hx Ey Hy. unfold UpdateDescendantState. rewrite Ex, Ey. pose proof (i64_pos x Hx).
  pose proof (i64_pos y Hy). destruct (Z.gtb_spec (i64 (u64 x)) 0); [|lia].
  destruct (Z.gtb_spec (i64 (u64 y)) 0); [|lia].
  cbn [negb]. unfold bump_desc, stat_fun. by rewrite Ex, Ey.
Qed.
Lemma UpdateAncestorState_ok s f c o e x y z : u64 (nSizeWithAncestors e + s) = u64 x -> 0 < x < 2 ^ 63 ->
  u64 (nCountWithAncestors e + c) = u64 y -> 0 < y < 2 ^ 63 ->
  u32 (nSigOpCountWithAncestors e + o) = u32 z -> 0 <= z < 2 ^ 31 ->
    UpdateAncestorState s f c o e = Some (bump_anc (stat_fun c s f o) e).
Proof.
  intros Ex Hx Ey Hy Ez Hz. unfold UpdateAncestorState. rewrite Ex, Ey, Ez. pose proof (i64_pos x Hx).
  pose proof (i64_pos y Hy). pose proof (i32_nonneg z Hz).
  destruct (Z.gtb_spec (i64 (u64 x)) 0); [|lia]. destruct (Z.gtb_spec (i64 (u64 y)) 0); [|lia].
  destruct (Z.geb_spec (i32 (u32 z)) 0); [|lia].
  cbn [negb]. unfold bump_anc, stat_fun. by rewrite Ex, Ey, Ez.
Qed.
Lemma desc_stat_bump k d e : k <> Ops -> desc_stat k (bump_desc d e) = wrap k (desc_stat k e + d k).
Proof. by destruct k. Qed.
Lemma anc_stat_bump k d e : anc_stat k (bump_anc d e) = wrap k (anc_stat k e + d k).
Proof. by destruct k. Qed.

(** What the statistics are computed from. *)
Definition core (e : CTxMemPoolEntry) : CTxMemPoolEntry :=
  mkPoolEntry (e_tx e) (nFee e) (nTxSize e) (e_nTime e) (spendsCoinbaseOrCoinstake e) (sigOpCount e) (feeDelta e) 0 0
    0 0 0 0 0.
Lemma core_tx e f : core e = core f -> e_tx e = e_tx f.
Proof. by intros [=]. Qed.
Lemma core_weight k e f : core e = core f -> weight_of k e = weight_of k f.
Proof. intros H. injection H as ? H1 H2 ? ? H3 H4. destruct k; unfold weight_of, GetModifiedFee;
  by rewrite ?H1, ?H2, ?H3, ?H4. Qed.

(** * Maps changed on a set of keys *)

Definition on {A : Type} (s : gset txid) (f : A -> A) (m : gmap txid A) : gmap txid A := map_imap (fun h x =>
  Some (if bool_decide (h ∈ s) then f x else x)) m.
Lemma lookup_on {A : Type} (s : gset txid) (f : A ->
  A) m h : on s f m !! h = (if bool_decide (h ∈ s) then f else id) <$> m !! h.
Proof. unfold on. rewrite map_lookup_imap. destruct (m !! h); [|done]. cbn. by case_bool_decide. Qed.
Lemma on_empty {A : Type} (f : A -> A) m : on ∅ f m = m.
Proof. apply map_eq. intros h. rewrite lookup_on, bool_decide_eq_false_2 by set_solver. by destruct (m !! h). Qed.
Lemma dom_on {A : Type} (s : gset txid) (f : A -> A) (m : gmap txid A) : dom (on s f m) = dom m.
Proof. apply set_eq. intros h. rewrite !elem_of_dom, lookup_on, fmap_is_Some. done. Qed.
Lemma on_insert {A : Type} (x : txid) (s : gset txid) (f : A -> A) (m : gmap txid A) e : x ∉ s -> m !! x = Some e ->
  on s f (<[x := f e]> m) = on ({[x]} ∪ s) f m.
Proof.
  intros N E. apply map_eq. intros h. rewrite !lookup_on. destruct (decide (h = x)) as [->|Nh].
  - rewrite lookup_insert_eq, E. rewrite bool_decide_eq_false_2, bool_decide_eq_true_2 by set_solver. done.
  - rewrite lookup_insert_ne by done. f_equal. rewrite (bool_decide_ext (h ∈ s) (h ∈ {[x]} ∪ s)); [done|]. set_solver.
Qed.
Lemma each_modify f g : forall l p, NoDup l -> (forall a, a ∈ l -> exists e, mapTx p !! a = Some e /\
  f e = Some (g e)) ->
  each (fun p a => modify p a f) l p = Some (with_tx p (on (list_to_set l) g (mapTx p))).
Proof.
  induction l as [|a l IH]; intros p ND H; cbn [each list_to_set]; [rewrite on_empty; by destruct p|].
    apply NoDup_cons in ND as [Na ND]. destruct (H a ltac:(set_solver)) as (e & E & F).
  unfold modify at 1. rewrite E. cbn [obind]. rewrite F. cbn [obind]. rewrite IH; [|done|].
  - cbn [mapTx with_tx]. rewrite on_insert by (done || set_solver). done.
  - intros b Hb. destruct (H b ltac:(set_solver)) as (e' & E' & F'). exists e'. split; [|done]. cbn [mapTx with_tx].
    rewrite lookup_insert_ne; [done|]. set_solver.
Qed.
(** The same for the links. *)
Definition set_link (f : TxLinks -> TxLinks) (p : CTxMemPool) (h : txid) : CTxMemPool := with_links p (<[h :=
  f (links_of p h)]> (mapLinks p)).
Lemma each_link f : forall l p, NoDup l -> (forall a, a ∈ l -> a ∈ dom (mapLinks p)) ->
  foldl (set_link f) p l = with_links p (on (list_to_set l) f (mapLinks p)).
Proof.
  induction l as [|a l IH]; intros p ND H; cbn [foldl list_to_set]; [rewrite on_empty; by destruct p|].
    apply NoDup_cons in ND as [Na ND]. pose proof (H a ltac:(set_solver)) as [e E]%elem_of_dom.
  rewrite IH; [|done|intros b Hb; cbn [set_link mapLinks with_links]; set_solver]. cbn [set_link mapLinks with_links].
  unfold links_of. rewrite E. cbn [default]. change (default (mkLinks ∅ ∅) (Some e)) with e.
  rewrite on_insert by (done || set_solver). done.
Qed.
Lemma in_order_set s : list_to_set (in_order s) = s.
Proof. apply set_eq. intros x. by rewrite elem_of_list_to_set, elem_of_in_order. Qed.
Definition set_parent (it : txid) (add : bool) (l : TxLinks) : TxLinks :=
  mkLinks (if add then {[it]} ∪ lk_parents l else lk_parents l ∖ {[it]}) (lk_children l).
Definition set_child (it : txid) (add : bool) (l : TxLinks) : TxLinks :=
  mkLinks (lk_parents l) (if add then {[it]} ∪ lk_children l else lk_children l ∖ {[it]}).
Lemma UpdateChild_all (s : gset txid) it add p : s ⊆ dom (mapLinks p) -> foldl (fun p a =>
  UpdateChild p a it add) p (in_order s) = with_links p (on s (set_child it add) (mapLinks p)).
Proof. intros H. change (fun p a => UpdateChild p a it add) with (set_link (set_child it add)).
  rewrite each_link; [by rewrite in_order_set|apply NoDup_in_order|]. intros a Ha%elem_of_in_order. by apply H. Qed.
Lemma UpdateParent_all (s : gset txid) it add p : s ⊆ dom (mapLinks p) -> foldl (fun p a =>
  UpdateParent p a it add) p (in_order s) = with_links p (on s (set_parent it add) (mapLinks p)).
Proof. intros H. change (fun p a => UpdateParent p a it add) with (set_link (set_parent it add)).
  rewrite each_link; [by rewrite in_order_set|apply NoDup_in_order|]. intros a Ha%elem_of_in_order. by apply H. Qed.

(** * The invariant *)

Definition weight (p : CTxMemPool) (k : stat) (h : txid) : Z := match mapTx p !! h with Some e =>
  weight_of k e | None => 0 end.
Definition inputs_of (tx : CTransaction) : list COutPoint := map prevout (vin tx).
(** [c] spends an output of [a], both in the pool. *)
Definition spends (p : CTxMemPool) (c a : txid) : Prop := exists e, mapTx p !! c = Some e /\ a ∈ dom (mapTx p) /\
  spends_from (e_tx e) a.
(** While a reorganization returns the transactions [V] of disconnected blocks, their
    children in the rest of the pool are not linked yet. *)
Definition linked (V : gset txid) (p : CTxMemPool) (c a : txid) : Prop := spends p c a /\ (a ∈ V -> c ∈ V).
Definition Descendants (V : gset txid) (p : CTxMemPool) (h : txid) (D : gset txid) : Prop := forall y, y ∈ D <->
  rtc (linked V p) y h.
Definition Ancestors (V : gset txid) (p : CTxMemPool) (h : txid) (A : gset txid) : Prop := forall y, y ∈ A <->
  rtc (linked V p) h y.
Definition links_ok (V : gset txid) (p : CTxMemPool) : Prop := dom (mapLinks p) = dom (mapTx p) /\
  forall h l, mapLinks p !! h = Some l -> (forall a, a ∈ lk_parents l <-> linked V p h a) /\ (forall c,
    c ∈ lk_children l <-> linked V p c h).
Definition entry_ok (e : CTxMemPoolEntry) : Prop := 0 < nTxSize e /\ 0 <= sigOpCount e /\
  HasZerocoinSpendInputs (e_tx e) = false.
Section Invariant.
Context {abi : Abi} {crypto : ScriptCrypto}.
(** The indexes are those of the transactions. *)
Record index_ok (p : CTxMemPool) : Prop := {
  ix_key : forall h e, mapTx p !! h = Some e -> GetHash (e_tx e) = h /\ entry_ok e;
  ix_size : wsum (weight p Size) (dom (mapTx p)) < 2 ^ 63;
  ix_ops : wsum (weight p Ops) (dom (mapTx p)) < 2 ^ 31;
  ix_next : forall o t, mapNextTx p !! o = Some t <-> exists h e, mapTx p !! h = Some e /\ e_tx e = t /\
    o ∈ inputs_of t;
  ix_nullifiers : forall nf t, mapSaplingNullifiers p !! nf = Some t <-> exists h e, mapTx p !! h = Some e /\
    e_tx e = t /\ nf ∈ nullifiers t;
  ix_total : totalTxSize p = wsum (weight p Size) (dom (mapTx p));
  ix_deltas : forall h e, mapTx p !! h = Some e -> feeDelta e = fee_delta p h
}.
(** [K]: the statistics of ancestors that are kept. *)
Record pool_ok (K : stat -> Prop) (V : gset txid) (p : CTxMemPool) : Prop := {
  ok_index : index_ok p;
  ok_links : links_ok V p;
  ok_acyclic : forall a, ~ tc (linked V p) a a;
  ok_desc : forall h e D k, mapTx p !! h = Some e -> Descendants V p h D -> k <> Ops ->
    desc_stat k e = wrap k (wsum (weight p k) D);
  ok_anc : forall h e A k, mapTx p !! h = Some e -> Ancestors V p h A -> K k ->
    anc_stat k e = wrap k (wsum (weight p k) A)
}.

(** ** Pools with the same transactions *)

Definition same_core (p q : CTxMemPool) : Prop := forall h, core <$> mapTx p !! h = core <$> mapTx q !! h.
Lemma same_core_lookup p q h e : same_core p q -> mapTx p !! h = Some e -> exists f, mapTx q !! h = Some f /\
  core e = core f.
Proof. intros S E. specialize (S h). rewrite E in S. destruct (mapTx q !! h) as [f|]; [|done]. apply (inj Some) in S.
  by exists f. Qed.
Lemma same_core_sym p q : same_core p q -> same_core q p.
Proof. intros S h. by rewrite S. Qed.
Lemma same_core_trans p q r : same_core p q -> same_core q r -> same_core p r.
Proof. intros S T h. by rewrite S. Qed.
Lemma same_core_dom p q : same_core p q -> dom (mapTx p) = dom (mapTx q).
Proof. intros S. apply set_eq. intros h. rewrite !elem_of_dom, <- (fmap_is_Some core), S, fmap_is_Some. done. Qed.
Lemma same_core_weight p q : same_core p q -> forall k h, weight p k h = weight q k h.
Proof.
  intros S k h. unfold weight. specialize (S h). destruct (mapTx p !! h), (mapTx q !! h); try done.
  apply (inj Some) in S. by apply core_weight.
Qed.
Lemma same_core_wsum p q k s : same_core p q -> wsum (weight p k) s = wsum (weight q k) s.
Proof. intros S. apply wsum_ext. intros h _. by apply same_core_weight. Qed.
Lemma same_core_spends p q c a : same_core p q -> spends p c a -> spends q c a.
Proof. intros S (e & E & D & F). destruct (same_core_lookup p q c e S E) as (f & Ef & C). exists f. split; [done|].
  rewrite <- (same_core_dom p q S), <- (core_tx _ _ C). done. Qed.
Lemma same_core_linked V p q c a : same_core p q -> linked V p c a -> linked V q c a.
Proof. intros S [H I]. split; [by eapply same_core_spends|done]. Qed.
Lemma same_core_rtc V p q c a : same_core p q -> rtc (linked V p) c a <-> rtc (linked V q) c a.
Proof. intros S. pose proof (same_core_sym _ _ S) as S'.
  split; apply (rtc_congruence id); intros x y; by apply same_core_linked. Qed.
Lemma same_core_links V p q : same_core p q -> mapLinks p = mapLinks q -> links_ok V p -> links_ok V q.
Proof.
  intros S E [D H]. pose proof (same_core_sym _ _ S) as S'. split; [by rewrite <- E, <- (same_core_dom p q S)|].
  intros h l Hl. rewrite <- E in Hl. destruct (H h l Hl) as [H1 H2].
  split; intros a; [rewrite H1|rewrite H2]; split; by apply same_core_linked.
Qed.
Definition same_rest (p q : CTxMemPool) : Prop :=
  mapNextTx p = mapNextTx q /\ mapSaplingNullifiers p = mapSaplingNullifiers q /\ totalTxSize p = totalTxSize q /\
    mapDeltas p = mapDeltas q.
Lemma core_delta e f : core e = core f -> feeDelta e = feeDelta f.
Proof. by intros [=]. Qed.
Lemma core_entry e f : core e = core f -> entry_ok e -> entry_ok f.
Proof. intros E H. injection E as E1 _ E3 _ _ E6 _. unfold entry_ok. by rewrite <- E1, <- E3, <- E6. Qed.
Lemma index_ok_frame p q : index_ok p -> same_core p q -> same_rest p q -> index_ok q.
Proof.
  intros O S (R1 & R2 & R3 & R4). pose proof (same_core_sym _ _ S) as S'. split.
  - intros h e E. destruct (same_core_lookup q p h e S' E) as (f & Ef & C). rewrite (core_tx _ _ C).
    destruct (ix_key _ O h f Ef) as [H1 H2]. split; [done|]. by eapply core_entry.
  - rewrite <- (same_core_dom p q S), (same_core_wsum q p) by done. apply (ix_size _ O).
  - rewrite <- (same_core_dom p q S), (same_core_wsum q p) by done. apply (ix_ops _ O).
  - intros o t. rewrite <- R1, (ix_next _ O). split; intros (h & e & E & Et & I);
    [destruct (same_core_lookup p q h e S E) as (f & Ef & C)|destruct (same_core_lookup q p h e S' E) as (f & Ef &
    C)]; exists h, f; rewrite <- (core_tx _ _ C); done.
  - intros o t. rewrite <- R2, (ix_nullifiers _ O).
    split; intros (h & e & E & Et & I); [destruct (same_core_lookup p q h e S E) as (f & Ef & C)|destruct
    (same_core_lookup q p h e S' E) as (f & Ef & C)]; exists h, f; rewrite <- (core_tx _ _ C); done.
  - rewrite <- R3, <- (same_core_dom p q S), (same_core_wsum q p) by done. apply (ix_total _ O).
  - intros h e E. destruct (same_core_lookup q p h e S' E) as (f & Ef & C). rewrite (core_delta _ _ C).
    unfold fee_delta, deltas_of. rewrite <- R4. by apply (ix_deltas _ O).
Qed.
(** A change of the ancestor statistics only. *)
Lemma pool_ok_frame K V p q : pool_ok K V p -> same_core p q -> same_rest p q -> mapLinks p = mapLinks q ->
  (forall h e f k, mapTx p !! h = Some e -> mapTx q !! h = Some f -> desc_stat k e = desc_stat k f) ->
    pool_ok (fun _ => False) V q.
Proof.
  intros O S R L Hd. pose proof (same_core_sym _ _ S) as S'. split.
  - by apply (index_ok_frame p q (ok_index _ _ _ O)).
  - eapply same_core_links; [exact S|exact L|apply (ok_links _ _ _ O)].
  - intros a P. apply (ok_acyclic _ _ _ O a). eapply (tc_congruence id); [|exact P]. intros x y.
    by apply same_core_linked.
  - intros h e D k E HD Nk. destruct (same_core_lookup q p h e S' E) as (f & Ef & C).
    rewrite <- (Hd h f e k Ef E), (same_core_wsum q p) by done. apply (ok_desc _ _ _ O h f D k Ef); [|done].
    intros y. rewrite (HD y). by apply same_core_rtc.
  - done.
Qed.
Lemma pool_ok_weaken K K' V p : pool_ok K V p -> (forall k, K' k -> K k) -> pool_ok K' V p.
Proof. intros O H. destruct O. split; eauto. Qed.

(** ** What it gives *)

Section IndexFacts.
Variable p : CTxMemPool.
Hypothesis O : index_ok p.
Abbreviation U := (dom (mapTx p)).
Lemma entry_weight_nonneg k h : k <> Fee -> 0 <= weight p k h.
Proof. intros N. unfold weight. destruct (mapTx p !! h) as [e|] eqn:E; [|lia].
  destruct (ix_key _ O h e E) as (_ & H1 & H2 & _). destruct k; cbn; (done || lia). Qed.
Lemma weight_pos k h : k = Count \/ k = Size -> h ∈ U -> 0 < weight p k h.
Proof. intros Hk [e E]%elem_of_dom. unfold weight. rewrite E. destruct (ix_key _ O h e E) as (_ & H1 & H2 & _).
  destruct Hk as [->| ->]; cbn; lia. Qed.
Lemma count_le_size s : s ⊆ U -> wsum (weight p Count) s <= wsum (weight p Size) s.
Proof.
  revert s. refine (set_ind_L _ _ _); [done|]. intros a s N IH Sub. rewrite !wsum_insert by done.
    specialize (IH ltac:(set_solver)). assert (Ha : a ∈ U) by set_solver.
  assert (L : weight p Count a <= weight p Size a); [|lia]. pose proof (weight_pos Size a ltac:(by right) Ha) as P.
  apply elem_of_dom in Ha as [e E]. unfold weight in *. rewrite E in *. cbn in *. lia.
Qed.
(** Sums over a part of the pool with one member in it are positive and small. *)
Lemma sum_bounds k s h : k = Count \/ k = Size -> s ⊆ U -> h ∈ s -> 0 < wsum (weight p k) s < 2 ^ 63.
Proof.
  intros Hk Sub Hh. assert (Nk : k <> Fee) by (by destruct Hk as [->| ->]). split.
  - rewrite (union_difference_L {[h]} s), wsum_insert by set_solver. pose proof (weight_pos k h Hk ltac:(set_solver)).
    pose proof (wsum_nonneg (weight p k) (s ∖ {[h]})) as G.
    specialize (G ltac:(intros; by apply entry_weight_nonneg)). lia.
  - assert (L : wsum (weight p k) s <= wsum (weight p Size) s) by (destruct Hk as [->| ->];
    [by apply count_le_size|lia]).
    pose proof (wsum_mono (weight p Size) s U Sub) as G. specialize (G ltac:(intros; by apply entry_weight_nonneg)).
      pose proof (ix_size _ O). lia.
Qed.
Lemma ops_bounds s : s ⊆ U -> 0 <= wsum (weight p Ops) s < 2 ^ 31.
Proof.
  intros Sub. pose proof (wsum_mono (weight p Ops) s U Sub) as G.
  specialize (G ltac:(intros; by apply entry_weight_nonneg)). pose proof (ix_ops _ O).
  pose proof (wsum_nonneg (weight p Ops) s) as G'. specialize (G' ltac:(intros; by apply entry_weight_nonneg)). lia.
Qed.
Lemma size_small h e : mapTx p !! h = Some e -> 0 <= nTxSize e < 2 ^ 64.
Proof.
  intros E. pose proof (sum_bounds Size {[h]} h ltac:(by right)) as B. rewrite wsum_singleton in B.
  unfold weight in B. rewrite E in B. cbn in B. assert (h ∈ U) by (apply elem_of_dom; by exists e).
  specialize (B ltac:(set_solver) ltac:(set_solver)). lia.
Qed.
End IndexFacts.
Section Facts.
Variables (K : stat -> Prop) (V : gset txid) (p : CTxMemPool).
Hypothesis O : pool_ok K V p.
Abbreviation U := (dom (mapTx p)).
Lemma linked_dom c a : linked V p c a -> c ∈ U /\ a ∈ U.
Proof. intros [(e & E & D & _) _]. split; [|done]. apply elem_of_dom. by exists e. Qed.
Lemma rtc_dom c a : rtc (linked V p) c a -> (c ∈ U -> a ∈ U) /\ (a ∈ U -> c ∈ U).
Proof. induction 1 as [x|x y z H _ IH]; [done|]. pose proof (linked_dom x y H). naive_solver. Qed.
Lemma parent_of_linked c a : parent_of p c a <-> linked V p c a.
Proof.
  destruct (ok_links _ _ _ O) as [D H]. split; [intros (l & E & I); by apply (H c l E)|]. intros L.
  destruct (linked_dom c a L) as [Hc _]. rewrite <- D in Hc. apply elem_of_dom in Hc as [l E]. exists l.
  split; [done|]. by apply (H c l E).
Qed.
Lemma child_of_linked a c : child_of p a c <-> linked V p c a.
Proof.
  destruct (ok_links _ _ _ O) as [D H]. split; [intros (l & E & I); by apply (H a l E)|]. intros L.
  destruct (linked_dom c a L) as [_ Ha]. rewrite <- D in Ha. apply elem_of_dom in Ha as [l E]. exists l.
  split; [done|]. by apply (H a l E).
Qed.
Lemma rtc_parent_of c a : rtc (parent_of p) c a <-> rtc (linked V p) c a.
Proof. split; apply (rtc_congruence id); intros x y; apply parent_of_linked. Qed.
Lemma tc_parent_of c a : tc (parent_of p) c a <-> tc (linked V p) c a.
Proof. split; apply (tc_congruence id); intros x y; apply parent_of_linked. Qed.
Lemma rtc_child_of a c : rtc (child_of p) a c <-> rtc (linked V p) c a.
Proof.
  split; intros P.
  - induction P as [x|x y z H _ IH]; [done|]. eapply rtc_r; [exact IH|]. by apply child_of_linked.
  - induction P as [x|x y z H _ IH]; [done|]. eapply rtc_r; [exact IH|]. by apply child_of_linked.
Qed.
Lemma links_dom : dom (mapLinks p) = U.
Proof. apply (ok_links _ _ _ O). Qed.
Lemma parents_in c a : parent_of p c a -> a ∈ U.
Proof. intros H%parent_of_linked. by destruct (linked_dom c a H). Qed.
Lemma children_in a c : child_of p a c -> c ∈ U.
Proof. intros H%child_of_linked. by destruct (linked_dom c a H). Qed.
Lemma ancestors_of h e : mapTx p !! h = Some e -> exists A, all_ancestors p h e false = Some A /\ (forall y, y ∈ A <->
  tc (linked V p) h y).
Proof.
  intros E. destruct (all_ancestors_exact p links_dom parents_in h e) as (A & EA & HA);
  [apply elem_of_dom; by exists e|by apply (size_small p (ok_index _ _ _ O) h)|]. exists A. split; [done|]. intros y.
  rewrite HA. apply tc_parent_of.
Qed.
Lemma descendants_of h : h ∈ U -> exists D, CalculateDescendants p h ∅ = Some D /\ Descendants V p h D.
Proof.
  intros Hh. destruct (CalculateDescendants_exact p h ∅ links_dom children_in Hh) as (D & E & HD); [set_solver|].
  exists D. split; [done|]. intros y. rewrite HD, rtc_child_of. set_solver.
Qed.
Lemma descendants_sub h D : h ∈ U -> Descendants V p h D -> D ⊆ U.
Proof. intros Hh HD y Hy. apply HD in Hy. by apply (rtc_dom y h). Qed.
Lemma ancestors_sub h A : h ∈ U -> Ancestors V p h A -> A ⊆ U.
Proof. intros Hh HA y Hy. apply HA in Hy. by apply (rtc_dom h y). Qed.
End Facts.

(** * Removing *)

Lemma wrap_drop (k : stat) (f : txid -> Z) (s : gset txid) x d : x ∈ s -> d mod modulus k = (- f x) mod modulus k ->
  wrap k (wrap k (wsum f s) + d) = wrap k (wsum f (s ∖ {[x]})).
Proof. intros Hx Hd. rewrite wrap_add_l, wsum_remove by done. rewrite (wrap_add_r k _ d (- f x)) by done.
  f_equal; lia. Qed.
Lemma wrap_insert (k : stat) (f : txid -> Z) (s : gset txid) x d : x ∉ s -> d mod modulus k = f x mod modulus k ->
  wrap k (wrap k (wsum f s) + d) = wrap k (wsum f ({[x]} ∪ s)).
Proof. intros Hx Hd. rewrite wrap_add_l, wsum_insert by done. rewrite (wrap_add_r k _ d (f x)) by done. f_equal; lia.
  Qed.
Section Sever.
Variables (V : gset txid) (b : CTxMemPool).
Hypothesis O : pool_ok (fun _ => False) V b.
Abbreviation U := (dom (mapTx b)).
(** [L] is subtracted from the statistics of its ancestors, and no longer listed as children. *)
Record severed (L : gset txid) (p : CTxMemPool) : Prop := {
  sv_core : same_core p b;
  sv_rest : same_rest p b;
  sv_links : mapLinks p = (fun l => mkLinks (lk_parents l) (lk_children l ∖ L)) <$> mapLinks b;
  sv_desc : forall h e D k, mapTx p !! h = Some e -> Descendants V b h D -> k <> Ops ->
    desc_stat k e = wrap k (wsum (weight b k) (D ∖ (L ∖ {[h]})));
  sv_anc : forall h e f k, mapTx p !! h = Some e -> mapTx b !! h = Some f -> anc_stat k e = anc_stat k f
}.
Lemma severed_0 : severed ∅ b.
Proof.
  split; [done|by split_and!| |intros h e D k E HD N|intros h e f k E F; congruence].
  - apply map_eq. intros h. rewrite lookup_fmap. destruct (mapLinks b !! h) as [[P C]|]; [|done]. cbn. do 2 f_equal.
    set_solver.
  - replace (D ∖ (∅ ∖ {[h]})) with D by set_solver. by eapply ok_desc.
Qed.
Lemma severed_parent_of (L : gset txid) p c a : severed L p -> parent_of p c a <-> linked V b c a.
Proof.
  intros S. rewrite <- (parent_of_linked _ V b O). unfold parent_of. rewrite (sv_links L p S), lookup_fmap. split.
  - intros (l & E & I). destruct (mapLinks b !! c) as [l'|]; [|done]. injection E as <-. by exists l'.
  - intros (l & E & I). rewrite E. eexists. split; [reflexivity|done].
Qed.
Lemma severed_dom L p : severed L p -> dom (mapLinks p) = dom (mapTx p) /\ dom (mapTx p) = U.
Proof. intros S. rewrite (same_core_dom p b (sv_core L p S)), (sv_links L p S), dom_fmap_L.
  split; [apply (links_dom _ V b O)|done]. Qed.
Lemma severed_ancestors L p x e : severed L p -> mapTx p !! x = Some e -> exists A,
  all_ancestors p x e false = Some A /\ forall y, y ∈ A <-> tc (linked V b) x y.
Proof.
  intros S E. destruct (severed_dom L p S) as [D1 D2].
  destruct (same_core_lookup p b x e (sv_core L p S) E) as (f & Ef & C).
  destruct (all_ancestors_exact p D1) with (it := x) (e := e) as (A & EA & HA).
  - intros c a H%(severed_parent_of (L : gset txid) p c a S). rewrite D2. by apply (linked_dom V b c a).
  - apply elem_of_dom. by exists e.
  - injection C as _ _ -> _. by apply (size_small b (ok_index _ _ _ O) x).
  - exists A. split; [done|]. intros y. rewrite HA.
    split; apply (tc_congruence id); intros c a; apply (severed_parent_of L p c a S).
Qed.
Lemma sever_links (L : gset txid) (x : txid) (P : gset txid) : (forall a, a ∈ P <-> linked V b x a) ->
  on P (set_child x false) ((fun l => mkLinks (lk_parents l) (lk_children l ∖ L)) <$> mapLinks b) = (fun l =>
    mkLinks (lk_parents l) (lk_children l ∖ ({[x]} ∪ L))) <$> mapLinks b.
Proof.
  intros HP. apply map_eq. intros h. rewrite lookup_on, !lookup_fmap.
  destruct (mapLinks b !! h) as [l|] eqn:E; [|done]. cbn. destruct (ok_links _ _ _ O) as [_ LK].
  destruct (LK h l E) as [_ Hc]. case_bool_decide as H; unfold set_child, id; cbn [lk_parents lk_children];
  do 2 f_equal; apply set_eq; intros y.
  - set_solver.
  - assert (x ∉ lk_children l) by (rewrite Hc; by rewrite HP in H). set_solver.
Qed.
(** One ancestor. *)
Lemma sever_stat L p x a e k d : severed L p -> x ∉ L -> tc (linked V b) x a -> mapTx p !! a = Some e -> k <> Ops ->
  d mod modulus k = (- weight b k x) mod modulus k ->
  exists s, s ⊆ U /\ a ∈ s /\ (forall D, Descendants V b a D -> s = D ∖ (({[x]} ∪ L) ∖ {[a]})) /\
    wrap k (desc_stat k e + d) = wrap k (wsum (weight b k) s).
Proof.
  intros S Nx T E Nk Hd. destruct (severed_dom L p S) as [_ D2].
  assert (Ha : a ∈ U) by (rewrite <- D2; apply elem_of_dom; by exists e).
  assert (Ne : x <> a) by (intros ->; by apply (ok_acyclic _ _ _ O a)).
  destruct (descendants_of _ V b O a Ha) as (D & _ & HD). exists (D ∖ (({[x]} ∪ L) ∖ {[a]})).
  assert (Aa : a ∈ D) by (by apply HD). assert (Xd : x ∈ D) by (apply HD; by apply tc_rtc).
  pose proof (descendants_sub V b a D Ha HD). split; [set_solver|]. split; [set_solver|]. split.
  - intros D' HD'. assert (D = D') as ->; [|done]. apply set_eq. intros y. by rewrite (HD y), (HD' y).
  - rewrite (sv_desc L p S a e D k E HD Nk), (wrap_drop k (weight b k) _ x d) by (done || set_solver). do 2 f_equal.
    set_solver.
Qed.
Lemma opp_mod k x y : x mod modulus k = y mod modulus k -> (- x) mod modulus k = (- y) mod modulus k.
Proof. intros H. pose proof (wrap_modulus_pos k). rewrite <- (Z.sub_0_l x), <- (Z.sub_0_l y), (Zminus_mod 0 x), H,
  <- Zminus_mod. done. Qed.
Definition loss (e : CTxMemPoolEntry) : stat -> Z :=
  stat_fun (-1) (i64 (-1 * nTxSize e)) (i64 (-1 * GetModifiedFee e)) 0.
Lemma loss_mod p x e k : same_core p b -> mapTx p !! x = Some e -> k <> Ops ->
  loss e k mod modulus k = (- weight b k x) mod modulus k.
Proof.
  intros S E N. rewrite <- (same_core_weight p b S). unfold weight. rewrite E.
  destruct k; cbn [loss stat_fun modulus weight_of];
  [done|rewrite i64_mod; f_equal; lia|rewrite i64_mod; f_equal; lia|done].
Qed.
Lemma sever_step L p x : severed L p -> x ∈ U -> x ∉ L ->
  exists p', (e <- mapTx p !! x;; setAncestors <- all_ancestors p x e false;;
    UpdateAncestorsOf p false x setAncestors) = Some p' /\ severed ({[x]} ∪ L) p'.
Proof.
  intros S Hx Nx. destruct (severed_dom L p S) as [D1 D2]. pose proof Hx as Hx'. rewrite <- D2 in Hx.
  apply elem_of_dom in Hx as [e E]. rewrite E. cbn [obind].
  destruct (severed_ancestors L p x e S E) as (A & EA & HA). rewrite EA. cbn [obind].
  unfold UpdateAncestorsOf, GetMemPoolParents. rewrite (sv_links L p S), lookup_fmap.
  rewrite <- (links_dom _ V b O) in Hx'. apply elem_of_dom in Hx' as [l El]. rewrite El.
  cbn [obind fmap option_fmap option_map lk_parents]. destruct (ok_links _ _ _ O) as [DL LK].
  destruct (LK x l El) as [Hp _].
  rewrite UpdateChild_all by (intros a Ha; rewrite D1, D2; by apply (linked_dom V b x a), Hp). cbn [mapTx with_links].
  rewrite E. cbn [obind].
  assert (St : forall a ea k, tc (linked V b) x a -> mapTx p !! a = Some ea -> k <> Ops -> exists s, s ⊆ U /\ a ∈ s /\
  (forall D, Descendants V b a D -> s = D ∖ (({[x]} ∪ L) ∖ {[a]})) /\
  wrap k (desc_stat k ea + loss e k) = wrap k (wsum (weight b k) s)).
  { intros a ea k T Ea Nk. apply (sever_stat L p x a ea k _ S Nx T Ea Nk).
    eapply loss_mod; [apply (sv_core L p S)|done|done]. }
  rewrite (each_modify _ (bump_desc (loss e))).
  - eexists. split; [reflexivity|]. rewrite in_order_set. split; cbn [mapTx with_tx with_links mapLinks].
    + intros h. cbn [mapTx with_tx with_links]. rewrite lookup_on, <- (sv_core L p S h).
      destruct (mapTx p !! h); [|done]. cbn. by case_bool_decide.
    + apply (sv_rest L p S).
    + rewrite (sv_links L p S). by apply sever_links.
    + intros h f D k F HD Nk. rewrite lookup_on in F. destruct (mapTx p !! h) as [f0|] eqn:F0; [|done].
      case_bool_decide as H; injection F as <-.
      * apply HA in H. destruct (St h f0 k H F0 Nk) as (s & _ & _ & Es & Ev). rewrite desc_stat_bump by done.
        rewrite Ev. by rewrite (Es D HD).
      * unfold id. rewrite (sv_desc L p S h f0 D k F0 HD Nk). do 2 f_equal.
        destruct (decide (h = x)) as [->|Nh]; [set_solver|]. assert (x ∉ D); [|set_solver]. intros Xd. apply H, HA.
        apply HD in Xd. apply rtc_tc in Xd as [->|]; done.
    + intros h f g k F G. rewrite lookup_on in F. destruct (mapTx p !! h) as [f0|] eqn:F0; [|done].
      rewrite <- (sv_anc L p S h f0 g k F0 G). case_bool_decide; injection F as <-; [by destruct k|done].
  - apply NoDup_in_order.
  - intros a Ha%elem_of_in_order. apply HA in Ha. assert (Hu : a ∈ dom (mapTx p)).
    { rewrite D2. apply tc_first in Ha as (z & Hz & P). apply (rtc_dom V b z a P). by apply (linked_dom V b x z). }
    apply elem_of_dom in Hu as [ea Ea]. exists ea. cbn [mapTx with_links]. split; [done|].
    destruct (St a ea Size Ha Ea ltac:(done)) as (s1 & Sub1 & In1 & _ & E1).
    destruct (St a ea Count Ha Ea ltac:(done)) as (s2 & Sub2 & In2 & _ & E2).
    apply (UpdateDescendantState_ok _ _ _ _ _ _ E1 (sum_bounds b (ok_index _ _ _ O) Size s1 a ltac:(by right) Sub1
    In1) E2 (sum_bounds b (ok_index _ _ _ O) Count s2 a ltac:(by left) Sub2 In2)).
Qed.
Lemma sever_all : forall l L p, severed L p -> NoDup l -> (forall x, x ∈ l -> x ∈ U /\ x ∉ L) ->
  exists p', each (fun p x => e <- mapTx p !! x;; setAncestors <- all_ancestors p x e false;;
    UpdateAncestorsOf p false x setAncestors) l p = Some p' /\ severed (list_to_set l ∪ L) p'.
Proof.
  induction l as [|x l IH]; intros L p S ND H; cbn [each list_to_set];
    [exists p; split; [done|]; by replace (∅ ∪ L) with L by set_solver|]. apply NoDup_cons in ND as [Nx ND].
  destruct (H x ltac:(set_solver)) as [Hx Nl]. destruct (sever_step L p x S Hx Nl) as (p1 & E1 & S1). rewrite E1.
  cbn [obind]. destruct (IH _ _ S1 ND) as (p2 & E2 & S2);
  [intros y Hy; destruct (H y ltac:(set_solver)); set_solver|].
  exists p2. split; [done|]. by replace ({[x]} ∪ list_to_set l ∪ L) with (list_to_set l ∪ ({[x]} ∪ L)) by set_solver.
Qed.
(** The children outside the removed set [St] forget their parents. *)
Definition forgotten (St L : gset txid) (m : gmap txid TxLinks) : Prop :=
  forall h, m !! h = (fun l => mkLinks (if bool_decide (h ∈ St) then lk_parents l else lk_parents l ∖ L) (lk_children
    l ∖ St)) <$> mapLinks b !! h.
Lemma forget_step St L q m x : forgotten St L m -> x ∈ U -> x ∈ St ->
  exists m', UpdateChildrenForRemoval (with_links q m) x = Some (with_links q m') /\ forgotten St ({[x]} ∪ L) m'.
Proof.
  intros F Hx Hs. rewrite <- (links_dom _ V b O) in Hx. apply elem_of_dom in Hx as [l El].
  destruct (ok_links _ _ _ O) as [DL LK]. destruct (LK x l El) as [_ Hc].
  assert (Dm : dom m = dom (mapLinks b)). { apply set_eq. intros h. by rewrite !elem_of_dom, F, fmap_is_Some. }
  unfold UpdateChildrenForRemoval, GetMemPoolChildren. cbn [mapLinks with_links]. rewrite F, El.
    cbn [fmap option_fmap option_map obind lk_children]. rewrite UpdateParent_all.
  - cbn [mapLinks with_links]. eexists. split; [reflexivity|]. intros h. rewrite lookup_on, F.
    destruct (mapLinks b !! h) as [lh|] eqn:Eh; [|done]. cbn [fmap option_fmap option_map].
    destruct (LK h lh Eh) as [Hp _].
    f_equal. case_bool_decide as H; unfold set_parent, id; cbn [lk_parents lk_children]; f_equal.
    + case_bool_decide; set_solver.
    + case_bool_decide; [done|]. assert (x ∉ lk_parents lh); [|set_solver]. rewrite Hp.
      rewrite elem_of_difference, Hc in H. naive_solver.
  - cbn [mapLinks with_links]. rewrite Dm, DL. intros c Hc'. apply (linked_dom V b c x). apply Hc. set_solver.
Qed.
Lemma forget_all St q : forall l L m, forgotten St L m -> (forall x, x ∈ l -> x ∈ U /\ x ∈ St) ->
  exists m', each UpdateChildrenForRemoval l (with_links q m) = Some (with_links q m') /\
    forgotten St (list_to_set l ∪ L) m'.
Proof.
  induction l as [|x l IH]; intros L m F H; cbn [each list_to_set];
    [exists m; split; [done|]; by replace (∅ ∪ L) with L by set_solver|].
  destruct (H x ltac:(set_solver)) as [Hx Hs]. destruct (forget_step St L q m x F Hx Hs) as (m1 & E1 & F1).
  rewrite E1. cbn [obind]. destruct (IH _ _ F1) as (m2 & E2 & F2); [set_solver|].
  exists m2. split; [done|]. by replace ({[x]} ∪ list_to_set l ∪ L) with (list_to_set l ∪ ({[x]} ∪ L)) by set_solver.
Qed.
End Sever.
(** Entries leave the indexes. *)
Lemma foldl_delete {I} (f : I -> COutPoint) l : forall (m : gmap COutPoint CTransaction) o, foldl (fun m i =>
  delete (f i) m) m l !! o = if bool_decide (o ∈ map f l) then None else m !! o.
Proof.
  induction l as [|i l IH]; intros m o; cbn [foldl map]; [by rewrite bool_decide_eq_false_2 by set_solver|].
    rewrite IH. destruct (decide (o = f i)) as [->|N].
  - rewrite lookup_delete_eq, (bool_decide_eq_true_2 (f i ∈ f i :: map f l)) by set_solver. by case_bool_decide.
  - rewrite lookup_delete_ne by done. by rewrite (bool_decide_ext (o ∈ map f l) (o ∈ f i :: map f l)) by set_solver.
Qed.
Lemma foldl_delete_nf l : forall (m : gmap txid CTransaction) o, foldl (fun m i =>
  delete i m) m l !! o = if bool_decide (o ∈ l) then None else m !! o.
Proof.
  induction l as [|i l IH]; intros m o; cbn [foldl]; [by rewrite bool_decide_eq_false_2 by set_solver|]. rewrite IH.
    destruct (decide (o = i)) as [->|N].
  - rewrite lookup_delete_eq, (bool_decide_eq_true_2 (i ∈ i :: l)) by set_solver. by case_bool_decide.
  - rewrite lookup_delete_ne by done. by rewrite (bool_decide_ext (o ∈ l) (o ∈ i :: l)) by set_solver.
Qed.
Lemma same_tx p h h' e e' : index_ok p -> mapTx p !! h = Some e -> mapTx p !! h' = Some e' -> e_tx e = e_tx e' ->
  h = h'.
Proof. intros O E E' H. destruct (ix_key _ O h e E) as [<- _]. destruct (ix_key _ O h' e' E') as [<- _]. by rewrite H.
  Qed.
Lemma wsum_delete (p : CTxMemPool) (x : txid) (k : stat) (s : gset txid) : x ∉ s -> forall q,
  mapTx q = delete x (mapTx p) -> wsum (weight q k) s = wsum (weight p k) s.
Proof. intros N q E. apply wsum_ext. intros h Hh. unfold weight. rewrite E, lookup_delete_ne; [done|]. set_solver.
  Qed.
Lemma removeUnchecked_ok p x : index_ok p -> x ∈ dom (mapTx p) -> exists p', removeUnchecked p x = Some p' /\
  index_ok p' /\
  mapTx p' = delete x (mapTx p) /\ mapLinks p' = delete x (mapLinks p) /\ mapDeltas p' = mapDeltas p.
Proof.
  intros O Hx. pose proof Hx as [e E]%elem_of_dom. unfold removeUnchecked. rewrite E. cbn [obind]. eexists.
  split; [reflexivity|]. split; [|done].
  assert (W : forall k, wsum (weight (with_tx p (delete x (mapTx p))) k) (dom (delete x (mapTx p))) = wsum (weight p
  k) (dom (mapTx p)) - weight p k x).
  { intros k. rewrite dom_delete_L, (wsum_delete p x k) by (done || set_solver). by rewrite wsum_remove by done. }
  pose proof (entry_weight_nonneg p O Size x ltac:(done)) as W1.
    pose proof (entry_weight_nonneg p O Ops x ltac:(done)) as W2.
  assert (Nx : forall h f, delete x (mapTx p) !! h = Some f -> h <> x /\ mapTx p !! h = Some f) by (intros h f;
  rewrite lookup_delete_Some; naive_solver).
  split; cbn [mapTx mapNextTx mapSaplingNullifiers totalTxSize mapDeltas].
  - intros h f [_ F]%Nx. by apply (ix_key _ O).
  - change (weight _ Size) with (weight (with_tx p (delete x (mapTx p))) Size). rewrite W. pose proof (ix_size _ O).
    lia.
  - change (weight _ Ops) with (weight (with_tx p (delete x (mapTx p))) Ops). rewrite W. pose proof (ix_ops _ O). lia.
  - intros o t. rewrite (foldl_delete prevout). case_bool_decide as H.
    + split; [done|]. intros (h & f & F & Et & I). apply Nx in F as [N F]. exfalso. apply N.
      assert (N1 : mapNextTx p !! o = Some t) by (apply (ix_next _ O); by exists h, f).
      assert (N2 : mapNextTx p !! o = Some (e_tx e)) by (apply (ix_next _ O); by exists x, e).
      apply (same_tx p h x f e O F E). congruence.
    + rewrite (ix_next _ O). split; intros (h & f & F & Et & I); exists h, f; [|by apply Nx in F as [_ F]].
      rewrite lookup_delete_ne; [done|]. intros <-. assert (f = e) as -> by congruence. by subst t.
  - intros o t. rewrite foldl_delete_nf. case_bool_decide as H.
    + split; [done|]. intros (h & f & F & Et & I). apply Nx in F as [N F]. exfalso. apply N.
      assert (N1 : mapSaplingNullifiers p !! o = Some t) by (apply (ix_nullifiers _ O); by exists h, f).
      assert (N2 : mapSaplingNullifiers p !! o = Some (e_tx e)) by (apply (ix_nullifiers _ O); by exists x, e).
      apply (same_tx p h x f e O F E). congruence.
    + rewrite (ix_nullifiers _ O). split; intros (h & f & F & Et & I); exists h, f; [|by apply Nx in F as [_ F]].
      rewrite lookup_delete_ne; [done|]. intros <-. assert (f = e) as -> by congruence. by subst t.
  - change (weight _ Size) with (weight (with_tx p (delete x (mapTx p))) Size). rewrite W, (ix_total _ O).
    assert (Wx : weight p Size x = nTxSize e) by (unfold weight; by rewrite E). rewrite Wx in *. apply u64_small.
    pose proof (ix_size _ O).
    specialize (W Size). rewrite Wx in W. rewrite <- W. split; [|lia].
      rewrite dom_delete_L, (wsum_delete p x Size) by (done || set_solver). apply wsum_nonneg.
      intros; by apply entry_weight_nonneg.
  - intros h f [_ F]%Nx. by apply (ix_deltas _ O).
Qed.
Lemma removeUnchecked_all : forall (l : list txid) (p : CTxMemPool), index_ok p -> NoDup l -> (forall x, x ∈ l ->
  x ∈ dom (mapTx p)) -> exists p', each removeUnchecked l p = Some p' /\ index_ok p' /\ (forall h,
  mapTx p' !! h = if bool_decide (h ∈ l) then None else mapTx p !! h) /\ (forall h,
  mapLinks p' !! h = if bool_decide (h ∈ l) then None else mapLinks p !! h) /\ mapDeltas p' = mapDeltas p.
Proof.
  induction l as [|x l IH]; intros p O ND H; cbn [each];
    [exists p; split_and!; try done; intros h; by rewrite bool_decide_eq_false_2 by set_solver|].
    apply NoDup_cons in ND as [Nx ND].
  destruct (removeUnchecked_ok p x O (H x ltac:(set_solver))) as (p1 & E1 & O1 & M1 & L1 & D1). rewrite E1.
  cbn [obind]. destruct (IH p1 O1 ND) as (p2 & E2 & O2 & M2 & L2 & D2);
  [intros y Hy; rewrite M1, dom_delete_L; set_solver|].
  exists p2. split; [done|]. split; [done|]. split; [|split; [|congruence]]; intros h;
    [rewrite M2, M1|rewrite L2, L1]; (destruct (decide (h = x)) as [->|N]; [rewrite lookup_delete_eq,
    (bool_decide_eq_true_2 (x ∈ x :: l)) by set_solver; by case_bool_decide|rewrite lookup_delete_ne by done;
    by rewrite (bool_decide_ext (h ∈ l) (h ∈ x :: l)) by set_solver]).
Qed.
(** ** A removed set *)

(** [p'] holds the transactions of [p] that are not in [St]. *)
Definition without (p : CTxMemPool) (St : gset txid) (p' : CTxMemPool) : Prop :=
  forall h, core <$> mapTx p' !! h = if bool_decide (h ∈ St) then None else core <$> mapTx p !! h.
Definition outside (V : gset txid) (p : CTxMemPool) (St : gset txid) (c a : txid) : Prop := linked V p c a /\
  c ∉ St /\ a ∉ St.
(** No path leads into the set and out of it again. *)
Definition convex (V : gset txid) (p : CTxMemPool) (St : gset txid) : Prop := forall c a, rtc (linked V p) c a ->
  c ∉ St -> a ∉ St -> rtc (outside V p St) c a.
Lemma without_lookup_core p St p' h e' : without p St p' -> mapTx p' !! h = Some e' -> h ∉ St /\ exists e,
  mapTx p !! h = Some e /\ core e' = core e.
Proof. intros W E. specialize (W h). rewrite E in W. case_bool_decide as H; [done|]. split; [done|].
  destruct (mapTx p !! h) as [e|]; [|done]. apply (inj Some) in W. by exists e. Qed.
Lemma without_lookup_r p St p' h e : without p St p' -> mapTx p !! h = Some e -> h ∉ St -> exists e',
  mapTx p' !! h = Some e' /\ core e' = core e.
Proof. intros W E N. specialize (W h). rewrite E, bool_decide_eq_false_2 in W by done.
  destruct (mapTx p' !! h) as [e'|]; [|done]. apply (inj Some) in W. by exists e'. Qed.
Lemma without_dom p St p' : without p St p' -> dom (mapTx p') = dom (mapTx p) ∖ St.
Proof.
  intros W. apply set_eq. intros h. rewrite elem_of_difference, !elem_of_dom. split.
  - intros [e' E']. destruct (without_lookup_core p St p' h e' W E') as (N & e & E & _). split; [by exists e|done].
  - intros [[e E] N]. destruct (without_lookup_r p St p' h e W E N) as (e' & E' & _). by exists e'.
Qed.
Lemma without_weight p St p' k h : without p St p' -> h ∉ St -> weight p' k h = weight p k h.
Proof.
  intros W N. specialize (W h). rewrite bool_decide_eq_false_2 in W by done. unfold weight.
  destruct (mapTx p' !! h), (mapTx p !! h); try done. apply (inj Some) in W. by apply core_weight.
Qed.
Lemma without_wsum p St p' (k : stat) (s : gset txid) : without p St p' -> s ## St ->
  wsum (weight p' k) s = wsum (weight p k) s.
Proof. intros W D. apply wsum_ext. intros h Hh. apply (without_weight p St); [done|set_solver]. Qed.
Lemma without_spends p St p' c a : without p St p' -> spends p' c a <-> spends p c a /\ c ∉ St /\ a ∉ St.
Proof.
  intros W. unfold spends. rewrite (without_dom p St p' W). split.
  - intros (e' & E' & D & F). destruct (without_lookup_core p St p' c e' W E') as (N & e & E & C).
    rewrite elem_of_difference in D. split; [|naive_solver]. exists e. rewrite <- (core_tx _ _ C). naive_solver.
  - intros ((e & E & D & F) & N1 & N2). destruct (without_lookup_r p St p' c e W E N1) as (e' & E' & C). exists e'.
    rewrite (core_tx _ _ C). set_solver.
Qed.
Lemma without_linked V p St p' c a : without p St p' -> linked V p' c a <-> outside V p St c a.
Proof. intros W. unfold linked, outside, linked. rewrite (without_spends p St p' c a W). naive_solver. Qed.
Lemma without_rtc V p St p' c a : without p St p' -> convex V p St -> a ∉ St \/ c ∉ St -> rtc (linked V p') c a <->
  c = a \/ (rtc (linked V p) c a /\ c ∉ St /\ a ∉ St).
Proof.
  intros W Cv N. split.
  - intros P. apply rtc_tc in P as [->|P]; [by left|]. right. split.
    + apply tc_rtc. eapply (tc_congruence id); [|exact P]. intros x y H%(without_linked V p St p' x y W). apply H.
    + split; [|]; [apply tc_first in P as (z & H & _);
      by apply (without_linked V p St p' c z W) in H as (_ & ? & _)|].
      clear N. induction P as [x y H|x y z H P IH];
      [by apply (without_linked V p St p' x y W) in H as (_ & _ & ?)|done].
  - intros [->|(P & N1 & N2)]; [done|]. specialize (Cv c a P N1 N2). eapply (rtc_congruence id); [|exact Cv].
    intros x y H. by apply (without_linked V p St p' x y W).
Qed.
Lemma without_descendants (V : gset txid) p St p' h D D' : without p St p' -> convex V p St -> h ∉ St ->
  Descendants V p h D -> Descendants V p' h D' -> D' = D ∖ St.
Proof.
  intros W Cv N HD HD'. apply set_eq. intros y. rewrite (HD' y), (without_rtc V p St p' y h W Cv (or_introl N)),
  elem_of_difference, (HD y). split; [intros [->|H]; [by split|tauto]|tauto].
Qed.
Lemma without_ancestors V p St p' h A A' : without p St p' -> convex V p St -> h ∉ St -> Ancestors V p h A ->
  Ancestors V p' h A' -> A' = A ∖ St.
Proof.
  intros W Cv N HA HA'. apply set_eq. intros y. rewrite (HA' y), (without_rtc V p St p' h y W Cv (or_intror N)),
  elem_of_difference, (HA y). split; [intros [<-|H]; [by split|tauto]|tauto].
Qed.
(** A set that has all children, or all parents, of its members. *)
Lemma child_closed_convex (V : gset txid) (p : CTxMemPool) (St : gset txid) : (forall c a, linked V p c a -> a ∈ St ->
  c ∈ St) -> convex V p St.
Proof.
  intros H c a P N1 N2. induction P as [x|x y z L P IH]; [done|].
  assert (y ∉ St) by (intros Hy; by apply N1, (H x y L)). eapply rtc_l; [by split_and!|]. by apply IH.
Qed.
Lemma parent_closed_convex (V : gset txid) (p : CTxMemPool) (St : gset txid) : (forall c a, linked V p c a ->
  c ∈ St -> a ∈ St) -> convex V p St.
Proof.
  intros H c a P N1 N2. assert (G : forall x y, rtc (linked V p) x y -> x ∈ St -> y ∈ St) by (induction 1; eauto).
  induction P as [x|x y z L P IH]; [done|]. assert (y ∉ St) by (intros Hy; by apply N2, (G y z P)).
  eapply rtc_l; [by split_and!|]. by apply IH.
Qed.
Definition drop_staged (p : CTxMemPool) (stage : gset txid) : option CTxMemPool :=
  p <- each (fun p x => e <- mapTx p !! x;; setAncestors <- all_ancestors p x e false;;
    UpdateAncestorsOf p false x setAncestors) (in_order stage) p;;
  p <- each UpdateChildrenForRemoval (in_order stage) p;;
  each removeUnchecked (in_order stage) p.
Lemma drop_staged_ok (K : stat -> Prop) (V : gset txid) (b : CTxMemPool) (St : gset txid) : pool_ok (fun _ =>
  False) V b -> St ⊆ dom (mapTx b) -> convex V b St ->
  (forall h e A k, h ∉ St -> mapTx b !! h = Some e -> Ancestors V b h A -> K k ->
    anc_stat k e = wrap k (wsum (weight b k) (A ∖ St))) ->
  exists p', drop_staged b St = Some p' /\ pool_ok K V p' /\ without b St p' /\ mapDeltas p' = mapDeltas b.
Proof.
  intros O Sub Cv Ha. unfold drop_staged. destruct (sever_all V b O (in_order St) ∅ b (severed_0 V b O)
  (NoDup_in_order St)) as (q & Eq & Sq); [intros x Hx%elem_of_in_order; set_solver|].
  rewrite Eq, in_order_set, union_empty_r_L in *. cbn [obind].
  assert (F0 : forgotten b St ∅ (mapLinks q)). { intros h. rewrite (sv_links _ _ _ _ Sq),
  lookup_fmap. destruct (mapLinks b !! h) as [l|]; [|done]. cbn. do 2 f_equal. case_bool_decide; [done|set_solver]. }
  assert (Sub' : forall x, x ∈ in_order St -> x ∈ dom (mapTx b) /\ x ∈ St) by (intros x Hx%elem_of_in_order;
  set_solver).
  destruct (forget_all V b O St q (in_order St) ∅ (mapLinks q) F0 Sub') as (m & Em & Fm).
  replace (with_links q (mapLinks q)) with q in Em by (by destruct q). rewrite Em, in_order_set, union_empty_r_L in *.
  cbn [obind].
  assert (Cq : same_core b (with_links q m)) by (apply same_core_sym; intros h; apply (sv_core _ _ _ _ Sq)).
  assert (Rq : same_rest b (with_links q m)) by (destruct (sv_rest _ _ _ _ Sq) as (R1 & R2 & R3 & R4); by split_and!).
  destruct (removeUnchecked_all (in_order St) (with_links q m)) as (p' & Ep & Ix & M & L & Dl);
  [apply (index_ok_frame b); [apply (ok_index _ _ _ O)|done|done]|apply NoDup_in_order|intros x Hx;
  rewrite <- (same_core_dom _ _ Cq); by apply Sub'|].
  assert (W : without b St p'). { intros h. rewrite M,
  (bool_decide_ext (h ∈ in_order St) (h ∈ St)) by apply elem_of_in_order. case_bool_decide; [done|]. symmetry.
  apply Cq. }
  exists p'. split; [done|]. split; [|split; [done|rewrite Dl; symmetry; apply Rq]].
    assert (Lk : forall h e', mapTx p' !! h = Some e' -> h ∉ St /\ mapTx q !! h = Some e').
    { intros h e' E. rewrite M in E. case_bool_decide as H; [done|]. by rewrite elem_of_in_order in H.
    } split; [done| | | |].
  - split; [apply set_eq; intros h; rewrite !elem_of_dom, L, M; case_bool_decide; [done|];
    cbn [mapLinks with_links mapTx]; by rewrite <- !elem_of_dom, (same_core_dom q b (sv_core _ _ _ _ Sq)),
    <- (links_dom _ V b O), !elem_of_dom, Fm, fmap_is_Some|].
    intros h l Hl. rewrite L, (bool_decide_ext (h ∈ in_order St) (h ∈ St)) in Hl by apply elem_of_in_order.
    cbn [mapLinks with_links] in Hl. rewrite Fm in Hl. case_bool_decide as H; [done|].
    destruct (mapLinks b !! h) as [lb|] eqn:Eb; [|done]. injection Hl as <-. destruct (ok_links _ _ _ O) as [_ LK].
    destruct (LK h lb Eb) as [Hp Hc].
    split; intros y; cbn [lk_parents lk_children]; rewrite (without_linked V b St p' _ _ W), elem_of_difference;
    [rewrite Hp|rewrite Hc]; unfold outside; tauto.
  - intros a P. apply (ok_acyclic _ _ _ O a). eapply (tc_congruence id); [|exact P].
    intros x y H%(without_linked V b St p' x y W). apply H.
  - intros h e' D' k E' HD' Nk. destruct (Lk h e' E') as [N Eh].
    assert (Hh : h ∈ dom (mapTx b)) by (rewrite <- (same_core_dom q b (sv_core _ _ _ _ Sq)); apply elem_of_dom;
    by exists e'). destruct (descendants_of _ V b O h Hh) as (D & _ & HD).
    rewrite (sv_desc _ _ _ _ Sq h e' D k Eh HD Nk), (without_descendants V b St p' h D D' W Cv N HD HD'),
    (without_wsum b St p') by (done || set_solver). do 2 f_equal. set_solver.
  - intros h e' A' k E' HA' Hk. destruct (Lk h e' E') as [N Eh].
    destruct (same_core_lookup q b h e' (sv_core _ _ _ _ Sq) Eh) as (f & Ef & Cf).
    rewrite (sv_anc _ _ _ _ Sq h e' f k Eh Ef).
    destruct (ancestors_of _ V b O h f Ef) as (T & _ & HT).
    assert (HA : Ancestors V b h ({[h]} ∪ T)) by (intros y; rewrite elem_of_union, elem_of_singleton, HT, rtc_tc;
    naive_solver).
    rewrite (Ha h f _ k N Ef HA Hk), (without_ancestors V b St p' h _ A' W Cv N HA HA'),
    (without_wsum b St p') by (done || set_solver). done.
Qed.
Lemma obind_assoc {A B C} (m : option A) (f : A -> option B) (g : B ->
  option C) : obind (obind m f) g = obind m (fun x => obind (f x) g).
Proof. by destruct m. Qed.
Lemma RemoveStaged_false p stage : RemoveStaged p stage false = drop_staged p stage.
Proof. unfold RemoveStaged, UpdateForRemoveFromMempool, drop_staged. cbn [obind]. by rewrite obind_assoc. Qed.
(** With all descendants. *)
Lemma RemoveStaged_children K V p (St : gset txid) : pool_ok K V p -> St ⊆ dom (mapTx p) -> (forall c a,
  linked V p c a -> a ∈ St -> c ∈ St) ->
  exists p', RemoveStaged p St false = Some p' /\ pool_ok K V p' /\ without p St p' /\ mapDeltas p' = mapDeltas p.
Proof.
  intros O Sub Cl. rewrite RemoveStaged_false. apply drop_staged_ok;
  [by apply (pool_ok_weaken K _ V p O)|done|by apply child_closed_convex|]. intros h e A k N E HA Hk.
  rewrite (ok_anc _ _ _ O h e A k E HA Hk). do 2 f_equal.
  assert (G : forall x y, rtc (linked V p) x y -> y ∈ St -> x ∈ St) by (induction 1; eauto). apply set_eq. intros y.
  rewrite elem_of_difference. split; [|tauto]. intros Hy. split; [done|]. intros Hs. by apply N, (G h y); [apply HA|].
Qed.
(** Alone, when its parents are gone. *)
Lemma in_order_singleton (x : txid) : in_order {[x]} = [x].
Proof. unfold in_order. by rewrite elements_singleton. Qed.
Definition loss_anc (e : CTxMemPoolEntry) : stat -> Z :=
  stat_fun (-1) (i64 (- nTxSize e)) (i64 (- GetModifiedFee e)) (i32 (- sigOpCount e)).
Lemma loss_anc_mod p x e k : mapTx p !! x = Some e -> loss_anc e k mod modulus k = (- weight p k x) mod modulus k.
Proof. intros E. unfold weight. rewrite E. destruct k; cbn [loss_anc stat_fun modulus weight_of];
  [done|by rewrite i64_mod|by rewrite i64_mod|by rewrite i32_mod]. Qed.
Lemma without_same_core p b St p' : same_core p b -> without b St p' -> without p St p'.
Proof. intros S W h. by rewrite W, S. Qed.
Lemma on_same_core p (s : gset txid) g : (forall e, core (g e) = core e) ->
  same_core p (with_tx p (on s g (mapTx p))).
Proof. intros G h. cbn [mapTx with_tx]. rewrite lookup_on. destruct (mapTx p !! h); [|done]. cbn.
  case_bool_decide; [by rewrite G|done]. Qed.
Lemma subtract_ancestor K V p x e D : (forall k, k <> Fee -> K k) -> pool_ok K V p -> mapTx p !! x = Some e ->
  Descendants V p x D -> forall d f, d ∈ D ∖ {[x]} -> mapTx p !! d = Some f ->
  UpdateAncestorState (i64 (- nTxSize e)) (i64 (- GetModifiedFee e)) (-1) (i32 (- sigOpCount e)) f = Some (bump_anc
    (loss_anc e) f) /\
  (forall A k, Ancestors V p d A -> K k -> anc_stat k (bump_anc (loss_anc e) f) = wrap k (wsum (weight p k) (A ∖
    {[x]}))).
Proof.
  intros HK O E HD d f [Hd Nd]%elem_of_difference F. apply HD in Hd. assert (Nx : d <> x) by set_solver.
  destruct (ancestors_of _ V p O d f F) as (T & _ & HT).
  assert (HA : Ancestors V p d ({[d]} ∪ T)) by (intros y; rewrite elem_of_union, elem_of_singleton, HT, rtc_tc;
  naive_solver). set (A := {[d]} ∪ T) in *.
  assert (Ax : x ∈ A) by (by apply HA). assert (Ad : d ∈ A ∖ {[x]}) by set_solver.
  assert (Sub : A ∖ {[x]} ⊆ dom (mapTx p)) by (pose proof (ancestors_sub V p d A ltac:(apply elem_of_dom;
  by exists f) HA); set_solver).
  assert (St : forall k, K k -> wrap k (anc_stat k f + loss_anc e k) = wrap k (wsum (weight p k) (A ∖ {[x]}))).
  { intros k Hk. rewrite (ok_anc _ _ _ O d f A k F HA Hk). apply wrap_drop; [done|]. by apply loss_anc_mod. }
  split.
  - apply (UpdateAncestorState_ok _ _ _ _ _ _ _ _ (St Size (HK Size ltac:(done))) (sum_bounds p (ok_index _ _ _ O)
    Size _ d ltac:(by right) Sub Ad) (St Count (HK Count ltac:(done))) (sum_bounds p (ok_index _ _ _ O) Count _ d
    ltac:(by left) Sub Ad) (St Ops (HK Ops ltac:(done))) (ops_bounds p (ok_index _ _ _ O) _ Sub)).
  - intros A' k HA' Hk. rewrite anc_stat_bump, St by done. assert (A = A') as ->; [|done]. apply set_eq. intros y.
    by rewrite (HA y), (HA' y).
Qed.
Lemma RemoveStaged_root K V p x : (forall k, k <> Fee -> K k) -> pool_ok K V p -> x ∈ dom (mapTx p) -> (forall a,
  ~ linked V p x a) ->
  exists p', RemoveStaged p {[x]} true = Some p' /\ pool_ok K V p' /\ without p {[x]} p' /\
    mapDeltas p' = mapDeltas p.
Proof.
  intros HK O Hx Np. pose proof Hx as [e E]%elem_of_dom. destruct (descendants_of _ V p O x Hx) as (D & ED & HD).
  pose proof (subtract_ancestor K V p x e D HK O E HD) as Sb.
  set (b := with_tx p (on (D ∖ {[x]}) (bump_anc (loss_anc e)) (mapTx p))).
  assert (Eb : RemoveStaged p {[x]} true = drop_staged b {[x]}).
  { unfold RemoveStaged, UpdateForRemoveFromMempool, drop_staged. rewrite in_order_singleton. cbn [each]. rewrite ED.
    cbn [obind]. rewrite E. cbn [obind]. rewrite (each_modify _ (bump_anc (loss_anc e))).
    - cbn [obind]. rewrite in_order_set. fold b. by rewrite obind_assoc.
    - apply NoDup_in_order.
    - intros d Hd%elem_of_in_order. assert (Hu : d ∈ dom (mapTx p)) by (apply (descendants_sub V p x D Hx HD);
      set_solver). apply elem_of_dom in Hu as [f F]. exists f. split; [done|]. by apply (Sb d f). }
  rewrite Eb. assert (Sc : same_core p b) by (by apply on_same_core).
  assert (Lc : forall c a, linked V b c a <-> linked V p c a) by (intros c a; split; apply same_core_linked;
  [by apply same_core_sym|done]).
  assert (Cl : forall c a, linked V b c a -> c ∈ ({[x]} : gset txid) ->
  a ∈ ({[x]} : gset txid)) by (intros c a H%Lc ->%elem_of_singleton; by destruct (Np a)).
  destruct (drop_staged_ok K V b {[x]}) as (p' & E' & O' & W' & D').
  - apply (pool_ok_frame K V p b O Sc); [by split_and!|done|]. intros h f g k F G. unfold b in G.
    cbn [mapTx with_tx] in G. rewrite lookup_on, F in G. case_bool_decide; injection G as <-; [by destruct k|done].
  - rewrite <- (same_core_dom p b Sc). set_solver.
  - by apply parent_closed_convex.
  - intros h f A k N F HA Hk. rewrite (same_core_wsum b p) by (by apply same_core_sym).
    assert (HA' : Ancestors V p h A) by (intros y; rewrite (HA y); by apply same_core_rtc, same_core_sym).
    unfold b in F. cbn [mapTx with_tx] in F. rewrite lookup_on in F. destruct (mapTx p !! h) as [f0|] eqn:F0; [|done].
    case_bool_decide as Hd; injection F as <-.
    + by apply (Sb h f0 Hd F0).
    + unfold id. rewrite (ok_anc _ _ _ O h f0 A k F0 HA' Hk). do 2 f_equal. assert (x ∉ A); [|set_solver]. intros Hxa.
      apply Hd, elem_of_difference. split; [by apply HD, HA'|done].
  - exists p'. split; [done|]. split; [done|]. split; [by apply (without_same_core p b)|done].
Qed.
End Invariant.
