(* ===== verification/MempoolOps.v ===== *)
(** The operations that take transactions out of the memory pool keep its invariant, and take
    out exactly what they should. *)
From Stdlib Require Import ZArith Lia List Bool.
From stdpp Require Import base list gmap sets sorting relations.
From S2P Require Import Prelude Serialize Script Interpreter Transaction Codecs Compressor Coins Mempool MempoolInv.
Import ListNotations.
Local Open Scope Z_scope.
Local Open Scope passion_scope.
#[local] Remove Hints finite.finite_countable : typeclass_instances.

Section Removal.
Context {abi : Abi} {crypto : ScriptCrypto}.

(** ** The operations that remove *)

(** [p'] is [p] less some transactions, each for a reason. *)
Definition shrunk (R : txid -> Prop) (p p' : CTxMemPool) : Prop := exists St, without p St p' /\ forall h, h ∈ St ->
  h ∈ dom (mapTx p) -> R h.
Lemma shrunk_refl R p : shrunk R p p.
Proof. exists ∅. split; [|set_solver]. intros h. by rewrite bool_decide_eq_false_2 by set_solver. Qed.
Lemma shrunk_trans R p q r : shrunk R p q -> shrunk R q r -> shrunk R p r.
Proof.
  intros (S & W & H) (T & W' & H'). exists (S ∪ T). split.
  - intros h. rewrite W'. destruct (decide (h ∈ T)) as [Ht|Ht]; [by rewrite !bool_decide_eq_true_2 by set_solver|].
    rewrite (bool_decide_eq_false_2 (h ∈ T)) by done. rewrite W.
    by rewrite (bool_decide_ext (h ∈ S) (h ∈ S ∪ T)) by set_solver.
  - intros h Hh Hd. destruct (decide (h ∈ S)) as [|N]; [by apply H|]. apply H'; [set_solver|].
    rewrite (without_dom p S q W). set_solver.
Qed.
Lemma shrunk_weaken (R R' : txid -> Prop) p q : shrunk R p q -> (forall h, h ∈ dom (mapTx p) -> R h -> R' h) ->
  shrunk R' p q.
Proof. intros (S & W & H) Hr. exists S. split; [done|]. intros h Hh Hd. by apply Hr, H. Qed.
Lemma shrunk_lookup R p q h e : shrunk R p q -> mapTx q !! h = Some e -> exists f, mapTx p !! h = Some f /\
  core e = core f.
Proof. intros (S & W & _) E. by destruct (without_lookup_core p S q h e W E). Qed.
Lemma shrunk_dom R p q : shrunk R p q -> dom (mapTx q) ⊆ dom (mapTx p).
Proof. intros (S & W & _). rewrite (without_dom p S q W). set_solver. Qed.
Lemma shrunk_gone R p q h : shrunk R p q -> h ∈ dom (mapTx p) -> h ∉ dom (mapTx q) -> R h.
Proof. intros (S & W & H) Hp Hq. rewrite (without_dom p S q W) in Hq. apply H; [|done].
  destruct (decide (h ∈ S)); set_solver. Qed.
Lemma shrunk_linked R V p q c a : shrunk R p q -> linked V q c a -> linked V p c a.
Proof. intros (S & W & _) H. by apply (without_linked V p S q c a W) in H as [H _]. Qed.
Lemma shrunk_rtc R V p q c a : shrunk R p q -> rtc (linked V q) c a -> rtc (linked V p) c a.
Proof. intros S. apply (rtc_congruence id). intros x y. by apply (shrunk_linked R). Qed.
Lemma clear_prioritisation_ok K V p h : pool_ok K V p -> h ∉ dom (mapTx p) -> pool_ok K V (ClearPrioritisation p h).
Proof.
  intros [[I1 I2 I3 I4 I5 I6 I7] L A D1 D2] N. split; [split| | | |]; try done. intros x e E.
  unfold fee_delta, deltas_of. cbn [ClearPrioritisation mapDeltas with_deltas]. rewrite lookup_delete_ne; [by apply I7|]. intros <-.
  apply N, elem_of_dom. by exists e.
Qed.
Lemma clear_prioritisation_shrunk R p q h : shrunk R p q -> shrunk R p (ClearPrioritisation q h).
Proof. done. Qed.
(** Nothing is left without its parents, those in [B] apart. *)
Definition keeps_parents (B : txid -> Prop) (V : gset txid) (p q : CTxMemPool) : Prop := forall c a, linked V p c a ->
  c ∈ dom (mapTx q) -> a ∈ dom (mapTx q) \/ B a.
Lemma keeps_parents_refl B V p : keeps_parents B V p p.
Proof. intros c a L _. left. by apply linked_dom in L as [_ ?]. Qed.
Lemma keeps_parents_without B V p St q : without p St q -> (forall c a, linked V p c a -> a ∈ St -> c ∈ St \/ B a) ->
  keeps_parents B V p q.
Proof.
  intros Wo Cl c a L Hc. rewrite (without_dom p St q Wo) in *. apply linked_dom in L as Ld.
  destruct (decide (a ∈ St)) as [Ha|]; [destruct (Cl c a L Ha); [set_solver|by right]|left; set_solver].
Qed.
Lemma keeps_parents_trans R B V p q r : keeps_parents B V p q -> shrunk R p q -> shrunk R q r ->
  keeps_parents B V q r -> keeps_parents B V p r.
Proof.
  intros K1 S1 S2 K2 c a L Hc. pose proof (shrunk_dom _ _ _ S2 c Hc) as Hq.
  destruct (K1 c a L Hq) as [Ha|]; [|by right]. apply (K2 c a); [|done]. destruct S1 as (St & Wo & _).
  apply (without_linked V p St q c a Wo). split; [done|]. rewrite (without_dom p St q Wo) in *. set_solver.
Qed.
Lemma keeps_parents_weaken (B B' : txid -> Prop) V p q : keeps_parents B V p q -> (forall a, B a -> B' a) ->
  keeps_parents B' V p q.
Proof. intros Kp Hb c a L Hc. destruct (Kp c a L Hc); [by left|right; by apply Hb]. Qed.
Section Operations.
Variables (K : stat -> Prop) (V : gset txid).
Definition descends (p : CTxMemPool) (s : gset txid) (y : txid) : Prop := exists x, x ∈ s /\ rtc (linked V p) y x.
Lemma remove_descendants p s : pool_ok K V p -> s ⊆ dom (mapTx p) -> exists St p', all_descendants p s = Some St /\
  (forall y, y ∈ St <-> descends p s y) /\
  RemoveStaged p St false = Some p' /\ pool_ok K V p' /\ without p St p' /\ mapDeltas p' = mapDeltas p.
Proof.
  intros O Sub. destruct (all_descendants_exact p s (links_dom _ V p O) (children_in _ V p O) Sub) as (St & E & HS).
  assert (HS' : forall y, y ∈ St <-> descends p s y) by (intros y; rewrite HS; unfold descends;
  setoid_rewrite (rtc_child_of _ V p O); done).
  destruct (RemoveStaged_children K V p St O) as (p' & E' & O' & W' & D').
  - intros y Hy. apply HS' in Hy as (x & Hx & P). apply (rtc_dom V p y x P). set_solver.
  - intros c a L Ha. apply HS' in Ha as (x & Hx & P). apply HS'. exists x. split; [done|]. by eapply rtc_l.
  - by exists St, p'.
Qed.
Lemma descends_shrunk p s St p' : (forall y, y ∈ St <-> descends p s y) -> without p St p' ->
  shrunk (descends p s) p p'.
Proof. intros H W. exists St. split; [done|]. intros h Hh _. by apply H. Qed.
Definition spender (p : CTxMemPool) (tx : CTransaction) (y : txid) : Prop :=
  exists e i, mapTx p !! y = Some e /\ (i < length (vout tx))%nat /\
    mkOutPoint (GetHash tx) (Z.of_nat i) ∈ inputs_of (e_tx e).
Lemma spenders_of_ok p tx : index_ok p -> exists s, spenders_of p tx = Some s /\ forall y, y ∈ s <-> spender p tx y.
Proof.
  intros O. unfold spenders_of. set (f := fun (s : gset txid) (i : nat) => _).
  assert (G : forall l acc, exists s, each f l acc = Some s /\ forall y, y ∈ s <-> y ∈ acc \/ exists e i,
  mapTx p !! y = Some e /\ i ∈ l /\ mkOutPoint (GetHash tx) (Z.of_nat i) ∈ inputs_of (e_tx e)).
  { induction l as [|i l IH]; intros acc; cbn [each]; [exists acc; split; [done|]; set_solver|]. unfold f at 1.
    destruct (mapNextTx p !! _) as [t|] eqn:E.
    - pose proof (proj1 (ix_next _ O _ _) E) as (h & e & Eh & <- & I). destruct (ix_key _ O h e Eh) as [Hh _].
      rewrite Hh, Eh. cbn [obind]. destruct (IH ({[h]} ∪ acc)) as (s & Es & Hs). exists s. split; [done|]. intros y.
      rewrite Hs. split.
      + intros [[->%elem_of_singleton|H]%elem_of_union|(e' & j & H1 & H2 & H3)];
        [right; exists e, i; set_solver|by left|right; exists e', j; set_solver].
      + intros [H|(e' & j & H1 & [->|H2]%elem_of_cons & H3)]; [set_solver| |right; by exists e', j]. left.
        assert (Some (e_tx e) = Some (e_tx e')) as [= Et] by (rewrite <- E; apply (ix_next _ O); by exists y, e').
        rewrite (same_tx p y h e' e O H1 Eh) by done. set_solver.
    - cbn [obind]. destruct (IH acc) as (s & Es & Hs). exists s. split; [done|]. intros y. rewrite Hs.
      split; [intros [H|(e' & j & H1 & H2 & H3)]; [by left|right; exists e', j; set_solver]|].
      intros [H|(e' & j & H1 & [->|H2]%elem_of_cons & H3)]; [by left| |right; by exists e', j]. exfalso.
      assert (mapNextTx p !! mkOutPoint (GetHash tx) (Z.of_nat i) = Some (e_tx e')) by (apply (ix_next _ O);
      by exists y, e'). congruence. }
  destruct (G (seq 0 (length (vout tx))) ∅) as (s & Es & Hs). exists s. split; [done|]. intros y. rewrite Hs.
  unfold spender. setoid_rewrite elem_of_seq. split;
  [intros [?|(e & i & H1 & H2 & H3)]; [set_solver|]; exists e, i; split_and!;
  (done || lia)|intros (e & i & H1 & H2 & H3); right; exists e, i; split_and!; (done || lia)].
Qed.
(** What [removeRecursive] starts from. *)
Definition removal_root (p : CTxMemPool) (tx : CTransaction) (x : txid) : Prop :=
  if decide (GetHash tx ∈ dom (mapTx p)) then x = GetHash tx else spender p tx x.
Lemma exists_tx_dom p h : exists_tx p h = bool_decide (h ∈ dom (mapTx p)).
Proof. unfold exists_tx. apply bool_decide_ext. by rewrite elem_of_dom. Qed.
Lemma removeRecursive_ok p tx : pool_ok K V p -> exists St p', removeRecursive p tx = Some p' /\ pool_ok K V p' /\
  without p St p' /\ mapDeltas p' = mapDeltas p /\
  (forall y, y ∈ St <-> exists x, removal_root p tx x /\ rtc (linked V p) y x) /\ GetHash tx ∉ dom (mapTx p').
Proof.
  intros O. unfold removeRecursive. rewrite exists_tx_dom.
  assert (G : exists s, (if bool_decide (GetHash tx ∈ dom (mapTx p)) then Some ({[GetHash tx]} : gset txid) else
  spenders_of p tx) = Some s /\ s ⊆ dom (mapTx p) /\ forall x, x ∈ s <-> removal_root p tx x).
  { unfold removal_root. case_bool_decide as H.
    - exists {[GetHash tx]}. split; [done|]. split; [set_solver|]. intros x. destruct (decide _); [set_solver|done].
    - destruct (spenders_of_ok p tx (ok_index _ _ _ O)) as (s & Es & Hs). exists s. split; [done|].
      split; [intros y (e & i & Ey & _)%Hs; apply elem_of_dom; by exists e|]. destruct (decide _); [done|]. done. }
  destruct G as (s & -> & Sub & Hs). cbn [obind]. destruct (remove_descendants p s O Sub) as (St & p' & E1 & H1 & E2 &
  O' & W' & D'). rewrite E1. cbn [obind]. exists St, p'. split; [done|]. split; [done|]. split; [done|]. split;
  [done|]. split.
  - intros y. rewrite H1. unfold descends. by setoid_rewrite Hs.
  - rewrite (without_dom p St p' W'). intros [Hd N]%elem_of_difference. apply N, H1. exists (GetHash tx).
    split; [|done]. apply Hs. unfold removal_root. by destruct (decide _).
Qed.
Lemma remove_where_ok p (P : txid * CTxMemPoolEntry -> Prop) `{forall x, Decision (P x)} : pool_ok K V p ->
  exists St p', all_descendants p (dom (filter P (mapTx p))) = Some St /\ RemoveStaged p St false = Some p' /\
    pool_ok K V p' /\ without p St p' /\ mapDeltas p' = mapDeltas p /\
  (forall h, h ∈ St <-> exists x e, mapTx p !! x = Some e /\ P (x, e) /\ rtc (linked V p) h x).
Proof.
  intros O. destruct (remove_descendants p (dom (filter P (mapTx p))) O) as (St & p' & E1 & H1 & E2 & O' & W' & D');
  [apply dom_filter_subseteq|]. exists St, p'. split_and!; try done. intros h. rewrite H1. unfold descends. split.
  - intros (x & [e He]%elem_of_dom & R). apply map_lookup_filter_Some in He as [He Hp]. by exists x, e.
  - intros (x & e & E & Hp & R). exists x. split; [|done]. apply elem_of_dom. exists e.
    by apply map_lookup_filter_Some.
Qed.
Lemma removeForReorg_ok CheckFinalTx AccessCoin height maturity p : pool_ok K V p -> exists St p',
  removeForReorg CheckFinalTx AccessCoin height maturity p = Some p' /\ pool_ok K V p' /\ without p St p' /\
  mapDeltas p' = mapDeltas p /\
  (forall h, h ∈ St <-> exists x e, mapTx p !! x = Some e /\ negb (CheckFinalTx (e_tx e)) ||
    (spendsCoinbaseOrCoinstake e && immature AccessCoin height maturity p e) = true /\ rtc (linked V p) h x).
Proof.
  intros O. unfold removeForReorg. destruct (remove_where_ok p (fun he : txid * CTxMemPoolEntry =>
  negb (CheckFinalTx (e_tx he.2)) || (spendsCoinbaseOrCoinstake he.2 &&
  immature AccessCoin height maturity p he.2) = true) O) as (St & p' & E1 & E2 & R).
  rewrite E1. cbn [obind]. by exists St, p'.
Qed.
Lemma Expire_ok time p : pool_ok K V p -> exists St p', Expire p time = Some (p', set_size St) /\ pool_ok K V p' /\
  without p St p' /\ mapDeltas p' = mapDeltas p /\
  (forall h, h ∈ St <-> exists x e, mapTx p !! x = Some e /\ e_nTime e < time /\ rtc (linked V p) h x).
Proof.
  intros O. unfold Expire. destruct (remove_where_ok p (fun he : txid * CTxMemPoolEntry =>
  e_nTime he.2 < time) O) as (St & p' & E1 & E2 & R).
  rewrite E1. cbn [obind]. rewrite E2. cbn [obind]. by exists St, p'.
Qed.
(** A sequence of removals. *)
Lemma each_shrinks {A} (f : CTxMemPool -> A -> option CTxMemPool) (R : txid -> Prop) (Q : A -> CTxMemPool ->
  Prop) p0 :
  (forall a p q, Q a p -> shrunk R p q -> Q a q) -> forall l p, pool_ok K V p -> shrunk R p0 p ->
  (forall a p, a ∈ l -> pool_ok K V p -> shrunk R p0 p -> exists p', f p a = Some p' /\ pool_ok K V p' /\
    shrunk R p p' /\ Q a p') ->
  exists p', each f l p = Some p' /\ pool_ok K V p' /\ shrunk R p p' /\ forall a, a ∈ l -> Q a p'.
Proof.
  intros M. induction l as [|a l IH]; intros p O S0 H; cbn [each];
  [exists p; split_and!; [done|done|apply shrunk_refl|set_solver]|].
  destruct (H a p ltac:(set_solver) O S0) as (p1 & E1 & O1 & S1 & Q1). rewrite E1. cbn [obind].
  destruct (IH p1 O1) as (p2 & E2 & O2 & S2 & Q2); [by eapply shrunk_trans|intros b q Hb; apply H; set_solver|].
  exists p2. split; [done|]. split; [done|]. split; [by eapply shrunk_trans|].
    intros b [->|Hb]%elem_of_cons; [by eapply M|by apply Q2].
Qed.
Definition anchored (root : txid) (e : CTxMemPoolEntry) : Prop := root ∈ anchors (e_tx e).
Lemma removeWithAnchor_ok p root : pool_ok K V p -> exists p', removeWithAnchor p root = Some p' /\ pool_ok K V p' /\
  (forall h e, mapTx p' !! h = Some e -> ~ anchored root e) /\ shrunk (fun h => exists x e, mapTx p !! x = Some e /\
    anchored root e /\ rtc (spends p) h x) p p'.
Proof.
  intros O. unfold removeWithAnchor. set (R := fun h => exists x e, _). set (l := filter _ _).
  assert (Hl : forall tx, tx ∈ l <-> exists h e, mapTx p !! h = Some e /\ e_tx e = tx /\ anchored root e).
  { intros tx. unfold l. rewrite list_elem_of_filter, bool_decide_eq_true, list_elem_of_fmap. split.
    - intros (A & [h e] & -> & I). apply elem_of_map_to_list in I. by exists h, e.
    - intros (h & e & E & <- & A). split; [done|]. exists (h, e). split; [done|]. by apply elem_of_map_to_list. }
  destruct (each_shrinks removeRecursive R (fun tx q => GetHash tx ∉ dom (mapTx q)) p) with (l := l) (p :=
  p) as (p' & E & O' & S & Q).
  - intros tx q q' N S Hd. apply N. by apply (shrunk_dom R q q').
  - done.
  - apply shrunk_refl.
  - intros tx q Htx Oq Sq. destruct (removeRecursive_ok q tx Oq) as (St & q' & E & O' & W & _ & HS & N). exists q'.
    split; [done|]. split; [done|]. split; [|done].
    apply Hl in Htx as (h & e & Eh & <- & A). exists St. split; [done|]. intros y Hy _.
    apply HS in Hy as (x & Hx & P). exists h, e. split; [done|]. split; [done|].
    destruct (ix_key _ (ok_index _ _ _ O) h e Eh) as [Hh _]. unfold removal_root in Hx. rewrite Hh in Hx.
    assert (P' : rtc (spends p) y x) by (eapply (rtc_congruence id);
    [intros c a L%(shrunk_linked R V p q c a Sq); apply L|exact P]). destruct (decide _); [by subst x|].
    destruct Hx as (f & i & Ef & Hi & I). destruct (shrunk_lookup R p q x f Sq Ef) as (f0 & Ef0 & C).
    eapply rtc_r; [exact P'|]. exists f0. split; [done|]. split; [apply elem_of_dom; by exists e|].
    rewrite <- (core_tx _ _ C). rewrite Hh in I. apply list_elem_of_fmap in I as (j & Ej & Hj). exists j.
    split; [done|]. by rewrite <- Ej.
  - exists p'. split; [done|]. split; [done|]. split; [|done]. intros h e E' A.
    destruct (shrunk_lookup R p p' h e S E') as (f & Ef & C). destruct (ix_key _ (ok_index _ _ _ O) h f Ef) as [Hh _].
    apply (Q (e_tx f)).
    + apply Hl. exists h, f. split_and!; try done. unfold anchored in *. by rewrite <- (core_tx _ _ C).
    + rewrite Hh. apply elem_of_dom. by exists e.
Qed.
(** Two transactions that cannot both be in the chain. *)
Definition conflicts (tx : CTransaction) (e : CTxMemPoolEntry) : Prop :=
  (exists o, o ∈ inputs_of tx /\ o ∈ inputs_of (e_tx e)) \/ (exists nf, nf ∈ nullifiers tx /\
    nf ∈ nullifiers (e_tx e)).
Definition conflicted (p : CTxMemPool) (tx : CTransaction) (y : txid) : Prop :=
  exists x e, mapTx p !! x = Some e /\ x <> GetHash tx /\ conflicts tx e /\ rtc (linked V p) y x.
Lemma conflicts_core tx e f : core e = core f -> conflicts tx e -> conflicts tx f.
Proof. intros C. unfold conflicts. by rewrite (core_tx _ _ C). Qed.
Lemma conflicted_shrunk R p q tx y : shrunk R p q -> conflicted q tx y -> conflicted p tx y.
Proof.
  intros S (x & e & E & N & C & P). destruct (shrunk_lookup R p q x e S E) as (f & Ef & Cf). exists x, f.
  split_and!; [done|done|by apply (conflicts_core tx e)|by apply (shrunk_rtc R V p q)].
Qed.
Lemma remove_conflict_ok q tx h e : pool_ok K V q -> mapTx q !! h = Some e -> conflicts tx e ->
  exists q', remove_conflict q tx (Some (e_tx e)) = Some q' /\ pool_ok K V q' /\ shrunk (conflicted q tx) q q' /\
    (h = GetHash tx \/ h ∉ dom (mapTx q')).
Proof.
  intros O E C. destruct (ix_key _ (ok_index _ _ _ O) h e E) as [Hh _]. unfold remove_conflict. rewrite Hh.
  case_bool_decide as H; [exists q; split_and!; [done|done|apply shrunk_refl|by left]|].
  destruct (removeRecursive_ok q (e_tx e) O) as (St & q' & E' & O' & W & _ & HS & N). rewrite Hh in N. rewrite E'.
  cbn [obind]. exists (ClearPrioritisation q' h). split; [done|]. split; [by apply clear_prioritisation_ok|].
  split; [|by right].
  apply clear_prioritisation_shrunk. exists St. split; [done|]. intros y (x & Hx & P)%HS _. unfold removal_root in Hx.
  rewrite Hh in Hx. destruct (decide _) as [|Nd]; [|destruct Nd; apply elem_of_dom; by exists e]. subst x.
  by exists h, e.
Qed.
Lemma conflict_step {A} (find : CTxMemPool -> A -> option CTransaction) (key : A -> CTxMemPoolEntry -> Prop) p tx a :
  (forall q t, index_ok q -> find q a = Some t <-> exists h e, mapTx q !! h = Some e /\ e_tx e = t /\ key a e) ->
    (forall e, key a e -> conflicts tx e) -> forall q, pool_ok K V q -> shrunk (conflicted p tx) p q ->
  exists q', remove_conflict q tx (find q a) = Some q' /\ pool_ok K V q' /\ shrunk (conflicted p tx) q q' /\
    forall h e, mapTx q' !! h = Some e -> key a e -> (forall e', core e = core e' -> key a e') -> h = GetHash tx.
Proof.
  intros F C q O S. destruct (find q a) as [t|] eqn:E.
  - pose proof (proj1 (F q t (ok_index _ _ _ O)) E) as (h & e & Eh & <- & Hk).
    destruct (remove_conflict_ok q tx h e O Eh (C e Hk)) as (q' & E' & O' & S' & N). exists q'. split; [done|].
    split; [done|]. split; [eapply shrunk_weaken; [exact S'|]; intros y _;
    by apply (conflicted_shrunk (conflicted p tx))|].
    intros h' e' Eh' Hk' Hc. destruct (shrunk_lookup _ q q' h' e' S' Eh') as (f & Ef & Cf).
    assert (E2 : find q a = Some (e_tx f)) by (apply (F q _ (ok_index _ _ _ O)); exists h', f; split_and!;
    [done|done|by apply Hc]). rewrite E in E2. injection E2 as E2.
    rewrite (same_tx q h' h f e (ok_index _ _ _ O) Ef Eh) in * by done. destruct N as [N|N]; [done|]. destruct N.
    apply elem_of_dom. by exists e'.
  - exists q. split; [done|]. split; [done|]. split; [apply shrunk_refl|]. intros h e Eh Hk _. exfalso.
    assert (find q a = Some (e_tx e)) by (apply (F q _ (ok_index _ _ _ O)); by exists h, e). congruence.
Qed.
Lemma removeConflicts_ok p tx : pool_ok K V p -> exists p', removeConflicts p tx = Some p' /\ pool_ok K V p' /\
  shrunk (conflicted p tx) p p' /\ forall h e, mapTx p' !! h = Some e -> conflicts tx e -> h = GetHash tx.
Proof.
  intros O. unfold removeConflicts. set (R := conflicted p tx).
  destruct (each_shrinks (fun q i => remove_conflict q tx (mapNextTx q !! prevout i)) R (fun i q => forall h e,
  mapTx q !! h = Some e -> prevout i ∈ inputs_of (e_tx e) -> h = GetHash tx) p) with (l := vin tx) (p :=
  p) as (p1 & E1 & O1 & S1 & Q1).
  { intros i q q' H S h e E I. destruct (shrunk_lookup R q q' h e S E) as (f & Ef & C). apply (H h f Ef).
    by rewrite <- (core_tx _ _ C). }
  { done. } { apply shrunk_refl. }
  { intros i q Hi Oq Sq. destruct (conflict_step (fun q i => mapNextTx q !! prevout i) (fun i e =>
    prevout i ∈ inputs_of (e_tx e)) p tx i) with (q := q) as (q' & E & O' & S & H);
    [|intros e He; left; exists (prevout i); split; [by apply list_elem_of_fmap_2|done]|done|done|].
    - intros r t Or. rewrite (ix_next _ Or). split; intros (h & e & Eh & <- & I); by exists h, e.
    - exists q'. split_and!; try done. intros h e Eh I. apply (H h e Eh I). intros e' C.
      by rewrite <- (core_tx _ _ C). }
  rewrite E1. cbn [obind].
  destruct (each_shrinks (fun q nf => remove_conflict q tx (mapSaplingNullifiers q !! nf)) R (fun nf q => forall h e,
  mapTx q !! h = Some e -> nf ∈ nullifiers (e_tx e) -> h = GetHash tx) p) with (l := nullifiers tx) (p :=
  p1) as (p2 & E2 & O2 & S2 & Q2).
  { intros i q q' H S h e E I. destruct (shrunk_lookup R q q' h e S E) as (f & Ef & C). apply (H h f Ef).
    by rewrite <- (core_tx _ _ C). }
  { done. } { done. }
  { intros i q Hi Oq Sq. destruct (conflict_step (fun q i => mapSaplingNullifiers q !! i) (fun i e =>
    i ∈ nullifiers (e_tx e)) p tx i) with (q := q) as (q' & E & O' & S & H);
    [|intros e He; right; by exists i|done|done|].
    - intros r t Or. rewrite (ix_nullifiers _ Or). split; intros (h & e & Eh & <- & I); by exists h, e.
    - exists q'. split_and!; try done. intros h e Eh I. apply (H h e Eh I). intros e' C.
      by rewrite <- (core_tx _ _ C). }
  exists p2. split; [done|]. split; [done|]. split; [by eapply shrunk_trans|].
    intros h e E [(o & Ho & I)|(nf & Hn & I)]; [|by apply (Q2 nf Hn h e)].
  apply list_elem_of_fmap in Ho as (i & -> & Hi). destruct (shrunk_lookup R p1 p2 h e S2 E) as (f & Ef & C).
  apply (Q1 i Hi h f Ef). by rewrite <- (core_tx _ _ C).
Qed.
(** ** What stays has its parents *)

Definition pruned (p q : CTxMemPool) : Prop := pool_ok K V q /\ shrunk (fun _ => True) p q /\
  keeps_parents (fun _ => False) V p q.
Lemma pruned_refl p : pool_ok K V p -> pruned p p.
Proof. intros O. split; [done|]. split; [apply shrunk_refl|apply keeps_parents_refl]. Qed.
Lemma pruned_trans p q r : pruned p q -> pruned q r -> pruned p r.
Proof.
  intros (_ & S1 & K1) (O2 & S2 & K2). split; [done|]. split; [by eapply shrunk_trans|].
  by eapply keeps_parents_trans.
Qed.
Lemma remove_conflict_pruned p tx found q : pool_ok K V p -> remove_conflict p tx found = Some q -> pruned p q.
Proof.
  intros O. unfold remove_conflict. destruct found as [t|]; [|intros [= <-]; by apply pruned_refl].
  case_bool_decide; [intros [= <-]; by apply pruned_refl|].
  destruct (removeRecursive_ok p t O) as (St & p' & -> & O' & W & _ & HS & N). cbn [obind]. intros [= <-].
  split; [by apply clear_prioritisation_ok|]. split; [apply clear_prioritisation_shrunk; by exists St|].
  change (keeps_parents (fun _ => False) V p p'). apply (keeps_parents_without _ V p St p' W). intros c a L Ha. left.
  apply HS in Ha as (x & Hx & P). apply HS. exists x. split; [done|]. by eapply rtc_l.
Qed.
Lemma each_pruned {A} (f : CTxMemPool -> A -> option CTxMemPool) l : (forall p a q, pool_ok K V p -> f p a = Some q ->
  pruned p q) -> forall p q, pool_ok K V p -> each f l p = Some q -> pruned p q.
Proof.
  intros Hf. induction l as [|a l IH]; intros p q O; cbn [each]; [intros [= <-]; by apply pruned_refl|].
  intros (p1 & E1 & E2)%obind_Some. pose proof (Hf _ _ _ O E1) as H1. eapply pruned_trans; [exact H1|].
  apply IH; [apply H1|done].
Qed.
Lemma removeConflicts_pruned p tx q : pool_ok K V p -> removeConflicts p tx = Some q -> pruned p q.
Proof.
  intros O. unfold removeConflicts. intros (p1 & E1 & E2)%obind_Some.
  assert (H1 : pruned p p1) by (eapply each_pruned; [|exact O|exact E1]; intros ? ? ? ?; by apply remove_conflict_pruned).
  eapply pruned_trans; [exact H1|]. eapply each_pruned; [|apply H1|exact E2]. intros ? ? ? ?. by apply remove_conflict_pruned.
Qed.
(** The parents of a transaction of a block come before it. *)
Definition block_order (p : CTxMemPool) (vtx : list CTransaction) : Prop :=
  forall pre tx post e a, vtx = pre ++ tx :: post -> mapTx p !! GetHash tx = Some e -> linked V p (GetHash tx) a ->
    exists tx', tx' ∈ pre /\ GetHash tx' = a.
(** Why a transaction leaves the pool when a block is connected. *)
Definition replaced (p : CTxMemPool) (vtx : list CTransaction) (y : txid) : Prop := exists tx, tx ∈ vtx /\
  (y = GetHash tx \/ conflicted p tx y).
(** Nothing of the block is left, and nothing that conflicts with it. *)
Definition cleared (p : CTxMemPool) (tx : CTransaction) : Prop := GetHash tx ∉ dom (mapTx p) /\ forall h e,
  mapTx p !! h = Some e -> ~ conflicts tx e.
Hypothesis HK : forall k, k <> Fee -> K k.
Lemma block_tx_ok p tx : pool_ok K V p -> (forall a, ~ linked V p (GetHash tx) a) ->
  exists p', (p <- (if exists_tx p (GetHash tx) then RemoveStaged p {[GetHash tx]} true else Some p);;
    p <- removeConflicts p tx;; Some (ClearPrioritisation p (GetHash tx))) = Some p' /\
  pool_ok K V p' /\ shrunk (fun y => y = GetHash tx \/ conflicted p tx y) p p' /\ cleared p' tx /\
  keeps_parents (fun a => a = GetHash tx) V p p'.
Proof.
  intros O Np. set (R := fun y : txid => y = GetHash tx \/ conflicted p tx y).
  assert (G : exists p1, (if exists_tx p (GetHash tx) then RemoveStaged p {[GetHash tx]} true else Some p) = Some p1
  /\ pool_ok K V p1 /\ shrunk R p p1 /\ GetHash tx ∉ dom (mapTx p1) /\ keeps_parents (fun a => a = GetHash tx) V p p1).
  { rewrite exists_tx_dom. case_bool_decide as H;
    [|exists p; split_and!; [done|done|apply shrunk_refl|done|apply keeps_parents_refl]].
    destruct (RemoveStaged_root K V p (GetHash tx) HK O H Np) as (p1 & E1 & O1 & W1 & _). exists p1.
    split_and!; try done; [exists {[GetHash tx]}; split; [done|]; intros h ->%elem_of_singleton _;
    by left|rewrite (without_dom _ _ _ W1); set_solver|].
    apply (keeps_parents_without _ V p _ p1 W1). intros c a _ ->%elem_of_singleton. by right. }
  destruct G as (p1 & -> & O1 & S1 & N1 & K1). cbn [obind].
  destruct (removeConflicts_ok p1 tx O1) as (p2 & E2 & O2 & S2 & H2). rewrite E2. cbn [obind].
  destruct (removeConflicts_pruned p1 tx p2 O1 E2) as (_ & S2' & K2).
  assert (N2 : GetHash tx ∉ dom (mapTx p2)) by (intros Hd; apply N1; by apply (shrunk_dom _ p1 p2 S2)).
  eexists. split; [reflexivity|]. split; [by apply clear_prioritisation_ok|].
    split; [apply clear_prioritisation_shrunk; eapply shrunk_trans; [exact S1|]; eapply shrunk_weaken; [exact S2|];
    intros h _ Hc; right; by apply (conflicted_shrunk R p p1)|].
  split; [split; [done|]; intros h e E C; apply N2; rewrite <- (H2 h e E C); apply elem_of_dom; by exists e|].
  apply (keeps_parents_trans (fun _ => True) _ V p p1 p2); [done|by eapply shrunk_weaken|done|].
  eapply keeps_parents_weaken; [exact K2|done].
Qed.
Lemma cleared_shrunk R p q tx : shrunk R p q -> cleared p tx -> cleared q tx.
Proof.
  intros S [N C]. split; [intros Hd; apply N; by apply (shrunk_dom R p q)|]. intros h e E Hc.
  destruct (shrunk_lookup R p q h e S E) as (f & Ef & Cf). apply (C h f Ef). by apply (conflicts_core tx e).
Qed.
(** What the block confirms, and what it makes impossible: a transaction it does not have
    that conflicts with one of its own, and everything that descends from it. *)
Definition confirmed (vtx : list CTransaction) (y : txid) : Prop := exists tx, tx ∈ vtx /\ GetHash tx = y.
Definition ousted (p : CTxMemPool) (vtx : list CTransaction) (y : txid) : Prop := exists tx x e, tx ∈ vtx /\
  mapTx p !! x = Some e /\ ~ confirmed vtx x /\ conflicts tx e /\ rtc (linked V p) y x.
Lemma removeForBlock_ok p vtx : pool_ok K V p -> block_order p vtx -> exists p', removeForBlock p vtx = Some p' /\
  pool_ok K V p' /\ shrunk (replaced p vtx) p p' /\ (forall tx, tx ∈ vtx -> cleared p' tx) /\
  keeps_parents (confirmed vtx) V p p'.
Proof.
  intros O B. unfold removeForBlock. set (step := fun p tx => _). set (R := replaced p vtx). set (C := confirmed vtx).
  assert (G : forall post pre q, vtx = pre ++ post -> pool_ok K V q -> shrunk R p q -> (forall tx, tx ∈ pre ->
  cleared q tx) -> keeps_parents C V p q -> exists p', each step post q = Some p' /\ pool_ok K V p' /\ shrunk R p p' /\
  (forall tx, tx ∈ vtx -> cleared p' tx) /\ keeps_parents C V p p').
  { induction post as [|tx post IH]; intros pre q Ev Oq Sq Hc Kq; cbn [each];
    [exists q; split_and!; try done; rewrite Ev, app_nil_r; done|].
    destruct (block_tx_ok q tx Oq) as (q' & E & O' & S & Cl & Kp).
    - intros a L. pose proof (shrunk_linked R V p q _ _ Sq L) as Lp. pose proof Lp as [(e & Ee & _) _].
      destruct (B pre tx post e a Ev Ee Lp) as (tx' & Ht & Eh). destruct (Hc tx' Ht) as [N _]. apply N. rewrite Eh.
      by apply (linked_dom V q (GetHash tx) a).
    - unfold step at 1. rewrite E. cbn [obind]. assert (S' : shrunk R q q').
      { eapply shrunk_weaken; [exact S|]. intros y Hy H. exists tx. split; [set_solver|].
      destruct H as [->|H]; [by left|right; by apply (conflicted_shrunk R p q)]. }
      apply (IH (pre ++ [tx]) q'); [by rewrite <- app_assoc|done|by eapply shrunk_trans| |].
      + intros t [Ht| ->%list_elem_of_singleton]%elem_of_app; [apply (cleared_shrunk R q q'); [done|by apply Hc]|done].
      + apply (keeps_parents_trans R C V p q q'); [done|done|done|]. eapply keeps_parents_weaken; [exact Kp|].
        intros a ->. exists tx. split; [set_solver|done]. }
  apply (G vtx [] p); [done|done|apply shrunk_refl|set_solver|apply keeps_parents_refl].
Qed.
(** The ancestors in the pool of a confirmed transaction are confirmed. *)
Lemma confirmed_ancestors p vtx c a : block_order p vtx -> rtc (linked V p) c a -> confirmed vtx c -> confirmed vtx a.
Proof.
  intros B. induction 1 as [c|c b a L P IH]; [done|]. intros (tx & Ht & <-). apply IH.
  apply list_elem_of_split in Ht as (pre & post & Ev). pose proof L as [(e & Ee & _) _].
  destruct (B pre tx post e b Ev Ee L) as (t & Ht & Eh). exists t. split; [rewrite Ev; set_solver|done].
Qed.
Lemma ousted_leave p vtx q : block_order p vtx -> shrunk (replaced p vtx) p q -> (forall tx, tx ∈ vtx -> cleared q tx) ->
  keeps_parents (confirmed vtx) V p q -> forall y, ousted p vtx y -> y ∉ dom (mapTx q).
Proof.
  intros B S Cl Kp y (tx & x & e & Ht & Ex & Nx & Cf & P) Hy.
  assert (Hx : x ∈ dom (mapTx q)).
  { clear Ex Cf. induction P as [x|c b x L P IH]; [done|]. destruct (Kp c b L Hy) as [Hb|Hb]; [by apply IH|].
    destruct Nx. by apply (confirmed_ancestors p vtx b). }
  apply elem_of_dom in Hx as [e' Ee']. destruct (shrunk_lookup _ p q x e' S Ee') as (f & Ef & C).
  apply (proj2 (Cl tx Ht) x e' Ee'). apply (conflicts_core tx e); [|done]. congruence.
Qed.
(** Trimming ends below the limit, and reports only outpoints the pool neither has nor spends. *)
Definition unneeded (p : CTxMemPool) (o : COutPoint) : Prop := exists_tx p (out_hash o) = false /\
  isSpent p o = false.
Lemma spent_in p o : index_ok p -> isSpent p o = true <-> exists h e, mapTx p !! h = Some e /\ o ∈ inputs_of (e_tx e).
Proof.
  intros O. unfold isSpent. rewrite bool_decide_eq_true. split.
  - intros [t E]. apply (ix_next _ O) in E as (h & e & E & <- & I). by exists h, e.
  - intros (h & e & E & I). exists (e_tx e). apply (ix_next _ O). by exists h, e.
Qed.
Lemma unneeded_shrunk R p q o : index_ok p -> index_ok q -> shrunk R p q -> unneeded p o -> unneeded q o.
Proof.
  intros Op Oq S [H1 H2]. unfold unneeded. rewrite exists_tx_dom, !bool_decide_eq_false in *.
  split; [intros Hd; apply H1; by apply (shrunk_dom R p q)|]. apply not_true_iff_false. intros Hs.
  apply not_true_iff_false in H2. apply H2. apply (spent_in q o Oq) in Hs as (h & e & E & I).
  destruct (shrunk_lookup R p q h e S E) as (f & Ef & C). apply (spent_in p o Op). exists h, f.
  by rewrite <- (core_tx _ _ C).
Qed.
Lemma TrimToSize_ok usage worst limit : (forall q, mapTx q = ∅ -> usage q <= limit) -> (forall q, mapTx q <> ∅ ->
  exists x, worst q = Some x /\ x ∈ dom (mapTx q)) ->
  forall fuel p acc, (base.size (mapTx p) < fuel)%nat -> pool_ok K V p -> (forall o, o ∈ acc -> unneeded p o) ->
  exists p' acc', TrimToSize fuel usage worst limit p acc = Some (p', acc') /\ pool_ok K V p' /\ shrunk (fun _ =>
    True) p p' /\ usage p' <= limit /\ forall o, o ∈ acc' -> unneeded p' o.
Proof.
  intros He Hw. induction fuel as [|fuel IH]; intros p acc L O Ha; [lia|]. cbn [TrimToSize].
  destruct (Z.gtb_spec (usage p) limit) as [Hu|Hu];
  [|exists p, acc; split_and!; [done|done|apply shrunk_refl|lia|done]].
  destruct (Hw p) as (x & -> & Hx); [intros Em; specialize (He p Em); lia|]. cbn [obind].
  destruct (descendants_of _ V p O x Hx) as (St & E & HS). rewrite E. cbn [obind].
  destruct (RemoveStaged_children K V p St O) as (q & Eq & Oq & W & _);
  [by apply (descendants_sub V p x)|intros c a Lk Hs; apply HS; apply HS in Hs; by eapply rtc_l|]. rewrite Eq.
  cbn [obind]. assert (S : shrunk (fun _ => True) p q) by (by exists St).
  destruct (IH q (acc ++ no_spends_remaining q (omap (fun h =>
  e_tx <$> mapTx p !! h) (in_order St)))) as (p' & acc' & E' & O' & S' & U' & A').
  - rewrite <- !size_dom in *. rewrite (without_dom p St q W). assert (Xs : x ∈ St) by (by apply HS).
    pose proof (subseteq_size (dom (mapTx p) ∖ St) (dom (mapTx p) ∖ {[x]}) ltac:(set_solver)) as Ls.
    rewrite (size_difference (dom (mapTx p)) {[x]}), size_singleton in Ls by set_solver.
    assert (base.size (dom (mapTx p)) <> 0%nat); [|lia]. intros Z0. apply size_empty_iff in Z0. set_solver.
  - done.
  - intros o [Ho|Ho]%elem_of_app; [apply (unneeded_shrunk (fun _ =>
    True) p q); [apply (ok_index _ _ _ O)|apply (ok_index _ _ _ Oq)|done|by apply Ha]|].
    apply list_elem_of_filter in Ho as [Hb _]. unfold unneeded. by destruct (exists_tx q (out_hash o)), (isSpent q o).
  - exists p', acc'. split_and!; try done. by eapply shrunk_trans.
Qed.
End Operations.
End Removal.
