(* ===== verification/MempoolAdd.v ===== *)
(** Adding to the memory pool: a new transaction, and the transactions of disconnected blocks. *)
From Stdlib Require Import ZArith Lia List Bool SpecFloat.
From stdpp Require Import base list gmap sets sorting relations.
From S2P Require Import Prelude Serialize Script Interpreter Transaction Codecs Compressor Coins Mempool MempoolInv MempoolOps.
Import ListNotations.
Local Open Scope Z_scope.
Local Open Scope passion_scope.
#[local] Remove Hints finite.finite_countable : typeclass_instances.

Section Adding.
Context {abi : Abi} {crypto : ScriptCrypto}.

(** * Adding *)

(** An entry as its constructor makes it: its statistics count itself. *)
Definition alone (e : CTxMemPoolEntry) : Prop := forall k, (k <> Ops -> desc_stat k e = wrap k (weight_of k e)) /\
  anc_stat k e = wrap k (weight_of k e).
Definition with_delta (d : Z) (e : CTxMemPoolEntry) : CTxMemPoolEntry :=
  if d =? 0 then e else default e (UpdateFeeDelta d e).
Lemma i64_idem x : i64 (i64 x) = i64 x.
Proof. apply (wrap_eq Fee), i64_mod. Qed.
Lemma with_delta_alone d e : feeDelta e = 0 -> alone e -> alone (with_delta d e) /\ feeDelta (with_delta d e) = d.
Proof.
  intros Z0 H. unfold with_delta. destruct (Z.eqb_spec d 0) as [->|N]; [done|]. split; [|done]. intros k.
  destruct (H k) as [H1 H2]. cbn [UpdateFeeDelta default]. unfold default, id. rewrite Z0, Z.sub_0_r.
  destruct k; split; try done; cbn [desc_stat anc_stat weight_of wrap] in *; unfold GetModifiedFee in *;
  cbn [nFee feeDelta nModFeesWithDescendants nModFeesWithAncestors] in *; rewrite Z0, Z.add_0_r in *; intros;
  rewrite ?H1, ?H2 by done; rewrite !i64_idem, i64_i64_add; apply (wrap_add_r Fee); apply i64_mod.
Qed.
Lemma with_delta_tx d e : e_tx (with_delta d e) = e_tx e /\ nTxSize (with_delta d e) = nTxSize e /\
  sigOpCount (with_delta d e) = sigOpCount e.
Proof. unfold with_delta. by destruct (d =? 0). Qed.
Lemma new_entry_alone tx fee time spends_cb sigOps inChain valueOut e : new_entry tx fee time spends_cb sigOps inChain
  valueOut = Some e -> i64 fee = fee -> 0 <= sigOps < 2 ^ 32 ->
  Z.of_nat (length (SerializeTransaction tx)) < 2 ^ 63 ->
  e_tx e = tx /\ feeDelta e = 0 /\ alone e.
Proof.
  unfold new_entry. set (n := Z.of_nat (length (SerializeTransaction tx))).
    assert (Hn : 0 <= n) by apply Nat2Z.is_nonneg. clearbody n. destruct (_ <=? _); [|done]. intros [= <-] Hf Ho Hs.
    split; [done|]. split; [done|]. intros k. unfold weight_of, GetModifiedFee. cbn. rewrite Z.add_0_r.
    destruct k; cbn; rewrite ?Hf; [done|rewrite u64_small by lia; done|done|rewrite u32_small by lia; done].
Qed.
(** The inputs that are in the pool become its parents. *)
Lemma link_parents n : forall l p L, mapLinks p !! n = Some L ->
  foldl (fun p phash => if exists_tx p phash then UpdateParent p n phash true else p) p l = with_links p (<[n :=
    mkLinks (lk_parents L ∪ list_to_set (filter (fun h => h ∈ dom (mapTx p)) l)) (lk_children L)]> (mapLinks p)).
Proof.
  induction l as [|a l IH]; intros p L E; cbn [foldl];
    [rewrite filter_nil; cbn [list_to_set]; rewrite union_empty_r_L; destruct L as [P C];
    cbn [lk_parents lk_children] in *; by rewrite insert_id by done; destruct p|].
  rewrite exists_tx_dom, filter_cons. case_bool_decide as H.
  - rewrite decide_True by done. rewrite (IH (UpdateParent p n a true) (mkLinks ({[a]} ∪ lk_parents L) (lk_children
    L))); [|unfold UpdateParent, links_of; rewrite E; cbn; by rewrite lookup_insert_eq].
    unfold UpdateParent, links_of. rewrite E. cbn [default mapLinks with_links mapTx]. unfold default, id.
    rewrite insert_insert_eq. cbn [list_to_set lk_parents lk_children]. f_equal. f_equal. f_equal. set_solver.
  - rewrite decide_False by done. by apply IH.
Qed.
Lemma mark_spent_ok tx : forall (m : gmap COutPoint CTransaction) o, (forall i, i ∈ vin tx ->
  m !! prevout i = None) -> mark_spent m tx !! o = if bool_decide (o ∈ inputs_of tx) then Some tx else m !! o.
Proof.
  unfold mark_spent, inputs_of. intros m o H. assert (G : forall l (m' : gmap COutPoint CTransaction), (forall i,
    i ∈ l -> m' !! prevout i = None \/ m' !! prevout i = Some tx) ->
    foldl (fun m i => match m !! prevout i with Some _ => m | None => <[prevout i :=
      tx]> m end) m' l !! o = if bool_decide (o ∈ map prevout l) then Some tx else m' !! o);
      [|apply G; intros i Hi; left; by apply H].
  induction l as [|i l IH]; intros m' Hm; cbn [foldl map]; [by rewrite bool_decide_eq_false_2 by set_solver|].
    destruct (Hm i ltac:(set_solver)) as [E|E]; rewrite E.
  - rewrite IH.
    + destruct (decide (o = prevout i)) as [->|N]; [rewrite lookup_insert_eq,
      (bool_decide_eq_true_2 (prevout i ∈ prevout i :: map prevout l)) by set_solver; by case_bool_decide|].
      rewrite lookup_insert_ne by done. by rewrite (bool_decide_ext (o ∈ map prevout l) (o ∈ prevout i :: map prevout
      l)) by set_solver.
    + intros j Hj. destruct (decide (prevout j = prevout i)) as [->|N]; [right; by rewrite lookup_insert_eq|].
      rewrite lookup_insert_ne by done. apply Hm. set_solver.
  - rewrite IH by (intros j Hj; apply Hm; set_solver).
    destruct (decide (o = prevout i)) as [->|N]; [rewrite (bool_decide_eq_true_2 (prevout i ∈ prevout i :: map prevout
    l)) by set_solver; by case_bool_decide|]. by rewrite (bool_decide_ext (o ∈ map prevout l) (o ∈ prevout i :: map
    prevout l)) by set_solver.
Qed.
Lemma save_nullifiers_ok tx l : forall (m : gmap txid CTransaction) nf, foldl (fun m nf => <[nf :=
  tx]> m) m l !! nf = if bool_decide (nf ∈ l) then Some tx else m !! nf.
Proof.
  induction l as [|i l IH]; intros m o; cbn [foldl]; [by rewrite bool_decide_eq_false_2 by set_solver|]. rewrite IH.
    destruct (decide (o = i)) as [->|N].
  - rewrite lookup_insert_eq, (bool_decide_eq_true_2 (i ∈ i :: l)) by set_solver. by case_bool_decide.
  - rewrite lookup_insert_ne by done. by rewrite (bool_decide_ext (o ∈ l) (o ∈ i :: l)) by set_solver.
Qed.
(** The sums over the ancestors. *)
Lemma ancestor_sums p : forall l x y z, NoDup l -> (forall a, a ∈ l -> a ∈ dom (mapTx p)) -> exists sz fee ops,
  each (fun s a => e <- mapTx p !! a;; let '(sz, fee, ops) := s in Some (i64 (sz + nTxSize e),
    i64 (fee + GetModifiedFee e), i32 (ops + sigOpCount e))) l (x, y, z) = Some (sz, fee, ops) /\
  sz mod 2 ^ 64 = (x + wsum (weight p Size) (list_to_set l)) mod 2 ^ 64 /\
    fee mod 2 ^ 64 = (y + wsum (weight p Fee) (list_to_set l)) mod 2 ^ 64 /\
    ops mod 2 ^ 32 = (z + wsum (weight p Ops) (list_to_set l)) mod 2 ^ 32.
Proof.
  induction l as [|a l IH]; intros x y z ND H; cbn [each list_to_set];
    [exists x, y, z; rewrite !wsum_empty, !Z.add_0_r; done|]. apply NoDup_cons in ND as [Na ND].
    pose proof (H a ltac:(set_solver)) as [e E]%elem_of_dom. rewrite E. cbn [obind].
  destruct (IH (i64 (x + nTxSize e)) (i64 (y + GetModifiedFee e)) (i32 (z + sigOpCount e)) ND) as (sz & fee & ops & Es
  & H1 & H2 & H3); [set_solver|]. exists sz, fee, ops. split;
  [done|]. assert (W : forall k, weight p k a = weight_of k e) by (intros k; unfold weight; by rewrite E).
  rewrite !wsum_insert, !W, H1, H2, H3 by set_solver. cbn [weight_of].
  rewrite (Z.add_mod (i64 _)), i64_mod, <- Z.add_mod by done.
  rewrite (Z.add_mod (i64 _)), i64_mod, <- Z.add_mod by done.
  rewrite (Z.add_mod (i32 _)), i32_mod, <- Z.add_mod by done. split_and!; f_equal; lia.
Qed.
Lemma on_insert_ne {A : Type} (n : txid) (s : gset txid) (f : A -> A) (m : gmap txid A) x : n ∉ s -> on s f (<[n :=
  x]> m) = <[n := x]> (on s f m).
Proof.
  intros N. apply map_eq. intros h. rewrite lookup_on. destruct (decide (h = n)) as [->|Nh].
  - rewrite !lookup_insert_eq, bool_decide_eq_false_2 by done. done.
  - rewrite !lookup_insert_ne by done. by rewrite lookup_on.
Qed.
Definition gain (e : CTxMemPoolEntry) : stat -> Z := stat_fun 1 (i64 (1 * nTxSize e)) (i64 (1 * GetModifiedFee e)) 0.
Lemma gain_mod e k : k <> Ops -> gain e k mod modulus k = weight_of k e mod modulus k.
Proof. destruct k; intros N; cbn [gain stat_fun weight_of modulus];
  [done|rewrite i64_mod; f_equal; lia|rewrite i64_mod; f_equal; lia|done]. Qed.
(** The parents of a transaction in the pool. *)
Definition pool_parents (p : CTxMemPool) (tx : CTransaction) : gset txid := list_to_set (filter (fun h =>
  h ∈ dom (mapTx p)) (in_order (list_to_set (map (fun i => out_hash (prevout i)) (vin tx))))).
Lemma elem_of_pool_parents p tx a : a ∈ pool_parents p tx <-> a ∈ dom (mapTx p) /\ spends_from tx a.
Proof.
  unfold pool_parents, spends_from. rewrite elem_of_list_to_set, list_elem_of_filter, elem_of_in_order,
    elem_of_list_to_set, list_elem_of_fmap. naive_solver.
Qed.
Definition sums_to (p : CTxMemPool) (A : gset txid) (g : stat -> Z) : Prop := forall k,
  g k mod modulus k = wsum (weight p k) A mod modulus k.
Section Add.
Variables (p : CTxMemPool) (entry : CTxMemPoolEntry) (A : gset txid).
Abbreviation tx := (e_tx entry).
Abbreviation n := (GetHash tx).
Abbreviation e1 := (with_delta (fee_delta p n) entry).
Abbreviation P := (pool_parents p tx).
Definition added_pool (g : stat -> Z) : CTxMemPool :=
  mkPool (<[n := bump_anc g e1]> (on A (bump_desc (gain e1)) (mapTx p))) (<[n :=
    mkLinks P ∅]> (on P (set_child n true) (mapLinks p)))
    (mark_spent (mapNextTx p) tx) (mapDeltas p) (foldl (fun m nf => <[nf :=
      tx]> m) (mapSaplingNullifiers p) (nullifiers tx)) (u64 (totalTxSize p + nTxSize entry)) (u32
      (nTransactionsUpdated p + 1)).
Hypothesis Fresh : n ∉ dom (mapTx p).
Hypothesis DL : dom (mapLinks p) = dom (mapTx p).
Hypothesis NZ : HasZerocoinSpendInputs tx = false.
Hypothesis NS : ~ spends_from tx n.
Hypothesis Sub : A ⊆ dom (mapTx p).
Section Eval.
Hypothesis HD : forall a, a ∈ A -> exists e, mapTx p !! a = Some e /\
  UpdateDescendantState (gain e1 Size) (gain e1 Fee) (gain e1 Count) e = Some (bump_desc (gain e1) e).
Hypothesis HA : forall g, sums_to p A g -> UpdateAncestorState (g Size) (g Fee) (g Count) (g Ops) e1 = Some (bump_anc
  g e1).
Lemma add_entry : exists p1, (match mapDeltas p !! n with Some deltas => if snd deltas =? 0 then Some (with_links (with_tx p (<[n :=
  entry]> (mapTx p))) (<[n := mkLinks ∅ ∅]> (mapLinks p))) else modify (with_links (with_tx p (<[n :=
  entry]> (mapTx p))) (<[n := mkLinks ∅ ∅]> (mapLinks p))) n (UpdateFeeDelta (snd deltas)) | None =>
  Some (with_links (with_tx p (<[n := entry]> (mapTx p))) (<[n := mkLinks ∅ ∅]> (mapLinks p))) end) = Some p1 /\
  p1 = with_links (with_tx p (<[n := e1]> (mapTx p))) (<[n := mkLinks ∅ ∅]> (mapLinks p)).
Proof.
  unfold fee_delta, deltas_of. destruct (mapDeltas p !! n) as [[w d]|]; [|by eexists]. unfold with_delta.
  cbn [default snd]. unfold default, id. cbn [snd]. destruct (d =? 0); [by eexists|]. unfold modify. cbn [mapTx with_links with_tx]. rewrite lookup_insert_eq.
  cbn [obind UpdateFeeDelta]. rewrite insert_insert_eq. by eexists.
Qed.
Lemma add_parents : ∅ ∪ list_to_set (filter (fun h => h ∈ dom (<[n :=
  e1]> (mapTx p))) (in_order (list_to_set (map (fun i => out_hash (prevout i)) (vin tx))))) = P.
Proof.
  apply set_eq. intros a. rewrite elem_of_pool_parents, union_empty_l_L, elem_of_list_to_set, list_elem_of_filter,
  elem_of_in_order, elem_of_list_to_set, list_elem_of_fmap, dom_insert_L, elem_of_union, elem_of_singleton.
  unfold spends_from. split.
  - intros [[H|H] (i & Ei & Hi)]; [destruct NS; exists i; split; [done|congruence]|]. split; [done|]. by exists i.
  - intros [H (i & Hi & Ei)]. split; [by right|]. by exists i.
Qed.
Lemma addUnchecked_eval : exists g, sums_to p A g /\ addUnchecked p n entry A = Some (added_pool g).
Proof.
  unfold addUnchecked. rewrite (not_elem_of_dom_1 _ _ Fresh).
    assert (Fl : mapLinks p !! n = None) by (apply not_elem_of_dom; by rewrite DL). cbn [mapLinks with_tx].
    rewrite Fl. cbn [mapDeltas with_links with_tx]. destruct add_entry as (p1 & E1 & ->).
    cbn [with_tx with_links mapTx mapLinks mapDeltas mapNextTx mapSaplingNullifiers totalTxSize nTransactionsUpdated]
    in *. rewrite E1. clear E1.
  cbn [obind with_tx with_links mapTx mapLinks mapDeltas mapNextTx mapSaplingNullifiers totalTxSize
    nTransactionsUpdated]. rewrite lookup_insert_eq.
    cbn [obind]. destruct (with_delta_tx (fee_delta p n) entry) as (Et & Es & Eo). rewrite Et, NZ.
  rewrite (link_parents n _ _ (mkLinks ∅ ∅)) by (cbn [mapLinks]; apply lookup_insert_eq).
  cbn [mapTx mapLinks mapDeltas mapNextTx mapSaplingNullifiers totalTxSize nTransactionsUpdated lk_parents
  lk_children]. rewrite add_parents, insert_insert_eq.
  assert (Np : n ∉ P) by (rewrite elem_of_pool_parents; tauto). assert (Na : n ∉ A) by set_solver.
  unfold UpdateAncestorsOf, GetMemPoolParents. cbn [mapLinks with_links]. rewrite lookup_insert_eq.
    cbn [obind lk_parents]. rewrite UpdateChild_all by (cbn [mapLinks with_links]; rewrite dom_insert_L, DL;
    intros a [Ha _]%elem_of_pool_parents; set_solver).
    cbn [mapTx mapLinks with_links]. rewrite on_insert_ne by done. rewrite lookup_insert_eq. cbn [obind].
  rewrite (each_modify _ (bump_desc (gain e1))); [|apply NoDup_in_order|intros a Ha%elem_of_in_order; destruct (HD a
  Ha) as (e & E & U); exists e; cbn [mapTx with_links]; split;
  [rewrite lookup_insert_ne; [done|]; intros <-; done|exact U]].
  rewrite in_order_set. cbn [obind mapTx with_tx with_links]. rewrite on_insert_ne by done.
  unfold UpdateEntryForAncestors.
  set (q := with_tx _ _). destruct (ancestor_sums q (in_order A) 0 0 0 (NoDup_in_order A)) as (sz & fee & ops & Eq &
    H1 & H2 & H3).
  { intros a Ha%elem_of_in_order. unfold q. cbn [mapTx with_tx]. rewrite dom_insert_L, dom_on. set_solver. }
  rewrite Eq. cbn [obind]. rewrite in_order_set, !Z.add_0_l in *.
  assert (W : forall k, wsum (weight q k) A = wsum (weight p k) A).
  { intros k. apply wsum_ext. intros a Ha. unfold weight, q. cbn [mapTx with_tx].
    rewrite lookup_insert_ne by set_solver. rewrite lookup_on. destruct (mapTx p !! a); [|done]. cbn.
    case_bool_decide; [by destruct k|done]. }
  set (g := stat_fun (set_size A) sz fee ops). assert (Sg : sums_to p A g).
    { intros k. destruct k; cbn [g stat_fun modulus]; [|by rewrite H1, W|by rewrite H2, W|by rewrite H3, W]. f_equal.
    rewrite <- wsum_one. apply wsum_ext. intros a Ha. apply Sub in Ha. apply elem_of_dom in Ha as [e E].
    unfold weight. by rewrite E. }
  exists g. split; [done|]. unfold modify. cbn [mapTx with_tx q]. rewrite lookup_insert_eq. cbn [obind].
    change (UpdateAncestorState sz fee (set_size A) ops) with (UpdateAncestorState (g Size) (g Fee) (g Count) (g
    Ops)). rewrite (HA g Sg). cbn [obind]. unfold added_pool,
    q. cbn [with_tx with_links mapTx mapLinks mapDeltas mapNextTx mapSaplingNullifiers totalTxSize
    nTransactionsUpdated]. by rewrite insert_insert_eq.
Qed.
End Eval.
(** ** The pool with the new transaction *)

Variables (K : stat -> Prop) (V V' : gset txid) (g : stat -> Z).
Hypothesis O : pool_ok K V p.
Hypothesis Alone : feeDelta entry = 0 /\ alone entry.
Hypothesis Ok : entry_ok entry.
Hypothesis HSize : wsum (weight p Size) (dom (mapTx p)) + nTxSize entry < 2 ^ 63.
Hypothesis HOps : wsum (weight p Ops) (dom (mapTx p)) + sigOpCount entry < 2 ^ 31.
Hypothesis NoConflict : (forall o, o ∈ inputs_of tx -> mapNextTx p !! o = None) /\ (forall nf, nf ∈ nullifiers tx ->
  mapSaplingNullifiers p !! nf = None).
Hypothesis HV : forall h, h <> n -> h ∈ V' <-> h ∈ V.
Hypothesis HVc : forall c e, mapTx p !! c = Some e -> spends_from (e_tx e) n -> n ∈ V' /\ c ∉ V'.
Hypothesis HVp : forall a, a ∈ P -> a ∈ V' -> n ∈ V'.
Hypothesis HAnc : forall y, y ∈ A <-> exists z, z ∈ P /\ rtc (linked V p) z y.
Hypothesis Sg : sums_to p A g.
Abbreviation q := (added_pool g).
Lemma e1_tx : e_tx e1 = tx.
Proof. apply with_delta_tx. Qed.
Lemma added_lookup h : h <> n -> mapTx q !! h = (if bool_decide (h ∈ A) then bump_desc (gain e1) else id) <$> mapTx p
  !! h.
Proof. intros N. cbn [added_pool mapTx]. by rewrite lookup_insert_ne, lookup_on by done. Qed.
Lemma added_core h : h <> n -> core <$> mapTx q !! h = core <$> mapTx p !! h.
Proof. intros N. rewrite added_lookup by done. destruct (mapTx p !! h); [|done]. cbn. by case_bool_decide. Qed.
Lemma added_new : mapTx q !! n = Some (bump_anc g e1).
Proof. cbn [added_pool mapTx]. by rewrite lookup_insert_eq. Qed.
Lemma added_dom : dom (mapTx q) = {[n]} ∪ dom (mapTx p).
Proof. cbn [added_pool mapTx]. by rewrite dom_insert_L, dom_on. Qed.
Lemma added_old h e : mapTx q !! h = Some e -> h <> n -> exists f, mapTx p !! h = Some f /\ core e = core f.
Proof. intros E N. pose proof (added_core h N) as C. rewrite E in C. destruct (mapTx p !! h) as [f|]; [|done].
  apply (inj Some) in C. by exists f. Qed.
Lemma added_old_r h f : mapTx p !! h = Some f -> h <> n /\ exists e, mapTx q !! h = Some e /\ core e = core f.
Proof.
  intros E. assert (N : h <> n) by (intros ->; apply Fresh, elem_of_dom; by exists f). split; [done|].
  pose proof (added_core h N) as C. rewrite E in C. destruct (mapTx q !! h) as [e|]; [|done]. apply (inj Some) in C.
  by exists e.
Qed.
Lemma added_weight k h : h <> n -> weight q k h = weight p k h.
Proof. intros N. unfold weight. pose proof (added_core h N) as C. destruct (mapTx q !! h), (mapTx p !! h); try done.
  apply (inj Some) in C. by apply core_weight. Qed.
Lemma added_weight_new k : weight q k n = weight_of k e1.
Proof. unfold weight. rewrite added_new. by destruct k. Qed.
Lemma added_wsum k (s : gset txid) : n ∉ s -> wsum (weight q k) s = wsum (weight p k) s.
Proof. intros N. apply wsum_ext. intros h Hh. apply added_weight. by intros ->. Qed.
Lemma added_total k : wsum (weight q k) (dom (mapTx q)) = wsum (weight p k) (dom (mapTx p)) + weight_of k e1.
Proof. rewrite added_dom, wsum_insert, added_weight_new, added_wsum by done. lia. Qed.
Lemma added_spends c a : spends q c a <-> spends p c a \/ (c = n /\ a ∈ P) \/ (a = n /\ exists e,
  mapTx p !! c = Some e /\ spends_from (e_tx e) n).
Proof.
  unfold spends. rewrite added_dom, elem_of_pool_parents. split.
  - intros (e & E & Ha & F). destruct (decide (c = n)) as [->|N].
    + rewrite added_new in E. injection E as <-. right. left. split; [done|].
      assert (F' : spends_from tx a) by (by rewrite <- e1_tx). split; [|done].
      apply elem_of_union in Ha as [->%elem_of_singleton|]; [by destruct NS|done].
    + destruct (added_old c e E N) as (f & Ef & C). rewrite (core_tx _ _ C) in F.
      apply elem_of_union in Ha as [->%elem_of_singleton|Ha];
      [right; right; split; [done|by exists f]|left; by exists f].
  - intros [(e & E & Ha & F)|[(-> & Ha & F)|(-> & e & E & F)]].
    + destruct (added_old_r c e E) as (_ & f & Ef & C). exists f. rewrite (core_tx _ _ C). set_solver.
    + exists (bump_anc g e1). split; [apply added_new|]. split; [set_solver|].
      change (e_tx (bump_anc g e1)) with (e_tx e1). by rewrite e1_tx.
    + destruct (added_old_r c e E) as (_ & f & Ef & C). exists f. rewrite (core_tx _ _ C). set_solver.
Qed.
Lemma in_pool_ne h : h ∈ dom (mapTx p) -> h <> n.
Proof. intros H ->. done. Qed.
Lemma added_linked c a : linked V' q c a <-> linked V p c a \/ (c = n /\ a ∈ P).
Proof.
  unfold linked. rewrite added_spends. split.
  - intros [[H|[H|(-> & e & E & F)]] I].
    + left. split; [done|]. pose proof H as (e & E & Ha & _).
      assert (Hc : c ∈ dom (mapTx p)) by (apply elem_of_dom; by exists e).
      rewrite <- (HV a), <- (HV c) by (by apply in_pool_ne). done.
    + by right.
    + destruct (HVc c e E F) as [H1 H2]. tauto.
  - intros [[H I]|[-> H]].
    + split; [by left|]. pose proof H as (e & E & Ha & _).
      assert (Hc : c ∈ dom (mapTx p)) by (apply elem_of_dom; by exists e).
      rewrite (HV a), (HV c) by (by apply in_pool_ne). done.
    + split; [right; by left|]. by apply HVp.
Qed.
Lemma added_rtc c a : rtc (linked V' q) c a <-> rtc (linked V p) c a \/ (c = n /\ a ∈ A).
Proof.
  assert (Pd : forall z, z ∈ P -> z <> n) by (intros z [H _]%elem_of_pool_parents; by apply in_pool_ne). split.
  - induction 1 as [x|x y z H _ IH]; [by left|]. apply added_linked in H as [H|[-> H]].
    + assert (y <> n) by (apply in_pool_ne; by apply (linked_dom V p x y)). destruct IH as [IH|[-> _]]; [|done]. left.
      by eapply rtc_l.
    + right. split; [done|]. apply HAnc. destruct IH as [IH|[-> _]]; [by exists y|]. by destruct (Pd _ H).
  - intros [H|[-> H]].
    + eapply (rtc_congruence id); [|exact H]. intros x y L. apply added_linked. by left.
    + apply HAnc in H as (z & Hz & H). eapply rtc_l; [apply added_linked; by right|].
      eapply (rtc_congruence id); [|exact H]. intros x y L. apply added_linked. by left.
Qed.
Lemma nothing_to_new y : rtc (linked V p) y n -> y = n.
Proof. intros H. apply rtc_tc in H as [->|H]; [done|]. destruct Fresh. clear - H.
  induction H as [x y H|]; [by apply (linked_dom V p x y)|done]. Qed.
Lemma nothing_from_new y : rtc (linked V p) n y -> y = n.
Proof. intros H. apply rtc_tc in H as [->|H]; [done|]. destruct Fresh. apply tc_first in H as (z & H & _).
  by apply (linked_dom V p n z). Qed.
Lemma added_acyclic a : ~ tc (linked V' q) a a.
Proof.
  intros H. apply tc_first in H as (z & H & R). apply added_rtc in R. apply added_linked in H as [H|[-> H]].
  - destruct R as [R|[-> _]]; [apply (ok_acyclic _ _ _ O a); apply tc_first; by exists z|]. apply Fresh.
    by apply (linked_dom V p a n).
  - destruct R as [R|[-> R]]; [|apply Fresh; by apply Sub]. apply nothing_to_new in R. subst z. apply Fresh.
    by apply elem_of_pool_parents in H as [H _].
Qed.
Lemma added_links : links_ok V' q.
Proof.
  split; [rewrite added_dom; cbn [added_pool mapLinks]; by rewrite dom_insert_L, dom_on, DL|]. intros h l.
  cbn [added_pool mapLinks]. destruct (decide (h = n)) as [->|N].
  - rewrite lookup_insert_eq. intros [= <-]. cbn [lk_parents lk_children]. split; intros y; rewrite added_linked.
    + split; [by right|]. intros [H|[_ H]]; [|done]. destruct Fresh. by apply (linked_dom V p n y).
    + split; [set_solver|]. intros [H|[-> H]]; [destruct Fresh; by apply (linked_dom V p y n)|]. destruct Fresh.
      by apply elem_of_pool_parents in H as [H _].
  - rewrite lookup_insert_ne, lookup_on by done. destruct (mapLinks p !! h) as [l0|] eqn:E; [|done].
    destruct (ok_links _ _ _ O) as [_ LK]. destruct (LK h l0 E) as [Hp Hc]. cbn [fmap option_fmap option_map].
    intros [= <-]. split; intros y; rewrite added_linked.
    + rewrite <- Hp. case_bool_decide; unfold set_child, id; cbn [lk_parents]; naive_solver.
    + rewrite <- Hc. case_bool_decide as H; unfold set_child, id; cbn [lk_children];
      [rewrite elem_of_union, elem_of_singleton; naive_solver|naive_solver].
Qed.
Lemma e1_entry : entry_ok e1.
Proof. destruct (with_delta_tx (fee_delta p n) entry) as (H1 & H2 & H3). unfold entry_ok.
  by rewrite H1, H2, H3. Qed.
Lemma added_index : index_ok q.
Proof.
  destruct (with_delta_tx (fee_delta p n) entry) as (H1 & H2 & H3).
  pose proof (ok_index _ _ _ O) as Ix. destruct NoConflict as [NC1 NC2]. split.
  - intros h e E. destruct (decide (h = n)) as [->|N];
    [rewrite added_new in E; injection E as <-; change (e_tx (bump_anc g e1)) with (e_tx e1); split;
    [by rewrite H1|apply e1_entry]|].
    destruct (added_old h e E N) as (f & Ef & C). destruct (ix_key _ Ix h f Ef) as [Hh He]. rewrite (core_tx _ _ C).
    split; [done|]. by apply (core_entry f).
  - rewrite added_total. cbn [weight_of]. by rewrite H2.
  - rewrite added_total. cbn [weight_of]. by rewrite H3.
  - intros o t. cbn [added_pool mapNextTx]. rewrite mark_spent_ok by (intros i Hi; apply NC1;
    by apply list_elem_of_fmap_2). case_bool_decide as H.
    + split; [intros [= <-]; exists n, (bump_anc g e1); split; [apply added_new|]; by rewrite <- e1_tx at 2|].
      intros (h & e & E & Et & I). destruct (decide (h = n)) as [->|N];
      [rewrite added_new in E; injection E as <-; change (e_tx (bump_anc g e1)) with (e_tx e1) in Et; congruence|].
      destruct (added_old h e E N) as (f & Ef & C). exfalso.
      assert (mapNextTx p !! o = Some t) by (apply (ix_next _ Ix); exists h, f; rewrite <- (core_tx _ _ C); done).
      rewrite NC1 in * by done. done.
    + rewrite (ix_next _ Ix). split; intros (h & e & E & Et & I);
      [destruct (added_old_r h e E) as (_ & f & Ef & C); exists h, f; by rewrite (core_tx _ _ C)|].
      destruct (decide (h = n)) as [->|N]; [rewrite added_new in E; injection E as <-; change (e_tx (bump_anc g e1))
      with (e_tx e1) in Et; rewrite H1 in Et; by subst t|].
      destruct (added_old h e E N) as (f & Ef & C). exists h, f. by rewrite <- (core_tx _ _ C).
  - intros o t. cbn [added_pool mapSaplingNullifiers]. rewrite save_nullifiers_ok. case_bool_decide as H.
    + split; [intros [= <-]; exists n, (bump_anc g e1); split; [apply added_new|]; by rewrite <- e1_tx at 2|].
      intros (h & e & E & Et & I). destruct (decide (h = n)) as [->|N];
      [rewrite added_new in E; injection E as <-; change (e_tx (bump_anc g e1)) with (e_tx e1) in Et; congruence|].
      destruct (added_old h e E N) as (f & Ef & C). exfalso.
      assert (mapSaplingNullifiers p !! o = Some t) by (apply (ix_nullifiers _ Ix); exists h, f;
      rewrite <- (core_tx _ _ C); done). rewrite NC2 in * by done. done.
    + rewrite (ix_nullifiers _ Ix). split; intros (h & e & E & Et & I);
      [destruct (added_old_r h e E) as (_ & f & Ef & C); exists h, f; by rewrite (core_tx _ _ C)|].
      destruct (decide (h = n)) as [->|N]; [rewrite added_new in E; injection E as <-; change (e_tx (bump_anc g e1))
      with (e_tx e1) in Et; rewrite H1 in Et; by subst t|].
      destruct (added_old h e E N) as (f & Ef & C). exists h, f. by rewrite <- (core_tx _ _ C).
  - rewrite added_total. cbn [added_pool totalTxSize weight_of]. rewrite H2, (ix_total _ Ix). apply u64_small.
    pose proof (wsum_nonneg (weight p Size) (dom (mapTx p))) as G.
    specialize (G ltac:(intros; by apply entry_weight_nonneg)). destruct Ok as [Hs _]. lia.
  - intros h e E. cbn [added_pool mapDeltas]. destruct (decide (h = n)) as [->|N];
    [rewrite added_new in E; injection E as <-; exact (proj2 (with_delta_alone _ entry (proj1 Alone) (proj2
    Alone)))|]. destruct (added_old h e E N) as (f & Ef & C). rewrite (core_delta _ _ C). by apply (ix_deltas _ Ix).
Qed.
Lemma added_desc h e D k : mapTx q !! h = Some e -> Descendants V' q h D -> k <> Ops ->
  desc_stat k e = wrap k (wsum (weight q k) D).
Proof.
  intros E HDs Nk. destruct (decide (h = n)) as [->|N].
  - rewrite added_new in E. injection E as <-. replace D with ({[n]} : gset txid);
    [rewrite wsum_singleton, added_weight_new; change (desc_stat k (bump_anc g e1)) with (desc_stat k e1);
    by apply (proj1 (with_delta_alone _ entry (proj1 Alone) (proj2 Alone)))|].
    apply set_eq. intros y. rewrite (HDs y), added_rtc, elem_of_singleton. split; [intros ->; by left|].
    intros [H|[-> _]]; [by apply nothing_to_new|done].
  - rewrite added_lookup in E by done. destruct (mapTx p !! h) as [f|] eqn:F; [|done].
    assert (Hh : h ∈ dom (mapTx p)) by (apply elem_of_dom; by exists f).
    destruct (descendants_of _ V p O h Hh) as (D0 & _ & HD0). pose proof (descendants_sub V p h D0 Hh HD0) as Sd.
    assert (Nn : n ∉ D0) by (intros H; by apply Fresh, Sd).
    case_bool_decide as Ha; injection E as <-.
    + replace D with ({[n]} ∪ D0); [|apply set_eq; intros y;
      rewrite (HDs y), added_rtc, elem_of_union, elem_of_singleton, (HD0 y); naive_solver].
      rewrite desc_stat_bump, (ok_desc _ _ _ O h f D0 k F HD0 Nk), wsum_insert, added_weight_new, added_wsum,
      wrap_add_l by done. rewrite (wrap_add_r k _ (gain e1 k) (weight_of k e1)) by (by apply gain_mod). f_equal. lia.
    + replace D with D0; [unfold id; by rewrite (ok_desc _ _ _ O h f D0 k F HD0 Nk), added_wsum|]. apply set_eq.
      intros y. rewrite (HDs y), added_rtc, (HD0 y). naive_solver.
Qed.
Lemma added_anc h e B k : mapTx q !! h = Some e -> Ancestors V' q h B -> K k ->
  anc_stat k e = wrap k (wsum (weight q k) B).
Proof.
  intros E HB Hk. destruct (decide (h = n)) as [->|N].
  - rewrite added_new in E. injection E as <-. assert (Na : n ∉ A) by set_solver.
    replace B with ({[n]} ∪ A); [|apply set_eq; intros y; rewrite (HB y), added_rtc, elem_of_union, elem_of_singleton;
    split; [intros [->|H]; [by left|by right]|intros [H|[_ H]]; [left; by apply nothing_from_new|by right]]].
    rewrite anc_stat_bump, wsum_insert, added_weight_new, added_wsum by done.
    destruct (with_delta_alone (fee_delta p n) entry) as [Al _]; [apply Alone|apply Alone|].
    rewrite (proj2 (Al k)), wrap_add_l. by apply wrap_add_r.
  - rewrite added_lookup in E by done. destruct (mapTx p !! h) as [f|] eqn:F; [|done].
    assert (Hh : h ∈ dom (mapTx p)) by (apply elem_of_dom; by exists f).
    assert (HB' : Ancestors V p h B) by (intros y; rewrite (HB y), added_rtc; naive_solver).
    assert (Nn : n ∉ B) by (intros H; apply Fresh; by apply (ancestors_sub V p h B Hh HB')).
    rewrite added_wsum, <- (ok_anc _ _ _ O h f B k F HB' Hk) by done.
    case_bool_decide; injection E as <-; [by destruct k|done].
Qed.
Lemma added_ok : pool_ok K V' q.
Proof. split; [apply added_index|apply added_links|apply added_acyclic|apply added_desc|apply added_anc]. Qed.
End Add.
(** What the caller of [addUnchecked] has checked. Outside of a reorganization [V] and [V']
    are empty; during one the transaction joins those whose children are not linked yet. *)
Record addable (V V' : gset txid) (p : CTxMemPool) (entry : CTxMemPoolEntry) : Prop := {
  ad_fresh : GetHash (e_tx entry) ∉ dom (mapTx p);
  ad_alone : feeDelta entry = 0 /\ alone entry;
  ad_entry : entry_ok entry;
  ad_size : wsum (weight p Size) (dom (mapTx p)) + nTxSize entry < 2 ^ 63;
  ad_ops : wsum (weight p Ops) (dom (mapTx p)) + sigOpCount entry < 2 ^ 31;
  ad_inputs : forall o, o ∈ inputs_of (e_tx entry) -> isSpent p o = false;
  ad_nullifiers : forall nf, nf ∈ nullifiers (e_tx entry) -> nullifierExists p nf = false;
  ad_self : ~ spends_from (e_tx entry) (GetHash (e_tx entry));
  ad_same : forall h, h <> GetHash (e_tx entry) -> h ∈ V' <-> h ∈ V;
  ad_children : forall c e, mapTx p !! c = Some e -> spends_from (e_tx e) (GetHash (e_tx entry)) ->
    GetHash (e_tx entry) ∈ V' /\ c ∉ V';
  ad_parents : forall a, a ∈ dom (mapTx p) -> spends_from (e_tx entry) a -> a ∈ V' -> GetHash (e_tx entry) ∈ V'
}.
Definition extended (p : CTxMemPool) (entry : CTxMemPoolEntry) (p' : CTxMemPool) : Prop :=
  (forall h, core <$> mapTx p' !! h = if bool_decide (h = GetHash (e_tx entry)) then Some (core (with_delta (fee_delta p h) entry)) else core <$> mapTx p !! h) /\ mapDeltas p' = mapDeltas p.
Lemma addUnchecked_ok K V V' p entry (A : gset txid) : pool_ok K V p -> addable V V' p entry -> (forall y, y ∈ A <->
  new_ancestor p (e_tx entry) y) ->
  exists p', addUnchecked p (GetHash (e_tx entry)) entry A = Some p' /\ pool_ok K V' p' /\ extended p entry p' /\
    forall c a, rtc (linked V' p') c a <-> rtc (linked V p) c a \/ (c = GetHash (e_tx entry) /\ a ∈ A).
Proof.
  intros O [Fr Al Ok Hs Ho Hi Hn Se HV Hc Hp] HA. set (n := GetHash (e_tx entry)) in *.
  set (P := pool_parents p (e_tx entry)).
  assert (HAnc : forall y, y ∈ A <-> exists z, z ∈ P /\ rtc (linked V p) z y).
  { intros y. rewrite HA. unfold new_ancestor, P. setoid_rewrite elem_of_pool_parents.
  setoid_rewrite (rtc_parent_of _ V p O). naive_solver. }
  assert (Sub : A ⊆ dom (mapTx p)). { intros y Hy. apply HAnc in Hy as (z & Hz & R). apply (rtc_dom V p z y R). by
  apply elem_of_pool_parents in Hz as [Hz _]. }
  assert (NC : (forall o, o ∈ inputs_of (e_tx entry) -> mapNextTx p !! o = None) /\ (forall nf,
  nf ∈ nullifiers (e_tx entry) -> mapSaplingNullifiers p !! nf = None)).
  { split; intros o H; [specialize (Hi o H)|specialize (Hn o H)]; unfold isSpent, nullifierExists in *;
    rewrite bool_decide_eq_false in *; by apply eq_None_not_Some. }
  assert (Hp' : forall a, a ∈ P -> a ∈ V' -> n ∈ V') by (intros a [H1 H2]%elem_of_pool_parents; by apply Hp).
  pose proof (fun g => added_index p entry A Fr K V g O Al Ok Hs Ho NC) as Ix.
  assert (Ok' : forall g, sums_to p A g -> pool_ok K V' (added_pool p entry A g)) by (intros g Sg;
  apply (added_ok p entry A Fr (links_dom K V p O) (proj2 (proj2 Ok)) Se Sub K V V' g); done).
  set (g0 := fun k => wsum (weight p k) A). set (q := added_pool p entry A g0).
    set (e1 := with_delta (fee_delta p n) entry). assert (Na : n ∉ A) by set_solver.
  assert (Wn : forall k, weight q k n = weight_of k e1) by (intros k; apply added_weight_new).
  assert (Wo : forall k (s : gset txid), n ∉ s -> wsum (weight q k) s = wsum (weight p k) s) by (intros k s;
  by apply (added_wsum p entry A g0)).
  assert (Dq : dom (mapTx q) = {[n]} ∪ dom (mapTx p)) by apply (added_dom p entry A g0).
  destruct (addUnchecked_eval p entry A Fr (links_dom K V p O) (proj2 (proj2 Ok)) Se Sub) as (g & Sg & E).
  - intros a Ha. pose proof (Sub a Ha) as Hd. pose proof Hd as [e E]%elem_of_dom. exists e. split; [done|].
    destruct (descendants_of _ V p O a Hd) as (D & _ & HD). pose proof (descendants_sub V p a D Hd HD) as SD.
    assert (Nd : n ∉ D) by (intros H; by apply Fr, SD).
    assert (St : forall k, k <> Ops -> wrap k (desc_stat k e + gain e1 k) = wrap k (wsum (weight q k) ({[n]} ∪ D))).
    { intros k Nk. rewrite (ok_desc _ _ _ O a e D k E HD Nk), wrap_add_l, wsum_insert, Wn, Wo,
    (wrap_add_r k _ (gain e1 k) (weight_of k e1)) by (done || by apply gain_mod). f_equal. lia. }
    assert (In : a ∈ {[n]} ∪ D) by (apply elem_of_union_r; by apply HD).
    assert (SU : {[n]} ∪ D ⊆ dom (mapTx q)) by (rewrite Dq; set_solver).
    apply (UpdateDescendantState_ok _ _ _ _ _ _ (St Size ltac:(done)) (sum_bounds q (Ix g0) Size _ a ltac:(by right)
    SU In) (St Count ltac:(done)) (sum_bounds q (Ix g0) Count _ a ltac:(by left) SU In)).
  - intros g Sg. fold n. fold e1. assert (St : forall k,
    wrap k (anc_stat k e1 + g k) = wrap k (wsum (weight q k) ({[n]} ∪ A))).
    { intros k. rewrite wsum_insert, Wn, Wo by done. unfold e1.
      rewrite (proj2 (proj1 (with_delta_alone (fee_delta p n) entry (proj1 Al) (proj2 Al)) k)),
      wrap_add_l. by apply wrap_add_r. }
    assert (In : n ∈ {[n]} ∪ A) by set_solver. assert (SU : {[n]} ∪ A ⊆ dom (mapTx q)) by (rewrite Dq; set_solver).
    apply (UpdateAncestorState_ok _ _ _ _ _ _ _ _ (St Size) (sum_bounds q (Ix g0) Size _ n ltac:(by right) SU In) (St
    Count) (sum_bounds q (Ix g0) Count _ n ltac:(by left) SU In) (St Ops) (ops_bounds q (Ix g0) _ SU)).
  - exists (added_pool p entry A g). split; [done|]. split; [by apply Ok'|].
    split; [split; [|done]; intros h; case_bool_decide as H; [subst h; by rewrite added_new|by apply added_core]|].
    intros c a. by apply (added_rtc p entry A Fr (links_dom K V p O) (proj2 (proj2 Ok)) Se Sub K V V' g).
Qed.
Lemma addUnchecked_simple_ok K V V' p entry : pool_ok K V p -> addable V V' p entry -> exists p',
  addUnchecked_simple p (GetHash (e_tx entry)) entry = Some p' /\ pool_ok K V' p' /\ extended p entry p'.
Proof.
  intros O Ad. unfold addUnchecked_simple. destruct (new_ancestors_exact p (links_dom _ V p O) (parents_in _ V p O)
  (GetHash (e_tx entry)) entry) as (A & E & HA).
  - destruct (ad_entry _ _ _ _ Ad) as [H _]. pose proof (ad_size _ _ _ _ Ad).
    pose proof (wsum_nonneg (weight p Size) (dom (mapTx p))) as G.
    specialize (G ltac:(intros; apply entry_weight_nonneg; [apply (ok_index _ _ _ O)|done])). lia.
  - rewrite E. cbn [obind]. destruct (addUnchecked_ok K V V' p entry A O Ad HA) as (p' & E' & O' & X & _).
    by exists p'.
Qed.

(** * Priorities *)

Section Prioritise.
Variables (K : stat -> Prop) (V : gset txid) (p : CTxMemPool) (hash : txid) (dPriorityDelta : spec_float) (nFeeDelta : Z) (e : CTxMemPoolEntry) (A :
  gset txid).
Hypothesis O : pool_ok K V p.
Hypothesis E : mapTx p !! hash = Some e.
Hypothesis HA : forall y, y ∈ A <-> tc (linked V p) hash y.
Abbreviation d := (i64 (fee_delta p hash + nFeeDelta)).
Definition delta_entry : CTxMemPoolEntry := default e (UpdateFeeDelta d e).
(** The pool afterwards. *)
Definition prioritised : CTxMemPool :=
  with_deltas (with_tx p (on A (bump_desc (stat_fun 0 0 nFeeDelta 0)) (<[hash := delta_entry]> (mapTx p)))) (<[hash :=
    (double_add (fst (deltas_of p hash)) dPriorityDelta, d)]> (mapDeltas p)).
Abbreviation q := prioritised.
Lemma hash_not_ancestor : hash ∉ A.
Proof. intros H. apply HA in H. by apply (ok_acyclic _ _ _ O hash). Qed.
Lemma prio_lookup h : h <> hash -> mapTx q !! h = (if bool_decide (h ∈ A) then bump_desc (stat_fun 0 0 nFeeDelta 0)
  else id) <$> mapTx p !! h.
Proof. intros N. cbn [prioritised with_deltas with_tx mapTx]. by rewrite lookup_on, lookup_insert_ne by done. Qed.
Lemma prio_hash : mapTx q !! hash = Some delta_entry.
Proof. cbn [prioritised with_deltas with_tx mapTx].
  rewrite lookup_on, lookup_insert_eq, bool_decide_eq_false_2 by apply hash_not_ancestor. done. Qed.
Lemma prio_dom : dom (mapTx q) = dom (mapTx p).
Proof. cbn [prioritised with_deltas with_tx mapTx]. rewrite dom_on, dom_insert_L.
  assert (hash ∈ dom (mapTx p)) by (apply elem_of_dom; by exists e). set_solver. Qed.
Lemma prio_entry h f : mapTx q !! h = Some f -> exists f0, mapTx p !! h = Some f0 /\ e_tx f = e_tx f0 /\
  nTxSize f = nTxSize f0 /\ sigOpCount f = sigOpCount f0 /\ (forall k, k <> Fee -> anc_stat k f = anc_stat k f0) /\
  (h <> hash -> feeDelta f = feeDelta f0 /\ nFee f = nFee f0).
Proof.
  intros F. destruct (decide (h = hash)) as [->|N];
  [rewrite prio_hash in F; injection F as <-; exists e; split_and!; try done; by intros []|].
  rewrite prio_lookup in F by done. destruct (mapTx p !! h) as [f0|]; [|done]. exists f0. split; [done|].
  case_bool_decide; injection F as <-; split_and!; try done; by intros [].
Qed.
Lemma prio_entry_r h f0 : mapTx p !! h = Some f0 -> exists f, mapTx q !! h = Some f /\ e_tx f = e_tx f0.
Proof. intros F. assert (Hd : h ∈ dom (mapTx q)) by (rewrite prio_dom; apply elem_of_dom; by exists f0).
  apply elem_of_dom in Hd as [f Ef]. destruct (prio_entry h f Ef) as (f1 & F1 & Et & _). exists f. split; [done|].
  congruence. Qed.
Lemma prio_weight k h : k <> Fee \/ h <> hash -> weight q k h = weight p k h.
Proof.
  intros H. unfold weight. destruct (mapTx q !! h) as [f|] eqn:F.
  - destruct (prio_entry h f F) as (f0 & -> & _ & H2 & H3 & _ & H4). destruct k; cbn [weight_of]; try done.
    destruct H as [|N]; [done|]. destruct (H4 N) as [H5 H6]. unfold GetModifiedFee. by rewrite H5, H6.
  - apply not_elem_of_dom in F. rewrite prio_dom in F. by rewrite (not_elem_of_dom_1 _ _ F).
Qed.
Lemma prio_delta_mod x y : (x + (i64 (y + nFeeDelta) - y)) mod 2 ^ 64 = (x + nFeeDelta) mod 2 ^ 64.
Proof. replace (x + (i64 (y + nFeeDelta) - y)) with (i64 (y + nFeeDelta) + (x - y)) by lia.
  rewrite Z.add_mod, i64_mod, <- Z.add_mod by done. f_equal. lia. Qed.
Lemma prio_fee_hash : weight q Fee hash mod 2 ^ 64 = (weight p Fee hash + nFeeDelta) mod 2 ^ 64.
Proof.
  unfold weight. rewrite prio_hash, E. cbn [weight_of]. unfold delta_entry, GetModifiedFee.
    cbn [UpdateFeeDelta default nFee feeDelta]. unfold default, id. cbn [nFee feeDelta].
    rewrite i64_mod, (Z.add_mod (i64 (nFee e + feeDelta e))), i64_mod, <- Z.add_mod by done.
  rewrite (ix_deltas _ (ok_index _ _ _ O) hash e E). unfold default, id.
  rewrite (Z.add_mod (nFee e)), i64_mod, <- Z.add_mod by done. f_equal. lia.
Qed.
Lemma prio_sum k (s : gset txid) : wsum (weight q k) s mod modulus k = (wsum (weight p k) s + (if bool_decide (k = Fee
  /\ hash ∈ s) then nFeeDelta else 0)) mod modulus k.
Proof.
  case_bool_decide as H.
  - destruct H as [-> H]. rewrite (union_difference_L {[hash]} s), !wsum_insert by set_solver.
    rewrite (wsum_ext (weight q Fee) (weight p Fee) (s ∖ {[hash]})) by (intros h Hh; apply prio_weight; right;
    set_solver).
    cbn [modulus]. rewrite Z.add_mod, prio_fee_hash, <- Z.add_mod by done. f_equal. lia.
  - rewrite Z.add_0_r. f_equal. apply wsum_ext. intros h Hh. apply prio_weight.
    destruct (decide (k = Fee)) as [->|]; [|by left]. right. intros ->. by apply H.
Qed.
Lemma prio_spends c a : spends q c a <-> spends p c a.
Proof.
  unfold spends. rewrite prio_dom. split; intros (f & F & Ha & S);
    [destruct (prio_entry c f F) as (f0 & F0 & Et & _); exists f0;
    by rewrite <- Et|destruct (prio_entry_r c f F) as (f1 & F1 & Et); exists f1; by rewrite Et].
Qed.
Lemma prio_linked c a : linked V q c a <-> linked V p c a.
Proof. unfold linked. by rewrite prio_spends. Qed.
Lemma prio_rtc c a : rtc (linked V q) c a <-> rtc (linked V p) c a.
Proof. split; apply (rtc_congruence id); intros x y; apply prio_linked. Qed.
Lemma prio_index : index_ok q.
Proof.
  pose proof (ok_index _ _ _ O) as Ix. assert (W : forall k s, k <> Fee ->
    wsum (weight q k) s = wsum (weight p k) s) by (intros k s N; apply wsum_ext; intros h _; apply prio_weight;
    by left). split.
  - intros h f F. destruct (prio_entry h f F) as (f0 & F0 & Et & Es & Eo & _).
    destruct (ix_key _ Ix h f0 F0) as [Hh He]. unfold entry_ok. by rewrite Et, Es, Eo.
  - rewrite prio_dom, W by done. apply (ix_size _ Ix).
  - rewrite prio_dom, W by done. apply (ix_ops _ Ix).
  - intros o t. cbn [prioritised with_deltas with_tx mapNextTx]. rewrite (ix_next _ Ix).
    split; intros (h & f & F & Et & I); [destruct (prio_entry_r h f F) as (f1 & F1 & Et1); exists h,
    f1; by rewrite Et1|destruct (prio_entry h f F) as (f0 & F0 & Et0 & _); exists h, f0; by rewrite <- Et0].
  - intros o t. cbn [prioritised with_deltas with_tx mapSaplingNullifiers]. rewrite (ix_nullifiers _ Ix).
    split; intros (h & f & F & Et & I); [destruct (prio_entry_r h f F) as (f1 & F1 & Et1); exists h,
    f1; by rewrite Et1|destruct (prio_entry h f F) as (f0 & F0 & Et0 & _); exists h, f0; by rewrite <- Et0].
  - rewrite prio_dom, W by done. apply (ix_total _ Ix).
  - intros h f F. unfold fee_delta, deltas_of. cbn [prioritised with_deltas mapDeltas].
    destruct (decide (h = hash)) as [->|N]; [rewrite prio_hash in F; injection F as <-; by rewrite lookup_insert_eq|].
    rewrite lookup_insert_ne by done. destruct (prio_entry h f F) as (f0 & F0 & _ & _ & _ & _ & H).
    destruct (H N) as [-> _]. by apply (ix_deltas _ Ix).
Qed.
Lemma prio_desc h f D k : mapTx q !! h = Some f -> Descendants V q h D -> k <> Ops ->
  desc_stat k f = wrap k (wsum (weight q k) D).
Proof.
  intros F HD Nk. assert (HD' : Descendants V p h D) by (intros y; rewrite (HD y); apply prio_rtc).
  rewrite (wrap_eq k _ _ (prio_sum k D)). destruct (decide (h = hash)) as [->|N].
  - rewrite prio_hash in F. injection F as <-. pose proof (ok_desc _ _ _ O hash e D k E HD' Nk) as S.
    assert (Hd : hash ∈ D) by (by apply HD'). destruct k; cbn [desc_stat] in S;
    [by rewrite bool_decide_eq_false_2, Z.add_0_r by naive_solver|by rewrite bool_decide_eq_false_2,
    Z.add_0_r by naive_solver| |done].
    rewrite bool_decide_eq_true_2 by done. unfold delta_entry.
    cbn [UpdateFeeDelta default desc_stat nModFeesWithDescendants]. unfold default, id. cbn [nModFeesWithDescendants].
    rewrite S. change i64 with (wrap Fee) at 1 3. rewrite wrap_add_l. apply (wrap_eq Fee). cbn [modulus].
    rewrite (Z.add_mod _ (i64 _)), i64_mod, <- Z.add_mod by done.
    rewrite (ix_deltas _ (ok_index _ _ _ O) hash e E). apply prio_delta_mod.
  - rewrite prio_lookup in F by done. destruct (mapTx p !! h) as [f0|] eqn:F0; [|done].
    pose proof (ok_desc _ _ _ O h f0 D k F0 HD' Nk) as S. case_bool_decide as Ha; injection F as <-.
    + rewrite desc_stat_bump, S, wrap_add_l by done. apply HA in Ha.
      assert (Hd : hash ∈ D) by (apply HD'; by apply tc_rtc). f_equal. f_equal.
      destruct k; cbn [stat_fun]; [by rewrite bool_decide_eq_false_2 by naive_solver|by rewrite bool_decide_eq_false_2
      by naive_solver|by rewrite bool_decide_eq_true_2 by done|done].
    + unfold id. rewrite S, bool_decide_eq_false_2, Z.add_0_r; [done|]. intros [_ Hd]. apply Ha, HA. apply HD' in Hd.
      apply rtc_tc in Hd as [->|]; done.
Qed.
Lemma prioritised_ok : pool_ok (fun k => K k /\ k <> Fee) V q.
Proof.
  split; [apply prio_index| | |apply prio_desc|].
  - destruct (ok_links _ _ _ O) as [D H]. split; [by rewrite prio_dom|]. intros h l Hl.
    destruct (H h l Hl) as [H1 H2]. split; intros y; rewrite prio_linked; [apply H1|apply H2].
  - intros a P. apply (ok_acyclic _ _ _ O a). eapply (tc_congruence id); [|exact P]. intros x y. apply prio_linked.
  - intros h f B k F HB [Hk Nk]. destruct (prio_entry h f F) as (f0 & F0 & _ & _ & _ & Ha & _).
    rewrite (Ha k Nk), (wrap_eq k _ _ (prio_sum k B)), bool_decide_eq_false_2, Z.add_0_r by naive_solver.
    apply (ok_anc _ _ _ O h f0 B k F0); [|done]. intros y. rewrite (HB y). apply prio_rtc.
Qed.
End Prioritise.
Lemma PrioritiseTransaction_ok K V p hash dPriorityDelta nFeeDelta : pool_ok K V p ->
  match mapTx p !! hash with
  | None => exists p', PrioritiseTransaction p hash dPriorityDelta nFeeDelta = Some p' /\ pool_ok K V p'
  | Some e => exists A, (forall y, y ∈ A <-> tc (linked V p) hash y) /\
    PrioritiseTransaction p hash dPriorityDelta nFeeDelta = Some (prioritised p hash dPriorityDelta nFeeDelta e A)
  end.
Proof.
  intros O. unfold PrioritiseTransaction. cbn [with_deltas mapTx]. destruct (mapTx p !! hash) as [e|] eqn:E.
  - set (d := i64 _). unfold modify at 1. cbn [with_deltas mapTx]. rewrite E. cbn [obind UpdateFeeDelta].
    set (e' := mkPoolEntry _ _ _ _ _ _ _ _ _ _ _ _ _ _). set (p1 := with_tx _ _).
    assert (E' : mapTx p1 !! hash = Some e') by (unfold p1; cbn [with_tx mapTx]; apply lookup_insert_eq). rewrite E'.
    cbn [obind]. assert (Hh : hash ∈ dom (mapTx p)) by (apply elem_of_dom; by exists e).
    assert (D1 : dom (mapTx p1) = dom (mapTx p)) by (unfold p1; cbn [with_tx mapTx]; rewrite dom_insert_L;
    set_solver).
    destruct (all_ancestors_exact p1) with (it := hash) (e := e') as (A & EA & HA).
    + rewrite D1. apply (links_dom _ V p O).
    + intros c a H. rewrite D1. by apply (parents_in _ V p O c a).
    + by rewrite D1.
    + by apply (size_small p (ok_index _ _ _ O) hash e).
    + rewrite EA. cbn [obind]. assert (HA' : forall y, y ∈ A <-> tc (linked V p) hash y) by (intros y; rewrite HA;
      apply (tc_parent_of _ V p O)). exists A. split; [done|].
      assert (Nh : hash ∉ A) by (intros H; apply HA' in H; by apply (ok_acyclic _ _ _ O hash)).
      rewrite (each_modify _ (bump_desc (stat_fun 0 0 nFeeDelta 0))); [by rewrite in_order_set|apply NoDup_in_order|].
      intros a Ha%elem_of_in_order. assert (Na : a <> hash) by (by intros ->). pose proof (proj1 (HA' a) Ha) as T.
      assert (Hd : a ∈ dom (mapTx p)) by (apply tc_first in T as (z & L & R); apply (rtc_dom V p z a R);
      by apply (linked_dom V p hash z)).
      pose proof Hd as [f F]%elem_of_dom. exists f.
        split; [unfold p1; cbn [with_tx mapTx]; by rewrite lookup_insert_ne|].
        destruct (descendants_of _ V p O a Hd) as (D & _ & HD). pose proof (descendants_sub V p a D Hd HD) as SD.
        assert (In : a ∈ D) by (by apply HD).
      assert (St : forall k, k <> Ops -> wrap k (desc_stat k f + 0) = wrap k (wsum (weight p k) D)) by (intros k Nk;
      rewrite (ok_desc _ _ _ O a f D k F HD Nk), wrap_add_l, Z.add_0_r; done).
      apply (UpdateDescendantState_ok _ _ _ _ _ _ (St Size ltac:(done)) (sum_bounds p (ok_index _ _ _ O) Size _ a
      ltac:(by right) SD In) (St Count ltac:(done)) (sum_bounds p (ok_index _ _ _ O) Count _ a ltac:(by left) SD In)).
  - eexists. split; [reflexivity|]. destruct O as [[I1 I2 I3 I4 I5 I6 I7] L Ac Ds An].
    split; [split| | | |]; try done. intros h f F. unfold fee_delta, deltas_of. cbn [with_deltas mapDeltas].
    rewrite lookup_insert_ne; [by apply I7|]. intros <-. cbn [with_deltas mapTx] in F. congruence.
Qed.
(** The ancestor fees of the descendants are not updated. *)
Lemma PrioritiseTransaction_stale K V p hash dPriorityDelta nFeeDelta c : pool_ok K V p -> K Fee -> tc (linked V p) c hash ->
  nFeeDelta mod 2 ^ 64 <> 0 ->
  exists p' f B, PrioritiseTransaction p hash dPriorityDelta nFeeDelta = Some p' /\ mapTx p' !! c = Some f /\ Ancestors V p' c B /\
    nModFeesWithAncestors f <> i64 (wsum (weight p' Fee) B).
Proof.
  intros O HK T Nz. assert (Hh : hash ∈ dom (mapTx p)) by (clear - T; induction T as [x y L|];
  [by apply (linked_dom V p x y)|done]). pose proof Hh as [e E]%elem_of_dom. pose proof (PrioritiseTransaction_ok K V
  p hash dPriorityDelta nFeeDelta O) as S. rewrite E in S. destruct S as (A & HA & Ep).
  assert (Hc : c ∈ dom (mapTx p)) by (apply tc_first in T as (z & L & _); by apply (linked_dom V p c z)).
  pose proof Hc as [f0 F0]%elem_of_dom. assert (Nc : c <> hash) by (intros ->; by apply (ok_acyclic _ _ _ O hash)).
  destruct (ancestors_of _ V p O c f0 F0) as (B0 & _ & HB0).
  assert (HB : Ancestors V p c ({[c]} ∪ B0)) by (intros y; rewrite elem_of_union, elem_of_singleton, HB0, rtc_tc;
  naive_solver). set (B := {[c]} ∪ B0) in *.
  assert (Nk : c ∉ A) by (intros H; apply HA in H; apply (ok_acyclic _ _ _ O hash); by eapply tc_trans).
  pose proof (prio_lookup p hash dPriorityDelta nFeeDelta e A c Nc) as F. rewrite F0, bool_decide_eq_false_2 in F by done.
  exists (prioritised p hash dPriorityDelta nFeeDelta e A), f0, B. split; [done|]. split; [done|].
    split; [intros y; rewrite (HB y); symmetry; by apply (prio_rtc K V p hash dPriorityDelta nFeeDelta e A O E HA)|].
    pose proof (ok_anc _ _ _ O c f0 B Fee F0 HB HK) as Sf. cbn [anc_stat] in Sf. rewrite Sf.
  change i64 with (wrap Fee). rewrite (wrap_eq Fee _ _ (prio_sum K V p hash dPriorityDelta nFeeDelta e A O E HA Fee B)),
    bool_decide_eq_true_2 by (split; [done|]; apply HB; by apply tc_rtc). intros Eq. apply Nz.
    apply (f_equal (fun x => x mod modulus Fee)) in Eq. rewrite !wrap_mod in Eq. cbn [modulus] in Eq.
  replace nFeeDelta with ((wsum (weight p Fee) B + nFeeDelta) - wsum (weight p Fee) B) by lia.
    rewrite Zminus_mod, <- Eq, Z.sub_diag. done.
Qed.

(** * Limits *)

Section Limits.
Variables (K : stat -> Prop) (V : gset txid) (p : CTxMemPool) (lim : Limits).
Hypothesis O : pool_ok K V p.
Abbreviation U := (dom (mapTx p)).
Lemma set_size_small (s : gset txid) : s ⊆ U -> 0 <= set_size s < 2 ^ 63.
Proof.
  intros Sub. split; [unfold set_size; lia|]. rewrite <- wsum_one, (wsum_ext _ (weight p Count)).
  - destruct (set_choose_or_empty s) as [[x Hx]|E];
    [by apply (sum_bounds p (ok_index _ _ _ O) Count s x); [left| |]|]. apply leibniz_equiv in E. by rewrite E.
  - intros a Ha. apply Sub, elem_of_dom in Ha as [e E]. unfold weight. by rewrite E.
Qed.
Lemma set_size_union (s t : gset txid) : s ## t -> set_size (s ∪ t) = set_size s + set_size t.
Proof. intros D. unfold set_size. rewrite size_union by done. lia. Qed.
Lemma stage_parents_count seen ps : seen ⊆ U -> (forall x, x ∈ ps -> x ∈ U) -> forall stage s, stage ⊆ U ->
  stage_parents lim seen ps stage = inr s ->
  (ps = [] /\ s = stage) \/ set_size s + set_size seen + 1 <= limitAncestorCount lim.
Proof.
  intros Hs. induction ps as [|x ps IH]; intros Hp stage s Hst; cbn [stage_parents]; [intros [= <-]; by left|].
  set (st := if bool_decide (x ∈ seen) then stage else {[x]} ∪ stage).
  assert (Hst' : st ⊆ U) by (unfold st; case_bool_decide; [done|]; assert (x ∈ U) by (apply Hp; set_solver);
  set_solver).
  destruct (Z.gtb_spec (u64 (set_size st + set_size seen + 1)) (limitAncestorCount lim)) as [|L]; [done|]. intros E.
  right. destruct (IH ltac:(set_solver) st s Hst' E) as [[-> ->]|H]; [|done].
  pose proof (set_size_small st Hst'). pose proof (set_size_small seen Hs). by rewrite u64_small in L by lia.
Qed.
(** What an ancestor allows. *)
Definition allows (n : Z) (a : txid) : Prop := exists e, mapTx p !! a = Some e /\
  nSizeWithDescendants e + n <= limitDescendantSize lim /\ nCountWithDescendants e + 1 <= limitDescendantCount lim.
Lemma desc_small h e : mapTx p !! h = Some e -> 0 < nSizeWithDescendants e < 2 ^ 63 /\
  0 < nCountWithDescendants e < 2 ^ 63.
Proof.
  intros E. assert (Hh : h ∈ U) by (apply elem_of_dom; by exists e).
  destruct (descendants_of _ V p O h Hh) as (D & _ & HD). pose proof (descendants_sub V p h D Hh HD) as SD.
  assert (In : h ∈ D) by (by apply HD).
  pose proof (ok_desc _ _ _ O h e D Size E HD ltac:(done)) as S1.
    pose proof (ok_desc _ _ _ O h e D Count E HD ltac:(done)) as S2.
    pose proof (sum_bounds p (ok_index _ _ _ O) Size D h ltac:(by right) SD In).
    pose proof (sum_bounds p (ok_index _ _ _ O) Count D h ltac:(by left) SD In).
  cbn [desc_stat wrap] in S1, S2. rewrite u64_small in S1 by lia. rewrite u64_small in S2 by lia. rewrite S1, S2.
    done.
Qed.
Lemma wsum_size_bounds (s : gset txid) : s ⊆ U -> 0 <= wsum (weight p Size) s < 2 ^ 63.
Proof.
  intros Sub. assert (Nn : forall a, 0 <= weight p Size a) by (intros a; by apply entry_weight_nonneg;
  [apply (ok_index _ _ _ O)|]). split; [by apply wsum_nonneg|].
  pose proof (wsum_mono (weight p Size) s U Sub (fun a _ => Nn a)). pose proof (ix_size _ (ok_index _ _ _ O)). lia.
Qed.
Lemma ancestors_walk_limits (n : Z) : 0 < n < 2 ^ 63 -> forall fuel stage seen A, stage ## seen -> stage ⊆ U ->
  seen ⊆ U ->
  (stage = ∅ /\ seen = ∅) \/ set_size stage + set_size seen + 1 <= limitAncestorCount lim -> (seen = ∅ \/
    n + wsum (weight p Size) seen <= limitAncestorSize lim) -> (forall a, a ∈ seen -> allows n a) ->
  ancestors_walk fuel p lim n stage seen (n + wsum (weight p Size) seen) = Some (inr A) ->
  (A = ∅ \/ (set_size A + 1 <= limitAncestorCount lim /\ n + wsum (weight p Size) A <= limitAncestorSize lim)) /\
    forall a, a ∈ A -> allows n a.
Proof.
  intros Hn. induction fuel as [|fuel IH]; intros stage seen A Dj S1 S2 Hc Hsz Hal; cbn [ancestors_walk]; [done|].
  destruct (in_order stage) as [|it rest] eqn:Eo.
  - intros [= <-]. split; [|done]. apply in_order_nil in Eo as ->. destruct Hc as [[_ ->]|Hc]; [by left|].
    change (set_size ∅) with 0 in Hc. destruct Hsz as [->|Hsz]; [by left|]. right. split; [lia|done].
  - assert (Hi : it ∈ stage) by (apply elem_of_in_order; rewrite Eo; set_solver). intros H.
    apply obind_Some in H as (e & E & H). assert (Ns : it ∉ seen) by (clear - Dj Hi; set_solver).
    assert (SU : {[it]} ∪ seen ⊆ U) by (clear - Hi S1 S2; set_solver).
    assert (ST : stage ∖ {[it]} ⊆ U) by (clear - S1; set_solver). destruct (desc_small it e E) as [B1 B2].
    assert (Wi : weight p Size it = nTxSize e) by (unfold weight; by rewrite E).
    pose proof (wsum_size_bounds ({[it]} ∪ seen) SU) as Bs.
    assert (Et : u64 (n + wsum (weight p Size) seen + nTxSize e) = n + wsum (weight p Size) ({[it]} ∪ seen)) by
    (rewrite wsum_insert in * by done; rewrite u64_small by lia; lia). rewrite Et in H.
    destruct (Z.gtb_spec (u64 (nSizeWithDescendants e + n)) (limitDescendantSize lim)) as [|L1]; [done|].
    destruct (Z.gtb_spec (u64 (nCountWithDescendants e + 1)) (limitDescendantCount lim)) as [|L2]; [done|].
    destruct (Z.gtb_spec (n + wsum (weight p Size) ({[it]} ∪ seen)) (limitAncestorSize lim)) as [|L3]; [done|].
    rewrite u64_small in L1, L2 by lia.
    apply obind_Some in H as (ps & Ep & H). destruct (stage_parents _ _ _ _) as [|stage'] eqn:Es; [done|].
    pose proof (stage_parents_spec lim ({[it]} ∪ seen) (in_order ps) (stage ∖ {[it]})) as Sp.
    rewrite Es, in_order_set in Sp.
    assert (Pu : ps ⊆ U). { intros a Ha. unfold GetMemPoolParents in Ep. apply obind_Some in Ep as (l & El & [= <-]).
    apply (parents_in _ V p O it a). by exists l. }
    apply (IH stage' ({[it]} ∪ seen) A); [rewrite Sp; clear - Dj; set_solver|rewrite Sp; clear - ST
    Pu; set_solver|done| |by right| |done].
    + right. assert (Pu' : forall x, x ∈ in_order ps -> x ∈ U) by (intros x Hx%elem_of_in_order; by apply Pu).
      destruct (stage_parents_count ({[it]} ∪ seen) (in_order ps) SU Pu' (stage ∖ {[it]}) stage' ST Es) as [[_
      ->]|Hc']; [|done]. destruct Hc as [[-> _]|Hc]; [clear - Hi; set_solver|].
      rewrite set_size_union by (clear - Ns; set_solver).
      assert (Esz : set_size stage = set_size (stage ∖ {[it]}) + set_size {[it]}) by (rewrite <- set_size_union by
      (clear; set_solver); f_equal; apply set_eq; intros y; destruct (decide (y = it)) as [->|Ny];
      [clear - Hi; set_solver|clear - Ny; set_solver]). lia.
    + intros a [->%elem_of_singleton|Ha]%elem_of_union; [by exists e|by apply Hal].
Qed.
Lemma search_parents_count ins : forall acc s, acc ⊆ U -> search_parents p lim ins acc = inr s -> s ⊆ U /\ (s = acc \/
  set_size s + 1 <= limitAncestorCount lim).
Proof.
  induction ins as [|i ins IH]; intros acc s Ha; cbn [search_parents]; [intros [= <-]; split; [done|by left]|].
    destruct (mapTx p !! out_hash (prevout i)) eqn:E; [|by apply IH].
    assert (Hu : {[out_hash (prevout i)]} ∪ acc ⊆ U) by (assert (out_hash (prevout i) ∈ U) by (apply elem_of_dom;
    by eexists); set_solver).
  destruct (Z.gtb_spec (u64 (set_size ({[out_hash (prevout i)]} ∪ acc) + 1)) (limitAncestorCount lim)) as [|L];
  [done|]. intros Es. destruct (IH _ _ Hu Es) as [Su [->|H]]; (split; [done|right]); [|done].
  pose proof (set_size_small _ Hu). by rewrite u64_small in L by lia.
Qed.
Lemma limited_ancestors it entry A : 0 < nTxSize entry < 2 ^ 63 ->
  CalculateMemPoolAncestors p it entry lim true = Some (inr A) ->
  (A = ∅ \/ (set_size A + 1 <= limitAncestorCount lim /\
    nTxSize entry + wsum (weight p Size) A <= limitAncestorSize lim)) /\ forall a, a ∈ A -> allows (nTxSize entry) a.
Proof.
  intros Hn. unfold CalculateMemPoolAncestors. cbn [obind].
  destruct (search_parents p lim (vin (e_tx entry)) ∅) as [|ps] eqn:Es; [done|].
  destruct (search_parents_count (vin (e_tx entry)) ∅ ps ltac:(set_solver) Es) as [Su Hc].
  replace (nTxSize entry) with (nTxSize entry + wsum (weight p Size) ∅) at 2 by (rewrite wsum_empty; lia). intros E.
    apply (ancestors_walk_limits (nTxSize entry) Hn _ ps ∅ A) in E;
    [done|set_solver|done|set_solver| |by left|set_solver]. destruct Hc as [->|Hc]; [by left|right].
    change (set_size ∅) with 0. lia.
Qed.
End Limits.
End Adding.
