(* ===== verification/MempoolReorg.v ===== *)
(** A reorganization returns the transactions of disconnected blocks to the memory pool;
    [UpdateTransactionsFromBlock] links the children they had in the pool and completes the
    statistics. *)
From Stdlib Require Import ZArith Lia List Bool.
From stdpp Require Import base list gmap sets sorting relations.
From S2P Require Import Prelude Serialize Script Interpreter Transaction Codecs Compressor Coins Mempool MempoolInv MempoolOps MempoolAdd.
Import ListNotations.
Local Open Scope Z_scope.
Local Open Scope passion_scope.
#[local] Remove Hints finite.finite_countable : typeclass_instances.

Section Reorg.
Context {abi : Abi} {crypto : ScriptCrypto}.
Variables (K : stat -> Prop) (V : gset txid) (p0 : CTxMemPool).
Hypothesis HK : forall k, k <> Fee -> K k.
Hypothesis O : pool_ok K V p0.
(** The parents of a returned transaction that are in the pool were returned too. *)
Hypothesis Up : forall x a, x ∈ V -> spends p0 x a -> a ∈ V.
Abbreviation U := (dom (mapTx p0)).
Abbreviation S := (spends p0).
(** [T] is processed: its children are linked, and counted on both sides. *)
Definition half (T : gset txid) (c a : txid) : Prop := S c a /\ (a ∈ V -> c ∈ V \/ a ∈ T).
Definition counted (T : gset txid) (d a : txid) : Prop := rtc S d a /\ (a ∈ V -> d ∈ V \/ a ∈ T).
Record relinked (T : gset txid) (p : CTxMemPool) (cached : gmap txid (gset txid)) : Prop := {
  rl_core : same_core p p0;
  rl_rest : same_rest p p0;
  rl_dom : dom (mapLinks p) = U;
  rl_links : forall h l, mapLinks p !! h = Some l -> (forall a, a ∈ lk_parents l <-> half T h a) /\ (forall c,
    c ∈ lk_children l <-> half T c h);
  rl_desc : forall h e D k, mapTx p !! h = Some e -> (forall y, y ∈ D <-> counted T y h) -> k <> Ops ->
    desc_stat k e = wrap k (wsum (weight p0 k) D);
  rl_anc : forall h e A k, mapTx p !! h = Some e -> (forall y, y ∈ A <-> counted T h y) -> K k ->
    anc_stat k e = wrap k (wsum (weight p0 k) A);
  rl_cached : forall x s, cached !! x = Some s -> x ∈ T /\ forall d, d ∈ s <-> d ∉ V /\ rtc S d x
}.
Lemma S_dom c a : S c a -> c ∈ U /\ a ∈ U.
Proof. intros (e & E & D & _). split; [|done]. apply elem_of_dom. by exists e. Qed.
Lemma S_rtc_dom c a : rtc S c a -> (c ∈ U -> a ∈ U) /\ (a ∈ U -> c ∈ U).
Proof. induction 1 as [x|x y z H _ IH]; [done|]. pose proof (S_dom x y H). naive_solver. Qed.
Lemma Up_rtc x a : rtc S x a -> x ∈ V -> a ∈ V.
Proof. induction 1 as [x|x y z H _ IH]; [done|]. intros Hx. apply IH. by apply (Up x y). Qed.
(** Before the first round. *)
Lemma linked_rtc d a : rtc (linked V p0) d a <-> counted ∅ d a.
Proof.
  split.
  - induction 1 as [x|x y z [H I] _ [IH1 IH2]]; [split; [done|by left]|]. split; [by eapply rtc_l|]. intros Hz. left.
    destruct (IH2 Hz) as [Hy|]; [by apply I|set_solver].
  - intros [P H]. induction P as [x|x y z L P IH]; [done|].
    assert (I : y ∈ V -> x ∈ V) by (intros Hy; pose proof (Up_rtc y z P Hy) as Hz; by destruct (H Hz); [|set_solver]).
    eapply rtc_l; [by split|]. apply IH. intros Hz. left. destruct (H Hz) as [Hx|]; [|set_solver]. by apply (Up x y).
Qed.
Lemma relinked_start : relinked ∅ p0 ∅.
Proof.
  split; [done|by split_and!|apply (links_dom _ V p0 O)| | | |done].
  - intros h l Hl. destruct (ok_links _ _ _ O) as [_ LK]. destruct (LK h l Hl) as [H1 H2].
    split; intros y; [rewrite H1|rewrite H2]; unfold half, linked; set_solver.
  - intros h e D k E HD Nk. apply (ok_desc _ _ _ O h e D k E); [|done]. intros y. by rewrite HD, linked_rtc.
  - intros h e A k E HA Hk. apply (ok_anc _ _ _ O h e A k E); [|done]. intros y. by rewrite HA, linked_rtc.
Qed.
(** And after the last. *)
Lemma acyclic_spends a : ~ tc S a a.
Proof.
  intros P. apply (ok_acyclic _ _ _ O a). destruct (decide (a ∈ V)) as [Ha|Ha].
  - apply tc_first in P as (z & L & R). apply tc_first. exists z. split; [by split|]. apply linked_rtc.
    split; [done|]. intros _. left. by apply (Up a z).
  - apply tc_first in P as (z & L & R). assert (Nz : z ∉ V) by (intros Hz; by apply Ha, (Up_rtc z a R)).
    apply tc_first. exists z. split; [by split|]. apply linked_rtc. by split.
Qed.
Lemma relinked_end T p cached : relinked T p cached -> (forall h, h ∈ V -> h ∈ U -> h ∈ T) -> pool_ok K ∅ p.
Proof.
  intros R Al. pose proof (rl_core _ _ _ R) as C. pose proof (same_core_sym _ _ C) as C'.
  assert (L : forall c a, linked ∅ p c a <-> S c a).
  { intros c a. split; [intros [H _]; by apply (same_core_spends p p0)|]. intros H.
    split; [by apply (same_core_spends p0 p)|set_solver]. }
  assert (Hf : forall c a, half T c a <-> S c a). { intros c a. split; [by intros [H _]|]. intros H. split;
  [done|]. intros Ha. right. apply Al; [done|]. by apply (S_dom c a). }
  assert (Rt : forall c a, rtc (linked ∅ p) c a <-> rtc S c a) by (intros c a; split; apply (rtc_congruence id);
  intros x y; apply L). split.
  - apply (index_ok_frame p0); [apply (ok_index _ _ _ O)|done|]. destruct (rl_rest _ _ _ R) as (R1 & R2 & R3 & R4).
    by split_and!.
  - split; [by rewrite (rl_dom _ _ _ R), (same_core_dom p p0 C)|]. intros h l Hl.
    destruct (rl_links _ _ _ R h l Hl) as [H1 H2]. split; intros y; [rewrite H1|rewrite H2]; by rewrite Hf, L.
  - intros a P. apply (acyclic_spends a). eapply (tc_congruence id); [|exact P]. intros x y. apply L.
  - intros h e D k E HD Nk. rewrite (same_core_wsum p p0) by done. apply (rl_desc _ _ _ R h e D k E); [|done].
    intros y. rewrite (HD y), Rt. unfold counted. split; [|by intros [? _]]. intros P. split; [done|]. intros Hh.
    right. apply Al; [done|]. rewrite <- (same_core_dom p p0 C). apply elem_of_dom. by exists e.
  - intros h e A k E HA Hk. rewrite (same_core_wsum p p0) by done. apply (rl_anc _ _ _ R h e A k E); [|done].
    intros y. rewrite (HA y), Rt. unfold counted. split; [|by intros [? _]]. intros P. split; [done|]. intros Hh.
    right. apply Al; [done|]. apply (S_rtc_dom h y P). rewrite <- (same_core_dom p p0 C). apply elem_of_dom.
    by exists e.
Qed.

(** ** The walk *)

Section Round.
Variables (T : gset txid) (x : txid) (cached : gmap txid (gset txid)).
Hypothesis Hx : x ∈ V.
Hypothesis Nx : x ∉ T.
Hypothesis Hxu : x ∈ U.
Hypothesis Tc : forall t y, t ∈ {[x]} ∪ T -> y ∈ V -> S y t -> y ∈ T.
Hypothesis Hc : forall z s, cached !! z = Some s -> z ∈ T /\ forall d, d ∈ s <-> d ∉ V /\ rtc S d z.
Lemma below_processed z : rtc S z x -> z ∈ V -> z ∈ {[x]} ∪ T.
Proof.
  assert (G : forall z w, rtc S z w -> w ∈ {[x]} ∪ T -> z ∈ V -> z ∈ {[x]} ∪ T);
  [|intros P; apply (G z x P); set_solver].
  induction 1 as [|a b c H _ IH]; [done|]. intros Hw Ha. apply elem_of_union_r. apply (Tc b a); [|done|done].
    apply IH; [done|]. by apply (Up a b).
Qed.
Lemma walk_children_spec cs : forall stage all stage' all', walk_children cached cs stage all = (stage', all') ->
  all ⊆ all' /\ stage ⊆ stage' /\ (forall y, y ∈ stage' -> y ∈ stage \/ (y ∈ cs /\ y ∉ all)) /\ (forall y, y ∈ all' ->
    y ∈ all \/ exists c s, c ∈ cs /\ cached !! c = Some s /\ y ∈ s /\ s ⊆ all') /\
  (forall c, c ∈ cs -> c ∈ all' \/ c ∈ stage' \/ exists s, cached !! c = Some s /\ s ⊆ all').
Proof.
  induction cs as [|c cs IH]; intros stage all stage' all'; cbn [walk_children];
    [intros [= <- <-]; split_and!; set_solver|]. destruct (cached !! c) as [s|] eqn:E.
  - intros H. destruct (IH _ _ _ _ H) as (H1 & H2 & H3 & H4 & H5). assert (Hs : s ⊆ all') by (clear - H1; set_solver).
    split; [clear - H1; set_solver|]. split; [done|].
    split; [intros y Hy; destruct (H3 y Hy) as [|[K1 K2]];
    [by left|right; split; [apply elem_of_cons; by right|clear - K2; set_solver]]|]. split.
    + intros y Hy. destruct (H4 y Hy) as [[Ha|Ha]%elem_of_union|(c' & s' & Hc' & R)];
      [by left|right; exists c, s; split; [apply elem_of_cons; by left|done]|right; exists c', s'; split;
      [apply elem_of_cons; by right|done]].
    + intros c' [->|Hc']%elem_of_cons; [right; right; by exists s|by apply H5].
  - case_bool_decide as Hin; intros H; destruct (IH _ _ _ _ H) as (H1 & H2 & H3 & H4 & H5).
    + split; [done|]. split; [done|]. split; [intros y Hy; destruct (H3 y Hy) as [|[? ?]]; [by
      left|right; split; [apply elem_of_cons; by right|done]]|].
      split; [intros y Hy; destruct (H4 y Hy) as [|(c' & s' & Hc' & R)];
      [by left|right; exists c', s'; split; [apply elem_of_cons; by right|done]]|].
      intros c' [->|Hc']%elem_of_cons; [left; by apply H1|by apply H5].
    + split; [done|]. split; [clear - H2; set_solver|].
      split; [intros y Hy; destruct (H3 y Hy) as [[->%elem_of_singleton|]%elem_of_union|[? ?]];
      [right; split; [apply elem_of_cons; by left|done]|by left|right; split; [apply elem_of_cons; by right|done]]|].
      split; [intros y Hy; destruct (H4 y Hy) as [|(c' & s' & Hc' & R)];
      [by left|right; exists c', s'; split; [apply elem_of_cons; by right|done]]|].
      intros c' [->|Hc']%elem_of_cons; [right; left; clear - H2; set_solver|by apply H5].
Qed.
Variable p : CTxMemPool.
Hypothesis Dp : dom (mapTx p) = U.
(** The links of everything below [x] are complete. *)
Hypothesis Hl : forall z, rtc S z x -> exists l, mapLinks p !! z = Some l /\ forall c, c ∈ lk_children l <-> S c z.
Record walked (popped stage all : gset txid) : Prop := {
  wk_stage : forall y, y ∈ stage -> tc S y x /\ y ∉ popped;
  wk_all : forall y, y ∈ all -> tc S y x;
  wk_popped : popped ⊆ all;
  wk_first : forall c, S c x -> c ∈ all \/ c ∈ stage;
  wk_next : forall z c, z ∈ popped -> S c z -> c ∈ all \/ c ∈ stage \/ exists s, cached !! c = Some s /\ s ⊆ all;
  wk_cached : forall z, z ∈ all -> z ∉ popped -> exists c s, cached !! c = Some s /\ z ∈ s /\ s ⊆ all
}.
(** Everything below [x] outside [V] is found. *)
Lemma walked_end popped all : walked popped ∅ all -> forall d, d ∉ V -> d ∈ all <-> rtc S d x.
Proof.
  intros W d Nd. split; [intros H; by apply tc_rtc, (wk_all _ _ _ W)|]. intros P.
  assert (G : forall z, tc S z x -> z ∈ all \/ exists c s, cached !! c = Some s /\ s ⊆ all /\ rtc S z c).
  { assert (G : forall z w, tc S z w -> w = x -> z ∈ all \/ exists c s, cached !! c = Some s /\ s ⊆ all /\ rtc S z c);
    [|intros z Q; by apply (G z x)]. induction 1 as [z y H|z y w H Q IH]; intros ->.
    - destruct (wk_first _ _ _ W z H) as [|]; [by left|set_solver].
    - destruct (IH eq_refl) as [Hy|(c & s & E & Ss & R)];
      [|right; exists c, s; split_and!; [done|done|by eapply rtc_l]]. destruct (decide (y ∈ popped)) as [Hp|Np].
      + destruct (wk_next _ _ _ W y z Hp H) as [|[|(s & E & Ss)]]; [by left|set_solver|]. right. exists z, s.
        by split_and!.
      + destruct (wk_cached _ _ _ W y Hy Np) as (c & s & E & Ys & Ss). right. exists c, s. split_and!; [done|done|].
        eapply rtc_l; [exact H|]. by apply (Hc c s E). }
  apply rtc_tc in P as [->|P]; [done|]. destruct (G d P) as [|(c & s & E & Ss & R)]; [done|]. apply Ss, (Hc c s E).
  done.
Qed.
Lemma update_walk_spec : forall fuel popped stage all, walked popped stage all ->
  (base.size (U ∖ popped) < fuel)%nat -> exists all' popped', update_walk fuel p cached stage all = Some all' /\
  walked popped' ∅ all'.
Proof.
  induction fuel as [|fuel IH]; intros popped stage all W L; [lia|]. cbn [update_walk].
    destruct (in_order stage) as [|cit rest] eqn:E.
  - apply in_order_nil in E as ->. by exists all, popped.
  - assert (Hi : cit ∈ stage) by (apply elem_of_in_order; rewrite E; set_solver).
    destruct (wk_stage _ _ _ W cit Hi) as [Ht Np]. destruct (Hl cit (tc_rtc _ _ Ht)) as (l & El & Lc).
    unfold GetMemPoolChildren. rewrite El. cbn [obind].
    destruct (walk_children _ _ _ _) as [stage' all'] eqn:Ew.
    destruct (walk_children_spec _ _ _ _ _ Ew) as (H1 & H2 & H3 & H4 & H5). setoid_rewrite elem_of_in_order in H3.
    setoid_rewrite elem_of_in_order in H4. setoid_rewrite elem_of_in_order in H5. setoid_rewrite Lc in H3.
    setoid_rewrite Lc in H4. setoid_rewrite Lc in H5.
    assert (Cu : cit ∈ U) by (apply (S_rtc_dom cit x (tc_rtc _ _ Ht)); done).
    apply (IH ({[cit]} ∪ popped) stage' all'); [|by apply measure_step].
    assert (Hall : all ⊆ all') by (clear - H1; set_solver). split.
    + intros y Hy. destruct (H3 y Hy) as [[Hs Nc]%elem_of_difference|[Hs Na]].
      * destruct (wk_stage _ _ _ W y Hs) as [Q N]. split; [done|]. clear - N Nc. set_solver.
      * split; [by eapply tc_l|]. pose proof (wk_popped _ _ _ W) as Pp. clear - Na Pp. set_solver.
    + intros y Hy. destruct (H4 y Hy) as [[->%elem_of_singleton|Ha]%elem_of_union|(c & s & Hcs & Ec & Ys & _)];
      [done|by apply (wk_all _ _ _ W)|]. apply (Hc c s Ec) in Ys as [_ R]. eapply tc_rtc_l; [exact R|].
      by eapply tc_l.
    + pose proof (wk_popped _ _ _ W) as Pp. clear - Pp H1. set_solver.
    + intros c Sc. destruct (wk_first _ _ _ W c Sc) as [Ha|Hs]; [left; by apply Hall|].
      destruct (decide (c = cit)) as [->|N]; [left; clear - H1; set_solver|right; clear - H2 Hs N; set_solver].
    + intros z c Hz Sc. apply elem_of_union in Hz as [->%elem_of_singleton|Hz]; [by apply H5|].
      destruct (wk_next _ _ _ W z c Hz Sc) as [Ha|[Hs|(s & Es & Ss)]];
      [left; by apply Hall| |right; right; exists s; split; [done|by etrans]].
      destruct (decide (c = cit)) as [->|N]; [left; clear - H1; set_solver|right; left; clear - H2 Hs N; set_solver].
    + intros z Hz Nz. destruct (H4 z Hz) as [[->%elem_of_singleton|Ha]%elem_of_union|(c & s & _ & Ec & Zs & Ss)];
      [clear - Nz; set_solver| |by exists c, s]. destruct (wk_cached _ _ _ W z Ha ltac:(clear - Nz;
      set_solver)) as (c & s & Ec & Zs & Ss). exists c, s. split_and!; [done|done|by etrans].
Qed.
Lemma update_walk_found stage : (forall c, c ∈ stage <-> S c x) -> exists all,
  update_walk (Datatypes.S (base.size (mapTx p))) p cached stage ∅ = Some all /\ (forall d, d ∈ all -> tc S d x) /\
  forall d, d ∉ V -> d ∈ all <-> rtc S d x.
Proof.
  intros Hs. destruct (update_walk_spec (Datatypes.S (base.size (mapTx p))) ∅ stage ∅) as (all & popped & E & W).
  - split; [intros y Hy; split; [by apply tc_once, Hs|set_solver]|set_solver|set_solver|intros c Sc; right;
    by apply Hs|set_solver|set_solver].
  - rewrite difference_empty_L, <- Dp, size_dom. lia.
  - exists all. split; [done|]. split; [apply (wk_all _ _ _ W)|]. by apply (walked_end popped).
Qed.
End Round.

(** ** Linking the children *)

Lemma elem_of_next_of q h t : t ∈ next_of q h <-> exists o, mapNextTx q !! o = Some t /\ out_hash o = h.
Proof.
  unfold next_of. rewrite list_elem_of_fmap. split.
  - intros ([o t'] & -> & H). rewrite merge_sort_Permutation, list_elem_of_filter, elem_of_map_to_list in H.
    destruct H as [H1 H2]. by exists o.
  - intros (o & E & H). exists (o, t). split; [done|].
    rewrite merge_sort_Permutation, list_elem_of_filter, elem_of_map_to_list. done.
Qed.
(** The links of [p] with the new children [N] of [x]. *)
Definition with_children (p : CTxMemPool) (x : txid) (N : gset txid) (m : gmap txid TxLinks) : Prop :=
  forall h, m !! h = (fun l => mkLinks (if bool_decide (h ∈ N) then {[x]} ∪ lk_parents l else lk_parents l) (if
    bool_decide (h = x) then N ∪ lk_children l else lk_children l)) <$> mapLinks p !! h.
Lemma with_children_add p x c N m : x <> c -> x ∈ dom (mapLinks p) -> c ∈ dom (mapLinks p) -> with_children p x N m ->
  exists m', UpdateParent (UpdateChild (with_links p m) x c true) c x true = with_links p m' /\
    with_children p x ({[c]} ∪ N) m'.
Proof.
  intros Ne [lx Ex]%elem_of_dom [lc Ec]%elem_of_dom W. unfold UpdateParent, UpdateChild, links_of.
  cbn [mapLinks with_links]. rewrite (W x), Ex. cbn [fmap option_fmap option_map default lk_parents lk_children].
  unfold default, id. rewrite (lookup_insert_ne _ x c) by done. rewrite (W c), Ec.
  cbn [fmap option_fmap option_map lk_parents lk_children].
  rewrite (bool_decide_eq_true_2 (x = x)), (bool_decide_eq_false_2 (c = x)) by done.
  eexists. split; [reflexivity|]. intros h. cbn [lk_parents lk_children]. destruct (decide (h = c)) as [->|N1].
  - rewrite lookup_insert_eq, Ec. cbn. rewrite (bool_decide_eq_true_2 (c ∈ {[c]} ∪ N)),
    (bool_decide_eq_false_2 (c = x)) by set_solver. do 2 f_equal. case_bool_decide; set_solver.
  - rewrite lookup_insert_ne by done. destruct (decide (h = x)) as [->|N2].
    + rewrite lookup_insert_eq, Ex. cbn. rewrite (bool_decide_eq_true_2 (x = x)) by done.
      rewrite (bool_decide_ext (x ∈ {[c]} ∪ N) (x ∈ N)) by set_solver. do 2 f_equal. set_solver.
    + rewrite lookup_insert_ne by done. rewrite W. destruct (mapLinks p !! h); [|done]. cbn.
      rewrite (bool_decide_eq_false_2 (h = x)) by done.
      by rewrite (bool_decide_ext (h ∈ {[c]} ∪ N) (h ∈ N)) by set_solver.
Qed.
Lemma link_children p x : x ∈ V -> x ∈ dom (mapLinks p) -> dom (mapLinks p) = dom (mapTx p) -> forall l m ch,
  (forall t, t ∈ l -> GetHash t ∈ dom (mapTx p)) -> with_children p x (ch ∖ V) m ->
  exists m' ch', each (link_child x V) l (with_links p m, ch) = Some (with_links p m', ch') /\
    with_children p x (ch' ∖ V) m' /\ forall c, c ∈ ch' <-> c ∈ ch \/ exists t, t ∈ l /\ GetHash t = c.
Proof.
  intros Hx Dx Dl. induction l as [|t l IH]; intros m ch H W; cbn [each];
  [exists m, ch; split_and!; [done|done|]; set_solver|]. pose proof (H t ltac:(apply elem_of_cons; by left)) as Ht.
  assert (H' : forall u, u ∈ l -> GetHash u ∈ dom (mapTx p)) by (intros u Hu; apply H; apply elem_of_cons; by right).
  unfold link_child at 1. cbn [mapTx with_links]. pose proof Ht as [e E]%elem_of_dom. rewrite E. cbn [obind].
    assert (Fin : forall m2 ch2, with_children p x (ch2 ∖ V) m2 -> ch2 = {[GetHash t]} ∪ ch -> exists m' ch',
    each (link_child x V) l (with_links p m2, ch2) = Some (with_links p m', ch') /\ with_children p x (ch' ∖ V) m' /\
    forall c, c ∈ ch' <-> c ∈ ch \/ exists u, u ∈ t :: l /\ GetHash u = c).
  { intros m2 ch2 W2 ->. destruct (IH m2 _ H' W2) as (m' & ch' & E' & W' & Hc). exists m', ch'.
    split_and!; [done|done|]. intros c. rewrite Hc. setoid_rewrite elem_of_cons. set_solver. }
  case_bool_decide as H1; [cbn [obind]; apply Fin; [done|set_solver]|]. cbn [obind]. case_bool_decide as H2.
  - cbn [obind]. apply Fin; [|done]. by replace (({[GetHash t]} ∪ ch) ∖ V) with (ch ∖ V) by set_solver.
  - cbn [obind]. destruct (with_children_add p x (GetHash t) (ch ∖ V) m) as (m' & Em & Wm);
    [intros Ex; apply H2; by rewrite <- Ex|done|by rewrite Dl|done|]. rewrite Em. apply Fin; [|done].
    by replace (({[GetHash t]} ∪ ch) ∖ V) with ({[GetHash t]} ∪ (ch ∖ V)) by set_solver.
Qed.

(** ** The statistics *)

Definition gain_anc (u : CTxMemPoolEntry) : stat -> Z :=
  stat_fun 1 (i64 (nTxSize u)) (GetModifiedFee u) (i32 (sigOpCount u)).
Lemma gain_anc_mod u k : gain_anc u k mod modulus k = weight_of k u mod modulus k.
Proof. destruct k; cbn [gain_anc stat_fun weight_of modulus]; [done|apply i64_mod|done|apply i32_mod]. Qed.
Definition more_cached (x : txid) (s : gset txid) (c : gmap txid (gset txid)) : gmap txid (gset txid) :=
  if bool_decide (s = ∅) then c else <[x := s ∪ default ∅ (c !! x)]> c.
Lemma more_cached_step x a s (c : gmap txid (gset txid)) : more_cached x s (<[x :=
  {[a]} ∪ default ∅ (c !! x)]> c) = more_cached x ({[a]} ∪ s) c.
Proof.
  unfold more_cached. rewrite (bool_decide_eq_false_2 ({[a]} ∪ s = ∅)) by set_solver.
    case_bool_decide as H; [subst s; by rewrite union_empty_r_L|]. rewrite lookup_insert_eq, insert_insert_eq.
    cbn [default]. unfold default, id. f_equal. set_solver.
Qed.
Lemma update_descendants_ok x u : forall l s, NoDup l -> mapTx (us_pool s) !! x = Some u ->
  same_core (us_pool s) p0 ->
  (forall c, c ∈ l -> c <> x /\ exists e, mapTx (us_pool s) !! c = Some e /\ (c ∉ V ->
    UpdateAncestorState (i64 (nTxSize u)) (GetModifiedFee u) 1 (i32 (sigOpCount u)) e = Some (bump_anc (gain_anc u)
    e))) ->
  exists r, each (update_descendant x V) l s = Some r /\
    us_pool r = with_tx (us_pool s) (on (list_to_set l ∖ V) (bump_anc (gain_anc u)) (mapTx (us_pool s))) /\
    us_cached r = more_cached x (list_to_set l ∖ V) (us_cached s) /\
    us_size r mod 2 ^ 64 = (us_size s + wsum (weight p0 Size) (list_to_set l ∖ V)) mod 2 ^ 64 /\
      us_fee r mod 2 ^ 64 = (us_fee s + wsum (weight p0 Fee) (list_to_set l ∖ V)) mod 2 ^ 64 /\
      us_count r mod 2 ^ 64 = (us_count s + wsum (weight p0 Count) (list_to_set l ∖ V)) mod 2 ^ 64.
Proof.
  induction l as [|c l IH]; intros s ND Ex C H; cbn [each list_to_set].
  - exists s. replace (∅ ∖ V) with (∅ : gset txid) by set_solver. rewrite on_empty, !wsum_empty, !Z.add_0_r.
    split_and!; try done; by destruct (us_pool s).
  - apply NoDup_cons in ND as [Nc ND]. destruct (H c ltac:(apply elem_of_cons; by left)) as (Nx & e & E & HU).
    unfold update_descendant at 1. rewrite E. cbn [obind].
    destruct (same_core_lookup _ p0 c e C E) as (f & Ef & Cf).
    destruct (ix_key _ (ok_index _ _ _ O) c f Ef) as [Hh _]. rewrite (core_tx _ _ Cf), Hh. case_bool_decide as Hv.
    + cbn [obind]. destruct (IH s ND Ex C) as (r & Er & R); [intros y Hy; apply H; apply elem_of_cons; by right|].
      exists r. split; [done|]. by replace (({[c]} ∪ list_to_set l) ∖ V) with ((list_to_set l : gset txid) ∖ V) by
      set_solver.
    + rewrite Ex. cbn [obind]. unfold modify. rewrite E. cbn [obind]. rewrite (HU Hv). cbn [obind].
      set (s1 := mkUpdateSums _ _ _ _ _). assert (C1 : same_core (us_pool s1) p0).
      { intros h. rewrite <- (C h). cbn [s1 us_pool with_tx mapTx].
      destruct (decide (h = c)) as [->|N]; [by rewrite lookup_insert_eq, E|by rewrite lookup_insert_ne]. }
      destruct (IH s1 ND) as (r & Er & R1 & R2 & R3 & R4 & R5);
      [cbn [s1 us_pool with_tx mapTx]; by rewrite lookup_insert_ne|done|intros y Hy;
      destruct (H y ltac:(apply elem_of_cons; by right)) as (Ny & ey & Ey & Uy); split; [done|]; exists ey; split;
      [cbn [s1 us_pool with_tx mapTx]; rewrite lookup_insert_ne; [done|]; by intros ->|done]|].
      assert (W : forall k, weight p0 k c = weight_of k e) by (intros k; unfold weight; rewrite Ef;
      by rewrite (core_weight k e f)). assert (Ns : c ∉ (list_to_set l : gset txid) ∖ V) by set_solver. replace
      (({[c]} ∪ list_to_set l) ∖ V) with ({[c]} ∪ ((list_to_set l : gset txid) ∖ V)) by set_solver.
      exists r. split; [done|]. split; [rewrite R1; cbn [s1 us_pool with_tx mapTx]; by rewrite on_insert|].
        split; [rewrite R2; cbn [s1 us_cached]; apply more_cached_step|].
        rewrite R3, R4, R5, !wsum_insert, !W by done. cbn [s1 us_size us_fee us_count weight_of].
      rewrite !(Z.add_mod (i64 _)), !i64_mod, <- !Z.add_mod by done. split_and!; f_equal; lia.
Qed.
(** One transaction. *)
Lemma below_S T p cached : relinked T p cached -> dom (mapTx p) = U.
Proof. intros R. apply (same_core_dom p p0), (rl_core _ _ _ R). Qed.
(** Reachability through the inputs is decidable: it is what the walks compute over complete links. *)
Definition complete : CTxMemPool := with_links p0 ((fun e => mkLinks (pool_parents p0 (e_tx e)) ∅) <$> mapTx p0).
Lemma complete_parents c a : parent_of complete c a <-> S c a.
Proof.
  unfold parent_of, complete, spends. cbn [mapLinks with_links]. rewrite lookup_fmap. split.
  - intros (l & E & I). destruct (mapTx p0 !! c) as [e|]; [|done]. injection E as <-.
    apply elem_of_pool_parents in I as [H1 H2]. by exists e.
  - intros (e & E & H1 & H2). rewrite E. eexists. split; [reflexivity|]. by apply elem_of_pool_parents.
Qed.
Lemma rtc_S_dec y h : {rtc S y h} + {~ rtc S y h}.
Proof.
  destruct (decide (y = h)) as [->|N]; [by left|]. destruct (mapTx p0 !! y) as [e|] eqn:E.
  - assert (G : h ∈ default ∅ (all_ancestors complete y e false) <-> tc S y h).
    { destruct (all_ancestors_exact complete) with (it := y) (e := e) as (A & EA & HA);
      [unfold complete; cbn [mapLinks mapTx with_links]; by rewrite dom_fmap_L|intros c a H%complete_parents;
      by apply (S_dom c a)|apply elem_of_dom; by exists e|by apply (size_small p0 (ok_index _ _ _ O) y)|].
      rewrite EA. cbn [default]. unfold default, id. rewrite HA.
      split; apply (tc_congruence id); intros c a; apply complete_parents. }
    destruct (decide (h ∈ default ∅ (all_ancestors complete y e false))) as [H|H]; [left; by apply tc_rtc, G|right].
    intros P. apply rtc_tc in P as [|P]; [done|]. by apply H, G.
  - right. intros P. apply rtc_tc in P as [|P]; [done|]. apply tc_first in P as (z & (e & E' & _) & _). congruence.
Qed.
#[local] Instance rtc_S_decision y h : Decision (rtc S y h) := rtc_S_dec y h.
Lemma counted_below T h : h ∈ U -> exists D : gset txid, D ⊆ U /\ h ∈ D /\ forall y, y ∈ D <-> counted T y h.
Proof.
  intros Hh. exists (filter (fun y => rtc S y h /\ (h ∈ V -> y ∈ V \/ h ∈ T)) U). split; [set_solver|].
  assert (G : forall y, counted T y h -> y ∈ U) by (intros y [P _]; by apply (S_rtc_dom y h)).
  split; [|intros y; rewrite elem_of_filter; unfold counted in *; naive_solver]. apply elem_of_filter.
  split; [split; [done|by left]|done].
Qed.
Lemma counted_above T h : h ∈ U -> exists A : gset txid, A ⊆ U /\ h ∈ A /\ forall y, y ∈ A <-> counted T h y.
Proof.
  intros Hh. exists (filter (fun y => rtc S h y /\ (y ∈ V -> h ∈ V \/ y ∈ T)) U). split; [set_solver|].
  assert (G : forall y, counted T h y -> y ∈ U) by (intros y [P _]; by apply (S_rtc_dom h y)).
  split; [|intros y; rewrite elem_of_filter; unfold counted in *; naive_solver]. apply elem_of_filter.
  split; [split; [done|by left]|done].
Qed.
Lemma counted_new T x d a : counted ({[x]} ∪ T) d a <-> counted T d a \/ (a = x /\ d ∉ V /\ rtc S d x).
Proof.
  unfold counted. rewrite elem_of_union, elem_of_singleton. split.
  - intros [P H]. destruct (decide (a = x)) as [->|N]; [|left; split; [done|]; naive_solver].
    destruct (decide (d ∈ V)); [left; by split; [|left]|by right].
  - intros [[P H]|(-> & N & P)]; [split; [done|]; naive_solver|]. split; [done|]. right. by left.
Qed.
Lemma half_new T x c a : half ({[x]} ∪ T) c a <-> half T c a \/ (a = x /\ c ∉ V /\ S c x).
Proof.
  unfold half. rewrite elem_of_union, elem_of_singleton. split.
  - intros [P H]. destruct (decide (a = x)) as [->|N]; [|left; split; [done|]; naive_solver].
    destruct (decide (c ∈ V)); [left; by split; [|left]|by right].
  - intros [[P H]|(-> & N & P)]; [split; [done|]; naive_solver|]. split; [done|]. right. by left.
Qed.
Section Step.
Variables (T : gset txid) (x : txid) (p : CTxMemPool) (cached : gmap txid (gset txid)).
Hypothesis R : relinked T p cached.
Hypothesis Hx : x ∈ V.
Hypothesis Nx : x ∉ T.
Hypothesis Hxu : x ∈ U.
Hypothesis Tc : forall t y, t ∈ {[x]} ∪ T -> y ∈ V -> S y t -> y ∈ T.
Lemma relink_links N m : with_children p x N m -> (forall c, c ∈ N <-> S c x /\ c ∉ V) -> forall h l,
  m !! h = Some l -> (forall a, a ∈ lk_parents l <-> half ({[x]} ∪ T) h a) /\ (forall c, c ∈ lk_children l <->
  half ({[x]} ∪ T) c h).
Proof.
  intros W HN h l E. rewrite W in E. destruct (mapLinks p !! h) as [l0|] eqn:E0; [|done].
  cbn [fmap option_fmap option_map] in E. injection E as <-. destruct (rl_links _ _ _ R h l0 E0) as [H1 H2].
  cbn [lk_parents lk_children]. split; intros y; rewrite half_new.
  - rewrite <- H1. case_bool_decide as H; rewrite HN in H; [rewrite elem_of_union, elem_of_singleton|]; naive_solver.
  - rewrite <- H2. case_bool_decide as H; [rewrite elem_of_union, HN|]; naive_solver.
Qed.
(** The children found through [mapNextTx]. *)
Lemma next_children q c : same_rest q p0 -> (exists t, t ∈ next_of q x /\ GetHash t = c) <-> S c x.
Proof.
  intros (Rn & _). setoid_rewrite elem_of_next_of. rewrite Rn. split.
  - intros (t & (o & E & Ho) & <-). apply (ix_next _ (ok_index _ _ _ O)) in E as (h & e & E & <- & I).
    destruct (ix_key _ (ok_index _ _ _ O) h e E) as [-> _]. exists e. split; [done|]. split; [done|].
    apply list_elem_of_fmap in I as (i & -> & Hi). by exists i.
  - intros (e & E & _ & (i & Hi & Ei)). exists (e_tx e). split; [|by apply (ix_key _ (ok_index _ _ _ O) c e E)].
    exists (prevout i). split; [|done]. apply (ix_next _ (ok_index _ _ _ O)). exists c, e.
    split_and!; [done|done|by apply list_elem_of_fmap_2].
Qed.
(** The two updates do not fail. *)
Lemma ancestor_update d e u : mapTx p !! d = Some e -> mapTx p !! x = Some u -> d ∉ V -> rtc S d x ->
  UpdateAncestorState (i64 (nTxSize u)) (GetModifiedFee u) 1 (i32 (sigOpCount u)) e = Some (bump_anc (gain_anc u) e)
    /\
  (forall A k, (forall y, y ∈ A <-> counted ({[x]} ∪ T) d y) -> K k ->
    anc_stat k (bump_anc (gain_anc u) e) = wrap k (wsum (weight p0 k) A)).
Proof.
  intros E Eu Nd P. assert (Hd : d ∈ U) by (by apply (S_rtc_dom d x P)).
  destruct (counted_above T d Hd) as (A & SA & IA & HA). assert (NA : x ∉ A).
  { intros H. apply HA in H as [_ H]. by destruct (H Hx). }
  assert (Wu : forall k, weight p0 k x = weight_of k u) by (intros k;
  rewrite <- (same_core_weight p p0 (rl_core _ _ _ R)); unfold weight; by rewrite Eu).
  assert (St : forall k, K k -> wrap k (anc_stat k e + gain_anc u k) = wrap k (wsum (weight p0 k) ({[x]} ∪ A))).
  { intros k Hk. rewrite (rl_anc _ _ _ R d e A k E HA Hk). apply wrap_insert; [done|]. rewrite Wu. apply gain_anc_mod.
  }
  assert (SU : {[x]} ∪ A ⊆ U) by (clear - Hxu SA; set_solver).
  assert (In : d ∈ {[x]} ∪ A) by (by apply elem_of_union_r). split.
  - apply (UpdateAncestorState_ok _ _ _ _ _ _ _ _ (St Size (HK Size ltac:(done))) (sum_bounds p0 (ok_index _ _ _ O)
    Size _ d ltac:(by right) SU In) (St Count (HK Count ltac:(done))) (sum_bounds p0 (ok_index _ _ _ O) Count _ d
    ltac:(by left) SU In) (St Ops (HK Ops ltac:(done))) (ops_bounds p0 (ok_index _ _ _ O) _ SU)).
  - intros A' k HA' Hk. rewrite anc_stat_bump, St by done. do 2 f_equal. apply set_eq. intros y.
    rewrite HA', counted_new, elem_of_union, elem_of_singleton, HA. naive_solver.
Qed.
Lemma descendant_update u s sz fee cnt : mapTx p !! x = Some u -> (forall d, d ∈ s <-> d ∉ V /\ rtc S d x) ->
  sz mod 2 ^ 64 = wsum (weight p0 Size) s mod 2 ^ 64 -> fee mod 2 ^ 64 = wsum (weight p0 Fee) s mod 2 ^ 64 ->
  cnt mod 2 ^ 64 = wsum (weight p0 Count) s mod 2 ^ 64 ->
  UpdateDescendantState sz fee cnt u = Some (bump_desc (stat_fun cnt sz fee 0) u) /\
  (forall D k, (forall y, y ∈ D <-> counted ({[x]} ∪ T) y x) -> k <> Ops ->
    desc_stat k (bump_desc (stat_fun cnt sz fee 0) u) = wrap k (wsum (weight p0 k) D)).
Proof.
  intros Eu Hs H1 H2 H3. destruct (counted_below T x Hxu) as (D & SD & ID & HD). assert (Dj : D ## s).
  { intros y Hy Hy'. apply HD in Hy as [_ H]. apply Hs in Hy' as [N _]. destruct (H Hx); done. }
  assert (St : forall k, k <> Ops -> wrap k (desc_stat k u + stat_fun cnt sz fee 0 k) = wrap k (wsum (weight p0 k) (D
  ∪ s))). { intros k Nk. rewrite (rl_desc _ _ _ R x u D k Eu HD Nk), wrap_add_l, wsum_union by done.
  apply wrap_add_r. destruct k; [exact H3|exact H1|exact H2|done]. }
  assert (Ss : s ⊆ U) by (intros y Hy; apply Hs in Hy as [_ P]; by apply (S_rtc_dom y x P)).
  assert (SU : D ∪ s ⊆ U) by (clear - SD Ss; set_solver). assert (In : x ∈ D ∪ s) by (by apply elem_of_union_l).
  split.
  - apply (UpdateDescendantState_ok _ _ _ _ _ _ (St Size ltac:(done)) (sum_bounds p0 (ok_index _ _ _ O) Size _ x
    ltac:(by right) SU In) (St Count ltac:(done)) (sum_bounds p0 (ok_index _ _ _ O) Count _ x ltac:(by left) SU In)).
  - intros D' k HD' Nk. rewrite desc_stat_bump, St by done. do 2 f_equal. apply set_eq. intros y.
    rewrite HD', counted_new, elem_of_union, HD, Hs. naive_solver.
Qed.
(** The pool after one round. *)
Lemma relinked_round m N s u sz fee cnt q : with_children p x N m -> (forall c, c ∈ N <-> S c x /\ c ∉ V) ->
  (forall d, d ∈ s <-> d ∉ V /\ rtc S d x) -> mapTx p !! x = Some u ->
  sz mod 2 ^ 64 = wsum (weight p0 Size) s mod 2 ^ 64 -> fee mod 2 ^ 64 = wsum (weight p0 Fee) s mod 2 ^ 64 ->
    cnt mod 2 ^ 64 = wsum (weight p0 Count) s mod 2 ^ 64 ->
  q = with_tx (with_links p m) (<[x := bump_desc (stat_fun cnt sz fee 0) u]> (on s (bump_anc (gain_anc u)) (mapTx p)))
    -> relinked ({[x]} ∪ T) q (more_cached x s cached).
Proof.
  intros W HN Hs Eu H1 H2 H3 ->. destruct (descendant_update u s sz fee cnt Eu Hs H1 H2 H3) as [_ Ds].
  assert (Xs : x ∉ s) by (intros [? _]%Hs; done). pose proof (rl_core _ _ _ R) as C.
  assert (Lk : forall h e, <[x := bump_desc (stat_fun cnt sz fee 0) u]> (on s (bump_anc (gain_anc u)) (mapTx p)) !! h
  = Some e -> (h = x /\ e = bump_desc (stat_fun cnt sz fee 0) u) \/ (h <> x /\ exists e0, mapTx p !! h = Some e0 /\
  ((h ∈ s /\ e = bump_anc (gain_anc u) e0) \/ (h ∉ s /\ e = e0)))).
  { intros h e E. destruct (decide (h = x)) as [->|N1]; [rewrite lookup_insert_eq in E; left; by injection E as <-|].
    right. split; [done|]. rewrite lookup_insert_ne, lookup_on in E by done.
    destruct (mapTx p !! h) as [e0|]; [|done]. exists e0. split; [done|].
    case_bool_decide; injection E as <-; [by left|by right]. }
  split; cbn [mapTx mapLinks with_tx with_links].
  - intros h. rewrite <- (C h). cbn [mapTx with_tx].
    destruct (decide (h = x)) as [->|N1]; [by rewrite lookup_insert_eq, Eu|].
    rewrite lookup_insert_ne, lookup_on by done. destruct (mapTx p !! h); [|done]. cbn. by case_bool_decide.
  - apply (rl_rest _ _ _ R).
  - rewrite <- (rl_dom _ _ _ R). apply set_eq. intros h. by rewrite !elem_of_dom, W, fmap_is_Some.
  - by apply (relink_links N).
  - intros h e D k E HD Nk. destruct (Lk h e E) as [[-> ->]|(N1 & e0 & E0 & H)]; [by apply Ds|].
    assert (HD' : forall y, y ∈ D <-> counted T y h) by (intros y; rewrite HD, counted_new; naive_solver).
    rewrite <- (rl_desc _ _ _ R h e0 D k E0 HD' Nk). destruct H as [[_ ->]|[_ ->]]; [by destruct k|done].
  - intros h e A k E HA Hk. destruct (Lk h e E) as [[-> ->]|(N1 & e0 & E0 & [[Hh ->]|[Hh ->]])].
    + assert (HA' : forall y, y ∈ A <-> counted T x y) by (intros y; rewrite HA, counted_new; naive_solver).
      rewrite <- (rl_anc _ _ _ R x u A k Eu HA' Hk). by destruct k.
    + apply Hs in Hh as [Nh P]. by apply (ancestor_update h e0 u E0 Eu Nh P).
    + assert (HA' : forall y, y ∈ A <-> counted T h y).
      { intros y. rewrite HA, counted_new. split; [|by left]. intros [|(-> & Nh & P)]; [done|].
      by destruct Hh; apply Hs. } by apply (rl_anc _ _ _ R h e0 A k E0 HA' Hk).
  - intros z sz0 Ez. unfold more_cached in Ez. assert (Cx : cached !! x = None).
    { destruct (cached !! x) as [s0|] eqn:E0; [|done]. by destruct (rl_cached _ _ _ R x s0 E0) as [? _].
    } rewrite Cx in Ez. cbn [default] in Ez. unfold default in Ez. case_bool_decide as H0.
    + destruct (rl_cached _ _ _ R z sz0 Ez) as [Hz Hd]. split; [set_solver|done].
    + destruct (decide (z = x)) as [->|Nz]; [rewrite lookup_insert_eq in Ez; injection Ez as
      <-; split; [set_solver|]; intros d; rewrite union_empty_r_L; apply Hs|].
      rewrite lookup_insert_ne in Ez by done. destruct (rl_cached _ _ _ R z sz0 Ez) as [Hz Hd].
      split; [set_solver|done].
Qed.
Lemma update_from_block_ok : exists p' cached', update_from_block V (p, cached) x = Some (p', cached') /\
  relinked ({[x]} ∪ T) p' cached'.
Proof.
  pose proof (rl_core _ _ _ R) as C. pose proof (same_core_dom p p0 C) as Dp.
    assert (Hxp : x ∈ dom (mapTx p)) by (by rewrite Dp). pose proof Hxp as [u Eu]%elem_of_dom.
    unfold update_from_block. rewrite Eu.
  assert (Dl : dom (mapLinks p) = dom (mapTx p)) by (by rewrite Dp, (rl_dom _ _ _ R)).
  destruct (link_children p x Hx ltac:(by rewrite Dl) Dl (next_of p x) (mapLinks p) ∅) as (m & ch & El & W & Hch).
  { intros t Ht. rewrite Dp. apply (S_dom (GetHash t) x). apply (next_children p (GetHash t) (rl_rest _ _ _ R)).
    by exists t. }
  { intros h. destruct (mapLinks p !! h) as [l|]; [|done]. cbn. replace (∅ ∖ V) with (∅ : gset txid) by set_solver.
    rewrite (bool_decide_eq_false_2 (h ∈ ∅)) by set_solver. rewrite union_empty_l_L. destruct l. by case_bool_decide.
    }
  replace (with_links p (mapLinks p)) with p in El by (by destruct p). rewrite El. cbn [obind fst].
    assert (HN : forall c, c ∈ ch ∖ V <-> S c x /\ c ∉ V).
    { intros c. rewrite elem_of_difference, Hch, <- (next_children p c (rl_rest _ _ _ R)). set_solver. }
  pose proof (relink_links (ch ∖ V) m W HN) as Lk. assert (Dm : dom m = U).
    { rewrite <- (rl_dom _ _ _ R). apply set_eq. intros h. by rewrite !elem_of_dom, W, fmap_is_Some. }
  assert (Hl : forall z, rtc S z x -> exists l, mapLinks (with_links p m) !! z = Some l /\ forall c,
  c ∈ lk_children l <-> S c z).
  { intros z P. assert (Hz : z ∈ dom m) by (rewrite Dm; by apply (S_rtc_dom z x P)). apply elem_of_dom in Hz as [l E].
    exists l. split; [done|]. intros c. rewrite (proj2 (Lk z l E) c). unfold half. split; [by intros [? _]|].
    intros Sc. split; [done|]. intros Hz. right. by apply (below_processed T x cached Hx Nx Hxu Tc (rl_cached _ _ _
    R)). }
  unfold UpdateForDescendants, GetMemPoolChildren. destruct (Hl x ltac:(done)) as (lx & Ex & Cx). rewrite Ex.
    cbn [obind]. destruct (update_walk_found T x cached Hx Nx Hxu Tc (rl_cached _ _ _ R) (with_links p m) Dp Hl
    (lk_children lx) Cx) as (all & Ew & Ha & Hf). cbn [mapTx with_links] in *. rewrite Ew. cbn [obind].
  assert (Hs : forall d, d ∈ all ∖ V <-> d ∉ V /\ rtc S d x) by (intros d; rewrite elem_of_difference; split;
  [intros [H N]; split; [done|by apply Hf]|intros [N P]; split; [by apply Hf|done]]).
  destruct (update_descendants_ok x u (in_order all) (mkUpdateSums (with_links p m) cached 0 0 0) (NoDup_in_order
  all)) as (r & Er & R1 & R2 & R3 & R4 & R5); cbn [us_pool us_cached us_size us_fee us_count mapTx with_links];
  [done|done| |].
  { intros c Hc%elem_of_in_order. pose proof (Ha c Hc) as Q. split; [intros ->; by apply (acyclic_spends x)|].
    assert (Hd : c ∈ dom (mapTx p)) by (rewrite Dp; by apply (S_rtc_dom c x (tc_rtc _ _ Q))).
    apply elem_of_dom in Hd as [e E]. exists e. split; [done|]. intros Nc.
    by apply (ancestor_update c e u E Eu Nc (tc_rtc _ _ Q)). }
  rewrite Er. cbn [obind]. rewrite in_order_set in *.
  cbn [us_pool us_cached us_size us_fee us_count mapTx with_links] in R1, R2, R3, R4, R5.
  rewrite Z.add_0_l in R3, R4, R5. assert (Xs : x ∉ all ∖ V) by (intros [? _]%Hs; done).
  unfold modify. rewrite R1. cbn [mapTx with_tx]. rewrite lookup_on, Eu, bool_decide_eq_false_2 by done.
    cbn [fmap option_fmap option_map obind]. unfold id.
    rewrite (proj1 (descendant_update u (all ∖ V) _ _ _ Eu Hs R3 R4 R5)). cbn [obind].
  eexists _, _. split; [reflexivity|]. rewrite R2. eapply (relinked_round m (ch ∖ V) (all ∖ V)); done.
Qed.
End Step.
Lemma relinked_skip T x p cached : relinked T p cached -> x ∈ V -> x ∉ U -> relinked ({[x]} ∪ T) p cached.
Proof.
  intros R Hx Nx. assert (G : forall d a, counted ({[x]} ∪ T) d a <-> counted T d a).
  { intros d a. rewrite counted_new. split; [|by left]. intros [|(-> & Nd & P)]; [done|].
    apply rtc_tc in P as [->|P]; [done|]. exfalso. apply Nx. clear - P.
    induction P as [c a H|]; [by apply (S_dom c a)|done]. }
  assert (Gh : forall c a, half ({[x]} ∪ T) c a <-> half T c a).
  { intros c a. rewrite half_new. split; [|by left]. intros [|(-> & Nd & P)]; [done|]. destruct Nx.
  by apply (S_dom c x). }
  destruct R as [R1 R2 R3 R4 R5 R6 R7]. split; try done.
  - intros h l E. setoid_rewrite Gh. exact (R4 h l E).
  - intros h e D k E HD. setoid_rewrite G in HD. by apply (R5 h e D k).
  - intros h e A k E HA. setoid_rewrite G in HA. by apply (R6 h e A k).
  - intros z s E. destruct (R7 z s E) as [Hz Hd]. split; [set_solver|done].
Qed.
(** Parents before children, as they were in the blocks. *)
Definition parents_first (vs : list txid) : Prop := forall pre x post y, vs = pre ++ x :: post -> y ∈ V -> S y x ->
  y ∈ post.
Lemma UpdateTransactionsFromBlock_ok vs : list_to_set vs = V -> NoDup vs -> parents_first vs -> exists p',
  UpdateTransactionsFromBlock p0 vs = Some p' /\ pool_ok K ∅ p' /\ same_core p' p0 /\ mapDeltas p' = mapDeltas p0.
Proof.
  intros Hv ND Ord. unfold UpdateTransactionsFromBlock. rewrite Hv.
  assert (G : forall l pre p cached, rev vs = pre ++ l -> relinked (list_to_set pre) p cached -> exists p' cached',
  each (update_from_block V) l (p, cached) = Some (p', cached') /\ relinked (list_to_set (rev vs)) p' cached').
  { induction l as [|x l IH]; intros pre p cached E R; cbn [each];
    [exists p, cached; split; [done|]; by rewrite E, app_nil_r|].
    assert (Ev : vs = rev l ++ x :: rev pre) by (rewrite <- (rev_involutive vs), E, rev_app_distr; cbn [rev];
    by rewrite <- app_assoc).
    assert (Hx : x ∈ V) by (rewrite <- Hv, Ev; set_solver). assert (Nx : x ∉ (list_to_set pre : gset txid)).
    { rewrite Ev in ND. apply NoDup_app in ND as (_ & _ & ND). apply NoDup_cons in ND as [N _].
    rewrite elem_of_list_to_set. intros H. apply N. rewrite list_elem_of_In, <- in_rev, <- list_elem_of_In. done. }
    assert (Tc : forall t y, t ∈ {[x]} ∪ (list_to_set pre : gset txid) -> y ∈ V -> S y t ->
    y ∈ (list_to_set pre : gset txid)).
    { intros t y Ht Hy Sy. rewrite elem_of_list_to_set.
      assert (Gr : forall r : list txid, y ∈ rev r <-> y ∈ r) by (intros r; rewrite !list_elem_of_In; symmetry;
      apply in_rev). apply elem_of_union in Ht as [->%elem_of_singleton|Ht%elem_of_list_to_set].
      - apply Gr. by apply (Ord (rev l) x (rev pre) y Ev).
      - apply list_elem_of_split in Ht as (p1 & p2 & Ep).
        assert (Ev' : vs = (rev l ++ x :: rev p2) ++ t :: rev p1) by (rewrite Ev, Ep, rev_app_distr; cbn [rev];
        rewrite <- !app_assoc; done). pose proof (Ord _ t _ y Ev' Hy Sy) as H.
        rewrite Gr in H. rewrite Ep. apply elem_of_app. by left. }
    assert (Sets : list_to_set (pre ++ [x]) = {[x]} ∪ (list_to_set pre : gset txid)) by (rewrite list_to_set_app_L;
    set_solver). assert (St : exists p' cached', update_from_block V (p, cached) x = Some (p', cached') /\
    relinked (list_to_set (pre ++ [x])) p' cached').
    { rewrite Sets. destruct (decide (x ∈ U)) as [Hu|Nu]; [by apply update_from_block_ok|]. exists p, cached.
      split; [|by apply relinked_skip]. cbn [update_from_block].
      rewrite <- (same_core_dom p p0 (rl_core _ _ _ R)) in Nu. by rewrite (not_elem_of_dom_1 _ _ Nu). }
    destruct St as (p1 & c1 & -> & R1). cbn [obind]. apply (IH (pre ++ [x]) p1 c1); [by rewrite <- app_assoc|done]. }
  destruct (G (rev vs) [] p0 ∅) as (p' & c' & E & R); [done|apply relinked_start|]. rewrite E. cbn [obind fst].
  exists p'. split; [done|]. split; [apply (relinked_end _ p' c' R)|split; [apply (rl_core _ _ _ R)|apply (rl_rest _ _
  _ R)]].
  intros h Hh _. rewrite <- Hv in Hh. rewrite elem_of_list_to_set in *.
  rewrite list_elem_of_In, <- in_rev, <- list_elem_of_In. done.
Qed.
End Reorg.
