(* ===== verification/MempoolTheorems.v ===== *)
(** What the memory pool guarantees: every operation in every order keeps it consistent,
    blocks take out exactly what they confirm or invalidate, limits hold, and two operations
    that do not keep it consistent. *)
From Stdlib Require Import ZArith Lia List Bool SpecFloat.
From stdpp Require Import base list gmap sets sorting relations.
From S2P Require Import Prelude Serialize Script Interpreter Transaction Codecs Compressor Coins Mempool MempoolInv MempoolOps MempoolAdd MempoolReorg.
Import ListNotations.
Local Open Scope Z_scope.
Local Open Scope passion_scope.
#[local] Remove Hints finite.finite_countable : typeclass_instances.

Section Theorems.
Context {abi : Abi} {crypto : ScriptCrypto}.

(** * The consistency check succeeds *)

Definition every (k : stat) : Prop := True.
Lemma inputs_check_ok p h e : index_ok p -> mapTx p !! h = Some e -> forall ins, (forall i, i ∈ ins ->
  i ∈ vin (e_tx e)) -> inputs_check p (e_tx e) ins false = Some false.
Proof.
  intros O E. destruct (ix_key _ O h e E) as [Hh (_ & _ & Nz)].
  induction ins as [|i ins IH]; intros H; cbn [inputs_check]; [done|].
  assert (Hi : i ∈ vin (e_tx e)) by (apply H; apply elem_of_cons; by left).
  assert (Zi : CTxIn_IsZerocoinSpend i || CTxIn_IsZerocoinPublicSpend i = false).
  { unfold HasZerocoinSpendInputs in Nz. apply not_true_iff_false. intros Hz. apply not_true_iff_false in Nz.
  apply Nz, existsb_exists. exists i. split; [by apply list_elem_of_In|done]. }
  rewrite Zi, andb_false_r. cbn [orb]. assert (mapNextTx p !! prevout i = Some (e_tx e)) as ->.
  { apply (ix_next _ O). exists h, e. split_and!; [done|done|by apply list_elem_of_fmap_2]. } cbn [obind].
  rewrite bool_decide_eq_true_2 by done. apply IH. intros j Hj. apply H. apply elem_of_cons. by right.
Qed.
Lemma elem_of_parents_check p tx a : a ∈ parents_check p tx <-> a ∈ dom (mapTx p) /\ spends_from tx a.
Proof.
  unfold parents_check, spends_from. rewrite elem_of_filter, exists_tx_dom, bool_decide_eq_true, elem_of_list_to_set,
    list_elem_of_fmap. naive_solver.
Qed.
Lemma children_check_ok p h : pool_ok every ∅ p -> h ∈ dom (mapTx p) -> exists s n, children_check p h = Some (s,
  n) /\ (forall c, c ∈ s <-> linked ∅ p c h) /\ n mod 2 ^ 64 = wsum (weight p Size) s mod 2 ^ 64.
Proof.
  intros O Hh. unfold children_check. assert (G : forall l acc n, (forall t, t ∈ l -> GetHash t ∈ dom (mapTx p)) ->
  n mod 2 ^ 64 = wsum (weight p Size) acc mod 2 ^ 64 ->
    exists s m, each (fun s t => e <- mapTx p !! GetHash t;;
      Some (if bool_decide (GetHash t ∈ fst s) then s else ({[GetHash t]} ∪ fst s, i64 (snd s + nTxSize e)))) l (acc,
      n) = Some (s, m) /\ (forall c, c ∈ s <-> c ∈ acc \/ exists t, t ∈ l /\ GetHash t = c) /\
      m mod 2 ^ 64 = wsum (weight p Size) s mod 2 ^ 64).
  { induction l as [|t l IH]; intros acc n H Hn; cbn [each]; [exists acc, n; split_and!; [done|set_solver|done]|].
    pose proof (H t ltac:(apply elem_of_cons; by left)) as [e E]%elem_of_dom. rewrite E. cbn [obind fst snd].
    assert (H' : forall u, u ∈ l -> GetHash u ∈ dom (mapTx p)) by (intros u Hu; apply H; apply elem_of_cons;
    by right). case_bool_decide as Hin.
    - destruct (IH acc n H' Hn) as (s & m & Es & Hs & Hm). exists s, m. split_and!; [done| |done]. intros c.
      rewrite Hs. setoid_rewrite elem_of_cons. naive_solver.
    - destruct (IH ({[GetHash t]} ∪ acc) (i64 (n + nTxSize e)) H') as (s & m & Es & Hs & Hm);
      [rewrite i64_mod, wsum_insert by done; unfold weight at 1; rewrite E; cbn [weight_of];
      rewrite Z.add_mod, Hn, <- Z.add_mod by done; f_equal; lia|].
      exists s, m. split_and!; [done| |done]. intros c. rewrite Hs. setoid_rewrite elem_of_cons. set_solver. }
  assert (Nc : forall c, (exists t, t ∈ next_of p h /\ GetHash t = c) <-> linked ∅ p c h).
  { intros c. rewrite (next_children every ∅ p O h Hh p c) by (by split_and!). unfold linked. set_solver. }
  destruct (G (next_of p h) ∅ 0) as (s & m & Es & Hs & Hm);
  [intros t Ht; apply (linked_dom ∅ p (GetHash t) h), Nc; by exists t|done|]. exists s, m. split_and!; [done| |done].
  intros c. rewrite Hs, <- Nc. set_solver.
Qed.
Lemma sum_ancestors_ok p e A : A ⊆ dom (mapTx p) -> exists s, sum_ancestors p e A = Some s /\ (A = ∅ \/
  u64 (nSizeCheck s) = nSizeCheck s /\ i64 (nFeesCheck s) = nFeesCheck s /\ u32 (nSigOpCheck s) = nSigOpCheck s) /\
  (A = ∅ -> s = mkAncestorCheck (nTxSize e) (GetModifiedFee e) (sigOpCount e)) /\
  u64 (nSizeCheck s) = u64 (nTxSize e + wsum (weight p Size) A) /\
    i64 (nFeesCheck s) = i64 (GetModifiedFee e + wsum (weight p Fee) A) /\
    u32 (nSigOpCheck s) = u32 (sigOpCount e + wsum (weight p Ops) A).
Proof.
  intros Sub. unfold sum_ancestors. set (f := fun s a => _).
  assert (G : forall l s, NoDup l -> (forall a, a ∈ l -> a ∈ dom (mapTx p)) -> exists r, each f l s = Some r /\
  (l = [] \/ u64 (nSizeCheck r) = nSizeCheck r /\ i64 (nFeesCheck r) = nFeesCheck r /\
  u32 (nSigOpCheck r) = nSigOpCheck r) /\ (l = [] -> r = s) /\
    u64 (nSizeCheck r) = u64 (nSizeCheck s + wsum (weight p Size) (list_to_set l)) /\
      i64 (nFeesCheck r) = i64 (nFeesCheck s + wsum (weight p Fee) (list_to_set l)) /\
      u32 (nSigOpCheck r) = u32 (nSigOpCheck s + wsum (weight p Ops) (list_to_set l))).
  { induction l as [|a l IH]; intros s ND H; cbn [each list_to_set];
    [exists s; rewrite !wsum_empty, !Z.add_0_r; split_and!; try done; by left|]. apply NoDup_cons in ND as [Na ND].
    pose proof (H a ltac:(apply elem_of_cons; by left)) as [g E]%elem_of_dom. unfold f at 1. rewrite E. cbn [obind].
    destruct (IH (mkAncestorCheck (u64 (nSizeCheck s + nTxSize g)) (i64 (nFeesCheck s + GetModifiedFee g)) (u32
    (nSigOpCheck s + sigOpCount g))) ND) as (r & Er & R1 & R2 & R3 & R4 & R5);
    [intros b Hb; apply H; apply elem_of_cons; by right|]. exists r. split; [done|].
    cbn [nSizeCheck nFeesCheck nSigOpCheck] in *.
    assert (W : forall k, weight p k a = weight_of k g) by (intros k; unfold weight; by rewrite E).
    rewrite !wsum_insert, !W by set_solver. cbn [weight_of]. split; [right|split; [done|]].
    - destruct R1 as [->|R1]; [|done]. rewrite (R2 eq_refl). cbn [nSizeCheck nFeesCheck nSigOpCheck].
      split_and!; [apply (wrap_eq Size), (wrap_mod Size)|apply i64_idem|apply (wrap_eq Ops), (wrap_mod Ops)].
    - rewrite R3, R4, R5. split_and!; [rewrite (wrap_add_l Size)|rewrite (wrap_add_l Fee)|rewrite (wrap_add_l Ops)];
      cbn [wrap]; f_equal; lia. }
  destruct (G (in_order A) (mkAncestorCheck (nTxSize e) (GetModifiedFee e) (sigOpCount e)) (NoDup_in_order A)) as (r &
  Er & R1 & R2 & R3); [intros a Ha%elem_of_in_order; by apply Sub|].
  exists r. rewrite in_order_set in R3. rewrite in_order_nil in R1, R2. cbn [nSizeCheck nFeesCheck nSigOpCheck] in *.
  done.
Qed.
Lemma count_set_size p (s : gset txid) : s ⊆ dom (mapTx p) -> wsum (weight p Count) s = set_size s.
Proof. intros Sub. rewrite <- wsum_one. apply wsum_ext. intros a Ha. apply Sub, elem_of_dom in Ha as [e E].
  unfold weight. by rewrite E. Qed.
Lemma check_entry_ok p h e : pool_ok every ∅ p -> mapTx p !! h = Some e -> sigOpCount e < 2 ^ 32 ->
  is_Some (check_entry p h e).
Proof.
  intros O E Hops. assert (Hh : h ∈ dom (mapTx p)) by (apply elem_of_dom; by exists e).
  pose proof (ok_index _ _ _ O) as Ix. destruct (ok_links _ _ _ O) as [DL LK].
  assert (Hl : h ∈ dom (mapLinks p)) by (by rewrite DL). apply elem_of_dom in Hl as [l El].
  destruct (LK h l El) as [Hp Hc].
  unfold check_entry. rewrite El. cbn [obind]. rewrite (inputs_check_ok p h e Ix E) by done. cbn [obind].
    assert (Pp : parents_check p (e_tx e) = lk_parents l).
    { apply set_eq. intros a. rewrite elem_of_parents_check, Hp. unfold linked, spends.
    split; [intros [H1 H2]; split; [by exists e|set_solver]|intros [(f & F & H1 & H2) _]; rewrite E in F;
    by injection F as <-]. }
  rewrite bool_decide_eq_true_2 by done. destruct (new_ancestors_exact p (links_dom _ ∅ p O) (parents_in _ ∅ p O) h e
  (size_small p Ix h e E)) as (A & EA & HA). rewrite EA. cbn [obind].
  assert (HA' : forall y, y ∈ A <-> tc (linked ∅ p) h y).
  { intros y. rewrite HA, tc_first. unfold new_ancestor. setoid_rewrite (rtc_parent_of _ ∅ p O).
  split; intros (z & H); exists z; [destruct H as (H1 & H2 & P); split; [|done]; apply Hp; rewrite <- Pp; by apply
  elem_of_parents_check|destruct H as [L P]; apply Hp in L; rewrite <- Pp in L;
  apply elem_of_parents_check in L as [? ?]; done]. }
  assert (Nh : h ∉ A) by (intros H; apply HA' in H; by apply (ok_acyclic _ _ _ O h)).
  assert (HAn : Ancestors ∅ p h ({[h]} ∪ A)) by (intros y; rewrite elem_of_union, elem_of_singleton, HA', rtc_tc;
  naive_solver). pose proof (ancestors_sub ∅ p h _ Hh HAn) as SA. assert (SA' : A ⊆ dom (mapTx p)) by set_solver.
  assert (St : forall k, anc_stat k e = wrap k (weight_of k e + wsum (weight p k) A)).
  { intros k. rewrite (ok_anc _ _ _ O h e _ k E HAn I), wsum_insert by done. unfold weight at 1. by rewrite E. }
  destruct (sum_ancestors_ok p e A SA') as (s & Es & S1 & S2 & S3 & S4 & S5). rewrite Es. cbn [obind].
  destruct (ix_key _ Ix h e E) as [_ (Hs & Ho & _)].
  pose proof (size_small p Ix h e E) as Hsz. assert (Cn : u64 (nSizeCheck s) = nSizeCheck s /\
    i64 (nFeesCheck s) = nFeesCheck s /\ u32 (nSigOpCheck s) = nSigOpCheck s). { destruct S1 as [->|]; [|done].
    rewrite (S2 eq_refl). cbn [nSizeCheck nFeesCheck nSigOpCheck].
    split_and!; [by apply u64_small|apply i64_idem|apply u32_small; lia]. }
  destruct Cn as (C1 & C2 & C3). pose proof (St Count) as T1. pose proof (St Size) as T2. pose proof (St Fee) as T3.
  pose proof (St Ops) as T4. cbn [anc_stat wrap weight_of] in T1, T2, T3, T4. rewrite count_set_size in T1 by done.
  rewrite T1, T2, T3, T4, <- S3, <- S4, <- S5, C1, C2, C3, (Z.add_comm 1), !Z.eqb_refl. cbn [andb negb].
  destruct (children_check_ok p h O Hh) as (ch & n & Ech & Hch & Hn). rewrite Ech. cbn [obind].
  assert (Cc : ch = lk_children l) by (apply set_eq; intros c; by rewrite Hch, Hc).
  rewrite bool_decide_eq_true_2 by done. cbn [andb].
  destruct (descendants_of _ ∅ p O h Hh) as (D & _ & HD). pose proof (descendants_sub ∅ p h D Hh HD) as SD.
  assert (InD : h ∈ D) by (by apply HD). assert (Sc : {[h]} ∪ ch ⊆ D).
  { intros y [->%elem_of_singleton|Hy]%elem_of_union; [done|]. apply HD. apply rtc_once. by apply Hch. }
  assert (Nc : h ∉ ch). { intros H. apply Hch in H. apply (ok_acyclic _ _ _ O h). by apply tc_once.
  } pose proof (ok_desc _ _ _ O h e D Size E HD ltac:(done)) as Td.
  cbn [desc_stat wrap] in Td. pose proof (sum_bounds p Ix Size D h ltac:(by right) SD InD) as Bd.
  rewrite u64_small in Td by lia.
  pose proof (wsum_mono (weight p Size) _ D Sc) as M. specialize (M ltac:(intros; by apply entry_weight_nonneg)).
    rewrite wsum_insert in M by done. unfold weight at 1 in M. rewrite E in M. cbn [weight_of] in M.
    pose proof (wsum_nonneg (weight p Size) ch) as Nn. specialize (Nn ltac:(intros; by apply entry_weight_nonneg)).
  assert (Eu : u64 (n + nTxSize e) = wsum (weight p Size) ch + nTxSize e).
  { unfold u64. rewrite Z.add_mod, Hn, <- Z.add_mod by done. apply Z.mod_small. lia. } rewrite Eu, Td.
  destruct (Z.leb_spec (wsum (weight p Size) ch + nTxSize e) (wsum (weight p Size) D)); [by eexists|lia].
Qed.
Lemma total_ok p : index_ok p -> foldr (fun he n =>
  u64 (nTxSize (snd he) + n)) 0 (map_to_list (mapTx p)) = wsum (weight p Size) (dom (mapTx p)).
Proof.
  intros O. assert (G : forall l, NoDup l.*1 -> (forall he, he ∈ l -> mapTx p !! he.1 = Some he.2) ->
  foldr (fun he n => u64 (nTxSize (snd he) + n)) 0 l = wsum (weight p Size) (list_to_set l.*1)).
  { induction l as [|[h e] l IH]; intros ND H; cbn [foldr fmap list_fmap list_to_set fst snd]; [done|]. cbn in ND.
    apply NoDup_cons in ND as [N ND]. assert (E : mapTx p !! h = Some e) by (apply (H (h, e)); apply elem_of_cons;
    by left). assert (H' : forall he, he ∈ l -> mapTx p !! he.1 = Some he.2) by (intros he Hhe; apply H;
    apply elem_of_cons; by right).
    rewrite (IH ND H'), wsum_insert by set_solver. unfold weight at 2. rewrite E. cbn [weight_of].
    assert (Sub : {[h]} ∪ list_to_set l.*1 ⊆ dom (mapTx p)).
    { intros y [->%elem_of_singleton|Hy]%elem_of_union; [apply elem_of_dom; by exists e|].
    apply elem_of_list_to_set, list_elem_of_fmap in Hy as (he & -> & Hy). apply elem_of_dom. exists he.2. by apply H'.
    }
    pose proof (sum_bounds p O Size _ h ltac:(by right) Sub ltac:(set_solver)) as B.
      rewrite wsum_insert in B by set_solver. unfold weight at 1 3 in B. rewrite E in B. cbn [weight_of] in B.
      apply u64_small. lia. }
  rewrite G; [f_equal; apply set_eq; intros h; rewrite elem_of_list_to_set, list_elem_of_fmap,
  elem_of_dom|apply NoDup_fst_map_to_list|intros [h e] He; by apply elem_of_map_to_list in He].
  split; [intros ([h' e] & -> & He); apply elem_of_map_to_list in He; by exists e|intros [e E]; exists (h, e); split;
  [done|by apply elem_of_map_to_list]].
Qed.
Lemma checkNullifiers_ok p : index_ok p -> checkNullifiers p = true.
Proof.
  intros O. unfold checkNullifiers. apply forallb_forall. intros [nf t] H.
  apply list_elem_of_In, elem_of_map_to_list in H. apply (ix_nullifiers _ O) in H as (h & e & E & <- & _). cbn [snd].
  destruct (ix_key _ O h e E) as [-> _]. rewrite E. apply bool_decide_eq_true_2. by apply (ix_key _ O).
Qed.
Lemma check_ok p : pool_ok every ∅ p -> check_pool p = true.
Proof.
  intros O. pose proof (ok_index _ _ _ O) as Ix. unfold check_pool.
  rewrite checkNullifiers_ok, total_ok, (ix_total _ Ix), Z.eqb_refl, !andb_true_r by done. apply andb_true_iff.
  split; apply forallb_forall.
  - intros [h e] H. apply list_elem_of_In, elem_of_map_to_list in H. cbn [fst snd].
    apply bool_decide_eq_true_2, check_entry_ok; [done|done|].
    pose proof (ops_bounds p Ix {[h]} ltac:(intros y ->%elem_of_singleton; apply elem_of_dom; by exists e)) as B.
    rewrite wsum_singleton in B. unfold weight in B. rewrite H in B. cbn [weight_of] in B. lia.
  - intros [o t] H. apply list_elem_of_In, elem_of_map_to_list in H.
    apply (ix_next _ Ix) in H as (h & e & E & <- & _). cbn [snd]. destruct (ix_key _ Ix h e E) as [-> _]. rewrite E.
    by apply bool_decide_eq_true_2.
Qed.
(** * The operations, in any order *)

Inductive pool_op :=
  | OpAccept (lim : Limits) (entry : CTxMemPoolEntry)
  | OpRelink (vHashesToUpdate : list txid)
  | OpRecursive (tx : CTransaction)
  | OpBlock (vtx : list CTransaction)
  | OpReorg (CheckFinalTx : CTransaction -> bool) (AccessCoin : COutPoint ->
    Coin) (nMemPoolHeight nCoinbaseMaturity : Z)
  | OpAnchor (invalidRoot : txid)
  | OpExpire (time : Z)
  | OpTrim (DynamicMemoryUsage : CTxMemPool -> Z) (worst : CTxMemPool -> option txid) (sizelimit : Z)
  | OpPrioritise (hash : txid) (dPriorityDelta : spec_float) (nFeeDelta : Z)
  | OpClear.
(** As [AcceptToMemoryPool] adds: nothing is added when a limit is exceeded. *)
Definition accept (p : CTxMemPool) (lim : Limits) (entry : CTxMemPoolEntry) : option CTxMemPool :=
  let hash := GetHash (e_tx entry) in
  r <- CalculateMemPoolAncestors p hash entry lim true;;
  match r with inl _ => Some p | inr setAncestors => addUnchecked p hash entry setAncestors end.
Definition run (op : pool_op) (p : CTxMemPool) : option CTxMemPool :=
  match op with
  | OpAccept lim entry => accept p lim entry
  | OpRelink vs => UpdateTransactionsFromBlock p vs
  | OpRecursive tx => removeRecursive p tx
  | OpBlock vtx => removeForBlock p vtx
  | OpReorg final coins height maturity => removeForReorg final coins height maturity p
  | OpAnchor root => removeWithAnchor p root
  | OpExpire time => r <- Expire p time;; Some (fst r)
  | OpTrim usage worst limit => r <- TrimToSize (S (base.size (mapTx p))) usage worst limit p [];; Some (fst r)
  | OpPrioritise hash priority fee => PrioritiseTransaction p hash priority fee
  | OpClear => Some (clear p)
  end.
(** What the callers see to. [V] are the returned transactions that [OpRelink] has not
    linked yet. [clear] forgets to empty the nullifiers, so it is in order only when there
    are none. *)
Definition allowed (V V' : gset txid) (op : pool_op) (p : CTxMemPool) : Prop :=
  match op with
  | OpAccept _ entry => addable V V' p entry
  | OpRelink vs => V' = ∅ /\ list_to_set vs = V /\ NoDup vs /\ parents_first V p vs /\ forall x a, x ∈ V ->
    spends p x a -> a ∈ V
  | OpBlock vtx => V' = V /\ block_order V p vtx
  | OpTrim usage worst limit => V' = V /\ (forall q, mapTx q = ∅ -> usage q <= limit) /\ (forall q, mapTx q <> ∅ ->
    exists x, worst q = Some x /\ x ∈ dom (mapTx q))
  | OpClear => V' = V /\ mapSaplingNullifiers p = ∅
  | _ => V' = V
  end.
Definition keeps_fees (op : pool_op) : bool := match op with OpPrioritise _ _ _ => false | _ => true end.
Definition kept (fees : bool) (k : stat) : Prop := fees = true \/ k <> Fee.
Lemma pool_ok_waiting K V V' p : (forall h, h ∈ dom (mapTx p) -> h ∈ V' <-> h ∈ V) -> pool_ok K V p -> pool_ok K V' p.
Proof.
  intros H O. assert (L : forall c a, linked V' p c a <-> linked V p c a).
  { intros c a. unfold linked. split; intros [S I]; (split; [done|]); destruct S as (e & E & Ha & _);
  assert (Hc : c ∈ dom (mapTx p)) by (apply elem_of_dom; by exists e); rewrite (H a Ha), (H c Hc) in *; done. }
  assert (R : forall c a, rtc (linked V' p) c a <-> rtc (linked V p) c a) by (intros c a; split;
  apply (rtc_congruence id); intros x y; apply L). destruct O as [O1 [O2 O2'] O3 O4 O5]. split; [done| | | |].
  - split; [done|]. intros h l E. setoid_rewrite L. exact (O2' h l E).
  - intros a P. apply (O3 a). eapply (tc_congruence id); [|exact P]. intros x y. apply L.
  - intros h e D k E HD. apply (O4 h e D k E). intros y. rewrite (HD y). apply R.
  - intros h e A k E HA. apply (O5 h e A k E). intros y. rewrite (HA y). apply R.
Qed.
Lemma accept_ok K V V' p lim entry : pool_ok K V p -> addable V V' p entry -> exists p',
  accept p lim entry = Some p' /\ pool_ok K V' p'.
Proof.
  intros O Ad. unfold accept. assert (G : exists r,
  CalculateMemPoolAncestors p (GetHash (e_tx entry)) entry lim true = Some r).
  { unfold CalculateMemPoolAncestors. cbn [obind]. pose proof (search_parents_spec p (links_dom _ V p O) (parents_in _
    V p O) lim (vin (e_tx entry)) ∅) as Sp. destruct (search_parents _ _ _ _) as [err|ps]; [by eexists|].
    destruct (ancestors_walk_exact p lim (nTxSize entry) (links_dom _ V p O) (parents_in _ V p O) (S (base.size (mapTx
    p))) ps ∅ (nTxSize entry)) as (r & E & _); [set_solver|intros y Hy; apply Sp in Hy as [|[?
    _]]; [set_solver|done]|intros a b Ha; set_solver|rewrite difference_empty_L, size_dom; lia|by exists r]. }
  destruct G as [[err|A] E]; rewrite E; cbn [obind].
  - exists p. split; [done|]. apply (pool_ok_waiting K V); [|done]. intros h Hh. apply (ad_same _ _ _ _ Ad).
    intros ->. by apply (ad_fresh _ _ _ _ Ad).
  - destruct (addUnchecked_ok K V V' p entry A O Ad) as (p' & E' & O' & _);
    [by apply (limited_ancestors_exact p (links_dom _ V p O) (parents_in _ V p O) _ entry lim A E)|]. by exists p'.
Qed.
Lemma no_entries_ok K V deltas n : pool_ok K V (mkPool ∅ ∅ ∅ deltas ∅ 0 n).
Proof.
  split; [split| | | |]; cbn [mapTx mapLinks mapNextTx mapSaplingNullifiers totalTxSize mapDeltas].
  - intros h e E. done.
  - reflexivity.
  - reflexivity.
  - intros o t. split; [done|]. intros (h & e & E & _). done.
  - intros o t. split; [done|]. intros (h & e & E & _). done.
  - reflexivity.
  - intros h e E. done.
  - split; [reflexivity|]. intros h l E. done.
  - intros a P. apply tc_first in P as (z & [(e & E & _) _] & _). done.
  - intros h e D k E. done.
  - intros h e A k E. done.
Qed.
Lemma run_ok f V V' op p : pool_ok (kept f) V p -> allowed V V' op p -> exists p', run op p = Some p' /\
  pool_ok (kept (f && keeps_fees op)) V' p'.
Proof.
  intros O. assert (HK : forall k, k <> Fee -> kept f k) by (intros k N; by right).
  destruct op; cbn [allowed run keeps_fees]; rewrite ?andb_true_r.
  - by apply accept_ok.
  - intros (-> & Hv & ND & Ord & Up). destruct (UpdateTransactionsFromBlock_ok (kept f) V p HK O Up vHashesToUpdate Hv
    ND Ord) as (p' & E & O' & _). by exists p'.
  - intros ->. destruct (removeRecursive_ok (kept f) V p tx O) as (St & p' & E & O' & _). by exists p'.
  - intros [-> B]. destruct (removeForBlock_ok (kept f) V HK p vtx O B) as (p' & E & O' & _). by exists p'.
  - intros ->. destruct (removeForReorg_ok (kept f) V CheckFinalTx AccessCoin nMemPoolHeight nCoinbaseMaturity p O) as
    (St & p' & E & O' & _). by exists p'.
  - intros ->. destruct (removeWithAnchor_ok (kept f) V p invalidRoot O) as (p' & E & O' & _). by exists p'.
  - intros ->. destruct (Expire_ok (kept f) V time p O) as (St & p' & E & O' & _). rewrite E. by exists p'.
  - intros (-> & H1 & H2). destruct (TrimToSize_ok (kept f) V HK DynamicMemoryUsage worst sizelimit H1 H2 (S
    (base.size (mapTx p))) p []) as (p' & acc & E & O' & _); [lia|done|set_solver|]. rewrite E. by exists p'.
  - intros ->. rewrite andb_false_r. pose proof (PrioritiseTransaction_ok (kept f) V p hash dPriorityDelta nFeeDelta O) as S.
    destruct (mapTx p !! hash) as [e|] eqn:E.
    + destruct S as (A & HA & ->). eexists. split; [done|].
      eapply pool_ok_weaken; [by apply (prioritised_ok (kept f) V p hash dPriorityDelta nFeeDelta e A)|]. intros k [|N]; [done|].
      split; [by right|done].
    + destruct S as (p' & -> & O'). exists p'. split; [done|]. eapply pool_ok_weaken; [exact O'|].
      intros k [|N]; [done|by right].
  - intros [-> N]. eexists. split; [done|]. unfold clear. rewrite N. apply no_entries_ok.
Qed.
(** The empty pool, with the priorities that were set before. *)
Definition empty_pool (deltas : gmap txid (spec_float * Z)) : CTxMemPool := mkPool ∅ ∅ ∅ deltas ∅ 0 0.
Inductive reachable : bool -> gset txid -> CTxMemPool -> Prop :=
  | reach_empty deltas : reachable true ∅ (empty_pool deltas)
  | reach_step f V V' p p' op : reachable f V p -> allowed V V' op p -> run op p = Some p' -> reachable (f &&
    keeps_fees op) V' p'.
Lemma empty_pool_ok K V deltas : pool_ok K V (empty_pool deltas).
Proof. apply no_entries_ok. Qed.
Lemma reachable_ok f V p : reachable f V p -> pool_ok (kept f) V p.
Proof.
  induction 1 as [deltas|f V V' p p' op R IH Al E]; [apply empty_pool_ok|].
    destruct (run_ok f V V' op p IH Al) as (q & E' & O'). congruence.
Qed.

(** * The transactions determine the pool *)

Lemma entry_eq e f : core e = core f -> (forall k, k <> Ops -> desc_stat k e = desc_stat k f) -> (forall k,
  anc_stat k e = anc_stat k f) -> e = f.
Proof.
  intros C D A. pose proof (D Count ltac:(done)) as D1. pose proof (D Size ltac:(done)) as D2.
  pose proof (D Fee ltac:(done)) as D3. pose proof (A Count) as A1. pose proof (A Size) as A2.
  pose proof (A Fee) as A3. pose proof (A Ops) as A4.
  destruct e, f. cbn in *. injection C as -> -> -> -> -> -> ->. by subst.
Qed.
Lemma pool_determined V p q : pool_ok every V p -> pool_ok every V q -> same_core p q ->
  mapTx p = mapTx q /\ mapLinks p = mapLinks q /\ mapNextTx p = mapNextTx q /\
    mapSaplingNullifiers p = mapSaplingNullifiers q /\ totalTxSize p = totalTxSize q.
Proof.
  intros Op Oq C. pose proof (same_core_sym _ _ C) as C'. pose proof (ok_index _ _ _ Op) as Ip.
  pose proof (ok_index _ _ _ Oq) as Iq. assert (L : forall c a, linked V p c a <-> linked V q c a) by (intros c a;
  split; by apply same_core_linked). split_and!.
  - apply map_eq. intros h. destruct (mapTx p !! h) as [e|] eqn:E;
    [|symmetry; apply not_elem_of_dom; rewrite <- (same_core_dom p q C); by apply not_elem_of_dom].
    destruct (same_core_lookup p q h e C E) as (f & F & Cf). rewrite F. f_equal.
    assert (Hh : h ∈ dom (mapTx p)) by (apply elem_of_dom; by exists e). apply entry_eq; [done| |].
    + intros k Nk. destruct (descendants_of _ V p Op h Hh) as (D & _ & HD).
      rewrite (ok_desc _ _ _ Op h e D k E HD Nk), (ok_desc _ _ _ Oq h f D k F), (same_core_wsum p q) by (done ||
      intros y; rewrite (HD y); by apply same_core_rtc). done.
    + intros k. destruct (ancestors_of _ V p Op h e E) as (T & _ & HT).
      assert (HA : Ancestors V p h ({[h]} ∪ T)) by (intros y; rewrite elem_of_union, elem_of_singleton, HT, rtc_tc;
      naive_solver). rewrite (ok_anc _ _ _ Op h e _ k E HA I), (ok_anc _ _ _ Oq h f ({[h]} ∪ T) k F),
      (same_core_wsum p q) by (done || intros y; rewrite (HA y); by apply same_core_rtc). done.
  - apply map_eq. intros h. destruct (ok_links _ _ _ Op) as [Dp Lp]. destruct (ok_links _ _ _ Oq) as [Dq Lq].
    destruct (mapLinks p !! h) as [l|] eqn:E; [|symmetry; apply not_elem_of_dom; rewrite Dq, <- (same_core_dom p q C),
    <- Dp; by apply not_elem_of_dom].
    assert (Hl : h ∈ dom (mapLinks q)) by (rewrite Dq, <- (same_core_dom p q C), <- Dp; apply elem_of_dom;
    by exists l). apply elem_of_dom in Hl as [l' E'].
    rewrite E'. f_equal. destruct (Lp h l E) as [P1 P2]. destruct (Lq h l' E') as [Q1 Q2].
    destruct l as [pa ch], l' as [pa' ch']. cbn [lk_parents lk_children] in *.
    f_equal; apply set_eq; intros y; [rewrite P1, Q1|rewrite P2, Q2]; apply L.
  - apply map_eq. intros o. apply option_eq. intros t. rewrite (ix_next _ Ip), (ix_next _ Iq).
    split; intros (h & e & E & Et & I'); [destruct (same_core_lookup p q h e C E) as (f & F & Cf)|destruct
    (same_core_lookup q p h e C' E) as (f & F & Cf)]; exists h, f; rewrite <- (core_tx _ _ Cf); done.
  - apply map_eq. intros o. apply option_eq. intros t. rewrite (ix_nullifiers _ Ip), (ix_nullifiers _ Iq).
    split; intros (h & e & E & Et & I'); [destruct (same_core_lookup p q h e C E) as (f & F & Cf)|destruct
    (same_core_lookup q p h e C' E) as (f & F & Cf)]; exists h, f; rewrite <- (core_tx _ _ Cf); done.
  - rewrite (ix_total _ Ip), (ix_total _ Iq), (same_core_dom p q C). by apply same_core_wsum.
Qed.
(** C31: adding a transaction and removing it again restores the pool: its entries with all
    their statistics, the links, the indexes by outpoint and by nullifier, and the total. *)
Theorem add_remove_roundtrip (p : CTxMemPool) (entry : CTxMemPoolEntry) :
  pool_ok every ∅ p -> addable ∅ ∅ p entry ->
  exists p' p'', addUnchecked_simple p (GetHash (e_tx entry)) entry = Some p' /\
    removeRecursive p' (e_tx entry) = Some p'' /\
    mapTx p'' = mapTx p /\ mapLinks p'' = mapLinks p /\ mapNextTx p'' = mapNextTx p /\
      mapSaplingNullifiers p'' = mapSaplingNullifiers p /\
    totalTxSize p'' = totalTxSize p /\ mapDeltas p'' = mapDeltas p.
Proof.
  intros O Ad. destruct (addUnchecked_simple_ok every ∅ ∅ p entry O Ad) as (p' & E' & O' & [Ex Dl]).
  destruct (removeRecursive_ok every ∅ p' (e_tx entry) O') as (St & p'' & E'' & O'' & W & Dl' & HS & _).
  exists p', p''. set (n := GetHash (e_tx entry)) in *.
  assert (Hn : mapTx p' !! n <> None) by (intros N; specialize (Ex n); rewrite N, bool_decide_eq_true_2 in Ex by done;
  done). assert (Nd : n ∈ dom (mapTx p')) by (apply elem_of_dom; by destruct (mapTx p' !! n); [eexists|]).
  assert (HSt : forall y, y ∈ St <-> y = n). { intros y. rewrite HS. unfold removal_root. fold n. destruct (decide _)
  as [_|]; [|done]. split; [|intros ->; by exists n]. intros (x & -> & P). apply rtc_tc in P as [|P]; [done|].
  exfalso. assert (Last : exists c, linked ∅ p' c n) by (clear - P; induction P as [c a H|]; [by exists c|done]).
  destruct Last as (c & (e & E & _ & F) & _).
    specialize (Ex c). rewrite E in Ex. case_bool_decide as Hc; [|destruct (mapTx p !! c) as [f|] eqn:Ef; [|done]];
      apply (inj Some) in Ex; pose proof (core_tx _ _ Ex) as Et; rewrite Et in F.
    - rewrite (proj1 (with_delta_tx _ _)) in F. by apply (ad_self _ _ _ _ Ad).
    - destruct (ad_children _ _ _ _ Ad c f Ef F) as [H _]. set_solver. }
  assert (C : same_core p'' p). { intros h. rewrite (W h), (Ex h).
  destruct (decide (h = n)) as [->|N]; [|rewrite !bool_decide_eq_false_2 by (done || by rewrite HSt); done].
  rewrite (bool_decide_eq_true_2 (n ∈ St)) by (by apply HSt).
  by rewrite (not_elem_of_dom_1 _ _ (ad_fresh _ _ _ _ Ad)). }
  split; [done|]. split; [done|]. destruct (pool_determined ∅ p'' p O'' O C) as (H1 & H2 & H3 & H4 & H5).
  split_and!; try done. congruence.
Qed.
(** C16: connecting a block, its transactions in an order where parents come first, takes out
    of the pool every transaction of the block, every other one that spends an output or a
    nullifier the block spends, and everything that descends from such a conflicting
    transaction; nothing left in the pool conflicts with the block, and what is left still has
    its parents in the pool or in the block. Every transaction that is neither in the block
    nor descends from a transaction that conflicts with it stays, unchanged but for its
    statistics, and the pool is consistent. *)
Theorem removeForBlock_exact (K : stat -> Prop) (V : gset txid) (p : CTxMemPool) (vtx : list CTransaction) :
  (forall k, k <> Fee -> K k) -> pool_ok K V p -> block_order V p vtx ->
  exists p', removeForBlock p vtx = Some p' /\ pool_ok K V p' /\ (forall tx, tx ∈ vtx -> cleared p' tx) /\
    (forall y, ousted V p vtx y -> y ∉ dom (mapTx p')) /\ keeps_parents (confirmed vtx) V p p' /\
    (forall h e, mapTx p !! h = Some e -> ~ replaced V p vtx h -> exists e', mapTx p' !! h = Some e' /\
      core e' = core e) /\ dom (mapTx p') ⊆ dom (mapTx p).
Proof.
  intros HK O B. destruct (removeForBlock_ok K V HK p vtx O B) as (p' & E & O' & S & C & Kp). exists p'.
  split_and!; try done; [by eapply ousted_leave| |by apply (shrunk_dom _ p p' S)].
  intros h e Eh N. destruct S as (St & W & H).
  assert (Nh : h ∉ St) by (intros Hs; apply N, H; [done|]; apply elem_of_dom; by exists e).
  by apply (without_lookup_r p St p').
Qed.
(** C13: after a reorganization has returned the transactions of disconnected blocks, whose
    children in the pool are not linked yet, [UpdateTransactionsFromBlock] links them and
    completes the statistics: the pool holds the same transactions and is consistent again. *)
Theorem UpdateTransactionsFromBlock_restores (K : stat -> Prop) (V : gset txid) (p : CTxMemPool) (vs : list txid) :
  (forall k, k <> Fee -> K k) -> pool_ok K V p -> (forall x a, x ∈ V -> spends p x a -> a ∈ V) ->
    list_to_set vs = V -> NoDup vs -> parents_first V p vs ->
  exists p', UpdateTransactionsFromBlock p vs = Some p' /\ pool_ok K ∅ p' /\ same_core p' p.
Proof. intros HK O Up Hv ND Ord. destruct (UpdateTransactionsFromBlock_ok K V p HK O Up vs Hv ND Ord) as (p' & E & O'
  & C & _). by exists p'. Qed.

(** * Package limits *)

Definition within (lim : Limits) (p : CTxMemPool) : Prop := forall h e, mapTx p !! h = Some e ->
  nCountWithAncestors e <= limitAncestorCount lim /\ nSizeWithAncestors e <= limitAncestorSize lim /\
  nCountWithDescendants e <= limitDescendantCount lim /\ nSizeWithDescendants e <= limitDescendantSize lim.
(** The statistics that are limited do not wrap around. *)
Lemma exact_desc K V p h e D k : pool_ok K V p -> mapTx p !! h = Some e -> Descendants V p h D -> k = Count \/
  k = Size -> desc_stat k e = wsum (weight p k) D.
Proof.
  intros O E HD Hk. assert (Hh : h ∈ dom (mapTx p)) by (apply elem_of_dom; by exists e).
  assert (Nk : k <> Ops) by (by destruct Hk as [->| ->]). rewrite (ok_desc _ _ _ O h e D k E HD Nk).
  pose proof (sum_bounds p (ok_index _ _ _ O) k D h Hk (descendants_sub V p h D Hh HD) ltac:(by apply HD)).
  destruct Hk as [->| ->]; apply u64_small; lia.
Qed.
Lemma exact_anc K V p h e A k : pool_ok K V p -> K k -> mapTx p !! h = Some e -> Ancestors V p h A -> k = Count \/
  k = Size -> anc_stat k e = wsum (weight p k) A.
Proof.
  intros O HKk E HA Hk. assert (Hh : h ∈ dom (mapTx p)) by (apply elem_of_dom; by exists e).
  rewrite (ok_anc _ _ _ O h e A k E HA HKk). pose proof (sum_bounds p (ok_index _ _ _ O) k A h Hk (ancestors_sub V p h
  A Hh HA) ltac:(by apply HA)). destruct Hk as [->| ->]; apply u64_small; lia.
Qed.
Lemma ancestors_exist K V p h e : pool_ok K V p -> mapTx p !! h = Some e -> exists A, Ancestors V p h A.
Proof. intros O E. destruct (ancestors_of _ V p O h e E) as (T & _ & HT). exists ({[h]} ∪ T). intros y.
  rewrite elem_of_union, elem_of_singleton, HT, rtc_tc. naive_solver. Qed.
(** Fewer transactions, smaller packages. *)
Lemma within_smaller K V V' p q lim : pool_ok K V p -> pool_ok K V' q -> K Count -> K Size ->
  (forall h e, mapTx q !! h = Some e -> exists f, mapTx p !! h = Some f) -> (forall c a, rtc (linked V' q) c a ->
    rtc (linked V p) c a) -> (forall k h, k = Count \/ k = Size -> h ∈ dom (mapTx q) ->
    weight q k h = weight p k h) -> within lim p -> within lim q.
Proof.
  intros Op Oq K1 K2 Lk Rt Wt H h e E. destruct (Lk h e E) as (f & F).
  assert (Hq : h ∈ dom (mapTx q)) by (apply elem_of_dom; by exists e).
  assert (Hp : h ∈ dom (mapTx p)) by (apply elem_of_dom; by exists f).
  destruct (descendants_of _ V' q Oq h Hq) as (D & _ & HD). destruct (descendants_of _ V p Op h Hp) as (D0 & _ & HD0).
  destruct (ancestors_exist K V' q h e Oq E) as [A HA]. destruct (ancestors_exist K V p h f Op F) as [A0 HA0].
  assert (SD : D ⊆ D0) by (intros y Hy; apply HD0, Rt; by apply HD).
  assert (SA : A ⊆ A0) by (intros y Hy; apply HA0, Rt; by apply HA).
  pose proof (descendants_sub V' q h D Hq HD) as UD. pose proof (ancestors_sub V' q h A Hq HA) as UA.
  assert (Le : forall k s s0, k = Count \/ k = Size -> s ⊆ s0 -> s ⊆ dom (mapTx q) ->
  wsum (weight q k) s <= wsum (weight p k) s0). { intros k s s0 Hk Ss Su.
  rewrite (wsum_ext (weight q k) (weight p k)) by (intros a Ha; apply Wt; [done|by apply Su]).
  apply wsum_mono; [done|]. intros a _. apply entry_weight_nonneg; [apply (ok_index _ _ _ Op)|].
  by destruct Hk as [->| ->]. }
  destruct (H h f F) as (H1 & H2 & H3 & H4). pose proof (exact_anc K V' q h e A Count Oq K1 E HA ltac:(by left)) as
  X1. pose proof (exact_anc K V' q h e A Size Oq K2 E HA ltac:(by right)) as X2.
  pose proof (exact_desc K V' q h e D Count Oq E HD ltac:(by left)) as X3.
  pose proof (exact_desc K V' q h e D Size Oq E HD ltac:(by right)) as X4.
  pose proof (exact_anc K V p h f A0 Count Op K1 F HA0 ltac:(by left)) as Y1.
    pose proof (exact_anc K V p h f A0 Size Op K2 F HA0 ltac:(by right)) as Y2.
    pose proof (exact_desc K V p h f D0 Count Op F HD0 ltac:(by left)) as Y3.
    pose proof (exact_desc K V p h f D0 Size Op F HD0 ltac:(by right)) as Y4.
  cbn [anc_stat desc_stat] in *. pose proof (Le Count A A0 ltac:(by left) SA UA).
    pose proof (Le Size A A0 ltac:(by right) SA UA). pose proof (Le Count D D0 ltac:(by left) SD UD).
    pose proof (Le Size D D0 ltac:(by right) SD UD). lia.
Qed.
Lemma within_shrunk K V p q R lim : pool_ok K V p -> pool_ok K V q -> K Count -> K Size -> shrunk R p q ->
  within lim p -> within lim q.
Proof.
  intros Op Oq K1 K2 S. apply (within_smaller K V V p q lim Op Oq K1 K2).
  - intros h e E. destruct (shrunk_lookup R p q h e S E) as (f & F & _). by exists f.
  - intros c a. by apply (shrunk_rtc R).
  - intros k h _ [e E]%elem_of_dom. destruct (shrunk_lookup R p q h e S E) as (f & F & C). unfold weight.
    rewrite E, F. by apply core_weight.
Qed.
Lemma extended_weight p entry p' k h : extended p entry p' -> h <> GetHash (e_tx entry) ->
  weight p' k h = weight p k h.
Proof. intros [X _] N. specialize (X h). rewrite bool_decide_eq_false_2 in X by done. unfold weight.
  destruct (mapTx p' !! h), (mapTx p !! h); try done. apply (inj Some) in X. by apply core_weight. Qed.
Lemma extended_new p entry p' : extended p entry p' -> exists en, mapTx p' !! GetHash (e_tx entry) = Some en /\
  weight p' Count (GetHash (e_tx entry)) = 1 /\ weight p' Size (GetHash (e_tx entry)) = nTxSize entry.
Proof.
  intros [X _]. specialize (X (GetHash (e_tx entry))). rewrite bool_decide_eq_true_2 in X by done. unfold weight.
  destruct (mapTx p' !! _) as [en|]; [|done]. apply (inj Some) in X. exists en. split; [done|].
  rewrite !(core_weight _ _ _ X). cbn [weight_of]. split; [done|apply with_delta_tx].
Qed.
Lemma within_accept K V V' p lim entry p' : pool_ok K V p -> K Count -> K Size -> addable V V' p entry ->
  within lim p -> 1 <= limitAncestorCount lim -> 1 <= limitDescendantCount lim ->
  nTxSize entry <= limitAncestorSize lim -> nTxSize entry <= limitDescendantSize lim ->
  accept p lim entry = Some p' -> within lim p'.
Proof.
  intros O K1 K2 Ad W L1 L2 L3 L4. unfold accept. intros H.
  apply obind_Some in H as ([err|A] & EA & H); [by injection H as <-|].
  pose proof (limited_ancestors_exact p (links_dom _ V p O) (parents_in _ V p O) _ entry lim A EA) as HA.
  set (n := GetHash (e_tx entry)) in *.
  destruct (addUnchecked_ok K V V' p entry A O Ad HA) as (q & Eq & Oq & Ex & Rt). fold n in Eq, Rt. rewrite H in Eq.
  injection Eq as <-. destruct (ad_entry _ _ _ _ Ad) as (Sz & _). pose proof (ad_size _ _ _ _ Ad) as Tot.
  pose proof (wsum_size_bounds K V p O (dom (mapTx p)) ltac:(done)) as Bt.
  destruct (limited_ancestors K V p lim O n entry A ltac:(lia) EA) as [LA Al]. pose proof (ad_fresh _ _ _ _ Ad) as Fr.
  fold n in Fr. destruct (extended_new p entry p' Ex) as (en & En & W1 & W2). fold n in En, W1, W2.
  assert (Au : A ⊆ dom (mapTx p)). { intros y Hy. apply HA in Hy as (z & Hz & _ & P). apply (rtc_parent_of _ V p O) in
  P. by apply (rtc_dom V p z y P). }
  assert (Wo : forall k (s : gset txid), n ∉ s -> wsum (weight p' k) s = wsum (weight p k) s) by (intros k s N;
  apply wsum_ext; intros a Ha; apply (extended_weight p entry); [done|]; by intros ->).
  assert (Na : n ∉ A) by (intros Hn; by apply Fr, Au). assert (HAn : Ancestors V' p' n ({[n]} ∪ A)).
  { intros y. rewrite Rt, elem_of_union, elem_of_singleton. split; [intros [->|]; [by left|by right]|].
  intros [P|[_ P]]; [left; by apply (nothing_from_new p entry Fr V)|by right]. }
  assert (HDn : Descendants V' p' n {[n]}). { intros y. rewrite Rt, elem_of_singleton. split;
  [intros ->; by left|]. intros [P|[-> _]]; [by apply (nothing_to_new p entry Fr V)|done]. }
  intros h e E. destruct (decide (h = n)) as [->|N].
  - rewrite En in E. injection E as <-. pose proof (exact_anc K V' p' n en _ Count Oq K1 En HAn ltac:(by left)) as X1.
    pose proof (exact_anc K V' p' n en _ Size Oq K2 En HAn ltac:(by right)) as X2.
    pose proof (exact_desc K V' p' n en _ Count Oq En HDn ltac:(by left)) as X3.
    pose proof (exact_desc K V' p' n en _ Size Oq En HDn ltac:(by right)) as X4.
    rewrite wsum_insert, Wo in X1, X2 by done. rewrite wsum_singleton in X3, X4. rewrite W1 in X1, X3.
    rewrite W2 in X2, X4. rewrite count_set_size in X1 by done. cbn [anc_stat desc_stat] in *.
    destruct LA as [->|[LA1 LA2]]; [rewrite wsum_empty in X2; change (set_size ∅) with 0 in X1|]; lia.
  - pose proof (proj1 Ex h) as Ch. rewrite E, bool_decide_eq_false_2 in Ch by done.
    destruct (mapTx p !! h) as [f|] eqn:F; [|done]. clear Ch.
    assert (Hh : h ∈ dom (mapTx p)) by (apply elem_of_dom; by exists f). destruct (W h f F) as (B1 & B2 & B3 & B4).
    destruct (ancestors_exist K V p h f O F) as [B HB].
    assert (HB' : Ancestors V' p' h B) by (intros y; rewrite Rt, (HB y); naive_solver).
    destruct (descendants_of _ V p O h Hh) as (D & _ & HD).
    assert (Nb : n ∉ B) by (intros Hn; apply Fr; by apply (ancestors_sub V p h B Hh HB)).
    assert (Nd : n ∉ D) by (intros Hn; apply Fr; by apply (descendants_sub V p h D Hh HD)).
    pose proof (exact_anc K V' p' h e B Count Oq K1 E HB' ltac:(by left)) as X1.
      pose proof (exact_anc K V' p' h e B Size Oq K2 E HB' ltac:(by right)) as X2.
      pose proof (exact_anc K V p h f B Count O K1 F HB ltac:(by left)) as Y1.
      pose proof (exact_anc K V p h f B Size O K2 F HB ltac:(by right)) as Y2.
      pose proof (exact_desc K V p h f D Count O F HD ltac:(by left)) as Y3.
      pose proof (exact_desc K V p h f D Size O F HD ltac:(by right)) as Y4. rewrite Wo in X1, X2 by done.
      cbn [anc_stat desc_stat] in *.
    destruct (decide (h ∈ A)) as [Ha|Ha].
    + assert (HD' : Descendants V' p' h ({[n]} ∪ D)) by (intros y;
      rewrite Rt, elem_of_union, elem_of_singleton, (HD y); naive_solver).
      pose proof (exact_desc K V' p' h e _ Count Oq E HD' ltac:(by left)) as X3.
      pose proof (exact_desc K V' p' h e _ Size Oq E HD' ltac:(by right)) as X4.
      rewrite wsum_insert, Wo in X3, X4 by done. rewrite W1 in X3. rewrite W2 in X4. cbn [desc_stat] in *.
      destruct (Al h Ha) as (f' & F' & G1 & G2). rewrite F in F'. injection F' as <-. lia.
    + assert (HD' : Descendants V' p' h D) by (intros y; rewrite Rt, (HD y); naive_solver).
      pose proof (exact_desc K V' p' h e _ Count Oq E HD' ltac:(by left)) as X3.
      pose proof (exact_desc K V' p' h e _ Size Oq E HD' ltac:(by right)) as X4. rewrite Wo in X3, X4 by done.
      cbn [desc_stat] in *. lia.
Qed.
(** The operations the limits are meant for; a reorganization may exceed them. *)
Definition respects (lim : Limits) (op : pool_op) : Prop :=
  match op with
  | OpAccept lim' entry => lim' = lim /\ nTxSize entry <= limitAncestorSize lim /\
    nTxSize entry <= limitDescendantSize lim
  | OpRelink _ => False
  | _ => True
  end.

(** * Two operations that do not keep the pool consistent *)

Lemma check_entry_fees K p h e B : pool_ok K ∅ p -> mapTx p !! h = Some e -> Ancestors ∅ p h B ->
  is_Some (check_entry p h e) -> nModFeesWithAncestors e = i64 (wsum (weight p Fee) B).
Proof.
  intros O E HB [u Hc]. unfold check_entry in Hc. apply obind_Some in Hc as (l & El & Hc).
  apply obind_Some in Hc as (z & _ & Hc). apply obind_Some in Hc as (A & HA & Hc).
  apply obind_Some in Hc as (s & Es & Hc). case_bool_decide as Pp; [|done].
  destruct (new_ancestors_exact p (links_dom _ ∅ p O) (parents_in _ ∅ p O) h e (size_small p (ok_index _ _ _ O) h e
  E)) as (A' & EA & HA'). rewrite EA in HA. injection HA as ->. destruct (ok_links _ _ _ O) as [_ LK]. destruct (LK h
  l El) as [Hp _].
  assert (HT : forall y, y ∈ A <-> tc (linked ∅ p) h y).
  { intros y. rewrite HA', tc_first. unfold new_ancestor. setoid_rewrite (rtc_parent_of _ ∅ p O).
  split; intros (w & H); exists w; [destruct H as (H1 & H2 & P); split; [|done]; apply Hp; rewrite <- Pp; by apply
  elem_of_parents_check|destruct H as [L P]; apply Hp in L; rewrite <- Pp in L;
  apply elem_of_parents_check in L as [? ?]; done]. }
  assert (Nh : h ∉ A) by (intros H; apply HT in H; by apply (ok_acyclic _ _ _ O h)).
  assert (HAn : Ancestors ∅ p h ({[h]} ∪ A)) by (intros y; rewrite elem_of_union, elem_of_singleton, HT, rtc_tc;
  naive_solver). assert (Hh : h ∈ dom (mapTx p)) by (apply elem_of_dom; by exists e).
  assert (B = {[h]} ∪ A) as -> by (apply set_eq; intros y; by rewrite (HB y), (HAn y)).
  pose proof (ancestors_sub ∅ p h _ Hh HAn) as SA. destruct (sum_ancestors_ok p e A ltac:(set_solver)) as (s' & Es' &
  S1 & S2 & _ & S4 & _). rewrite Es in Es'. injection Es' as <-. rewrite wsum_insert by done. unfold weight at
  1. rewrite E. cbn [weight_of]. rewrite <- S4.
  assert (Cn : i64 (nFeesCheck s) = nFeesCheck s). { destruct S1 as [->|(_ & H & _)];
  [|done]. rewrite (S2 eq_refl). apply i64_idem. } rewrite Cn. destruct (Z.eqb_spec (nModFeesWithAncestors e)
  (nFeesCheck s)) as [|N]; [done|]. by rewrite andb_false_r in Hc.
Qed.
(** C40: raising or lowering the priority of a transaction that has a descendant in a
    consistent pool leaves the fees with ancestors of the descendant as they were, and the
    consistency check of the pool, which succeeded before, fails. *)
Theorem PrioritiseTransaction_breaks_check (p : CTxMemPool) (hash c : txid) (dPriorityDelta : spec_float) (nFeeDelta : Z) :
  pool_ok every ∅ p -> tc (linked ∅ p) c hash -> nFeeDelta mod 2 ^ 64 <> 0 ->
  check_pool p = true /\ exists p', PrioritiseTransaction p hash dPriorityDelta nFeeDelta = Some p' /\ check_pool p' = false.
Proof.
  intros O T Nz. split; [by apply check_ok|]. destruct (PrioritiseTransaction_stale every ∅ p hash dPriorityDelta nFeeDelta c O I T
  Nz) as (p' & f & B & Ep & F & HB & Ne). exists p'. split; [done|]. apply not_true_iff_false. intros Hc. apply Ne.
  assert (O' : exists K, pool_ok K ∅ p'). { pose proof (PrioritiseTransaction_ok every ∅ p hash dPriorityDelta nFeeDelta O) as
  S. destruct (mapTx p !! hash) as [e|] eqn:E; [destruct S as (A & HA & Eq); rewrite Ep in Eq; injection Eq as
  ->; eexists; by apply (prioritised_ok every ∅ p hash dPriorityDelta nFeeDelta e A)|destruct S as (q & Eq & Oq); rewrite Ep in Eq;
  injection Eq as <-; by exists every]. }
  destruct O' as [K' O']. apply (check_entry_fees K' p' c f B O' F HB). unfold check_pool in Hc.
  rewrite !andb_true_iff in Hc. destruct Hc as [[[Hc _] _] _]. rewrite forallb_forall in Hc. specialize (Hc (c, f)).
  cbn [fst snd] in Hc. apply bool_decide_eq_true in Hc; [done|]. by apply list_elem_of_In, elem_of_map_to_list.
Qed.
(** Clearing the pool keeps the nullifiers of its transactions: they still count as
    spent, and the consistency check of the empty pool fails. *)
Theorem clear_keeps_nullifiers (p : CTxMemPool) (nf : txid) :
  nullifierExists p nf = true -> mapTx (clear p) = ∅ /\ nullifierExists (clear p) nf = true /\
    check_pool (clear p) = false.
Proof.
  intros H. split; [done|]. split; [done|]. apply not_true_iff_false. unfold check_pool. rewrite !andb_true_iff.
  intros [[_ Hc] _]. unfold checkNullifiers in Hc. rewrite forallb_forall in Hc. unfold nullifierExists in H.
  apply bool_decide_eq_true in H as [t E]. specialize (Hc (nf, t) ltac:(by apply list_elem_of_In,
  elem_of_map_to_list)). done.
Qed.
End Theorems.

(** * Examples *)

(** The preconditions of adding, computed. *)
Section Decide.
Context {abi : Abi} {crypto : ScriptCrypto}.
Definition spends_fromb (tx : CTransaction) (a : txid) : bool := existsb (fun i =>
  bool_decide (out_hash (prevout i) = a)) (vin tx).
Lemma spends_fromb_ok tx a : spends_fromb tx a = true <-> spends_from tx a.
Proof.
  unfold spends_fromb, spends_from. rewrite existsb_exists.
    split; intros (i & H1 & H2); exists i; [apply list_elem_of_In in H1; by apply bool_decide_eq_true in H2|split; [by
    apply list_elem_of_In|by apply bool_decide_eq_true_2]].
Qed.
Definition aloneb (e : CTxMemPoolEntry) : bool :=
  forallb (fun k => (bool_decide (k = Ops) || (desc_stat k e =? wrap k (weight_of k e))) &&
    (anc_stat k e =? wrap k (weight_of k e))) [Count; Size; Fee; Ops].
Lemma aloneb_ok e : aloneb e = true -> alone e.
Proof.
  unfold aloneb. rewrite forallb_forall. intros H k. specialize (H k ltac:(destruct k; cbn; tauto)).
    apply andb_true_iff in H as [H1 H2]. apply Z.eqb_eq in H2. split; [|done]. intros N.
    rewrite bool_decide_eq_false_2 in H1 by done. by apply Z.eqb_eq in H1.
Qed.
Definition addableb (V V' : gset txid) (p : CTxMemPool) (entry : CTxMemPoolEntry) : bool :=
  let tx := e_tx entry in let n := GetHash tx in
  negb (exists_tx p n) && (feeDelta entry =? 0) && aloneb entry && (0 <? nTxSize entry) && (0 <=? sigOpCount entry) &&
    negb (HasZerocoinSpendInputs tx) &&
  (wsum (weight p Size) (dom (mapTx p)) + nTxSize entry <? 2 ^ 63) &&
    (wsum (weight p Ops) (dom (mapTx p)) + sigOpCount entry <? 2 ^ 31) &&
  forallb (fun o => negb (isSpent p o)) (inputs_of tx) && forallb (fun nf =>
    negb (nullifierExists p nf)) (nullifiers tx) && negb (spends_fromb tx n) &&
  bool_decide (V' ∖ {[n]} = V ∖ {[n]}) &&
  forallb (fun ce => negb (spends_fromb (e_tx (snd ce)) n) || (bool_decide (n ∈ V') &&
    negb (bool_decide (fst ce ∈ V')))) (map_to_list (mapTx p)) &&
  forallb (fun a => negb (spends_fromb tx a) || negb (bool_decide (a ∈ V')) ||
    bool_decide (n ∈ V')) (elements (dom (mapTx p))).
Lemma addableb_ok V V' p entry : addableb V V' p entry = true -> addable V V' p entry.
Proof.
  unfold addableb. cbn zeta. set (n := GetHash (e_tx entry)).
    rewrite !andb_true_iff, !forallb_forall, !negb_true_iff, Z.eqb_eq, !Z.ltb_lt, Z.leb_le, bool_decide_eq_true,
    exists_tx_dom, bool_decide_eq_false. intros [[[[[[[[[[[[[H1 H2] H3] H4] H5] H6] H7] H8] H9] H10] H11] H12] H13]
    H14]. split; fold n.
  - done.
  - split; [done|by apply aloneb_ok].
  - done.
  - done.
  - done.
  - intros o Ho. apply list_elem_of_In, H9 in Ho. by apply negb_true_iff in Ho.
  - intros nf Hn. apply list_elem_of_In, H10 in Hn. by apply negb_true_iff in Hn.
  - rewrite <- spends_fromb_ok, H11. done.
  - intros h N. assert (E : h ∈ V' ∖ {[n]} <-> h ∈ V ∖ {[n]}) by (by rewrite H12). set_solver.
  - intros c e E F. specialize (H13 (c, e) ltac:(by apply list_elem_of_In, elem_of_map_to_list)).
    cbn [fst snd] in H13. apply spends_fromb_ok in F. rewrite F in H13. cbn [negb orb] in H13.
    apply andb_true_iff in H13 as [G1 G2]. apply bool_decide_eq_true in G1.
    apply negb_true_iff, bool_decide_eq_false in G2. done.
  - intros a Ha F Hv. specialize (H14 a ltac:(by apply list_elem_of_In, elem_of_elements)).
    apply spends_fromb_ok in F. rewrite F, (bool_decide_eq_true_2 (a ∈ V')) in H14 by done. cbn [negb orb] in H14.
    by apply bool_decide_eq_true in H14.
Qed.
Definition withinb (lim : Limits) (p : CTxMemPool) : bool :=
  forallb (fun he => let e := snd he in (nCountWithAncestors e <=? limitAncestorCount lim) &&
    (nSizeWithAncestors e <=? limitAncestorSize lim) && (nCountWithDescendants e <=? limitDescendantCount lim) &&
    (nSizeWithDescendants e <=? limitDescendantSize lim)) (map_to_list (mapTx p)).
Lemma withinb_ok lim p : withinb lim p = true -> within lim p.
Proof.
  unfold withinb. rewrite forallb_forall. intros H h e E.
    specialize (H (h, e) ltac:(by apply list_elem_of_In, elem_of_map_to_list)). cbn [snd] in H.
    rewrite !andb_true_iff, !Z.leb_le in H. tauto.
Qed.
End Decide.
(** A parent and its child. *)
#[local] Existing Instance abi64.
#[local] Existing Instance toy_crypto.
Definition ex_child : CTransaction := mkTx 3 0 [mkTxIn (mkOutPoint (GetHash ex_tx) 1) [OP_1] 5] [mkTxOut 5 [OP_1]
  (-10)] 0 None None.
Definition ex_entry (tx : CTransaction) (fee : Z) : CTxMemPoolEntry :=
  default (mkPoolEntry tx 0 0 0 false 0 0 0 0 0 0 0 0 0) (new_entry tx fee 1600000000 false 2 0 (fee + 1)).
Definition ex_limits : Limits := mkLimits 25 101000 25 101000.
Definition ex_pool0 : CTxMemPool := Eval vm_compute in empty_pool ∅.
Definition ex_pool1 : CTxMemPool := Eval vm_compute in default ex_pool0 (accept ex_pool0 ex_limits (ex_entry ex_tx
  1000)).
Definition ex_pool2 : CTxMemPool := Eval vm_compute in default ex_pool0 (accept ex_pool1 ex_limits (ex_entry ex_child
  500)).
Lemma ex_reachable1 : reachable true ∅ ex_pool1.
Proof. apply (reach_step true ∅ ∅ ex_pool0 ex_pool1 (OpAccept ex_limits (ex_entry ex_tx 1000)));
  [apply reach_empty|apply addableb_ok; vm_compute; reflexivity|vm_compute; reflexivity]. Qed.
Lemma ex_reachable2 : reachable true ∅ ex_pool2.
Proof. apply (reach_step true ∅ ∅ ex_pool1 ex_pool2 (OpAccept ex_limits (ex_entry ex_child 500)));
  [apply ex_reachable1|apply addableb_ok; vm_compute; reflexivity|vm_compute; reflexivity]. Qed.
Lemma every_of_kept V p : pool_ok (kept true) V p -> pool_ok every V p.
Proof. intros O. eapply pool_ok_weaken; [exact O|]. intros k _. by left. Qed.
Lemma add_remove_roundtrip_witness : addableb ∅ ∅ ex_pool1 (ex_entry ex_child 500) = true /\
  exists p' p'', addUnchecked_simple ex_pool1 (GetHash ex_child) (ex_entry ex_child 500) = Some p' /\
    removeRecursive p' ex_child = Some p'' /\
    mapTx p'' = mapTx ex_pool1 /\ mapLinks p'' = mapLinks ex_pool1 /\ mapNextTx p'' = mapNextTx ex_pool1 /\
      mapSaplingNullifiers p'' = mapSaplingNullifiers ex_pool1 /\
    totalTxSize p'' = totalTxSize ex_pool1 /\ mapDeltas p'' = mapDeltas ex_pool1.
Proof.
  split; [vm_compute; reflexivity|]. apply (add_remove_roundtrip ex_pool1 (ex_entry ex_child 500));
  [apply every_of_kept, reachable_ok, ex_reachable1|apply addableb_ok; vm_compute; reflexivity].
Defined.
(** A block confirms a rival of the first transaction, which leaves with its child. *)
Definition ex_rival : CTransaction := mkTx 4 0 [mkTxIn (mkOutPoint (repeat 7 32) 1) [OP_1] 5] [mkTxOut 90 [OP_1] (-10)] 0 None None.
Lemma ex_block_order : block_order ∅ ex_pool2 [ex_rival].
Proof.
  intros pre tx post e a E F _. destruct pre as [|t pre]; [|by destruct pre]. injection E as <- <-.
  vm_compute in F. discriminate.
Qed.
Lemma ex_ousted : ousted ∅ ex_pool2 [ex_rival] (GetHash ex_child).
Proof.
  exists ex_rival, (GetHash ex_tx). eexists. split; [set_solver|]. split; [vm_compute; reflexivity|]. split.
  - intros (tx & ->%list_elem_of_singleton & E). vm_compute in E. discriminate.
  - split; [left; exists (mkOutPoint (repeat 7 32) 1); split; apply list_elem_of_singleton; reflexivity|].
    apply rtc_once. split; [|set_solver]. eexists. split; [vm_compute; reflexivity|].
    split; [apply elem_of_dom; eexists; vm_compute; reflexivity|].
    exists (mkTxIn (mkOutPoint (GetHash ex_tx) 1) [OP_1] 5). split; [apply list_elem_of_singleton; vm_compute; reflexivity|done].
Qed.
Lemma removeForBlock_exact_witness : GetHash ex_child ∈ dom (mapTx ex_pool2) /\ exists p',
  removeForBlock ex_pool2 [ex_rival] = Some p' /\ pool_ok (kept true) ∅ p' /\ GetHash ex_child ∉ dom (mapTx p').
Proof.
  split; [apply elem_of_dom; eexists; vm_compute; reflexivity|].
  destruct (removeForBlock_exact (kept true) ∅ ex_pool2 [ex_rival]) as (p' & E & O & _ & H & _);
    [intros k _; by left|apply reachable_ok, ex_reachable2|exact ex_block_order|].
  exists p'. split; [exact E|]. split; [exact O|]. apply H, ex_ousted.
Defined.
(** The child was in the pool when its parent was returned to it. *)
Definition ex_orphan : CTxMemPool := Eval vm_compute in default ex_pool0 (accept ex_pool0 ex_limits (ex_entry ex_child
  500)).
Definition ex_returned : CTxMemPool := Eval vm_compute in default ex_pool0 (accept ex_orphan ex_limits (ex_entry ex_tx
  1000)).
Lemma ex_reachable_returned : reachable true {[GetHash ex_tx]} ex_returned.
Proof.
  apply (reach_step true ∅ {[GetHash ex_tx]} ex_orphan ex_returned (OpAccept ex_limits (ex_entry ex_tx 1000)));
  [|apply addableb_ok; vm_compute; reflexivity|vm_compute; reflexivity].
  apply (reach_step true ∅ ∅ ex_pool0 ex_orphan (OpAccept ex_limits (ex_entry ex_child 500)));
  [apply reach_empty|apply addableb_ok; vm_compute; reflexivity|vm_compute; reflexivity].
Qed.
Lemma ex_no_parents a : ~ spends ex_returned (GetHash ex_tx) a.
Proof.
  intros (f & F & Ha & i & Hi & <-). assert (G : forall f, mapTx ex_returned !! GetHash ex_tx = Some f ->
  e_tx f = ex_tx) by (intros g G; vm_compute in G; by injection G as <-).
  rewrite (G f F) in Hi. apply list_elem_of_singleton in Hi as ->. apply elem_of_dom in Ha as [g G'].
  vm_compute in G'. discriminate.
Qed.
Lemma UpdateTransactionsFromBlock_restores_witness : check_pool ex_returned = false /\ exists p',
  UpdateTransactionsFromBlock ex_returned [GetHash ex_tx] = Some p' /\ pool_ok (kept true) ∅ p' /\
  same_core p' ex_returned.
Proof.
  split; [vm_compute; reflexivity|]. apply (UpdateTransactionsFromBlock_restores (kept true) {[GetHash ex_tx]}
  ex_returned [GetHash ex_tx]).
  - intros k _. by left.
  - apply reachable_ok, ex_reachable_returned.
  - intros x a ->%elem_of_singleton S. by destruct (ex_no_parents a S).
  - set_solver.
  - apply NoDup_singleton.
  - intros pre x post y E ->%elem_of_singleton S. destruct pre as [|t pre]; [|by destruct pre]. injection E as <- <-.
    by destruct (ex_no_parents _ S).
Defined.
Lemma ex_linked : linked ∅ ex_pool2 (GetHash ex_child) (GetHash ex_tx).
Proof.
  split; [|set_solver]. assert (G : exists e, mapTx ex_pool2 !! GetHash ex_child = Some e /\
  e_tx e = ex_child) by (eexists; split; [vm_compute; reflexivity|vm_compute; reflexivity]).
  destruct G as (e & E & Et). exists e. split; [done|]. split; [apply elem_of_dom; eexists; vm_compute; reflexivity|].
  rewrite Et. apply spends_fromb_ok. vm_compute. reflexivity.
Qed.
Lemma PrioritiseTransaction_breaks_check_witness : check_pool ex_pool2 = true /\ exists p',
  PrioritiseTransaction ex_pool2 (GetHash ex_tx) (S754_zero false) 700 = Some p' /\ check_pool p' = false.
Proof. apply (PrioritiseTransaction_breaks_check ex_pool2 (GetHash ex_tx) (GetHash ex_child) (S754_zero false) 700);
  [apply every_of_kept, reachable_ok, ex_reachable2|apply tc_once, ex_linked|vm_compute; discriminate]. Defined.
Lemma clear_keeps_nullifiers_witness : let p := mkPool ∅ ∅ ∅ ∅ {[repeat 9 32 :=
  ex_tx]} 0 0 in nullifierExists p (repeat 9 32) = true /\ mapTx (clear p) = ∅ /\
  nullifierExists (clear p) (repeat 9 32) = true /\ check_pool (clear p) = false.
Proof. intros p. split; [vm_compute; reflexivity|]. apply (clear_keeps_nullifiers p (repeat 9 32)). vm_compute.
  reflexivity. Defined.
