(* ===== verification/Ledger.v ===== *)
(** The coin caches against the plain ledger (src/coins.cpp): every operation of a
    cache over any view, one by one and in sequences. *)
From Stdlib Require Import ZArith Lia List Bool.
From stdpp Require Import base gmap list.
From S2P Require Import Prelude Serialize Script Transaction Compressor Coins.
Import ListNotations.
Local Open Scope Z_scope.
Local Open Scope passion_scope.

Section CacheModels.
Context `{STL : SaplingTreeLib} {V : Type} {view : CoinsReader V}.
Implicit Types (c : CCoinsViewCache V).

(** The cache stands for the ledger. *)
Definition models c (l : Ledger) : Prop := cache_ok c /\ leq (cache_ledger c) l.

Lemma models_leq c l l' : models c l -> leq l l' -> models c l'.
Proof. intros [Hok Hl] Hl'. split; [done|]. by transitivity l. Qed.
(** A read: another cache that stands for what this one did. *)
Lemma models_read c c' l : models c l -> cache_ok c' -> leq (cache_ledger c') (cache_ledger c) -> models c' l.
Proof. intros [Hok Hl] Hok' Hl'. split; [done|]. by transitivity (cache_ledger c). Qed.

Lemma FetchCoin_models c l o r c' : models c l -> FetchCoin c o = (r, c') ->
  models c' l /\ keeps_hashes c c' /\ cacheCoins c' !! o = r /\
  l_utxo l o = match r with Some e => live (coin e) | None => None end.
Proof.
  intros Hm Hf. pose proof Hm as [Hok Hl]. destruct (FetchCoin_spec _ _ _ _ Hok Hf) as (Hok' & Hl' & Hk & Hr & Hu).
  split; [by eapply models_read|]. split; [done|]. split; [done|]. by rewrite <- (proj1 Hl).
Qed.
Lemma HaveCoin_models c l o b c' : models c l -> HaveCoin c o = (b, c') ->
  models c' l /\ keeps_hashes c c' /\ b = match l_utxo l o with Some _ => true | None => false end.
Proof.
  intros Hm. unfold HaveCoin. destruct (FetchCoin c o) as [it c1] eqn:Ef. intros [= <- <-].
  destruct (FetchCoin_models _ _ _ _ _ Hm Ef) as (Hm' & Hk & _ & Hr). split; [done|]. split; [done|]. rewrite Hr.
  destruct it as [e|]; [|done]. unfold live. by destruct (IsSpent (coin e)).
Qed.
(** An absent coin and a spent one are the same to the callers. *)
Lemma AccessCoin_models c l o r c' : models c l -> AccessCoin c o = (r, c') ->
  models c' l /\ keeps_hashes c c' /\ l_utxo l o = live r.
Proof.
  intros Hm. unfold AccessCoin. destruct (FetchCoin c o) as [it c1] eqn:Ef. intros [= <- <-].
  destruct (FetchCoin_models _ _ _ _ _ Hm Ef) as (Hm' & Hk & _ & Hr). split; [done|]. split; [done|].
  rewrite Hr. by destruct it.
Qed.

(** Outputs that never enter the set. *)
Definition skipped (cn : Coin) : bool :=
  IsUnspendable (scriptPubKey (coin_out cn)) || CTxOut_IsZerocoinMint (coin_out cn).
Definition upd_coin (f : COutPoint -> option Coin) (o : COutPoint) (v : option Coin) (o' : COutPoint) : option Coin :=
  if decide (o = o') then v else f o'.
Definition with_utxo (l : Ledger) (f : COutPoint -> option Coin) : Ledger :=
  mkLedger f (l_spent l) (l_best l) (l_anchors l) (l_anchor l).

Lemma models_utxo c c' l f : models c l -> cache_ok c' ->
  (forall o, cache_utxo c' o = f o) -> cacheSaplingNullifiers c' = cacheSaplingNullifiers c -> hashBlock c' = hashBlock c ->
  cacheSaplingAnchors c' = cacheSaplingAnchors c -> hashSaplingAnchor c' = hashSaplingAnchor c -> base c' = base c ->
  models c' (with_utxo l f).
Proof.
  intros [Hok (L1 & L2 & L3 & L4 & L5)] Hok' Hf E1 E2 E3 E4 E5. split; [done|]. split; [exact Hf|]. cbn in *.
  unfold cache_spent, cache_best, cache_has_anchor, cache_anchor in *. rewrite E1, E2, E3, E4, E5. done.
Qed.

(** [AddCoin] neither throws nor breaks the promise of FRESH. *)
Lemma AddCoin_models c l o cn ow : models c l -> IsSpent cn = false -> (ow = true \/ skipped cn = true \/ l_utxo l o = None) ->
  exists c', AddCoin c o cn ow = Some c' /\ keeps_hashes c c' /\
    models c' (if skipped cn then l else with_utxo l (upd_coin (l_utxo l) o (Some cn))).
Proof.
  intros Hm Hsp How. unfold AddCoin, skipped in *. rewrite Hsp.
  destruct (IsUnspendable _); [by exists c|]. destruct (CTxOut_IsZerocoinMint _); [by exists c|]. cbn [orb] in *.
  set (it := match cacheCoins c !! o with Some e => e | None => mkEntry coinEmpty false false end).
  pose proof Hm as [Hok (H1 & _)]. cbn [cache_ledger l_utxo] in H1.
  assert (Hown : ow = false -> cache_utxo c o = None)
    by (intros ->; destruct How as [?|[?|?]]; [done|done|by rewrite H1]).
  assert (Hit : ow = false -> IsSpent (coin it) = true).
  { intros E. specialize (Hown E). unfold it. unfold cache_utxo in Hown.
    destruct (cacheCoins c !! o) as [e|]; [|done]. unfold live in Hown. by destruct (IsSpent (coin e)). }
  assert (Hth : negb ow && negb (IsSpent (coin it)) = false)
    by (destruct ow; [done|]; by rewrite Hit).
  rewrite Hth. eexists. split; [done|]. split; [done|]. apply (models_utxo c); try done.
  - apply insert_coin_ok; [done|]. split; [|done]. cbn. unfold it, cache_utxo in *. destruct Hok as [Hv Hc Hn Ha].
    destruct (cacheCoins c !! o) as [e|] eqn:El; cbn.
    + destruct (Hc o e El) as [Hf Hd]. intros [E|[E1 E2]%andb_true_iff]%orb_true_iff; [by apply Hf|].
      rewrite negb_true_iff in E1, E2. rewrite Hd by done. by apply Hown.
    + rewrite andb_true_r. intros E. by apply Hown, negb_true_iff.
  - intros o'. rewrite insert_coin_utxo. unfold upd_coin. cbn. case_decide; [|apply H1]. unfold live. by rewrite Hsp.
Qed.

Lemma SpendCoin_models c l o r c' : models c l -> SpendCoin c o = (r, c') ->
  models c' (with_utxo l (upd_coin (l_utxo l) o None)) /\ keeps_hashes c c' /\
  l_utxo l o = match r with Some cn => live cn | None => None end.
Proof.
  intros Hm. unfold SpendCoin. destruct (FetchCoin c o) as [it c1] eqn:Ef.
  destruct (FetchCoin_models _ _ _ _ _ Hm Ef) as (Hm1 & Hk & Hl & Hr). pose proof Hm1 as [Hok (H1 & _)].
  cbn [cache_ledger l_utxo] in H1.
  destruct it as [e|]; intros [= <- <-].
  - split; [|split; [by destruct (FRESH e)|done]]. destruct (coins_ok c1 Hok o e Hl) as [Hf Hd]. destruct (FRESH e) eqn:Ee.
    + apply (models_utxo c1); try done; [by apply delete_coin_ok|]. intros o'. rewrite delete_coin_utxo. unfold upd_coin.
      case_decide; [|apply H1]. subst o'. by apply Hf.
    + apply (models_utxo c1); try done; [by apply insert_coin_ok|]. intros o'. rewrite insert_coin_utxo. unfold upd_coin.
      case_decide; [done|apply H1].
  - split; [|done]. apply (models_utxo c1); try done. intros o'. rewrite H1. unfold upd_coin. by case_decide; subst.
Qed.
(** Spending a coin that is there yields it. *)
Lemma SpendCoin_present c l o u : models c l -> l_utxo l o = Some u ->
  exists c', SpendCoin c o = (Some u, c') /\ models c' (with_utxo l (upd_coin (l_utxo l) o None)).
Proof.
  intros Hm Hu. destruct (SpendCoin c o) as [r c'] eqn:E.
  destruct (SpendCoin_models _ _ _ _ _ Hm E) as (Hm' & _ & Hr). rewrite Hu in Hr.
  destruct r as [cn|]; [|done]. unfold live in Hr. destruct (IsSpent cn); [done|]. injection Hr as ->. by exists c'.
Qed.

Lemma Uncache_models c l o : models c l -> models (Uncache c o) l /\ keeps_hashes c (Uncache c o).
Proof.
  intros Hm. pose proof Hm as [Hok (H1 & _)]. unfold Uncache. destruct (cacheCoins c !! o) as [e|] eqn:El; [|done].
  destruct (negb (DIRTY e) && negb (FRESH e)) eqn:Ed; [|done]. apply andb_true_iff in Ed as [Ed _].
  split; [|done]. apply (models_leq _ (with_utxo l (l_utxo l))); [|by repeat split].
  apply (models_utxo c); try done; [by apply delete_coin_ok|]. intros o'. rewrite delete_coin_utxo. case_decide; [|apply H1].
  subst o'. rewrite <- H1. cbn. unfold cache_utxo. rewrite El. apply (coins_ok c Hok o e El). by apply negb_true_iff.
Qed.

Definition with_best (l : Ledger) (h : list Z) : Ledger :=
  mkLedger (l_utxo l) (l_spent l) h (l_anchors l) (l_anchor l).
Lemma SetBestBlock_models c l h : models c l -> all_zero h = false -> models (SetBestBlock c h) (with_best l h).
Proof.
  intros [[Hv Hc Hn Ha] (L1 & L2 & L3 & L4 & L5)] Hz. split; [by split|]. split; [done|]. split; [done|]. split; [|done].
  cbn [cache_ledger l_best]. unfold cache_best, SetBestBlock. cbn [with_hashBlock hashBlock]. by rewrite Hz.
Qed.

Definition in_sapData (tx : CTransaction) (n : list Z) : bool :=
  match sapData tx with
  | Some d => existsb (fun s => bool_decide (nullifier s = n)) (vShieldedSpend d)
  | None => false
  end.
Definition with_spent (l : Ledger) (tx : CTransaction) (b : bool) : Ledger :=
  mkLedger (l_utxo l) (fun n => if in_sapData tx n then b else l_spent l n) (l_best l) (l_anchors l) (l_anchor l).

Lemma fold_set_nullifier b ds : forall m n,
  fold_left (set_nullifier b) ds m !! n =
    if existsb (fun s => bool_decide (nullifier s = n)) ds then Some (mkNullifierEntry b true) else m !! n.
Proof.
  induction ds as [|d ds IH]; intros m n; [done|]. cbn [fold_left existsb]. rewrite IH.
  unfold set_nullifier. rewrite lookup_insert. destruct (existsb _ ds); [by rewrite orb_true_r|].
  rewrite orb_false_r. case_decide; case_bool_decide; done.
Qed.

Lemma SetNullifiers_models c l tx b : models c l -> models (SetNullifiers c tx b) (with_spent l tx b).
Proof.
  intros [[Hv Hc Hn Ha] (H1 & H2 & H3)]. unfold SetNullifiers, with_spent, in_sapData.
  destruct (sapData tx) as [d|]; [|done].
  assert (Hl := fold_set_nullifier b (vShieldedSpend d) (cacheSaplingNullifiers c)).
  split; [split; [done|done| |done]|split; [done|split; [|done]]].
  - intros n e. cbn. rewrite Hl. destruct (existsb _ _); [by intros [= <-]|apply Hn].
  - intros n. cbn. unfold cache_spent. cbn. rewrite Hl, <- H2. cbn. unfold cache_spent. by destruct (existsb _ _).
Qed.
Lemma SetNullifiers_hashes c tx b : keeps_hashes c (SetNullifiers c tx b).
Proof. unfold SetNullifiers. by destruct (sapData tx). Qed.

(** * Anchors *)

Definition with_roots (l : Ledger) (f : list Z -> bool) (h : list Z) : Ledger :=
  mkLedger (l_utxo l) (l_spent l) (l_best l) f h.
Definition push_anchor (l : Ledger) (newrt : list Z) : Ledger :=
  if list_eqb (l_anchor l) newrt then l
  else with_roots l (fun r => if decide (newrt = r) then true else l_anchors l r) newrt.
Definition pop_anchor (l : Ledger) (newrt : list Z) : Ledger :=
  if list_eqb (l_anchor l) newrt then l
  else with_roots l (fun r => if decide (l_anchor l = r) then false else l_anchors l r) newrt.

Lemma models_roots c l r e newrt : models c l -> all_zero newrt = false ->
  anchor_ok (l_anchors (ledger (base c)) r) r e ->
  models (with_anchor (with_anchors c (<[r := e]> (cacheSaplingAnchors c))) newrt)
         (with_roots l (fun r' => if decide (r = r') then an_entered e else l_anchors l r') newrt).
Proof.
  intros [Hok (L1 & L2 & L3 & L4 & L5)] Hz He. pose proof (insert_anchor_ok c r e Hok He) as Hok'. split.
  - destruct Hok' as [Hv Hc Hn Ha]. by split.
  - split; [exact L1|]. split; [exact L2|]. split; [exact L3|]. split.
    + intros r'. cbn. pose proof (insert_anchor_has c r e r') as E. unfold cache_has_anchor in E at 1. unfold cache_has_anchor.
      cbn in *. rewrite E. case_decide; [done|apply L4].
    + cbn [cache_ledger l_anchor with_roots]. unfold cache_anchor. cbn [hashSaplingAnchor with_anchor]. by rewrite Hz.
Qed.

Lemma PushAnchor_models c l t : models c l -> all_zero (tree_root t) = false ->
  models (PushAnchor c t) (push_anchor l (tree_root t)) /\ hashSaplingAnchor (PushAnchor c t) = tree_root t /\
  (all_zero (hashBlock c) = false -> hashBlock (PushAnchor c t) = hashBlock c).
Proof.
  intros Hm Hz. unfold PushAnchor, push_anchor. destruct (cache_GetBestAnchor c) as [h c1] eqn:Eg.
  pose proof Hm as [Hok (_ & _ & _ & _ & L5)]. cbn in L5.
  destruct (cache_GetBestAnchor_spec _ _ _ Hok Eg) as (Hok1 & Hl1 & Hk & Hh & Hb).
  assert (Hm1 : models c1 l) by (by eapply models_read). rewrite <- L5, Hb. destruct (list_eqb h (tree_root t)) eqn:E; cbn [negb].
  - apply list_eqb_eq in E. split; [done|]. split; [by rewrite Hh|apply Hk].
  - split; [|split; [done|apply Hk]]. by apply (models_roots c1 l (tree_root t) (mkAnchorEntry _ true t true)).
Qed.

(** What [PopAnchor] needs: the best anchor is there and is not the empty root. *)
Lemma PopAnchor_models c l newrt : models c l -> all_zero newrt = false ->
  (l_anchor l <> newrt -> l_anchors l (l_anchor l) = true /\ l_anchor l <> empty_root) ->
  exists c', PopAnchor c newrt = Some c' /\ models c' (pop_anchor l newrt) /\ hashSaplingAnchor c' = newrt /\
    (all_zero (hashBlock c) = false -> hashBlock c' = hashBlock c).
Proof.
  intros Hm Hz Hpre. unfold PopAnchor, pop_anchor. destruct (cache_GetBestAnchor c) as [h c1] eqn:Eg.
  pose proof Hm as [Hok (_ & _ & _ & _ & L5)]. cbn in L5.
  destruct (cache_GetBestAnchor_spec _ _ _ Hok Eg) as (Hok1 & Hl1 & Hk & Hh & Hb).
  assert (Hm1 : models c1 l) by (by eapply models_read). assert (El : l_anchor l = h) by (by rewrite <- L5).
  rewrite El in *. destruct (list_eqb h newrt) eqn:E; cbn [negb].
  { apply list_eqb_eq in E. exists c1. split; [done|]. split; [done|]. split; [by rewrite Hh|apply Hk]. }
  destruct Hpre as [Hp1 Hp2]. { intros ->. by rewrite (proj2 (list_eqb_eq _ _) eq_refl) in E. }
  destruct (cache_GetSaplingAnchorAt c1 h) as [t c2] eqn:Ea.
  destruct (cache_GetSaplingAnchorAt_spec _ _ _ _ Hok1 Ea) as (Hok2 & Hl2 & Hk2 & Ht).
  assert (Hm2 : models c2 l) by (by eapply models_read).
  assert (Hhas : cache_has_anchor c1 h = true) by (rewrite <- Hp1; apply Hm1).
  destruct t as [t|]; [|congruence]. destruct Ht as (_ & _ & e & He). rewrite He.
  eexists. split; [done|]. split; [|split; [done|]].
  - apply (models_roots c2 l h (mkAnchorEntry _ false (tree e) true)); [done|done|].
    split; [by apply (anchors_ok c2 Hok2 h e)|]. split; [done|]. by intros ->.
  - intros Hz'. cbn. destruct Hk as [Hk _], Hk2 as [Hk2 _]. rewrite Hk2; [by apply Hk|]. by rewrite Hk.
Qed.

(** [HaveShieldedRequirements]: no nullifier revealed, every anchor known. *)
Definition requirements_met (l : Ledger) (tx : CTransaction) : bool :=
  if IsShieldedTx tx then
    match sapData tx with
    | Some d => forallb (fun s => negb (l_spent l (nullifier s)) && l_anchors l (anchor s)) (vShieldedSpend d)
    | None => true
    end
  else true.

Lemma keeps_hashes_trans c c1 c2 : keeps_hashes c c1 -> keeps_hashes c1 c2 -> keeps_hashes c c2.
Proof.
  intros [H1 H2] [H3 H4]. split; intros Hz; [rewrite H3; [by apply H1|by rewrite H1]|rewrite H4; [by apply H2|by rewrite H2]].
Qed.

Lemma HaveShieldedRequirements_models c l tx b c' : models c l -> HaveShieldedRequirements c tx = (b, c') ->
  models c' l /\ keeps_hashes c c' /\ b = requirements_met l tx.
Proof.
  unfold HaveShieldedRequirements, requirements_met. destruct (IsShieldedTx tx); [|by intros Hm [= <- <-]].
  destruct (sapData tx) as [d|]; [|by intros Hm [= <- <-]].
  revert c b c'. induction (vShieldedSpend d) as [|s ds IH]; intros c b c' Hm; cbn [shielded_requirements forallb];
    [by intros [= <- <-]|].
  destruct (cache_GetNullifier c (nullifier s)) as [bn c1] eqn:En. pose proof Hm as [Hok (_ & L2 & _)].
  destruct (cache_GetNullifier_spec _ _ _ _ Hok En) as (Hok1 & Hl1 & Hk1 & Hn).
  assert (Hm1 : models c1 l) by (by eapply models_read). cbn in L2. rewrite <- L2, Hn.
  destruct bn; cbn [negb andb]; [by intros [= <- <-]|].
  destruct (cache_GetSaplingAnchorAt c1 (anchor s)) as [t c2] eqn:Ea.
  destruct (cache_GetSaplingAnchorAt_spec _ _ _ _ Hok1 Ea) as (Hok2 & Hl2 & Hk2 & Ht).
  assert (Hm2 : models c2 l) by (by eapply models_read). pose proof Hm1 as [_ (_ & _ & _ & L4 & _)]. cbn in L4. rewrite <- L4.
  pose proof (keeps_hashes_trans _ _ _ Hk1 Hk2) as Hk.
  destruct t as [t|].
  - rewrite (proj1 Ht). intros Hr. destruct (IH _ _ _ Hm2 Hr) as (Hm' & Hk' & ->). split; [done|].
    split; [by eapply keeps_hashes_trans|done].
  - rewrite Ht. by intros [= <- <-].
Qed.

Lemma new_cache_models (v : V) : view_ok v -> models (CCoinsViewCache_new v) (ledger v).
Proof.
  intros Hv. split.
  - split; [done|..]; cbn; intros ? ?; by rewrite lookup_empty.
  - repeat split; intros; cbn; unfold cache_utxo, cache_spent, cache_has_anchor; cbn; by rewrite ?lookup_empty.
Qed.
End CacheModels.

(** After [Flush] the view below holds the ledger and the cache is empty. *)
Lemma Flush_models `{STL : SaplingTreeLib} {V : Type} {view : CoinsView V} (c : CCoinsViewCache V) l : models c l -> hashBlock c = l_best l -> hashSaplingAnchor c = l_anchor l ->
  all_zero (l_best l) = false -> all_zero (l_anchor l) = false ->
  exists c', Flush c = Some c' /\ models c' l /\ keeps_hashes c c' /\ view_ok (base c') /\ leq (ledger (base c')) l.
Proof.
  intros [[Hv Hc Hn Ha] Hl] Eb Ea Hz Hz'. unfold Flush.
  set (b := mkBatch _ _ _ _ _).
  destruct (BatchWrite_spec (base c) b Hv) as (v' & Hw & Hok & Hv').
  { split; cbn; [by rewrite Eb|by rewrite Ea|..].
    - intros o e El _ Hf. by apply (Hc o e El).
    - intros r e El. by apply (Ha r e El).
    - intros e El. by apply (Ha empty_root e El). }
  rewrite Hw. cbn [obind]. eexists. split; [done|].
  assert (Hbase : leq (ledger v') l).
  { rewrite Hv', <- Hl. split; [|split; [|split; [|split]]]; cbn [apply_batch b b_coins b_nullifiers b_best b_anchors b_anchor].
    - intros o. cbn. unfold apply_coins, cache_utxo. destruct (cacheCoins c !! o) as [e|] eqn:El; [|done].
      destruct (DIRTY e) eqn:Ed; [done|]. by apply (Hc o e El).
    - intros n. cbn. unfold apply_nullifiers, cache_spent. destruct (cacheSaplingNullifiers c !! n) as [e|] eqn:El; [|done].
      destruct (nf_DIRTY e) eqn:Ed; [done|]. by apply (Hn n e El).
    - cbn [cache_ledger l_best]. unfold cache_best. by rewrite Eb, Hz.
    - intros r. cbn. unfold apply_anchors, cache_has_anchor. destruct (cacheSaplingAnchors c !! r) as [e|] eqn:El; [|done].
      destruct (an_DIRTY e) eqn:Ed; [done|]. by apply (Ha r e El).
    - cbn [cache_ledger l_anchor]. unfold cache_anchor. by rewrite Ea, Hz'. }
  split; [split|split; [done|split; [done|done]]].
  - split; [done|..]; cbn; intros ? ?; by rewrite lookup_empty.
  - transitivity (ledger v'); [|done]. split; [|split; [|split; [|split]]].
    + intros o. cbn. unfold cache_utxo. cbn. by rewrite lookup_empty.
    + intros n. cbn. unfold cache_spent. cbn. by rewrite lookup_empty.
    + cbn [cache_ledger l_best]. unfold cache_best. cbn [hashBlock base]. rewrite Eb, Hz. symmetry. apply Hbase.
    + intros r. cbn. unfold cache_has_anchor. cbn. by rewrite lookup_empty.
    + cbn [cache_ledger l_anchor]. unfold cache_anchor. cbn [hashSaplingAnchor base]. rewrite Ea, Hz'. symmetry. apply Hbase.
Qed.

(** * Sequences of operations *)

Section Operations.
Context `{STL : SaplingTreeLib}.

Inductive coin_op :=
| OpAccess (o : COutPoint)
| OpHave (o : COutPoint)
| OpGetNullifier (n : list Z)
| OpGetBestBlock
| OpGetBestAnchor
| OpGetSaplingAnchorAt (rt : list Z)
| OpHaveShieldedRequirements (tx : CTransaction)
| OpAdd (o : COutPoint) (c : Coin) (possible_overwrite : bool)
| OpSpend (o : COutPoint)
| OpSetNullifiers (tx : CTransaction) (isSpent : bool)
| OpSetBestBlock (h : list Z)
| OpPushAnchor (t : SaplingMerkleTree)
| OpPopAnchor (newrt : list Z)
| OpUncache (o : COutPoint)
| OpFlush.
Inductive answer := ACoin (c : option Coin) | ABool (b : bool) | AHash (h : list Z) | ANone.

(** The operations on the plain ledger. *)
Definition ledger_op (l : Ledger) (op : coin_op) : answer * Ledger :=
  match op with
  | OpAccess o => (ACoin (l_utxo l o), l)
  | OpHave o => (ABool (match l_utxo l o with Some _ => true | None => false end), l)
  | OpGetNullifier n => (ABool (l_spent l n), l)
  | OpGetBestBlock => (AHash (l_best l), l)
  | OpGetBestAnchor => (AHash (l_anchor l), l)
  | OpGetSaplingAnchorAt rt => (ABool (l_anchors l rt), l)
  | OpHaveShieldedRequirements tx => (ABool (requirements_met l tx), l)
  | OpAdd o c _ => (ANone, if skipped c then l else with_utxo l (upd_coin (l_utxo l) o (Some c)))
  | OpSpend o => (ACoin (l_utxo l o), with_utxo l (upd_coin (l_utxo l) o None))
  | OpSetNullifiers tx b => (ANone, with_spent l tx b)
  | OpSetBestBlock h => (ANone, with_best l h)
  | OpPushAnchor t => (ANone, push_anchor l (tree_root t))
  | OpPopAnchor newrt => (ANone, pop_anchor l newrt)
  | OpUncache _ | OpFlush => (ANone, l)
  end.

(** Whether the tip and the best anchor have been read or set through the view:
    a flush passes on what the cache remembers of them. *)
Record Known := mkKnown { tip_known : bool; anchor_known : bool }.
Definition known_op (k : Known) (op : coin_op) : Known :=
  match op with
  | OpGetBestBlock | OpSetBestBlock _ => mkKnown true (anchor_known k)
  | OpGetBestAnchor | OpPushAnchor _ | OpPopAnchor _ => mkKnown (tip_known k) true
  | _ => k
  end.

(** What the callers must respect. *)
Definition op_pre (l : Ledger) (k : Known) (op : coin_op) : Prop :=
  match op with
  | OpAdd o c ow => IsSpent c = false /\ (ow = true \/ skipped c = true \/ l_utxo l o = None)
  | OpSetBestBlock h => all_zero h = false
  | OpPushAnchor t => all_zero (tree_root t) = false
  | OpPopAnchor newrt => all_zero newrt = false /\
      (l_anchor l <> newrt -> l_anchors l (l_anchor l) = true /\ l_anchor l <> empty_root)
  | OpFlush => tip_known k = true /\ anchor_known k = true /\ all_zero (l_best l) = false /\ all_zero (l_anchor l) = false
  | _ => True
  end.
Fixpoint ops_pre (l : Ledger) (k : Known) (ops : list coin_op) : Prop :=
  match ops with
  | [] => True
  | op :: ops => op_pre l k op /\ ops_pre (ledger_op l op).2 (known_op k op) ops
  end.
Fixpoint ledger_ops (l : Ledger) (ops : list coin_op) : list answer * Ledger :=
  match ops with
  | [] => ([], l)
  | op :: ops =>
      let '(a, l) := ledger_op l op in
      let '(r, l) := ledger_ops l ops in (a :: r, l)
  end.

Context {V : Type} {view : CoinsView V}.
Implicit Types (c : CCoinsViewCache V).

Definition cache_op c (op : coin_op) : option (answer * CCoinsViewCache V) :=
  match op with
  | OpAccess o => let '(r, c) := AccessCoin c o in Some (ACoin (live r), c)
  | OpHave o => let '(b, c) := HaveCoin c o in Some (ABool b, c)
  | OpGetNullifier n => let '(b, c) := cache_GetNullifier c n in Some (ABool b, c)
  | OpGetBestBlock => let '(h, c) := cache_GetBestBlock c in Some (AHash h, c)
  | OpGetBestAnchor => let '(h, c) := cache_GetBestAnchor c in Some (AHash h, c)
  | OpGetSaplingAnchorAt rt =>
      let '(t, c) := cache_GetSaplingAnchorAt c rt in Some (ABool (match t with Some _ => true | None => false end), c)
  | OpHaveShieldedRequirements tx => let '(b, c) := HaveShieldedRequirements c tx in Some (ABool b, c)
  | OpAdd o cn ow => option_map (pair ANone) (AddCoin c o cn ow)
  | OpSpend o => let '(r, c) := SpendCoin c o in
                 Some (ACoin (match r with Some cn => live cn | None => None end), c)
  | OpSetNullifiers tx b => Some (ANone, SetNullifiers c tx b)
  | OpSetBestBlock h => Some (ANone, SetBestBlock c h)
  | OpPushAnchor t => Some (ANone, PushAnchor c t)
  | OpPopAnchor newrt => option_map (pair ANone) (PopAnchor c newrt)
  | OpUncache o => Some (ANone, Uncache c o)
  | OpFlush => option_map (pair ANone) (Flush c)
  end.
Fixpoint cache_ops c (ops : list coin_op) : option (list answer * CCoinsViewCache V) :=
  match ops with
  | [] => Some ([], c)
  | op :: ops =>
      match cache_op c op with
      | Some (a, c) => match cache_ops c ops with Some (r, c) => Some (a :: r, c) | None => None end
      | None => None
      end
  end.

Definition remembers c (l : Ledger) (k : Known) : Prop :=
  (tip_known k = true -> all_zero (l_best l) = false -> hashBlock c = l_best l) /\
  (anchor_known k = true -> all_zero (l_anchor l) = false -> hashSaplingAnchor c = l_anchor l).

Lemma remembers_keeps c c' l l' k : remembers c l k -> keeps_hashes c c' -> l_best l' = l_best l -> l_anchor l' = l_anchor l ->
  remembers c' l' k.
Proof.
  intros [R1 R2] [K1 K2] E1 E2. split; intros Hk Hz; rewrite ?E1, ?E2 in *.
  - rewrite K1; [by apply R1|]. by rewrite R1.
  - rewrite K2; [by apply R2|]. by rewrite R2.
Qed.

(** One operation: same answer, and the cache goes on standing for the ledger. *)
Definition simulates c (l : Ledger) (k : Known) (op : coin_op) : Prop :=
  exists a c', cache_op c op = Some (a, c') /\ (ledger_op l op).1 = a /\ models c' (ledger_op l op).2 /\
    remembers c' (ledger_op l op).2 (known_op k op).

Lemma read_sim c l k op : models c l -> remembers c l k ->
  match op with OpAccess _ | OpHave _ | OpGetNullifier _ | OpGetBestBlock | OpGetBestAnchor | OpGetSaplingAnchorAt _
              | OpHaveShieldedRequirements _ => True | _ => False end -> simulates c l k op.
Proof.
  intros Hm Hr Hop. pose proof Hm as [Hok (L1 & L2 & L3 & L4 & L5)]. cbn in L2, L3, L4, L5. unfold simulates.
  destruct op as [o|o|n| | |rt|tx|o cn ow|o|tx b|h|t|newrt|o|]; try done; cbn [cache_op ledger_op fst snd known_op].
  - destruct (AccessCoin c o) as [x c1] eqn:E. destruct (AccessCoin_models _ _ _ _ _ Hm E) as (Hm1 & Hk & Hx).
    eexists _, c1. split; [done|]. split; [by rewrite Hx|]. split; [done|]. by eapply remembers_keeps.
  - destruct (HaveCoin c o) as [x c1] eqn:E. destruct (HaveCoin_models _ _ _ _ _ Hm E) as (Hm1 & Hk & Hx).
    eexists _, c1. split; [done|]. split; [by rewrite Hx|]. split; [done|]. by eapply remembers_keeps.
  - destruct (cache_GetNullifier c n) as [x c1] eqn:E. destruct (cache_GetNullifier_spec _ _ _ _ Hok E) as (Hok1 & Hl & Hk & Hx).
    eexists _, c1. split; [done|]. split; [by rewrite <- L2, Hx|]. split; [by eapply models_read|]. by eapply remembers_keeps.
  - destruct (cache_GetBestBlock c) as [x c1] eqn:E. destruct (cache_GetBestBlock_spec _ _ _ Hok E) as (Hok1 & Hl & Hk & Hh & Hx).
    eexists _, c1. split; [done|]. split; [by rewrite <- L3, Hx|]. split; [by eapply models_read|].
    destruct (remembers_keeps _ _ l l _ Hr Hk) as [_ R2]; [done|done|]. split; [|done]. intros _ _. by rewrite Hh, <- L3.
  - destruct (cache_GetBestAnchor c) as [x c1] eqn:E. destruct (cache_GetBestAnchor_spec _ _ _ Hok E) as (Hok1 & Hl & Hk & Hh & Hx).
    eexists _, c1. split; [done|]. split; [by rewrite <- L5, Hx|]. split; [by eapply models_read|].
    destruct (remembers_keeps _ _ l l _ Hr Hk) as [R1 _]; [done|done|]. split; [done|]. intros _ _. by rewrite Hh, <- L5.
  - destruct (cache_GetSaplingAnchorAt c rt) as [x c1] eqn:E.
    destruct (cache_GetSaplingAnchorAt_spec _ _ _ _ Hok E) as (Hok1 & Hl & Hk & Hx).
    eexists _, c1. split; [done|]. split; [|split; [by eapply models_read|by eapply remembers_keeps]].
    rewrite <- L4. destruct x; [by rewrite (proj1 Hx)|by rewrite Hx].
  - destruct (HaveShieldedRequirements c tx) as [x c1] eqn:E.
    destruct (HaveShieldedRequirements_models _ _ _ _ _ Hm E) as (Hm1 & Hk & Hx).
    eexists _, c1. split; [done|]. split; [by rewrite Hx|]. split; [done|]. by eapply remembers_keeps.
Qed.

Lemma write_sim c l k op : models c l -> remembers c l k -> op_pre l k op ->
  match op with OpAdd _ _ _ | OpSpend _ | OpSetNullifiers _ _ | OpSetBestBlock _ | OpPushAnchor _ | OpPopAnchor _
              | OpUncache _ | OpFlush => True | _ => False end -> simulates c l k op.
Proof.
  intros Hm Hr Hp Hop. pose proof Hm as [Hok (L1 & L2 & L3 & L4 & L5)]. unfold simulates.
  destruct op as [o|o|n| | |rt|tx|o cn ow|o|tx b|h|t|newrt|o|]; try done; cbn [cache_op ledger_op fst snd known_op op_pre] in *.
  - destruct Hp as [Hp1 Hp2]. destruct (AddCoin_models c l o cn ow Hm Hp1 Hp2) as (c' & -> & Hk & Hm').
    eexists _, c'. split; [done|]. split; [done|]. split; [done|]. eapply remembers_keeps; [done|done|..]; by destruct (skipped cn).
  - destruct (SpendCoin c o) as [r c1] eqn:E. destruct (SpendCoin_models _ _ _ _ _ Hm E) as (Hm1 & Hk & Hx).
    eexists _, c1. split; [done|]. split; [by rewrite Hx|]. split; [done|]. by eapply remembers_keeps.
  - eexists _, _. split; [done|]. split; [done|]. split; [by apply SetNullifiers_models|].
    eapply remembers_keeps; [done|apply SetNullifiers_hashes|done|done].
  - eexists _, _. split; [done|]. split; [done|]. split; [by apply SetBestBlock_models|by destruct Hr].
  - destruct (PushAnchor_models c l t Hm Hp) as (Hm' & Hh & Hb). eexists _, _. split; [done|]. split; [done|]. split; [done|].
    destruct Hr as [R1 _]. split; cbn.
    + intros Hk Hz. unfold push_anchor in *. assert (E : hashBlock c = l_best l) by (apply R1; [done|by destruct (list_eqb _ _)]).
      rewrite Hb by (rewrite E; by destruct (list_eqb _ _)). by destruct (list_eqb _ _).
    + intros _ _. rewrite Hh. unfold push_anchor. destruct (list_eqb _ _) eqn:E; [|done]. symmetry. by apply list_eqb_eq.
  - destruct Hp as [Hp1 Hp2]. destruct (PopAnchor_models c l newrt Hm Hp1 Hp2) as (c' & -> & Hm' & Hh & Hb).
    eexists _, c'. split; [done|]. split; [done|]. split; [done|]. destruct Hr as [R1 _]. split; cbn.
    + intros Hk Hz. unfold pop_anchor in *. assert (E : hashBlock c = l_best l) by (apply R1; [done|by destruct (list_eqb _ _)]).
      rewrite Hb by (rewrite E; by destruct (list_eqb _ _)). by destruct (list_eqb _ _).
    + intros _ _. rewrite Hh. unfold pop_anchor. destruct (list_eqb _ _) eqn:E; [|done]. symmetry. by apply list_eqb_eq.
  - destruct (Uncache_models c l o Hm) as [Hm' Hk]. eexists _, _. split; [done|]. split; [done|]. split; [done|].
    by eapply remembers_keeps.
  - destruct Hp as (K1 & K2 & Z1 & Z2), Hr as [R1 R2].
    destruct (Flush_models c l Hm (R1 K1 Z1) (R2 K2 Z2) Z1 Z2) as (c' & -> & Hm' & Hk & _).
    eexists _, c'. split; [done|]. split; [done|]. split; [done|]. by eapply remembers_keeps.
Qed.

Lemma cache_op_sim c l k op : models c l -> remembers c l k -> op_pre l k op -> simulates c l k op.
Proof. intros Hm Hr Hp. destruct op; (by apply read_sim) || (by apply write_sim). Qed.

Lemma cache_ops_sim ops : forall c l k, models c l -> remembers c l k -> ops_pre l k ops ->
  exists r c', cache_ops c ops = Some (r, c') /\ (ledger_ops l ops).1 = r /\ models c' (ledger_ops l ops).2 /\
    remembers c' (ledger_ops l ops).2 (fold_left known_op ops k).
Proof.
  induction ops as [|op ops IH]; intros c l k Hm Hr Hp; [by exists [], c|].
  destruct Hp as [Hp Hps]. destruct (cache_op_sim c l k op Hm Hr Hp) as (a & c1 & Hc & Ha & Hm1 & Hr1).
  destruct (IH c1 _ _ Hm1 Hr1 Hps) as (r & c' & Hc' & Hlr & Hm' & Hr'). exists (a :: r), c'. cbn [cache_ops ledger_ops fold_left].
  rewrite Hc, Hc'. destruct (ledger_op l op) as [a0 l1]. cbn in *. subst a0.
  destruct (ledger_ops l1 ops) as [r0 l0]. cbn in *. by subst.
Qed.

End Operations.

(** C17: whatever view [v] lies below - the database or another cache - a new cache over it
    answers every sequence of reads, additions, spends, nullifier and anchor updates,
    evictions and flushes exactly as the plain ledger does, with no failed assertion and no
    [logic_error], as long as callers respect [op_pre]; and flushing it then leaves that
    ledger in the view below. *)
Theorem coins_cache_refines `{STL : SaplingTreeLib} {V : Type} {view : CoinsView V} (v : V) (ops : list coin_op) :
  view_ok v -> ops_pre (ledger v) (mkKnown false false) ops ->
  let l := (ledger_ops (ledger v) ops).2 in
  exists c, cache_ops (CCoinsViewCache_new v) ops = Some ((ledger_ops (ledger v) ops).1, c) /\
    (op_pre l (fold_left known_op ops (mkKnown false false)) OpFlush ->
     exists c', Flush c = Some c' /\ view_ok (base c') /\ leq (ledger (base c')) l).
Proof.
  intros Hv Hp l.
  destruct (cache_ops_sim ops _ _ (mkKnown false false) (new_cache_models v Hv)) as (r & c & Hc & <- & Hm & R1 & R2); [done|done|].
  exists c. split; [done|]. intros (K1 & K2 & Z1 & Z2).
  destruct (Flush_models c l Hm (R1 K1 Z1) (R2 K2 Z2) Z1 Z2) as (c' & Hr & Hm' & _ & Hu). by exists c'.
Qed.

(** Trees that are their own roots, for evaluating examples. *)
Definition ex_trees : SaplingTreeLib := {|
  SaplingMerkleTree := list Z; tree_root := fun t => t; new_tree := repeat 1 32; tree_append := fun _ cmu => Some cmu; empty_root := repeat 1 32;
  root_of_new_tree := eq_refl; empty_root_not_null := eq_refl |}.
#[local] Existing Instance ex_trees.
Definition ex_o1 := mkOutPoint (repeat 7 32) 0.
Definition ex_o2 := mkOutPoint (repeat 8 32) 1.
Definition ex_coin1 := mkCoin false false (mkTxOut 5000 [0x51] (-10)) 10.
Definition ex_coin2 := mkCoin true false (mkTxOut 700 [0x52] (-10)) 11.
Definition ex_db : CCoinsViewDB := mkDB {[ex_o1 := ex_coin1]} ∅ (repeat 1 32) [] ∅ None.
Definition ex_over_db := CCoinsViewCache_new ex_db.
Definition ex_ops : list coin_op :=
  [OpHave ex_o1; OpSpend ex_o1; OpAdd ex_o2 ex_coin2 false; OpAccess ex_o1; OpGetBestBlock; OpAccess ex_o2;
   OpPushAnchor (repeat 5 32); OpSetBestBlock (repeat 2 32); OpFlush; OpUncache ex_o2; OpAdd ex_o1 ex_coin1 true;
   OpSpend ex_o2; OpPopAnchor (repeat 1 32); OpGetSaplingAnchorAt (repeat 5 32)].
Lemma ex_over_db_ok : view_ok ex_over_db.
Proof. split; [by split|..]; cbn; intros ? ?; by rewrite lookup_empty. Qed.

Lemma coins_cache_refines_witness :
  (ledger_ops (ledger ex_over_db) ex_ops).1 =
    [ABool true; ACoin (Some ex_coin1); ANone; ACoin None; AHash (repeat 1 32); ACoin (Some ex_coin2);
     ANone; ANone; ANone; ANone; ANone; ACoin (Some ex_coin2); ANone; ABool false] /\
  exists c, cache_ops (CCoinsViewCache_new ex_over_db) ex_ops = Some ((ledger_ops (ledger ex_over_db) ex_ops).1, c).
Proof.
  split; [vm_compute; reflexivity|].
  destruct (coins_cache_refines ex_over_db ex_ops) as (c & Hc & _).
  - exact ex_over_db_ok.
  - vm_compute. repeat split; auto.
  - exists c. exact Hc.
Defined.
