(* ===== verification/Connect.v ===== *)
(** Connecting transactions to the coin set and taking them off again
    (src/coins.cpp, src/validation.cpp, src/undo.h).

    The functions run on a cache over any view; the theorems relate them to the
    ledger of Coins.v. *)
From Stdlib Require Import ZArith Lia List Bool.
From stdpp Require Import base gmap list.
From S2P Require Import Prelude Serialize Script Interpreter Transaction Compressor Coins Ledger.
Import ListNotations.
Local Open Scope Z_scope.
Local Open Scope passion_scope.

Inductive DisconnectResult := DISCONNECT_OK | DISCONNECT_UNCLEAN | DISCONNECT_FAILED.

(** [MAX_BLOCK_SIZE_CURRENT / GetSerializeSize(CTxOut())], nine bytes. *)
Definition MAX_OUTPUTS_PER_BLOCK : Z := 2000000 / 9.

Definition CTxOut_eqb (a b : CTxOut) : bool :=
  (nValue a =? nValue b) && list_eqb (scriptPubKey a) (scriptPubKey b) && (nRounds a =? nRounds b).

(** Transactions whose inputs are not outputs of the coin set. *)
Definition no_coin_inputs (tx : CTransaction) : bool := IsCoinBase tx || HasZerocoinSpendInputs tx.

Section Connect.
Context `{STL : SaplingTreeLib} {V : Type} {view : CCoinsView V} {abi : Abi} {crypto : ScriptCrypto}.
(** [invalid_out::ContainsOutPoint], a table that is generated data. *)
Variable ContainsOutPoint : COutPoint -> bool.
Abbreviation Cache := (CCoinsViewCache V).

Fixpoint have_inputs_loop (ins : list CTxIn) (c : Cache) : bool * Cache :=
  match ins with
  | [] => (true, c)
  | i :: ins => let '(b, c) := HaveCoin c (prevout i) in if b then have_inputs_loop ins c else (false, c)
  end.
Definition HaveInputs (c : Cache) (tx : CTransaction) : bool * Cache :=
  if negb (IsCoinBase tx) && negb (HasZerocoinSpendInputs tx) then have_inputs_loop (vin tx) c else (true, c).

Fixpoint add_coins_loop (txid : list Z) (i : Z) (outs : list CTxOut) (nHeight : Z)
    (fCoinbase fCoinstake check fSkipInvalid : bool) (c : Cache) : option Cache :=
  match outs with
  | [] => Some c
  | o :: outs =>
      let out := mkOutPoint txid (u32 i) in
      if fSkipInvalid && ContainsOutPoint out then
        let '(_, c) := SpendCoin c out in
        add_coins_loop txid (i + 1) outs nHeight fCoinbase fCoinstake check fSkipInvalid c
      else
        let '(overwrite, c) := if check then HaveCoin c out else (false, c) in
        c <- AddCoin c out (mkCoin fCoinbase fCoinstake o (u32 nHeight)) overwrite;;
        add_coins_loop txid (i + 1) outs nHeight fCoinbase fCoinstake check fSkipInvalid c
  end.
Definition AddCoins (c : Cache) (tx : CTransaction) (nHeight : Z) (check fSkipInvalid : bool) : option Cache :=
  add_coins_loop (GetHash tx) 0 (vout tx) nHeight (IsCoinBase tx) (IsCoinStake tx) check fSkipInvalid c.

(** The undo records in the order of the inputs; a coin that is not found leaves
    the empty one. *)
Fixpoint spend_inputs (ins : list CTxIn) (c : Cache) : list Coin * Cache :=
  match ins with
  | [] => ([], c)
  | i :: ins =>
      let '(moved, c) := SpendCoin c (prevout i) in
      let '(us, c) := spend_inputs ins c in
      ((match moved with Some u => u | None => coinEmpty end) :: us, c)
  end.
Definition UpdateCoins (tx : CTransaction) (inputs : Cache) (nHeight : Z) (fSkipInvalid : bool)
    : option (list Coin * Cache) :=
  let '(vprevout, c) :=
    if negb (IsCoinBase tx) && negb (HasZerocoinSpendInputs tx) then spend_inputs (vin tx) inputs else ([], inputs) in
  let c := SetNullifiers c tx true in
  c <- AddCoins c tx nHeight false fSkipInvalid;;
  Some (vprevout, c).

Fixpoint access_by_txid (fuel : nat) (txid : list Z) (n : Z) (c : Cache) : Coin * Cache :=
  match fuel with
  | O => (coinEmpty, c)
  | S fuel =>
      let '(alternate, c) := AccessCoin c (mkOutPoint txid n) in
      if negb (IsSpent alternate) then (alternate, c) else access_by_txid fuel txid (n + 1) c
  end.
Definition AccessByTxid (c : Cache) (txid : list Z) : Coin * Cache :=
  access_by_txid (Z.to_nat MAX_OUTPUTS_PER_BLOCK) txid 0 c.

Definition ApplyTxInUndo (undo : Coin) (c : Cache) (out : COutPoint) : option (DisconnectResult * Cache) :=
  let '(have, c) := HaveCoin c out in
  let fClean := negb have in
  let '(undo, c) :=
    if coin_nHeight undo =? 0 then
      let '(alternate, c) := AccessByTxid c (out_hash out) in
      (if negb (IsSpent alternate)
       then Some (mkCoin (fCoinBase alternate) (fCoinStake alternate) (coin_out undo) (coin_nHeight alternate))
       else None, c)
    else (Some undo, c) in
  match undo with
  | None => Some (DISCONNECT_FAILED, c)
  | Some undo =>
      c <- AddCoin c out undo (negb fClean);;
      Some (if fClean then DISCONNECT_OK else DISCONNECT_UNCLEAN, c)
  end.

(** Take the outputs of a transaction off; the answer says they all matched. *)
Fixpoint disconnect_outputs (hash : list Z) (o : Z) (outs : list CTxOut) (c : Cache) : bool * Cache :=
  match outs with
  | [] => (true, c)
  | out :: outs =>
      let '(same, c) :=
        if negb (IsUnspendable (scriptPubKey out)) && negb (CTxOut_IsZerocoinMint out) then
          let '(moved, c) := SpendCoin c (mkOutPoint hash (u32 o)) in
          let coin := match moved with Some u => u | None => coinEmpty end in
          (CTxOut_eqb out (coin_out coin), c)
        else (true, c) in
      let '(rest, c) := disconnect_outputs hash (o + 1) outs c in (same && rest, c)
  end.

(** Restore the inputs, the last one first. *)
Fixpoint restore_inputs (ins : list CTxIn) (undos : list Coin) (c : Cache) : option (DisconnectResult * Cache) :=
  match ins, undos with
  | i :: ins, u :: undos =>
      r <- restore_inputs ins undos c;;
      match r with
      | (DISCONNECT_FAILED, c) => Some (DISCONNECT_FAILED, c)
      | (r, c) =>
          s <- ApplyTxInUndo u c (prevout i);;
          Some (match s.1, r with DISCONNECT_OK, r => r | s, _ => s end, s.2)
      end
  | _, _ => Some (DISCONNECT_OK, c)
  end.

(** One iteration of the loop of [DisconnectBlock] on the coins; the zerocoin
    database and the budget manager, which it also tells, do not touch them. *)
Definition disconnect_tx (tx : CTransaction) (vprevout : list Coin) (c : Cache) : option (DisconnectResult * Cache) :=
  let '(fClean, c) := disconnect_outputs (GetHash tx) 0 (vout tx) c in
  let clean := if fClean then DISCONNECT_OK else DISCONNECT_UNCLEAN in
  if IsCoinBase tx || HasZerocoinSpendInputs tx then Some (clean, c)
  else
    let c := SetNullifiers c tx false in
    if negb (length vprevout =? length (vin tx))%nat then Some (DISCONNECT_FAILED, c)
    else
      r <- restore_inputs (vin tx) vprevout c;;
      Some (match r.1 with DISCONNECT_OK => clean | r => r end, r.2).

(** The note commitments of a transaction. *)
Fixpoint append_commitments (outs : list OutputDescription) (t : SaplingMerkleTree) : option SaplingMerkleTree :=
  match outs with
  | [] => Some t
  | d :: outs => t <- tree_append t (cmu d);; append_commitments outs t
  end.
Definition update_tree (tx : CTransaction) (t : SaplingMerkleTree) : option SaplingMerkleTree :=
  if IsShieldedTx tx then
    match sapData tx with Some d => append_commitments (vShieldedOutput d) t | None => Some t end
  else Some t.

(** The loop of [ConnectBlock] on the coins; an undo record for each transaction. *)
Fixpoint connect_txs (txs : list CTransaction) (nHeight : Z) (fSkipInvalid : bool) (sapling_tree : SaplingMerkleTree) (c : Cache)
    : option (list (list Coin) * SaplingMerkleTree * Cache) :=
  match txs with
  | [] => Some ([], sapling_tree, c)
  | tx :: txs =>
      u <- UpdateCoins tx c nHeight fSkipInvalid;;
      t <- update_tree tx sapling_tree;;
      r <- connect_txs txs nHeight fSkipInvalid t u.2;;
      Some (u.1 :: r.1.1, r.1.2, r.2)
  end.
(** All that [ConnectBlock] does to the view when it accepts.  The first
    transaction leaves its undo record in a dummy. *)
Definition connect_block (txs : list CTransaction) (nHeight : Z) (fSkipInvalid : bool) (blockHash : list Z) (c : Cache)
    : option (list (list Coin) * Cache) :=
  let '(rt, c) := cache_GetBestAnchor c in
  let '(t, c) := cache_GetSaplingAnchorAt c rt in
  match t with
  | None => None
  | Some sapling_tree =>
      r <- connect_txs txs nHeight fSkipInvalid sapling_tree c;;
      let c := PushAnchor r.2 r.1.2 in
      Some (tl r.1.1, SetBestBlock c blockHash)
  end.

(** The transactions are undone in reverse order; the first one is the coinbase,
    which reads no undo record. *)
Fixpoint disconnect_txs (txs : list CTransaction) (undos : list (list Coin)) (c : Cache)
    : option (DisconnectResult * Cache) :=
  match txs, undos with
  | tx :: txs, u :: undos =>
      r <- disconnect_txs txs undos c;;
      match r with
      | (DISCONNECT_FAILED, c) => Some (DISCONNECT_FAILED, c)
      | (r, c) =>
          s <- disconnect_tx tx u c;;
          Some (match s.1, r with DISCONNECT_OK, r => r | s, _ => s end, s.2)
      end
  | _, _ => Some (DISCONNECT_OK, c)
  end.
(** [prevRoot] is the Sapling root of the previous block, or the root of the
    empty tree before the upgrade. *)
Definition DisconnectBlock (txs : list CTransaction) (vtxundo : list (list Coin)) (prevRoot prevHash : list Z) (c : Cache)
    : option (DisconnectResult * Cache) :=
  if negb (length vtxundo + 1 =? length txs)%nat then Some (DISCONNECT_FAILED, c)
  else
    r <- disconnect_txs txs ([] :: vtxundo) c;;
    match r with
    | (DISCONNECT_FAILED, c) => Some (DISCONNECT_FAILED, c)
    | (r, c) =>
        c <- PopAnchor c prevRoot;;
        Some (r, SetBestBlock c prevHash)
    end.
End Connect.

(** * Effects on the ledger *)

(** The coin an outpoint gets from the outputs [outs], numbered from [i]. *)
Fixpoint out_coin (txid : list Z) (i : Z) (outs : list CTxOut) (mk : CTxOut -> Coin) (o : COutPoint) : option Coin :=
  match outs with
  | [] => None
  | x :: outs => if decide (mkOutPoint txid (u32 i) = o) then if skipped (mk x) then None else Some (mk x)
                 else out_coin txid (i + 1) outs mk o
  end.
Definition in_prevouts (ins : list CTxIn) (o : COutPoint) : bool := existsb (fun i => bool_decide (prevout i = o)) ins.

(** A coin that can be put back by an undo record. *)
Definition restorable (c : Coin) : Prop := IsSpent c = false /\ skipped c = false /\ coin_nHeight c <> 0.

Section Effects.
Context `{STL : SaplingTreeLib} {V : Type} {view : CoinsReader V}.
Implicit Types (c : CCoinsViewCache V).

Lemma models_ext c l f g : models c (with_utxo l f) -> (forall o, f o = g o) -> models c (with_utxo l g).
Proof. intros Hm E. apply (models_leq _ _ _ Hm). by repeat split. Qed.

Lemma in_prevouts_spec ins o : in_prevouts ins o = true <-> o ∈ map prevout ins.
Proof.
  unfold in_prevouts. rewrite existsb_exists. rewrite list_elem_of_In, in_map_iff.
  split; intros (i & A & B); exists i.
  - apply bool_decide_eq_true in B. done.
  - split; [done|]. by apply bool_decide_eq_true.
Qed.
Lemma in_prevouts_false ins o : o ∉ map prevout ins -> in_prevouts ins o = false.
Proof. intros H. destruct (in_prevouts ins o) eqn:E; [|done]. by apply in_prevouts_spec in E. Qed.

Lemma spend_inputs_models ins : forall c l, models c l -> NoDup (map prevout ins) ->
  Forall (fun i => exists u, l_utxo l (prevout i) = Some u) ins ->
  exists us c', spend_inputs ins c = (us, c') /\ Forall2 (fun i u => l_utxo l (prevout i) = Some u) ins us /\
    models c' (with_utxo l (fun o => if in_prevouts ins o then None else l_utxo l o)).
Proof.
  induction ins as [|i ins IH]; intros c l Hm HN HF.
  { exists [], c. split; [done|]. split; [done|]. apply (models_leq _ _ _ Hm). by repeat split. }
  apply NoDup_cons in HN as [Hni HN]. apply Forall_cons in HF as [[u Hu] HF].
  destruct (SpendCoin_present c l _ u Hm Hu) as (c1 & Hs & Hm1).
  destruct (IH c1 _ Hm1 HN) as (us & c' & Hr & HF2 & Hm').
  { apply Forall_forall. intros j Hj. rewrite Forall_forall in HF. destruct (HF j Hj) as [w Hw]. exists w.
    cbn. unfold upd_coin. case_decide as E; [|done]. exfalso. apply Hni. rewrite E. by apply list_elem_of_In, in_map, list_elem_of_In. }
  exists (u :: us), c'. cbn [spend_inputs]. rewrite Hs, Hr. split; [done|]. split.
  - constructor; [done|]. eapply Forall2_impl; [exact HF2|]. cbn. intros j w Hw. unfold upd_coin in Hw. by case_decide.
  - apply (models_leq _ _ _ Hm'). split; [|done]. intros o. cbn. unfold upd_coin.
    case_bool_decide; case_decide; cbn; try done; by destruct (in_prevouts ins o).
Qed.

Lemma out_coin_earlier txid outs mk : forall i j, 0 <= i < j -> j + Z.of_nat (length outs) <= 2 ^ 32 ->
  out_coin txid j outs mk (mkOutPoint txid (u32 i)) = None.
Proof.
  induction outs as [|x outs IH]; intros i j Hij Hl; [done|]. cbn [out_coin length] in *.
  case_decide as E; [|apply IH; lia]. injection E as E. rewrite !u32_small in E by lia. lia.
Qed.

(** Adding outputs that the ledger does not hold. *)
Lemma add_coins_models (banned : COutPoint -> bool) skip txid h cb cs outs : forall i c l, models c l ->
  let mk x := mkCoin cb cs x (u32 h) in
  0 <= i -> i + Z.of_nat (length outs) <= 2 ^ 32 ->
  Forall (fun x => CTxOut_IsNull x = false) outs ->
  (forall o u, out_coin txid i outs mk o = Some u -> l_utxo l o = None) ->
  (skip = true -> forall n, banned (mkOutPoint txid n) = false) ->
  exists c', add_coins_loop banned txid i outs h cb cs false skip c = Some c' /\
    models c' (with_utxo l (fun o => match out_coin txid i outs mk o with Some u => Some u | None => l_utxo l o end)).
Proof.
  induction outs as [|x outs IH]; intros i c l Hm mk Hi Hl HF Hnew Hb.
  { exists c. split; [done|]. apply (models_leq _ _ _ Hm). by repeat split. }
  apply Forall_cons in HF as [Hx HF]. cbn [length] in Hl. cbn [add_coins_loop].
  assert (Hsk : skip && banned (mkOutPoint txid (u32 i)) = false) by (destruct skip; [by rewrite Hb|done]).
  rewrite Hsk. set (o := mkOutPoint txid (u32 i)) in *.
  assert (He : out_coin txid (i + 1) outs mk o = None) by (apply out_coin_earlier; lia).
  destruct (AddCoin_models c l o (mk x) false Hm) as (c1 & Hc1 & _ & Hm1); [done|..].
  { destruct (skipped (mk x)) eqn:Es; [by right; left|right; right].
    apply (Hnew o (mk x)). cbn [out_coin]. fold o. by rewrite decide_True, Es. }
  fold mk. fold (mk x). rewrite Hc1. cbn [obind].
  set (l1 := if skipped (mk x) then l else _) in Hm1.
  assert (Hu1 : forall o', l_utxo l1 o' = if decide (o = o') then if skipped (mk x) then l_utxo l o' else Some (mk x) else l_utxo l o').
  { intros o'. unfold l1. destruct (skipped (mk x)); cbn; [by case_decide|]. unfold upd_coin. by case_decide. }
  destruct (IH (i + 1) c1 l1 Hm1) as (c' & Hr & Hm'); [lia|lia|done| |done|].
  { intros o' u Ho'. rewrite Hu1. case_decide as E.
    - subst o'. fold mk in Ho'. by rewrite He in Ho'.
    - apply (Hnew o' u). cbn [out_coin]. fold o. by rewrite decide_False. }
  exists c'. split; [done|]. apply (models_leq _ _ _ Hm').
  split; [|unfold l1; by destruct (skipped (mk x))]. intros o'. cbn [with_utxo l_utxo out_coin]. fold o. fold mk. rewrite Hu1.
  case_decide as E; [|done]. subst o'. rewrite He. by destruct (skipped (mk x)).
Qed.

(** Taking outputs off that the ledger holds as they were added. *)
Lemma disconnect_outputs_models txid cb cs h outs : forall i c l, models c l ->
  let mk x := mkCoin cb cs x (u32 h) in
  0 <= i -> i + Z.of_nat (length outs) <= 2 ^ 32 ->
  (forall o u, out_coin txid i outs mk o = Some u -> l_utxo l o = Some u) ->
  exists c', disconnect_outputs txid i outs c = (true, c') /\
    models c' (with_utxo l (fun o => match out_coin txid i outs mk o with Some _ => None | None => l_utxo l o end)).
Proof.
  induction outs as [|x outs IH]; intros i c l Hm mk Hi Hl Hold.
  { exists c. split; [done|]. apply (models_leq _ _ _ Hm). by repeat split. }
  cbn [length] in Hl. cbn [disconnect_outputs]. set (o := mkOutPoint txid (u32 i)) in *.
  assert (He : out_coin txid (i + 1) outs mk o = None) by (apply out_coin_earlier; lia).
  assert (Hrest : forall o' u, out_coin txid (i + 1) outs mk o' = Some u -> o <> o' /\ l_utxo l o' = Some u).
  { intros o' u Ho'. split; [intros <-; by rewrite He in Ho'|]. apply (Hold o' u). cbn [out_coin]. fold o.
    rewrite decide_False; [done|]. intros <-. by rewrite He in Ho'. }
  assert (Hsk : negb (IsUnspendable (scriptPubKey x)) && negb (CTxOut_IsZerocoinMint x) = negb (skipped (mk x)))
    by (unfold skipped; by rewrite negb_orb).
  rewrite Hsk. destruct (skipped (mk x)) eqn:Es; cbn [negb].
  - destruct (IH (i + 1) c l Hm) as (c' & Hr & Hm'); [lia|lia|intros o' u Ho'; by apply Hrest|].
    rewrite Hr. exists c'. split; [done|]. apply (models_ext _ _ _ _ Hm'). intros o'. cbn [out_coin]. fold o. fold mk.
    rewrite Es. case_decide; [subst o'; by rewrite He|done].
  - assert (Ho : l_utxo l o = Some (mk x)) by (apply Hold; cbn [out_coin]; fold o; by rewrite decide_True, Es).
    destruct (SpendCoin_present c l o (mk x) Hm Ho) as (c1 & Hs & Hm1). rewrite Hs.
    destruct (IH (i + 1) c1 _ Hm1) as (c' & Hr & Hm'); [lia|lia| |].
    { intros o' u Ho'. destruct (Hrest o' u Ho') as [Hne Hu]. cbn. unfold upd_coin. by rewrite decide_False. }
    rewrite Hr. exists c'. split.
    + unfold CTxOut_eqb. cbn. rewrite !Z.eqb_refl. by rewrite (proj2 (list_eqb_eq _ _) eq_refl).
    + apply (models_leq _ _ _ Hm'). split; [|done]. intros o'. cbn [with_utxo l_utxo out_coin]. fold o. fold mk. rewrite Es.
      unfold upd_coin. case_decide; [subst o'; by rewrite He|done].
Qed.

(** Putting one input back. *)
Lemma ApplyTxInUndo_models c l u o : models c l -> restorable u -> l_utxo l o = None ->
  exists c', ApplyTxInUndo u c o = Some (DISCONNECT_OK, c') /\ models c' (with_utxo l (upd_coin (l_utxo l) o (Some u))).
Proof.
  intros Hm (Hs & Hk & Hh) Ho. unfold ApplyTxInUndo. destruct (HaveCoin c o) as [b c1] eqn:Eb.
  destruct (HaveCoin_models _ _ _ _ _ Hm Eb) as (Hm1 & _ & ->). rewrite Ho. cbn [negb].
  rewrite (proj2 (Z.eqb_neq _ _) Hh).
  destruct (AddCoin_models c1 l o u false Hm1 Hs) as (c2 & Hc2 & _ & Hm2); [by right; right|]. rewrite Hc2. cbn [obind].
  exists c2. split; [done|]. by rewrite Hk in Hm2.
Qed.

Fixpoint restored (ins : list CTxIn) (us : list Coin) (o : COutPoint) : option Coin :=
  match ins, us with
  | i :: ins, u :: us => if decide (prevout i = o) then Some u else restored ins us o
  | _, _ => None
  end.
Lemma restored_None ins us o : o ∉ map prevout ins -> restored ins us o = None.
Proof.
  revert us. induction ins as [|i ins IH]; intros [|u us] H; try done. cbn in *. apply not_elem_of_cons in H as [H1 H2].
  rewrite decide_False by congruence. by apply IH.
Qed.

Lemma restore_inputs_models ins us : forall c l, models c l -> NoDup (map prevout ins) -> length ins = length us ->
  Forall restorable us -> (forall i, i ∈ ins -> l_utxo l (prevout i) = None) ->
  exists c', restore_inputs ins us c = Some (DISCONNECT_OK, c') /\
    models c' (with_utxo l (fun o => match restored ins us o with Some u => Some u | None => l_utxo l o end)).
Proof.
  revert us. induction ins as [|i ins IH]; intros [|u us] c l Hm HN HL HF Hnone; try done.
  { exists c. split; [done|]. apply (models_leq _ _ _ Hm). by repeat split. }
  apply NoDup_cons in HN as [Hni HN]. apply Forall_cons in HF as [Hu HF].
  destruct (IH us c l Hm HN) as (c1 & Hr & Hm1); [by injection HL|done|intros j Hj; apply Hnone; by right|].
  cbn [restore_inputs]. rewrite Hr. cbn [obind].
  destruct (ApplyTxInUndo_models c1 _ u (prevout i) Hm1 Hu) as (c2 & Hc2 & Hm2).
  { cbn. rewrite restored_None by done. apply Hnone. left. }
  rewrite Hc2. cbn [obind fst snd]. exists c2. split; [done|]. apply (models_leq _ _ _ Hm2). split; [|done].
  intros o. cbn. unfold upd_coin. by case_decide.
Qed.
End Effects.

(** * Blocks of transactions *)

Section Blocks.
Context `{STL : SaplingTreeLib} {V : Type} {view : CoinsReader V} {abi : Abi} {crypto : ScriptCrypto}.
Variable ContainsOutPoint : COutPoint -> bool.
Variable fSkipInvalid : bool.
Variable nHeight : Z.
Implicit Types (c : CCoinsViewCache V) (l : Ledger).

Definition tx_outs (tx : CTransaction) (o : COutPoint) : option Coin :=
  out_coin (GetHash tx) 0 (vout tx) (fun x => mkCoin (IsCoinBase tx) (IsCoinStake tx) x (u32 nHeight)) o.

(** A transaction removes its inputs, adds its spendable outputs and reveals its
    nullifiers. *)
Definition ledger_connect l (tx : CTransaction) : Ledger :=
  mkLedger
    (fun o => match tx_outs tx o with
                     | Some u => Some u
                     | None => if negb (no_coin_inputs tx) && in_prevouts (vin tx) o then None else l_utxo l o
                     end)
           (fun n => if in_sapData tx n then true else l_spent l n) (l_best l) (l_anchors l) (l_anchor l).

(** What the checks before [UpdateCoins] establish. *)
Record connectable l (tx : CTransaction) : Prop := {
  inputs_distinct : no_coin_inputs tx = false -> NoDup (map prevout (vin tx));
  inputs_unspent : no_coin_inputs tx = false ->
    Forall (fun i => exists u, l_utxo l (prevout i) = Some u /\ restorable u) (vin tx);
  outputs_new : forall o u, tx_outs tx o = Some u -> l_utxo l o = None;
  outputs_not_null : Forall (fun x => CTxOut_IsNull x = false) (vout tx);
  outputs_few : Z.of_nat (length (vout tx)) <= 2 ^ 32;
  outputs_allowed : fSkipInvalid = true -> forall n, ContainsOutPoint (mkOutPoint (GetHash tx) n) = false;
  nullifiers_new : forall n, in_sapData tx n = true -> no_coin_inputs tx = false /\ l_spent l n = false
}.
Fixpoint all_connectable l (txs : list CTransaction) : Prop :=
  match txs with
  | [] => True
  | tx :: txs => connectable l tx /\ all_connectable (ledger_connect l tx) txs
  end.

(** The undo record of a transaction holds the coins it spent. *)
Definition undo_ok l (tx : CTransaction) (us : list Coin) : Prop :=
  if no_coin_inputs tx then us = [] else Forall2 (fun i u => l_utxo l (prevout i) = Some u) (vin tx) us.

Lemma HaveInputs_models c l tx b c' : models c l -> HaveInputs c tx = (b, c') ->
  models c' l /\ (b = true <-> (no_coin_inputs tx = false -> Forall (fun i => exists u, l_utxo l (prevout i) = Some u) (vin tx))).
Proof.
  unfold HaveInputs. rewrite <- negb_orb. fold (no_coin_inputs tx). destruct (no_coin_inputs tx); cbn [negb].
  { intros Hm [= <- <-]. done. }
  intros Hm Hr. enough (models c' l /\ (b = true <-> Forall (fun i => exists u, l_utxo l (prevout i) = Some u) (vin tx))) as [? ?]
    by tauto.
  revert c b c' Hm Hr. induction (vin tx) as [|i ins IH]; intros c b c' Hm Hr; cbn [have_inputs_loop] in Hr.
  { injection Hr as <- <-. done. }
  destruct (HaveCoin c (prevout i)) as [b1 c1] eqn:Eb. destruct (HaveCoin_models _ _ _ _ _ Hm Eb) as (Hm1 & _ & Hb1).
  rewrite Forall_cons. destruct b1.
  - destruct (IH _ _ _ Hm1 Hr) as [Hm' ->]. split; [done|]. destruct (l_utxo l (prevout i)) as [u|]; [|done].
    split; [by intros; split; [exists u|]|tauto].
  - injection Hr as <- <-. split; [done|]. split; [done|]. intros [[u Hu] _]. by rewrite Hu in Hb1.
Qed.

Lemma UpdateCoins_models c l tx : models c l -> connectable l tx ->
  exists us c', UpdateCoins ContainsOutPoint tx c nHeight fSkipInvalid = Some (us, c') /\ undo_ok l tx us /\
    models c' (ledger_connect l tx).
Proof.
  intros Hm [HN HI HO Hnn Hfew Hall Hnf]. unfold UpdateCoins. rewrite <- negb_orb. fold (no_coin_inputs tx).
  assert (exists us c1, (if negb (no_coin_inputs tx) then spend_inputs (vin tx) c else ([], c)) = (us, c1) /\
    undo_ok l tx us /\
    models c1 (with_utxo l (fun o => if negb (no_coin_inputs tx) && in_prevouts (vin tx) o then None else l_utxo l o)))
    as (us & c1 & -> & Hus & Hm1).
  { unfold undo_ok. destruct (no_coin_inputs tx); cbn [negb andb].
    - exists [], c. split; [done|]. split; [done|]. apply (models_leq _ _ _ Hm). by repeat split.
    - apply spend_inputs_models; [done|by apply HN|]. eapply Forall_impl; [by apply HI|]. intros i (u & Hu & _). by exists u. }
  pose proof (SetNullifiers_models _ _ tx true Hm1) as Hm2.
  destruct (add_coins_models ContainsOutPoint fSkipInvalid (GetHash tx) nHeight (IsCoinBase tx) (IsCoinStake tx) (vout tx)
              0 _ _ Hm2) as (c' & Hc' & Hm'); [lia|lia|done| |done|].
  { intros o u Ho. cbn. specialize (HO o u Ho). by destruct (negb (no_coin_inputs tx) && in_prevouts (vin tx) o). }
  unfold AddCoins. rewrite Hc'. cbn [obind]. exists us, c'. split; [done|]. split; [done|].
  apply (models_leq _ _ _ Hm'). by repeat split.
Qed.

Lemma restored_undo l ins us o : Forall2 (fun i u => l_utxo l (prevout i) = Some u) ins us ->
  restored ins us o = if in_prevouts ins o then l_utxo l o else None.
Proof.
  induction 1 as [|i u ins us Hu HF IH]; [done|]. cbn. case_decide; [subst; by rewrite bool_decide_true|].
  rewrite bool_decide_false by done. apply IH.
Qed.

Lemma disconnect_tx_models c l tx us : models c (ledger_connect l tx) -> connectable l tx ->
  (no_coin_inputs tx = false -> undo_ok l tx us) ->
  exists c', disconnect_tx tx us c = Some (DISCONNECT_OK, c') /\ models c' l.
Proof.
  intros Hm [HN HI HO Hnn Hfew Hall Hnf] Hus. unfold disconnect_tx. fold (no_coin_inputs tx).
  destruct (disconnect_outputs_models (GetHash tx) (IsCoinBase tx) (IsCoinStake tx) nHeight (vout tx) 0 c _ Hm)
    as (c1 & Hc1 & Hm1); [lia|lia| |].
  { intros o u Ho. cbn. unfold tx_outs. by rewrite Ho. }
  rewrite Hc1. unfold undo_ok in Hus. destruct (no_coin_inputs tx) eqn:En.
  - exists c1. split; [done|]. apply (models_leq _ _ _ Hm1). split; [|split; [|done]].
    + intros o. cbn. rewrite En. cbn. destruct (tx_outs tx o) as [u|] eqn:Eo; unfold tx_outs in Eo; rewrite Eo; [|done].
      symmetry. by apply (HO o u).
    + intros n. cbn. destruct (in_sapData tx n) eqn:E; [|done]. by destruct (Hnf n E).
  - specialize (Hus eq_refl). specialize (HN eq_refl). specialize (HI eq_refl).
    pose proof (SetNullifiers_models _ _ tx false Hm1) as Hm2.
    rewrite (Forall2_length _ _ _ Hus), Nat.eqb_refl. cbn [negb].
    destruct (restore_inputs_models (vin tx) us _ _ Hm2 HN) as (c' & Hc' & Hm').
    { by apply Forall2_length in Hus. }
    { clear -HI Hus. induction Hus as [|i u ins us Hu HF IH]; [done|]. apply Forall_cons in HI as [(w & Hw & Hr) HI].
      constructor; [congruence|by apply IH]. }
    { intros i Hi. cbn. rewrite En. cbn. destruct (out_coin _ _ _ _ (prevout i)); [done|].
      unfold tx_outs. destruct (out_coin _ _ _ _ (prevout i)) eqn:E.
      - rewrite Forall_forall in HI. destruct (HI i Hi) as (w & Hw & _). by rewrite (HO _ _ E) in Hw.
      - rewrite (proj2 (in_prevouts_spec (vin tx) (prevout i))); [done|]. by apply list_elem_of_In, in_map, list_elem_of_In. }
    rewrite Hc'. cbn [obind fst snd]. exists c'. split; [done|]. apply (models_leq _ _ _ Hm'). split; [|split; [|done]].
    + intros o. cbn. rewrite (restored_undo l _ _ _ Hus), En. cbn.
      destruct (tx_outs tx o) as [u|] eqn:Eo; pose proof Eo as Eo'; unfold tx_outs in Eo'; rewrite Eo'.
      * rewrite (HO o u Eo). by destruct (in_prevouts (vin tx) o).
      * destruct (in_prevouts (vin tx) o); [by destruct (l_utxo l o)|done].
    + intros n. cbn. destruct (in_sapData tx n) eqn:E; [|done]. by destruct (Hnf n E).
Qed.

Fixpoint undos_ok l (txs : list CTransaction) (uss : list (list Coin)) : Prop :=
  match txs, uss with
  | [], [] => True
  | tx :: txs, us :: uss => (no_coin_inputs tx = false -> undo_ok l tx us) /\ undos_ok (ledger_connect l tx) txs uss
  | _, _ => False
  end.
Definition ledger_block l (txs : list CTransaction) : Ledger := fold_left ledger_connect txs l.

Fixpoint update_trees (txs : list CTransaction) (t : SaplingMerkleTree) : option SaplingMerkleTree :=
  match txs with
  | [] => Some t
  | tx :: txs => t <- update_tree tx t;; update_trees txs t
  end.

Lemma connect_txs_models txs : forall c l t t', models c l -> all_connectable l txs -> update_trees txs t = Some t' ->
  exists uss c', connect_txs ContainsOutPoint txs nHeight fSkipInvalid t c = Some (uss, t', c') /\ undos_ok l txs uss /\
    models c' (ledger_block l txs).
Proof.
  induction txs as [|tx txs IH]; intros c l t t' Hm Hc Ht; [injection Ht as <-; by exists [], c|]. destruct Hc as [Hc Hcs].
  cbn in Ht. apply obind_Some in Ht as (t1 & Ht1 & Ht).
  destruct (UpdateCoins_models c l tx Hm Hc) as (us & c1 & Hu & Hus & Hm1).
  destruct (IH c1 _ t1 t' Hm1 Hcs Ht) as (uss & c' & Hr & Hok & Hm'). exists (us :: uss), c'. cbn [connect_txs].
  rewrite Hu. cbn [obind fst snd]. rewrite Ht1. cbn [obind]. rewrite Hr. done.
Qed.

Lemma disconnect_txs_models txs : forall uss c l, models c (ledger_block l txs) -> all_connectable l txs ->
  undos_ok l txs uss -> exists c', disconnect_txs txs uss c = Some (DISCONNECT_OK, c') /\ models c' l.
Proof.
  induction txs as [|tx txs IH]; intros [|us uss] c l Hm Hc Hu; try done; [by exists c|].
  destruct Hc as [Hc Hcs], Hu as [Hu Hus].
  destruct (IH uss c (ledger_connect l tx) Hm Hcs Hus) as (c1 & Hr & Hm1). cbn [disconnect_txs]. rewrite Hr. cbn [obind].
  destruct (disconnect_tx_models c1 l tx us Hm1 Hc Hu) as (c' & Hd & Hm'). rewrite Hd. by exists c'.
Qed.

Lemma undos_ok_length txs : forall l uss, undos_ok l txs uss -> length uss = length txs.
Proof. induction txs as [|tx txs IH]; intros l [|us uss] H; try done. cbn. f_equal. by eapply IH, H. Qed.

(** The transactions neither read nor write the tip and the anchors. *)
Definition retip l (m : Ledger) : Ledger := mkLedger (l_utxo l) (l_spent l) (l_best m) (l_anchors m) (l_anchor m).
Lemma ledger_block_retip txs m : forall l, ledger_block (retip l m) txs = retip (ledger_block l txs) m.
Proof. induction txs as [|tx txs IH]; intros l; [done|]. apply (IH (ledger_connect l tx)). Qed.
Lemma all_connectable_retip txs m : forall l, all_connectable l txs -> all_connectable (retip l m) txs.
Proof.
  induction txs as [|tx txs IH]; intros l H; [done|]. destruct H as [[] H]. split; [by constructor|]. by apply (IH (ledger_connect l tx)).
Qed.
Lemma undos_ok_retip txs m : forall l uss, undos_ok l txs uss -> undos_ok (retip l m) txs uss.
Proof. induction txs as [|tx txs IH]; intros l [|us uss] H; try done. destruct H as [H1 H2]. split; [done|]. by apply (IH (ledger_connect l tx)). Qed.

Definition block_ledger l (txs : list CTransaction) (root hash : list Z) : Ledger :=
  with_best (push_anchor (ledger_block l txs) root) hash.
(** Roots a block may end with: the old one, or one not seen before. *)
Definition root_ok l (root : list Z) : Prop :=
  all_zero root = false /\ (root = l_anchor l \/ l_anchors l root = false).

Lemma ledger_block_anchor txs : forall l, l_anchor (ledger_block l txs) = l_anchor l.
Proof. induction txs as [|tx txs IH]; intros l; [done|]. apply (IH (ledger_connect l tx)). Qed.
Lemma ledger_block_anchors txs : forall l, l_anchors (ledger_block l txs) = l_anchors l.
Proof. induction txs as [|tx txs IH]; intros l; [done|]. apply (IH (ledger_connect l tx)). Qed.

Lemma connect_block_models txs hash c l : models c l -> all_connectable l txs ->
  l_anchors l (l_anchor l) = true -> all_zero hash = false ->
  (forall t, tree_root t = l_anchor l -> exists t', update_trees txs t = Some t' /\ root_ok l (tree_root t')) ->
  exists uss root c', connect_block ContainsOutPoint txs nHeight fSkipInvalid hash c = Some (tl uss, c') /\
    undos_ok l txs uss /\ root_ok l root /\ models c' (block_ledger l txs root hash).
Proof.
  intros Hm Hall Hb Hz Ht. unfold connect_block. pose proof Hm as [Hok (_ & _ & _ & _ & L5)]. cbn in L5.
  destruct (cache_GetBestAnchor c) as [rt c1] eqn:E1.
  destruct (cache_GetBestAnchor_spec _ _ _ Hok E1) as (Hok1 & Hl1 & _ & _ & Hr1).
  destruct (cache_GetSaplingAnchorAt c1 rt) as [t c2] eqn:E2.
  destruct (cache_GetSaplingAnchorAt_spec _ _ _ _ Hok1 E2) as (Hok2 & Hl2 & _ & Hr2).
  assert (Hm1 : models c1 l) by (by eapply models_read). assert (Hm2 : models c2 l) by (by eapply models_read).
  assert (Ert : rt = l_anchor l) by (by rewrite <- L5).
  assert (Hhas : cache_has_anchor c1 rt = true) by (rewrite Ert, <- Hb; apply Hm1).
  destruct t as [t|]; [|congruence]. destruct Hr2 as (_ & Hroot & _).
  destruct (Ht t) as (t' & Ht' & Hok'); [by rewrite Hroot|].
  destruct (connect_txs_models txs c2 l t t' Hm2 Hall Ht') as (uss & c3 & Hc & Hus & Hm3).
  rewrite Hc. cbn [obind fst snd]. exists uss, (tree_root t'). eexists. split; [done|]. split; [done|]. split; [done|].
  apply SetBestBlock_models; [|done]. apply PushAnchor_models; [done|apply Hok'].
Qed.

Lemma push_anchor_new l root : root_ok l root -> l_anchor (push_anchor l root) <> l_anchor l ->
  l_anchor (push_anchor l root) = root /\ l_anchors l root = false /\
  forall r, l_anchors (push_anchor l root) r = if decide (root = r) then true else l_anchors l r.
Proof.
  intros [_ Hr] Hne. unfold push_anchor in *. destruct (list_eqb (l_anchor l) root); [done|].
  split; [done|]. split; [|done]. destruct Hr as [->|Hr]; [done|exact Hr].
Qed.
Lemma pop_push_anchor l root h : root_ok l root ->
  leq (with_best (pop_anchor (with_best (push_anchor l root) h) (l_anchor l)) (l_best l)) l.
Proof.
  intros Hr. unfold pop_anchor. cbn [with_best l_anchor]. destruct (list_eqb (l_anchor (push_anchor l root)) (l_anchor l)) eqn:E.
  - unfold push_anchor in *. destruct (list_eqb (l_anchor l) root) eqn:E'; [by repeat split|]. cbn in E.
    apply list_eqb_eq in E. subst root. by rewrite (proj2 (list_eqb_eq _ _) eq_refl) in E'.
  - destruct (push_anchor_new l root Hr) as (E1 & E2 & E3).
    { intros Hc. by rewrite Hc, (proj2 (list_eqb_eq _ _) eq_refl) in E. }
    assert (Eu : l_utxo (push_anchor l root) = l_utxo l /\ l_spent (push_anchor l root) = l_spent l)
      by (unfold push_anchor; by destruct (list_eqb (l_anchor l) root)).
    destruct Eu as [Eu Es]. split; [intros o; cbn; by rewrite Eu|]. split; [intros n; cbn; by rewrite Es|]. split; [done|].
    split; [|done]. intros r. cbn. rewrite E1, E3. by case_decide; subst.
Qed.

Lemma DisconnectBlock_models coinbase txs uss root hash c l : IsCoinBase coinbase = true ->
  all_connectable l (coinbase :: txs) -> undos_ok l (coinbase :: txs) uss -> root_ok l root ->
  l_anchors l empty_root = true -> all_zero (l_anchor l) = false -> all_zero (l_best l) = false ->
  models c (block_ledger l (coinbase :: txs) root hash) ->
  exists c', DisconnectBlock (coinbase :: txs) (tl uss) (l_anchor l) (l_best l) c = Some (DISCONNECT_OK, c') /\ models c' l.
Proof.
  intros Hcb Hall Hus Hroot Hem Hza Hzb Hm. set (all := coinbase :: txs) in *.
  set (m := block_ledger l all root hash) in *. pose proof (undos_ok_length _ _ _ Hus) as HL.
  destruct (disconnect_txs_models all ([] :: tl uss) c (retip l m)) as (c1 & Hd & Hm1).
  { rewrite ledger_block_retip. apply (models_leq _ _ _ Hm). unfold m, block_ledger, push_anchor.
    destruct (list_eqb (l_anchor (ledger_block l all)) root); by repeat split. }
  { by apply all_connectable_retip. }
  { apply undos_ok_retip. destruct uss as [|u uss]; [done|]. split; [|apply Hus]. unfold no_coin_inputs. by rewrite Hcb. }
  apply (models_leq _ _ (with_best (push_anchor l root) hash)) in Hm1.
  2:{ unfold m, block_ledger, push_anchor. rewrite ledger_block_anchor, ledger_block_anchors.
      destruct (list_eqb (l_anchor l) root); repeat split; intros; cbn -[ledger_block]; by rewrite ?ledger_block_anchor, ?ledger_block_anchors. }
  destruct (PopAnchor_models c1 _ (l_anchor l) Hm1 Hza) as (c2 & Hp & Hm2 & _).
  { cbn. intros Hne. destruct (push_anchor_new l root Hroot Hne) as (E1 & E2 & E3).
    split; [by rewrite E1, E3, decide_True|]. rewrite E1. intros ->. by rewrite E2 in Hem. }
  unfold DisconnectBlock. destruct uss as [|u uss]; [done|]. cbn in HL.
  replace (length (tl (u :: uss)) + 1 =? length all)%nat with true by (symmetry; apply Nat.eqb_eq; cbn; lia). cbn [negb].
  rewrite Hd. cbn [obind]. rewrite Hp. cbn [obind]. eexists. split; [done|].
  apply (models_leq _ _ _ (SetBestBlock_models _ _ _ Hm2 Hzb)). by apply pop_push_anchor.
Qed.
End Blocks.

(** Connecting the transactions of a block whose inputs are unspent coins and
    whose outputs, nullifiers and final tree root are new never throws and changes
    the view exactly as the ledger says: inputs gone, spendable outputs there,
    nullifiers revealed, the new root an anchor, the block the tip.  Whatever
    cache later stands for that ledger - after flushes, over any view - undoing
    the block with the records written while connecting reports a clean result
    and gives the ledger back as it was. *)
Theorem disconnect_undoes_connect `{STL : SaplingTreeLib} {V W : Type} {view : CoinsView V} {view' : CoinsView W}
    {abi : Abi} {crypto : ScriptCrypto} (ContainsOutPoint : COutPoint -> bool) (fSkipInvalid : bool) (nHeight : Z)
    (coinbase : CTransaction) (txs : list CTransaction) (hash : list Z) (c : CCoinsViewCache V) (l : Ledger) :
  models c l -> IsCoinBase coinbase = true ->
  all_connectable ContainsOutPoint fSkipInvalid nHeight l (coinbase :: txs) ->
  (forall t, tree_root t = l_anchor l -> exists t', update_trees (coinbase :: txs) t = Some t' /\ root_ok l (tree_root t')) ->
  l_anchors l (l_anchor l) = true -> all_zero (l_anchor l) = false -> all_zero (l_best l) = false -> all_zero hash = false ->
  exists vtxundo root c1,
    connect_block ContainsOutPoint (coinbase :: txs) nHeight fSkipInvalid hash c = Some (vtxundo, c1) /\
    models c1 (block_ledger nHeight l (coinbase :: txs) root hash) /\
    forall c2 : CCoinsViewCache W, models c2 (block_ledger nHeight l (coinbase :: txs) root hash) ->
      exists c3, DisconnectBlock (coinbase :: txs) vtxundo (l_anchor l) (l_best l) c2 = Some (DISCONNECT_OK, c3) /\ models c3 l.
Proof.
  intros Hm Hcb Hall Ht Ha Hza Hzb Hz.
  destruct (connect_block_models ContainsOutPoint fSkipInvalid nHeight _ hash c l Hm Hall Ha Hz Ht)
    as (uss & root & c1 & Hc & Hus & Hr & Hm1).
  exists (tl uss), root, c1. split; [done|]. split; [done|]. intros c2 Hm2.
  apply (DisconnectBlock_models ContainsOutPoint fSkipInvalid nHeight coinbase txs uss root hash c2 l); try done.
  destruct Hm as [Hok (_ & _ & _ & L4 & _)]. rewrite <- L4. by apply cache_empty_root.
Qed.

#[local] Existing Instance ex_trees.
Definition ex_coinbase : CTransaction :=
  mkTx 1 0 [mkTxIn (mkOutPoint (repeat 0 32) 0xffffffff) [1; 12] 0] [mkTxOut 900 [OP_1] (-10); mkTxOut 0 [OP_RETURN] (-10)]
       0 None None.
Definition ex_spend : CTransaction :=
  mkTx 1 0 [mkTxIn ex_o1 [] 0] [mkTxOut 4000 [OP_2] (-10); mkTxOut 900 [OP_3] (-10)] 0 None None.

(** Evaluate the outputs of a concrete transaction. *)
Ltac concrete_outs :=
  let o := fresh "o" in let u := fresh "u" in let H := fresh "H" in
  intros o u H; revert H; unfold tx_outs; cbn [vout out_coin ex_coinbase ex_spend];
  repeat (case_decide; [subst o; intros _; vm_compute; reflexivity|]); discriminate.

Lemma disconnect_undoes_connect_witness :
  let c := CCoinsViewCache_new ex_over_db in
  let l := ledger ex_over_db in
  let txs := [ex_coinbase; ex_spend] in
  models c l /\ all_connectable (abi := abi64) (crypto := toy_crypto) (fun _ => false) false 12 l txs /\
  exists vtxundo c1,
    connect_block (abi := abi64) (crypto := toy_crypto) (fun _ => false) txs 12 false (repeat 9 32) c = Some (vtxundo, c1) /\
    exists c3, DisconnectBlock (abi := abi64) (crypto := toy_crypto) txs vtxundo (l_anchor l) (l_best l) c1 = Some (DISCONNECT_OK, c3) /\
      models c3 l.
Proof.
  intros c l txs.
  assert (Hm : models c l) by (apply new_cache_models, ex_over_db_ok).
  assert (Ha : all_connectable (abi := abi64) (crypto := toy_crypto) (fun _ => false) false 12 l txs).
  { split; [|split; [|done]]; constructor; try done; try concrete_outs.
    - repeat constructor; reflexivity.
    - intros _. cbn. apply NoDup_singleton.
    - intros _. constructor; [|constructor]. exists ex_coin1. split; [vm_compute; reflexivity|].
      repeat split; vm_compute; (reflexivity || discriminate).
    - repeat constructor; reflexivity. }
  split; [exact Hm|]. split; [exact Ha|].
  destruct (disconnect_undoes_connect (W := CCoinsViewCache CCoinsViewDB) (abi := abi64) (crypto := toy_crypto) (fun _ => false)
              false 12 ex_coinbase [ex_spend] (repeat 9 32) c l Hm eq_refl Ha) as (vtxundo & root & c1 & Hc & Hm1 & Hd);
    [|vm_compute; reflexivity..|].
  { intros t Ht. exists t. split; [reflexivity|]. rewrite Ht. split; [vm_compute; reflexivity|by left]. }
  exists vtxundo, c1. split; [exact Hc|]. exact (Hd c1 Hm1).
Defined.
