(* ===== verification/Inputs.v ===== *)
(** Checking the inputs of a transaction against the coins they spend
    (src/validation.cpp, src/coins.cpp, src/script/script_error.cpp). *)
From Stdlib Require Import ZArith Lia String List Bool.
From stdpp Require Import base gmap list.
From S2P Require Import Prelude Consensus Serialize Script Interpreter Transaction TxVerify SigHash Compressor Coins Ledger Connect.
Import ListNotations.
Local Open Scope Z_scope.
Local Open Scope passion_scope.

Definition REJECT_NONSTANDARD : Z := 0x40.
Definition MANDATORY_SCRIPT_VERIFY_FLAGS : Z := SCRIPT_VERIFY_P2SH.
Definition STANDARD_SCRIPT_VERIFY_FLAGS : Z :=
  fold_left Z.lor [SCRIPT_VERIFY_DERSIG; SCRIPT_VERIFY_STRICTENC; SCRIPT_VERIFY_MINIMALDATA; SCRIPT_VERIFY_NULLDUMMY;
                   SCRIPT_VERIFY_DISCOURAGE_UPGRADABLE_NOPS; SCRIPT_VERIFY_LOW_S] MANDATORY_SCRIPT_VERIFY_FLAGS.
Definition STANDARD_NOT_MANDATORY_VERIFY_FLAGS : Z :=
  Z.land STANDARD_SCRIPT_VERIFY_FLAGS (Z.lxor 0xffffffff MANDATORY_SCRIPT_VERIFY_FLAGS).

Definition ScriptErrorString (serror : ScriptError) : string :=
  match serror with
  | SCRIPT_ERR_OK => "No error"
  | SCRIPT_ERR_EVAL_FALSE => "Script evaluated without error but finished with a false/empty top stack element"
  | SCRIPT_ERR_VERIFY => "Script failed an OP_VERIFY operation"
  | SCRIPT_ERR_EQUALVERIFY => "Script failed an OP_EQUALVERIFY operation"
  | SCRIPT_ERR_CHECKCOLDSTAKEVERIFY => "Script failed an OP_CHECKCOLDSTAKEVERIFY operation"
  | SCRIPT_ERR_CHECKMULTISIGVERIFY => "Script failed an OP_CHECKMULTISIGVERIFY operation"
  | SCRIPT_ERR_CHECKSIGVERIFY => "Script failed an OP_CHECKSIGVERIFY operation"
  | SCRIPT_ERR_NUMEQUALVERIFY => "Script failed an OP_NUMEQUALVERIFY operation"
  | SCRIPT_ERR_SCRIPT_SIZE => "Script is too big"
  | SCRIPT_ERR_PUSH_SIZE => "Push value size limit exceeded"
  | SCRIPT_ERR_OP_COUNT => "Operation limit exceeded"
  | SCRIPT_ERR_STACK_SIZE => "Stack size limit exceeded"
  | SCRIPT_ERR_SIG_COUNT => "Signature count negative or greater than pubkey count"
  | SCRIPT_ERR_PUBKEY_COUNT => "Pubkey count negative or limit exceeded"
  | SCRIPT_ERR_BAD_OPCODE => "Opcode missing or not understood"
  | SCRIPT_ERR_DISABLED_OPCODE => "Attempted to use a disabled opcode"
  | SCRIPT_ERR_INVALID_STACK_OPERATION => "Operation not valid with the current stack size"
  | SCRIPT_ERR_INVALID_ALTSTACK_OPERATION => "Operation not valid with the current altstack size"
  | SCRIPT_ERR_OP_RETURN => "OP_RETURN was encountered"
  | SCRIPT_ERR_UNBALANCED_CONDITIONAL => "Invalid OP_IF construction"
  | SCRIPT_ERR_NEGATIVE_LOCKTIME => "Negative locktime"
  | SCRIPT_ERR_UNSATISFIED_LOCKTIME => "Locktime requirement not satisfied"
  | SCRIPT_ERR_SIG_HASHTYPE => "Signature hash type missing or not understood"
  | SCRIPT_ERR_SIG_DER => "Non-canonical DER signature"
  | SCRIPT_ERR_MINIMALDATA => "Data push larger than necessary"
  | SCRIPT_ERR_SIG_PUSHONLY => "Only non-push operators allowed in signatures"
  | SCRIPT_ERR_SIG_HIGH_S => "Non-canonical signature: S value is unnecessarily high"
  | SCRIPT_ERR_SIG_NULLDUMMY => "Dummy CHECKMULTISIG argument must be zero"
  | SCRIPT_ERR_DISCOURAGE_UPGRADABLE_NOPS => "NOPx reserved for soft-fork upgrades"
  | SCRIPT_ERR_PUBKEYTYPE => "Public key is neither compressed or uncompressed"
  | _ => "unknown error"
  end%string.

Section Inputs.
Context `{STL : SaplingTreeLib} {V : Type} {view : CCoinsView V} {abi : Abi} {crypto : ScriptCrypto} {sig : SigCrypto}.
Variable consensus : Params.
Abbreviation Cache := (CCoinsViewCache V).

(** A check that reads the coins: verdict, state and the filled cache; [None] is a
    failed assertion or a thrown exception. *)
Definition VCheck := CValidationState -> Cache -> option (bool * CValidationState * Cache).
Definition vaccept : VCheck := fun st c => Some (true, st, c).
Definition vreject (level code : Z) (reason : string) : VCheck := fun st c =>
  Some (DoS level false code reason false EmptyString st, c).

(** ** GetValueIn *)

Fixpoint value_in_loop (ins : list CTxIn) (nResult : Z) (c : Cache) : Z * Cache :=
  match ins with
  | [] => (nResult, c)
  | i :: ins =>
      let '(coin, c) := AccessCoin c (prevout i) in
      value_in_loop ins (i64 (nResult + nValue (coin_out coin))) c
  end.
Definition GetValueIn (tx : CTransaction) (c : Cache) : option (Z * Cache) :=
  if IsCoinBase tx then Some (0, c)
  else if HasZerocoinSpendInputs tx then Some (GetZerocoinSpent tx, c)
  else
    let '(nResult, c) := value_in_loop (vin tx) 0 c in
    nShielded <- GetShieldedValueIn tx;;
    Some (i64 (nResult + nShielded), c).

(** ** CheckTxInputs *)

(** The loop over the inputs; [k] is what follows it. *)
Fixpoint input_values (nSpendHeight : Z) (ins : list CTxIn) (nValueIn : Z) (k : Z -> VCheck) : VCheck := fun st c =>
  match ins with
  | [] => k nValueIn st c
  | i :: ins =>
      let '(coin, c) := AccessCoin c (prevout i) in
      if IsSpent coin then None
      else if (fCoinBase coin || fCoinStake coin) && (nSpendHeight - coin_nHeight coin <? nCoinbaseMaturity consensus)
      then vreject 0 REJECT_INVALID "bad-txns-premature-spend-of-coinbase-coinstake" st c
      else
        let nValueIn := i64 (nValueIn + nValue (coin_out coin)) in
        if negb (MoneyRange consensus (nValue (coin_out coin))) || negb (MoneyRange consensus nValueIn)
        then vreject 100 REJECT_INVALID "bad-txns-inputvalues-outofrange" st c
        else input_values nSpendHeight ins nValueIn k st c
  end.

(** The balance of a transaction that is not a coinstake. *)
Definition check_fee (tx : CTransaction) (nValueIn : Z) : VCheck := fun st c =>
  nShielded <- GetShieldedValueIn tx;;
  let nValueIn := i64 (nValueIn + nShielded) in
  if IsCoinStake tx then vaccept st c
  else
    nValueOut <- GetValueOut tx;;
    if nValueIn <? nValueOut then vreject 100 REJECT_INVALID "bad-txns-in-belowout" st c
    else
      let nTxFee := i64 (nValueIn - nValueOut) in
      if nTxFee <? 0 then vreject 100 REJECT_INVALID "bad-txns-fee-negative" st c
      else
        let nFees := i64 (0 + nTxFee) in
        if negb (MoneyRange consensus nFees) then vreject 100 REJECT_INVALID "bad-txns-fee-outofrange" st c
        else vaccept st c.

Definition CheckTxInputs (tx : CTransaction) (nSpendHeight : Z) : VCheck := fun st c =>
  let '(have, c) := HaveInputs c tx in
  if negb have then vreject 0 0 EmptyString st c
  else
    let '(met, c) := HaveShieldedRequirements c tx in
    if negb met then vreject 0 0 EmptyString st c
    else input_values nSpendHeight (vin tx) 0 (check_fee tx) st c.

(** ** CheckInputs *)

Record CScriptCheck := mkScriptCheck {
  chk_scriptPubKey : CScript;
  chk_amount : Z;
  ptxTo : CTransaction;
  chk_nIn : Z;
  nFlags : Z;
  precomTxData : PrecomputedTransactionData
}.
(** The signature cache only remembers signatures that verified. *)
Definition run_check (k : CScriptCheck) : result unit :=
  match nth_error (vin (ptxTo k)) (Z.to_nat (chk_nIn k)) with
  | None => Abort
  | Some txin =>
      VerifyScript (scriptSig txin) (chk_scriptPubKey k) (nFlags k)
        (TransactionSignatureChecker (ptxTo k) (chk_nIn k) (chk_amount k) (Some (precomTxData k)))
        (GetRequiredSigVersion (ptxTo k))
  end.

(** [pvChecks]: collect the checks for the threads instead of running them. *)
Fixpoint script_checks (tx : CTransaction) (flags : Z) (precom : PrecomputedTransactionData) (pvChecks : bool)
    (ins : list CTxIn) (i : Z) (checks : list CScriptCheck) (st : CValidationState) (c : Cache)
    : option (bool * list CScriptCheck * CValidationState * Cache) :=
  match ins with
  | [] => Some (true, checks, st, c)
  | txin :: ins =>
      let '(coin, c) := AccessCoin c (prevout txin) in
      if IsSpent coin then None
      else
        let k f := mkScriptCheck (scriptPubKey (coin_out coin)) (nValue (coin_out coin)) tx i f precom in
        if pvChecks then script_checks tx flags precom pvChecks ins (i + 1) (checks ++ [k flags]) st c
        else
          match run_check (k flags) with
          | Abort => None
          | Ok _ => script_checks tx flags precom pvChecks ins (i + 1) checks st c
          | Err e =>
              let fail := let '(b, st) := DoS 100 false REJECT_INVALID
                              ("mandatory-script-verify-flag-failed (" ++ ScriptErrorString e ++ ")")%string false EmptyString st in
                          Some (b, checks, st, c) in
              if negb (Z.land flags STANDARD_NOT_MANDATORY_VERIFY_FLAGS =? 0) then
                match run_check (k (Z.land flags (Z.lxor 0xffffffff STANDARD_NOT_MANDATORY_VERIFY_FLAGS))) with
                | Abort => None
                | Ok _ =>
                    let '(b, st) := Invalid false REJECT_NONSTANDARD
                        ("non-mandatory-script-verify-flag (" ++ ScriptErrorString e ++ ")")%string EmptyString st in
                    Some (b, checks, st, c)
                | Err _ => fail
                end
              else fail
          end
  end.

(** [mapBlockIndex.find(hash)->second->nHeight] *)
Variable blockHeight : list Z -> option Z.

Definition GetSpendHeight (c : Cache) : option (Z * Cache) :=
  let '(h, c) := cache_GetBestBlock c in
  n <- blockHeight h;; Some (i32 (n + 1), c).

Definition CheckInputs (tx : CTransaction) (fScriptChecks : bool) (flags : Z) (precom : PrecomputedTransactionData)
    (pvChecks : bool) (st : CValidationState) (c : Cache) : option (bool * list CScriptCheck * CValidationState * Cache) :=
  if negb (IsCoinBase tx) && negb (HasZerocoinSpendInputs tx) then
    h <- GetSpendHeight c;;
    r <- CheckTxInputs tx h.1 st h.2;;
    if negb r.1.1 then Some (false, [], r.1.2, r.2)
    else if fScriptChecks then script_checks tx flags precom pvChecks (vin tx) 0 [] r.1.2 r.2
    else Some (true, [], r.1.2, r.2)
  else Some (true, [], st, c).
End Inputs.

(** * What the checks mean *)

Section Meaning.
Context `{STL : SaplingTreeLib} {V : Type} {view : CoinsReader V} {abi : Abi} {crypto : ScriptCrypto} {sig : SigCrypto}.
Variable consensus : Params.
Abbreviation max := (nMaxMoneyOut consensus).
Implicit Types (c : CCoinsViewCache V) (l : Ledger).

Definition mature (nSpendHeight : Z) (u : Coin) : Prop :=
  fCoinBase u || fCoinStake u = true -> nCoinbaseMaturity consensus <= nSpendHeight - coin_nHeight u.
Definition coin_value l (i : CTxIn) : Z := match l_utxo l (prevout i) with Some u => nValue (coin_out u) | None => 0 end.
Definition total_in l (ins : list CTxIn) : Z := fold_right (fun i acc => coin_value l i + acc) 0 ins.
Definition available l (ins : list CTxIn) : Prop := Forall (fun i => exists u, l_utxo l (prevout i) = Some u) ins.
Definition input_ok l (nSpendHeight : Z) (i : CTxIn) : Prop :=
  forall u, l_utxo l (prevout i) = Some u -> mature nSpendHeight u /\ 0 <= nValue (coin_out u) <= max.
Definition values_ok l (nSpendHeight : Z) (ins : list CTxIn) : Prop :=
  Forall (input_ok l nSpendHeight) ins /\ total_in l ins <= max.

(** Everything [CheckTxInputs] demands: coins there and ripe, exact sums within
    the money range, shielded spends fresh, and - except by a coinstake - no more paid out than
    put in. *)
Record tx_inputs_ok l (tx : CTransaction) (nSpendHeight : Z) (nShielded nValueOut : Z) : Prop := {
  inputs_there : available l (vin tx);
  spends_fresh : requirements_met l tx = true;
  values_right : values_ok l nSpendHeight (vin tx);
  balanced : IsCoinStake tx = false ->
    nValueOut <= total_in l (vin tx) + nShielded /\ total_in l (vin tx) + nShielded - nValueOut <= max
}.

Lemma MoneyRange_spec v : MoneyRange consensus v = true <-> 0 <= v <= max.
Proof. unfold MoneyRange. rewrite andb_true_iff, Z.geb_leb, !Z.leb_le. done. Qed.
Lemma vreject_spec level code reason st c : exists st', vreject level code reason st c = Some (false, st', c).
Proof. unfold vreject, DoS. destruct (mode st); by eexists. Qed.
Lemma live_Some r u : live r = Some u -> r = u /\ IsSpent r = false.
Proof. unfold live. destruct (IsSpent r); [done|]. by intros [= ->]. Qed.

Lemma total_in_nonneg nSpendHeight l ins : available l ins -> Forall (input_ok l nSpendHeight) ins -> 0 <= total_in l ins.
Proof.
  induction ins as [|j ins IH]; intros HF HF'; [done|]. apply Forall_cons in HF as [[w Hw] HF], HF' as [Hj HF'].
  cbn. unfold coin_value at 1. rewrite Hw. destruct (Hj w Hw) as [_ Hj']. specialize (IH HF HF'). unfold total_in in IH. lia.
Qed.

(** The loop goes on with the exact total, or rejects. *)
Lemma input_values_spec nSpendHeight k ins : 0 <= max < 2 ^ 62 -> forall acc st c l, models c l -> available l ins -> 0 <= acc <= max ->
  (Forall (input_ok l nSpendHeight) ins /\ acc + total_in l ins <= max /\
     exists c', models c' l /\ input_values consensus nSpendHeight ins acc k st c = k (acc + total_in l ins) st c') \/
  (~ (Forall (input_ok l nSpendHeight) ins /\ acc + total_in l ins <= max) /\
     exists st' c', models c' l /\ input_values consensus nSpendHeight ins acc k st c = Some (false, st', c')).
Proof.
  intros Hmax. induction ins as [|i ins IH]; intros acc st c l Hm HF Hacc.
  { left. cbn. rewrite Z.add_0_r. split; [done|]. split; [lia|by exists c]. }
  apply Forall_cons in HF as [[u Hu] HF]. cbn [input_values].
  destruct (AccessCoin c (prevout i)) as [r c1] eqn:Ea. destruct (AccessCoin_models _ _ _ _ _ Hm Ea) as (Hm1 & _ & Hr).
  rewrite Hu in Hr. symmetry in Hr. apply live_Some in Hr as [-> Hsp]. rewrite Hsp.
  assert (Ev : coin_value l i = nValue (coin_out u)) by (unfold coin_value; by rewrite Hu).
  assert (Hin : input_ok l nSpendHeight i <-> mature nSpendHeight u /\ 0 <= nValue (coin_out u) <= max).
  { split; [intros H; by apply H|]. intros H u'. rewrite Hu. by intros [= <-]. }
  rewrite Forall_cons, Hin. change (total_in l (i :: ins)) with (coin_value l i + total_in l ins). rewrite Ev.
  destruct ((fCoinBase u || fCoinStake u) && (nSpendHeight - coin_nHeight u <? nCoinbaseMaturity consensus)) eqn:Emat.
  { right. split; [|edestruct vreject_spec as [st' ->]; by exists st', c1]. apply andb_true_iff in Emat as [E1 E2%Z.ltb_lt].
    intros [[[Hmat _] _] _]. specialize (Hmat E1). lia. }
  assert (Hmat : mature nSpendHeight u).
  { intros Hc. rewrite Hc in Emat. cbn in Emat. apply Z.ltb_ge in Emat. exact Emat. }
  destruct (negb (MoneyRange consensus (nValue (coin_out u))) || _) eqn:Er.
  - right. split; [|edestruct vreject_spec as [st' ->]; by exists st', c1]. intros [[[_ Hv] HF'] Ht].
    pose proof (total_in_nonneg nSpendHeight l ins HF HF') as Hpos.
    apply orb_true_iff in Er as [Er%negb_true_iff|Er%negb_true_iff].
    + by rewrite (proj2 (MoneyRange_spec _) Hv) in Er.
    + rewrite i64_small in Er by lia. rewrite (proj2 (MoneyRange_spec _)) in Er; [done|lia].
  - apply orb_false_iff in Er as [Ev1%negb_false_iff Ev2%negb_false_iff].
    apply MoneyRange_spec in Ev1. rewrite i64_small in Ev2 |- * by lia. apply MoneyRange_spec in Ev2.
    destruct (IH (acc + nValue (coin_out u)) st c1 l Hm1 HF Ev2) as [(H1 & H2 & c' & Hm' & H3)|(H1 & st' & c' & Hm' & H3)].
    + left. split; [done|]. split; [lia|]. exists c'. split; [done|]. rewrite H3. by rewrite Z.add_assoc.
    + right. split; [|by exists st', c']. intros [[_ HF'] Ht]. apply H1. split; [done|lia].
Qed.

Lemma check_fee_spec tx vin0 nShielded nValueOut st c : 0 <= max < 2 ^ 62 -> 0 <= vin0 <= max ->
  GetShieldedValueIn tx = Some nShielded -> GetValueOut tx = Some nValueOut -> 0 <= nShielded <= max -> 0 <= nValueOut <= max ->
  let ok := IsCoinStake tx = false -> nValueOut <= vin0 + nShielded /\ vin0 + nShielded - nValueOut <= max in
  (ok /\ check_fee consensus tx vin0 st c = Some (true, st, c)) \/
  (~ ok /\ exists st', check_fee consensus tx vin0 st c = Some (false, st', c)).
Proof.
  intros Hmax Hv Es Eo Hs Ho ok. unfold check_fee. rewrite Es, Eo. cbn [obind].
  destruct (IsCoinStake tx) eqn:Ec; [by left|].
  rewrite (i64_small (vin0 + nShielded)) by lia. destruct (vin0 + nShielded <? nValueOut) eqn:El.
  - right. split; [|apply vreject_spec]. intros H. apply Z.ltb_lt in El. destruct (H eq_refl). lia.
  - apply Z.ltb_ge in El. rewrite (i64_small (vin0 + nShielded - nValueOut)) by lia.
    destruct (vin0 + nShielded - nValueOut <? 0) eqn:En; [apply Z.ltb_lt in En; lia|].
    rewrite (i64_small (0 + _)) by lia.
    destruct (MoneyRange consensus (0 + (vin0 + nShielded - nValueOut))) eqn:Em; cbn [negb].
    + apply MoneyRange_spec in Em. left. split; [|done]. intros _. lia.
    + right. split; [|apply vreject_spec]. intros H. destruct (H eq_refl). rewrite (proj2 (MoneyRange_spec _)) in Em; [done|lia].
Qed.

(** [CheckTxInputs] always returns and accepts exactly the right transactions. *)
Lemma CheckTxInputs_spec tx nSpendHeight nShielded nValueOut st c l : models c l -> no_coin_inputs tx = false -> 0 <= max < 2 ^ 62 ->
  GetShieldedValueIn tx = Some nShielded -> GetValueOut tx = Some nValueOut -> 0 <= nShielded <= max -> 0 <= nValueOut <= max ->
  exists b st' c', CheckTxInputs consensus tx nSpendHeight st c = Some (b, st', c') /\ models c' l /\ (b = true -> st' = st) /\
    (b = true <-> tx_inputs_ok l tx nSpendHeight nShielded nValueOut).
Proof.
  intros Hm Hn Hmax Es Eo Hs Ho. unfold CheckTxInputs.
  destruct (HaveInputs c tx) as [have c1] eqn:Eh. destruct (HaveInputs_models _ _ _ _ _ Hm Eh) as [Hm1 Hh].
  destruct have; cbn [negb].
  2:{ edestruct vreject_spec as [st' ->]. eexists _, _, c1. split; [done|]. split; [done|]. split; [done|]. split; [done|]. intros [H _ _ _].
      apply (proj2 Hh). intros _. exact H. }
  assert (Hav : available l (vin tx)) by (by apply (proj1 Hh)).
  destruct (HaveShieldedRequirements c1 tx) as [met c2] eqn:Em.
  destruct (HaveShieldedRequirements_models _ _ _ _ _ Hm1 Em) as (Hm2 & _ & ->).
  destruct (requirements_met l tx) eqn:Er; cbn [negb].
  2:{ edestruct vreject_spec as [st' ->]. eexists _, _, c2. split; [done|]. split; [done|]. split; [done|]. split; [done|]. intros [_ H _ _]. by rewrite H in Er. }
  destruct (input_values_spec nSpendHeight (check_fee consensus tx) (vin tx) Hmax 0 st c2 l Hm2 Hav) as
    [(H1 & H2 & c3 & Hm3 & H3)|(H1 & st' & c3 & Hm3 & H3)]; [lia|..]; rewrite H3; rewrite ?Z.add_0_l in *.
  - pose proof (total_in_nonneg nSpendHeight l (vin tx) Hav H1) as Hpos.
    destruct (check_fee_spec tx (total_in l (vin tx)) nShielded nValueOut st c3 Hmax ltac:(lia) Es Eo Hs Ho) as
      [(Hok & ->)|(Hok & st' & ->)].
    + eexists _, _, c3. split; [done|]. split; [done|]. split; [done|]. split; [|done]. intros _. by split.
    + eexists _, _, c3. split; [done|]. split; [done|]. split; [done|]. split; [done|]. intros [_ _ _ H]. by destruct Hok.
  - eexists _, _, c3. split; [done|]. split; [done|]. split; [done|]. split; [done|]. intros [_ _ H _]. by destruct H1.
Qed.

(** ** Scripts *)

(** The check of input [i], spending the coin [u]. *)
Definition input_check (tx : CTransaction) (flags : Z) (precom : PrecomputedTransactionData) (i : nat) (u : Coin) : CScriptCheck :=
  mkScriptCheck (scriptPubKey (coin_out u)) (nValue (coin_out u)) tx (Z.of_nat i) flags precom.
Fixpoint scripts_ok l (tx : CTransaction) (flags : Z) (precom : PrecomputedTransactionData) (i : nat) (ins : list CTxIn) : Prop :=
  match ins with
  | [] => True
  | txin :: ins =>
      (forall u, l_utxo l (prevout txin) = Some u -> run_check (input_check tx flags precom i u) = Ok tt) /\
      scripts_ok l tx flags precom (S i) ins
  end.
Definition all_pass (checks : list CScriptCheck) : Prop := Forall (fun k => run_check k = Ok tt) checks.

(** Run at once or collected, the checks pass exactly when all scripts verify. *)
Lemma script_checks_spec tx flags precom pv ins : forall i checks st c l, models c l -> available l ins ->
  match script_checks tx flags precom pv ins (Z.of_nat i) checks st c with
  | Some (true, checks', st', c') =>
      models c' l /\ st' = st /\ (all_pass checks' <-> all_pass checks /\ scripts_ok l tx flags precom i ins)
  | Some (false, _, _, c') => models c' l /\ ~ scripts_ok l tx flags precom i ins
  | None => ~ scripts_ok l tx flags precom i ins
  end.
Proof.
  induction ins as [|txin ins IH]; intros i checks st c l Hm HF; [cbn; tauto|].
  apply Forall_cons in HF as [[u Hu] HF]. cbn [script_checks].
  destruct (AccessCoin c (prevout txin)) as [r c1] eqn:Ea. destruct (AccessCoin_models _ _ _ _ _ Hm Ea) as (Hm1 & _ & Hr).
  rewrite Hu in Hr. symmetry in Hr. apply live_Some in Hr as [-> Hsp]. rewrite Hsp.
  assert (Hall : scripts_ok l tx flags precom i (txin :: ins) <->
                run_check (input_check tx flags precom i u) = Ok tt /\ scripts_ok l tx flags precom (S i) ins).
  { cbn [scripts_ok]. split; intros [H HS]; (split; [|done]); [by apply H|]. intros u' Hu'. rewrite Hu in Hu'. by injection Hu' as <-. }
  fold (input_check tx flags precom i u). replace (Z.of_nat i + 1) with (Z.of_nat (S i)) by lia. destruct pv.
  - specialize (IH (S i) (checks ++ [input_check tx flags precom i u]) st c1 l Hm1 HF).
    destruct (script_checks _ _ _ _ _ _ _ _ _) as [[[[[] checks'] st'] c']|]; [|tauto..].
    destruct IH as (H1 & H2 & H3). split; [done|]. split; [done|]. rewrite H3, Hall. unfold all_pass.
    rewrite Forall_app, Forall_singleton. tauto.
  - destruct (run_check (input_check tx flags precom i u)) as [[]|e|] eqn:Erun.
    + specialize (IH (S i) checks st c1 l Hm1 HF). pose proof (fun H => proj2 Hall (conj eq_refl H)) as Hall2.
      destruct (script_checks _ _ _ _ _ _ _ _ _) as [[[[[] checks'] st'] c']|]; tauto.
    + assert (Hno : ~ scripts_ok l tx flags precom i (txin :: ins)) by (by intros [H _]%Hall).
      unfold Invalid, DoS. destruct (mode st); cbv beta iota zeta; repeat case_match; simplify_eq; tauto.
    + by intros [H _]%Hall.
Qed.

(** ** The whole check *)

(** [CheckInputs] with its three outcomes. *)
Lemma CheckInputs_spec (blockHeight : list Z -> option Z) tx fScriptChecks pvChecks flags precom st c l n nShielded nValueOut :
  models c l -> no_coin_inputs tx = false -> 0 <= max < 2 ^ 62 ->
  GetShieldedValueIn tx = Some nShielded -> GetValueOut tx = Some nValueOut -> 0 <= nShielded <= max -> 0 <= nValueOut <= max ->
  blockHeight (l_best l) = Some n -> 0 <= n < 2 ^ 31 - 1 ->
  let inputs_ok := tx_inputs_ok l tx (n + 1) nShielded nValueOut in
  let all_scripts := fScriptChecks = true -> scripts_ok l tx flags precom 0 (vin tx) in
  match CheckInputs consensus blockHeight tx fScriptChecks flags precom pvChecks st c with
  | Some (true, checks, st', c') => models c' l /\ st' = st /\ inputs_ok /\ (all_pass checks <-> all_scripts)
  | _ => ~ (inputs_ok /\ all_scripts)
  end.
Proof.
  intros Hm Hn Hmax Es Eo Hs Ho Hb Hrange inputs_ok all_scripts. unfold CheckInputs. rewrite <- negb_orb. fold (no_coin_inputs tx). rewrite Hn. cbn [negb].
  unfold GetSpendHeight. destruct (cache_GetBestBlock c) as [h c1] eqn:Eh. pose proof Hm as [Hok (_ & _ & L3 & _)]. cbn in L3.
  destruct (cache_GetBestBlock_spec _ _ _ Hok Eh) as (Hok1 & Hl1 & _ & _ & Hh). assert (Hm1 : models c1 l) by (by eapply models_read).
  rewrite <- Hh, L3, Hb. cbn [obind fst snd]. rewrite i32_small by lia.
  destruct (CheckTxInputs_spec tx (n + 1) nShielded nValueOut st c1 l Hm1 Hn Hmax Es Eo Hs Ho)
    as (b & st' & c2 & Hr & Hm2 & Hst & Hiff). rewrite Hr. cbn [obind fst snd].
  destruct b; cbn [negb]; [|intros [H _]; by apply Hiff in H].
  specialize (Hst eq_refl). subst st'. assert (Hin : inputs_ok) by (by apply Hiff). destruct fScriptChecks.
  - pose proof (script_checks_spec tx flags precom pvChecks (vin tx) 0 [] st c2 l Hm2 (inputs_there _ _ _ _ _ Hin)) as Hsc.
    change (Z.of_nat 0) with 0 in Hsc. unfold all_scripts.
    destruct (script_checks tx flags precom pvChecks (vin tx) 0 [] st c2) as [[[[[] checks] st'] c']|].
    + destruct Hsc as (H1 & -> & H3). split; [done|]. split; [done|]. split; [done|]. rewrite H3. unfold all_pass.
      rewrite Forall_nil. naive_solver.
    + destruct Hsc as [_ Hsc]. naive_solver.
    + naive_solver.
  - split; [done|]. split; [done|]. split; [done|]. unfold all_scripts, all_pass. rewrite Forall_nil. naive_solver.
Qed.
End Meaning.

(** C18: on a cache that stands for a ledger, [CheckInputs] accepts a transaction with
    ordinary inputs, whose outputs and shielded value are in the money range, exactly when
    every coin it spends is there, ripe and in the money range, the exact sums (no 64-bit
    overflow) stay in range and - unless it is a coinstake, which is exempt - cover what is
    paid out with a fee in range, its shielded spends are fresh, and - when scripts are
    checked - every input script unlocks its coin, whether the checks run at once or are
    collected for the checking threads. *)
Theorem CheckInputs_exact `{STL : SaplingTreeLib} {V : Type} {view : CoinsView V} {abi : Abi} {crypto : ScriptCrypto} {sig : SigCrypto}
    (consensus : Params) (blockHeight : list Z -> option Z) (tx : CTransaction) (fScriptChecks pvChecks : bool) (flags : Z)
    (precom : PrecomputedTransactionData) (st : CValidationState) (c : CCoinsViewCache V) (l : Ledger) (n nShielded nValueOut : Z) :
  models c l -> no_coin_inputs tx = false -> 0 <= nMaxMoneyOut consensus < 2 ^ 62 ->
  GetShieldedValueIn tx = Some nShielded -> GetValueOut tx = Some nValueOut ->
  0 <= nShielded <= nMaxMoneyOut consensus -> 0 <= nValueOut <= nMaxMoneyOut consensus ->
  blockHeight (l_best l) = Some n -> 0 <= n < 2 ^ 31 - 1 ->
  (exists checks c', CheckInputs consensus blockHeight tx fScriptChecks flags precom pvChecks st c = Some (true, checks, st, c') /\
     models c' l /\ all_pass checks) <->
  tx_inputs_ok consensus l tx (n + 1) nShielded nValueOut /\
  (fScriptChecks = true -> scripts_ok l tx flags precom 0 (vin tx)).
Proof.
  intros Hm Hn Hmax Es Eo Hs Ho Hb Hrange.
  pose proof (CheckInputs_spec consensus blockHeight tx fScriptChecks pvChecks flags precom st c l n nShielded nValueOut
                Hm Hn Hmax Es Eo Hs Ho Hb Hrange) as H. cbv zeta in H.
  destruct (CheckInputs _ _ _ _ _ _ _ _ _) as [[[[[] checks] st'] c']|].
  - destruct H as (Hm' & -> & Hin & Hiff). split.
    + intros (checks' & c'' & [= <- <-] & _ & Hp). by split; [|apply Hiff].
    + intros [_ Hsc]. exists checks, c'. split; [done|]. split; [done|]. by apply Hiff.
  - split; [by intros (? & ? & ? & _)|]. intros Hok. by destruct H.
  - split; [by intros (? & ? & ? & _)|]. intros Hok. by destruct H.
Qed.

#[local] Existing Instance ex_trees.
#[local] Existing Instances abi64 toy_crypto toy_sig.
Lemma CheckInputs_exact_witness :
  let c := CCoinsViewCache_new ex_over_db in
  let l := ledger ex_over_db in
  tx_inputs_ok ex_params l ex_spend 12 0 4900 /\
  exists checks c', CheckInputs ex_params (fun _ => Some 11) ex_spend true SCRIPT_VERIFY_P2SH (Precomputed ex_spend) false
    CValidationState_default c = Some (true, checks, CValidationState_default, c') /\ models c' l /\ all_pass checks.
Proof.
  intros c l.
  assert (Hm : models c l) by (apply new_cache_models, ex_over_db_ok).
  assert (Hl : l_utxo l ex_o1 = Some ex_coin1) by (vm_compute; reflexivity).
  assert (Hin : tx_inputs_ok ex_params l ex_spend 12 0 4900).
  { split.
    - repeat constructor. by exists ex_coin1.
    - vm_compute. reflexivity.
    - split; [|vm_compute; discriminate]. repeat constructor; cbn [prevout] in *; rewrite Hl in *; simplify_eq; try (vm_compute; intros; discriminate).
    - intros _. split; vm_compute; discriminate. }
  split; [exact Hin|].
  apply (CheckInputs_exact ex_params (fun _ => Some 11) ex_spend true false SCRIPT_VERIFY_P2SH (Precomputed ex_spend)
           CValidationState_default c l 11 0 4900);
    [exact Hm|reflexivity|split; vm_compute; (reflexivity || discriminate)|reflexivity|reflexivity|
     split; vm_compute; discriminate|split; vm_compute; discriminate|reflexivity|split; vm_compute; (reflexivity || discriminate)|].
  split; [exact Hin|]. intros _. split; [|done]. intros u. cbn [prevout]. rewrite Hl. intros [= <-]. vm_compute. reflexivity.
Defined.
