(* ===== verification/Merkle.v ===== *)
(** The Merkle tree of a block (src/consensus/merkle.cpp). *)
From Stdlib Require Import ZArith Lia List Bool.
From S2P Require Import Prelude Serialize Script Interpreter Transaction.
Import ListNotations.
Local Open Scope Z_scope.
Local Open Scope passion_scope.

Section Merkle.
Context {crypto : ScriptCrypto}.

(** [CHash256().Write(a).Write(b).Finalize()] *)
Definition hash_pair (a b : list Z) : list Z := Hash256 (a ++ b).

(** [count & ((uint32_t)1 << level)] *)
Definition count_bit (count : Z) (level : nat) : bool := negb (Z.land count (u32 (Z.shiftl 1 (Z.of_nat level))) =? 0).

Record MerkleState := mkMerkle {
  inner : list (list Z);
  matchlevel : Z;
  mutated : bool;
  branch : list (list Z)
}.

(** The loops that combine [h] with the stored hashes while the bit of the level is
    clear.  [leaf] is the loop of the leaves, which looks for equal siblings; [pb]
    says that a branch is wanted. *)
Fixpoint combine_levels (leaf pb : bool) (fuel : nat) (count : Z) (level : nat) (h : list Z) (matchh : bool) (s : MerkleState)
    : option (nat * list Z * bool * MerkleState) :=
  if count_bit count level then Some (level, h, matchh, s)
  else
    match fuel with
    | O => None
    | S fuel =>
        let x := nth level (inner s) [] in
        let '(br, matchh) :=
          if pb then
            if matchh then (branch s ++ [x], true)
            else if matchlevel s =? Z.of_nat level then (branch s ++ [h], true)
            else (branch s, false)
          else (branch s, matchh) in
        let mut := if leaf then mutated s || list_eqb x h else mutated s in
        combine_levels leaf pb fuel count (S level) (hash_pair x h) matchh (mkMerkle (inner s) (matchlevel s) mut br)
    end.

Fixpoint merkle_leaves (pb : bool) (branchpos : Z) (leaves : list (list Z)) (count : Z) (s : MerkleState) : option (Z * MerkleState) :=
  match leaves with
  | [] => Some (count, s)
  | h :: leaves =>
      let matchh := count =? branchpos in
      let count := u32 (count + 1) in
      ' (level, h, matchh, s) <- combine_levels true pb 32 count 0 h matchh s;;
      merkle_leaves pb branchpos leaves count
        (mkMerkle (upd (inner s) level h) (if matchh : bool then Z.of_nat level else matchlevel s) (mutated s) (branch s))
  end.

(** The first level with something left. *)
Fixpoint first_level (fuel : nat) (count : Z) (level : nat) : option nat :=
  if count_bit count level then Some level
  else match fuel with O => None | S fuel => first_level fuel count (S level) end.

(** The sweep over the rightmost branch. *)
Fixpoint merkle_sweep (pb : bool) (fuel : nat) (count : Z) (level : nat) (h : list Z) (matchh : bool) (s : MerkleState)
    : option (list Z * MerkleState) :=
  if count =? u32 (Z.shiftl 1 (Z.of_nat level)) then Some (h, s)
  else
    match fuel with
    | O => None
    | S fuel =>
        let s := if pb && matchh then mkMerkle (inner s) (matchlevel s) (mutated s) (branch s ++ [h]) else s in
        let h := hash_pair h h in
        let count := u32 (count + u32 (Z.shiftl 1 (Z.of_nat level))) in
        ' (level, h, matchh, s) <- combine_levels false pb 32 count (S level) h matchh s;;
        merkle_sweep pb fuel count level h matchh s
    end.

(** Root, mutation flag and branch. *)
Definition MerkleComputation (leaves : list (list Z)) (branchpos : Z) (pb : bool) : option (list Z * bool * list (list Z)) :=
  match leaves with
  | [] => Some (repeat 0 32, false, [])
  | _ =>
      ' (count, s) <- merkle_leaves pb branchpos leaves 0 (mkMerkle (repeat (repeat 0 32) 32) (-1) false []);;
      level <- first_level 32 count 0;;
      let h := nth level (inner s) [] in
      ' (h, s') <- merkle_sweep pb 32 count level h (matchlevel s =? Z.of_nat level) s;;
      Some (h, mutated s', branch s')
  end.

Definition ComputeMerkleRoot (leaves : list (list Z)) : option (list Z * bool) :=
  r <- MerkleComputation leaves 0xffffffff false;; Some (fst (fst r), snd (fst r)).
Definition ComputeMerkleBranch (leaves : list (list Z)) (position : Z) : option (list (list Z)) :=
  r <- MerkleComputation leaves position true;; Some (snd r).

Fixpoint ComputeMerkleRootFromBranch (leaf : list Z) (vMerkleBranch : list (list Z)) (nIndex : Z) : list Z :=
  match vMerkleBranch with
  | [] => leaf
  | x :: vMerkleBranch =>
      let hash := if negb (Z.land nIndex 1 =? 0) then hash_pair x leaf else hash_pair leaf x in
      ComputeMerkleRootFromBranch hash vMerkleBranch (Z.shiftr nIndex 1)
  end.

(** [leaves[s] = vtx[s]->GetHash()] *)
Context {abi : Abi}.
Definition BlockMerkleRoot (vtx : list CTransaction) : option (list Z * bool) := ComputeMerkleRoot (map GetHash vtx).
Definition BlockMerkleBranch (vtx : list CTransaction) (position : Z) : option (list (list Z)) :=
  ComputeMerkleBranch (map GetHash vtx) position.
End Merkle.

(** * The tree as a recursive function

    A node of height [h] over at most [2^h] leaves; a node with nothing on its
    right is combined with itself. *)

Section Tree.
Context {crypto : ScriptCrypto}.
Abbreviation hash := (list Z).
Implicit Types (l : list hash).

Fixpoint node (h : nat) l : hash :=
  match h with
  | O => nth 0 l []
  | S h => if (length l <=? 2 ^ h)%nat then hash_pair (node h l) (node h l)
           else hash_pair (node h (firstn (2 ^ h) l)) (node h (skipn (2 ^ h) l))
  end.
(** Two equal complete siblings. *)
Fixpoint twins (h : nat) l : bool :=
  match h with
  | O => false
  | S h => if (length l <=? 2 ^ h)%nat then twins h l
           else twins h (firstn (2 ^ h) l) || twins h (skipn (2 ^ h) l)
                || (length l =? 2 ^ S h)%nat && list_eqb (node h (firstn (2 ^ h) l)) (node h (skipn (2 ^ h) l))
  end.
(** The siblings on the way from leaf [p] to the root. *)
Fixpoint path (h : nat) l (p : nat) : list hash :=
  match h with
  | O => []
  | S h => if (length l <=? 2 ^ h)%nat then path h l p ++ [node h l]
           else if (p <? 2 ^ h)%nat then path h (firstn (2 ^ h) l) p ++ [node h (skipn (2 ^ h) l)]
           else path h (skipn (2 ^ h) l) (p - 2 ^ h) ++ [node h (firstn (2 ^ h) l)]
  end.

Lemma pow2_ge1 h : (1 <= 2 ^ h)%nat.
Proof. pose proof (Nat.pow_nonzero 2 h). lia. Qed.
Lemma pow2_S h : (2 ^ S h = 2 * 2 ^ h)%nat.
Proof. reflexivity. Qed.

Lemma firstn_exact {A} n (a b : list A) : length a = n -> firstn n (a ++ b) = a.
Proof. intros <-. rewrite firstn_app, firstn_all, Nat.sub_diag. apply app_nil_r. Qed.
Lemma skipn_exact {A} n (a b : list A) : length a = n -> skipn n (a ++ b) = b.
Proof. intros <-. rewrite skipn_app, skipn_all, Nat.sub_diag. reflexivity. Qed.

(** A node over a full left half and something on the right. *)
Lemma node_split h a b : length a = (2 ^ h)%nat -> (0 < length b)%nat -> node (S h) (a ++ b) = hash_pair (node h a) (node h b).
Proof.
  intros Ha Hb. cbn [node]. rewrite length_app. destruct (Nat.leb_spec (length a + length b) (2 ^ h)); [lia|].
  now rewrite firstn_exact, skipn_exact.
Qed.
Lemma twins_split h a b : length a = (2 ^ h)%nat -> (0 < length b)%nat ->
  twins (S h) (a ++ b) = twins h a || twins h b || (length b =? 2 ^ h)%nat && list_eqb (node h a) (node h b).
Proof.
  intros Ha Hb. cbn [twins]. rewrite length_app. destruct (Nat.leb_spec (length a + length b) (2 ^ h)); [lia|].
  rewrite firstn_exact, skipn_exact by assumption. f_equal. f_equal. rewrite pow2_S. destruct (Nat.eqb_spec (length b) (2 ^ h)).
  - apply Nat.eqb_eq. lia.
  - apply Nat.eqb_neq. lia.
Qed.
Lemma path_left h a b p : length a = (2 ^ h)%nat -> (0 < length b)%nat -> (p < 2 ^ h)%nat ->
  path (S h) (a ++ b) p = path h a p ++ [node h b].
Proof.
  intros Ha Hb Hp. cbn [path]. rewrite length_app. destruct (Nat.leb_spec (length a + length b) (2 ^ h)); [lia|].
  destruct (Nat.ltb_spec p (2 ^ h)); [|lia].
  now rewrite firstn_exact, skipn_exact.
Qed.
Lemma path_right h a b p : length a = (2 ^ h)%nat -> (0 < length b)%nat ->
  path (S h) (a ++ b) (2 ^ h + p) = path h b p ++ [node h a].
Proof.
  intros Ha Hb. cbn [path]. rewrite length_app. destruct (Nat.leb_spec (length a + length b) (2 ^ h)); [lia|].
  destruct (Nat.ltb_spec (2 ^ h + p) (2 ^ h)); [lia|]. replace (2 ^ h + p - 2 ^ h)%nat with p by lia.
  now rewrite firstn_exact, skipn_exact.
Qed.
Lemma node_up h l : (length l <= 2 ^ h)%nat -> node (S h) l = hash_pair (node h l) (node h l).
Proof. intros. cbn. destruct (Nat.leb_spec (length l) (2 ^ h)); [reflexivity|lia]. Qed.
Lemma twins_up h l : (length l <= 2 ^ h)%nat -> twins (S h) l = twins h l.
Proof. intros. cbn. destruct (Nat.leb_spec (length l) (2 ^ h)); [reflexivity|lia]. Qed.
Lemma path_up h l p : (length l <= 2 ^ h)%nat -> path (S h) l p = path h l p ++ [node h l].
Proof. intros. cbn. destruct (Nat.leb_spec (length l) (2 ^ h)); [reflexivity|lia]. Qed.

(** ** Paths lead to the root *)

Lemma from_branch_app br : forall br' leaf i,
  ComputeMerkleRootFromBranch leaf (br ++ br') i =
  ComputeMerkleRootFromBranch (ComputeMerkleRootFromBranch leaf br i) br' (Z.shiftr i (Z.of_nat (length br))).
Proof.
  induction br as [|x br IH]; intros br' leaf i; cbn [app ComputeMerkleRootFromBranch length].
  - now rewrite Z.shiftr_0_r.
  - rewrite IH. f_equal. rewrite Z.shiftr_shiftr by lia. f_equal. lia.
Qed.
Lemma length_path h : forall l p, length (path h l p) = h.
Proof. induction h as [|h IH]; intros l p; cbn; [reflexivity|]. repeat case_match_goal; rewrite length_app, IH; cbn; lia. Qed.

Lemma split_bit P p b m : 0 < P -> p = m + P * b -> 0 <= m < P -> 0 <= b < 2 ->
  (p < P -> m = p /\ b = 0) /\ (P <= p -> m = p - P /\ b = 1).
Proof. intros HP Hp Hm Hb. assert (Hb' : b = 0 \/ b = 1) by lia. destruct Hb' as [-> | ->]; lia. Qed.

Lemma path_root h : forall l p i, (0 < length l <= 2 ^ h)%nat -> (p < length l)%nat ->
  i mod 2 ^ Z.of_nat h = Z.of_nat p ->
  ComputeMerkleRootFromBranch (nth p l []) (path h l p) i = node h l.
Proof.
  induction h as [|h IH]; intros l p i Hl Hp Hi.
  - cbn in *. replace p with 0%nat by lia. reflexivity.
  - pose proof (pow2_ge1 h) as Hpos. rewrite pow2_S in Hl.
    assert (HP : Z.of_nat (2 ^ h) = 2 ^ Z.of_nat h) by (rewrite Nat2Z.inj_pow; reflexivity).
    replace (Z.of_nat (S h)) with (Z.of_nat h + 1) in Hi by lia. rewrite Z.pow_add_r in Hi by lia. change (2 ^ 1) with 2 in Hi.
    assert (Hbit : Z.land (Z.shiftr i (Z.of_nat h)) 1 = (i / 2 ^ Z.of_nat h) mod 2).
    { rewrite Z.shiftr_div_pow2 by lia. change 1 with (Z.ones 1) at 1. now rewrite Z.land_ones by lia. }
    assert (Hsplit : i mod (2 ^ Z.of_nat h * 2) = i mod 2 ^ Z.of_nat h + 2 ^ Z.of_nat h * ((i / 2 ^ Z.of_nat h) mod 2))
      by (apply Z.rem_mul_r; lia).
    pose proof (Z.mod_pos_bound i (2 ^ Z.of_nat h) ltac:(lia)) as Hb.
    pose proof (Z.mod_pos_bound (i / 2 ^ Z.of_nat h) 2 ltac:(lia)) as Hb2.
    rewrite Hi in Hsplit. clear Hi.
    destruct (split_bit (2 ^ Z.of_nat h) (Z.of_nat p) _ _ ltac:(lia) Hsplit Hb Hb2) as [Hlow Hhigh].
    cbn [path node]. destruct (Nat.leb_spec (length l) (2 ^ h)) as [Hle|Hgt].
    + rewrite from_branch_app, length_path. cbn [ComputeMerkleRootFromBranch]. rewrite IH by (try lia; apply Hlow; lia).
      now destruct (negb _).
    + destruct (Nat.ltb_spec p (2 ^ h)) as [Hlt|Hge].
      * rewrite from_branch_app, length_path. cbn [ComputeMerkleRootFromBranch].
        replace (nth p l []) with (nth p (firstn (2 ^ h) l) []) by (rewrite nth_firstn; destruct (Nat.ltb_spec p (2 ^ h)); [reflexivity|lia]).
        rewrite IH; [|rewrite length_firstn; lia|rewrite length_firstn; lia|apply Hlow; lia].
        rewrite Hbit. now rewrite (proj2 (Hlow ltac:(lia))).
      * rewrite from_branch_app, length_path. cbn [ComputeMerkleRootFromBranch].
        replace (nth p l []) with (nth (p - 2 ^ h) (skipn (2 ^ h) l) []) by (rewrite nth_skipn; f_equal; lia).
        rewrite IH; [|rewrite length_skipn; lia|rewrite length_skipn; lia|rewrite (proj1 (Hhigh ltac:(lia))); lia].
        rewrite Hbit. now rewrite (proj2 (Hhigh ltac:(lia))).
Qed.

(** ** Equal roots, equal leaves *)

Definition merkle_collision : Prop := exists m m', m <> m' /\ Hash256 m = Hash256 m'.
Definition hashes l : Prop := Forall (fun x => length x = 32%nat) l.

Lemma node_length h : forall l, (0 < length l)%nat -> hashes l -> length (node h l) = 32%nat.
Proof.
  destruct h as [|h]; intros l Hl HF.
  - destruct l; [cbn in Hl; lia|]. cbn. now inversion HF.
  - cbn. destruct (length l <=? 2 ^ h)%nat; apply SHA256_digest.
Qed.
Lemma hash_pair_inj a b c d : length a = 32%nat -> length c = 32%nat -> hash_pair a b = hash_pair c d ->
  (a = c /\ b = d) \/ merkle_collision.
Proof.
  intros Ha Hc E. destruct (list_eqb (a ++ b) (c ++ d)) eqn:Eq.
  - apply list_eqb_eq in Eq. left. pose proof (f_equal (firstn 32) Eq) as E1. pose proof (f_equal (skipn 32) Eq) as E2.
    now rewrite !firstn_exact in E1 by assumption; rewrite !skipn_exact in E2 by assumption.
  - right. exists (a ++ b), (c ++ d). split; [|assumption]. intros X. apply list_eqb_eq in X. congruence.
Qed.

Lemma node_inj h : forall l l', (0 < length l <= 2 ^ h)%nat -> (0 < length l' <= 2 ^ h)%nat -> hashes l -> hashes l' ->
  node h l = node h l' -> l = l' \/ twins h l = true \/ twins h l' = true \/ merkle_collision.
Proof.
  induction h as [|h IH]; intros l l' Hl Hl' HF HF' E.
  { left. destruct l as [|x [|? ?]], l' as [|x' [|? ?]]; cbn in *; try lia. congruence. }
  rewrite pow2_S in Hl, Hl'. pose proof (pow2_ge1 h) as Hpos.
  assert (Hhalf : forall k m, hashes m -> hashes (firstn k m) /\ hashes (skipn k m)).
  { intros k m Hm. rewrite <- (firstn_skipn k m) in Hm. now apply Forall_app in Hm. }
  destruct (Hhalf (2 ^ h)%nat l HF) as [F1 F2], (Hhalf (2 ^ h)%nat l' HF') as [F1' F2'].
  assert (Hf : forall m : list hash, (2 ^ h < length m <= 2 * 2 ^ h)%nat -> (0 < length (firstn (2 ^ h) m) <= 2 ^ h)%nat)
    by (intros m Hm; rewrite length_firstn; lia).
  assert (Hs : forall m : list hash, (2 ^ h < length m <= 2 * 2 ^ h)%nat -> (0 < length (skipn (2 ^ h) m) <= 2 ^ h)%nat)
    by (intros m Hm; rewrite length_skipn; lia).
  cbn [node twins] in *.
  destruct (Nat.leb_spec (length l) (2 ^ h)) as [Hle|Hgt], (Nat.leb_spec (length l') (2 ^ h)) as [Hle'|Hgt'].
  - apply hash_pair_inj in E; [|apply node_length; [lia|assumption]..]. destruct E as [[E _]|?]; [|auto].
    apply IH; auto; lia.
  - apply hash_pair_inj in E; [|apply node_length; [rewrite ?length_firstn; lia|assumption]..]. destruct E as [[E1 E2]|?]; [|auto].
    right. right. assert (E : node h (firstn (2 ^ h) l') = node h (skipn (2 ^ h) l')) by congruence.
    destruct (IH _ _ (Hf l' ltac:(lia)) (Hs l' ltac:(lia)) F1' F2' E) as [X|[->|[->|X]]];
      [left|left; reflexivity|left; now rewrite orb_true_r|now right].
    rewrite E, (proj2 (list_eqb_eq _ _) eq_refl), andb_true_r. apply orb_true_iff. right. apply Nat.eqb_eq.
    apply (f_equal (@length _)) in X. rewrite length_firstn, length_skipn in X. rewrite pow2_S. lia.
  - apply hash_pair_inj in E; [|apply node_length; [rewrite ?length_firstn; lia|assumption]..]. destruct E as [[E1 E2]|?]; [|auto].
    right. assert (E : node h (firstn (2 ^ h) l) = node h (skipn (2 ^ h) l)) by congruence.
    destruct (IH _ _ (Hf l ltac:(lia)) (Hs l ltac:(lia)) F1 F2 E) as [X|[->|[->|X]]];
      [left|left; reflexivity|left; now rewrite orb_true_r|now right; right].
    rewrite E, (proj2 (list_eqb_eq _ _) eq_refl), andb_true_r. apply orb_true_iff. right. apply Nat.eqb_eq.
    apply (f_equal (@length _)) in X. rewrite length_firstn, length_skipn in X. rewrite pow2_S. lia.
  - apply hash_pair_inj in E; [|apply node_length; [rewrite ?length_firstn; lia|assumption]..]. destruct E as [[E1 E2]|?]; [|auto].
    destruct (IH _ _ (Hf l ltac:(lia)) (Hf l' ltac:(lia)) F1 F1' E1) as [X1|[->|[->|X]]]; auto;
    destruct (IH _ _ (Hs l ltac:(lia)) (Hs l' ltac:(lia)) F2 F2' E2) as [X2|[->|[->|X]]]; auto;
      rewrite ?orb_true_r; auto. left. rewrite <- (firstn_skipn (2 ^ h) l), <- (firstn_skipn (2 ^ h) l'). congruence.
Qed.
End Tree.

(** * Counters and their bits *)

Section Bits.
Local Open Scope nat_scope.

Lemma Z_odd_of_nat k : Z.odd (Z.of_nat k) = Nat.odd k.
Proof.
  destruct (Nat.odd k) eqn:E.
  - apply Nat.odd_spec in E as [r ->]. apply Z.odd_spec. exists (Z.of_nat r). lia.
  - rewrite <- Nat.negb_even in E. apply negb_false_iff, Nat.even_spec in E as [r ->].
    rewrite <- Z.negb_even. apply negb_false_iff, Z.even_spec. exists (Z.of_nat r). lia.
Qed.
Lemma count_bit_odd k v : (Z.of_nat k < 2 ^ 32)%Z -> v < 32 -> count_bit (Z.of_nat k) v = Nat.odd (k / 2 ^ v).
Proof.
  intros Hk Hv. unfold count_bit. rewrite Z.shiftl_1_l.
  assert (Hp : (0 <= 2 ^ Z.of_nat v < 2 ^ 32)%Z) by (split; [apply Z.pow_nonneg; lia|apply Z.pow_lt_mono_r; lia]).
  rewrite u32_small by exact Hp.
  transitivity (Z.testbit (Z.of_nat k) (Z.of_nat v)).
  - destruct (Z.testbit (Z.of_nat k) (Z.of_nat v)) eqn:E.
    + apply negb_true_iff, Z.eqb_neq. intros H. apply (f_equal (fun x => Z.testbit x (Z.of_nat v))) in H.
      rewrite Z.land_spec, E, Z.pow2_bits_true, Z.bits_0 in H by lia. discriminate.
    + apply negb_false_iff, Z.eqb_eq, Z.bits_inj'. intros i Hi. rewrite Z.land_spec, Z.bits_0.
      destruct (Z.eq_dec i (Z.of_nat v)) as [->|Hne]; [now rewrite E|].
      rewrite Z.pow2_bits_false by lia. apply andb_false_r.
  - rewrite Z.testbit_odd, Z.shiftr_div_pow2 by lia.
    replace (2 ^ Z.of_nat v)%Z with (Z.of_nat (2 ^ v)) by (now rewrite Nat2Z.inj_pow).
    rewrite <- Nat2Z.inj_div. apply Z_odd_of_nat.
Qed.

Lemma level_small m v k : k = m * 2 ^ v -> 0 < m -> (Z.of_nat k < 2 ^ 32)%Z -> v < 32.
Proof.
  intros -> Hm Hk. rewrite Nat2Z.inj_mul, Nat2Z.inj_pow in Hk. change (Z.of_nat 2) with 2%Z in Hk.
  apply Nat2Z.inj_lt, (Z.pow_lt_mono_r_iff 2); [lia|lia|]. change (Z.of_nat 32) with 32%Z. pose proof (Z.pow_nonneg 2 (Z.of_nat v)). nia.
Qed.

Lemma div_pow_S a v : a / 2 ^ S v = a / 2 ^ v / 2.
Proof. rewrite Nat.pow_succ_r', (Nat.mul_comm 2). symmetry. apply Nat.Div0.div_div. Qed.
Lemma div_pow_add a v d : a / 2 ^ (v + d) = a / 2 ^ v / 2 ^ d.
Proof. rewrite Nat.pow_add_r. symmetry. apply Nat.Div0.div_div. Qed.

(** The start of the block of [2^b] leaves that bit [b] of [n] stands for. *)
Definition off (n b : nat) : nat := n / 2 ^ S b * 2 ^ S b.

Lemma off_bit n b : Nat.odd (n / 2 ^ b) = true -> off n b + 2 ^ b <= n.
Proof.
  intros Ho. unfold off. rewrite div_pow_S. set (q := n / 2 ^ b) in *.
  pose proof (Nat.Div0.mul_div_le n (2 ^ b)) as Hq. fold q in Hq. rewrite Nat.pow_succ_r'.
  apply Nat.odd_spec in Ho as [r Hr]. replace (q / 2) with r by (rewrite Hr; replace (2 * r + 1) with (1 + r * 2) by lia; now rewrite Nat.div_add by lia).
  rewrite Hr in Hq. nia.
Qed.

(** A block that starts no later than the [m]-th block of [2^w] ends before it. *)
Lemma block_before n b w m : Nat.odd (n / 2 ^ b) = true -> w <= b -> n < m * 2 ^ w -> off n b + 2 ^ b <= (m - 1) * 2 ^ w.
Proof.
  intros Ho Hw Hn. pose proof (off_bit n b Ho) as Hob. pose proof (pow2_ge1 w).
  assert (E : exists t, off n b + 2 ^ b = t * 2 ^ w).
  { exists ((n / 2 ^ S b * 2 + 1) * 2 ^ (b - w)). unfold off. rewrite pow2_S. replace (2 ^ b) with (2 ^ (b - w) * 2 ^ w)
      by (rewrite <- Nat.pow_add_r; f_equal; lia). nia. }
  destruct E as [t Et]. rewrite Et in *. assert (t < m) by nia. nia.
Qed.

(** Numbers around a multiple [m * 2^v] of a power of two. *)
Section Multiple.
Variables (n m v : nat).
Hypothesis Hn : n + 1 = m * 2 ^ v.
Hypothesis Hm : 0 < m.

Lemma succ_div : (n + 1) / 2 ^ v = m.
Proof. rewrite Hn. apply Nat.div_mul. pose proof (pow2_ge1 v). lia. Qed.
Lemma pred_div : n / 2 ^ v = m - 1.
Proof.
  pose proof (pow2_ge1 v). replace n with ((2 ^ v - 1) + (m - 1) * 2 ^ v) by nia.
  rewrite Nat.div_add by lia. rewrite Nat.div_small by lia. lia.
Qed.
Lemma even_off m' : m = 2 * m' -> Nat.odd (n / 2 ^ v) = true /\ off n v = n + 1 - 2 ^ S v /\ 2 ^ S v <= n + 1.
Proof.
  intros E. pose proof (pow2_ge1 v). assert (Hm' : 1 <= m') by lia. unfold off. rewrite div_pow_S, pred_div. replace (m - 1) with (1 + (m' - 1) * 2) by lia.
  split; [|split].
  - rewrite (Nat.mul_comm _ 2). now rewrite Nat.odd_add_mul_2.
  - rewrite Nat.div_add by lia. cbn [Nat.div Nat.divmod fst]. rewrite Nat.pow_succ_r', Hn, E. nia.
  - rewrite Nat.pow_succ_r', Hn, E. nia.
Qed.
Lemma odd_off : Nat.odd m = true -> off (n + 1) v = n + 1 - 2 ^ v.
Proof.
  intros Ho. apply Nat.odd_spec in Ho as [r Hr]. unfold off. rewrite div_pow_S, succ_div, Hr.
  replace (2 * r + 1) with (1 + r * 2) by lia. rewrite Nat.div_add by lia. cbn [Nat.div Nat.divmod fst].
  rewrite Nat.pow_succ_r', Hn. nia.
Qed.
Lemma high_bits b : Nat.odd m = true -> v < b -> (n + 1) / 2 ^ b = n / 2 ^ b.
Proof.
  intros Ho Hb. replace b with (S v + (b - S v)) by lia. rewrite !div_pow_add. f_equal.
  rewrite !div_pow_S, succ_div, pred_div. apply Nat.odd_spec in Ho as [r Hr]. rewrite Hr.
  replace (2 * r + 1 - 1) with (0 + r * 2) by lia. replace (2 * r + 1) with (1 + r * 2) by lia. now rewrite !Nat.div_add by lia.
Qed.
Lemma low_bits b : b < v -> Nat.odd ((n + 1) / 2 ^ b) = false.
Proof.
  intros Hb. rewrite Hn. replace v with (S (v - S b) + b) by lia. rewrite Nat.pow_add_r, Nat.mul_assoc, Nat.div_mul
    by (pose proof (pow2_ge1 b); lia). rewrite Nat.pow_succ_r'.
  replace (m * (2 * 2 ^ (v - S b))) with (2 * (m * 2 ^ (v - S b))) by lia. rewrite Nat.odd_mul. reflexivity.
Qed.
End Multiple.
End Bits.

(** * The constant-space computation follows the tree *)

Section Correct.
Context {crypto : ScriptCrypto}.
Variables (L : list (list Z)) (pb : bool) (p : nat).
Hypothesis HL : Z.of_nat (length L) < 2 ^ 31.

Definition seg (o k : nat) : list (list Z) := firstn k (skipn o L).
Definition chunk (n b : nat) : list (list Z) := seg (off n b) (2 ^ b).

Lemma length_seg o k : (o + k <= length L)%nat -> length (seg o k) = k.
Proof. intros. unfold seg. rewrite length_firstn, length_skipn. lia. Qed.
Lemma seg_app o k j : (seg o k ++ seg (o + k) j = seg o (k + j))%nat.
Proof.
  unfold seg. rewrite <- (firstn_skipn k (firstn (k + j) (skipn o L))). f_equal.
  - rewrite firstn_firstn. f_equal. lia.
  - rewrite skipn_firstn_comm, skipn_skipn. f_equal; [lia|f_equal; lia].
Qed.

(** Twins under the stored nodes from level [v] up. *)
Definition twins_from (n v : nat) : Prop :=
  exists b, (v <= b < 32)%nat /\ Nat.odd (n / 2 ^ b) = true /\ twins b (chunk n b) = true.
Definition inner_ok (n : nat) (s : MerkleState) : Prop :=
  length (inner s) = 32%nat /\
  forall b, (b < 32)%nat -> Nat.odd (n / 2 ^ b) = true -> nth b (inner s) [] = node b (chunk n b).
(** The stored node of level [b] covers the wanted leaf. *)
Definition stored_at (n b : nat) (s : MerkleState) : Prop :=
  (b < 32)%nat /\ Nat.odd (n / 2 ^ b) = true /\ (off n b <= p < off n b + 2 ^ b)%nat /\
  matchlevel s = Z.of_nat b /\ branch s = path b (chunk n b) (p - off n b).
Definition branch_ok (n : nat) (s : MerkleState) : Prop :=
  ((n <= p)%nat /\ matchlevel s = -1 /\ branch s = []) \/ exists b, stored_at n b s.

(** While a leaf is being combined: the node of level [v] that ends with leaf [n]. *)
Definition at_level (n v : nat) (h : list Z) (matchh : bool) (s : MerkleState) : Prop :=
  let o := (n + 1 - 2 ^ v)%nat in
  inner_ok n s /\ h = node v (seg o (2 ^ v)) /\
  (mutated s = true <-> twins_from n v \/ twins v (seg o (2 ^ v)) = true) /\
  (pb = true ->
    ((n < p)%nat /\ matchh = false /\ matchlevel s = -1 /\ branch s = []) \/
    ((o <= p <= n)%nat /\ matchh = true /\ branch s = path v (seg o (2 ^ v)) (p - o)) \/
    ((p < o)%nat /\ matchh = false /\ exists b, (v <= b)%nat /\ stored_at n b s)).

Lemma twins_from_S n v : Nat.odd (n / 2 ^ v) = true -> (v < 32)%nat ->
  (twins_from n v <-> twins v (chunk n v) = true \/ twins_from n (S v)).
Proof.
  intros Ho Hv. split.
  - intros (b & Hb & H1 & H2). destruct (Nat.eq_dec b v) as [->|]; [now left|]. right. exists b. repeat split; auto; lia.
  - intros [H|(b & Hb & H)]; [exists v|exists b]; (split; [lia|auto]).
Qed.

(** One round of the inner loop. *)
Lemma combine_step n m v h matchh s : (n < length L)%nat -> (n + 1 = 2 * m * 2 ^ v)%nat -> (0 < m)%nat -> (v < 32)%nat ->
  at_level n v h matchh s ->
  let x := nth v (inner s) [] in
  let '(br, matchh') := if pb then if matchh then (branch s ++ [x], true)
                        else if matchlevel s =? Z.of_nat v then (branch s ++ [h], true) else (branch s, false)
                        else (branch s, matchh) in
  at_level n (S v) (hash_pair x h) matchh' (mkMerkle (inner s) (matchlevel s) (mutated s || list_eqb x h) br).
Proof.
  intros Hn Hm Hm0 Hv (Hi & Hh & Hmut & Hbr) x.
  destruct (even_off n (2 * m) v Hm ltac:(lia) m eq_refl) as (Ho & Hoff & Hle).
  pose proof (pow2_ge1 v) as Hp. rewrite pow2_S in Hoff, Hle.
  set (o' := (n + 1 - 2 * 2 ^ v)%nat) in *. set (o := (n + 1 - 2 ^ v)%nat) in *.
  assert (Eo : o = (o' + 2 ^ v)%nat) by lia.
  assert (Hx : x = node v (seg o' (2 ^ v))) by (unfold x; rewrite (proj2 Hi v Hv Ho); unfold chunk; now rewrite Hoff).
  assert (Hla : length (seg o' (2 ^ v)) = (2 ^ v)%nat) by (apply length_seg; lia).
  assert (Hlb : length (seg o (2 ^ v)) = (2 ^ v)%nat) by (apply length_seg; lia).
  assert (Happ : seg o' (2 ^ S v) = seg o' (2 ^ v) ++ seg o (2 ^ v)) by (rewrite Eo, seg_app, pow2_S; f_equal; lia).
  assert (Eo' : (n + 1 - 2 ^ S v)%nat = o') by (rewrite pow2_S; reflexivity).
  assert (Hres : hash_pair x h = node (S v) (seg o' (2 ^ S v))) by (rewrite Happ, node_split, Hx, Hh by lia; reflexivity).
  assert (Hmut' : mutated s || list_eqb x h = true <-> twins_from n (S v) \/ twins (S v) (seg o' (2 ^ S v)) = true).
  { rewrite Happ, twins_split by lia. rewrite !orb_true_iff, Hmut, twins_from_S by assumption. unfold chunk. rewrite Hoff.
    rewrite Hlb, Nat.eqb_refl. cbn [andb]. rewrite <- Hx, <- Hh. tauto. }
  destruct pb eqn:Epb.
  2:{ unfold at_level. rewrite Eo'. split; [exact Hi|]. split; [exact Hres|]. split; [exact Hmut'|congruence]. }
  specialize (Hbr eq_refl). destruct matchh.
  { unfold at_level. rewrite Eo'. split; [exact Hi|]. split; [exact Hres|]. split; [exact Hmut'|]. intros _. right. left.
    destruct Hbr as [(_ & ? & _)|[(Hr & _ & Hb)|(_ & ? & _)]]; [discriminate| |discriminate]. split; [lia|]. split; [reflexivity|].
    cbn [branch]. rewrite Hb, Happ. replace (p - o')%nat with (2 ^ v + (p - o))%nat by lia. rewrite path_right by lia. now rewrite Hx. }
  destruct (matchlevel s =? Z.of_nat v) eqn:Eml.
  - unfold at_level. rewrite Eo'. split; [exact Hi|]. split; [exact Hres|]. split; [exact Hmut'|]. intros _. right. left.
    apply Z.eqb_eq in Eml. destruct Hbr as [(_ & _ & ? & _)|[(_ & ? & _)|(Hr & _ & b & Hvb & Hb1 & Hb2 & Hb3 & Hb4 & Hb5)]]; [lia|discriminate|].
    assert (b = v) by lia. subst b. rewrite Hoff in *. split; [lia|]. split; [reflexivity|].
    cbn [branch]. rewrite Hb5, Happ. unfold chunk. rewrite Hoff. rewrite path_left by lia. now rewrite Hh.
  - unfold at_level. rewrite Eo'. split; [exact Hi|]. split; [exact Hres|]. split; [exact Hmut'|]. intros _.
    apply Z.eqb_neq in Eml. destruct Hbr as [(? & _ & ? & ?)|[(_ & ? & _)|(Hr & _ & b & Hvb & Hb1 & Hb2 & Hb3 & Hb4 & Hb5)]].
    + left. auto.
    + discriminate.
    + right. right. assert (Hbv : (S v <= b)%nat) by (destruct (Nat.eq_dec b v); [subst; lia|lia]).
      pose proof (block_before n b (S v) m Hb2 Hbv ltac:(rewrite pow2_S; lia)) as Hend.
      assert (Hend' : ((m - 1) * 2 ^ S v = o')%nat) by (unfold o'; rewrite pow2_S; nia). rewrite Hend' in Hend.
      split; [lia|]. split; [reflexivity|]. exists b. split; [exact Hbv|]. unfold stored_at. cbn [matchlevel branch]. auto.
Qed.

(** The loop of one leaf ends at the lowest bit set in the new count. *)
Lemma combine_leaf fuel : forall n m v h matchh s, (n < length L)%nat -> (n + 1 = m * 2 ^ v)%nat -> (0 < m)%nat -> (32 <= fuel + v)%nat ->
  at_level n v h matchh s ->
  exists v' m' h' matchh' s',
    combine_levels true pb fuel (Z.of_nat (n + 1)) v h matchh s = Some (v', h', matchh', s') /\
    (n + 1 = m' * 2 ^ v')%nat /\ Nat.odd m' = true /\ (v' < 32)%nat /\ at_level n v' h' matchh' s'.
Proof.
  induction fuel as [|fuel IH]; intros n m v h matchh s Hn Hm Hm0 Hf Hat.
  all: assert (Hv : (v < 32)%nat) by (apply (level_small m v (n + 1)); lia).
  { lia. }
  cbn [combine_levels]. rewrite count_bit_odd by lia.
  rewrite (succ_div n m v Hm Hm0).
  destruct (Nat.odd m) eqn:Ho.
  { exists v, m, h, matchh, s. repeat split; auto; try apply Hat; lia. }
  rewrite <- Nat.negb_even in Ho. apply negb_false_iff, Nat.even_spec in Ho as [r Hr].
  pose proof (combine_step n r v h matchh s Hn ltac:(lia) ltac:(lia) ltac:(lia) Hat) as Hst. cbv zeta in Hst.
  destruct (if pb then _ else _) as [br matchh'].
  apply (IH n r (S v)); auto; try lia. rewrite pow2_S. lia.
Qed.


(** Between two leaves. *)
Definition good (n : nat) (s : MerkleState) : Prop :=
  inner_ok n s /\ (mutated s = true <-> twins_from n 0) /\ (pb = true -> branch_ok n s).

Lemma off_high n m v b : (n + 1 = m * 2 ^ v)%nat -> (0 < m)%nat -> Nat.odd m = true -> (v < b)%nat -> off (n + 1) b = off n b.
Proof. intros H1 H2 H3 H4. unfold off. now rewrite (high_bits n m v H1 H2 (S b) H3) by lia. Qed.
Lemma stored_high n m v b s s' : (n + 1 = m * 2 ^ v)%nat -> (0 < m)%nat -> Nat.odd m = true -> (v < b)%nat ->
  matchlevel s' = matchlevel s -> branch s' = branch s -> stored_at n b s -> stored_at (n + 1) b s'.
Proof.
  intros H1 H2 H3 H4 E1 E2 (S1 & S2 & S3 & S4 & S5). unfold stored_at, chunk. rewrite (off_high n m v b) by assumption.
  rewrite (high_bits n m v H1 H2 b H3 H4), E1, E2. auto.
Qed.
Lemma even_pred m : Nat.odd m = true -> Nat.odd (m - 1) = false.
Proof. intros Ho. apply Nat.odd_spec in Ho as [r ->]. replace (2 * r + 1 - 1)%nat with (2 * r)%nat by lia. now rewrite Nat.odd_mul. Qed.

Lemma store_good n m v h matchh s : (n < length L)%nat -> (n + 1 = m * 2 ^ v)%nat -> Nat.odd m = true -> (v < 32)%nat ->
  at_level n v h matchh s ->
  good (n + 1) (mkMerkle (upd (inner s) v h) (if matchh then Z.of_nat v else matchlevel s) (mutated s) (branch s)).
Proof.
  intros Hn Hm Ho Hv (Hi & Hh & Hmut & Hbr).
  assert (Hm0 : (0 < m)%nat) by (destruct m; [discriminate|lia]).
  pose proof (odd_off n m v Hm Hm0 Ho) as Hoff. pose proof (pow2_ge1 v) as Hp.
  assert (Hbit : Nat.odd ((n + 1) / 2 ^ v) = true) by (now rewrite (succ_div n m v Hm Hm0)).
  assert (Hlow : forall b, Nat.odd ((n + 1) / 2 ^ b) = true -> (v <= b)%nat).
  { intros b Hb. destruct (Nat.lt_ge_cases b v) as [Hlt|]; [|assumption]. rewrite (low_bits n m v Hm Hm0 b Hlt) in Hb. discriminate. }
  assert (Hclear : Nat.odd (n / 2 ^ v) = false) by (rewrite (pred_div n m v Hm Hm0); now apply even_pred).
  assert (Hhigh : forall b, (v <= b)%nat -> Nat.odd (n / 2 ^ b) = true -> (v < b)%nat).
  { intros b Hb Hb'. destruct (Nat.eq_dec v b) as [<-|]; [congruence|lia]. }
  split; [|split].
  - split; cbn [inner]; [rewrite length_upd; apply Hi|]. intros b Hb Hb'. rewrite nth_upd by (rewrite (proj1 Hi); exact Hv).
    pose proof (Hlow b Hb') as Hvb. destruct (Nat.eqb_spec v b) as [<-|Hne]; [unfold chunk; now rewrite Hoff|].
    unfold chunk. rewrite (off_high n m v b) by (assumption || lia). rewrite (high_bits n m v Hm Hm0 b Ho) in Hb' by lia. now apply Hi.
  - cbn [mutated]. rewrite Hmut. split.
    + intros [(b & Hb & Hb1 & Hb2)|H].
      * exists b. pose proof (Hhigh b (proj1 Hb) Hb1). unfold chunk. rewrite (off_high n m v b), (high_bits n m v Hm Hm0 b Ho) by assumption.
        split; [lia|auto].
      * exists v. unfold chunk. rewrite Hoff. split; [lia|auto].
    + intros (b & Hb & Hb1 & Hb2). pose proof (Hlow b Hb1) as Hvb. destruct (Nat.eq_dec v b) as [<-|Hne].
      * right. unfold chunk in Hb2. now rewrite Hoff in Hb2.
      * left. exists b. unfold chunk in *. rewrite (off_high n m v b) in Hb2 by (assumption || lia).
        rewrite (high_bits n m v Hm Hm0 b Ho) in Hb1 by lia. split; [lia|auto].
  - intros Hpb. destruct (Hbr Hpb) as [(H1 & -> & H2 & H3)|[(H1 & -> & H2)|(H1 & -> & b & Hb & Hst)]].
    + left. cbn. repeat split; auto; lia.
    + right. exists v. unfold stored_at, chunk. rewrite Hoff. cbn [matchlevel branch]. repeat split; auto; lia.
    + right. exists b. apply (stored_high n m v b s); auto. apply Hhigh; [assumption|apply Hst].
Qed.

Lemma seg_1 n x rest : skipn n L = x :: rest -> seg n 1 = [x].
Proof. intros H. unfold seg. now rewrite H. Qed.
Lemma skipn_cons_lt n x rest : skipn n L = x :: rest -> (n < length L)%nat /\ skipn (n + 1) L = rest.
Proof.
  intros H. split.
  - destruct (Nat.lt_ge_cases n (length L)); [assumption|]. now rewrite skipn_all2 in H by assumption.
  - replace (n + 1)%nat with (1 + n)%nat by lia. rewrite <- skipn_skipn, H. reflexivity.
Qed.

(** A leaf is a node of height 0. *)
Lemma leaf_at_level n h rest s : skipn n L = h :: rest -> good n s ->
  at_level n 0 h (Z.of_nat n =? Z.of_nat p) s.
Proof.
  intros Hr (Hi & Hm & Hb). unfold at_level. replace (n + 1 - 2 ^ 0)%nat with n by (cbn; lia).
  change (2 ^ 0)%nat with 1%nat. rewrite (seg_1 n h rest Hr). split; [exact Hi|]. split; [reflexivity|].
  split; [rewrite Hm; cbn; intuition discriminate|]. intros Hpb.
  destruct (Hb Hpb) as [(H1 & H2 & H3)|(b & Hst)].
  - destruct (Z.eqb_spec (Z.of_nat n) (Z.of_nat p)) as [E|E].
    + right. left. split; [lia|]. split; [reflexivity|exact H3].
    + left. repeat split; auto; lia.
  - pose proof (off_bit n b ltac:(apply Hst)) as Hob. right. right. pose proof Hst as (_ & _ & H3 & _).
    split; [lia|]. split; [apply Z.eqb_neq; lia|]. exists b. split; [lia|exact Hst].
Qed.

Lemma merkle_leaves_good leaves : forall n s, skipn n L = leaves -> (n <= length L)%nat -> good n s ->
  exists s', merkle_leaves pb (Z.of_nat p) leaves (Z.of_nat n) s = Some (Z.of_nat (length L), s') /\ good (length L) s'.
Proof.
  induction leaves as [|h leaves IH]; intros n s Hr Hle Hg.
  - assert (n = length L) by (apply (f_equal (@length _)) in Hr; rewrite length_skipn in Hr; cbn in Hr; lia). subst n. exists s. split; [reflexivity|exact Hg].
  - destruct (skipn_cons_lt n h leaves Hr) as [Hn Hr']. cbn [merkle_leaves].
    replace (u32 (Z.of_nat n + 1)) with (Z.of_nat (n + 1)) by (rewrite u32_small; lia).
    destruct (combine_leaf 32 n (n + 1) 0 h (Z.of_nat n =? Z.of_nat p) s Hn) as (v & m & h' & matchh & s' & Hc & Hm & Ho & Hv & Hat);
      [cbn; lia|lia|lia|apply (leaf_at_level n h leaves); assumption|].
    rewrite Hc. cbn [obind]. apply IH; [assumption|lia|]. apply (store_good n m v); assumption.
Qed.

Lemma first_level_spec fuel : forall k m v, Z.of_nat k < 2 ^ 32 -> (k = m * 2 ^ v)%nat -> (0 < m)%nat -> (32 <= fuel + v)%nat ->
  exists m' v', first_level fuel (Z.of_nat k) v = Some v' /\ (k = m' * 2 ^ v')%nat /\ Nat.odd m' = true /\ (v' < 32)%nat.
Proof.
  induction fuel as [|fuel IH]; intros k m v Hk Hm Hm0 Hf.
  all: assert (Hv : (v < 32)%nat) by (now apply (level_small m v k)).
  { lia. }
  cbn [first_level]. rewrite count_bit_odd by lia. pose proof (pow2_ge1 v).
  assert (Hq : (k / 2 ^ v = m)%nat) by (rewrite Hm; apply Nat.div_mul; lia). rewrite Hq.
  destruct (Nat.odd m) eqn:Ho; [now exists m, v|].
  rewrite <- Nat.negb_even in Ho. apply negb_false_iff, Nat.even_spec in Ho as [r Hr].
  apply (IH k r (S v)); try lia. rewrite pow2_S. lia.
Qed.

(** ** The sweep *)

Abbreviation N := (length L).
(** The node of height [v] that ends the tree, as if there were [C] leaves; the
    nodes stored from level [w] up are still to be used. *)
Definition sweeping (w C v : nat) (h : list Z) (matchh : bool) (s : MerkleState) : Prop :=
  let o := (C - 2 ^ v)%nat in
  (2 ^ v <= C)%nat /\ (o < N <= C)%nat /\ inner_ok N s /\ h = node v (skipn o L) /\
  (mutated s = true <-> twins_from N w \/ twins v (skipn o L) = true) /\
  (pb = true ->
    ((N <= p)%nat /\ matchh = false /\ matchlevel s = -1 /\ branch s = []) \/
    ((o <= p < N)%nat /\ matchh = true /\ branch s = path v (skipn o L) (p - o)) \/
    ((p < o)%nat /\ matchh = false /\ exists b, (w <= b)%nat /\ stored_at N b s)).

(** [N] lies in the last block of [2^v] leaves: its higher bits are those of the block. *)
Lemma block_div m v : ((m - 1) * 2 ^ v <= N < m * 2 ^ v)%nat -> (0 < m)%nat -> (N / 2 ^ v = m - 1)%nat.
Proof. intros H Hm. symmetry. apply (Nat.div_unique _ _ _ (N - (m - 1) * 2 ^ v)); nia. Qed.

Lemma skipn_split o k : (o + k <= N)%nat -> skipn o L = seg o k ++ skipn (o + k) L.
Proof. intros H. unfold seg. replace (o + k)%nat with (k + o)%nat by lia. rewrite <- skipn_skipn. now rewrite firstn_skipn. Qed.

(** One round of the inner loop of the sweep. *)
Lemma sweep_combine_step C m v h matchh s : (C = 2 * m * 2 ^ v)%nat -> (0 < m)%nat -> (v < 32)%nat -> (N < C)%nat ->
  sweeping v C v h matchh s ->
  let x := nth v (inner s) [] in
  let '(br, matchh') := if pb then if matchh then (branch s ++ [x], true)
                        else if matchlevel s =? Z.of_nat v then (branch s ++ [h], true) else (branch s, false)
                        else (branch s, matchh) in
  sweeping (S v) C (S v) (hash_pair x h) matchh' (mkMerkle (inner s) (matchlevel s) (mutated s) br).
Proof.
  intros HC Hm0 Hv Hlt (H1 & H2 & Hi & Hh & Hmut & Hbr) x. pose proof (pow2_ge1 v) as Hp.
  assert (Hd : (N / 2 ^ v = 2 * m - 1)%nat) by (apply block_div; nia).
  assert (Ho : Nat.odd (N / 2 ^ v) = true) by (rewrite Hd; replace (2 * m - 1)%nat with (1 + 2 * (m - 1))%nat by lia; now rewrite Nat.odd_add_mul_2).
  assert (Hoff : off N v = (C - 2 * 2 ^ v)%nat).
  { unfold off. rewrite div_pow_S, Hd, pow2_S. replace (2 * m - 1)%nat with (1 + (m - 1) * 2)%nat by lia. rewrite Nat.div_add by lia.
    cbn [Nat.div Nat.divmod fst]. nia. }
  assert (Hle : (2 * 2 ^ v <= C)%nat) by nia.
  set (o' := (C - 2 * 2 ^ v)%nat) in *. set (o := (C - 2 ^ v)%nat) in *. assert (Eo : o = (o' + 2 ^ v)%nat) by lia.
  assert (Hx : x = node v (seg o' (2 ^ v))) by (unfold x; rewrite (proj2 Hi v Hv Ho); unfold chunk; now rewrite Hoff).
  assert (Hla : length (seg o' (2 ^ v)) = (2 ^ v)%nat) by (apply length_seg; lia).
  assert (Hlb : (0 < length (skipn o L) < 2 ^ v)%nat) by (rewrite length_skipn; lia).
  assert (Happ : skipn o' L = seg o' (2 ^ v) ++ skipn o L) by (rewrite Eo; apply skipn_split; lia).
  assert (Eo' : (C - 2 ^ S v)%nat = o') by (rewrite pow2_S; reflexivity).
  assert (Hres : hash_pair x h = node (S v) (skipn o' L)) by (rewrite Happ, node_split, Hx, Hh by lia; reflexivity).
  assert (Hmut' : mutated s = true <-> twins_from N (S v) \/ twins (S v) (skipn o' L) = true).
  { rewrite Happ, twins_split by lia. rewrite (proj2 (Nat.eqb_neq _ _)) by lia. cbn [andb]. rewrite orb_false_r, orb_true_iff.
    rewrite Hmut, twins_from_S by assumption. unfold chunk. rewrite Hoff. tauto. }
  assert (Hcommon : forall matchh' br, 
    (pb = true -> ((N <= p)%nat /\ matchh' = false /\ matchlevel s = -1 /\ br = []) \/
      ((o' <= p < N)%nat /\ matchh' = true /\ br = path (S v) (skipn o' L) (p - o')) \/
      ((p < o')%nat /\ matchh' = false /\ exists b, (S v <= b)%nat /\ stored_at N b (mkMerkle (inner s) (matchlevel s) (mutated s) br))) ->
    sweeping (S v) C (S v) (hash_pair x h) matchh' (mkMerkle (inner s) (matchlevel s) (mutated s) br)).
  { intros matchh' br H. unfold sweeping. rewrite Eo'. cbn [matchlevel branch mutated]. rewrite pow2_S. split; [lia|]. split; [lia|]. auto. }
  destruct pb eqn:Epb; [|apply Hcommon; congruence].
  specialize (Hbr eq_refl). destruct matchh.
  { apply Hcommon. intros _. right. left.
    destruct Hbr as [(_ & ? & _)|[(Hr & _ & Hb)|(_ & ? & _)]]; [discriminate| |discriminate]. split; [lia|]. split; [reflexivity|].
    rewrite Hb, Happ. replace (p - o')%nat with (2 ^ v + (p - o))%nat by lia. rewrite path_right by lia. now rewrite Hx. }
  destruct (matchlevel s =? Z.of_nat v) eqn:Eml; apply Hcommon; intros _.
  - right. left. apply Z.eqb_eq in Eml. destruct Hbr as [(_ & _ & ? & _)|[(_ & ? & _)|(Hr & _ & b & Hvb & Hb1 & Hb2 & Hb3 & Hb4 & Hb5)]];
      [lia|discriminate|].
    assert (b = v) by lia. subst b. rewrite Hoff in *. split; [lia|]. split; [reflexivity|].
    rewrite Hb5, Happ. unfold chunk. rewrite Hoff. rewrite path_left by lia. now rewrite Hh.
  - apply Z.eqb_neq in Eml. destruct Hbr as [(? & _ & ? & ?)|[(_ & ? & _)|(Hr & _ & b & Hvb & Hst)]]; [left; auto|discriminate|].
    right. right. assert (Hbv : (S v <= b)%nat) by (destruct Hst as (_ & _ & _ & Hst & _); destruct (Nat.eq_dec b v); [subst; lia|lia]).
    pose proof Hst as (_ & Hb2 & Hb3 & _).
    pose proof (block_before N b (S v) m Hb2 Hbv ltac:(rewrite pow2_S; lia)) as Hend.
    assert (Hend' : ((m - 1) * 2 ^ S v = o')%nat) by (unfold o'; rewrite pow2_S; nia). rewrite Hend' in Hend.
    split; [lia|]. split; [reflexivity|]. exists b. split; [exact Hbv|exact Hst].
Qed.

(** The inner loop of the sweep ends at a level whose bit is set. *)
Lemma sweep_combine fuel : forall C m v h matchh s, (C = m * 2 ^ v)%nat -> (0 < m)%nat -> Z.of_nat C < 2 ^ 32 -> (N < C)%nat -> (32 <= fuel + v)%nat ->
  sweeping v C v h matchh s ->
  exists v' m' h' matchh' s',
    combine_levels false pb fuel (Z.of_nat C) v h matchh s = Some (v', h', matchh', s') /\
    (C = m' * 2 ^ v')%nat /\ Nat.odd m' = true /\ (v <= v' < 32)%nat /\ sweeping v' C v' h' matchh' s'.
Proof.
  induction fuel as [|fuel IH]; intros C m v h matchh s HC Hm0 Hb Hlt Hf Hsw.
  all: assert (Hv : (v < 32)%nat) by (now apply (level_small m v C)).
  { lia. }
  cbn [combine_levels]. rewrite count_bit_odd by lia. pose proof (pow2_ge1 v).
  assert (Hq : (C / 2 ^ v = m)%nat) by (rewrite HC; apply Nat.div_mul; lia). rewrite Hq.
  destruct (Nat.odd m) eqn:Ho.
  { exists v, m, h, matchh, s. repeat split; auto; try apply Hsw; lia. }
  rewrite <- Nat.negb_even in Ho. apply negb_false_iff, Nat.even_spec in Ho as [r Hr].
  pose proof (sweep_combine_step C r v h matchh s ltac:(lia) ltac:(lia) Hv Hlt Hsw) as Hst. cbv zeta in Hst.
  destruct (if pb then _ else _) as [br matchh'].
  destruct (IH C r (S v) _ _ _ ltac:(rewrite pow2_S; lia) ltac:(lia) Hb Hlt ltac:(lia) Hst) as (v' & m' & h' & mh & s' & R1 & R2 & R3 & R4 & R5).
  exists v', m', h', mh, s'. repeat split; auto; try apply R5; lia.
Qed.

(** A node with nothing to its right is paired with itself. *)
Lemma sweep_double C v h matchh s : sweeping (S v) C v h matchh s ->
  sweeping (S v) (C + 2 ^ v) (S v) (hash_pair h h) matchh
    (if pb && matchh then mkMerkle (inner s) (matchlevel s) (mutated s) (branch s ++ [h]) else s).
Proof.
  intros (H1 & H2 & Hi & Hh & Hmut & Hbr). unfold sweeping. rewrite pow2_S. pose proof (pow2_ge1 v) as Hp.
  replace (C + 2 ^ v - 2 * 2 ^ v)%nat with (C - 2 ^ v)%nat by lia. set (o := (C - 2 ^ v)%nat) in *.
  assert (Hl : (length (skipn o L) <= 2 ^ v)%nat) by (rewrite length_skipn; lia).
  rewrite node_up, twins_up, path_up by exact Hl.
  split; [lia|]. split; [lia|]. split; [destruct (pb && matchh); exact Hi|]. split; [now rewrite Hh|].
  split; [destruct (pb && matchh); exact Hmut|]. intros Hpb. rewrite Hpb. cbn [andb]. specialize (Hbr Hpb).
  destruct Hbr as [(A1 & -> & A3)|[(A1 & -> & A3)|(A1 & -> & A3)]]; [now left| |now right; right].
  right. left. split; [exact A1|]. split; [reflexivity|]. cbn [branch]. now rewrite A3, Hh.
Qed.

(** Where the count is odd at its level, no node is stored at that level. *)
Lemma sweeping_odd C m v h matchh s : (C = m * 2 ^ v)%nat -> Nat.odd m = true -> (N < C)%nat ->
  sweeping v C v h matchh s -> sweeping (S v) C v h matchh s.
Proof.
  intros HC Ho Hlt (H1 & H2 & Hi & Hh & Hmut & Hbr). assert (Hm0 : (0 < m)%nat) by (destruct m; [discriminate|lia]).
  assert (Hbit : Nat.odd (N / 2 ^ v) = false) by (rewrite (block_div m v) by nia; now apply even_pred).
  assert (Hup : forall b, (v <= b)%nat -> Nat.odd (N / 2 ^ b) = true -> (S v <= b)%nat).
  { intros b Hb Hb'. destruct (Nat.eq_dec b v) as [->|]; [congruence|lia]. }
  split; [exact H1|]. split; [exact H2|]. split; [exact Hi|]. split; [exact Hh|]. split.
  - rewrite Hmut. split; (intros [(b & Hb & Hb1 & Hb2)|H]; [left; exists b|now right]).
    + split; [split; [now apply Hup|lia]|auto].
    + split; [lia|auto].
  - intros Hpb. destruct (Hbr Hpb) as [A|[A|(A1 & A2 & b & Hb & Hst)]]; [now left|now right; left|].
    right. right. split; [exact A1|]. split; [exact A2|]. exists b. split; [apply Hup; [exact Hb|apply Hst]|exact Hst].
Qed.

Lemma shifted_bit v : (v < 32)%nat -> u32 (Z.shiftl 1 (Z.of_nat v)) = Z.of_nat (2 ^ v).
Proof.
  intros Hv. rewrite Z.shiftl_1_l, Nat2Z.inj_pow. apply u32_small. change (Z.of_nat 2) with 2.
  split; [apply Z.pow_nonneg; lia|apply Z.pow_lt_mono_r; lia].
Qed.

(** The sweep ends with the root. *)
Lemma merkle_sweep_root fuel : forall C m v h matchh s, (C = m * 2 ^ v)%nat -> Nat.odd m = true -> (C < 2 * N)%nat -> (v < 32)%nat -> (32 <= fuel + v)%nat ->
  sweeping (S v) C v h matchh s ->
  exists v' h' s' matchh', merkle_sweep pb fuel (Z.of_nat C) v h matchh s = Some (h', s') /\ (v' < 32)%nat /\ (2 ^ v' < 2 * N)%nat /\
    sweeping (S v') (2 ^ v') v' h' matchh' s'.
Proof.
  induction fuel as [|fuel IH]; intros C m v h matchh s HC Ho Hlt Hv Hf Hsw; [lia|].
  cbn [merkle_sweep]. rewrite shifted_bit by exact Hv.
  destruct (Z.eqb_spec (Z.of_nat C) (Z.of_nat (2 ^ v))) as [E|E].
  { apply Nat2Z.inj in E. exists v, h, s, matchh. rewrite <- E. auto. }
  assert (HC2 : C <> (2 ^ v)%nat) by congruence. pose proof (pow2_ge1 v) as Hp.
  apply Nat.odd_spec in Ho as [r Hr]. assert (Hr0 : (1 <= r)%nat) by (destruct r; [rewrite Hr in HC; cbn in HC; lia|lia]).
  pose proof (sweep_double C v h matchh s Hsw) as Hd. destruct Hsw as (B1 & B2 & _).
  assert (H3 : (3 * 2 ^ v <= C)%nat) by (rewrite HC, Hr; nia).
  rewrite u32_small by lia. rewrite <- Nat2Z.inj_add.
  destruct (sweep_combine 32 (C + 2 ^ v) (r + 1) (S v) _ _ _ ltac:(rewrite pow2_S, HC, Hr; lia) ltac:(lia) ltac:(lia) ltac:(lia) ltac:(lia) Hd)
    as (v' & m' & h' & mh & s' & R1 & R2 & R3 & R4 & R5).
  rewrite R1. cbn [obind]. apply (IH (C + 2 ^ v)%nat m'); auto; try lia.
  apply (sweeping_odd _ m'); auto; lia.
Qed.

(** The state in which the sweep starts. *)
Lemma good_sweeping m v s : (N = m * 2 ^ v)%nat -> Nat.odd m = true -> (v < 32)%nat -> good N s ->
  sweeping (S v) N v (nth v (inner s) []) (matchlevel s =? Z.of_nat v) s.
Proof.
  intros HN Ho Hv (Hi & Hm & Hb). pose proof (pow2_ge1 v) as Hp.
  assert (Hm0 : (0 < m)%nat) by (destruct m; [discriminate|lia]). assert (Hle : (2 ^ v <= N)%nat) by nia.
  assert (HN1 : (N - 1 + 1 = m * 2 ^ v)%nat) by lia. assert (EN : (N - 1 + 1 = N)%nat) by lia.
  pose proof (odd_off (N - 1) m v HN1 Hm0 Ho) as Hoff. pose proof (succ_div (N - 1) m v HN1 Hm0) as Hdiv.
  pose proof (low_bits (N - 1) m v HN1 Hm0) as Hlow. rewrite EN in Hoff, Hdiv, Hlow.
  assert (Hchunk : chunk N v = skipn (N - 2 ^ v) L).
  { unfold chunk, seg. rewrite Hoff. apply firstn_all2. rewrite length_skipn. lia. }
  assert (Hbit : Nat.odd (N / 2 ^ v) = true) by (now rewrite Hdiv).
  split; [exact Hle|]. split; [lia|]. split; [exact Hi|]. split; [rewrite (proj2 Hi v Hv Hbit), Hchunk; reflexivity|]. split.
  - rewrite Hm, <- Hchunk, or_comm, <- twins_from_S by assumption. split; intros (b & Hb0 & Hb1 & Hb2); exists b; (split; [|auto]); [|lia].
    destruct (Nat.lt_ge_cases b v) as [Hlt|]; [|lia]. now rewrite (Hlow b Hlt) in Hb1.
  - intros Hpb. destruct (Hb Hpb) as [(A1 & A2 & A3)|(b & Hst)].
    + left. rewrite A2. split; [exact A1|]. split; [apply Z.eqb_neq; lia|auto].
    + right. pose proof Hst as (A1 & A2 & A3 & A4 & A5). assert (Hvb : (v <= b)%nat)
        by (destruct (Nat.lt_ge_cases b v) as [Hlt|]; [now rewrite (Hlow b Hlt) in A2|assumption]).
      rewrite A4. destruct (Nat.eq_dec b v) as [->|Hne].
      * left. rewrite Hoff in *. split; [lia|]. split; [apply Z.eqb_refl|]. now rewrite A5, Hchunk.
      * right.
        pose proof (block_before (N - 1) b v m) as Hobn.
        rewrite <- (high_bits (N - 1) m v HN1 Hm0 b Ho), <- (off_high (N - 1) m v b HN1 Hm0 Ho), EN in Hobn by lia.
        specialize (Hobn A2 Hvb ltac:(lia)).
        assert (Eb : ((m - 1) * 2 ^ v = N - 2 ^ v)%nat) by nia. rewrite Eb in Hobn.
        split; [lia|]. split; [apply Z.eqb_neq; lia|]. exists b. split; [lia|exact Hst].
Qed.

Definition height (l : list (list Z)) : nat := Nat.log2_up (length l).

Lemma root_height v : (0 < N <= 2 ^ v)%nat -> (2 ^ v < 2 * N)%nat -> v = height L.
Proof.
  intros H1 H2. unfold height. symmetry. destruct v as [|v].
  - cbn in H1. replace N with 1%nat by lia. reflexivity.
  - rewrite pow2_S in *. apply Nat.log2_up_unique; [lia|]. cbn [Nat.pred]. rewrite pow2_S. lia.
Qed.

Lemma good_start : good 0 (mkMerkle (repeat (repeat 0 32) 32) (-1) false []).
Proof.
  assert (Hno : forall b, Nat.odd (0 / 2 ^ b) = false) by (intros b; now rewrite Nat.Div0.div_0_l).
  split; [split; [apply repeat_length|]|split].
  - intros b _ Hb. now rewrite Hno in Hb.
  - split; [discriminate|]. intros (b & _ & Hb & _). now rewrite Hno in Hb.
  - intros _. left. cbn. repeat split; lia.
Qed.

Lemma MerkleComputation_tree : (0 < N)%nat -> exists br,
  MerkleComputation L (Z.of_nat p) pb = Some (node (height L) L, twins (height L) L, br) /\
  (pb = true -> (p < N)%nat -> br = path (height L) L p).
Proof.
  intros HN. destruct (merkle_leaves_good L 0 _ eq_refl ltac:(lia) good_start) as (s & Hs & Hg).
  destruct (first_level_spec 32 N N 0 ltac:(lia) ltac:(cbn; lia) HN ltac:(lia)) as (m & v & Hv & HN' & Ho & Hv32).
  pose proof (good_sweeping m v s HN' Ho Hv32 Hg) as Hsw.
  destruct (merkle_sweep_root 32 N m v _ _ _ HN' Ho ltac:(lia) Hv32 ltac:(lia) Hsw) as (v' & h' & s' & mh & Hr & Hv' & Hlt & Hend).
  destruct Hend as (B1 & B2 & _ & Hh & Hmut & Hbr). rewrite Nat.sub_diag in *. cbn [skipn] in *.
  assert (Hh' : v' = height L) by (apply root_height; lia).
  assert (Hnone : ~ twins_from N (S v')).
  { intros (b & Hb & Hbit & _). rewrite Nat.div_small in Hbit; [discriminate|].
    apply (Nat.le_lt_trans _ (2 ^ v')); [lia|]. apply Nat.pow_lt_mono_r; lia. }
  exists (branch s'). split.
  - unfold MerkleComputation. destruct L as [|x rest] eqn:EL; [cbn in HN; lia|]. rewrite <- EL in *. 
    change 0 with (Z.of_nat 0) at 1. rewrite Hs. cbn [obind]. rewrite Hv. cbn [obind]. rewrite Hr. cbn [obind]. rewrite Hh, <- Hh'.
    do 3 f_equal. apply eq_true_iff_eq. rewrite Hmut. tauto.
  - intros Hpb HpN. destruct (Hbr Hpb) as [(A & _)|[(_ & _ & A)|(A & _)]]; [lia| |lia]. rewrite A, <- Hh'. f_equal. lia.
Qed.
End Correct.

Lemma height_spec l : (0 < length l)%nat -> (0 < length l <= 2 ^ height l)%nat.
Proof.
  intros H. split; [exact H|]. unfold height. destruct (Nat.eq_dec (length l) 1) as [->|]; [cbn; lia|]. apply Nat.log2_up_spec. lia.
Qed.
Lemma height_spec_Z l : (0 < length l)%nat -> Z.of_nat (length l) <= 2 ^ Z.of_nat (height l).
Proof. intros H. change 2 with (Z.of_nat 2). rewrite <- Nat2Z.inj_pow. apply Nat2Z.inj_le, height_spec, H. Qed.

(** C19: for every block of fewer than [2^31] transactions the constant-space computation
    returns: its root is that of the balanced tree of the leaves in which a node without a
    right sibling is paired with itself, and the mutation flag is raised exactly when two
    complete siblings of that tree are equal. *)
Theorem ComputeMerkleRoot_tree {crypto : ScriptCrypto} (leaves : list (list Z)) :
  0 < Z.of_nat (length leaves) < 2 ^ 31 ->
  ComputeMerkleRoot leaves = Some (node (height leaves) leaves, twins (height leaves) leaves).
Proof.
  intros H. destruct (MerkleComputation_tree leaves false (Z.to_nat 0xffffffff) ltac:(lia) ltac:(lia)) as (br & E & _).
  unfold ComputeMerkleRoot. rewrite Z2Nat.id in E by lia. now rewrite E.
Qed.

(** The branch computed for a position leads back from that leaf to the
    root: folding it with [ComputeMerkleRootFromBranch] gives the root of the block. *)
Theorem ComputeMerkleBranch_verifies {crypto : ScriptCrypto} (leaves : list (list Z)) (position : Z) :
  Z.of_nat (length leaves) < 2 ^ 31 -> 0 <= position < Z.of_nat (length leaves) ->
  exists br root m, ComputeMerkleBranch leaves position = Some br /\ ComputeMerkleRoot leaves = Some (root, m) /\
    ComputeMerkleRootFromBranch (nth (Z.to_nat position) leaves []) br position = root /\ length br = height leaves.
Proof.
  intros H Hp. destruct (MerkleComputation_tree leaves true (Z.to_nat position) H ltac:(lia)) as (br & E & Hbr).
  destruct (MerkleComputation_tree leaves false (Z.to_nat 0xffffffff) H ltac:(lia)) as (br' & E' & _).
  rewrite Z2Nat.id in E, E' by lia. exists br, (node (height leaves) leaves), (twins (height leaves) leaves).
  unfold ComputeMerkleBranch, ComputeMerkleRoot. rewrite E, E'. rewrite Hbr by (auto; lia).
  split; [reflexivity|]. split; [reflexivity|]. split; [|apply length_path]. apply path_root; [|lia|].
  - apply height_spec. lia.
  - pose proof (height_spec_Z leaves ltac:(lia)). rewrite Z.mod_small, Z2Nat.id; lia.
Qed.

Lemma roots_bind {crypto : ScriptCrypto} (l l' : list (list Z)) (root : list Z) :
  0 < Z.of_nat (length l) < 2 ^ 31 -> 0 < Z.of_nat (length l') < 2 ^ 31 -> hashes l -> hashes l' ->
  height l = height l' ->
  ComputeMerkleRoot l = Some (root, false) -> ComputeMerkleRoot l' = Some (root, false) ->
  l = l' \/ merkle_collision.
Proof.
  intros H H' HF HF' Eh E E'.
  destruct (MerkleComputation_tree l false (Z.to_nat 0xffffffff) ltac:(lia) ltac:(lia)) as (br & C & _).
  destruct (MerkleComputation_tree l' false (Z.to_nat 0xffffffff) ltac:(lia) ltac:(lia)) as (br' & C' & _).
  unfold ComputeMerkleRoot in *. rewrite Z2Nat.id in C, C' by lia. rewrite C in E. rewrite C' in E'. cbn in E, E'.
  injection E as E1 E2. injection E' as E1' E2'. rewrite <- E1' in E1. rewrite <- Eh in E1, E2'.
  destruct (node_inj (height l) l l') as [?|[X|[X|?]]]; auto; try congruence.
  - apply height_spec. lia.
  - rewrite Eh. apply height_spec. lia.
Qed.

(** A block's transactions are bound by its root: two lists of transaction
    ids of the same height that give the same root, neither of them flagged as
    mutated, are the same list, unless they exhibit a collision of the double
    SHA-256. *)
Theorem merkle_root_binds {crypto : ScriptCrypto} (l l' : list (list Z)) (root : list Z) :
  0 < Z.of_nat (length l) < 2 ^ 31 -> 0 < Z.of_nat (length l') < 2 ^ 31 -> hashes l -> hashes l' ->
  height l = height l' ->
  ComputeMerkleRoot l = Some (root, false) -> ComputeMerkleRoot l' = Some (root, false) ->
  l = l' \/ merkle_collision.
Proof. apply roots_bind. Qed.

(** Five leaves; the last one is paired with itself twice. *)
Definition ex_leaves : list (list Z) := map (fun i => i :: repeat 0 31) [1; 2; 3; 4; 5].

#[local] Existing Instance toy_crypto.
Lemma ComputeMerkleRoot_tree_witness :
  0 < Z.of_nat (length ex_leaves) < 2 ^ 31 /\
  ComputeMerkleRoot ex_leaves = Some (node (height ex_leaves) ex_leaves, twins (height ex_leaves) ex_leaves).
Proof. split; [split; reflexivity|]. apply ComputeMerkleRoot_tree. split; reflexivity. Defined.
Lemma ComputeMerkleBranch_verifies_witness :
  0 <= 4 < Z.of_nat (length ex_leaves) /\
  exists br root m, ComputeMerkleBranch ex_leaves 4 = Some br /\ ComputeMerkleRoot ex_leaves = Some (root, m) /\
    ComputeMerkleRootFromBranch (nth (Z.to_nat 4) ex_leaves []) br 4 = root /\ length br = height ex_leaves.
Proof.
  split; [split; [discriminate|reflexivity]|]. apply (ComputeMerkleBranch_verifies ex_leaves 4); [reflexivity|split; [discriminate|reflexivity]].
Defined.
Lemma merkle_root_binds_witness :
  hashes ex_leaves /\ (ex_leaves = ex_leaves \/ merkle_collision).
Proof.
  assert (HF : hashes ex_leaves) by (repeat constructor).
  split; [exact HF|].
  apply (merkle_root_binds ex_leaves ex_leaves (node (height ex_leaves) ex_leaves));
    [split; reflexivity|split; reflexivity|exact HF|exact HF|reflexivity|vm_compute; reflexivity|vm_compute; reflexivity].
Defined.
