(* ===== verification/Block.v ===== *)
(** Blocks: headers, their hashes and their serialization (src/primitives/block.h,
    src/primitives/block.cpp, src/hash.h). *)
From Stdlib Require Import ZArith Lia List Bool.
From S2P Require Import Prelude Serialize Script Interpreter Codecs Transaction.
Import ListNotations.
Local Open Scope Z_scope.
Local Open Scope passion_scope.

(** * The Quark hash

    The six 512-bit hash functions are those of the imported sphlib. *)

Class SphLib := {
  blake512 : list Z -> list Z;
  bmw512 : list Z -> list Z;
  groestl512 : list Z -> list Z;
  jh512 : list Z -> list Z;
  keccak512 : list Z -> list Z;
  skein512 : list Z -> list Z;
  sph_digest : forall m, Forall (fun f : list Z -> list Z => length (f m) = 64%nat /\ bytes_ok (f m))
    [blake512; bmw512; groestl512; jh512; keccak512; skein512]
}.

(** [(hash & mask) != zero] with [mask = 8]: a bit of the first byte. *)
Definition quark_bit (hash : list Z) : bool := negb (Z.land (hash.[0]) 8 =? 0).
Definition trim256 (hash : list Z) : list Z := firstn 32 hash.
Definition HashQuark `{SphLib} (data : list Z) : list Z :=
  let hash0 := blake512 data in
  let hash1 := bmw512 hash0 in
  let hash2 := if quark_bit hash1 then groestl512 hash1 else skein512 hash1 in
  let hash3 := groestl512 hash2 in
  let hash4 := jh512 hash3 in
  let hash5 := if quark_bit hash4 then blake512 hash4 else bmw512 hash4 in
  let hash6 := keccak512 hash5 in
  let hash7 := skein512 hash6 in
  let hash8 := if quark_bit hash7 then keccak512 hash7 else jh512 hash7 in
  trim256 hash8.

(** * Headers *)

Record CBlockHeader := mkHeader {
  blk_nVersion : Z;
  hashPrevBlock : list Z;
  hashMerkleRoot : list Z;
  blk_nTime : Z;
  nBits : Z;
  nNonce : Z;
  nAccumulatorCheckpoint : list Z;
  hashFinalSaplingRoot : list Z
}.
Definition CBlockHeader_CURRENT_VERSION : Z := 9.
Definition CBlockHeader_null : CBlockHeader :=
  mkHeader CBlockHeader_CURRENT_VERSION (repeat 0 32) (repeat 0 32) 0 0 0 (repeat 0 32) (repeat 0 32).
Definition CBlockHeader_IsNull (h : CBlockHeader) : bool := nBits h =? 0.
Definition GetBlockTime (h : CBlockHeader) : Z := blk_nTime h.

(** The versions whose header has an accumulator checkpoint, and those with a
    Sapling root. *)
Definition has_checkpoint (nVersion : Z) : bool := (nVersion >? 3) && (nVersion <? 7).
Definition has_sapling_root (nVersion : Z) : bool := nVersion >=? 8.

Definition ser_int32 : Serializable Z.
Proof.
  refine {| Serialize := Serialize_u32; Unserialize := fun s => '(x, s) <- ser_readdata32 s;; Some (i32 x, s);
            ser_ok := fun x => - 2 ^ 31 <= x < 2 ^ 31 |}.
  - exact Unserialize_i32_ser.
  - intros s x r Hs ([y s'] & H & E)%obind_Some. injection E as <- <-.
    rewrite ser_readdata32_le in H. apply read_le_ok in H as [_ H]; [|assumption].
    split; [apply (signed_range 32); lia | assumption].
Defined.

(** The fields every version has; also the 80 bytes of memory the Quark hash reads. *)
Definition header_fields (h : CBlockHeader) : list Z :=
  Serialize (Serializable := ser_int32) (blk_nVersion h) ++
  Serialize (Serializable := ser_blob 32) (hashPrevBlock h) ++
  Serialize (Serializable := ser_blob 32) (hashMerkleRoot h) ++
  Serialize (Serializable := ser_uint32) (blk_nTime h) ++
  Serialize (Serializable := ser_uint32) (nBits h) ++
  Serialize (Serializable := ser_uint32) (nNonce h).
Definition SerializeHeader (h : CBlockHeader) : list Z :=
  header_fields h ++
  (if has_checkpoint (blk_nVersion h) then Serialize (Serializable := ser_blob 32) (nAccumulatorCheckpoint h) else []) ++
  (if has_sapling_root (blk_nVersion h) then Serialize (Serializable := ser_blob 32) (hashFinalSaplingRoot h) else []).
(** Reading starts from a null header. *)
Definition UnserializeHeader : Reader CBlockHeader := fun s =>
  '(v, s) <- Unserialize (Serializable := ser_int32) s;;
  '(prev, s) <- Unserialize (Serializable := ser_blob 32) s;;
  '(root, s) <- Unserialize (Serializable := ser_blob 32) s;;
  '(time, s) <- Unserialize (Serializable := ser_uint32) s;;
  '(bits, s) <- Unserialize (Serializable := ser_uint32) s;;
  '(nonce, s) <- Unserialize (Serializable := ser_uint32) s;;
  '(acc, s) <- (if has_checkpoint v then Unserialize (Serializable := ser_blob 32) s
                else Some (nAccumulatorCheckpoint CBlockHeader_null, s));;
  '(sap, s) <- (if has_sapling_root v then Unserialize (Serializable := ser_blob 32) s
                else Some (hashFinalSaplingRoot CBlockHeader_null, s));;
  Some (mkHeader v prev root time bits nonce acc sap, s).

(** The headers the format can carry. *)
Definition header_ok (h : CBlockHeader) : Prop :=
  ser_ok (Serializable := ser_int32) (blk_nVersion h) /\
  ser_ok (Serializable := ser_blob 32) (hashPrevBlock h) /\ ser_ok (Serializable := ser_blob 32) (hashMerkleRoot h) /\
  ser_ok (Serializable := ser_uint32) (blk_nTime h) /\ ser_ok (Serializable := ser_uint32) (nBits h) /\
  ser_ok (Serializable := ser_uint32) (nNonce h) /\
  (if has_checkpoint (blk_nVersion h) then ser_ok (Serializable := ser_blob 32) (nAccumulatorCheckpoint h)
   else nAccumulatorCheckpoint h = repeat 0 32) /\
  (if has_sapling_root (blk_nVersion h) then ser_ok (Serializable := ser_blob 32) (hashFinalSaplingRoot h)
   else hashFinalSaplingRoot h = repeat 0 32).

#[export] Instance ser_CBlockHeader : Serializable CBlockHeader.
Proof.
  refine {| Serialize := SerializeHeader; Unserialize := UnserializeHeader; ser_ok := header_ok |}.
  - intros [v p m t b n a f] r (H1 & H2 & H3 & H4 & H5 & H6 & H7 & H8). unfold SerializeHeader, header_fields, UnserializeHeader.
    cbn [blk_nVersion hashPrevBlock hashMerkleRoot blk_nTime nBits nNonce nAccumulatorCheckpoint hashFinalSaplingRoot] in *. read_back.
    destruct (has_checkpoint v); destruct (has_sapling_root v); subst; cbn [app obind]; read_back.
  - intros s x r Hs H. unfold UnserializeHeader in H. read_facts H.
    apply obind_Some in H as ([a sa] & Ha & H). apply obind_Some in H as ([f sf] & Hf & H). injection H as <- <-.
    assert (HA : (if has_checkpoint p then ser_ok (Serializable := ser_blob 32) a else a = repeat 0 32) /\ bytes_ok sa).
    { destruct (has_checkpoint p); [now apply Unserialize_ok in Ha|]. injection Ha as <- <-. auto. }
    destruct HA as [HA Hsa].
    assert (HF : (if has_sapling_root p then ser_ok (Serializable := ser_blob 32) f else f = repeat 0 32) /\ bytes_ok sf).
    { destruct (has_sapling_root p); [now apply Unserialize_ok in Hf|]. injection Hf as <- <-. auto. }
    destruct HF as [HF Hsf]. split; [|exact Hsf].
    unfold header_ok. cbn [blk_nVersion hashPrevBlock hashMerkleRoot blk_nTime nBits nNonce nAccumulatorCheckpoint hashFinalSaplingRoot].
    repeat (split; [assumption|]). assumption.
Defined.

Definition CBlockHeader_GetHash `{SphLib} {crypto : ScriptCrypto} (h : CBlockHeader) : list Z :=
  if blk_nVersion h <? 4 then HashQuark (header_fields h) else Hash256 (SerializeHeader h).

(** * Blocks *)

Record CBlock := mkBlock {
  header : CBlockHeader;
  vtx : list CTransaction;
  vchBlockSig : list Z;
  fChecked : bool
}.
Definition CBlock_null : CBlock := mkBlock CBlockHeader_null [] [] false.
(** [CBlock(header)] *)
Definition CBlock_of_header (h : CBlockHeader) : CBlock := mkBlock h [] [] false.
(** The fields the version does not have are those of a null header. *)
Definition GetBlockHeader (b : CBlock) : CBlockHeader :=
  let h := header b in
  mkHeader (blk_nVersion h) (hashPrevBlock h) (hashMerkleRoot h) (blk_nTime h) (nBits h) (nNonce h)
    (if has_checkpoint (blk_nVersion h) then nAccumulatorCheckpoint h else nAccumulatorCheckpoint CBlockHeader_null)
    (if has_sapling_root (blk_nVersion h) then hashFinalSaplingRoot h else hashFinalSaplingRoot CBlockHeader_null).

Definition second_is_coinstake (vtx : list CTransaction) : bool :=
  match vtx with _ :: tx :: _ => IsCoinStake tx | _ => false end.
Definition IsProofOfStake (b : CBlock) : bool := second_is_coinstake (vtx b).
Definition IsProofOfWork (b : CBlock) : bool := negb (IsProofOfStake b).

(** The size of a [CTransactionRef], for the allocation step of the vector. *)
Class BlockAbi := {
  block_abi :: Abi;
  sizeof_CTransactionRef : Z;
  sizeof_ref_range : 0 < sizeof_CTransactionRef <= 5000000
}.

Section Format.
Context {babi : BlockAbi}.

#[export] Instance ser_vtx : Serializable (list CTransaction).
Proof. refine (ser_vector (5000000 / sizeof_CTransactionRef) _). apply vector_step, sizeof_ref_range. Defined.

Definition SerializeBlock (b : CBlock) : list Z :=
  Serialize (header b) ++ Serialize (vtx b) ++
  (if second_is_coinstake (vtx b) then Serialize (Serializable := ser_bytes) (vchBlockSig b) else []).
(** Reading starts from a null block. *)
Definition UnserializeBlock : Reader CBlock := fun s =>
  '(h, s) <- Unserialize s;;
  '(vtx, s) <- Unserialize s;;
  '(sig, s) <- (if second_is_coinstake vtx then Unserialize (Serializable := ser_bytes) s else Some (vchBlockSig CBlock_null, s));;
  Some (mkBlock h vtx sig (fChecked CBlock_null), s).

Definition block_ok (b : CBlock) : Prop :=
  ser_ok (header b) /\ ser_ok (vtx b) /\
  (if second_is_coinstake (vtx b) then ser_ok (Serializable := ser_bytes) (vchBlockSig b) else vchBlockSig b = []) /\
  fChecked b = false.

#[export] Instance ser_CBlock : Serializable CBlock.
Proof.
  refine {| Serialize := SerializeBlock; Unserialize := UnserializeBlock; ser_ok := block_ok |}.
  - intros [h v sig f] r (Hh & Hv & Hsig & Hf). unfold SerializeBlock, UnserializeBlock. cbn [header vtx vchBlockSig fChecked] in *.
    read_back. destruct (second_is_coinstake v); [|now subst sig f].
    rewrite Unserialize_Serialize by exact Hsig. cbn [obind]. now subst f.
  - intros s x r Hs H. unfold UnserializeBlock in H. read_facts H.
    apply obind_Some in H as ([sig ss] & Hsig & H). injection H as <- <-.
    assert (HS : (if second_is_coinstake p0 then ser_ok (Serializable := ser_bytes) sig else sig = []) /\ bytes_ok ss).
    { destruct (second_is_coinstake p0); [now apply Unserialize_ok in Hsig|]. injection Hsig as <- <-. auto. }
    destruct HS as [HS Hss]. split; [|exact Hss]. unfold block_ok. cbn [header vtx vchBlockSig fChecked]. auto.
Defined.

Definition GetBlockSize (b : CBlock) : Z := u32 (Z.of_nat (length (SerializeBlock b))).
End Format.

Section Theorems.
Context `{SphLib} {crypto : ScriptCrypto}.

Lemma sph_last m : (length (keccak512 m) = 64%nat /\ bytes_ok (keccak512 m)) /\ (length (jh512 m) = 64%nat /\ bytes_ok (jh512 m)).
Proof. pose proof (sph_digest m) as HF. rewrite !Forall_cons_iff in HF. tauto. Qed.
Lemma HashQuark_digest data : length (HashQuark data) = 32%nat /\ bytes_ok (HashQuark data).
Proof.
  assert (Ht : forall d, length d = 64%nat /\ bytes_ok d -> length (trim256 d) = 32%nat /\ bytes_ok (trim256 d)).
  { intros d [Hl Hb]. unfold trim256. split; [rewrite length_firstn; lia|]. rewrite <- (firstn_skipn 32 d) in Hb. now apply bytes_ok_app in Hb. }
  unfold HashQuark. cbv zeta. apply Ht. destruct (quark_bit (skein512 _)); apply sph_last.
Qed.
End Theorems.

(** A block is read back as it was written, whatever follows it, and all a
    successful read returns is a block the format can carry: the signature only
    of a proof-of-stake block, the checkpoint and the Sapling root only of the
    versions that have them.  Dropping the fields the version does not have
    leaves the hash as it is. *)
Theorem CBlock_roundtrip {babi : BlockAbi} `{SphLib} {crypto : ScriptCrypto} :
  (forall b r, block_ok b -> UnserializeBlock (SerializeBlock b ++ r) = Some (b, r)) /\
  (forall s b r, bytes_ok s -> UnserializeBlock s = Some (b, r) -> block_ok b /\ bytes_ok r) /\
  (forall b, CBlockHeader_GetHash (GetBlockHeader b) = CBlockHeader_GetHash (header b)).
Proof.
  split; [exact (Unserialize_Serialize (Serializable := ser_CBlock))|].
  split; [exact (Unserialize_ok (Serializable := ser_CBlock))|].
  intros b. unfold CBlockHeader_GetHash, GetBlockHeader, SerializeHeader, header_fields.
  cbn [blk_nVersion hashPrevBlock hashMerkleRoot blk_nTime nBits nNonce nAccumulatorCheckpoint hashFinalSaplingRoot].
  now destruct (has_checkpoint _), (has_sapling_root _).
Qed.

Definition blockAbi64 : BlockAbi.
Proof. refine {| block_abi := abi64; sizeof_CTransactionRef := 16 |}. lia. Defined.
Definition toy_sph : SphLib.
Proof.
  refine {| blake512 := low_bytes 64; bmw512 := low_bytes 64; groestl512 := low_bytes 64; jh512 := low_bytes 64;
            keccak512 := low_bytes 64; skein512 := low_bytes 64 |}.
  intros m. repeat (apply Forall_cons; [apply low_bytes_digest|]). apply Forall_nil.
Defined.
Definition ex_header : CBlockHeader := mkHeader 8 (repeat 1 32) (repeat 2 32) 1600000000 0x1e0ffff0 7 (repeat 0 32) (repeat 3 32).
Definition ex_block : CBlock := mkBlock ex_header [ex_tx] [] false.

Lemma ex_block_ok : block_ok (babi := blockAbi64) ex_block.
Proof.
  split; [|split; [|split; reflexivity]].
  - change (header_ok ex_header). unfold header_ok, ex_header. cbn -[Z.pow bytes_ok].
    format_ok.
  - split; [reflexivity || (cbn; discriminate)|]. apply Forall_cons; [apply ex_tx_ok|apply Forall_nil].
Qed.
Lemma CBlock_roundtrip_witness :
  block_ok (babi := blockAbi64) ex_block /\
  UnserializeBlock (babi := blockAbi64) (SerializeBlock (babi := blockAbi64) ex_block ++ [1; 2]) = Some (ex_block, [1; 2]).
Proof.
  split; [exact ex_block_ok|].
  apply (CBlock_roundtrip (babi := blockAbi64) (H := toy_sph) (crypto := toy_crypto)). exact ex_block_ok.
Defined.
