(* ===== verification/Payments.v ===== *)
(** Block rewards and masternode payments (src/validation.cpp, src/masternode-payments.h,
    src/masternode-payments.cpp, src/budget/budgetmanager.cpp). *)
From Stdlib Require Import ZArith Lia List Bool.
From stdpp Require Import base gmap list.
From S2P Require Import Prelude Consensus Serialize Script Interpreter Codecs Transaction Coins Standard.
Import ListNotations.
Local Open Scope Z_scope.
Local Open Scope passion_scope.

(** * The subsidy schedule *)

Inductive Network := MAIN | TESTNET | REGTEST.

Definition GetBlockValue (net : Network) (nHeight : Z) : Z :=
  match net with
  | TESTNET => if (nHeight <? 51) && (nHeight >? 0) then 250000 * COIN else 7777 * COIN
  | REGTEST => if nHeight =? 0 then 250 * COIN else 100 * COIN
  | MAIN =>
      if nHeight =? 1 then 1200000 * COIN
      else if (nHeight <? 51) && (nHeight >? 1) then 1 * COIN
      else if (nHeight <? 43201) && (nHeight >? 50) then 12 * COIN
      else if (nHeight <? 302401) && (nHeight >? 43200) then 10 * COIN
      else if (nHeight <? 561601) && (nHeight >? 302400) then 8 * COIN
      else if (nHeight <? 820801) && (nHeight >? 561600) then 7 * COIN
      else if (nHeight <? 1080001) && (nHeight >? 820800) then 8 * COIN
      else if (nHeight <? 1339201) && (nHeight >? 1080000) then 9 * COIN
      else if (nHeight <? 1598401) && (nHeight >? 1339200) then 10 * COIN
      else if (nHeight <? 2116801) && (nHeight >? 1598400) then 9 * COIN
      else if (nHeight <? 2635201) && (nHeight >? 2116800) then 8 * COIN
      else if (nHeight <? 3153601) && (nHeight >? 2635200) then 7 * COIN
      else if (nHeight <? 4190401) && (nHeight >? 3153600) then 6 * COIN
      else if (nHeight <? 5227201) && (nHeight >? 4190400) then 5 * COIN
      else if (nHeight <? 7300801) && (nHeight >? 5227200) then 4 * COIN
      else if (nHeight <? 11448001) && (nHeight >? 7300800) then 3 * COIN
      else if (nHeight <? 41548321) && (nHeight >? 11448000) then 2 * COIN
      else 0 * COIN
  end.

(** * Doubles

    A finite double as [m * 2^e]; only what multiplying an amount by a constant
    needs. *)

Definition double : Type := Z * Z.
(** Round to 53 bits, to the nearest, ties to even. *)
Definition round53 (d : double) : double :=
  let '(m, e) := d in
  let s := Z.log2 (Z.abs m) + 1 - 53 in
  if s <=? 0 then d
  else
    let a := Z.abs m in
    let q := a / 2 ^ s in
    let r := a mod 2 ^ s in
    let q := if (r >? 2 ^ (s - 1)) || ((r =? 2 ^ (s - 1)) && Z.odd q) then q + 1 else q in
    (Z.sgn m * q, e + s).
Definition double_of_int (n : Z) : double := round53 (n, 0).
Definition double_mul (a b : double) : double := round53 (a.1 * b.1, a.2 + b.2).
(** [(int64_t)d], towards zero. *)
Definition double_to_int (d : double) : Z :=
  let '(m, e) := d in if 0 <=? e then m * 2 ^ e else Z.quot m (2 ^ (- e)).
Definition double_0_10 : double := (7205759403792794, -56).
Definition double_0_15 : double := (5404319552844595, -55).
Definition double_0_20 : double := (7205759403792794, -55).
Definition double_0_40 : double := (7205759403792794, -54).

(** [None]: control reaches the end of the function, no value is returned. *)
Definition GetMasternodePayment (mnlevel blockValue : Z) : option Z :=
  let pay d := Some (double_to_int (double_mul (double_of_int blockValue) d)) in
  if mnlevel =? 1 then pay double_0_10
  else if mnlevel =? 2 then pay double_0_15
  else if mnlevel =? 3 then pay double_0_20
  else if mnlevel =? 4 then pay double_0_40
  else None.

Definition LEVEL_UNSPECIFIED : Z := 0.
Definition LEVELS : list Z := [1; 2; 3; 4].

(** [CBudgetManager::GetTotalBudget] *)
Definition GetTotalBudget (net : Network) (consensus : Params) (nHeight : Z) : Z :=
  i64 (Z.quot (GetBlockValue net nHeight) 5 * nBudgetCycleBlocks consensus).

(** * Payees of a block *)

Definition MNPAYMENTS_SIGNATURES_REQUIRED : Z := 6.
Definition MNPAYMENTS_SIGNATURES_TOTAL : Z := 10.

Record CMasternodePayee := mkPayee {
  payee_scriptPubKey : CScript;
  payee_mnlevel : Z;
  payee_nVotes : Z
}.
(** The constructor assigns its parameter [mnlevel] to itself: the member holds
    whatever the memory held, [indeterminate]. *)
Definition CMasternodePayee_new (indeterminate mnlevel : Z) (payee : CScript) (nVotesIn : Z) : CMasternodePayee :=
  mkPayee payee indeterminate nVotesIn.

Record CMasternodeBlockPayees := mkBlockPayees {
  bp_nBlockHeight : Z;
  vecPayments : list CMasternodePayee
}.

Fixpoint add_payee (indeterminate : Z) (payeeIn : CScript) (mnlevel nIncrement : Z) (v : list CMasternodePayee) : list CMasternodePayee :=
  match v with
  | [] => [CMasternodePayee_new indeterminate mnlevel payeeIn nIncrement]
  | p :: v =>
      if list_eqb (payee_scriptPubKey p) payeeIn
      then mkPayee (payee_scriptPubKey p) (payee_mnlevel p) (i32 (payee_nVotes p + nIncrement)) :: v
      else p :: add_payee indeterminate payeeIn mnlevel nIncrement v
  end.
Definition AddPayee (indeterminate : Z) (payeeIn : CScript) (mnlevel nIncrement : Z) (b : CMasternodeBlockPayees) : CMasternodeBlockPayees :=
  mkBlockPayees (bp_nBlockHeight b) (add_payee indeterminate payeeIn mnlevel nIncrement (vecPayments b)).

(** The first payee of the level with the most votes. *)
Fixpoint best_payee (mnlevel : Z) (v : list CMasternodePayee) (payment : option CMasternodePayee) : option CMasternodePayee :=
  match v with
  | [] => payment
  | p :: v =>
      best_payee mnlevel v
        (if negb (payee_mnlevel p =? mnlevel) then payment
         else match payment with
              | None => Some p
              | Some q => if payee_nVotes p >? payee_nVotes q then Some p else payment
              end)
  end.
Definition GetPayee (mnlevel : Z) (b : CMasternodeBlockPayees) : option CScript :=
  option_map payee_scriptPubKey (best_payee mnlevel (vecPayments b) None).
Definition HasPayeeWithVotes (payee : CScript) (nVotesReq : Z) (b : CMasternodeBlockPayees) : bool :=
  existsb (fun p => (payee_nVotes p >=? nVotesReq) && list_eqb (payee_scriptPubKey p) payee) (vecPayments b).

(** Winners announced by masternodes. *)
Record CMasternodePaymentWinner := mkWinner {
  vinMasternode : CTxIn;
  win_nBlockHeight : Z;
  win_payee : CScript;
  payeeLevel : Z
}.
Definition winner_GetHash {crypto : ScriptCrypto} (w : CMasternodePaymentWinner) : list Z :=
  Hash256 (Serialize (Serializable := ser_bytes) (win_payee w) ++
           Serialize_u32 (win_nBlockHeight w) ++ Serialize (prevout (vinMasternode w))).

Record CMasternodePayments := mkPayments {
  mapMasternodePayeeVotes : gmap (list Z) CMasternodePaymentWinner;
  mapMasternodeBlocks : gmap Z CMasternodeBlockPayees;
  mapMasternodesLastVote : gmap COutPoint Z
}.

(** * The payments manager *)

Definition GetBlockPayee (m : CMasternodePayments) (nBlockHeight mnlevel : Z) : option CScript :=
  match mapMasternodeBlocks m !! nBlockHeight with
  | Some b => GetPayee mnlevel b
  | None => None
  end.

(** The payee of the level at height [h] is [mnpayee]. *)
Definition pays_at (m : CMasternodePayments) (mnlevel : Z) (mnpayee : CScript) (h : Z) : bool :=
  match GetBlockPayee m h mnlevel with Some payee => list_eqb mnpayee payee | None => false end.
(** [n] heights from [h] on, one of them left out. *)
Fixpoint scheduled_within (m : CMasternodePayments) (mnlevel : Z) (mnpayee : CScript) (nNotBlockHeight h : Z) (n : nat) : bool :=
  match n with
  | O => false
  | S n => (negb (h =? nNotBlockHeight) && pays_at m mnlevel mnpayee h)
           || scheduled_within m mnlevel mnpayee nNotBlockHeight (h + 1) n
  end.
(** [nHeight] is the best height of the masternode manager. *)
Definition IsScheduled (m : CMasternodePayments) (nHeight : Z) (mnpayee : CScript) (nSameLevelMNCount mnlevel nNotBlockHeight : Z) : bool :=
  scheduled_within m mnlevel mnpayee nNotBlockHeight nHeight 9
  || (let h_upper_bound := nHeight + 10 in
      let h := h_upper_bound - Z.min 10 (nSameLevelMNCount - 1) in
      scheduled_within m mnlevel mnpayee nNotBlockHeight h (Z.to_nat (h_upper_bound - h))).

Definition AddWinningMasternode {crypto : ScriptCrypto} (indeterminate bestHeight : Z) (w : CMasternodePaymentWinner) (m : CMasternodePayments)
    : bool * CMasternodePayments :=
  if win_nBlockHeight w - 100 >? bestHeight + 1 then (false, m)
  else
    match mapMasternodePayeeVotes m !! winner_GetHash w with
    | Some _ => (false, m)
    | None =>
        let votes := <[winner_GetHash w := w]> (mapMasternodePayeeVotes m) in
        let b := match mapMasternodeBlocks m !! win_nBlockHeight w with
                 | Some b => b
                 | None => mkBlockPayees (win_nBlockHeight w) []
                 end in
        (true, mkPayments votes
                 (<[win_nBlockHeight w := AddPayee indeterminate (win_payee w) (payeeLevel w) 1 b]> (mapMasternodeBlocks m))
                 (mapMasternodesLastVote m))
    end.

(** A masternode votes once for a height. *)
Definition CanVote (m : CMasternodePayments) (outMasternode : COutPoint) (nBlockHeight : Z) : bool * CMasternodePayments :=
  match mapMasternodesLastVote m !! outMasternode with
  | Some h => if h =? nBlockHeight then (false, m)
              else (true, mkPayments (mapMasternodePayeeVotes m) (mapMasternodeBlocks m)
                            (<[outMasternode := nBlockHeight]> (mapMasternodesLastVote m)))
  | None => (true, mkPayments (mapMasternodePayeeVotes m) (mapMasternodeBlocks m)
                     (<[outMasternode := nBlockHeight]> (mapMasternodesLastVote m)))
  end.

(** [int(mnCount * 1.25)] is exact for an [int]. *)
Definition payment_list_limit (mnCount : Z) : Z := Z.max (Z.quot (mnCount * 5) 4) 1000.
Definition CleanPaymentList (mnCount nHeight : Z) (m : CMasternodePayments) : CMasternodePayments :=
  let old w := nHeight - win_nBlockHeight w >? payment_list_limit mnCount in
  let removed := List.filter (fun kw => old kw.2) (map_to_list (mapMasternodePayeeVotes m)) in
  mkPayments (base.filter (fun kw => old kw.2 = false) (mapMasternodePayeeVotes m))
    (foldr (fun kw blocks => delete (win_nBlockHeight kw.2) blocks) (mapMasternodeBlocks m) removed)
    (mapMasternodesLastVote m).

Section Rules.
Context {crypto : ScriptCrypto}.
Variables (net : Network) (consensus : Params).
(** [SPORK_30_DEVELOPMENT_FEE], [SPORK_13_ENABLE_SUPERBLOCKS] and so on. *)
Variable IsSporkActive : Z -> bool.
(** [consensus.nDevFee], [DecodeDestination(strDevFeeAddress)], and the test
    [strDevFeeAddress == EncodeDestination(dest)]. *)
Variables (nDevFee : Z) (devAddr : CTxDestination) (isDevFeeAddress : CTxDestination -> bool).

Definition SPORK_8_MASTERNODE_PAYMENT_ENFORCEMENT : Z := 10007.
Definition SPORK_9_MASTERNODE_BUDGET_ENFORCEMENT : Z := 10008.
Definition SPORK_13_ENABLE_SUPERBLOCKS : Z := 10012.
Definition SPORK_30_DEVELOPMENT_FEE : Z := 10030.

(** ** Checking a payment *)

(** [ExtractDestination] leaves a default destination when it fails. *)
Definition destination_of (s : CScript) : option CTxDestination :=
  d <- ExtractDestination s false;; Some (match d with Some d => d | None => CNoDestination end).
(** The loop over the outputs: a payment to the address with a wrong amount ends it. *)
Fixpoint dev_fee_found (devFeeFund : Z) (outs : list CTxOut) (bDevFeeFound : bool) : option bool :=
  match outs with
  | [] => Some bDevFeeFound
  | o :: outs =>
      d <- destination_of (scriptPubKey o);;
      if isDevFeeAddress d
      then if negb (nValue o =? devFeeFund) then Some bDevFeeFound else dev_fee_found devFeeFund outs true
      else dev_fee_found devFeeFund outs bDevFeeFound
  end.

(** The levels with a payee that has enough votes; a [std::map], of which only the
    keys matter. *)
Fixpoint voted_levels (v : list CMasternodePayee) (levels : list Z) : list Z :=
  match v with
  | [] => levels
  | p :: v =>
      voted_levels v
        (if payee_nVotes p <? MNPAYMENTS_SIGNATURES_REQUIRED then levels
         else if existsb (Z.eqb (payee_mnlevel p)) levels then levels else payee_mnlevel p :: levels)
  end.
Definition erase (x : Z) (l : list Z) : list Z := List.filter (fun y => negb (y =? x)) l.
(** [None]: a payee of an unknown level. *)
Fixpoint payments_found (nReward : Z) (vout : list CTxOut) (v : list CMasternodePayee) (levels : list Z) : option bool :=
  match v with
  | [] => Some false
  | p :: v =>
      if payee_nVotes p <? MNPAYMENTS_SIGNATURES_REQUIRED then payments_found nReward vout v levels
      else
        required <- GetMasternodePayment (payee_mnlevel p) nReward;;
        if existsb (fun o => list_eqb (payee_scriptPubKey p) (scriptPubKey o) && (nValue o >=? required)) vout
        then match erase (payee_mnlevel p) levels with
             | [] => Some true
             | levels => payments_found nReward vout v levels
             end
        else payments_found nReward vout v levels
  end.
Definition block_payees_IsTransactionValid (b : CMasternodeBlockPayees) (vout : list CTxOut) : option bool :=
  let nReward := GetBlockValue net (bp_nBlockHeight b - 1) in
  dev <- (if IsSporkActive SPORK_30_DEVELOPMENT_FEE
          then dev_fee_found (Z.quot (i64 (nReward * nDevFee)) 100) vout false else Some true);;
  if negb dev then Some false
  else
    let max_signatures := voted_levels (vecPayments b) [] in
    if Z.of_nat (length max_signatures) <? MNPAYMENTS_SIGNATURES_REQUIRED then Some true
    else payments_found nReward vout (vecPayments b) max_signatures.
Definition payments_IsTransactionValid (m : CMasternodePayments) (vout : list CTxOut) (nBlockHeight : Z) : option bool :=
  match mapMasternodeBlocks m !! nBlockHeight with
  | Some b => block_payees_IsTransactionValid b vout
  | None => Some true
  end.

(** ** Filling in the payments *)

(** [mnodeman.GetCurrentMasterNode(mnlevel, 1)]: its collateral key. *)
Variable current_masternode : Z -> option (list Z).

Record FillState := mkFill {
  fill_vout : list CTxOut;
  fill_payee : CScript;
  hasPayment : bool;
  mn_payments_total : Z;
  mnTransactionCount : Z
}.
Definition mkOut (v : Z) (s : CScript) : CTxOut := mkTxOut v s (-10).
(** One level of the loop.  [hasPayment] is set again only with a masternode found
    by the manager. *)
Definition fill_level (m : CMasternodePayments) (nHeight blockValue : Z) (fProofOfStake : bool) (f : FillState) (mnlevel : Z) : option FillState :=
  let f :=
    match GetBlockPayee m (nHeight + 1) mnlevel with
    | Some payee => mkFill (fill_vout f) payee (hasPayment f) (mn_payments_total f) (mnTransactionCount f)
    | None =>
        match current_masternode mnlevel with
        | Some key => mkFill (fill_vout f) (GetScriptForDestination (CKeyID (GetID key))) true (mn_payments_total f) (mnTransactionCount f)
        | None => mkFill (fill_vout f) (fill_payee f) false (mn_payments_total f) (mnTransactionCount f)
        end
    end in
  if hasPayment f then
    masternodePayment <- GetMasternodePayment mnlevel blockValue;;
    Some (if fProofOfStake
          then mkFill (fill_vout f ++ [mkOut masternodePayment (fill_payee f)]) (fill_payee f) true
                 (i64 (mn_payments_total f + masternodePayment)) (mnTransactionCount f + 1)
          else f)
  else Some f.
Fixpoint fill_levels (m : CMasternodePayments) (nHeight blockValue : Z) (fProofOfStake : bool) (levels : list Z) (f : FillState) : option FillState :=
  match levels with
  | [] => Some f
  | l :: levels => f <- fill_level m nHeight blockValue fProofOfStake f l;; fill_levels m nHeight blockValue fProofOfStake levels f
  end.

(** [vout[j].nValue -= d]; [None] is an index out of range. *)
Definition sub_value (d : Z) (j : Z) (outs : list CTxOut) : option (list CTxOut) :=
  match outs !! Z.to_nat j with
  | Some o => Some (<[Z.to_nat j := mkTxOut (i64 (nValue o - d)) (scriptPubKey o) (nRounds o)]> outs)
  | None => None
  end.
Fixpoint sub_values (d : Z) (j : Z) (n : nat) (outs : list CTxOut) : option (list CTxOut) :=
  match n with
  | O => Some outs
  | S n => outs <- sub_value d j outs;; sub_values d (j + 1) n outs
  end.

(** [CMasternodePayments::FillBlockPayee] on the outputs of the new transaction. *)
Definition payments_FillBlockPayee (m : CMasternodePayments) (vout : list CTxOut) (nHeight : Z) (fProofOfStake : bool) : option (list CTxOut) :=
  if nHeight =? 0 then Some vout
  else
    let bDevFee := IsSporkActive SPORK_30_DEVELOPMENT_FEE in
    let blockValue := GetBlockValue net nHeight in
    let devFeeAmount := if bDevFee then Z.quot (i64 (blockValue * nDevFee)) 100 else 0 in
    let pay_dev outs := if bDevFee then outs ++ [mkOut devFeeAmount (GetScriptForDestination devAddr)] else outs in
    f <- fill_levels m nHeight blockValue fProofOfStake LEVELS (mkFill vout [] true 0 0);;
    if fProofOfStake then
      o1 <- fill_vout f !! 1%nat;;
      if CTxOut_IsZerocoinMint o1 then Some (fill_vout f)
      else
        let i := Z.of_nat (length (fill_vout f)) in
        let paid := i64 (mn_payments_total f + devFeeAmount) in
        outs <-
          (if i =? mnTransactionCount f + 2 then sub_value paid (i - (mnTransactionCount f + 1)) (fill_vout f)
           else if i >? mnTransactionCount f + 2 then
             let outputs := i - (mnTransactionCount f + 1) in
             let mnPaymentSplit := Z.quot paid outputs in
             let mnPaymentRemainder := i64 (paid - i64 (mnPaymentSplit * outputs)) in
             outs <- sub_values mnPaymentSplit 1 (Z.to_nat outputs) (fill_vout f);;
             sub_value mnPaymentRemainder outputs outs
           else Some (fill_vout f));;
        Some (pay_dev outs)
    else
      let outs := fill_vout f ++ [mkOut (mn_payments_total f) (fill_payee f)] in
      match outs with
      | [] => None
      | o :: outs =>
          Some (pay_dev (mkTxOut (i64 (i64 (blockValue - mn_payments_total f) - devFeeAmount)) (scriptPubKey o) (nRounds o) :: outs))
      end.

(** ** The two rules of block validation *)

(** The budget manager: votes of masternodes on finalized budgets. *)
Inductive TrxValidationStatus := Valid | InValid | DoublePayment | VoteThreshold.
Record BudgetManager := {
  GetExpectedPayeeAmount : Z -> option Z;
  IsBudgetPaymentBlock : Z -> bool;
  budget_IsTransactionValid : CTransaction -> list Z -> Z -> TrxValidationStatus
}.
Variables (budgetman : BudgetManager) (fSynced : bool).

(** Also the expected value, which the function raises. *)
Definition IsBlockValueValid (nHeight nExpectedValue nMinted : Z) : bool * Z :=
  if negb fSynced then
    if Z.rem nHeight (nBudgetCycleBlocks consensus) <? 100 then
      match net with
      | TESTNET => (true, nExpectedValue)
      | _ => let v := i64 (nExpectedValue + GetTotalBudget net consensus nHeight) in (nMinted <=? v, v)
      end
    else (nMinted <=? nExpectedValue, nExpectedValue)
  else
    let v := if IsSporkActive SPORK_13_ENABLE_SUPERBLOCKS then
               match GetExpectedPayeeAmount budgetman nHeight with
               | Some a => i64 (nExpectedValue + a)
               | None => nExpectedValue
               end
             else nExpectedValue in
    (nMinted <=? v, v).

(** [txNew] is the coinstake of the block, or its coinbase before proof of stake. *)
Definition IsBlockPayeeValid (m : CMasternodePayments) (txNew : CTransaction) (blockHash : list Z) (nBlockHeight : Z) : option bool :=
  if negb fSynced then Some true
  else
    let budget :=
      if IsSporkActive SPORK_13_ENABLE_SUPERBLOCKS && IsBudgetPaymentBlock budgetman nBlockHeight then
        match budget_IsTransactionValid budgetman txNew blockHash nBlockHeight with
        | Valid => Some true
        | InValid => if IsSporkActive SPORK_9_MASTERNODE_BUDGET_ENFORCEMENT then Some false else None
        | _ => None
        end
      else None in
    match budget with
    | Some b => Some b
    | None =>
        ok <- payments_IsTransactionValid m (vout txNew) nBlockHeight;;
        Some (ok || negb (IsSporkActive SPORK_8_MASTERNODE_PAYMENT_ENFORCEMENT))
    end.
End Rules.

(** * The schedule *)

Definition subsidies : list Z :=
  [0; 1; 2; 3; 4; 5; 6; 7; 8; 9; 10; 12; 100; 250; 7777; 250000; 1200000].
Lemma GetBlockValue_in net h : exists k, In k subsidies /\ GetBlockValue net h = k * COIN.
Proof.
  unfold GetBlockValue. destruct net; repeat case_match_goal; (eexists; split; [|reflexivity]); cbn; tauto.
Qed.

(** Masternode payments are exact shares: although the code multiplies in
    double precision and truncates, at every height of every network the four
    levels get exactly 10, 15, 20 and 40 percent of the block value, which leaves
    the staker 15 percent; no other level has a payment. *)
Theorem masternode_payments_exact net nHeight :
  let v := GetBlockValue net nHeight in
  0 <= v <= 1200000 * COIN /\
  exists p1 p2 p3 p4,
    GetMasternodePayment 1 v = Some p1 /\ GetMasternodePayment 2 v = Some p2 /\
    GetMasternodePayment 3 v = Some p3 /\ GetMasternodePayment 4 v = Some p4 /\
    100 * p1 = 10 * v /\ 100 * p2 = 15 * v /\ 100 * p3 = 20 * v /\ 100 * p4 = 40 * v /\
    100 * (p1 + p2 + p3 + p4) = 85 * v /\
    forall level, ~ In level LEVELS -> GetMasternodePayment level v = None.
Proof.
  intros v. destruct (GetBlockValue_in net nHeight) as (k & Hk & E). unfold v. rewrite E.
  assert (Hother : forall level, ~ In level LEVELS -> forall w, GetMasternodePayment level w = None).
  { intros level Hl w. unfold LEVELS in Hl. cbn in Hl. unfold GetMasternodePayment.
    destruct (Z.eqb_spec level 1), (Z.eqb_spec level 2), (Z.eqb_spec level 3), (Z.eqb_spec level 4); try reflexivity; lia. }
  assert (Hall : forallb (fun k => let v := k * COIN in
    (0 <=? v) && (v <=? 1200000 * COIN) && forallb (fun lp => match GetMasternodePayment lp.1 v with
      | Some p => (p =? v * lp.2 / 100) && (100 * p =? lp.2 * v) | None => false end) [(1, 10); (2, 15); (3, 20); (4, 40)]) subsidies = true)
    by (vm_compute; reflexivity).
  rewrite forallb_forall in Hall. specialize (Hall k Hk). cbv zeta in Hall. cbn [forallb fst snd] in Hall.
  set (w := k * COIN) in *. clearbody w. breflect.
  destruct (GetMasternodePayment 1 w) as [p1|], (GetMasternodePayment 2 w) as [p2|], (GetMasternodePayment 3 w) as [p3|],
    (GetMasternodePayment 4 w) as [p4|]; try discriminate. breflect.
  split; [lia|]. exists p1, p2, p3, p4. repeat (split; [first [reflexivity | lia]|]). auto.
Qed.

(** Coins created up to a height on the main network. *)
Fixpoint emitted (n : nat) : Z := match n with O => 0 | S n => emitted n + GetBlockValue MAIN (Z.of_nat (S n)) end.

Lemma emitted_phase c a b : 0 <= a <= b -> (forall h, a < h <= b -> GetBlockValue MAIN h = c) ->
  emitted (Z.to_nat b) = emitted (Z.to_nat a) + (b - a) * c.
Proof.
  intros Hab. assert (Hb : 0 <= b) by lia. revert Hab. pattern b. apply natlike_ind; [..|exact Hb]; clear b Hb.
  - intros Hab _. replace a with 0 by lia. lia.
  - intros b Hb IH Hab H. destruct (Z.eq_dec a (Z.succ b)) as [->|Hne]; [lia|].
    rewrite Z2Nat.inj_succ by lia. cbn [emitted]. rewrite IH by (try lia; intros; apply H; lia).
    rewrite H by lia. lia.
Qed.

Definition phase_ends : list (Z * Z) :=
  [(1, 1200000); (50, 1); (43200, 12); (302400, 10); (561600, 8); (820800, 7); (1080000, 8); (1339200, 9); (1598400, 10);
   (2116800, 9); (2635200, 8); (3153600, 7); (4190400, 6); (5227200, 5); (7300800, 4); (11448000, 3); (41548320, 2)].
(** Blocks up to the end of a phase, by phases. *)
Fixpoint phases_total (from : Z) (l : list (Z * Z)) : Z :=
  match l with [] => 0 | (e, c) :: l => (e - from) * (c * COIN) + phases_total e l end.
Fixpoint phases_ok (from : Z) (l : list (Z * Z)) : Prop :=
  match l with
  | [] => True
  | (e, c) :: l => 0 <= from <= e /\ (forall h, from < h <= e -> GetBlockValue MAIN h = c * COIN) /\ phases_ok e l
  end.
Fixpoint last_end (from : Z) (l : list (Z * Z)) : Z := match l with [] => from | (e, _) :: l => last_end e l end.
Lemma emitted_phases l : forall from, phases_ok from l ->
  emitted (Z.to_nat (last_end from l)) = emitted (Z.to_nat from) + phases_total from l.
Proof.
  induction l as [|[e c] l IH]; intros from H; [cbn; lia|]. destruct H as (H1 & H2 & H3). cbn [phases_total last_end].
  rewrite IH, (emitted_phase (c * COIN) from e H1 H2) by exact H3. lia.
Qed.
Ltac block_value :=
  unfold GetBlockValue; repeat match goal with |- context [if ?b then _ else _] => destruct b eqn:?; [try reflexivity; exfalso; lia|] end; try reflexivity; exfalso; lia.
Lemma phases_ok_main : phases_ok 0 phase_ends.
Proof. unfold phase_ends. cbn [phases_ok]. repeat (split; [split; lia|split; [intros h Hh; block_value|]]). exact I. Qed.

(** The whole subsidy schedule of the main network emits exactly 119979289
    coins, after block 41548320 nothing more - far more than the 21000000 coins
    ([nMaxMoneyOut]) that the money range allows for one amount. *)
Theorem total_emission :
  emitted (Z.to_nat 41548320) = 119979289 * COIN /\
  (forall h, 41548320 <= h -> emitted (Z.to_nat h) = 119979289 * COIN) /\
  21000000 * COIN < emitted (Z.to_nat 41548320).
Proof.
  pose proof (emitted_phases phase_ends 0 phases_ok_main) as E. change (last_end 0 phase_ends) with 41548320 in E.
  replace (emitted (Z.to_nat 0) + phases_total 0 phase_ends) with (119979289 * COIN) in E by reflexivity.
  split; [exact E|]. split; [|rewrite E; reflexivity].
  intros h Hh. rewrite (emitted_phase 0 41548320 h), E; [lia|lia|]. intros h' Hh'. block_value.
Qed.

(** * Filling in payments moves value, it creates none *)

Lemma total_app a b : total (a ++ b) = total a + total b.
Proof. induction a as [|o a IH]; [reflexivity|]. change (nValue o + total (a ++ b) = nValue o + total a + total b). lia. Qed.
Lemma total_insert outs : forall j o o', outs !! j = Some o -> total (<[j := o']> outs) = total outs - nValue o + nValue o'.
Proof.
  induction outs as [|x outs IH]; intros [|j] o o' H; try done.
  - injection H as ->. cbn. lia.
  - specialize (IH j o o' H). change (nValue x + total (<[j := o']> outs) = nValue x + total outs - nValue o + nValue o'). lia.
Qed.

Section Conservation.
Context {crypto : ScriptCrypto}.
(** Amounts far from the limits of 64 bits. *)
Definition moderate (B : Z) (o : CTxOut) : Prop := - B <= nValue o <= B.

Lemma sub_value_spec d j outs B : 0 <= j < Z.of_nat (length outs) -> Forall (moderate B) outs -> - B <= d <= B -> 0 <= B < 2 ^ 61 ->
  exists outs', sub_value d j outs = Some outs' /\ total outs' = total outs - d /\ length outs' = length outs /\
    (forall k, k <> Z.to_nat j -> outs' !! k = outs !! k) /\ Forall (moderate (2 * B)) outs'.
Proof.
  intros Hj HF Hd HB. unfold sub_value. destruct (lookup_lt_is_Some_2 outs (Z.to_nat j)) as [o Ho]; [lia|].
  rewrite Ho. eexists. split; [done|]. pose proof (proj1 (Forall_lookup _ _) HF _ _ Ho) as Hm. unfold moderate in Hm.
  rewrite (total_insert _ _ o _ Ho). cbn [nValue]. rewrite i64_small by lia. split; [lia|]. split; [apply length_insert|]. split.
  - intros k Hk. by apply list_lookup_insert_ne.
  - apply Forall_insert; [|unfold moderate; cbn; lia]. eapply Forall_impl; [exact HF|]. unfold moderate. intros. lia.
Qed.

(** Subtracting from a run of outputs, those behind it still untouched. *)
Lemma sub_values_spec d n : forall j outs B, 0 <= j -> j + Z.of_nat n <= Z.of_nat (length outs) ->
  (forall k o, (Z.to_nat j <= k)%nat -> outs !! k = Some o -> moderate B o) -> - B <= d <= B -> 0 <= B < 2 ^ 61 ->
  exists outs', sub_values d j n outs = Some outs' /\ total outs' = total outs - Z.of_nat n * d /\ length outs' = length outs /\
    (forall k o, outs' !! k = Some o -> moderate (2 * B) o \/ outs !! k = Some o).
Proof.
  induction n as [|n IH]; intros j outs B Hj Hl HF Hd HB; cbn [sub_values].
  { exists outs. split; [done|]. split; [lia|]. split; [done|]. by right. }
  unfold sub_value. destruct (lookup_lt_is_Some_2 outs (Z.to_nat j)) as [o Ho]; [lia|]. rewrite Ho. cbn [obind].
  pose proof (HF _ _ (le_n _) Ho) as Hm. unfold moderate in Hm.
  set (o' := mkTxOut _ _ _). set (outs1 := <[Z.to_nat j := o']> outs).
  assert (Hv : nValue o' = nValue o - d) by (cbn; apply i64_small; lia).
  destruct (IH (j + 1) outs1 B) as (outs' & E & Et & El & Ek); [lia|unfold outs1; rewrite length_insert; lia| |done|done|].
  { intros k x Hk Hx. apply (HF k x); [lia|]. unfold outs1 in Hx. by rewrite list_lookup_insert_ne in Hx by lia. }
  exists outs'. split; [exact E|]. split; [rewrite Et; unfold outs1; rewrite (total_insert _ _ o _ Ho), Hv; lia|].
  split; [rewrite El; apply length_insert|]. intros k x Hx. destruct (Ek k x Hx) as [H|H]; [by left|].
  unfold outs1 in H. destruct (Nat.eq_dec (Z.to_nat j) k) as [<-|Hne].
  - rewrite list_lookup_insert_eq in H by lia. injection H as <-. left. unfold moderate. lia.
  - rewrite list_lookup_insert_ne in H by done. by right.
Qed.

Variables (net : Network) (current_masternode : Z -> option (list Z)) (m : CMasternodePayments) (nHeight : Z).
Abbreviation v := (GetBlockValue net nHeight).

(** The outputs appended for the levels add up to the total. *)
Definition fill_inv (vout : list CTxOut) (f : FillState) : Prop :=
  exists extra, fill_vout f = vout ++ extra /\ mnTransactionCount f = Z.of_nat (length extra) /\
    mn_payments_total f = total extra /\ Forall (fun o => 0 <= nValue o <= v) extra.

Lemma payment_range level p : GetMasternodePayment level v = Some p -> 0 <= p <= v.
Proof.
  intros H. destruct (GetBlockValue_in net nHeight) as (k & Hk & E). rewrite E in *.
  assert (Hall : forallb (fun k => let v := k * COIN in forallb (fun l => match GetMasternodePayment l v with
      | Some p => (0 <=? p) && (p <=? v) | None => false end) LEVELS) subsidies = true) by (vm_compute; reflexivity).
  rewrite forallb_forall in Hall. specialize (Hall k Hk). cbv zeta in Hall. rewrite forallb_forall in Hall.
  assert (Hl : In level LEVELS).
  { unfold GetMasternodePayment in H. unfold LEVELS. cbn.
    destruct (Z.eqb_spec level 1), (Z.eqb_spec level 2), (Z.eqb_spec level 3), (Z.eqb_spec level 4); try lia; discriminate. }
  specialize (Hall level Hl). cbv beta in Hall. rewrite H in Hall. breflect. lia.
Qed.
Lemma value_range : 0 <= v <= 2 ^ 47.
Proof.
  destruct (GetBlockValue_in net nHeight) as (k & Hk & E). rewrite E.
  assert (Hall : forallb (fun k => (0 <=? k * COIN) && (k * COIN <=? 2 ^ 47)) subsidies = true) by (vm_compute; reflexivity).
  rewrite forallb_forall in Hall. specialize (Hall k Hk). cbv beta in Hall. breflect. lia.
Qed.
Lemma total_bound B extra : Forall (fun o => 0 <= nValue o <= B) extra -> 0 <= total extra <= Z.of_nat (length extra) * B.
Proof. induction 1 as [|o extra Ho HF IH]; cbn [length]; [cbn; lia|]. change (total (o :: extra)) with (nValue o + total extra). lia. Qed.

Lemma fill_level_inv vout f level f' : mnTransactionCount f <= 3 -> fill_inv vout f ->
  fill_level current_masternode m nHeight v true f level = Some f' ->
  fill_inv vout f' /\ mnTransactionCount f' <= mnTransactionCount f + 1.
Proof.
  intros Hc (extra & H1 & H2 & H3 & H4) Hf. unfold fill_level in Hf.
  set (g := match GetBlockPayee m (nHeight + 1) level with Some _ => _ | None => _ end) in Hf.
  assert (Hg : fill_vout g = fill_vout f /\ mnTransactionCount g = mnTransactionCount f /\ mn_payments_total g = mn_payments_total f).
  { unfold g. by repeat case_match. }
  destruct Hg as (G1 & G2 & G3). destruct (hasPayment g).
  2:{ injection Hf as <-. split; [|lia]. exists extra. rewrite G1, G2, G3. done. }
  destruct (GetMasternodePayment level v) as [p|] eqn:Ep; [|done]. cbn in Hf. injection Hf as <-.
  pose proof (payment_range _ _ Ep) as Hp. pose proof value_range. pose proof (total_bound _ _ H4).
  split; [|cbn; lia]. exists (extra ++ [mkOut p (fill_payee g)]). cbn [fill_vout mnTransactionCount mn_payments_total].
  rewrite G1, H1, G2, H2, G3, H3, length_app, total_app. cbn [length total fold_right mkOut nValue].
  split; [by rewrite app_assoc|]. split; [lia|]. split; [rewrite i64_small by nia; lia|]. apply Forall_app. split; [done|]. apply Forall_singleton. exact Hp.
Qed.

Lemma fill_levels_inv vout levels : forall f, mnTransactionCount f + Z.of_nat (length levels) <= 4 -> Forall (fun l => In l LEVELS) levels ->
  fill_inv vout f ->
  exists f', fill_levels current_masternode m nHeight v true levels f = Some f' /\ fill_inv vout f' /\
    mnTransactionCount f' <= mnTransactionCount f + Z.of_nat (length levels).
Proof.
  induction levels as [|l levels IH]; intros f Hc HL Hi; cbn [fill_levels length] in *; [exists f; split; [done|]; split; [done|lia]|].
  apply Forall_cons in HL as [Hl HL].
  assert (Hsome : exists f1, fill_level current_masternode m nHeight v true f l = Some f1).
  { unfold fill_level. destruct (hasPayment _); [|by eexists].
    unfold LEVELS in Hl. cbn in Hl. unfold GetMasternodePayment. destruct Hl as [<-|[<-|[<-|[<-|[]]]]]; cbn; by eexists. }
  destruct Hsome as [f1 Hf1]. rewrite Hf1. cbn [obind]. destruct (fill_level_inv vout f l f1) as [Hi1 Hc1]; [lia|done|done|].
  destruct (IH f1) as (f' & H1 & H2 & H3); [lia|done|done|]. exists f'. split; [done|]. split; [done|lia].
Qed.

Variables (IsSporkActive : Z -> bool) (nDevFee : Z) (devAddr : CTxDestination).
Definition dev_fee : Z := if IsSporkActive SPORK_30_DEVELOPMENT_FEE then Z.quot (i64 (v * nDevFee)) 100 else 0.

Lemma dev_fee_range : 0 <= nDevFee <= 100 -> 0 <= dev_fee <= v.
Proof.
  intros Hd. unfold dev_fee. pose proof value_range as Hv. destruct (IsSporkActive _); [|lia].
  rewrite i64_small by nia. rewrite Z.quot_div_nonneg by nia. split; [apply Z.div_pos; nia|]. apply Z.div_le_upper_bound; nia.
Qed.

(** Taking the payments from the stake outputs. *)
Lemma take_payments vout extra paid : (2 <= length vout)%nat -> Forall (moderate (2 ^ 58)) (vout ++ extra) ->
  0 <= paid <= 2 ^ 57 -> Z.of_nat (length (vout ++ extra)) < 2 ^ 31 ->
  let i := Z.of_nat (length (vout ++ extra)) in
  let n := Z.of_nat (length extra) in
  exists outs, (if i =? n + 2 then sub_value paid (i - (n + 1)) (vout ++ extra)
    else if i >? n + 2 then
      let outputs := i - (n + 1) in
      let mnPaymentSplit := Z.quot paid outputs in
      let mnPaymentRemainder := i64 (paid - i64 (mnPaymentSplit * outputs)) in
      outs <- sub_values mnPaymentSplit 1 (Z.to_nat outputs) (vout ++ extra);;
      sub_value mnPaymentRemainder outputs outs
    else Some (vout ++ extra)) = Some outs /\ total outs = total (vout ++ extra) - paid.
Proof.
  intros H2 HF Hp Hl i n. assert (Hi : i = n + Z.of_nat (length vout)) by (unfold i, n; rewrite length_app; lia).
  destruct (Z.eqb_spec i (n + 2)) as [E|E].
  - destruct (sub_value_spec paid (i - (n + 1)) (vout ++ extra) (2 ^ 58)) as (outs & H & Ht & _); [lia|done|lia|lia|]. by exists outs.
  - rewrite Z.gtb_ltb. destruct (Z.ltb_spec (n + 2) i) as [_|X]; [|lia]. cbv zeta. set (outputs := i - (n + 1)).
    assert (Ho : 2 <= outputs) by lia. rewrite Z.quot_div_nonneg by lia. set (q := paid / outputs).
    pose proof (Z.div_mod paid outputs ltac:(lia)) as Hdm. pose proof (Z.mod_pos_bound paid outputs ltac:(lia)) as Hmod. fold q in Hdm.
    assert (Hq : 0 <= q <= paid) by (split; [apply Z.div_pos; lia|apply Z.div_le_upper_bound; nia]).
    rewrite (i64_small (q * outputs)) by nia. rewrite i64_small by nia.
    destruct (sub_values_spec q (Z.to_nat outputs) 1 (vout ++ extra) (2 ^ 58)) as (outs & H & Ht & Hlen & Hmod'); [lia|lia| |lia|lia|].
    { intros k o _ Ho'. exact (proj1 (Forall_lookup _ _) HF k o Ho'). }
    rewrite H. cbn [obind]. destruct (sub_value_spec (paid - q * outputs) outputs outs (2 ^ 59)) as (outs' & H' & Ht' & _); [lia| |lia|lia|].
    { apply Forall_lookup. intros k o Ho'. destruct (Hmod' k o Ho') as [X|X]; [unfold moderate in *; lia|].
      pose proof (proj1 (Forall_lookup _ _) HF k o X). unfold moderate in *. lia. }
    exists outs'. split; [done|]. rewrite Ht', Ht. lia.
Qed.

(** A new coinstake: all the payments come out of the stake outputs. *)
Lemma fill_stake vout : nHeight <> 0 -> 0 <= nDevFee <= 100 -> (2 <= length vout)%nat -> Z.of_nat (length vout) < 2 ^ 30 ->
  Forall (moderate (2 ^ 57)) vout -> (forall o, vout !! 1%nat = Some o -> CTxOut_IsZerocoinMint o = false) ->
  exists outs, payments_FillBlockPayee net IsSporkActive nDevFee devAddr current_masternode m vout nHeight true = Some outs /\
    total outs = total vout.
Proof.
  intros Hh Hd H2 Hlen HF Hz. unfold payments_FillBlockPayee. apply Z.eqb_neq in Hh. rewrite Hh. cbv zeta. fold dev_fee.
  destruct (fill_levels_inv vout LEVELS (mkFill vout [] true 0 0)) as (f & Hf & (extra & E1 & E2 & E3 & E4) & Hc);
    [cbn; lia|repeat (apply Forall_cons; split; [unfold LEVELS; cbn; tauto|]); done|by exists []; rewrite app_nil_r|].
  rewrite Hf. cbn [obind]. rewrite E1. destruct (lookup_lt_is_Some_2 vout 1) as [o1 Ho1]; [lia|].
  rewrite lookup_app_l by lia. rewrite Ho1. cbn [obind]. rewrite (Hz o1 Ho1), E2, E3.
  pose proof (total_bound _ _ E4) as Hb. pose proof value_range as Hv. pose proof (dev_fee_range Hd) as Hdf.
  cbn [length mnTransactionCount] in Hc. rewrite E2 in Hc. change (Z.of_nat (length LEVELS)) with 4 in Hc.
  rewrite i64_small by nia.
  destruct (take_payments vout extra (total extra + dev_fee)) as (outs & Ho & Ht); [done| |nia|rewrite length_app; lia|].
  { apply Forall_app. split; [eapply Forall_impl; [exact HF|]; unfold moderate; lia|].
    eapply Forall_impl; [exact E4|]. unfold moderate. intros o. cbn. lia. }
  cbv zeta in Ho. rewrite Ho. cbn [obind]. eexists. split; [done|]. rewrite total_app in Ht.
  unfold dev_fee in *. destruct (IsSporkActive _); [rewrite total_app; cbn [total fold_right mkOut nValue]|]; lia.
Qed.
End Conservation.

(** Filling in the payees of a new coinstake with at least one stake output
    only moves value: whatever masternodes are found for the four levels, and
    with or without the development fee, the outputs add up to what they did
    before. *)
Theorem FillBlockPayee_conserves {crypto : ScriptCrypto} (net : Network) (IsSporkActive : Z -> bool) (nDevFee : Z) (devAddr : CTxDestination)
    (current_masternode : Z -> option (list Z)) (m : CMasternodePayments) (vout : list CTxOut) (nHeight : Z) :
  nHeight <> 0 -> 0 <= nDevFee <= 100 -> (2 <= length vout)%nat -> Z.of_nat (length vout) < 2 ^ 30 ->
  Forall (fun o => - 2 ^ 57 <= nValue o <= 2 ^ 57) vout ->
  (forall o, vout !! 1%nat = Some o -> CTxOut_IsZerocoinMint o = false) ->
  exists outs, payments_FillBlockPayee net IsSporkActive nDevFee devAddr current_masternode m vout nHeight true = Some outs /\
    total outs = total vout.
Proof. apply fill_stake. Qed.

#[local] Existing Instance toy_crypto.
Definition no_payments : CMasternodePayments := mkPayments ∅ ∅ ∅.
Definition ex_stake_outs : list CTxOut := [mkOut 0 []; mkOut 700000000 [OP_1]; mkOut 700000001 [OP_1]].
Lemma FillBlockPayee_conserves_witness :
  exists outs, payments_FillBlockPayee MAIN (fun _ => true) 5 (CKeyID (repeat 9 20)) (fun l => Some [l]) no_payments ex_stake_outs 1000 true = Some outs /\
    total outs = 1400000001.
Proof.
  apply (FillBlockPayee_conserves MAIN (fun _ => true) 5 (CKeyID (repeat 9 20)) (fun l => Some [l]) no_payments ex_stake_outs 1000).
  - discriminate.
  - lia.
  - cbn. lia.
  - cbn. lia.
  - repeat (apply Forall_cons; split; [cbn; lia|]). apply Forall_nil_2.
  - intros o [= <-]. reflexivity.
Defined.

(** * What the checks enforce *)

(** The levels counted are those of the payees with enough votes, each once. *)
Definition voted (p : CMasternodePayee) : Prop := MNPAYMENTS_SIGNATURES_REQUIRED <= payee_nVotes p.
Lemma voted_levels_spec (P : Z -> Prop) v : forall levels, List.NoDup levels -> Forall P levels ->
  Forall (fun p => voted p -> P (payee_mnlevel p)) v -> List.NoDup (voted_levels v levels) /\ Forall P (voted_levels v levels).
Proof.
  induction v as [|p v IH]; intros levels HN HP HF; [done|]. apply Forall_cons in HF as [Hp HF]. cbn [voted_levels].
  destruct (Z.ltb_spec (payee_nVotes p) MNPAYMENTS_SIGNATURES_REQUIRED) as [|Hv]; [by apply IH|].
  destruct (existsb _ levels) eqn:E; [by apply IH|]. apply IH; [|constructor; [by apply Hp|done]|done].
  constructor; [|done]. intros Hin. assert (existsb (Z.eqb (payee_mnlevel p)) levels = true); [|congruence].
  apply existsb_exists. exists (payee_mnlevel p). split; [done|]. apply Z.eqb_refl.
Qed.
Lemma few_voted levels v : (length levels < 6)%nat -> Forall (fun p => voted p -> List.In (payee_mnlevel p) levels) v ->
  (Z.of_nat (length (voted_levels v [])) <? MNPAYMENTS_SIGNATURES_REQUIRED) = true.
Proof.
  intros Hl HF. destruct (voted_levels_spec (fun l => List.In l levels) v [] (List.NoDup_nil _) (List.Forall_nil _) HF) as [HN HP].
  rewrite List.Forall_forall in HP. pose proof (NoDup_incl_length HN HP) as H.
  unfold MNPAYMENTS_SIGNATURES_REQUIRED. apply Z.ltb_lt. lia.
Qed.

(** C37: payments to masternodes are not enforced as long as the payees with enough votes have
    fewer than six different levels: the test that there are enough signatures compares the
    number of levels with six, and [IsTransactionValid] accepts every transaction that pays
    the development fee, whatever it pays to masternodes and however many votes the payees
    have. The program knows the levels 0 to 4, so a level that was set can never make six; the
    member of a recorded payee is in fact left uninitialised, and what is said here holds for
    whatever values it happens to have, unless they are six different ones. *)
Theorem masternode_payments_unenforced {crypto : ScriptCrypto} (net : Network) (IsSporkActive : Z -> bool) (nDevFee : Z)
    (isDevFeeAddress : CTxDestination -> bool) (b : CMasternodeBlockPayees) (vout : list CTxOut) (levels : list Z) :
  (length levels < 6)%nat -> Forall (fun p => voted p -> List.In (payee_mnlevel p) levels) (vecPayments b) ->
  block_payees_IsTransactionValid net IsSporkActive nDevFee isDevFeeAddress b vout =
    (if IsSporkActive SPORK_30_DEVELOPMENT_FEE
     then dev_fee_found isDevFeeAddress (Z.quot (i64 (GetBlockValue net (bp_nBlockHeight b - 1) * nDevFee)) 100) vout false
     else Some true).
Proof.
  intros Hl HF. unfold block_payees_IsTransactionValid. cbv zeta. rewrite (few_voted levels) by done.
  destruct (IsSporkActive _); [|done]. destruct (dev_fee_found _ _ _ _) as [[]|]; done.
Qed.
Lemma masternode_payments_unenforced_witness :
  let b := mkBlockPayees 100 [mkPayee [OP_1] 1 10; mkPayee [OP_2] 2 10; mkPayee [OP_3] 3 10; mkPayee [OP_4] 32767 10] in
  block_payees_IsTransactionValid MAIN (fun _ => false) 5 (fun _ => false) b [] = Some true.
Proof.
  intros b. apply (masternode_payments_unenforced MAIN (fun _ => false) 5 (fun _ => false) b [] [1; 2; 3; 32767]).
  - cbn. lia.
  - repeat (apply Forall_cons; split; [intros _; cbn; tauto|]). apply Forall_nil_2.
Defined.

Section DevFee.
Context {crypto : ScriptCrypto}.
Variable isDevFeeAddress : CTxDestination -> bool.
Definition pays_dev (o : CTxOut) : bool :=
  match destination_of (scriptPubKey o) with Some d => isDevFeeAddress d | None => false end.

Lemma destination_of_total s : exists d, destination_of s = Some d.
Proof.
  unfold destination_of, ExtractDestination. destruct (Solver s) as [[t v]|] eqn:E; [|by eexists].
  pose proof (Solver_type _ _ _ E) as H.
  assert (Hr : forall n k, (n + k <= length s)%nat -> length (range s n (n + k)) = k).
  { intros n k Hk. unfold range. rewrite length_firstn, length_skipn. lia. }
  destruct t; [done|..].
  - destruct H as (k & _ & ->). destruct (CPubKey_IsValid _); by eexists.
  - destruct H as (h & Hh & ->). apply MatchPayToPubkeyHash_iff in Hh as [Hh _]. unfold uint160_of, size. rewrite Hh. by eexists.
  - destruct H as (Hp & ->). apply IsPayToScriptHash_iff in Hp as (h & Hh & ->). rewrite range_script_hash by done.
    unfold uint160_of, size. rewrite Hh. by eexists.
  - destruct H as (k & keys & _ & ->). by eexists.
  - destruct H as [_ ->]. by eexists.
  - destruct H as (a & b & Hab & ->). unfold MatchPayToColdStaking in Hab. destruct (IsPayToColdStaking s) eqn:Ec; [|done].
    unfold IsPayToColdStaking in Ec. breflect. injection Hab as <- <-. cbn [nth].
    unfold size in *. pose proof (Hr 28 20)%nat as Hr'. cbn [Nat.add] in Hr'. unfold uint160_of, size. rewrite Hr' by lia. by eexists.
Qed.

(** With all payments to the address of one amount, the check finds the fee
    exactly when there is a payment and the amount is the expected one. *)
Lemma dev_fee_found_spec paid fund outs : forall b, Forall (fun o => pays_dev o = true -> nValue o = paid) outs ->
  dev_fee_found isDevFeeAddress fund outs b = Some (b || (paid =? fund) && existsb pays_dev outs).
Proof.
  induction outs as [|o outs IH]; intros b HF; cbn [dev_fee_found existsb]; [by rewrite andb_false_r, orb_false_r|].
  apply Forall_cons in HF as [Ho HF]. unfold pays_dev at 1. unfold pays_dev in Ho.
  destruct (destination_of_total (scriptPubKey o)) as [d Hd]. rewrite Hd in Ho |- *. cbn [obind]. destruct (isDevFeeAddress d).
  - rewrite (Ho eq_refl). cbn [orb]. destruct (Z.eqb_spec paid fund) as [E|E]; cbn [negb andb orb].
    + rewrite IH by done. by rewrite orb_true_r.
    + by rewrite orb_false_r.
  - rewrite IH by done. done.
Qed.
End DevFee.

(** The development fee is computed one block apart: outputs that pay the fee
    of their own height, as [FillBlockPayee] writes it, pass [IsTransactionValid]
    at that height exactly when the block value is that of the block before -
    the first block of every phase, 43201 for one, fails the check. *)
Theorem dev_fee_check_exact {crypto : ScriptCrypto} (IsSporkActive : Z -> bool) (nDevFee : Z) (isDevFeeAddress : CTxDestination -> bool)
    (b : CMasternodeBlockPayees) (vout : list CTxOut) :
  let h := bp_nBlockHeight b in
  IsSporkActive SPORK_30_DEVELOPMENT_FEE = true -> nDevFee = 5 ->
  Forall (fun p => 0 <= payee_mnlevel p <= 4) (vecPayments b) ->
  existsb (pays_dev isDevFeeAddress) vout = true ->
  Forall (fun o => pays_dev isDevFeeAddress o = true -> nValue o = dev_fee MAIN h IsSporkActive nDevFee) vout ->
  block_payees_IsTransactionValid MAIN IsSporkActive nDevFee isDevFeeAddress b vout =
    Some (GetBlockValue MAIN h =? GetBlockValue MAIN (h - 1)) /\
  (h = 43201 -> block_payees_IsTransactionValid MAIN IsSporkActive nDevFee isDevFeeAddress b vout = Some false).
Proof.
  intros h Hs Hd HF Hex Hall.
  assert (E : block_payees_IsTransactionValid MAIN IsSporkActive nDevFee isDevFeeAddress b vout =
    Some (GetBlockValue MAIN h =? GetBlockValue MAIN (h - 1))); [|split; [exact E|intros Hh; rewrite E, Hh; reflexivity]].
  unfold block_payees_IsTransactionValid. fold h. cbv zeta. rewrite Hs.
  rewrite (few_voted [0; 1; 2; 3; 4]);
    [|cbn; lia|eapply Forall_impl; [exact HF|]; intros p Hp _; cbn in *; lia].
  rewrite (dev_fee_found_spec _ (dev_fee MAIN h IsSporkActive nDevFee)) by done. rewrite Hex, andb_true_r. cbn [obind orb].
  unfold dev_fee. rewrite Hs, Hd.
  destruct (GetBlockValue_in MAIN h) as (k & Hk & ->), (GetBlockValue_in MAIN (h - 1)) as (k' & Hk' & ->).
  assert (Hq : forall k, In k subsidies -> Z.quot (i64 (k * COIN * 5)) 100 = k * 5000000).
  { intros x Hx. assert (Hc : forallb (fun k => Z.quot (i64 (k * COIN * 5)) 100 =? k * 5000000) subsidies = true) by (vm_compute; reflexivity).
    rewrite forallb_forall in Hc. specialize (Hc x Hx). by apply Z.eqb_eq in Hc. }
  rewrite !Hq by done. f_equal. unfold COIN.
  destruct (Z.eqb_spec (k * 5000000) (k' * 5000000)), (Z.eqb_spec (k * 100000000) (k' * 100000000)); try done; lia.
Qed.
Lemma dev_fee_check_exact_witness :
  let dev := CKeyID (repeat 9 20) in
  let isDev d := match d with CKeyID h => list_eqb h (repeat 9 20) | _ => false end in
  let outs := [mkOut 0 []; mkOut (dev_fee MAIN 43201 (fun _ => true) 5) (GetScriptForDestination dev)] in
  block_payees_IsTransactionValid MAIN (fun _ => true) 5 isDev (mkBlockPayees 43201 []) outs = Some false.
Proof.
  intros dev isDev outs.
  apply (dev_fee_check_exact (fun _ => true) 5 isDev (mkBlockPayees 43201 []) outs);
    [reflexivity|reflexivity|apply Forall_nil_2|vm_compute; reflexivity| |reflexivity].
  apply Forall_cons; split; [intros H; vm_compute in H; discriminate|].
  apply Forall_cons; split; [reflexivity|]. apply Forall_nil_2.
Defined.
