(* ===== verification/BlockCheck.v ===== *)
(** Checking a block on its own (src/validation.cpp, src/blocksignature.cpp). *)
From Stdlib Require Import ZArith Lia String List Bool.
From stdpp Require Import base gmap list.
From S2P Require Import Prelude Uint256 Consensus Pow Serialize Script Interpreter Codecs Transaction TxVerify SigHash Merkle Standard Block Payments.
Import ListNotations.
Local Open Scope Z_scope.
Local Open Scope passion_scope.

Definition MAX_BLOCK_SIZE_CURRENT : Z := 2000000.
Definition MAX_BLOCK_SIZE_LEGACY : Z := 1000000.
Definition MAX_BLOCK_SHIELDED_TXES_SIZE : Z := 750000.
Definition MAX_BLOCK_SIGOPS_CURRENT : Z := MAX_BLOCK_SIZE_CURRENT / 50.
Definition MAX_BLOCK_SIGOPS_LEGACY : Z := MAX_BLOCK_SIZE_LEGACY / 50.
Definition SPORK_19_COLDSTAKING_MAINTENANCE : Z := 10019.

(** The words of a hash as an arithmetic number. *)
Definition hash_words (b : list Z) : list Z := map (fun i => le_value (firstn 4 (skipn (4 * i) b))) (seq 0 8).

(** The chain parameters used beside the consensus ones. *)
Record ChainParams := mkChainParams {
  network : Network;
  chain_consensus : Params;
  hashGenesisBlock : list Z;
  ZC_TimeStart : Z;
  height_last_ZC_WrappedSerials : Z;
  height_last_invalid_UTXO : Z;
  cp_nDevFee : Z
}.

(** What the checks read of the rest of the node: the active chain and the block
    index, sporks, masternode synchronization, payment votes and budgets, the
    transaction index. *)
Record NodeState := mkNode {
  activeTip : option (list Z * Z);
  blockIndexHeight : list Z -> option Z;
  initialBlockDownload : bool;
  sporkActive : Z -> bool;
  mnSynced : bool;
  mnPayments : CMasternodePayments;
  mnBudget : BudgetManager;
  devFeeAddress : CTxDestination -> bool;
  findTransaction : list Z -> option CTransaction;
  verifyZerocoinSignature : bool
}.

Section CheckBlock.
Context {babi : BlockAbi} `{SphLib} {crypto : ScriptCrypto} {sig : SigCrypto}.
Variables (chain : ChainParams) (zc : ZerocoinEnv) (zerocoin_pubkey : CTxIn -> option (list Z)) (node : NodeState).
Abbreviation consensus := (chain_consensus chain).
Abbreviation BlockHash b := (CBlockHeader_GetHash (header b)).

(** * Signature *)

(** The key behind [n] bytes and its push opcode, nothing at the very end.  [None]: the
    position is behind the end, and the first byte is read there. *)
Definition key_from (scriptSig : CScript) (n : Z) : option (list Z) :=
  if n + 1 >? size scriptSig then None else Some (CPubKey (skipn (Z.to_nat (n + 1)) scriptSig)).
(** [None]: a byte outside the script is read, or the coinstake has no such input or
    output. *)
Definition staking_key (tx : CTransaction) : option (option (list Z)) :=
  txin <- vin tx !! 0%nat;;
  if CTxIn_IsZerocoinSpend txin then k <- zerocoin_pubkey txin;; Some (Some k)
  else
    txout <- vout tx !! 1%nat;;
    match Solver (scriptPubKey txout) with
    | None => Some None
    | Some (TX_PUBKEY, k :: _) => Some (Some (CPubKey k))
    | Some (TX_PUBKEYHASH, _) =>
        if size (scriptSig txin) =? 73 then Some None
        else
          b <- scriptSig txin !! 0%nat;;
          k <- key_from (scriptSig txin) (1 + b);; Some (Some k)
    | Some (TX_COLDSTAKE, _) =>
        b <- scriptSig txin !! 0%nat;;
        let start := 1 + b in
        b <- scriptSig txin !! Z.to_nat start;;
        k <- key_from (scriptSig txin) (start + (1 + b));; Some (Some k)
    | Some _ => Some (Some [])
    end.
Definition CheckBlockSignature (block : CBlock) : option bool :=
  if IsProofOfWork block then Some (match vchBlockSig block with [] => true | _ => false end)
  else match vchBlockSig block with
  | [] => Some false
  | sig =>
      tx <- vtx block !! 1%nat;;
      k <- staking_key tx;;
      match k with
      | None => Some false
      | Some pubkey => if negb (CPubKey_IsValid pubkey) then Some false else Some (Verify pubkey (BlockHash block) sig)
      end
  end.

(** * Cold staking *)

Definition CheckColdStakeFreeOutput (tx : CTransaction) (nHeight : Z) : option bool :=
  if negb (HasP2CSOutputs tx) then Some true
  else
    let outs := Z.of_nat (length (vout tx)) in
    lastOut <- last (vout tx);;
    if outs <? 3 then Some true
    else
      prevOut <- vout tx !! Z.to_nat (outs - 2);;
      if list_eqb (scriptPubKey lastOut) (scriptPubKey prevOut) then Some true
      else
        let value := GetBlockValue (network chain) nHeight in
        if existsb (fun mnlevel => match GetMasternodePayment mnlevel value with Some p => nValue lastOut =? p | None => false end) LEVELS
        then Some true
        else if match network chain with REGTEST => true | _ => false end then Some false
        else if negb (mnSynced node) then
          txin <- vin tx !! 0%nat;;
          match findTransaction node (out_hash (prevout txin)) with
          | None => Some false
          | Some txPrev =>
              o <- vout txPrev !! Z.to_nat (out_n (prevout txin));;
              let amtIn := i64 (nValue o + value) in
              let amtOut := fold_left (fun a o => i64 (a + nValue o)) (firstn (Z.to_nat (outs - 2)) (skipn 1 (vout tx))) 0 in
              Some (amtOut =? amtIn)
          end
        else if IsBudgetPaymentBlock (mnBudget node) nHeight then Some (sporkActive node SPORK_13_ENABLE_SUPERBLOCKS)
        else Some false.

(** * The block *)

Fixpoint shielded_size (txs : list CTransaction) (n : Z) : Z :=
  match txs with
  | [] => n
  | tx :: txs => shielded_size txs (if IsShieldedTx tx then u32 (n + GetTotalSize tx) else n)
  end.
Definition GetTotalShieldedTxSize (block : CBlock) : Z := shielded_size (vtx block) 0.

(** A rejection that may be due to corrupted data. *)
Definition reject_corrupt (level code : Z) (reason : string) : Check := fun st =>
  Some (DoS level false code reason true EmptyString st).

Definition check_merkle_root (fCheckMerkleRoot : bool) (block : CBlock) : Check := fun st =>
  if fCheckMerkleRoot then
    r <- BlockMerkleRoot (vtx block);;
    if negb (list_eqb (hashMerkleRoot (header block)) (fst r)) then reject_corrupt 100 REJECT_INVALID "bad-txnmrklroot" st
    else if snd r then reject_corrupt 100 REJECT_INVALID "bad-txns-duplicate" st
    else accept st
  else accept st.

Definition first_is_coinbase (txs : list CTransaction) : bool := match txs with tx :: _ => IsCoinBase tx | [] => false end.
Definition empty_coinbase (txs : list CTransaction) : bool :=
  match txs with tx :: _ => match vout tx with [o] => IsEmpty o | _ => false end | [] => false end.

Definition check_size (block : CBlock) : Check := fun st =>
  let n := Z.of_nat (length (vtx block)) in
  if (n =? 0) || (n >? MAX_BLOCK_SIZE_CURRENT) || (GetBlockSize block >? MAX_BLOCK_SIZE_CURRENT)
  then reject 100 REJECT_INVALID "bad-blk-length" st
  else if (GetBlockSize block >? MAX_BLOCK_SHIELDED_TXES_SIZE) && (GetTotalShieldedTxSize block >? MAX_BLOCK_SHIELDED_TXES_SIZE)
  then reject 100 REJECT_INVALID "bad-blk-shielded-size" st
  else accept st.

(** Coinbase first, then the coinstake of a proof-of-stake block, then neither. *)
Definition check_order (block : CBlock) : Check := fun st =>
  if negb (first_is_coinbase (vtx block)) then reject 100 REJECT_INVALID "bad-cb-missing" st
  else if existsb IsCoinBase (skipn 1 (vtx block)) then reject 100 REJECT_INVALID "bad-cb-multiple" st
  else if IsProofOfStake block then
    if negb (empty_coinbase (vtx block)) then reject 100 REJECT_INVALID "bad-cb-pos" st
    else if negb (second_is_coinstake (vtx block)) then reject 100 REJECT_INVALID "bad-cs-missing" st
    else if existsb IsCoinStake (skipn 2 (vtx block)) then reject 100 REJECT_INVALID "bad-cs-multiple" st
    else accept st
  else accept st.

(** The height the block would have; 0 when its parent is not known. *)
Definition next_height (tip : list Z * Z) (block : CBlock) : Z :=
  if list_eqb (fst tip) (hashPrevBlock (header block)) then i32 (snd tip + 1)
  else match blockIndexHeight node (hashPrevBlock (header block)) with Some h => i32 (h + 1) | None => 0 end.

(** The masternode checks: the verdict, whether the block goes to
    [mapRejectedBlocks], and whether cold staking is active. *)
Definition check_payees (block : CBlock) (st : CValidationState) : option (bool * CValidationState * bool * bool) :=
  match activeTip node with
  | None => Some (true, st, false, true)
  | Some tip =>
      let nHeight := next_height tip block in
      if negb (nHeight =? 0) && negb (initialBlockDownload node) then
        free <- (if IsProofOfStake block then tx <- vtx block !! 1%nat;; CheckColdStakeFreeOutput tx nHeight else Some true);;
        if negb free then
          let '(b, st) := DoS 0 false REJECT_INVALID "bad-p2cs-outs" false EmptyString st in Some (b, st, true, true)
        else
          let cold := negb (sporkActive node SPORK_19_COLDSTAKING_MAINTENANCE) in
          let isPoSActive := NetworkUpgradeActive consensus nHeight UPGRADE_POS in
          txNew <- (if negb (mnSynced node) then Some CMutableTransaction_default else vtx block !! (if isPoSActive then 1 else 0)%nat);;
          ok <- IsBlockPayeeValid (network chain) (sporkActive node) (cp_nDevFee chain) (devFeeAddress node) (mnBudget node) (mnSynced node)
                  (mnPayments node) txNew (BlockHash block) nHeight;;
          if negb ok then
            let '(b, st) := DoS 0 false REJECT_INVALID "bad-cb-payee" false EmptyString st in Some (b, st, true, cold)
          else Some (true, st, false, cold)
      else Some (true, st, false, true)
  end.

Definition chain_height : Z := match activeTip node with Some (_, h) => h | None => -1 end.
Definition isBlockBetweenFakeSerialAttackRange (nHeight : Z) : bool :=
  match network chain with MAIN => nHeight <=? height_last_ZC_WrappedSerials chain | _ => false end.

Fixpoint check_txs (fZerocoinActive fFakeSerialAttack fColdStakingActive fSaplingActive : bool) (txs : list CTransaction) : Check := fun st =>
  match txs with
  | [] => accept st
  | tx :: txs =>
      r <- CheckTransaction consensus zc tx fZerocoinActive (verifyZerocoinSignature node) fFakeSerialAttack fColdStakingActive fSaplingActive st;;
      let '(ok, st) := r in
      if negb ok then Some (Invalid false (chRejectCode st) (strRejectReason st) EmptyString st)
      else if fSaplingActive && ContainsZerocoins tx then reject_plain 100 st
      else check_txs fZerocoinActive fFakeSerialAttack fColdStakingActive fSaplingActive txs st
  end.

Definition check_sigops (fZerocoinActive : bool) (block : CBlock) : Check := fun st =>
  nSigOps <- add_sigops (map GetLegacySigOpCount (vtx block)) 0;;
  if nSigOps >? (if fZerocoinActive then MAX_BLOCK_SIGOPS_CURRENT else MAX_BLOCK_SIGOPS_LEGACY)
  then reject_corrupt 100 REJECT_INVALID "bad-blk-sigops" st
  else accept st.

Definition check_signature (fCheckSig : bool) (block : CBlock) : Check := fun st =>
  if fCheckSig then
    ok <- CheckBlockSignature block;;
    if negb ok then reject_corrupt 100 REJECT_INVALID "bad-PoS-sig" st else accept st
  else accept st.

Definition check_pow (fCheckPOW : bool) (block : CBlock) : Check := fun st =>
  if negb (IsProofOfStake block) && fCheckPOW
     && negb (CheckProofOfWork (match network chain with REGTEST => true | _ => false end) consensus (hash_words (BlockHash block)) (nBits (header block)))
  then reject 50 REJECT_INVALID "high-hash" st
  else accept st.

(** Verdict, state, the flag [fChecked] and whether the block was noted as rejected. *)
Definition CheckBlock (block : CBlock) (fCheckPOW fCheckMerkleRoot fCheckSig : bool) (st : CValidationState)
    : option (bool * CValidationState * bool * bool) :=
  if fChecked block then Some (true, st, true, false)
  else
    r <- and_then (check_pow fCheckPOW block) (and_then (check_merkle_root fCheckMerkleRoot block)
         (and_then (check_size block) (check_order block))) st;;
    if negb (fst r) then Some (false, snd r, false, false)
    else
      let fZerocoinActive := GetBlockTime (header block) >? ZC_TimeStart chain in
      p <- check_payees block (snd r);;
      let '(ok, st, rejected, fColdStakingActive) := p in
      if negb ok then Some (false, st, false, rejected)
      else
        let blockHeight := i32 (chain_height + 1) in
        let fSaplingActive := NetworkUpgradeActive consensus blockHeight UPGRADE_V5_0 in
        r <- and_then (check_txs fZerocoinActive (isBlockBetweenFakeSerialAttackRange blockHeight) fColdStakingActive fSaplingActive (vtx block))
             (and_then (check_sigops fZerocoinActive block) (check_signature fCheckSig block)) st;;
        Some (fst r, snd r, fst r && fCheckPOW && fCheckMerkleRoot && fCheckSig, false).
End CheckBlock.

(** * What an accepted block satisfies *)

Section Accepted.
Context {babi : BlockAbi} `{SphLib} {crypto : ScriptCrypto} {sig : SigCrypto}.
Variables (chain : ChainParams) (zc : ZerocoinEnv) (zerocoin_pubkey : CTxIn -> option (list Z)) (node : NodeState).
Abbreviation consensus := (chain_consensus chain).

Lemma reject_corrupt_true level code reason st st' : reject_corrupt level code reason st = Some (true, st') -> False.
Proof. unfold reject_corrupt, DoS. destruct (mode st); discriminate. Qed.

Record order_ok (block : CBlock) : Prop := {
  coinbase_first : first_is_coinbase (vtx block) = true;
  coinbase_once : Forall (fun tx => IsCoinBase tx = false) (skipn 1 (vtx block));
  stake_coinbase_empty : IsProofOfStake block = true -> empty_coinbase (vtx block) = true;
  coinstake_once : IsProofOfStake block = true -> Forall (fun tx => IsCoinStake tx = false) (skipn 2 (vtx block))
}.
Lemma existsb_Forall {A} (f : A -> bool) l : existsb f l = false -> Forall (fun x => f x = false) l.
Proof. induction l as [|x l IH]; [constructor|]. cbn. intros [H1 H2]%orb_false_iff. by constructor; [|apply IH]. Qed.

Lemma check_order_true block st st' : check_order block st = Some (true, st') -> order_ok block /\ st' = st.
Proof.
  unfold check_order. intros E.
  destruct (first_is_coinbase _) eqn:E1; [|by apply reject_true in E]. cbn [negb] in E.
  destruct (existsb IsCoinBase _) eqn:E2; [by apply reject_true in E|].
  destruct (IsProofOfStake block) eqn:E3.
  - destruct (empty_coinbase _) eqn:E4; [|by apply reject_true in E]. cbn [negb] in E.
    destruct (second_is_coinstake _); [|by apply reject_true in E]. cbn [negb] in E.
    destruct (existsb IsCoinStake _) eqn:E6; [by apply reject_true in E|]. apply accept_true in E. split; [|done].
    split; [done|by apply existsb_Forall|done|intros _; by apply existsb_Forall].
  - apply accept_true in E. split; [|done]. split; [done|by apply existsb_Forall|congruence|congruence].
Qed.

Definition size_ok (block : CBlock) : Prop :=
  vtx block <> [] /\ Z.of_nat (length (vtx block)) <= MAX_BLOCK_SIZE_CURRENT /\ GetBlockSize block <= MAX_BLOCK_SIZE_CURRENT /\
  (GetBlockSize block <= MAX_BLOCK_SHIELDED_TXES_SIZE \/ GetTotalShieldedTxSize block <= MAX_BLOCK_SHIELDED_TXES_SIZE).
Lemma check_size_true block st st' : check_size block st = Some (true, st') -> size_ok block /\ st' = st.
Proof.
  unfold check_size. intros E. destruct (_ || _ || _) eqn:E1 in E; [by apply reject_true in E|].
  destruct (_ && _) eqn:E2 in E; [by apply reject_true in E|]. apply accept_true in E. split; [|done].
  apply orb_false_iff in E1 as [[E1 E0]%orb_false_iff E3]. rewrite Z.gtb_ltb, Z.ltb_ge in E0, E3.
  split; [intros Hn; by rewrite Hn in E1|]. split; [done|]. split; [done|].
  apply andb_false_iff in E2. rewrite !Z.gtb_ltb, !Z.ltb_ge in E2. done.
Qed.

Lemma check_merkle_root_true block st st' : check_merkle_root true block st = Some (true, st') ->
  BlockMerkleRoot (vtx block) = Some (hashMerkleRoot (header block), false) /\ st' = st.
Proof.
  unfold check_merkle_root. intros E. apply obind_Some in E as ([r m] & Hr & E). cbn [fst snd] in E.
  destruct (list_eqb _ r) eqn:El; [|by apply reject_corrupt_true in E]. cbn [negb] in E. apply list_eqb_eq in El.
  destruct m; [by apply reject_corrupt_true in E|]. apply accept_true in E. rewrite El. split; [exact Hr|exact E].
Qed.

Lemma check_txs_true zact fake cold sact txs : forall st st',
  check_txs chain zc node zact fake cold sact txs st = Some (true, st') ->
  Forall (fun tx => (exists st st', CheckTransaction consensus zc tx zact (verifyZerocoinSignature node) fake cold sact st = Some (true, st')) /\
                    (sact = true -> ContainsZerocoins tx = false)) txs.
Proof.
  induction txs as [|tx txs IH]; intros st st' E; [constructor|]. cbn [check_txs] in E.
  apply obind_Some in E as ([ok st1] & Hc & E). destruct ok; cbn [negb] in E.
  2:{ unfold Invalid, DoS in E. destruct (mode st1); discriminate. }
  destruct (sact && ContainsZerocoins tx) eqn:Ez; [by apply reject_true in E|]. constructor; [|by eapply IH].
  split; [by exists st, st1|]. intros ->. exact Ez.
Qed.

Lemma check_payees_true block st st' rej cold : check_payees chain node block st = Some (true, st', rej, cold) -> st' = st.
Proof.
  unfold check_payees. intros E. destruct (activeTip node); [|by injection E]. cbv zeta in E.
  destruct (_ && _) in E; [|by injection E]. apply obind_Some in E as (free & _ & E). destruct free; cbn [negb] in E.
  2:{ unfold DoS in E. destruct (mode st); discriminate. }
  apply obind_Some in E as (tx & _ & E). apply obind_Some in E as (ok & _ & E). destruct ok; cbn [negb] in E.
  - by injection E.
  - unfold DoS in E. destruct (mode st); discriminate.
Qed.

(** Everything an accepted block satisfies that later checks rely on. *)
Record block_valid (block : CBlock) : Prop := {
  valid_order : order_ok block;
  valid_size : size_ok block;
  valid_txs : Forall (fun tx => exists zact fake cold sact st st',
    CheckTransaction consensus zc tx zact (verifyZerocoinSignature node) fake cold sact st = Some (true, st') /\
    sact = NetworkUpgradeActive consensus (i32 (chain_height node + 1)) UPGRADE_V5_0 /\
    (sact = true -> ContainsZerocoins tx = false)) (vtx block)
}.

Lemma CheckBlock_true block pow root sg st st' checked rej : fChecked block = false ->
  CheckBlock chain zc zerocoin_pubkey node block pow root sg st = Some (true, st', checked, rej) ->
  block_valid block /\
  (root = true -> BlockMerkleRoot (vtx block) = Some (hashMerkleRoot (header block), false)) /\
  (pow = true -> IsProofOfStake block = false ->
     CheckProofOfWork (match network chain with REGTEST => true | _ => false end) consensus
       (hash_words (CBlockHeader_GetHash (header block))) (nBits (header block)) = true) /\
  (exists n, add_sigops (map GetLegacySigOpCount (vtx block)) 0 = Some n /\ n <= MAX_BLOCK_SIGOPS_CURRENT) /\
  (sg = true -> CheckBlockSignature zerocoin_pubkey block = Some true) /\
  checked = pow && root && sg.
Proof.
  intros Hf E. unfold CheckBlock in E. rewrite Hf in E. apply obind_Some in E as ([ok st1] & H1 & E). cbn [fst snd] in E.
  destruct ok; [|discriminate]. cbn [negb] in E.
  apply and_then_true in H1 as (sta & Hpow & H1). apply and_then_true in H1 as (stb & Hroot & H1).
  apply and_then_true in H1 as (stc & Hsize & Horder). apply check_order_true in Horder as [Horder ->].
  apply check_size_true in Hsize as [Hsize ->].
  apply obind_Some in E as ([[[ok st2] rejected] cold] & Hp & E). destruct ok; [|discriminate]. cbn [negb] in E.
  apply obind_Some in E as ([ok st3] & H3 & E). cbn [fst snd] in E. injection E as -> <- <- <-.
  apply and_then_true in H3 as (std & Htx & H3). apply and_then_true in H3 as (ste & Hsig & H3).
  apply check_txs_true in Htx. split; [|split; [|split; [|split; [|split]]]].
  - split; [done|done|]. eapply Forall_impl; [exact Htx|]. intros tx [(s1 & s2 & Hc) Hz]. by eexists _, _, _, _, s1, s2.
  - intros ->. by apply check_merkle_root_true in Hroot as [? _].
  - intros -> Hpos. unfold check_pow in Hpow. rewrite Hpos in Hpow. cbn [negb andb] in Hpow.
    destruct (CheckProofOfWork _ _ _ _); [done|]. by apply reject_true in Hpow.
  - unfold check_sigops in Hsig. apply obind_Some in Hsig as (n & Hn & Hsig). exists n. split; [done|].
    destruct (n >? _) eqn:En; [by apply reject_corrupt_true in Hsig|]. rewrite Z.gtb_ltb, Z.ltb_ge in En.
    assert (MAX_BLOCK_SIGOPS_LEGACY <= MAX_BLOCK_SIGOPS_CURRENT) by (by vm_compute). destruct (_ >? ZC_TimeStart chain); lia.
  - intros ->. unfold check_signature in H3. apply obind_Some in H3 as (ok & Hok & H3). destruct ok; [done|].
    by apply reject_corrupt_true in H3.
  - done.
Qed.
End Accepted.

(** C20: a block that passes the full [CheckBlock] starts with its only coinbase, has exactly
    one coinstake, in second place behind an empty coinbase, when it is a proof-of-stake
    block, respects the limits on size and signature operations, contains only transactions
    that pass [CheckTransaction], meets the proof of work or is signed by the key of its
    coinstake; and its header commits to its transactions: any other accepted block with that
    Merkle root and a tree of the same height has the same transaction ids, unless the double
    SHA-256 collides. *)
Theorem CheckBlock_accepts {babi : BlockAbi} `{SphLib} {crypto : ScriptCrypto} {sig : SigCrypto} (chain : ChainParams) (zc : ZerocoinEnv)
    (zerocoin_pubkey : CTxIn -> option (list Z)) (node : NodeState) (block : CBlock) (st st' : CValidationState) (checked rejected : bool) :
  fChecked block = false ->
  CheckBlock chain zc zerocoin_pubkey node block true true true st = Some (true, st', checked, rejected) ->
  checked = true /\ order_ok block /\ size_ok block /\
  Forall (fun tx => exists zact fake cold sact st st',
    CheckTransaction (chain_consensus chain) zc tx zact (verifyZerocoinSignature node) fake cold sact st = Some (true, st')) (vtx block) /\
  (exists n, add_sigops (map GetLegacySigOpCount (vtx block)) 0 = Some n /\ n <= MAX_BLOCK_SIGOPS_CURRENT) /\
  (IsProofOfStake block = false ->
     CheckProofOfWork (match network chain with REGTEST => true | _ => false end) (chain_consensus chain)
       (hash_words (CBlockHeader_GetHash (header block))) (nBits (header block)) = true) /\
  CheckBlockSignature zerocoin_pubkey block = Some true /\
  forall block' st0 st0' checked' rejected', fChecked block' = false ->
    CheckBlock chain zc zerocoin_pubkey node block' true true true st0 = Some (true, st0', checked', rejected') ->
    hashMerkleRoot (header block') = hashMerkleRoot (header block) ->
    height (map GetHash (vtx block')) = height (map GetHash (vtx block)) ->
    map GetHash (vtx block') = map GetHash (vtx block) \/ merkle_collision.
Proof.
  intros Hf E. destruct (CheckBlock_true _ _ _ _ _ _ _ _ _ _ _ _ Hf E) as ([Ho Hs Ht] & Hroot & Hpow & Hops & Hsig & Hc).
  split; [done|]. split; [done|]. split; [done|]. split.
  { eapply Forall_impl; [exact Ht|]. intros tx (a & b & c & d & s & s' & H1 & _). by exists a, b, c, d, s, s'. }
  split; [done|]. split; [by apply Hpow|]. split; [by apply Hsig|].
  intros block' st0 st0' checked' rejected' Hf' E' Er Eh.
  destruct (CheckBlock_true _ _ _ _ _ _ _ _ _ _ _ _ Hf' E') as ([_ Hs' _] & Hroot' & _).
  assert (Hlen : forall b : CBlock, size_ok b -> 0 < Z.of_nat (length (map GetHash (vtx b))) < 2 ^ 31).
  { intros b (Hne & Hl & _). rewrite length_map. unfold MAX_BLOCK_SIZE_CURRENT in Hl. destruct (vtx b); [done|]. cbn [length] in *. lia. }
  assert (Hh : forall txs, hashes (map GetHash txs)).
  { intros txs. apply List.Forall_forall. intros x Hx. apply in_map_iff in Hx as (tx & <- & _). apply SHA256_digest. }
  apply (roots_bind _ _ (hashMerkleRoot (header block)));
    [by apply Hlen|by apply Hlen|done|done|done|rewrite <- Er; by apply Hroot'|by apply Hroot].
Qed.

(** A block of the regression-test network with a single coinbase. *)
Definition ex_chain : ChainParams := mkChainParams REGTEST ex_params (repeat 5 32) 0 0 0 5.
Definition no_budget : BudgetManager :=
  {| GetExpectedPayeeAmount := fun _ => None; IsBudgetPaymentBlock := fun _ => false; budget_IsTransactionValid := fun _ _ _ => InValid |}.
Definition ex_node : NodeState :=
  mkNode None (fun _ => None) false (fun _ => false) false no_payments no_budget (fun _ => false) (fun _ => None) false.
Definition ex_cb_tx : CTransaction :=
  mkTx 1 0 [mkTxIn (mkOutPoint (repeat 0 32) 0xffffffff) [1; 12] 0] [mkTxOut 900 [OP_1] (-10)] 0 None None.

#[local] Existing Instances blockAbi64 toy_sph toy_crypto toy_sig.
Definition ex_cb_block : CBlock :=
  mkBlock (mkHeader 8 (repeat 1 32) (GetHash ex_cb_tx) 1600000000 0x207fffff 7 (repeat 0 32) (repeat 3 32)) [ex_cb_tx] [] false.
Lemma CheckBlock_accepts_witness :
  CheckBlock ex_chain no_zerocoin (fun _ => None) ex_node ex_cb_block true true true CValidationState_default
    = Some (true, CValidationState_default, true, false) /\
  order_ok ex_cb_block /\ size_ok ex_cb_block.
Proof.
  assert (E : CheckBlock ex_chain no_zerocoin (fun _ => None) ex_node ex_cb_block true true true CValidationState_default
    = Some (true, CValidationState_default, true, false)) by (vm_compute; reflexivity).
  split; [exact E|].
  destruct (CheckBlock_accepts ex_chain no_zerocoin (fun _ => None) ex_node ex_cb_block _ _ _ _ eq_refl E) as (_ & Ho & Hs & _).
  split; assumption.
Defined.
