(* ===== verification/Base58.v ===== *)
(** Base-58 texts: addresses and private keys (src/base58.cpp, src/chainparams.cpp). *)
From Stdlib Require Import ZArith Lia List Bool.
From stdpp Require Import base list.
From S2P Require Import Prelude Consensus Serialize Script Interpreter Standard Hashes Payments.
Import ListNotations.
Local Open Scope Z_scope.
Local Open Scope passion_scope.

(** * Base 58 *)

(** Texts are lists of character codes. *)
Definition pszBase58 : list Z :=
  [49;50;51;52;53;54;55;56;57;65;66;67;68;69;70;71;72;74;75;76;77;78;80;81;82;83;84;85;86;87;88;89;90;
   97;98;99;100;101;102;103;104;105;106;107;109;110;111;112;113;114;115;116;117;118;119;120;121;122].
Definition isspace (c : Z) : bool := ((9 <=? c) && (c <=? 13)) || (c =? 32).
(** What a C function sees of a string. *)
Fixpoint c_str (s : list Z) : list Z := match s with [] => [] | c :: s => if c =? 0 then [] else c :: c_str s end.
Fixpoint skip_while (p : Z -> bool) (s : list Z) : list Z := match s with [] => [] | c :: s' => if p c then skip_while p s' else s end.
Fixpoint count_while (p : Z -> bool) (s : list Z) : nat := match s with [] => O | c :: s => if p c then S (count_while p s) else O end.
(** [ch - pszBase58] *)
Fixpoint index_of (c : Z) (s : list Z) (i : Z) : option Z := match s with [] => None | d :: s => if c =? d then Some i else index_of c s (i + 1) end.
Definition char_index (c : Z) : option Z := index_of c pszBase58 0.
(** The loop "number = number * from + ch" over the digits, the lowest first, of which the
    first [length] are in use: the digits, the carry that is left and the digits used. *)
Fixpoint mul_add (from to : Z) (digits : list Z) (carry : Z) (i length : nat) : list Z * Z * nat :=
  match digits with
  | [] => ([], carry, i)
  | d :: ds =>
      if negb (carry =? 0) || (i <? length)%nat then
        let carry := carry + from * d in
        let '(ds, carry', i') := mul_add from to ds (Z.quot carry to) (S i) length in
        (Z.rem carry to :: ds, carry', i')
      else (digits, carry, i)
  end.
(** [None]: [assert(carry == 0)] fails. *)
Definition mul_add_checked (from to : Z) (digits : list Z) (ch : Z) (length : nat) : option (list Z * nat) :=
  let '(digits, carry, i) := mul_add from to digits ch 0 length in
  if carry =? 0 then Some (digits, i) else None.
(** The characters up to a space; the outer [None] is the assertion, the inner one a
    character that is not in the alphabet. *)
Fixpoint decode_chars (psz : list Z) (b256 : list Z) (length : nat) : option (option (list Z * nat * list Z)) :=
  match psz with
  | [] => Some (Some (b256, length, []))
  | c :: psz' =>
      if isspace c then Some (Some (b256, length, psz))
      else
        match char_index c with
        | None => Some None
        | Some ch => r <- mul_add_checked 58 256 b256 ch length;; decode_chars psz' (fst r) (snd r)
        end
  end.
(** The digits in use, the highest first, without leading zeroes. *)
Definition significant (digits : list Z) (length : nat) : list Z := skip_while (fun d => d =? 0) (rev (take length digits)).
Definition DecodeBase58 (psz : list Z) : option (option (list Z)) :=
  let psz := skip_while isspace psz in
  let zeroes := count_while (fun c => c =? 49) psz in
  let psz := skip_while (fun c => c =? 49) psz in
  let size := Z.to_nat (Z.of_nat (length psz) * 733 / 1000 + 1) in
  r <- decode_chars psz (repeat 0 size) 0;;
  match r with
  | None => Some None
  | Some (b256, length, rest) =>
      match skip_while isspace rest with
      | [] => Some (Some (repeat 0 zeroes ++ significant b256 length))
      | _ => Some None
      end
  end.
Fixpoint encode_bytes (vch : list Z) (b58 : list Z) (length : nat) : option (list Z * nat) :=
  match vch with
  | [] => Some (b58, length)
  | b :: vch => r <- mul_add_checked 256 58 b58 b length;; encode_bytes vch (fst r) (snd r)
  end.
Definition EncodeBase58 (vch : list Z) : option (list Z) :=
  let zeroes := count_while (fun b => b =? 0) vch in
  let vch := skip_while (fun b => b =? 0) vch in
  let size := Z.to_nat (Z.of_nat (length vch) * 138 / 100 + 1) in
  r <- encode_bytes vch (repeat 0 size) 0;;
  Some (repeat 49 zeroes ++ map (fun d => nth (Z.to_nat d) pszBase58 0) (significant (fst r) (snd r))).

(** * With a checksum *)

Section Checked.
Context {crypto : ScriptCrypto}.

Definition EncodeBase58Check (vchIn : list Z) : option (list Z) := EncodeBase58 (vchIn ++ take 4 (Hash256 vchIn)).
Definition DecodeBase58Check (str : list Z) : option (option (list Z)) :=
  r <- DecodeBase58 (c_str str);;
  match r with
  | None => Some None
  | Some vch =>
      if (length vch <? 4)%nat then Some None
      else
        let data := take (length vch - 4) vch in
        if bool_decide (take 4 (Hash256 data) = drop (length vch - 4) vch) then Some (Some data) else Some None
  end.

(** ** [CBase58Data] *)

Record CBase58Data := mkBase58Data { vchVersion : list Z; vchData : list Z }.
Definition SetData (vchVersionIn pdata : list Z) : CBase58Data := mkBase58Data vchVersionIn pdata.
(** The new value and whether the text was read. *)
Definition SetString (psz : list Z) (nVersionBytes : nat) : option (CBase58Data * bool) :=
  r <- DecodeBase58Check psz;;
  match r with
  | Some vchTemp =>
      if (length vchTemp <? nVersionBytes)%nat then Some (mkBase58Data [] [], false)
      else Some (mkBase58Data (take nVersionBytes vchTemp) (drop nVersionBytes vchTemp), true)
  | None => Some (mkBase58Data [] [], false)
  end.
Definition SetString_string (d : CBase58Data) (str : list Z) : option (CBase58Data * bool) :=
  match str with [] => Some (d, false) | _ => SetString str 1 end.
Definition CBase58Data_ToString (d : CBase58Data) : option (list Z) := EncodeBase58Check (vchVersion d ++ vchData d).
(** [operator<] of vectors. *)
Fixpoint vector_lt (a b : list Z) : bool :=
  match a, b with
  | _, [] => false
  | [], _ :: _ => true
  | x :: a, y :: b => (x <? y) || ((x =? y) && vector_lt a b)
  end.
Definition CBase58Data_CompareTo (a b : CBase58Data) : Z :=
  if vector_lt (vchVersion a) (vchVersion b) then -1 else if vector_lt (vchVersion b) (vchVersion a) then 1
  else if vector_lt (vchData a) (vchData b) then -1 else if vector_lt (vchData b) (vchData a) then 1 else 0.

(** ** Destinations *)

Definition PUBKEY_ADDRESS (n : Network) : list Z := match n with MAIN => [55] | TESTNET => [21] | REGTEST => [139] end.
Definition SCRIPT_ADDRESS (n : Network) : list Z := match n with MAIN => [65] | TESTNET => [73] | REGTEST => [19] end.
Definition STAKING_ADDRESS (n : Network) : list Z := match n with MAIN => [75] | TESTNET => [105] | REGTEST => [73] end.
Definition SECRET_KEY (n : Network) : list Z := match n with MAIN => [255] | TESTNET => [254] | REGTEST => [239] end.
Definition EncodeDestination (n : Network) (dest : CTxDestination) (isStaking : bool) : option (list Z) :=
  match dest with
  | CKeyID id => EncodeBase58Check ((if isStaking then STAKING_ADDRESS n else PUBKEY_ADDRESS n) ++ id)
  | CScriptID id => EncodeBase58Check (SCRIPT_ADDRESS n ++ id)
  | CNoDestination => Some []
  end.
(** [data.size() == 20 + prefix.size() && std::equal(prefix, data)] *)
Definition has_prefix (prefix data : list Z) (n : nat) : bool := (length data =? n + length prefix)%nat && bool_decide (take (length prefix) data = prefix).
(** The flag is left as it was for the other kinds. *)
Definition DecodeDestination (n : Network) (str : list Z) (isStaking : bool) : option (CTxDestination * bool) :=
  r <- DecodeBase58Check str;;
  match r with
  | None => Some (CNoDestination, isStaking)
  | Some data =>
      if has_prefix (PUBKEY_ADDRESS n) data 20 then Some (CKeyID (drop (length (PUBKEY_ADDRESS n)) data), isStaking)
      else if has_prefix (STAKING_ADDRESS n) data 20 then Some (CKeyID (drop (length (STAKING_ADDRESS n)) data), true)
      else if has_prefix (SCRIPT_ADDRESS n) data 20 then Some (CScriptID (drop (length (SCRIPT_ADDRESS n)) data), isStaking)
      else Some (CNoDestination, isStaking)
  end.
Definition IsValidDestinationString (n : Network) (str : list Z) (fStaking : bool) : option bool :=
  r <- DecodeDestination n str false;; Some (IsValidDestination (fst r) && Bool.eqb (snd r) fStaking).

(** ** Private keys *)

(** A valid key: its 32 bytes and whether its public key is compressed; [Check] is the
    test of [CKey::Set] that the number is in the range of the curve. *)
Record CKey := mkKey { keydata : list Z; fCompressed : bool }.
Variable Check : list Z -> bool.
Definition CKey_Set (data : list Z) (compressed : bool) : option CKey := if (length data =? 32)%nat && Check data then Some (mkKey data compressed) else None.
Definition EncodeSecret (n : Network) (key : CKey) : option (list Z) :=
  EncodeBase58Check (SECRET_KEY n ++ keydata key ++ (if fCompressed key then [1] else [])).
Definition DecodeSecret (n : Network) (str : list Z) : option (option CKey) :=
  r <- DecodeBase58Check str;;
  match r with
  | None => Some None
  | Some data =>
      let p := length (SECRET_KEY n) in
      if ((length data =? 32 + p)%nat || ((length data =? 33 + p)%nat && bool_decide (last data = Some 1))) && bool_decide (take p data = SECRET_KEY n)
      then Some (CKey_Set (take 32 (drop p data)) (length data =? 33 + p)%nat)
      else Some None
  end.
End Checked.

(** * Numbers and digits *)

(** The number with these digits, the lowest first. *)
Fixpoint num (b : Z) (ds : list Z) : Z := match ds with [] => 0 | d :: ds => d + b * num b ds end.
Definition digits_ok (b : Z) (ds : list Z) : Prop := Forall (fun d => 0 <= d < b) ds.
(** The digits from [n] on are zero. *)
Definition used (n : nat) (ds : list Z) : Prop := Forall (fun d => d = 0) (drop n ds).

Lemma num_range b ds : 0 < b -> digits_ok b ds -> 0 <= num b ds < b ^ Z.of_nat (length ds).
Proof.
  intros Hb. induction 1 as [|d ds Hd _ IH]; cbn [num length]; [cbn; lia|]. rewrite Nat2Z.inj_succ, Z.pow_succ_r by lia. nia.
Qed.
Lemma num_app b ds es : num b (ds ++ es) = num b ds + b ^ Z.of_nat (length ds) * num b es.
Proof. induction ds as [|d ds IH]; cbn [num app length]; [lia|]. rewrite IH, Nat2Z.inj_succ, Z.pow_succ_r by lia. ring. Qed.
Lemma num_zero b ds : Forall (fun d => d = 0) ds -> num b ds = 0.
Proof. induction 1 as [|d ds -> _ IH]; cbn [num]; [done|]. rewrite IH. lia. Qed.
Lemma num_repeat0 b n : num b (repeat 0 n) = 0.
Proof. apply num_zero. induction n; by constructor. Qed.
Lemma num_inj b : 0 < b -> forall ds es, digits_ok b ds -> digits_ok b es -> last ds <> Some 0 -> last es <> Some 0 -> num b ds = num b es -> ds = es.
Proof.
  intros Hb. assert (Pos : forall ds, digits_ok b ds -> last ds <> Some 0 -> num b ds = 0 -> ds = []).
  { induction ds as [|d ds IH]; intros F L E; [done|]. apply Forall_cons in F as [Hd F]. cbn [num] in E. pose proof (num_range b ds Hb F) as R. assert (d = 0 /\ num b ds = 0) as [-> E'] by nia.
    destruct ds as [|e ds]; [done|]. specialize (IH F L E'). done. }
  induction ds as [|d ds IH]; intros es F F' L L' E; [symmetry; by apply Pos|]. destruct es as [|e es]; [by apply Pos|].
  apply Forall_cons in F as [Hd F]. apply Forall_cons in F' as [He F']. cbn [num] in E.
  assert (d = e) as -> by (rewrite <- (Z.mod_small d b Hd), <- (Z.mod_small e b He), <- (Z.mod_add d (num b ds) b), <- (Z.mod_add e (num b es) b) by lia; f_equal; lia).
  f_equal. apply IH; try done; [destruct ds; [done|exact L]|destruct es; [done|exact L']|nia].
Qed.

Lemma mul_add_spec from to : 0 < from -> 0 < to -> forall ds carry i len ds' carry' i', digits_ok to ds -> 0 <= carry -> used (len - i) ds ->
  mul_add from to ds carry i len = (ds', carry', i') ->
  length ds' = length ds /\ digits_ok to ds' /\ 0 <= carry' /\ num to ds' + to ^ Z.of_nat (length ds) * carry' = from * num to ds + carry /\
  (i <= i' <= i + length ds)%nat /\ used (i' - i) ds'.
Proof.
  intros Hf Ht. induction ds as [|d ds IH]; intros carry i len ds' carry' i' F Hc U; cbn [mul_add].
  { intros [= <- <- <-]. split; [done|]. split; [constructor|]. split; [done|]. split; [cbn; lia|]. split; [cbn; lia|]. unfold used. rewrite drop_nil. constructor. }
  apply Forall_cons in F as [Hd F]. destruct (negb (carry =? 0) || (i <? len)%nat) eqn:C.
  - assert (0 <= carry + from * d) by nia. rewrite Z.rem_mod_nonneg, Z.quot_div_nonneg by lia. set (c := carry + from * d) in *.
    destruct (mul_add from to ds (c / to) (S i) len) as [[ds1 c1] i1] eqn:E. intros [= <- <- <-].
    destruct (IH (c / to) (S i) len ds1 c1 i1 F) as (L & F1 & Hc1 & En & Hi & U1); [apply Z.div_pos; lia| |done|].
    { destruct (len - i)%nat as [|n] eqn:El; [|replace (len - S i)%nat with n by lia; exact U]. replace (len - S i)%nat with 0%nat by lia.
      unfold used in *. cbn in U |- *. by inversion U. }
    pose proof (Z.mod_pos_bound c to Ht). split; [cbn; by rewrite L|]. split; [by constructor|]. split; [done|]. split; [|split; [cbn [length]; lia|]].
    + cbn [num length]. rewrite Nat2Z.inj_succ, Z.pow_succ_r by lia. pose proof (Z.div_mod c to ltac:(lia)). unfold c in *. nia.
    + replace (i1 - i)%nat with (S (i1 - S i)) by lia. exact U1.
  - apply orb_false_iff in C as [C1 C2]. apply negb_false_iff, Z.eqb_eq in C1 as ->. apply Nat.ltb_ge in C2. intros [= <- <- <-].
    replace (len - i)%nat with 0%nat in U by lia. unfold used in U. cbn [drop] in U. split; [done|]. split; [by constructor|]. split; [done|].
    split; [rewrite (num_zero to (d :: ds)) by done; lia|]. split; [lia|]. by rewrite Nat.sub_diag.
Qed.
Lemma mul_add_checked_spec from to ds ch len : 0 < from -> 0 < to -> digits_ok to ds -> 0 <= ch -> used len ds -> from * num to ds + ch < to ^ Z.of_nat (length ds) ->
  exists ds' len', mul_add_checked from to ds ch len = Some (ds', len') /\ length ds' = length ds /\ digits_ok to ds' /\ num to ds' = from * num to ds + ch /\ used len' ds'.
Proof.
  intros Hf Ht F Hc U Cap. unfold mul_add_checked. destruct (mul_add from to ds ch 0 len) as [[ds' c'] i'] eqn:E.
  destruct (mul_add_spec from to Hf Ht ds ch 0 len ds' c' i' F Hc ltac:(by rewrite Nat.sub_0_r) E) as (L & F' & Hc' & En & Hi & U'). rewrite Nat.sub_0_r in U'.
  pose proof (num_range to ds' Ht F'). assert (c' = 0) as -> by nia. cbn. exists ds', i'. split; [done|]. split; [done|]. split; [done|]. split; [lia|done].
Qed.
(** Digits the highest first. *)
Abbreviation be b ds := (num b (rev ds)).
Lemma be_cons b d ds : be b (d :: ds) = d * b ^ Z.of_nat (length ds) + be b ds.
Proof. cbn [rev]. rewrite num_app, length_rev. cbn [num]. lia. Qed.
Lemma skip_while_split p s : exists n, skip_while p s = drop n s /\ Forall (fun c => p c = true) (take n s) /\ n = count_while p s.
Proof.
  induction s as [|c s IH]; cbn [skip_while count_while]; [exists O; by repeat split|]. destruct (p c) eqn:E; [|exists O; by repeat split].
  destruct IH as (n & -> & F & ->). exists (S (count_while p s)). split; [done|]. split; [by constructor|done].
Qed.
Lemma skip_while_head p s c r : skip_while p s = c :: r -> p c = false.
Proof. induction s as [|d s IH]; cbn [skip_while]; [done|]. destruct (p d) eqn:E; [done|]. by intros [= <- <-]. Qed.
Lemma significant_spec b ds len : 0 < b -> digits_ok b ds -> used len ds ->
  be b (significant ds len) = num b ds /\ digits_ok b (significant ds len) /\ last (rev (significant ds len)) <> Some 0.
Proof.
  intros Hb F U. unfold significant. set (p := fun d => d =? 0). destruct (skip_while_split p (rev (take len ds))) as (n & E & Z0 & _).
  assert (Ft : digits_ok b (rev (take len ds))) by (apply Forall_rev, Forall_take, F). split; [|split].
  - rewrite <- (take_drop len ds) at 2. rewrite num_app, (num_zero b (drop len ds)) by done. rewrite Z.mul_0_r, Z.add_0_r. rewrite <- (rev_involutive (take len ds)) at 2.
    rewrite <- (take_drop n (rev (take len ds))) at 2. rewrite rev_app_distr, num_app, E. rewrite (num_zero b (rev (take n _))); [lia|].
    apply Forall_rev. eapply Forall_impl; [exact Z0|]. intros x. unfold p. by intros ?%Z.eqb_eq.
  - rewrite E. by apply Forall_drop.
  - destruct (skip_while p (rev (take len ds))) as [|c r] eqn:Es; [done|]. apply skip_while_head in Es. cbn [rev]. rewrite last_snoc. unfold p in Es. apply Z.eqb_neq in Es. congruence.
Qed.

(** * Encoding and decoding *)

(** The space set aside is enough. *)
Lemma capacity A B p q k : 1 < A -> 1 < B -> 0 < q -> 0 <= p -> 0 <= k -> A ^ q <= B ^ p -> A ^ k <= B ^ (k * p / q + 1).
Proof.
  intros HA HB Hq Hp Hk H. set (s := k * p / q + 1). assert (Hs : 0 <= k * p / q) by (apply Z.div_pos; nia).
  destruct (Z.le_gt_cases (A ^ k) (B ^ s)) as [|C]; [done|]. exfalso.
  assert (L : (B ^ s) ^ q < (A ^ k) ^ q) by (apply Z.pow_lt_mono_l; [done|split; [|done]; apply Z.pow_nonneg; lia]).
  rewrite <- !Z.pow_mul_r in L by (unfold s; lia). rewrite (Z.mul_comm k q), (Z.pow_mul_r A q k) in L by lia.
  assert (L2 : (A ^ q) ^ k <= (B ^ p) ^ k) by (apply Z.pow_le_mono_l; split; [apply Z.pow_nonneg; lia|done]). rewrite <- (Z.pow_mul_r B p k) in L2 by lia.
  assert (L3 : B ^ (p * k) <= B ^ (s * q)). { apply Z.pow_le_mono_r; [lia|]. pose proof (Z.mod_pos_bound (k * p) q Hq). pose proof (Z.div_mod (k * p) q ltac:(lia)). unfold s. nia. }
  lia.
Qed.
Lemma decode_capacity k : 58 ^ Z.of_nat k <= 256 ^ (Z.of_nat k * 733 / 1000 + 1).
Proof. apply capacity; lia. Qed.
Lemma encode_capacity k : 256 ^ Z.of_nat k <= 58 ^ (Z.of_nat k * 138 / 100 + 1).
Proof. apply capacity; lia. Qed.

(** The alphabet. *)
Definition alphabet_ok (d : nat) : bool :=
  let c := nth d pszBase58 0 in
  bool_decide (char_index c = Some (Z.of_nat d)) && negb (isspace c) && Bool.eqb (c =? 49) (d =? 0)%nat && negb (c =? 0).
Lemma alphabet_all : forallb alphabet_ok (seq 0 58) = true.
Proof. vm_compute. reflexivity. Qed.
Lemma alphabet_digit d : 0 <= d < 58 -> let c := nth (Z.to_nat d) pszBase58 0 in char_index c = Some d /\ isspace c = false /\ (c =? 49) = (d =? 0) /\ (c =? 0) = false.
Proof.
  intros Hd. pose proof (proj1 (forallb_forall _ _) alphabet_all (Z.to_nat d)) as A. specialize (A ltac:(apply in_seq; lia)). unfold alphabet_ok in A.
  rewrite !andb_true_iff, bool_decide_eq_true, !negb_true_iff in A. destruct A as [[[A1 A2] A3] A4]. apply eqb_prop in A3. rewrite Z2Nat.id in A1 by lia.
  split; [done|]. split; [done|]. split; [|done]. rewrite A3. destruct (Z.eqb_spec d 0) as [->|]; [done|]. apply Nat.eqb_neq. lia.
Qed.
Lemma index_of_range c s : forall i j, index_of c s i = Some j -> i <= j < i + Z.of_nat (length s) /\ nth (Z.to_nat (j - i)) s 0 = c.
Proof.
  induction s as [|d s IH]; intros i j; cbn [index_of]; [done|]. destruct (Z.eqb_spec c d) as [->|N].
  - intros [= <-]. rewrite Z.sub_diag. split; [cbn [length]; lia|done].
  - intros H. destruct (IH _ _ H) as [R E]. split; [cbn [length]; lia|]. replace (Z.to_nat (j - i)) with (S (Z.to_nat (j - (i + 1)))) by lia. exact E.
Qed.
Lemma char_index_digit c ch : char_index c = Some ch -> 0 <= ch < 58 /\ nth (Z.to_nat ch) pszBase58 0 = c.
Proof. intros H. apply index_of_range in H as [R E]. rewrite Z.sub_0_r in E. change (Z.of_nat (length pszBase58)) with 58 in R. split; [lia|done]. Qed.
Abbreviation text ds := (map (fun d => nth (Z.to_nat d) pszBase58 0) ds).

(** The digits up to the first space, and what follows. *)
Fixpoint parse58 (psz : list Z) : option (list Z * list Z) :=
  match psz with
  | [] => Some ([], [])
  | c :: psz' => if isspace c then Some ([], psz) else ch <- char_index c;; r <- parse58 psz';; Some (ch :: fst r, snd r)
  end.
Lemma parse58_inv psz : forall ds rest, parse58 psz = Some (ds, rest) -> psz = text ds ++ rest /\ digits_ok 58 ds.
Proof.
  induction psz as [|c psz IH]; intros ds rest; cbn [parse58]; [intros [= <- <-]; split; [done|constructor]|].
  destruct (isspace c); [intros [= <- <-]; split; [done|constructor]|]. intros H. apply obind_Some in H as (ch & Hc & H). apply obind_Some in H as ([ds' r'] & Hr & [= <- <-]).
  destruct (IH _ _ Hr) as [-> F]. destruct (char_index_digit _ _ Hc) as [R E]. split; [cbn [fst snd map app]; by rewrite E|by constructor].
Qed.
Lemma parse58_text ds : digits_ok 58 ds -> parse58 (text ds) = Some (ds, []).
Proof.
  induction 1 as [|d ds Hd _ IH]; cbn [map parse58]; [done|]. destruct (alphabet_digit d Hd) as (A1 & A2 & _). rewrite A2, A1. cbn [obind]. by rewrite IH.
Qed.
Lemma decode_chars_spec psz : forall b len, digits_ok 256 b -> used len b -> (num 256 b + 1) * 58 ^ Z.of_nat (length psz) <= 256 ^ Z.of_nat (length b) ->
  match parse58 psz with
  | None => decode_chars psz b len = Some None
  | Some (ds, rest) => exists b' len', decode_chars psz b len = Some (Some (b', len', rest)) /\ digits_ok 256 b' /\ used len' b' /\
                         num 256 b' = num 256 b * 58 ^ Z.of_nat (length ds) + be 58 ds
  end.
Proof.
  induction psz as [|c psz IH]; intros b len F U Cap; cbn [parse58 decode_chars]; [exists b, len; split; [done|]; split; [done|]; split; [done|]; cbn; lia|].
  destruct (isspace c); [exists b, len; split; [done|]; split; [done|]; split; [done|]; cbn; lia|]. destruct (char_index c) as [ch|] eqn:Ec; cbn [obind]; [|done].
  destruct (char_index_digit _ _ Ec) as [R _]. cbn [length] in Cap. rewrite Nat2Z.inj_succ, Z.pow_succ_r in Cap by lia. assert (0 < 58 ^ Z.of_nat (length psz)) by (apply Z.pow_pos_nonneg; lia).
  pose proof (num_range 256 b ltac:(lia) F).
  destruct (mul_add_checked_spec 58 256 b ch len ltac:(lia) ltac:(lia) F ltac:(lia) U ltac:(nia)) as (b1 & len1 & E1 & L1 & F1 & N1 & U1). rewrite E1. cbn [obind fst snd].
  specialize (IH b1 len1 F1 U1). rewrite L1, N1 in IH. specialize (IH ltac:(nia)). destruct (parse58 psz) as [[ds rest]|]; cbn [obind fst snd]; [|done].
  destruct IH as (b' & len' & E' & F' & U' & N'). exists b', len'. split; [done|]. split; [done|]. split; [done|]. rewrite N'. cbn [length]. rewrite be_cons, Nat2Z.inj_succ, Z.pow_succ_r by lia. ring.
Qed.
Lemma encode_bytes_spec vch : forall b len, bytes_ok vch -> digits_ok 58 b -> used len b -> (num 58 b + 1) * 256 ^ Z.of_nat (length vch) <= 58 ^ Z.of_nat (length b) ->
  exists b' len', encode_bytes vch b len = Some (b', len') /\ digits_ok 58 b' /\ used len' b' /\ num 58 b' = num 58 b * 256 ^ Z.of_nat (length vch) + be 256 vch.
Proof.
  induction vch as [|x vch IH]; intros b len B F U Cap; cbn [encode_bytes]; [exists b, len; split; [done|]; split; [done|]; split; [done|]; cbn; lia|].
  apply Forall_cons in B as [Hx B]. unfold byte_ok in Hx. cbn [length] in *. rewrite Nat2Z.inj_succ, Z.pow_succ_r in * by lia. assert (0 < 256 ^ Z.of_nat (length vch)) by (apply Z.pow_pos_nonneg; lia).
  pose proof (num_range 58 b ltac:(lia) F).
  destruct (mul_add_checked_spec 256 58 b x len ltac:(lia) ltac:(lia) F ltac:(lia) U ltac:(nia)) as (b1 & len1 & E1 & L1 & F1 & N1 & U1). rewrite E1. cbn [obind fst snd].
  destruct (IH b1 len1 B F1 U1) as (b' & len' & E' & F' & U' & N'); [rewrite L1, N1; nia|]. exists b', len'. split; [done|]. split; [done|]. split; [done|]. rewrite N', N1, be_cons. ring.
Qed.
Lemma zeros_ok b n : 0 < b -> digits_ok b (repeat 0 n) /\ used 0 (repeat 0 n).
Proof. intros Hb. split; unfold digits_ok, used; cbn [drop]; induction n; constructor; (done || lia). Qed.
(** What the two functions compute. *)
Lemma DecodeBase58_spec psz : let t := skip_while isspace psz in
  DecodeBase58 psz = match parse58 (skip_while (fun c => c =? 49) t) with
                     | Some (ds, rest) => if bool_decide (skip_while isspace rest = []) then DecodeBase58 psz else Some None
                     | None => Some None
                     end /\
  forall ds rest, parse58 (skip_while (fun c => c =? 49) t) = Some (ds, rest) -> skip_while isspace rest = [] ->
    exists v, DecodeBase58 psz = Some (Some (repeat 0 (count_while (fun c => c =? 49) t) ++ v)) /\ be 256 v = be 58 ds /\ digits_ok 256 v /\ last (rev v) <> Some 0.
Proof.
  intros t. unfold DecodeBase58. fold t. set (u := skip_while (fun c => c =? 49) t). set (size := Z.to_nat _).
  destruct (zeros_ok 256 size ltac:(lia)) as [F0 U0]. assert (Cap : (num 256 (repeat 0 size) + 1) * 58 ^ Z.of_nat (length u) <= 256 ^ Z.of_nat (length (repeat 0 size))).
  { rewrite num_repeat0, repeat_length. unfold size. rewrite Z2Nat.id by (apply Z.add_nonneg_nonneg; [apply Z.div_pos; lia|lia]). pose proof (decode_capacity (length u)). lia. }
  pose proof (decode_chars_spec u (repeat 0 size) 0 F0 U0 Cap) as D. destruct (parse58 u) as [[ds rest]|]; [|rewrite D; cbn [obind]; split; [done|intros ? ? [=]]].
  destruct D as (b' & len' & E & F' & U' & N'). rewrite num_repeat0 in N'. rewrite E. cbn [obind]. split.
  - case_bool_decide as S; [done|]. by destruct (skip_while isspace rest).
  - intros ds0 rest0 [= <- <-] S. rewrite S. destruct (significant_spec 256 b' len' ltac:(lia) F' U') as (S1 & S2 & S3). exists (significant b' len'). split; [done|]. split; [lia|]. by split.
Qed.
Lemma EncodeBase58_spec vch : bytes_ok vch ->
  exists ds, EncodeBase58 vch = Some (repeat 49 (count_while (fun b => b =? 0) vch) ++ text ds) /\ be 58 ds = be 256 (skip_while (fun b => b =? 0) vch) /\ digits_ok 58 ds /\ last (rev ds) <> Some 0.
Proof.
  intros B. unfold EncodeBase58. set (u := skip_while _ vch). set (size := Z.to_nat _). destruct (zeros_ok 58 size ltac:(lia)) as [F0 U0].
  assert (Bu : bytes_ok u) by (destruct (skip_while_split (fun b => b =? 0) vch) as (n & E & _); unfold u; rewrite E; by apply Forall_drop).
  destruct (encode_bytes_spec u (repeat 0 size) 0 Bu F0 U0) as (b' & len' & E & F' & U' & N').
  { rewrite num_repeat0, repeat_length. unfold size. rewrite Z2Nat.id by (apply Z.add_nonneg_nonneg; [apply Z.div_pos; lia|lia]). pose proof (encode_capacity (length u)). lia. }
  rewrite num_repeat0 in N'. rewrite E. cbn [obind fst snd]. destruct (significant_spec 58 b' len' ltac:(lia) F' U') as (S1 & S2 & S3). exists (significant b' len'). split; [done|]. split; [lia|]. by split.
Qed.

(** * Round trips *)

Lemma skip_repeat p x n s : p x = true -> skip_while p (repeat x n ++ s) = skip_while p s /\ count_while p (repeat x n ++ s) = (n + count_while p s)%nat.
Proof. intros H. induction n as [|n [IH1 IH2]]; cbn [repeat app skip_while count_while]; [done|]. rewrite H, IH1, IH2. done. Qed.
(** A run of one character and the rest. *)
Lemma split_run x s : s = repeat x (count_while (fun c => c =? x) s) ++ skip_while (fun c => c =? x) s.
Proof. induction s as [|c s IH]; cbn [count_while skip_while]; [done|]. destruct (Z.eqb_spec c x) as [->|]; [|done]. cbn. by f_equal. Qed.
Lemma stop_here p s : (forall c r, s = c :: r -> p c = false) -> skip_while p s = s /\ count_while p s = O.
Proof. intros H. destruct s as [|c r]; [done|]. cbn. by rewrite (H c r). Qed.
Lemma skip_spaces s : exists pre, s = pre ++ skip_while isspace s /\ Forall (fun c => isspace c = true) pre.
Proof. destruct (skip_while_split isspace s) as (n & E & F & _). exists (take n s). split; [by rewrite E, take_drop|done]. Qed.
Lemma digits_head b d ds : last (rev (d :: ds)) <> Some 0 -> digits_ok b (d :: ds) -> 0 < d.
Proof. cbn [rev]. rewrite last_snoc. intros N F. apply Forall_cons in F as [R _]. destruct (Z.eq_dec d 0); [congruence|lia]. Qed.
Lemma text_head ds c r : text ds = c :: r -> digits_ok 58 ds -> last (rev ds) <> Some 0 -> (c =? 49) = false.
Proof.
  destruct ds as [|d ds]; [done|]. intros E F N. pose proof (digits_head 58 d ds N F). apply Forall_cons in F as [R _]. destruct (alphabet_digit d R) as (_ & _ & A & _).
  assert (c = nth (Z.to_nat d) pszBase58 0) as -> by (apply (f_equal (hd 0)) in E; symmetry; exact E). rewrite A. apply Z.eqb_neq. lia.
Qed.
Lemma text_clean ds : digits_ok 58 ds -> Forall (fun c => isspace c = false /\ (c =? 0) = false) (text ds).
Proof. induction 1 as [|d ds R _ IH]; cbn [map]; [constructor|]. constructor; [|done]. by destruct (alphabet_digit d R) as (_ & A & _ & B). Qed.
Definition clean (s : list Z) : Prop := Forall (fun c => isspace c = false /\ (c =? 0) = false) s.
(** Every sequence of bytes has a text that is read back as these bytes. *)
Lemma base58_roundtrip vch : bytes_ok vch -> exists s, EncodeBase58 vch = Some s /\ DecodeBase58 s = Some (Some vch) /\ clean s.
Proof.
  intros B. destruct (EncodeBase58_spec vch B) as (ds & E & N & F & L). set (z := count_while (fun b => b =? 0) vch) in *. set (u := skip_while (fun b => b =? 0) vch) in *.
  assert (Cl : clean (repeat 49 z ++ text ds)) by (apply Forall_app; split; [clear; induction z; constructor; done|by apply text_clean]).
  exists (repeat 49 z ++ text ds). split; [done|]. split; [|done]. set (s := repeat 49 z ++ text ds) in *.
  assert (S1 : skip_while isspace s = s) by (apply stop_here; intros c r Es; rewrite Es in Cl; apply Forall_cons in Cl as [[? _] _]; done).
  destruct (stop_here (fun c => c =? 49) (text ds)) as [S2 C2]; [intros c r Et; by eapply text_head|].
  destruct (skip_repeat (fun c => c =? 49) 49 z (text ds) eq_refl) as [S3 C3]. rewrite S2 in S3. rewrite C2, Nat.add_0_r in C3.
  destruct (DecodeBase58_spec s) as [_ D]. rewrite S1 in D. fold s in S3, C3. rewrite S3, C3 in D. destruct (D ds [] (parse58_text ds F) eq_refl) as (v & -> & Nv & Fv & Lv).
  assert (v = u) as ->.
  { rewrite <- (rev_involutive v), <- (rev_involutive u). f_equal. apply (num_inj 256); [lia|by apply Forall_rev| |done| |congruence].
    - apply Forall_rev. destruct (skip_while_split (fun b => b =? 0) vch) as (n & En & _). unfold u. rewrite En. by apply Forall_drop.
    - destruct u as [|c r] eqn:Eu; [done|]. apply skip_while_head in Eu. cbn [rev]. rewrite last_snoc. apply Z.eqb_neq in Eu. congruence. }
  f_equal. f_equal. symmetry. exact (split_run 0 vch).
Qed.

Lemma DecodeBase58_total s : exists r, DecodeBase58 s = Some r.
Proof.
  destruct (DecodeBase58_spec s) as [D D']. destruct (parse58 _) as [[ds rest]|]; [|by eexists]. case_bool_decide as S; [|by eexists].
  destruct (D' ds rest eq_refl S) as (v & -> & _). by eexists.
Qed.
Definition spaces (s : list Z) : Prop := Forall (fun c => isspace c = true) s.
Lemma spaces_skipped s : skip_while isspace s = [] -> spaces s.
Proof. intros E. destruct (skip_spaces s) as (pre & Es & F). rewrite E, app_nil_r in Es. by rewrite Es. Qed.
Lemma first_digit s ds rest : parse58 (skip_while (fun c => c =? 49) s) = Some (ds, rest) -> last (rev ds) <> Some 0.
Proof.
  intros P. destruct (parse58_inv _ _ _ P) as [E F]. destruct ds as [|d ds]; [done|]. cbn [rev]. rewrite last_snoc. intros [= ->].
  assert (H : skip_while (fun c => c =? 49) s = 49 :: text ds ++ rest) by exact E. apply skip_while_head in H. done.
Qed.
(** A text that is read is the text of what is read, between spaces. *)
Lemma base58_canonical s v : DecodeBase58 s = Some (Some v) -> bytes_ok v /\
  exists pre body post, s = pre ++ body ++ post /\ spaces pre /\ spaces post /\ EncodeBase58 v = Some body.
Proof.
  intros D. destruct (DecodeBase58_spec s) as [S1 S2]. set (t := skip_while isspace s) in *. set (z := count_while (fun c => c =? 49) t) in *.
  destruct (parse58 (skip_while (fun c => c =? 49) t)) as [[ds rest]|] eqn:P; [|congruence]. case_bool_decide as Sp; [|congruence]. clear S1.
  destruct (S2 ds rest eq_refl Sp) as (w & E & N & F & L). rewrite E in D. injection D as <-. assert (Bw : bytes_ok w) by exact F.
  assert (B : bytes_ok (repeat 0 z ++ w)) by (apply Forall_app; split; [clear; induction z; constructor; done|done]).
  split; [done|]. destruct (parse58_inv _ _ _ P) as [Et Fd]. destruct (skip_spaces s) as (pre & Es & Fp). exists pre, (repeat 49 z ++ text ds), rest.
  split; [rewrite Es; f_equal; fold t; rewrite (split_run 49 t), Et, <- app_assoc; done|]. split; [done|]. split; [by apply spaces_skipped|].
  destruct (EncodeBase58_spec _ B) as (ds' & -> & N' & F' & L'). destruct (skip_repeat (fun b => b =? 0) 0 z w eq_refl) as [K1 K2].
  destruct (stop_here (fun b => b =? 0) w) as [K3 K4].
  { intros c r ->. cbn [rev] in L. rewrite last_snoc in L. apply Z.eqb_neq. congruence. }
  rewrite K3 in K1. rewrite K4, Nat.add_0_r in K2. rewrite K1 in N'. rewrite K2. assert (ds' = ds) as ->; [|done].
  rewrite <- (rev_involutive ds'), <- (rev_involutive ds). f_equal. apply (num_inj 58); [lia|by apply Forall_rev|by apply Forall_rev|done|by eapply first_digit|congruence].
Qed.
Lemma c_str_clean s : clean s -> c_str s = s.
Proof. induction 1 as [|c s [_ H] _ IH]; cbn [c_str]; [done|]. by rewrite H, IH. Qed.

(** ** With the checksum *)
Section CheckedRoundtrip.
Context {crypto : ScriptCrypto}.

Lemma checksum_ok m : length (take 4 (Hash256 m)) = 4%nat /\ bytes_ok (take 4 (Hash256 m)).
Proof. unfold Hash256. destruct (SHA256_digest (SHA256 m)) as [L B]. split; [rewrite length_take; lia|by apply Forall_take]. Qed.
Lemma check_roundtrip v : bytes_ok v -> exists s, EncodeBase58Check v = Some s /\ DecodeBase58Check s = Some (Some v).
Proof.
  intros B. destruct (checksum_ok v) as [L4 B4]. destruct (base58_roundtrip (v ++ take 4 (Hash256 v))) as (s & E & D & C); [by apply Forall_app|].
  exists s. split; [done|]. unfold DecodeBase58Check. rewrite (c_str_clean s C), D. cbn [obind]. rewrite length_app, L4. destruct (Nat.ltb_spec (length v + 4) 4); [lia|].
  replace (length v + 4 - 4)%nat with (length v) by lia. rewrite take_app_length, drop_app_length. by rewrite bool_decide_true.
Qed.
Lemma check_canonical str : exists r, DecodeBase58Check str = Some r /\
  forall v, r = Some v -> bytes_ok v /\ exists pre body post, c_str str = pre ++ body ++ post /\ spaces pre /\ spaces post /\ EncodeBase58Check v = Some body.
Proof.
  unfold DecodeBase58Check. destruct (DecodeBase58_total (c_str str)) as [r D]. rewrite D. cbn [obind]. destruct r as [w|]; [|by eexists].
  destruct (Nat.ltb_spec (length w) 4) as [|L]; [by eexists|]. case_bool_decide as H; [|by eexists]. eexists. split; [done|]. intros v [= <-].
  destruct (base58_canonical _ _ D) as (B & pre & body & post & E & F1 & F2 & En). split; [by apply Forall_take|]. exists pre, body, post. split; [done|]. split; [done|]. split; [done|].
  unfold EncodeBase58Check. rewrite H, take_drop. exact En.
Qed.

(** [CBase58Data]: the text is read back, and the comparison is a total order on the values. *)
Lemma CBase58Data_roundtrip d : bytes_ok (vchVersion d ++ vchData d) ->
  exists s, CBase58Data_ToString d = Some s /\ SetString s (length (vchVersion d)) = Some (d, true).
Proof.
  intros B. destruct (check_roundtrip _ B) as (s & E & D). exists s. split; [done|]. unfold SetString. rewrite D. cbn [obind]. rewrite length_app.
  destruct (Nat.ltb_spec (length (vchVersion d) + length (vchData d)) (length (vchVersion d))); [lia|]. rewrite take_app_length, drop_app_length. by destruct d.
Qed.
Lemma vector_trichotomy a : forall b, vector_lt a b = false -> vector_lt b a = false -> a = b.
Proof.
  induction a as [|x a IH]; intros [|y b]; cbn [vector_lt]; try done. rewrite !orb_false_iff, !andb_false_iff. intros [L1 E1] [L2 E2].
  assert (x = y) as -> by lia. rewrite Z.eqb_refl in *. f_equal. apply IH; intuition done.
Qed.
Lemma CompareTo_eq a b : CBase58Data_CompareTo a b = 0 -> a = b.
Proof.
  unfold CBase58Data_CompareTo. destruct (vector_lt (vchVersion a) _) eqn:E1; [done|]. destruct (vector_lt (vchVersion b) _) eqn:E2; [done|].
  destruct (vector_lt (vchData a) _) eqn:E3; [done|]. destruct (vector_lt (vchData b) _) eqn:E4; [done|]. intros _. destruct a, b; cbn in *. f_equal; by apply vector_trichotomy.
Qed.

(** ** Destinations *)

Definition dest_ok (d : CTxDestination) : Prop := match d with CNoDestination => True | CKeyID h | CScriptID h => length h = 20%nat /\ bytes_ok h end.
Lemma prefix_app p h : length h = 20%nat -> has_prefix p (p ++ h) 20 = true.
Proof. intros L. unfold has_prefix. rewrite length_app, L, take_app_length, bool_decide_true by done. rewrite andb_true_r. apply Nat.eqb_eq. lia. Qed.
Lemma prefix_other p q h : length p = 1%nat -> length q = 1%nat -> p <> q -> has_prefix p (q ++ h) 20 = false.
Proof. intros L1 L2 N. unfold has_prefix. rewrite L1. replace (take 1 (q ++ h)) with q by (rewrite <- L2; by rewrite take_app_length). rewrite bool_decide_false by done. apply andb_false_r. Qed.
Lemma prefix_inv p data : has_prefix p data 20 = true -> data = p ++ drop (length p) data /\ length (drop (length p) data) = 20%nat.
Proof.
  unfold has_prefix. rewrite andb_true_iff, bool_decide_eq_true, Nat.eqb_eq. intros [L E]. split; [|rewrite length_drop; lia]. rewrite <- E at 1. by rewrite take_drop.
Qed.
Lemma prefixes_distinct n : PUBKEY_ADDRESS n <> STAKING_ADDRESS n /\ PUBKEY_ADDRESS n <> SCRIPT_ADDRESS n /\ STAKING_ADDRESS n <> SCRIPT_ADDRESS n.
Proof. by destruct n. Qed.
Lemma prefixes_length n : length (PUBKEY_ADDRESS n) = 1%nat /\ length (STAKING_ADDRESS n) = 1%nat /\ length (SCRIPT_ADDRESS n) = 1%nat.
Proof. by destruct n. Qed.
Lemma prefixes_bytes n : bytes_ok (PUBKEY_ADDRESS n) /\ bytes_ok (STAKING_ADDRESS n) /\ bytes_ok (SCRIPT_ADDRESS n).
Proof. destruct n; repeat split; repeat constructor; done. Qed.
End CheckedRoundtrip.

Section Destinations.
Context {crypto : ScriptCrypto}.

(** The prefix, the flag it stands for and the kind it announces. *)
Definition dest_payload (n : Network) (d : CTxDestination) (isStaking : bool) : list Z :=
  match d with
  | CKeyID h => (if isStaking then STAKING_ADDRESS n else PUBKEY_ADDRESS n) ++ h
  | CScriptID h => SCRIPT_ADDRESS n ++ h
  | CNoDestination => []
  end.
Definition dest_flag (d : CTxDestination) (isStaking : bool) : bool := match d with CKeyID _ => isStaking | _ => false end.
Lemma encode_payload n d st : d <> CNoDestination -> EncodeDestination n d st = EncodeBase58Check (dest_payload n d st).
Proof. by destruct d. Qed.
Lemma payload_bytes n d st : dest_ok d -> bytes_ok (dest_payload n d st).
Proof. destruct (prefixes_bytes n) as (? & ? & ?). destruct d as [|h|h]; cbn; [constructor| |]; intros [_ B]; apply Forall_app; split; try done. by destruct st. Qed.
(** What the chain of prefix tests makes of the decoded bytes. *)
Lemma dispatch_payload n str d st : dest_ok d -> d <> CNoDestination -> DecodeBase58Check str = Some (Some (dest_payload n d st)) ->
  DecodeDestination n str false = Some (d, dest_flag d st).
Proof.
  intros K N E. unfold DecodeDestination. rewrite E. cbn [obind]. destruct (prefixes_length n) as (L1 & L2 & L3). destruct (prefixes_distinct n) as (N1 & N2 & N3).
  destruct d as [|h|h]; [done| |]; destruct K as [L B]; cbn [dest_payload dest_flag]; [destruct st|].
  - rewrite (prefix_other _ _ h L1 L2 N1), (prefix_app _ h L). by rewrite drop_app_length.
  - rewrite (prefix_app _ h L). by rewrite drop_app_length.
  - rewrite (prefix_other _ _ h L1 L3 N2), (prefix_other _ _ h L2 L3 N3), (prefix_app _ h L). by rewrite drop_app_length.
Qed.
Lemma dispatch_inv n str data : DecodeBase58Check str = Some (Some data) -> bytes_ok data ->
  exists d st, DecodeDestination n str false = Some (d, st) /\ (d <> CNoDestination -> dest_ok d /\ data = dest_payload n d st).
Proof.
  intros E B. unfold DecodeDestination. rewrite E. cbn [obind].
  destruct (has_prefix (PUBKEY_ADDRESS n) data 20) eqn:H1; [|destruct (has_prefix (STAKING_ADDRESS n) data 20) eqn:H2; [|destruct (has_prefix (SCRIPT_ADDRESS n) data 20) eqn:H3]];
    do 2 eexists; (split; [reflexivity|]); intros N; try done; cbn [dest_ok dest_payload];
    [apply prefix_inv in H1 as [E1 L1]|apply prefix_inv in H2 as [E1 L1]|apply prefix_inv in H3 as [E1 L1]]; (split; [|exact E1]); (split; [exact L1|by apply Forall_drop]).
Qed.

(** ** Private keys *)
Variable Check : list Z -> bool.
Definition key_valid (k : CKey) : Prop := length (keydata k) = 32%nat /\ bytes_ok (keydata k) /\ Check (keydata k) = true.
Lemma secret_prefix n : length (SECRET_KEY n) = 1%nat /\ bytes_ok (SECRET_KEY n).
Proof. destruct n; split; repeat constructor; done. Qed.
Lemma take_prefix (p d : list Z) : take (length p) (p ++ d) = p.
Proof. apply take_app_length. Qed.
(** The text of a valid key is read back as the key. *)
Lemma secret_roundtrip n k : key_valid k -> exists s, EncodeSecret n k = Some s /\ DecodeSecret Check n s = Some (Some k).
Proof.
  intros (L & B & V). destruct (secret_prefix n) as [P1 P2]. unfold EncodeSecret. destruct (check_roundtrip (SECRET_KEY n ++ keydata k ++ (if fCompressed k then [1] else []))) as (s & E & D).
  { apply Forall_app. split; [done|]. apply Forall_app. split; [done|]. destruct (fCompressed k); repeat constructor; done. }
  exists s. split; [done|]. unfold DecodeSecret. rewrite D. cbn [obind]. rewrite take_prefix, drop_app_length, (bool_decide_true (SECRET_KEY n = SECRET_KEY n)), andb_true_r, !length_app, L, P1 by done.
  destruct k as [kd [|]]; cbn [fCompressed keydata length] in *.
  - rewrite app_assoc, last_snoc, bool_decide_true by done. cbn [orb andb Nat.add Nat.eqb]. unfold CKey_Set. rewrite (take_app_length' kd), L, V by done. done.
  - cbn [orb andb Nat.add Nat.eqb]. unfold CKey_Set. rewrite (take_app_length' kd), L, V by done. done.
Qed.
(** A text that is read as a key is the text of that key, between spaces. *)
Lemma secret_canonical n str : exists r, DecodeSecret Check n str = Some r /\
  forall k, r = Some k -> key_valid k /\ exists pre body post, c_str str = pre ++ body ++ post /\ spaces pre /\ spaces post /\ EncodeSecret n k = Some body.
Proof.
  unfold DecodeSecret. destruct (check_canonical str) as (r & D & R). rewrite D. cbn [obind]. destruct r as [data|]; [|by eexists]. destruct (R data eq_refl) as (B & pre & body & post & E & F1 & F2 & En).
  destruct (secret_prefix n) as [P1 _]. rewrite P1. destruct (_ && _) eqn:H; [|by eexists]. eexists. split; [done|]. unfold CKey_Set.
  apply andb_true_iff in H as [H Hp]. apply bool_decide_eq_true in Hp. assert (Ed : data = SECRET_KEY n ++ drop 1 data) by (rewrite <- Hp at 1; by rewrite take_drop).
  intros k Hk. destruct (_ && _) eqn:V in Hk; [|done]. injection Hk as <-. apply andb_true_iff in V as [V1 V2]. apply Nat.eqb_eq in V1.
  split; [split; [done|]; split; [by apply Forall_take, Forall_drop|done]|]. exists pre, body, post. split; [done|]. split; [done|]. split; [done|]. unfold EncodeSecret. cbn [keydata fCompressed].
  enough (EE : take 32 (drop 1 data) ++ (if (length data =? 34)%nat then [1] else []) = drop 1 data) by (rewrite EE, <- Ed; exact En). change (32 + 1)%nat with 33%nat in H. change (33 + 1)%nat with 34%nat in H. apply orb_true_iff in H as [H|H].
  - apply Nat.eqb_eq in H. destruct (Nat.eqb_spec (length data) 34) as [|_]; [lia|]. rewrite app_nil_r. apply take_ge. rewrite length_drop. lia.
  - apply andb_true_iff in H as [H Hl]. rewrite H. apply Nat.eqb_eq in H. apply bool_decide_eq_true in Hl. apply last_Some in Hl as [l ->]. rewrite length_app in H. cbn in H.
    rewrite drop_app_le by lia. f_equal. rewrite take_app_le by (rewrite length_drop; lia). apply take_ge. rewrite length_drop. lia.
Qed.
End Destinations.

(** C33: on every network the text of an address is read back as that address, with the flag
    of a cold-staking address; and for every text the reader returns without failing an
    assertion, and where it returns an address, the part of the text before a NUL character is
    the text of this address between spaces: an address has only one text. *)
Theorem destination_roundtrip {crypto : ScriptCrypto} (n : Network) :
  (forall d isStaking, dest_ok d -> exists s, EncodeDestination n d isStaking = Some s /\ DecodeDestination n s false = Some (d, dest_flag d isStaking)) /\
  (forall str, exists d isStaking, DecodeDestination n str false = Some (d, isStaking) /\
     (d <> CNoDestination -> dest_ok d /\ exists pre s post, c_str str = pre ++ s ++ post /\ spaces pre /\ spaces post /\ EncodeDestination n d isStaking = Some s)).
Proof.
  split.
  - intros d st K. destruct d as [|h|h]; [by exists []| |]; (destruct (check_roundtrip (dest_payload n _ st) (payload_bytes n _ st K)) as (s & E & D); exists s; split; [exact E|by apply dispatch_payload]).
  - intros str. destruct (check_canonical str) as (r & D & R). destruct r as [data|]; [|exists CNoDestination, false; unfold DecodeDestination; by rewrite D].
    destruct (R data eq_refl) as (B & pre & s & post & E & F1 & F2 & En). destruct (dispatch_inv n str data D B) as (d & st & Ed & H). exists d, st. split; [done|].
    intros N. destruct (H N) as [K ->]. split; [done|]. exists pre, s, post. by rewrite encode_payload.
Qed.

(** On every network the text of a valid private key is read back as that key, its
    compression flag included; and for every text the reader returns, without failing an
    assertion, and where it returns a key the text is that key's, between spaces. *)
Theorem secret_key_roundtrip {crypto : ScriptCrypto} (Check : list Z -> bool) (n : Network) :
  (forall k, key_valid Check k -> exists s, EncodeSecret n k = Some s /\ DecodeSecret Check n s = Some (Some k)) /\
  (forall str, exists r, DecodeSecret Check n str = Some r /\
     forall k, r = Some k -> key_valid Check k /\ exists pre s post, c_str str = pre ++ s ++ post /\ spaces pre /\ spaces post /\ EncodeSecret n k = Some s).
Proof. split; intros; [by apply secret_roundtrip|by apply secret_canonical]. Qed.
Lemma destination_roundtrip_witness :
  let crypto := passion_crypto (fun _ => true) in
  exists s, EncodeDestination MAIN (CKeyID (repeat 7 20)) true = Some s /\ DecodeDestination MAIN s false = Some (CKeyID (repeat 7 20), true).
Proof. intros crypto. apply (proj1 (destination_roundtrip MAIN) (CKeyID (repeat 7 20)) true). split; [reflexivity|]. repeat constructor; vm_compute; congruence. Defined.
Lemma secret_key_roundtrip_witness :
  let crypto := passion_crypto (fun _ => true) in let k := mkKey (repeat 9 32) true in
  exists s, EncodeSecret TESTNET k = Some s /\ DecodeSecret (fun _ => true) TESTNET s = Some (Some k).
Proof. intros crypto k. apply (proj1 (secret_key_roundtrip (fun _ => true) TESTNET) k). split; [reflexivity|]. split; [|reflexivity]. repeat constructor; vm_compute; congruence. Defined.
(** The text of an address: it begins with "P", and with "X" for a cold-staking address. *)
Example address_texts : let crypto := passion_crypto (fun _ => true) in
  option_map (fun s => hd 0 s) (EncodeDestination MAIN (CKeyID (repeat 7 20)) false) = Some 80 /\
  option_map (fun s => hd 0 s) (EncodeDestination MAIN (CKeyID (repeat 7 20)) true) = Some 88.
Proof. vm_compute. done. Qed.
