(* ===== verification/TextCodecs.v ===== *)
(** Texts for bytes and amounts: hexadecimal, base 64, base 32 and money
    (src/utilstrencodings.h, src/utilstrencodings.cpp, src/utilmoneystr.cpp). *)
From Stdlib Require Import ZArith Lia List Bool.
From stdpp Require Import base list.
From S2P Require Import Prelude Serialize Script Transaction Base58.
Import ListNotations.
Local Open Scope Z_scope.
Local Open Scope passion_scope.

(** * Regrouping bits *)

(** The inner loop: at most [bits] rounds. *)
Fixpoint convert_emit (fuel : nat) (tobits acc bits : Z) (out : list Z) : Z * list Z :=
  match fuel with
  | O => (bits, out)
  | S fuel =>
      if tobits <=? bits then convert_emit fuel tobits acc (bits - tobits) (out ++ [Z.land (Z.shiftr acc (bits - tobits)) (Z.shiftl 1 tobits - 1)])
      else (bits, out)
  end.
Fixpoint convert_loop (frombits tobits : Z) (it : list Z) (acc bits : Z) (out : list Z) : Z * Z * list Z :=
  match it with
  | [] => (acc, bits, out)
  | x :: it =>
      let acc := Z.land (Z.lor (u64 (Z.shiftl acc frombits)) x) (Z.shiftl 1 (frombits + tobits - 1) - 1) in
      let bits := bits + frombits in
      let '(bits, out) := convert_emit (Z.to_nat bits) tobits acc bits out in
      convert_loop frombits tobits it acc bits out
  end.
(** What is passed to [outfn], and the result. *)
Definition ConvertBits (frombits tobits : Z) (pad : bool) (it : list Z) : list Z * bool :=
  let '(acc, bits, out) := convert_loop frombits tobits it 0 0 [] in
  let maxv := Z.shiftl 1 tobits - 1 in
  let rest := Z.land (u64 (Z.shiftl acc (tobits - bits))) maxv in
  if pad then (if bits =? 0 then out else out ++ [rest], true)
  else (out, negb ((frombits <=? bits) || negb (rest =? 0))).

(** ** Regrouping preserves the number *)

Lemma be_snoc b l d : be b (l ++ [d]) = be b l * b + d.
Proof. rewrite rev_app_distr. cbn [rev app num]. lia. Qed.
Lemma num_inj_length b : 0 < b -> forall ds es, digits_ok b ds -> digits_ok b es -> length ds = length es -> num b ds = num b es -> ds = es.
Proof.
  intros Hb. induction ds as [|d ds IH]; intros [|e es] F F' L E; try done. apply Forall_cons in F as [Hd F]. apply Forall_cons in F' as [He F']. cbn [num length] in *.
  assert (d = e) as ->.
  { rewrite <- (Z.mod_small d b), <- (Z.mod_small e b), <- (Z.mod_add d (num b ds) b), <- (Z.mod_add e (num b es) b) by lia. f_equal. lia. }
  f_equal. apply IH; [done|done|lia|nia].
Qed.
Lemma be_inj b u v : 0 < b -> digits_ok b u -> digits_ok b v -> length u = length v -> be b u = be b v -> u = v.
Proof.
  intros Hb F F' L E. rewrite <- (rev_involutive u), <- (rev_involutive v). f_equal. apply (num_inj_length b); [done|by apply Forall_rev|by apply Forall_rev| |done].
  by rewrite !length_rev.
Qed.
Lemma be_nonneg b u : 0 < b -> digits_ok b u -> 0 <= be b u.
Proof. intros Hb F. apply (num_range b); [done|by apply Forall_rev]. Qed.
Lemma mask t : 0 <= t -> Z.shiftl 1 t - 1 = 2 ^ t - 1.
Proof. intros. rewrite Z.shiftl_1_l. done. Qed.
Lemma mod_mod_pow x a b : 0 <= a <= b -> (x mod 2 ^ b) mod 2 ^ a = x mod 2 ^ a.
Proof. intros H. apply Z.mod_mod_divide. exists (2 ^ (b - a)). rewrite <- Z.pow_add_r by lia. f_equal. lia. Qed.
(** The digit cut out of the accumulator, in numbers. *)
Lemma cut_digit N acc t s : 0 < t -> 0 <= s -> acc mod 2 ^ (s + t) = N mod 2 ^ (s + t) ->
  Z.land (Z.shiftr acc s) (2 ^ t - 1) = N / 2 ^ s mod 2 ^ t.
Proof.
  intros Ht Hs E. rewrite land_mask, Z.shiftr_div_pow2 by lia. assert (P : forall x, x / 2 ^ s mod 2 ^ t = x mod 2 ^ (s + t) / 2 ^ s).
  { intros x. rewrite Z.pow_add_r by lia. assert (0 < 2 ^ s) by (apply Z.pow_pos_nonneg; lia). assert (0 < 2 ^ t) by (apply Z.pow_pos_nonneg; lia).
    rewrite Z.rem_mul_r, (Z.mul_comm (2 ^ s)), Z.div_add, (Z.div_small (x mod 2 ^ s)) by (lia || apply Z.mod_pos_bound; lia). lia. }
  rewrite !P, E. done.
Qed.
Lemma quotient_step N t s : 0 < t -> 0 <= s -> N / 2 ^ (s + t) * 2 ^ t + N / 2 ^ s mod 2 ^ t = N / 2 ^ s.
Proof.
  intros Ht Hs. rewrite Z.pow_add_r by lia. assert (0 < 2 ^ s) by (apply Z.pow_pos_nonneg; lia). assert (0 < 2 ^ t) by (apply Z.pow_pos_nonneg; lia).
  rewrite <- Z.div_div by lia. pose proof (Z.div_mod (N / 2 ^ s) (2 ^ t)). lia.
Qed.
Lemma convert_emit_spec N t acc k : 0 < t -> forall fuel bits out, 0 <= bits <= Z.of_nat fuel -> 0 <= N -> acc mod 2 ^ bits = N mod 2 ^ bits ->
  digits_ok (2 ^ t) out -> be (2 ^ t) out = N / 2 ^ bits -> Z.of_nat (length out) * t + bits = k ->
  exists bits' out', convert_emit fuel t acc bits out = (bits', out') /\ 0 <= bits' < t /\ bits' <= bits /\ digits_ok (2 ^ t) out' /\ be (2 ^ t) out' = N / 2 ^ bits' /\ Z.of_nat (length out') * t + bits' = k.
Proof.
  intros Ht. induction fuel as [|fuel IH]; intros bits out Hb HN E F B L; cbn [convert_emit].
  - exists bits, out. repeat split; try done; lia.
  - destruct (Z.leb_spec t bits) as [Le|]; [|exists bits, out; repeat split; try done; lia]. rewrite mask by lia. replace bits with (bits - t + t) in E, B by lia.
    rewrite (cut_digit N) by (lia || done). destruct (IH (bits - t) (out ++ [N / 2 ^ (bits - t) mod 2 ^ t])) as (b' & o' & Eo & H1 & H2 & H3); [lia|done| | | | |].
    + rewrite <- (mod_mod_pow acc (bits - t) (bits - t + t)), <- (mod_mod_pow N (bits - t) (bits - t + t)) by lia. by rewrite E.
    + apply Forall_app. split; [done|]. repeat constructor; apply Z.mod_pos_bound, Z.pow_pos_nonneg; lia.
    + rewrite be_snoc, B. apply quotient_step; lia.
    + rewrite length_app. cbn [length]. lia.
    + exists b', o'. split; [done|]. split; [done|]. split; [lia|done].
Qed.
(** The accumulator keeps the bits that are still to be written. *)
Lemma acc_step f t acc x N bits : 0 < f -> 0 < t -> f + f + t <= 64 -> 0 <= bits < t -> 0 <= x < 2 ^ f -> 0 <= acc < 2 ^ (f + t - 1) -> acc mod 2 ^ bits = N mod 2 ^ bits ->
  let acc' := Z.land (Z.lor (u64 (Z.shiftl acc f)) x) (Z.shiftl 1 (f + t - 1) - 1) in
  0 <= acc' < 2 ^ (f + t - 1) /\ acc' mod 2 ^ (bits + f) = (N * 2 ^ f + x) mod 2 ^ (bits + f).
Proof.
  intros Hf Ht W Hb Hx Ha E acc'. assert (Pf : 0 < 2 ^ f) by (apply Z.pow_pos_nonneg; lia). assert (Pb : 0 < 2 ^ bits) by (apply Z.pow_pos_nonneg; lia).
  assert (U : u64 (Z.shiftl acc f) = acc * 2 ^ f).
  { rewrite Z.shiftl_mul_pow2 by lia. apply u64_small. split; [nia|]. apply Z.lt_le_trans with (2 ^ (f + t - 1) * 2 ^ f); [nia|]. rewrite <- Z.pow_add_r by lia. apply Z.pow_le_mono_r; lia. }
  assert (O : Z.lor (acc * 2 ^ f) x = acc * 2 ^ f + x).
  { rewrite <- Z.shiftl_mul_pow2 by lia. symmetry. rewrite <- Z.lxor_lor, <- Z.add_nocarry_lxor; [done| |]; apply Z.bits_inj'; intros i Hi; rewrite Z.land_spec, Z.bits_0, Z.shiftl_spec by done;
      (destruct (Z.ltb_spec i f); [rewrite Z.testbit_neg_r by lia; done|]); rewrite (Z.bits_above_log2 x) by (lia || (destruct (Z.eq_dec x 0) as [->|]; [cbn; lia|apply Z.log2_lt_pow2; [lia|apply Z.lt_le_trans with (2 ^ f); [lia|apply Z.pow_le_mono_r; lia]]])); by rewrite andb_false_r. }
  unfold acc'. rewrite U, O, mask, land_mask by lia. split; [apply Z.mod_pos_bound, Z.pow_pos_nonneg; lia|]. rewrite mod_mod_pow by lia.
  rewrite Z.pow_add_r by lia. pose proof (Z.div_mod acc (2 ^ bits) ltac:(lia)) as D1. pose proof (Z.div_mod N (2 ^ bits) ltac:(lia)) as D2. rewrite E in D1.
  set (r := N mod 2 ^ bits) in *. set (qa := acc / 2 ^ bits) in *. set (qn := N / 2 ^ bits) in *.
  replace (acc * 2 ^ f + x) with (r * 2 ^ f + x + qa * (2 ^ bits * 2 ^ f)) by (rewrite D1; ring). replace (N * 2 ^ f + x) with (r * 2 ^ f + x + qn * (2 ^ bits * 2 ^ f)) by (rewrite D2; ring).
  rewrite !Z.mod_add by nia. done.
Qed.
Definition widths_ok (f t : Z) : Prop := 0 < f /\ 0 < t /\ f + f + t <= 64 /\ t + t + f <= 64.
Lemma convert_loop_spec f t : widths_ok f t -> forall it acc bits out N k, digits_ok (2 ^ f) it -> 0 <= bits < t -> 0 <= N -> 0 <= acc < 2 ^ (f + t - 1) -> acc mod 2 ^ bits = N mod 2 ^ bits ->
  digits_ok (2 ^ t) out -> be (2 ^ t) out = N / 2 ^ bits -> Z.of_nat (length out) * t + bits = k ->
  exists acc' bits' out', convert_loop f t it acc bits out = (acc', bits', out') /\ 0 <= bits' < t /\ 0 <= acc' < 2 ^ (f + t - 1) /\
    let N' := N * (2 ^ f) ^ Z.of_nat (length it) + be (2 ^ f) it in
    acc' mod 2 ^ bits' = N' mod 2 ^ bits' /\ digits_ok (2 ^ t) out' /\ be (2 ^ t) out' = N' / 2 ^ bits' /\ Z.of_nat (length out') * t + bits' = k + Z.of_nat (length it) * f.
Proof.
  intros (Hf & Ht & W1 & W2). assert (Pf : 0 < 2 ^ f) by (apply Z.pow_pos_nonneg; lia). induction it as [|x it IH]; intros acc bits out N k Fi Hb HN Ha E F B L; cbn [convert_loop].
  - exists acc, bits, out. split; [done|]. split; [done|]. split; [done|]. cbn [length rev num]. rewrite Z.pow_0_r, Z.mul_1_r, !Z.add_0_r. repeat split; done || lia.
  - apply Forall_cons in Fi as [Hx Fi]. destruct (acc_step f t acc x N bits Hf Ht W1 Hb Hx Ha E) as [Ha' E']. set (acc' := Z.land _ _) in *. cbn zeta in *.
    assert (HN' : 0 <= N * 2 ^ f + x) by nia.
    destruct (convert_emit_spec (N * 2 ^ f + x) t acc' (k + f) Ht (Z.to_nat (bits + f)) (bits + f) out) as (b1 & o1 & Eo & R1 & R2 & F1 & B1 & L1); [lia|done|done|done| |lia|].
    { rewrite B, Z.pow_add_r, (Z.mul_comm (2 ^ bits)), <- Z.div_div, Z.div_add_l, (Z.div_small x) by lia. by rewrite Z.add_0_r. }
    rewrite Eo. destruct (IH acc' b1 o1 (N * 2 ^ f + x) (k + f) Fi R1 HN' Ha') as (a2 & b2 & o2 & E2 & R3 & R4 & M2 & F2 & B2 & L2); [|done|done|done|].
    { rewrite <- (mod_mod_pow acc' b1 (bits + f)), E', mod_mod_pow by lia. done. }
    exists a2, b2, o2. split; [done|]. split; [done|]. split; [done|]. cbn zeta in *. cbn [length]. rewrite be_cons, Nat2Z.inj_succ, Z.pow_succ_r by lia.
    replace (N * (2 ^ f * (2 ^ f) ^ Z.of_nat (length it)) + (x * (2 ^ f) ^ Z.of_nat (length it) + be (2 ^ f) it)) with ((N * 2 ^ f + x) * (2 ^ f) ^ Z.of_nat (length it) + be (2 ^ f) it) by ring.
    split; [done|]. split; [done|]. split; [done|]. lia.
Qed.
(** What is left over, shifted to the top of a digit. *)
Lemma leftover f t acc N bits : widths_ok f t -> 0 <= bits < t -> 0 <= acc < 2 ^ (f + t - 1) -> acc mod 2 ^ bits = N mod 2 ^ bits ->
  Z.land (u64 (Z.shiftl acc (t - bits))) (Z.shiftl 1 t - 1) = N mod 2 ^ bits * 2 ^ (t - bits).
Proof.
  intros (Hf & Ht & W1 & W2) Hb Ha E. assert (Pb : 0 < 2 ^ bits) by (apply Z.pow_pos_nonneg; lia). assert (Pt : 0 < 2 ^ (t - bits)) by (apply Z.pow_pos_nonneg; lia).
  rewrite Z.shiftl_mul_pow2, mask, land_mask by lia. rewrite u64_small.
  - replace (2 ^ t) with (2 ^ bits * 2 ^ (t - bits)) by (rewrite <- Z.pow_add_r by lia; f_equal; lia). rewrite Z.mul_mod_distr_r by lia. by rewrite E.
  - split; [nia|]. apply Z.lt_le_trans with (2 ^ (f + t - 1) * 2 ^ (t - bits)); [nia|]. rewrite <- Z.pow_add_r by lia. apply Z.pow_le_mono_r; lia.
Qed.
Lemma convert_pad f t v : widths_ok f t -> digits_ok (2 ^ f) v ->
  exists w p, ConvertBits f t true v = (w, true) /\ 0 <= p < t /\ digits_ok (2 ^ t) w /\ Z.of_nat (length w) * t = Z.of_nat (length v) * f + p /\ be (2 ^ t) w = be (2 ^ f) v * 2 ^ p.
Proof.
  intros W F. pose proof W as (Hf & Ht & _). assert (P0 : 0 < 2 ^ (f + t - 1)) by (apply Z.pow_pos_nonneg; lia).
  destruct (convert_loop_spec f t W v 0 0 [] 0 0 F) as (acc & bits & out & E & Hb & Ha & M & Fo & B & L); [lia|lia|lia|done|constructor|done|cbn;lia|].
  cbn zeta in *. rewrite Z.mul_0_l, Z.add_0_l in M, B. rewrite Z.add_0_l in L. unfold ConvertBits. rewrite E. destruct (Z.eqb_spec bits 0) as [->|N].
  - exists out, 0. rewrite Z.pow_0_r, Z.mul_1_r. rewrite Z.pow_0_r, Z.div_1_r in B. repeat split; try done; lia.
  - rewrite (leftover f t acc (be (2 ^ f) v) bits W Hb Ha M). assert (Pb : 0 < 2 ^ bits) by (apply Z.pow_pos_nonneg; lia). assert (Pt : 0 < 2 ^ (t - bits)) by (apply Z.pow_pos_nonneg; lia).
    assert (Et : 2 ^ t = 2 ^ bits * 2 ^ (t - bits)) by (rewrite <- Z.pow_add_r by lia; f_equal; lia). pose proof (Z.mod_pos_bound (be (2 ^ f) v) (2 ^ bits) Pb).
    eexists _, (t - bits). split; [reflexivity|]. split; [lia|]. split; [apply Forall_app; split; [done|]; repeat constructor; nia|]. split; [rewrite length_app; cbn [length]; lia|].
    rewrite be_snoc, B. pose proof (Z.div_mod (be (2 ^ f) v) (2 ^ bits)). rewrite Et. nia.
Qed.
Lemma convert_exact f t v : widths_ok f t -> digits_ok (2 ^ f) v ->
  exists w p, ConvertBits f t false v = (w, (p <? f) && (be (2 ^ f) v mod 2 ^ p =? 0)) /\ 0 <= p < t /\ digits_ok (2 ^ t) w /\ Z.of_nat (length w) * t + p = Z.of_nat (length v) * f /\ be (2 ^ t) w = be (2 ^ f) v / 2 ^ p.
Proof.
  intros W F. pose proof W as (Hf & Ht & _). assert (P0 : 0 < 2 ^ (f + t - 1)) by (apply Z.pow_pos_nonneg; lia).
  destruct (convert_loop_spec f t W v 0 0 [] 0 0 F) as (acc & bits & out & E & Hb & Ha & M & Fo & B & L); [lia|lia|lia|done|constructor|done|cbn;lia|].
  cbn zeta in *. rewrite Z.mul_0_l, Z.add_0_l in M, B. rewrite Z.add_0_l in L. unfold ConvertBits. rewrite E, (leftover f t acc (be (2 ^ f) v) bits W Hb Ha M). exists out, bits.
  split; [|split; [done|]; split; [done|]; split; [lia|done]]. f_equal. rewrite negb_orb, negb_involutive, <- Z.ltb_antisym. f_equal.
  assert (Pt : 0 < 2 ^ (t - bits)) by (apply Z.pow_pos_nonneg; lia). destruct (Z.eqb_spec (be (2 ^ f) v mod 2 ^ bits) 0) as [->|N]; [done|]. apply Z.eqb_neq. nia.
Qed.
Lemma same_groups (m n : nat) f p q : 0 <= p < f -> 0 <= q < f -> Z.of_nat m * f + q = Z.of_nat n * f + p -> m = n /\ q = p.
Proof. intros Hp Hq E. destruct (Z.lt_trichotomy (Z.of_nat m) (Z.of_nat n)) as [C|[C|C]]; [nia| |nia]. split; [lia|nia]. Qed.
(** Regrouping into smaller digits and back, in both directions. *)
Lemma convert_there_and_back f t v : widths_ok f t -> t <= f -> digits_ok (2 ^ f) v -> exists w, ConvertBits f t true v = (w, true) /\ digits_ok (2 ^ t) w /\ ConvertBits t f false w = (v, true).
Proof.
  intros W Le F. pose proof W as (Hf & Ht & W1 & W2). destruct (convert_pad f t v W F) as (w & p & E & Hp & Fw & L & B). exists w. split; [done|]. split; [done|].
  destruct (convert_exact t f w ltac:(by repeat split) Fw) as (v' & q & E' & Hq & Fv & L' & B'). destruct (same_groups (length v') (length v) f p q) as [Lv ->]; [lia|lia|lia|].
  assert (Pp : 0 < 2 ^ p) by (apply Z.pow_pos_nonneg; lia). rewrite E'. rewrite B, Z.div_mul in B' by lia. rewrite B, Z.mod_mul by lia. rewrite (proj2 (Z.ltb_lt p t)) by lia.
  f_equal. apply (be_inj (2 ^ f)); [apply Z.pow_pos_nonneg; lia|done|done|done|done].
Qed.
Lemma convert_back_and_there f t w v : widths_ok f t -> t <= f -> digits_ok (2 ^ t) w -> ConvertBits t f false w = (v, true) -> digits_ok (2 ^ f) v /\ ConvertBits f t true v = (w, true).
Proof.
  intros W Le F E. pose proof W as (Hf & Ht & W1 & W2). destruct (convert_exact t f w ltac:(by repeat split) F) as (v' & q & E' & Hq & Fv & L' & B'). rewrite E in E'. injection E' as <- Hc.
  symmetry in Hc. apply andb_true_iff in Hc as [H1 H2]. apply Z.ltb_lt in H1. apply Z.eqb_eq in H2. split; [done|]. destruct (convert_pad f t v W Fv) as (w' & p & E2 & Hp & Fw & L & B).
  rewrite E2. f_equal. destruct (same_groups (length w') (length w) t p q) as [Lw ->]; [lia|lia|lia|]. apply (be_inj (2 ^ t)); [apply Z.pow_pos_nonneg; lia|done|done|done|].
  rewrite B, B'. assert (Pp : 0 < 2 ^ p) by (apply Z.pow_pos_nonneg; lia). pose proof (Z.div_mod (be (2 ^ t) w) (2 ^ p)). lia.
Qed.

(** * Hexadecimal *)

Definition p_util_hexdigit : list Z :=
  repeat (-1) 48 ++ [0;1;2;3;4;5;6;7;8;9] ++ repeat (-1) 7 ++ [0xa;0xb;0xc;0xd;0xe;0xf] ++ repeat (-1) 26 ++ [0xa;0xb;0xc;0xd;0xe;0xf] ++ repeat (-1) 153.
Definition HexDigit (c : Z) : Z := nth (Z.to_nat c) p_util_hexdigit 0.
Definition IsHex (str : list Z) : bool :=
  forallb (fun c => negb (HexDigit c <? 0)) str && (0 <? Z.of_nat (length str)) && (Z.of_nat (length str) mod 2 =? 0).
(** On the characters before the NUL, where [HexDigit] is -1. *)
Fixpoint parse_hex (fuel : nat) (psz : list Z) (vch : list Z) : list Z :=
  match fuel with
  | O => vch
  | S fuel =>
      match skip_while isspace psz with
      | c1 :: psz =>
          if HexDigit c1 =? -1 then vch
          else match psz with
               | c2 :: psz => if HexDigit c2 =? -1 then vch else parse_hex fuel psz (vch ++ [Z.lor (u8 (Z.shiftl (HexDigit c1) 4)) (HexDigit c2)])
               | [] => vch
               end
      | [] => vch
      end
  end.
Definition ParseHex (str : list Z) : list Z := let psz := c_str str in parse_hex (S (length psz)) psz [].
Definition hexmap : list Z := [48;49;50;51;52;53;54;55;56;57;97;98;99;100;101;102].
Fixpoint hex_loop (fSpaces first : bool) (v : list Z) : list Z :=
  match v with
  | [] => []
  | val :: v =>
      (if fSpaces && negb first then [32] else []) ++
      [nth (Z.to_nat (Z.shiftr val 4)) hexmap 0; nth (Z.to_nat (Z.land val 15)) hexmap 0] ++ hex_loop fSpaces false v
  end.
Definition HexStr (v : list Z) (fSpaces : bool) : list Z := hex_loop fSpaces true v.

(** * Base 64 and base 32 *)

(** [while (str.size() % group) str += '='] *)
Fixpoint pad_text (fuel : nat) (group : Z) (str : list Z) : list Z :=
  match fuel with
  | O => str
  | S fuel => if Z.of_nat (length str) mod group =? 0 then str else pad_text fuel group (str ++ [61])
  end.
Definition encode_text (alphabet : list Z) (tobits group : Z) (v : list Z) : list Z :=
  pad_text (Z.to_nat group) group (map (fun d => nth (Z.to_nat d) alphabet 0) (fst (ConvertBits 8 tobits true v))).
(** The digits up to the first other character, and the rest. *)
Fixpoint table_digits (table : list Z) (p : list Z) : list Z * list Z :=
  match p with
  | [] => ([], [])
  | c :: p' =>
      let x := nth (Z.to_nat c) table 0 in
      if x =? -1 then ([], p) else let '(val, rest) := table_digits table p' in (x :: val, rest)
  end.
(** The bytes, and whether the text is valid: where the regrouping fails the rest is not
    looked at. *)
Definition decode_text (table : list Z) (tobits group : Z) (p : list Z) : list Z * bool :=
  let '(val, rest) := table_digits table p in
  let '(ret, valid) := ConvertBits tobits 8 false val in
  (ret, valid && forallb (fun c => c =? 61) rest && (Z.of_nat (length p) mod group =? 0) && (Z.of_nat (length rest) <? group)).
Definition pbase64 : list Z := map Z.of_nat (seq 65 26) ++ map Z.of_nat (seq 97 26) ++ map Z.of_nat (seq 48 10) ++ [43; 47].
Definition decode64_table : list Z :=
  repeat (-1) 43 ++ [62; -1; -1; -1; 63] ++ map Z.of_nat (seq 52 10) ++ repeat (-1) 7 ++ map Z.of_nat (seq 0 26) ++ repeat (-1) 6 ++ map Z.of_nat (seq 26 26) ++ repeat (-1) 133.
Definition EncodeBase64 (v : list Z) : list Z := encode_text pbase64 6 4 v.
Definition DecodeBase64 (str : list Z) : list Z * bool := decode_text decode64_table 6 4 (c_str str).
Definition pbase32 : list Z := map Z.of_nat (seq 97 26) ++ map Z.of_nat (seq 50 6).
Definition decode32_table : list Z :=
  repeat (-1) 50 ++ map Z.of_nat (seq 26 6) ++ repeat (-1) 9 ++ map Z.of_nat (seq 0 26) ++ repeat (-1) 6 ++ map Z.of_nat (seq 0 26) ++ repeat (-1) 133.
Definition EncodeBase32 (v : list Z) : list Z := encode_text pbase32 5 8 v.
Definition DecodeBase32 (str : list Z) : list Z * bool := decode_text decode32_table 5 8 (c_str str).

(** ** Round trips *)

Lemma hex_digits d : 0 <= d < 16 -> let c := nth (Z.to_nat d) hexmap 0 in HexDigit c = d /\ isspace c = false /\ (c =? 0) = false.
Proof.
  intros Hd. assert (A : forallb (fun d => let c := nth d hexmap 0 in (HexDigit c =? Z.of_nat d) && negb (isspace c) && negb (c =? 0)) (seq 0 16) = true) by (vm_compute; reflexivity).
  rewrite forallb_forall in A. specialize (A (Z.to_nat d) ltac:(apply in_seq; lia)). cbv zeta in *. rewrite !andb_true_iff, !negb_true_iff, Z.eqb_eq, Z2Nat.id in A by lia. tauto.
Qed.
Lemma nibbles val : byte_ok val -> 0 <= Z.shiftr val 4 < 16 /\ 0 <= Z.land val 15 < 16 /\ Z.lor (u8 (Z.shiftl (Z.shiftr val 4) 4)) (Z.land val 15) = val.
Proof.
  intros H. unfold byte_ok in H. assert (A : forallb (fun n => let val := Z.of_nat n in (Z.shiftr val 4 <? 16) && (Z.land val 15 <? 16) && (Z.lor (u8 (Z.shiftl (Z.shiftr val 4) 4)) (Z.land val 15) =? val)) (seq 0 256) = true) by (vm_compute; reflexivity).
  rewrite forallb_forall in A. specialize (A (Z.to_nat val) ltac:(apply in_seq; lia)). cbv zeta in A. rewrite Z2Nat.id, !andb_true_iff, !Z.ltb_lt, Z.eqb_eq in A by lia.
  assert (0 <= Z.shiftr val 4) by (apply Z.shiftr_nonneg; lia). assert (0 <= Z.land val 15) by (apply Z.land_nonneg; lia). repeat split; try tauto; lia.
Qed.
Lemma parse_hex_loop sp v : bytes_ok v -> forall first fuel acc, (length v < fuel)%nat -> parse_hex fuel (hex_loop sp first v) acc = acc ++ v.
Proof.
  induction 1 as [|val v Hv _ IH]; intros first [|fuel] acc L; cbn [length] in L; try lia; cbn [parse_hex hex_loop]; [by rewrite app_nil_r|].
  destruct (nibbles val Hv) as (R1 & R2 & E). destruct (hex_digits _ R1) as (D1 & S1 & _). destruct (hex_digits _ R2) as (D2 & _ & _).
  set (c1 := nth (Z.to_nat (Z.shiftr val 4)) hexmap 0) in *. set (c2 := nth (Z.to_nat (Z.land val 15)) hexmap 0) in *.
  assert (Sk : skip_while isspace ((if sp && negb first then [32] else []) ++ [c1; c2] ++ hex_loop sp false v) = c1 :: c2 :: hex_loop sp false v).
  { destruct (sp && negb first); cbn [app skip_while isspace]; by rewrite S1. }
  rewrite Sk, D1, D2. rewrite (proj2 (Z.eqb_neq _ _)) by lia. rewrite (proj2 (Z.eqb_neq (Z.land val 15) _)) by lia. rewrite E, IH by lia. by rewrite <- app_assoc.
Qed.
Lemma hex_loop_clean sp v : bytes_ok v -> forall first, Forall (fun c => (c =? 0) = false) (hex_loop sp first v) /\ (length v <= length (hex_loop sp first v))%nat.
Proof.
  induction 1 as [|val v Hv _ IH]; intros first; cbn [hex_loop]; [split; [constructor|done]|]. destruct (nibbles val Hv) as (R1 & R2 & _). destruct (IH false) as [F L]. split.
  - apply Forall_app. split; [destruct (sp && negb first); repeat constructor|]. constructor; [by destruct (hex_digits _ R1) as (_ & _ & ?)|]. constructor; [by destruct (hex_digits _ R2) as (_ & _ & ?)|done].
  - rewrite !length_app. cbn [length]. lia.
Qed.
Lemma c_str_id s : Forall (fun c => (c =? 0) = false) s -> c_str s = s.
Proof. induction 1 as [|c s H _ IH]; cbn [c_str]; [done|]. by rewrite H, IH. Qed.
(** Bytes printed in hexadecimal, with or without spaces, are read back. *)
Lemma hex_roundtrip v sp : bytes_ok v -> ParseHex (HexStr v sp) = v.
Proof.
  intros B. destruct (hex_loop_clean sp v B true) as [F L]. unfold ParseHex, HexStr. rewrite (c_str_id _ F). rewrite (parse_hex_loop sp v B) by lia. done.
Qed.

Lemma pad_text_spec g : 0 < g -> forall k fuel s, (k <= fuel)%nat -> Z.of_nat k < g -> (Z.of_nat (length s) + Z.of_nat k) mod g = 0 -> pad_text fuel g s = s ++ repeat 61 k.
Proof.
  intros Hg. induction k as [|k IH]; intros fuel s Hf Hk E.
  - rewrite app_nil_r. destruct fuel as [|fuel]; [done|]. cbn [pad_text]. rewrite Z.add_0_r in E. by rewrite E.
  - destruct fuel as [|fuel]; [lia|]. cbn [pad_text]. destruct (Z.eqb_spec (Z.of_nat (length s) mod g) 0) as [E0|_].
    + exfalso. rewrite <- Zplus_mod_idemp_l, E0, Z.add_0_l, Z.mod_small in E by lia. lia.
    + rewrite IH; [rewrite <- app_assoc; done|lia|lia|]. rewrite length_app. cbn [length]. rewrite <- E. f_equal. lia.
Qed.
Definition padding (g : Z) (n : nat) : nat := Z.to_nat (- Z.of_nat n mod g).
Lemma padding_spec g n : 0 < g -> Z.of_nat (padding g n) < g /\ (Z.of_nat n + Z.of_nat (padding g n)) mod g = 0.
Proof.
  intros Hg. unfold padding. pose proof (Z.mod_pos_bound (- Z.of_nat n) g Hg). rewrite Z2Nat.id by lia. split; [lia|]. rewrite Zplus_mod_idemp_r, Z.add_opp_diag_r. apply Z.mod_0_l. lia.
Qed.
Lemma padding_unique g n k : 0 < g -> Z.of_nat k < g -> (Z.of_nat n + Z.of_nat k) mod g = 0 -> k = padding g n.
Proof.
  intros Hg Hk E. destruct (padding_spec g n Hg) as [P1 P2]. set (p := padding g n) in *. apply Z.mod_divide in E as [a Ea]; [|lia]. apply Z.mod_divide in P2 as [b Eb]; [|lia].
  assert (Z.of_nat k - Z.of_nat p = (a - b) * g) by lia. assert (a - b = 0) by nia. lia.
Qed.

(** What an alphabet and the table that reads it must satisfy; [fold] is the change of case
    the table allows. *)
Section TextCodec.
Variables (alphabet table : list Z) (t g : Z) (fold : Z -> Z).
Hypothesis Ht : 0 < t <= 8.
Hypothesis Hg : 0 < g.
Hypothesis alphabet_read : forall d, 0 <= d < 2 ^ t -> let c := nth (Z.to_nat d) alphabet 0 in nth (Z.to_nat c) table 0 = d /\ (c =? 0) = false.
Hypothesis table_read : forall c, byte_ok c -> let x := nth (Z.to_nat c) table 0 in x <> -1 -> 0 <= x < 2 ^ t /\ nth (Z.to_nat x) alphabet 0 = fold c.
Hypothesis equals_sign : nth 61 table 0 = -1 /\ fold 61 = 61.

Abbreviation chars ds := (map (fun d => nth (Z.to_nat d) alphabet 0) ds).
Lemma codec_widths : widths_ok 8 t.
Proof. split; [lia|]. split; [lia|]. lia. Qed.
Lemma table_digits_chars ds k : digits_ok (2 ^ t) ds -> table_digits table (chars ds ++ repeat 61 k) = (ds, repeat 61 k).
Proof.
  induction 1 as [|d ds Hd _ IH]; cbn [map app table_digits].
  - destruct k; [done|]. cbn [repeat table_digits]. replace (Z.to_nat 61) with 61%nat by done. by rewrite (proj1 equals_sign).
  - destruct (alphabet_read d Hd) as [-> _]. destruct (Z.eqb_spec d (-1)); [lia|]. by rewrite IH.
Qed.
Lemma chars_clean ds k : digits_ok (2 ^ t) ds -> c_str (chars ds ++ repeat 61 k) = chars ds ++ repeat 61 k.
Proof.
  intros F. apply c_str_id, Forall_app. split; [|clear; induction k; constructor; done].
  induction F as [|d ds Hd _ IH]; cbn [map]; [constructor|]. constructor; [|done]. by destruct (alphabet_read d Hd) as [_ ?].
Qed.
Lemma codec_encode v : bytes_ok v -> exists w, ConvertBits 8 t true v = (w, true) /\ digits_ok (2 ^ t) w /\ ConvertBits t 8 false w = (v, true) /\
  encode_text alphabet t g v = chars w ++ repeat 61 (padding g (length w)).
Proof.
  intros B. destruct (convert_there_and_back 8 t v codec_widths ltac:(lia) B) as (w & E & F & D). exists w. split; [done|]. split; [done|]. split; [done|].
  unfold encode_text. rewrite E. cbn [fst]. destruct (padding_spec g (length w) Hg) as [P1 P2]. apply pad_text_spec; [done|lia|done|]. by rewrite length_map.
Qed.
Lemma codec_roundtrip v : bytes_ok v -> decode_text table t g (c_str (encode_text alphabet t g v)) = (v, true).
Proof.
  intros B. destruct (codec_encode v B) as (w & _ & F & D & ->). rewrite (chars_clean w _ F). unfold decode_text. rewrite (table_digits_chars w _ F), D.
  destruct (padding_spec g (length w) Hg) as [P1 P2]. rewrite length_app, length_map, !repeat_length, Nat2Z.inj_add, P2. cbn [Z.eqb andb]. rewrite (proj2 (Z.ltb_lt _ _)) by done.
  f_equal. rewrite !andb_true_r. apply forallb_forall. intros c ->%repeat_spec. done.
Qed.
Lemma table_digits_inv p : bytes_ok p -> forall val rest, table_digits table p = (val, rest) -> digits_ok (2 ^ t) val /\ map fold p = chars val ++ map fold rest.
Proof.
  induction 1 as [|c p Hc _ IH]; intros val rest; cbn [table_digits]; [intros [= <- <-]; split; [constructor|done]|].
  destruct (Z.eqb_spec (nth (Z.to_nat c) table 0) (-1)) as [E|N]; [intros [= <- <-]; split; [constructor|done]|]. destruct (table_digits table p) as [val' rest'] eqn:E'. intros [= <- <-].
  destruct (IH _ _ eq_refl) as [F E]. destruct (table_read c Hc N) as [R Ec]. split; [by constructor|]. cbn [map app]. rewrite Ec, E. done.
Qed.
Lemma codec_canonical p v : bytes_ok p -> decode_text table t g p = (v, true) -> bytes_ok v /\ map fold p = encode_text alphabet t g v.
Proof.
  intros B. unfold decode_text. destruct (table_digits table p) as [val rest] eqn:E. destruct (ConvertBits t 8 false val) as [ret valid] eqn:Ec. intros [= <- H].
  rewrite !andb_true_iff in H. destruct H as [[[-> H1] H2] H3]. apply Z.eqb_eq in H2. apply Z.ltb_lt in H3. destruct (table_digits_inv p B val rest E) as [F Ep].
  destruct (convert_back_and_there 8 t val ret codec_widths ltac:(lia) F Ec) as [Br Eb]. split; [exact Br|]. destruct (codec_encode ret Br) as (w & Ew & _ & _ & ->). assert (w = val) as -> by congruence.
  rewrite Ep. f_equal. assert (L : length p = (length val + length rest)%nat) by (apply (f_equal length) in Ep; rewrite length_app, !length_map in Ep; done).
  rewrite <- (padding_unique g (length val) (length rest)); [|done|done|rewrite <- Nat2Z.inj_add, <- L; done]. rewrite forallb_forall in H1. clear - H1 equals_sign. induction rest as [|c rest IH]; [done|].
  cbn [map length repeat]. pose proof (H1 c ltac:(by left)) as Hc. apply Z.eqb_eq in Hc as ->. rewrite (proj2 equals_sign). f_equal. apply IH. intros x Hx. apply H1. by right.
Qed.
End TextCodec.

Definition fold_case (c : Z) : Z := if (65 <=? c) && (c <=? 90) then c + 32 else c.
Definition codec_check (alphabet table : list Z) (n : nat) (fold : Z -> Z) : bool :=
  forallb (fun d => let c := nth d alphabet 0 in (nth (Z.to_nat c) table 0 =? Z.of_nat d) && negb (c =? 0)) (seq 0 n) &&
  forallb (fun c => let x := nth c table 0 in (x =? -1) || ((0 <=? x) && (x <? Z.of_nat n) && (nth (Z.to_nat x) alphabet 0 =? fold (Z.of_nat c)))) (seq 0 256).
Lemma codec_check_ok alphabet table t fold : 0 <= t -> codec_check alphabet table (Z.to_nat (2 ^ t)) fold = true ->
  (forall d, 0 <= d < 2 ^ t -> let c := nth (Z.to_nat d) alphabet 0 in nth (Z.to_nat c) table 0 = d /\ (c =? 0) = false) /\
  (forall c, byte_ok c -> let x := nth (Z.to_nat c) table 0 in x <> -1 -> 0 <= x < 2 ^ t /\ nth (Z.to_nat x) alphabet 0 = fold c).
Proof.
  intros Ht H. apply andb_true_iff in H as [H1 H2]. rewrite forallb_forall in H1, H2. assert (0 < 2 ^ t) by (apply Z.pow_pos_nonneg; lia). split.
  - intros d Hd. specialize (H1 (Z.to_nat d) ltac:(apply in_seq; lia)). cbv zeta in *. rewrite andb_true_iff, negb_true_iff, Z.eqb_eq, Z2Nat.id in H1 by lia. done.
  - intros c Hc x N. unfold byte_ok in Hc. specialize (H2 (Z.to_nat c) ltac:(apply in_seq; lia)). cbv zeta in H2. fold x in H2. rewrite Z2Nat.id in H2 by lia.
    apply orb_true_iff in H2 as [H2|H2]; [apply Z.eqb_eq in H2; congruence|]. rewrite !andb_true_iff, Z.leb_le, Z.ltb_lt, Z.eqb_eq, Z2Nat.id in H2 by lia. split; tauto.
Qed.
Lemma c_str_bytes s : bytes_ok s -> bytes_ok (c_str s).
Proof. induction 1 as [|c s Hc _ IH]; cbn [c_str]; [constructor|]. destruct (c =? 0); [constructor|]. by constructor. Qed.
Lemma base64_alphabet : codec_check pbase64 decode64_table (Z.to_nat (2 ^ 6)) id = true.
Proof. vm_compute. reflexivity. Qed.
Lemma base32_alphabet : codec_check pbase32 decode32_table (Z.to_nat (2 ^ 5)) fold_case = true.
Proof. vm_compute. reflexivity. Qed.
(** Bytes are read back from either text, and a text that is valid is the text of the bytes
    it stands for, in base 32 up to the case of its letters. *)
Lemma base64_roundtrip v : bytes_ok v -> DecodeBase64 (EncodeBase64 v) = (v, true).
Proof. destruct (codec_check_ok _ _ 6 _ ltac:(lia) base64_alphabet) as [A B]. intros Hv. apply (codec_roundtrip pbase64 decode64_table 6 4 id); (done || lia). Qed.
Lemma base64_canonical s v : bytes_ok s -> DecodeBase64 s = (v, true) -> bytes_ok v /\ c_str s = EncodeBase64 v.
Proof.
  destruct (codec_check_ok _ _ 6 _ ltac:(lia) base64_alphabet) as [A B]. intros Hs D. pose proof (c_str_bytes s Hs) as Hc.
  destruct (codec_canonical pbase64 decode64_table 6 4 id ltac:(lia) ltac:(lia) B ltac:(done) (c_str s) v Hc D) as [Bv E]. split; [done|]. rewrite <- (map_id (c_str s)). exact E.
Qed.
Lemma base32_roundtrip v : bytes_ok v -> DecodeBase32 (EncodeBase32 v) = (v, true).
Proof. destruct (codec_check_ok _ _ 5 _ ltac:(lia) base32_alphabet) as [A B]. intros Hv. apply (codec_roundtrip pbase32 decode32_table 5 8 fold_case); (done || lia). Qed.
Lemma base32_canonical s v : bytes_ok s -> DecodeBase32 s = (v, true) -> bytes_ok v /\ map fold_case (c_str s) = EncodeBase32 v.
Proof.
  destruct (codec_check_ok _ _ 5 _ ltac:(lia) base32_alphabet) as [A B]. intros Hs D. pose proof (c_str_bytes s Hs) as Hc.
  exact (codec_canonical pbase32 decode32_table 5 8 fold_case ltac:(lia) ltac:(lia) B ltac:(done) (c_str s) v Hc D).
Qed.

(** * Money *)

Definition CENT : Z := 1000000.
Definition isdigit (c : Z) : bool := (48 <=? c) && (c <=? 57).
(** ["%d"] for a number of at most twenty digits. *)
Fixpoint decimal_digits (fuel : nat) (n : Z) (acc : list Z) : list Z :=
  match fuel with
  | O => acc
  | S fuel => if n <? 10 then n :: acc else decimal_digits fuel (n / 10) (n mod 10 :: acc)
  end.
Definition show_decimal (n : Z) : list Z :=
  (if n <? 0 then [45] else []) ++ map (fun d => 48 + d) (decimal_digits 20 (Z.abs n) []).
(** ["%08d"] for a number that is not negative. *)
Definition show_padded (n : Z) : list Z := let s := show_decimal n in repeat 48 (8 - length s) ++ s.
(** The text from its end. *)
Fixpoint trim_zeros (r : list Z) : list Z :=
  match r with
  | c :: ((_ :: d :: _) as r') => if (c =? 48) && isdigit d then trim_zeros r' else r
  | _ => r
  end.
Definition FormatMoney (n : Z) (fPlus : bool) : list Z :=
  let n_abs := if n >? 0 then n else i64 (- n) in
  let str := show_decimal (Z.quot n_abs COIN) ++ [46] ++ show_padded (Z.rem n_abs COIN) in
  let str := rev (trim_zeros (rev str)) in
  if n <? 0 then 45 :: str else if fPlus && (n >? 0) then 43 :: str else str.
Fixpoint money_units (p : list Z) (nMult nUnits : Z) : Z * list Z :=
  match p with
  | c :: p' => if isdigit c && (nMult >? 0) then money_units p' (nMult / 10) (nUnits + nMult * (c - 48)) else (nUnits, p)
  | [] => (nUnits, [])
  end.
Fixpoint money_whole (p strWhole : list Z) : option (list Z * Z * list Z) :=
  match p with
  | [] => Some (strWhole, 0, [])
  | c :: p' =>
      if c =? 46 then let '(nUnits, rest) := money_units p' (CENT * 10) 0 in Some (strWhole, nUnits, rest)
      else if isspace c then Some (strWhole, 0, p)
      else if negb (isdigit c) then None
      else money_whole p' (strWhole ++ [c])
  end.
(** [atoi64] of a string of digits. *)
Definition whole_value (s : list Z) : Z := fold_left (fun n c => 10 * n + (c - 48)) s 0.
Definition ParseMoney (str : list Z) : option Z :=
  '(strWhole, nUnits, rest) <- money_whole (skip_while isspace (c_str str)) [];;
  if negb (forallb isspace rest) then None
  else if (10 <? length strWhole)%nat then None
  else if (nUnits <? 0) || (nUnits >? COIN) then None
  else Some (i64 (whole_value strWhole * COIN + nUnits)).

(** ** Amounts are read back *)

Lemma decimal_digits_spec fuel : forall n acc, 0 <= n < 10 ^ Z.of_nat fuel -> (0 < fuel)%nat -> digits_ok 10 acc ->
  digits_ok 10 (decimal_digits fuel n acc) /\ be 10 (decimal_digits fuel n acc) = n * 10 ^ Z.of_nat (length acc) + be 10 acc.
Proof.
  induction fuel as [|fuel IH]; intros n acc Hn Hf Ha; [lia|]. cbn [decimal_digits]. rewrite Nat2Z.inj_succ, Z.pow_succ_r in Hn by lia. destruct (Z.ltb_spec n 10) as [L|L].
  - split; [by constructor; [lia|]|]. by rewrite be_cons.
  - assert (fuel <> 0%nat) by (intros ->; cbn in Hn; lia). destruct (IH (n / 10) (n mod 10 :: acc)) as [F E]; [split; [apply Z.div_pos; lia|apply Z.div_lt_upper_bound; lia]|lia|constructor; [apply Z.mod_pos_bound; lia|done]|].
    split; [done|]. rewrite E, be_cons. cbn [length]. rewrite Nat2Z.inj_succ, Z.pow_succ_r by lia. pose proof (Z.div_mod n 10). nia.
Qed.
Lemma decimal_digits_length fuel : forall n acc k, 0 <= n < 10 ^ Z.of_nat (S k) -> (length (decimal_digits fuel n acc) <= S k + length acc)%nat.
Proof.
  induction fuel as [|fuel IH]; intros n acc k Hn; cbn [decimal_digits]; [lia|]. destruct (Z.ltb_spec n 10); [cbn [length]; lia|].
  destruct k as [|k]; [rewrite Z.pow_1_r in Hn; lia|]. rewrite Nat2Z.inj_succ, Z.pow_succ_r in Hn by lia.
  specialize (IH (n / 10) (n mod 10 :: acc) k). cbn [length] in IH. etransitivity; [apply IH|lia]. split; [apply Z.div_pos; lia|apply Z.div_lt_upper_bound; lia].
Qed.
Abbreviation digit_text ds := (map (fun d => 48 + d) ds).
Lemma show_spec n k : 0 <= n < 10 ^ Z.of_nat (S k) -> (k < 20)%nat -> exists ds, show_decimal n = digit_text ds /\ digits_ok 10 ds /\ be 10 ds = n /\ (length ds <= S k)%nat.
Proof.
  intros Hn Hk. unfold show_decimal. rewrite (proj2 (Z.ltb_ge n 0)), Z.abs_eq by lia. destruct (decimal_digits_spec 20 n []) as [F E].
  { split; [lia|]. apply Z.lt_le_trans with (10 ^ Z.of_nat (S k)); [lia|]. apply Z.pow_le_mono_r; lia. } { lia. } { constructor. }
  exists (decimal_digits 20 n []). split; [done|]. split; [done|]. split; [rewrite E; cbn; lia|]. pose proof (decimal_digits_length 20 n [] k Hn) as L. cbn [length] in L. lia.
Qed.
Lemma be_app b u v : be b (u ++ v) = be b u * b ^ Z.of_nat (length v) + be b v.
Proof. rewrite rev_app_distr, num_app, length_rev. lia. Qed.
Lemma be_zeros b n : be b (repeat 0 n) = 0.
Proof. apply num_zero, Forall_rev. clear; induction n; constructor; done. Qed.
Lemma padded_spec n : 0 <= n < COIN -> exists ds, show_padded n = digit_text ds /\ digits_ok 10 ds /\ be 10 ds = n /\ length ds = 8%nat.
Proof.
  intros Hn. destruct (show_spec n 7) as (ds & E & F & B & L); [exact Hn|lia|]. unfold show_padded. rewrite E, length_map. exists (repeat 0 (8 - length ds) ++ ds).
  rewrite map_app, map_repeat. split; [done|]. split; [apply Forall_app; split; [clear; induction (8 - length ds)%nat; constructor; (done || lia)|done]|].
  split; [rewrite be_app, be_zeros; lia|]. rewrite length_app, repeat_length. lia.
Qed.
Lemma digit_char d : 0 <= d < 10 -> isdigit (48 + d) = true /\ isspace (48 + d) = false /\ (48 + d =? 46) = false /\ (48 + d =? 0) = false.
Proof. intros H. unfold isdigit, isspace. repeat split; lia. Qed.
(** Trimming takes off zeros, and leaves two digits after the point. *)
Lemma trim_spec w : forall r, digits_ok 10 r -> (2 <= length r)%nat ->
  exists k r', trim_zeros (digit_text r ++ 46 :: w) = digit_text r' ++ 46 :: w /\ r = repeat 0 k ++ r'.
Proof.
  induction r as [|d r IH]; intros F L; cbn [length] in L; [lia|]. apply Forall_cons in F as [Hd F]. destruct r as [|e r]; [cbn in L; lia|]. destruct r as [|f r].
  - exists 0%nat, [d; e]. split; [|done]. cbn [map app trim_zeros]. rewrite andb_false_r. done.
  - change (digit_text (d :: e :: f :: r) ++ 46 :: w) with ((48 + d) :: (48 + e) :: (48 + f) :: (digit_text r ++ 46 :: w)). cbn [trim_zeros]. destruct ((48 + d =? 48) && isdigit (48 + f)) eqn:Z.
    + destruct (IH F ltac:(cbn [length]; lia)) as (k & r' & E & Er). exists (S k), r'. split; [exact E|]. rewrite Er. assert (d = 0) as -> by lia. done.
    + exists 0%nat, (d :: e :: f :: r). by split.
Qed.
Lemma money_units_spec ds : digits_ok 10 ds -> forall m u, (length ds <= m)%nat -> money_units (digit_text ds) (10 ^ (Z.of_nat m - 1)) u = (u + be 10 ds * 10 ^ (Z.of_nat m - Z.of_nat (length ds)), []).
Proof.
  induction 1 as [|d ds Hd _ IH]; intros m u L; cbn [map money_units length]; [f_equal; cbn; lia|]. cbn [length] in L. destruct m as [|m]; [lia|].
  assert (P : 0 < 10 ^ Z.of_nat m) by (apply Z.pow_pos_nonneg; lia). replace (Z.of_nat (S m) - 1) with (Z.of_nat m) by lia. destruct (digit_char d Hd) as (-> & _).
  rewrite (proj2 (Z.gtb_lt _ _)) by lia. cbn [andb]. destruct m as [|m].
  - destruct ds; [|cbn in L; lia]. cbn. f_equal. lia.
  - replace (10 ^ Z.of_nat (S m) / 10) with (10 ^ (Z.of_nat (S m) - 1)) by (rewrite Nat2Z.inj_succ, Z.pow_succ_r, Z.mul_comm, Z.div_mul by lia; f_equal; lia). rewrite IH by lia.
    f_equal. rewrite be_cons. replace (Z.of_nat (S (S m)) - Z.of_nat (S (length ds))) with (Z.of_nat (S m) - Z.of_nat (length ds)) by lia.
    replace (10 ^ Z.of_nat (S m)) with (10 ^ Z.of_nat (length ds) * 10 ^ (Z.of_nat (S m) - Z.of_nat (length ds))) by (rewrite <- Z.pow_add_r by lia; f_equal; lia). ring.
Qed.
Lemma money_whole_spec ds rest : digits_ok 10 ds -> forall acc, money_whole (digit_text ds ++ 46 :: rest) acc = let '(u, r) := money_units rest (CENT * 10) 0 in Some (acc ++ digit_text ds, u, r).
Proof.
  induction 1 as [|d ds Hd _ IH]; intros acc; cbn [map app money_whole]; [rewrite app_nil_r; done|]. destruct (digit_char d Hd) as (-> & -> & -> & _). cbn [negb]. rewrite IH.
  destruct (money_units rest (CENT * 10) 0). by rewrite <- app_assoc.
Qed.
Lemma atoi64_digits ds : whole_value (digit_text ds) = be 10 ds.
Proof. unfold whole_value. induction ds as [|d ds IH] using rev_ind; [done|]. rewrite map_app, fold_left_app, IH, be_snoc. cbn [map fold_left]. lia. Qed.
(** Amounts of at most ten digits before the point are read back from their text. *)
Lemma money_roundtrip n : 0 <= n < 10 ^ 10 * COIN -> ParseMoney (FormatMoney n false) = Some n.
Proof.
  intros Hn. assert (HC : COIN = 100000000) by done. unfold FormatMoney. replace (if n >? 0 then n else i64 (- n)) with n.
  2: { destruct (Z.gtb_spec n 0); [done|]. assert (n = 0) as -> by lia. done. }
  rewrite Z.quot_div_nonneg, Z.rem_mod_nonneg, (proj2 (Z.ltb_ge n 0)) by lia. cbn [andb].
  destruct (show_spec (n / COIN) 9) as (w & -> & Fw & Bw & Lw); [split; [apply Z.div_pos; lia|apply Z.div_lt_upper_bound; [lia|change (10 ^ Z.of_nat 10) with (10 ^ 10); lia]]|lia|].
  destruct (padded_spec (n mod COIN)) as (u & -> & Fu & Bu & Lu); [apply Z.mod_pos_bound; lia|].
  rewrite !rev_app_distr, <- !map_rev. cbn [rev app]. destruct (trim_spec (digit_text (rev w)) (rev u)) as (k & r & Er & Eu); [by apply Forall_rev|rewrite length_rev; lia|].
  rewrite <- app_assoc. cbn [app]. rewrite Er, rev_app_distr. cbn [rev]. rewrite <- !map_rev, rev_involutive, <- app_assoc. cbn [app].
  apply (f_equal (@rev Z)) in Eu. rewrite rev_involutive, rev_app_distr, rev_repeat in Eu. set (u' := rev r) in *.
  assert (Fu' : digits_ok 10 u') by (rewrite Eu in Fu; by apply Forall_app in Fu as [? _]). assert (Lu' : (length u' + k = 8)%nat) by (rewrite <- Lu, Eu, length_app, repeat_length; lia).
  assert (Cl : Forall (fun c => (c =? 0) = false) (digit_text w ++ 46 :: digit_text u')).
  { assert (D : forall ds, digits_ok 10 ds -> Forall (fun c => (c =? 0) = false) (digit_text ds)) by (induction 1 as [|d ds Hd _ IH]; constructor; [by destruct (digit_char d Hd) as (_ & _ & _ & ?)|done]).
    apply Forall_app. split; [by apply D|]. constructor; [done|by apply D]. }
  unfold ParseMoney. rewrite (c_str_id _ Cl). replace (skip_while isspace _) with (digit_text w ++ 46 :: digit_text u').
  2: { symmetry. apply stop_here. intros c r0. destruct w as [|d w]; [intros [= <- _]; done|]. intros E. apply Forall_cons in Fw as [Hd _]. apply (f_equal (hd 0)) in E. cbn in E. rewrite <- E. by destruct (digit_char d Hd) as (_ & ? & _). }
  rewrite (money_whole_spec w _ Fw []). change (CENT * 10) with (10 ^ (Z.of_nat 8 - 1)). rewrite (money_units_spec u' Fu' 8 0) by lia. cbn [obind app forallb negb]. rewrite length_map.
  destruct (Nat.ltb_spec 10 (length w)); [lia|]. assert (EU : 0 + be 10 u' * 10 ^ (Z.of_nat 8 - Z.of_nat (length u')) = n mod COIN).
  { rewrite <- Bu, Eu, be_app, be_zeros, repeat_length. replace (Z.of_nat 8 - Z.of_nat (length u')) with (Z.of_nat k) by lia. lia. }
  rewrite EU, atoi64_digits, Bw. pose proof (Z.mod_pos_bound n COIN ltac:(lia)). rewrite (proj2 (Z.ltb_ge _ 0)) by lia. rewrite Z.gtb_ltb, (proj2 (Z.ltb_ge COIN _)) by lia. cbn [orb].
  f_equal. pose proof (Z.div_mod n COIN ltac:(lia)). rewrite i64_small; lia.
Qed.

(** * Fixed-point numbers *)

Definition UPPER_BOUND : Z := 1000000000000000000 - 1.
(** [mantissa *= 10] with its guard, [n] times. *)
Fixpoint scale_mantissa (n : nat) (mantissa : Z) : option Z :=
  match n with
  | O => Some mantissa
  | S n => if mantissa >? Z.quot UPPER_BOUND 10 then None else scale_mantissa n (i64 (mantissa * 10))
  end.
Definition ProcessMantissaDigit (ch mantissa : Z) (mantissa_tzeros : nat) : option (Z * nat) :=
  if ch =? 48 then Some (mantissa, S mantissa_tzeros)
  else m <- scale_mantissa (S mantissa_tzeros) mantissa;; Some (i64 (m + (ch - 48)), 0%nat).
(** The digits at the front of the text: the mantissa, the zeros at its end, how many
    digits there were, and the rest. *)
Fixpoint mantissa_digits (val : list Z) (mantissa : Z) (mantissa_tzeros ofs : nat) : option (Z * nat * nat * list Z) :=
  match val with
  | ch :: val' =>
      if isdigit ch then '(m, z) <- ProcessMantissaDigit ch mantissa mantissa_tzeros;; mantissa_digits val' m z (S ofs)
      else Some (mantissa, mantissa_tzeros, ofs, val)
  | [] => Some (mantissa, mantissa_tzeros, ofs, [])
  end.
Fixpoint exponent_digits (val : list Z) (exponent : Z) : option (Z * list Z) :=
  match val with
  | ch :: val' =>
      if isdigit ch then if exponent >? Z.quot UPPER_BOUND 10 then None else exponent_digits val' (i64 (exponent * 10 + ch - 48))
      else Some (exponent, val)
  | [] => Some (exponent, [])
  end.
Definition starts (p : Z -> bool) (val : list Z) : bool := match val with c :: _ => p c | [] => false end.
(** The conversion at the end, with both bounds in every round. *)
Fixpoint scale_checked (n : nat) (mantissa : Z) : option Z :=
  match n with
  | O => Some mantissa
  | S n => if (mantissa >? Z.quot UPPER_BOUND 10) || (mantissa <? - Z.quot UPPER_BOUND 10) then None else scale_checked n (i64 (mantissa * 10))
  end.
Definition ParseFixedPoint (val : list Z) (decimals : Z) : option Z :=
  let '(mantissa_sign, val) := if starts (fun c => c =? 45) val then (true, tl val) else (false, val) in
  '(mantissa, tzeros, _, val) <- (if starts (fun c => c =? 48) val then Some (0, 0%nat, 0%nat, tl val)
                                  else if starts (fun c => (49 <=? c) && (c <=? 57)) val then mantissa_digits val 0 0 0 else None);;
  '(mantissa, tzeros, point_ofs, val) <- (if starts (fun c => c =? 46) val then
                                            if starts isdigit (tl val) then mantissa_digits (tl val) mantissa tzeros 0 else None
                                          else Some (mantissa, tzeros, 0%nat, val));;
  '(exponent, val) <- (if starts (fun c => (c =? 101) || (c =? 69)) val then
                         let val := tl val in
                         let '(sign, val) := if starts (fun c => c =? 43) val then (false, tl val) else if starts (fun c => c =? 45) val then (true, tl val) else (false, val) in
                         if starts isdigit val then '(e, val) <- exponent_digits val 0;; Some (if sign : bool then - e else e, val) else None
                       else Some (0, val));;
  match val with
  | _ :: _ => None
  | [] =>
      let exponent := i64 (exponent - Z.of_nat point_ofs + Z.of_nat tzeros) in
      let mantissa := if mantissa_sign : bool then - mantissa else mantissa in
      let exponent := i64 (exponent + decimals) in
      if exponent <? 0 then None
      else if 18 <=? exponent then None
      else
        m <- scale_checked (Z.to_nat exponent) mantissa;;
        if (m >? UPPER_BOUND) || (m <? - UPPER_BOUND) then None else Some m
  end.
Example fixed_point_examples : ParseFixedPoint [45;49;46;53;101;51] 8 = Some (-150000000000) /\ ParseFixedPoint [48;46;49;50] 1 = None /\ ParseFixedPoint [48;49] 8 = None.
Proof. done. Qed.

(** ** An accepted number is exact *)

(** The number a text stands for: sign, digits, digits after the point, exponent. *)
Record Number := mkNumber { neg : bool; digits : list Z; after_point : nat; exp10 : Z }.
Definition exp_text (e : option (bool * option bool * list Z)) : list Z :=
  match e with
  | None => []
  | Some (up, sign, ds) => (if up then 69 else 101) :: match sign with None => [] | Some false => [43] | Some true => [45] end ++ digit_text ds
  end.
Definition exp_value (e : option (bool * option bool * list Z)) : Z :=
  match e with None => 0 | Some (_, Some true, ds) => - be 10 ds | Some (_, _, ds) => be 10 ds end.
(** The grammar of JSON numbers. *)
Definition number_text (val : list Z) (x : Number) : Prop :=
  exists whole frac e, val = (if neg x then [45] else []) ++ digit_text whole ++ (match frac with [] => [] | _ => 46 :: digit_text frac end) ++ exp_text e /\
    digits_ok 10 whole /\ digits_ok 10 frac /\ (whole = [0] \/ exists d ds, whole = d :: ds /\ d <> 0) /\
    match e with Some (_, _, ds) => ds <> [] /\ digits_ok 10 ds | None => True end /\
    digits x = whole ++ frac /\ after_point x = length frac /\ exp10 x = exp_value e.
Lemma scale_mantissa_spec n : forall m r, 0 <= m <= UPPER_BOUND -> scale_mantissa n m = Some r -> r = m * 10 ^ Z.of_nat n /\ 0 <= r <= UPPER_BOUND /\ (n <> O -> r <= UPPER_BOUND - 9).
Proof.
  induction n as [|n IH]; intros m r Hm; cbn [scale_mantissa]; [intros [= <-]; rewrite Z.mul_1_r; split; [done|]; split; [done|]; intros N; by destruct N|]. change (Z.quot UPPER_BOUND 10) with 99999999999999999. unfold UPPER_BOUND in *.
  destruct (Z.gtb_spec m 99999999999999999); [done|]. rewrite i64_small by lia. intros H'. destruct (IH (m * 10) r ltac:(lia) H') as (E & R & B). rewrite Nat2Z.inj_succ, Z.pow_succ_r by lia.
  split; [lia|]. split; [done|]. intros _. destruct n; [cbn in H'; injection H' as <-; lia|by apply B].
Qed.
Lemma isdigit_digit c : isdigit c = true -> 0 <= c - 48 < 10 /\ c = 48 + (c - 48).
Proof. unfold isdigit. lia. Qed.
Lemma mantissa_digits_spec val : forall m z ofs m' z' ofs' rest, 0 <= m <= UPPER_BOUND -> mantissa_digits val m z ofs = Some (m', z', ofs', rest) ->
  exists ds, val = digit_text ds ++ rest /\ digits_ok 10 ds /\ ofs' = (ofs + length ds)%nat /\ 0 <= m' <= UPPER_BOUND /\ (z' <= z + length ds)%nat /\ starts isdigit rest = false /\
    m' * 10 ^ Z.of_nat z' = m * 10 ^ Z.of_nat z * 10 ^ Z.of_nat (length ds) + be 10 ds.
Proof.
  induction val as [|ch val IH]; intros m z ofs m' z' ofs' rest Hm; cbn [mantissa_digits].
  - intros [= <- <- <- <-]. exists []. split; [done|]. split; [constructor|]. split; [cbn; lia|]. split; [done|]. split; [lia|]. split; [done|]. cbn [length rev num Z.of_nat]. rewrite Z.pow_0_r. lia.
  - destruct (isdigit ch) eqn:D; [|intros [= <- <- <- <-]; exists []; split; [done|]; split; [constructor|]; split; [cbn; lia|]; split; [done|]; split; [lia|]; split; [done|]; cbn [length rev num]; rewrite Z.pow_0_r; lia].
    destruct (isdigit_digit ch D) as [R E]. intros H. apply obind_Some in H as ([m1 z1] & H1 & H2).
    assert (S1 : 0 <= m1 <= UPPER_BOUND /\ (z1 <= S z)%nat /\ m1 * 10 ^ Z.of_nat z1 = m * 10 ^ Z.of_nat z * 10 + (ch - 48)).
    { unfold ProcessMantissaDigit in H1. destruct (Z.eqb_spec ch 48) as [->|N]; [injection H1 as <- <-; split; [done|]; split; [done|]; rewrite Nat2Z.inj_succ, Z.pow_succ_r by lia; lia|].
      apply obind_Some in H1 as (r & Hr & [= <- <-]). destruct (scale_mantissa_spec _ _ _ Hm Hr) as (Er & Rr & Br). specialize (Br ltac:(done)). rewrite i64_small by (unfold UPPER_BOUND in *; lia).
      split; [unfold UPPER_BOUND in *; lia|]. split; [lia|]. rewrite Er, Nat2Z.inj_succ, Z.pow_succ_r by lia. cbn [Z.of_nat]. lia. }
    destruct S1 as (Hm1 & Hz1 & V1). destruct (IH _ _ _ _ _ _ _ Hm1 H2) as (ds & -> & F & Eo & Hm' & Hz' & St & V). exists ((ch - 48) :: ds). cbn [map app length]. split; [by rewrite <- E|].
    split; [by constructor|]. split; [lia|]. split; [done|]. split; [lia|]. split; [done|]. rewrite V, V1, be_cons, Nat2Z.inj_succ, Z.pow_succ_r by lia. ring.
Qed.
Lemma exponent_digits_spec val : forall e e' rest, 0 <= e <= UPPER_BOUND -> exponent_digits val e = Some (e', rest) ->
  exists ds, val = digit_text ds ++ rest /\ digits_ok 10 ds /\ 0 <= e' <= UPPER_BOUND /\ e' = e * 10 ^ Z.of_nat (length ds) + be 10 ds.
Proof.
  induction val as [|ch val IH]; intros e e' rest He; cbn [exponent_digits].
  - intros [= <- <-]. exists []. split; [done|]. split; [constructor|]. split; [done|]. cbn [length rev num Z.of_nat]. rewrite Z.pow_0_r. lia.
  - destruct (isdigit ch) eqn:D; [|intros [= <- <-]; exists []; split; [done|]; split; [constructor|]; split; [done|]; cbn [length rev num Z.of_nat]; rewrite Z.pow_0_r; lia]. destruct (isdigit_digit ch D) as [R E].
    change (Z.quot UPPER_BOUND 10) with 99999999999999999. destruct (Z.gtb_spec e 99999999999999999); [done|]. unfold UPPER_BOUND in *. rewrite i64_small by lia. intros H'.
    destruct (IH (e * 10 + ch - 48) e' rest ltac:(lia) H') as (ds & -> & F & R' & V). exists ((ch - 48) :: ds). cbn [map app length]. split; [by rewrite <- E|]. split; [by constructor|]. split; [done|].
    rewrite V, be_cons, Nat2Z.inj_succ, Z.pow_succ_r by lia. ring.
Qed.
Lemma scale_checked_spec n : forall m r, - UPPER_BOUND <= m <= UPPER_BOUND -> scale_checked n m = Some r -> r = m * 10 ^ Z.of_nat n.
Proof.
  induction n as [|n IH]; intros m r Hm; cbn [scale_checked]; [intros [= <-]; cbn [Z.of_nat]; rewrite Z.pow_0_r; lia|]. change (Z.quot UPPER_BOUND 10) with 99999999999999999. unfold UPPER_BOUND in *.
  destruct (_ || _) eqn:G; [done|]. apply orb_false_iff in G as [G1 G2]. rewrite i64_small by lia. intros H. rewrite (IH (m * 10) r ltac:(lia) H), Nat2Z.inj_succ, Z.pow_succ_r by lia. ring.
Qed.
Lemma starts_true p val : starts p val = true -> exists c r, val = c :: r /\ p c = true.
Proof. destruct val as [|c r]; [done|]. intros H. by exists c, r. Qed.
(** The three parts of the text. *)
Lemma whole_part val m z o rest :
  (if starts (fun c => c =? 48) val then Some (0, 0%nat, 0%nat, tl val) else if starts (fun c => (49 <=? c) && (c <=? 57)) val then mantissa_digits val 0 0 0 else None) = Some (m, z, o, rest) ->
  exists ds, val = digit_text ds ++ rest /\ digits_ok 10 ds /\ (ds = [0] \/ exists d ds', ds = d :: ds' /\ d <> 0) /\ 0 <= m <= UPPER_BOUND /\ (z <= length ds)%nat /\ m * 10 ^ Z.of_nat z = be 10 ds.
Proof.
  destruct (starts (fun c => c =? 48) val) eqn:S0.
  - apply starts_true in S0 as (c & r & -> & ->%Z.eqb_eq). intros [= <- <- _ <-]. exists [0]. split; [reflexivity|]. split; [repeat constructor; lia|]. split; [by left|]. split; [unfold UPPER_BOUND; lia|]. split; [cbn; lia|done].
  - destruct (starts (fun c => (49 <=? c) && (c <=? 57)) val) eqn:S1; [|intros [=]]. apply starts_true in S1 as (c & r & -> & Hc). intros H. destruct (mantissa_digits_spec _ 0 0 0 m z o rest ltac:(unfold UPPER_BOUND; lia) H) as (ds & E & F & _ & R & Z & St & V).
    exists ds. split; [done|]. split; [done|]. split; [|split; [done|]; split; [lia|rewrite V; lia]]. right. destruct ds as [|d ds].
    + exfalso. cbn in E. subst rest. cbn [starts] in St. unfold isdigit in St. lia.
    + exists d, ds. split; [done|]. cbn [map app] in E. injection E as E _. lia.
Qed.
Lemma fraction_part val m z m' z' ofs rest : 0 <= m <= UPPER_BOUND ->
  (if starts (fun c => c =? 46) val then if starts isdigit (tl val) then mantissa_digits (tl val) m z 0 else None else Some (m, z, 0%nat, val)) = Some (m', z', ofs, rest) ->
  exists ds, val = (match ds with [] => [] | _ => 46 :: digit_text ds end) ++ rest /\ digits_ok 10 ds /\ ofs = length ds /\ 0 <= m' <= UPPER_BOUND /\ (z' <= z + length ds)%nat /\
    m' * 10 ^ Z.of_nat z' = m * 10 ^ Z.of_nat z * 10 ^ Z.of_nat (length ds) + be 10 ds.
Proof.
  intros Hm. destruct (starts (fun c => c =? 46) val) eqn:S0.
  - apply starts_true in S0 as (c & r & -> & ->%Z.eqb_eq). cbn [tl]. destruct (starts isdigit r) eqn:S1; [|intros [=]]. intros H.
    destruct (mantissa_digits_spec _ m z 0 m' z' ofs rest Hm H) as (ds & E & F & Eo & R & Z & St & V). exists ds. destruct ds as [|d ds]; [cbn in E; congruence|]. rewrite E. (split_and!; (done || lia)).
  - intros [= <- <- <- <-]. exists []. split; [done|]. split; [constructor|]. split; [done|]. split; [done|]. split; [lia|]. cbn [length rev num Z.of_nat]. rewrite Z.pow_0_r. lia.
Qed.
Lemma exponent_part val e rest :
  (if starts (fun c => (c =? 101) || (c =? 69)) val then
     let val := tl val in
     let '(sign, val) := if starts (fun c => c =? 43) val then (false, tl val) else if starts (fun c => c =? 45) val then (true, tl val) else (false, val) in
     if starts isdigit val then '(e, val) <- exponent_digits val 0;; Some (if sign : bool then - e else e, val) else None
   else Some (0, val)) = Some (e, rest) ->
  exists x, val = exp_text x ++ rest /\ match x with Some (_, _, ds) => ds <> [] /\ digits_ok 10 ds | None => True end /\ e = exp_value x /\ - UPPER_BOUND <= e <= UPPER_BOUND.
Proof.
  destruct (starts _ val) eqn:S0; [|intros [= <- <-]; exists None; unfold UPPER_BOUND; repeat split; lia]. apply starts_true in S0 as (c & r & -> & Hc). cbn [tl].
  assert (Ec : c = if c =? 69 then 69 else 101) by (destruct (Z.eqb_spec c 69); lia). revert Ec. generalize (c =? 69) as up. intros up ->. clear Hc.
  assert (G : forall sign v, starts isdigit v = true -> (('(e, v) <- exponent_digits v 0;; Some (if sign : bool then - e else e, v)) = Some (e, rest)) ->
    exists ds, v = digit_text ds ++ rest /\ ds <> [] /\ digits_ok 10 ds /\ e = (if sign then - be 10 ds else be 10 ds) /\ - UPPER_BOUND <= e <= UPPER_BOUND).
  { intros sign v Sv H. apply obind_Some in H as ([e1 v1] & H & [= <- <-]). pose proof Sv as Sv'. apply starts_true in Sv' as (c & w & Ev & Hc).
    destruct (exponent_digits_spec v 0 e1 v1 ltac:(unfold UPPER_BOUND; lia) H) as (ds & E & F & R & V). rewrite Z.mul_0_l, Z.add_0_l in V. exists ds. split; [done|].
    split; [|split; [done|]; split; [by rewrite V|destruct sign; lia]]. intros ->. cbn in E. subst v1. rewrite Ev in H. cbn [exponent_digits] in H. rewrite Hc in H.
    change (Z.quot UPPER_BOUND 10) with 99999999999999999 in H. cbn [Z.gtb Z.compare] in H. destruct (isdigit_digit c Hc) as [Rc _]. rewrite i64_small in H by lia.
    destruct (exponent_digits_spec w (0 * 10 + c - 48) e1 (c :: w) ltac:(unfold UPPER_BOUND; lia) H) as (ds & E & _). apply (f_equal length) in E. rewrite length_app in E. cbn in E. lia. }
  destruct (starts (fun c => c =? 43) r) eqn:S1; [|destruct (starts (fun c => c =? 45) r) eqn:S2].
  - apply starts_true in S1 as (c1 & r1 & -> & ->%Z.eqb_eq). cbn [tl]. destruct (starts isdigit r1) eqn:Sd; [|intros [=]]. intros H. destruct (G false r1 Sd H) as (ds & -> & N & F & -> & R).
    exists (Some (up, Some false, ds)). (split_and!; (done || lia)).
  - apply starts_true in S2 as (c1 & r1 & -> & ->%Z.eqb_eq). cbn [tl]. destruct (starts isdigit r1) eqn:Sd; [|intros [=]]. intros H. destruct (G true r1 Sd H) as (ds & -> & N & F & -> & R).
    exists (Some (up, Some true, ds)). (split_and!; (done || lia)).
  - destruct (starts isdigit r) eqn:Sd; [|intros [=]]. intros H. destruct (G false r Sd H) as (ds & -> & N & F & -> & R). exists (Some (up, None, ds)). (split_and!; (done || lia)).
Qed.

Definition signed_digits (x : Number) : Z := if neg x then - be 10 (digits x) else be 10 (digits x).
(** A text [ParseFixedPoint] accepts is a number of the JSON grammar, and the amount is
    that number times [10 ^ decimals], exactly and within eighteen digits: nothing is
    rounded and nothing overflows. With [s] the digits with their sign, [f] of them after
    the point, and exponent [e]: [amount * 10 ^ f * 10 ^ (- e)+ = s * 10 ^ decimals * 10 ^ e+]. *)
Theorem ParseFixedPoint_exact (val : list Z) (decimals amount : Z) :
  Z.of_nat (length val) < 2 ^ 31 -> 0 <= decimals < 2 ^ 31 -> ParseFixedPoint val decimals = Some amount ->
  exists x, number_text val x /\ - 10 ^ 18 < amount < 10 ^ 18 /\
    amount * 10 ^ Z.of_nat (after_point x) * 10 ^ Z.max 0 (- exp10 x) = signed_digits x * 10 ^ decimals * 10 ^ Z.max 0 (exp10 x).
Proof.
  intros Hl Hd. unfold ParseFixedPoint. destruct (if starts _ val then _ else _) as [sg v0] eqn:Es.
  assert (Ev : val = (if sg then [45] else []) ++ v0) by (destruct (starts _ val) eqn:S0 in Es; [apply starts_true in S0 as (c & r & -> & ->%Z.eqb_eq)|]; by injection Es as <- <-). clear Es.
  intros H. apply obind_Some in H as ([[[m0 z0] o0] v1] & H0 & H). destruct (whole_part _ _ _ _ _ H0) as (wh & E0 & F0 & W0 & R0 & Z0 & V0).
  apply obind_Some in H as ([[[m1 z1] ofs] v2] & H1 & H). destruct (fraction_part _ _ _ _ _ _ _ R0 H1) as (fr & E1 & F1 & -> & R1 & Z1 & V1).
  apply obind_Some in H as ([e v3] & H2 & H). destruct (exponent_part _ _ _ H2) as (x & E2 & X2 & Ee & Re). destruct v3; [|done]. rewrite app_nil_r in E2. subst v2 v1 v0.
  assert (Ll : (length wh + length fr <= length val)%nat) by (rewrite Ev, !length_app; destruct fr; cbn [length map]; rewrite !length_map; lia).
  rewrite !i64_small in H by (rewrite ?i64_small; unfold UPPER_BOUND in *; lia). set (X := e - Z.of_nat (length fr) + Z.of_nat z1 + decimals) in *.
  destruct (Z.ltb_spec X 0) as [|HX]; [done|]. destruct (Z.leb_spec 18 X); [done|]. apply obind_Some in H as (r & Hr & H). destruct (_ || _) eqn:G in H; [done|]. injection H as <-.
  apply orb_false_iff in G as [G1 G2]. apply scale_checked_spec in Hr; [|destruct sg; lia]. rewrite Z2Nat.id in Hr by lia.
  exists (mkNumber sg (wh ++ fr) (length fr) (exp_value x)). split; [exists wh, fr, x; (split_and!; (done || lia))|]. split; [unfold UPPER_BOUND in *; lia|]. unfold signed_digits. cbn [neg digits after_point exp10].
  rewrite <- Ee, be_app, <- V0, <- V1, Hr.
  assert (P : 10 ^ X * 10 ^ Z.of_nat (length fr) * 10 ^ Z.max 0 (- e) = 10 ^ Z.of_nat z1 * 10 ^ decimals * 10 ^ Z.max 0 e) by (rewrite <- !Z.pow_add_r by lia; f_equal; unfold X; lia).
  transitivity ((if sg then - m1 else m1) * (10 ^ X * 10 ^ Z.of_nat (length fr) * 10 ^ Z.max 0 (- e))); [ring|]. rewrite P. destruct sg; ring.
Qed.
Lemma ParseFixedPoint_exact_witness : ParseFixedPoint [45; 49; 46; 53; 101; 51] 8 = Some (-150000000000) /\
  exists x, number_text [45; 49; 46; 53; 101; 51] x /\ - 10 ^ 18 < -150000000000 < 10 ^ 18 /\
    -150000000000 * 10 ^ Z.of_nat (after_point x) * 10 ^ Z.max 0 (- exp10 x) = signed_digits x * 10 ^ 8 * 10 ^ Z.max 0 (exp10 x).
Proof. split; [reflexivity|]. apply (ParseFixedPoint_exact [45; 49; 46; 53; 101; 51] 8); [reflexivity|split; [discriminate|reflexivity]|reflexivity]. Defined.

(** * Comparison in constant time *)

Fixpoint timing_loop (a : list Z) (b : list Z) (i : nat) (accumulator : Z) : Z :=
  match a with
  | [] => accumulator
  | x :: a => timing_loop a b (S i) (Z.lor accumulator (Z.lxor x (nth (i mod length b) b 0)))
  end.
Definition TimingResistantEqual (a b : list Z) : bool :=
  match b with
  | [] => (length a =? 0)%nat
  | _ => timing_loop a b 0 (Z.lxor (Z.of_nat (length a)) (Z.of_nat (length b))) =? 0
  end.
Lemma timing_loop_zero b a : forall i acc, timing_loop a b i acc = 0 <-> acc = 0 /\ forall j x, a !! j = Some x -> x = nth ((i + j) mod length b) b 0.
Proof.
  induction a as [|y a IH]; intros i acc; cbn [timing_loop]; [split; [intros ->; split; [done|]; intros j x H; rewrite lookup_nil in H; done|tauto]|].
  rewrite IH, Z.lor_eq_0_iff, Z.lxor_eq_0_iff. split.
  - intros [[-> E] H]. split; [done|]. intros [|j] x Hx; [injection Hx as <-; by rewrite Nat.add_0_r|]. rewrite (H j x Hx). f_equal. f_equal. lia.
  - intros [-> H]. split; [split; [done|rewrite (H 0%nat y eq_refl), Nat.add_0_r; done]|]. intros j x Hx. rewrite (H (S j) x Hx). f_equal. f_equal. lia.
Qed.
(** It decides equality, whatever the lengths. *)
Lemma TimingResistantEqual_iff a b : TimingResistantEqual a b = true <-> a = b.
Proof.
  unfold TimingResistantEqual. destruct b as [|z b]; [destruct a; split; done|]. set (l := z :: b). rewrite Z.eqb_eq, timing_loop_zero, Z.lxor_eq_0_iff. split.
  - intros [L H]. apply list_eq_same_length with (length l); [done|lia|]. intros i x y Hi Hx Hy. rewrite (H i x Hx), Nat.add_0_l, Nat.mod_small by lia. by apply nth_lookup_Some with (d := 0) in Hy.
  - intros ->. split; [done|]. intros j x Hx. pose proof (lookup_lt_Some _ _ _ Hx). rewrite Nat.add_0_l, Nat.mod_small by done. symmetry. by apply nth_lookup_Some.
Qed.
