(* ===== verification/Bech32.v ===== *)
(** Bech32 texts and the Sapling payment addresses written in them
    (src/bech32.cpp, src/sapling/key_io_sapling.cpp, src/chainparams.cpp). *)
From Stdlib Require Import ZArith Lia List Bool.
From stdpp Require Import base list fin_sets gmap.
From S2P Require Import Prelude Serialize Codecs Script Transaction Payments Base58 TextCodecs.
Import ListNotations.
Local Open Scope Z_scope.
Local Open Scope passion_scope.

(** * The checksum *)

Definition CHARSET : list Z :=
  [113;112;122;114;121;57;120;56;103;102;50;116;118;100;119;48;115;51;106;110;53;52;107;104;99;101;54;109;117;97;55;108].
Definition CHARSET_REV : list Z :=
  repeat (-1) 48 ++
  [15; -1; 10; 17; 21; 20; 26; 30; 7; 5; -1; -1; -1; -1; -1; -1;
   -1; 29; -1; 24; 13; 25; 9; 8; 23; -1; 18; 22; 31; 27; 19; -1;
   1; 0; 3; 16; 11; 28; 12; 14; 6; 4; 2; -1; -1; -1; -1; -1;
   -1; 29; -1; 24; 13; 25; 9; 8; 23; -1; 18; 22; 31; 27; 19; -1;
   1; 0; 3; 16; 11; 28; 12; 14; 6; 4; 2; -1; -1; -1; -1; -1].
Definition polymod_step (c v_i : Z) : Z :=
  let c0 := u8 (Z.shiftr c 25) in
  let c := Z.lxor (u32 (Z.shiftl (Z.land c 0x1ffffff) 5)) v_i in
  let c := if negb (Z.land c0 1 =? 0) then Z.lxor c 0x3b6a57b2 else c in
  let c := if negb (Z.land c0 2 =? 0) then Z.lxor c 0x26508e6d else c in
  let c := if negb (Z.land c0 4 =? 0) then Z.lxor c 0x1ea119fa else c in
  let c := if negb (Z.land c0 8 =? 0) then Z.lxor c 0x3d4233dd else c in
  if negb (Z.land c0 16 =? 0) then Z.lxor c 0x2a1462b3 else c.
Definition PolyMod (v : list Z) : Z := fold_left polymod_step v 1.
Definition LowerCase (c : Z) : Z := if (65 <=? c) && (c <=? 90) then c - 65 + 97 else c.
Definition ExpandHRP (hrp : list Z) : list Z := map (fun c => Z.shiftr c 5) hrp ++ [0] ++ map (fun c => Z.land c 0x1f) hrp.
Definition VerifyChecksum (hrp values : list Z) : bool := PolyMod (ExpandHRP hrp ++ values) =? 1.
Definition CreateChecksum (hrp values : list Z) : list Z :=
  let mod_ := Z.lxor (PolyMod ((ExpandHRP hrp ++ values) ++ repeat 0 6)) 1 in
  map (fun i => Z.land (Z.shiftr mod_ (5 * (5 - Z.of_nat i))) 31) (seq 0 6).

(** * Texts *)

Definition Encode (hrp values : list Z) : list Z :=
  let combined := values ++ CreateChecksum hrp values in
  if existsb (fun c => 32 <=? c) combined then [] else hrp ++ [49] ++ map (fun c => nth (Z.to_nat c) CHARSET 0) combined.
(** [std::string::rfind] *)
Fixpoint rfind (c : Z) (s : list Z) : option nat :=
  match s with
  | [] => None
  | x :: s => match rfind c s with Some i => Some (S i) | None => if x =? c then Some 0%nat else None end
  end.
Fixpoint rev_values (s : list Z) : option (list Z) :=
  match s with
  | [] => Some []
  | c :: s =>
      let rev := if (c <? 33) || (c >? 126) then -1 else nth (Z.to_nat c) CHARSET_REV 0 in
      if rev =? -1 then None else vs <- rev_values s;; Some (rev :: vs)
  end.
(** The human-readable part, empty on failure, and the data. *)
Definition Decode (str : list Z) : list Z * list Z :=
  if existsb (fun c => (c <? 33) || (c >? 126)) str then ([], [])
  else if existsb (fun c => (97 <=? c) && (c <=? 122)) str && existsb (fun c => (65 <=? c) && (c <=? 90)) str then ([], [])
  else
    match rfind 49 str with
    | None => ([], [])
    | Some pos =>
        if (1023 <? length str)%nat || (pos =? 0)%nat || (length str <? pos + 7)%nat then ([], [])
        else
          match rev_values (drop (pos + 1) str) with
          | None => ([], [])
          | Some values =>
              let hrp := map LowerCase (take pos str) in
              if negb (VerifyChecksum hrp values) then ([], []) else (hrp, take (length values - 6) values)
          end
    end.
Example bech32_example : Decode (Encode [112; 115] [1; 2; 31]) = ([112; 115], [1; 2; 31]).
Proof. reflexivity. Qed.

(** * The checksum is linear *)

(** Multiplication by [x] modulo the generator. *)
Definition feedback (c0 : Z) : Z :=
  let k (b K : Z) := if negb (Z.land c0 b =? 0) then K else 0 in
  Z.lxor (k 1 0x3b6a57b2) (Z.lxor (k 2 0x26508e6d) (Z.lxor (k 4 0x1ea119fa) (Z.lxor (k 8 0x3d4233dd) (k 16 0x2a1462b3)))).
Definition times_x (c : Z) : Z := Z.lxor (Z.shiftl (Z.land c (2 ^ 25 - 1)) 5) (feedback (Z.shiftr c 25)).
Definition word30 (c : Z) : Prop := 0 <= c < 2 ^ 30.
Lemma word30_xor a b : word30 a -> word30 b -> word30 (Z.lxor a b).
Proof.
  intros Ha Hb. unfold word30 in *. assert (P : 0 <= Z.lxor a b) by (apply Z.lxor_nonneg; lia). split; [done|]. destruct (Z.eq_dec (Z.lxor a b) 0) as [->|N]; [lia|].
  apply Z.log2_lt_pow2; [lia|]. pose proof (Z.log2_lxor a b ltac:(lia) ltac:(lia)).
  assert (L : forall x, 0 <= x < 2 ^ 30 -> Z.log2 x < 30) by (intros x Hx; destruct (Z.eq_dec x 0) as [->|]; [cbn; lia|apply Z.log2_lt_pow2; lia]). pose proof (L a Ha). pose proof (L b Hb). lia.
Qed.
Lemma top_small c : word30 c -> 0 <= Z.shiftr c 25 < 32.
Proof. intros H. unfold word30 in H. rewrite Z.shiftr_div_pow2 by lia. split; [apply Z.div_pos; lia|apply Z.div_lt_upper_bound; lia]. Qed.
Lemma feedback_facts :
  forallb (fun a => ((0 <=? feedback (Z.of_nat a)) && (feedback (Z.of_nat a) <? 2 ^ 30)) && implb (Z.land (feedback (Z.of_nat a)) 31 =? 0) (a =? 0)%nat &&
                    forallb (fun b => feedback (Z.lxor (Z.of_nat a) (Z.of_nat b)) =? Z.lxor (feedback (Z.of_nat a)) (feedback (Z.of_nat b))) (seq 0 32)) (seq 0 32) = true.
Proof. vm_compute. reflexivity. Qed.
Lemma feedback_ok a : 0 <= a < 32 -> word30 (feedback a) /\ (Z.land (feedback a) 31 = 0 -> a = 0) /\ forall b, 0 <= b < 32 -> feedback (Z.lxor a b) = Z.lxor (feedback a) (feedback b).
Proof.
  intros Ha. pose proof feedback_facts as A. rewrite forallb_forall in A. specialize (A (Z.to_nat a) ltac:(apply in_seq; lia)). rewrite !andb_true_iff, Z2Nat.id in A by lia.
  destruct A as [[[A1 A2] A3] A4]. split; [unfold word30; lia|]. split.
  - intros E. rewrite E in A3. cbn [implb Z.eqb] in A3. apply Nat.eqb_eq in A3. lia.
  - intros b Hb. rewrite forallb_forall in A4. specialize (A4 (Z.to_nat b) ltac:(apply in_seq; lia)). rewrite Z2Nat.id in A4 by lia. by apply Z.eqb_eq.
Qed.
Lemma shifted_word c : word30 (Z.shiftl (Z.land c (2 ^ 25 - 1)) 5).
Proof. rewrite land_mask, Z.shiftl_mul_pow2 by lia. pose proof (Z.mod_pos_bound c (2 ^ 25) ltac:(lia)). unfold word30. lia. Qed.
Lemma times_x_word c : word30 c -> word30 (times_x c).
Proof. intros H. apply word30_xor; [apply shifted_word|]. apply feedback_ok, top_small, H. Qed.
Lemma times_x_linear a b : word30 a -> word30 b -> times_x (Z.lxor a b) = Z.lxor (times_x a) (times_x b).
Proof.
  intros Ha Hb. unfold times_x. rewrite Z.shiftr_lxor. rewrite (proj2 (proj2 (feedback_ok _ (top_small a Ha))) _ (top_small b Hb)).
  replace (Z.land (Z.lxor a b) (2 ^ 25 - 1)) with (Z.lxor (Z.land a (2 ^ 25 - 1)) (Z.land b (2 ^ 25 - 1))).
  2: { apply Z.bits_inj'. intros n _. rewrite !Z.lxor_spec, !Z.land_spec, Z.lxor_spec. by destruct (Z.testbit a n), (Z.testbit b n), (Z.testbit _ n). }
  rewrite Z.shiftl_lxor, !Z.lxor_assoc. f_equal. rewrite <- !Z.lxor_assoc. f_equal. apply Z.lxor_comm.
Qed.
Lemma times_x_0 : times_x 0 = 0.
Proof. reflexivity. Qed.
Lemma times_x_small c : 0 <= c < 2 ^ 25 -> times_x c = 32 * c.
Proof.
  intros H. unfold times_x. rewrite Z.shiftr_div_pow2, Z.div_small, land_mask, Z.mod_small, Z.shiftl_mul_pow2 by lia. change (feedback 0) with 0. rewrite Z.lxor_0_r. lia.
Qed.
Lemma times_x_inj0 c : word30 c -> times_x c = 0 -> c = 0.
Proof.
  intros H E. assert (Z.shiftr c 25 = 0) as T.
  { apply (feedback_ok _ (top_small c H)). unfold times_x in E. apply Z.lxor_eq in E. rewrite <- E. change 31 with (2 ^ 5 - 1). rewrite land_mask, Z.shiftl_mul_pow2 by lia. apply Z.mod_mul. lia. }
  rewrite Z.shiftr_div_pow2 in T by lia. unfold word30 in H. assert (0 <= c < 2 ^ 25) by (apply Z.div_small_iff in T; lia). rewrite times_x_small in E by done. lia.
Qed.
Lemma cond_xor (b : bool) c K : (if b then Z.lxor c K else c) = Z.lxor c (if b then K else 0).
Proof. destruct b; [done|]. by rewrite Z.lxor_0_r. Qed.
Lemma polymod_step_eq c v : word30 c -> polymod_step c v = Z.lxor (times_x c) v.
Proof.
  intros H. pose proof (top_small c H). unfold polymod_step. rewrite u8_small by lia. change 0x1ffffff with (2 ^ 25 - 1). unfold u32. pose proof (shifted_word c) as W. unfold word30 in W. rewrite Z.mod_small by lia.
  rewrite !cond_xor. unfold times_x, feedback. rewrite !Z.lxor_assoc. f_equal. rewrite (Z.lxor_comm v), !Z.lxor_assoc. done.
Qed.

(** The remainder of a sequence of values after [c]. *)
Definition run (c : Z) (v : list Z) : Z := fold_left (fun c v_i => Z.lxor (times_x c) v_i) v c.
Abbreviation fives v := (digits_ok 32 v).
Lemma five_word d : 0 <= d < 32 -> word30 d.
Proof. unfold word30. lia. Qed.
Lemma run_word v : fives v -> forall c, word30 c -> word30 (run c v).
Proof. induction 1 as [|d v Hd _ IH]; intros c Hc; [done|]. apply IH, word30_xor; [by apply times_x_word|by apply five_word]. Qed.
Lemma polymod_run v : fives v -> forall c, word30 c -> fold_left polymod_step v c = run c v.
Proof. induction 1 as [|d v Hd _ IH]; intros c Hc; [done|]. cbn [fold_left]. rewrite polymod_step_eq by done. apply IH, word30_xor; [by apply times_x_word|by apply five_word]. Qed.
Lemma run_app c u v : run c (u ++ v) = run (run c u) v.
Proof. apply fold_left_app. Qed.
Definition xors (u v : list Z) : list Z := zip_with Z.lxor u v.
Lemma five_xor a b : 0 <= a < 32 -> 0 <= b < 32 -> 0 <= Z.lxor a b < 32.
Proof.
  intros Ha Hb. assert (A : forallb (fun a => forallb (fun b => (0 <=? Z.lxor (Z.of_nat a) (Z.of_nat b)) && (Z.lxor (Z.of_nat a) (Z.of_nat b) <? 32)) (seq 0 32)) (seq 0 32) = true) by (vm_compute; reflexivity).
  rewrite forallb_forall in A. specialize (A (Z.to_nat a) ltac:(apply in_seq; lia)). rewrite forallb_forall in A. specialize (A (Z.to_nat b) ltac:(apply in_seq; lia)). rewrite !Z2Nat.id in A by lia. lia.
Qed.
Lemma run_linear u : forall v a b, fives u -> fives v -> length u = length v -> word30 a -> word30 b -> Z.lxor (run a u) (run b v) = run (Z.lxor a b) (xors u v).
Proof.
  induction u as [|x u IH]; intros [|y v] a b Fu Fv L Ha Hb; try done. apply Forall_cons in Fu as [Hx Fu]. apply Forall_cons in Fv as [Hy Fv]. unfold run, xors. cbn [zip_with fold_left].
  rewrite times_x_linear by done. change (fold_left _ u ?c) with (run c u). change (fold_left _ v ?c) with (run c v). rewrite IH; [|done|done|by injection L|apply word30_xor; [by apply times_x_word|by apply five_word]..].
  unfold run, xors. f_equal. rewrite !Z.lxor_assoc. f_equal. rewrite <- !Z.lxor_assoc. f_equal. apply Z.lxor_comm.
Qed.
(** Six values after nothing are the digits of the remainder. *)
Lemma run_six k : fives k -> length k = 6%nat -> run 0 k = be 32 k.
Proof.
  intros F L. destruct k as [|a [|b [|c [|d [|e [|f [|]]]]]]]; try done. repeat (apply Forall_cons in F as [? F]).
  assert (S : forall c v, 0 <= c < 2 ^ 25 -> 0 <= v < 32 -> Z.lxor (times_x c) v = 32 * c + v).
  { intros x v Hx Hv. rewrite times_x_small by done. replace (32 * x) with (Z.shiftl x 5) by (rewrite Z.shiftl_mul_pow2; lia). rewrite <- Z.add_nocarry_lxor; [done|].
    apply Z.bits_inj'. intros i Hi. rewrite Z.land_spec, Z.bits_0, Z.shiftl_spec by done. destruct (Z.ltb_spec i 5); [rewrite Z.testbit_neg_r by lia; done|].
    rewrite (Z.bits_above_log2 v); [by rewrite andb_false_r|lia|]. destruct (Z.eq_dec v 0) as [->|]; [cbn; lia|]. apply Z.log2_lt_pow2; [lia|]. apply Z.lt_le_trans with (2 ^ 5); [lia|apply Z.pow_le_mono_r; lia]. }
  unfold run. cbn [fold_left]. rewrite (S 0 a), (S _ b), (S _ c), (S _ d), (S _ e), (S _ f) by lia. cbn [rev app num]. lia.
Qed.

(** ** The six check values *)

Lemma expand_fives hrp : bytes_ok hrp -> fives (ExpandHRP hrp).
Proof.
  intros B. unfold ExpandHRP. apply Forall_app. split; [|constructor; [lia|]]; apply Forall_map; eapply Forall_impl; try exact B; intros c Hc; unfold byte_ok in Hc; cbn beta.
  - rewrite Z.shiftr_div_pow2 by lia. split; [apply Z.div_pos; lia|apply Z.div_lt_upper_bound; lia].
  - change 0x1f with (2 ^ 5 - 1). rewrite land_mask by lia. apply Z.mod_pos_bound. lia.
Qed.
Lemma PolyMod_run v : fives v -> PolyMod v = run 1 v.
Proof. intros F. apply polymod_run; [done|]. unfold word30. lia. Qed.
Lemma xors_zeros k : xors k (repeat 0 (length k)) = k.
Proof. unfold xors. induction k as [|x k IH]; [done|]. cbn. by rewrite Z.lxor_0_r, IH. Qed.
Lemma zeros_fives n : fives (repeat 0 n).
Proof. induction n; constructor; (done || lia). Qed.
(** Values in place of the zeros change the remainder by themselves. *)
Lemma run_check c k : word30 c -> fives k -> length k = 6%nat -> run c k = Z.lxor (run c (repeat 0 6)) (be 32 k).
Proof.
  intros Hc F L. rewrite <- (run_six k F L). assert (E : Z.lxor (run c k) (run c (repeat 0 6)) = run 0 k).
  { rewrite run_linear by (done || apply zeros_fives). rewrite Z.lxor_nilpotent. f_equal. rewrite <- L. apply xors_zeros. }
  rewrite <- E, (Z.lxor_comm (run c k)), <- Z.lxor_assoc, Z.lxor_nilpotent. by rewrite Z.lxor_0_l.
Qed.
Lemma groups_be m : word30 m -> let k := map (fun i => Z.land (Z.shiftr m (5 * (5 - Z.of_nat i))) 31) (seq 0 6) in fives k /\ length k = 6%nat /\ be 32 k = m.
Proof.
  intros Hm k. unfold word30 in Hm. assert (G : forall s, 0 <= s -> Z.land (Z.shiftr m s) 31 = m / 2 ^ s mod 32) by (intros s Hs; change 31 with (2 ^ 5 - 1); rewrite land_mask, Z.shiftr_div_pow2 by lia; done).
  unfold k. cbn [seq map]. rewrite !G by lia. split; [repeat (constructor; [apply Z.mod_pos_bound; lia|]); constructor|]. split; [done|]. cbn [rev app num].
  change (2 ^ (5 * (5 - Z.of_nat 0))) with 33554432. change (2 ^ (5 * (5 - Z.of_nat 1))) with 1048576. change (2 ^ (5 * (5 - Z.of_nat 2))) with 32768. change (2 ^ (5 * (5 - Z.of_nat 3))) with 1024.
  change (2 ^ (5 * (5 - Z.of_nat 4))) with 32. change (2 ^ (5 * (5 - Z.of_nat 5))) with 1. change (2 ^ 30) with 1073741824 in Hm. Z.to_euclidean_division_equations. lia.
Qed.
Lemma checksum_spec hrp values : bytes_ok hrp -> fives values ->
  let k := CreateChecksum hrp values in fives k /\ length k = 6%nat /\ VerifyChecksum hrp (values ++ k) = true /\
  forall k', fives k' -> length k' = 6%nat -> VerifyChecksum hrp (values ++ k') = true -> k' = k.
Proof.
  intros B F. assert (Fx : fives (ExpandHRP hrp ++ values)) by (apply Forall_app; split; [by apply expand_fives|done]). set (c := run 1 (ExpandHRP hrp ++ values)).
  assert (Hc : word30 c) by (apply run_word; [done|]; unfold word30; lia). assert (H0 : word30 (run c (repeat 0 6))) by (apply run_word; [apply zeros_fives|done]).
  assert (V : forall k, fives k -> length k = 6%nat -> VerifyChecksum hrp (values ++ k) = (Z.lxor (run c (repeat 0 6)) (be 32 k) =? 1)).
  { intros k Fk Lk. unfold VerifyChecksum. rewrite app_assoc, PolyMod_run, run_app by (apply Forall_app; done). fold c. by rewrite run_check. }
  unfold CreateChecksum. rewrite PolyMod_run, run_app by (apply Forall_app; split; [done|apply zeros_fives]). fold c. set (m := Z.lxor (run c (repeat 0 6)) 1).
  assert (Hm : word30 m) by (apply word30_xor; [done|unfold word30; lia]). destruct (groups_be m Hm) as (Fk & Lk & Bk). set (k := map _ (seq 0 6)) in *. cbn zeta in *.
  assert (X : Z.lxor (run c (repeat 0 6)) m = 1) by (unfold m; rewrite <- Z.lxor_assoc, Z.lxor_nilpotent; apply Z.lxor_0_l).
  split; [done|]. split; [done|]. split; [rewrite V by done; rewrite Bk, X; done|]. intros k' Fk' Lk' E. rewrite V in E by done. apply Z.eqb_eq in E. apply (be_inj 32); [lia|done|done|congruence|].
  rewrite Bk. assert (Em : be 32 k' = Z.lxor (run c (repeat 0 6)) 1) by (rewrite <- E, <- Z.lxor_assoc, Z.lxor_nilpotent, Z.lxor_0_l; done). exact Em.
Qed.

(** ** Texts are read back *)

Definition hrp_ok (hrp : list Z) : Prop := hrp <> [] /\ Forall (fun c => 33 <= c <= 126 /\ LowerCase c = c) hrp.
Abbreviation symbols vs := (map (fun c => nth (Z.to_nat c) CHARSET 0) vs).
Lemma symbol d : 0 <= d < 32 -> let c := nth (Z.to_nat d) CHARSET 0 in nth (Z.to_nat c) CHARSET_REV 0 = d /\ 33 <= c <= 126 /\ c <> 49 /\ LowerCase c = c.
Proof.
  intros Hd. assert (A : forallb (fun d => let c := nth d CHARSET 0 in (nth (Z.to_nat c) CHARSET_REV 0 =? Z.of_nat d) && (33 <=? c) && (c <=? 126) && negb (c =? 49) && (LowerCase c =? c)) (seq 0 32) = true) by (vm_compute; reflexivity).
  rewrite forallb_forall in A. specialize (A (Z.to_nat d) ltac:(apply in_seq; lia)). cbv zeta in *. rewrite !andb_true_iff, negb_true_iff, !Z.eqb_eq, Z.eqb_neq, !Z.leb_le, Z2Nat.id in A by lia. tauto.
Qed.
Lemma symbol_read c : 33 <= c <= 126 -> let x := nth (Z.to_nat c) CHARSET_REV 0 in x <> -1 -> 0 <= x < 32 /\ nth (Z.to_nat x) CHARSET 0 = LowerCase c.
Proof.
  intros Hc x N. assert (A : forallb (fun c => let x := nth c CHARSET_REV 0 in (x =? -1) || ((0 <=? x) && (x <? 32) && (nth (Z.to_nat x) CHARSET 0 =? LowerCase (Z.of_nat c)))) (seq 33 94) = true) by (vm_compute; reflexivity).
  rewrite forallb_forall in A. specialize (A (Z.to_nat c) ltac:(apply in_seq; lia)). cbv zeta in A. fold x in A. rewrite Z2Nat.id in A by lia.
  apply orb_true_iff in A as [A|A]; [apply Z.eqb_eq in A; congruence|]. rewrite !andb_true_iff, Z.eqb_eq in A. split; [lia|tauto].
Qed.
Lemma rev_values_symbols vs : fives vs -> rev_values (symbols vs) = Some vs.
Proof.
  induction 1 as [|d vs Hd _ IH]; [done|]. cbn [map rev_values]. destruct (symbol d Hd) as (E & R & _ & _). set (c := nth (Z.to_nat d) CHARSET 0) in *.
  rewrite (proj2 (Z.ltb_ge c 33)), Z.gtb_ltb, (proj2 (Z.ltb_ge 126 c)) by lia. cbn [orb]. rewrite E. destruct (Z.eqb_spec d (-1)); [lia|]. by rewrite IH.
Qed.
Lemma rev_values_inv s : forall vs, rev_values s = Some vs -> fives vs /\ map LowerCase s = symbols vs.
Proof.
  induction s as [|c s IH]; intros vs; cbn [rev_values]; [intros [= <-]; split; [constructor|done]|]. destruct ((c <? 33) || (c >? 126)) eqn:R; [done|]. destruct (Z.eqb_spec (nth (Z.to_nat c) CHARSET_REV 0) (-1)) as [|N]; [done|].
  intros H. apply obind_Some in H as (vs' & Hv & [= <-]). destruct (IH _ Hv) as [F E]. destruct (symbol_read c ltac:(lia) N) as [Rx Ex]. split; [by constructor|]. cbn [map]. f_equal; [symmetry; exact Ex|exact E].
Qed.
Lemma rfind_none c s : Forall (fun x => x <> c) s -> rfind c s = None.
Proof. induction 1 as [|x s N _ IH]; [done|]. cbn. rewrite IH. by rewrite (proj2 (Z.eqb_neq x c)). Qed.
Lemma rfind_app c s t : Forall (fun x => x <> c) t -> rfind c (s ++ c :: t) = Some (length s).
Proof. intros F. induction s as [|x s IH]; cbn [app rfind length]; [by rewrite (rfind_none c t F), Z.eqb_refl|]. by rewrite IH. Qed.
Lemma rfind_inv c s : forall i, rfind c s = Some i -> s = take i s ++ c :: drop (i + 1) s.
Proof.
  induction s as [|x s IH]; intros i; cbn [rfind]; [done|]. destruct (rfind c s) as [j|]; [|destruct (Z.eqb_spec x c) as [->|]; [by intros [= <-]|done]].
  intros [= <-]. cbn [take drop Nat.add app]. f_equal. by apply IH.
Qed.
Lemma existsb_none {A} (p : A -> bool) l : existsb p l = false <-> Forall (fun x => p x = false) l.
Proof.
  induction l as [|x l IH]; cbn [existsb]; [split; [constructor|done]|]. rewrite orb_false_iff, Forall_cons, IH. done.
Qed.
Lemma LowerCase_fixed c : LowerCase c = c -> (65 <=? c) && (c <=? 90) = false.
Proof. unfold LowerCase. destruct ((65 <=? c) && (c <=? 90)) eqn:E; [lia|done]. Qed.
Lemma LowerCase_idem c : 33 <= c <= 126 -> 33 <= LowerCase c <= 126 /\ LowerCase (LowerCase c) = LowerCase c.
Proof. intros H. unfold LowerCase. destruct ((65 <=? c) && (c <=? 90)) eqn:E; [rewrite (proj2 (andb_false_iff _ _)) by lia; lia|]. rewrite E. lia. Qed.
Lemma hrp_bytes hrp : hrp_ok hrp -> bytes_ok hrp.
Proof. intros [_ F]. eapply Forall_impl; [exact F|]. intros c [Hc _]. unfold byte_ok. lia. Qed.
Lemma Encode_eq hrp values : hrp_ok hrp -> fives values -> Encode hrp values = hrp ++ 49 :: symbols (values ++ CreateChecksum hrp values).
Proof.
  intros H F. destruct (checksum_spec hrp values (hrp_bytes _ H) F) as (Fk & _). unfold Encode. rewrite (proj2 (existsb_none _ _)); [done|].
  apply Forall_app. split; (eapply Forall_impl; [first [exact F|exact Fk]|]; intros x Hx; cbn beta in *; lia).
Qed.
Lemma bech32_encode hrp values : hrp_ok hrp -> fives values -> (length hrp + length values <= 1016)%nat -> Decode (Encode hrp values) = (hrp, values).
Proof.
  intros H F L. rewrite Encode_eq by done. destruct (checksum_spec hrp values (hrp_bytes _ H) F) as (Fk & Lk & V & _). set (k := CreateChecksum hrp values) in *. set (all := values ++ k).
  assert (Fa : fives all) by (apply Forall_app; done). assert (La : length all = (length values + 6)%nat) by (unfold all; rewrite length_app; lia). destruct H as [N Fh].
  assert (Fs : Forall (fun c => 33 <= c <= 126 /\ LowerCase c = c) (symbols all)) by (apply Forall_map; eapply Forall_impl; [exact Fa|]; intros d Hd; cbn beta; destruct (symbol d Hd) as (_ & ? & _ & ?); done).
  assert (Ft : Forall (fun c => 33 <= c <= 126 /\ LowerCase c = c) (hrp ++ 49 :: symbols all)) by (apply Forall_app; split; [done|]; constructor; [done|done]).
  unfold Decode. rewrite (proj2 (existsb_none _ _)) by (eapply Forall_impl; [exact Ft|]; intros c [Hc _]; cbn beta; lia).
  rewrite (proj2 (existsb_none (fun c => (65 <=? c) && (c <=? 90)) _)), andb_false_r by (eapply Forall_impl; [exact Ft|]; intros c [_ Hc]; by apply LowerCase_fixed).
  rewrite rfind_app by (apply Forall_map; eapply Forall_impl; [exact Fa|]; intros d Hd; cbn beta; by destruct (symbol d Hd) as (_ & _ & ? & _)).
  rewrite length_app. cbn [length]. rewrite length_map. destruct (Nat.ltb_spec 1023 (length hrp + S (length all))); [lia|]. destruct (Nat.eqb_spec (length hrp) 0) as [E|_]; [by destruct hrp|].
  destruct (Nat.ltb_spec (length hrp + S (length all)) (length hrp + 7)); [lia|]. cbn [orb].
  replace (drop (length hrp + 1) (hrp ++ 49 :: symbols all)) with (symbols all) by (rewrite drop_app_ge by lia; replace (length hrp + 1 - length hrp)%nat with 1%nat by lia; done).
  rewrite (rev_values_symbols all Fa), take_app_length. replace (map LowerCase hrp) with hrp by (clear - Fh; induction Fh as [|c h [_ Hc] _ IH]; cbn [map]; [done|]; by rewrite Hc, <- IH).
  unfold all at 1. rewrite V. cbn [negb]. f_equal. rewrite La. replace (length values + 6 - 6)%nat with (length values) by lia. unfold all. by rewrite take_app_length.
Qed.
Lemma bech32_decode s hrp values : Decode s = (hrp, values) -> hrp <> [] ->
  hrp_ok hrp /\ fives values /\ length s = (length hrp + length values + 7)%nat /\ (length s <= 1023)%nat /\ map LowerCase s = Encode hrp values.
Proof.
  intros D N. unfold Decode in D. destruct (existsb _ s) eqn:C in D; [congruence|]. destruct (_ && _) in D; [congruence|]. destruct (rfind 49 s) as [pos|] eqn:R; [|congruence].
  destruct (_ || _) eqn:G in D; [congruence|]. destruct (rev_values (drop (pos + 1) s)) as [vs|] eqn:V; [|congruence]. destruct (VerifyChecksum _ vs) eqn:K in D; cbn [negb] in D; [|congruence]. injection D as <- <-.
  rewrite !orb_false_iff, !Nat.ltb_ge, Nat.eqb_neq in G. destruct G as [[G1 G2] G3]. apply existsb_none in C. pose proof (rfind_inv _ _ _ R) as Es. destruct (rev_values_inv _ _ V) as [Fv Ev].
  assert (Lp : length (take pos s) = pos) by (rewrite length_take; lia). assert (Lv : length vs = (length s - pos - 1)%nat) by (apply (f_equal length) in Ev; rewrite !length_map, length_drop in Ev; lia).
  assert (Hh : hrp_ok (map LowerCase (take pos s))).
  { split; [done|]. apply Forall_map, Forall_take. eapply Forall_impl; [exact C|]. intros c Hc. cbn beta in *. apply LowerCase_idem. lia. }
  set (hrp := map LowerCase (take pos s)) in *. set (u := take (length vs - 6) vs). assert (Fu : fives u) by (by apply Forall_take). split; [done|]. split; [done|].
  split; [unfold hrp, u; rewrite length_map, Lp, length_take; lia|]. split; [done|]. rewrite Encode_eq by done. destruct (checksum_spec hrp u (hrp_bytes _ Hh) Fu) as (_ & _ & _ & U).
  rewrite <- (U (drop (length vs - 6) vs)); [|by apply Forall_drop|rewrite length_drop; lia|unfold u; by rewrite take_drop].
  unfold u. rewrite take_drop, <- Ev. rewrite Es at 1. rewrite map_app. done.
Qed.

(** * Substituted characters are detected *)

Fixpoint rows (n : nat) (r : list Z) : list (list Z) := match n with O => [] | S n => r :: rows n (map times_x r) end.
Fixpoint distinct (l : list Z) (seen : gmap Z ()) : bool :=
  match l with [] => true | x :: l => match seen !! x with Some _ => false | None => distinct l (<[x := ()]> seen) end end.
Definition errors : list Z := map Z.of_nat (seq 1 31).
Definition high (c : Z) : Z := Z.shiftr c 5.
(** What a wrong value becomes after up to 1020 further values: the upper 25 bits are all
    different, and not zero. *)
Lemma errors_distinct : distinct (map high (concat (rows 1020 (map times_x errors)))) {[0 := ()]} = true.
Proof. vm_compute. reflexivity. Qed.
Lemma distinct_spec l : forall seen, distinct l seen = true -> NoDup l /\ Forall (fun x => seen !! x = None) l.
Proof.
  induction l as [|x l IH]; intros seen; cbn [distinct]; [intros _; split; constructor|]. destruct (seen !! x) eqn:E; [done|]. intros H. destruct (IH _ H) as [N F]. split.
  - constructor; [|done]. intros Hx. rewrite Forall_forall in F. specialize (F x Hx). by rewrite lookup_insert_eq in F.
  - constructor; [done|]. eapply Forall_impl; [exact F|]. intros y Hy. cbn beta in Hy. destruct (decide (x = y)) as [->|]; [by rewrite lookup_insert_eq in Hy|by rewrite lookup_insert_ne in Hy].
Qed.
Abbreviation power i c := (Nat.iter i times_x c).
Lemma power_S i c : power i (times_x c) = power (S i) c.
Proof. symmetry. apply Nat.iter_succ_r. Qed.
Lemma rows_in n : forall r i a, (i < n)%nat -> a ∈ r -> power i a ∈ concat (rows n r).
Proof.
  induction n as [|n IH]; intros r i a Hi Ha; [lia|]. cbn [rows concat]. apply elem_of_app. destruct i as [|i]; [by left|]. right. rewrite <- power_S. apply IH; [lia|]. by apply list_elem_of_fmap_2.
Qed.
Lemma high_in n r i a : (i < n)%nat -> a ∈ r -> high (power i a) ∈ map high (concat (rows n r)).
Proof. intros Hi Ha. apply list_elem_of_fmap_2, rows_in; done. Qed.
Lemma rows_distinct n : forall r i j a b, NoDup (map high (concat (rows n r))) -> (i < j < n)%nat -> a ∈ r -> b ∈ r -> high (power i a) <> high (power j b).
Proof.
  induction n as [|n IH]; intros r i j a b D Hij Ha Hb; [lia|]. cbn [rows concat] in D. rewrite map_app in D. apply NoDup_app in D as (_ & D & D').
  destruct j as [|j]; [lia|]. rewrite <- power_S. assert (Hb' : times_x b ∈ map times_x r) by (by apply list_elem_of_fmap_2). destruct i as [|i].
  - intros E. apply (D (high a)); [by apply list_elem_of_fmap_2|]. cbn in E. rewrite E. apply high_in; [lia|done].
  - rewrite <- power_S. apply (IH (map times_x r)); [done|lia|by apply list_elem_of_fmap_2|done].
Qed.
Lemma error_in a : 0 <= a < 32 -> a <> 0 -> a ∈ errors.
Proof. intros H N. unfold errors. apply list_elem_of_fmap. exists (Z.to_nat a). split; [lia|]. apply elem_of_seq. lia. Qed.
Lemma power_word i a : word30 a -> word30 (power i a).
Proof. intros H. induction i as [|i IH]; [done|]. cbn. by apply times_x_word. Qed.
Lemma error_high i a : (i < 1020)%nat -> 0 <= a < 32 -> a <> 0 -> high (power (S i) a) <> 0.
Proof.
  intros Hi Ha N E. destruct (distinct_spec _ _ errors_distinct) as [_ F]. rewrite Forall_forall in F. specialize (F (high (power i (times_x a)))).
  rewrite power_S, E, lookup_singleton_eq in F. discriminate F. rewrite <- E, <- power_S. apply high_in; [done|]. apply list_elem_of_fmap_2, error_in; done.
Qed.
Lemma errors_apart i j a b : (i < j < 1020)%nat -> 0 <= a < 32 -> a <> 0 -> 0 <= b < 32 -> b <> 0 -> high (power (S i) a) <> high (power (S j) b).
Proof.
  intros Hij Ha Na Hb Nb. rewrite <- !power_S. destruct (distinct_spec _ _ errors_distinct) as [D _]. apply (rows_distinct 1020 (map times_x errors)); [done|done|..]; apply list_elem_of_fmap_2, error_in; done.
Qed.

(** ** Up to three wrong values *)

Fixpoint wrong (e : list Z) : nat := match e with [] => 0 | x :: e => (if x =? 0 then 0 else 1) + wrong e end.
Lemma wrong_app u v : wrong (u ++ v) = (wrong u + wrong v)%nat.
Proof. induction u as [|x u IH]; cbn [app wrong]; [done|]. rewrite IH. lia. Qed.
Lemma run_snoc c u e : run c (u ++ [e]) = Z.lxor (times_x (run c u)) e.
Proof. by rewrite run_app. Qed.
Lemma wrong_0 e : fives e -> wrong e = 0%nat -> run 0 e = 0.
Proof.
  induction e as [|x e IH] using rev_ind; intros F W; [done|]. apply Forall_app in F as [F Fx]. rewrite wrong_app in W. cbn [wrong] in W. destruct (Z.eqb_spec x 0) as [->|]; [|lia]. by rewrite run_snoc, IH by (done || lia).
Qed.
Lemma wrong_1 e : fives e -> wrong e = 1%nat -> exists i a, (i < length e)%nat /\ 0 <= a < 32 /\ a <> 0 /\ run 0 e = power i a.
Proof.
  induction e as [|x e IH] using rev_ind; intros F W; [done|]. apply Forall_app in F as [F Fx]. apply Forall_cons in Fx as [Hx _]. rewrite wrong_app in W. cbn [wrong] in W. rewrite run_snoc, length_app. cbn [length].
  destruct (Z.eqb_spec x 0) as [->|N].
  - destruct (IH F ltac:(lia)) as (i & a & Hi & Ha & Na & ->). exists (S i), a. rewrite Z.lxor_0_r. split; [lia|done].
  - rewrite wrong_0 by (done || lia). exists 0%nat, x. split; [lia|done].
Qed.
Lemma wrong_2 e : fives e -> wrong e = 2%nat -> exists i j a b, (i < j < length e)%nat /\ (0 <= a < 32 /\ a <> 0) /\ (0 <= b < 32 /\ b <> 0) /\ run 0 e = Z.lxor (power i a) (power j b).
Proof.
  induction e as [|x e IH] using rev_ind; intros F W; [done|]. apply Forall_app in F as [F Fx]. apply Forall_cons in Fx as [Hx _]. rewrite wrong_app in W. cbn [wrong] in W. rewrite run_snoc, length_app. cbn [length].
  destruct (Z.eqb_spec x 0) as [->|N].
  - destruct (IH F ltac:(lia)) as (i & j & a & b & Hij & Ha & Hb & ->). exists (S i), (S j), a, b. rewrite Z.lxor_0_r. split; [lia|]. split; [done|]. split; [done|].
    apply times_x_linear; apply power_word, five_word; tauto.
  - destruct (wrong_1 e F ltac:(lia)) as (j & b & Hj & Hb & Nb & ->). exists 0%nat, (S j), x, b. split; [lia|]. split; [done|]. split; [done|]. apply Z.lxor_comm.
Qed.
Lemma few_wrong e : fives e -> (length e <= 1021)%nat -> (wrong e <= 3)%nat -> run 0 e = 0 -> Forall (fun x => x = 0) e.
Proof.
  induction e as [|x e IH] using rev_ind; intros F L W R; [constructor|]. apply Forall_app in F as [F Fx]. apply Forall_cons in Fx as [Hx _]. rewrite wrong_app in W. cbn [wrong] in W.
  rewrite length_app in L. cbn [length] in L. rewrite run_snoc in R. apply Z.lxor_eq in R. destruct (Z.eqb_spec x 0) as [->|N].
  - apply Forall_app. split; [|by repeat constructor]. apply IH; [done|lia|lia|]. apply times_x_inj0; [|done]. apply run_word; [done|]. unfold word30. lia.
  - exfalso. assert (Hh : high x = 0) by (unfold high; rewrite Z.shiftr_div_pow2, Z.div_small by lia; done). destruct (wrong e) as [|[|[|]]] eqn:We; [| | |lia].
    + rewrite (wrong_0 e F We), times_x_0 in R. done.
    + destruct (wrong_1 e F We) as (i & a & Hi & Ha & Na & E). rewrite E in R. apply (error_high i a); [lia|done|done|]. rewrite <- Hh, <- R. done.
    + destruct (wrong_2 e F We) as (i & j & a & b & Hij & [Ha Na] & [Hb Nb] & E). rewrite E, times_x_linear in R by (apply power_word, five_word; done).
      apply (errors_apart i j a b); [lia|done|done|done|done|]. apply (f_equal high) in R. rewrite Hh in R. unfold high in R. rewrite Z.shiftr_lxor in R. by apply Z.lxor_eq in R.
Qed.

(** ** Texts *)

Definition differences (s t : list Z) : nat := length (List.filter (fun p => negb (fst p =? snd p)) (combine s t)).
Lemma differences_app p s t : differences (p ++ s) (p ++ t) = differences s t.
Proof. unfold differences. induction p as [|c p IH]; [done|]. cbn. rewrite Z.eqb_refl. exact IH. Qed.
Lemma symbol_inj a b : 0 <= a < 32 -> 0 <= b < 32 -> nth (Z.to_nat a) CHARSET 0 = nth (Z.to_nat b) CHARSET 0 -> a = b.
Proof. intros Ha Hb E. destruct (symbol a Ha) as [<- _]. destruct (symbol b Hb) as [<- _]. by rewrite E. Qed.
Lemma differences_symbols u : forall v, fives u -> fives v -> length u = length v -> differences (symbols u) (symbols v) = wrong (xors u v).
Proof.
  unfold differences, xors. induction u as [|a u IH]; intros [|b v] Fu Fv L; try done. apply Forall_cons in Fu as [Ha Fu]. apply Forall_cons in Fv as [Hb Fv]. injection L as L. specialize (IH v Fu Fv L).
  cbn [map combine List.filter zip_with wrong fst snd]. destruct (Z.eqb_spec (nth (Z.to_nat a) CHARSET 0) (nth (Z.to_nat b) CHARSET 0)) as [E|N].
  - apply symbol_inj in E as ->; [|done|done]. rewrite Z.lxor_nilpotent. exact IH.
  - destruct (Z.eqb_spec (Z.lxor a b) 0) as [->%Z.lxor_eq|_]; [done|]. cbn [negb length]. by rewrite IH.
Qed.
Lemma xors_fives u : forall v, fives u -> fives v -> length u = length v -> fives (xors u v) /\ length (xors u v) = length u.
Proof.
  unfold xors. induction u as [|a u IH]; intros [|b v] Fu Fv L; try done. apply Forall_cons in Fu as [Ha Fu]. apply Forall_cons in Fv as [Hb Fv]. injection L as L. destruct (IH v Fu Fv L) as [F E].
  cbn [zip_with length]. split; [constructor; [by apply five_xor|done]|by f_equal].
Qed.
Lemma xors_zero u : forall v, length u = length v -> Forall (fun x => x = 0) (xors u v) -> u = v.
Proof.
  unfold xors. induction u as [|a u IH]; intros [|b v] L F; try done. cbn in F. apply Forall_cons in F as [->%Z.lxor_eq F]. injection L as L. f_equal. by apply IH.
Qed.
(** C32: two different texts of the same length with the same human-readable part that are
    both accepted differ, letter case apart, in at least four characters: no accepted text
    becomes another accepted one by changing up to three characters of its data, at any length
    a text can have. *)
Theorem bech32_detects (s t hrp u v : list Z) :
  Decode s = (hrp, u) -> Decode t = (hrp, v) -> hrp <> [] -> length s = length t ->
  map LowerCase s = map LowerCase t \/ (4 <= differences (map LowerCase s) (map LowerCase t))%nat.
Proof.
  intros Ds Dt N L. destruct (bech32_decode s hrp u Ds N) as (H & Fu & Ls & Lm & Es). destruct (bech32_decode t hrp v Dt N) as (_ & Fv & Lt & _ & Et).
  rewrite Es, Et, !Encode_eq by done. pose proof (hrp_bytes _ H) as B. destruct (checksum_spec hrp u B Fu) as (Fk & Lk & Vu & _). destruct (checksum_spec hrp v B Fv) as (Fl & Ll & Vv & _).
  set (x := u ++ CreateChecksum hrp u) in *. set (y := v ++ CreateChecksum hrp v) in *. assert (Fx : fives x) by (by apply Forall_app). assert (Fy : fives y) by (by apply Forall_app).
  assert (Lxy : length x = length y) by (unfold x, y; rewrite !length_app; lia). destruct (decide (4 <= wrong (xors x y))%nat) as [W|W].
  - right. change (hrp ++ 49 :: symbols x) with (hrp ++ [49] ++ symbols x). change (hrp ++ 49 :: symbols y) with (hrp ++ [49] ++ symbols y). rewrite !app_assoc, differences_app, differences_symbols by done. done.
  - left. do 2 f_equal. f_equal. destruct (xors_fives x y Fx Fy Lxy) as [Fe Le]. apply xors_zero; [done|]. apply few_wrong; [done| |lia|].
    + rewrite Le. unfold x. rewrite length_app. destruct hrp; [done|]. cbn [length] in Ls. lia.
    + unfold VerifyChecksum in Vu, Vv. apply Z.eqb_eq in Vu, Vv. assert (Fh := expand_fives _ B). rewrite PolyMod_run, run_app in Vu, Vv by (by apply Forall_app).
      assert (Hc : word30 (run 1 (ExpandHRP hrp))) by (apply run_word; [done|]; unfold word30; lia). pose proof (run_linear x y _ _ Fx Fy Lxy Hc Hc) as E. rewrite Vu, Vv, !Z.lxor_nilpotent in E. by rewrite <- E.
Qed.

(** * Sapling keys and addresses *)

Record SaplingPaymentAddress := mkPaymentAddress { pa_d : list Z; pa_pk_d : list Z }.
Record SaplingFullViewingKey := mkFullViewingKey { fvk_ak : list Z; fvk_nk : list Z; fvk_ovk : list Z }.
Record SaplingExpandedSpendingKey := mkExpandedSpendingKey { esk_ask : list Z; esk_nsk : list Z; esk_ovk : list Z }.
(** The two extended keys have the same fields around the key itself. *)
Record ExtendedKey (K : Type) := mkExtendedKey { xk_depth : Z; xk_parentFVKTag : Z; xk_childIndex : Z; xk_chaincode : list Z; xk_key : K; xk_dk : list Z }.
Arguments mkExtendedKey {K}. Arguments xk_depth {K}. Arguments xk_parentFVKTag {K}. Arguments xk_childIndex {K}. Arguments xk_chaincode {K}. Arguments xk_key {K}. Arguments xk_dk {K}.

(** A format whose values all have the same size, and which writes whatever it reads. *)
Class FixedFormat {A} (codec : Serializable A) (n : nat) := {
  fixed_size : forall x, ser_ok x -> length (Serialize x) = n /\ bytes_ok (Serialize x);
  fixed_read : forall s r, bytes_ok s -> length s = n -> exists x, Unserialize (s ++ r) = Some (x, r) /\ ser_ok x /\ Serialize x = s
}.
#[export] Instance fixed_blob n : FixedFormat (ser_blob n) n.
Proof. split; [done|]. intros s r B L. exists s. split; [by apply stream_read_length|]. done. Qed.
#[export] Instance fixed_array n : FixedFormat (ser_array n) n.
Proof.
  split; [intros x [L B]; cbn; by rewrite Serialize_array_eq|]. intros s r B L. exists s. cbn. rewrite Unserialize_array_eq, Serialize_array_eq by done. split; [by apply stream_read_length|]. done.
Qed.
(** Two formats one after the other. *)
Definition ser_seq {A B} (ca : Serializable A) (cb : Serializable B) : Serializable (A * B).
Proof.
  refine {| Serialize := fun p => Serialize (fst p) ++ Serialize (snd p);
            Unserialize := fun s => '(a, s) <- Unserialize s;; '(b, s) <- Unserialize s;; Some ((a, b), s);
            ser_ok := fun p => ser_ok (fst p) /\ ser_ok (snd p) |}.
  - intros [a b] r [Ha Hb]. cbn [fst snd] in *. read_back.
  - intros s x r Hs H. read_facts H. injection H as <- <-. auto.
Defined.
#[export] Instance fixed_seq {A B} (ca : Serializable A) (cb : Serializable B) m n : FixedFormat ca m -> FixedFormat cb n -> FixedFormat (ser_seq ca cb) (m + n).
Proof.
  intros FA FB. split.
  - intros [a b] [Ha Hb]. cbn in *. destruct (fixed_size (FixedFormat := FA) a Ha) as [La Ba]. destruct (fixed_size (FixedFormat := FB) b Hb) as [Lb Bb]. rewrite length_app, La, Lb. split; [done|by apply Forall_app].
  - intros s r B0 L. assert (Lu : length (take m s) = m) by (rewrite length_take; lia). assert (Lv : length (drop m s) = n) by (rewrite length_drop; lia). rewrite <- (take_drop m s) in B0 |- *.
    set (u := take m s) in *. set (v := drop m s) in *.
    apply Forall_app in B0 as [Bu Bv]. destruct (fixed_read (FixedFormat := FA) u (v ++ r) Bu) as (a & Ea & Oa & Sa); [done|]. destruct (fixed_read (FixedFormat := FB) v r Bv) as (b & Eb & Ob & Sb); [done|].
    exists (a, b). cbn. rewrite <- app_assoc, Ea. cbn [obind]. rewrite Eb. cbn [obind]. split; [done|]. split; [done|]. by rewrite Sa, Sb.
Qed.
(** A record with the fields of a pair. *)
Definition ser_record {A B} (c : Serializable A) (f : A -> B) (g : B -> A) (fg : forall b, f (g b) = b) (gf : forall a, g (f a) = a) : Serializable B.
Proof.
  refine {| Serialize := fun b => Serialize (g b); Unserialize := fun s => '(a, s) <- Unserialize s;; Some (f a, s); ser_ok := fun b => ser_ok (g b) |}.
  - intros b r H. rewrite Unserialize_Serialize by done. cbn [obind]. by rewrite fg.
  - intros s x r Hs H. apply obind_Some in H as ([a s'] & H & [= <- <-]). apply Unserialize_ok in H as [? ?]; [|done]. by rewrite gf.
Defined.
#[export] Instance fixed_record {A B} (c : Serializable A) (f : A -> B) (g : B -> A) fg gf n : FixedFormat c n -> FixedFormat (ser_record c f g fg gf) n.
Proof.
  intros F. split; [intros b H; cbn; by apply fixed_size|]. intros s r Bs L. destruct (fixed_read (FixedFormat := F) s r Bs L) as (a & Ea & Oa & Sa). exists (f a). cbn. rewrite Ea. cbn [obind]. rewrite gf. by split.
Qed.
Definition ser_PaymentAddress : Serializable SaplingPaymentAddress :=
  ser_record (ser_seq (ser_array 11) (ser_blob 32)) (fun p => mkPaymentAddress (fst p) (snd p)) (fun a => (pa_d a, pa_pk_d a)) ltac:(by intros []) ltac:(by intros []).
Definition ser_FullViewingKey : Serializable SaplingFullViewingKey :=
  ser_record (ser_seq (ser_blob 32) (ser_seq (ser_blob 32) (ser_blob 32))) (fun p => mkFullViewingKey (fst p) (fst (snd p)) (snd (snd p))) (fun k => (fvk_ak k, (fvk_nk k, fvk_ovk k))) ltac:(by intros []) ltac:(by intros [? []]).
Definition ser_ExpandedSpendingKey : Serializable SaplingExpandedSpendingKey :=
  ser_record (ser_seq (ser_blob 32) (ser_seq (ser_blob 32) (ser_blob 32))) (fun p => mkExpandedSpendingKey (fst p) (fst (snd p)) (snd (snd p))) (fun k => (esk_ask k, (esk_nsk k, esk_ovk k))) ltac:(by intros []) ltac:(by intros [? []]).
(** Numbers of one and four bytes. *)
Definition ser_uint8 : Serializable Z.
Proof.
  refine {| Serialize := ser_writedata8; Unserialize := ser_readdata8; ser_ok := byte_ok |}.
  - intros x r H. unfold ser_writedata8. rewrite u8_small by (unfold byte_ok in H; lia). apply ser_readdata8_cons.
  - intros [|x s] y r Hs; [done|]. rewrite ser_readdata8_cons. intros [= <- <-]. by apply Forall_cons in Hs.
Defined.
#[export] Instance fixed_uint8 : FixedFormat ser_uint8 1.
Proof.
  split; [intros x H; cbn in *; unfold ser_writedata8; rewrite u8_small by (unfold byte_ok in H; lia); split; [done|constructor; [done|constructor]]|].
  intros s r B L. destruct s as [|x [|]]; try done. apply Forall_cons in B as [Hx _]. exists x. cbn [app]. split; [apply ser_readdata8_cons|]. split; [done|]. cbn. unfold ser_writedata8. by rewrite u8_small by (unfold byte_ok in Hx; lia).
Qed.
#[export] Instance fixed_uint32 : FixedFormat ser_uint32 4.
Proof.
  split.
  - intros x H. change (length (ser_writedata32 x) = 4%nat /\ bytes_ok (ser_writedata32 x)). rewrite ser_writedata32_le by exact H. split; [apply length_le_bytes|apply le_bytes_ok].
  - intros s r B L. exists (le_value s). change (ser_readdata32 (s ++ r) = Some (le_value s, r) /\ 0 <= le_value s < 2 ^ 32 /\ ser_writedata32 (le_value s) = s).
    pose proof (le_bytes_value s B) as E. rewrite L in E. pose proof (le_value_bytes 4 (le_value s)) as V. rewrite E in V.
    assert (R : 0 <= le_value s < 2 ^ 32) by (rewrite V; change (256 ^ Z.of_nat 4) with (2 ^ 32); apply Z.mod_pos_bound; lia).
    rewrite ser_readdata32_le, ser_writedata32_le by done. split; [|by split]. rewrite <- E at 1. by apply read_le_bytes.
Qed.
Definition ser_ExtendedKey {K} (ck : Serializable K) : Serializable (ExtendedKey K) :=
  ser_record (ser_seq ser_uint8 (ser_seq ser_uint32 (ser_seq ser_uint32 (ser_seq (ser_blob 32) (ser_seq ck (ser_blob 32))))))
    (fun p => let '(a, (b, (c, (d, (e, f))))) := p in mkExtendedKey a b c d e f) (fun k => (xk_depth k, (xk_parentFVKTag k, (xk_childIndex k, (xk_chaincode k, (xk_key k, xk_dk k))))))
    ltac:(by intros []) ltac:(by intros (? & ? & ? & ? & ? & ?)).

(** ** Their texts *)

Definition SAPLING_PAYMENT_ADDRESS (n : Network) : list Z :=
  match n with MAIN => [112; 115] | _ => [112; 116; 101; 115; 116; 115; 97; 112; 108; 105; 110; 103] end.
Definition SAPLING_EXTENDED_FVK (n : Network) : list Z :=
  match n with MAIN => [112; 120; 118; 105; 101; 119; 115] | _ => [112; 120; 118; 105; 101; 119; 116; 101; 115; 116; 115; 97; 112; 108; 105; 110; 103] end.
Definition SAPLING_EXTENDED_SPEND_KEY (n : Network) : list Z :=
  [112; 45; 115; 101; 99; 114; 101; 116; 45; 115; 112; 101; 110; 100; 105; 110; 103; 45; 107; 101; 121; 45] ++ match n with MAIN => [109; 97; 105; 110] | _ => [116; 101; 115; 116] end.
Definition ConvertedSaplingPaymentAddressSize : nat := ((32 + 11) * 8 + 4) / 5.
Definition ZIP32_XFVK_SIZE : nat := 169.
Definition ZIP32_XSK_SIZE : nat := 169.
Definition ConvertedSaplingExtendedFullViewingKeySize : nat := (ZIP32_XFVK_SIZE * 8 + 4) / 5.
Definition ConvertedSaplingExtendedSpendingKeySize : nat := (ZIP32_XSK_SIZE * 8 + 4) / 5.
(** [None] stands for [InvalidEncoding]. *)
Definition encode_key {A} (codec : Serializable A) (hrp : list Z) (x : option A) : list Z :=
  match x with None => [] | Some x => Encode hrp (fst (ConvertBits 8 5 true (Serialize x))) end.
(** The outer [None]: the stream ends before the value. *)
Definition decode_key {A} (codec : Serializable A) (hrp : list Z) (size : nat) (str : list Z) : option (option A) :=
  let bech := Decode str in
  if bool_decide (fst bech = hrp) && (length (snd bech) =? size)%nat then
    let '(data, ok) := ConvertBits 5 8 false (snd bech) in
    if ok : bool then '(x, _) <- Unserialize data;; Some (Some x) else Some None
  else Some None.
Definition EncodePaymentAddress (n : Network) : option SaplingPaymentAddress -> list Z := encode_key ser_PaymentAddress (SAPLING_PAYMENT_ADDRESS n).
Definition DecodePaymentAddress (n : Network) : list Z -> option (option SaplingPaymentAddress) := decode_key ser_PaymentAddress (SAPLING_PAYMENT_ADDRESS n) ConvertedSaplingPaymentAddressSize.
Definition EncodeViewingKey (n : Network) : option (ExtendedKey SaplingFullViewingKey) -> list Z := encode_key (ser_ExtendedKey ser_FullViewingKey) (SAPLING_EXTENDED_FVK n).
Definition DecodeViewingKey (n : Network) : list Z -> option (option (ExtendedKey SaplingFullViewingKey)) := decode_key (ser_ExtendedKey ser_FullViewingKey) (SAPLING_EXTENDED_FVK n) ConvertedSaplingExtendedFullViewingKeySize.
Definition EncodeSpendingKey (n : Network) : option (ExtendedKey SaplingExpandedSpendingKey) -> list Z := encode_key (ser_ExtendedKey ser_ExpandedSpendingKey) (SAPLING_EXTENDED_SPEND_KEY n).
Definition DecodeSpendingKey (n : Network) : list Z -> option (option (ExtendedKey SaplingExpandedSpendingKey)) := decode_key (ser_ExtendedKey ser_ExpandedSpendingKey) (SAPLING_EXTENDED_SPEND_KEY n) ConvertedSaplingExtendedSpendingKeySize.

(** What a pair of functions promises: values are read back, reading any text returns, and a
    text that is read is the text of its value, up to the case of its letters. *)
Definition text_codec {A} (encode : option A -> list Z) (decode : list Z -> option (option A)) (ok : A -> Prop) : Prop :=
  (forall x, ok x -> decode (encode (Some x)) = Some (Some x)) /\
  (forall str, exists r, decode str = Some r /\ forall x, r = Some x -> ok x /\ map LowerCase str = encode (Some x)).
Section KeyText.
Context {A : Type} (codec : Serializable A) (n size : nat) (hrp : list Z) {F : FixedFormat codec n}.
Hypothesis Hh : hrp_ok hrp.
Hypothesis Hsize : (8 * n <= 5 * size < 8 * n + 5)%nat.
Hypothesis Hlen : (length hrp + size <= 1016)%nat.

Lemma widths_85 : widths_ok 8 5.
Proof. repeat split; lia. Qed.
Lemma widths_58 : widths_ok 5 8.
Proof. repeat split; lia. Qed.
Lemma key_text_codec : text_codec (encode_key codec hrp) (decode_key codec hrp size) ser_ok.
Proof.
  split.
  - intros x Hx. destruct (fixed_size (FixedFormat := F) x Hx) as [L B]. unfold encode_key, decode_key. destruct (convert_there_and_back 8 5 (Serialize x) widths_85 ltac:(lia) B) as (w & E & Fw & D).
    destruct (convert_pad 8 5 (Serialize x) widths_85 B) as (w' & p & E' & Hp & _ & Lw & _). rewrite E in E'. injection E' as <-. rewrite E. cbn [fst].
    assert (length w = size) as Es by lia. rewrite bech32_encode by (done || lia). cbn [fst snd]. rewrite bool_decide_true, Es, Nat.eqb_refl, D by done. cbn [andb].
    rewrite <- (app_nil_r (Serialize x)), Unserialize_Serialize by done. done.
  - intros str. unfold decode_key. destruct (Decode str) as [h u] eqn:D. cbn [fst snd]. case_bool_decide as E; [|by eexists]. subst h. destruct (Nat.eqb_spec (length u) size) as [Lu|]; [|by eexists]. cbn [andb].
    destruct (bech32_decode str hrp u D (proj1 Hh)) as (_ & Fu & _ & _ & Es). destruct (ConvertBits 5 8 false u) as [v ok] eqn:C. destruct ok; [|by eexists].
    destruct (convert_back_and_there 8 5 u v widths_85 ltac:(lia) Fu C) as [Fv T]. destruct (convert_exact 5 8 u widths_58 Fu) as (v' & p & C' & Hp & _ & Lv & _). rewrite C in C'. injection C' as <- _.
    destruct (fixed_read (FixedFormat := F) v [] Fv) as (x & Ex & Ox & Sx); [lia|]. rewrite app_nil_r in Ex. rewrite Ex. cbn [obind]. eexists. split; [done|]. intros y [= <-]. split; [done|].
    unfold encode_key. rewrite Sx, T. exact Es.
Qed.
End KeyText.
Lemma hrp_check hrp : hrp <> [] -> forallb (fun c => (33 <=? c) && (c <=? 126) && (LowerCase c =? c)) hrp = true -> hrp_ok hrp.
Proof. intros N H. split; [done|]. rewrite forallb_forall in H. apply Forall_forall. intros c Hc. apply list_elem_of_In, H in Hc. lia. Qed.
#[export] Instance fixed_PaymentAddress : FixedFormat ser_PaymentAddress 43.
Proof. apply fixed_record, (fixed_seq _ _ 11 32); [apply fixed_array|apply fixed_blob]. Qed.
#[export] Instance fixed_FullViewingKey : FixedFormat ser_FullViewingKey 96.
Proof. apply fixed_record, (fixed_seq _ _ 32 64), (fixed_seq _ _ 32 32); apply fixed_blob. Qed.
#[export] Instance fixed_ExpandedSpendingKey : FixedFormat ser_ExpandedSpendingKey 96.
Proof. apply fixed_record, (fixed_seq _ _ 32 64), (fixed_seq _ _ 32 32); apply fixed_blob. Qed.
#[export] Instance fixed_ExtendedKey {K} (ck : Serializable K) : FixedFormat ck 96 -> FixedFormat (ser_ExtendedKey ck) 169.
Proof.
  intros Fk. apply fixed_record, (fixed_seq _ _ 1 168); [apply fixed_uint8|]. apply (fixed_seq _ _ 4 164); [apply fixed_uint32|]. apply (fixed_seq _ _ 4 160); [apply fixed_uint32|].
  apply (fixed_seq _ _ 32 128); [apply fixed_blob|]. apply (fixed_seq _ _ 96 32); [exact Fk|apply fixed_blob].
Qed.
(** C34: on every network a Sapling payment address, an extended full viewing key and an
    extended spending key are read back from their Bech32 texts; reading any text returns, and
    a text that is read is the text of the value, up to the case of its letters. *)
Theorem sapling_texts_roundtrip (n : Network) :
  text_codec (EncodePaymentAddress n) (DecodePaymentAddress n) (ser_ok (Serializable := ser_PaymentAddress)) /\
  text_codec (EncodeViewingKey n) (DecodeViewingKey n) (ser_ok (Serializable := ser_ExtendedKey ser_FullViewingKey)) /\
  text_codec (EncodeSpendingKey n) (DecodeSpendingKey n) (ser_ok (Serializable := ser_ExtendedKey ser_ExpandedSpendingKey)).
Proof.
  assert (S1 : ConvertedSaplingPaymentAddressSize = 69%nat) by reflexivity. assert (S2 : ConvertedSaplingExtendedFullViewingKeySize = 271%nat) by reflexivity.
  assert (S3 : ConvertedSaplingExtendedSpendingKeySize = 271%nat) by reflexivity. unfold DecodePaymentAddress, DecodeViewingKey, DecodeSpendingKey. rewrite S1, S2, S3.
  split; [|split]; [apply (key_text_codec ser_PaymentAddress 43)|apply (key_text_codec (ser_ExtendedKey ser_FullViewingKey) 169)|apply (key_text_codec (ser_ExtendedKey ser_ExpandedSpendingKey) 169)];
    try apply fixed_PaymentAddress; try apply fixed_ExtendedKey; try apply fixed_FullViewingKey; try apply fixed_ExpandedSpendingKey; try lia; (apply hrp_check; destruct n; done) || (destruct n; apply Nat.leb_le; reflexivity).
Qed.
Lemma sapling_texts_roundtrip_witness : let a := mkPaymentAddress (repeat 3 11) (repeat 200 32) in
  DecodePaymentAddress MAIN (EncodePaymentAddress MAIN (Some a)) = Some (Some a).
Proof. intros a. apply (proj1 (proj1 (sapling_texts_roundtrip MAIN))). cbn. split; (split; [reflexivity|]); repeat constructor; vm_compute; congruence. Defined.
Lemma bech32_detects_witness : let s := Encode [112; 115] [1; 2; 3] in let t := Encode [112; 115] [1; 2; 4] in
  map LowerCase s = map LowerCase t \/ (4 <= differences (map LowerCase s) (map LowerCase t))%nat.
Proof. intros s t. apply (bech32_detects s t [112; 115] [1; 2; 3] [1; 2; 4]); [vm_compute; reflexivity|vm_compute; reflexivity|discriminate|vm_compute; reflexivity]. Defined.
