(* ===== verification/MerkleBlock.v ===== *)
(** Partial Merkle trees and filtered blocks (src/merkleblock.h,
    src/merkleblock.cpp). *)
From Stdlib Require Import ZArith Lia List Bool.
From stdpp Require Import base list.
From S2P Require Import Prelude Consensus Serialize Script Interpreter Standard Codecs Transaction Merkle Block Payments BlockCheck Bloom.
Import ListNotations.
Local Open Scope Z_scope.
Local Open Scope passion_scope.

(** * Building and reading a partial tree *)

Record CPartialMerkleTree := mkPartial { nTransactions : Z; vBits : list bool; vHash : list (list Z); fBad : bool }.
Definition UINT256_ZERO : list Z := repeat 0 32.
Definition CalcTreeWidth (nTransactions : Z) (height : nat) : Z :=
  Z.shiftr (u32 (nTransactions + Z.shiftl 1 (Z.of_nat height) - 1)) (Z.of_nat height).
(** [while (CalcTreeWidth(nHeight) > 1) nHeight++;] *)
Fixpoint tree_height (fuel : nat) (nTransactions : Z) (nHeight : nat) : option nat :=
  if CalcTreeWidth nTransactions nHeight >? 1 then
    match fuel with O => None | S fuel => tree_height fuel nTransactions (S nHeight) end
  else Some nHeight.

Section Partial.
Context {crypto : ScriptCrypto}.

(** [None]: an access outside the vector. *)
Fixpoint CalcHash (nTransactions : Z) (height : nat) (pos : Z) (vTxid : list (list Z)) : option (list Z) :=
  match height with
  | O => vTxid !! Z.to_nat pos
  | S height =>
      left <- CalcHash nTransactions height (u32 (pos * 2)) vTxid;;
      right <- (if u32 (pos * 2 + 1) <? CalcTreeWidth nTransactions height then CalcHash nTransactions height (u32 (pos * 2 + 1)) vTxid else Some left);;
      Some (hash_pair left right)
  end.
(** [fParentOfMatch |= vMatch[p]], [n] times from [p] on *)
Fixpoint any_match (n : nat) (p : nat) (vMatch : list bool) (fParentOfMatch : bool) : option bool :=
  match n with
  | O => Some fParentOfMatch
  | S n => m <- vMatch !! p;; any_match n (S p) vMatch (fParentOfMatch || m)
  end.
Definition parent_of_match (nTransactions : Z) (height : nat) (pos : Z) (vMatch : list bool) : option bool :=
  let first := u32 (Z.shiftl pos (Z.of_nat height)) in
  let last := Z.min (u32 (Z.shiftl (u32 (pos + 1)) (Z.of_nat height))) nTransactions in
  any_match (Z.to_nat (last - first)) (Z.to_nat first) vMatch false.
Fixpoint TraverseAndBuild (nTransactions : Z) (height : nat) (pos : Z) (vTxid : list (list Z)) (vMatch : list bool) (out : list bool * list (list Z))
    : option (list bool * list (list Z)) :=
  fParentOfMatch <- parent_of_match nTransactions height pos vMatch;;
  let '(bits, hashes) := out in
  let bits := bits ++ [fParentOfMatch] in
  match height with
  | O => h <- CalcHash nTransactions height pos vTxid;; Some (bits, hashes ++ [h])
  | S below =>
      if negb fParentOfMatch then h <- CalcHash nTransactions height pos vTxid;; Some (bits, hashes ++ [h])
      else
        out <- TraverseAndBuild nTransactions below (u32 (pos * 2)) vTxid vMatch (bits, hashes);;
        if u32 (pos * 2 + 1) <? CalcTreeWidth nTransactions below
        then TraverseAndBuild nTransactions below (u32 (pos * 2 + 1)) vTxid vMatch out else Some out
  end.
Definition CPartialMerkleTree_of (vTxid : list (list Z)) (vMatch : list bool) : option CPartialMerkleTree :=
  let n := u32 (Z.of_nat (length vTxid)) in
  nHeight <- tree_height 32 n 0;;
  out <- TraverseAndBuild n nHeight 0 vTxid vMatch ([], []);;
  Some (mkPartial n (fst out) (snd out) false).

(** What reading changes. *)
Record Extract := mkExtract { nBitsUsed : nat; nHashUsed : nat; ex_match : list (list Z); ex_bad : bool }.
Fixpoint TraverseAndExtract (t : CPartialMerkleTree) (height : nat) (pos : Z) (s : Extract) : list Z * Extract :=
  match vBits t !! nBitsUsed s with
  | None => (UINT256_ZERO, mkExtract (nBitsUsed s) (nHashUsed s) (ex_match s) true)
  | Some fParentOfMatch =>
      let s := mkExtract (S (nBitsUsed s)) (nHashUsed s) (ex_match s) (ex_bad s) in
      let stop := fun leaf : bool =>
        match vHash t !! nHashUsed s with
        | None => (UINT256_ZERO, mkExtract (nBitsUsed s) (nHashUsed s) (ex_match s) true)
        | Some hash => (hash, mkExtract (nBitsUsed s) (S (nHashUsed s)) (if leaf && fParentOfMatch then ex_match s ++ [hash] else ex_match s) (ex_bad s))
        end in
      match height with
      | O => stop true
      | S height =>
          if negb fParentOfMatch then stop false
          else
            let '(left_, s) := TraverseAndExtract t height (u32 (pos * 2)) s in
            let '(right_, s) := if u32 (pos * 2 + 1) <? CalcTreeWidth (nTransactions t) height
                               then TraverseAndExtract t height (u32 (pos * 2 + 1)) s else (left_, s) in
            (hash_pair left_ right_, s)
      end
  end.
(** The root, or zero, and [vMatch]. *)
Definition ExtractMatches (t : CPartialMerkleTree) : option (list Z * list (list Z)) :=
  if nTransactions t =? 0 then Some (UINT256_ZERO, [])
  else if nTransactions t >? MAX_BLOCK_SIZE_CURRENT / 60 then Some (UINT256_ZERO, [])
  else if Z.of_nat (length (vHash t)) >? nTransactions t then Some (UINT256_ZERO, [])
  else if (length (vBits t) <? length (vHash t))%nat then Some (UINT256_ZERO, [])
  else
    nHeight <- tree_height 32 (nTransactions t) 0;;
    let '(hashMerkleRoot, s) := TraverseAndExtract t nHeight 0 (mkExtract 0 0 [] (fBad t)) in
    if ex_bad s then Some (UINT256_ZERO, ex_match s)
    else if negb ((nBitsUsed s + 7) / 8 =? (length (vBits t) + 7) / 8)%nat then Some (UINT256_ZERO, ex_match s)
    else if negb (nHashUsed s =? length (vHash t))%nat then Some (UINT256_ZERO, ex_match s)
    else Some (hashMerkleRoot, ex_match s).
End Partial.

(** * On the wire *)

(** [vBytes[p / 8] |= vBits[p] << (p % 8)] and back *)
Fixpoint byte_of_bits (bits : list bool) : Z :=
  match bits with [] => 0 | b :: bits => Z.b2z b + 2 * byte_of_bits bits end.
Fixpoint pack_bytes (n : nat) (bits : list bool) : list Z :=
  match n with O => [] | S n => byte_of_bits (take 8 bits) :: pack_bytes n (drop 8 bits) end.
Definition bytes_of_bits (bits : list bool) : list Z := pack_bytes ((length bits + 7) / 8) bits.
Definition bits_of_byte (b : Z) : list bool := map (fun i => negb (Z.land b (Z.shiftl 1 (Z.of_nat i)) =? 0)) (seq 0 8).
Definition bits_of_bytes (v : list Z) : list bool := concat (map bits_of_byte v).

Definition ser_hashes : Serializable (list (list Z)).
Proof. refine (ser_vector (codec := ser_blob 32) (5000000 / 32) _). done. Defined.
Definition SerializePartial (t : CPartialMerkleTree) : list Z :=
  Serialize (Serializable := ser_uint32) (nTransactions t) ++ Serialize (Serializable := ser_hashes) (vHash t) ++
  Serialize (Serializable := ser_bytes) (bytes_of_bits (vBits t)).
Definition UnserializePartial : Reader CPartialMerkleTree := fun s =>
  '(n, s) <- Unserialize (Serializable := ser_uint32) s;;
  '(hashes, s) <- Unserialize (Serializable := ser_hashes) s;;
  '(vBytes, s) <- Unserialize (Serializable := ser_bytes) s;;
  Some (mkPartial n (bits_of_bytes vBytes) hashes false, s).

(** * Filtered blocks *)

Record CMerkleBlock := mkMerkleBlock { mb_header : CBlockHeader; txn : CPartialMerkleTree; vMatchedTxn : list (Z * list Z) }.

Section Filtered.
Context {babi : BlockAbi} {crypto : ScriptCrypto}.

Fixpoint filter_txs (filter : CBloomFilter) (i : Z) (vtx : list CTransaction) (vMatch : list bool) (vHashes : list (list Z)) (matched : list (Z * list Z))
    : option (list bool * list (list Z) * list (Z * list Z) * CBloomFilter) :=
  match vtx with
  | [] => Some (vMatch, vHashes, matched, filter)
  | tx :: vtx =>
      let hash := GetHash tx in
      r <- IsRelevantAndUpdate filter tx;;
      let '(found, filter) := r in
      filter_txs filter (u32 (i + 1)) vtx (vMatch ++ [found]) (vHashes ++ [hash]) (if found : bool then matched ++ [(i, hash)] else matched)
  end.
Definition CMerkleBlock_of (block : CBlock) (filter : CBloomFilter) : option (CMerkleBlock * CBloomFilter) :=
  r <- filter_txs filter 0 (vtx block) [] [] [];;
  let '(vMatch, vHashes, matched, filter) := r in
  t <- CPartialMerkleTree_of vHashes vMatch;;
  Some (mkMerkleBlock (header block) t matched, filter).
Definition SerializeMerkleBlock (m : CMerkleBlock) : list Z := Serialize (mb_header m) ++ SerializePartial (txn m).
Definition UnserializeMerkleBlock : Reader CMerkleBlock := fun s =>
  '(h, s) <- Unserialize s;;
  '(t, s) <- UnserializePartial s;;
  Some (mkMerkleBlock h t [], s).
End Filtered.

(** * The tree in pieces *)

(** The leaves below position [pos] of height [h]. *)
Definition below {A} (h : nat) (pos : nat) (l : list A) : list A := take (2 ^ h) (drop (pos * 2 ^ h) l).
Lemma length_below {A} h pos (l : list A) : length (below h pos l) = (2 ^ h `min` (length l - pos * 2 ^ h))%nat.
Proof. unfold below. by rewrite length_take, length_drop. Qed.
(** The halves. *)
Lemma below_left {A} h pos (l : list A) : below h (2 * pos) l = take (2 ^ h) (below (S h) pos l).
Proof. unfold below. rewrite pow2_S, take_take. f_equal; [lia|]. f_equal. lia. Qed.
Lemma below_right {A} h pos (l : list A) : below h (2 * pos + 1) l = drop (2 ^ h) (below (S h) pos l).
Proof. unfold below. rewrite pow2_S, skipn_firstn_comm, drop_drop. f_equal; [lia|]. f_equal. lia. Qed.
Lemma below_split {A} h pos (l : list A) : below (S h) pos l = below h (2 * pos) l ++ below h (2 * pos + 1) l.
Proof. rewrite below_left, below_right. by rewrite take_drop. Qed.
Lemma below_all {A} h (l : list A) : (length l <= 2 ^ h)%nat -> below h 0 l = l.
Proof. intros H. unfold below. cbn. by rewrite take_ge. Qed.

Lemma width_value n h : (h <= 31)%nat -> 0 <= n <= 2 ^ 31 -> CalcTreeWidth n h = (n + 2 ^ Z.of_nat h - 1) / 2 ^ Z.of_nat h.
Proof.
  intros Hh Hn. unfold CalcTreeWidth. rewrite Z.shiftl_1_l, Z.shiftr_div_pow2 by lia. assert (0 < 2 ^ Z.of_nat h) by lia.
  assert (2 ^ Z.of_nat h <= 2 ^ 31) by (apply Z.pow_le_mono_r; lia). by rewrite u32_small by lia.
Qed.
Lemma nat_pow h : Z.of_nat (2 ^ h) = 2 ^ Z.of_nat h.
Proof. by rewrite Nat2Z.inj_pow. Qed.
(** There is a right child exactly if it has leaves. *)
Lemma width_right n h pos : (h <= 31)%nat -> Z.of_nat n <= 2 ^ 31 -> (Z.of_nat pos <? CalcTreeWidth (Z.of_nat n) h) = (pos * 2 ^ h <? n)%nat.
Proof.
  intros Hh Hn. rewrite width_value by lia. pose proof (nat_pow h) as P. set (w := (2 ^ h)%nat) in *. assert (0 < w)%nat by (pose proof (pow2_ge1 h); lia). rewrite <- P.
  destruct (Z.ltb_spec (Z.of_nat pos) ((Z.of_nat n + Z.of_nat w - 1) / Z.of_nat w)) as [L|L], (Nat.ltb_spec (pos * w) n) as [R|R]; try done; exfalso.
  - pose proof (Z.div_lt_upper_bound (Z.of_nat n + Z.of_nat w - 1) (Z.of_nat w) (Z.of_nat pos + 1) ltac:(lia) ltac:(nia)). lia.
  - pose proof (Z.div_le_lower_bound (Z.of_nat n + Z.of_nat w - 1) (Z.of_nat w) (Z.of_nat pos + 1) ltac:(lia) ltac:(nia)). lia.
Qed.
Lemma tree_height_spec n : (0 < n)%nat -> Z.of_nat n <= 2 ^ 31 -> forall fuel h, (31 <= fuel + h)%nat -> (h <= 31)%nat -> (h = 0 \/ 2 ^ h < 2 * n)%nat ->
  exists h', tree_height fuel (Z.of_nat n) h = Some h' /\ (h <= h' <= 31)%nat /\ (n <= 2 ^ h')%nat /\ (h' = 0 \/ 2 ^ h' < 2 * n)%nat.
Proof.
  intros Hn Hm. assert (W : forall h, (h <= 31)%nat -> (CalcTreeWidth (Z.of_nat n) h >? 1) = (2 ^ h <? n)%nat).
  { intros h Hh. rewrite Z.gtb_ltb. change 1 with (Z.of_nat 1). rewrite width_right by done. by rewrite Nat.mul_1_l. }
  induction fuel as [|fuel IH]; intros h Hf Hh Hs; cbn [tree_height]; rewrite W by done.
  - destruct (Nat.ltb_spec (2 ^ h) n) as [C|C]; [|by exists h]. exfalso. assert (h = 31)%nat as -> by lia. pose proof (nat_pow 31) as P. change (2 ^ Z.of_nat 31) with (2 ^ 31) in P. lia.
  - destruct (Nat.ltb_spec (2 ^ h) n) as [C|C]; [|by exists h].
    assert (h <> 31)%nat by (intros ->; pose proof (nat_pow 31) as P; change (2 ^ Z.of_nat 31) with (2 ^ 31) in P; lia).
    destruct (IH (S h) ltac:(lia) ltac:(lia)) as (h' & E & Hh' & R); [right; rewrite pow2_S; lia|]. exists h'. split; [done|]. split; [lia|done].
Qed.
Lemma tree_height_is (l : list (list Z)) : (0 < length l)%nat -> Z.of_nat (length l) <= 2 ^ 31 ->
  tree_height 32 (Z.of_nat (length l)) 0 = Some (height l) /\ (height l <= 31)%nat /\ (length l <= 2 ^ height l)%nat.
Proof.
  intros Hn Hm. destruct (tree_height_spec (length l) Hn Hm 32 0) as (h & E & Hh & L & R); [lia|lia|by left|]. assert (h = height l) as ->; [|split; [done|split; [lia|done]]].
  unfold height. symmetry. destruct R as [->|R]; [cbn in L; by replace (length l) with 1%nat by lia|]. destruct h as [|h].
  - cbn in L. by replace (length l) with 1%nat by lia.
  - apply Nat.log2_up_unique; [lia|]. cbn [Nat.pred]. rewrite pow2_S in *. lia.
Qed.
(** Positions of children stay in 32 bits. *)
Lemma child_pos n h pos : (h <= 30)%nat -> Z.of_nat n <= 2 ^ 31 -> (pos * 2 ^ S h < n)%nat -> u32 (Z.of_nat pos * 2) = Z.of_nat (2 * pos) /\ u32 (Z.of_nat pos * 2 + 1) = Z.of_nat (2 * pos + 1).
Proof.
  intros Hh Hn Hp. rewrite pow2_S in Hp. pose proof (pow2_ge1 h). assert (2 * Z.of_nat pos < 2 ^ 31) by nia. split; rewrite u32_small; lia.
Qed.

Section Nodes.
Context {crypto : ScriptCrypto}.
Variables (vTxid : list (list Z)).
Abbreviation n := (length vTxid).
Hypothesis (Hn : Z.of_nat n <= 2 ^ 31).

Lemma node_below h pos : (pos * 2 ^ S h < n)%nat ->
  node (S h) (below (S h) pos vTxid) =
    if ((2 * pos + 1) * 2 ^ h <? n)%nat then hash_pair (node h (below h (2 * pos) vTxid)) (node h (below h (2 * pos + 1) vTxid))
    else hash_pair (node h (below h (2 * pos) vTxid)) (node h (below h (2 * pos) vTxid)).
Proof.
  rewrite pow2_S. intros Hp. pose proof (pow2_ge1 h). assert (E1 : ((2 * pos + 1) * 2 ^ h = 2 * pos * 2 ^ h + 2 ^ h)%nat) by lia. assert (E2 : (pos * (2 * 2 ^ h) = 2 * pos * 2 ^ h)%nat) by lia.
  destruct (Nat.ltb_spec ((2 * pos + 1) * 2 ^ h) n) as [L|L].
  - rewrite below_split. apply node_split; rewrite length_below; lia.
  - assert (E : below (S h) pos vTxid = below h (2 * pos) vTxid).
    { rewrite below_split. rewrite (nil_length_inv (below h (2 * pos + 1) vTxid)); [apply app_nil_r|]. rewrite length_below. lia. }
    rewrite E. apply node_up. rewrite length_below. lia.
Qed.
Lemma CalcHash_node h : forall pos, (h <= 31)%nat -> (pos * 2 ^ h < n)%nat -> CalcHash (Z.of_nat n) h (Z.of_nat pos) vTxid = Some (node h (below h pos vTxid)).
Proof.
  induction h as [|h IH]; intros pos Hh Hp; cbn [CalcHash].
  - rewrite Nat2Z.id. cbn in Hp. destruct (lookup_lt_is_Some_2 vTxid pos ltac:(lia)) as [x E]. rewrite E. unfold below. cbn. rewrite Nat.mul_1_r.
    apply drop_S in E as ->. done.
  - destruct (child_pos n h pos ltac:(lia) Hn Hp) as [-> ->]. pose proof (pow2_S h) as P2. rewrite IH by lia. cbn [obind]. rewrite width_right by lia.
    rewrite node_below by done. destruct (Nat.ltb_spec ((2 * pos + 1) * 2 ^ h) n); [rewrite IH by lia|]; done.
Qed.
End Nodes.

(** * What is built, and that it is read back *)

(** The matched leaves. *)
Fixpoint picked {A} (l : list A) (m : list bool) : list A :=
  match l, m with
  | x :: l, b :: m => if b : bool then x :: picked l m else picked l m
  | _, _ => []
  end.
Lemma picked_app {A} (l1 l2 : list A) m1 m2 : length l1 = length m1 -> picked (l1 ++ l2) (m1 ++ m2) = picked l1 m1 ++ picked l2 m2.
Proof. revert m1. induction l1 as [|x l1 IH]; intros [|b m1] H; cbn in *; try done; [..|injection H as H; rewrite IH by done; by destruct b]. Qed.
Lemma picked_none {A} (l : list A) m : existsb id m = false -> picked l m = [].
Proof. revert m. induction l as [|x l IH]; intros [|b m] H; cbn in *; try done. apply orb_false_iff in H as [Hb H]. unfold id in Hb. rewrite Hb. by apply IH. Qed.
Lemma drop_cons {A} (v : list A) k x r : drop k v = x :: r -> v !! k = Some x /\ drop (S k) v = r.
Proof.
  intros H. assert (E : v !! k = Some x) by (rewrite <- (Nat.add_0_r k), <- lookup_drop, H; done). split; [done|]. apply drop_S in E. rewrite H in E. by injection E as <-.
Qed.

Section Built.
Context {crypto : ScriptCrypto}.

(** The bits and hashes of the subtree over [l]. *)
Fixpoint built (h : nat) (l : list (list Z)) (m : list bool) : list bool * list (list Z) :=
  match h with
  | O => ([existsb id m], [node O l])
  | S below =>
      if negb (existsb id m) then ([false], [node h l])
      else if (length l <=? 2 ^ below)%nat then (true :: fst (built below l m), snd (built below l m))
      else let a := built below (take (2 ^ below) l) (take (2 ^ below) m) in
           let b := built below (drop (2 ^ below) l) (drop (2 ^ below) m) in
           (true :: fst a ++ fst b, snd a ++ snd b)
  end.
(** Not more hashes than leaves, not more hashes than bits. *)
Lemma built_sizes h : forall l m, (0 < length l)%nat -> (length (snd (built h l m)) <= length l)%nat /\ (length (snd (built h l m)) <= length (fst (built h l m)))%nat.
Proof.
  induction h as [|h IH]; intros l m Hl; cbn [built]; [cbn; lia|]. destruct (existsb id m); cbn [negb]; [|cbn; lia].
  destruct (Nat.leb_spec (length l) (2 ^ h)); cbn [fst snd length]; [destruct (IH l m Hl); lia|]. rewrite !length_app. pose proof (pow2_ge1 h).
  destruct (IH (take (2 ^ h) l) (take (2 ^ h) m)) as [A1 A2]; [rewrite length_take; lia|]. destruct (IH (drop (2 ^ h) l) (drop (2 ^ h) m)) as [B1 B2]; [rewrite length_drop; lia|].
  rewrite length_take in *. rewrite length_drop in *. lia.
Qed.

Variables (vTxid : list (list Z)) (vMatch : list bool).
Abbreviation n := (length vTxid).
Hypothesis (Hn : Z.of_nat n <= 2 ^ 31) (Hm : length vMatch = n).

Lemma any_match_spec k : forall p acc, (p + k <= length vMatch)%nat -> any_match k p vMatch acc = Some (acc || existsb id (take k (drop p vMatch))).
Proof.
  induction k as [|k IH]; intros p acc Hp; cbn [any_match]; [by rewrite orb_false_r|]. destruct (lookup_lt_is_Some_2 vMatch p ltac:(lia)) as [b E]. rewrite E. cbn [obind].
  rewrite IH by lia. rewrite (drop_S _ _ _ E). cbn. by rewrite orb_assoc.
Qed.
Lemma parent_of_match_spec h pos : (h <= 31)%nat -> (pos * 2 ^ h < n)%nat -> parent_of_match (Z.of_nat n) h (Z.of_nat pos) vMatch = Some (existsb id (below h pos vMatch)).
Proof.
  intros Hh Hp. unfold parent_of_match. pose proof (nat_pow h) as P. assert (2 ^ Z.of_nat h <= 2 ^ 31) by (apply Z.pow_le_mono_r; lia). pose proof (pow2_ge1 h).
  assert (E1 : u32 (Z.shiftl (Z.of_nat pos) (Z.of_nat h)) = Z.of_nat (pos * 2 ^ h)) by (rewrite Z.shiftl_mul_pow2, <- P by lia; rewrite u32_small; lia).
  assert (E2 : u32 (Z.shiftl (u32 (Z.of_nat pos + 1)) (Z.of_nat h)) = Z.of_nat ((pos + 1) * 2 ^ h)).
  { assert (Z.of_nat pos < 2 ^ 31) by nia. rewrite (u32_small (Z.of_nat pos + 1)) by lia. rewrite Z.shiftl_mul_pow2, <- P by lia. rewrite u32_small; lia. }
  rewrite E1, E2, Nat2Z.id. rewrite any_match_spec by lia. f_equal. cbn [orb]. unfold below. f_equal. set (k := Z.to_nat _).
  assert (Hk : k = (2 ^ h `min` (n - pos * 2 ^ h))%nat) by (unfold k; lia). rewrite Hk. destruct (Nat.le_ge_cases (2 ^ h) (n - pos * 2 ^ h)); [by rewrite Nat.min_l by lia|].
  rewrite Nat.min_r by lia. rewrite !take_ge; rewrite ?length_drop; (done || lia).
Qed.
Lemma TraverseAndBuild_spec h : forall pos bits hashes, (h <= 31)%nat -> (pos * 2 ^ h < n)%nat ->
  TraverseAndBuild (Z.of_nat n) h (Z.of_nat pos) vTxid vMatch (bits, hashes) =
    Some (bits ++ fst (built h (below h pos vTxid) (below h pos vMatch)), hashes ++ snd (built h (below h pos vTxid) (below h pos vMatch))).
Proof.
  induction h as [|h IH]; intros pos bits hashes Hh Hp; cbn [TraverseAndBuild built]; rewrite parent_of_match_spec by done; cbn [obind].
  - rewrite CalcHash_node by done. done.
  - destruct (existsb id (below (S h) pos vMatch)) eqn:Ex; cbn [negb]; [|by rewrite CalcHash_node].
    destruct (child_pos n h pos ltac:(lia) Hn Hp) as [-> ->]. pose proof (pow2_S h) as P2. pose proof (pow2_ge1 h). rewrite IH by lia. cbn [obind]. rewrite width_right by lia.
    rewrite length_below, <- !below_left, <- !below_right, pow2_S. destruct (Nat.ltb_spec ((2 * pos + 1) * 2 ^ h) n) as [L|L].
    + destruct (Nat.leb_spec ((2 * 2 ^ h) `min` (n - pos * (2 * 2 ^ h))) (2 ^ h)); [exfalso; lia|]. rewrite IH by lia. cbn [fst snd]. f_equal. f_equal; by rewrite <- !app_assoc.
    + destruct (Nat.leb_spec ((2 * 2 ^ h) `min` (n - pos * (2 * 2 ^ h))) (2 ^ h)); [|exfalso; lia].
      assert (E : forall A (v : list A), length v = n -> below (S h) pos v = below h (2 * pos) v).
      { intros A v Hv. rewrite below_split. rewrite (nil_length_inv (below h (2 * pos + 1) v)); [apply app_nil_r|]. rewrite length_below. lia. }
      rewrite !E by done. cbn [fst snd]. by rewrite <- app_assoc.
Qed.
(** Reading what was built. *)
Lemma extract_built t h : nTransactions t = Z.of_nat n -> forall pos s rb rh, (h <= 31)%nat -> (pos * 2 ^ h < n)%nat ->
  let b := built h (below h pos vTxid) (below h pos vMatch) in
  drop (nBitsUsed s) (vBits t) = fst b ++ rb -> drop (nHashUsed s) (vHash t) = snd b ++ rh ->
  TraverseAndExtract t h (Z.of_nat pos) s = (node h (below h pos vTxid),
    mkExtract (nBitsUsed s + length (fst b)) (nHashUsed s + length (snd b)) (ex_match s ++ picked (below h pos vTxid) (below h pos vMatch)) (ex_bad s)).
Proof.
  intros Ht. induction h as [|h IH]; intros pos s rb rh Hh Hp b Hb Hr; subst b; cbn [TraverseAndExtract built] in *.
  - apply drop_cons in Hb as [Eb Hb]. apply drop_cons in Hr as [Er Hr]. rewrite Eb. cbn [nHashUsed]. rewrite Er. cbn [nBitsUsed nHashUsed ex_match ex_bad].
    assert (L1 : length (below 0 pos vTxid) = 1%nat) by (rewrite length_below; change (2 ^ 0)%nat with 1%nat in *; lia). assert (L2 : length (below 0 pos vMatch) = 1%nat) by (rewrite length_below; change (2 ^ 0)%nat with 1%nat in *; lia).
    destruct (below 0 pos vTxid) as [|x [|]]; try done. destruct (below 0 pos vMatch) as [|c [|]]; try done. cbn. unfold id. rewrite orb_false_r, !Nat.add_1_r. destruct c; cbn; by rewrite ?app_nil_r.
  - destruct (existsb id (below (S h) pos vMatch)) eqn:Ex; cbn [negb fst snd] in *.
    2:{ apply drop_cons in Hb as [Eb Hb]. apply drop_cons in Hr as [Er Hr]. rewrite Eb. cbn [nHashUsed negb]. rewrite Er. cbn [nBitsUsed nHashUsed ex_match ex_bad andb].
        rewrite (picked_none _ _ Ex), app_nil_r. cbn [length]. by rewrite !Nat.add_1_r. }
    destruct (child_pos n h pos ltac:(lia) Hn Hp) as [-> ->]. pose proof (pow2_S h) as P2. pose proof (pow2_ge1 h).
    rewrite length_below, <- !below_left, <- !below_right, pow2_S in *. rewrite Ht, width_right by lia. rewrite node_below by (rewrite ?pow2_S; lia).
    destruct (Nat.ltb_spec ((2 * pos + 1) * 2 ^ h) n) as [L|L].
    + destruct (Nat.leb_spec ((2 * 2 ^ h) `min` (n - pos * (2 * 2 ^ h))) (2 ^ h)); [exfalso; lia|]. cbn [fst snd] in *. rewrite <- app_comm_cons in Hb. apply drop_cons in Hb as [Eb Hb]. rewrite Eb. cbn [negb]. rewrite <- app_assoc in Hb, Hr.
      erewrite IH; [|lia|lia|exact Hb|exact Hr]. cbn [nBitsUsed nHashUsed ex_match ex_bad]. erewrite IH; [|lia|lia|..].
      2:{ cbn [nBitsUsed] in *. rewrite <- drop_drop, Hb. by rewrite drop_app_length. }
      2:{ cbn [nHashUsed] in *. rewrite <- drop_drop, Hr. by rewrite drop_app_length. }
      cbn [nBitsUsed nHashUsed ex_match ex_bad length]. rewrite !length_app, (below_split h pos vTxid), (below_split h pos vMatch), picked_app by (rewrite !length_below; lia).
      f_equal. f_equal; [lia|lia|by rewrite app_assoc].
    + destruct (Nat.leb_spec ((2 * 2 ^ h) `min` (n - pos * (2 * 2 ^ h))) (2 ^ h)); [|exfalso; lia]. cbn [fst snd] in *. rewrite <- app_comm_cons in Hb. apply drop_cons in Hb as [Eb Hb]. rewrite Eb. cbn [negb].
      assert (E : forall A (v : list A), length v = n -> below (S h) pos v = below h (2 * pos) v).
      { intros A v Hv. rewrite below_split. rewrite (nil_length_inv (below h (2 * pos + 1) v)); [apply app_nil_r|]. rewrite length_below. lia. }
      rewrite !E in * by done. erewrite IH; [|lia|lia|exact Hb|exact Hr]. cbn [nBitsUsed nHashUsed ex_match ex_bad length]. f_equal. f_equal. lia.
Qed.
End Built.

(** * Through the wire *)

Lemma byte_of_bits_range bits : (length bits <= 8)%nat -> 0 <= byte_of_bits bits < 2 ^ Z.of_nat (length bits).
Proof.
  intros _. induction bits as [|b bits IH]; cbn [byte_of_bits length]; [cbn; lia|]. rewrite Nat2Z.inj_succ, Z.pow_succ_r by lia. destruct b; cbn [Z.b2z]; lia.
Qed.
Lemma testbit_byte bits i : Z.testbit (byte_of_bits bits) (Z.of_nat i) = nth i bits false.
Proof.
  revert i. induction bits as [|b bits IH]; intros i; cbn [byte_of_bits]; [rewrite Z.bits_0; by destruct i|].
  destruct i as [|i]; cbn [nth].
  - rewrite Z.add_comm. destruct b; cbn [Z.b2z]; [by rewrite Z.testbit_odd_0|rewrite Z.add_0_r; by rewrite Z.testbit_even_0].
  - rewrite Nat2Z.inj_succ, Z.add_comm. destruct b; cbn [Z.b2z]; [rewrite Z.testbit_odd_succ by lia|rewrite Z.add_0_r, Z.testbit_even_succ by lia]; apply IH.
Qed.
Lemma bits_of_byte_of bits : (length bits <= 8)%nat -> bits_of_byte (byte_of_bits bits) = bits ++ repeat false (8 - length bits).
Proof.
  intros H. unfold bits_of_byte. rewrite (map_ext _ (fun i => nth i bits false)) by (intros i; rewrite bit_set by lia; apply testbit_byte).
  do 9 (destruct bits as [|? bits]; [reflexivity|]). cbn in H. lia.
Qed.
Lemma pack_unpack k : forall bits, (length bits <= 8 * k)%nat -> bits_of_bytes (pack_bytes k bits) = bits ++ repeat false (8 * k - length bits).
Proof.
  induction k as [|k IH]; intros bits H; [destruct bits; cbn in *; [done|lia]|]. cbn [pack_bytes]. unfold bits_of_bytes in *. cbn [map concat].
  rewrite bits_of_byte_of, IH by (rewrite ?length_take, ?length_drop; lia). rewrite length_take, length_drop.
  destruct (Nat.le_ge_cases 8 (length bits)) as [L|L].
  - rewrite Nat.min_l, Nat.sub_diag by lia. cbn [repeat]. rewrite app_nil_r, app_assoc, take_drop. f_equal. f_equal. lia.
  - rewrite Nat.min_r by lia. rewrite take_ge, drop_ge by lia. rewrite app_nil_l, <- app_assoc, <- repeat_app. f_equal. f_equal. lia.
Qed.
Lemma pack_bytes_ok k : forall bits, length (pack_bytes k bits) = k /\ bytes_ok (pack_bytes k bits).
Proof.
  induction k as [|k IH]; intros bits; cbn [pack_bytes]; [split; [done|constructor]|]. destruct (IH (drop 8 bits)) as [L B]. split; [cbn; by rewrite L|].
  constructor; [|done]. pose proof (byte_of_bits_range (take 8 bits)) as R. rewrite length_take in R. assert (2 ^ Z.of_nat (8 `min` length bits) <= 2 ^ 8) by (apply Z.pow_le_mono_r; lia). unfold byte_ok. lia.
Qed.
Definition padding (bits : list bool) : nat := 8 * ((length bits + 7) / 8) - length bits.
Lemma bits_read_back bits : bits_of_bytes (bytes_of_bits bits) = bits ++ repeat false (padding bits).
Proof. unfold bytes_of_bits, padding. apply pack_unpack. pose proof (Nat.div_mod_eq (length bits + 7) 8). pose proof (Nat.mod_upper_bound (length bits + 7) 8). lia. Qed.
Lemma padding_bytes bits : ((length bits + 7) / 8 = (length (bits ++ repeat false (padding bits)) + 7) / 8)%nat.
Proof.
  rewrite length_app, repeat_length. unfold padding. pose proof (Nat.div_mod_eq (length bits + 7) 8). pose proof (Nat.mod_upper_bound (length bits + 7) 8).
  set (q := ((length bits + 7) / 8)%nat) in *. replace (length bits + (8 * q - length bits) + 7)%nat with (7 + q * 8)%nat by lia. rewrite Nat.div_add by lia. done.
Qed.
(** The tree as it is received. *)
Definition padded (t : CPartialMerkleTree) : CPartialMerkleTree := mkPartial (nTransactions t) (vBits t ++ repeat false (padding (vBits t))) (vHash t) false.
Definition partial_ok (t : CPartialMerkleTree) : Prop :=
  0 <= nTransactions t < 2 ^ 32 /\ ser_ok (Serializable := ser_hashes) (vHash t) /\ Z.of_nat ((length (vBits t) + 7) / 8) <= MAX_SIZE.
Lemma partial_read_back t r : partial_ok t -> UnserializePartial (SerializePartial t ++ r) = Some (padded t, r).
Proof.
  intros (H1 & H2 & H3). unfold UnserializePartial, SerializePartial. rewrite <- !app_assoc.
  rewrite (Unserialize_Serialize (Serializable := ser_uint32)) by done. cbn [obind]. rewrite (Unserialize_Serialize (Serializable := ser_hashes)) by done. cbn [obind].
  rewrite (Unserialize_Serialize (Serializable := ser_bytes)) by (unfold bytes_of_bits; split; [by rewrite (proj1 (pack_bytes_ok _ _))|apply pack_bytes_ok]). cbn [obind].
  by rewrite bits_read_back.
Qed.

Section Extraction.
Context {crypto : ScriptCrypto}.

(** A tree made of leaves and marks gives back its root and the marked leaves. *)
Lemma partial_of_spec vTxid vMatch : (0 < length vTxid)%nat -> Z.of_nat (length vTxid) <= 2 ^ 31 -> length vMatch = length vTxid ->
  CPartialMerkleTree_of vTxid vMatch = Some (let b := built (height vTxid) vTxid vMatch in mkPartial (Z.of_nat (length vTxid)) (fst b) (snd b) false).
Proof.
  intros H0 Hn Hm. unfold CPartialMerkleTree_of. rewrite u32_small by lia. destruct (tree_height_is vTxid H0 Hn) as (-> & Hh & Hl). cbn [obind].
  change 0 with (Z.of_nat 0) at 1. rewrite TraverseAndBuild_spec by (done || lia). cbn [obind fst snd app]. by rewrite !below_all by lia.
Qed.
Lemma extract_padded vTxid vMatch t : (0 < length vTxid)%nat -> Z.of_nat (length vTxid) <= MAX_BLOCK_SIZE_CURRENT / 60 -> length vMatch = length vTxid ->
  CPartialMerkleTree_of vTxid vMatch = Some t -> ExtractMatches (padded t) = Some (node (height vTxid) vTxid, picked vTxid vMatch).
Proof.
  intros H0 Hb Hm Ht. assert (Hn : Z.of_nat (length vTxid) <= 2 ^ 31) by (unfold MAX_BLOCK_SIZE_CURRENT in Hb; vm_compute (2000000 / 60) in Hb; lia).
  rewrite partial_of_spec in Ht by done. injection Ht as <-. set (b := built (height vTxid) vTxid vMatch). set (t := padded _). unfold ExtractMatches.
  change (nTransactions t) with (Z.of_nat (length vTxid)). change (vHash t) with (snd b). change (fBad t) with false. change (vBits t) with (fst b ++ repeat false (padding (fst b))).
  destruct (tree_height_is vTxid H0 Hn) as (Et & Hh & Hl). destruct (built_sizes (height vTxid) vTxid vMatch H0) as [S1 S2]. fold b in S1, S2.
  rewrite (proj2 (Z.eqb_neq _ _)) by lia. rewrite Z.gtb_ltb, (proj2 (Z.ltb_ge _ _) Hb). rewrite Z.gtb_ltb, (proj2 (Z.ltb_ge _ _)) by lia.
  rewrite (proj2 (Nat.ltb_ge _ _)) by (rewrite length_app; lia). rewrite Et. cbn [obind].
  pose proof (extract_built vTxid vMatch Hn Hm t (height vTxid) eq_refl 0 (mkExtract 0 0 [] false)
    (repeat false (padding (fst b))) [] Hh ltac:(lia)) as X. rewrite !below_all in X by lia. fold b in X.
  cbn [nBitsUsed nHashUsed ex_match ex_bad drop app] in X. change (Z.of_nat 0) with 0 in X. rewrite X; [|done|by rewrite app_nil_r].
  cbn [ex_bad nBitsUsed nHashUsed ex_match Nat.add]. rewrite <- padding_bytes, !Nat.eqb_refl. done.
Qed.
End Extraction.

(** * The properties *)

Section Properties.
Context {crypto : ScriptCrypto}.

Abbreviation blob x := (ser_ok (Serializable := ser_blob 32) x).
Lemma node_blob h : forall l, (0 < length l)%nat -> Forall (fun x => blob x) l -> blob (node h l).
Proof.
  destruct h as [|h]; intros l Hl HF; [destruct l; [cbn in Hl; lia|]; by inversion HF|]. cbn. destruct (length l <=? 2 ^ h)%nat; apply SHA256_digest.
Qed.
Lemma built_blobs h : forall l m, (0 < length l)%nat -> Forall (fun x => blob x) l -> Forall (fun x => blob x) (snd (built h l m)).
Proof.
  induction h as [|h IH]; intros l m Hl HF; cbn [built snd]; [by apply Forall_singleton, (node_blob 0)|].
  destruct (existsb id m); cbn [negb]; [|by apply Forall_singleton, (node_blob (S h))]. destruct (Nat.leb_spec (length l) (2 ^ h)); cbn [snd]; [by apply IH|].
  pose proof (pow2_ge1 h). apply Forall_app. split; apply IH; rewrite ?length_take, ?length_drop; [lia|by apply Forall_take|lia|by apply Forall_drop].
Qed.
Lemma built_bits h : forall l m, (S (length (fst (built h l m))) <= 2 ^ S h)%nat.
Proof.
  induction h as [|h IH]; intros l m; cbn [built]; [cbn; lia|]. rewrite pow2_S. pose proof (pow2_ge1 h). rewrite pow2_S in IH |- *.
  destruct (existsb id m); cbn [negb fst length]; [|lia]. destruct (length l <=? 2 ^ h)%nat; cbn [fst length]; [specialize (IH l m); lia|].
  rewrite length_app. pose proof (IH (take (2 ^ h) l) (take (2 ^ h) m)). pose proof (IH (drop (2 ^ h) l) (drop (2 ^ h) m)). lia.
Qed.
Lemma partial_of_ok vTxid vMatch t : (0 < length vTxid)%nat -> Z.of_nat (length vTxid) <= MAX_BLOCK_SIZE_CURRENT / 60 -> length vMatch = length vTxid ->
  Forall (fun x => blob x) vTxid -> CPartialMerkleTree_of vTxid vMatch = Some t -> partial_ok t.
Proof.
  intros H0 Hb Hm HF Ht. assert (Hk : Z.of_nat (length vTxid) <= 33333) by (exact Hb). rewrite partial_of_spec in Ht by (done || lia). injection Ht as <-.
  destruct (built_sizes (height vTxid) vTxid vMatch H0) as [S1 _]. pose proof (built_bits (height vTxid) vTxid vMatch) as B.
  split; cbn [nTransactions vHash vBits]; [lia|]. split; [split; [unfold MAX_SIZE; lia|by apply built_blobs]|].
  destruct (tree_height_spec (length vTxid) H0 ltac:(lia) 32 0) as (h & E & Hh & L & R); [lia|lia|by left|]. destruct (tree_height_is vTxid H0 ltac:(lia)) as (E' & _). rewrite E in E'. injection E' as ->.
  assert (2 ^ S (height vTxid) <= 4 * length vTxid)%nat by (destruct R as [R|R]; [rewrite R; cbn; lia|rewrite pow2_S; lia]).
  unfold MAX_SIZE. pose proof (Nat.Div0.div_le_upper_bound (length (fst (built (height vTxid) vTxid vMatch)) + 7) 8 (2 * length vTxid + 1) ltac:(lia)). lia.
Qed.

(** Whoever reads a tree reads leaves. *)
Lemma extract_authentic vTxid t : Z.of_nat (length vTxid) <= 2 ^ 31 -> nTransactions t = Z.of_nat (length vTxid) -> hashes vTxid -> hashes (vHash t) ->
  forall h pos s x s', (h <= 31)%nat -> (pos * 2 ^ h < length vTxid)%nat -> TraverseAndExtract t h (Z.of_nat pos) s = (x, s') ->
  length x = 32%nat /\ exists ms, ex_match s' = ex_match s ++ ms /\ (ex_bad s' = false -> ex_bad s = false /\
    (x = node h (below h pos vTxid) -> ms `sublist_of` below h pos vTxid \/ merkle_collision)).
Proof.
  intros Hn Ht HT HV. assert (Hnode : forall h pos, (pos * 2 ^ h < length vTxid)%nat -> length (node h (below h pos vTxid)) = 32%nat).
  { intros h pos Hp. pose proof (pow2_ge1 h). apply node_length; [rewrite length_below; lia|]. unfold below. by apply Forall_take, Forall_drop. }
  induction h as [|h IH]; intros pos s x s' Hh Hp; cbn [TraverseAndExtract].
  - destruct (vBits t !! nBitsUsed s) as [b|]; cbn [nHashUsed]; [|intros [= <- <-]; split; [done|]; exists []; by rewrite app_nil_r].
    destruct (vHash t !! nHashUsed s) as [y|] eqn:Ey; [|intros [= <- <-]; split; [done|]; exists []; by rewrite app_nil_r].
    intros [= <- <-]. split; [by apply (Forall_lookup_1 _ _ _ _ HV Ey)|]. exists (if b then [y] else []). split; [destruct b; cbn; by rewrite ?app_nil_r|].
    cbn [ex_bad]. intros Hb. split; [done|]. intros Ex. left. destruct b; [|apply sublist_nil_l].
    assert (L1 : length (below 0 pos vTxid) = 1%nat) by (rewrite length_below; change (2 ^ 0)%nat with 1%nat in *; lia). destruct (below 0 pos vTxid) as [|z [|]]; try done.
    cbn in Ex. by subst y.
  - destruct (vBits t !! nBitsUsed s) as [b|]; cbn [nHashUsed]; [|intros [= <- <-]; split; [done|]; exists []; by rewrite app_nil_r].
    destruct b; cbn [negb].
    2:{ destruct (vHash t !! nHashUsed s) as [y|] eqn:Ey; [|intros [= <- <-]; split; [done|]; exists []; by rewrite app_nil_r].
        intros [= <- <-]. split; [by apply (Forall_lookup_1 _ _ _ _ HV Ey)|]. exists []. split; [cbn; by rewrite app_nil_r|]. intros Hb. split; [done|]. intros _. left. apply sublist_nil_l. }
    destruct (child_pos (length vTxid) h pos ltac:(lia) Hn Hp) as [-> ->]. pose proof (pow2_ge1 h). assert (Hp2 := Hp). rewrite pow2_S in Hp2. rewrite Ht, width_right by lia.
    set (s0 := mkExtract _ _ _ _). destruct (TraverseAndExtract t h (Z.of_nat (2 * pos)) s0) as [y1 s1] eqn:E1.
    destruct (IH (2 * pos)%nat _ _ _ ltac:(lia) ltac:(lia) E1) as (Y1 & m1 & M1 & R1). rewrite node_below by done. destruct (Nat.ltb_spec ((2 * pos + 1) * 2 ^ h) (length vTxid)) as [L|L].
    + destruct (TraverseAndExtract t h (Z.of_nat (2 * pos + 1)) s1) as [y2 s2] eqn:E2. destruct (IH (2 * pos + 1)%nat _ _ _ ltac:(lia) ltac:(lia) E2) as (Y2 & m2 & M2 & R2).
      intros [= <- <-]. split; [apply SHA256_digest|]. exists (m1 ++ m2). split; [rewrite M2, M1; cbn; by rewrite app_assoc|]. intros Hb. destruct (R2 Hb) as [Hb1 R2']. destruct (R1 Hb1) as [Hb0 R1'].
      split; [done|]. intros Ex. apply hash_pair_inj in Ex as [[Ex1 Ex2]|]; [|by right|done|apply Hnode; lia].
      destruct (R1' Ex1) as [S1|]; [|by right]. destruct (R2' Ex2) as [S2|]; [|by right]. left. rewrite below_split. by apply sublist_app.
    + intros [= <- <-]. split; [apply SHA256_digest|]. exists m1. split; [done|]. intros Hb. destruct (R1 Hb) as [Hb0 R1']. split; [done|].
      intros Ex. apply hash_pair_inj in Ex as [[Ex1 _]|]; [|by right|done|apply Hnode; lia]. destruct (R1' Ex1) as [S1|]; [left|by right].
      rewrite below_split. etrans; [exact S1|]. apply sublist_inserts_r. done.
Qed.

Lemma authentic_matches (vTxid : list (list Z)) (t : CPartialMerkleTree) (root : list Z) (mutated : bool) (ms : list (list Z)) :
  hashes vTxid -> hashes (vHash t) -> nTransactions t = Z.of_nat (length vTxid) -> ComputeMerkleRoot vTxid = Some (root, mutated) ->
  ExtractMatches t = Some (root, ms) -> root <> UINT256_ZERO -> ms `sublist_of` vTxid \/ merkle_collision.
Proof.
  intros HT HV Ht Hr He Nz. unfold ExtractMatches in He. destruct (Z.eqb_spec (nTransactions t) 0) as [|N0]; [congruence|].
  destruct (Z.gtb_spec (nTransactions t) (MAX_BLOCK_SIZE_CURRENT / 60)) as [|Hb]; [congruence|]. change (MAX_BLOCK_SIZE_CURRENT / 60) with 33333 in Hb.
  destruct (_ >? _); [congruence|]. destruct (_ <? _)%nat; [congruence|]. rewrite Ht in *.
  rewrite ComputeMerkleRoot_tree in Hr by lia. injection Hr as Hr _. destruct (tree_height_is vTxid ltac:(lia) ltac:(lia)) as (Eh & Hh & Hl). rewrite Eh in He. cbn [obind] in He.
  destruct (TraverseAndExtract t (height vTxid) 0 (mkExtract 0 0 [] (fBad t))) as [x s] eqn:E. change 0 with (Z.of_nat 0) in E.
  destruct (extract_authentic vTxid t ltac:(lia) Ht HT HV (height vTxid) 0%nat _ _ _ Hh ltac:(lia) E) as (_ & m & M & R). cbn [ex_match app] in M.
  destruct (ex_bad s); [congruence|]. destruct (negb _); [congruence|]. destruct (negb _); [congruence|]. injection He as -> <-.
  rewrite below_all in R by lia. destruct (R eq_refl) as [_ R']. rewrite M. by apply R'.
Qed.

(** C24: what a partial tree whose root is the Merkle root of a block proves. When it states
    the number of transactions of the block, the matches are transactions of the block, in
    their order and each at most once, or two inputs with the same hash are exhibited. The
    number comes from the peer and neither the header nor the reader fixes it, and without it
    nothing is proved: a tree that states one transaction, with the root itself as its only
    hash, reads as the same root and claims the root as a transaction. *)
Theorem ExtractMatches_authentic (vTxid : list (list Z)) (t : CPartialMerkleTree) (root : list Z) (mutated : bool) (ms : list (list Z)) :
  hashes vTxid -> hashes (vHash t) -> ComputeMerkleRoot vTxid = Some (root, mutated) -> root <> UINT256_ZERO ->
  (nTransactions t = Z.of_nat (length vTxid) -> ExtractMatches t = Some (root, ms) -> ms `sublist_of` vTxid \/ merkle_collision) /\
  ExtractMatches (mkPartial 1 [true] [root] false) = Some (root, [root]).
Proof. intros HT HV Hr Nz. split; [intros Ht He; by eapply authentic_matches|reflexivity]. Qed.
End Properties.

Section Blocks.
Context {babi : BlockAbi} {crypto : ScriptCrypto}.

(** The answers of the filter, transaction by transaction. *)
Lemma filter_txs_spec vtx : forall f i V H M, filter_ok f -> Forall (fun tx => Z.of_nat (length (vout tx)) <= 2 ^ 32) vtx ->
  exists ms picks f', filter_txs f i vtx V H M = Some (V ++ ms, H ++ map GetHash vtx, M ++ picks, f') /\ grows f f' /\
    Forall2 (fun tx b => (relevant f tx -> b = true) /\ (b = true -> relevant f' tx)) vtx ms /\ picks.*2 = picked (map GetHash vtx) ms.
Proof.
  induction vtx as [|tx vtx IH]; intros f i V H M Ok F; cbn [filter_txs].
  { exists [], [], f. rewrite !app_nil_r. by repeat split. }
  apply Forall_cons in F as [F1 F]. destruct (IsRelevantAndUpdate_spec f tx Ok F1) as (b & f1 & E & G & R1 & R2 & _). rewrite E. cbn [obind]. pose proof (filter_ok_grows _ _ G Ok) as Ok1.
  destruct (IH f1 (u32 (i + 1)) (V ++ [b]) (H ++ [GetHash tx]) (if b then M ++ [(i, GetHash tx)] else M) Ok1 F) as (ms & picks & f' & E' & G' & A & P).
  exists (b :: ms), (if b then (i, GetHash tx) :: picks else picks), f'. rewrite E'. split; [f_equal; f_equal; f_equal; [f_equal|]; [by rewrite <- app_assoc|by rewrite <- app_assoc|destruct b; by rewrite <- ?app_assoc]|].
  split; [by etrans|]. split.
  - constructor; [split; [done|intros Hb; apply (relevant_grows f1); [done|done|by apply R2]]|]. eapply Forall2_impl; [exact A|]. intros tx' b' [A1 A2]. split; [|done].
    intros Hr. by apply A1, (relevant_grows f).
  - cbn [map picked]. destruct b; cbn; by rewrite P.
Qed.

(** C22: a filtered block survives its way to the peer. Building it for a filter ends without
    an access outside of a vector; what the peer reads back has the header, and reading the
    partial tree gives the Merkle root of the block and exactly the transactions the filter
    matched, in order; every transaction that has something the filter contained is among
    them. *)
Theorem CMerkleBlock_roundtrip (block : CBlock) (filter : CBloomFilter) (rest : list Z) :
  ser_ok (header block) -> filter_ok filter -> (0 < length (vtx block))%nat -> Z.of_nat (length (vtx block)) <= MAX_BLOCK_SIZE_CURRENT / 60 ->
  Forall (fun tx => Z.of_nat (length (vout tx)) <= 2 ^ 32) (vtx block) ->
  exists m filter' m' root mutated ms, CMerkleBlock_of block filter = Some (m, filter') /\ grows filter filter' /\
    UnserializeMerkleBlock (SerializeMerkleBlock m ++ rest) = Some (m', rest) /\ mb_header m' = header block /\
    BlockMerkleRoot (vtx block) = Some (root, mutated) /\ ExtractMatches (txn m') = Some (root, picked (map GetHash (vtx block)) ms) /\
    (vMatchedTxn m).*2 = picked (map GetHash (vtx block)) ms /\
    Forall2 (fun tx b => (relevant filter tx -> b = true) /\ (b = true -> relevant filter' tx)) (vtx block) ms.
Proof.
  intros Hh Ok H0 Hb F. destruct (filter_txs_spec (vtx block) filter 0 [] [] [] Ok F) as (ms & picks & f' & E & G & A & P). cbn [app] in E.
  assert (Lm : length ms = length (map GetHash (vtx block))) by (rewrite length_map; symmetry; by eapply Forall2_length).
  assert (Hk : Z.of_nat (length (vtx block)) <= 33333) by exact Hb. assert (HB : Forall (fun x => ser_ok (Serializable := ser_blob 32) x) (map GetHash (vtx block))).
  { apply Forall_map, Forall_true. intros tx. apply SHA256_digest. }
  pose proof (partial_of_spec (map GetHash (vtx block)) ms ltac:(rewrite length_map; lia) ltac:(rewrite length_map; lia) Lm) as Et. set (t := mkPartial _ _ _ _) in Et.
  assert (Pk : partial_ok t) by (apply (partial_of_ok (map GetHash (vtx block)) ms); rewrite ?length_map; try done; by rewrite Lm, length_map).
  exists (mkMerkleBlock (header block) t picks), f', (mkMerkleBlock (header block) (padded t) []), (node (height (map GetHash (vtx block))) (map GetHash (vtx block))),
    (twins (height (map GetHash (vtx block))) (map GetHash (vtx block))), ms.
  split; [unfold CMerkleBlock_of; rewrite E; cbn [obind]; rewrite Et; done|]. split; [done|]. split.
  { unfold UnserializeMerkleBlock, SerializeMerkleBlock. cbn [mb_header txn]. rewrite <- app_assoc, Unserialize_Serialize by done. cbn [obind]. rewrite partial_read_back by done. done. }
  split; [done|]. split; [unfold BlockMerkleRoot; apply ComputeMerkleRoot_tree; rewrite length_map; lia|]. split; [|done].
  apply extract_padded; rewrite ?length_map; try done. by rewrite Lm, length_map.
Qed.
End Blocks.

(** * Example *)

#[local] Existing Instances blockAbi64 toy_crypto.
Definition mk_tx (i : Z) : CTransaction := mkTx 1 0 [] [mkTxOut i (20 :: (if i =? 3 then hex1 else hex2)) (-10)] 0 None None.
Definition mk_block : CBlock := mkBlock (mkHeader 3 (repeat 1 32) (repeat 2 32) 5 6 7 (repeat 0 32) (repeat 0 32)) (map mk_tx [1; 2; 3; 4; 5]) [] false.
Lemma CMerkleBlock_roundtrip_witness :
  (f <- bloom_insert bl_filter hex1;; m <- CMerkleBlock_of mk_block f;; '(m', _) <- UnserializeMerkleBlock (SerializeMerkleBlock (fst m));;
   r <- ExtractMatches (txn m');; root <- BlockMerkleRoot (vtx mk_block);; Some (bool_decide (fst r = fst root), snd r)) = Some (true, [GetHash (mk_tx 3)]) /\
  exists m f' m' root mutated ms, CMerkleBlock_of mk_block bl_filter = Some (m, f') /\ UnserializeMerkleBlock (SerializeMerkleBlock m ++ []) = Some (m', []) /\
    BlockMerkleRoot (vtx mk_block) = Some (root, mutated) /\ ExtractMatches (txn m') = Some (root, picked (map GetHash (vtx mk_block)) ms).
Proof.
  split; [vm_compute; reflexivity|].
  destruct (CMerkleBlock_roundtrip mk_block bl_filter []) as (m & f' & m' & root & mutated & ms & H1 & _ & H3 & _ & H5 & H6 & _).
  - vm_compute. repeat split; try discriminate; repeat constructor; discriminate.
  - intros _. discriminate.
  - vm_compute. lia.
  - vm_compute. discriminate.
  - repeat constructor; vm_compute; discriminate.
  - exists m, f', m', root, mutated, ms. auto.
Defined.
Definition mk_partial : CPartialMerkleTree :=
  match CPartialMerkleTree_of ex_leaves [false; true; false; false; true] with Some t => t | None => mkPartial 0 [] [] true end.
Lemma ExtractMatches_authentic_witness :
  ExtractMatches mk_partial = Some (node 3 ex_leaves, [2 :: repeat 0 31; 5 :: repeat 0 31]) /\
  ([2 :: repeat 0 31; 5 :: repeat 0 31] `sublist_of` ex_leaves \/ merkle_collision) /\
  ExtractMatches (mkPartial 1 [true] [node 3 ex_leaves] false) = Some (node 3 ex_leaves, [node 3 ex_leaves]).
Proof.
  assert (E : ExtractMatches mk_partial = Some (node 3 ex_leaves, [2 :: repeat 0 31; 5 :: repeat 0 31])) by (vm_compute; reflexivity).
  split; [exact E|].
  destruct (ExtractMatches_authentic ex_leaves mk_partial (node 3 ex_leaves) false [2 :: repeat 0 31; 5 :: repeat 0 31]) as [H1 H2].
  - repeat constructor.
  - vm_compute. repeat constructor.
  - vm_compute. reflexivity.
  - vm_compute. discriminate.
  - split; [apply H1; [reflexivity|exact E]|exact H2].
Defined.
