(* ===== verification/Chain.v ===== *)
(** The block index and the active chain (src/chain.h, src/chain.cpp,
    [AddToBlockIndex] of src/validation.cpp).

    The index maps block hashes to entries; a pointer to an entry is its hash. *)
From Stdlib Require Import ZArith Lia List Bool.
From stdpp Require Import base gmap list sorting.
From S2P Require Import Prelude Uint256 Consensus Pow Serialize Script Interpreter Codecs Transaction Block.
Import ListNotations.
Local Open Scope Z_scope.
Local Open Scope passion_scope.

(** * Entries *)

Definition BLOCK_VALID_UNKNOWN : Z := 0.
Definition BLOCK_VALID_HEADER : Z := 1.
Definition BLOCK_VALID_TREE : Z := 2.
Definition BLOCK_VALID_TRANSACTIONS : Z := 3.
Definition BLOCK_VALID_CHAIN : Z := 4.
Definition BLOCK_VALID_SCRIPTS : Z := 5.
Definition BLOCK_VALID_MASK : Z :=
  Z.lor (Z.lor (Z.lor (Z.lor BLOCK_VALID_HEADER BLOCK_VALID_TREE) BLOCK_VALID_TRANSACTIONS) BLOCK_VALID_CHAIN) BLOCK_VALID_SCRIPTS.
Definition BLOCK_HAVE_DATA : Z := 8.
Definition BLOCK_HAVE_UNDO : Z := 16.
Definition BLOCK_FAILED_VALID : Z := 32.
Definition BLOCK_FAILED_CHILD : Z := 64.
Definition BLOCK_FAILED_MASK : Z := Z.lor BLOCK_FAILED_VALID BLOCK_FAILED_CHILD.
Definition BLOCK_PROOF_OF_STAKE : Z := 1.
Definition BLOCK_STAKE_ENTROPY : Z := 2.
Definition BLOCK_STAKE_MODIFIER : Z := 4.

Abbreviation hash := (list Z).
Record CBlockIndex := mkIndexEntry {
  pprev : option hash;
  pskip : option hash;
  nHeight : Z;
  nFile : Z;
  nDataPos : Z;
  nUndoPos : Z;
  nChainWork : list Z;
  nTx : Z;
  nChainTx : Z;
  nStatus : Z;
  vStakeModifier : list Z;
  nFlags : Z;
  nSaplingValue : Z;
  nChainSaplingValue : option Z;
  ix_header : CBlockHeader;  (* without [hashPrevBlock] *)
  nSequenceId : Z;
  nTimeMax : Z
}.
Abbreviation BlockMap := (gmap hash CBlockIndex).
Definition zero_work : list Z := base_uint_zero WIDTH256.
Definition ix_nTime (b : CBlockIndex) : Z := blk_nTime (ix_header b).
Definition ix_GetBlockTime (b : CBlockIndex) : Z := ix_nTime b.
Definition GetBlockTimeMax (b : CBlockIndex) : Z := nTimeMax b.

Definition with_links (b : CBlockIndex) (prev skip : option hash) (h : Z) : CBlockIndex :=
  mkIndexEntry prev skip h (nFile b) (nDataPos b) (nUndoPos b) (nChainWork b) (nTx b) (nChainTx b) (nStatus b) (vStakeModifier b) (nFlags b)
    (nSaplingValue b) (nChainSaplingValue b) (ix_header b) (nSequenceId b) (nTimeMax b).
Definition with_work (b : CBlockIndex) (work : list Z) (timeMax : Z) : CBlockIndex :=
  mkIndexEntry (pprev b) (pskip b) (nHeight b) (nFile b) (nDataPos b) (nUndoPos b) work (nTx b) (nChainTx b) (nStatus b) (vStakeModifier b) (nFlags b)
    (nSaplingValue b) (nChainSaplingValue b) (ix_header b) (nSequenceId b) timeMax.
Definition with_status (b : CBlockIndex) (status : Z) : CBlockIndex :=
  mkIndexEntry (pprev b) (pskip b) (nHeight b) (nFile b) (nDataPos b) (nUndoPos b) (nChainWork b) (nTx b) (nChainTx b) status (vStakeModifier b)
    (nFlags b) (nSaplingValue b) (nChainSaplingValue b) (ix_header b) (nSequenceId b) (nTimeMax b).
Definition with_modifier (b : CBlockIndex) (m : list Z) (flags : Z) : CBlockIndex :=
  mkIndexEntry (pprev b) (pskip b) (nHeight b) (nFile b) (nDataPos b) (nUndoPos b) (nChainWork b) (nTx b) (nChainTx b) (nStatus b) m flags
    (nSaplingValue b) (nChainSaplingValue b) (ix_header b) (nSequenceId b) (nTimeMax b).

(** [CBlockIndex(block)]: the fields the version does not have keep their default. *)
Definition CBlockIndex_of (block : CBlock) : CBlockIndex :=
  let h := header block in
  mkIndexEntry None None 0 0 0 0 zero_work 0 0 0 [] (if IsProofOfStake block then BLOCK_PROOF_OF_STAKE else 0) 0 None
    (mkHeader (blk_nVersion h) (repeat 0 32) (hashMerkleRoot h) (blk_nTime h) (nBits h) (nNonce h)
       (if has_checkpoint (blk_nVersion h) then nAccumulatorCheckpoint h else repeat 0 32) (hashFinalSaplingRoot h)) 0 0.
Definition ix_IsProofOfStake (b : CBlockIndex) : bool := negb (Z.land (nFlags b) BLOCK_PROOF_OF_STAKE =? 0).
Definition SetProofOfStake (b : CBlockIndex) : CBlockIndex := with_modifier b (vStakeModifier b) (Z.lor (nFlags b) BLOCK_PROOF_OF_STAKE).
(** The header again, with the hash of the parent. *)
Definition ix_GetBlockHeader (b : CBlockIndex) : CBlockHeader :=
  let h := ix_header b in
  mkHeader (blk_nVersion h) (match pprev b with Some p => p | None => repeat 0 32 end) (hashMerkleRoot h) (blk_nTime h) (nBits h) (nNonce h)
    (if has_checkpoint (blk_nVersion h) then nAccumulatorCheckpoint h else repeat 0 32)
    (if has_sapling_root (blk_nVersion h) then hashFinalSaplingRoot h else repeat 0 32).
(** File and offset, [-1] without data. *)
Definition GetBlockPos (b : CBlockIndex) : Z * Z := if negb (Z.land (nStatus b) BLOCK_HAVE_DATA =? 0) then (nFile b, nDataPos b) else (-1, 0).
Definition GetUndoPos (b : CBlockIndex) : Z * Z := if negb (Z.land (nStatus b) BLOCK_HAVE_UNDO =? 0) then (nFile b, nUndoPos b) else (-1, 0).

(** [None]: the assertion that only validity flags are passed fails. *)
Definition ix_IsValid (b : CBlockIndex) (nUpTo : Z) : option bool :=
  if negb (Z.land nUpTo (Z.lxor 0xffffffff BLOCK_VALID_MASK) =? 0) then None
  else if negb (Z.land (nStatus b) BLOCK_FAILED_MASK =? 0) then Some false
  else Some (Z.land (nStatus b) BLOCK_VALID_MASK >=? nUpTo).
Definition RaiseValidity (b : CBlockIndex) (nUpTo : Z) : option (bool * CBlockIndex) :=
  if negb (Z.land nUpTo (Z.lxor 0xffffffff BLOCK_VALID_MASK) =? 0) then None
  else if negb (Z.land (nStatus b) BLOCK_FAILED_MASK =? 0) then Some (false, b)
  else if Z.land (nStatus b) BLOCK_VALID_MASK <? nUpTo
  then Some (true, with_status b (Z.lor (Z.land (nStatus b) (Z.lxor 0xffffffff BLOCK_VALID_MASK)) nUpTo))
  else Some (false, b).

(** * Ancestors *)

Definition InvertLowestOne (n : Z) : Z := Z.land n (n - 1).
Definition GetSkipHeight (height : Z) : Z :=
  if height <? 2 then 0
  else if Z.odd height then InvertLowestOne (InvertLowestOne (height - 1)) + 1 else InvertLowestOne height.

(** [vChain], with null pointers. *)
Abbreviation CChain := (list (option hash)).

Section Index.
Variable idx : BlockMap.

(** The walk of [GetAncestor]; [None] is a null pointer followed, or no fuel. *)
Fixpoint ancestor_walk (fuel : nat) (height : Z) (walk : hash) (heightWalk : Z) : option hash :=
  if heightWalk >? height then
    match fuel with
    | O => None
    | S fuel =>
        let heightSkip := GetSkipHeight heightWalk in
        let heightSkipPrev := GetSkipHeight (heightWalk - 1) in
        b <- idx !! walk;;
        if (heightSkip =? height) || ((heightSkip >? height) && negb ((heightSkipPrev <? heightSkip - 2) && (heightSkipPrev >=? height)))
        then p <- pskip b;; ancestor_walk fuel height p heightSkip
        else p <- pprev b;; ancestor_walk fuel height p (heightWalk - 1)
    end
  else Some walk.
(** Inner [None]: the null pointer. *)
Definition GetAncestor (p : hash) (height : Z) : option (option hash) :=
  b <- idx !! p;;
  if (height >? nHeight b) || (height <? 0) then Some None
  else r <- ancestor_walk (Z.to_nat (nHeight b)) height p (nHeight b);; Some (Some r).
Definition BuildSkip (b : CBlockIndex) : option CBlockIndex :=
  match pprev b with
  | Some q => r <- GetAncestor q (GetSkipHeight (nHeight b));; Some (with_links b (pprev b) r (nHeight b))
  | None => Some b
  end.

(** Both pointers up until they meet. *)
Fixpoint meet (fuel : nat) (pa pb : option hash) : option (option hash) :=
  match pa, pb with
  | Some a, Some b =>
      if decide (a = b) then Some (Some a)
      else
        match fuel with
        | O => None
        | S fuel => ba <- idx !! a;; bb <- idx !! b;; meet fuel (pprev ba) (pprev bb)
        end
  | None, None => Some None
  | _, _ => None   (* assert(pa == pb) *)
  end.
Definition LastCommonAncestor (pa pb : hash) : option (option hash) :=
  ba <- idx !! pa;; bb <- idx !! pb;;
  a <- (if nHeight ba >? nHeight bb then GetAncestor pa (nHeight bb) else Some (Some pa));;
  b <- (if nHeight bb >? nHeight ba then GetAncestor pb (nHeight ba) else Some (Some pb));;
  meet (S (Z.to_nat (Z.min (nHeight ba) (nHeight bb)))) a b.

(** ** Times *)

Definition nMedianTimeSpan : nat := 11.
Fixpoint past_times (n : nat) (p : option hash) : option (list Z) :=
  match n, p with
  | S n, Some p => b <- idx !! p;; r <- past_times n (pprev b);; Some (ix_GetBlockTime b :: r)
  | _, _ => Some []
  end.
Definition GetMedianTimePast (p : hash) : option Z :=
  ts <- past_times nMedianTimeSpan (Some p);;
  let sorted := merge_sort Z.le ts in
  sorted !! (length sorted / 2)%nat.
Definition MinPastBlockTime (consensus : Params) (p : hash) : option Z :=
  b <- idx !! p;;
  if negb (IsTimeProtocolV2 consensus (nHeight b + 1)) then GetMedianTimePast p
  else if nHeight b + 1 =? upgrade_height consensus UPGRADE_V4_0
  then Some (i64 (ix_GetBlockTime b - FutureBlockTimeDrift consensus (nHeight b) + FutureBlockTimeDrift consensus (nHeight b + 1)))
  else Some (ix_GetBlockTime b).

(** * The active chain *)

Definition chain_at (c : CChain) (n : Z) : option hash :=
  if (n <? 0) || (n >=? Z.of_nat (length c)) then None else match c !! Z.to_nat n with Some p => p | None => None end.
Definition Height (c : CChain) : Z := Z.of_nat (length c) - 1.
Definition Genesis (c : CChain) : option hash := chain_at c 0.
(** [Tip(true)]: back to a proof-of-stake block, or the root. *)
Fixpoint last_stake (fuel : nat) (p : hash) : option hash :=
  b <- idx !! p;;
  match pprev b with
  | Some q => if negb (ix_IsProofOfStake b) then match fuel with O => None | S fuel => last_stake fuel q end else Some p
  | None => Some p
  end.
Definition Tip (c : CChain) : option hash := chain_at c (Height c).
Definition Tip_stake (c : CChain) : option (option hash) :=
  match Tip c with None => Some None | Some p => b <- idx !! p;; r <- last_stake (Z.to_nat (nHeight b)) p;; Some (Some r) end.
Definition Contains (c : CChain) (p : hash) : option bool := b <- idx !! p;; Some (bool_decide (chain_at c (nHeight b) = Some p)).
Definition Next (c : CChain) (p : hash) : option (option hash) :=
  b <- idx !! p;; Some (if bool_decide (chain_at c (nHeight b) = Some p) then chain_at c (nHeight b + 1) else None).

Definition resize (c : CChain) (n : nat) : CChain := take n c ++ replicate (n - length c) None.
Fixpoint set_tip_loop (fuel : nat) (p : option hash) (c : CChain) : option CChain :=
  match p with
  | None => Some c
  | Some q =>
      b <- idx !! q;;
      e <- c !! Z.to_nat (nHeight b);;
      if bool_decide (e = Some q) then Some c
      else
        match fuel with
        | O => None
        | S fuel => set_tip_loop fuel (pprev b) (<[Z.to_nat (nHeight b) := Some q]> c)
        end
  end.
Definition SetTip (p : option hash) (c : CChain) : option CChain :=
  match p with
  | None => Some []
  | Some q => b <- idx !! q;; let n := S (Z.to_nat (nHeight b)) in set_tip_loop n (Some q) (resize c n)
  end.

Fixpoint find_fork_loop (fuel : nat) (c : CChain) (p : option hash) : option (option hash) :=
  match p with
  | None => Some None
  | Some q =>
      b <- idx !! q;;
      if bool_decide (chain_at c (nHeight b) = Some q) then Some (Some q)
      else match fuel with O => None | S fuel => find_fork_loop fuel c (pprev b) end
  end.
Definition FindFork (c : CChain) (p : option hash) : option (option hash) :=
  match p with
  | None => Some None
  | Some q =>
      b <- idx !! q;;
      r <- (if nHeight b >? Height c then GetAncestor q (Height c) else Some (Some q));;
      find_fork_loop (S (Z.to_nat (nHeight b))) c r
  end.

(** [std::lower_bound] over [vChain] with [GetBlockTimeMax() < nTime]. *)
Fixpoint lower_bound_loop (fuel : nat) (c : CChain) (nTime : Z) (first len : nat) : option nat :=
  match len, fuel with
  | O, _ => Some first
  | _, O => None
  | _, S fuel =>
      let half := (len / 2)%nat in
      q <- c !! (first + half)%nat;; p <- q;; b <- idx !! p;;
      if GetBlockTimeMax b <? nTime then lower_bound_loop fuel c nTime (first + half + 1) (len - half - 1)
      else lower_bound_loop fuel c nTime first half
  end.
Definition FindEarliestAtLeast (c : CChain) (nTime : Z) : option (option hash) :=
  n <- lower_bound_loop (length c) c nTime 0 (length c);;
  Some (match c !! n with Some p => p | None => None end).

Fixpoint locator_loop (fuel : nat) (c : CChain) (p : option hash) (nStep : Z) (vHave : list hash) : option (list hash) :=
  match p with
  | None => Some vHave
  | Some q =>
      b <- idx !! q;;
      let vHave := vHave ++ [q] in
      if nHeight b =? 0 then Some vHave
      else
        match fuel with
        | O => None
        | S fuel =>
            let h := Z.max (nHeight b - nStep) 0 in
            next <- (if bool_decide (chain_at c (nHeight b) = Some q) then Some (chain_at c h) else GetAncestor q h);;
            locator_loop fuel c next (if (10 <? length vHave)%nat then i32 (nStep * 2) else nStep) vHave
        end
  end.
Definition GetLocator (c : CChain) (p : option hash) : option (list hash) :=
  let p := match p with Some q => Some q | None => Tip c end in
  match p with
  | None => Some []
  | Some q => b <- idx !! q;; locator_loop (S (Z.to_nat (nHeight b))) c p 1 []
  end.
End Index.

(** * Lineages *)

(** [lineage idx p l]: [l] is the path from the root of the tree to [p]. *)
Inductive lineage (idx : BlockMap) : hash -> list hash -> Prop :=
| lineage_root p b : idx !! p = Some b -> pprev b = None -> lineage idx p [p]
| lineage_step p b q l : idx !! p = Some b -> pprev b = Some q -> lineage idx q l -> lineage idx p (l ++ [p]).

(** What the links of an entry say about its parent. *)
Definition links_ok (idx : BlockMap) (b : CBlockIndex) : Prop :=
  match pprev b with
  | None => nHeight b = 0 /\ pskip b = None /\ nTimeMax b = ix_nTime b
  | Some q =>
      exists bq l, idx !! q = Some bq /\ nHeight b = nHeight bq + 1 /\ lineage idx q l /\
                   pskip b = l !! Z.to_nat (GetSkipHeight (nHeight b)) /\ nTimeMax b = Z.max (nTimeMax bq) (ix_nTime b)
  end.
Definition index_ok (idx : BlockMap) : Prop := forall p b, idx !! p = Some b -> links_ok idx b.

Lemma lineage_functional idx p l1 l2 : lineage idx p l1 -> lineage idx p l2 -> l1 = l2.
Proof.
  intros H. revert l2. induction H as [p b E P|p b q l E P H IH]; intros l2 H2; inversion H2; simplify_eq; [done|].
  f_equal. eauto.
Qed.
Lemma lineage_last idx p l : lineage idx p l -> last l = Some p.
Proof. intros H. inversion H; [done|]. apply last_snoc. Qed.
Lemma lineage_lookup idx p l : lineage idx p l -> exists b, idx !! p = Some b.
Proof. intros H. inversion H; eauto. Qed.

Section IndexOk.
Context (idx : BlockMap) (Hidx : index_ok idx).

Lemma lineage_length p l b : lineage idx p l -> idx !! p = Some b -> Z.of_nat (length l) = nHeight b + 1.
Proof.
  intros H. revert b. induction H as [p b E P|p b q l E P H IH]; intros b' E'; simplify_eq;
    pose proof (Hidx _ _ E) as L; unfold links_ok in L; rewrite P in L.
  - destruct L as [-> _]. reflexivity.
  - destruct L as (bq & l' & Eq & Hh & _). rewrite length_app. cbn [length]. specialize (IH _ Eq). lia.
Qed.
Lemma index_lineage p b : idx !! p = Some b -> exists l, lineage idx p l.
Proof.
  intros E. pose proof (Hidx _ _ E) as L. unfold links_ok in L. destruct (pprev b) as [q|] eqn:P.
  - destruct L as (bq & l & Eq & _ & Hl & _). exists (l ++ [p]). eapply lineage_step; eauto.
  - exists [p]. eapply lineage_root; eauto.
Qed.
Lemma lineage_height p l b : lineage idx p l -> idx !! p = Some b -> Z.to_nat (nHeight b) = (length l - 1)%nat /\ 0 <= nHeight b.
Proof.
  intros H E. pose proof (lineage_length _ _ _ H E). assert (length l <> O) by (inversion H; rewrite ?length_app; cbn; lia). lia.
Qed.
(** Every block of a path has the path up to it. *)
Lemma lineage_prefix p l n q : lineage idx p l -> l !! n = Some q -> lineage idx q (take (S n) l).
Proof.
  intros H. revert n q. induction H as [p b E P|p b r l E P H IH]; intros n q L.
  - apply list_lookup_singleton_Some in L as [-> ->]. eapply lineage_root; eauto.
  - apply lookup_app_Some in L as [L|[Hn L]].
    + rewrite take_app_le by (apply lookup_lt_Some in L; lia). eauto.
    + apply list_lookup_singleton_Some in L as [Hz ->]. rewrite take_ge by (rewrite length_app; cbn; lia).
      eapply lineage_step; eauto.
Qed.
Lemma lineage_at p l n q : lineage idx p l -> l !! n = Some q ->
  exists b, idx !! q = Some b /\ nHeight b = Z.of_nat n /\
            match n with O => pprev b = None | S m => pprev b = l !! m /\ is_Some (l !! m) end.
Proof.
  intros H L. pose proof (lineage_prefix _ _ _ _ H L) as Hq. destruct (lineage_lookup _ _ _ Hq) as [b E].
  pose proof (lookup_lt_Some _ _ _ L) as Hlt.
  pose proof (lineage_length _ _ _ Hq E) as Hn. rewrite length_take in Hn. exists b. split; [done|]. split; [lia|].
  destruct (lookup_lt_is_Some_2 l (n - 1)) as [r Hr]; [lia|].
  inversion Hq as [p' b' E' P' Ep Hl|p' b' r' l' E' P' Hr' Ep Hl]; simplify_eq.
  - assert (Z : length (take (S n) l) = 1%nat) by (rewrite <- Hl; done). rewrite length_take in Z.
    destruct n; [done|lia].
  - pose proof (lineage_last _ _ _ Hr') as La.
    assert (Z : length (take (S n) l) = S (length l')) by (rewrite <- Hl, length_app; cbn; lia). rewrite length_take in Z.
    destruct n as [|m].
    + assert (length l' = O) by lia. destruct l'; [done|discriminate].
    + replace (S m - 1)%nat with m in Hr by lia. rewrite P', Hr. split; [|eauto].
      rewrite <- La, last_lookup. replace (pred (length l')) with m by lia.
      assert (Z2 : take (S (S m)) l !! m = l !! m) by (apply lookup_take_lt; lia).
      rewrite <- Hl, lookup_app_l in Z2 by lia. congruence.
Qed.
End IndexOk.

Lemma lineage_NoDup idx p l : lineage idx p l -> NoDup l.
Proof.
  intros H. apply NoDup_alt. intros i j q Li Lj.
  pose proof (lineage_functional _ _ _ _ (lineage_prefix idx _ _ _ _ H Li) (lineage_prefix idx _ _ _ _ H Lj)) as E.
  apply (f_equal length) in E. rewrite !length_take in E. apply lookup_lt_Some in Li, Lj. lia.
Qed.
Lemma lineage_insert idx h b p l : idx !! h = None -> lineage idx p l -> lineage (<[h := b]> idx) p l.
Proof.
  intros N H. induction H as [p c E P|p c q l E P H IH]; [eapply lineage_root|eapply lineage_step]; eauto;
    rewrite lookup_insert_ne by congruence; done.
Qed.
Lemma lineage_elem idx p l q : lineage idx p l -> q ∈ l -> is_Some (idx !! q).
Proof.
  intros H Hq. apply list_elem_of_lookup in Hq as [i L]. destruct (lineage_lookup _ _ _ (lineage_prefix idx _ _ _ _ H L)) as [b E].
  rewrite E. eauto.
Qed.

Lemma land_pred_le n : 0 < n -> 0 <= InvertLowestOne n < n.
Proof.
  intros H. unfold InvertLowestOne. split; [apply Z.land_nonneg; lia|].
  pose proof (Z.land_nonneg n (n - 1)). assert (Z.land n (n - 1) <= n - 1); [|lia].
  apply Z.ldiff_le; [lia|]. apply Z.bits_inj'. intros k Hk. rewrite Z.ldiff_spec, Z.land_spec, Z.bits_0.
  destruct (Z.testbit n k), (Z.testbit (n - 1) k); reflexivity.
Qed.
Lemma GetSkipHeight_range h : 0 < h -> 0 <= GetSkipHeight h < h.
Proof.
  intros H. unfold GetSkipHeight. destruct (Z.ltb_spec h 2); [lia|].
  destruct (Z.odd h) eqn:O; [|apply land_pred_le; lia].
  assert (h <> 2) by (intros ->; discriminate). pose proof (land_pred_le (h - 1) ltac:(lia)).
  destruct (Z.eq_dec (InvertLowestOne (h - 1)) 0) as [->|]; [change (InvertLowestOne 0) with 0; lia|].
  pose proof (land_pred_le (InvertLowestOne (h - 1)) ltac:(lia)). lia.
Qed.

(** * Ancestors *)

Section Ancestors.
Context (idx : BlockMap) (Hidx : index_ok idx).

Lemma lineage_skip p l n q b : lineage idx p l -> l !! S n = Some q -> idx !! q = Some b ->
  pskip b = l !! Z.to_nat (GetSkipHeight (Z.of_nat (S n))) /\ is_Some (pskip b).
Proof.
  intros H L E. destruct (lineage_at idx Hidx _ _ _ _ H L) as (b' & E' & Hh & P & [r Hr]). simplify_eq.
  pose proof (Hidx _ _ E) as K. unfold links_ok in K. rewrite P, Hr in K.
  destruct K as (br & l' & Er & _ & Hl' & Hs & _). rewrite Hh in Hs.
  rewrite (lineage_functional _ _ _ _ Hl' (lineage_prefix idx _ _ _ _ H Hr)) in Hs.
  pose proof (GetSkipHeight_range (Z.of_nat (S n)) ltac:(lia)).
  rewrite lookup_take_lt in Hs by lia. split; [done|]. rewrite Hs. apply lookup_lt_is_Some_2. apply lookup_lt_Some in L. lia.
Qed.
Lemma ancestor_walk_exact p l height hw walk fuel :
  lineage idx p l -> 0 <= height <= hw -> l !! Z.to_nat hw = Some walk -> hw - height <= Z.of_nat fuel ->
  ancestor_walk idx fuel height walk hw = l !! Z.to_nat height.
Proof.
  intros H. revert hw walk. induction fuel as [|fuel IH]; intros hw walk Hr L F; cbn [ancestor_walk].
  - destruct (Z.gtb_spec hw height); [lia|].
    replace height with hw by lia. done.
  - destruct (Z.gtb_spec hw height) as [Hlt|Hge]; [|replace height with hw by lia; done].
    destruct (lineage_at idx Hidx _ _ _ _ H L) as (b & E & Hh & P). rewrite E. cbn [obind].
    destruct (Z.to_nat hw) as [|m] eqn:Em; [lia|]. destruct P as [P [r Hpr]].
    destruct (lineage_skip _ _ _ _ _ H L E) as [S1 [s S2]].
    replace (Z.of_nat (S m)) with hw in S1 by lia. pose proof (GetSkipHeight_range hw ltac:(lia)) as R.
    destruct (_ || _) eqn:C.
    + assert (height <= GetSkipHeight hw) by (apply orb_true_iff in C as [C|C]; [lia|apply andb_true_iff in C; lia]).
      rewrite S2. cbn [obind]. apply IH; [lia|congruence|lia].
    + rewrite P, Hpr. cbn [obind]. apply IH; [lia| |lia].
      replace (Z.to_nat (hw - 1)) with m by lia. done.
Qed.
Lemma GetAncestor_lookup p l height : lineage idx p l ->
  GetAncestor idx p height = Some (if height <? 0 then None else l !! Z.to_nat height).
Proof.
  intros H. destruct (lineage_lookup _ _ _ H) as [b E]. destruct (lineage_height idx Hidx _ _ _ H E) as [Hn Hp].
  pose proof (lineage_length idx Hidx _ _ _ H E) as Hlen.
  unfold GetAncestor. rewrite E. cbn [obind].
  destruct (Z.ltb_spec height 0) as [N|N]; [rewrite orb_true_r; done|]. rewrite orb_false_r.
  destruct (Z.gtb_spec height (nHeight b)) as [G|G].
  - rewrite lookup_ge_None_2 by lia. done.
  - rewrite (ancestor_walk_exact p l height (nHeight b) p) by
      (try done; try lia; rewrite Hn, <- (lineage_last _ _ _ H), last_lookup; f_equal; lia).
    destruct (lookup_lt_is_Some_2 l (Z.to_nat height)) as [q ->]; [lia|]. done.
Qed.

(** [BuildSkip] on an entry whose parent is in the index. *)
Lemma BuildSkip_exact b q l : pprev b = Some q -> lineage idx q l -> Z.of_nat (length l) = nHeight b ->
  BuildSkip idx b = Some (with_links b (Some q) (l !! Z.to_nat (GetSkipHeight (nHeight b))) (nHeight b)).
Proof.
  intros P H Hl. unfold BuildSkip. rewrite P, (GetAncestor_lookup _ _ _ H).
  assert (length l <> O) by (inversion H; rewrite ?length_app; cbn; lia).
  pose proof (GetSkipHeight_range (nHeight b) ltac:(lia)).
  destruct (Z.ltb_spec (GetSkipHeight (nHeight b)) 0); [lia|]. done.
Qed.

(** ** Where two paths part *)

(** The last block the two paths share. *)
Definition fork_of (l1 l2 : list hash) : option hash := last (max_prefix l1 l2).2.

Lemma max_prefix_take (l1 l2 : list hash) n : take n l1 = take n l2 -> (n <= length l1)%nat ->
  (forall x, l1 !! n = Some x -> l2 !! n = Some x -> False) -> (max_prefix l1 l2).2 = take n l1.
Proof.
  revert l1 l2. induction n as [|n IH]; intros l1 l2 T Hn N.
  - destruct l1 as [|x l1], l2 as [|y l2]; try done. cbn. case_decide; [exfalso; apply (N x); cbn; congruence|done].
  - destruct l1 as [|x l1]; [cbn in Hn; lia|]. destruct l2 as [|y l2]; [done|]. cbn in T. injection T as -> T.
    cbn in *. case_decide; [|done]. specialize (IH _ _ T ltac:(lia) N).
    destruct (max_prefix l1 l2) as [[k1 k2] k3]. cbn in *. by rewrite IH.
Qed.
Lemma fork_at p1 p2 l1 l2 n q : lineage idx p1 l1 -> lineage idx p2 l2 -> l1 !! n = Some q -> l2 !! n = Some q ->
  (forall x, l1 !! S n = Some x -> l2 !! S n = Some x -> False) -> fork_of l1 l2 = Some q.
Proof.
  intros H1 H2 L1 L2 N. unfold fork_of.
  assert (T : take (S n) l1 = take (S n) l2) by (eapply lineage_functional; eapply lineage_prefix; eauto).
  rewrite (max_prefix_take l1 l2 (S n) T) by (done || (apply lookup_lt_Some in L1; lia)).
  rewrite (take_S_r _ _ _ L1). apply last_snoc.
Qed.
Lemma fork_none (l1 l2 : list hash) : (forall x, l1 !! O = Some x -> l2 !! O = Some x -> False) -> fork_of l1 l2 = None.
Proof. intros N. unfold fork_of. rewrite (max_prefix_take l1 l2 0) by (try done; lia). done. Qed.

Lemma meet_exact p1 p2 l1 l2 n a b fuel : lineage idx p1 l1 -> lineage idx p2 l2 -> l1 !! n = Some a -> l2 !! n = Some b ->
  (forall x, l1 !! S n = Some x -> l2 !! S n = Some x -> False) -> (n < fuel)%nat ->
  meet idx fuel (Some a) (Some b) = Some (fork_of l1 l2).
Proof.
  intros H1 H2. revert a b fuel. induction n as [|n IH]; intros a b fuel L1 L2 N F; (destruct fuel as [|fuel]; [lia|]);
    cbn [meet]; destruct (decide (a = b)) as [->|D]; try (by erewrite (fork_at p1 p2) by eauto);
    destruct (lineage_at idx Hidx _ _ _ _ H1 L1) as (ba & Ea & _ & Pa);
    destruct (lineage_at idx Hidx _ _ _ _ H2 L2) as (bb & Eb & _ & Pb); rewrite Ea, Eb; cbn [obind].
  - rewrite Pa, Pb, fork_none by congruence. destruct fuel; done.
  - destruct Pa as [Pa [a' Ha]], Pb as [Pb [b' Hb]]. rewrite Pa, Pb, Ha, Hb. apply IH; try done; [|lia]. congruence.
Qed.
Lemma LastCommonAncestor_fork pa pb la lb : lineage idx pa la -> lineage idx pb lb ->
  LastCommonAncestor idx pa pb = Some (fork_of la lb).
Proof.
  intros Ha Hb. destruct (lineage_lookup _ _ _ Ha) as [ba Ea]. destruct (lineage_lookup _ _ _ Hb) as [bb Eb].
  destruct (lineage_height idx Hidx _ _ _ Ha Ea) as [Ha1 Ha2]. destruct (lineage_height idx Hidx _ _ _ Hb Eb) as [Hb1 Hb2].
  pose proof (lineage_length idx Hidx _ _ _ Ha Ea) as La. pose proof (lineage_length idx Hidx _ _ _ Hb Eb) as Lb.
  unfold LastCommonAncestor. rewrite Ea, Eb. cbn [obind].
  set (n := Z.to_nat (Z.min (nHeight ba) (nHeight bb))).
  assert (Ga : (if nHeight ba >? nHeight bb then GetAncestor idx pa (nHeight bb) else Some (Some pa)) = Some (la !! n)).
  { destruct (Z.gtb_spec (nHeight ba) (nHeight bb)).
    - rewrite (GetAncestor_lookup _ _ _ Ha). destruct (Z.ltb_spec (nHeight bb) 0); [lia|]. do 2 f_equal. lia.
    - rewrite <- (lineage_last _ _ _ Ha), last_lookup. do 2 f_equal. lia. }
  assert (Gb : (if nHeight bb >? nHeight ba then GetAncestor idx pb (nHeight ba) else Some (Some pb)) = Some (lb !! n)).
  { destruct (Z.gtb_spec (nHeight bb) (nHeight ba)).
    - rewrite (GetAncestor_lookup _ _ _ Hb). destruct (Z.ltb_spec (nHeight ba) 0); [lia|]. do 2 f_equal. lia.
    - rewrite <- (lineage_last _ _ _ Hb), last_lookup. do 2 f_equal. lia. }
  rewrite Ga, Gb. cbn [obind].
  destruct (lookup_lt_is_Some_2 la n) as [a Ea']; [lia|]. destruct (lookup_lt_is_Some_2 lb n) as [b Eb']; [lia|].
  rewrite Ea', Eb'. apply (meet_exact pa pb la lb n); try done; [|lia].
  intros x X1 X2. apply lookup_lt_Some in X1, X2. lia.
Qed.
End Ancestors.

(** * The active chain *)

Section ActiveChain.
Context (idx : BlockMap) (Hidx : index_ok idx).

(** The chain is empty or the path to its tip. *)
Definition path (l : list hash) : Prop := l = [] \/ exists t, lineage idx t l.
Definition chain_ok (c : CChain) : Prop := exists l, path l /\ c = Some <$> l.

Lemma chain_at_path (l : list hash) n : chain_at (Some <$> l) n = if n <? 0 then None else l !! Z.to_nat n.
Proof.
  unfold chain_at. rewrite length_fmap. destruct (Z.ltb_spec n 0); [done|]. cbn [orb].
  destruct (Z.geb_spec n (Z.of_nat (length l))); [by rewrite lookup_ge_None_2 by lia|].
  rewrite list_lookup_fmap. by destruct (l !! Z.to_nat n).
Qed.
Lemma chain_at_nat (l : list hash) n : chain_at (Some <$> l) (Z.of_nat n) = l !! n.
Proof. rewrite chain_at_path. destruct (Z.ltb_spec (Z.of_nat n) 0); [lia|]. by rewrite Nat2Z.id. Qed.
Lemma lookup_resize (c : CChain) n i : (i < n)%nat -> resize c n !! i = Some (chain_at c (Z.of_nat i)).
Proof.
  intros Hi. unfold resize, chain_at. destruct (Z.ltb_spec (Z.of_nat i) 0); [lia|]. cbn [orb]. rewrite Nat2Z.id.
  destruct (Z.geb_spec (Z.of_nat i) (Z.of_nat (length c))) as [G|G].
  - rewrite lookup_app_r by (rewrite length_take; lia). rewrite length_take.
    apply lookup_replicate_2. lia.
  - rewrite lookup_app_l by (rewrite length_take; lia). rewrite lookup_take_lt by lia.
    destruct (lookup_lt_is_Some_2 c i) as [x ->]; [lia|]. done.
Qed.

(** Paths that meet at a height agree below it. *)
Lemma path_agree p l l0 n q i : lineage idx p l -> path l0 -> l !! n = Some q -> l0 !! n = Some q -> (i <= n)%nat -> l0 !! i = l !! i.
Proof.
  intros H [->|[t H0]] L L0 Hi; [done|].
  pose proof (lineage_functional _ _ _ _ (lineage_prefix idx _ _ _ _ H L) (lineage_prefix idx _ _ _ _ H0 L0)) as T.
  rewrite <- (lookup_take_lt l (S n)), <- (lookup_take_lt l0 (S n)) by lia. by rewrite T.
Qed.
(** The loop at height [n]: the slots above are the path's, the others those of an old chain. *)
Lemma set_tip_loop_exact p l l0 c n q fuel :
  lineage idx p l -> path l0 -> length c = length l -> l !! n = Some q -> (n < fuel)%nat ->
  (forall i, c !! i = if decide (i <= n)%nat then Some (l0 !! i) else Some <$> l !! i) ->
  set_tip_loop idx fuel (Some q) c = Some (Some <$> l).
Proof.
  intros H H0. revert c q fuel. induction n as [|n IH]; intros c q fuel Hc L F Hi; (destruct fuel as [|fuel]; [lia|]);
    cbn [set_tip_loop]; destruct (lineage_at idx Hidx _ _ _ _ H L) as (b & E & Hh & P); rewrite E; cbn [obind];
    rewrite Hh, Nat2Z.id, Hi, decide_True by lia; cbn [obind];
    case_bool_decide as D.
  1, 3: f_equal; apply list_eq; intros i; rewrite Hi, list_lookup_fmap; case_decide; [|done];
    rewrite (path_agree _ _ _ _ _ i H H0 L D) by lia;
    (destruct (lookup_lt_is_Some_2 l i) as [x ->]; [apply lookup_lt_Some in L; lia|done]).
  - rewrite P. destruct fuel; cbn; f_equal; apply list_eq; intros i; rewrite list_lookup_fmap;
      (destruct (decide (i = O)) as [->|]; [rewrite list_lookup_insert_eq, L by (rewrite Hc; by eapply lookup_lt_Some); done|]);
      rewrite list_lookup_insert_ne, Hi, decide_False by lia; done.
  - destruct P as [P [r Hr]]. rewrite P, Hr. apply IH; [by rewrite length_insert|done|lia|]. intros i.
    destruct (decide (i = S n)) as [->|].
    + rewrite list_lookup_insert_eq, decide_False, L by (lia || (rewrite Hc; by eapply lookup_lt_Some)). done.
    + rewrite list_lookup_insert_ne, Hi by done. do 2 case_decide; try lia; done.
Qed.
Lemma SetTip_path p l c : lineage idx p l -> chain_ok c -> SetTip idx (Some p) c = Some (Some <$> l).
Proof.
  intros H (l0 & H0 & ->). destruct (lineage_lookup _ _ _ H) as [b E].
  pose proof (lineage_length idx Hidx _ _ _ H E). destruct (lineage_height idx Hidx _ _ _ H E).
  unfold SetTip. rewrite E. cbn [obind]. apply (set_tip_loop_exact p l l0 _ (Z.to_nat (nHeight b))); try done.
  - unfold resize. rewrite length_app, length_take, length_replicate. lia.
  - rewrite <- (lineage_last _ _ _ H), last_lookup. f_equal. lia.
  - lia.
  - intros i. case_decide.
    + by rewrite lookup_resize, chain_at_nat by lia.
    + rewrite !lookup_ge_None_2; [done|lia|]. unfold resize. rewrite length_app, length_take, length_replicate. lia.
Qed.

Lemma find_fork_exact p l l0 n q fuel : lineage idx p l -> path l0 -> l !! n = Some q -> (n < fuel)%nat ->
  (forall x, l !! S n = Some x -> l0 !! S n = Some x -> False) ->
  find_fork_loop idx fuel (Some <$> l0) (Some q) = Some (fork_of l l0).
Proof.
  intros H H0. revert q fuel. induction n as [|n IH]; intros q fuel L F N; (destruct fuel as [|fuel]; [lia|]);
    cbn [find_fork_loop]; destruct (lineage_at idx Hidx _ _ _ _ H L) as (b & E & Hh & P); rewrite E; cbn [obind];
    rewrite Hh, chain_at_nat;
    case_bool_decide as D.
  1, 3: destruct H0 as [->|[t H0]]; [done|]; by rewrite (fork_at idx _ _ _ _ _ _ H H0 L D N).
  - rewrite P, fork_none by congruence. by destruct fuel.
  - destruct P as [P [r Hr]]. rewrite P, Hr. apply IH; [done|lia|]. congruence.
Qed.
Lemma FindFork_path p l l0 : lineage idx p l -> path l0 -> FindFork idx (Some <$> l0) (Some p) = Some (fork_of l l0).
Proof.
  intros H H0. destruct (lineage_lookup _ _ _ H) as [b E].
  pose proof (lineage_length idx Hidx _ _ _ H E). destruct (lineage_height idx Hidx _ _ _ H E).
  unfold FindFork, Height. rewrite E, length_fmap. cbn [obind].
  destruct (Z.gtb_spec (nHeight b) (Z.of_nat (length l0) - 1)) as [G|G].
  - rewrite (GetAncestor_lookup idx Hidx _ _ _ H). cbn [obind]. destruct (Z.ltb_spec (Z.of_nat (length l0) - 1) 0).
    + assert (l0 = []) as -> by (apply length_zero_iff_nil; lia). rewrite fork_none by done. done.
    + destruct (lookup_lt_is_Some_2 l (Z.to_nat (Z.of_nat (length l0) - 1))) as [q Hq]; [lia|]. rewrite Hq.
      eapply find_fork_exact; eauto; [lia|]. intros x _ X. apply lookup_lt_Some in X. lia.
  - cbn [obind]. apply (find_fork_exact p l l0 (Z.to_nat (nHeight b))); [done|done| |lia|].
    + rewrite <- (lineage_last _ _ _ H), last_lookup. f_equal. lia.
    + intros x X _. apply lookup_lt_Some in X. lia.
Qed.
End ActiveChain.

(** * Times *)

Section Times.
Context (idx : BlockMap) (Hidx : index_ok idx).

Definition time_of (p : hash) : Z := from_option ix_nTime 0 (idx !! p).

(** The running maximum is below [nTime] exactly when all the blocks so far are. *)
Lemma timeMax_spec p l n q b nTime : lineage idx p l -> l !! n = Some q -> idx !! q = Some b ->
  GetBlockTimeMax b < nTime <-> forall i r, (i <= n)%nat -> l !! i = Some r -> time_of r < nTime.
Proof.
  intros H. revert q b. unfold GetBlockTimeMax. induction n as [|n IH]; intros q b L E;
    destruct (lineage_at idx Hidx _ _ _ _ H L) as (b' & E' & _ & P); simplify_eq;
    pose proof (Hidx _ _ E) as K; unfold links_ok in K.
  - rewrite P in K. destruct K as (_ & _ & ->). split.
    + intros T i r Hi Lr. replace i with O in Lr by lia. simplify_eq. unfold time_of. by rewrite E.
    + intros T. specialize (T _ _ (le_n 0) L). unfold time_of in T. by rewrite E in T.
  - destruct P as [P [r Hr]]. rewrite P, Hr in K. destruct K as (br & l' & Er & _ & _ & _ & ->).
    rewrite Z.max_lub_lt_iff, (IH _ _ Hr Er). split.
    + intros [T1 T2] i x Hi Lx. destruct (decide (i = S n)) as [->|]; [|apply (T1 i x); [lia|done]].
      simplify_eq. unfold time_of. by rewrite E.
    + intros T. split; [intros i x Hi; apply T; lia|]. specialize (T _ _ (le_n (S n)) L). unfold time_of in T. by rewrite E in T.
Qed.
Lemma timeMax_first p l n q b nTime : lineage idx p l -> l !! n = Some q -> idx !! q = Some b ->
  (forall i r, (i < n)%nat -> l !! i = Some r -> time_of r < nTime) -> nTime <= GetBlockTimeMax b -> nTime <= time_of q.
Proof.
  intros H L E Lo M. destruct (Z.lt_ge_cases (time_of q) nTime) as [C|C]; [|done].
  assert (GetBlockTimeMax b < nTime); [|lia]. apply (timeMax_spec _ _ _ _ _ _ H L E). intros i r Hi Lr.
  destruct (decide (i = n)) as [->|]; [by simplify_eq|]. apply (Lo i r); [lia|done].
Qed.
Lemma lower_bound_exact p l nTime fuel first len : lineage idx p l -> (len <= fuel)%nat -> (first + len <= length l)%nat ->
  (forall i r, (i < first)%nat -> l !! i = Some r -> time_of r < nTime) ->
  (forall q b, l !! (first + len)%nat = Some q -> idx !! q = Some b -> nTime <= GetBlockTimeMax b) ->
  exists n, lower_bound_loop idx fuel (Some <$> l) nTime first len = Some n /\
    (forall i r, (i < n)%nat -> l !! i = Some r -> time_of r < nTime) /\
    (forall r, l !! n = Some r -> nTime <= time_of r).
Proof.
  intros H. revert first len. induction fuel as [|fuel IH]; intros first len F Hl Lo Up; (destruct len as [|len]; [|try lia]).
  1, 2: exists first; split; [done|]; split; [done|]; intros q Lq;
    destruct (lineage_at idx Hidx _ _ _ _ H Lq) as (b & E & _ & _); rewrite Nat.add_0_r in Up;
    by eapply timeMax_first; eauto.
  cbn [lower_bound_loop]. set (half := (S len / 2)%nat).
  assert (Hh : (half < S len)%nat) by (apply Nat.div_lt; lia).
  destruct (lookup_lt_is_Some_2 l (first + half)) as [q Lq]; [lia|].
  destruct (lineage_at idx Hidx _ _ _ _ H Lq) as (b & E & _ & _).
  rewrite list_lookup_fmap, Lq. cbn [fmap option_fmap option_map obind]. rewrite E. cbn [obind].
  pose proof (timeMax_spec _ _ _ _ _ nTime H Lq E) as T. destruct (Z.ltb_spec (GetBlockTimeMax b) nTime) as [C|C].
  - apply IH; [lia|lia|intros i r Hi; apply T; [done|lia]|].
    replace (first + half + 1 + (S len - half - 1))%nat with (first + S len)%nat by lia. done.
  - apply IH; [lia|lia|done|]. intros q' b' Lq' E'. by simplify_eq.
Qed.

(** The binary search is the linear search for the first block that is not older. *)
Lemma FindEarliestAtLeast_find p l nTime : lineage idx p l ->
  FindEarliestAtLeast idx (Some <$> l) nTime = Some (snd <$> list_find (fun q => nTime <= time_of q) l).
Proof.
  intros H. unfold FindEarliestAtLeast. rewrite length_fmap.
  destruct (lower_bound_exact p l nTime (length l) 0 (length l) H) as (n & -> & Lo & Up); [lia|lia|intros; lia| |].
  { intros q b L. apply lookup_lt_Some in L. lia. }
  cbn [obind]. f_equal. rewrite list_lookup_fmap. destruct (l !! n) as [r|] eqn:Lr; cbn.
  - rewrite (proj2 (list_find_Some (fun q => nTime <= time_of q) l n r)); [done|]. split; [done|]. split; [by apply Up|].
    intros j y Ly Hj Hn. specialize (Lo _ _ Hj Ly). lia.
  - rewrite (proj2 (list_find_None (fun q => nTime <= time_of q) l)); [done|]. apply Forall_lookup. intros i y Ly Hn.
    apply lookup_ge_None in Lr. assert (time_of y < nTime) by (apply (Lo i y); [apply lookup_lt_Some in Ly; lia|done]). lia.
Qed.

(** ** The median *)

Lemma past_times_total n p b : idx !! p = Some b -> exists ts, past_times idx (S n) (Some p) = Some (ix_nTime b :: ts).
Proof.
  revert p b. induction n as [|n IH]; intros p b E; cbn; rewrite E; cbn [obind].
  - eauto.
  - pose proof (Hidx _ _ E) as K. unfold links_ok in K. destruct (pprev b) as [q|]; [|eauto].
    destruct K as (bq & _ & Eq & _). destruct (IH _ _ Eq) as [ts Hts]. cbn in Hts. rewrite Hts. cbn [obind]. eauto.
Qed.
Lemma past_times_take n p ts : past_times idx (S n) p = Some ts -> past_times idx n p = Some (take n ts).
Proof.
  revert p ts. induction n as [|n IH]; intros p ts E.
  - by destruct p.
  - destruct p as [p|]; [|cbn in *; by simplify_eq]. cbn [past_times] in E.
    apply obind_Some in E as (b & Eb & E). apply obind_Some in E as (ts' & E' & E). simplify_eq.
    cbn [past_times]. rewrite Eb. cbn [obind]. rewrite (IH _ _ E'). done.
Qed.
End Times.

(** The elements of a list that are at least [m]. *)
Definition at_least (m : Z) (l : list Z) : nat := length (filter (fun x => m <= x) l).
Lemma at_least_cons m x l : at_least m (x :: l) = ((if decide (m <= x)%Z then 1 else 0) + at_least m l)%nat.
Proof. unfold at_least. rewrite filter_cons. by case_decide. Qed.
Lemma at_least_app m l1 l2 : at_least m (l1 ++ l2) = (at_least m l1 + at_least m l2)%nat.
Proof. unfold at_least. by rewrite filter_app, length_app. Qed.
Lemma at_least_le m l : (at_least m l <= length l)%nat.
Proof. apply length_filter. Qed.
Lemma at_least_perm m l1 l2 : l1 ≡ₚ l2 -> at_least m l1 = at_least m l2.
Proof. intros P. unfold at_least. by rewrite P. Qed.
Lemma at_least_all m l : Forall (Z.le m) l -> at_least m l = length l.
Proof. induction 1 as [|x l Hx _ IH]; [done|]. rewrite at_least_cons, decide_True by done. cbn. lia. Qed.
Lemma at_least_none m l : Forall (fun x => x < m) l -> at_least m l = O.
Proof. induction 1 as [|x l Hx _ IH]; [done|]. rewrite at_least_cons, decide_False by lia. done. Qed.

(** In a sorted list the element at [k] is at least [m] exactly when that many elements are. *)
Lemma sorted_at_least s k x m : StronglySorted Z.le s -> s !! k = Some x -> m <= x <-> (length s - k <= at_least m s)%nat.
Proof.
  intros S L. pose proof (take_drop_middle _ _ _ L) as D. pose proof (lookup_lt_Some _ _ _ L) as Hk.
  rewrite <- D in S. apply StronglySorted_app in S as (C & _ & S2).
  apply StronglySorted_inv in S2 as [_ S2].
  rewrite <- D at 2. rewrite at_least_app, at_least_cons. split.
  - intros Hm. rewrite decide_True by done. rewrite (at_least_all m (drop (S k) s)).
    + rewrite length_drop. lia.
    + eapply Forall_impl; [exact S2|]. cbn. lia.
  - intros Hc. destruct (Z.lt_ge_cases x m) as [N|]; [|done]. rewrite decide_False in Hc by lia.
    rewrite (at_least_none m (take k s)) in Hc.
    + pose proof (at_least_le m (drop (S k) s)). rewrite length_drop in *. lia.
    + apply Forall_forall. intros y Hy. assert (y <= x); [|lia]. apply C; [done|left].
Qed.

Definition median (ts : list Z) : option Z := merge_sort Z.le ts !! (length (merge_sort Z.le ts) / 2)%nat.
Lemma median_total t ts : is_Some (median (t :: ts)).
Proof. apply lookup_lt_is_Some_2. rewrite merge_sort_Permutation. apply Nat.div_lt; cbn; lia. Qed.
Lemma median_at_least ts x m : median ts = Some x -> m <= x <-> (length ts - length ts / 2 <= at_least m ts)%nat.
Proof.
  unfold median. intros L. rewrite (sorted_at_least _ _ _ m (StronglySorted_merge_sort Z.le ts) L).
  by rewrite (at_least_perm m _ _ (merge_sort_Permutation Z.le ts)), (Permutation_length (merge_sort_Permutation Z.le ts)).
Qed.
(** A window that moves one step, to a time after its median. *)
Lemma median_mono ts t m : (length ts <= 11)%nat -> median ts = Some m -> m < t ->
  exists m', median (t :: take 10 ts) = Some m' /\ m <= m'.
Proof.
  intros Hl Hm Ht. destruct (median_total t (take 10 ts)) as [m' Hm']. exists m'. split; [done|].
  apply (median_at_least _ _ _ Hm'). pose proof (proj1 (median_at_least _ _ m Hm) (Z.le_refl m)) as C.
  rewrite at_least_cons, decide_True by lia. cbn [length]. rewrite length_take.
  pose proof (Nat.div_mod_eq (length ts) 2). pose proof (Nat.div_mod_eq (S (10 `min` length ts)) 2).
  pose proof (Nat.mod_upper_bound (length ts) 2). pose proof (Nat.mod_upper_bound (S (10 `min` length ts)) 2).
  rewrite <- (take_drop 10 ts) in C at 3. rewrite at_least_app in C.
  pose proof (at_least_le m (drop 10 ts)) as D. rewrite length_drop in D. lia.
Qed.

Section Window.
Context (idx : BlockMap) (Hidx : index_ok idx).

Lemma GetMedianTimePast_median p : GetMedianTimePast idx p = (ts <- past_times idx nMedianTimeSpan (Some p);; median ts).
Proof. done. Qed.
Lemma past_times_S n p : past_times idx (S n) (Some p) = (b <- idx !! p;; r <- past_times idx n (pprev b);; Some (ix_GetBlockTime b :: r)).
Proof. done. Qed.
Lemma past_times_length n p ts : past_times idx n p = Some ts -> (length ts <= n)%nat.
Proof.
  revert p ts. induction n as [|n IH]; intros p ts E; [destruct p; cbn in E; simplify_eq; cbn; lia|].
  destruct p as [p|]; cbn in E; [|simplify_eq; cbn; lia].
  apply obind_Some in E as (b & _ & E). apply obind_Some in E as (ts' & E' & E). simplify_eq. cbn. specialize (IH _ _ E'). lia.
Qed.
Lemma median_step p b q m : idx !! p = Some b -> pprev b = Some q -> GetMedianTimePast idx q = Some m -> m < ix_nTime b ->
  exists m', GetMedianTimePast idx p = Some m' /\ m <= m'.
Proof.
  intros E P M T. rewrite GetMedianTimePast_median in M |- *. apply obind_Some in M as (ts & Hts & M).
  pose proof (past_times_length _ _ _ Hts) as Hl. unfold nMedianTimeSpan in *. rewrite (past_times_S 10), E. cbn [obind].
  rewrite P, (past_times_take idx 10 (Some q) ts Hts). cbn [obind]. by apply median_mono.
Qed.
End Window.

(** * Locators *)

Section Locator.
Context (idx : BlockMap) (Hidx : index_ok idx).

(** The loop with [m] hashes sent, at height [r]: the next step is [2 ^ (m - 10)]. *)
Lemma locator_loop_exact p l l0 K r q v fuel : lineage idx p l -> path idx l0 -> (K <= 30)%nat ->
  l !! r = Some q -> (r < fuel)%nat -> Z.of_nat r + 2 ^ Z.of_nat (length v - 10) <= 2 ^ Z.of_nat K ->
  exists hs loc, locator_loop idx fuel (Some <$> l0) (Some q) (2 ^ Z.of_nat (length v - 10)) v = Some (v ++ loc) /\
    Forall2 (fun h x => l !! h = Some x) (r :: hs) loc /\ StronglySorted gt (r :: hs) /\ last (r :: hs) = Some O /\
    (length (v ++ loc) <= 11 + K)%nat.
Proof.
  intros H H0 HK. revert r q v. induction fuel as [|fuel IH]; intros r q v L F B; [lia|].
  cbn [locator_loop]. destruct (lineage_at idx Hidx _ _ _ _ H L) as (b & E & Hh & _). rewrite E. cbn [obind]. rewrite Hh.
  destruct (Z.eqb_spec (Z.of_nat r) 0) as [Z|Z].
  - assert (r = O) as -> by lia. exists [], [q]. split; [done|]. split; [by repeat constructor|]. split; [by repeat constructor|].
    split; [done|]. rewrite length_app. cbn. assert (Z.of_nat (length v - 10) <= Z.of_nat K); [|lia].
    apply (Z.pow_le_mono_r_iff 2); lia.
  - set (s := Z.of_nat (length v - 10)) in *. assert (Hs : s < Z.of_nat K) by (apply (Z.pow_lt_mono_r_iff 2); lia).
    pose proof (Z.pow_pos_nonneg 2 s ltac:(lia) ltac:(lia)) as Ps.
    set (r' := Z.to_nat (Z.max (Z.of_nat r - 2 ^ s) 0)). pose proof (lookup_lt_Some _ _ _ L) as Hlt.
    destruct (lookup_lt_is_Some_2 l r') as [q' L']; [lia|].
    assert (Nx : (if bool_decide (chain_at (Some <$> l0) (Z.of_nat r) = Some q) then Some (chain_at (Some <$> l0) (Z.max (Z.of_nat r - 2 ^ s) 0))
                  else GetAncestor idx q (Z.max (Z.of_nat r - 2 ^ s) 0)) = Some (Some q')).
    { rewrite chain_at_nat. case_bool_decide as C.
      - rewrite chain_at_path. destruct (Z.ltb_spec (Z.max (Z.of_nat r - 2 ^ s) 0) 0); [lia|].
        fold r'. rewrite (path_agree idx _ _ _ _ _ r' H H0 L C) by lia. by rewrite L'.
      - rewrite (GetAncestor_lookup idx Hidx q (take (S r) l)) by (eapply lineage_prefix; eauto).
        destruct (Z.ltb_spec (Z.max (Z.of_nat r - 2 ^ s) 0) 0); [lia|].
        fold r'. rewrite lookup_take_lt by lia. by rewrite L'. }
    rewrite Nx. cbn [obind].
    assert (Sx : (if (10 <? length (v ++ [q]))%nat then i32 (2 ^ s * 2) else 2 ^ s) = 2 ^ Z.of_nat (length (v ++ [q]) - 10)).
    { rewrite length_app. cbn [length]. destruct (Nat.ltb_spec 10 (length v + 1)).
      - replace (Z.of_nat (length v + 1 - 10)) with (s + 1) by lia. rewrite Z.pow_add_r by lia. change (2 ^ 1) with 2.
        apply i32_small. assert (2 ^ s <= 2 ^ 29) by (apply Z.pow_le_mono_r; lia). lia.
      - f_equal. lia. }
    rewrite Sx. destruct (IH r' q' (v ++ [q])) as (hs & loc & R & Fa & So & La & Le); [done|lia| |].
    { assert (2 ^ (s + 1) <= 2 ^ Z.of_nat K) by (apply Z.pow_le_mono_r; lia). rewrite Z.pow_add_r in * by lia.
      rewrite <- Sx. rewrite length_app. cbn [length]. destruct (Nat.ltb_spec 10 (length v + 1)).
      - rewrite i32_small by (assert (2 ^ s <= 2 ^ 29) by (apply Z.pow_le_mono_r; lia); lia). lia.
      - lia. }
    exists (r' :: hs), (q :: loc). rewrite <- app_assoc in R, Le. split; [done|]. split; [by constructor|]. split; [|done].
    constructor; [done|]. apply StronglySorted_inv in So as So'. destruct So' as [_ So'].
    constructor; [lia|]. eapply Forall_impl; [exact So'|]. cbn. lia.
Qed.
End Locator.

(** * Example: two branches of height two *)

Definition ex_entry (prev skip : option hash) (h t tmax : Z) : CBlockIndex :=
  with_work (with_links (CBlockIndex_of (CBlock_of_header (mkHeader 8 (repeat 0 32) (repeat 2 32) t 0x1e0ffff0 7 (repeat 0 32) (repeat 3 32)))) prev skip h)
    zero_work tmax.
Definition ex_idx : BlockMap :=
  <[[0] := ex_entry None None 0 100 100]> (<[[1] := ex_entry (Some [0]) (Some [0]) 1 105 105]>
  (<[[2] := ex_entry (Some [1]) (Some [0]) 2 103 105]> (<[[3] := ex_entry (Some [1]) (Some [0]) 2 110 110]> ∅))).
Definition ex_tip_path : list hash := [[0]; [1]; [2]].

Lemma ex_lineages : lineage ex_idx [0] [[0]] /\ lineage ex_idx [1] [[0]; [1]] /\ lineage ex_idx [2] ex_tip_path /\ lineage ex_idx [3] [[0]; [1]; [3]].
Proof.
  assert (L0 : lineage ex_idx [0] [[0]]) by (eapply lineage_root; reflexivity).
  assert (L1 : lineage ex_idx [1] ([[0]] ++ [[1]])) by (eapply lineage_step; [reflexivity..|exact L0]).
  repeat split; [exact L0|exact L1|..]; (eapply (lineage_step _ _ _ _ [[0]; [1]]); [reflexivity..|exact L1]).
Qed.
Lemma ex_index_ok : index_ok ex_idx.
Proof.
  destruct ex_lineages as (L0 & L1 & _). intros p b E. unfold ex_idx in E.
  repeat (apply lookup_insert_Some in E as [[<- <-]|[_ E]]); [..|by rewrite lookup_empty in E]; unfold links_ok; cbn [pprev ex_entry with_work with_links].
  - done.
  - eexists _, _. split; [reflexivity|]. split; [reflexivity|]. split; [exact L0|]. by split.
  - eexists _, _. split; [reflexivity|]. split; [reflexivity|]. split; [exact L1|]. by split.
  - eexists _, _. split; [reflexivity|]. split; [reflexivity|]. split; [exact L1|]. by split.
Qed.
Lemma ex_path : path ex_idx ex_tip_path.
Proof. right. exists [2]. apply ex_lineages. Qed.

(** * The properties *)

(** C21: [GetAncestor] ends and returns the block at the given height on the path from the
    root of the tree to the block, for every height, in at most as many steps as the height of
    the block: the skip pointers change how it gets there and nothing else. *)
Theorem GetAncestor_exact (idx : BlockMap) (p : hash) (l : list hash) (height : Z) :
  index_ok idx -> lineage idx p l -> GetAncestor idx p height = Some (if height <? 0 then None else l !! Z.to_nat height).
Proof. intros Hidx H. by apply GetAncestor_lookup. Qed.
Lemma GetAncestor_exact_witness : index_ok ex_idx /\ GetAncestor ex_idx [3] 1 = Some (Some [1]).
Proof. split; [exact ex_index_ok|]. exact (GetAncestor_exact ex_idx [3] _ 1 ex_index_ok (proj2 (proj2 (proj2 ex_lineages)))). Defined.

(** [SetTip] makes the chain the path to the new tip from whatever chain it was,
    across any reorganization, so that it is a chain again, contains exactly the
    ancestors of the tip at their heights, and its null tip empties it. *)
Theorem SetTip_exact (idx : BlockMap) (c : CChain) (p : hash) (b : CBlockIndex) :
  index_ok idx -> chain_ok idx c -> idx !! p = Some b ->
  exists c', SetTip idx (Some p) c = Some c' /\ chain_ok idx c' /\ Tip c' = Some p /\ Height c' = nHeight b /\
             SetTip idx None c = Some [] /\
             (forall q, Contains idx c' q = Some true <-> exists l i, lineage idx p l /\ l !! i = Some q).
Proof.
  intros Hidx Hc E. destruct (index_lineage idx Hidx p b E) as [l H]. exists (Some <$> l).
  pose proof (lineage_length idx Hidx _ _ _ H E) as Hl. destruct (lineage_height idx Hidx _ _ _ H E).
  split; [by apply SetTip_path|]. split; [exists l; split; [right; eauto|done]|].
  assert (Hh : Height (Some <$> l) = nHeight b) by (unfold Height; rewrite length_fmap; lia).
  split; [|split; [done|split; [done|]]].
  { unfold Tip. rewrite Hh, chain_at_path. destruct (Z.ltb_spec (nHeight b) 0); [lia|].
    rewrite <- (lineage_last _ _ _ H), last_lookup. f_equal. lia. }
  intros q. unfold Contains. rewrite obind_Some. split.
  - intros (bq & Eq & C). injection C as C. apply bool_decide_eq_true in C. rewrite chain_at_path in C.
    destruct (nHeight bq <? 0); [done|]. eauto.
  - intros (l' & i & H' & L). rewrite (lineage_functional _ _ _ _ H' H) in L.
    destruct (lineage_at idx Hidx _ _ _ _ H L) as (bq & Eq & Hq & _). exists bq. split; [done|].
    rewrite Hq, chain_at_nat, L, bool_decide_eq_true_2 by done. done.
Qed.
Lemma ex_chain_ok : chain_ok ex_idx (Some <$> ex_tip_path).
Proof. exists ex_tip_path. split; [exact ex_path|done]. Qed.
Lemma SetTip_exact_witness :
  SetTip ex_idx (Some [3]) (Some <$> ex_tip_path) = Some (Some <$> [[0]; [1]; [3]]) /\
  exists c', SetTip ex_idx (Some [3]) (Some <$> ex_tip_path) = Some c' /\ Tip c' = Some [3].
Proof.
  split; [reflexivity|].
  destruct (SetTip_exact ex_idx (Some <$> ex_tip_path) [3] _ ex_index_ok ex_chain_ok eq_refl) as (c' & H1 & _ & H2 & _). eauto.
Defined.

(** [LastCommonAncestor] never fails its assertion and returns the last block the
    paths to the two blocks share, and [FindFork] returns the last block the path to a
    block shares with the active chain. *)
Theorem forks_exact (idx : BlockMap) (pa pb : hash) (la lb l0 : list hash) :
  index_ok idx -> lineage idx pa la -> lineage idx pb lb -> path idx l0 ->
  LastCommonAncestor idx pa pb = Some (last (max_prefix la lb).2) /\
  FindFork idx (Some <$> l0) (Some pa) = Some (last (max_prefix la l0).2).
Proof. intros Hidx Ha Hb H0. split; [by apply LastCommonAncestor_fork|by apply FindFork_path]. Qed.
Lemma forks_exact_witness :
  LastCommonAncestor ex_idx [2] [3] = Some (Some [1]) /\ FindFork ex_idx (Some <$> ex_tip_path) (Some [2]) = Some (Some [2]).
Proof.
  exact (forks_exact ex_idx [2] [3] _ _ _ ex_index_ok (proj1 (proj2 (proj2 ex_lineages))) (proj2 (proj2 (proj2 ex_lineages))) ex_path).
Defined.

(** The locator of a block below height 2^K, K at most 30, lists ancestors of the
    block at strictly decreasing heights, from the block itself to the root, and no
    more than 11 + K of them; the doubled step does not overflow. *)
Theorem GetLocator_exact (idx : BlockMap) (p : hash) (b : CBlockIndex) (l l0 : list hash) (K : nat) :
  index_ok idx -> idx !! p = Some b -> lineage idx p l -> path idx l0 -> (K <= 30)%nat -> nHeight b < 2 ^ Z.of_nat K ->
  exists hs loc, GetLocator idx (Some <$> l0) (Some p) = Some loc /\
    Forall2 (fun h x => l !! h = Some x) (Z.to_nat (nHeight b) :: hs) loc /\
    StronglySorted gt (Z.to_nat (nHeight b) :: hs) /\ last (Z.to_nat (nHeight b) :: hs) = Some O /\ (length loc <= 11 + K)%nat.
Proof.
  intros Hidx E H H0 HK Hh. destruct (lineage_height idx Hidx _ _ _ H E) as [Hn Hp].
  destruct (locator_loop_exact idx Hidx p l l0 K (Z.to_nat (nHeight b)) p [] (S (Z.to_nat (nHeight b))) H H0 HK)
    as (hs & loc & R & P); [| |cbn; lia|].
  - rewrite <- (lineage_last _ _ _ H), last_lookup. f_equal. lia.
  - lia.
  - exists hs, loc. unfold GetLocator. rewrite E. cbn [obind]. exact (conj R P).
Qed.
Lemma GetLocator_exact_witness :
  GetLocator ex_idx (Some <$> ex_tip_path) (Some [3]) = Some [[3]; [1]; [0]] /\
  exists hs loc, GetLocator ex_idx (Some <$> ex_tip_path) (Some [3]) = Some loc /\ last (2%nat :: hs) = Some O.
Proof.
  split; [reflexivity|].
  destruct (GetLocator_exact ex_idx [3] _ _ _ 2 ex_index_ok eq_refl (proj2 (proj2 (proj2 ex_lineages))) ex_path ltac:(lia) ltac:(cbn; lia))
    as (hs & loc & H1 & _ & _ & H2 & _). exists hs, loc. exact (conj H1 H2).
Defined.

(** The median time past is defined for every block, and when the time of a block
    is after the median time past of its parent its own is not before it: the lower
    bound on block times never decreases along a branch. *)
Theorem GetMedianTimePast_monotone (idx : BlockMap) (p q : hash) (b : CBlockIndex) :
  index_ok idx -> idx !! p = Some b -> pprev b = Some q ->
  exists m m', GetMedianTimePast idx q = Some m /\ GetMedianTimePast idx p = Some m' /\ (m < ix_GetBlockTime b -> m <= m').
Proof.
  intros Hidx E P. pose proof (Hidx _ _ E) as K. unfold links_ok in K. rewrite P in K. destruct K as (bq & _ & Eq & _).
  assert (D : forall x bx, idx !! x = Some bx -> exists m, GetMedianTimePast idx x = Some m).
  { intros x bx Ex. destruct (past_times_total idx Hidx 10 x bx Ex) as [ts Hts].
    rewrite GetMedianTimePast_median. unfold nMedianTimeSpan. rewrite Hts. apply median_total. }
  destruct (D _ _ Eq) as [m Hm], (D _ _ E) as [m' Hm']. exists m, m'. split; [done|]. split; [done|]. intros T.
  destruct (median_step idx p b q m E P Hm T) as (m2 & H2 & H3). congruence.
Qed.
Lemma GetMedianTimePast_monotone_witness :
  exists m m', GetMedianTimePast ex_idx [1] = Some m /\ GetMedianTimePast ex_idx [3] = Some m' /\ m <= m'.
Proof.
  destruct (GetMedianTimePast_monotone ex_idx [3] [1] _ ex_index_ok eq_refl eq_refl) as (m & m' & H1 & H2 & H3).
  exists m, m'. split; [exact H1|]. split; [exact H2|]. apply H3. injection H1 as <-. reflexivity.
Defined.
