(* ===== verification/StakeModifier.v ===== *)
(** Stake modifiers and the growth of the block index (src/chain.cpp,
    src/legacy/stakemodifier.cpp, [AddToBlockIndex] of src/validation.cpp). *)
From Stdlib Require Import ZArith Lia List Bool.
From stdpp Require Import base gmap list sorting.
From S2P Require Import Prelude Uint256 Consensus Pow Serialize Script Interpreter Codecs Transaction TxVerify Block BlockCheck Chain.
Import ListNotations.
Local Open Scope Z_scope.
Local Open Scope passion_scope.

(** * Modifier fields of an entry *)

Definition GeneratedStakeModifier (b : CBlockIndex) : bool := negb (Z.land (nFlags b) BLOCK_STAKE_MODIFIER =? 0).
(** [p] is the entry of hash [p]. *)
Definition GetCheapHash (h : hash) : Z := GetLow64 (hash_words h).
Definition GetStakeEntropyBit (p : hash) : Z := Z.land (GetCheapHash p) 1.
Definition SetStakeEntropyBit (b : CBlockIndex) (nEntropyBit : Z) : bool * CBlockIndex :=
  if nEntropyBit >? 1 then (false, b)
  else (true, with_modifier b (vStakeModifier b) (Z.lor (nFlags b) (if negb (nEntropyBit =? 0) then BLOCK_STAKE_ENTROPY else 0))).
Definition SetStakeModifier_u64 (b : CBlockIndex) (nStakeModifier : Z) (fGenerated : bool) : CBlockIndex :=
  with_modifier b (WriteLE64 nStakeModifier) (if fGenerated then Z.lor (nFlags b) BLOCK_STAKE_MODIFIER else nFlags b).
Definition SetStakeModifier_u256 (b : CBlockIndex) (nStakeModifier : hash) : CBlockIndex := with_modifier b nStakeModifier (nFlags b).

Section Modifier.
Context {crypto : ScriptCrypto}.
Variable consensus : Params.

(** The bytes are copied into an uninitialized word. [None]: fewer than eight of
    them leave it undefined, more are written behind it. *)
Definition GetStakeModifierV1 (b : CBlockIndex) : option Z :=
  if (length (vStakeModifier b) =? 0)%nat || NetworkUpgradeActive consensus (nHeight b) UPGRADE_V3_4 then Some 0
  else if (length (vStakeModifier b) =? 8)%nat then Some (ReadLE64 (vStakeModifier b)) else None.
(** Copied over zeros. *)
Definition GetStakeModifierV2 (b : CBlockIndex) : option hash :=
  if (length (vStakeModifier b) =? 0)%nat || negb (NetworkUpgradeActive consensus (nHeight b) UPGRADE_V3_4) then Some (repeat 0 32)
  else if (32 <? length (vStakeModifier b))%nat then None
  else Some (vStakeModifier b ++ repeat 0 (32 - length (vStakeModifier b))).

(** * The old modifier *)

Definition MODIFIER_INTERVAL : Z := 60.
Definition MODIFIER_INTERVAL_RATIO : Z := 3.
Definition OLD_MODIFIER_INTERVAL : Z := 2087.
Definition GetStakeModifierSelectionIntervalSection (nSection : Z) : option Z :=
  if negb ((nSection >=? 0) && (nSection <? 64)) then None
  else Some (MODIFIER_INTERVAL * 63 / (63 + (63 - nSection) * (MODIFIER_INTERVAL_RATIO - 1))).

Variable idx : BlockMap.

(** What a candidate hashes to. *)
Definition hash_selection (fModifierV2 : bool) (p : hash) (pindex : CBlockIndex) (nStakeModifierPrev : Z) : list Z :=
  let hashProof := if fModifierV2 then p else if ix_IsProofOfStake pindex then repeat 0 32 else p in
  let h := hash_words (Hash256 (hashProof ++ ser_writedata64 nStakeModifierPrev)) in
  if ix_IsProofOfStake pindex then shr_assign WIDTH256 h 32 else h.
(** The loop: [v2] is set by the first candidate, [best] is the selection so far.
    The result is the selected block, [None] when the function returns false. *)
Fixpoint select_loop (items : list (Z * hash)) (mapSelectedBlocks : list hash) (stop prev : Z) (v2 : option bool)
    (best : option (list Z * hash)) : option hash :=
  match items with
  | [] => option_map snd best
  | item :: items =>
      let p := snd item in
      match idx !! p with
      | None => None
      | Some pindex =>
          if (match best with Some _ => true | None => false end) && (ix_GetBlockTime pindex >? stop) then option_map snd best
          else
            let fModifierV2 := match v2 with Some v => v | None => NetworkUpgradeActive consensus (nHeight pindex) UPGRADE_POS_V2 end in
            if bool_decide (p ∈ mapSelectedBlocks) then select_loop items mapSelectedBlocks stop prev (Some fModifierV2) best
            else
              let hashSelection := hash_selection fModifierV2 p pindex prev in
              let best :=
                match best with
                | Some (hashBest, q) => if base_uint_lt WIDTH256 hashSelection hashBest then Some (hashSelection, p) else best
                | None => Some (hashSelection, p)
                end in
              select_loop items mapSelectedBlocks stop prev (Some fModifierV2) best
      end
  end.
Definition SelectBlockFromCandidates (items : list (Z * hash)) (mapSelectedBlocks : list hash) (stop prev : Z) : option hash :=
  select_loop items mapSelectedBlocks stop prev None None.

(** Back to the last block that generated a modifier. *)
Fixpoint last_generated (fuel : nat) (p : hash) : option hash :=
  b <- idx !! p;;
  match pprev b with
  | Some q => if GeneratedStakeModifier b then Some p else match fuel with O => None | S fuel => last_generated fuel q end
  | None => Some p
  end.
(** The candidates, newest first. *)
Fixpoint candidates (fuel : nat) (start : Z) (p : option hash) : option (list (Z * hash)) :=
  match p with
  | None => Some []
  | Some q =>
      b <- idx !! q;;
      if ix_GetBlockTime b >=? start then
        match fuel with O => None | S fuel => r <- candidates fuel start (pprev b);; Some ((ix_GetBlockTime b, q) :: r) end
      else Some []
  end.
(** [operator<] of the pairs, negated with the sides swapped. *)
Definition pair_le (a b : Z * hash) : bool :=
  (fst a <? fst b) || ((fst a =? fst b) && base_uint_le WIDTH256 (hash_words (snd a)) (hash_words (snd b))).
Definition pair_rel (a b : Z * hash) : Prop := pair_le a b = true.
#[local] Instance pair_rel_dec : RelDecision pair_rel.
Proof. intros a b. unfold pair_rel. apply _. Defined.
(** The rounds from [nRound]: inner [None] when a round selects no block. *)
Fixpoint rounds (n : nat) (nRound : Z) (items : list (Z * hash)) (prev stop new : Z) (mapSelectedBlocks : list hash) : option (option Z) :=
  match n with
  | O => Some (Some new)
  | S n =>
      section <- GetStakeModifierSelectionIntervalSection nRound;;
      let stop := i64 (stop + section) in
      match SelectBlockFromCandidates items mapSelectedBlocks stop prev with
      | None => Some None
      | Some p => rounds n (nRound + 1) items prev stop (Z.lor new (u64 (Z.shiftl (GetStakeEntropyBit p) nRound))) (mapSelectedBlocks ++ [p])
      end
  end.

(** The address of the literal "stakemodifier". *)
Variable stakemodifier_literal : Z.

(** The value returned and the two out-parameters. *)
Definition ComputeNextStakeModifier (pindexPrev : option hash) : option (bool * Z * bool) :=
  match pindexPrev with
  | None => Some (true, 0, true)
  | Some prev =>
      bprev <- idx !! prev;;
      if nHeight bprev =? 0 then Some (true, u64 stakemodifier_literal, true)
      else
        p <- last_generated (Z.to_nat (nHeight bprev)) prev;;
        b <- idx !! p;;
        if negb (GeneratedStakeModifier b) then Some (false, 0, false)
        else
          nStakeModifier <- GetStakeModifierV1 b;;
          let nModifierTime := ix_GetBlockTime b in
          if Z.quot nModifierTime MODIFIER_INTERVAL >=? Z.quot (ix_GetBlockTime bprev) MODIFIER_INTERVAL then Some (true, nStakeModifier, false)
          else
            let nSelectionIntervalStart := Z.quot (ix_GetBlockTime bprev) MODIFIER_INTERVAL * MODIFIER_INTERVAL - OLD_MODIFIER_INTERVAL in
            cs <- candidates (S (Z.to_nat (nHeight bprev))) nSelectionIntervalStart (Some prev);;
            let vSortedByTimestamp := merge_sort pair_rel (rev cs) in
            r <- rounds (Nat.min 64 (length vSortedByTimestamp)) 0 vSortedByTimestamp nStakeModifier nSelectionIntervalStart 0 [];;
            match r with
            | None => Some (false, nStakeModifier, false)
            | Some nStakeModifierNew => Some (true, nStakeModifierNew, true)
            end
  end.

(** [SetNewStakeModifier()]: a failure is logged only. [p] is the hash of the entry. *)
Definition SetNewStakeModifier_V1 (p : hash) (b : CBlockIndex) : option CBlockIndex :=
  let b := snd (SetStakeEntropyBit b (GetStakeEntropyBit p)) in
  r <- ComputeNextStakeModifier (pprev b);;
  let '(_, nStakeModifier, fGenerated) := r in
  Some (SetStakeModifier_u64 b nStakeModifier fGenerated).
(** [None]: the exception for a null parent. *)
Definition SetNewStakeModifier_V2 (b : CBlockIndex) (prevoutId : hash) : option CBlockIndex :=
  if negb (NetworkUpgradeActive consensus (nHeight b) UPGRADE_V3_4) then Some b
  else
    q <- pprev b;; bq <- idx !! q;; m <- GetStakeModifierV2 bq;;
    Some (SetStakeModifier_u256 b (Hash256 (prevoutId ++ m))).
End Modifier.

(** * Adding a block *)

Record IndexState := mkIndexState {
  mapBlockIndex : BlockMap;
  pindexBestHeader : option hash;
  setDirtyBlockIndex : list hash
}.

Section AddToBlockIndex.
Context `{SphLib} {crypto : ScriptCrypto}.
Variables (consensus : Params) (stakemodifier_literal : Z).

(** [None] beside a failing callee: [block.vtx[1]->vin[0]] does not exist. *)
Definition set_modifier (idx : BlockMap) (block : CBlock) (h : hash) (b : CBlockIndex) : option CBlockIndex :=
  if negb (NetworkUpgradeActive consensus (nHeight b) UPGRADE_V3_4)
  then SetNewStakeModifier_V1 consensus idx stakemodifier_literal h b
  else
    tx <- vtx block !! 1%nat;; txin <- vin tx !! 0%nat;;
    SetNewStakeModifier_V2 consensus idx b (out_hash (prevout txin)).
Definition AddToBlockIndex (block : CBlock) (st : IndexState) : option (hash * IndexState) :=
  let h := CBlockHeader_GetHash (header block) in
  match mapBlockIndex st !! h with
  | Some _ => Some (h, st)
  | None =>
      let pindexNew := CBlockIndex_of block in
      let idx := <[h := pindexNew]> (mapBlockIndex st) in
      let hprev := hashPrevBlock (header block) in
      b <- (match idx !! hprev with
            | Some bprev => b <- BuildSkip idx (with_links pindexNew (Some hprev) None (i32 (nHeight bprev + 1)));; set_modifier idx block h b
            | None => Some pindexNew
            end);;
      proof <- GetBlockProof (nBits (ix_header b));;
      let parent := match pprev b with Some q => idx !! q | None => None end in
      let timeMax := match parent with Some bp => Z.max (nTimeMax bp) (ix_nTime b) | None => ix_nTime b end in
      let work := add_256 (match parent with Some bp => nChainWork bp | None => zero_work end) proof in
      r <- RaiseValidity (with_work b work timeMax) BLOCK_VALID_TREE;;
      let idx := <[h := snd r]> idx in
      best <- (match pindexBestHeader st with
               | None => Some (Some h)
               | Some q => bq <- idx !! q;; Some (if base_uint_lt WIDTH256 (nChainWork bq) work then Some h else Some q)
               end);;
      Some (h, mkIndexState idx best (h :: setDirtyBlockIndex st))
  end.
End AddToBlockIndex.

(** * The modifier is always computed *)

Lemma lor_lt_pow2 a b n : 0 <= n -> 0 <= a < 2 ^ n -> 0 <= b < 2 ^ n -> Z.lor a b < 2 ^ n.
Proof.
  intros Hn Ha Hb. rewrite <- (Z.mod_small a (2 ^ n)), <- (Z.mod_small b (2 ^ n)) by lia.
  rewrite <- !Z.land_ones, <- Z.land_lor_distr_l, Z.land_ones by lia. apply Z.mod_pos_bound. lia.
Qed.

Section Total.
Context {crypto : ScriptCrypto} (consensus : Params) (idx : BlockMap).

(** The walk stops at a block with a modifier, or at the root. *)
Lemma last_generated_total p l fuel : lineage idx p l -> (length l <= S fuel)%nat ->
  exists i q b, last_generated idx fuel p = Some q /\ l !! i = Some q /\ idx !! q = Some b /\ (GeneratedStakeModifier b = true \/ i = O) /\
    (forall j r br, (i < j)%nat -> l !! j = Some r -> idx !! r = Some br -> GeneratedStakeModifier br = false).
Proof.
  intros H. revert fuel. induction H as [p b E P|p b q l E P H IH]; intros fuel F.
  - exists O, p, b. split; [destruct fuel; cbn; rewrite E; cbn [obind]; by rewrite P|]. repeat split; auto.
    intros j r br Hj Lj. apply list_lookup_singleton_Some in Lj. lia.
  - rewrite length_app in F. cbn in F.
    assert (Hl : length l <> O) by (inversion H; rewrite ?length_app; cbn; lia).
    destruct (GeneratedStakeModifier b) eqn:G.
    + exists (length l), p, b. split; [destruct fuel; cbn; rewrite E; cbn [obind]; by rewrite P, G|].
      rewrite lookup_app_r, Nat.sub_diag by lia. repeat split; auto.
      intros j r br Hj Lj. apply lookup_lt_Some in Lj. rewrite length_app in Lj. cbn in Lj. lia.
    + destruct fuel as [|fuel]; [lia|]. destruct (IH fuel ltac:(lia)) as (i & r & br & R & L & Er & Hi & Ho).
      exists i, r, br. split; [cbn; rewrite E; cbn [obind]; by rewrite P, G|].
      split; [by apply lookup_app_l_Some|]. split; [done|]. split; [done|].
      intros j s bs Hj Lj Es. apply lookup_app_Some in Lj as [Lj|[_ Lj]]; [by eapply Ho|].
      apply list_lookup_singleton_Some in Lj as [_ ->]. by simplify_eq.
Qed.
(** The candidates are blocks of the path, each once. *)
Lemma candidates_total p l fuel start : lineage idx p l -> (length l <= fuel)%nat ->
  exists cs, candidates idx fuel start (Some p) = Some cs /\ NoDup (snd <$> cs) /\ forall q, q ∈ snd <$> cs -> q ∈ l.
Proof.
  intros H. revert fuel. induction H as [p b E P|p b q l E P H IH]; intros fuel F.
  - destruct fuel as [|fuel]; [cbn in F; lia|]. cbn. rewrite E. cbn [obind]. rewrite P. destruct (_ >=? _).
    + exists [(ix_GetBlockTime b, p)]. split; [by destruct fuel|]. split; [by apply NoDup_singleton|]. set_solver.
    + exists []. split; [done|]. split; [by apply NoDup_nil|]. set_solver.
  - rewrite length_app in F. cbn in F. destruct fuel as [|fuel]; [lia|]. cbn. rewrite E. cbn [obind]. rewrite P.
    destruct (_ >=? _).
    + destruct (IH fuel ltac:(lia)) as (cs & R & N & S). rewrite R. cbn [obind].
      exists ((ix_GetBlockTime b, p) :: cs). split; [done|]. split; [|set_solver].
      cbn. apply NoDup_cons. split; [|done]. intros Hp. apply S in Hp.
      pose proof (lineage_NoDup idx p (l ++ [p]) (lineage_step _ _ _ _ _ E P H)) as N2.
      apply NoDup_app in N2 as (_ & N2 & _). apply (N2 p Hp). by apply list_elem_of_singleton.
    + exists []. split; [done|]. split; [by apply NoDup_nil|]. set_solver.
Qed.

(** A round takes a candidate that no earlier round took. *)
Lemma select_loop_total (all : list hash) items sel stop prev v2 best :
  (forall it, it ∈ items -> is_Some (idx !! it.2) /\ it.2 ∈ all) ->
  (forall hb q, best = Some (hb, q) -> q ∈ all /\ q ∉ sel) ->
  (best = None -> exists it, it ∈ items /\ it.2 ∉ sel) ->
  exists q, select_loop consensus idx items sel stop prev v2 best = Some q /\ q ∈ all /\ q ∉ sel.
Proof.
  revert v2 best. induction items as [|it items IH]; intros v2 best Hall Hb Hn; cbn [select_loop].
  - destruct best as [[hb q]|]; [exists q; split; [done|by eapply Hb]|]. destruct (Hn eq_refl) as (it & Hit & _). by apply elem_of_nil in Hit.
  - destruct (Hall it ltac:(left)) as [[b E] Ha]. rewrite E.
    destruct (_ && _) eqn:Stop.
    + destruct best as [[hb q]|]; [|done]. exists q. split; [done|by eapply Hb].
    + case_bool_decide as D.
      * apply IH; [intros x Hx; apply Hall; by right|done|]. intros Eb. destruct (Hn Eb) as (x & Hx & Nx).
        apply elem_of_cons in Hx as [->|Hx]; [done|]. eauto.
      * apply IH; [intros x Hx; apply Hall; by right| |by destruct best as [[hb q]|]; [destruct (base_uint_lt _ _ _)|]].
        intros hb q Eq. destruct best as [[hb0 q0]|]; [destruct (base_uint_lt _ _ _)|]; simplify_eq; eauto.
Qed.
Lemma round_section n : 0 <= n < 64 -> is_Some (GetStakeModifierSelectionIntervalSection n).
Proof.
  intros H. unfold GetStakeModifierSelectionIntervalSection.
  destruct (Z.geb_spec n 0); [|lia]. destruct (Z.ltb_spec n 64); [|lia]. eauto.
Qed.
Lemma rounds_total items n nRound prev stop new sel :
  (forall it, it ∈ items -> is_Some (idx !! it.2)) -> NoDup (snd <$> items) -> NoDup sel -> (forall q, q ∈ sel -> q ∈ snd <$> items) ->
  (length sel + n <= length items)%nat -> 0 <= nRound -> nRound + Z.of_nat n <= 64 -> 0 <= new < 2 ^ 64 ->
  exists m, rounds consensus idx n nRound items prev stop new sel = Some (Some m) /\ 0 <= m < 2 ^ 64.
Proof.
  intros Hi Nd. revert nRound stop new sel. induction n as [|n IH]; intros nRound stop new sel Ns Sub Hl H0 H64 Hm; [cbn; eauto|].
  cbn [rounds]. destruct (round_section nRound ltac:(lia)) as [section ->]. cbn [obind].
  destruct (select_loop_total (snd <$> items) items sel (i64 (stop + section)) prev None None) as (q & R & Hq & Nq).
  - intros it Hit. split; [by apply Hi|]. by apply list_elem_of_fmap_2.
  - done.
  - intros _. destruct (decide (Exists (fun it => it.2 ∉ sel) items)) as [Ex|No]; [by apply Exists_exists in Ex|].
    exfalso. assert (Inc : forall x, x ∈ snd <$> items -> x ∈ sel).
    { intros x Hx. apply list_elem_of_fmap in Hx as (it & -> & Hit). destruct (decide (it.2 ∈ sel)); [done|].
      exfalso. apply No, Exists_exists. eauto. }
    pose proof (submseteq_length _ _ (NoDup_submseteq _ _ Nd Inc)) as L. rewrite length_fmap in L. lia.
  - unfold SelectBlockFromCandidates. rewrite R. apply IH; [apply NoDup_app; repeat split; [done| |by apply NoDup_singleton]| | |lia|lia|].
    + intros x Hx ->%list_elem_of_singleton. done.
    + intros x [Hx| ->%list_elem_of_singleton]%elem_of_app; auto.
    + rewrite length_app. cbn. lia.
    + pose proof (u64_range (Z.shiftl (GetStakeEntropyBit q) nRound)) as U. split; [apply Z.lor_nonneg; lia|].
      apply lor_lt_pow2; lia.
Qed.
End Total.

(** ** The invariant of the index *)

Section Invariant.
Context `{SphLib} {crypto : ScriptCrypto} (consensus : Params) (stakemodifier_literal : Z).
Abbreviation V3_4 h := (NetworkUpgradeActive consensus h UPGRADE_V3_4).

(** The modifier of an entry has the size of its version, the first block has
    generated one, and the work is a number. *)
Record entry_ok (b : CBlockIndex) : Prop := {
  eo_modifier : if V3_4 (nHeight b) then (length (vStakeModifier b) <= 32)%nat else length (vStakeModifier b) = 0%nat \/ length (vStakeModifier b) = 8%nat;
  eo_first : nHeight b = 1 -> V3_4 1 = false -> GeneratedStakeModifier b = true;
  eo_work : wf WIDTH256 (nChainWork b)
}.
(** The links are right, the entries are, and the best header has the most work. *)
Record index_inv (st : IndexState) : Prop := {
  ii_links : index_ok (mapBlockIndex st);
  ii_entries : forall p b, mapBlockIndex st !! p = Some b -> entry_ok b;
  ii_best : forall p b, mapBlockIndex st !! p = Some b ->
    exists q bq, pindexBestHeader st = Some q /\ mapBlockIndex st !! q = Some bq /\ val WIDTH256 (nChainWork b) <= val WIDTH256 (nChainWork bq);
  ii_best_known : forall q, pindexBestHeader st = Some q -> is_Some (mapBlockIndex st !! q)
}.

Lemma V3_4_below h h' : 0 <= h' <= h -> V3_4 h = false -> V3_4 h' = false.
Proof.
  intros Hh E. destruct (V3_4 h') eqn:E'; [|done]. rewrite <- E. symmetry.
  apply NetworkUpgradeActive_iff in E' as (H1 & H2 & H3 & H4); [|done].
  apply NetworkUpgradeActive_iff; [done|]. repeat split; try done; lia.
Qed.

(** The entries of a path, as the invariant has them. *)
Definition path_ok (idx : BlockMap) (l : list hash) : Prop :=
  forall i q b, l !! i = Some q -> idx !! q = Some b -> nHeight b = Z.of_nat i /\ entry_ok b.

Lemma GetStakeModifierV1_total b : entry_ok b -> exists m, GetStakeModifierV1 consensus b = Some m.
Proof.
  intros [M _ _]. unfold GetStakeModifierV1. destruct (V3_4 (nHeight b)); [rewrite orb_true_r; eauto|].
  rewrite orb_false_r. destruct M as [-> | ->]; cbn; eauto.
Qed.
Lemma GetStakeModifierV2_total b : entry_ok b -> exists m, GetStakeModifierV2 consensus b = Some m.
Proof.
  intros [M _ _]. unfold GetStakeModifierV2. destruct (V3_4 (nHeight b)); [|rewrite orb_true_r; eauto].
  rewrite orb_false_r. destruct (_ =? 0)%nat; [eauto|]. destruct (Nat.ltb_spec 32 (length (vStakeModifier b))); [lia|eauto].
Qed.
Lemma ComputeNextStakeModifier_returns idx p l : lineage idx p l -> path_ok idx l -> V3_4 (Z.of_nat (length l)) = false ->
  exists m g, ComputeNextStakeModifier consensus idx stakemodifier_literal (Some p) = Some (true, m, g) /\
              (length l = 1%nat -> g = true).
Proof.
  intros Hl Hp A. unfold ComputeNextStakeModifier. destruct (lineage_lookup _ _ _ Hl) as [bp Ep]. rewrite Ep. cbn [obind].
  assert (Lp : l !! (length l - 1)%nat = Some p) by (rewrite <- (lineage_last _ _ _ Hl), last_lookup; f_equal; lia).
  pose proof (lookup_lt_Some _ _ _ Lp) as Hlen. destruct (Hp _ _ _ Lp Ep) as [Hh _]. rewrite Hh.
  destruct (Z.eqb_spec (Z.of_nat (length l - 1)) 0) as [Z0|Z0]; [eauto|].
  destruct (last_generated_total idx p l (Z.to_nat (Z.of_nat (length l - 1))) Hl) as (i & q & b & -> & Lq & Eq & G & Above); [lia|].
  cbn [obind]. rewrite Eq. cbn [obind]. destruct (Hp _ _ _ Lq Eq) as [Hq Oq].
  assert (Gb : GeneratedStakeModifier b = true).
  { destruct G as [G| ->]; [done|]. destruct (lookup_lt_is_Some_2 l 1) as [r Lr]; [lia|].
    destruct (lineage_elem _ _ _ r Hl) as [br Er]; [by eapply list_elem_of_lookup_2|].
    destruct (Hp _ _ _ Lr Er) as [Hr Or]. pose proof (Above _ _ _ (le_n 1) Lr Er) as F.
    rewrite (eo_first _ Or) in F; [done|lia|]. apply (V3_4_below (Z.of_nat (length l))); [lia|done]. }
  rewrite Gb. cbn [negb]. destruct (GetStakeModifierV1_total b Oq) as [m ->]. cbn [obind].
  destruct (_ >=? _); [exists m, false; split; [done|intros; lia]|].
  destruct (candidates_total idx p l (S (Z.to_nat (Z.of_nat (length l - 1))))
    (Z.quot (ix_GetBlockTime bp) MODIFIER_INTERVAL * MODIFIER_INTERVAL - OLD_MODIFIER_INTERVAL) Hl) as (cs & -> & Nd & Sub); [lia|].
  cbn [obind]. set (items := merge_sort _ _). assert (Pm : items ≡ₚ cs) by (unfold items; rewrite merge_sort_Permutation; symmetry; apply Permutation_rev).
  destruct (rounds_total consensus idx items (64 `min` length items) 0 m
    (Z.quot (ix_GetBlockTime bp) MODIFIER_INTERVAL * MODIFIER_INTERVAL - OLD_MODIFIER_INTERVAL) 0 []) as (m' & -> & _).
  - intros it Hit. eapply lineage_elem; [exact Hl|]. apply Sub, list_elem_of_fmap_2. by rewrite <- Pm.
  - by rewrite Pm.
  - apply NoDup_nil_2.
  - intros x Hx. by apply elem_of_nil in Hx.
  - apply Nat.le_min_r.
  - lia.
  - pose proof (Nat.le_min_l 64 (length items)). lia.
  - lia.
  - cbn [obind]. eauto.
Qed.
End Invariant.

(** * Growing the index *)

Lemma ancestor_walk_mono (idx idx' : BlockMap) fuel height walk hw r : idx ⊆ idx' ->
  ancestor_walk idx fuel height walk hw = Some r -> ancestor_walk idx' fuel height walk hw = Some r.
Proof.
  intros S. revert walk hw. induction fuel as [|fuel IH]; intros walk hw R; cbn [ancestor_walk] in *; [done|].
  destruct (hw >? height); [|done]. apply obind_Some in R as (b & E & R). rewrite (lookup_weaken _ _ _ _ E S). cbn [obind].
  destruct (_ || _); apply obind_Some in R as (q & -> & R); cbn [obind]; eauto.
Qed.
Lemma GetAncestor_mono (idx idx' : BlockMap) p height r : idx ⊆ idx' -> GetAncestor idx p height = Some r -> GetAncestor idx' p height = Some r.
Proof.
  intros S R. unfold GetAncestor in *. apply obind_Some in R as (b & E & R). rewrite (lookup_weaken _ _ _ _ E S). cbn [obind].
  destruct (_ || _); [done|]. apply obind_Some in R as (q & W & R). rewrite (ancestor_walk_mono _ _ _ _ _ _ _ S W). done.
Qed.
Lemma links_ok_insert idx h b c : idx !! h = None -> links_ok idx c -> links_ok (<[h := b]> idx) c.
Proof.
  intros N L. unfold links_ok in *. destruct (pprev c) as [q|]; [|done].
  destruct L as (bq & l & Eq & Hh & Hl & R). exists bq, l. split; [rewrite lookup_insert_ne by congruence; done|].
  split; [done|]. split; [by apply lineage_insert|done].
Qed.

Section Grow.
Context `{SphLib} {crypto : ScriptCrypto} (consensus : Params) (stakemodifier_literal : Z).
Abbreviation V3_4 h := (NetworkUpgradeActive consensus h UPGRADE_V3_4).
Abbreviation Hash b := (CBlockHeader_GetHash (header b)).

(** The coinstake input the second version of the modifier is made from. *)
Definition has_stake_input (block : CBlock) : Prop := exists tx txin, vtx block !! 1%nat = Some tx /\ vin tx !! 0%nat = Some txin.

Lemma set_modifier_total idx block h b q l : pprev b = Some q -> lineage idx q l -> path_ok consensus idx l ->
  nHeight b = Z.of_nat (length l) -> (V3_4 (nHeight b) = true -> has_stake_input block) ->
  exists m f, set_modifier consensus stakemodifier_literal idx block h b = Some (with_modifier b m f) /\
    (if V3_4 (nHeight b) then length m = 32%nat else length m = 8%nat) /\
    (nHeight b = 1 -> V3_4 1 = false -> negb (Z.land f BLOCK_STAKE_MODIFIER =? 0) = true).
Proof.
  intros P Hl Hp Hh St. unfold set_modifier. destruct (V3_4 (nHeight b)) eqn:A; cbn [negb].
  - destruct (St eq_refl) as (tx & txin & Ht & Hi). rewrite Ht. cbn [obind]. rewrite Hi. cbn [obind]. unfold SetNewStakeModifier_V2. rewrite A, P. cbn [negb obind].
    destruct (lineage_lookup _ _ _ Hl) as [bq Eq]. rewrite Eq. cbn [obind].
    destruct (list_elem_of_lookup_1 l q) as [i Li].
    { pose proof (lineage_last _ _ _ Hl) as La. by eapply last_Some_elem_of. }
    destruct (GetStakeModifierV2_total consensus bq (proj2 (Hp _ _ _ Li Eq))) as [m ->]. cbn [obind].
    eexists _, _. split; [reflexivity|]. split; [apply SHA256_digest|]. intros H1 A1. rewrite H1 in A. congruence.
  - unfold SetNewStakeModifier_V1. replace (pprev (SetStakeEntropyBit b (GetStakeEntropyBit h)).2) with (Some q)
      by (unfold SetStakeEntropyBit; destruct (_ >? 1); cbn; done).
    destruct (ComputeNextStakeModifier_returns consensus stakemodifier_literal idx q l Hl Hp) as (m & g & -> & Hg); [congruence|].
    cbn [obind]. unfold SetStakeModifier_u64, SetStakeEntropyBit. destruct (_ >? 1); cbn [snd]; eexists _, _; (split; [reflexivity|]);
      (split; [apply length_le_bytes|]); intros H1 _; rewrite Hg by lia;
      rewrite negb_true_iff, Z.eqb_neq, Z.land_lor_distr_l;
      change (Z.land BLOCK_STAKE_MODIFIER BLOCK_STAKE_MODIFIER) with 4; intros X; apply Z.lor_eq_0_iff in X as [_ X]; lia.
Qed.

(** The new entry before its work is known, with what the invariant says of it. *)
Lemma new_links st block : index_inv consensus st ->
  let idx := mapBlockIndex st in let h := Hash block in let hprev := hashPrevBlock (header block) in
  idx !! h = None -> hprev <> h ->
  (forall b, idx !! hprev = Some b -> nHeight b < 2 ^ 31 - 1 /\ (V3_4 (nHeight b + 1) = true -> has_stake_input block)) ->
  exists b, (match <[h := CBlockIndex_of block]> idx !! hprev with
             | Some bprev => b <- BuildSkip (<[h := CBlockIndex_of block]> idx) (with_links (CBlockIndex_of block) (Some hprev) None (i32 (nHeight bprev + 1)));;
                             set_modifier consensus stakemodifier_literal (<[h := CBlockIndex_of block]> idx) block h b
             | None => Some (CBlockIndex_of block)
             end) = Some b /\
    ix_header b = ix_header (CBlockIndex_of block) /\ nStatus b = 0 /\
    (if V3_4 (nHeight b) then (length (vStakeModifier b) <= 32)%nat else length (vStakeModifier b) = 0%nat \/ length (vStakeModifier b) = 8%nat) /\
    (nHeight b = 1 -> V3_4 1 = false -> GeneratedStakeModifier b = true) /\
    match idx !! hprev with
    | None => pprev b = None /\ pskip b = None /\ nHeight b = 0
    | Some bp => exists l, lineage idx hprev l /\ pprev b = Some hprev /\ nHeight b = nHeight bp + 1 /\
                           pskip b = l !! Z.to_nat (GetSkipHeight (nHeight b))
    end.
Proof.
  intros Inv idx h hprev N Ne Hpar. rewrite lookup_insert_ne by done. pose proof (ii_links _ _ Inv) as Hidx. fold idx in Hidx.
  destruct (idx !! hprev) as [bp|] eqn:Ep.
  2: { exists (CBlockIndex_of block). split; [done|]. split; [done|]. split; [done|]. cbn [nHeight vStakeModifier CBlockIndex_of].
    split; [destruct (V3_4 0); [cbn; apply le_0_n|by left]|]. done. }
  destruct (Hpar bp eq_refl) as [Hb St]. destruct (index_lineage idx Hidx _ _ Ep) as [l Hl].
  pose proof (lineage_length idx Hidx _ _ _ Hl Ep) as Len. destruct (lineage_height idx Hidx _ _ _ Hl Ep) as [_ Hp0].
  rewrite i32_small by lia. set (b1 := with_links _ _ _ _).
  assert (Sub : idx ⊆ <[h := CBlockIndex_of block]> idx) by (by apply insert_subseteq).
  assert (B : BuildSkip (<[h := CBlockIndex_of block]> idx) b1 =
              Some (with_links b1 (Some hprev) (l !! Z.to_nat (GetSkipHeight (nHeight b1))) (nHeight b1))).
  { pose proof (BuildSkip_exact idx Hidx b1 hprev l eq_refl Hl ltac:(cbn; lia)) as B. unfold BuildSkip in *. cbn [pprev b1 with_links] in *.
    apply obind_Some in B as (r & R & B). by rewrite (GetAncestor_mono _ _ _ _ _ Sub R). }
  rewrite B. cbn [obind]. set (b2 := with_links b1 _ _ _).
  assert (P2 : path_ok consensus (<[h := CBlockIndex_of block]> idx) l).
  { intros i q b Li Eq. destruct (lineage_at idx Hidx _ _ _ _ Hl Li) as (b' & E' & Hh & _).
    rewrite (lookup_weaken _ _ _ _ E' Sub) in Eq. simplify_eq. split; [done|]. by apply (ii_entries _ _ Inv q). }
  destruct (set_modifier_total (<[h := CBlockIndex_of block]> idx) block h b2 hprev l) as (m & f & R & M & G); try done;
    [by apply lineage_insert|].
  exists (with_modifier b2 m f). split; [exact R|]. split; [done|]. split; [done|].
  change (nHeight (with_modifier b2 m f)) with (nHeight b2). change (vStakeModifier (with_modifier b2 m f)) with m.
  split; [destruct (V3_4 (nHeight b2)); [lia|auto]|]. split; [exact G|]. exists l. done.
Qed.

Lemma entry_GetHash block b : ix_header b = ix_header (CBlockIndex_of block) ->
  hashPrevBlock (header block) = match pprev b with Some p => p | None => repeat 0 32 end ->
  CBlockHeader_GetHash (ix_GetBlockHeader b) = Hash block.
Proof.
  intros Hh Hp. unfold ix_GetBlockHeader. rewrite Hh, <- Hp. unfold CBlockHeader_GetHash, SerializeHeader, header_fields. cbn.
  destruct (has_checkpoint _), (has_sapling_root _); done.
Qed.
End Grow.

Section AddTheorems.
Context `{SphLib} {crypto : ScriptCrypto} (consensus : Params) (stakemodifier_literal : Z).
Abbreviation V3_4 h := (NetworkUpgradeActive consensus h UPGRADE_V3_4).
Abbreviation Hash b := (CBlockHeader_GetHash (header b)).
Abbreviation Add := (AddToBlockIndex consensus stakemodifier_literal).
Abbreviation work b := (val WIDTH256 (nChainWork b)).

(** The finished entry. *)
Definition finished (b : CBlockIndex) (w : list Z) (tmax : Z) : CBlockIndex := with_status (with_work b w tmax) BLOCK_VALID_TREE.
Lemma RaiseValidity_new b w tmax : nStatus b = 0 -> RaiseValidity (with_work b w tmax) BLOCK_VALID_TREE = Some (true, finished b w tmax).
Proof. intros E. unfold RaiseValidity. cbn [nStatus with_work]. rewrite E. done. Qed.

(** The best header with a new entry [b]. *)
Definition best_with (st : IndexState) (h : hash) (b : CBlockIndex) : option hash :=
  match pindexBestHeader st with
  | None => Some h
  | Some q => match mapBlockIndex st !! q with
              | Some bq => if base_uint_lt WIDTH256 (nChainWork bq) (nChainWork b) then Some h else Some q
              | None => None
              end
  end.
Definition state_with (st : IndexState) (h : hash) (b : CBlockIndex) : IndexState :=
  mkIndexState (<[h := b]> (mapBlockIndex st)) (best_with st h b) (h :: setDirtyBlockIndex st).
Lemma insert_inv st h b : index_inv consensus st -> mapBlockIndex st !! h = None ->
  links_ok (mapBlockIndex st) b -> entry_ok consensus b -> index_inv consensus (state_with st h b).
Proof.
  intros [I1 I2 I3 I4] N L O. constructor; cbn [mapBlockIndex pindexBestHeader state_with]; unfold best_with.
  - intros p c [[<- <-]|[_ E]]%lookup_insert_Some; apply links_ok_insert; eauto.
  - intros p c [[<- <-]|[_ E]]%lookup_insert_Some; eauto.
  - intros p c Hc. destruct (pindexBestHeader st) as [q|] eqn:B.
    + destruct (I4 q eq_refl) as [bq Eq]. rewrite Eq. pose proof (I2 _ _ Eq) as Oq.
      assert (Hq : q <> h) by congruence.
      pose proof (base_uint_lt_spec WIDTH256 _ _ (eo_work _ _ Oq) (eo_work _ _ O)) as Lt.
      assert (Hmax : p <> h -> work c <= work bq).
      { intros Np. rewrite lookup_insert_ne in Hc by done. destruct (I3 _ _ Hc) as (q' & bq' & [= <-] & E' & W). congruence. }
      destruct (base_uint_lt _ _ _) eqn:C.
      * exists h, b. rewrite lookup_insert_eq. split; [done|]. split; [done|]. destruct (decide (p = h)) as [->|Np].
        -- rewrite lookup_insert_eq in Hc. by simplify_eq.
        -- specialize (Hmax Np). symmetry in Lt. apply Z.ltb_lt in Lt. lia.
      * exists q, bq. rewrite lookup_insert_ne by done. split; [done|]. split; [done|]. destruct (decide (p = h)) as [->|Np].
        -- rewrite lookup_insert_eq in Hc. simplify_eq. symmetry in Lt. apply Z.ltb_ge in Lt. lia.
        -- by apply Hmax.
    + exists h, b. rewrite lookup_insert_eq. split; [done|]. split; [done|]. destruct (decide (p = h)) as [->|Np].
      * rewrite lookup_insert_eq in Hc. by simplify_eq.
      * rewrite lookup_insert_ne in Hc by done. destruct (I3 _ _ Hc) as (q' & _ & E & _). congruence.
  - intros q Hq. destruct (pindexBestHeader st) as [q0|] eqn:B.
    + destruct (I4 q0 eq_refl) as [bq Eq]. rewrite Eq in Hq. destruct (base_uint_lt _ _ _); injection Hq as <-.
      * rewrite lookup_insert_eq. eauto.
      * rewrite lookup_insert_ne by congruence. eauto.
    + injection Hq as <-. rewrite lookup_insert_eq. eauto.
Qed.

(** A fresh block: the state after it, and its entry. *)
Lemma add_new block st : index_inv consensus st -> 0 <= nBits (header block) < 2 ^ 32 -> hashPrevBlock (header block) <> Hash block ->
  (forall b, mapBlockIndex st !! hashPrevBlock (header block) = Some b ->
     nHeight b < 2 ^ 31 - 1 /\ (V3_4 (nHeight b + 1) = true -> has_stake_input block)) ->
  mapBlockIndex st !! Hash block = None ->
  exists b w, Add block st = Some (Hash block, state_with st (Hash block) b) /\ links_ok (mapBlockIndex st) b /\ entry_ok consensus b /\
    ix_header b = ix_header (CBlockIndex_of block) /\ GetBlockProof (nBits (header block)) = Some w /\
    match mapBlockIndex st !! hashPrevBlock (header block) with
    | Some bp => pprev b = Some (hashPrevBlock (header block)) /\ nHeight b = nHeight bp + 1 /\ work b = (work bp + val WIDTH256 w) mod 2 ^ 256
    | None => pprev b = None /\ nHeight b = 0
    end.
Proof.
  intros Inv Hn Ne Hpar N. unfold AddToBlockIndex. rewrite N.
  destruct (new_links consensus stakemodifier_literal st block Inv N Ne Hpar) as (b & -> & Hh & Hs & M & G & P). cbn [obind].
  destruct (GetBlockProof_value (nBits (header block)) Hn) as (w & Hw & Ww & _).
  replace (nBits (ix_header b)) with (nBits (header block)) by (rewrite Hh; done). rewrite Hw. cbn [obind].
  assert (Epar : match pprev b with Some q => <[Hash block := CBlockIndex_of block]> (mapBlockIndex st) !! q | None => None end =
                 mapBlockIndex st !! hashPrevBlock (header block)).
  { destruct (mapBlockIndex st !! hashPrevBlock (header block)) as [bp|] eqn:Ep.
    - destruct P as (l & _ & -> & _). by rewrite lookup_insert_ne.
    - by destruct P as [-> _]. }
  rewrite Epar. set (tmax := match _ with Some bp => Z.max (nTimeMax bp) (ix_nTime b) | None => ix_nTime b end).
  set (pw := match _ with Some bp => nChainWork bp | None => zero_work end).
  rewrite RaiseValidity_new by done. cbn [obind snd]. rewrite insert_insert_eq.
  assert (Wp : wf WIDTH256 pw).
  { unfold pw. destruct (mapBlockIndex st !! hashPrevBlock (header block)) as [bp|] eqn:Ep; [|apply wf_zero].
    exact (eo_work _ _ (ii_entries _ _ Inv _ _ Ep)). }
  destruct (add_assign_val WIDTH256 pw w Wp Ww) as [Wf Wv]. fold (add_256 pw w) in Wf, Wv.
  exists (finished b (add_256 pw w) tmax), w. split; [|split; [|split; [|split; [done|split; [done|]]]]].
  - unfold state_with, best_with. destruct (pindexBestHeader st) as [q|] eqn:B; [|done].
    destruct (ii_best_known _ _ Inv _ B) as [bq Eq]. rewrite Eq, lookup_insert_ne, Eq by congruence. reflexivity.
  - unfold links_ok, tmax. cbn [pprev nHeight pskip nTimeMax finished with_status with_work ix_nTime ix_header].
    destruct (mapBlockIndex st !! hashPrevBlock (header block)) as [bp|] eqn:Ep.
    + destruct P as (l & Hl & -> & P2 & P3). exists bp, l. done.
    + destruct P as (-> & P2 & P3). done.
  - constructor; [exact M|exact G|exact Wf].
  - cbn [nChainWork finished with_status with_work]. rewrite Wv. unfold pw.
    destruct (mapBlockIndex st !! hashPrevBlock (header block)) as [bp|]; [destruct P as (l & _ & P1 & P2 & _)|destruct P as (P1 & _ & P2)].
    + split; [exact P1|]. split; [exact P2|reflexivity].
    + exact (conj P1 P2).
Qed.

(** C11: adding a block to the index returns, for every block whose parent is not at the last
    height an int can hold, except one without a coinstake where the second version of the
    stake modifier is in force. The index stays well formed: links and skip pointers follow
    the paths, stake modifiers have the size their readers copy, the best header has the most
    work; known entries stay; the new entry is one above its parent, hashes to its key, and
    its work is that of the parent plus its own modulo 2^256. *)
Theorem AddToBlockIndex_invariant (block : CBlock) (st : IndexState) :
  index_inv consensus st -> 0 <= nBits (header block) < 2 ^ 32 -> hashPrevBlock (header block) <> Hash block ->
  (forall b, mapBlockIndex st !! hashPrevBlock (header block) = Some b ->
     nHeight b < 2 ^ 31 - 1 /\ (V3_4 (nHeight b + 1) = true -> has_stake_input block)) ->
  exists st' b, Add block st = Some (Hash block, st') /\ index_inv consensus st' /\ mapBlockIndex st ⊆ mapBlockIndex st' /\
    mapBlockIndex st' !! Hash block = Some b /\
    (mapBlockIndex st !! Hash block = None ->
     match mapBlockIndex st !! hashPrevBlock (header block) with
     | Some bp => pprev b = Some (hashPrevBlock (header block)) /\ nHeight b = nHeight bp + 1 /\
                  CBlockHeader_GetHash (ix_GetBlockHeader b) = Hash block /\
                  exists w, GetBlockProof (nBits (header block)) = Some w /\ work b = (work bp + val WIDTH256 w) mod 2 ^ 256
     | None => pprev b = None /\ nHeight b = 0
     end).
Proof.
  intros Inv Hn Ne Hpar. destruct (mapBlockIndex st !! Hash block) as [b0|] eqn:N.
  { exists st, b0. unfold AddToBlockIndex. rewrite N. split; [done|]. split; [done|]. split; [done|]. by split. }
  destruct (add_new block st Inv Hn Ne Hpar N) as (b & w & R & L & O & Hh & Hw & P).
  exists (state_with st (Hash block) b), b. split; [done|]. split; [by apply insert_inv|].
  split; [by apply insert_subseteq|]. split; [apply lookup_insert_eq|]. intros _.
  destruct (mapBlockIndex st !! hashPrevBlock (header block)) as [bp|]; [|done].
  destruct P as (P1 & P2 & P3). split; [done|]. split; [done|]. split; [|eauto]. apply entry_GetHash; [done|]. by rewrite P1.
Qed.

(** A block with a known parent and fewer than two transactions makes
    [AddToBlockIndex] read [vtx[1]] behind the end of the vector once the second
    version of the stake modifier is in force. *)
Theorem AddToBlockIndex_reads_missing_coinstake (block : CBlock) (st : IndexState) (bp : CBlockIndex) :
  mapBlockIndex st !! Hash block = None -> hashPrevBlock (header block) <> Hash block ->
  mapBlockIndex st !! hashPrevBlock (header block) = Some bp -> 0 <= nHeight bp < 2 ^ 31 - 1 -> V3_4 (nHeight bp + 1) = true ->
  (length (vtx block) < 2)%nat -> Add block st = None.
Proof.
  intros N Ne Ep Hb A Hv. unfold AddToBlockIndex. rewrite N, lookup_insert_ne, Ep, i32_small by (done || lia).
  destruct (BuildSkip _ _) as [b|] eqn:B; cbn [obind]; [|done]. unfold set_modifier.
  assert (nHeight b = nHeight bp + 1) as ->.
  { unfold BuildSkip in B. cbn [pprev with_links] in B. apply obind_Some in B as (r & _ & [= <-]). done. }
  rewrite A. cbn [negb]. by rewrite lookup_ge_None_2 by lia.
Qed.
End AddTheorems.

(** * Examples: a root and its child *)

Definition st_root_block : CBlock := CBlock_of_header ex_header.
Definition st_empty : IndexState := mkIndexState ∅ None [].
Abbreviation toyHash b := (CBlockHeader_GetHash (H := toy_sph) (crypto := toy_crypto) (header b)).
Definition st_child_block : CBlock :=
  CBlock_of_header (mkHeader 8 (toyHash st_root_block) (repeat 2 32) 1600000060 0x1e0ffff0 8 (repeat 0 32) (repeat 3 32)).
Lemma st_empty_inv : index_inv ex_params st_empty.
Proof. constructor; [intros p b E|intros p b E|intros p b E|intros q E]; done. Qed.
Lemma st_hashes : hashPrevBlock (header st_root_block) <> toyHash st_root_block /\ toyHash st_root_block <> toyHash st_child_block /\
  NetworkUpgradeActive ex_params 1 UPGRADE_V3_4 = false.
Proof. vm_compute. repeat split; discriminate. Qed.
Lemma AddToBlockIndex_invariant_witness :
  exists st1 st2 b, AddToBlockIndex (H := toy_sph) (crypto := toy_crypto) ex_params 7 st_root_block st_empty = Some (toyHash st_root_block, st1) /\
    AddToBlockIndex (H := toy_sph) (crypto := toy_crypto) ex_params 7 st_child_block st1 = Some (toyHash st_child_block, st2) /\
    mapBlockIndex st2 !! toyHash st_child_block = Some b /\ index_inv ex_params st2.
Proof.
  destruct st_hashes as (H1 & H2 & H3).
  destruct (AddToBlockIndex_invariant (H := toy_sph) (crypto := toy_crypto) ex_params 7 st_root_block st_empty st_empty_inv
    ltac:(cbn; lia) H1 ltac:(done)) as (st1 & b1 & R1 & I1 & _ & E1 & P1).
  destruct (P1 eq_refl) as [_ Hb].
  destruct (AddToBlockIndex_invariant (H := toy_sph) (crypto := toy_crypto) ex_params 7 st_child_block st1 I1 ltac:(cbn; lia) H2)
    as (st2 & b2 & R2 & I2 & _ & E2 & _).
  { intros b Eb. change (hashPrevBlock (header st_child_block)) with (toyHash st_root_block) in Eb. rewrite E1 in Eb. injection Eb as <-.
    rewrite Hb. split; [lia|]. intros C. exfalso. change (0 + 1) with 1 in C. congruence. }
  exists st1, st2, b2. exact (conj R1 (conj R2 (conj E2 I2))).
Defined.

Definition st_tall : IndexState := mkIndexState {[ toyHash st_root_block := ex_entry None None 60 100 100 ]} None [].
Lemma st_tall_facts : mapBlockIndex st_tall !! toyHash st_child_block = None /\
  mapBlockIndex st_tall !! hashPrevBlock (header st_child_block) = Some (ex_entry None None 60 100 100) /\
  NetworkUpgradeActive ex_params 61 UPGRADE_V3_4 = true.
Proof.
  split; [|split; [apply lookup_singleton_eq|vm_compute; reflexivity]].
  apply lookup_singleton_ne, st_hashes.
Qed.
Lemma AddToBlockIndex_reads_missing_coinstake_witness :
  AddToBlockIndex (H := toy_sph) (crypto := toy_crypto) ex_params 7 st_child_block st_tall = None.
Proof.
  destruct st_tall_facts as (F1 & F2 & F3). destruct st_hashes as (_ & H2 & _).
  apply (AddToBlockIndex_reads_missing_coinstake (H := toy_sph) (crypto := toy_crypto) ex_params 7 st_child_block st_tall _ F1 H2 F2);
    [cbn; lia|exact F3|cbn; lia].
Defined.
