(* ===== verification/ChainSelect.v ===== *)
(** Choosing and activating the best chain (src/validation.cpp: from
    [InvalidChainFound] and [FindMostWorkChain] to [ReceivedBlockTransactions]).

    Blocks are connected to and disconnected from the coins through an interface;
    ConnectBlock and Connect model what is behind it. *)
From Stdlib Require Import ZArith Lia List Bool.
From stdpp Require Import base gmap list sets.
From S2P Require Import Prelude Uint256 Consensus Pow Serialize Script Interpreter Codecs Transaction Block Chain.
Import ListNotations.
Local Open Scope Z_scope.
Local Open Scope passion_scope.

(** * State *)

Record ChainState := mkCS {
  cs_index : BlockMap;
  chainActive : CChain;
  setBlockIndexCandidates : gset hash;
  pindexBestInvalid : option hash;
  (* pairs of a parent and a child, in the order of insertion *)
  mapBlocksUnlinked : list (hash * hash);
  nBlockSequenceId : Z;
  cs_dirty : gset hash
}.
Definition with_index (st : ChainState) (i : BlockMap) : ChainState :=
  mkCS i (chainActive st) (setBlockIndexCandidates st) (pindexBestInvalid st) (mapBlocksUnlinked st) (nBlockSequenceId st) (cs_dirty st).
Definition with_chain (st : ChainState) (c : CChain) : ChainState :=
  mkCS (cs_index st) c (setBlockIndexCandidates st) (pindexBestInvalid st) (mapBlocksUnlinked st) (nBlockSequenceId st) (cs_dirty st).
Definition with_candidates (st : ChainState) (s : gset hash) : ChainState :=
  mkCS (cs_index st) (chainActive st) s (pindexBestInvalid st) (mapBlocksUnlinked st) (nBlockSequenceId st) (cs_dirty st).
Definition with_invalid (st : ChainState) (p : option hash) : ChainState :=
  mkCS (cs_index st) (chainActive st) (setBlockIndexCandidates st) p (mapBlocksUnlinked st) (nBlockSequenceId st) (cs_dirty st).
Definition with_unlinked (st : ChainState) (u : list (hash * hash)) : ChainState :=
  mkCS (cs_index st) (chainActive st) (setBlockIndexCandidates st) (pindexBestInvalid st) u (nBlockSequenceId st) (cs_dirty st).
Definition with_sequence (st : ChainState) (n : Z) : ChainState :=
  mkCS (cs_index st) (chainActive st) (setBlockIndexCandidates st) (pindexBestInvalid st) (mapBlocksUnlinked st) n (cs_dirty st).
Definition mark_dirty (st : ChainState) (p : hash) : ChainState :=
  mkCS (cs_index st) (chainActive st) (setBlockIndexCandidates st) (pindexBestInvalid st) (mapBlocksUnlinked st) (nBlockSequenceId st) ({[p]} ∪ cs_dirty st).
(** [p->nStatus |= flag] *)
Definition add_status (st : ChainState) (p : hash) (flag : Z) : ChainState :=
  with_index st (alter (fun b => with_status b (Z.lor (nStatus b) flag)) p (cs_index st)).
Definition erase_candidate (st : ChainState) (p : hash) : ChainState := with_candidates st (setBlockIndexCandidates st ∖ {[p]}).
Definition is_failed (b : CBlockIndex) : bool := negb (Z.land (nStatus b) BLOCK_FAILED_MASK =? 0).
Definition has_data (b : CBlockIndex) : bool := negb (Z.land (nStatus b) BLOCK_HAVE_DATA =? 0).

Section Select.
(** The address of the entry of a block. *)
Variable addr : hash -> Z.

(** [CBlockIndexWorkComparator] *)
Definition work_lt (idx : BlockMap) (pa pb : hash) : bool :=
  match idx !! pa, idx !! pb with
  | Some a, Some b =>
      if base_uint_gt WIDTH256 (nChainWork a) (nChainWork b) then false
      else if base_uint_lt WIDTH256 (nChainWork a) (nChainWork b) then true
      else if nSequenceId a <? nSequenceId b then false
      else if nSequenceId a >? nSequenceId b then true
      else if addr pa <? addr pb then false
      else if addr pa >? addr pb then true
      else false
  | _, _ => false
  end.
(** [*rbegin()] of a set with that order. *)
Definition last_of (idx : BlockMap) (l : list hash) : option hash :=
  match l with
  | [] => None
  | x :: l => Some (fold_left (fun m y => if work_lt idx m y then y else m) l x)
  end.
Definition more_work (idx : BlockMap) (pa pb : hash) : bool :=
  match idx !! pa, idx !! pb with
  | Some a, Some b => base_uint_gt WIDTH256 (nChainWork a) (nChainWork b)
  | _, _ => false
  end.

(** * Invalid blocks *)

(** [None]: the assertion that there is a tip fails. *)
Definition InvalidChainFound (st : ChainState) (p : hash) : option ChainState :=
  let st := match pindexBestInvalid st with
            | None => with_invalid st (Some p)
            | Some q => if more_work (cs_index st) p q then with_invalid st (Some p) else st
            end in
  match Tip (chainActive st) with Some _ => Some st | None => None end.
Definition InvalidBlockFound (st : ChainState) (p : hash) (corruptionPossible : bool) : option ChainState :=
  if corruptionPossible then Some st
  else InvalidChainFound (erase_candidate (mark_dirty (add_status st p BLOCK_FAILED_VALID) p) p) p.

(** * The most work *)

Inductive walk_result := WalkOk | WalkFailed (pindexTest : hash) (fFailedChain : bool).
(** From the candidate back to the active chain; [None] is the failed assertion. *)
Fixpoint test_chain (fuel : nat) (st : ChainState) (p : option hash) : option walk_result :=
  match p with
  | None => Some WalkOk
  | Some q =>
      b <- cs_index st !! q;;
      if bool_decide (chain_at (chainActive st) (nHeight b) = Some q) then Some WalkOk
      else if (nChainTx b =? 0) && negb (nHeight b =? 0) then None
      else if is_failed b || negb (has_data b) then Some (WalkFailed q (is_failed b))
      else match fuel with O => None | S fuel => test_chain fuel st (pprev b) end
  end.
(** [while (pindexTest != pindexFailed)] *)
Fixpoint remove_chain (fuel : nat) (pindexTest : hash) (fFailedChain : bool) (pindexFailed : hash) (st : ChainState) : option ChainState :=
  if decide (pindexTest = pindexFailed) then Some st
  else
    match fuel with
    | O => None
    | S fuel =>
        b <- cs_index st !! pindexFailed;;
        q <- pprev b;;
        let st := if fFailedChain then add_status st pindexFailed BLOCK_FAILED_CHILD
                  else with_unlinked st (mapBlocksUnlinked st ++ [(q, pindexFailed)]) in
        remove_chain fuel pindexTest fFailedChain q (erase_candidate st pindexFailed)
    end.
Definition height_of (st : ChainState) (p : hash) : nat := match cs_index st !! p with Some b => Z.to_nat (nHeight b) | None => O end.
Fixpoint find_most_work (fuel : nat) (st : ChainState) : option (option hash * ChainState) :=
  match last_of (cs_index st) (elements (setBlockIndexCandidates st)) with
  | None => Some (None, st)
  | Some pindexNew =>
      r <- test_chain (S (height_of st pindexNew)) st (Some pindexNew);;
      match r with
      | WalkOk => Some (Some pindexNew, st)
      | WalkFailed pindexTest fFailedChain =>
          match fuel with
          | O => None
          | S fuel =>
              let st := if fFailedChain && (match pindexBestInvalid st with None => true | Some q => more_work (cs_index st) pindexNew q end)
                        then with_invalid st (Some pindexNew) else st in
              st <- remove_chain (S (height_of st pindexNew)) pindexTest fFailedChain pindexNew st;;
              find_most_work fuel (erase_candidate st pindexTest)
          end
      end
  end.
Definition FindMostWorkChain (st : ChainState) : option (option hash * ChainState) :=
  find_most_work (length (elements (setBlockIndexCandidates st))) st.

(** The entries that sort before the tip are a prefix of the set. [None]: the
    assertion that one is left, or a null tip. *)
Definition PruneBlockIndexCandidates (st : ChainState) : option ChainState :=
  tip <- Tip (chainActive st);;
  let s := filter (fun p => work_lt (cs_index st) p tip = false) (setBlockIndexCandidates st) in
  if decide (s = ∅) then None else Some (with_candidates st s).

(** * Receiving a block *)

Definition with_transactions (b : CBlockIndex) (block : CBlock) (nFile_ nPos_ saplingValue : Z) : CBlockIndex :=
  mkIndexEntry (pprev b) (pskip b) (nHeight b) nFile_ nPos_ 0 (nChainWork b) (u32 (Z.of_nat (length (vtx block)))) 0 (Z.lor (nStatus b) BLOCK_HAVE_DATA)
    (vStakeModifier b) (if IsProofOfStake block then Z.lor (nFlags b) BLOCK_PROOF_OF_STAKE else nFlags b)
    saplingValue None (ix_header b) (nSequenceId b) (nTimeMax b).
(** [saplingValue += -valueBalance] over the shielded transactions. *)
Definition block_sapling_value (block : CBlock) : Z :=
  fold_left (fun v tx => match sapData tx with
                         | Some d => if IsShieldedTx tx then i64 (v + - valueBalance d) else v
                         | None => v
                         end) (vtx block) 0.
Definition link_entry (b : CBlockIndex) (chainTx sequence : Z) (chainSapling : option Z) : CBlockIndex :=
  mkIndexEntry (pprev b) (pskip b) (nHeight b) (nFile b) (nDataPos b) (nUndoPos b) (nChainWork b) (nTx b) chainTx (nStatus b)
    (vStakeModifier b) (nFlags b) (nSaplingValue b) chainSapling (ix_header b) sequence (nTimeMax b).
Definition SetChainSaplingValue (parent : option CBlockIndex) (b : CBlockIndex) : option Z :=
  match parent with
  | Some bp => match nChainSaplingValue bp with Some v => Some (i64 (v + nSaplingValue b)) | None => None end
  | None => Some (nSaplingValue b)
  end.

(** The queue of blocks that may be linked now. *)
Fixpoint link_queue (fuel : nat) (queue : list hash) (st : ChainState) : option ChainState :=
  match queue with
  | [] => Some st
  | p :: queue =>
      match fuel with
      | O => None
      | S fuel =>
          b <- cs_index st !! p;;
          parent <- (match pprev b with None => Some None | Some q => bq <- cs_index st !! q;; Some (Some bq) end);;
          let b := link_entry b (u32 ((match parent with Some bp => nChainTx bp | None => 0 end) + nTx b)) (nBlockSequenceId st)
                     (SetChainSaplingValue parent b) in
          let st := with_sequence (with_index st (<[p := b]> (cs_index st))) (u32 (nBlockSequenceId st + 1)) in
          let st := match Tip (chainActive st) with
                    | None => with_candidates st ({[p]} ∪ setBlockIndexCandidates st)
                    | Some t => if negb (work_lt (cs_index st) p t) then with_candidates st ({[p]} ∪ setBlockIndexCandidates st) else st
                    end in
          let mine := filter (fun e => e.1 = p) (mapBlocksUnlinked st) in
          link_queue fuel (queue ++ (snd <$> mine)) (with_unlinked st (filter (fun e => e.1 <> p) (mapBlocksUnlinked st)))
      end
  end.
Definition ReceivedBlockTransactions (block : CBlock) (p : hash) (nFile_ nPos_ : Z) (st : ChainState) : option ChainState :=
  b <- cs_index st !! p;;
  r <- RaiseValidity (with_transactions b block nFile_ nPos_ (block_sapling_value block)) BLOCK_VALID_TRANSACTIONS;;
  let st := mark_dirty (with_index st (<[p := snd r]> (cs_index st))) p in
  match pprev b with
  | None => link_queue (S (length (mapBlocksUnlinked st))) [p] st
  | Some q =>
      bq <- cs_index st !! q;;
      if negb (nChainTx bq =? 0) then link_queue (S (length (mapBlocksUnlinked st))) [p] st
      else
        v <- ix_IsValid bq BLOCK_VALID_TREE;;
        Some (if v then with_unlinked st (mapBlocksUnlinked st ++ [(q, p)]) else st)
  end.

(** * Activating the best chain *)

(** What connecting and disconnecting a block does to the coins and the disk. A
    connected block comes with the place found for its undo data, unless it is
    the genesis block, which has none; an error leaves what was written so far. *)
Inductive ConnectOutcome (Coins : Type) :=
| Connected (c : Coins) (undo : option Z)
| Rejected (corruptionPossible : bool)
| SystemError (c : Coins) (undo : option Z).
Arguments Connected {_} _ _.
Arguments Rejected {_} _.
Arguments SystemError {_} _ _.
Class ChainIO := {
  Coins : Type;
  connect : hash -> Coins -> ConnectOutcome Coins;
  disconnect : hash -> Coins -> bool * Coins
}.
Context {io : ChainIO}.

(** The entry of a block whose undo data is written, as [ConnectBlock] leaves it. *)
Definition with_undo (b : CBlockIndex) (pos : Z) : CBlockIndex :=
  mkIndexEntry (pprev b) (pskip b) (nHeight b) (nFile b) (nDataPos b) pos (nChainWork b) (nTx b) (nChainTx b) (Z.lor (nStatus b) BLOCK_HAVE_UNDO)
    (vStakeModifier b) (nFlags b) (nSaplingValue b) (nChainSaplingValue b) (ix_header b) (nSequenceId b) (nTimeMax b).
Definition undo_missing (b : CBlockIndex) : bool := fst (GetUndoPos b) =? -1.
Definition record_undo (st : ChainState) (p : hash) (undo : option Z) : option ChainState :=
  match undo with
  | None => Some st
  | Some pos =>
      b <- cs_index st !! p;;
      v <- ix_IsValid b BLOCK_VALID_SCRIPTS;;
      if undo_missing b || negb v then
        r <- RaiseValidity (if undo_missing b then with_undo b pos else b) BLOCK_VALID_SCRIPTS;;
        Some (mark_dirty (with_index st (<[p := snd r]> (cs_index st))) p)
      else Some st
  end.

(** [UpdateTip] follows the pointer: [None] for a null one. *)
Definition UpdateTip (st : ChainState) (p : option hash) : option ChainState :=
  q <- p;; c <- SetTip (cs_index st) (Some q) (chainActive st);; Some (with_chain st c).
Inductive TipResult := TipOk (st : ChainState) (c : Coins) | TipInvalid (corruptionPossible : bool) (st : ChainState) | TipError (st : ChainState) (c : Coins).
Definition ConnectTip (st : ChainState) (c : Coins) (p : hash) : option TipResult :=
  b <- cs_index st !! p;;
  if negb (bool_decide (pprev b = Tip (chainActive st))) then None
  else
    match connect p c with
    | Connected c undo => st <- record_undo st p undo;; st <- UpdateTip st (Some p);; Some (TipOk st c)
    | Rejected corruptionPossible => st <- InvalidBlockFound st p corruptionPossible;; Some (TipInvalid corruptionPossible st)
    | SystemError c undo => st <- record_undo st p undo;; Some (TipError st c)
    end.
Definition DisconnectTip (st : ChainState) (c : Coins) : option (bool * ChainState * Coins) :=
  p <- Tip (chainActive st);; b <- cs_index st !! p;;
  let '(ok, c) := disconnect p c in
  if negb ok then Some (false, st, c) else st <- UpdateTip st (pprev b);; Some (true, st, c).

Fixpoint disconnect_to (fuel : nat) (pindexFork : option hash) (st : ChainState) (c : Coins) : option (bool * ChainState * Coins) :=
  match Tip (chainActive st) with
  | None => Some (true, st, c)
  | Some t =>
      if bool_decide (Some t = pindexFork) then Some (true, st, c)
      else
        match fuel with
        | O => None
        | S fuel =>
            r <- DisconnectTip st c;;
            let '(ok, st, c) := r in
            if ok : bool then disconnect_to fuel pindexFork st c else Some (false, st, c)
        end
  end.
(** The entries from [p] down to above [nHeight_], newest first. *)
Fixpoint blocks_down (fuel : nat) (st : ChainState) (p : option hash) (nHeight_ : Z) : option (list hash) :=
  match p with
  | None => Some []
  | Some q =>
      b <- cs_index st !! q;;
      if nHeight b =? nHeight_ then Some []
      else match fuel with O => None | S fuel => r <- blocks_down fuel st (pprev b) nHeight_;; Some (q :: r) end
  end.
Inductive BatchResult :=
| BatchDone (fContinue : bool) (st : ChainState) (c : Coins)
| BatchInvalid (st : ChainState) (c : Coins)
| BatchError (st : ChainState) (c : Coins).
(** Connect the blocks in order; [back] is [vpindexToConnect.back()]. *)
Fixpoint connect_batch (ps : list hash) (back : hash) (pindexOldTip : option hash) (st : ChainState) (c : Coins) : option BatchResult :=
  match ps with
  | [] => Some (BatchDone true st c)
  | p :: ps =>
      r <- ConnectTip st c p;;
      match r with
      | TipInvalid corruptionPossible st =>
          st <- (if corruptionPossible then Some st else InvalidChainFound st back);; Some (BatchInvalid st c)
      | TipError st c => Some (BatchError st c)
      | TipOk st c =>
          st <- PruneBlockIndexCandidates st;;
          t <- Tip (chainActive st);;
          if match pindexOldTip with None => true | Some o => more_work (cs_index st) t o end
          then Some (BatchDone false st c)
          else connect_batch ps back pindexOldTip st c
      end
  end.
(** The result of a step: what is returned, and whether an invalid block was found. *)
Record StepResult := mkStep { step_ok : bool; fInvalidFound : bool; step_st : ChainState; step_coins : Coins }.
(** Batches of at most 32 blocks; a batch has no more than that to walk. *)
Fixpoint connect_batches (fuel : nat) (pindexMostWork : hash) (nHeightMost nHeight_ : Z) (pindexOldTip : option hash) (st : ChainState) (c : Coins)
    : option StepResult :=
  if nHeight_ =? nHeightMost then Some (mkStep true false st c)
  else
    match fuel with
    | O => None
    | S fuel =>
        let nTargetHeight := Z.min (nHeight_ + 32) nHeightMost in
        p <- GetAncestor (cs_index st) pindexMostWork nTargetHeight;;
        vpindexToConnect <- blocks_down 32 st p nHeight_;;
        r <- connect_batch (rev vpindexToConnect) (List.last vpindexToConnect []) pindexOldTip st c;;
        match r with
        | BatchDone true st c => connect_batches fuel pindexMostWork nHeightMost nTargetHeight pindexOldTip st c
        | BatchDone false st c => Some (mkStep true false st c)
        | BatchInvalid st c => Some (mkStep true true st c)
        | BatchError st c => Some (mkStep false false st c)
        end
    end.
Definition ActivateBestChainStep (st : ChainState) (c : Coins) (pindexMostWork : hash) : option StepResult :=
  let pindexOldTip := Tip (chainActive st) in
  pindexFork <- FindFork (cs_index st) (chainActive st) (Some pindexMostWork);;
  r <- disconnect_to (length (chainActive st)) pindexFork st c;;
  let '(ok, st, c) := r in
  if negb ok then Some (mkStep false false st c)
  else
    bm <- cs_index st !! pindexMostWork;;
    h <- (match pindexFork with None => Some (-1) | Some f => bf <- cs_index st !! f;; Some (nHeight bf) end);;
    connect_batches (S (Z.to_nat (nHeight bm))) pindexMostWork (nHeight bm) h pindexOldTip st c.

(** The nested loops of [ActivateBestChain]: the state at the head of the inner one. *)
Record LoopState := mkLoop {
  starting_tip : option hash;
  pindexMostWork : option hash;
  blocks_connected : bool;
  loop_st : ChainState;
  loop_coins : Coins
}.
(** After the inner loop: return, or begin the outer loop again. *)
Definition outer_check (most : option hash) (connected : bool) (st : ChainState) (c : Coins) : LoopState + (bool * ChainState * Coins) :=
  if negb connected then inr (true, st, c)
  else if bool_decide (most = Tip (chainActive st)) then inr (true, st, c)
  else inl (mkLoop (Tip (chainActive st)) most false st c).
Definition abc_step (l : LoopState) : option (LoopState + (bool * ChainState * Coins)) :=
  r <- (match pindexMostWork l with
        | Some p => Some (Some p, loop_st l)
        | None => FindMostWorkChain (loop_st l)
        end);;
  let '(most, st) := r in
  match most with
  | None => Some (outer_check None (blocks_connected l) st (loop_coins l))
  | Some p =>
      if bool_decide (Some p = Tip (chainActive st)) then Some (outer_check most (blocks_connected l) st (loop_coins l))
      else
        r <- ActivateBestChainStep st (loop_coins l) p;;
        let '(mkStep ok fInvalidFound st c) := r in
        if negb ok then Some (inr (false, st, c))
        else
          let most := if fInvalidFound then None else most in
          if match Tip (chainActive st) with
             | None => true
             | Some t => match starting_tip l with Some s => work_lt (cs_index st) t s | None => false end
             end
          then Some (inl (mkLoop (starting_tip l) most true st c))
          else Some (outer_check most true st c)
  end.
Fixpoint abc_loop (fuel : nat) (l : LoopState) : option (bool * ChainState * Coins) :=
  match fuel with
  | O => None
  | S fuel => r <- abc_step l;; match r with inl l => abc_loop fuel l | inr r => Some r end
  end.
Definition ActivateBestChain (fuel : nat) (st : ChainState) (c : Coins) : option (bool * ChainState * Coins) :=
  abc_loop fuel (mkLoop (Tip (chainActive st)) None false st c).

(** * Marking blocks by hand *)

(** Disconnect until the block is off the chain. *)
Fixpoint invalidate_loop (fuel : nat) (p : hash) (st : ChainState) (c : Coins) : option (bool * ChainState * Coins) :=
  in_chain <- Contains (cs_index st) (chainActive st) p;;
  if negb in_chain then Some (true, st, c)
  else
    match fuel with
    | O => None
    | S fuel =>
        t <- Tip (chainActive st);;
        let st := erase_candidate (mark_dirty (add_status st t BLOCK_FAILED_CHILD) t) t in
        r <- DisconnectTip st c;;
        let '(ok, st, c) := r in
        if ok : bool then invalidate_loop fuel p st c else Some (false, st, c)
    end.
(** The blocks that are not worse than the tip become candidates again. *)
Definition candidate_again (idx : BlockMap) (tip q : hash) : bool :=
  match idx !! q with
  | Some b => match ix_IsValid b BLOCK_VALID_TRANSACTIONS with
              | Some v => v && negb (nChainTx b =? 0) && negb (work_lt idx q tip)
              | None => false
              end
  | None => false
  end.
Definition InvalidateBlock (p : hash) (st : ChainState) (c : Coins) : option (bool * ChainState * Coins) :=
  let st := erase_candidate (mark_dirty (add_status st p BLOCK_FAILED_VALID) p) p in
  r <- invalidate_loop (length (chainActive st)) p st c;;
  let '(ok, st, c) := r in
  if negb ok then Some (false, st, c)
  else
    tip <- Tip (chainActive st);;
    let again := filter (fun q => candidate_again (cs_index st) tip q = true) (dom (cs_index st)) in
    st <- InvalidChainFound (with_candidates st (setBlockIndexCandidates st ∪ again)) p;;
    Some (true, st, c).

Definition clear_failed (b : CBlockIndex) : CBlockIndex := with_status b (Z.land (nStatus b) (Z.lxor 0xffffffff BLOCK_FAILED_MASK)).
(** One entry of [mapBlockIndex]; [tip] is the tip of the chain. *)
Definition reconsider_entry (p : hash) (nHeight_ : Z) (tip : hash) (st : ChainState) (q : hash) : option ChainState :=
  b <- cs_index st !! q;;
  v <- ix_IsValid b BLOCK_VALID_TRANSACTIONS;;
  a <- GetAncestor (cs_index st) q nHeight_;;
  if negb v && bool_decide (a = Some p) then
    let st := mark_dirty (with_index st (<[q := clear_failed b]> (cs_index st))) q in
    v <- ix_IsValid (clear_failed b) BLOCK_VALID_TRANSACTIONS;;
    let st := if v && negb (nChainTx b =? 0) && work_lt (cs_index st) tip q then with_candidates st ({[q]} ∪ setBlockIndexCandidates st) else st in
    Some (if bool_decide (Some q = pindexBestInvalid st) then with_invalid st None else st)
  else Some st.
Fixpoint reconsider_all (p : hash) (nHeight_ : Z) (tip : hash) (qs : list hash) (st : ChainState) : option ChainState :=
  match qs with
  | [] => Some st
  | q :: qs => st <- reconsider_entry p nHeight_ tip st q;; reconsider_all p nHeight_ tip qs st
  end.
Fixpoint reconsider_up (fuel : nat) (p : option hash) (st : ChainState) : option ChainState :=
  match p with
  | None => Some st
  | Some q =>
      b <- cs_index st !! q;;
      let st := if is_failed b then mark_dirty (with_index st (<[q := clear_failed b]> (cs_index st))) q else st in
      match fuel with O => None | S fuel => reconsider_up fuel (pprev b) st end
  end.
Definition ReconsiderBlock (p : hash) (st : ChainState) : option ChainState :=
  b <- cs_index st !! p;; tip <- Tip (chainActive st);;
  st <- reconsider_all p (nHeight b) tip (elements (dom (cs_index st))) st;;
  reconsider_up (S (Z.to_nat (nHeight b))) (Some p) st.
End Select.
Arguments Connected {_} _ _.
Arguments Rejected {_} _.
Arguments SystemError {_} _ _.

(** * Entries up to their status and undo data *)

Definition strip (b : CBlockIndex) : CBlockIndex :=
  mkIndexEntry (pprev b) (pskip b) (nHeight b) (nFile b) (nDataPos b) 0 (nChainWork b) (nTx b) (nChainTx b) 0
    (vStakeModifier b) (nFlags b) (nSaplingValue b) (nChainSaplingValue b) (ix_header b) (nSequenceId b) (nTimeMax b).
(** Two indices with the same entries but for the status and the undo data. *)
Definition same_tree (idx idx' : BlockMap) : Prop := strip <$> idx = strip <$> idx'.

#[export] Instance same_tree_equiv : Equivalence same_tree.
Proof. split; unfold same_tree; [done| |]; intros ?; intros; congruence. Qed.
Lemma same_tree_lookup idx idx' p b : same_tree idx idx' -> idx !! p = Some b -> exists b', idx' !! p = Some b' /\ strip b = strip b'.
Proof.
  intros S E. apply (f_equal (lookup p)) in S. rewrite !lookup_fmap, E in S. cbn in S. symmetry in S.
  apply fmap_Some in S as (b' & -> & S). eauto.
Qed.
Lemma same_tree_alter idx p (f : CBlockIndex -> CBlockIndex) : (forall b, strip (f b) = strip b) -> same_tree idx (alter f p idx).
Proof.
  intros F. unfold same_tree. apply map_eq. intros q. rewrite !lookup_fmap. destruct (decide (q = p)) as [->|N].
  - rewrite lookup_alter_eq. destruct (idx !! p); cbn; [by rewrite F|done].
  - by rewrite lookup_alter_ne.
Qed.
Lemma strip_fields b b' : strip b = strip b' ->
  pprev b = pprev b' /\ pskip b = pskip b' /\ nHeight b = nHeight b' /\ nChainWork b = nChainWork b' /\ nChainTx b = nChainTx b' /\
  nSequenceId b = nSequenceId b' /\ nTimeMax b = nTimeMax b' /\ ix_header b = ix_header b' /\ nTx b = nTx b'.
Proof. unfold strip. intros [=]. done. Qed.

(** The place of an entry in the tree; two indices with the same tree. *)
Definition shape (b : CBlockIndex) := (pprev b, pskip b, nHeight b, nChainWork b, nTimeMax b, ix_header b).
Definition same_shape (idx idx' : BlockMap) : Prop := shape <$> idx = shape <$> idx'.
#[export] Instance same_shape_equiv : Equivalence same_shape.
Proof. split; unfold same_shape; [done| |]; intros ?; intros; congruence. Qed.
Lemma same_tree_shape idx idx' : same_tree idx idx' -> same_shape idx idx'.
Proof.
  intros S. apply map_eq. intros p. apply (f_equal (lookup p)) in S. rewrite !lookup_fmap in *.
  destruct (idx !! p) as [b|], (idx' !! p) as [b'|]; cbn [fmap option_fmap option_map] in *; try done.
  apply (inj Some), strip_fields in S as (F1 & F2 & F3 & F4 & _ & _ & F7 & F8 & _). unfold shape. congruence.
Qed.
Lemma same_shape_lookup idx idx' p b : same_shape idx idx' -> idx !! p = Some b ->
  exists b', idx' !! p = Some b' /\ pprev b = pprev b' /\ pskip b = pskip b' /\ nHeight b = nHeight b' /\ nChainWork b = nChainWork b' /\
    nTimeMax b = nTimeMax b' /\ ix_header b = ix_header b'.
Proof.
  intros S E. apply (f_equal (lookup p)) in S. rewrite !lookup_fmap, E in S. cbn in S. symmetry in S.
  apply fmap_Some in S as (b' & -> & S). unfold shape in S. exists b'. split; [done|]. by injection S as -> -> -> -> -> ->.
Qed.
Lemma lineage_shape idx idx' p l : same_shape idx idx' -> lineage idx p l -> lineage idx' p l.
Proof.
  intros S H. induction H as [p b E P|p b q l E P H IH]; destruct (same_shape_lookup _ _ _ _ S E) as (b' & E' & F & _);
    [eapply lineage_root|eapply lineage_step]; eauto; congruence.
Qed.
Lemma index_ok_shape idx idx' : same_shape idx idx' -> index_ok idx -> index_ok idx'.
Proof.
  intros S Hi p b' E'. symmetry in S. destruct (same_shape_lookup _ _ _ _ S E') as (b & E & F1 & F2 & F3 & _ & F7 & F8). symmetry in S.
  specialize (Hi _ _ E). unfold links_ok in *. rewrite F1. destruct (pprev b) as [q|].
  - destruct Hi as (bq & l & Eq & H1 & H2 & H3 & H4). destruct (same_shape_lookup _ _ _ _ S Eq) as (bq' & Eq' & _ & _ & G3 & _ & G7 & _).
    exists bq', l. split; [done|]. split; [congruence|]. split; [by apply (lineage_shape idx)|]. unfold ix_nTime in *. split; congruence.
  - unfold ix_nTime in *. destruct Hi as (H1 & H2 & H3). split; [congruence|]. split; congruence.
Qed.
Lemma lineage_same idx idx' p l : same_tree idx idx' -> lineage idx p l -> lineage idx' p l.
Proof. intros S. by apply lineage_shape, same_tree_shape. Qed.
Lemma index_ok_same idx idx' : same_tree idx idx' -> index_ok idx -> index_ok idx'.
Proof. intros S. by apply index_ok_shape, same_tree_shape. Qed.

(** * The order of work *)

Section Order.
Variable addr : hash -> Z.
Abbreviation W b := (val WIDTH256 (nChainWork b)).

Definition work_ok (idx : BlockMap) : Prop := forall p b, idx !! p = Some b -> wf WIDTH256 (nChainWork b).
Lemma work_ok_shape idx idx' : same_shape idx idx' -> work_ok idx -> work_ok idx'.
Proof.
  intros S H p b E. symmetry in S. destruct (same_shape_lookup _ _ _ _ S E) as (b' & E' & _ & _ & _ & F & _). rewrite F. eauto.
Qed.
Lemma work_ok_same idx idx' : same_tree idx idx' -> work_ok idx -> work_ok idx'.
Proof. intros S. by apply work_ok_shape, same_tree_shape. Qed.
Lemma work_lt_same idx idx' p q : same_tree idx idx' -> work_lt addr idx p q = work_lt addr idx' p q.
Proof.
  intros S. unfold work_lt. pose proof (f_equal (lookup p) S) as Sp. pose proof (f_equal (lookup q) S) as Sq. rewrite !lookup_fmap in Sp, Sq.
  destruct (idx !! p) as [a|], (idx' !! p) as [a'|], (idx !! q) as [b|], (idx' !! q) as [b'|]; cbn [fmap option_fmap option_map] in *; try done.
  apply (inj Some), strip_fields in Sp as (_ & _ & _ & -> & _ & -> & _). apply (inj Some), strip_fields in Sq as (_ & _ & _ & -> & _ & -> & _). done.
Qed.
Lemma more_work_same idx idx' p q : same_tree idx idx' -> more_work idx p q = more_work idx' p q.
Proof.
  intros S. unfold more_work. pose proof (f_equal (lookup p) S) as Sp. pose proof (f_equal (lookup q) S) as Sq. rewrite !lookup_fmap in Sp, Sq.
  destruct (idx !! p) as [a|], (idx' !! p) as [a'|], (idx !! q) as [b|], (idx' !! q) as [b'|]; cbn [fmap option_fmap option_map] in *; try done.
  apply (inj Some), strip_fields in Sp as (_ & _ & _ & -> & _). apply (inj Some), strip_fields in Sq as (_ & _ & _ & -> & _). done.
Qed.

(** The comparator, as a lexicographic order. *)
Definition key_lt (pa pb : hash) (a b : CBlockIndex) : Prop :=
  W a < W b \/ (W a = W b /\ (nSequenceId b < nSequenceId a \/ (nSequenceId a = nSequenceId b /\ addr pb < addr pa))).
Lemma work_lt_spec idx pa pb a b : work_ok idx -> idx !! pa = Some a -> idx !! pb = Some b -> work_lt addr idx pa pb = true <-> key_lt pa pb a b.
Proof.
  intros Hw Ea Eb. pose proof (Hw _ _ Ea) as Wa. pose proof (Hw _ _ Eb) as Wb. unfold work_lt, key_lt. rewrite Ea, Eb.
  rewrite base_uint_gt_spec, base_uint_lt_spec by done.
  destruct (Z.ltb_spec (W b) (W a)); [split; [done|lia]|]. destruct (Z.ltb_spec (W a) (W b)); [split; [lia|done]|].
  destruct (Z.ltb_spec (nSequenceId a) (nSequenceId b)); [split; [done|lia]|]. destruct (Z.gtb_spec (nSequenceId a) (nSequenceId b)); [split; [lia|done]|].
  destruct (Z.ltb_spec (addr pa) (addr pb)); [split; [done|lia]|]. destruct (Z.gtb_spec (addr pa) (addr pb)); split; (done || lia).
Qed.
Lemma work_lt_false idx pa pb a b : work_ok idx -> idx !! pa = Some a -> idx !! pb = Some b -> work_lt addr idx pa pb = false <-> ~ key_lt pa pb a b.
Proof. intros Hw Ea Eb. rewrite <- (work_lt_spec idx pa pb a b Hw Ea Eb). destruct (work_lt addr idx pa pb); split; intuition congruence. Qed.
(** Not worse is transitive. *)
Lemma work_le_trans idx p q r : work_ok idx -> is_Some (idx !! p) -> is_Some (idx !! q) -> is_Some (idx !! r) ->
  work_lt addr idx p q = false -> work_lt addr idx q r = false -> work_lt addr idx p r = false.
Proof.
  intros Hw [a Ea] [b Eb] [c Ec]. rewrite (work_lt_false idx p q a b), (work_lt_false idx q r b c), (work_lt_false idx p r a c) by done.
  unfold key_lt. lia.
Qed.
Lemma work_lt_irrefl idx p : work_ok idx -> work_lt addr idx p p = false.
Proof.
  intros Hw. destruct (idx !! p) as [b|] eqn:E; [|unfold work_lt; by rewrite E]. rewrite (work_lt_false idx p p b b) by done. unfold key_lt. lia.
Qed.
Lemma work_lt_asym idx p q : work_ok idx -> is_Some (idx !! p) -> is_Some (idx !! q) -> work_lt addr idx p q = true -> work_lt addr idx q p = false.
Proof. intros Hw [a Ea] [b Eb]. rewrite (work_lt_spec idx p q a b), (work_lt_false idx q p b a) by done. unfold key_lt. lia. Qed.

(** The last element of the set is one that no other beats. *)
Lemma last_of_max idx l m : work_ok idx -> (forall p, p ∈ l -> is_Some (idx !! p)) -> last_of addr idx l = Some m ->
  m ∈ l /\ forall p, p ∈ l -> work_lt addr idx m p = false.
Proof.
  intros Hw Hd. destruct l as [|x l]; [done|]. cbn. intros [= <-].
  assert (G : forall l x, is_Some (idx !! x) -> (forall p, p ∈ l -> is_Some (idx !! p)) ->
    let m := fold_left (fun m y => if work_lt addr idx m y then y else m) l x in
    m ∈ x :: l /\ forall p, p ∈ x :: l -> work_lt addr idx m p = false).
  { clear x l Hd. induction l as [|y l IH]; intros x Hx Hl; cbn [fold_left].
    - split; [left|]. intros p ->%list_elem_of_singleton. by apply work_lt_irrefl.
    - destruct (work_lt addr idx x y) eqn:C.
      + destruct (IH y) as [I1 I2]; [apply Hl; left|intros p Hp; apply Hl; by right|]. split; [by right|].
        intros p [->|Hp]%elem_of_cons; [|by apply I2].
        eapply (work_le_trans idx _ y x); try done; [|apply Hl; left|apply I2; left|apply work_lt_asym; try done; apply Hl; left].
        apply elem_of_cons in I1 as [-> |I1]; apply Hl; [left|by right].
      + destruct (IH x) as [I1 I2]; [done|intros p Hp; apply Hl; by right|].
        split; [apply elem_of_cons in I1 as [E|I1]; [rewrite E; left|right; by right]|].
        intros p [->|[->|Hp]%elem_of_cons]%elem_of_cons; [apply I2; left| |apply I2; by right].
        eapply (work_le_trans idx _ x y); try done; [|apply Hl; left|apply I2; left].
        apply elem_of_cons in I1 as [->|I1]; [done|apply Hl; by right]. }
  apply G; [apply Hd; left|intros p Hp; apply Hd; by right].
Qed.
Lemma last_of_none idx l : last_of addr idx l = None -> l = [].
Proof. by destruct l. Qed.
End Order.

(** * What a usable block is *)

Definition good (b : CBlockIndex) : Prop := is_failed b = false /\ has_data b = true.
#[export] Instance good_dec b : Decision (good b).
Proof. unfold good. apply _. Defined.
(** Every block up to [p] has its data and is not marked as failed. *)
Definition good_path (idx : BlockMap) (p : hash) : Prop :=
  exists l, lineage idx p l /\ forall q b, q ∈ l -> idx !! q = Some b -> good b.
(** The transactions of every block up to [p] have been received. *)
Definition linked (idx : BlockMap) (p : hash) : Prop :=
  forall l q b, lineage idx p l -> q ∈ l -> idx !! q = Some b -> nChainTx b <> 0 \/ nHeight b = 0.
(** Well-formed, with one root, and more work in every block than in its parent. *)
Record tree_ok (g : hash) (idx : BlockMap) : Prop := {
  to_index : index_ok idx;
  to_work : work_ok idx;
  to_grow : forall p b q bq, idx !! p = Some b -> pprev b = Some q -> idx !! q = Some bq ->
            val WIDTH256 (nChainWork bq) < val WIDTH256 (nChainWork b);
  to_root : forall p l, lineage idx p l -> l !! O = Some g
}.
(** The blocks that are not marked. *)
Definition unfailed (idx : BlockMap) : gset hash := dom (filter (fun kb => is_failed kb.2 = false) idx).

Lemma tree_ok_shape g idx idx' : same_shape idx idx' -> tree_ok g idx -> tree_ok g idx'.
Proof.
  intros S [T1 T2 T3 T4]. split; [by eapply index_ok_shape|by eapply work_ok_shape| |].
  - intros p b q bq E P Eq. symmetry in S. destruct (same_shape_lookup _ _ _ _ S E) as (b' & E' & F1 & _ & _ & F4 & _).
    destruct (same_shape_lookup _ _ _ _ S Eq) as (bq' & Eq' & _ & _ & _ & G4 & _). rewrite F4, G4. eapply T3; eauto. congruence.
  - intros p l H. apply (T4 p). eapply lineage_shape; [symmetry|]; eauto.
Qed.
Lemma tree_ok_same g idx idx' : same_tree idx idx' -> tree_ok g idx -> tree_ok g idx'.
Proof. intros S. by apply tree_ok_shape, same_tree_shape. Qed.
Lemma linked_same idx idx' p : same_tree idx idx' -> linked idx p -> linked idx' p.
Proof.
  intros S L l q b' H Hq E'. symmetry in S. destruct (same_tree_lookup _ _ _ _ S E') as (b & E & F).
  apply strip_fields in F as (_ & _ & F3 & _ & F5 & _). rewrite F3, F5. eapply L; eauto. by eapply lineage_same.
Qed.

(** Marks are only added. *)
Definition marks_grow (idx idx' : BlockMap) : Prop :=
  same_tree idx idx' /\ forall p b b', idx !! p = Some b -> idx' !! p = Some b' -> (is_failed b = true -> is_failed b' = true) /\ has_data b' = has_data b.
#[export] Instance marks_grow_po : PreOrder marks_grow.
Proof.
  split; [intros x; split; [done|]; intros; by simplify_eq|].
  intros x y z [S1 G1] [S2 G2]. split; [by etrans|]. intros p b b' E E'. destruct (same_tree_lookup _ _ _ _ S1 E) as (c & Ec & _).
  destruct (G1 _ _ _ E Ec), (G2 _ _ _ Ec E'). split; [auto|congruence].
Qed.
Lemma good_path_shrinks idx idx' p : marks_grow idx idx' -> good_path idx' p -> good_path idx p.
Proof.
  intros [S G] (l & H & Hg). exists l. split; [eapply lineage_same; [symmetry|]; eauto|]. intros q b Hq E.
  destruct (same_tree_lookup _ _ _ _ S E) as (b' & E' & _). destruct (Hg _ _ Hq E') as [G1 G2]. destruct (G _ _ _ E E') as [G3 G4].
  split; [destruct (is_failed b); [rewrite G3 in G1 by done|]; done|congruence].
Qed.
Lemma unfailed_elem idx p : p ∈ unfailed idx <-> exists b, idx !! p = Some b /\ is_failed b = false.
Proof.
  unfold unfailed. rewrite elem_of_dom. split.
  - intros [b Hb]. apply map_lookup_filter_Some in Hb as [E F]. eauto.
  - intros (b & E & F). exists b. by apply map_lookup_filter_Some.
Qed.
Lemma unfailed_shrinks idx idx' : marks_grow idx idx' -> unfailed idx' ⊆ unfailed idx.
Proof.
  intros [S G] p. rewrite !unfailed_elem. intros (b' & E' & F). symmetry in S. destruct (same_tree_lookup _ _ _ _ S E') as (b & E & _).
  exists b. split; [done|]. destruct (is_failed b) eqn:Fb; [|done]. destruct (G _ _ _ E E') as [G1 _]. rewrite G1 in F; done.
Qed.

Lemma is_failed_lor b f : is_failed (with_status b (Z.lor (nStatus b) f)) = is_failed b || negb (Z.land f BLOCK_FAILED_MASK =? 0).
Proof.
  unfold is_failed. cbn [nStatus with_status]. rewrite Z.land_lor_distr_l.
  destruct (Z.eqb_spec (Z.land (nStatus b) BLOCK_FAILED_MASK) 0) as [->|N], (Z.eqb_spec (Z.land f BLOCK_FAILED_MASK) 0) as [->|M]; cbn [negb orb].
  - done.
  - rewrite Z.lor_0_l. by destruct (Z.eqb_spec (Z.land f BLOCK_FAILED_MASK) 0).
  - rewrite Z.lor_0_r. by destruct (Z.eqb_spec (Z.land (nStatus b) BLOCK_FAILED_MASK) 0).
  - destruct (Z.eqb_spec (Z.lor (Z.land (nStatus b) BLOCK_FAILED_MASK) (Z.land f BLOCK_FAILED_MASK)) 0) as [E|]; [|done].
    apply Z.lor_eq_0_iff in E. lia.
Qed.
Lemma has_data_lor b f : Z.land f BLOCK_HAVE_DATA = 0 -> has_data (with_status b (Z.lor (nStatus b) f)) = has_data b.
Proof. intros F. unfold has_data. cbn [nStatus with_status]. by rewrite Z.land_lor_distr_l, F, Z.lor_0_r. Qed.
(** Setting a failure mark. *)
Lemma add_status_grows st p f : Z.land f BLOCK_HAVE_DATA = 0 -> marks_grow (cs_index st) (cs_index (add_status st p f)).
Proof.
  intros F. split; [by apply same_tree_alter|]. intros q b b' E E'. cbn in E'. destruct (decide (q = p)) as [->|N].
  - rewrite lookup_alter_eq, E in E'. cbn in E'. simplify_eq. rewrite is_failed_lor, has_data_lor by done. split; [by intros ->|done].
  - rewrite lookup_alter_ne in E' by done. by simplify_eq.
Qed.

(** Raising the validity changes neither the marks nor what is stored. *)
Definition validity (b : CBlockIndex) : Z := Z.land (nStatus b) BLOCK_VALID_MASK.
Lemma land_below s x m : Z.land x m = 0 -> Z.land (Z.lxor 0xffffffff BLOCK_VALID_MASK) m = m ->
  Z.land (Z.lor (Z.land s (Z.lxor 0xffffffff BLOCK_VALID_MASK)) x) m = Z.land s m.
Proof. intros D E. by rewrite Z.land_lor_distr_l, D, Z.lor_0_r, <- Z.land_assoc, E. Qed.
Lemma valid_level n : 0 <= n <= 7 -> Z.land n (Z.lxor 0xffffffff BLOCK_VALID_MASK) = 0 /\ Z.land n BLOCK_FAILED_MASK = 0 /\ Z.land n BLOCK_HAVE_DATA = 0 /\
  Z.land n BLOCK_VALID_MASK = n.
Proof.
  intros H. assert (C : n = 0 \/ n = 1 \/ n = 2 \/ n = 3 \/ n = 4 \/ n = 5 \/ n = 6 \/ n = 7) by lia.
  by repeat destruct C as [->|C]; subst.
Qed.
Lemma RaiseValidity_marks b n : 0 <= n <= 7 -> exists r b', RaiseValidity b n = Some (r, b') /\
  strip b' = strip b /\ is_failed b' = is_failed b /\ has_data b' = has_data b /\ validity b <= validity b'.
Proof.
  intros Hn. destruct (valid_level n Hn) as (L1 & L2 & L3 & L4). unfold RaiseValidity. rewrite L1. cbn [Z.eqb negb].
  destruct (negb (Z.land (nStatus b) BLOCK_FAILED_MASK =? 0)) eqn:F; [eexists _, b; done|].
  destruct (Z.ltb_spec (Z.land (nStatus b) BLOCK_VALID_MASK) n) as [V|V]; [|eexists _, b; done]. do 2 eexists. split; [reflexivity|]. split; [done|].
  unfold is_failed, has_data, validity. cbn [nStatus with_status]. rewrite !(land_below (nStatus b)) by done.
  split; [done|]. split; [done|]. rewrite Z.land_lor_distr_l, L4, <- Z.land_assoc.
  change (Z.land (Z.lxor 0xffffffff BLOCK_VALID_MASK) BLOCK_VALID_MASK) with 0. rewrite Z.land_0_r, Z.lor_0_l. lia.
Qed.
Lemma ix_IsValid_level b n : 0 <= n <= 7 -> ix_IsValid b n = Some (negb (is_failed b) && (validity b >=? n)).
Proof.
  intros Hn. destruct (valid_level n Hn) as (L1 & _). unfold ix_IsValid. rewrite L1. cbn [Z.eqb negb]. unfold is_failed, validity.
  by destruct (Z.land (nStatus b) BLOCK_FAILED_MASK =? 0).
Qed.
Lemma Tip_path (l : list hash) : Tip (Some <$> l) = last l.
Proof.
  unfold Tip, Height. rewrite chain_at_path, length_fmap, last_lookup. destruct (Z.ltb_spec (Z.of_nat (length l) - 1) 0).
  - destruct l; [done|cbn in *; lia].
  - f_equal. lia.
Qed.

(** * Finding the most work *)

Section Find.
Variable addr : hash -> Z.
Variable g : hash.

(** The invariant of the selection, with the active chain [l]. *)
Record select_inv (st : ChainState) (l : list hash) : Prop := {
  si_tree : tree_ok g (cs_index st);
  si_active : chainActive st = Some <$> l;
  si_path : exists t, lineage (cs_index st) t l /\ linked (cs_index st) t;
  si_good : forall q b, q ∈ l -> cs_index st !! q = Some b -> good b;
  si_cands : forall p, p ∈ setBlockIndexCandidates st -> is_Some (cs_index st !! p) /\ linked (cs_index st) p
}.

Lemma test_chain_spec st l p lp n q fuel : select_inv st l -> lineage (cs_index st) p lp -> linked (cs_index st) p ->
  lp !! n = Some q -> (n < fuel)%nat ->
  exists r, test_chain fuel st (Some q) = Some r /\
    match r with
    | WalkOk => forall i x b, (i <= n)%nat -> lp !! i = Some x -> cs_index st !! x = Some b -> good b
    | WalkFailed t f => exists i b, (i <= n)%nat /\ lp !! i = Some t /\ cs_index st !! t = Some b /\ f = is_failed b /\ ~ good b
    end.
Proof.
  intros Inv H L. pose proof (to_index _ _ (si_tree _ _ Inv)) as Hidx.
  revert q fuel. induction n as [|n IH]; intros q fuel Lq F; (destruct fuel as [|fuel]; [lia|]); cbn [test_chain];
    destruct (lineage_at _ Hidx _ _ _ _ H Lq) as (b & E & Hh & P); rewrite E; cbn [obind]; rewrite (si_active _ _ Inv), Hh, chain_at_nat.
  all: case_bool_decide as C; [exists WalkOk; split; [done|]; intros i x bx Hi Lx Ex; destruct (si_path _ _ Inv) as (t & Ht & _);
    apply (si_good _ _ Inv x); [|done]; apply (list_elem_of_lookup_2 l i);
    rewrite (path_agree (cs_index st) p lp l _ q i H (or_intror (ex_intro _ t Ht)) Lq C Hi); done|].
  all: assert (A : (nChainTx b =? 0) && negb (Z.of_nat _ =? 0) = false)
    by (destruct (L lp q b H (list_elem_of_lookup_2 _ _ _ Lq) E) as [N|N];
        [destruct (Z.eqb_spec (nChainTx b) 0); done|rewrite Hh in N; destruct (Z.eqb_spec (nChainTx b) 0); [|done]; cbn [andb]; rewrite N; done]);
    rewrite A; destruct (is_failed b || negb (has_data b)) eqn:D;
    [eexists; split; [done|]; eexists _, b; split; [reflexivity|]; split; [done|]; split; [done|]; split; [done|]; intros [G1 G2]; rewrite G1, G2 in D; done|].
  all: assert (Gb : good b) by (apply orb_false_iff in D as [D1 D2]; split; [done|by apply negb_false_iff in D2]).
  - rewrite P. exists WalkOk. split; [by destruct fuel|]. intros i x bx Hi Lx Ex. replace i with O in Lx by lia. by simplify_eq.
  - destruct P as [P [x Hx]]. rewrite P, Hx. destruct (IH x fuel Hx ltac:(lia)) as (r & R & Hr). exists r. split; [done|].
    destruct r as [|t f].
    + intros i y by' Hi Ly Ey. destruct (decide (i = S n)) as [->|]; [by simplify_eq|]. apply (Hr i y); [lia|done|done].
    + destruct Hr as (i & bi & Hi & R'). exists i, bi. split; [lia|done].
Qed.

(** The blocks between [t] and [x] leave the candidates, and are marked when [t] has failed. *)
Definition between (lp : list hash) (i n : nat) (q : hash) : Prop := exists j, (i < j <= n)%nat /\ lp !! j = Some q.
Record removed (lp : list hash) (i n : nat) (st st' : ChainState) : Prop := {
  rm_marks : marks_grow (cs_index st) (cs_index st');
  rm_others : forall q b, ~ between lp i n q -> cs_index st !! q = Some b -> cs_index st' !! q = Some b;
  rm_chain : chainActive st' = chainActive st;
  rm_cands : forall q, q ∈ setBlockIndexCandidates st' <-> q ∈ setBlockIndexCandidates st /\ ~ between lp i n q
}.
Lemma remove_chain_spec lp p i t f n x fuel st : index_ok (cs_index st) -> lineage (cs_index st) p lp ->
  lp !! i = Some t -> lp !! n = Some x -> (i <= n)%nat -> (n - i < fuel)%nat ->
  exists st', remove_chain fuel t f x st = Some st' /\ removed lp i n st st'.
Proof.
  revert n x st. induction fuel as [|fuel IH]; intros n x st Hidx H Li Ln Hi F; [lia|]. cbn [remove_chain].
  destruct (decide (t = x)) as [->|D].
  { assert (i = n) as -> by (eapply NoDup_lookup; [eapply lineage_NoDup|..]; eauto).
    exists st. split; [done|]. split; [done|done|done|]. intros q. split; [intros Hq; split; [done|]; intros (j & Hj & _); lia|by intros []]. }
  assert (Hlt : (i < n)%nat) by (destruct (decide (i = n)) as [->|]; [congruence|lia]).
  destruct n as [|n]; [lia|]. destruct (lineage_at _ Hidx _ _ _ _ H Ln) as (b & E & Hh & P & [q Hq]).
  rewrite E. cbn [obind]. rewrite P, Hq. cbn [obind].
  set (st1 := if f then add_status st x BLOCK_FAILED_CHILD else with_unlinked st (mapBlocksUnlinked st ++ [(q, x)])).
  assert (M1 : marks_grow (cs_index st) (cs_index st1)) by (unfold st1; destruct f; [by apply add_status_grows|done]).
  destruct (IH n q (erase_candidate st1 x)) as (st' & R & [R1 R2 R3 R4]); [| |done|done|lia|lia|].
  { eapply index_ok_same; [apply M1|done]. } { eapply lineage_same; [apply M1|done]. }
  exists st'. split; [done|]. split.
  - by etrans.
  - intros y by' Ny Ey. assert (Nx : y <> x) by (intros ->; apply Ny; exists (S n); split; [lia|done]).
    apply R2; [intros (j & Hj & Lj); apply Ny; exists j; split; [lia|done]|].
    unfold st1. destruct f; cbn; [by rewrite lookup_alter_ne|done].
  - rewrite R3. unfold st1. by destruct f.
  - intros y. rewrite R4. unfold erase_candidate, st1. assert (C : forall s, setBlockIndexCandidates (if f then add_status st x BLOCK_FAILED_CHILD else s) = setBlockIndexCandidates (if f then st else s)) by (by destruct f).
    cbn [setBlockIndexCandidates with_candidates]. rewrite C. assert (C2 : setBlockIndexCandidates (if f then st else with_unlinked st (mapBlocksUnlinked st ++ [(q, x)])) = setBlockIndexCandidates st) by (by destruct f).
    rewrite C2, elem_of_difference, elem_of_singleton. split.
    + intros [[H1 H2] H3]. split; [done|]. intros (j & Hj & Lj). destruct (decide (j = S n)) as [->|]; [congruence|]. apply H3. exists j. split; [lia|done].
    + intros [H1 H2]. split; [split; [done|]|]; [intros ->; apply H2; exists (S n); split; [lia|done]|].
      intros (j & Hj & Lj). apply H2. exists j. split; [lia|done].
Qed.

Lemma good_path_kept lp p i n t bt st st' p' : removed lp i n st st' -> lineage (cs_index st) p lp ->
  lp !! i = Some t -> cs_index st !! t = Some bt -> ~ good bt -> good_path (cs_index st) p' -> good_path (cs_index st') p'.
Proof.
  intros [[Sm _] R2 _ _] H Li Et Bt (l' & H' & G). exists l'. split; [by eapply lineage_same|]. intros q b' Hq E'.
  destruct (lineage_elem _ _ _ _ H' Hq) as [b E]. enough (~ between lp i n q) as Nb by (rewrite (R2 _ _ Nb E) in E'; simplify_eq; eauto).
  intros (j & Hj & Lj). apply list_elem_of_lookup in Hq as [k Lk].
  pose proof (lineage_functional _ _ _ _ (lineage_prefix _ _ _ _ _ H Lj) (lineage_prefix _ _ _ _ _ H' Lk)) as T.
  assert (Lt : take (S k) l' !! i = Some t) by (rewrite <- T, lookup_take_lt by lia; done).
  apply lookup_take_Some in Lt as [Lt _]. apply Bt, (G t); [by eapply list_elem_of_lookup_2|done].
Qed.

(** What the search does to the state, and what it returns. *)
Record found (st : ChainState) (r : option hash) (st' : ChainState) : Prop := {
  fo_marks : marks_grow (cs_index st) (cs_index st');
  fo_good : forall p, good_path (cs_index st) p -> good_path (cs_index st') p;
  fo_chain : chainActive st' = chainActive st;
  fo_cands : setBlockIndexCandidates st' ⊆ setBlockIndexCandidates st;
  fo_kept : forall p, p ∈ setBlockIndexCandidates st -> good_path (cs_index st) p -> p ∈ setBlockIndexCandidates st';
  fo_result : match r with
              | None => setBlockIndexCandidates st' = ∅
              | Some p => p ∈ setBlockIndexCandidates st' /\ good_path (cs_index st') p /\
                          forall q, q ∈ setBlockIndexCandidates st' -> work_lt addr (cs_index st') p q = false
              end
}.
(** The invariant survives marks that leave good paths good, and fewer candidates. *)
Lemma select_inv_shrink st st' l : select_inv st l -> marks_grow (cs_index st) (cs_index st') ->
  (forall p, good_path (cs_index st) p -> good_path (cs_index st') p) -> chainActive st' = chainActive st ->
  setBlockIndexCandidates st' ⊆ setBlockIndexCandidates st -> select_inv st' l.
Proof.
  intros [I1 I2 (t & I3 & IL) I4 I5] [S M] G C Sub. split.
  - by eapply tree_ok_same.
  - congruence.
  - exists t. split; [by eapply lineage_same|by eapply linked_same].
  - destruct (G t) as (l' & H' & G'); [by exists l|]. by rewrite <- (lineage_functional _ _ _ _ H' (lineage_same _ _ _ _ S I3)).
  - intros p Hp. destruct (I5 p (Sub _ Hp)) as [[b E] L]. destruct (same_tree_lookup _ _ _ _ S E) as (b' & E' & _).
    split; [eauto|by eapply linked_same].
Qed.
(** The best candidate and the walk from it to the active chain. *)
Lemma best_candidate st l : select_inv st l ->
  match last_of addr (cs_index st) (elements (setBlockIndexCandidates st)) with
  | None => setBlockIndexCandidates st = ∅
  | Some p =>
      p ∈ setBlockIndexCandidates st /\ (forall q, q ∈ setBlockIndexCandidates st -> work_lt addr (cs_index st) p q = false) /\
      exists lp r, lineage (cs_index st) p lp /\ lp !! height_of st p = Some p /\ test_chain (S (height_of st p)) st (Some p) = Some r /\
        match r with
        | WalkOk => good_path (cs_index st) p
        | WalkFailed t f => exists i b, (i <= height_of st p)%nat /\ lp !! i = Some t /\ cs_index st !! t = Some b /\ f = is_failed b /\ ~ good b
        end
  end.
Proof.
  intros Inv. pose proof (si_tree _ _ Inv) as T.
  destruct (last_of addr (cs_index st) (elements (setBlockIndexCandidates st))) as [p|] eqn:La.
  2: { apply last_of_none in La. by apply elements_empty_inv, leibniz_equiv in La. }
  assert (D : forall q, q ∈ elements (setBlockIndexCandidates st) -> is_Some (cs_index st !! q))
    by (intros q Hq; apply (si_cands _ _ Inv q); by apply elem_of_elements).
  destruct (last_of_max addr (cs_index st) _ p (to_work _ _ T) D La) as [Hp Max].
  apply elem_of_elements in Hp. destruct (si_cands _ _ Inv p Hp) as [[b E] L].
  destruct (index_lineage _ (to_index _ _ T) p b E) as [lp H]. destruct (lineage_height _ (to_index _ _ T) _ _ _ H E) as [Hh H0].
  pose proof (lineage_last _ _ _ H) as Last. rewrite last_lookup in Last. pose proof (lookup_lt_Some _ _ _ Last) as Hlen.
  assert (Hg : height_of st p = pred (length lp)) by (unfold height_of; rewrite E, Hh; lia). rewrite Hg.
  destruct (test_chain_spec st l p lp _ p (S (pred (length lp))) Inv H L Last ltac:(lia)) as (r & R & Hr).
  split; [done|]. split; [intros q Hq; apply Max; by apply elem_of_elements|]. exists lp, r. split; [done|]. split; [done|]. split; [done|].
  destruct r as [|t f]; [|done]. exists lp. split; [done|]. intros q bq Hq Eq. apply list_elem_of_lookup in Hq as [k Lk].
  apply (Hr k q); [apply lookup_lt_Some in Lk; lia|done|done].
Qed.
Lemma found_trans st st1 r st2 l : select_inv st l -> marks_grow (cs_index st) (cs_index st1) ->
  (forall p, good_path (cs_index st) p -> good_path (cs_index st1) p) -> chainActive st1 = chainActive st ->
  setBlockIndexCandidates st1 ⊆ setBlockIndexCandidates st ->
  (forall p, p ∈ setBlockIndexCandidates st -> good_path (cs_index st) p -> p ∈ setBlockIndexCandidates st1) ->
  found st1 r st2 -> found st r st2.
Proof. intros Inv M G C S K [F1 F2 F3 F4 F5 F6]. split; [by etrans|auto|congruence|set_solver|auto|done]. Qed.

Lemma find_most_work_spec st l fuel : select_inv st l -> (length (elements (setBlockIndexCandidates st)) <= fuel)%nat ->
  exists r st', find_most_work addr fuel st = Some (r, st') /\ found st r st'.
Proof.
  revert st. induction fuel as [|fuel IH]; intros st Inv F; cbn [find_most_work]; pose proof (best_candidate st l Inv) as B;
    (destruct (last_of addr (cs_index st) (elements (setBlockIndexCandidates st))) as [p|];
     [|exists None, st; split; [done|]; by split]); destruct B as (Hp & Max & lp & r & H & Lp & -> & Hr); cbn [obind];
    (destruct r as [|t f]; [exists (Some p), st; split; [done|]; by split|]).
  { exfalso. apply elem_of_elements in Hp. destruct (elements _); [by apply elem_of_nil in Hp|cbn in F; lia]. }
  destruct Hr as (i & b & Hi & Lt & Et & Hf & Bad).
  set (st1 := if f && _ then with_invalid st (Some p) else st).
  assert (E1 : cs_index st1 = cs_index st /\ chainActive st1 = chainActive st /\ setBlockIndexCandidates st1 = setBlockIndexCandidates st)
    by (unfold st1; by destruct (f && _)). destruct E1 as (E1 & E2 & E3).
  replace (height_of st1 p) with (height_of st p) by (unfold height_of; by rewrite E1).
  destruct (remove_chain_spec lp p i t f (height_of st p) p (S (height_of st p)) st1) as (st2 & -> & Rm);
    [rewrite E1; apply (si_tree _ _ Inv)|by rewrite E1|done|done|done|lia|]. cbn [obind].
  assert (Gk : forall q, good_path (cs_index st) q -> good_path (cs_index st2) q).
  { intros q Gq. rewrite <- E1 in Gq, H, Et. by eapply good_path_kept. }
  assert (Nt : forall q, good_path (cs_index st) q -> q <> t).
  { intros q (lq & Hq & Gq) ->. apply Bad, (Gq t); [|done]. apply last_Some_elem_of. by eapply lineage_last. }
  assert (Nb : forall q, good_path (cs_index st) q -> ~ between lp i (height_of st p) q).
  { intros q (lq & Hq & Gq) (j & Hj & Lj). apply Bad, (Gq t); [|done].
    rewrite (lineage_functional _ _ _ _ Hq (lineage_prefix _ _ _ _ _ H Lj)). apply (list_elem_of_lookup_2 _ i). by rewrite lookup_take_lt by lia. }
  destruct Rm as [R1 R2 R3 R4]. rewrite E1 in R1. rewrite E2 in R3.
  assert (Sub : setBlockIndexCandidates (erase_candidate st2 t) ⊆ setBlockIndexCandidates st).
  { intros q Hq. cbn in Hq. apply elem_of_difference in Hq as [Hq _]. apply R4 in Hq as [Hq _]. by rewrite <- E3. }
  assert (Kept : forall q, q ∈ setBlockIndexCandidates st -> good_path (cs_index st) q -> q ∈ setBlockIndexCandidates (erase_candidate st2 t)).
  { intros q Hq Gq. cbn. apply elem_of_difference. rewrite R4, E3, elem_of_singleton. auto. }
  destruct (IH (erase_candidate st2 t)) as (r & st' & R & Fo).
  - apply (select_inv_shrink st); done.
  - assert (Lt' : (length (elements (setBlockIndexCandidates (erase_candidate st2 t))) < length (elements (setBlockIndexCandidates st)))%nat); [|lia].
    enough (Sz : setBlockIndexCandidates (erase_candidate st2 t) ⊂ setBlockIndexCandidates st) by (by apply subset_size in Sz).
    split; [done|]. intros C. specialize (C p Hp). cbn in C. apply elem_of_difference in C as [C1 C2].
    apply R4 in C1 as [_ C1]. destruct (decide (i = height_of st p)) as [->|Ni]; [simplify_eq; set_solver|]. apply C1. exists (height_of st p). split; [lia|done].
  - exists r, st'. split; [done|]. by apply (found_trans st (erase_candidate st2 t) r st' l).
Qed.
Lemma FindMostWorkChain_found st l : select_inv st l -> exists r st', FindMostWorkChain addr st = Some (r, st') /\ found st r st'.
Proof. intros Inv. by eapply find_most_work_spec. Qed.
End Find.

(** * Example: a longer branch beside the active one *)

(** The branches 0-1 and 0-2-3-4; [s3] is the status of block 3. *)
Definition sel_entry (prev skip : option hash) (h work seq status : Z) : CBlockIndex :=
  with_status (link_entry (with_work (ex_entry prev skip h (100 + h) (100 + h)) (work :: repeat 0 7) (100 + h)) 1 seq (Some 0)) status.
Definition sel_idx (s3 : Z) : BlockMap :=
  <[[0] := sel_entry None None 0 1 0 11]> (<[[1] := sel_entry (Some [0]) (Some [0]) 1 2 1 11]>
  (<[[2] := sel_entry (Some [0]) (Some [0]) 1 2 2 11]> (<[[3] := sel_entry (Some [2]) (Some [0]) 2 3 3 s3]>
  (<[[4] := sel_entry (Some [3]) (Some [2]) 3 4 4 11]> ∅)))).
Definition sel_state (s3 : Z) : ChainState := mkCS (sel_idx s3) (Some <$> [[0]; [1]]) {[[1]; [3]; [4]]} None [] 5 ∅.
Definition sel_addr (p : hash) : Z := hd 0 p.
Definition sel_path (p : hash) : list hash :=
  if decide (p = [1]) then [[0]; [1]] else if decide (p = [2]) then [[0]; [2]] else if decide (p = [3]) then [[0]; [2]; [3]]
  else if decide (p = [4]) then [[0]; [2]; [3]; [4]] else [[0]].

Lemma sel_cases s3 p b : sel_idx s3 !! p = Some b ->
  (p = [0] /\ b = sel_entry None None 0 1 0 11) \/ (p = [1] /\ b = sel_entry (Some [0]) (Some [0]) 1 2 1 11) \/
  (p = [2] /\ b = sel_entry (Some [0]) (Some [0]) 1 2 2 11) \/ (p = [3] /\ b = sel_entry (Some [2]) (Some [0]) 2 3 3 s3) \/
  (p = [4] /\ b = sel_entry (Some [3]) (Some [2]) 3 4 4 11).
Proof. unfold sel_idx. intros E. repeat (apply lookup_insert_Some in E as [[<- <-]|[_ E]]); [..|by rewrite lookup_empty in E]; auto 8. Qed.
Lemma sel_lineage s3 p b : sel_idx s3 !! p = Some b -> lineage (sel_idx s3) p (sel_path p).
Proof.
  assert (L0 : lineage (sel_idx s3) [0] [[0]]) by (eapply lineage_root; reflexivity).
  assert (L2 : lineage (sel_idx s3) [2] ([[0]] ++ [[2]])) by (eapply lineage_step; [reflexivity..|exact L0]).
  assert (L3 : lineage (sel_idx s3) [3] ([[0]; [2]] ++ [[3]])) by (eapply lineage_step; [reflexivity..|exact L2]).
  intros [[-> _]|[[-> _]|[[-> _]|[[-> _]|[-> _]]]]]%sel_cases; [exact L0| |exact L2|exact L3|].
  - eapply (lineage_step _ _ _ _ [[0]]); [reflexivity..|exact L0].
  - eapply (lineage_step _ _ _ _ [[0]; [2]; [3]]); [reflexivity..|exact L3].
Qed.
Lemma sel_tree s3 : tree_ok [0] (sel_idx s3).
Proof.
  split.
  - intros p b E. pose proof (sel_lineage s3 [0] _ eq_refl) as L0. pose proof (sel_lineage s3 [2] _ eq_refl) as L2. pose proof (sel_lineage s3 [3] _ eq_refl) as L3.
    apply sel_cases in E as [[-> ->]|[[-> ->]|[[-> ->]|[[-> ->]|[-> ->]]]]]; unfold links_ok; cbn [pprev sel_entry ex_entry link_entry with_work with_links with_status]; [done| | | |].
    + eexists _, _. split; [reflexivity|]. split; [reflexivity|]. split; [exact L0|]. by split.
    + eexists _, _. split; [reflexivity|]. split; [reflexivity|]. split; [exact L0|]. by split.
    + eexists _, _. split; [reflexivity|]. split; [reflexivity|]. split; [exact L2|]. by split.
    + eexists _, _. split; [reflexivity|]. split; [reflexivity|]. split; [exact L3|]. by split.
  - intros p b [[_ ->]|[[_ ->]|[[_ ->]|[[_ ->]|[_ ->]]]]]%sel_cases; (split; [reflexivity|]); intros i; do 9 (destruct i as [|i]; [by vm_compute|]); by vm_compute.
  - intros p b q bq [[-> ->]|[[-> ->]|[[-> ->]|[[-> ->]|[-> ->]]]]]%sel_cases; cbn [pprev sel_entry ex_entry link_entry with_work with_links with_status];
      intros [= <-] Eq; apply (inj Some) in Eq as <-; vm_compute; reflexivity.
  - intros p l H. pose proof (lineage_lookup _ _ _ H) as [b E]. rewrite (lineage_functional _ _ _ _ H (sel_lineage _ _ _ E)).
    by apply sel_cases in E as [[-> _]|[[-> _]|[[-> _]|[[-> _]|[-> _]]]]].
Qed.
Lemma sel_linked s3 p : linked (sel_idx s3) p.
Proof. intros l q b _ _ [[_ ->]|[[_ ->]|[[_ ->]|[[_ ->]|[_ ->]]]]]%sel_cases; by left. Qed.
Lemma sel_inv s3 : select_inv [0] (sel_state s3) [[0]; [1]].
Proof.
  split; cbn [cs_index chainActive setBlockIndexCandidates sel_state].
  - apply sel_tree.
  - done.
  - exists [1]. split; [apply (sel_lineage s3 [1] _ eq_refl)|apply sel_linked].
  - intros q b Hq E. apply sel_cases in E as [[-> ->]|[[-> ->]|[[-> ->]|[[-> ->]|[-> ->]]]]]; try (by vm_compute); exfalso; set_solver.
  - intros p Hp. split; [|apply sel_linked]. rewrite !elem_of_union, !elem_of_singleton in Hp. destruct Hp as [[->| ->]| ->]; eauto.
Qed.

(** * The property *)

(** [FindMostWorkChain] ends, none of its assertions fails, and it returns the
    candidate that no other usable candidate beats, where a usable one has the data of
    every block up to it and none of them marked as failed; it returns nothing only
    when no candidate is usable. It removes unusable candidates only, the marks it
    adds make no usable block unusable, and the active chain stays. *)
Theorem FindMostWorkChain_best (addr : hash -> Z) (g : hash) (st : ChainState) (l : list hash) : select_inv g st l ->
  exists r st', FindMostWorkChain addr st = Some (r, st') /\ select_inv g st' l /\ setBlockIndexCandidates st' ⊆ setBlockIndexCandidates st /\
    (forall p, good_path (cs_index st') p <-> good_path (cs_index st) p) /\
    (forall p, p ∈ setBlockIndexCandidates st -> good_path (cs_index st) p -> p ∈ setBlockIndexCandidates st') /\
    match r with
    | None => forall p, p ∈ setBlockIndexCandidates st -> ~ good_path (cs_index st) p
    | Some p => p ∈ setBlockIndexCandidates st /\ good_path (cs_index st) p /\
                forall q, q ∈ setBlockIndexCandidates st -> good_path (cs_index st) q -> work_lt addr (cs_index st) p q = false
    end.
Proof.
  intros Inv. destruct (FindMostWorkChain_found addr g st l Inv) as (r & st' & R & Fo). exists r, st'. split; [done|].
  destruct Fo as [F1 F2 F3 F4 F5 F6]. split; [by apply (select_inv_shrink g st)|]. split; [done|].
  split; [split; [by apply good_path_shrinks|by apply F2]|]. split; [done|]. destruct r as [p|].
  - destruct F6 as (P1 & P2 & P3). split; [by apply F4|]. split; [by eapply good_path_shrinks|].
    intros q Hq Gq. rewrite (work_lt_same addr _ _ p q (proj1 F1)). by apply P3, F5.
  - intros p Hp G. specialize (F5 p Hp G). rewrite F6 in F5. set_solver.
Qed.
Lemma FindMostWorkChain_best_witness :
  select_inv [0] (sel_state 43) [[0]; [1]] /\ (fst <$> FindMostWorkChain sel_addr (sel_state 43)) = Some (Some [1]) /\
  (fst <$> FindMostWorkChain sel_addr (sel_state 11)) = Some (Some [4]) /\
  exists r st', FindMostWorkChain sel_addr (sel_state 43) = Some (r, st') /\ select_inv [0] st' [[0]; [1]].
Proof.
  split; [apply sel_inv|]. split; [vm_compute; reflexivity|]. split; [vm_compute; reflexivity|].
  destruct (FindMostWorkChain_best sel_addr [0] (sel_state 43) [[0]; [1]] (sel_inv 43)) as (r & st' & H1 & H2 & _). eauto.
Defined.
