(* ===== verification/Activate.v ===== *)
(** Activating the best chain (src/validation.cpp: [ActivateBestChain] and the
    steps it takes): the definitions are in ChainSelect; here is the proof that the
    loops end on a chain that no other usable one beats. *)
From Stdlib Require Import ZArith Lia List Bool.
From stdpp Require Import base gmap list sets.
From S2P Require Import Prelude Uint256 Consensus Pow Serialize Script Interpreter Codecs Transaction Block Chain ChainSelect.
Import ListNotations.
Local Open Scope Z_scope.
Local Open Scope passion_scope.

(** * Moving the active chain *)

(** What the activation relies on. Coins are compared by what they stand for, as two
    caches may stand for the same set of coins; whether a block is connected depends
    on that alone. A block that was connected is disconnected to equivalent coins or
    with a reported error, and a block whose data may be corrupted is an error of the
    system and not a rejection. *)
Class ChainIOLaws (io : ChainIO) := {
  same_coins : relation Coins;
  same_coins_equiv :: Equivalence same_coins;
  connect_same : forall p c d c' u, same_coins c d -> connect p c = Connected c' u -> exists d' u', connect p d = Connected d' u' /\ same_coins c' d';
  disconnect_restores : forall p c c' u d d', connect p c = Connected c' u -> same_coins c' d -> disconnect p d = (true, d') -> same_coins c d';
  rejected_for_good : forall p c, connect p c <> Rejected true
}.

Lemma with_chain_twice st c c' : with_chain (with_chain st c) c' = with_chain st c'.
Proof. done. Qed.
Lemma with_chain_same st : with_chain st (chainActive st) = st.
Proof. by destruct st. Qed.
(** Entries with the same marks. *)
Definition same_marks (idx idx' : BlockMap) : Prop :=
  same_tree idx idx' /\ forall p b b', idx !! p = Some b -> idx' !! p = Some b' -> is_failed b' = is_failed b /\ has_data b' = has_data b.
#[export] Instance same_marks_equiv : Equivalence same_marks.
Proof.
  split.
  - intros x. split; [done|]. intros. by simplify_eq.
  - intros x y [S G]. split; [done|]. intros p b b' E E'. by destruct (G _ _ _ E' E).
  - intros x y z [S1 G1] [S2 G2]. split; [by etrans|]. intros p b b' E E'. destruct (same_tree_lookup _ _ _ _ S1 E) as (c & Ec & _).
    destruct (G1 _ _ _ E Ec), (G2 _ _ _ Ec E'). split; congruence.
Qed.
Lemma same_marks_grow idx idx' : same_marks idx idx' -> marks_grow idx idx'.
Proof. intros [S G]. split; [done|]. intros p b b' E E'. destruct (G _ _ _ E E') as [-> ->]. done. Qed.
Lemma same_marks_path idx idx' p : same_marks idx idx' -> good_path idx p <-> good_path idx' p.
Proof. intros S. split; apply good_path_shrinks, same_marks_grow; [by symmetry|done]. Qed.
Lemma same_marks_unfailed idx idx' : same_marks idx idx' -> unfailed idx' = unfailed idx.
Proof.
  intros S. apply set_eq. intros q. split; apply unfailed_shrinks, same_marks_grow; [done|by symmetry].
Qed.
Lemma same_marks_insert idx p b b' : idx !! p = Some b -> strip b' = strip b -> is_failed b' = is_failed b -> has_data b' = has_data b ->
  same_marks idx (<[p := b']> idx).
Proof.
  intros E S F D. split.
  - unfold same_tree. by rewrite fmap_insert, S, insert_id by (by rewrite lookup_fmap, E).
  - intros q x x' Ex Ex'. destruct (decide (q = p)) as [->|N]; [rewrite lookup_insert_eq in Ex'|rewrite lookup_insert_ne in Ex' by done]; by simplify_eq.
Qed.

Lemma record_undo_spec st p b undo : cs_index st !! p = Some b ->
  exists st', record_undo st p undo = Some st' /\ same_marks (cs_index st) (cs_index st') /\ chainActive st' = chainActive st /\
    setBlockIndexCandidates st' = setBlockIndexCandidates st.
Proof.
  intros E. unfold record_undo. destruct undo as [pos|]; [|by exists st]. rewrite E. cbn [obind].
  assert (V : exists v, ix_IsValid b BLOCK_VALID_SCRIPTS = Some v) by (unfold ix_IsValid; change (Z.land BLOCK_VALID_SCRIPTS _) with 0; cbn [Z.eqb negb]; destruct (negb _); eauto).
  destruct V as [v ->]. cbn [obind]. destruct (undo_missing b || negb v); [|by exists st].
  set (b1 := if undo_missing b then with_undo b pos else b).
  assert (B1 : strip b1 = strip b /\ is_failed b1 = is_failed b /\ has_data b1 = has_data b).
  { unfold b1. destruct (undo_missing b); [|done]. split; [done|]. unfold is_failed, has_data. cbn [nStatus with_undo].
    rewrite !Z.land_lor_distr_l. change (Z.land BLOCK_HAVE_UNDO _) with 0. change (Z.land BLOCK_HAVE_UNDO BLOCK_HAVE_DATA) with 0. by rewrite !Z.lor_0_r. }
  destruct B1 as (S1 & F1 & D1), (RaiseValidity_marks b1 BLOCK_VALID_SCRIPTS ltac:(done)) as (r & b' & -> & S2 & F2 & D2 & _). cbn [obind snd].
  eexists. split; [reflexivity|]. split; [|done]. apply (same_marks_insert _ _ b); [done|congruence|congruence|congruence].
Qed.

Section Move.
Variable addr : hash -> Z.
Context (g : hash) {io : ChainIO} {laws : ChainIOLaws io}.
Variable c0 : Coins.
Implicit Types (st : ChainState) (c : Coins) (l lp : list hash).

(** The coins are those of connecting the blocks of the chain in order. *)
Inductive coherent : Coins -> list hash -> Prop :=
| coherent_nil c : same_coins c0 c -> coherent c []
| coherent_snoc c c' u d l p : coherent c l -> connect p c = Connected c' u -> same_coins c' d -> coherent d (l ++ [p]).
#[export] Instance coherent_proper : Proper (same_coins ==> (=) ==> iff) coherent.
Proof.
  assert (G : forall c d l, same_coins c d -> coherent c l -> coherent d l).
  { intros c d l S H. revert d S. destruct H as [c' S'|c1 c' u d' l' p H E S']; intros d S; [apply coherent_nil; by etrans|]. eapply coherent_snoc; [done|done|by etrans]. }
  intros c d S l _ <-. split; apply G; [done|by symmetry].
Qed.
Lemma coherent_inv c l p : coherent c (l ++ [p]) -> exists c1 c2 u, coherent c1 l /\ connect p c1 = Connected c2 u /\ same_coins c2 c.
Proof.
  intros H. inversion H as [c' S E0 E|c1 c' u d l' p' H1 E1 S E0 E]; [symmetry in E; by apply app_nil in E as [_ ?]|].
  apply app_inj_tail in E as [-> ->]. eauto 6.
Qed.
Lemma coherent_functional c c' l : coherent c l -> coherent c' l -> same_coins c c'.
Proof.
  intros H. revert c'. induction H as [c S|c1 c2 u d l p H IH E S]; intros c' H'.
  - inversion H' as [? S'|? ? ? ? l' ? _ _ _ E0 E']; [rewrite <- S, <- S'; reflexivity|]. by apply app_nil in E' as [_ ?].
  - apply coherent_inv in H' as (c3 & c4 & u' & H3 & E3 & S3). destruct (connect_same _ _ _ _ _ (IH _ H3) E) as (c5 & u5 & E5 & S5).
    rewrite E3 in E5. injection E5 as -> _. rewrite <- S, <- S3. done.
Qed.
Lemma coherent_prefix c l n : coherent c l -> exists c', coherent c' (take n l).
Proof.
  intros H. revert n. induction H as [c S|c1 c2 u d l p H IH E S]; intros n; [rewrite take_nil; eauto using coherent_nil|].
  destruct (decide (n <= length l)%nat).
  - rewrite take_app_le by done. apply IH.
  - rewrite take_ge by (rewrite length_app; cbn; lia). eauto using coherent_snoc.
Qed.
(** A block of a chain that was connected is not rejected after the same blocks. *)
Lemma coherent_next c c' l n x : coherent c' l -> coherent c (take n l) -> l !! n = Some x -> exists c2 u, connect x c = Connected c2 u.
Proof.
  intros H' H L. destruct (coherent_prefix c' l (S n) H') as [c2 H2]. rewrite (take_S_r _ _ x L) in H2.
  apply coherent_inv in H2 as (c1 & c3 & u & H1 & E & _). destruct (connect_same _ _ _ _ _ (coherent_functional _ _ _ H1 H) E) as (c5 & u5 & E5 & _). eauto.
Qed.

(** An error that the system reported. *)
Definition system_failed : Prop :=
  (exists p c c' u, connect p c = SystemError c' u) \/ (exists p c c', disconnect p c = (false, c')).

Lemma linked_at idx p lp n q : linked idx p -> lineage idx p lp -> lp !! n = Some q -> linked idx q.
Proof.
  intros L H Lq l x b Hl Hx E. apply (L lp x b H); [|done].
  rewrite (lineage_functional _ _ _ _ Hl (lineage_prefix _ _ _ _ _ H Lq)) in Hx. eapply subseteq_take. exact Hx.
Qed.
Lemma good_at idx p lp n q b : good_path idx p -> lineage idx p lp -> lp !! n = Some q -> idx !! q = Some b -> good b.
Proof. intros (l & H & G) H' L E. rewrite (lineage_functional _ _ _ _ H' H) in L. apply (G q); [by eapply list_elem_of_lookup_2|done]. Qed.
(** The same state with another chain of good blocks. *)
Lemma select_inv_move st st' l p lp n : select_inv g st l -> lineage (cs_index st) p lp -> linked (cs_index st) p ->
  good_path (cs_index st) p -> (n < length lp)%nat -> same_marks (cs_index st) (cs_index st') ->
  chainActive st' = Some <$> take (S n) lp -> setBlockIndexCandidates st' ⊆ setBlockIndexCandidates st ->
  select_inv g st' (take (S n) lp).
Proof.
  intros [I1 I2 I3 I4 I5] H L G Hn [S M] C Sub. destruct (lookup_lt_is_Some_2 lp n Hn) as [q Lq].
  pose proof (to_index _ _ I1) as Hi. split.
  - by eapply tree_ok_same.
  - done.
  - exists q. split; [eapply lineage_same; [done|]; by eapply lineage_prefix|eapply linked_same; [done|]; by eapply linked_at].
  - intros x b' Hx E'. destruct (same_tree_lookup _ _ _ _ (symmetry S) E') as (b & E & _). destruct (M _ _ _ E E') as [M1 M2].
    apply list_elem_of_lookup in Hx as [i Li]. apply lookup_take_Some in Li as [Li _].
    destruct (good_at _ _ _ _ _ _ G H Li E). split; congruence.
  - intros x Hx. destruct (I5 x (Sub _ Hx)) as [[b E] Lx]. destruct (same_tree_lookup _ _ _ _ S E) as (b' & E' & _).
    split; [eauto|by eapply linked_same].
Qed.

Lemma UpdateTip_spec st p lp l : index_ok (cs_index st) -> lineage (cs_index st) p lp -> path (cs_index st) l -> chainActive st = Some <$> l ->
  UpdateTip st (Some p) = Some (with_chain st (Some <$> lp)).
Proof.
  intros Hi H Hp E. unfold UpdateTip. cbn [obind]. rewrite (SetTip_path _ Hi _ _ _ H); [done|]. by exists l.
Qed.

(** Disconnecting blocks down to one of the chain. *)
Lemma disconnect_to_spec fuel st t l c k f : index_ok (cs_index st) -> lineage (cs_index st) t l -> chainActive st = Some <$> l -> coherent c l ->
  l !! k = Some f -> (length l - S k <= fuel)%nat ->
  exists ok st' c', disconnect_to fuel (Some f) st c = Some (ok, st', c') /\
    if ok : bool then st' = with_chain st (Some <$> take (S k) l) /\ coherent c' (take (S k) l) else system_failed.
Proof.
  revert st t l c. induction fuel as [|fuel IH]; intros st t l c Hi H C Co L F; cbn [disconnect_to]; rewrite C, Tip_path, (lineage_last _ _ _ H);
    pose proof (lookup_lt_Some _ _ _ L) as Hk; case_bool_decide as D.
  all: try (assert (S k = length l) by (apply (inj Some) in D as ->; pose proof (lineage_last _ _ _ H) as La; rewrite last_lookup in La;
      pose proof (NoDup_lookup _ _ _ _ (lineage_NoDup _ _ _ H) L La); lia);
    exists true, st, c; rewrite take_ge, <- C, with_chain_same by lia; done).
  { exfalso. apply D. pose proof (lineage_last _ _ _ H) as La. rewrite last_lookup in La. replace (pred (length l)) with k in La by lia. congruence. }
  destruct H as [t b E P|t b q l E P H].
  { exfalso. apply D. destruct k; cbn in *; [congruence|lia]. }
  apply coherent_inv in Co as (c1 & c3 & u & Co & Ec & Sc). unfold DisconnectTip. rewrite C, Tip_path, last_snoc. cbn [obind]. rewrite E. cbn [obind].
  assert (Hk' : (k < length l)%nat).
  { rewrite length_app in Hk. cbn in Hk. destruct (decide (k = length l)) as [->|]; [|lia]. rewrite list_lookup_middle in L by done. congruence. }
  destruct (disconnect t c) as [[] c2] eqn:Ed; cbn [negb].
  2: { exists false, st, c2. split; [done|]. right. eauto. }
  pose proof (disconnect_restores _ _ _ _ _ _ Ec Sc Ed) as Sd. rewrite Sd in Co. rewrite P, (UpdateTip_spec st q l (l ++ [t])); [|done|done| |done].
  2: { right. exists t. by eapply lineage_step. }
  cbn [obind]. destruct (IH (with_chain st (Some <$> l)) q l c2) as (ok & st' & c' & R & S); try done.
  { by rewrite lookup_app_l in L. } { rewrite length_app in F. cbn in F. lia. }
  exists ok, st', c'. split; [done|]. rewrite take_app_le by lia. by destruct ok.
Qed.

(** ** Connecting blocks towards a candidate *)

Section Towards.
Variables (p : hash) (lp : list hash).

(** From a state on the first blocks of [lp] to one further on. *)
Record moved (st : ChainState) (n : nat) (st' : ChainState) (c' : Coins) (n' : nat) : Prop := {
  mv_le : (n <= n' < length lp)%nat;
  mv_inv : select_inv g st' (take (S n') lp);
  mv_coh : coherent c' (take (S n') lp);
  mv_marks : same_marks (cs_index st) (cs_index st');
  mv_cands : setBlockIndexCandidates st' ⊆ setBlockIndexCandidates st;
  mv_target : p ∈ setBlockIndexCandidates st';
  mv_kept : forall q t, q ∈ setBlockIndexCandidates st -> lp !! n' = Some t -> work_lt addr (cs_index st) q t = false -> q ∈ setBlockIndexCandidates st'
}.
(** A state that can be moved. *)
Record heading (st : ChainState) (c : Coins) (n : nat) : Prop := {
  hd_lineage : lineage (cs_index st) p lp;
  hd_good : good_path (cs_index st) p;
  hd_target : p ∈ setBlockIndexCandidates st;
  hd_le : (n < length lp)%nat;
  hd_inv : select_inv g st (take (S n) lp);
  hd_coh : coherent c (take (S n) lp)
}.
Lemma heading_moved st c n : heading st c n -> moved st n st c n.
Proof. intros []. split; [lia|done|done|done|done|done|done]. Qed.
Lemma moved_heading st c n st' c' n' : heading st c n -> moved st n st' c' n' -> heading st' c' n'.
Proof.
  intros [] []. split; try done; [eapply lineage_same; [by apply mv_marks0|done]|by eapply same_marks_path; [symmetry|]|lia].
Qed.

(** Later blocks of a path have more work. *)
Lemma lineage_work idx i j x y bx by_ : tree_ok g idx -> lineage idx p lp -> lp !! i = Some x -> lp !! j = Some y -> (i <= j)%nat ->
  idx !! x = Some bx -> idx !! y = Some by_ -> val WIDTH256 (nChainWork bx) <= val WIDTH256 (nChainWork by_) /\
  ((i < j)%nat -> val WIDTH256 (nChainWork bx) < val WIDTH256 (nChainWork by_)).
Proof.
  intros T H Lx Ly Hij Ex. revert y by_ Ly. induction Hij as [|j Hij IH]; intros y by_ Ly Ey; [simplify_eq; split; [done|lia]|].
  destruct (lineage_at _ (to_index _ _ T) _ _ _ _ H Ly) as (b & E & _ & P & [z Lz]). simplify_eq. rewrite Lz in P.
  destruct (lineage_at _ (to_index _ _ T) _ _ _ _ H Lz) as (bz & Ez & _). destruct (IH z bz Lz Ez).
  pose proof (to_grow _ _ T _ _ _ _ Ey P Ez). lia.
Qed.
Lemma lineage_work_lt idx i j x y : tree_ok g idx -> lineage idx p lp -> lp !! i = Some x -> lp !! j = Some y -> (i <= j)%nat ->
  work_lt addr idx y x = false /\ ((i < j)%nat -> work_lt addr idx x y = true).
Proof.
  intros T H Lx Ly Hij. pose proof (to_index _ _ T) as Hi. destruct (lineage_at _ Hi _ _ _ _ H Lx) as (bx & Ex & _), (lineage_at _ Hi _ _ _ _ H Ly) as (b & E & _).
  destruct (lineage_work _ _ _ _ _ _ _ T H Lx Ly Hij Ex E) as [W1 W2]. destruct (decide (i = j)) as [->|N].
  - simplify_eq. split; [by apply work_lt_irrefl, (to_work g)|lia].
  - rewrite (work_lt_false addr idx y x b bx (to_work _ _ T) E Ex), (work_lt_spec addr idx x y bx b (to_work _ _ T) Ex E).
    unfold key_lt. specialize (W2 ltac:(lia)). split; [lia|intros _; by left].
Qed.
(** The candidates that sort before the tip go; the target stays. *)
Lemma prune_moved st c n : heading st c n -> exists st', PruneBlockIndexCandidates addr st = Some st' /\ moved st n st' c n /\ chainActive st' = chainActive st.
Proof.
  intros Hd. pose proof (heading_moved _ _ _ Hd) as Mv. destruct Hd as [H G Ht Hn Inv Co]. pose proof (si_tree _ _ _ Inv) as T.
  destruct (lookup_lt_is_Some_2 lp n Hn) as [t Lt]. unfold PruneBlockIndexCandidates.
  rewrite (si_active _ _ _ Inv), Tip_path, (take_S_r _ _ _ Lt), last_snoc. cbn [obind].
  pose proof (lineage_last _ _ _ H) as La. rewrite last_lookup in La.
  assert (In : p ∈ filter (fun q => work_lt addr (cs_index st) q t = false) (setBlockIndexCandidates st)).
  { apply elem_of_filter. split; [|done]. by apply (lineage_work_lt _ n (pred (length lp)) t p T H Lt La ltac:(lia)). }
  rewrite decide_False by set_solver. eexists. split; [reflexivity|]. split; [|cbn; by rewrite <- (take_S_r _ _ _ Lt), <- (si_active _ _ _ Inv)].
  split; cbn.
  - lia.
  - eapply (select_inv_move st); try done; [by apply (si_cands _ _ _ Inv)|apply (si_active _ _ _ Inv)|cbn; set_solver].
  - done.
  - done.
  - set_solver.
  - done.
  - intros q t' Hq Lt' W. simplify_eq. by apply elem_of_filter.
Qed.
Lemma moved_trans st n st1 c1 n1 st2 c2 n2 : lineage (cs_index st) p lp -> select_inv g st (take (S n) lp) -> moved st n st1 c1 n1 -> moved st1 n1 st2 c2 n2 -> moved st n st2 c2 n2.
Proof.
  intros H Inv [L1 I1 C1 M1 S1 T1 K1] [L2 I2 C2 M2 S2 T2 K2]. pose proof (si_tree _ _ _ Inv) as T. split; try done.
  - lia.
  - by etrans.
  - set_solver.
  - intros q t Hq Lt W. destruct (lookup_lt_is_Some_2 lp n1 ltac:(lia)) as [t1 Lt1]. apply (K2 q t); [|done|].
    + apply (K1 q t1); [done|done|]. destruct (si_cands _ _ _ Inv q Hq) as [Eq _].
      eapply (work_le_trans addr (cs_index st) q t t1); try done.
      * apply (to_work _ _ T). * eapply lineage_elem; [done|]. by eapply list_elem_of_lookup_2.
      * eapply lineage_elem; [done|]. by eapply list_elem_of_lookup_2.
      * by apply (lineage_work_lt _ n1 n2 t1 t T H Lt1 Lt ltac:(lia)).
    + by rewrite <- (work_lt_same addr _ _ q t (proj1 M1)).
Qed.

(** A rejected block is marked and is no longer a candidate. *)
Record marked (st : ChainState) (x : hash) (st' : ChainState) : Prop := {
  mk_index : cs_index st' = cs_index (add_status st x BLOCK_FAILED_VALID);
  mk_chain : chainActive st' = chainActive st;
  mk_cands : setBlockIndexCandidates st' = setBlockIndexCandidates st ∖ {[x]}
}.
(** The next block of [lp] was rejected. *)
Definition stopped (st : ChainState) (n : nat) (st' : ChainState) (c' : Coins) : Prop :=
  exists n' st1 x, moved st n st1 c' n' /\ lp !! S n' = Some x /\ connect x c' = Rejected false /\ marked st1 x st'.

Lemma InvalidChainFound_spec st x t : Tip (chainActive st) = Some t ->
  exists st', InvalidChainFound st x = Some st' /\ cs_index st' = cs_index st /\ chainActive st' = chainActive st /\
    setBlockIndexCandidates st' = setBlockIndexCandidates st.
Proof.
  intros H. unfold InvalidChainFound. destruct (pindexBestInvalid st) as [q|]; [destruct (more_work (cs_index st) x q)|]; cbn; rewrite H; eauto.
Qed.
Lemma InvalidBlockFound_spec st x t : Tip (chainActive st) = Some t -> exists st', InvalidBlockFound st x false = Some st' /\ marked st x st'.
Proof.
  intros H. unfold InvalidBlockFound. destruct (InvalidChainFound_spec (erase_candidate (mark_dirty (add_status st x BLOCK_FAILED_VALID) x) x) x t H)
    as (st' & -> & E1 & E2 & E3). exists st'. by split.
Qed.
Lemma ConnectTip_spec st c n x : heading st c n -> lp !! S n = Some x ->
  exists r, ConnectTip st c x = Some r /\
    match r with
    | TipOk st' c' => heading st' c' (S n) /\ same_marks (cs_index st) (cs_index st') /\ setBlockIndexCandidates st' = setBlockIndexCandidates st
    | TipInvalid f st' => f = false /\ connect x c = Rejected false /\ marked st x st'
    | TipError _ _ => system_failed
    end.
Proof.
  intros Hd L. pose proof Hd as [H G Ht Hn Inv Co]. pose proof (si_tree _ _ _ Inv) as T. pose proof (to_index _ _ T) as Hi.
  destruct (lineage_at _ Hi _ _ _ _ H L) as (b & E & _ & P & [t Lt]). rewrite Lt in P.
  assert (Tp : Tip (chainActive st) = Some t) by (rewrite (si_active _ _ _ Inv), Tip_path, (take_S_r _ _ _ Lt), last_snoc; done).
  unfold ConnectTip. rewrite E. cbn [obind]. rewrite Tp, P, bool_decide_true by done. cbn [negb].
  destruct (connect x c) as [c' u|f|c' u] eqn:Ec.
  - destruct (record_undo_spec st x b u E) as (st1 & -> & S1 & A1 & B1). cbn [obind].
    assert (H1 : lineage (cs_index st1) p lp) by (eapply lineage_same; [apply S1|done]).
    rewrite (UpdateTip_spec st1 x (take (S (S n)) lp) (take (S n) lp)).
    + cbn [obind]. eexists. split; [reflexivity|]. split; [|done]. split; cbn.
      * done. * by eapply same_marks_path; [symmetry|]. * by rewrite B1. * by apply lookup_lt_Some in L.
      * eapply (select_inv_move st); try done; [by apply (si_cands _ _ _ Inv)|by apply lookup_lt_Some in L|cbn; by rewrite B1].
      * rewrite (take_S_r _ _ _ L). by eapply coherent_snoc; [| |reflexivity].
    + eapply index_ok_same; [apply S1|done].
    + by eapply lineage_prefix.
    + right. exists t. by eapply lineage_prefix.
    + by rewrite A1, (si_active _ _ _ Inv).
  - destruct f; [by apply rejected_for_good in Ec|]. destruct (InvalidBlockFound_spec st x t Tp) as (st' & -> & Mk). cbn [obind]. eexists. by split; [reflexivity|].
  - destruct (record_undo_spec st x b u E) as (st1 & -> & _). cbn [obind]. eexists. split; [reflexivity|]. left. eauto.
Qed.

Lemma connect_batch_spec ps back old st c n : heading st c n -> (forall i x, ps !! i = Some x -> lp !! (S n + i)%nat = Some x) ->
  exists r, connect_batch addr ps back old st c = Some r /\
    match r with
    | BatchDone f st' c' => exists n', moved st n st' c' n' /\ (f = true -> n' = (n + length ps)%nat) /\ (f = false -> (n < n')%nat)
    | BatchInvalid st' c' => stopped st n st' c'
    | BatchError _ _ => system_failed
    end.
Proof.
  revert st c n. induction ps as [|x ps IH]; intros st c n Hd Hps; cbn [connect_batch].
  { eexists. split; [reflexivity|]. exists n. split; [by apply heading_moved|]. split; [cbn; lia|done]. }
  assert (L : lp !! S n = Some x) by (rewrite <- (Hps O x eq_refl); f_equal; lia).
  destruct (ConnectTip_spec st c n x Hd L) as (r & -> & Hr). cbn [obind]. destruct r as [st1 c1|f st1|st1 c1].
  - destruct Hr as (Hd1 & S1 & B1). destruct (prune_moved st1 c1 (S n) Hd1) as (st2 & -> & M2 & A2). cbn [obind].
    assert (M1 : moved st n st1 c1 (S n)).
    { destruct Hd1. split; try done; [lia|by rewrite B1|by rewrite B1]. }
    pose proof (hd_inv _ _ _ Hd) as Inv. pose proof (hd_lineage _ _ _ Hd) as H. pose proof (moved_trans _ _ _ _ _ _ _ _ H Inv M1 M2) as M.
    rewrite A2, (si_active _ _ _ (hd_inv _ _ _ Hd1)), Tip_path, (take_S_r _ _ _ L), last_snoc. cbn [obind].
    destruct (match old with None => true | _ => _ end).
    + eexists. split; [reflexivity|]. exists (S n). split; [done|]. split; [done|lia].
    + destruct (IH st2 c1 (S n) (moved_heading _ _ _ _ _ _ Hd M)) as (r & R & Hr).
      { intros i y Hy. rewrite <- (Hps (S i) y Hy). f_equal. lia. }
      exists r. split; [done|]. destruct r as [f st3 c3|st3 c3|st3 c3]; [| |done].
      * destruct Hr as (n' & M3 & F1 & F2). exists n'. split; [by eapply moved_trans|]. split; [intros; cbn; rewrite F1 by done; lia|]. intros. specialize (F2 ltac:(done)). lia.
      * destruct Hr as (n' & st4 & y & M3 & R3). exists n', st4, y. split; [by eapply moved_trans|done].
  - destruct Hr as (-> & Ec & [K1 K2 K3]).
    assert (Tp : exists t, Tip (chainActive st1) = Some t).
    { destruct (lookup_lt_is_Some_2 lp n (hd_le _ _ _ Hd)) as [t Lt]. exists t.
      by rewrite K2, (si_active _ _ _ (hd_inv _ _ _ Hd)), Tip_path, (take_S_r _ _ _ Lt), last_snoc. }
    destruct Tp as [t Tp]. destruct (InvalidChainFound_spec st1 back t Tp) as (st2 & -> & E1 & E2 & E3). cbn [obind].
    eexists. split; [reflexivity|]. exists n, st, x. split; [by apply heading_moved|]. split; [done|]. split; [done|]. split; congruence.
  - eexists. by split; [reflexivity|].
Qed.

Lemma blocks_down_spec st fuel n m x : index_ok (cs_index st) -> lineage (cs_index st) p lp -> lp !! m = Some x -> (n <= m)%nat -> (m - n <= fuel)%nat ->
  blocks_down fuel st (Some x) (Z.of_nat n) = Some (rev (drop (S n) (take (S m) lp))).
Proof.
  intros Hi H. revert m x. induction fuel as [|fuel IH]; intros m x L Hn F; cbn [blocks_down];
    destruct (lineage_at _ Hi _ _ _ _ H L) as (b & E & Hh & P); rewrite E; cbn [obind]; rewrite Hh.
  all: destruct (Z.eqb_spec (Z.of_nat m) (Z.of_nat n)) as [D|D];
    [apply Nat2Z.inj in D as ->; by rewrite drop_ge by (rewrite length_take; lia)|]; try lia.
  destruct m as [|m]; [lia|]. destruct P as [P [y Ly]]. rewrite P, Ly, (IH m y Ly) by lia. cbn [obind].
  rewrite (take_S_r _ _ _ L), drop_app_le, rev_app_distr; [done|]. apply lookup_lt_Some in L. rewrite length_take. lia.
Qed.
(** What a step does, from a state on the first blocks of [lp]. *)
Definition stepped (st : ChainState) (n : nat) (r : StepResult) : Prop :=
  if step_ok r then
    if fInvalidFound r then stopped st n (step_st r) (step_coins r)
    else exists n', moved st n (step_st r) (step_coins r) n' /\ ((S n < length lp)%nat -> (n < n')%nat)
  else system_failed.
Lemma stepped_after st c n st1 c1 n1 r : heading st c n -> moved st n st1 c1 n1 -> (n < n1)%nat -> stepped st1 n1 r -> stepped st n r.
Proof.
  intros Hd M Hn. pose proof (hd_inv _ _ _ Hd) as Inv. pose proof (hd_lineage _ _ _ Hd) as H. unfold stepped.
  destruct (step_ok r); [|done]. destruct (fInvalidFound r).
  - intros (n' & st2 & x & M2 & R). exists n', st2, x. split; [by eapply moved_trans|done].
  - intros (n' & M2 & _). exists n'. split; [by eapply moved_trans|]. pose proof (mv_le _ _ _ _ _ M2). lia.
Qed.
Lemma connect_batches_spec fuel old st c n : heading st c n -> (length lp <= n + fuel)%nat ->
  exists r, connect_batches addr fuel p (Z.of_nat (pred (length lp))) (Z.of_nat n) old st c = Some r /\ stepped st n r.
Proof.
  revert st c n. induction fuel as [|fuel IH]; intros st c n Hd F; cbn [connect_batches]; pose proof (hd_le _ _ _ Hd) as Hn.
  { lia. }
  destruct (Z.eqb_spec (Z.of_nat n) (Z.of_nat (pred (length lp)))) as [D|D].
  { eexists. split; [reflexivity|]. exists n. split; [by apply heading_moved|lia]. }
  pose proof (hd_lineage _ _ _ Hd) as H. pose proof (to_index _ _ (si_tree _ _ _ (hd_inv _ _ _ Hd))) as Hi.
  set (m := Nat.min (n + 32) (pred (length lp))). replace (Z.min (Z.of_nat n + 32) (Z.of_nat (pred (length lp)))) with (Z.of_nat m) by lia.
  destruct (lookup_lt_is_Some_2 lp m ltac:(lia)) as [x Lx].
  rewrite (GetAncestor_lookup _ Hi _ _ (Z.of_nat m) H). cbn [obind]. destruct (Z.ltb_spec (Z.of_nat m) 0); [lia|]. rewrite Nat2Z.id, Lx.
  rewrite (blocks_down_spec st 32 n m x Hi H Lx) by lia. cbn [obind]. rewrite rev_involutive.
  destruct (connect_batch_spec (drop (S n) (take (S m) lp)) (List.last (rev (drop (S n) (take (S m) lp))) []) old st c n Hd) as (r & R & Hr).
  { intros i y Hy. rewrite lookup_drop in Hy. by apply lookup_take_Some in Hy as [? _]. }
  rewrite length_drop, length_take in Hr. rewrite R. cbn [obind]. destruct r as [[] st1 c1|st1 c1|st1 c1].
  - destruct Hr as (n' & M & F1 & _). specialize (F1 eq_refl). replace m with n' by lia.
    destruct (IH st1 c1 n' (moved_heading _ _ _ _ _ _ Hd M) ltac:(lia)) as (r & R2 & S2). exists r. split; [done|]. eapply stepped_after; try done. lia.
  - destruct Hr as (n' & M & _ & F2). eexists. split; [reflexivity|]. exists n'. split; [done|]. intros _. by apply F2.
  - eexists. by split; [reflexivity|].
  - eexists. by split; [reflexivity|].
Qed.
End Towards.

(** Two paths of the tree share their first blocks. *)
Lemma fork_exists idx p lp t l : tree_ok g idx -> lineage idx p lp -> lineage idx t l ->
  exists k f, fork_of lp l = Some f /\ l !! k = Some f /\ lp !! k = Some f /\ take (S k) l = take (S k) lp /\
    forall n, l = take (S n) lp -> (n < length lp)%nat -> n = k.
Proof.
  intros T H Ht. pose proof (to_root _ _ T _ _ H) as R1. pose proof (to_root _ _ T _ _ Ht) as R2.
  assert (Q : forall n, l = take (S n) lp -> (n < length lp)%nat -> length (max_prefix lp l).2 = S n).
  { intros n El Hn. rewrite (max_prefix_take lp l (S n)), length_take; [lia|rewrite El, take_take; f_equal; lia|lia|].
    intros x _ C. apply lookup_lt_Some in C. rewrite El, length_take in C. lia. }
  unfold fork_of. destruct (max_prefix lp l) as [[r1 r2] pre] eqn:M. cbn [snd] in *.
  pose proof (max_prefix_fst_alt _ _ _ _ _ M) as E1. pose proof (max_prefix_snd_alt _ _ _ _ _ M) as E2.
  destruct (decide (pre = [])) as [->|N].
  { exfalso. cbn in E1, E2. subst. destruct r1 as [|a r1], r2 as [|b r2]; try done. cbn in R1, R2. simplify_eq. cbn in M.
    destruct (max_prefix r1 r2) as [[??]?]. by case_decide. }
  apply last_is_Some in N as [f Lf]. pose proof Lf as Lf'. rewrite last_lookup in Lf. exists (pred (length pre)), f. split; [done|].
  pose proof (lookup_lt_Some _ _ _ Lf). split; [rewrite E2; by apply lookup_app_l_Some|]. split; [rewrite E1; by apply lookup_app_l_Some|].
  replace (S (pred (length pre))) with (length pre) by lia. split; [rewrite E1, E2; by rewrite !take_app_length|].
  intros n El Hn. rewrite (Q n El Hn). done.
Qed.

(** ** A step *)

Lemma step_spec st c t l p lp : select_inv g st l -> lineage (cs_index st) t l -> coherent c l -> lineage (cs_index st) p lp ->
  p ∈ setBlockIndexCandidates st -> good_path (cs_index st) p -> p <> t -> work_lt addr (cs_index st) p t = false ->
  exists r, ActivateBestChainStep addr st c p = Some r /\
    ((step_ok r = false /\ system_failed) \/
     exists k, stepped p lp (with_chain st (Some <$> take (S k) lp)) k r /\ (S k < length lp)%nat /\
       forall n, l = take (S n) lp -> (n < length lp)%nat -> n = k).
Proof.
  intros Inv Ht Co H Hp G Nt W. pose proof (si_tree _ _ _ Inv) as T. pose proof (to_index _ _ T) as Hi.
  destruct (fork_exists _ _ _ _ _ T H Ht) as (k & f & Ff & Lk & Lpk & Tk & Uk).
  unfold ActivateBestChainStep. rewrite (si_active _ _ _ Inv), (FindFork_path _ Hi p lp l H), Ff by (right; by exists t). cbn [obind].
  destruct (disconnect_to_spec (length (Some <$> l)) st t l c k f Hi Ht (si_active _ _ _ Inv) Co Lk) as (ok & st1 & c1 & R & D);
    [rewrite length_fmap; lia|]. rewrite R. cbn [obind]. destruct ok; cbn [negb].
  2: { eexists. split; [reflexivity|]. by left. }
  destruct D as [-> Co1]. rewrite Tk in *. cbn [cs_index with_chain].
  destruct (lineage_lookup _ _ _ H) as [bm Em]. destruct (lineage_height _ Hi _ _ _ H Em) as [Hh H0].
  destruct (lineage_at _ Hi _ _ _ _ H Lpk) as (bf & Ef & Hf & _). rewrite Em, Ef. cbn [obind]. rewrite Hf.
  pose proof (lookup_lt_Some _ _ _ Lpk) as Hk. replace (nHeight bm) with (Z.of_nat (pred (length lp))) by lia. rewrite Nat2Z.id.
  destruct (connect_batches_spec p lp (S (pred (length lp))) (Tip (Some <$> l)) (with_chain st (Some <$> take (S k) lp)) c1 k) as (r & R2 & Hr).
  - split; try done. eapply (select_inv_move st); try done. by apply (si_cands _ _ _ Inv).
  - lia.
  - exists r. split; [done|]. right. exists k. split; [done|]. split; [|done].
    destruct (decide (S k < length lp)%nat) as [|N]; [done|]. exfalso.
    pose proof (lineage_last _ _ _ H) as La. rewrite last_lookup in La. replace (pred (length lp)) with k in La by lia. rewrite Lpk in La. injection La as ->.
    pose proof (lineage_last _ _ _ Ht) as Lt. rewrite last_lookup in Lt. pose proof (lookup_lt_Some _ _ _ Lk).
    destruct (decide (k = pred (length l))) as [->|]; [congruence|].
    destruct (lineage_work_lt t l _ k (pred (length l)) p t T Ht Lk Lt ltac:(lia)) as [_ W2]. rewrite W2 in W by lia. done.
Qed.

(** Marking a block takes it off the usable ones. *)
Lemma marked_spec st x st' b : cs_index st !! x = Some b -> is_failed b = false -> marked st x st' ->
  marks_grow (cs_index st) (cs_index st') /\ unfailed (cs_index st') ⊂ unfailed (cs_index st) /\
  (forall q b', q <> x -> cs_index st' !! q = Some b' -> cs_index st !! q = Some b') /\ forall b', cs_index st' !! x = Some b' -> ~ good b'.
Proof.
  intros E F [K1 _ _]. rewrite K1. pose proof (add_status_grows st x BLOCK_FAILED_VALID eq_refl) as M. split; [done|].
  assert (X : forall b', cs_index (add_status st x BLOCK_FAILED_VALID) !! x = Some b' -> is_failed b' = true).
  { intros b' E'. cbn in E'. rewrite lookup_alter_eq, E in E'. cbn in E'. simplify_eq. rewrite is_failed_lor. by rewrite orb_true_r. }
  split; [split; [by apply unfailed_shrinks|]|].
  - intros C. specialize (C x). rewrite !unfailed_elem in C. destruct C as (b' & E' & F'); [eauto|]. rewrite (X _ E') in F'. done.
  - split; [|intros b' E' [G _]; rewrite (X _ E') in G; done]. intros q b' N E'. cbn in E'. by rewrite lookup_alter_ne in E'.
Qed.
Lemma select_inv_marked st x st' b l : select_inv g st l -> cs_index st !! x = Some b -> is_failed b = false -> x ∉ l -> marked st x st' -> select_inv g st' l.
Proof.
  intros [I1 I2 (t & I3 & IL) I4 I5] E F N Mk. destruct (marked_spec _ _ _ _ E F Mk) as ([S M] & _ & Q & _). destruct Mk as [K1 K2 K3]. split.
  - by eapply tree_ok_same.
  - congruence.
  - exists t. split; [by eapply lineage_same|by eapply linked_same].
  - intros q b' Hq E'. apply (I4 q); [done|]. apply Q; [by intros ->|done].
  - intros q Hq. rewrite K3 in Hq. destruct (I5 q ltac:(set_solver)) as [[bq Eq] L]. destruct (same_tree_lookup _ _ _ _ S Eq) as (b' & E' & _).
    split; [eauto|by eapply linked_same].
Qed.

(** ** The loops *)

(** The chain is on [t] with the path [l]; [s] is the tip the loop started from,
    whose chain [ls] was connected before; every usable block that is not worse
    than [s] is a candidate. *)
Record located (st : ChainState) (c : Coins) (s t : hash) (ls l : list hash) : Prop := {
  lo_inv : select_inv g st l;
  lo_tip : lineage (cs_index st) t l;
  lo_coh : coherent c l;
  lo_start : lineage (cs_index st) s ls;
  lo_good : good_path (cs_index st) s;
  lo_linked : linked (cs_index st) s;
  lo_start_coh : exists cs, coherent cs ls;
  lo_order : work_lt addr (cs_index st) s t = false;
  lo_complete : forall q, good_path (cs_index st) q -> linked (cs_index st) q -> work_lt addr (cs_index st) q s = false -> q ∈ setBlockIndexCandidates st
}.
Lemma good_path_some idx q : good_path idx q -> is_Some (idx !! q).
Proof. intros (l & H & _). by eapply lineage_lookup. Qed.
#[local] Hint Resolve good_path_some lineage_lookup : core.
Lemma located_start st c s t ls l : located st c s t ls l -> s ∈ setBlockIndexCandidates st.
Proof. intros []. apply lo_complete0; [done|done|]. apply work_lt_irrefl, (to_work g), (si_tree _ _ _ lo_inv0). Qed.
Lemma located_found st c s t ls l r st' : located st c s t ls l -> found addr st r st' -> located st' c s t ls l.
Proof.
  intros [I1 I2 I3 I4 I5 I6 I7 I8 I9] [F1 F2 F3 F4 F5 _]. pose proof (proj1 F1) as S. split; try done.
  - by apply (select_inv_shrink g st).
  - by eapply lineage_same.
  - by eapply lineage_same.
  - by apply F2.
  - by eapply linked_same.
  - by rewrite <- (work_lt_same addr _ _ s t S).
  - intros q Gq Lq W. rewrite <- (work_lt_same addr _ _ q s S) in W. apply good_path_shrinks with (1 := F1) in Gq.
    apply (F5 q); [|done]. apply I9; [done| |done]. eapply linked_same; [symmetry|]; eauto.
Qed.
(** After blocks towards [p] were connected: the loop goes on from the same start, or
    from the new tip. *)
Lemma located_moved st c s t ls l p lp k st' c' n' t' : located st c s t ls l -> lineage (cs_index st) p lp ->
  moved p lp (with_chain st (Some <$> take (S k) lp)) k st' c' n' -> lp !! n' = Some t' ->
  if work_lt addr (cs_index st') t' s then located st' c' s t' ls (take (S n') lp)
  else located st' c' t' t' (take (S n') lp) (take (S n') lp).
Proof.
  intros [I1 I2 I3 I4 I5 I6 I7 I8 I9] H [M1 M2 M3 M4 M5 M6 M7] Lt. cbn [cs_index setBlockIndexCandidates with_chain] in *.
  pose proof (proj1 M4) as S. pose proof (si_tree _ _ _ M2) as T'. pose proof (to_work _ _ T') as Wk.
  assert (Ht' : lineage (cs_index st') t' (take (Datatypes.S n') lp)) by (eapply lineage_prefix; [by eapply lineage_same|done]).
  assert (Is : is_Some (cs_index st' !! s)) by (eapply lineage_lookup, lineage_same; eauto).
  assert (Key : forall q, good_path (cs_index st') q -> linked (cs_index st') q -> work_lt addr (cs_index st') q s = false ->
    work_lt addr (cs_index st') q t' = false -> q ∈ setBlockIndexCandidates st').
  { intros q Gq Lq W1 W2. rewrite <- (work_lt_same addr _ _ q s S) in W1. rewrite <- (work_lt_same addr _ _ q t' S) in W2. apply (M7 q t'); [|done|done].
    apply I9; [by eapply same_marks_path|eapply linked_same; [symmetry|]; eauto|done]. }
  destruct (si_path _ _ _ M2) as (t'' & Ht'' & Lt'').
  assert (t'' = t') as -> by (pose proof (lineage_last _ _ _ Ht''); pose proof (lineage_last _ _ _ Ht'); congruence).
  assert (It : is_Some (cs_index st' !! t')) by (by eapply lineage_lookup).
  destruct (work_lt addr (cs_index st') t' s) eqn:W.
  - split; try done; [by eapply lineage_same|by eapply same_marks_path; [symmetry|]|by eapply linked_same|apply work_lt_asym; eauto|].
    intros q Gq Lq W1. apply Key; try done. apply (work_le_trans addr (cs_index st') q s t'); eauto. apply work_lt_asym; eauto.
  - split; try done; [|by exists c'|by apply work_lt_irrefl|].
    + exists (take (Datatypes.S n') lp). split; [done|]. apply (si_good _ _ _ M2).
    + intros q Gq Lq W1. apply Key; try done. apply (work_le_trans addr (cs_index st') q t' s); eauto.
Qed.
(** Marking the rejected block changes none of this. *)
Lemma located_marked st c s t ls l p lp n x st' : located st c s t ls l -> lineage (cs_index st) p lp -> good_path (cs_index st) p ->
  l = take (S n) lp -> lp !! S n = Some x -> connect x c = Rejected false -> marked st x st' ->
  located st' c s t ls l /\ marks_grow (cs_index st) (cs_index st') /\ unfailed (cs_index st') ⊂ unfailed (cs_index st).
Proof.
  intros [I1 I2 I3 I4 I5 I6 I7 I8 I9] H G El Lx Ec Mk. pose proof (to_index _ _ (si_tree _ _ _ I1)) as Hi.
  destruct (lineage_at _ Hi _ _ _ _ H Lx) as (b & E & _). destruct (good_at _ _ _ _ _ _ G H Lx E) as [F _].
  assert (Nx : forall l' c', coherent c' l' -> (exists y, lineage (cs_index st) y l') -> x ∉ l').
  { intros l' c' Co' [y Hy] Hx. apply list_elem_of_lookup in Hx as [i Li].
    pose proof (lineage_functional _ _ _ _ (lineage_prefix _ _ _ _ _ Hy Li) (lineage_prefix _ _ _ _ _ H Lx)) as Eq.
    rewrite (take_S_r _ _ _ Li), (take_S_r _ _ _ Lx), <- El in Eq. apply app_inj_tail in Eq as [Eq _].
    rewrite <- Eq in I3. destruct (coherent_next _ _ _ _ _ Co' I3 Li) as (c2 & u & C). congruence. }
  destruct (marked_spec _ _ _ _ E F Mk) as (M & U & Q & B). split; [|done]. pose proof (proj1 M) as S. destruct I7 as [cs I7]. split; try done.
  - eapply select_inv_marked; eauto.
  - by eapply lineage_same.
  - by eapply lineage_same.
  - exists ls. split; [by eapply lineage_same|]. intros q b' Hq E'. apply list_elem_of_lookup in Hq as [i Li].
    eapply (good_at _ s ls); [done|done|done|]. apply Q; [|done]. intros ->. apply (Nx ls cs); eauto. by eapply list_elem_of_lookup_2.
  - by eapply linked_same.
  - by exists cs.
  - by rewrite <- (work_lt_same addr _ _ s t S).
  - intros q Gq Lq W. rewrite (mk_cands _ _ _ Mk). apply elem_of_difference. split.
    + rewrite <- (work_lt_same addr _ _ q s S) in W. apply I9; [by eapply good_path_shrinks|eapply linked_same; [symmetry|]; eauto|done].
    + intros ->%elem_of_singleton. destruct Gq as (lq & Hq & Gq). pose proof (lineage_lookup _ _ _ Hq) as [b' E'].
      apply (B b' E'), (Gq x); [|done]. apply last_Some_elem_of. by eapply lineage_last.
Qed.

(** A usable candidate that no other beats. *)
Definition chosen (st : ChainState) (p : hash) : Prop :=
  p ∈ setBlockIndexCandidates st /\ good_path (cs_index st) p /\ forall q, q ∈ setBlockIndexCandidates st -> work_lt addr (cs_index st) p q = false.
(** No usable block beats [t]. *)
Definition best (idx : BlockMap) (t : hash) : Prop := forall q, good_path idx q -> linked idx q -> work_lt addr idx t q = false.
Definition most_ok (st : ChainState) (l : list hash) (most : option hash) : Prop :=
  forall p, most = Some p -> chosen st p /\ exists lp n, lineage (cs_index st) p lp /\ (n < length lp)%nat /\ l = take (S n) lp.
Definition loop_ok (L : LoopState) (s : hash) : Prop :=
  exists t ls l, located (loop_st L) (loop_coins L) s t ls l /\ starting_tip L = Some s /\ most_ok (loop_st L) l (pindexMostWork L) /\
    if blocks_connected L then work_lt addr (cs_index (loop_st L)) t s = true else s = t.
(** What the activation ends with, from [st] with the tip [s]. *)
Definition activated (st : ChainState) (s : hash) (r : bool * ChainState * Coins) : Prop :=
  let '(ok, st', c') := r in
  if ok : bool then
    exists t l, select_inv g st' l /\ lineage (cs_index st') t l /\ coherent c' l /\ marks_grow (cs_index st) (cs_index st') /\
      work_lt addr (cs_index st') t s = false /\ best (cs_index st') t /\
      forall q, good_path (cs_index st') q -> linked (cs_index st') q -> work_lt addr (cs_index st') q t = false -> q ∈ setBlockIndexCandidates st'
  else system_failed.

Lemma activated_weaken st s st1 s1 r : work_ok (cs_index st) -> is_Some (cs_index st !! s) -> is_Some (cs_index st !! s1) -> marks_grow (cs_index st) (cs_index st1) ->
  work_lt addr (cs_index st1) s1 s = false -> activated st1 s1 r -> activated st s r.
Proof.
  intros Wk Is Is1 M W. destruct r as [[[] st'] c']; [|done]. intros (t & l & A1 & A2 & A3 & A4 & A5 & A6). exists t, l. split; [done|]. split; [done|].
  split; [done|]. assert (M' : marks_grow (cs_index st) (cs_index st')) by (by etrans). split; [done|]. split; [|done].
  rewrite (work_lt_same addr _ _ _ _ (proj1 A4)) in W.
  assert (D : forall q, is_Some (cs_index st !! q) -> is_Some (cs_index st' !! q)).
  { intros q [b E]. destruct (same_tree_lookup _ _ _ _ (proj1 M') E) as (b' & E' & _). eauto. }
  apply (work_le_trans addr (cs_index st') t s1 s); auto; [by eapply work_ok_same; [apply M'|]|by eapply lineage_lookup].
Qed.
Lemma located_work st c s t ls l : located st c s t ls l -> work_ok (cs_index st) /\ is_Some (cs_index st !! s) /\ is_Some (cs_index st !! t).
Proof. intros []. split; [apply (to_work g), (si_tree _ _ _ lo_inv0)|]. split; by eapply lineage_lookup. Qed.
Lemma located_tip st c s t ls l : located st c s t ls l -> Tip (chainActive st) = Some t.
Proof. intros []. rewrite (si_active _ _ _ lo_inv0), Tip_path. by eapply lineage_last. Qed.
(** On the chosen candidate, the activation is done. *)
Lemma activated_here st c s t ls l : located st c s t ls l -> chosen st t -> activated st s (true, st, c).
Proof.
  intros Lo (C1 & C2 & C3). pose proof (located_start _ _ _ _ _ _ Lo) as Hs. destruct (located_work _ _ _ _ _ _ Lo) as (Wk & Is & It).
  exists t, l. split; [apply Lo|]. split; [apply Lo|]. split; [apply Lo|]. split; [done|]. split; [by apply C3|]. split.
  2: { intros q Gq Lq W. apply (lo_complete _ _ _ _ _ _ Lo); [done|done|]. apply (work_le_trans addr (cs_index st) q t s); auto. }
  intros q Gq Lq. destruct (work_lt addr (cs_index st) q s) eqn:W; [|by apply C3, (lo_complete _ _ _ _ _ _ Lo)].
  apply (work_le_trans addr (cs_index st) t s q); auto. apply work_lt_asym; auto.
Qed.
(** The target of the next step. *)
Lemma choose L s t ls l : located (loop_st L) (loop_coins L) s t ls l -> most_ok (loop_st L) l (pindexMostWork L) ->
  exists p st, (match pindexMostWork L with Some p => Some (Some p, loop_st L) | None => FindMostWorkChain addr (loop_st L) end) = Some (Some p, st) /\
    located st (loop_coins L) s t ls l /\ chosen st p /\ marks_grow (cs_index (loop_st L)) (cs_index st) /\
    (pindexMostWork L = Some p /\ st = loop_st L \/ pindexMostWork L = None).
Proof.
  intros Lo Mo. destruct (pindexMostWork L) as [p|] eqn:E.
  - exists p, (loop_st L). split; [done|]. destruct (Mo p eq_refl) as [C _]. split; [done|]. split; [done|]. split; [done|]. by left.
  - destruct (FindMostWorkChain_found addr g _ _ (lo_inv _ _ _ _ _ _ Lo)) as (r & st & R & Fo). rewrite R.
    pose proof (located_found _ _ _ _ _ _ _ _ Lo Fo) as Lo'. pose proof (located_start _ _ _ _ _ _ Lo') as Hs.
    destruct Fo as [F1 _ _ _ _ F6]. destruct r as [p|]; [|rewrite F6 in Hs; set_solver]. exists p, st. split; [done|]. split; [done|]. by auto.
Qed.
(** The end of an iteration. *)
Lemma tail_spec st c s t ls l most : located st c (if work_lt addr (cs_index st) t s then s else t) t (if work_lt addr (cs_index st) t s then ls else l) l ->
  is_Some (cs_index st !! s) -> most_ok st l most ->
  exists r, (if match Tip (chainActive st) with None => true | Some t => work_lt addr (cs_index st) t s end
             then Some (inl (mkLoop (Some s) most true st c)) else Some (outer_check most true st c)) = Some r /\
    match r with
    | inl L' => loop_st L' = st /\ pindexMostWork L' = most /\ exists s', loop_ok L' s' /\ is_Some (cs_index st !! s') /\ work_lt addr (cs_index st) s' s = false
    | inr res => activated st s res
    end.
Proof.
  intros Lo Is Mo. rewrite (located_tip _ _ _ _ _ _ Lo). destruct (located_work _ _ _ _ _ _ Lo) as (Wk & Is' & It).
  destruct (work_lt addr (cs_index st) t s) eqn:W.
  - eexists. split; [reflexivity|]. split; [done|]. split; [done|]. exists s. split; [|split; [done|by apply work_lt_irrefl]]. exists t, ls, l. by split; [exact Lo|].
  - eexists. split; [reflexivity|]. unfold outer_check. cbn [negb]. rewrite (located_tip _ _ _ _ _ _ Lo). case_bool_decide as D.
    + destruct (Mo _ D) as [C _]. eapply activated_weaken; [done|done|exact It|done|done|]. by eapply activated_here.
    + split; [done|]. split; [done|]. exists t. split; [|done]. exists t, l, l. by split; [exact Lo|].
Qed.

(** One step of the activation: fewer usable blocks, or the same target closer. *)
Definition closer (L L' : LoopState) : Prop :=
  unfailed (cs_index (loop_st L')) ⊂ unfailed (cs_index (loop_st L)) \/
  unfailed (cs_index (loop_st L')) ⊆ unfailed (cs_index (loop_st L)) /\
    exists p, pindexMostWork L' = Some p /\
      (pindexMostWork L = None \/
       pindexMostWork L = Some p /\ (length (chainActive (loop_st L)) < length (chainActive (loop_st L')))%nat).

(** Blocks were connected, and none was rejected. *)
Lemma moved_most st c s t ls l p lp k st' c' n' : located st c s t ls l -> lineage (cs_index st) p lp -> chosen st p ->
  moved p lp (with_chain st (Some <$> take (S k) lp)) k st' c' n' -> most_ok st' (take (S n') lp) (Some p) /\ good_path (cs_index st') p.
Proof.
  intros Lo H (C1 & C2 & C3) [M1 M2 M3 M4 M5 M6 M7]. cbn [cs_index setBlockIndexCandidates with_chain] in *.
  assert (G : good_path (cs_index st') p) by (by eapply same_marks_path; [symmetry|]). split; [|done]. intros p' [= <-]. split.
  - split; [done|]. split; [done|]. intros q Hq. rewrite <- (work_lt_same addr _ _ _ _ (proj1 M4)). apply C3. set_solver.
  - exists lp, n'. split; [eapply lineage_same; [apply M4|done]|]. split; [lia|done].
Qed.
(** Where a step leaves the loop. *)
Lemma step_outcome st c s t ls l p lp k inv st' c' : located st c s t ls l -> lineage (cs_index st) p lp -> chosen st p ->
  stepped p lp (with_chain st (Some <$> take (S k) lp)) k (mkStep true inv st' c') ->
  exists t' n', lp !! n' = Some t' /\ marks_grow (cs_index st) (cs_index st') /\ most_ok st' (take (S n') lp) (if inv then None else Some p) /\
    located st' c' (if work_lt addr (cs_index st') t' s then s else t') t' (if work_lt addr (cs_index st') t' s then ls else take (S n') lp) (take (S n') lp) /\
    if inv then unfailed (cs_index st') ⊂ unfailed (cs_index st)
    else unfailed (cs_index st') = unfailed (cs_index st) /\ ((S k < length lp)%nat -> (k < n')%nat).
Proof.
  intros Lo H Cp Hr. unfold stepped in Hr. cbn [step_ok fInvalidFound step_st step_coins] in Hr.
  assert (Mv : forall st1 n', moved p lp (with_chain st (Some <$> take (S k) lp)) k st1 c' n' -> exists t', lp !! n' = Some t' /\
    located st1 c' (if work_lt addr (cs_index st1) t' s then s else t') t' (if work_lt addr (cs_index st1) t' s then ls else take (S n') lp) (take (S n') lp)).
  { intros st1 n' M. destruct (lookup_lt_is_Some_2 lp n') as [t' Lt]; [apply (mv_le _ _ _ _ _ _ _ M)|]. exists t'. split; [done|].
    pose proof (located_moved _ _ _ _ _ _ _ _ _ _ _ _ _ Lo H M Lt) as L1. by destruct (work_lt addr (cs_index st1) t' s). }
  destruct inv.
  - destruct Hr as (n' & st1 & x & M & Lx & Ec & Mk). destruct (Mv st1 n' M) as (t' & Lt & L1). destruct (moved_most _ _ _ _ _ _ _ _ _ _ _ _ Lo H Cp M) as [_ G].
    pose proof (mv_marks _ _ _ _ _ _ _ M) as S. cbn [cs_index with_chain] in S.
    destruct (located_marked _ _ _ _ _ _ p lp n' x st' L1) as (L2 & M2 & U2); try done; [eapply lineage_same; [apply S|done]|].
    exists t', n'. split; [done|]. split; [etrans; [by apply same_marks_grow|done]|]. split; [done|].
    rewrite <- !(work_lt_same addr _ _ _ _ (proj1 M2)). split; [done|]. by rewrite <- (same_marks_unfailed _ _ S).
  - destruct Hr as (n' & M & F). destruct (Mv st' n' M) as (t' & Lt & L1). destruct (moved_most _ _ _ _ _ _ _ _ _ _ _ _ Lo H Cp M) as [Mo _].
    pose proof (mv_marks _ _ _ _ _ _ _ M) as S. cbn [cs_index with_chain] in S.
    exists t', n'. split; [done|]. split; [by apply same_marks_grow|]. split; [done|]. split; [done|]. by split; [apply same_marks_unfailed|].
Qed.
(** The target of a step, on another block than the tip and not worse. *)
Lemma chosen_ahead st c s t ls l p : located st c s t ls l -> chosen st p -> work_lt addr (cs_index st) p t = false.
Proof.
  intros Lo (C1 & C2 & C3). destruct (located_work _ _ _ _ _ _ Lo) as (Wk & Is & It).
  apply (work_le_trans addr (cs_index st) p s t); auto; [apply C3; by eapply located_start|apply Lo].
Qed.
Definition continued (L : LoopState) (s : hash) (r : LoopState + (bool * ChainState * Coins)) : Prop :=
  match r with
  | inl L' => exists s', loop_ok L' s' /\ marks_grow (cs_index (loop_st L)) (cs_index (loop_st L')) /\
                is_Some (cs_index (loop_st L) !! s') /\ work_lt addr (cs_index (loop_st L')) s' s = false /\ closer L L'
  | inr res => activated (loop_st L) s res
  end.
Lemma abc_step_spec L s : loop_ok L s -> exists r, abc_step addr L = Some r /\ continued L s r.
Proof.
  intros (t & ls & l & Lo & Es & Mo & Wh). destruct (choose L s t ls l Lo Mo) as (p & st & Ch & Lo1 & Cp & M & Same).
  destruct (located_work _ _ _ _ _ _ Lo) as (Wk & Is & It). destruct (located_work _ _ _ _ _ _ Lo1) as (Wk1 & Is1 & It1).
  unfold abc_step. rewrite Ch. cbn [obind]. rewrite (located_tip _ _ _ _ _ _ Lo1). case_bool_decide as D.
  { eexists. split; [reflexivity|]. injection D as ->. pose proof (activated_here _ _ _ _ _ _ Lo1 Cp) as A.
    assert (O : outer_check (Some t) (blocks_connected L) st (loop_coins L) = inr (true, st, loop_coins L)).
    { unfold outer_check. destruct (blocks_connected L); [|done]. cbn [negb]. by rewrite (located_tip _ _ _ _ _ _ Lo1), bool_decide_true. }
    rewrite O. eapply activated_weaken; [done|exact Is|exact Is|exact M|by apply work_lt_irrefl|exact A]. }
  pose proof Cp as (C1 & (lp & H & G) & C3). pose proof (chosen_ahead _ _ _ _ _ _ _ Lo1 Cp) as Wp.
  destruct (step_spec st (loop_coins L) t l p lp (lo_inv _ _ _ _ _ _ Lo1) (lo_tip _ _ _ _ _ _ Lo1) (lo_coh _ _ _ _ _ _ Lo1) H C1 (ex_intro _ lp (conj H G))
    ltac:(congruence) Wp) as (r & R & Hr).
  rewrite R. cbn [obind]. destruct r as [ok inv st' c']. cbn [step_ok] in Hr. destruct Hr as [[-> F]|(k & Hr & Hk & Uk)].
  { eexists. by split; [reflexivity|]. }
  destruct ok; cbn [negb]; [|by eexists; split; [reflexivity|]].
  destruct (step_outcome _ _ _ _ _ _ _ _ _ _ _ _ Lo1 H Cp Hr) as (t' & n' & Lt & M2 & Mo2 & Lo2 & U).
  assert (M' : marks_grow (cs_index (loop_st L)) (cs_index st')) by (by etrans).
  assert (Back : forall q, is_Some (cs_index st' !! q) -> is_Some (cs_index (loop_st L) !! q)).
  { intros q [b E]. destruct (same_tree_lookup _ _ _ _ (symmetry (proj1 M')) E) as (b' & E' & _). eauto. }
  destruct (tail_spec st' c' s t' ls (take (S n') lp) (if inv then None else Some p) Lo2) as (r & R2 & Hr2); [|done|].
  { destruct Is as [b E]. destruct (same_tree_lookup _ _ _ _ (proj1 M') E) as (b' & E' & _). eauto. }
  rewrite Es, R2. eexists. split; [reflexivity|]. destruct r as [L'|res]; cbn [continued].
  2: { eapply activated_weaken; [done|exact Is|exact Is|exact M'|by apply work_lt_irrefl, (to_work g), (si_tree _ _ _ (lo_inv _ _ _ _ _ _ Lo2))|done]. }
  destruct Hr2 as (E1 & E2 & s' & Ok & Is' & W'). rewrite E1 in *. exists s'. split; [done|]. split; [done|]. split; [by apply Back|]. split; [done|].
  unfold closer. rewrite E1, E2. pose proof (unfailed_shrinks _ _ M) as Sh. destruct inv.
  - left. set_solver.
  - right. destruct U as [-> U]. split; [done|]. exists p. split; [done|]. destruct Same as [[Sm ->]|Sm]; [right|by left]. split; [done|].
    destruct (Mo p Sm) as (_ & lp' & n & H' & Hn & El). assert (lp' = lp) as -> by (by eapply lineage_functional). rewrite (Uk n El Hn) in El.
    rewrite (si_active _ _ _ (lo_inv _ _ _ _ _ _ Lo)), (si_active _ _ _ (lo_inv _ _ _ _ _ _ Lo2)), !length_fmap, El, !length_take.
    apply lookup_lt_Some in Lt. specialize (U Hk). lia.
Qed.

(** The loops end. *)
Lemma subset_fewer (X Y : gset hash) : X ⊂ Y -> (length (elements X) < length (elements Y))%nat.
Proof. exact (subset_size X Y). Qed.
Lemma subseteq_fewer (X Y : gset hash) : X ⊆ Y -> (length (elements X) <= length (elements Y))%nat.
Proof. exact (subseteq_size X Y). Qed.
Lemma abc_loop_more fuel fuel' L r : abc_loop addr fuel L = Some r -> (fuel <= fuel')%nat -> abc_loop addr fuel' L = Some r.
Proof.
  revert fuel' L. induction fuel as [|fuel IH]; intros fuel' L E F; [done|]. destruct fuel' as [|fuel']; [lia|]. cbn [abc_loop] in *.
  destruct (abc_step addr L) as [[L'|res]|]; cbn [obind] in *; [apply IH; [done|lia]|done|done].
Qed.
Definition ends (L : LoopState) (s : hash) : Prop := exists fuel res, abc_loop addr fuel L = Some res /\ activated (loop_st L) s res.
Lemma ends_step L s : loop_ok L s ->
  (forall L' s', loop_ok L' s' -> marks_grow (cs_index (loop_st L)) (cs_index (loop_st L')) -> closer L L' -> ends L' s') -> ends L s.
Proof.
  intros Ok K. pose proof Ok as (t & ls & l & Lo & _). destruct (located_work _ _ _ _ _ _ Lo) as (Wk & Is & _).
  destruct (abc_step_spec L s Ok) as ([L'|res] & R & C).
  - destruct C as (s' & Ok' & M & Is' & W & Cl). destruct (K L' s' Ok' M Cl) as (fuel & res & R' & A). exists (S fuel), res. cbn [abc_loop]. rewrite R. cbn [obind].
    split; [done|]. by eapply activated_weaken.
  - exists 1%nat, res. cbn [abc_loop]. by rewrite R.
Qed.
(** Towards a target, then in all. *)
Lemma ends_target u L s p lp : (forall L' s', loop_ok L' s' -> (length (elements (unfailed (cs_index (loop_st L')))) < u)%nat -> ends L' s') ->
  loop_ok L s -> (length (elements (unfailed (cs_index (loop_st L)))) <= u)%nat -> pindexMostWork L = Some p -> lineage (cs_index (loop_st L)) p lp -> ends L s.
Proof.
  intros Hu. remember (length lp - length (chainActive (loop_st L)))%nat as d eqn:Ed. revert L s Ed.
  induction d as [d IH] using lt_wf_ind. intros L s -> Ok U Em H. apply ends_step; [done|]. intros L' s' Ok' M [Cl|(Cl & p' & Em' & [C|[C Hl]])].
  - apply Hu; [done|]. apply subset_fewer in Cl. lia.
  - congruence.
  - assert (p' = p) as -> by congruence. assert (H' : lineage (cs_index (loop_st L')) p lp) by (eapply lineage_same; [apply M|done]).
    eapply (IH (length lp - length (chainActive (loop_st L')))%nat); try done.
    + destruct Ok' as (t & ls & l & Lo & _ & Mo & _). destruct (Mo p Em') as (_ & lp' & n & H2 & Hn & El).
      assert (lp' = lp) as -> by (by eapply lineage_functional).
      rewrite (si_active _ _ _ (lo_inv _ _ _ _ _ _ Lo)), length_fmap, El, length_take in *. lia.
    + apply subseteq_fewer in Cl. lia.
Qed.
Lemma ends_all L s : loop_ok L s -> ends L s.
Proof.
  remember (length (elements (unfailed (cs_index (loop_st L))))) as u eqn:Eu. revert L s Eu. induction u as [u IH] using lt_wf_ind. intros L s -> Ok.
  assert (Hu : forall L' s', loop_ok L' s' -> (length (elements (unfailed (cs_index (loop_st L')))) < length (elements (unfailed (cs_index (loop_st L)))))%nat -> ends L' s')
    by (intros; eapply IH; eauto).
  apply ends_step; [done|]. intros L' s' Ok' M [Cl|(Cl & p' & Em' & _)].
  - apply Hu; [done|]. apply subset_fewer in Cl. lia.
  - pose proof Ok' as (t & ls & l & Lo & _ & Mo & _). destruct (Mo p' Em') as (_ & lp & n & H & _). eapply ends_target; try done.
    apply subseteq_fewer in Cl. lia.
Qed.
End Move.

(** * Example: a better branch with an invalid block *)

(** The coins are the blocks connected; block 4 is invalid. *)
#[export] Instance ex_io : ChainIO := {|
  Coins := list hash;
  connect p c := if decide (p = [4]) then Rejected false else Connected (p :: c) (Some 8);
  disconnect p c := (true, tail c)
|}.
#[export, refine] Instance ex_laws : ChainIOLaws ex_io := {| same_coins := (=) |}.
Proof.
  - cbn. intros p c ? c' u <- E. eauto.
  - cbn. intros p c c' u ? d' E <- [= <-]. case_decide; [done|]. by injection E as <- _.
  - cbn. intros p c. by case_decide.
Qed.
Lemma ex_coherent : coherent (io := ex_io) [] [[1]; [0]] [[0]; [1]].
Proof.
  apply (coherent_snoc (io := ex_io) [] [[0]] [[1]; [0]] (Some 8) _ [[0]]); [|done|done].
  apply (coherent_snoc (io := ex_io) [] [] [[0]] (Some 8) _ []); [by constructor|done|done].
Qed.
Lemma ex_complete q : good_path (sel_idx 11) q -> linked (sel_idx 11) q -> work_lt sel_addr (sel_idx 11) q [1] = false ->
  q ∈ setBlockIndexCandidates (sel_state 11).
Proof.
  intros G _. destruct (good_path_some _ _ G) as [b E].
  apply sel_cases in E as [[-> _]|[[-> _]|[[-> _]|[[-> _]|[-> _]]]]]; vm_compute; done.
Qed.

(** * The property *)

Lemma activation_ends (addr : hash -> Z) (g : hash) (io : ChainIO) (laws : ChainIOLaws io) (c0 c : Coins) (st : ChainState) (s : hash) (l : list hash) :
  select_inv g st l -> lineage (cs_index st) s l -> coherent c0 c l ->
  (forall q, good_path (cs_index st) q -> linked (cs_index st) q -> work_lt addr (cs_index st) q s = false -> q ∈ setBlockIndexCandidates st) ->
  exists enough r, (forall fuel, (enough <= fuel)%nat -> ActivateBestChain addr fuel st c = Some r) /\ activated addr g c0 st s r.
Proof.
  intros Inv H Co Cm. destruct (si_path _ _ _ Inv) as (s' & H' & L').
  assert (s' = s) as -> by (pose proof (lineage_last _ _ _ H); pose proof (lineage_last _ _ _ H'); congruence).
  assert (Tp : Tip (chainActive st) = Some s) by (rewrite (si_active _ _ _ Inv), Tip_path; by eapply lineage_last).
  destruct (ends_all addr g c0 (mkLoop (Tip (chainActive st)) None false st c) s) as (fuel & r & R & A).
  - exists s, l, l. split; [|by split; [|by split]]. split; try done; [exists l; split; [done|apply (si_good _ _ _ Inv)]|by exists c|].
    apply work_lt_irrefl, (to_work g), (si_tree _ _ _ Inv).
  - exists fuel, r. split; [|done]. intros fuel' F. by eapply abc_loop_more.
Qed.

(** C5: [ActivateBestChain] ends, and none of the assertions on its way fails. When it returns
    true, the coins are those of connecting the blocks of the active chain in order, its tip
    is not worse than the one before the call, and no block that has the data of its whole
    branch, none of it failed, beats it; the candidates are complete for the next call. It
    returns false only when connecting or disconnecting reported an error of the system.
    Before the call, the coins are those of the active chain and every usable block that is
    not worse than the tip is a candidate. *)
Theorem ActivateBestChain_best (addr : hash -> Z) (g : hash) (io : ChainIO) (laws : ChainIOLaws io) (c0 c : Coins) (st : ChainState) (s : hash) (l : list hash) :
  select_inv g st l -> lineage (cs_index st) s l -> coherent c0 c l ->
  (forall q, good_path (cs_index st) q -> linked (cs_index st) q -> work_lt addr (cs_index st) q s = false -> q ∈ setBlockIndexCandidates st) ->
  exists enough ok st' c', (forall fuel, (enough <= fuel)%nat -> ActivateBestChain addr fuel st c = Some (ok, st', c')) /\
    if ok then
      exists t l', select_inv g st' l' /\ lineage (cs_index st') t l' /\ coherent c0 c' l' /\ marks_grow (cs_index st) (cs_index st') /\
        work_lt addr (cs_index st') t s = false /\
        (forall q, good_path (cs_index st') q -> linked (cs_index st') q -> work_lt addr (cs_index st') t q = false) /\
        forall q, good_path (cs_index st') q -> linked (cs_index st') q -> work_lt addr (cs_index st') q t = false -> q ∈ setBlockIndexCandidates st'
    else system_failed.
Proof.
  intros Inv H Co Cm. destruct (activation_ends addr g io laws c0 c st s l Inv H Co Cm) as (fuel & [[ok st'] c'] & R & A). exists fuel, ok, st', c'. by split.
Qed.
Lemma ActivateBestChain_best_witness :
  select_inv [0] (sel_state 11) [[0]; [1]] /\
  (r <- ActivateBestChain sel_addr (io := ex_io) 5 (sel_state 11) [[1]; [0]];; Some (fst (fst r), chainActive (snd (fst r)), snd r)) =
    Some (true, Some <$> [[0]; [2]; [3]], [[3]; [2]; [0]]) /\
  exists enough ok st' c', (forall fuel, (enough <= fuel)%nat -> ActivateBestChain sel_addr (io := ex_io) fuel (sel_state 11) [[1]; [0]] = Some (ok, st', c')).
Proof.
  split; [apply sel_inv|]. split; [vm_compute; reflexivity|].
  destruct (ActivateBestChain_best sel_addr [0] ex_io ex_laws [] [[1]; [0]] (sel_state 11) [1] [[0]; [1]] (sel_inv 11) (sel_lineage 11 [1] _ eq_refl) ex_coherent ex_complete)
    as (enough & ok & st' & c' & H & _). eauto.
Defined.
