(* ===== verification/Receive.v ===== *)
(** Receiving blocks in any order (src/validation.cpp: [ReceivedBlockTransactions],
    modelled in ChainSelect): the blocks whose branch is complete are linked, and the
    candidates stay complete. *)
From Stdlib Require Import ZArith Lia List Bool.
From stdpp Require Import base gmap list sets.
From S2P Require Import Prelude Uint256 Consensus Pow Serialize Script Interpreter Codecs Transaction Block Chain ChainSelect.
Import ListNotations.
Local Open Scope Z_scope.
Local Open Scope passion_scope.

(** The transactions of the blocks of a path. *)
Definition txs (idx : BlockMap) (l : list hash) : Z := fold_right (fun q n => from_option nTx 0 (idx !! q) + n) 0 l.
Lemma txs_app idx l1 l2 : txs idx (l1 ++ l2) = txs idx l1 + txs idx l2.
Proof. induction l1 as [|q l1 IH]; cbn; [done|]. fold (txs idx (l1 ++ l2)) (txs idx l1). lia. Qed.
Lemma txs_ext idx idx' l : (forall q, q ∈ l -> nTx <$> idx !! q = nTx <$> idx' !! q) -> txs idx l = txs idx' l.
Proof.
  induction l as [|q l IH]; intros H; cbn; [done|]. fold (txs idx l) (txs idx' l). rewrite IH by (intros; apply H; by right).
  f_equal. specialize (H q ltac:(left)). by destruct (idx !! q), (idx' !! q); cbn in *; simplify_eq.
Qed.

Section Receive.
Variables (addr : hash -> Z) (g : hash).

(** The waiting blocks: those of [mapBlocksUnlinked] and of [queue]. *)
Record stored (st : ChainState) (queue : list hash) : Prop := {
  so_tree : tree_ok g (cs_index st);
  so_tx : forall p b, cs_index st !! p = Some b -> 0 <= nTx b /\ (has_data b = true <-> nTx b <> 0);
  so_count : forall p b l, cs_index st !! p = Some b -> lineage (cs_index st) p l -> nChainTx b <> 0 -> nTx b <> 0 /\ nChainTx b = txs (cs_index st) l;
  so_parent : forall p b q bq, cs_index st !! p = Some b -> nChainTx b <> 0 -> pprev b = Some q -> cs_index st !! q = Some bq -> nChainTx bq <> 0;
  so_valid : forall p b, cs_index st !! p = Some b -> BLOCK_VALID_TREE <= validity b;
  so_unlinked : forall a q, (a, q) ∈ mapBlocksUnlinked st ->
    exists b ba, cs_index st !! q = Some b /\ pprev b = Some a /\ cs_index st !! a = Some ba /\ nTx b <> 0 /\ nChainTx b = 0 /\ nChainTx ba = 0;
  so_queue : forall q, q ∈ queue ->
    exists b a ba, cs_index st !! q = Some b /\ pprev b = Some a /\ cs_index st !! a = Some ba /\ nTx b <> 0 /\ nChainTx b = 0 /\ nChainTx ba <> 0;
  so_nodup : NoDup (queue ++ (mapBlocksUnlinked st).*2);
  so_waiting : forall q b a ba, cs_index st !! q = Some b -> nTx b <> 0 -> nChainTx b = 0 -> pprev b = Some a -> cs_index st !! a = Some ba ->
    is_failed ba = false -> (a, q) ∈ mapBlocksUnlinked st \/ q ∈ queue;
  so_root : forall b, cs_index st !! g = Some b -> nChainTx b <> 0;
  so_bound : forall p l, lineage (cs_index st) p l -> txs (cs_index st) l < 2 ^ 32
}.

(** A block whose branch is complete and unfailed is linked. *)
Lemma good_linked_tx st p b : stored st [] -> good_path (cs_index st) p -> cs_index st !! p = Some b -> nChainTx b <> 0.
Proof.
  intros So (l & H & G). revert b. induction H as [p b' E P|p b' q l E P H IH]; intros b Eb; simplify_eq.
  - apply (so_root _ _ So). pose proof (to_root _ _ (so_tree _ _ So) p [p]) as R. cbn in R. specialize (R (lineage_root _ _ _ E P)). by simplify_eq.
  - assert (G' : forall x bx, x ∈ l -> cs_index st !! x = Some bx -> good bx) by (intros x bx Hx; apply G, elem_of_app; by left).
    destruct (lineage_lookup _ _ _ H) as [bq Eq]. specialize (IH G' _ Eq). intros Z0.
    assert (Hp : p ∈ l ++ [p]) by (apply elem_of_app; right; left). destruct (G p b' Hp E) as [_ D]. apply (so_tx _ _ So _ _ E) in D.
    assert (Fq : is_failed bq = false) by (eapply (G' q); [apply last_Some_elem_of; by eapply lineage_last|done]).
    destruct (so_waiting _ _ So _ _ _ _ E D Z0 P Eq Fq) as [W|W]; [|by apply elem_of_nil in W].
    apply (so_unlinked _ _ So) in W as (? & ? & ? & ? & ? & ? & ? & ?). by simplify_eq.
Qed.
Lemma tx_ancestors st queue p b l q bq : stored st queue -> cs_index st !! p = Some b -> nChainTx b <> 0 -> lineage (cs_index st) p l -> q ∈ l ->
  cs_index st !! q = Some bq -> nChainTx bq <> 0.
Proof.
  intros So E N H Hq Eq. apply list_elem_of_lookup in Hq as [n Ln]. pose proof (to_index _ _ (so_tree _ _ So)) as Hi.
  remember (pred (length l) - n)%nat as d eqn:Ed. revert n q bq Ln Eq Ed. induction d as [|d IH]; intros n q bq Ln Eq Ed.
  - pose proof (lineage_last _ _ _ H) as La. rewrite last_lookup in La. pose proof (lookup_lt_Some _ _ _ Ln).
    replace (pred (length l)) with n in La by lia. by simplify_eq.
  - destruct (lookup_lt_is_Some_2 l (S n)) as [x Lx]; [lia|]. destruct (lineage_at _ Hi _ _ _ _ H Lx) as (bx & Ex & _ & Px & _).
    rewrite Ln in Px. eapply (so_parent _ _ So x bx q); eauto. eapply IH; eauto. lia.
Qed.
Lemma linked_of_tx st queue p b : stored st queue -> cs_index st !! p = Some b -> nChainTx b <> 0 -> linked (cs_index st) p.
Proof. intros So E N l q bq H Hq Eq. left. exact (tx_ancestors _ _ _ _ _ _ _ So E N H Hq Eq). Qed.
(** An entry without a parent is the root. *)
Lemma root_entry st queue p b : stored st queue -> cs_index st !! p = Some b -> pprev b = None \/ nHeight b = 0 -> p = g.
Proof.
  intros So E R. pose proof (so_tree _ _ So) as T. destruct (index_lineage _ (to_index _ _ T) p b E) as [l H].
  assert (Hl : l = [p]).
  { pose proof (lineage_length _ (to_index _ _ T) _ _ _ H E) as Le. inversion H as [|? c q l' Ec Pc H']; [done|]. simplify_eq. exfalso.
    destruct R as [R|R]; [congruence|]. rewrite R, length_app in Le. inversion H'; subst; rewrite ?length_app in Le; cbn in Le; lia. }
  pose proof (to_root _ _ T _ _ H) as Ro. rewrite Hl in Ro. by injection Ro as ->.
Qed.
Lemma tx_of_linked st queue p b : stored st queue -> cs_index st !! p = Some b -> linked (cs_index st) p -> nChainTx b <> 0.
Proof.
  intros So E L. destruct (index_lineage _ (to_index _ _ (so_tree _ _ So)) p b E) as [l H].
  destruct (L l p b H) as [|R]; [apply last_Some_elem_of; by eapply lineage_last|done|done|].
  apply (so_root _ _ So). by rewrite <- (root_entry _ _ _ _ So E (or_intror R)).
Qed.
Lemma good_linked st p : stored st [] -> good_path (cs_index st) p -> linked (cs_index st) p.
Proof.
  intros So G. pose proof G as (l & H & _). destruct (lineage_lookup _ _ _ H) as [b E]. eapply linked_of_tx; eauto. by eapply good_linked_tx.
Qed.

Lemma txs_nonneg st queue l : stored st queue -> 0 <= txs (cs_index st) l.
Proof.
  intros So. induction l as [|x l IH]; cbn; [done|]. fold (txs (cs_index st) l). destruct (cs_index st !! x) as [bx|] eqn:Ex; cbn; [|lia].
  destruct (so_tx _ _ So _ _ Ex). lia.
Qed.
(** Linking the block at the head of the queue. *)
Definition linked_entry (st : ChainState) (p : hash) (b : CBlockIndex) (ba : CBlockIndex) : CBlockIndex :=
  link_entry b (u32 (nChainTx ba + nTx b)) (nBlockSequenceId st) (SetChainSaplingValue (Some ba) b).
Definition relinked (st : ChainState) (p : hash) (b' : CBlockIndex) : ChainState :=
  with_unlinked (with_sequence (with_index st (<[p := b']> (cs_index st))) (u32 (nBlockSequenceId st + 1))) (filter (fun e => e.1 <> p) (mapBlocksUnlinked st)).
Lemma count_next st p queue b a ba : stored st (p :: queue) -> cs_index st !! p = Some b -> pprev b = Some a -> cs_index st !! a = Some ba -> nTx b <> 0 -> nChainTx ba <> 0 ->
  forall l, lineage (cs_index st) p l -> u32 (nChainTx ba + nTx b) = txs (cs_index st) l /\ 0 < txs (cs_index st) l.
Proof.
  intros So E P Ea N Na l H. pose proof (so_bound _ _ So _ _ H) as B. inversion H as [? ? E' P'|? ? ? l' E' P' H']; simplify_eq.
  destruct (so_count _ _ So _ _ _ Ea H' Na) as [_ C]. rewrite txs_app in *. cbn [txs fold_right] in *. rewrite E in *. cbn [from_option] in *.
  destruct (so_tx _ _ So _ _ E).
  pose proof (txs_nonneg _ _ l' So).
  rewrite C, u32_small by lia. lia.
Qed.

Lemma insert_shape idx p b b' : idx !! p = Some b -> shape b' = shape b -> same_shape idx (<[p := b']> idx).
Proof. intros E S. unfold same_shape. by rewrite fmap_insert, S, insert_id by (by rewrite lookup_fmap, E). Qed.
Lemma stored_relinked st p queue b a ba : stored st (p :: queue) -> cs_index st !! p = Some b -> pprev b = Some a -> cs_index st !! a = Some ba ->
  nTx b <> 0 -> nChainTx b = 0 -> nChainTx ba <> 0 ->
  nChainTx (linked_entry st p b ba) <> 0 /\
  stored (relinked st p (linked_entry st p b ba)) (queue ++ (filter (fun e => e.1 = p) (mapBlocksUnlinked st)).*2).
Proof.
  intros So E P Ea N Z0 Na. set (b' := linked_entry st p b ba). set (idx' := <[p := b']> (cs_index st)).
  assert (Sh : same_shape (cs_index st) idx') by (by apply (insert_shape _ _ b)).
  assert (Ne : forall q c, q <> p -> idx' !! q = Some c -> cs_index st !! q = Some c) by (intros q c Hq; unfold idx'; by rewrite lookup_insert_ne).
  assert (Eb' : idx' !! p = Some b') by apply lookup_insert_eq.
  assert (Tx : forall l, txs idx' l = txs (cs_index st) l).
  { intros l. apply txs_ext. intros q _. destruct (decide (q = p)) as [->|]; [rewrite Eb', E; done|unfold idx'; by rewrite lookup_insert_ne]. }
  assert (Back : forall x l, lineage idx' x l -> lineage (cs_index st) x l) by (intros x l; apply lineage_shape; by symmetry).
  destruct (index_lineage _ (to_index _ _ (so_tree _ _ So)) p b E) as [lp Hp].
  destruct (count_next _ _ _ _ _ _ So E P Ea N Na lp Hp) as [Cn Pos].
  assert (Nb' : nChainTx b' <> 0) by (change (nChainTx b') with (u32 (nChainTx ba + nTx b)); lia). split; [done|].
  assert (Apa : a <> p) by congruence. pose proof (so_nodup _ _ So) as Nd. cbn [app] in Nd. apply NoDup_cons in Nd as [Np Nd].
  assert (Npu : forall c, (c, p) ∉ mapBlocksUnlinked st).
  { intros c Hc. apply Np, elem_of_app. right. apply list_elem_of_fmap. by exists (c, p). }
  split; cbn [cs_index mapBlocksUnlinked relinked with_unlinked with_sequence with_index]; fold b' idx'.
  - by apply (tree_ok_shape g (cs_index st)), So.
  - intros x c Ex. destruct (decide (x = p)) as [->|]; [simplify_eq; apply (so_tx _ _ So _ _ E)|apply (so_tx _ _ So x); by apply Ne].
  - intros x c l Ex Hl Nc. rewrite Tx. apply Back in Hl. destruct (decide (x = p)) as [->|]; [|apply (so_count _ _ So x); auto].
    simplify_eq. split; [done|]. by apply (count_next _ _ _ _ _ _ So E P Ea N Na).
  - intros x c q bq Ex Nc Px Eq. destruct (decide (q = p)) as [->|Nq]; [by simplify_eq|]. apply Ne in Eq; [|done].
    destruct (decide (x = p)) as [->|]; [|eapply (so_parent _ _ So x c q); eauto]. simplify_eq. cbn in Px. by simplify_eq.
  - intros x c Ex. destruct (decide (x = p)) as [->|]; [simplify_eq; apply (so_valid _ _ So _ _ E)|apply (so_valid _ _ So x); by apply Ne].
  - intros c q [Nc Hq]%list_elem_of_filter. cbn in Nc. destruct (so_unlinked _ _ So _ _ Hq) as (bq & bc & R1 & R2 & R3 & R). exists bq, bc.
    unfold idx'. rewrite !lookup_insert_ne by (done || (intros ->; by apply Npu in Hq)). done.
  - intros q [Hq|Hq]%elem_of_app.
    + destruct (so_queue _ _ So q ltac:(by right)) as (bq & c & bc & R1 & R2 & R3 & R4 & R5 & R6). exists bq, c, bc.
      assert (q <> p) by (intros ->; apply Np, elem_of_app; by left). unfold idx'. rewrite !lookup_insert_ne by congruence. done.
    + apply list_elem_of_fmap in Hq as ([c q'] & -> & [Nc Hq]%list_elem_of_filter). cbn in Nc. subst c. cbn [snd].
      destruct (so_unlinked _ _ So _ _ Hq) as (bq & bc & R1 & R2 & R3 & R4 & R5 & R6). exists bq, p, b'.
      unfold idx' at 1. rewrite lookup_insert_ne by (intros ->; by apply Npu in Hq). done.
  - rewrite <- app_assoc, <- fmap_app. by rewrite (filter_app_complement (fun e => e.1 = p) (mapBlocksUnlinked st)).
  - intros q bq c bc Eq Nq Zq Pq Ec Fc. assert (q <> p) by congruence. apply Ne in Eq; [|done].
    assert (W : exists bc', cs_index st !! c = Some bc' /\ is_failed bc' = false).
    { destruct (decide (c = p)) as [->|]; [simplify_eq; by exists b|exists bc; split; [by apply Ne|done]]. }
    destruct W as (bc' & Ec' & Fc'). destruct (so_waiting _ _ So _ _ _ _ Eq Nq Zq Pq Ec' Fc') as [W|[->|W]%elem_of_cons]; [| |].
    + destruct (decide (c = p)) as [->|Nc]; [right; apply elem_of_app; right|left].
      * apply list_elem_of_fmap. exists (p, q). split; [done|]. by apply list_elem_of_filter.
      * by apply list_elem_of_filter.
    + done.
    + right. apply elem_of_app. by left.
  - intros c Ec. destruct (decide (g = p)) as [->|]; [by simplify_eq|]. apply (so_root _ _ So). by apply Ne.
  - intros x l Hl. rewrite Tx. by apply (so_bound _ _ So x), Back.
Qed.

(** Entries that differ in what linking changes only. *)
Definition same_data (idx idx' : BlockMap) : Prop :=
  same_shape idx idx' /\ forall p b b', idx !! p = Some b -> idx' !! p = Some b' ->
    nStatus b' = nStatus b /\ nTx b' = nTx b /\ vStakeModifier b' = vStakeModifier b /\ nFlags b' = nFlags b.
#[local] Instance same_data_po : PreOrder same_data.
Proof.
  split; [intros x; split; [done|]; intros; by simplify_eq|]. intros x y z [S1 D1] [S2 D2]. split; [by etrans|]. intros p b b' E E'.
  destruct (same_shape_lookup _ _ _ _ S1 E) as (c & Ec & _). destruct (D1 _ _ _ E Ec) as (? & ? & ? & ?), (D2 _ _ _ Ec E') as (? & ? & ? & ?). repeat split; congruence.
Qed.
Lemma same_data_sym idx idx' : same_data idx idx' -> same_data idx' idx.
Proof. intros [S D]. split; [by symmetry|]. intros p b b' E E'. by destruct (D _ _ _ E' E) as (? & ? & ? & ?). Qed.
Lemma same_data_path idx idx' p : same_data idx idx' -> good_path idx p -> good_path idx' p.
Proof.
  intros [S D] (l & H & G). exists l. split; [by eapply lineage_shape|]. intros q b' Hq E'.
  destruct (same_shape_lookup _ _ _ _ (symmetry S) E') as (b & E & _). destruct (G _ _ Hq E) as [G1 G2]. destruct (D _ _ _ E E') as [D1 _].
  unfold good, is_failed, has_data in *. by rewrite D1.
Qed.

(** Between two states of the queue, with the tip [t]. *)
Record linking (st0 : ChainState) (t : hash) (st : ChainState) (queue : list hash) : Prop := {
  lk_stored : stored st queue;
  lk_chain : chainActive st = chainActive st0;
  lk_data : same_data (cs_index st0) (cs_index st);
  lk_old : forall q b, cs_index st0 !! q = Some b -> nChainTx b <> 0 -> cs_index st !! q = Some b;
  lk_cands : setBlockIndexCandidates st0 ⊆ setBlockIndexCandidates st;
  lk_cands_linked : forall q, q ∈ setBlockIndexCandidates st -> exists b, cs_index st !! q = Some b /\ nChainTx b <> 0;
  lk_new : forall q b0 b, cs_index st0 !! q = Some b0 -> nChainTx b0 = 0 -> cs_index st !! q = Some b -> nChainTx b <> 0 ->
    q ∈ setBlockIndexCandidates st \/ work_lt addr (cs_index st) q t = true
}.
Lemma stored_candidates st queue s : stored st queue -> stored (with_candidates st s) queue.
Proof. intros []. by split. Qed.
(** The candidates after [p] was linked. *)
Definition enlist (st : ChainState) (p t : hash) : ChainState :=
  if negb (work_lt addr (cs_index st) p t) then with_candidates st ({[p]} ∪ setBlockIndexCandidates st) else st.
Lemma work_lt_entries idx idx' p q : idx !! p = idx' !! p -> idx !! q = idx' !! q -> work_lt addr idx p q = work_lt addr idx' p q.
Proof. unfold work_lt. by intros -> ->. Qed.
Lemma linking_step st0 t bt st p queue b a ba : linking st0 t st (p :: queue) -> cs_index st0 !! t = Some bt -> nChainTx bt <> 0 ->
  cs_index st !! p = Some b -> pprev b = Some a -> cs_index st !! a = Some ba -> nTx b <> 0 -> nChainTx b = 0 -> nChainTx ba <> 0 ->
  linking st0 t (enlist (relinked st p (linked_entry st p b ba)) p t) (queue ++ (filter (fun e => e.1 = p) (mapBlocksUnlinked st)).*2).
Proof.
  intros [L1 L2 L3 L4 L5 L6 L7] Et Nt E P Ea N Z0 Na. destruct (stored_relinked _ _ _ _ _ _ L1 E P Ea N Z0 Na) as [Nb So].
  set (st1 := relinked st p (linked_entry st p b ba)) in *.
  assert (I1 : cs_index st1 = <[p := linked_entry st p b ba]> (cs_index st)) by done.
  assert (Ei : cs_index (enlist st1 p t) = cs_index st1 /\ chainActive (enlist st1 p t) = chainActive st) by (unfold enlist; by destruct (negb _)).
  destruct Ei as [Ei Ec].
  assert (Cd : forall q, q ∈ setBlockIndexCandidates (enlist st1 p t) <-> q ∈ setBlockIndexCandidates st \/ (q = p /\ work_lt addr (cs_index st1) p t = false)).
  { intros q. unfold enlist. destruct (work_lt addr (cs_index st1) p t); cbn; set_solver. }
  assert (Np : forall q c, cs_index st0 !! q = Some c -> nChainTx c <> 0 -> q <> p) by (intros q c Eq Nq ->; specialize (L4 _ _ Eq Nq); congruence).
  split.
  - unfold enlist. destruct (negb _); [by apply stored_candidates|done].
  - congruence.
  - rewrite Ei, I1. etrans; [done|]. split; [by apply (insert_shape _ _ b)|]. intros q c c' Eq Eq'. destruct (decide (q = p)) as [->|].
    + rewrite lookup_insert_eq in Eq'. by simplify_eq.
    + rewrite lookup_insert_ne in Eq' by done. by simplify_eq.
  - intros q c Eq Nq. rewrite Ei, I1, lookup_insert_ne by (symmetry; eauto). eauto.
  - intros q Hq. apply Cd. left. by apply L5.
  - intros q Hq. rewrite Ei, I1. destruct (decide (q = p)) as [->|]; [rewrite lookup_insert_eq; eauto|]. rewrite lookup_insert_ne by done.
    apply Cd in Hq as [Hq|[? _]]; [by apply L6|done].
  - intros q c0 c Eq0 Zq Eq Nq. rewrite Ei in *. rewrite Cd. destruct (decide (q = p)) as [->|Nqp].
    + destruct (work_lt addr (cs_index st1) p t); auto.
    + rewrite I1, lookup_insert_ne in Eq by done. destruct (L7 _ _ _ Eq0 Zq Eq Nq) as [C|C]; [auto|right].
      assert (t <> p) by eauto. rewrite <- C, I1. by apply work_lt_entries; rewrite lookup_insert_ne by congruence.
Qed.
Lemma link_queue_cons fuel st t p queue b a ba : Tip (chainActive st) = Some t -> cs_index st !! p = Some b -> pprev b = Some a -> cs_index st !! a = Some ba ->
  link_queue addr (S fuel) (p :: queue) st =
  link_queue addr fuel (queue ++ (filter (fun e => e.1 = p) (mapBlocksUnlinked st)).*2) (enlist (relinked st p (linked_entry st p b ba)) p t).
Proof.
  intros Tp E P Ea. cbn [link_queue]. rewrite E. cbn [obind]. rewrite P, Ea. cbn [obind chainActive with_sequence with_index]. rewrite Tp.
  fold (linked_entry st p b ba). unfold enlist, relinked. cbn [cs_index with_sequence with_index with_unlinked].
  by destruct (negb (work_lt addr (<[p:=linked_entry st p b ba]> (cs_index st)) p t)).
Qed.
Lemma enlist_unlinked st p t : mapBlocksUnlinked (enlist st p t) = mapBlocksUnlinked st.
Proof. unfold enlist. by destruct (negb _). Qed.
Lemma link_queue_spec st0 t bt fuel queue st : linking st0 t st queue -> Tip (chainActive st0) = Some t -> cs_index st0 !! t = Some bt -> nChainTx bt <> 0 ->
  (length queue + length (mapBlocksUnlinked st) <= fuel)%nat ->
  exists st', link_queue addr fuel queue st = Some st' /\ linking st0 t st' [].
Proof.
  intros L Tp Et Nt. revert queue st L. induction fuel as [|fuel IH]; intros queue st L F; (destruct queue as [|p queue]; [exists st; by split|]).
  { cbn in F. lia. }
  destruct (so_queue _ _ (lk_stored _ _ _ _ L) p ltac:(left)) as (b & a & ba & E & P & Ea & N & Z0 & Na).
  rewrite (link_queue_cons fuel st t p queue b a ba) by (done || by rewrite (lk_chain _ _ _ _ L)).
  apply IH; [by eapply linking_step|]. rewrite enlist_unlinked. cbn [mapBlocksUnlinked relinked with_unlinked].
  pose proof (Permutation_length (filter_app_complement (fun e => e.1 = p) (mapBlocksUnlinked st))) as Pl.
  rewrite length_app, length_fmap in *. cbn [length] in F. lia.
Qed.

(** ** The new entry *)

Lemma txs_insert idx p b b' l : idx !! p = Some b -> nTx b = 0 -> 0 <= nTx b' -> NoDup l ->
  txs (<[p := b']> idx) l <= txs idx l + nTx b' /\ (p ∉ l -> txs (<[p := b']> idx) l = txs idx l).
Proof.
  intros E Z0 P Nd.
  assert (Same : forall l, p ∉ l -> txs (<[p := b']> idx) l = txs idx l) by (intros k Hk; apply txs_ext; intros q Hq; rewrite lookup_insert_ne; [done|by intros ->]).
  split; [|apply Same]. induction Nd as [|x l Hx Nd IH]; cbn; [lia|]. fold (txs (<[p := b']> idx) l) (txs idx l). destruct (decide (x = p)) as [->|N].
  - rewrite lookup_insert_eq, E, Same by done. cbn. lia.
  - rewrite lookup_insert_ne by done. lia.
Qed.
Definition received (st : ChainState) (p : hash) (b' : CBlockIndex) (extra : list (hash * hash)) : ChainState :=
  with_unlinked (mark_dirty (with_index st (<[p := b']> (cs_index st))) p) (mapBlocksUnlinked st ++ extra).
(** What [ReceivedBlockTransactions] first makes of the entry [b]. *)
Record filled (b b' : CBlockIndex) (n : Z) : Prop := {
  fi_shape : shape b' = shape b;
  fi_tx : nTx b' = n;
  fi_chain : nChainTx b' = 0;
  fi_failed : is_failed b' = is_failed b;
  fi_data : has_data b' = true;
  fi_valid : validity b <= validity b';
  fi_modifier : vStakeModifier b' = vStakeModifier b /\ Z.land (nFlags b') BLOCK_STAKE_MODIFIER = Z.land (nFlags b) BLOCK_STAKE_MODIFIER
}.
Lemma filled_entry b block f pos v : 0 <= Z.of_nat (length (vtx block)) < 2 ^ 32 -> exists r b', RaiseValidity (with_transactions b block f pos v) BLOCK_VALID_TRANSACTIONS = Some (r, b') /\
  filled b b' (Z.of_nat (length (vtx block))).
Proof.
  intros Hn. destruct (RaiseValidity_marks (with_transactions b block f pos v) BLOCK_VALID_TRANSACTIONS ltac:(done)) as (r & b' & R & S & F & D & V).
  exists r, b'. split; [done|].
  assert (T : is_failed (with_transactions b block f pos v) = is_failed b /\ has_data (with_transactions b block f pos v) = true /\
              validity (with_transactions b block f pos v) = validity b).
  { unfold is_failed, has_data, validity. cbn [nStatus with_transactions]. rewrite !Z.land_lor_distr_l.
    change (Z.land BLOCK_HAVE_DATA BLOCK_FAILED_MASK) with 0. change (Z.land BLOCK_HAVE_DATA BLOCK_VALID_MASK) with 0. rewrite !Z.lor_0_r.
    split; [done|]. split; [|done]. change (Z.land BLOCK_HAVE_DATA BLOCK_HAVE_DATA) with 8.
    destruct (Z.eqb_spec (Z.lor (Z.land (nStatus b) BLOCK_HAVE_DATA) 8) 0) as [C|]; [|done]. apply Z.lor_eq_0_iff in C. lia. }
  destruct T as (T1 & T2 & T3). pose proof (strip_fields _ _ S) as (F1 & F2 & F3 & F4 & F5 & _ & F7 & F8 & F9).
  split; [unfold shape; by rewrite F1, F2, F3, F4, F7, F8|rewrite F9; cbn; by apply u32_small|by rewrite F5|congruence|congruence|lia|].
  injection S as ? ? ? ? ? ? ? ? Sm Sf ? ? ? ? ?. rewrite Sm, Sf. split; [done|]. cbn. destruct (IsProofOfStake block); [|done].
  rewrite Z.land_lor_distr_l. change (Z.land BLOCK_PROOF_OF_STAKE BLOCK_STAKE_MODIFIER) with 0. by rewrite Z.lor_0_r.
Qed.
Lemma not_received_unlinked st queue p b : stored st queue -> cs_index st !! p = Some b -> nTx b = 0 -> nChainTx b = 0.
Proof.
  intros So E Z0. destruct (decide (nChainTx b = 0)) as [|N]; [done|]. destruct (index_lineage _ (to_index _ _ (so_tree _ _ So)) p b E) as [l H].
  by destruct (so_count _ _ So _ _ _ E H N).
Qed.
(** The entry is stored; the block waits in the queue or for its parent. *)
Lemma stored_received st p b b' a ba n queue extra : stored st [] -> cs_index st !! p = Some b -> nTx b = 0 -> filled b b' n -> 0 < n ->
  pprev b = Some a -> cs_index st !! a = Some ba -> (forall x l, lineage (cs_index st) x l -> txs (cs_index st) l + n < 2 ^ 32) ->
  (queue = [p] /\ extra = [] /\ nChainTx ba <> 0 \/ queue = [] /\ extra = (if is_failed ba then [] else [(a, p)]) /\ nChainTx ba = 0) ->
  stored (received st p b' extra) queue.
Proof.
  intros So E Z0 [F1 F2 F3 F4 F5 F6 _] Hn P Ea Bd Qx. pose proof (not_received_unlinked _ _ _ _ So E Z0) as C0. set (idx' := <[p := b']> (cs_index st)).
  assert (Sh : same_shape (cs_index st) idx') by (by apply (insert_shape _ _ b)).
  assert (Ne : forall q c, q <> p -> idx' !! q = Some c -> cs_index st !! q = Some c) by (intros q c Hq; unfold idx'; by rewrite lookup_insert_ne).
  assert (Eb' : idx' !! p = Some b') by apply lookup_insert_eq.
  assert (Back : forall x l, lineage idx' x l -> lineage (cs_index st) x l) by (intros x l; apply lineage_shape; by symmetry).
  assert (Apa : a <> p).
  { intros ->. assert (Hi := to_index _ _ (so_tree _ _ So) _ _ E). unfold links_ok in Hi. rewrite P in Hi. destruct Hi as (? & ? & ? & ? & _). simplify_eq. lia. }
  assert (P' : pprev b' = Some a) by (unfold shape in F1; congruence).
  assert (Old : forall c q, (c, q) ∈ mapBlocksUnlinked st -> q <> p).
  { intros c q Hq ->. destruct (so_unlinked _ _ So _ _ Hq) as (? & ? & ? & ? & ? & ? & _). by simplify_eq. }
  split; cbn [cs_index mapBlocksUnlinked received with_unlinked mark_dirty with_index]; fold idx'.
  - by apply (tree_ok_shape g (cs_index st)), So.
  - intros x c Ex. destruct (decide (x = p)) as [->|]; [simplify_eq; rewrite F5; split; [lia|]; split; [lia|done]|apply (so_tx _ _ So x); by apply Ne].
  - intros x c l Ex Hl Nc. apply Back in Hl. destruct (decide (x = p)) as [->|Nx]; [by simplify_eq|]. apply Ne in Ex; [|done].
    destruct (so_count _ _ So _ _ _ Ex Hl Nc) as [N1 N2]. split; [done|]. rewrite N2. symmetry.
    apply (txs_insert _ _ b); [done|done|lia|by eapply lineage_NoDup|]. intros Hp. by apply (tx_ancestors _ _ _ _ _ _ _ So Ex Nc Hl Hp E).
  - intros x c q bq Ex Nc Px Eq. destruct (decide (x = p)) as [->|Nx]; [by simplify_eq|]. apply Ne in Ex; [|done].
    destruct (decide (q = p)) as [->|Nq]; [by pose proof (so_parent _ _ So _ _ _ _ Ex Nc Px E)|]. apply Ne in Eq; [|done]. by apply (so_parent _ _ So x c q).
  - intros x c Ex. destruct (decide (x = p)) as [->|]; [simplify_eq; pose proof (so_valid _ _ So _ _ E); lia|apply (so_valid _ _ So x); by apply Ne].
  - intros c q [Hq|Hq]%elem_of_app.
    + pose proof (Old _ _ Hq) as Nq. destruct (so_unlinked _ _ So _ _ Hq) as (bq & bc & R1 & R2 & R3 & R4 & R5 & R6).
      destruct (decide (c = p)) as [->|Nc]; [exists bq, b'|exists bq, bc]; unfold idx'; rewrite ?lookup_insert_eq, ?lookup_insert_ne by congruence; done.
    + destruct Qx as [(-> & -> & _)|(-> & -> & Za)]; [by apply elem_of_nil in Hq|]. destruct (is_failed ba); [by apply elem_of_nil in Hq|].
      apply list_elem_of_singleton in Hq as [= -> ->]. exists b', ba. unfold idx' at 2. rewrite lookup_insert_ne by done. split; [done|]. split; [done|]. split; [done|]. split; [lia|done].
  - intros q Hq. destruct Qx as [(-> & -> & Na)|(-> & _)]; [|by apply elem_of_nil in Hq]. apply list_elem_of_singleton in Hq as ->.
    exists b', a, ba. unfold idx' at 2. rewrite lookup_insert_ne by done. split; [done|]. split; [done|]. split; [done|]. split; [lia|done].
  - pose proof (so_nodup _ _ So) as Nd. cbn [app] in Nd. rewrite fmap_app.
    assert (Np : p ∉ (mapBlocksUnlinked st).*2) by (intros Hp; apply list_elem_of_fmap in Hp as ([c q] & -> & Hq); by apply Old in Hq).
    destruct Qx as [(-> & -> & _)|(-> & -> & _)]; cbn [app fmap list_fmap]; [rewrite app_nil_r; by apply NoDup_cons|].
    destruct (is_failed ba); cbn [fmap list_fmap]; [by rewrite app_nil_r|]. apply NoDup_app. split; [done|]. split; [|by apply NoDup_singleton].
    intros x Hx ->%list_elem_of_singleton. done.
  - intros q bq c bc Eq Nq Zq Pq Ec Fc. destruct (decide (q = p)) as [->|Nqp].
    + simplify_eq. unfold idx' in Ec. rewrite lookup_insert_ne in Ec by done. simplify_eq.
      destruct Qx as [(-> & _)|(_ & -> & _)]; [right; left|]. rewrite Fc. left. apply elem_of_app. right. left.
    + apply Ne in Eq; [|done]. assert (W : exists bc', cs_index st !! c = Some bc' /\ is_failed bc' = false).
      { destruct (decide (c = p)) as [->|]; [simplify_eq; exists b; split; [done|congruence]|exists bc; split; [by apply Ne|done]]. }
      destruct W as (bc' & Ec' & Fc'). destruct (so_waiting _ _ So _ _ _ _ Eq Nq Zq Pq Ec' Fc') as [W|W]; [left; apply elem_of_app; by left|by apply elem_of_nil in W].
  - intros c Ec. destruct (decide (g = p)) as [Gp|]; [rewrite <- Gp in E; by pose proof (so_root _ _ So _ E)|]. apply (so_root _ _ So). by apply Ne.
  - intros x l Hl. apply Back in Hl. destruct (txs_insert (cs_index st) p b b' l E Z0) as [Le _]; [lia|by eapply lineage_NoDup|]. specialize (Bd _ _ Hl). unfold idx'. lia.
Qed.

(** * The manager of the chain *)

(** The invariant between two calls: the active chain [l] ends with [t], every block
    received is linked or waits for its parent, and every block whose branch is
    complete and unfailed and that is not worse than the tip is a candidate. *)
Record manager (st : ChainState) (t : hash) (l : list hash) : Prop := {
  mg_select : select_inv g st l;
  mg_tip : lineage (cs_index st) t l;
  mg_stored : stored st [];
  mg_complete : forall q, good_path (cs_index st) q -> work_lt addr (cs_index st) q t = false -> q ∈ setBlockIndexCandidates st
}.
(** A new entry that is not linked changes no good path through linked blocks. *)
Lemma good_path_other idx p b b' q l : idx !! p = Some b -> shape b' = shape b -> lineage idx q l -> p ∉ l ->
  good_path (<[p := b']> idx) q -> good_path idx q.
Proof.
  intros E S H N (l' & H' & G). exists l. split; [done|]. assert (Sh : same_shape idx (<[p := b']> idx)) by (by apply (insert_shape _ _ b)).
  assert (l' = l) as -> by (eapply lineage_functional; [done|by eapply lineage_shape]).
  intros x c Hx Ex. apply (G x); [done|]. rewrite lookup_insert_ne; [done|by intros ->].
Qed.
Lemma manager_received st t l p b b' a ba n queue extra st' : manager st t l -> cs_index st !! p = Some b -> nTx b = 0 -> filled b b' n -> 0 < n ->
  pprev b = Some a -> cs_index st !! a = Some ba -> stored (received st p b' extra) queue ->
  linking (received st p b' extra) t st' [] -> manager st' t l.
Proof.
  intros [M1 M2 M3 M4] E Z0 Fi Hn P Ea So1 [K1 K2 [K3 K3'] K4 K5 K6 K7]. pose proof (not_received_unlinked _ _ _ _ M3 E Z0) as C0.
  set (st1 := received st p b' extra) in *. assert (I1 : cs_index st1 = <[p := b']> (cs_index st)) by done.
  assert (Sh1 : same_shape (cs_index st) (cs_index st1)) by (rewrite I1; apply (insert_shape _ _ b); [done|apply Fi]).
  assert (Sh : same_shape (cs_index st) (cs_index st')) by (by etrans).
  assert (Old : forall q c, cs_index st !! q = Some c -> nChainTx c <> 0 -> cs_index st' !! q = Some c).
  { intros q c Eq Nq. apply K4; [|done]. rewrite I1, lookup_insert_ne by congruence. done. }
  destruct (si_path _ _ _ M1) as (t' & Ht' & Lt'). assert (t' = t) as -> by (pose proof (lineage_last _ _ _ Ht'); pose proof (lineage_last _ _ _ M2); congruence).
  destruct (lineage_lookup _ _ _ M2) as [bt Et]. pose proof (tx_of_linked _ _ _ _ M3 Et Lt') as Nt. split.
  - split.
    + apply (tree_ok_shape g (cs_index st)); [done|apply (si_tree _ _ _ M1)].
    + rewrite K2. apply (si_active _ _ _ M1).
    + exists t. split; [by eapply lineage_shape|]. eapply (linked_of_tx st' [] t bt); eauto.
    + intros q c Hq Eq. destruct (lineage_elem _ _ _ _ M2 Hq) as [c' Ec']. pose proof (tx_ancestors _ _ _ _ _ _ _ M3 Et Nt M2 Hq Ec') as Nc.
      rewrite (Old _ _ Ec' Nc) in Eq. simplify_eq. by apply (si_good _ _ _ M1 q).
    + intros q Hq. destruct (K6 q Hq) as (c & Ec & Nc). split; [eauto|]. by eapply (linked_of_tx st' []).
  - by eapply lineage_shape.
  - done.
  - intros q Gq W. pose proof Gq as (lq & Hq & _). destruct (lineage_lookup _ _ _ Hq) as [c Ec]. pose proof (good_linked_tx _ _ _ K1 Gq Ec) as Nc.
    destruct (same_shape_lookup _ _ _ _ (symmetry K3) Ec) as (c1 & Ec1 & _). destruct (decide (nChainTx c1 = 0)) as [Z1|N1].
    { destruct (K7 _ _ _ Ec1 Z1 Ec Nc) as [|W']; [done|congruence]. }
    pose proof (K4 _ _ Ec1 N1) as Ec'. simplify_eq. assert (Nq : q <> p).
    { intros ->. rewrite I1, lookup_insert_eq in Ec1. simplify_eq. by pose proof (fi_chain _ _ _ Fi). }
    assert (Eq : cs_index st !! q = Some c) by (rewrite I1, lookup_insert_ne in Ec1 by done; done).
    assert (Hq0 : lineage (cs_index st) q lq) by (eapply lineage_shape; [symmetry; exact Sh|done]).
    assert (Np : p ∉ lq) by (intros Hp; by apply (tx_ancestors _ _ _ _ _ _ _ M3 Eq Nc Hq0 Hp E)).
    apply K5. apply M4.
    + eapply (good_path_other _ p b b' q lq); [done|apply Fi|done|done|]. rewrite <- I1. eapply same_data_path; [|exact Gq]. apply same_data_sym. by split.
    + rewrite <- W. apply work_lt_entries; [congruence|]. rewrite Et. symmetry. by apply Old.
Qed.

Lemma linking_start st t l p b b' n queue extra : manager st t l -> cs_index st !! p = Some b -> nTx b = 0 -> filled b b' n ->
  stored (received st p b' extra) queue -> linking (received st p b' extra) t (received st p b' extra) queue.
Proof.
  intros M E Z0 Fi So. split; try done; [|by intros; simplify_eq]. intros q Hq. cbn in Hq |- *. destruct (si_cands _ _ _ (mg_select _ _ _ M) q Hq) as [[c Ec] L].
  pose proof (tx_of_linked _ _ _ _ (mg_stored _ _ _ M) Ec L) as N. pose proof (not_received_unlinked _ _ _ _ (mg_stored _ _ _ M) E Z0).
  exists c. rewrite lookup_insert_ne by congruence. done.
Qed.
Lemma received_nil st p b' : received st p b' [] = mark_dirty (with_index st (<[p := b']> (cs_index st))) p.
Proof. unfold received. by rewrite app_nil_r. Qed.
Lemma received_transactions st t l p b block f pos : manager st t l -> cs_index st !! p = Some b -> nTx b = 0 -> vtx block <> [] ->
  (forall x lx, lineage (cs_index st) x lx -> txs (cs_index st) lx + Z.of_nat (length (vtx block)) < 2 ^ 32) ->
  exists st' b', ReceivedBlockTransactions addr block p f pos st = Some st' /\ manager st' t l /\ chainActive st' = chainActive st /\
    filled b b' (Z.of_nat (length (vtx block))) /\ same_data (<[p := b']> (cs_index st)) (cs_index st').
Proof.
  intros M E Z0 Nv Bd. pose proof (mg_stored _ _ _ M) as So. set (n := Z.of_nat (length (vtx block))) in *.
  assert (Hn : 0 < n < 2 ^ 32).
  { split; [unfold n; destruct (vtx block); [done|cbn; lia]|]. destruct (index_lineage _ (to_index _ _ (so_tree _ _ So)) p b E) as [lx Hx].
    pose proof (txs_nonneg _ _ lx So). specialize (Bd _ _ Hx). lia. }
  pose proof (not_received_unlinked _ _ _ _ So E Z0) as C0.
  destruct (pprev b) as [a|] eqn:P; [|rewrite (root_entry _ _ _ _ So E (or_introl P)) in E; by pose proof (so_root _ _ So _ E)].
  assert (Hl := to_index _ _ (so_tree _ _ So) _ _ E). unfold links_ok in Hl. rewrite P in Hl. destruct Hl as (ba & _ & Ea & Hh & _).
  assert (Apa : a <> p) by (intros ->; simplify_eq; lia).
  destruct (filled_entry b block f pos (block_sapling_value block) ltac:(fold n; lia)) as (r & b' & R & Fi). fold n in Fi.
  unfold ReceivedBlockTransactions. rewrite E. cbn [obind]. rewrite R. cbn [obind snd]. rewrite P. cbn [cs_index mark_dirty with_index].
  rewrite lookup_insert_ne, Ea by done. cbn [obind]. rewrite <- (received_nil st p b').
  pose proof (stored_received st p b b' a ba n) as Sr. destruct (Z.eqb_spec (nChainTx ba) 0) as [Za|Na]; cbn [negb].
  - rewrite ix_IsValid_level by done. pose proof (so_valid _ _ So _ _ Ea) as V. replace (validity ba >=? BLOCK_VALID_TREE) with true by lia. rewrite andb_true_r. cbn [obind].
    set (extra := if is_failed ba then [] else [(a, p)]). exists (received st p b' extra), b'.
    specialize (Sr [] extra So E Z0 Fi ltac:(lia) P Ea Bd ltac:(right; done)).
    split; [f_equal; unfold extra; destruct (is_failed ba); cbn [negb]; [done|unfold received; cbn; by rewrite app_nil_r]|].
    split; [|done]. eapply (manager_received st t l p b b' a ba n [] extra); eauto; [lia|]. by eapply linking_start.
  - specialize (Sr [p] [] So E Z0 Fi ltac:(lia) P Ea Bd ltac:(left; done)).
    destruct (lineage_lookup _ _ _ (mg_tip _ _ _ M)) as [bt Et].
    destruct (si_path _ _ _ (mg_select _ _ _ M)) as (t' & Ht' & Lt'). assert (t' = t) as -> by (pose proof (lineage_last _ _ _ Ht'); pose proof (lineage_last _ _ _ (mg_tip _ _ _ M)); congruence).
    pose proof (tx_of_linked _ _ _ _ So Et Lt') as Nt.
    destruct (link_queue_spec (received st p b' []) t bt (S (length (mapBlocksUnlinked (received st p b' [])))) [p] (received st p b' [])) as (st' & Q & Lk); try done.
    + by eapply linking_start.
    + cbn. rewrite (si_active _ _ _ (mg_select _ _ _ M)), Tip_path. by eapply lineage_last, M.
    + cbn. rewrite lookup_insert_ne by congruence. done.
    + exists st', b'. split; [done|]. split; [eapply (manager_received st t l p b b' a ba n [p] []); eauto; lia|]. split; [apply (lk_chain _ _ _ _ Lk)|]. split; [done|apply (lk_data _ _ _ _ Lk)].
Qed.
End Receive.

(** * Example: a child received before its parent *)

(** Block 0 is active; of block 1 the header is known, and its child 2 was received. *)
Definition rc_entry (prev skip : option hash) (h work tx chainTx seq status : Z) : CBlockIndex :=
  let b := sel_entry prev skip h work seq status in
  mkIndexEntry (pprev b) (pskip b) (nHeight b) (nFile b) (nDataPos b) (nUndoPos b) (nChainWork b) tx chainTx (nStatus b)
    (vStakeModifier b) (nFlags b) (nSaplingValue b) (nChainSaplingValue b) (ix_header b) (nSequenceId b) (nTimeMax b).
Definition rc_idx : BlockMap :=
  <[[0] := rc_entry None None 0 1 1 1 1 29]> (<[[1] := rc_entry (Some [0]) (Some [0]) 1 2 0 0 0 2]> (<[[2] := rc_entry (Some [1]) (Some [0]) 2 3 4 0 0 11]> ∅)).
Definition rc_state : ChainState := mkCS rc_idx (Some <$> [[0]]) {[[0]]} None [([1], [2])] 2 ∅.
Definition rc_block : CBlock := mkBlock (ix_header (rc_entry (Some [0]) (Some [0]) 1 2 0 0 0 2)) [mkTx 1 0 [] [] 0 None None; mkTx 1 0 [] [] 0 None None] [] false.
Lemma rc_cases p b : rc_idx !! p = Some b ->
  (p = [0] /\ b = rc_entry None None 0 1 1 1 1 29) \/ (p = [1] /\ b = rc_entry (Some [0]) (Some [0]) 1 2 0 0 0 2) \/
  (p = [2] /\ b = rc_entry (Some [1]) (Some [0]) 2 3 4 0 0 11).
Proof. unfold rc_idx. intros E. repeat (apply lookup_insert_Some in E as [[<- <-]|[_ E]]); [..|by rewrite lookup_empty in E]; auto. Qed.
Lemma rc_lineages : lineage rc_idx [0] [[0]] /\ lineage rc_idx [1] [[0]; [1]] /\ lineage rc_idx [2] [[0]; [1]; [2]].
Proof.
  assert (L0 : lineage rc_idx [0] [[0]]) by (eapply lineage_root; reflexivity).
  assert (L1 : lineage rc_idx [1] ([[0]] ++ [[1]])) by (eapply lineage_step; [reflexivity..|exact L0]).
  split; [done|]. split; [done|]. eapply (lineage_step _ _ _ _ [[0]; [1]]); [reflexivity..|exact L1].
Qed.
Lemma rc_lineage p l : lineage rc_idx p l -> (p = [0] /\ l = [[0]]) \/ (p = [1] /\ l = [[0]; [1]]) \/ (p = [2] /\ l = [[0]; [1]; [2]]).
Proof.
  intros H. destruct rc_lineages as (L0 & L1 & L2). destruct (lineage_lookup _ _ _ H) as [b [[-> _]|[[-> _]|[-> _]]]%rc_cases];
    [left|right; left|right; right]; (split; [done|]); by eapply lineage_functional.
Qed.
Lemma rc_tree : tree_ok [0] rc_idx.
Proof.
  destruct rc_lineages as (L0 & L1 & _). split.
  - intros p b [[-> ->]|[[-> ->]|[-> ->]]]%rc_cases; unfold links_ok; cbn [pprev rc_entry sel_entry ex_entry link_entry with_work with_links with_status]; [done| |];
      eexists _, _; (split; [reflexivity|]); (split; [reflexivity|]); (split; [first [exact L0|exact L1]|]); by split.
  - intros p b [[_ ->]|[[_ ->]|[_ ->]]]%rc_cases; (split; [reflexivity|]); intros i; do 9 (destruct i as [|i]; [by vm_compute|]); by vm_compute.
  - intros p b q bq [[-> ->]|[[-> ->]|[-> ->]]]%rc_cases; cbn [pprev rc_entry sel_entry ex_entry link_entry with_work with_links with_status];
      intros [= <-] Eq; apply (inj Some) in Eq as <-; vm_compute; reflexivity.
  - by intros p l [[-> ->]|[[-> ->]|[-> ->]]]%rc_lineage.
Qed.
Lemma rc_stored : stored [0] rc_state [].
Proof.
  split; cbn [cs_index mapBlocksUnlinked rc_state].
  - apply rc_tree.
  - intros p b [[-> ->]|[[-> ->]|[-> ->]]]%rc_cases; by vm_compute.
  - intros p b l [[-> ->]|[[-> ->]|[-> ->]]]%rc_cases [[Hp ->]|[[Hp ->]|[Hp ->]]]%rc_lineage N; simplify_eq; done.
  - intros p b q bq [[-> ->]|[[-> ->]|[-> ->]]]%rc_cases N P; by vm_compute in P, N.
  - intros p b [[-> ->]|[[-> ->]|[-> ->]]]%rc_cases; by vm_compute.
  - intros a q [= -> ->]%list_elem_of_singleton. eexists _, _. split; [reflexivity|]. split; [reflexivity|]. split; [reflexivity|]. by vm_compute.
  - intros q Hq. by apply elem_of_nil in Hq.
  - by apply NoDup_singleton.
  - intros q b a ba [[-> ->]|[[-> ->]|[-> ->]]]%rc_cases N Z0 P Ea F; try by vm_compute in N, Z0. left. injection P as <-. left.
  - intros b [[? ->]|[[? _]|[? _]]]%rc_cases; done.
  - intros p l [[-> ->]|[[-> ->]|[-> ->]]]%rc_lineage; by vm_compute.
Qed.
Lemma rc_manager : manager sel_addr [0] rc_state [0] [[0]].
Proof.
  destruct rc_lineages as (L0 & L1 & L2). assert (Lk : linked rc_idx [0]).
  { apply (linked_of_tx [0] rc_state [] [0] _ rc_stored eq_refl). done. }
  split; [split; cbn [cs_index chainActive setBlockIndexCandidates rc_state]| | |].
  - apply rc_tree.
  - done.
  - by exists [0].
  - intros q b ->%list_elem_of_singleton [[_ ->]|[[? _]|[? _]]]%rc_cases; by vm_compute.
  - intros p ->%elem_of_singleton. split; [eauto|done].
  - done.
  - apply rc_stored.
  - intros q G _. pose proof G as (l & H & Gl). apply rc_lineage in H as [[-> ->]|[[-> ->]|[-> ->]]]; [cbn; set_solver| |];
      (destruct (Gl [1] _ ltac:(set_solver) eq_refl) as [_ D]; by vm_compute in D).
Qed.

(** * The property *)

(** C8: [ReceivedBlockTransactions] ends, and keeps the books of the chain manager, in
    whatever order blocks arrive: every block received is linked, with the count of the
    transactions of its branch, as soon as its branch is complete, and waits for its parent
    until then; every block whose branch is complete and unfailed, and that is not worse than
    the tip, is a candidate. The block itself now has its data, and no other block changes its
    status. *)
Theorem ReceivedBlockTransactions_complete (addr : hash -> Z) (g : hash) (st : ChainState) (t : hash) (l : list hash) (p : hash) (b : CBlockIndex)
    (block : CBlock) (file pos : Z) :
  manager addr g st t l -> cs_index st !! p = Some b -> nTx b = 0 -> vtx block <> [] ->
  (forall x lx, lineage (cs_index st) x lx -> txs (cs_index st) lx + Z.of_nat (length (vtx block)) < 2 ^ 32) ->
  exists st', ReceivedBlockTransactions addr block p file pos st = Some st' /\ manager addr g st' t l /\ chainActive st' = chainActive st /\
    (exists b', cs_index st' !! p = Some b' /\ has_data b' = true /\ nTx b' = Z.of_nat (length (vtx block)) /\ is_failed b' = is_failed b) /\
    forall q c, q <> p -> cs_index st !! q = Some c -> exists c', cs_index st' !! q = Some c' /\ nStatus c' = nStatus c /\ nTx c' = nTx c.
Proof.
  intros M E Z0 Nv Bd. destruct (received_transactions addr g st t l p b block file pos M E Z0 Nv Bd) as (st' & b' & R & M' & A & Fi & [S D]).
  exists st'. split; [done|]. split; [done|]. split; [done|]. split.
  - destruct (same_shape_lookup _ _ p b' S (lookup_insert_eq _ _ _)) as (c & Ec & _). destruct (D p b' c (lookup_insert_eq _ _ _) Ec) as (D1 & D2 & _).
    exists c. split; [done|]. unfold has_data, is_failed. rewrite D1, D2. split; [apply (fi_data _ _ _ Fi)|]. split; [apply (fi_tx _ _ _ Fi)|apply (fi_failed _ _ _ Fi)].
  - intros q c N Ec. assert (Ec' : <[p := b']> (cs_index st) !! q = Some c) by (by rewrite lookup_insert_ne).
    destruct (same_shape_lookup _ _ q c S Ec') as (c' & E' & _). exists c'. split; [done|]. by destruct (D q c c' Ec' E') as (? & ? & _).
Qed.
Lemma ReceivedBlockTransactions_complete_witness :
  manager sel_addr [0] rc_state [0] [[0]] /\
  (st' <- ReceivedBlockTransactions sel_addr rc_block [1] 0 8 rc_state;;
   Some (setBlockIndexCandidates st', mapBlocksUnlinked st', nChainTx <$> cs_index st' !! [2])) = Some ({[[0]; [1]; [2]]}, [], Some 7) /\
  exists st', ReceivedBlockTransactions sel_addr rc_block [1] 0 8 rc_state = Some st' /\ manager sel_addr [0] st' [0] [[0]].
Proof.
  split; [apply rc_manager|]. split; [vm_compute; reflexivity|].
  destruct (ReceivedBlockTransactions_complete sel_addr [0] rc_state [0] [[0]] [1] _ rc_block 0 8 rc_manager eq_refl eq_refl ltac:(discriminate)) as (st' & H1 & H2 & _).
  - intros x lx [[-> ->]|[[-> ->]|[-> ->]]]%rc_lineage; vm_compute; reflexivity.
  - eauto.
Defined.
