(* ===== verification/Manager.v ===== *)
(** The chain manager as a whole: headers, blocks and activations in any order
    (src/validation.cpp: [AddToBlockIndex], [ReceivedBlockTransactions],
    [ActivateBestChain]). *)
From Stdlib Require Import ZArith Lia List Bool.
From stdpp Require Import base gmap list sets.
From S2P Require Import Prelude Uint256 Consensus Pow Serialize Script Interpreter Codecs Transaction TxVerify Block BlockCheck Chain StakeModifier ChainSelect Activate Receive.
Import ListNotations.
Local Open Scope Z_scope.
Local Open Scope passion_scope.

(** * What the activation leaves alone *)

(** Blocks waiting for their parent keep waiting; an entry keeps all but its marks and
    its undo data, and its validity is only raised. *)
Record framed (st st' : ChainState) : Prop := {
  fr_unlinked : mapBlocksUnlinked st' = mapBlocksUnlinked st;
  fr_entry : forall p b', cs_index st' !! p = Some b' -> exists b, cs_index st !! p = Some b /\ strip b' = strip b /\ has_data b' = has_data b /\ validity b <= validity b'
}.
#[export] Instance framed_po : PreOrder framed.
Proof.
  split; [intros st; split; [done|]; intros p b' E; exists b'; done|]. intros x y z [U1 E1] [U2 E2]. split; [congruence|]. intros p b2 H2.
  destruct (E2 _ _ H2) as (b1 & H1 & S1 & D1 & V1). destruct (E1 _ _ H1) as (b & H & S & D & V). exists b. split; [done|]. split; [congruence|]. split; [congruence|lia].
Qed.
(** A step that changes neither the entries nor the waiting blocks. *)
Lemma framed_index st st' : cs_index st' = cs_index st -> mapBlocksUnlinked st' = mapBlocksUnlinked st -> framed st st'.
Proof. intros E U. split; [done|]. intros p b'. rewrite E. intros H. by exists b'. Qed.
Lemma add_status_framed st p f : Z.land f BLOCK_HAVE_DATA = 0 -> Z.land f BLOCK_VALID_MASK = 0 -> framed st (add_status st p f).
Proof.
  intros D V. split; [done|]. intros q b' E. cbn in E. destruct (decide (q = p)) as [->|N].
  - rewrite lookup_alter_eq in E. apply fmap_Some in E as (b & E & ->). exists b. split; [done|]. split; [done|]. split; [by apply has_data_lor|].
    unfold validity. cbn [nStatus with_status]. rewrite Z.land_lor_distr_l, V, Z.lor_0_r. lia.
  - rewrite lookup_alter_ne in E by done. by exists b'.
Qed.
Lemma record_undo_framed st p undo st' : record_undo st p undo = Some st' -> framed st st'.
Proof.
  unfold record_undo. destruct undo as [pos|]; [|by intros [= <-]]. destruct (cs_index st !! p) as [b|] eqn:E; cbn [obind]; [|done].
  rewrite ix_IsValid_level by done. cbn [obind]. destruct (undo_missing b || _); [|by intros [= <-]].
  set (b1 := if undo_missing b then with_undo b pos else b).
  assert (B1 : strip b1 = strip b /\ has_data b1 = has_data b /\ validity b1 = validity b).
  { unfold b1. destruct (undo_missing b); [|done]. split; [done|]. unfold has_data, validity. cbn [nStatus with_undo].
    rewrite !Z.land_lor_distr_l. change (Z.land BLOCK_HAVE_UNDO BLOCK_HAVE_DATA) with 0. change (Z.land BLOCK_HAVE_UNDO BLOCK_VALID_MASK) with 0. by rewrite !Z.lor_0_r. }
  destruct B1 as (S1 & D1 & V1), (RaiseValidity_marks b1 BLOCK_VALID_SCRIPTS ltac:(done)) as (r & b' & -> & S2 & _ & D2 & V2). cbn [obind snd]. intros [= <-].
  split; [done|]. intros q c Ec. cbn in Ec. destruct (decide (q = p)) as [->|N]; [rewrite lookup_insert_eq in Ec|rewrite lookup_insert_ne in Ec by done; by exists c].
  injection Ec as <-. exists b. split; [done|]. split; [by etrans|]. split; [by etrans|lia].
Qed.

Section Frame.
Variable addr : hash -> Z.
Context {io : ChainIO}.

(** Every linked block has its data, so none is ever found missing. *)
Definition data_kept (st : ChainState) : Prop := forall p b, cs_index st !! p = Some b -> nChainTx b <> 0 \/ nHeight b = 0 -> has_data b = true.
Lemma data_kept_framed st st' : framed st st' -> data_kept st -> data_kept st'.
Proof.
  intros [_ Fr] D p b' E' L. destruct (Fr _ _ E') as (b & E & S & H & _). apply strip_fields in S as (_ & _ & S3 & _ & S5 & _). rewrite H. apply (D p b E).
  by rewrite S3, S5 in L.
Qed.
Lemma InvalidChainFound_framed st p st' : InvalidChainFound st p = Some st' -> framed st st'.
Proof.
  unfold InvalidChainFound. destruct (pindexBestInvalid st) as [q|]; [destruct (more_work _ _ _)|]; cbn;
    (destruct (Tip _); [|done]); intros [= <-]; by apply framed_index.
Qed.
Lemma InvalidBlockFound_framed st p f st' : InvalidBlockFound st p f = Some st' -> framed st st'.
Proof.
  unfold InvalidBlockFound. destruct f; [by intros [= <-]|]. intros H%InvalidChainFound_framed.
  etrans; [by apply (add_status_framed st p BLOCK_FAILED_VALID)|]. etrans; [|exact H]. by apply framed_index.
Qed.
Lemma test_chain_data fuel st p t f : data_kept st -> test_chain fuel st p = Some (WalkFailed t f) -> f = true.
Proof.
  intros D. revert p. induction fuel as [|fuel IH]; intros [q|]; cbn [test_chain]; try done; intros H; apply obind_Some in H as (b & E & H).
  all: case_bool_decide; [done|]; destruct ((nChainTx b =? 0) && negb (nHeight b =? 0)) eqn:A; [done|].
  all: assert (Hd : has_data b = true) by (apply (D _ _ E); destruct (Z.eqb_spec (nChainTx b) 0); [right|by left]; destruct (Z.eqb_spec (nHeight b) 0); done).
  all: rewrite Hd, orb_false_r in H; destruct (is_failed b); [by injection H as _ <-|]; first [done|by eapply IH].
Qed.
Lemma remove_chain_framed fuel t x st st' : remove_chain fuel t true x st = Some st' -> framed st st'.
Proof.
  revert x st. induction fuel as [|fuel IH]; intros x st; cbn [remove_chain]; (destruct (decide (t = x)); [by intros [= <-]|]); [done|].
  intros H. apply obind_Some in H as (b & _ & H). apply obind_Some in H as (q & _ & H). apply IH in H.
  etrans; [by apply (add_status_framed st x BLOCK_FAILED_CHILD)|]. etrans; [|exact H]. by apply framed_index.
Qed.
Lemma find_most_work_framed fuel st r st' : data_kept st -> find_most_work addr fuel st = Some (r, st') -> framed st st'.
Proof.
  revert st. induction fuel as [|fuel IH]; intros st D; cbn [find_most_work]; (destruct (last_of addr _ _) as [p|]; [|by intros [= _ <-]]);
    intros H; apply obind_Some in H as ([|t f] & W & H); try by injection H as _ <-.
  - done.
  - apply (test_chain_data _ _ _ _ _ D) in W as ->. apply obind_Some in H as (st1 & R & H). apply remove_chain_framed in R.
    match type of R with framed ?s _ => assert (F0 : framed st s) by (destruct (_ && _); by apply framed_index) end.
    assert (F1 : framed st (erase_candidate st1 t)) by (etrans; [exact F0|]; etrans; [exact R|]; by apply framed_index).
    etrans; [exact F1|]. apply IH; [by eapply data_kept_framed|done].
Qed.
Lemma FindMostWorkChain_framed st r st' : data_kept st -> FindMostWorkChain addr st = Some (r, st') -> framed st st'.
Proof. apply find_most_work_framed. Qed.
Lemma UpdateTip_framed st p st' : UpdateTip st p = Some st' -> framed st st'.
Proof.
  unfold UpdateTip. intros H. apply obind_Some in H as (q & _ & H). apply obind_Some in H as (c & _ & H). injection H as <-. by apply framed_index.
Qed.
Lemma Prune_framed st st' : PruneBlockIndexCandidates addr st = Some st' -> framed st st'.
Proof.
  unfold PruneBlockIndexCandidates. intros H. apply obind_Some in H as (t & _ & H). destruct (decide _); [done|]. injection H as <-. by apply framed_index.
Qed.
Definition tip_state (r : TipResult) : ChainState := match r with TipOk st _ | TipInvalid _ st | TipError st _ => st end.
Lemma ConnectTip_framed st c p r : ConnectTip st c p = Some r -> framed st (tip_state r).
Proof.
  unfold ConnectTip. intros H. apply obind_Some in H as (b & _ & H). destruct (negb _); [done|]. destruct (connect p c) as [c' u|f|c' u].
  - apply obind_Some in H as (st1 & R & H). apply obind_Some in H as (st2 & U & H). injection H as <-. apply record_undo_framed in R. apply UpdateTip_framed in U. by etrans.
  - apply obind_Some in H as (st1 & R & H). injection H as <-. by eapply InvalidBlockFound_framed.
  - apply obind_Some in H as (st1 & R & H). injection H as <-. by eapply record_undo_framed.
Qed.
Lemma disconnect_to_framed fuel f st c ok st' c' : disconnect_to fuel f st c = Some (ok, st', c') -> framed st st'.
Proof.
  revert st c. induction fuel as [|fuel IH]; intros st c; cbn [disconnect_to]; (destruct (Tip (chainActive st)) as [t|]; [|by intros [= _ <- _]]);
    (case_bool_decide as B; [by intros [= _ <- _]|]); [done|].
  intros H. apply obind_Some in H as ([[ok1 st1] c1] & D & H). assert (F : framed st st1).
  { unfold DisconnectTip in D. apply obind_Some in D as (p & _ & D). apply obind_Some in D as (b & _ & D). destruct (disconnect p c) as [[] c2]; cbn [negb] in D.
    - apply obind_Some in D as (st2 & U & D). injection D as _ <- _. by eapply UpdateTip_framed.
    - by injection D as _ <- _. }
  destruct ok1; [etrans; [exact F|by eapply IH]|by injection H as _ <- _].
Qed.
Definition batch_state (r : BatchResult) : ChainState := match r with BatchDone _ st _ | BatchInvalid st _ | BatchError st _ => st end.
Lemma connect_batch_framed ps back old st c r : connect_batch addr ps back old st c = Some r -> framed st (batch_state r).
Proof.
  revert st c. induction ps as [|p ps IH]; intros st c; cbn [connect_batch]; [by intros [= <-]|].
  intros H. apply obind_Some in H as (r1 & C & H). apply ConnectTip_framed in C. destruct r1 as [st1 c1|f st1|st1 c1]; cbn [tip_state] in C.
  - apply obind_Some in H as (st2 & P & H). apply Prune_framed in P. apply obind_Some in H as (t & _ & H). assert (F : framed st st2) by (by etrans).
    destruct (match old with None => true | _ => _ end); [by injection H as <-|]. etrans; [exact F|by eapply IH].
  - apply obind_Some in H as (st2 & I & H). injection H as <-. cbn [batch_state]. etrans; [exact C|]. destruct f; [by injection I as <-|by eapply InvalidChainFound_framed].
  - by injection H as <-.
Qed.
Lemma connect_batches_framed fuel p hm h old st c r : connect_batches addr fuel p hm h old st c = Some r -> framed st (step_st r).
Proof.
  revert h st c. induction fuel as [|fuel IH]; intros h st c; cbn [connect_batches]; (destruct (h =? hm); [by intros [= <-]|]); [done|].
  intros H. apply obind_Some in H as (q & _ & H). apply obind_Some in H as (v & _ & H). apply obind_Some in H as (r1 & B & H). apply connect_batch_framed in B.
  destruct r1 as [[] st1 c1|st1 c1|st1 c1]; cbn [batch_state] in B; [etrans; [exact B|by eapply IH]|by injection H as <-..].
Qed.
Lemma Step_framed st c p r : ActivateBestChainStep addr st c p = Some r -> framed st (step_st r).
Proof.
  unfold ActivateBestChainStep. intros H. apply obind_Some in H as (f & _ & H). apply obind_Some in H as ([[ok st1] c1] & D & H). apply disconnect_to_framed in D.
  destruct ok; cbn [negb] in H; [|by injection H as <-]. apply obind_Some in H as (bm & _ & H). apply obind_Some in H as (h & _ & H).
  etrans; [exact D|by eapply connect_batches_framed].
Qed.
Definition outcome_state (r : LoopState + (bool * ChainState * Coins)) : ChainState := match r with inl L => loop_st L | inr (_, st, _) => st end.
Lemma outer_check_state most f st c : outcome_state (outer_check most f st c) = st.
Proof. unfold outer_check. destruct (negb f); [done|]. by case_bool_decide. Qed.
Lemma abc_step_framed L r : data_kept (loop_st L) -> abc_step addr L = Some r -> framed (loop_st L) (outcome_state r).
Proof.
  intros D. unfold abc_step. intros H. apply obind_Some in H as ([most st] & Fm & H).
  assert (F : framed (loop_st L) st) by (destruct (pindexMostWork L); [by injection Fm as _ <-|by eapply FindMostWorkChain_framed]).
  destruct most as [p|]; [|injection H as <-; by rewrite outer_check_state]. case_bool_decide as B; [injection H as <-; by rewrite outer_check_state|].
  apply obind_Some in H as ([ok inv st1 c1] & S & H). apply Step_framed in S. cbn [step_st] in S. assert (F1 : framed (loop_st L) st1) by (by etrans).
  destruct ok; cbn [negb] in H; [|by injection H as <-]. destruct (match Tip (chainActive st1) with None => true | _ => _ end); injection H as <-; [done|by rewrite outer_check_state].
Qed.
Lemma abc_loop_framed fuel L ok st' c' : data_kept (loop_st L) -> abc_loop addr fuel L = Some (ok, st', c') -> framed (loop_st L) st'.
Proof.
  revert L. induction fuel as [|fuel IH]; intros L D; cbn [abc_loop]; [done|]. intros H. apply obind_Some in H as (r & S & H). apply abc_step_framed in S; [|done].
  destruct r as [L'|[[ok1 st1] c1]]; cbn [outcome_state] in S; [|by injection H as _ <- _]. etrans; [exact S|]. apply IH; [by eapply data_kept_framed|done].
Qed.
End Frame.

(** * The invariant of the manager *)

Section Manager.
Variables (addr : hash -> Z) (g : hash).

Lemma stored_framed st st' : stored g st [] -> framed st st' -> marks_grow (cs_index st) (cs_index st') -> stored g st' [].
Proof.
  intros So [U Fr] [S M]. assert (Sh := same_tree_shape _ _ S).
  assert (Back : forall p b', cs_index st' !! p = Some b' -> exists b, cs_index st !! p = Some b /\ pprev b' = pprev b /\ nTx b' = nTx b /\ nChainTx b' = nChainTx b /\
    has_data b' = has_data b /\ validity b <= validity b' /\ (is_failed b' = false -> is_failed b = false)).
  { intros p b' E'. destruct (Fr _ _ E') as (b & E & Sb & D & V). apply strip_fields in Sb as (S1 & _ & _ & _ & S5 & _ & _ & _ & S9).
    exists b. do 6 (split; [done|]). destruct (M _ _ _ E E') as [M1 _]. destruct (is_failed b); [rewrite M1 by done|]; done. }
  assert (Forw : forall p b, cs_index st !! p = Some b -> exists b', cs_index st' !! p = Some b' /\ pprev b' = pprev b /\ nTx b' = nTx b /\ nChainTx b' = nChainTx b).
  { intros p b E. destruct (same_tree_lookup _ _ _ _ S E) as (b' & E' & _). exists b'. destruct (Back _ _ E') as (c & Ec & R). simplify_eq. split; [done|]. intuition. }
  assert (Tx : forall l, txs (cs_index st') l = txs (cs_index st) l).
  { intros l. apply txs_ext. intros q _. destruct (cs_index st' !! q) as [b'|] eqn:E'; [destruct (Back _ _ E') as (b & -> & _ & R & _); cbn; by rewrite R|].
    destruct (cs_index st !! q) as [b|] eqn:E; [|done]. destruct (Forw _ _ E) as (b' & C & _). congruence. }
  assert (Li : forall p l, lineage (cs_index st') p l -> lineage (cs_index st) p l) by (intros p l; apply lineage_shape; by symmetry).
  split.
  - by apply (tree_ok_shape g (cs_index st)), So.
  - intros p b' E'. destruct (Back _ _ E') as (b & E & _ & -> & _ & -> & _). by apply (so_tx _ _ _ So p).
  - intros p b' l E' Hl. destruct (Back _ _ E') as (b & E & _ & -> & -> & _). rewrite Tx. by apply (so_count _ _ _ So p), Li.
  - intros p b' q bq' E' N P Eq'. destruct (Back _ _ E') as (b & E & Pb & _ & Cb & _), (Back _ _ Eq') as (bq & Eq & _ & _ & Cq & _).
    rewrite Cq. rewrite Cb in N. rewrite Pb in P. by apply (so_parent _ _ _ So p b q).
  - intros p b' E'. destruct (Back _ _ E') as (b & E & _ & _ & _ & _ & V & _). pose proof (so_valid _ _ _ So _ _ E). lia.
  - intros a q Hq. rewrite U in Hq. destruct (so_unlinked _ _ _ So _ _ Hq) as (b & ba & E & P & Ea & N & Z0 & Za).
    destruct (Forw _ _ E) as (b' & E' & P' & T' & C'), (Forw _ _ Ea) as (ba' & Ea' & _ & _ & Ca'). exists b', ba'. split; [done|]. split; [congruence|]. split; [done|]. split; [congruence|]. split; congruence.
  - intros q Hq. by apply elem_of_nil in Hq.
  - rewrite U. apply So.
  - intros q b' a ba' E' N Z0 P Ea' F. left. rewrite U. destruct (Back _ _ E') as (b & E & Pb & Tb & Cb & _), (Back _ _ Ea') as (ba & Ea & _ & _ & _ & _ & _ & Fa).
    rewrite Tb in N. rewrite Cb in Z0. rewrite Pb in P.
    destruct (so_waiting _ _ _ So _ _ _ _ E N Z0 P Ea (Fa F)) as [|W]; [done|by apply elem_of_nil in W].
  - intros b' E'. destruct (Back _ _ E') as (b & E & _ & _ & -> & _). by apply (so_root _ _ _ So).
  - intros p l Hl. rewrite Tx. by apply (so_bound _ _ _ So p), Li.
Qed.
Lemma stored_data_kept st queue : stored g st queue -> data_kept st.
Proof.
  intros So p b E L. apply (so_tx _ _ _ So _ _ E). assert (N : nChainTx b <> 0).
  { destruct L as [|Z0]; [done|]. apply (so_root _ _ _ So). by rewrite <- (root_entry _ _ _ _ _ So E (or_intror Z0)). }
  destruct (index_lineage _ (to_index _ _ (so_tree _ _ _ So)) p b E) as [l H]. by destruct (so_count _ _ _ So _ _ _ E H N).
Qed.
Lemma manager_linked st t l q : manager addr g st t l -> good_path (cs_index st) q -> linked (cs_index st) q.
Proof. intros M. apply (good_linked g). apply M. Qed.

(** The activation keeps the invariant, and ends on the best complete branch. *)
Definition best_tip (st : ChainState) (t : hash) : Prop := forall q, good_path (cs_index st) q -> work_lt addr (cs_index st) t q = false.
Lemma activation_manager {io : ChainIO} {laws : ChainIOLaws io} (c0 c : Coins) st t l : manager addr g st t l -> coherent c0 c l ->
  exists enough ok st' c', (forall fuel, (enough <= fuel)%nat -> ActivateBestChain addr fuel st c = Some (ok, st', c')) /\
    if ok : bool then
      exists t' l', manager addr g st' t' l' /\ coherent c0 c' l' /\ work_lt addr (cs_index st') t' t = false /\ best_tip st' t' /\ marks_grow (cs_index st) (cs_index st')
    else system_failed.
Proof.
  intros M Co. pose proof M as [M1 M2 M3 M4]. destruct (activation_ends addr g io laws c0 c st t l M1 M2 Co) as (enough & [[ok st'] c'] & R & A); [auto|].
  exists enough, ok, st', c'. split; [done|]. destruct ok; [|done]. destruct A as (t' & l' & A1 & A2 & A3 & A4 & A5 & A6 & A7).
  assert (Fr : framed st st') by (specialize (R enough ltac:(lia)); apply abc_loop_framed in R; [done|by apply (stored_data_kept st [])]).
  pose proof (stored_framed _ _ M3 Fr A4) as So. exists t', l'. split; [split; auto|].
  - intros q Gq W. apply A7; [done| |done]. by apply (good_linked g).
  - split; [done|]. split; [done|]. split; [|done]. intros q Gq. apply A6; [done|]. by apply (good_linked g).
Qed.

(** ** A new header *)

Lemma lineage_fresh idx h b p l : index_ok idx -> idx !! h = None -> is_Some (idx !! p) -> lineage (<[h := b]> idx) p l -> lineage idx p l.
Proof.
  intros Hi N [c E] H. destruct (index_lineage _ Hi p c E) as [l0 H0]. by rewrite (lineage_functional _ _ _ _ H (lineage_insert _ _ b _ _ N H0)).
Qed.
Lemma links_parent idx b q : links_ok idx b -> pprev b = Some q -> is_Some (idx !! q).
Proof. unfold links_ok. intros L P. rewrite P in L. destruct L as (bq & _ & E & _). eauto. Qed.
Lemma tree_ok_insert idx h b q bq : tree_ok g idx -> idx !! h = None -> links_ok idx b -> pprev b = Some q -> idx !! q = Some bq ->
  wf WIDTH256 (nChainWork b) -> val WIDTH256 (nChainWork bq) < val WIDTH256 (nChainWork b) -> tree_ok g (<[h := b]> idx).
Proof.
  intros T N L P Eq Wb Lt. pose proof (to_index _ _ T) as Hi. split.
  - intros p c [[<- <-]|[_ E]]%lookup_insert_Some; apply links_ok_insert; eauto.
  - intros p c [[<- <-]|[_ E]]%lookup_insert_Some; [done|by eapply (to_work _ _ T)].
  - intros p c x bx [[<- <-]|[Np E]]%lookup_insert_Some Px [[<- <-]|[Nx Ex]]%lookup_insert_Some.
    + congruence.
    + by simplify_eq.
    + destruct (links_parent _ _ _ (Hi _ _ E) Px). congruence.
    + by apply (to_grow _ _ T p c x).
  - intros p l H. destruct (decide (p = h)) as [->|Np].
    + inversion H as [? c E P'|? c x l' E P' H']; [rewrite lookup_insert_eq in E; congruence|]. rewrite lookup_insert_eq in E. simplify_eq.
      apply lineage_fresh in H'; [|done|done|eauto]. apply lookup_app_l_Some. by apply (to_root _ _ T q).
    + destruct (lineage_lookup _ _ _ H) as [c E]. rewrite lookup_insert_ne in E by done. apply (to_root _ _ T p). eapply lineage_fresh; eauto.
Qed.
(** The entry of a header whose block has not been received. *)
Record header_only (idx : BlockMap) (b : CBlockIndex) : Prop := {
  ho_links : links_ok idx b;
  ho_parent : exists q bq, pprev b = Some q /\ idx !! q = Some bq /\ val WIDTH256 (nChainWork bq) < val WIDTH256 (nChainWork b);
  ho_work : wf WIDTH256 (nChainWork b);
  ho_tx : nTx b = 0 /\ nChainTx b = 0;
  ho_status : nStatus b = BLOCK_VALID_TREE
}.
Lemma txs_fresh idx h b l : idx !! h = None -> nTx b = 0 -> txs (<[h := b]> idx) l = txs idx l.
Proof.
  intros N Z0. induction l as [|x l IH]; cbn; [done|]. fold (txs (<[h := b]> idx) l) (txs idx l). rewrite IH. f_equal.
  destruct (decide (x = h)) as [->|]; [by rewrite lookup_insert_eq, N|by rewrite lookup_insert_ne].
Qed.
Lemma stored_header st h b : stored g st [] -> cs_index st !! h = None -> header_only (cs_index st) b -> stored g (with_index st (<[h := b]> (cs_index st))) [].
Proof.
  intros So N [H1 (q0 & bq0 & P0 & E0 & W0) H3 [H4 H4'] H5]. pose proof (so_tree _ _ _ So) as T. pose proof (to_index _ _ T) as Hi.
  set (idx' := <[h := b]> (cs_index st)).
  assert (Np : forall p c x, cs_index st !! p = Some c -> pprev c = Some x -> x <> h) by (intros p c x E P ->; destruct (links_parent _ _ _ (Hi _ _ E) P); congruence).
  assert (Cs : forall p c, idx' !! p = Some c -> p = h /\ c = b \/ p <> h /\ cs_index st !! p = Some c).
  { intros p c [[<- <-]|[Np' E]]%lookup_insert_Some; auto. }
  split; cbn [cs_index mapBlocksUnlinked with_index]; fold idx'.
  - by eapply tree_ok_insert.
  - intros p c [[-> ->]|[_ E]]%Cs; [rewrite H4; split; [done|]; unfold has_data; rewrite H5; done|by apply (so_tx _ _ _ So p)].
  - intros p c l [[-> ->]|[_ E]]%Cs Hl Nc; [done|]. unfold idx'. rewrite txs_fresh by done. apply (so_count _ _ _ So p); [done|by eapply lineage_fresh|done].
  - intros p c x bx [[-> ->]|[_ E]]%Cs Nc Px Ex; [done|]. unfold idx' in Ex. rewrite lookup_insert_ne in Ex by (symmetry; eauto). by apply (so_parent _ _ _ So p c x).
  - intros p c [[-> ->]|[_ E]]%Cs; [unfold validity; rewrite H5; done|by apply (so_valid _ _ _ So p)].
  - intros a q Hq. destruct (so_unlinked _ _ _ So _ _ Hq) as (c & ba & E & P & Ea & R). exists c, ba. unfold idx'. rewrite !lookup_insert_ne by congruence. done.
  - intros q Hq. by apply elem_of_nil in Hq.
  - apply So.
  - intros q c a ba [[-> ->]|[_ E]]%Cs Nq Zq P Ea F; [done|]. unfold idx' in Ea. rewrite lookup_insert_ne in Ea by (symmetry; eauto). by apply (so_waiting _ _ _ So q c a ba).
  - intros c [[-> ->]|[_ E]]%Cs; [|by apply (so_root _ _ _ So)]. exfalso.
    destruct (index_lineage _ Hi q0 bq0 E0) as [l Hl]. pose proof (to_root _ _ T _ _ Hl) as R. destruct (lineage_elem _ _ _ _ Hl (list_elem_of_lookup_2 _ _ _ R)). congruence.
  - intros p l Hl. unfold idx'. rewrite txs_fresh by done. destruct (lineage_lookup _ _ _ Hl) as [c [[-> ->]|[_ E]]%Cs]; [|by eapply (so_bound _ _ _ So p), lineage_fresh].
    inversion Hl as [? c E P'|? c x l' E P' H']; subst; unfold idx' in E; rewrite lookup_insert_eq in E; simplify_eq.
    apply lineage_fresh in H'; [|done|done|eauto]. rewrite txs_app. cbn [txs fold_right]. rewrite N. cbn. pose proof (so_bound _ _ _ So _ _ H'). lia.
Qed.
Lemma good_path_fresh idx h b p : index_ok idx -> idx !! h = None -> nStatus b = BLOCK_VALID_TREE -> good_path (<[h := b]> idx) p -> good_path idx p /\ p <> h.
Proof.
  intros Hi N S (l & H & G). assert (Np : p <> h).
  { intros ->. destruct (G h b) as [_ D]; [apply last_Some_elem_of; by eapply lineage_last|apply lookup_insert_eq|]. unfold has_data in D. by rewrite S in D. }
  split; [|done]. destruct (lineage_lookup _ _ _ H) as [c E]. rewrite lookup_insert_ne in E by done. exists l.
  assert (H' : lineage idx p l) by (eapply lineage_fresh; eauto). split; [done|]. intros q c' Hq Eq. apply (G q); [done|]. rewrite lookup_insert_ne; [done|]. intros ->. congruence.
Qed.
Lemma manager_header st t l h b : manager addr g st t l -> cs_index st !! h = None -> header_only (cs_index st) b ->
  manager addr g (with_index st (<[h := b]> (cs_index st))) t l.
Proof.
  intros [[I1 I2 (t' & I3 & IL) I4 I5] M2 M3 M4] N Ho. pose proof (stored_header _ _ _ M3 N Ho) as So. pose proof (to_index _ _ I1) as Hi.
  set (idx' := <[h := b]> (cs_index st)) in *.
  assert (Keep : forall p c, cs_index st !! p = Some c -> idx' !! p = Some c) by (intros p c E; unfold idx'; rewrite lookup_insert_ne by congruence; done).
  assert (Lk : forall p c, cs_index st !! p = Some c -> linked (cs_index st) p -> linked idx' p).
  { intros p c E L. pose proof (tx_of_linked _ _ _ _ _ M3 E L). by eapply (linked_of_tx g (with_index st idx') [] p c); [|apply Keep|]. }
  split; cbn [cs_index setBlockIndexCandidates with_index].
  - split; cbn [cs_index chainActive setBlockIndexCandidates with_index].
    + apply So.
    + done.
    + exists t'. destruct (lineage_lookup _ _ _ I3) as [c E]. split; [by apply lineage_insert|by eapply Lk].
    + intros q c Hq E. apply (I4 q); [done|]. destruct (lineage_elem _ _ _ _ I3 Hq) as [c' E']. pose proof (Keep _ _ E'). congruence.
    + intros p Hp. destruct (I5 p Hp) as [[c E] L]. split; [eauto|by eapply Lk].
  - by apply lineage_insert.
  - done.
  - intros q Gq W. apply good_path_fresh in Gq as [Gq Nq]; [|done|done|apply Ho]. apply M4; [done|]. rewrite <- W.
    destruct (lineage_lookup _ _ _ M2) as [bt Et]. apply work_lt_entries; unfold idx'; rewrite lookup_insert_ne; congruence.
Qed.

(** ** A block that fails its checks *)

Lemma manager_failed st t l p b : manager addr g st t l -> cs_index st !! p = Some b -> has_data b = false ->
  manager addr g (mark_dirty (add_status st p BLOCK_FAILED_VALID) p) t l.
Proof.
  intros [[I1 I2 (t' & I3 & IL) I4 I5] M2 M3 M4] E D. pose proof (add_status_grows st p BLOCK_FAILED_VALID eq_refl) as M. pose proof (proj1 M) as S.
  assert (So : stored g (mark_dirty (add_status st p BLOCK_FAILED_VALID) p) []).
  { apply (stored_framed st); [done| |done]. etrans; [by apply (add_status_framed st p BLOCK_FAILED_VALID)|by apply framed_index]. }
  assert (Np : p ∉ l) by (intros Hp; destruct (I4 _ _ Hp E); congruence).
  split; cbn [cs_index setBlockIndexCandidates mark_dirty]; [split; cbn [cs_index chainActive setBlockIndexCandidates mark_dirty]| | |].
  - apply So.
  - done.
  - exists t'. split; [by eapply lineage_same|by eapply linked_same].
  - intros q c Hq Ec. apply (I4 q); [done|]. cbn in Ec. rewrite lookup_alter_ne in Ec by (intros ->; done). done.
  - intros q Hq. destruct (I5 q Hq) as [[c Ec] L]. destruct (same_tree_lookup _ _ _ _ S Ec) as (c' & Ec' & _). split; [eauto|by eapply linked_same].
  - by eapply lineage_same.
  - done.
  - intros q Gq W. apply M4; [by eapply good_path_shrinks|]. by rewrite (work_lt_same addr _ _ _ _ S).
Qed.
End Manager.
