(* ===== verification/Kernel.v ===== *)
(** The stake kernel: stake inputs, the kernel hash and the check of a proof of stake
    (src/kernel.h, src/kernel.cpp, src/stakeinput.h, src/stakeinput.cpp,
    src/zpiv/zpos.cpp, src/legacy/stakemodifier.cpp). *)
From Stdlib Require Import ZArith Lia List Bool.
From stdpp Require Import base gmap list.
From S2P Require Import Prelude Uint256 Consensus Pow Serialize Script Interpreter Codecs Transaction TxVerify Policy SigHash Standard Inputs Block BlockCheck Chain StakeModifier.
Import ListNotations.
Local Open Scope Z_scope.
Local Open Scope passion_scope.

(** * Stake inputs *)

(** The heights of accumulator checkpoints already computed. *)
Abbreviation AccChecksums := (gmap (Z * Z) Z).

(** The interface: a call that looks for the block of origin may write the database of
    checkpoints.  Outer [None] is an exception or an access outside an array, inner
    [None] a null pointer. *)
Record CStakeInput := mkStakeInput {
  si_GetIndexFrom : AccChecksums -> option (option hash * AccChecksums);
  si_IsZPASSION : bool;
  si_GetValue : Z;
  si_GetUniqueness : list Z;
  si_ContextCheck : Z -> Z -> option bool;
  si_GetTxOutFrom : option CTxOut
}.

(** What a coin spend says; [isStakeSpend] is its spend type. *)
Record ZcStakeSpend := mkZcSpend {
  isStakeSpend : bool;
  zs_AccumulatorChecksum : Z;
  zs_Denomination : Z;
  zs_CoinSerialNumber : list Z
}.

Section Kernel.
Context {babi : BlockAbi} `{SphLib} {crypto : ScriptCrypto} {sig : SigCrypto}.
Variable consensus : Params.
(** Chain parameters of the zerocoin era. *)
Variables (height_last_ZC_AccumCheckpoint ZC_MinStakeDepth : Z).
(** The block index, the active chain, the transaction index with the hash of the
    containing block, and the parser of coin spends, which throws ([None]). *)
Variables (idx : BlockMap) (chainActive : CChain).
Variable GetTransaction : list Z -> option (CTransaction * hash).
Variable zerocoin_spend : CTxIn -> option ZcStakeSpend.

(** ** Transparent *)

Record CPivStake := mkPivStake {
  outputFrom : CTxOut;
  outpointFrom : COutPoint;
  ps_pindexFrom : hash
}.
(** [None]: [txPrev->vout[n]] is behind the end. Inner [None]: null. *)
Definition NewPivStake (txin : CTxIn) : option (option CPivStake) :=
  if CTxIn_IsZerocoinSpend txin then Some None
  else
    match GetTransaction (out_hash (prevout txin)) with
    | None => Some None
    | Some (txPrev, hashBlock) =>
        let pindexFrom :=
          match idx !! hashBlock with
          | Some b => if bool_decide (chain_at chainActive (nHeight b) = Some hashBlock) then Some hashBlock else None
          | None => None
          end in
        match pindexFrom with
        | None => Some None
        | Some p => o <- vout txPrev !! Z.to_nat (out_n (prevout txin));; Some (Some (mkPivStake o (prevout txin) p))
        end
    end.
Definition PivStake_GetUniqueness (s : CPivStake) : list Z := ser_writedata32 (out_n (outpointFrom s)) ++ out_hash (outpointFrom s).
Definition PivStake_ContextCheck (s : CPivStake) (nHeight_ nTime : Z) : option bool :=
  b <- idx !! ps_pindexFrom s;;
  Some (negb (NetworkUpgradeActive consensus (nHeight_ + 1) UPGRADE_ZC_PUBLIC &&
              negb (HasStakeMinAgeOrDepth consensus nHeight_ nTime (nHeight b) (ix_nTime b)))).
(** [CreateTxOuts]: the wallet has a public key for each key id it can sign for; the
    result is the outputs appended, [None] when it answers false. *)
Definition stake_splits (nTotal nStakeSplitThreshold : Z) : Z :=
  if nStakeSplitThreshold >? 0 then
    let nSplit := i32 (Z.quot nTotal nStakeSplitThreshold) in
    if nSplit >? 1 then Z.min nSplit (Z.shiftr MAX_STANDARD_TX_SIZE 11) else 1
  else 1.
Definition CreateTxOuts (GetKey : list Z -> option (list Z)) (nStakeSplitThreshold : Z) (s : CPivStake) (nTotal : Z) (onlyP2PK : bool)
    : option (list CTxOut) :=
  let scriptPubKeyKernel := scriptPubKey (outputFrom s) in
  match Solver scriptPubKeyKernel with
  | None => None
  | Some (whichType, vSolutions) =>
      let key :=
        match whichType with
        | TX_PUBKEY => Some []   (* not used *)
        | TX_PUBKEYHASH | TX_COLDSTAKE => GetKey (nth 0 vSolutions [])
        | _ => None              (* not supported *)
        end in
      match key with
      | None => None
      | Some key =>
          let script :=
            match whichType with
            | TX_PUBKEYHASH => if onlyP2PK then push_data [] key ++ [OP_CHECKSIG] else scriptPubKeyKernel
            | _ => scriptPubKeyKernel
            end in
          Some (repeat (mkTxOut 0 script (-10)) (Z.to_nat (stake_splits nTotal nStakeSplitThreshold)))
      end
  end.
Definition CPivStake_input (s : CPivStake) : CStakeInput :=
  mkStakeInput (fun db => Some (Some (ps_pindexFrom s), db)) false (nValue (outputFrom s)) (PivStake_GetUniqueness s)
    (PivStake_ContextCheck s) (Some (outputFrom s)).

(** ** Zerocoin *)

Definition zerocoinDenomList : list Z := [1; 5; 10; 50; 100; 500; 1000; 5000].
Definition IntToZerocoinDenomination (amount : Z) : Z := if existsb (Z.eqb amount) zerocoinDenomList then amount else ZQ_ERROR.
Definition AmountToZerocoinDenomination (amount : Z) : Z :=
  if amount - COIN * Z.quot amount COIN =? 0 then IntToZerocoinDenomination (Z.quot amount COIN) else ZQ_ERROR.
(** [std::distance] to the denomination, the length of the list when it is absent;
    the difference of the sizes is unsigned and the shift count an int. *)
Fixpoint denom_pos (denom : Z) (l : list Z) : Z :=
  match l with [] => 0 | d :: l => if d =? denom then 0 else 1 + denom_pos denom l end.
Definition ParseAccChecksum (nCheckpoint : list Z) (denom : Z) : Z :=
  let pos := denom_pos denom zerocoinDenomList in
  (shr_assign WIDTH256 (hash_words nCheckpoint) (u32 (32 * (8 - 1 - pos)))).[0%nat].

Record CLegacyZPivStake := mkZStake {
  nChecksum : Z;
  zs_denom : Z;
  hashSerial : list Z
}.
(** The scan of the chain, in steps of ten blocks from a multiple of ten on. *)
Fixpoint scan_checkpoints (fuel : nat) (s : CLegacyZPivStake) (p : option hash) : option (option (hash * Z)) :=
  match p with
  | None => Some None
  | Some q =>
      b <- idx !! q;;
      if nHeight b >? height_last_ZC_AccumCheckpoint then Some None
      else if ParseAccChecksum (nAccumulatorCheckpoint (ix_header b)) (zs_denom s) =? nChecksum s then Some (Some (q, nHeight b))
      else
        match fuel with
        | O => None
        | S fuel =>
            if Z.rem (nHeight b) 10 =? 0 then scan_checkpoints fuel s (chain_at chainActive (nHeight b + 10))
            else n <- Next idx chainActive q;; scan_checkpoints fuel s n
        end
  end.
Definition ZStake_GetIndexFrom (s : CLegacyZPivStake) (db : AccChecksums) : option (option hash * AccChecksums) :=
  match db !! (nChecksum s, zs_denom s) with
  | Some nHeightChecksum => Some (chain_at chainActive nHeightChecksum, db)
  | None =>
      r <- scan_checkpoints (length chainActive) s (chain_at chainActive (upgrade_height consensus UPGRADE_ZC));;
      match r with
      | Some (p, h) => Some (Some p, <[(nChecksum s, zs_denom s) := h]> db)
      | None => Some (None, db)
      end
  end.
Definition ZStake_GetValue (s : CLegacyZPivStake) : Z := i64 (zs_denom s * COIN).
(** [None]: [chainActive[cpHeight]] is null and followed. *)
Definition ZStake_ContextCheck (s : CLegacyZPivStake) (nHeight_ nTime : Z) : option bool :=
  if negb (NetworkUpgradeActive consensus nHeight_ UPGRADE_ZC_V2) || (nHeight_ >=? height_last_ZC_AccumCheckpoint) then Some false
  else
    let cpHeight := nHeight_ - 1 - ZC_MinStakeDepth in
    let denom := AmountToZerocoinDenomination (ZStake_GetValue s) in
    p <- chain_at chainActive cpHeight;; b <- idx !! p;;
    Some (ParseAccChecksum (nAccumulatorCheckpoint (ix_header b)) denom =? nChecksum s).
Definition CLegacyZPivStake_input (s : CLegacyZPivStake) : CStakeInput :=
  mkStakeInput (ZStake_GetIndexFrom s) true (ZStake_GetValue s) (hashSerial s) (ZStake_ContextCheck s) None.
(** [InitFromTxIn]: the stake, if it is one. *)
Definition ZStake_InitFromTxIn (txin : CTxIn) (db : AccChecksums) : option (option CLegacyZPivStake * AccChecksums) :=
  if negb (CTxIn_IsZerocoinSpend txin) then Some (None, db)
  else
    spend <- zerocoin_spend txin;;
    if negb (isStakeSpend spend) then Some (None, db)
    else
      let s := mkZStake (zs_AccumulatorChecksum spend) (zs_Denomination spend) (Hash256 (zs_CoinSerialNumber spend)) in
      r <- ZStake_GetIndexFrom s db;;
      let '(p, db) := r in
      Some (match p with Some _ => Some s | None => None end, db).

(** * The old modifier of a stake *)

(** The do-loop, entered with [pindexNext]; [None] of the result is the logged error. *)
Fixpoint old_modifier_loop (fuel : nat) (timeFrom nStakeModifierTime : Z) (pindexNext : option hash) : option (option Z) :=
  match pindexNext with
  | None => Some None
  | Some p =>
      b <- idx !! p;;
      let nStakeModifierTime := if GeneratedStakeModifier b then ix_GetBlockTime b else nStakeModifierTime in
      if nStakeModifierTime <? timeFrom + OLD_MODIFIER_INTERVAL then
        match fuel with O => None | S fuel => old_modifier_loop fuel timeFrom nStakeModifierTime (chain_at chainActive (nHeight b + 1)) end
      else m <- GetStakeModifierV1 consensus b;; Some (Some m)
  end.
Definition GetOldModifier (pindexFrom : hash) : option (option Z) :=
  b <- idx !! pindexFrom;;
  old_modifier_loop (length chainActive) (ix_GetBlockTime b) (ix_GetBlockTime b) (chain_at chainActive (nHeight b + 1)).
(** Zerocoin stakes: the first checkpoint an hour after the origin. *)
Fixpoint zc_modifier_loop (fuel : nat) (nTimeBlockFrom nHeightStop : Z) (pindexFrom : option hash) : option (option Z) :=
  match pindexFrom with
  | None => Some None
  | Some p =>
      b <- idx !! p;;
      if nHeight b + 1 >? nHeightStop then Some None
      else if ix_GetBlockTime b - nTimeBlockFrom >? 60 * 60 then Some (Some (GetCheapHash (nAccumulatorCheckpoint (ix_header b))))
      else match fuel with O => None | S fuel => n <- Next idx chainActive p;; zc_modifier_loop fuel nTimeBlockFrom nHeightStop n end
  end.
Definition GetOldStakeModifier (stake : CStakeInput) (db : AccChecksums) : option (option Z * AccChecksums) :=
  r <- si_GetIndexFrom stake db;;
  let '(pindexFrom, db) := r in
  match pindexFrom with
  | None => Some (None, db)
  | Some p =>
      m <- (if si_IsZPASSION stake then
              b <- idx !! p;;
              zc_modifier_loop (length chainActive) (ix_GetBlockTime b)
                (Z.min (Height chainActive) (height_last_ZC_AccumCheckpoint - 1)) (Some p)
            else GetOldModifier p);;
      Some (m, db)
  end.

(** * The kernel *)

Record CStakeKernel := mkKernel {
  stakeModifier : list Z;
  nTimeBlockFrom : Z;
  stakeUniqueness : list Z;
  k_nTime : Z;
  k_nBits : Z;
  stakeValue : Z
}.
(** [nTimeTx] and [nTimeBlockFrom] are ints; the modifier of a failed search is 0. *)
Definition CStakeKernel_of (pindexPrev : hash) (stake : CStakeInput) (nBits_ nTimeTx : Z) (db : AccChecksums)
    : option (CStakeKernel * AccChecksums) :=
  bprev <- idx !! pindexPrev;;
  r <- (if negb (NetworkUpgradeActive consensus (nHeight bprev + 1) UPGRADE_V3_4) then
          r <- GetOldStakeModifier stake db;;
          let '(m, db) := r in Some (ser_writedata64 (match m with Some m => m | None => 0 end), db)
        else m <- GetStakeModifierV2 consensus bprev;; Some (m, db));;
  let '(modifier, db) := r in
  r <- si_GetIndexFrom stake db;;
  let '(pindexFrom, db) := r in
  p <- pindexFrom;; b <- idx !! p;;
  Some (mkKernel modifier (i32 (ix_nTime b)) (si_GetUniqueness stake) (i32 nTimeTx) nBits_ (si_GetValue stake), db).
Definition Kernel_GetHash (k : CStakeKernel) : list Z :=
  Hash256 (stakeModifier k ++ ser_writedata32 (nTimeBlockFrom k) ++ stakeUniqueness k ++ ser_writedata32 (k_nTime k)).
(** [uint256(stakeValue) / 100]; the sign and overflow of [SetCompact] are ignored. *)
Definition kernel_target (nBits_ value : Z) : option (list Z) :=
  let '(bnTarget, _, _) := SetCompact nBits_ in
  weight <- div_assign WIDTH256 (base_uint_of_u64 WIDTH256 (u64 value)) (base_uint_of_u64 WIDTH256 100);;
  Some (mul_assign WIDTH256 bnTarget weight).
Definition CheckKernelHash (k : CStakeKernel) : option bool :=
  bnTarget <- kernel_target (k_nBits k) (stakeValue k);;
  Some (base_uint_lt WIDTH256 (hash_words (Kernel_GetHash k)) bnTarget).

(** * Validation *)

(** [None] inside: false was returned. The index is searched without [pindexPrev]. *)
Definition LoadStakeInput (block : CBlock) (pindexPrev : option hash) (db : AccChecksums) : option (option CStakeInput * AccChecksums) :=
  let found :=
    match pindexPrev with
    | None => match idx !! hashPrevBlock (header block) with Some _ => true | None => false end
    | Some p => bool_decide (hashPrevBlock (header block) = p)
    end in
  if negb found then Some (None, db)
  else if negb (IsProofOfStake block) then Some (None, db)
  else
    tx <- vtx block !! 1%nat;; txin <- vin tx !! 0%nat;;
    if CTxIn_IsZerocoinSpend txin then
      r <- ZStake_InitFromTxIn txin db;;
      let '(s, db) := r in Some (option_map CLegacyZPivStake_input s, db)
    else
      s <- NewPivStake txin;; Some (option_map CPivStake_input s, db).

Inductive StakeError := STAKE_OK | STAKE_INIT_FAILED | STAKE_CONTEXT_FAILED | STAKE_KERNEL_FAILED | STAKE_NO_PREVOUT | STAKE_SIGNATURE_FAILED.

Definition CheckProofOfStake (block : CBlock) (pindexPrev : hash) (db : AccChecksums) : option (StakeError * AccChecksums) :=
  bprev <- idx !! pindexPrev;;
  r <- LoadStakeInput block (Some pindexPrev) db;;
  let '(stakeInput, db) := r in
  match stakeInput with
  | None => Some (STAKE_INIT_FAILED, db)
  | Some stake =>
      ok <- si_ContextCheck stake (nHeight bprev + 1) (blk_nTime (header block));;
      if negb ok then Some (STAKE_CONTEXT_FAILED, db)
      else
        r <- CStakeKernel_of pindexPrev stake (nBits (header block)) (blk_nTime (header block)) db;;
        let '(k, db) := r in
        ok <- CheckKernelHash k;;
        if negb ok then Some (STAKE_KERNEL_FAILED, db)
        else if si_IsZPASSION stake then Some (STAKE_OK, db)
        else
          match si_GetTxOutFrom stake with
          | None => Some (STAKE_NO_PREVOUT, db)
          | Some stakePrevout =>
              tx <- vtx block !! 1%nat;; txin <- vin tx !! 0%nat;;
              match VerifyScript (scriptSig txin) (scriptPubKey stakePrevout) STANDARD_SCRIPT_VERIFY_FLAGS
                      (TransactionSignatureChecker tx 0 (nValue stakePrevout) None) (GetRequiredSigVersion tx) with
              | Ok _ => Some (STAKE_OK, db)
              | Err _ => Some (STAKE_SIGNATURE_FAILED, db)
              | Abort => None
              end
          end
  end.
(** A null [pindexPrev] passes the first function and is followed by the second. *)
Definition GetStakeKernelHash (block : CBlock) (pindexPrev : option hash) (db : AccChecksums) : option (option (list Z) * AccChecksums) :=
  r <- LoadStakeInput block pindexPrev db;;
  let '(stakeInput, db) := r in
  match stakeInput with
  | None => Some (None, db)
  | Some stake =>
      p <- pindexPrev;;
      r <- CStakeKernel_of p stake (nBits (header block)) (blk_nTime (header block)) db;;
      let '(k, db) := r in Some (Some (Kernel_GetHash k), db)
  end.

(** Staking: [adjustedTime] is the clock; the result and the new time. *)
Definition GetTimeSlot (nTime : Z) : Z := Z.quot nTime (nTimeSlotLength consensus) * nTimeSlotLength consensus.
Definition Stake (fRegTest : bool) (adjustedTime : Z) (pindexPrev : hash) (stakeInput : option CStakeInput) (nBits_ nTimeTx : Z) (db : AccChecksums)
    : option (bool * Z * AccChecksums) :=
  bprev <- idx !! pindexPrev;;
  match stakeInput with
  | None => Some (false, nTimeTx, db)
  | Some stake =>
      ok <- si_ContextCheck stake (nHeight bprev + 1) (u32 nTimeTx);;
      if negb ok then Some (false, nTimeTx, db)
      else
        let nTimeTx := if fRegTest then adjustedTime else GetTimeSlot adjustedTime in
        if (nTimeTx <=? ix_nTime bprev) && negb fRegTest then Some (false, nTimeTx, db)
        else
          r <- CStakeKernel_of pindexPrev stake nBits_ nTimeTx db;;
          let '(k, db) := r in
          ok <- CheckKernelHash k;; Some (ok, nTimeTx, db)
  end.
End Kernel.

(** * The kernel target *)

(** The number a hash is compared as. *)
Definition hash_val (h : list Z) : Z := val WIDTH256 (hash_words h).

Lemma wf_hash_words h : bytes_ok h -> wf WIDTH256 (hash_words h).
Proof.
  intros Hb. split; [done|]. intros i. unfold hash_words.
  destruct (nth_in_or_default i (map (fun i => le_value (firstn 4 (skipn (4 * i) h))) (seq 0 8)) 0) as [Hin| ->]; [|lia].
  apply in_map_iff in Hin as (j & <- & _).
  assert (B : bytes_ok (firstn 4 (skipn (4 * j) h))) by (apply Forall_take, Forall_drop; exact Hb).
  pose proof (le_value_range _ B). pose proof (firstn_le_length 4 (skipn (4 * j) h)).
  assert (256 ^ Z.of_nat (length (firstn 4 (skipn (4 * j) h))) <= 256 ^ 4) by (apply Z.pow_le_mono_r; lia). lia.
Qed.
Lemma kernel_target_value nBits_ v : 0 <= nBits_ < 2 ^ 32 ->
  exists t, kernel_target nBits_ v = Some t /\ wf WIDTH256 t /\
            val WIDTH256 t = (compact_value nBits_ mod 2 ^ 256 * (u64 v / 100)) mod 2 ^ 256.
Proof.
  intros Hn. unfold kernel_target. pose proof (SetCompact_value nBits_ Hn) as S. destruct (SetCompact nBits_) as [[t neg] ovf].
  destruct S as (S1 & S2 & _). destruct (val_of_u64 WIDTH256 (u64 v) W256_ge2 (u64_range v)) as [U1 U2].
  destruct (val_of_u64 WIDTH256 100 W256_ge2) as [D1 D2]; [lia|].
  pose proof (div_assign_val WIDTH256 _ _ W256_ge2 U1 D1) as Dv. destruct (div_assign _ _ _) as [w|]; [|lia].
  destruct Dv as (_ & W1 & W2). cbn [obind]. destruct (mul_assign_val WIDTH256 t w W256_ge2 S1 W1) as [M1 M2].
  eexists. split; [done|]. split; [done|]. rewrite M2, S2, W2, U2, D2. done.
Qed.

Section KernelTheorems.
Context {babi : BlockAbi} `{SphLib} {crypto : ScriptCrypto} {sig : SigCrypto}.

Lemma CheckKernelHash_value k : 0 <= k_nBits k < 2 ^ 32 ->
  CheckKernelHash k = Some (hash_val (Kernel_GetHash k) <? (compact_value (k_nBits k) mod 2 ^ 256 * (u64 (stakeValue k) / 100)) mod 2 ^ 256).
Proof.
  intros Hn. unfold CheckKernelHash. destruct (kernel_target_value (k_nBits k) (stakeValue k) Hn) as (t & -> & T1 & T2). cbn [obind].
  rewrite base_uint_lt_spec, T2; [done| |done]. apply wf_hash_words. apply SHA256_digest.
Qed.

(** The kernel target is the compact target times a hundredth of the staked amount,
    modulo 2^256: with a target of 2^235, inside the limit of the main network, a
    stake of 2.09715200 coins has a target of zero and no kernel hash passes, while
    half that stake passes with every second hash. *)
Theorem kernel_target_wraps :
  compact_value 0x1e080000 = 2 ^ 235 /\ 2 ^ 235 <= val WIDTH256 (posLimitV2 ex_params) /\
  forall modifier timeFrom uniqueness time,
    CheckKernelHash (mkKernel modifier timeFrom uniqueness time 0x1e080000 209715200) = Some false /\
    CheckKernelHash (mkKernel modifier timeFrom uniqueness time 0x1e080000 104857600) =
      Some (hash_val (Kernel_GetHash (mkKernel modifier timeFrom uniqueness time 0x1e080000 104857600)) <? 2 ^ 255).
Proof.
  split; [reflexivity|]. split; [vm_compute; discriminate|]. intros m tf u t. rewrite !CheckKernelHash_value by (cbn; lia).
  cbn [k_nBits stakeValue]. split.
  - replace ((compact_value 0x1e080000 mod 2 ^ 256 * (u64 209715200 / 100)) mod 2 ^ 256) with 0 by (vm_compute; reflexivity).
    f_equal. apply Z.ltb_ge. apply (val_range WIDTH256), wf_hash_words, SHA256_digest.
  - do 2 f_equal.
Qed.

Section Check.
Variables (consensus : Params) (height_last_ZC_AccumCheckpoint ZC_MinStakeDepth : Z) (idx : BlockMap) (chainActive : CChain).
Variable GetTransaction : list Z -> option (CTransaction * hash).
Variable zerocoin_spend : CTxIn -> option ZcStakeSpend.
Abbreviation Check := (CheckProofOfStake consensus height_last_ZC_AccumCheckpoint ZC_MinStakeDepth idx chainActive GetTransaction zerocoin_spend).
Abbreviation Active h u := (NetworkUpgradeActive consensus h u).

(** The coin an input stakes: an output of a transaction in a block of the active chain. *)
Definition staked_coin (txin : CTxIn) (hb : hash) (bfrom : CBlockIndex) (out : CTxOut) : Prop :=
  exists txPrev, GetTransaction (out_hash (prevout txin)) = Some (txPrev, hb) /\ idx !! hb = Some bfrom /\
    chain_at chainActive (nHeight bfrom) = Some hb /\ vout txPrev !! Z.to_nat (out_n (prevout txin)) = Some out.
(** The hash of its kernel under the modifier [m]. *)
Definition stake_hash (m : hash) (bfrom : CBlockIndex) (txin : CTxIn) (time : Z) : list Z :=
  Hash256 (m ++ ser_writedata32 (i32 (ix_nTime bfrom)) ++ (ser_writedata32 (out_n (prevout txin)) ++ out_hash (prevout txin)) ++ ser_writedata32 (i32 time)).

Lemma NewPivStake_spec txin s : CTxIn_IsZerocoinSpend txin = false ->
  NewPivStake idx chainActive GetTransaction txin = Some (Some s) <->
  outpointFrom s = prevout txin /\ exists b, staked_coin txin (ps_pindexFrom s) b (outputFrom s).
Proof.
  intros Nz. unfold NewPivStake, staked_coin. rewrite Nz. destruct (GetTransaction _) as [[txPrev hb]|] eqn:G.
  2: { split; [done|]. intros (_ & b & tx & E & _). done. }
  destruct (idx !! hb) as [b|] eqn:E.
  2: { split; [done|]. intros (_ & b & tx & E1 & E2 & _). simplify_eq; congruence. }
  case_bool_decide as C.
  2: { split; [done|]. intros (_ & b' & tx & E1 & E2 & E3 & _). simplify_eq; congruence. }
  destruct (vout txPrev !! Z.to_nat (out_n (prevout txin))) as [o|] eqn:V; cbn [obind].
  2: { split; [done|]. intros (_ & b' & tx & E1 & _ & _ & E4). simplify_eq; congruence. }
  split.
  - intros [= <-]. cbn. split; [done|]. exists b, txPrev. done.
  - intros (Ho & b' & tx & E1 & _ & _ & E4). destruct s as [o' op p]. cbn in *. simplify_eq; congruence.
Qed.

Context (block : CBlock) (pindexPrev : hash) (bprev : CBlockIndex) (m : hash) (tx : CTransaction) (txin : CTxIn).
Context (Hprev : idx !! pindexPrev = Some bprev) (HV : Active (nHeight bprev + 1) UPGRADE_V3_4 = true)
        (Hm : GetStakeModifierV2 consensus bprev = Some m) (Hlink : hashPrevBlock (header block) = pindexPrev)
        (Hpos : IsProofOfStake block = true) (Htx : vtx block !! 1%nat = Some tx) (Hin : vin tx !! 0%nat = Some txin)
        (Nz : CTxIn_IsZerocoinSpend txin = false) (Hbits : 0 <= nBits (header block) < 2 ^ 32).

(** The stages of the check for a transparent stake. *)
Lemma CheckProofOfStake_stages db s : NewPivStake idx chainActive GetTransaction txin = Some (Some s) ->
  exists b, idx !! ps_pindexFrom s = Some b /\
  Check block pindexPrev db =
    if Active (nHeight bprev + 2) UPGRADE_ZC_PUBLIC && (nHeight bprev + 1 - nHeight b <? nStakeMinDepth consensus)
    then Some (STAKE_CONTEXT_FAILED, db)
    else if hash_val (stake_hash m b txin (blk_nTime (header block))) <?
            (compact_value (nBits (header block)) mod 2 ^ 256 * (u64 (nValue (outputFrom s)) / 100)) mod 2 ^ 256
    then match VerifyScript (scriptSig txin) (scriptPubKey (outputFrom s)) STANDARD_SCRIPT_VERIFY_FLAGS
                 (TransactionSignatureChecker tx 0 (nValue (outputFrom s)) None) (GetRequiredSigVersion tx) with
         | Ok _ => Some (STAKE_OK, db)
         | Err _ => Some (STAKE_SIGNATURE_FAILED, db)
         | Abort => None
         end
    else Some (STAKE_KERNEL_FAILED, db).
Proof.
  intros Hs. pose proof (proj1 (NewPivStake_spec txin s Nz) Hs) as (Ho & b & txPrev & _ & Eb & _). exists b. split; [done|].
  unfold CheckProofOfStake, LoadStakeInput. rewrite Hprev. cbn [obind]. rewrite bool_decide_eq_true_2, Hpos, Htx by done. cbn [negb obind].
  rewrite Hin. cbn [obind]. rewrite Nz, Hs. cbn [obind option_map CPivStake_input si_ContextCheck si_IsZPASSION si_GetTxOutFrom].
  unfold PivStake_ContextCheck. rewrite Eb. cbn [obind]. replace (nHeight bprev + 1 + 1) with (nHeight bprev + 2) by lia.
  unfold HasStakeMinAgeOrDepth. rewrite HV. cbn [negb]. rewrite negb_involutive, Z.geb_leb, <- Z.ltb_antisym.
  destruct (_ && _); [done|]. unfold CStakeKernel_of. rewrite Hprev. cbn [obind]. rewrite HV. cbn [negb]. rewrite Hm.
  cbn [obind CPivStake_input si_GetIndexFrom]. rewrite Eb. cbn [obind]. rewrite CheckKernelHash_value by done. cbn [obind].
  unfold Kernel_GetHash, stake_hash. cbn [stakeModifier nTimeBlockFrom stakeUniqueness k_nTime k_nBits stakeValue CPivStake_input si_GetUniqueness si_GetValue].
  unfold PivStake_GetUniqueness. rewrite Ho. destruct (_ <? _); [|done]. cbn [negb]. by destruct (VerifyScript _ _ _ _ _).
Qed.

(** The minimum depth is only asked for once UPGRADE_ZC_PUBLIC is active, and the schedule of
    the main network puts that off to the last height an int can hold. *)
Lemma mainnet_stakes_any_depth (p : Params) (h : Z) : vUpgrades p = mainnet_upgrades -> h < 2 ^ 31 - 1 ->
  NetworkUpgradeActive p h UPGRADE_ZC_PUBLIC = false.
Proof.
  intros Hu Hh. apply not_true_iff_false. rewrite NetworkUpgradeActive_iff by done.
  assert (E : upgrade_height p UPGRADE_ZC_PUBLIC = 2 ^ 31 - 1) by (unfold upgrade_height; by rewrite Hu). rewrite E. lia.
Qed.
(** C10: a block that stakes a transparent output under the second stake modifier passes
    [CheckProofOfStake] exactly when its coinstake spends an output of a transaction in the
    active chain whose kernel hash is below the target weighted with its amount, the input
    script satisfies the output script, and - only where UPGRADE_ZC_PUBLIC is active at the
    second height above the parent - the output is at the minimum depth. On the main network
    the upgrade has no height an index can reach ([mainnet_stakes_any_depth]): there an output
    of any depth passes. *)
Theorem CheckProofOfStake_exact (db : AccChecksums) :
  Check block pindexPrev db = Some (STAKE_OK, db) <->
  exists hb b out, staked_coin txin hb b out /\
    (Active (nHeight bprev + 2) UPGRADE_ZC_PUBLIC = true -> nStakeMinDepth consensus <= nHeight bprev + 1 - nHeight b) /\
    hash_val (stake_hash m b txin (blk_nTime (header block))) <
      (compact_value (nBits (header block)) mod 2 ^ 256 * (u64 (nValue out) / 100)) mod 2 ^ 256 /\
    VerifyScript (scriptSig txin) (scriptPubKey out) STANDARD_SCRIPT_VERIFY_FLAGS
      (TransactionSignatureChecker tx 0 (nValue out) None) (GetRequiredSigVersion tx) = Ok tt.
Proof.
  destruct (NewPivStake idx chainActive GetTransaction txin) as [[s|]|] eqn:Hs.
  2, 3: split; [unfold CheckProofOfStake, LoadStakeInput; rewrite Hprev; cbn [obind]; rewrite bool_decide_eq_true_2, Hpos, Htx by done;
      cbn [negb obind]; rewrite Hin; cbn [obind]; rewrite Nz, Hs; done|];
    intros (hb & b & out & Hc & _);
    pose proof (proj2 (NewPivStake_spec txin (mkPivStake out (prevout txin) hb) Nz) (conj eq_refl (ex_intro _ b Hc))); congruence.
  - destruct (CheckProofOfStake_stages db s Hs) as (b & Eb & ->).
    pose proof (proj1 (NewPivStake_spec txin s Nz) Hs) as (_ & b' & Hc).
    assert (b' = b) as -> by (destruct Hc as (t & _ & E & _); congruence). split.
    + destruct (Active _ _ && _) eqn:D; [done|]. destruct (_ <? _ mod _) eqn:K; [|done]. apply Z.ltb_lt in K.
      destruct (VerifyScript _ _ _ _ _) as [[]| |] eqn:V; [|done|done]. intros _. exists (ps_pindexFrom s), b, (outputFrom s).
      split; [done|]. split; [|done]. intros A. rewrite A in D. apply Z.ltb_ge in D. lia.
    + intros (hb & b2 & out & Hc2 & D & K & V). destruct Hc as (t & G & E & _ & Vo), Hc2 as (t2 & G2 & E2 & _ & Vo2).
      rewrite G in G2. injection G2 as <- <-. assert (b2 = b) as -> by congruence. assert (out = outputFrom s) as -> by congruence.
      destruct (Active (nHeight bprev + 2) UPGRADE_ZC_PUBLIC) eqn:A; [destruct (Z.ltb_spec (nHeight bprev + 1 - nHeight b) (nStakeMinDepth consensus)); [specialize (D eq_refl); lia|]|];
        cbn [andb]; apply Z.ltb_lt in K; by rewrite K, V.
Qed.

(** C36: a coinstake that spends a missing output of a known transaction makes
    [CheckProofOfStake] read behind the end of the outputs. *)
Theorem CheckProofOfStake_reads_missing_output (db : AccChecksums) (txPrev : CTransaction) (hb : hash) (bfrom : CBlockIndex) :
  GetTransaction (out_hash (prevout txin)) = Some (txPrev, hb) -> idx !! hb = Some bfrom ->
  chain_at chainActive (nHeight bfrom) = Some hb -> (length (vout txPrev) <= Z.to_nat (out_n (prevout txin)))%nat ->
  CheckProofOfStake consensus height_last_ZC_AccumCheckpoint ZC_MinStakeDepth idx chainActive GetTransaction zerocoin_spend block pindexPrev db = None.
Proof.
  intros G E C L. unfold CheckProofOfStake, LoadStakeInput. rewrite Hprev. cbn [obind]. rewrite bool_decide_eq_true_2, Hpos, Htx by done.
  cbn [negb obind]. rewrite Hin. cbn [obind]. rewrite Nz. unfold NewPivStake. rewrite Nz, G, E, bool_decide_eq_true_2 by done.
  by rewrite lookup_ge_None_2 by lia.
Qed.
End Check.
End KernelTheorems.

(** * Example *)

#[local] Existing Instances blockAbi64 toy_sph toy_crypto toy_sig.
Definition k_origin : hash := repeat 9 32.
Definition k_prev : hash := repeat 8 32.
Definition k_origin_entry : CBlockIndex := ex_entry None None 0 100 100.
Definition k_prev_entry : CBlockIndex := ex_entry (Some k_origin) (Some k_origin) 60 105 105.
Definition k_idx : BlockMap := <[k_prev := k_prev_entry]> {[k_origin := k_origin_entry]}.
Definition k_chain : CChain := [Some k_origin].
Definition k_funding : CTransaction := mkTx 1 0 [] [mkTxOut 0 [] (-10); mkTxOut 104857600 [OP_1] (-10)] 0 (Some SaplingTxData_default) None.
Definition k_lookup (h : list Z) : option (CTransaction * hash) := if bool_decide (h = repeat 7 32) then Some (k_funding, k_origin) else None.
Definition k_coinstake (n : Z) : CTransaction :=
  mkTx 1 0 [mkTxIn (mkOutPoint (repeat 7 32) n) [] 5] (vout ex_stake) 0 (Some SaplingTxData_default) None.
Definition k_block (n : Z) : CBlock :=
  mkBlock (mkHeader 8 k_prev (repeat 2 32) 200 0x1e080000 7 (repeat 0 32) (repeat 3 32))
    [ex_tx; k_coinstake n] [] false.
Abbreviation k_check n := (CheckProofOfStake ex_params 0 0 k_idx k_chain k_lookup (fun _ => None) (k_block n) k_prev ∅).
Lemma k_accepted : k_check 1 = Some (STAKE_OK, ∅).
Proof. vm_compute. reflexivity. Qed.
Lemma k_facts : k_idx !! k_prev = Some k_prev_entry /\ k_idx !! k_origin = Some k_origin_entry /\
  NetworkUpgradeActive ex_params 61 UPGRADE_V3_4 = true /\ GetStakeModifierV2 ex_params k_prev_entry = Some (repeat 0 32) /\
  IsProofOfStake (k_block 1) = true /\ IsProofOfStake (k_block 2) = true.
Proof. vm_compute. repeat split. Qed.
Lemma CheckProofOfStake_exact_witness :
  k_check 1 = Some (STAKE_OK, ∅) /\ exists hb b out, staked_coin k_idx k_chain k_lookup (mkTxIn (mkOutPoint (repeat 7 32) 1) [] 5) hb b out.
Proof.
  split; [exact k_accepted|]. destruct k_facts as (F1 & _ & F3 & F4 & F5 & _).
  destruct (proj1 (CheckProofOfStake_exact ex_params 0 0 k_idx k_chain k_lookup (fun _ => None) (k_block 1) k_prev k_prev_entry (repeat 0 32)
    (k_coinstake 1) (mkTxIn (mkOutPoint (repeat 7 32) 1) [] 5) F1 F3 F4 eq_refl F5 eq_refl eq_refl eq_refl ltac:(cbn; lia) ∅) k_accepted)
    as (hb & b & out & P & _). eauto.
Defined.
Lemma CheckProofOfStake_reads_missing_output_witness : k_check 2 = None.
Proof.
  destruct k_facts as (F1 & F2 & F3 & F4 & _ & F6).
  apply (CheckProofOfStake_reads_missing_output ex_params 0 0 k_idx k_chain k_lookup (fun _ => None) (k_block 2) k_prev k_prev_entry
    (k_coinstake 2) (mkTxIn (mkOutPoint (repeat 7 32) 2) [] 5) F1 eq_refl F6 eq_refl eq_refl eq_refl ∅ k_funding k_origin k_origin_entry);
    [reflexivity|exact F2|reflexivity|cbn; lia].
Defined.
