(* ===== verification/BlockFiles.v ===== *)
(** Positions in the block and undo files (src/chain.h [CBlockFileInfo],
    src/validation.cpp [FindBlockPos], [FindUndoPos]). Opening, preallocating and
    flushing files is not modelled. *)
From Stdlib Require Import String.
From Stdlib Require Import ZArith Lia List Bool.
From stdpp Require Import base gmap list sets.
From S2P Require Import Prelude Consensus Serialize Script Interpreter Codecs Transaction TxVerify.
Import ListNotations.
Local Open Scope Z_scope.
Local Open Scope passion_scope.

(** * The block files *)

Record CBlockFileInfo := mkFileInfo {
  nBlocks : Z;
  nSize : Z;
  nUndoSize : Z;
  nHeightFirst : Z;
  nHeightLast : Z;
  nTimeFirst : Z;
  nTimeLast : Z
}.
Definition CBlockFileInfo_null : CBlockFileInfo := mkFileInfo 0 0 0 0 0 0 0.
Definition AddBlock (f : CBlockFileInfo) (nHeightIn nTimeIn : Z) : CBlockFileInfo :=
  mkFileInfo (u32 (nBlocks f + 1)) (nSize f) (nUndoSize f)
    (if (nBlocks f =? 0) || (nHeightFirst f >? nHeightIn) then nHeightIn else nHeightFirst f)
    (if nHeightIn >? nHeightLast f then nHeightIn else nHeightLast f)
    (if (nBlocks f =? 0) || (nTimeFirst f >? nTimeIn) then nTimeIn else nTimeFirst f)
    (if nTimeIn >? nTimeLast f then nTimeIn else nTimeLast f).
Definition with_size (f : CBlockFileInfo) (n : Z) : CBlockFileInfo :=
  mkFileInfo (nBlocks f) n (nUndoSize f) (nHeightFirst f) (nHeightLast f) (nTimeFirst f) (nTimeLast f).
Definition with_undo_size (f : CBlockFileInfo) (n : Z) : CBlockFileInfo :=
  mkFileInfo (nBlocks f) (nSize f) n (nHeightFirst f) (nHeightLast f) (nTimeFirst f) (nTimeLast f).
Definition MAX_BLOCKFILE_SIZE : Z := 0x8000000.
Definition BLOCKFILE_CHUNK_SIZE : Z := 0x1000000.
Definition UNDOFILE_CHUNK_SIZE : Z := 0x100000.
Record BlockFiles := mkFiles { vinfoBlockFile : list CBlockFileInfo; nLastBlockFile : Z; setDirtyFileInfo : gset Z }.
Definition grow_files (v : list CBlockFileInfo) (nFile_ : nat) : list CBlockFileInfo :=
  if (length v <=? nFile_)%nat then v ++ replicate (S nFile_ - length v) CBlockFileInfo_null else v.
(** The next file with room. Growing the vector ends in files that are empty. *)
Fixpoint next_file (fuel : nat) (v : list CBlockFileInfo) (nFile_ : nat) (nAddSize : Z) : option (list CBlockFileInfo * nat) :=
  f <- v !! nFile_;;
  if u32 (nSize f + nAddSize) >=? MAX_BLOCKFILE_SIZE then
    match fuel with O => None | S fuel => next_file fuel (grow_files v (S nFile_)) (S nFile_) nAddSize end
  else Some (v, nFile_).
Definition chunks (n chunk : Z) : Z := u32 (n + chunk - 1) / chunk.
(** [known] is the position passed with [fKnown]; [disk] is [CheckDiskSpace], which
    writes the state itself when it fails. *)
Definition FindBlockPos (disk : Z -> bool) (known : option (Z * Z)) (nAddSize nHeight_ nTime_ : Z) (fs : BlockFiles) (st : CValidationState)
    : option (option (Z * Z) * BlockFiles * CValidationState) :=
  let nFile_ := Z.to_nat (match known with Some pos => fst pos | None => nLastBlockFile fs end) in
  let v := grow_files (vinfoBlockFile fs) nFile_ in
  r <- (match known with Some pos => Some (v, nFile_) | None => next_file (S (length v)) v nFile_ nAddSize end);;
  let '(v, nFile_) := r in
  f <- v !! nFile_;;
  let pos := match known with Some pos => pos | None => (Z.of_nat nFile_, nSize f) end in
  let f' := AddBlock f nHeight_ nTime_ in
  let f' := with_size f' (match known with Some pos => Z.max (u32 (snd pos + nAddSize)) (nSize f') | None => u32 (nSize f' + nAddSize) end) in
  let fs' := mkFiles (<[nFile_ := f']> v) (Z.of_nat nFile_) (setDirtyFileInfo fs) in
  let nOldChunks := chunks (snd pos) BLOCKFILE_CHUNK_SIZE in
  let nNewChunks := chunks (nSize f') BLOCKFILE_CHUNK_SIZE in
  if match known with None => (nNewChunks >? nOldChunks) && negb (disk (u32 (nNewChunks * BLOCKFILE_CHUNK_SIZE - snd pos))) | Some _ => false end
  then Some (None, fs', snd (state_Error "out of disk space" st))
  else Some (Some pos, mkFiles (vinfoBlockFile fs') (nLastBlockFile fs') ({[Z.of_nat nFile_]} ∪ setDirtyFileInfo fs'), st).
Definition FindUndoPos (disk : Z -> bool) (nFile_ nAddSize : Z) (fs : BlockFiles) (st : CValidationState)
    : option (option (Z * Z) * BlockFiles * CValidationState) :=
  f <- vinfoBlockFile fs !! Z.to_nat nFile_;;
  let nPos_ := nUndoSize f in
  let nNewSize := u32 (nUndoSize f + nAddSize) in
  let fs' := mkFiles (<[Z.to_nat nFile_ := with_undo_size f nNewSize]> (vinfoBlockFile fs)) (nLastBlockFile fs) ({[nFile_]} ∪ setDirtyFileInfo fs) in
  let nOldChunks := chunks nPos_ UNDOFILE_CHUNK_SIZE in
  let nNewChunks := chunks nNewSize UNDOFILE_CHUNK_SIZE in
  if (nNewChunks >? nOldChunks) && negb (disk (u32 (nNewChunks * UNDOFILE_CHUNK_SIZE - nPos_)))
  then Some (None, fs', snd (state_Error "out of disk space" st))
  else Some (Some (nFile_, nPos_), fs', st).

(** * Ranges of blocks never overlap *)

(** A range of bytes of a file. *)
Record extent := mkExtent { ex_file : nat; ex_from : Z; ex_size : Z }.
Definition overlap (a b : extent) : Prop :=
  ex_file a = ex_file b /\ ex_from a < ex_from b + ex_size b /\ ex_from b < ex_from a + ex_size a.
(** The files know the ranges given out: each ends within what its file uses, and no
    two overlap. *)
Record files_ok (v : list CBlockFileInfo) (given : list extent) : Prop := {
  fo_size : forall i f, v !! i = Some f -> 0 <= nSize f < MAX_BLOCKFILE_SIZE;
  fo_within : forall e, e ∈ given -> 0 <= ex_from e /\ 0 <= ex_size e /\ exists f, v !! ex_file e = Some f /\ ex_from e + ex_size e <= nSize f;
  fo_apart : forall i j a b, (i < j)%nat -> given !! i = Some a -> given !! j = Some b -> ~ overlap a b
}.
Lemma grow_files_lookup v n i f : v !! i = Some f -> grow_files v n !! i = Some f.
Proof. intros E. unfold grow_files. destruct (length v <=? n)%nat; [|done]. by apply lookup_app_l_Some. Qed.
Lemma grow_files_new v n i f : grow_files v n !! i = Some f -> v !! i = Some f \/ f = CBlockFileInfo_null.
Proof.
  unfold grow_files. destruct (length v <=? n)%nat; [|auto]. intros [E|[_ E]]%lookup_app_Some; [auto|]. apply lookup_replicate in E as [-> _]. auto.
Qed.
Lemma grow_files_length v n : length (grow_files v n) = Nat.max (length v) (S n).
Proof. unfold grow_files. destruct (Nat.leb_spec (length v) n); [rewrite length_app, length_replicate|]; lia. Qed.
Lemma grow_files_ok v n given : files_ok v given -> files_ok (grow_files v n) given.
Proof.
  intros [S W A]. split; [| |done].
  - intros i f [E| ->]%grow_files_new; [eauto|done].
  - intros e He. destruct (W e He) as (H1 & H2 & f & E & H3). split; [done|]. split; [done|]. exists f. split; [by apply grow_files_lookup|done].
Qed.
(** The search ends in a file with room, in a new one at the latest. *)
Lemma next_file_ok fuel v n nAddSize given : files_ok v given -> 0 <= nAddSize < MAX_BLOCKFILE_SIZE -> (n < length v)%nat -> (length v - n < fuel)%nat ->
  exists v' m f, next_file fuel v n nAddSize = Some (v', m) /\ files_ok v' given /\ v' !! m = Some f /\ nSize f + nAddSize < MAX_BLOCKFILE_SIZE /\ (n <= m)%nat /\
    (forall i f, v !! i = Some f -> v' !! i = Some f).
Proof.
  revert v n. induction fuel as [|fuel IH]; intros v n Ok Ha Hn F; [lia|]. cbn [next_file]. destruct (lookup_lt_is_Some_2 v n Hn) as [f E]. rewrite E. cbn [obind].
  pose proof (fo_size _ _ Ok _ _ E) as Sf. rewrite u32_small by (unfold MAX_BLOCKFILE_SIZE in *; lia).
  destruct (Z.geb_spec (nSize f + nAddSize) MAX_BLOCKFILE_SIZE) as [G|G]; [|by exists v, n, f; eauto 8].
  pose proof (grow_files_length v (S n)) as Le. destruct (decide (S n < length v)%nat) as [In|Out].
  - destruct (IH (grow_files v (S n)) (S n)) as (v' & m & f' & R & Ok' & E' & S' & L' & K); [by apply grow_files_ok|done|lia|lia|].
    exists v', m, f'. split; [done|]. split; [done|]. split; [done|]. split; [done|]. split; [lia|]. intros i f0 Ei. by apply K, grow_files_lookup.
  - assert (Em : grow_files v (S n) !! S n = Some CBlockFileInfo_null).
    { unfold grow_files. destruct (Nat.leb_spec (length v) (S n)); [|lia]. rewrite lookup_app_r by lia. apply lookup_replicate. split; [done|lia]. }
    destruct fuel as [|fuel]; [lia|]. cbn [next_file]. rewrite Em. cbn [obind nSize CBlockFileInfo_null]. rewrite u32_small by (unfold MAX_BLOCKFILE_SIZE in *; lia).
    destruct (Z.geb_spec (0 + nAddSize) MAX_BLOCKFILE_SIZE); [lia|]. exists (grow_files v (S n)), (S n), CBlockFileInfo_null. split; [done|].
    split; [by apply grow_files_ok|]. split; [done|]. split; [cbn; lia|]. split; [lia|]. intros i f0. apply grow_files_lookup.
Qed.
(** Giving out the end of a file. *)
Lemma files_ok_add v given n f f' size : files_ok v given -> v !! n = Some f -> 0 < size -> nSize f' = nSize f + size -> nSize f + size < MAX_BLOCKFILE_SIZE ->
  files_ok (<[n := f']> v) (given ++ [mkExtent n (nSize f) size]).
Proof.
  intros [S W A] E Hs Hf Hm. pose proof (S _ _ E) as Sf. pose proof (lookup_lt_Some _ _ _ E) as Hn. split.
  - intros i g Eg. destruct (decide (i = n)) as [->|N]; [rewrite list_lookup_insert_eq in Eg by done|rewrite list_lookup_insert_ne in Eg by done; eauto].
    simplify_eq. lia.
  - intros e [He| ->%list_elem_of_singleton]%elem_of_app.
    + destruct (W e He) as (H1 & H2 & g & Eg & H3). split; [done|]. split; [done|]. destruct (decide (ex_file e = n)) as [D|D].
      * rewrite D in *. exists f'. rewrite list_lookup_insert_eq by done. split; [done|]. simplify_eq. lia.
      * exists g. rewrite list_lookup_insert_ne by done. done.
    + cbn. split; [lia|]. split; [lia|]. exists f'. rewrite list_lookup_insert_eq by done. split; [done|lia].
  - intros i j a b Hij Ea Eb. destruct (lookup_app_Some given [mkExtent n (nSize f) size] j b) as [Q _]. destruct (Q Eb) as [Eb'|[Hj Eb']].
    + apply (A i j a b Hij); [|done]. rewrite lookup_app_l in Ea; [done|]. apply lookup_lt_Some in Eb'. lia.
    + apply list_lookup_singleton_Some in Eb' as [Hj' <-]. rewrite lookup_app_l in Ea by lia. intros (O1 & O2 & O3). cbn in O1, O2, O3.
      destruct (W a ltac:(by eapply list_elem_of_lookup_2)) as (_ & _ & g & Eg & H3). rewrite O1 in Eg. simplify_eq. lia.
Qed.

Lemma files_ok_prefix v given more : files_ok v (given ++ more) -> files_ok v given.
Proof.
  intros [S W A]. split; [done| |].
  - intros e He. apply W, elem_of_app. by left.
  - intros i j a b Hij Ea Eb. apply (A i j a b Hij); by apply lookup_app_l_Some.
Qed.

(** A run of [FindBlockPos] over a list of blocks: size, height and time. *)
Fixpoint place_blocks (disk : Z -> bool) (blocks : list (Z * Z * Z)) (fs : BlockFiles) (st : CValidationState)
    : option (list extent * BlockFiles * CValidationState) :=
  match blocks with
  | [] => Some ([], fs, st)
  | (size, h, t) :: blocks =>
      r <- FindBlockPos disk None size h t fs st;;
      let '(pos, fs, st) := r in
      r <- place_blocks disk blocks fs st;;
      let '(es, fs, st) := r in
      Some ((match pos with Some p => [mkExtent (Z.to_nat (fst p)) (snd p) size] | None => [] end) ++ es, fs, st)
  end.
Lemma FindBlockPos_ok disk size h t fs st given : files_ok (vinfoBlockFile fs) given -> 0 < size < MAX_BLOCKFILE_SIZE -> 0 <= nLastBlockFile fs ->
  exists pos fs' st' e, FindBlockPos disk None size h t fs st = Some (pos, fs', st') /\ 0 <= nLastBlockFile fs' /\ nLastBlockFile fs <= nLastBlockFile fs' /\
    ex_size e = size /\ files_ok (vinfoBlockFile fs') (given ++ [e]) /\ forall p, pos = Some p -> e = mkExtent (Z.to_nat (fst p)) (snd p) size /\ fst p = nLastBlockFile fs'.
Proof.
  intros Ok Hs Hl. unfold FindBlockPos. set (n := Z.to_nat (nLastBlockFile fs)). set (v := grow_files (vinfoBlockFile fs) n).
  assert (Hv : (n < length v)%nat) by (unfold v; rewrite grow_files_length; lia).
  destruct (next_file_ok (S (length v)) v n size given) as (v' & m & f & R & Ok' & E & Sz & Hm & _); [by apply grow_files_ok|lia|done|lia|].
  rewrite R. cbn [obind]. rewrite E. cbn [obind]. pose proof (fo_size _ _ Ok' _ _ E) as Sf.
  set (f' := with_size (AddBlock f h t) (u32 (nSize (AddBlock f h t) + size))).
  assert (Hf : nSize f' = nSize f + size) by (unfold f'; cbn; rewrite u32_small by (unfold MAX_BLOCKFILE_SIZE in *; lia); done).
  pose proof (files_ok_add _ _ _ _ f' size Ok' E ltac:(lia) Hf Sz) as Ok2.
  destruct (_ && _) eqn:D; eexists _, _, _, (mkExtent m (nSize f) size); (split; [reflexivity|]); cbn [nLastBlockFile vinfoBlockFile ex_size snd fst];
    (split; [lia|]); (split; [lia|]); (split; [done|]); (split; [done|]); intros p [= <-]. cbn. by rewrite Nat2Z.id.
Qed.

(** * The property *)

(** C26: placing any list of blocks in the block files ends, every block file stays below its
    maximal size, and no two blocks, nor a block and one placed before, are given overlapping
    ranges of the same file; a block that the disk has no space for leaves a gap. Every block
    is smaller than a file. *)
Theorem FindBlockPos_disjoint (disk : Z -> bool) (blocks : list (Z * Z * Z)) (fs : BlockFiles) (st : CValidationState) (given : list extent) :
  files_ok (vinfoBlockFile fs) given -> 0 <= nLastBlockFile fs -> Forall (fun b => 0 < fst (fst b) < MAX_BLOCKFILE_SIZE) blocks ->
  exists es fs' st', place_blocks disk blocks fs st = Some (es, fs', st') /\ files_ok (vinfoBlockFile fs') (given ++ es).
Proof.
  intros Ok Hl F. revert fs st given Ok Hl. induction F as [|[[size h] t] blocks Hb F IH]; intros fs st given Ok Hl; cbn [place_blocks].
  { eexists _, _, _. split; [reflexivity|]. by rewrite app_nil_r. }
  destruct (FindBlockPos_ok disk size h t fs st given Ok Hb Hl) as (pos & fs1 & st1 & e & R & L1 & L2 & Es & Ok1 & P). rewrite R. cbn [obind].
  assert (Ok2 : files_ok (vinfoBlockFile fs1) (given ++ match pos with Some p => [mkExtent (Z.to_nat (fst p)) (snd p) size] | None => [] end)).
  { destruct pos as [p|]; [by destruct (P p eq_refl) as [<- _]|]. rewrite app_nil_r. by eapply files_ok_prefix. }
  destruct (IH fs1 st1 _ Ok2 L1) as (es & fs2 & st2 & R2 & Ok3). rewrite R2. cbn [obind]. eexists _, _, _. split; [reflexivity|]. by rewrite app_assoc.
Qed.
Definition ex_files : BlockFiles := mkFiles [mkFileInfo 1 1000 0 0 0 0 0] 0 ∅.
Lemma ex_files_ok : files_ok (vinfoBlockFile ex_files) [mkExtent 0 8 992].
Proof.
  split; cbn.
  - intros i f E. apply list_lookup_singleton_Some in E as [-> <-]. done.
  - intros e ->%list_elem_of_singleton. split; [done|]. split; [done|]. eexists. by split.
  - intros i j a b Hij Ea Eb. apply list_lookup_singleton_Some in Ea as [-> _], Eb as [-> _]. lia.
Qed.
Lemma FindBlockPos_disjoint_witness :
  files_ok (vinfoBlockFile ex_files) [mkExtent 0 8 992] /\
  (r <- place_blocks (fun _ => true) [(500, 1, 10); (0x7fffe00, 2, 20); (700, 3, 15)] ex_files CValidationState_default;; Some (fst (fst r))) =
    Some [mkExtent 0 1000 500; mkExtent 1 0 0x7fffe00; mkExtent 2 0 700] /\
  exists es fs' st', place_blocks (fun _ => true) [(500, 1, 10); (0x7fffe00, 2, 20); (700, 3, 15)] ex_files CValidationState_default = Some (es, fs', st') /\
    files_ok (vinfoBlockFile fs') ([mkExtent 0 8 992] ++ es).
Proof.
  split; [apply ex_files_ok|]. split; [vm_compute; reflexivity|].
  apply (FindBlockPos_disjoint (fun _ => true) [(500, 1, 10); (0x7fffe00, 2, 20); (700, 3, 15)] ex_files CValidationState_default [mkExtent 0 8 992] ex_files_ok);
    [cbn; lia|]. repeat constructor.
Defined.
