(* ===== verification/Accept.v ===== *)
(** Accepting blocks (src/validation.cpp: [CheckWork], the contextual checks,
    [AcceptBlockHeader], [AcceptBlock], [ProcessNewBlock]; src/checkpoints.cpp,
    src/sapling/sapling_validation.cpp, src/chain.cpp). *)
From Stdlib Require Import String SpecFloat.
From Stdlib Require Import ZArith Lia List Bool.
From stdpp Require Import base gmap list sets.
From S2P Require Import Prelude Uint256 Consensus Pow Serialize Script Interpreter Codecs Transaction TxVerify SigHash Standard Inputs Block Payments BlockCheck Chain StakeModifier ChainSelect Activate Receive Manager Kernel BlockFiles.
Import ListNotations.
Local Open Scope Z_scope.
Local Open Scope passion_scope.

(** * The proof of work an old block needs *)

(** [double]: binary64 numbers, rounded to nearest. *)
Definition double_of (n e : Z) : spec_float := binary_normalize 53 1024 n e false.
Definition double_div : spec_float -> spec_float -> spec_float := SFdiv 53 1024.
Definition double_mul : spec_float -> spec_float -> spec_float := SFmul 53 1024.
Definition double_sub : spec_float -> spec_float -> spec_float := SFsub 53 1024.
Definition ConvertBitsToDouble (nBits : Z) : spec_float :=
  let nShift := Z.land (Z.shiftr nBits 24) 0xff in
  let dDiff := double_div (double_of 0xffff 0) (double_of (Z.land nBits 0xffffff) 0) in
  let dDiff := Nat.iter (Z.to_nat (29 - nShift)) (fun d => double_mul d (double_of 256 0)) dDiff in
  Nat.iter (Z.to_nat (nShift - 29)) (fun d => double_div d (double_of 256 0)) dDiff.
(** [std::abs(n1 - n2) > n1 * 0.5] *)
Definition far_apart (n1 n2 : spec_float) : bool := SFltb (double_mul n1 (double_of 1 (-1))) (SFabs (double_sub n1 n2)).

(** The entries from [p] to the root, as [GetNextWorkRequired] reads them. *)
Fixpoint pow_path (idx : BlockMap) (fuel : nat) (p : option hash) : option (list PowIndex) :=
  match p with
  | None => Some []
  | Some q =>
      b <- idx !! q;;
      match fuel with
      | O => None
      | S fuel => r <- pow_path idx fuel (pprev b);; Some (Build_PowIndex (nHeight b) (ix_nTime b) (nBits (ix_header b)) :: r)
      end
  end.
(** The settings and members that are read; the two fields of the bad block are not
    set by any network. *)
Record AcceptParams := mkAcceptParams {
  nPassionBadBlockTime : Z;
  nPassionBadBlockBits : Z;
  arg_maxreorg : Z;
  checkpoints_fEnabled : bool;
  (* by height *)
  mapCheckpoints : list (Z * hash)
}.

Create HintDb keeps.

Section Accept.
Context `{STL : SphLib} {babi : BlockAbi} {crypto : ScriptCrypto} {sig : SigCrypto}.
Variables (chain : ChainParams) (params : AcceptParams).
Abbreviation consensus := (chain_consensus chain).
Abbreviation fRegTest := (match network chain with REGTEST => true | _ => false end).

Definition CheckWork (idx : BlockMap) (block : CBlock) (pindexPrev : option hash) : option bool :=
  match pindexPrev with
  | None => Some false
  | Some p =>
      b <- idx !! p;;
      path <- pow_path idx (S (Z.to_nat (nHeight b))) (Some p);;
      nBitsRequired <- GetNextWorkRequired fRegTest consensus path;;
      if negb fRegTest && IsProofOfWork block && (i32 (nHeight b + 1) <=? 68589)
      then Some (negb (far_apart (ConvertBitsToDouble (nBits (header block))) (ConvertBitsToDouble nBitsRequired)))
      else if negb (nBits (header block) =? nBitsRequired)
      then Some ((blk_nTime (header block) =? u32 (nPassionBadBlockTime params)) && (nBits (header block) =? u32 (nPassionBadBlockBits params)))
      else Some true
  end.

(** * The header in its place *)

Variable adjustedTime : Z.
Definition MaxFutureBlockTime (b : CBlockIndex) : Z := i64 (adjustedTime + FutureBlockTimeDrift consensus (nHeight b + 1)).
Definition CheckBlockTime (idx : BlockMap) (block : CBlockHeader) (p : hash) : Check := fun st =>
  if fRegTest then Some (true, st)
  else
    b <- idx !! p;;
    let blockTime := GetBlockTime block in
    if blockTime >? MaxFutureBlockTime b then Some (Invalid false REJECT_INVALID "time-too-new" EmptyString st)
    else
      past <- MinPastBlockTime idx consensus p;;
      if blockTime <=? past then reject 50 REJECT_INVALID "time-too-old" st
      else if negb (IsValidBlockTimeStamp consensus blockTime (i32 (nHeight b + 1))) then reject 100 REJECT_INVALID "invalid-time-mask" st
      else Some (true, st).

Definition REJECT_OBSOLETE : Z := 0x11.
Definition REJECT_CHECKPOINT : Z := 0x43.
Definition Checkpoints_CheckBlock (nHeight_ : Z) (h : hash) (fMatchesCheckpoint : bool) : bool :=
  if negb (checkpoints_fEnabled params) then true
  else
    match find (fun e => fst e =? nHeight_) (mapCheckpoints params) with
    | None => negb fMatchesCheckpoint
    | Some e => bool_decide (h = snd e)
    end.
Definition GetLastCheckpoint (idx : BlockMap) : option hash :=
  if negb (checkpoints_fEnabled params) then None
  else snd <$> find (fun e => bool_decide (is_Some (idx !! snd e))) (rev (mapCheckpoints params)).
Definition outdated_version (nVersion_ nHeight_ : Z) : bool :=
  ((nVersion_ <? 3) && (nHeight_ >=? 1)) ||
  ((nVersion_ <? 4) && NetworkUpgradeActive consensus nHeight_ UPGRADE_ZC) ||
  ((nVersion_ <? 5) && NetworkUpgradeActive consensus nHeight_ UPGRADE_BIP65) ||
  ((nVersion_ <? 6) && NetworkUpgradeActive consensus nHeight_ UPGRADE_V3_4) ||
  ((nVersion_ <? 7) && NetworkUpgradeActive consensus nHeight_ UPGRADE_V4_0) ||
  ((nVersion_ <? 8) && NetworkUpgradeActive consensus nHeight_ UPGRADE_V5_0).
(** Not for the genesis block, a null [pindexPrev] fails the assertion. The message of
    an old version is without its two numbers. *)
Definition ContextualCheckBlockHeader (idx : BlockMap) (chainActive : CChain) (block : CBlockHeader) (pindexPrev : option hash) : Check := fun st =>
  let h := CBlockHeader_GetHash block in
  if bool_decide (h = hashGenesisBlock chain) then Some (true, st)
  else
    p <- pindexPrev;; b <- idx !! p;;
    let nHeight_ := i32 (nHeight b + 1) in
    if Height chainActive - nHeight_ >=? i32 (arg_maxreorg params) then reject_plain 1 st
    else and_then (CheckBlockTime idx block p) (fun st =>
      if negb (Checkpoints_CheckBlock nHeight_ h false) then reject 100 REJECT_CHECKPOINT "checkpoint mismatch" st
      else
        old <- (match GetLastCheckpoint idx with
                | None => Some false
                | Some q => bq <- idx !! q;; Some (nHeight_ <? nHeight bq)
                end);;
        if old : bool then reject_plain 0 st
        else if outdated_version (blk_nVersion block) nHeight_ then Some (Invalid false REJECT_OBSOLETE "bad-version" "rejected block version" st)
        else Some (true, st)) st.

(** * The transactions in their place *)

(** The verifier of librustzcash: a context that is fed the descriptions. *)
Class SaplingVerifier := {
  VerificationCtx : Type;
  sapling_verification_ctx_init : VerificationCtx;
  sapling_check_spend : VerificationCtx -> SpendDescription -> list Z -> bool * VerificationCtx;
  sapling_check_output : VerificationCtx -> OutputDescription -> bool * VerificationCtx;
  sapling_final_check : VerificationCtx -> Z -> list Z -> list Z -> bool
}.
Context {SV : SaplingVerifier}.

Fixpoint check_spends_proofs (spends : list SpendDescription) (sighash : list Z) (ctx : VerificationCtx) : bool * VerificationCtx :=
  match spends with
  | [] => (true, ctx)
  | s :: spends => let '(ok, ctx) := sapling_check_spend ctx s sighash in if ok : bool then check_spends_proofs spends sighash ctx else (false, ctx)
  end.
Fixpoint check_outputs_proofs (outs : list OutputDescription) (ctx : VerificationCtx) : bool * VerificationCtx :=
  match outs with
  | [] => (true, ctx)
  | o :: outs => let '(ok, ctx) := sapling_check_output ctx o in if ok : bool then check_outputs_proofs outs ctx else (false, ctx)
  end.
(** An exception of [SignatureHash] is caught. *)
Definition ContextualCheckTransaction (tx : CTransaction) (nHeight_ : Z) (isMined isInitBlockDownload : bool) : Check := fun st =>
  let dosLevelConstricting := if isMined then 100 else 10 in
  let dosLevelPotentiallyRelaxing := if isMined then 100 else if isInitBlockDownload then 0 else 10 in
  if negb (NetworkUpgradeActive consensus nHeight_ UPGRADE_V5_0) then Some (true, st)
  else if negb (isSaplingVersion tx) && hasSaplingData tx then reject dosLevelConstricting REJECT_INVALID "bad-tx-sapling-version-too-low" st
  else if (IsCoinBase tx || IsCoinStake tx) && hasSaplingData tx then reject dosLevelPotentiallyRelaxing REJECT_INVALID "bad-cs-has-shielded-data" st
  else
    match sapData tx with
    | Some d =>
        if hasSaplingData tx then
          match SignatureHash [] tx NOT_AN_INPUT SIGHASH_ALL 0 SIGVERSION_SAPLING None with
          | None => reject 100 REJECT_INVALID "error-computing-signature-hash" st
          | Some dataToBeSigned =>
              let '(ok, ctx) := check_spends_proofs (vShieldedSpend d) dataToBeSigned sapling_verification_ctx_init in
              if negb ok then reject dosLevelPotentiallyRelaxing REJECT_INVALID "bad-txns-sapling-spend-description-invalid" st
              else
                let '(ok, ctx) := check_outputs_proofs (vShieldedOutput d) ctx in
                if negb ok then reject 100 REJECT_INVALID "bad-txns-sapling-output-description-invalid" st
                else if negb (sapling_final_check ctx (valueBalance d) (bindingSig d) dataToBeSigned)
                then reject dosLevelPotentiallyRelaxing REJECT_INVALID "bad-txns-sapling-binding-signature-invalid" st
                else Some (true, st)
          end
        else Some (true, st)
    | None => Some (true, st)
    end.

Fixpoint contextual_txs (isIBD : bool) (nHeight_ nTime_ : Z) (txs : list CTransaction) : Check :=
  match txs with
  | [] => accept
  | tx :: txs =>
      and_then (ContextualCheckTransaction tx nHeight_ true isIBD) (fun st =>
        if negb (IsFinalTx adjustedTime tx nHeight_ nTime_) then Some (DoS 10 false REJECT_INVALID "bad-txns-nonfinal" false "non-final transaction" st)
        else contextual_txs isIBD nHeight_ nTime_ txs st)
  end.
(** [std::equal] of a prefix. [None]: [vtx[0]->vin[0]] does not exist. *)
Definition ContextualCheckBlock (idx : BlockMap) (isIBD : bool) (block : CBlock) (pindexPrev : option hash) : Check := fun st =>
  nHeight_ <- (match pindexPrev with None => Some 0 | Some p => b <- idx !! p;; Some (i32 (nHeight b + 1)) end);;
  and_then (contextual_txs isIBD nHeight_ (GetBlockTime (header block)) (vtx block)) (fun st =>
    match pindexPrev with
    | None => Some (true, st)
    | Some _ =>
        let expect := push_int64 [] nHeight_ in
        tx <- vtx block !! O;; txin <- vin tx !! O;;
        if (size (scriptSig txin) <? size expect) || negb (bool_decide (take (length expect) (scriptSig txin) = expect))
        then Some (DoS 100 false REJECT_INVALID "bad-cb-height" false "block height mismatch in coinbase" st)
        else Some (true, st)
    end) st.


(** * Accepting a block *)

(** The state a call changes. *)
Context {io : ChainIO}.
Record AcceptState := mkAccept {
  as_chain : ChainState;
  as_bestHeader : option hash;
  as_coins : Coins;
  as_checksums : AccChecksums;
  as_files : BlockFiles;
  mapRejectedBlocks : list hash;
  as_state : CValidationState
}.
(** What the checks read or write besides: the node without its chain, the disk, the
    transaction index, the zerocoin layer. *)
Record AcceptEnv := mkAcceptEnv {
  ae_node : NodeState;
  ae_zerocoin : ZerocoinEnv;
  ae_zerocoin_pubkey : CTxIn -> option (list Z);
  ae_stakemodifier_literal : Z;
  ae_height_last_ZC_AccumCheckpoint : Z;
  ae_ZC_MinStakeDepth : Z;
  ae_GetTransaction : list Z -> option (CTransaction * hash);
  ae_zerocoin_spend : CTxIn -> option ZcStakeSpend;
  ae_ParseZerocoinPublicSpend : CTxIn -> CTransaction -> CValidationState -> option CoinSpend * CValidationState;
  ae_IsSerialInBlockchain : Z -> option Z;
  ae_ContextualCheckZerocoinSpend : CTransaction -> CoinSpend -> Z -> list Z -> bool;
  ae_ContextualCheckZerocoinSpendNoSerialCheck : CTransaction -> CoinSpend -> Z -> list Z -> bool;
  ae_ReadBlockFromDisk : hash -> option CBlock;
  ae_CheckDiskSpace : Z -> bool;
  ae_WriteBlockToDisk : bool;
  ae_IsSpent : Coins -> COutPoint -> bool
}.
Variables (env : AcceptEnv) (addr : hash -> Z).

(** Outer [None]: a failed assertion or an access outside an array; inner [None]:
    false is returned. *)
Definition Act (A : Type) : Type := AcceptState -> option (option A * AcceptState).
Definition act_ret {A} (a : A) : Act A := fun s => Some (Some a, s).
Definition act_bind {A B} (m : Act A) (k : A -> Act B) : Act B := fun s =>
  r <- m s;; match r with (Some a, s) => k a s | (None, s) => Some (None, s) end.
Notation "x <- m ;;; k" := (act_bind m (fun x => k)) (at level 100, m at next level, right associativity).
Definition act_false {A} : Act A := fun s => Some (None, s).
Definition act_get {A} (f : AcceptState -> option A) : Act A := fun s => a <- f s;; Some (Some a, s).
Definition set_chain (c : ChainState) (s : AcceptState) : AcceptState :=
  mkAccept c (as_bestHeader s) (as_coins s) (as_checksums s) (as_files s) (mapRejectedBlocks s) (as_state s).
Definition set_state (v : CValidationState) (s : AcceptState) : AcceptState :=
  mkAccept (as_chain s) (as_bestHeader s) (as_coins s) (as_checksums s) (as_files s) (mapRejectedBlocks s) v.
Definition set_files (f : BlockFiles) (s : AcceptState) : AcceptState :=
  mkAccept (as_chain s) (as_bestHeader s) (as_coins s) (as_checksums s) f (mapRejectedBlocks s) (as_state s).
(** [if (!check) return false] *)
Definition act_check (k : AcceptState -> Check) : Act unit := fun s =>
  r <- k s (as_state s);; Some (if fst r then Some tt else None, set_state (snd r) s).
(** [return state.DoS(...)] *)
Definition act_dos {A} (level code : Z) (reason : string) : Act A := fun s =>
  Some (None, set_state (snd (DoS level false code reason false EmptyString (as_state s))) s).
(** [if (!ok) return false] *)
Definition act_require (ok : bool) : Act unit := fun s => Some (if ok then Some tt else None, s).
Abbreviation Index := (fun s => cs_index (as_chain s)).

(** The node with its chain. *)
Definition node_of (st : ChainState) : NodeState :=
  mkNode (match Tip (chainActive st) with Some t => (fun b => (t, nHeight b)) <$> cs_index st !! t | None => None end) (fun h => nHeight <$> cs_index st !! h)
    (initialBlockDownload (ae_node env)) (sporkActive (ae_node env)) (mnSynced (ae_node env)) (mnPayments (ae_node env)) (mnBudget (ae_node env))
    (devFeeAddress (ae_node env)) (findTransaction (ae_node env)) (verifyZerocoinSignature (ae_node env)).

(** A parent that failed but is a checkpoint is reconsidered, and its chain
    activated, whatever that returns. *)
Definition reconsider (fuel : nat) (p : hash) : Act unit := fun s =>
  st <- ReconsiderBlock addr p (as_chain s);;
  r <- ActivateBestChain addr fuel st (as_coins s);;
  let '(_, st, c) := r in
  Some (Some tt, mkAccept st (as_bestHeader s) c (as_checksums s) (as_files s) (mapRejectedBlocks s) (as_state s)).
Definition GetPrevIndex (fuel : nat) (block : CBlock) : Act (option hash) :=
  if bool_decide (CBlockHeader_GetHash (header block) = hashGenesisBlock chain) then act_ret None
  else
    let p := hashPrevBlock (header block) in
    e <- act_get (fun s => Some (Index s !! p));;;
    match e with
    | None => act_dos 0 0 "prevblk-not-found"
    | Some b =>
        if is_failed b then
          if Checkpoints_CheckBlock (nHeight b) p true then (_ <- reconsider fuel p;;; act_ret (Some p))
          else act_dos 100 REJECT_INVALID "bad-prevblk"
        else act_ret (Some p)
    end.
Definition add_to_index (block : CBlock) : Act hash := fun s =>
  r <- AddToBlockIndex consensus (ae_stakemodifier_literal env) block (mkIndexState (Index s) (as_bestHeader s) []);;
  let '(h, ix) := r in
  let st := with_index (as_chain s) (mapBlockIndex ix) in
  let st := fold_left mark_dirty (setDirtyBlockIndex ix) st in
  Some (Some h, mkAccept st (pindexBestHeader ix) (as_coins s) (as_checksums s) (as_files s) (mapRejectedBlocks s) (as_state s)).
Definition AcceptBlockHeader (fuel : nat) (block : CBlock) (pindexPrev : option hash) : Act hash :=
  let h := CBlockHeader_GetHash (header block) in
  e <- act_get (fun s => Some (Index s !! h));;;
  match e with
  | Some b =>
      if is_failed b then (fun s => Some (None, set_state (snd (Invalid false 0 "duplicate" EmptyString (as_state s))) s))
      else act_ret h
  | None =>
      pindexPrev <- (match pindexPrev with None => GetPrevIndex fuel block | Some p => act_ret (Some p) end);;;
      _ <- act_check (fun s => ContextualCheckBlockHeader (Index s) (chainActive (as_chain s)) (header block) pindexPrev);;;
      add_to_index block
  end.

(** ** The stake of a block *)

(** The serial numbers of one input of a transaction of the block. *)
Definition input_serials (nHeight_ : Z) (tx : CTransaction) (txin : CTxIn) (serials : list Z) : Act (list Z) :=
  let isPublicSpend := CTxIn_IsZerocoinPublicSpend txin in
  if NetworkUpgradeActive consensus nHeight_ UPGRADE_ZC && (CTxIn_IsZerocoinSpend txin || isPublicSpend) then
    _ <- act_require (CheckPublicCoinSpendEnforced consensus nHeight_ isPublicSpend);;;
    spend <- (if isPublicSpend
              then (fun s => let '(r, v) := ae_ParseZerocoinPublicSpend env txin tx (as_state s) in Some (r, set_state v s))
              else act_get (fun _ => TxInToZerocoinSpend (ae_zerocoin env) txin));;;
    if bool_decide (getCoinSerialNumber spend ∈ serials) then act_dos 100 0 EmptyString
    else act_ret (serials ++ [getCoinSerialNumber spend])
  else act_ret serials.
Definition spends_one (ins : list CTxIn) (txin : CTxIn) : bool := existsb (fun i => COutPoint_eqb (prevout i) (prevout txin)) ins.
Fixpoint stake_inputs (nHeight_ : Z) (tx : CTransaction) (pivInputs ins : list CTxIn) (serials : list Z) : Act (list Z) :=
  match ins with
  | [] => act_ret serials
  | txin :: ins =>
      serials <- input_serials nHeight_ tx txin serials;;;
      _ <- act_require (IsCoinStake tx || negb (spends_one pivInputs txin));;;
      stake_inputs nHeight_ tx pivInputs ins serials
  end.
Fixpoint stake_txs (nHeight_ : Z) (pivInputs : list CTxIn) (txs : list CTransaction) (serials : list Z) : Act unit :=
  match txs with
  | [] => act_ret tt
  | tx :: txs => serials <- stake_inputs nHeight_ tx pivInputs (vin tx) serials;;; stake_txs nHeight_ pivInputs txs serials
  end.
(** The inputs of a block of the fork: the serials of the zerocoin spends, when the
    stake has any. *)
Fixpoint fork_inputs (hasZ : bool) (pivInputs ins : list CTxIn) (serials : list Z) : Act (list Z) :=
  match ins with
  | [] => act_ret serials
  | txin :: ins =>
      serials <- (if hasZ && CTxIn_IsZerocoinSpend txin
                  then act_get (fun _ => spend <- TxInToZerocoinSpend (ae_zerocoin env) txin;; Some (serials ++ [getCoinSerialNumber spend]))
                  else act_ret serials);;;
      if spends_one pivInputs txin then act_dos 100 0 EmptyString else fork_inputs hasZ pivInputs ins serials
  end.
Definition read_block (p : hash) : Act CBlock := fun s => Some (ae_ReadBlockFromDisk env p, s).
(** Back along the fork to the active chain; the height of the split and the
    serials on the way. A null [prev] is dereferenced. *)
Fixpoint walk_fork (steps : nat) (readBlock : Z) (hasZ : bool) (pivInputs : list CTxIn) (prev : hash) (bl : CBlock) (serials : list Z) : Act (Z * list Z) :=
  b <- act_get (fun s => Index s !! prev);;;
  in_chain <- act_get (fun s => Contains (Index s) (chainActive (as_chain s)) prev);;;
  if in_chain : bool then act_ret (nHeight b, serials)
  else if i32 (readBlock + 1) =? arg_maxreorg params then act_false
  else
    match steps with
    | O => fun _ => None
    | S steps =>
        serials <- fork_inputs hasZ pivInputs (concat (map vin (vtx bl))) serials;;;
        prev <- act_get (fun _ => pprev b);;;
        bl <- read_block prev;;;
        walk_fork steps (i32 (readBlock + 1)) hasZ pivInputs prev bl serials
    end.
Fixpoint fork_serials (stakeTx : CTransaction) (zInputs : list CTxIn) (nHeight_ splitHeight : Z) (serials : list Z) : Act unit :=
  match zInputs with
  | [] => act_ret tt
  | txin :: zInputs =>
      spend <- act_get (fun _ => TxInToZerocoinSpend (ae_zerocoin env) txin);;;
      if bool_decide (getCoinSerialNumber spend ∈ serials) then act_dos 100 0 EmptyString
      else if match ae_IsSerialInBlockchain env (getCoinSerialNumber spend) with Some h => h <=? splitHeight | None => false end then act_dos 100 0 EmptyString
      else if negb (ae_ContextualCheckZerocoinSpendNoSerialCheck env stakeTx spend nHeight_ (repeat 0 32)) then act_dos 100 REJECT_INVALID "bad-txns-invalid-zpiv"
      else fork_serials stakeTx zInputs nHeight_ splitHeight serials
  end.
Fixpoint main_serials (stakeTx : CTransaction) (zInputs : list CTxIn) (nHeight_ : Z) : Act unit :=
  match zInputs with
  | [] => act_ret tt
  | txin :: zInputs =>
      spend <- act_get (fun _ => TxInToZerocoinSpend (ae_zerocoin env) txin);;;
      if negb (ae_ContextualCheckZerocoinSpend env stakeTx spend nHeight_ (repeat 0 32)) then act_dos 100 REJECT_INVALID "bad-txns-invalid-zpiv"
      else main_serials stakeTx zInputs nHeight_
  end.
Definition check_stake (block : CBlock) (h : hash) (pindexPrev : option hash) : Act unit :=
  b <- act_get (fun s => Index s !! h);;;
  fromFork <- act_get (fun s => Some (match pindexPrev with None => false | Some p => negb (bool_decide (Tip (chainActive (as_chain s)) = Some p)) end));;;
  stakeTxIn <- act_get (fun _ => vtx block !! 1%nat);;;
  let pivInputs := List.filter (fun i => negb (CTxIn_IsZerocoinSpend i)) (vin stakeTxIn) in
  let zInputs := List.filter CTxIn_IsZerocoinSpend (vin stakeTxIn) in
  _ <- stake_txs (nHeight b) pivInputs (vtx block) [];;;
  _ <- (match fromFork, pindexPrev with
        | true, Some prev =>
            bl <- read_block prev;;;
            bp <- act_get (fun s => Index s !! prev);;;
            r <- walk_fork (S (Z.to_nat (nHeight bp))) 0 (negb (empty zInputs)) pivInputs prev bl [];;;
            let '(splitHeight, serials) := r in
            fork_serials stakeTxIn zInputs (nHeight b) splitHeight serials
        | _, _ => act_ret tt
        end);;;
  if negb (HasZerocoinSpendInputs stakeTxIn)
  then (spent <- act_get (fun s => Some (existsb (fun i => ae_IsSpent env (as_coins s) (prevout i)) (vin stakeTxIn)));;; act_require (negb spent || fromFork))
  else if fromFork : bool then act_ret tt else main_serials stakeTxIn zInputs (nHeight b).
(** ** The whole *)

Definition check_proof_of_stake (block : CBlock) (pindexPrev : option hash) : Act unit :=
  if IsProofOfStake block then
    p <- act_get (fun _ => pindexPrev);;;
    e <- (fun s => r <- CheckProofOfStake consensus (ae_height_last_ZC_AccumCheckpoint env) (ae_ZC_MinStakeDepth env) (Index s) (chainActive (as_chain s))
                       (ae_GetTransaction env) (ae_zerocoin_spend env) block p (as_checksums s);;
              Some (Some (fst r), mkAccept (as_chain s) (as_bestHeader s) (as_coins s) (snd r) (as_files s) (mapRejectedBlocks s) (as_state s)));;;
    match e with STAKE_OK => act_ret tt | _ => act_dos 100 0 EmptyString end
  else act_ret tt.
Definition note_rejected (h : hash) (rejected : bool) (s : AcceptState) : AcceptState :=
  if rejected then mkAccept (as_chain s) (as_bestHeader s) (as_coins s) (as_checksums s) (as_files s) (h :: mapRejectedBlocks s) (as_state s) else s.
(** [CheckBlock(block, state)] *)
Definition check_block (block : CBlock) : Act bool := fun s =>
  r <- CheckBlock chain (ae_zerocoin env) (ae_zerocoin_pubkey env) (node_of (as_chain s)) block true true true (as_state s);;
  let '(ok, v, _, rejected) := r in
  Some (Some ok, note_rejected (CBlockHeader_GetHash (header block)) rejected (set_state v s)).
(** [CheckBlock(block, state) && ContextualCheckBlock(block, state, pindex->pprev)] *)
Definition check_contents (block : CBlock) (b : CBlockIndex) : Act bool :=
  ok <- check_block block;;;
  if ok : bool
  then (fun s => r <- ContextualCheckBlock (Index s) (initialBlockDownload (ae_node env)) block (pprev b) (as_state s);; Some (Some (fst r), set_state (snd r) s))
  else act_ret false.
Definition mark_failed (h : hash) : Act unit := fun s =>
  Some (None, if IsInvalid (as_state s) && negb (corruptionPossible (as_state s))
              then set_chain (mark_dirty (add_status (as_chain s) h BLOCK_FAILED_VALID) h) s else s).
(** Write the block and receive its transactions; [dbp] is the position of a block that is on disk already. *)
Definition store_block (block : CBlock) (h : hash) (dbp : option (Z * Z)) : Act unit := fun s =>
  b <- Index s !! h;;
  r <- FindBlockPos (ae_CheckDiskSpace env) dbp (u32 (Z.of_nat (length (Serialize block)) + 8)) (u32 (nHeight b)) (GetBlockTime (header block)) (as_files s) (as_state s);;
  let '(pos, fs, v) := r in
  let s := set_files fs (set_state v s) in
  match pos with
  | None => Some (None, s)
  | Some pos =>
      if match dbp with None => negb (ae_WriteBlockToDisk env) | Some _ => false end
      then Some (None, set_state (snd (state_Error "Failed to write block" (as_state s))) s)
      else st <- ReceivedBlockTransactions addr block h (fst pos) (snd pos) (as_chain s);; Some (Some tt, set_chain st s)
  end.
Definition AcceptBlock (fuel : nat) (block : CBlock) (dbp : option (Z * Z)) : Act hash :=
  pindexPrev <- GetPrevIndex fuel block;;;
  work <- (if bool_decide (CBlockHeader_GetHash (header block) = hashGenesisBlock chain) then act_ret true
           else act_get (fun s => CheckWork (Index s) block pindexPrev));;;
  _ <- act_require work;;;
  _ <- check_proof_of_stake block pindexPrev;;;
  h <- AcceptBlockHeader fuel block pindexPrev;;;
  b <- act_get (fun s => Index s !! h);;;
  if has_data b then act_ret h
  else
    ok <- check_contents block b;;;
    if negb ok then (_ <- mark_failed h;;; act_false)
    else
      _ <- (if IsProofOfStake block then check_stake block h pindexPrev else act_ret tt);;;
      _ <- store_block block h dbp;;;
      act_ret h.
(** [CheckBlock] leaves its verdict in the block. The calls that follow tell the
    masternode and budget managers about the new height. The state in which the
    activation reports an error of the system is not kept. *)
Definition ProcessNewBlock (fuel : nat) (block : CBlock) (dbp : option (Z * Z)) : Act unit :=
  ok <- check_block block;;;
  _ <- act_require ok;;;
  _ <- AcceptBlock fuel (mkBlock (header block) (vtx block) (vchBlockSig block) true) dbp;;;
  (fun s => r <- ActivateBestChain addr fuel (as_chain s) (as_coins s);;
            let '(ok, st, c) := r in
            Some (if ok : bool then Some tt else None, mkAccept st (as_bestHeader s) c (as_checksums s) (as_files s) (mapRejectedBlocks s) (as_state s))).

(** * What a check leaves alone *)

(** The chain, the coins and the best header. *)
Definition quiet (s s' : AcceptState) : Prop := as_chain s' = as_chain s /\ as_coins s' = as_coins s /\ as_bestHeader s' = as_bestHeader s.
#[local] Instance quiet_po : PreOrder quiet.
Proof. split; [by intros s|]. intros s1 s2 s3 (A1 & A2 & A3) (B1 & B2 & B3). unfold quiet. split; [congruence|]. split; congruence. Qed.
Definition keeps {A} (m : Act A) : Prop := forall s r s', m s = Some (r, s') -> quiet s s'.
Lemma act_bind_Some {A B} (m : Act A) (k : A -> Act B) s r s' : act_bind m k s = Some (r, s') ->
  (exists a s1, m s = Some (Some a, s1) /\ k a s1 = Some (r, s')) \/ (m s = Some (None, s') /\ r = None).
Proof. unfold act_bind. intros H. apply obind_Some in H as ([[a|] s1] & H1 & H2); [eauto|]. right. by injection H2 as <- <-. Qed.
Lemma keeps_bind {A B} (m : Act A) (k : A -> Act B) : keeps m -> (forall a, keeps (k a)) -> keeps (act_bind m k).
Proof.
  intros Hm Hk s r s' [(a & s1 & H1 & H2)|[H _]]%act_bind_Some; [|by eapply Hm]. apply Hm in H1. apply Hk in H2. by etrans.
Qed.
Lemma keeps_ret {A} (a : A) : keeps (act_ret a).
Proof. by intros s r s' [= _ <-]. Qed.
Lemma keeps_false {A} : keeps (@act_false A).
Proof. by intros s r s' [= _ <-]. Qed.
Lemma keeps_get {A} (f : AcceptState -> option A) : keeps (act_get f).
Proof. intros s r s' H. unfold act_get in H. apply obind_Some in H as (a & _ & H). by injection H as _ <-. Qed.
Lemma keeps_require ok : keeps (act_require ok).
Proof. by intros s r s' [= _ <-]. Qed.
Lemma keeps_dos {A} level code reason : keeps (@act_dos A level code reason).
Proof. by intros s r s' [= _ <-]. Qed.
Lemma keeps_check k : keeps (act_check k).
Proof. intros s r s' H. unfold act_check in H. apply obind_Some in H as (a & _ & H). by injection H as _ <-. Qed.
Lemma keeps_fail {A} : keeps (fun _ : AcceptState => @None (option A * AcceptState)).
Proof. by intros s r s' H. Qed.
Lemma keeps_read p : keeps (read_block p).
Proof. by intros s r s' [= _ <-]. Qed.
#[local] Hint Resolve keeps_bind keeps_ret keeps_false keeps_get keeps_require keeps_dos keeps_check keeps_fail keeps_read : keeps.
Ltac keeps_auto := repeat first
  [ apply keeps_bind; [|intros]
  | match goal with |- keeps (match ?x with _ => _ end) => destruct x end
  | match goal with |- keeps (if ?x then _ else _) => destruct x end
  | solve [auto with keeps] ].
Lemma keeps_input_serials h tx txin serials : keeps (input_serials h tx txin serials).
Proof.
  unfold input_serials. keeps_auto. intros s r s' H. destruct (ae_ParseZerocoinPublicSpend env txin tx (as_state s)) as [x v]. by injection H as _ <-.
Qed.
#[local] Hint Resolve keeps_input_serials : keeps.
Lemma keeps_stake_inputs h tx piv ins serials : keeps (stake_inputs h tx piv ins serials).
Proof. revert serials. induction ins as [|i ins IH]; intros serials; cbn [stake_inputs]; keeps_auto. Qed.
#[local] Hint Resolve keeps_stake_inputs : keeps.
Lemma keeps_stake_txs h piv txs serials : keeps (stake_txs h piv txs serials).
Proof. revert serials. induction txs as [|tx txs IH]; intros serials; cbn [stake_txs]; keeps_auto. Qed.
Lemma keeps_fork_inputs z piv ins serials : keeps (fork_inputs z piv ins serials).
Proof. revert serials. induction ins as [|i ins IH]; intros serials; cbn [fork_inputs]; keeps_auto. Qed.
#[local] Hint Resolve keeps_stake_txs keeps_fork_inputs : keeps.
Lemma keeps_walk_fork steps n z piv prev bl serials : keeps (walk_fork steps n z piv prev bl serials).
Proof. revert n prev bl serials. induction steps as [|steps IH]; intros n prev bl serials; cbn [walk_fork]; keeps_auto. Qed.
Lemma keeps_fork_serials tx zs h split serials : keeps (fork_serials tx zs h split serials).
Proof. induction zs as [|i zs IH]; cbn [fork_serials]; keeps_auto. Qed.
Lemma keeps_main_serials tx zs h : keeps (main_serials tx zs h).
Proof. induction zs as [|i zs IH]; cbn [main_serials]; keeps_auto. Qed.
#[local] Hint Resolve keeps_walk_fork keeps_fork_serials keeps_main_serials : keeps.
Lemma keeps_check_stake block h p : keeps (check_stake block h p).
Proof. unfold check_stake. keeps_auto. Qed.
Lemma keeps_check_proof_of_stake block p : keeps (check_proof_of_stake block p).
Proof. unfold check_proof_of_stake. keeps_auto. intros s r s' H. apply obind_Some in H as (x & _ & H). by injection H as _ <-. Qed.
Lemma keeps_check_block block : keeps (check_block block).
Proof.
  intros s r s' H. unfold check_block in H. apply obind_Some in H as ([[[ok v] f] rej] & _ & H). injection H as _ <-. unfold note_rejected. by destruct rej.
Qed.
#[local] Hint Resolve keeps_check_stake keeps_check_proof_of_stake keeps_check_block : keeps.
Lemma keeps_check_contents block b : keeps (check_contents block b).
Proof. unfold check_contents. keeps_auto. intros s r s' H. apply obind_Some in H as (x & _ & H). by injection H as _ <-. Qed.

(** * Accepting keeps the books *)

Section Books.
Context {laws : ChainIOLaws io} (c0 : Coins).
Abbreviation g := (hashGenesisBlock chain).
Abbreviation Hash b := (CBlockHeader_GetHash (header b)).
Abbreviation work b := (val WIDTH256 (nChainWork b)).
Definition header_state (s : AcceptState) : IndexState := mkIndexState (Index s) (as_bestHeader s) [].
Record accept_inv (s : AcceptState) (t : hash) (l : list hash) : Prop := {
  ac_manager : manager addr g (as_chain s) t l;
  ac_coins : coherent c0 (as_coins s) l;
  ac_index : index_inv consensus (header_state s)
}.
Lemma accept_inv_quiet s s' t l : quiet s s' -> accept_inv s t l -> accept_inv s' t l.
Proof. intros (Q1 & Q2 & Q3) [A1 A2 A3]. split; [by rewrite Q1|by rewrite Q2|]. unfold header_state in *. by rewrite Q1, Q3. Qed.

(** The entries keep what the index needs of them. *)
Definition index_kept (idx idx' : BlockMap) : Prop :=
  same_shape idx idx' /\ forall p b b', idx !! p = Some b -> idx' !! p = Some b' ->
    vStakeModifier b' = vStakeModifier b /\ Z.land (nFlags b') BLOCK_STAKE_MODIFIER = Z.land (nFlags b) BLOCK_STAKE_MODIFIER.
Lemma index_inv_kept idx idx' best : index_kept idx idx' -> index_inv consensus (mkIndexState idx best []) -> index_inv consensus (mkIndexState idx' best []).
Proof.
  intros [S K] [I1 I2 I3 I4]. cbn [mapBlockIndex pindexBestHeader] in *. assert (Forw : forall p b, idx !! p = Some b -> exists b', idx' !! p = Some b' /\ nChainWork b = nChainWork b').
  { intros p b E. destruct (same_shape_lookup _ _ _ _ S E) as (b' & E' & _ & _ & _ & W & _). eauto. }
  assert (Back : forall p b', idx' !! p = Some b' -> exists b, idx !! p = Some b /\ nHeight b' = nHeight b /\ nChainWork b' = nChainWork b).
  { intros p b' E'. destruct (same_shape_lookup _ _ _ _ (symmetry S) E') as (b & E & _ & _ & H & W & _). eauto. }
  split; cbn [mapBlockIndex pindexBestHeader].
  - by eapply index_ok_shape.
  - intros p b' E'. destruct (Back _ _ E') as (b & E & Hh & Hw). destruct (I2 _ _ E) as [O1 O2 O3]. destruct (K _ _ _ E E') as [K1 K2].
    split; [by rewrite Hh, K1|unfold GeneratedStakeModifier in *; by rewrite Hh, K2|by rewrite Hw].
  - intros p b' E'. destruct (Back _ _ E') as (b & E & _ & Hw). destruct (I3 _ _ E) as (q & bq & B & Eq & Le). destruct (Forw _ _ Eq) as (bq' & Eq' & Wq).
    exists q, bq'. split; [done|]. split; [done|]. by rewrite Hw, <- Wq.
  - intros q B. destruct (I4 q B) as [b E]. destruct (Forw _ _ E) as (b' & E' & _). eauto.
Qed.
Lemma same_tree_kept idx idx' : same_tree idx idx' -> index_kept idx idx'.
Proof.
  intros S. split; [by apply same_tree_shape|]. intros p b b' E E'. destruct (same_tree_lookup _ _ _ _ S E) as (c & Ec & F). assert (c = b') as -> by congruence.
  pose proof (f_equal vStakeModifier F) as F1. pose proof (f_equal nFlags F) as F2. cbn in F1, F2. by rewrite F1, F2.
Qed.

(** The parent is not one that would be reconsidered. *)
Definition not_reconsidered (s : AcceptState) (block : CBlock) : Prop :=
  forall b, Index s !! hashPrevBlock (header block) = Some b -> is_failed b = true -> Checkpoints_CheckBlock (nHeight b) (hashPrevBlock (header block)) true = false.
Lemma GetPrevIndex_spec fuel block s r s' : not_reconsidered s block -> GetPrevIndex fuel block s = Some (r, s') ->
  quiet s s' /\ match r with
                | None => True
                | Some None => Hash block = g
                | Some (Some p) => Hash block <> g /\ p = hashPrevBlock (header block) /\ is_Some (Index s !! p)
                end.
Proof.
  intros Nr. unfold GetPrevIndex. case_bool_decide as G; [by intros [= <- <-]|].
  intros [(e & s1 & He & H)|[He _]]%act_bind_Some; [|done].
  cbn in He. injection He as <- <-. destruct (Index s !! hashPrevBlock (header block)) as [b|] eqn:E; [|by injection H as <- <-].
  destruct (is_failed b) eqn:F; [rewrite (Nr b E F) in H|]; injection H as <- <-; [done|]. split; [done|]. split; [done|]. split; [done|eauto].
Qed.

(** ** A new header *)

Lemma set_modifier_fields idx block h b b' : set_modifier consensus (ae_stakemodifier_literal env) idx block h b = Some b' ->
  nTx b' = nTx b /\ nChainTx b' = nChainTx b /\ nStatus b' = nStatus b /\
  (NetworkUpgradeActive consensus (nHeight b) UPGRADE_V3_4 = true -> has_stake_input block).
Proof.
  unfold set_modifier. destruct (NetworkUpgradeActive consensus (nHeight b) UPGRADE_V3_4) eqn:V; cbn [negb].
  - intros H. apply obind_Some in H as (tx & Et & H). apply obind_Some in H as (txin & Ei & H). unfold SetNewStakeModifier_V2 in H. rewrite V in H. cbn [negb] in H.
    apply obind_Some in H as (q & _ & H). apply obind_Some in H as (bq & _ & H). apply obind_Some in H as (m & _ & H). injection H as <-.
    split; [done|]. split; [done|]. split; [done|]. intros _. by exists tx, txin.
  - intros H. unfold SetNewStakeModifier_V1 in H. apply obind_Some in H as ([[x m] f] & _ & H). injection H as <-.
    unfold SetStakeEntropyBit. by destruct (_ >? 1).
Qed.
Lemma add_fields block st h st' : AddToBlockIndex consensus (ae_stakemodifier_literal env) block st = Some (h, st') -> mapBlockIndex st !! Hash block = None ->
  hashPrevBlock (header block) <> Hash block ->
  h = Hash block /\ (forall bp, mapBlockIndex st !! hashPrevBlock (header block) = Some bp -> 0 <= nHeight bp < 2 ^ 31 - 1 ->
    NetworkUpgradeActive consensus (nHeight bp + 1) UPGRADE_V3_4 = true -> has_stake_input block) /\
  exists b, mapBlockIndex st' = <[Hash block := b]> (mapBlockIndex st) /\ nTx b = 0 /\ nChainTx b = 0 /\ nStatus b = BLOCK_VALID_TREE.
Proof.
  intros H N Ne. unfold AddToBlockIndex in H. rewrite N in H. apply obind_Some in H as (b & Hb & H). apply obind_Some in H as (w & _ & H).
  apply obind_Some in H as ([r c] & Hr & H). apply obind_Some in H as (best & _ & H). injection H as <- <-. cbn [snd mapBlockIndex]. split; [done|].
  rewrite lookup_insert_ne in Hb by done.
  assert (Fb : nTx b = 0 /\ nChainTx b = 0 /\ nStatus b = 0 /\ forall bp, mapBlockIndex st !! hashPrevBlock (header block) = Some bp -> 0 <= nHeight bp < 2 ^ 31 - 1 ->
    NetworkUpgradeActive consensus (nHeight bp + 1) UPGRADE_V3_4 = true -> has_stake_input block).
  { destruct (mapBlockIndex st !! hashPrevBlock (header block)) as [bp|]; [|by injection Hb as <-]. apply obind_Some in Hb as (b1 & H1 & Hb).
    unfold BuildSkip in H1. cbn [pprev with_links] in H1. apply obind_Some in H1 as (q & _ & H1). injection H1 as <-.
    apply set_modifier_fields in Hb as (-> & -> & -> & V). do 3 (split; [done|]). intros bp' [= <-] Hh V'. apply V. cbn [nHeight with_links]. by rewrite i32_small by lia. }
  destruct Fb as (F1 & F2 & F3 & F4). split; [done|]. rewrite insert_insert_eq.
  match type of Hr with context [with_work b ?w ?t] => rewrite (RaiseValidity_new b w t F3) in Hr end. injection Hr as _ <-. by eexists.
Qed.
(** What is asked of the header of a new block: its target is valid, its parent is
    not at the last height, and the sum of the work does not wrap. *)
Definition header_grows (s : AcceptState) (block : CBlock) : Prop :=
  0 <= nBits (header block) < 2 ^ 32 /\ hashPrevBlock (header block) <> Hash block /\
  forall bp w, Index s !! hashPrevBlock (header block) = Some bp -> GetBlockProof (nBits (header block)) = Some w ->
    nHeight bp < 2 ^ 31 - 1 /\ 0 < val WIDTH256 w /\ work bp + val WIDTH256 w < 2 ^ 256.
Lemma mark_dirty_frame st hs : cs_index (fold_left mark_dirty hs st) = cs_index st /\ chainActive (fold_left mark_dirty hs st) = chainActive st /\
  setBlockIndexCandidates (fold_left mark_dirty hs st) = setBlockIndexCandidates st /\ mapBlocksUnlinked (fold_left mark_dirty hs st) = mapBlocksUnlinked st.
Proof. revert st. induction hs as [|h hs IH]; intros st; cbn [fold_left]; [done|]. destruct (IH (mark_dirty st h)) as (-> & -> & -> & ->). done. Qed.
Lemma manager_frame st st' t l : cs_index st' = cs_index st -> chainActive st' = chainActive st -> setBlockIndexCandidates st' = setBlockIndexCandidates st ->
  mapBlocksUnlinked st' = mapBlocksUnlinked st -> manager addr g st t l -> manager addr g st' t l.
Proof.
  intros E1 E2 E3 E4 [[I1 I2 I3 I4 I5] M2 M3 M4]. split; [split| | |]; rewrite ?E1, ?E2, ?E3; try done.
  destruct M3. split; rewrite ?E1, ?E4; done.
Qed.
Lemma add_to_index_spec block s r s' t l : accept_inv s t l -> header_grows s block -> Index s !! Hash block = None ->
  is_Some (Index s !! hashPrevBlock (header block)) -> add_to_index block s = Some (r, s') ->
  accept_inv s' t l /\ chainActive (as_chain s') = chainActive (as_chain s) /\
  exists b, r = Some (Hash block) /\ header_only (Index s) b /\ Index s' = <[Hash block := b]> (Index s).
Proof.
  intros [A1 A2 A3] (Hb & Ne & Gr) N [bp Ep] H. unfold add_to_index in H. apply obind_Some in H as ([h ix] & Ha & H). injection H as <- <-.
  destruct (add_fields _ _ _ _ Ha N Ne) as (-> & St & b & Ib & F1 & F2 & F3). cbn [mapBlockIndex] in Ib.
  pose proof (ii_links _ _ A3) as Hi. cbn [mapBlockIndex header_state] in Hi. destruct (index_lineage _ Hi _ _ Ep) as [lp Hl]. destruct (lineage_height _ Hi _ _ _ Hl Ep) as [_ H0].
  assert (Hpar : forall b0, mapBlockIndex (header_state s) !! hashPrevBlock (header block) = Some b0 ->
     nHeight b0 < 2 ^ 31 - 1 /\ (NetworkUpgradeActive consensus (nHeight b0 + 1) UPGRADE_V3_4 = true -> has_stake_input block)).
  { intros b0 E0. cbn in E0. rewrite Ep in E0. injection E0 as <-. destruct (GetBlockProof_value (nBits (header block)) Hb) as (w & Hw & _). destruct (Gr bp w Ep Hw) as (G1 & _).
    split; [done|]. apply (St bp); [done|lia]. }
  destruct (add_new consensus (ae_stakemodifier_literal env) block (header_state s) A3 Hb Ne Hpar N) as (b2 & w & R & Lk & Eo & _ & Hw & P).
  cbn [mapBlockIndex header_state] in *. rewrite Ep in P. destruct P as (P1 & P2 & P3). fold (header_state s) in Ha. rewrite R in Ha. injection Ha as <-. cbn [mapBlockIndex state_with header_state] in Ib.
  assert (b2 = b) as ->.
  { apply (f_equal (fun m => m !! Hash block)) in Ib. rewrite !lookup_insert_eq in Ib. by injection Ib. }
  destruct (Gr bp w Ep Hw) as (_ & G2 & G3). pose proof (val_range _ _ (eo_work _ _ (ii_entries _ _ A3 _ _ Ep))) as Wp. rewrite Z.mod_small in P3 by lia.
  set (ix := state_with (header_state s) (Hash block) b). set (st1 := with_index (as_chain s) (mapBlockIndex ix)).
  destruct (mark_dirty_frame st1 (setDirtyBlockIndex ix)) as (D1 & D2 & D3 & D4).
  assert (I1 : cs_index (fold_left mark_dirty (setDirtyBlockIndex ix) st1) = <[Hash block := b]> (Index s)) by (rewrite D1; done).
  assert (Ho : header_only (Index s) b).
  { split; [done|by exists (hashPrevBlock (header block)), bp; split; [done|split; [done|lia]]|apply Eo|done|done]. }
  split; [|split; [exact D2|exists b; cbn [as_chain]; fold ix; fold st1; by rewrite I1]].
  split; cbn [as_chain as_coins as_bestHeader header_state].
  - apply (manager_frame st1); [done|done|done|done|]. by apply (manager_header addr g (as_chain s) t l (Hash block) b A1 N).
  - done.
  - unfold header_state. cbn [as_chain as_bestHeader]. fold ix. fold st1. rewrite I1. pose proof (insert_inv consensus (header_state s) (Hash block) b A3 N Lk Eo) as [J1 J2 J3 J4]. by split.
Qed.

(** ** The header, the contents, the data *)

(** The counts of transactions have room for those of the block. *)
Definition tx_room (s : AcceptState) (block : CBlock) : Prop :=
  forall x lx, lineage (Index s) x lx -> txs (Index s) lx + Z.of_nat (length (vtx block)) < 2 ^ 32.
Lemma tx_room_fresh s s' block b : index_ok (Index s) -> Index s !! Hash block = None -> nTx b = 0 -> links_ok (Index s) b -> is_Some (pprev b) ->
  Index s' = <[Hash block := b]> (Index s) -> tx_room s block -> tx_room s' block.
Proof.
  intros Hi N Z0 Lb [q P] I R x lx Hl. rewrite I in *. rewrite txs_fresh by done. destruct (decide (x = Hash block)) as [->|Nx].
  - inversion Hl as [? c E P'|? c y l' E P' H']; subst; rewrite lookup_insert_eq in E; simplify_eq. rewrite txs_app. cbn [txs fold_right]. rewrite N. cbn [from_option].
    apply lineage_fresh in H'; [|done|done|by eapply links_parent]. specialize (R _ _ H'). lia.
  - destruct (lineage_lookup _ _ _ Hl) as [c E]. rewrite lookup_insert_ne in E by done. apply (R x). eapply lineage_fresh; eauto.
Qed.
Lemma root_known s t l : accept_inv s t l -> exists b, Index s !! g = Some b /\ nTx b <> 0.
Proof.
  intros [A1 _ _]. pose proof (mg_stored _ _ _ _ _ A1) as So. pose proof (to_root _ _ (so_tree _ _ _ So) _ _ (mg_tip _ _ _ _ _ A1)) as R.
  destruct (lineage_elem _ _ _ _ (mg_tip _ _ _ _ _ A1) (list_elem_of_lookup_2 _ _ _ R)) as [b E]. exists b. split; [done|].
  destruct (index_lineage _ (to_index _ _ (so_tree _ _ _ So)) g b E) as [lg H]. apply (so_count _ _ _ So g b lg E H). by apply (so_root _ _ _ So).
Qed.
(** What the search for the parent has established. *)
Definition parent_found (s : AcceptState) (block : CBlock) (p : option hash) : Prop :=
  match p with None => Hash block = g | Some p => Hash block <> g /\ p = hashPrevBlock (header block) /\ is_Some (Index s !! p) end.
Lemma AcceptBlockHeader_spec fuel block p s r s' t l : accept_inv s t l -> header_grows s block -> tx_room s block -> parent_found s block p ->
  AcceptBlockHeader fuel block p s = Some (r, s') ->
  accept_inv s' t l /\ tx_room s' block /\ chainActive (as_chain s') = chainActive (as_chain s) /\
  forall h, r = Some h -> h = Hash block /\ exists b, Index s' !! h = Some b /\ is_failed b = false.
Proof.
  intros A G R Pf. unfold AcceptBlockHeader. intros [(e & s1 & He & H)|[He _]]%act_bind_Some; [|done]. cbn in He. injection He as <- <-.
  destruct (Index s !! Hash block) as [b|] eqn:E.
  - destruct (is_failed b) eqn:F; injection H as <- <-; (split; [by apply (accept_inv_quiet s)|]); (split; [done|]); (split; [done|]); [done|].
    intros h [= <-]. eauto.
  - destruct p as [p|]; [|destruct (root_known _ _ _ A) as (b & Eg & _); cbn in Pf; congruence]. destruct Pf as (_ & -> & [bp Ep]).
    cbn [act_bind act_ret obind] in H. apply act_bind_Some in H as [([] & s2 & Hc & H)|[Hc ->]]; apply keeps_check in Hc.
    + pose proof Hc as (Q1 & _ & _). assert (G2 : header_grows s2 block) by (unfold header_grows; rewrite Q1; exact G).
      destruct (add_to_index_spec block s2 r s' t l) as (A' & Ca & b & -> & Ho & I); try (rewrite Q1; eauto); [by eapply accept_inv_quiet|done|done|]. rewrite Q1 in *.
      split; [done|]. split; [|split; [done|]].
      * pose proof (ii_links _ _ (ac_index _ _ _ A)) as Hi. destruct Ho as [H1 (q & bq & Hq & _) _ [H2 _] _]. eapply tx_room_fresh; [exact Hi|done|done|done|eauto|done|done].
      * intros h [= <-]. split; [done|]. exists b. rewrite I, lookup_insert_eq. split; [done|]. unfold is_failed. by rewrite (ho_status _ _ Ho).
    + split; [by eapply accept_inv_quiet|]. destruct Hc as (Q1 & _ & _). unfold tx_room. rewrite Q1. done.
Qed.
Lemma mark_failed_spec h b s r s' t l : accept_inv s t l -> Index s !! h = Some b -> has_data b = false -> mark_failed h s = Some (r, s') ->
  accept_inv s' t l /\ r = None /\ chainActive (as_chain s') = chainActive (as_chain s).
Proof.
  intros [A1 A2 A3] E D H. unfold mark_failed in H. injection H as <- <-. destruct (IsInvalid _ && _); [|by split].
  split; [|done]. split; cbn [set_chain as_chain as_coins].
  - by eapply manager_failed.
  - done.
  - eapply (index_inv_kept (Index s)); [|exact A3]. apply same_tree_kept, add_status_grows. done.
Qed.
(** A block with a parent that passes its checks has a transaction. *)
Lemma check_contents_vtx block b s s' q : check_contents block b s = Some (Some true, s') -> pprev b = Some q -> vtx block <> [].
Proof.
  intros [([] & s1 & _ & H)|[_ C]]%act_bind_Some P; [|done|done]. apply obind_Some in H as ([ok v] & H & He). injection He as -> _.
  rewrite P in H. unfold ContextualCheckBlock in H. apply obind_Some in H as (n & _ & H). unfold and_then in H. apply obind_Some in H as ([[] v1] & _ & H); [|done].
  apply obind_Some in H as (tx & Et & _). intros C. by rewrite C in Et.
Qed.
Lemma store_block_spec block h dbp b s r s' t l : accept_inv s t l -> Index s !! h = Some b -> has_data b = false -> vtx block <> [] -> tx_room s block ->
  store_block block h dbp s = Some (r, s') ->
  accept_inv s' t l /\ chainActive (as_chain s') = chainActive (as_chain s) /\
  (r = Some tt -> exists b', Index s' !! h = Some b' /\ has_data b' = true /\ is_failed b' = is_failed b).
Proof.
  intros A E D Nv R H. pose proof A as [A1 A2 A3]. unfold store_block in H. rewrite E in H. cbn [obind] in H. apply obind_Some in H as ([[pos fs] v] & _ & H).
  destruct pos as [pos|]; [|injection H as <- <-; split; [by apply (accept_inv_quiet s)|done]].
  destruct (match dbp with None => _ | _ => _ end); [injection H as <- <-; split; [by apply (accept_inv_quiet s)|done]|].
  apply obind_Some in H as (st' & Hr & H). injection H as <- <-. cbn [as_chain set_files set_state set_chain as_coins] in *.
  pose proof (mg_stored _ _ _ _ _ A1) as So. assert (Z0 : nTx b = 0).
  { destruct (so_tx _ _ _ So _ _ E) as [_ T]. destruct (decide (nTx b = 0)) as [|N]; [done|]. apply T in N. congruence. }
  destruct (received_transactions addr g (as_chain s) t l h b block (fst pos) (snd pos) A1 E Z0 Nv R) as (st2 & b' & R2 & M' & Ca & Fi & [S Sd]).
  rewrite R2 in Hr. injection Hr as ->. destruct (same_shape_lookup _ _ h b' S (lookup_insert_eq _ _ _)) as (c & Ec & _). destruct (Sd h b' c (lookup_insert_eq _ _ _) Ec) as (D1 & _).
  split; [split; [done|done|]|split; [done|]].
  - eapply (index_inv_kept (<[h := b']> (Index s))); [split; [done|]|].
    + intros p x x' Ex Ex'. destruct (Sd p x x' Ex Ex') as (_ & _ & K1 & K2). by rewrite K1, K2.
    + eapply (index_inv_kept (Index s)); [|exact A3]. split; [unfold same_shape; rewrite fmap_insert, (fi_shape _ _ _ Fi), insert_id; [done|by rewrite lookup_fmap, E]|].
      intros p x x' Ex [[<- <-]|[_ Ex']]%lookup_insert_Some; simplify_eq; [apply Fi|done].
  - intros _. exists c. split; [done|]. unfold has_data, is_failed. rewrite D1. split; [apply (fi_data _ _ _ Fi)|apply (fi_failed _ _ _ Fi)].
Qed.

(** ** The whole block *)

Lemma keeps_step {A B} (m : Act A) (k : A -> Act B) s s0 r s' : keeps m -> quiet s s0 -> act_bind m k s0 = Some (r, s') ->
  (exists a s1, quiet s s1 /\ m s0 = Some (Some a, s1) /\ k a s1 = Some (r, s')) \/ (quiet s s' /\ r = None).
Proof.
  intros K Q [(a & s1 & H1 & H2)|[H ->]]%act_bind_Some; [left; exists a, s1|right]; (split; [etrans; [exact Q|by eapply K]|done]).
Qed.
(** What accepting a block ends with. *)
Definition accepted (s s' : AcceptState) (block : CBlock) (r : option hash) (t : hash) (l : list hash) : Prop :=
  accept_inv s' t l /\ chainActive (as_chain s') = chainActive (as_chain s) /\
  forall h, r = Some h -> h = Hash block /\ exists b, Index s' !! h = Some b /\ has_data b = true /\ is_failed b = false.
Lemma accepted_quiet s s1 s' block t l : accept_inv s1 t l -> chainActive (as_chain s1) = chainActive (as_chain s) -> quiet s1 s' -> accepted s s' block None t l.
Proof. intros A C Q. split; [by eapply accept_inv_quiet|]. split; [by rewrite (proj1 Q)|done]. Qed.
(** From the entry of the header on. *)
Lemma contents_keep block dbp p b s r s' t l : accept_inv s t l -> tx_room s block -> Index s !! Hash block = Some b -> has_data b = false -> is_failed b = false ->
  (ok <- check_contents block b;;;
   if negb ok then (_ <- mark_failed (Hash block);;; act_false)
   else _ <- (if IsProofOfStake block then check_stake block (Hash block) p else act_ret tt);;; _ <- store_block block (Hash block) dbp;;; act_ret (Hash block)) s = Some (r, s') ->
  accepted s s' block r t l.
Proof.
  intros A R E D F H. apply (keeps_step _ _ s s) in H as [(ok & s1 & Q & Hc & H)|[Q ->]]; [|by apply (accepted_quiet s s)|apply keeps_check_contents|done].
  assert (A' : accept_inv s1 t l) by (by eapply accept_inv_quiet). assert (E1 : Index s1 !! Hash block = Some b) by (by rewrite (proj1 Q)).
  destruct ok; cbn [negb] in H.
  - assert (Nv : vtx block <> []).
    { destruct (pprev b) as [q|] eqn:P; [by eapply check_contents_vtx|]. exfalso. pose proof (mg_stored _ _ _ _ _ (ac_manager _ _ _ A)) as So.
      pose proof (root_entry _ _ _ _ _ So E (or_introl P)) as Hg. destruct (root_known _ _ _ A) as (c & Ec & Nc). rewrite Hg, Ec in E. injection E as ->.
      apply (so_tx _ _ _ So _ _ Ec) in Nc. congruence. }
    apply (keeps_step _ _ s s1) in H as [([] & s2 & Q2 & _ & H)|[Q2 ->]]; [|by apply (accepted_quiet s s)|destruct (IsProofOfStake block); auto with keeps|done].
    assert (E2 : Index s2 !! Hash block = Some b) by (by rewrite (proj1 Q2)). assert (A2 : accept_inv s2 t l) by (by eapply accept_inv_quiet).
    assert (R2 : tx_room s2 block) by (unfold tx_room; by rewrite (proj1 Q2)).
    apply act_bind_Some in H as [([] & s3 & Hs & H)|[Hs ->]]; destruct (store_block_spec _ _ _ _ _ _ _ _ _ A2 E2 D Nv R2 Hs) as (A3 & C3 & B3); rewrite (proj1 Q2) in C3.
    + injection H as <- <-. split; [done|]. split; [done|]. intros h [= <-]. split; [done|]. destruct (B3 eq_refl) as (b' & Eb & Db & Fb). exists b'. by rewrite Fb.
    + by split.
  - apply act_bind_Some in H as [([] & s2 & Hm & _)|[Hm ->]]; destruct (mark_failed_spec _ _ _ _ _ _ _ A' E1 D Hm) as (A2 & ? & C2); [done|]. rewrite (proj1 Q) in C2. by split.
Qed.
Lemma AcceptBlock_keeps fuel block dbp s r s' t l : accept_inv s t l -> not_reconsidered s block -> header_grows s block -> tx_room s block ->
  AcceptBlock fuel block dbp s = Some (r, s') -> accepted s s' block r t l.
Proof.
  intros A Nr G R H. unfold AcceptBlock in H.
  apply act_bind_Some in H as [(p & s1 & Hp & H)|[Hp ->]]; destruct (GetPrevIndex_spec _ _ _ _ _ Nr Hp) as [Q Pf]; [|by apply (accepted_quiet s s)].
  apply (keeps_step _ _ s s1) in H as [(w & s2 & Q2 & _ & H)|[Q2 ->]]; [|by apply (accepted_quiet s s)|keeps_auto|done].
  apply (keeps_step _ _ s s2) in H as [(u & s3 & Q3 & _ & H)|[Q3 ->]]; [|by apply (accepted_quiet s s)|keeps_auto|done].
  apply (keeps_step _ _ s s3) in H as [(u' & s4 & Q4 & _ & H)|[Q4 ->]]; [|by apply (accepted_quiet s s)|auto with keeps|done].
  assert (A4 : accept_inv s4 t l) by (by eapply accept_inv_quiet). assert (I4 : as_chain s4 = as_chain s) by apply Q4.
  assert (G4 : header_grows s4 block) by (unfold header_grows; by rewrite I4). assert (R4 : tx_room s4 block) by (unfold tx_room; by rewrite I4).
  assert (P4 : parent_found s4 block p) by (unfold parent_found; by rewrite I4).
  apply act_bind_Some in H as [(h & s5 & Hh & H)|[Hh ->]]; destruct (AcceptBlockHeader_spec _ _ _ _ _ _ _ _ A4 G4 R4 P4 Hh) as (A5 & R5 & C5 & E5); rewrite I4 in C5; [|by split].
  destruct (E5 h eq_refl) as (-> & b & Eb & F). apply act_bind_Some in H as [(b' & s6 & Hb & H)|[Hb ->]]; unfold act_get in Hb; rewrite Eb in Hb; [|done]. injection Hb as -> ->.
  destruct (has_data b') eqn:D; [injection H as <- <-; split; [done|]; split; [done|]; intros h [= <-]; eauto|].
  destruct (contents_keep _ _ _ _ _ _ _ _ _ A5 R5 Eb D F H) as (A' & C' & B'). split; [done|]. split; [congruence|done].
Qed.

(** The bound on the activation is not used where no parent is reconsidered. *)
Lemma GetPrevIndex_fuel fuel fuel' block s : not_reconsidered s block -> GetPrevIndex fuel block s = GetPrevIndex fuel' block s.
Proof.
  intros Nr. unfold GetPrevIndex. case_bool_decide; [done|]. unfold act_bind, act_get. cbn [obind]. destruct (Index s !! _) as [b|] eqn:E; [|done].
  destruct (is_failed b) eqn:F; [by rewrite (Nr b E F)|done].
Qed.
Lemma AcceptBlockHeader_fuel fuel fuel' block p s : (p = None -> Hash block = g) -> AcceptBlockHeader fuel block p s = AcceptBlockHeader fuel' block p s.
Proof.
  intros P. unfold AcceptBlockHeader. destruct p as [p|]; [done|]. specialize (P eq_refl). unfold GetPrevIndex. by rewrite bool_decide_true by done.
Qed.
Lemma act_bind_ext {A B} (m m' : Act A) (k k' : A -> Act B) s : m s = m' s -> (forall a s1, m s = Some (Some a, s1) -> k a s1 = k' a s1) -> act_bind m k s = act_bind m' k' s.
Proof. intros Hm Hk. unfold act_bind. rewrite <- Hm. destruct (m s) as [[[a|] s1]|]; cbn [obind]; auto. Qed.
Lemma AcceptBlock_fuel fuel fuel' block dbp s : not_reconsidered s block -> AcceptBlock fuel block dbp s = AcceptBlock fuel' block dbp s.
Proof.
  intros Nr. unfold AcceptBlock. apply act_bind_ext; [by apply GetPrevIndex_fuel|]. intros p s1 Hp. destruct (GetPrevIndex_spec _ _ _ _ _ Nr Hp) as [_ Pf].
  do 3 (apply act_bind_ext; [done|]; intros ? ? _). apply act_bind_ext; [|done]. apply AcceptBlockHeader_fuel. by intros ->.
Qed.
(** The block once its own checks are done. *)
Definition checked (block : CBlock) : CBlock := mkBlock (header block) (vtx block) (vchBlockSig block) true.
Lemma process_ends block dbp s t l ok s1 r s2 f : accept_inv s t l -> not_reconsidered s block -> header_grows s block -> tx_room s block ->
  check_block block s = Some (Some ok, s1) -> AcceptBlock f (checked block) dbp s1 = Some (r, s2) ->
  exists enough r' s', (forall fuel, (enough <= fuel)%nat -> ProcessNewBlock fuel block dbp s = Some (r', s')) /\
    (r' = None /\ system_failed \/ exists t' l', accept_inv s' t' l' /\ (t' = t \/ work_lt addr (Index s') t' t = false) /\
       (is_Some r' -> best_tip addr (as_chain s') t' /\ Tip (chainActive (as_chain s')) = Some t' /\ ok = true /\
          exists b, Index s' !! Hash block = Some b /\ has_data b = true)).
Proof.
  intros A Nr G R Hc Ha. pose proof (keeps_check_block _ _ _ _ Hc) as Q. assert (I1 : as_chain s1 = as_chain s) by apply Q.
  assert (A1 : accept_inv s1 t l) by (by eapply accept_inv_quiet).
  assert (Nr1 : not_reconsidered s1 (checked block)) by (unfold not_reconsidered; by rewrite I1).
  destruct ok; [|exists O, None, s1; split; [intros fuel _; unfold ProcessNewBlock, act_bind; by rewrite Hc|right; exists t, l; split; [done|]; split; [by left|intros [? [=]]]]].
  destruct (AcceptBlock_keeps f (checked block) dbp s1 r s2 t l A1 Nr1) as (A2 & C2 & B2); try done; [unfold header_grows; by rewrite I1|unfold tx_room; by rewrite I1|].
  assert (Run : forall fuel, AcceptBlock fuel (checked block) dbp s1 = Some (r, s2)) by (intros fuel; by rewrite (AcceptBlock_fuel fuel f)).
  destruct r as [h|]; [|exists O, None, s2; split; [intros fuel _; unfold ProcessNewBlock, act_bind, act_require; rewrite Hc; cbn [obind]; fold (checked block); by rewrite Run|
    right; exists t, l; split; [done|]; split; [by left|intros [? [=]]]]].
  destruct (activation_manager addr g c0 (as_coins s2) (as_chain s2) t l (ac_manager _ _ _ A2) (ac_coins _ _ _ A2)) as (enough & ok & st' & c' & Ab & Act').
  exists enough, (if ok then Some tt else None), (mkAccept st' (as_bestHeader s2) c' (as_checksums s2) (as_files s2) (mapRejectedBlocks s2) (as_state s2)).
  split; [intros fuel Hf; unfold ProcessNewBlock, act_bind, act_require; rewrite Hc; cbn [obind]; fold (checked block); rewrite Run; cbn [obind]; by rewrite (Ab fuel Hf)|].
  destruct ok; [right|by left]. destruct Act' as (t' & l' & M' & Co' & W' & B' & Gr). exists t', l'. cbn [as_chain].
  assert (A' : accept_inv (mkAccept st' (as_bestHeader s2) c' (as_checksums s2) (as_files s2) (mapRejectedBlocks s2) (as_state s2)) t' l').
  { split; [done|done|]. eapply index_inv_kept; [apply same_tree_kept, Gr|exact (ac_index _ _ _ A2)]. }
  split; [done|]. split; [by right|]. intros _. split; [done|]. split; [|split; [done|]].
  - rewrite (si_active _ _ _ (mg_select _ _ _ _ _ M')), Tip_path. by eapply lineage_last, (mg_tip _ _ _ _ _ M').
  - destruct (B2 h eq_refl) as (-> & b & Eb & Db & _). destruct (same_tree_lookup _ _ _ _ (proj1 Gr) Eb) as (b' & Eb' & _). exists b'. split; [done|].
    destruct (proj2 Gr _ _ _ Eb Eb') as [_ ->]. done.
Qed.
End Books.
End Accept.

(** * Example: the first block after the genesis block *)

#[local] Existing Instances blockAbi64 toy_sph toy_crypto toy_sig.
#[export] Instance toy_sapling : SaplingVerifier := {|
  VerificationCtx := unit; sapling_verification_ctx_init := tt; sapling_check_spend _ _ _ := (true, tt); sapling_check_output _ _ := (true, tt);
  sapling_final_check _ _ _ _ := true |}.
Definition ac_genesis : hash := repeat 5 32.
Definition ac_entry : CBlockIndex :=
  let b := rc_entry None None 0 1 1 1 1 29 in
  mkIndexEntry None None 0 0 0 0 (nChainWork b) 1 1 29 [] 0 0 None (mkHeader 8 (repeat 0 32) (repeat 2 32) 1599999000 0x207fffff 7 (repeat 0 32) (repeat 0 32)) 1 1599999000.
Definition ac_params : AcceptParams := mkAcceptParams 0 0 100 true [].
Definition ac_env : AcceptEnv :=
  mkAcceptEnv ex_node no_zerocoin (fun _ => None) 0 0 0 (fun _ => None) (fun _ => None) (fun _ _ st => (None, st)) (fun _ => None) (fun _ _ _ _ => true) (fun _ _ _ _ => true)
    (fun _ => None) (fun _ => true) true (fun _ _ => false).
Definition ac_start : AcceptState :=
  mkAccept (io := ex_io) (mkCS {[ac_genesis := ac_entry]} [Some ac_genesis] {[ac_genesis]} None [] 2 ∅) (Some ac_genesis) [ac_genesis] ∅ (mkFiles [] 0 ∅) [] CValidationState_default.
Definition ac_tx : CTransaction := mkTx 1 0 [mkTxIn (mkOutPoint (repeat 0 32) 0xffffffff) [0x51; 0] 0] [mkTxOut 900 [OP_1] (-10)] 0 None None.
Definition ac_block : CBlock :=
  mkBlock (mkHeader 8 ac_genesis (GetHash ac_tx) 1600000000 0x207fffff 7 (repeat 0 32) (repeat 3 32)) [ac_tx] [] false.
Abbreviation ac_idx := ({[ac_genesis := ac_entry]} : BlockMap).
Lemma ac_cases p b : ac_idx !! p = Some b -> p = ac_genesis /\ b = ac_entry.
Proof. by intros [-> ->]%lookup_singleton_Some. Qed.
Lemma ac_root : lineage ac_idx ac_genesis [ac_genesis].
Proof. eapply lineage_root; reflexivity. Qed.
Lemma ac_lineage p l : lineage ac_idx p l -> p = ac_genesis /\ l = [ac_genesis].
Proof. intros H. destruct (lineage_lookup _ _ _ H) as [b [-> _]%ac_cases]. split; [done|]. exact (lineage_functional _ _ _ _ H ac_root). Qed.
Lemma ac_stored : stored ac_genesis (as_chain ac_start) [].
Proof.
  split; cbn [cs_index mapBlocksUnlinked as_chain ac_start]; [split| | | | | | | | | | ].
  - intros p b [-> ->]%ac_cases. unfold links_ok, ac_entry. cbn [pprev]. done.
  - intros p b [-> ->]%ac_cases. split; [reflexivity|]. intros i. do 9 (destruct i as [|i]; [by vm_compute|]). by vm_compute.
  - intros p b q bq [-> ->]%ac_cases. done.
  - by intros p l [-> ->]%ac_lineage.
  - intros p b [-> ->]%ac_cases. split; [done|]. by vm_compute.
  - by intros p b l [-> ->]%ac_cases [_ ->]%ac_lineage.
  - intros p b q bq [-> ->]%ac_cases N P. done.
  - intros p b [-> ->]%ac_cases. by vm_compute.
  - intros a q Hq. by apply elem_of_nil in Hq.
  - intros q Hq. by apply elem_of_nil in Hq.
  - by apply NoDup_nil_2.
  - intros q b a ba [-> ->]%ac_cases N Z0 P. done.
  - by intros b [_ ->]%ac_cases.
  - intros p l [-> ->]%ac_lineage. by vm_compute.
Qed.
Lemma ac_inv : accept_inv ex_chain sel_addr (io := ex_io) [] ac_start ac_genesis [ac_genesis].
Proof.
  pose proof ac_stored as So. assert (Lk : linked ac_idx ac_genesis) by (by apply (linked_of_tx ac_genesis (as_chain ac_start) [] ac_genesis ac_entry So eq_refl)).
  split; [split; [split| | |]| |split]; cbn [cs_index chainActive setBlockIndexCandidates as_chain ac_start header_state mapBlockIndex pindexBestHeader as_coins as_bestHeader].
  - apply So.
  - done.
  - exists ac_genesis. split; [apply ac_root|done].
  - intros q b _ [-> ->]%ac_cases. by vm_compute.
  - intros p ->%elem_of_singleton. split; [eauto|done].
  - apply ac_root.
  - done.
  - intros q (l & [-> _]%ac_lineage & _) _. by apply elem_of_singleton.
  - apply (coherent_snoc (io := ex_io) [] [] [ac_genesis] (Some 8) _ []); [by constructor|done|done].
  - apply So.
  - intros p b [-> ->]%ac_cases. split; [by left|done|apply (to_work _ _ (so_tree _ _ _ So) ac_genesis); reflexivity].
  - intros p b [-> ->]%ac_cases. exists ac_genesis, ac_entry. split; [done|]. split; [done|lia].
  - intros q [= <-]. eauto.
Qed.

(** * The property *)

(** C2: when the checks of a block return, [ProcessNewBlock] ends, given enough rounds of the
    activation, and the books are right afterwards: the index with its best header, the
    candidates, the waiting blocks, and the coins, which are those of connecting the blocks of
    the active chain in order. The tip is the one before or not worse. When it returns true,
    the block has its data, and no block that has the data of its whole branch, none of it
    failed, beats the tip. It can leave books that are not right only when connecting or
    disconnecting reported an error of the system, and then returns false. The parent of the
    block is not a failed checkpoint, and heights, work and counts do not overflow. *)
Theorem ProcessNewBlock_best `{STL : SphLib} {babi : BlockAbi} {crypto : ScriptCrypto} {sig : SigCrypto} {SV : SaplingVerifier} {io : ChainIO} {laws : ChainIOLaws io}
    (chain : ChainParams) (params : AcceptParams) (adjustedTime : Z) (env : AcceptEnv) (addr : hash -> Z) (c0 : Coins)
    (block : CBlock) (dbp : option (Z * Z)) (s s1 s2 : AcceptState) (t : hash) (l : list hash) (ok : bool) (r : option hash) (f : nat) :
  accept_inv chain addr c0 s t l -> not_reconsidered params s block -> header_grows s block -> tx_room s block ->
  check_block chain env block s = Some (Some ok, s1) -> AcceptBlock chain params adjustedTime env addr f (checked block) dbp s1 = Some (r, s2) ->
  exists enough r' s', (forall fuel, (enough <= fuel)%nat -> ProcessNewBlock chain params adjustedTime env addr fuel block dbp s = Some (r', s')) /\
    (r' = None /\ system_failed \/ exists t' l', accept_inv chain addr c0 s' t' l' /\ (t' = t \/ work_lt addr (cs_index (as_chain s')) t' t = false) /\
       (is_Some r' -> best_tip addr (as_chain s') t' /\ Tip (chainActive (as_chain s')) = Some t' /\ ok = true /\
          exists b, cs_index (as_chain s') !! CBlockHeader_GetHash (header block) = Some b /\ has_data b = true)).
Proof. intros A Nr G R Hc Ha. by apply (process_ends chain params adjustedTime env addr c0 block dbp s t l ok s1 r s2 f). Qed.
Lemma ProcessNewBlock_best_witness :
  (r <- ProcessNewBlock ex_chain ac_params 1600000000 ac_env sel_addr (io := ex_io) 5 ac_block None ac_start;;
   Some (fst r, chainActive (as_chain (snd r)), as_coins (snd r))) =
    (let h := CBlockHeader_GetHash (header ac_block) in Some (Some tt, [Some ac_genesis; Some h], [h; ac_genesis])) /\
  exists enough r' s', forall fuel, (enough <= fuel)%nat -> ProcessNewBlock ex_chain ac_params 1600000000 ac_env sel_addr (io := ex_io) fuel ac_block None ac_start = Some (r', s').
Proof.
  split; [vm_compute; reflexivity|].
  destruct (check_block ex_chain ac_env ac_block ac_start) as [[[ok|] s1]|] eqn:Hc; [|vm_compute in Hc; discriminate|vm_compute in Hc; discriminate].
  destruct (AcceptBlock ex_chain ac_params 1600000000 ac_env sel_addr 5 (checked ac_block) None s1) as [[r s2]|] eqn:Ha.
  - destruct (ProcessNewBlock_best ex_chain ac_params 1600000000 ac_env sel_addr [] ac_block None ac_start s1 s2 ac_genesis [ac_genesis] ok r 5 ac_inv) as (enough & r' & s' & H & _); eauto.
    + intros b [_ ->]%ac_cases F. vm_compute in F. discriminate.
    + split; [vm_compute; split; [discriminate|reflexivity]|]. split; [vm_compute; discriminate|]. intros bp w [_ ->]%ac_cases Hw. vm_compute in Hw. injection Hw as <-. vm_compute. repeat split.
    + intros x lx [_ ->]%ac_lineage. vm_compute. reflexivity.
  - exfalso. vm_compute in Hc. injection Hc as <- <-. vm_compute in Ha. discriminate.
Defined.
