(* ===== verification/ConnectBlock.v ===== *)
(** Connecting a block to the chain: the whole of [ConnectBlock] (src/validation.cpp). *)
From Stdlib Require Import ZArith Lia String List Bool.
From stdpp Require Import base gmap list.
From S2P Require Import Prelude Uint256 Consensus Pow Serialize Script Interpreter Codecs Transaction TxVerify SigHash Compressor Coins Ledger Connect Inputs Merkle Standard Block Payments BlockCheck.
Import ListNotations.
Local Open Scope Z_scope.
Local Open Scope passion_scope.

Definition SPORK_16_ZEROCOIN_MAINTENANCE_MODE : Z := 10015.
Definition SPORK_20_SAPLING_MAINTENANCE : Z := 10020.

(** The entry of the block in the index, and of its parent. *)
Record BlockIndexEntry := mkIndex {
  bi_nHeight : Z;
  bi_pprev : option (list Z * Z);
  nChainSaplingValue : option Z
}.

(** Results of the writes to disk ([WriteUndo]: finding the place for the undo
    records, writing them and marking the index entry, when that has to be done);
    the zerocoin checks that need the chain; settings. *)
Record ConnectEnv := mkConnectEnv {
  totalBlocksEstimate : Z;
  nScriptCheckThreads : bool;
  fVerifyingBlocks : bool;
  sporkValue : Z -> Z;
  IsTransactionInChain : list Z -> option Z;
  TxOutToPublicCoin : CTxOut -> Check;
  ParseZerocoinPublicSpend : CTxIn -> CTransaction -> CValidationState -> option CoinSpend * CValidationState;
  ContextualCheckZerocoinSpend : CTransaction -> CoinSpend -> Z -> list Z -> bool;
  WriteUndo : list (list Coin) -> Check;
  WriteCoinSpendBatch : list (CoinSpend * list Z) -> bool;
  WriteCoinMintBatch : list (CTxOut * list Z) -> bool;
  fTxIndex : bool;
  WriteTxIndex : list (list Z * Z) -> bool
}.

Section ConnectBlock.
Context `{STL : SaplingTreeLib} {V : Type} {view : CoinsView V} {babi : BlockAbi} `{SphLib} {crypto : ScriptCrypto} {sig : SigCrypto}.
Variables (chain : ChainParams) (zc : ZerocoinEnv) (zerocoin_pubkey : CTxIn -> option (list Z)) (node : NodeState) (env : ConnectEnv).
Variable ContainsOutPoint : COutPoint -> bool.
Abbreviation Cache := (CCoinsViewCache V).
Abbreviation consensus := (chain_consensus chain).

(** * Steps

    A step reads and writes the validation state and the view; it throws (outer
    [None]), returns false (inner [None]) or goes on with a value. *)

Definition Step (A : Type) : Type := CValidationState -> Cache -> option (option A * CValidationState * Cache).
Definition ret {A} (a : A) : Step A := fun st c => Some (Some a, st, c).
Definition sbind {A B} (m : Step A) (k : A -> Step B) : Step B := fun st c =>
  match m st c with
  | None => None
  | Some (None, st, c) => Some (None, st, c)
  | Some (Some a, st, c) => k a st c
  end.
Notation "x <- m ;;; k" := (sbind m (fun x => k)) (at level 100, m at next level, right associativity).
(** [return state.DoS(level, false, code, reason)] *)
Definition dos {A} (level code : Z) (reason : string) : Step A := fun st c =>
  Some (None, snd (DoS level false code reason false EmptyString st), c).
(** [return false] *)
Definition return_false {A} : Step A := fun st c => Some (None, st, c).
Definition lift {A} (o : option A) : Step A := fun st c => a <- o;; Some (Some a, st, c).
Definition read {A} (f : Cache -> A * Cache) : Step A := fun st c => let '(a, c) := f c in Some (Some a, st, c).
Definition run_checked (k : Check) : Step unit := fun st c =>
  r <- k st;; Some (if fst r then Some tt else None, snd r, c).
Definition write (f : Cache -> Cache) : Step unit := fun st c => Some (Some tt, st, f c).
(** [if (!ok) return AbortNode(state, reason)] *)
Definition or_abort_node (ok : bool) (reason : string) : Step unit := fun st c =>
  if ok then Some (Some tt, st, c) else Some (None, snd (state_Error reason st), c).

(** * One transaction *)

Record Acc := mkAcc {
  nFees : Z;
  nSigOps : Z;
  nValueOut : Z;
  nValueIn : Z;
  vSpends : list (CoinSpend * list Z);
  vMints : list (CTxOut * list Z);
  vtxundo : list (list Coin);
  sapling_tree : SaplingMerkleTree;
  vChecks : list CScriptCheck;
  vPos : list (list Z * Z);
  nTxOffset : Z
}.

Definition SkipInvalidUTXOS (nHeight : Z) : bool :=
  match network chain with
  | MAIN => NetworkUpgradeActive consensus nHeight UPGRADE_ZC && (nHeight <=? height_last_invalid_UTXO chain)
  | _ => false
  end.

(** The mints of a transaction. *)
Fixpoint parse_mints (txid : list Z) (outs : list CTxOut) (mints : list (CTxOut * list Z)) : Step (list (CTxOut * list Z)) :=
  match outs with
  | [] => ret mints
  | o :: outs =>
      if negb (CTxOut_IsZerocoinMint o) then parse_mints txid outs mints
      else fun st c =>
        r <- TxOutToPublicCoin env o st;;
        if fst r then parse_mints txid outs (mints ++ [(o, txid)]) (snd r) c else dos 100 0 EmptyString (snd r) c
  end.
(** The zerocoin spends of a transaction, each adding its denomination. *)
Fixpoint parse_spends (tx : CTransaction) (nHeight : Z) (hashBlock : list Z) (ins : list CTxIn) (nValueIn : Z)
    (spends : list (CoinSpend * list Z)) : Step (Z * list (CoinSpend * list Z)) :=
  match ins with
  | [] => ret (nValueIn, spends)
  | txIn :: ins =>
      let isPublicSpend := CTxIn_IsZerocoinPublicSpend txIn in
      if negb (CTxIn_IsZerocoinSpend txIn) && negb isPublicSpend then parse_spends tx nHeight hashBlock ins nValueIn spends
      else if negb (CheckPublicCoinSpendEnforced consensus nHeight isPublicSpend) then return_false
      else
        spend <- (if isPublicSpend
                  then fun st c => let '(s, st) := ParseZerocoinPublicSpend env txIn tx st in Some (s, st, c)
                  else lift (TxInToZerocoinSpend zc txIn));;;
        if negb (ContextualCheckZerocoinSpend env tx spend nHeight hashBlock) then dos 100 REJECT_INVALID EmptyString
        else parse_spends tx nHeight hashBlock ins (i64 (nValueIn + i64 (getDenomination spend * COIN))) (spends ++ [(spend, GetHash tx)])
  end.

Section Loop.
Variables (hashBlock : list Z) (nHeight : Z) (fScriptChecks fCLTVIsActivated : bool).
Variables (fInitialBlockDownload fZerocoinMaintenance fSaplingMaintenance isV5UpgradeEnforced : bool).

Definition too_many_sigops (n : Z) : bool := n >? MAX_BLOCK_SIGOPS_CURRENT.
Definition script_flags : Z :=
  Z.lor (Z.lor SCRIPT_VERIFY_P2SH SCRIPT_VERIFY_DERSIG) (if fCLTVIsActivated then SCRIPT_VERIFY_CHECKLOCKTIMEVERIFY else 0).

(** The rules about zerocoins and shielded data in force. *)
Definition check_kind (tx : CTransaction) : Step unit :=
  if negb fInitialBlockDownload && fZerocoinMaintenance && ContainsZerocoins tx then dos 100 0 EmptyString
  else if negb fInitialBlockDownload && fSaplingMaintenance && IsShieldedTx tx then dos 100 0 EmptyString
  else if isV5UpgradeEnforced && ContainsZerocoins tx then dos 100 0 EmptyString
  else ret tt.

(** Zerocoin spends, or the inputs of an ordinary transaction: the signature
    operations, the value and the spends so far. *)
Definition check_inputs (tx : CTransaction) (nSigOps nValueIn : Z) (spends : list (CoinSpend * list Z))
    : Step (Z * Z * list (CoinSpend * list Z)) :=
  if HasZerocoinSpendInputs tx then
    let again := match IsTransactionInChain env (GetHash tx) with
                 | Some nHeightTx => negb (fVerifyingBlocks env) || (nHeight >? nHeightTx)
                 | None => false
                 end in
    if again then dos 100 REJECT_INVALID "bad-txns-inputs-missingorspent"
    else
      r <- parse_spends tx nHeight hashBlock (vin tx) nValueIn spends;;;
      ret (nSigOps, fst r, snd r)
  else if negb (IsCoinBase tx) then
    have <- read (fun c => HaveInputs c tx);;;
    if negb have then dos 100 REJECT_INVALID "bad-txns-inputs-missingorspent"
    else
      met <- read (fun c => HaveShieldedRequirements c tx);;;
      if negb met then dos 100 REJECT_INVALID "bad-txns-sapling-requirements-not-met"
      else
        (* the coins are in the cache since [HaveInputs], reading them again changes nothing *)
        n <- (fun st c => n <- GetP2SHSigOpCount (fun o => coin_out (fst (AccessCoin c o))) tx;; Some (Some n, st, c));;;
        let nSigOps := u32 (nSigOps + n) in
        if too_many_sigops nSigOps then dos 100 REJECT_INVALID "bad-blk-sigops"
        else ret (nSigOps, nValueIn, spends)
  else ret (nSigOps, nValueIn, spends).

Definition GetValueIn_step (tx : CTransaction) : Step Z := fun st c =>
  r <- GetValueIn tx c;; Some (Some (fst r), st, snd r).
(** The fees, the value and the checks of a transaction that is not a coinbase. *)
Definition spend_checks (tx : CTransaction) (nFees nValueIn : Z) : Step (Z * Z * list CScriptCheck) :=
  if IsCoinBase tx then ret (nFees, nValueIn, [])
  else
    nFees <- (if IsCoinStake tx then ret nFees
              else
                v <- GetValueIn_step tx;;;
                o <- lift (GetValueOut tx);;;
                ret (i64 (nFees + i64 (v - o))));;;
    v <- GetValueIn_step tx;;;
    fun st c =>
      r <- CheckInputs consensus (fun h => blockIndexHeight node h) tx fScriptChecks script_flags (Precomputed tx)
             (nScriptCheckThreads env) st c;;
      let '(ok, checks, st, c) := r in
      Some (if ok : bool then Some (nFees, i64 (nValueIn + v), checks) else None, st, c).

(** One iteration; [first] is the coinbase, whose undo record is dropped. *)
Definition connect_tx (first : bool) (tx : CTransaction) (a : Acc) : Step Acc :=
  n <- lift (GetLegacySigOpCount tx);;;
  let nSigOps := u32 (nSigOps a + n) in
  if too_many_sigops nSigOps then dos 100 REJECT_INVALID "bad-blk-sigops"
  else
    _ <- check_kind tx;;;
    mints <- (if HasZerocoinMintOutputs tx then
                if NetworkUpgradeActive consensus nHeight UPGRADE_ZC_PUBLIC then dos 100 0 EmptyString
                else parse_mints (GetHash tx) (vout tx) (vMints a)
              else ret (vMints a));;;
    r <- check_inputs tx nSigOps (nValueIn a) (vSpends a);;;
    let '(nSigOps, nValueIn, spends) := r in
    r <- spend_checks tx (nFees a) nValueIn;;;
    let '(nFees, nValueIn, checks) := r in
    o <- lift (GetValueOut tx);;;
    fun st c =>
      u <- UpdateCoins ContainsOutPoint tx c nHeight (SkipInvalidUTXOS nHeight);;
      t <- update_tree tx (sapling_tree a);;
      Some (Some (mkAcc nFees nSigOps (i64 (nValueOut a + o)) nValueIn spends mints
                    (if first then vtxundo a else vtxundo a ++ [fst u]) t (vChecks a ++ checks)
                    (vPos a ++ [(GetHash tx, nTxOffset a)]) (u32 (nTxOffset a + Z.of_nat (length (SerializeTransaction tx))))),
            st, snd u).
Fixpoint connect_loop (first : bool) (txs : list CTransaction) (a : Acc) : Step Acc :=
  match txs with
  | [] => ret a
  | tx :: txs => a <- connect_tx first tx a;;; connect_loop false txs a
  end.
End Loop.

(** The queued checks until one fails; [None] is a thrown exception. *)
Fixpoint run_queue (checks : list CScriptCheck) : option bool :=
  match checks with
  | [] => Some true
  | k :: checks =>
      match run_check k with
      | Abort => None
      | Ok _ => run_queue checks
      | Err _ => Some false
      end
  end.

(** * The block *)

Definition connect_new (block : CBlock) (pindex : BlockIndexEntry) (fJustCheck : bool) : Step (list (list Coin)) :=
  let hashBlock := CBlockHeader_GetHash (header block) in
  let nHeight := bi_nHeight pindex in
  let isPoSActive := NetworkUpgradeActive consensus nHeight UPGRADE_POS in
  if negb isPoSActive && IsProofOfStake block then dos 100 REJECT_INVALID "PoS-early"
  else if isPoSActive && IsProofOfWork block then dos 100 REJECT_INVALID "PoW-ended"
  else if match nChainSaplingValue pindex with Some v => v <? 0 | None => false end
  then dos 100 REJECT_INVALID "turnstile-violation-sapling-shielded-pool"
  else
    let fScriptChecks := nHeight >=? totalBlocksEstimate env in
    let fCLTVIsActivated :=
      match bi_pprev pindex with
      | Some p => fScriptChecks && NetworkUpgradeActive consensus (snd p) UPGRADE_BIP65
      | None => false
      end in
    rt <- read cache_GetBestAnchor;;;
    t <- read (fun c => cache_GetSaplingAnchorAt c rt);;;
    tree <- lift t;;;
    let isV5UpgradeEnforced := NetworkUpgradeActive consensus nHeight UPGRADE_V5_0 in
    let fZerocoinMaintenance := blk_nTime (header block) >? sporkValue env SPORK_16_ZEROCOIN_MAINTENANCE_MODE in
    let fSaplingMaintenance := blk_nTime (header block) >? sporkValue env SPORK_20_SAPLING_MAINTENANCE in
    a <- connect_loop hashBlock nHeight fScriptChecks fCLTVIsActivated (initialBlockDownload node) fZerocoinMaintenance fSaplingMaintenance
           isV5UpgradeEnforced true (vtx block)
           (mkAcc 0 0 0 0 [] [] [] tree [] [] (GetSizeOfCompactSize (Z.of_nat (length (vtx block)))));;;
    _ <- write (fun c => PushAnchor c (sapling_tree a));;;
    if isV5UpgradeEnforced && negb (list_eqb (hashFinalSaplingRoot (header block)) (tree_root (sapling_tree a)))
    then dos 100 REJECT_INVALID "bad-sapling-root-in-block"
    else
      let nMint := i64 (i64 (nValueOut a - nValueIn a) + nFees a) in
      let nExpectedMint := GetBlockValue (network chain) nHeight in
      let nExpectedMint := if IsProofOfWork block then i64 (nExpectedMint + nFees a) else nExpectedMint in
      if negb (fst (IsBlockValueValid (network chain) consensus (sporkActive node) (mnBudget node) (mnSynced node) nHeight nExpectedMint nMint))
      then dos 100 REJECT_INVALID "bad-cb-amount"
      else
        ok <- lift (run_queue (vChecks a));;;
        if negb ok then dos 100 REJECT_INVALID "block-validation-failed"
        else if fJustCheck then ret (vtxundo a)
        else
          _ <- run_checked (WriteUndo env (vtxundo a));;;
          _ <- or_abort_node (empty (vSpends a) || WriteCoinSpendBatch env (vSpends a)) "Failed to record coin serials to database";;;
          _ <- or_abort_node (empty (vMints a) || WriteCoinMintBatch env (vMints a)) "Failed to record new mints to database";;;
          _ <- or_abort_node (negb (fTxIndex env) || WriteTxIndex env (vPos a)) "Failed to write transaction index";;;
          _ <- write (fun c => SetBestBlock c hashBlock);;;
          ret (vtxundo a).

(** The undo records of the block, or [None] when it is not connected. *)
Definition ConnectBlock (block : CBlock) (pindex : BlockIndexEntry) (fJustCheck : bool) : Step (list (list Coin)) := fun st c =>
  r <- CheckBlock chain zc zerocoin_pubkey node block (negb fJustCheck) (negb fJustCheck) (negb fJustCheck) st;;
  let '(ok, st, _, _) := r in
  if negb ok then
    Some (None, if corruptionPossible st then snd (state_Error "Corrupt block found indicating potential hardware failure; shutting down" st) else st, c)
  else
    let hashPrevBlock := match bi_pprev pindex with Some p => fst p | None => repeat 0 32 end in
    let '(best, c) := cache_GetBestBlock c in
    if negb (list_eqb hashPrevBlock best) then None
    else if list_eqb (CBlockHeader_GetHash (header block)) (hashGenesisBlock chain)
    then Some (Some [], st, if fJustCheck then c else SetBestBlock c (CBlockHeader_GetHash (header block)))
    else connect_new block pindex fJustCheck st c.
End ConnectBlock.
