(* ===== verification/ConnectTheorems.v ===== *)
(** What an accepted block does to the ledger: the money it creates, the scripts it
    has passed, and how it is undone (src/validation.cpp). *)
From Stdlib Require Import ZArith Lia String List Bool.
From stdpp Require Import base gmap list.
From S2P Require Import Prelude Uint256 Consensus Pow Serialize Script Interpreter Codecs Transaction TxVerify SigHash Compressor Coins Ledger Connect Inputs Merkle Standard Block Payments BlockCheck ConnectBlock.
Import ListNotations.
Local Open Scope Z_scope.
Local Open Scope passion_scope.

(** * The money of a ledger *)

(** The unspent coins as a finite map, and what they are worth. *)
Definition holds (l : Ledger) (m : gmap COutPoint Coin) : Prop := forall o, l_utxo l o = m !! o.
Definition worth (u : Coin) : Z := nValue (coin_out u).
Definition money (m : gmap COutPoint Coin) : Z := map_fold (fun _ u acc => worth u + acc) 0 m.
(** The outputs that never become coins. *)
Definition burned (outs : list CTxOut) : list CTxOut :=
  List.filter (fun x => IsUnspendable (scriptPubKey x) || CTxOut_IsZerocoinMint x) outs.

Lemma money_insert m o u : m !! o = None -> money (<[o := u]> m) = worth u + money m.
Proof. intros H. unfold money. rewrite map_fold_insert_L; [done|intros; lia|done]. Qed.
Lemma money_delete m o u : m !! o = Some u -> money (delete o m) = money m - worth u.
Proof. intros H. rewrite <- (insert_delete_id m o u H) at 2. rewrite money_insert by apply lookup_delete_eq. lia. Qed.

(** Removing inputs. *)
Definition without (ins : list CTxIn) (m : gmap COutPoint Coin) : gmap COutPoint Coin :=
  foldr (fun i m => delete (prevout i) m) m ins.
Lemma without_lookup ins m o : without ins m !! o = if in_prevouts ins o then None else m !! o.
Proof.
  induction ins as [|i ins IH]; [done|]. cbn. case_bool_decide as E; cbn.
  - subst. by rewrite lookup_delete_eq.
  - rewrite lookup_delete_ne by done. exact IH.
Qed.
Lemma without_money l m ins : holds l m -> NoDup (map prevout ins) -> available l ins ->
  money (without ins m) = money m - total_in l ins.
Proof.
  intros Hh. induction ins as [|i ins IH]; intros HN HF; [cbn; lia|].
  apply NoDup_cons in HN as [Hni HN]. apply Forall_cons in HF as [[u Hu] HF].
  change (total_in l (i :: ins)) with (coin_value l i + total_in l ins). unfold coin_value. rewrite Hu. cbn [without foldr].
  rewrite (money_delete _ _ u); [fold (without ins m); rewrite IH by done; unfold worth; lia|].
  fold (without ins m). rewrite without_lookup, in_prevouts_false by done. by rewrite <- Hh.
Qed.

(** Adding outputs. *)
Fixpoint with_outs (txid : list Z) (i : Z) (outs : list CTxOut) (mk : CTxOut -> Coin) (m : gmap COutPoint Coin) : gmap COutPoint Coin :=
  match outs with
  | [] => m
  | x :: outs =>
      let m := with_outs txid (i + 1) outs mk m in
      if skipped (mk x) then m else <[mkOutPoint txid (u32 i) := mk x]> m
  end.
Lemma with_outs_lookup txid mk m outs : forall i o,
  0 <= i -> i + Z.of_nat (length outs) <= 2 ^ 32 ->
  (forall o u, out_coin txid i outs mk o = Some u -> m !! o = None) ->
  with_outs txid i outs mk m !! o = match out_coin txid i outs mk o with Some u => Some u | None => m !! o end.
Proof.
  induction outs as [|x outs IH]; intros i o Hi Hl Hnew; [done|]. cbn [with_outs out_coin length] in *.
  assert (Hnext : forall o u, out_coin txid (i + 1) outs mk o = Some u -> m !! o = None).
  { intros o' u' Ho'. apply (Hnew o' u'). case_decide as E; [|done]. subst o'.
    rewrite out_coin_earlier in Ho' by lia. done. }
  assert (He : out_coin txid (i + 1) outs mk (mkOutPoint txid (u32 i)) = None) by (apply out_coin_earlier; lia).
  destruct (skipped (mk x)) eqn:Es.
  - rewrite IH by (done || lia). case_decide; [subst o; by rewrite He|done].
  - case_decide; [subst o; by rewrite lookup_insert_eq|]. rewrite lookup_insert_ne by done. apply IH; done || lia.
Qed.
Lemma with_outs_money txid cb cs h m outs : forall i,
  let mk x := mkCoin cb cs x h in
  0 <= i -> i + Z.of_nat (length outs) <= 2 ^ 32 ->
  (forall o u, out_coin txid i outs mk o = Some u -> m !! o = None) ->
  money (with_outs txid i outs mk m) + total (burned outs) = money m + total outs.
Proof.
  intros i mk. revert i. induction outs as [|x outs IH]; intros i Hi Hl Hnew; [done|]. cbn [length] in Hl.
  assert (He : out_coin txid (i + 1) outs mk (mkOutPoint txid (u32 i)) = None) by (apply out_coin_earlier; lia).
  assert (Hnext : forall o u, out_coin txid (i + 1) outs mk o = Some u -> m !! o = None).
  { intros o' u' Ho'. apply (Hnew o' u'). cbn [out_coin]. case_decide as E; [|done]. subst o'. by rewrite He in Ho'. }
  specialize (IH (i + 1) ltac:(lia) ltac:(lia) Hnext). cbn [with_outs burned List.filter].
  change (total (x :: outs)) with (nValue x + total outs).
  assert (Hs : skipped (mk x) = IsUnspendable (scriptPubKey x) || CTxOut_IsZerocoinMint x) by done. rewrite <- Hs.
  destruct (skipped (mk x)) eqn:Es.
  - change (total (x :: ?l)) with (nValue x + total l). fold (burned outs). lia.
  - fold (burned outs). rewrite money_insert; [unfold worth; cbn [mk coin_out]; lia|].
    rewrite with_outs_lookup by (done || lia). rewrite He. apply (Hnew _ (mk x)). cbn [out_coin]. by rewrite decide_True, Es.
Qed.

Section Transactions.
Context `{STL : SaplingTreeLib} {abi : Abi} {crypto : ScriptCrypto}.
Variables (ContainsOutPoint : COutPoint -> bool) (fSkipInvalid : bool) (nHeight : Z).
Abbreviation connect := (ledger_connect nHeight).

(** What a transaction takes out of the ledger. *)
Definition taken (l : Ledger) (tx : CTransaction) : Z := if no_coin_inputs tx then 0 else total_in l (vin tx).

(** A connected transaction moves money: what it takes, minus what it burns, is
    there again with what it adds. *)
Lemma connect_money l m tx : holds l m -> connectable ContainsOutPoint fSkipInvalid nHeight l tx ->
  exists m', holds (connect l tx) m' /\ money m' + total (burned (vout tx)) + taken l tx = money m + total (vout tx).
Proof.
  intros Hh [HN HI HO _ Hfew _ _]. unfold taken.
  set (m1 := if no_coin_inputs tx then m else without (vin tx) m).
  assert (H1 : forall o, m1 !! o = if negb (no_coin_inputs tx) && in_prevouts (vin tx) o then None else l_utxo l o).
  { intros o. unfold m1. destruct (no_coin_inputs tx); cbn [negb andb]; [done|]. by rewrite without_lookup, <- Hh. }
  assert (Hm1 : money m1 = money m - (if no_coin_inputs tx then 0 else total_in l (vin tx))).
  { unfold m1. destruct (no_coin_inputs tx); [lia|]. apply without_money; [done|by apply HN|].
    eapply Forall_impl; [by apply HI|]. intros i (u & Hu & _). by exists u. }
  set (mk := fun x => mkCoin (IsCoinBase tx) (IsCoinStake tx) x (u32 nHeight)).
  assert (Hnew : forall o u, out_coin (GetHash tx) 0 (vout tx) mk o = Some u -> m1 !! o = None).
  { intros o u Ho. rewrite H1, (HO o u Ho). by destruct (_ && _). }
  exists (with_outs (GetHash tx) 0 (vout tx) mk m1). split.
  - intros o. cbn [ledger_connect l_utxo]. rewrite with_outs_lookup by (done || lia). by rewrite H1.
  - pose proof (with_outs_money (GetHash tx) (IsCoinBase tx) (IsCoinStake tx) (u32 nHeight) m1 (vout tx) 0 ltac:(lia) ltac:(lia) Hnew) as E.
    cbv zeta in E. fold mk in E. lia.
Qed.
End Transactions.

(** * 64-bit sums

    The sums over a block may wrap; they are exact modulo [2 ^ 64]. *)

Definition eq64 (x y : Z) : Prop := x mod 2 ^ 64 = y mod 2 ^ 64.
Infix "=64=" := eq64 (at level 70).
#[export] Instance eq64_equiv : Equivalence eq64.
Proof. split; unfold eq64; congruence. Qed.
#[export] Instance eq64_add : Proper (eq64 ==> eq64 ==> eq64) Z.add.
Proof. intros x x' Hx y y' Hy. unfold eq64 in *. by rewrite Z.add_mod, Hx, Hy, <- Z.add_mod by lia. Qed.
#[export] Instance eq64_sub : Proper (eq64 ==> eq64 ==> eq64) Z.sub.
Proof. intros x x' Hx y y' Hy. unfold eq64 in *. by rewrite Zminus_mod, Hx, Hy, <- Zminus_mod. Qed.
Lemma eq64_i64 x : i64 x =64= x.
Proof.
  unfold eq64, i64, signed. cbv zeta. destruct (_ <? _); [by rewrite Zmod_mod|].
  by rewrite Zminus_mod, Z_mod_same_full, Z.sub_0_r, !Zmod_mod.
Qed.
Lemma i64_exact x y : x =64= y -> - 2 ^ 63 <= y < 2 ^ 63 -> i64 x = y.
Proof. intros E Hy. rewrite <- (i64_small y Hy). unfold i64, signed. by rewrite E. Qed.

(** * Steps that go on *)

Section Steps.
Context `{STL : SaplingTreeLib} {V : Type}.
Lemma sbind_go {A B} (m : Step (V := V) A) (k : A -> Step B) st c b st' c' : sbind m k st c = Some (Some b, st', c') ->
  exists a st1 c1, m st c = Some (Some a, st1, c1) /\ k a st1 c1 = Some (Some b, st', c').
Proof. unfold sbind. intros H. destruct (m st c) as [[[[a|] st1] c1]|]; try done. by exists a, st1, c1. Qed.
Lemma dos_go {A} level code reason st c (b : A) st' c' : dos (V := V) level code reason st c = Some (Some b, st', c') -> False.
Proof. done. Qed.
Lemma ret_go {A} (a b : A) st c st' c' : ret (V := V) a st c = Some (Some b, st', c') -> b = a /\ st' = st /\ c' = c.
Proof. by intros [= <- <- <-]. Qed.
Lemma lift_go {A} (o : option A) st c b st' c' : lift (V := V) o st c = Some (Some b, st', c') -> o = Some b /\ st' = st /\ c' = c.
Proof. unfold lift. destruct o; cbn; [|done]. by intros [= <- <- <-]. Qed.
Lemma read_go {A} (f : CCoinsViewCache V -> A * CCoinsViewCache V) st c b st' c' : read f st c = Some (Some b, st', c') -> f c = (b, c') /\ st' = st.
Proof. unfold read. destruct (f c). by intros [= <- <- <-]. Qed.
End Steps.
(** Take an accepted step apart. *)
Ltac go H :=
  repeat first
    [ apply dos_go in H; contradiction
    | match type of H with sbind _ _ _ _ = _ =>
        let a := fresh "r" in let s := fresh "s" in let c := fresh "k" in let G := fresh "G" in
        apply sbind_go in H as (a & s & c & G & H) end ].

(** * An accepted transaction *)

(** What [CheckBlock] and the format say of a transaction without zerocoins. *)
Record tx_checked (max : Z) (tx : CTransaction) : Prop := {
  chk_values : Forall (fun o => 0 <= nValue o) (vout tx);
  chk_out : GetValueOut tx = Some (total (vout tx) + shielded_out tx);
  chk_out_range : 0 <= total (vout tx) + shielded_out tx <= max;
  chk_in : GetShieldedValueIn tx = Some (shielded_in tx);
  chk_in_range : 0 <= shielded_in tx <= max;
  chk_few : Z.of_nat (length (vout tx)) <= 2 ^ 32;
  chk_distinct : NoDup (map prevout (vin tx));
  chk_version : hasSaplingData tx = true -> isSaplingVersion tx = true;
  chk_zerocoin : ContainsZerocoins tx = false;
  chk_coinbase : IsCoinBase tx = true -> forall n, in_sapData tx n = false
}.
Definition value_out (tx : CTransaction) : Z := total (vout tx) + shielded_out tx.
Definition value_in (l : Ledger) (tx : CTransaction) : Z := if IsCoinBase tx then 0 else total_in l (vin tx) + shielded_in tx.
(** The fee of an ordinary transaction. *)
Definition fee (l : Ledger) (tx : CTransaction) : Z :=
  if IsCoinBase tx || IsCoinStake tx then 0 else value_in l tx - value_out tx.

(** The coins of a ledger can all be restored. *)
Definition coins_restorable (l : Ledger) : Prop := forall o u, l_utxo l o = Some u -> restorable u.
Definition fresh_outputs {abi : Abi} {crypto : ScriptCrypto} (nHeight : Z) (l : Ledger) (tx : CTransaction) : Prop := forall o u, tx_outs nHeight tx o = Some u -> l_utxo l o = None.

Lemma no_zerocoins tx : ContainsZerocoins tx = false ->
  HasZerocoinSpendInputs tx = false /\ HasZerocoinMintOutputs tx = false /\ no_coin_inputs tx = IsCoinBase tx.
Proof. unfold ContainsZerocoins, no_coin_inputs. intros [-> ->]%orb_false_iff. by rewrite orb_false_r. Qed.

Section Accepted.
Context `{STL : SaplingTreeLib} {V : Type} {view : CoinsView V} {babi : BlockAbi} `{SphLib} {crypto : ScriptCrypto} {sig : SigCrypto}.
Variables (chain : ChainParams) (zc : ZerocoinEnv) (zerocoin_pubkey : CTxIn -> option (list Z)) (node : NodeState) (env : ConnectEnv).
Variable ContainsOutPoint : COutPoint -> bool.
Variables (hashBlock : list Z) (nHeight : Z) (fScriptChecks fCLTVIsActivated : bool).
Variables (fInitialBlockDownload fZerocoinMaintenance fSaplingMaintenance isV5UpgradeEnforced : bool).
Abbreviation consensus := (chain_consensus chain).
Abbreviation max := (nMaxMoneyOut consensus).
Abbreviation flags := (script_flags fCLTVIsActivated).
Hypothesis max_range : 0 <= max < 2 ^ 61.
Hypothesis no_skip : SkipInvalidUTXOS chain nHeight = false.
Hypothesis height_known : u32 nHeight <> 0.
Implicit Types (l : Ledger) (tx : CTransaction).

Lemma check_kind_go tx st c u st' c' :
  check_kind fInitialBlockDownload fZerocoinMaintenance fSaplingMaintenance isV5UpgradeEnforced tx st c = Some (Some u, st', c') ->
  st' = st /\ c' = (c : CCoinsViewCache V).
Proof. unfold check_kind. intros E. repeat (case_match; go E); by apply ret_go in E as (_ & -> & ->). Qed.

Lemma value_in_loop_models ins : forall acc c l r c', models c l -> available l ins -> value_in_loop ins acc c = (r, c') ->
  models (V := V) c' l /\ r =64= acc + total_in l ins.
Proof.
  induction ins as [|i ins IH]; intros acc c l r c' Hm HF E; cbn [value_in_loop] in E.
  { injection E as <- <-. split; [done|]. cbn. by rewrite Z.add_0_r. }
  apply Forall_cons in HF as [[u Hu] HF]. destruct (AccessCoin c (prevout i)) as [k c1] eqn:Ea.
  destruct (AccessCoin_models _ _ _ _ _ Hm Ea) as (Hm1 & _ & Hr). rewrite Hu in Hr. symmetry in Hr. apply live_Some in Hr as [-> _].
  destruct (IH _ _ _ _ _ Hm1 HF E) as [Hm' Hv]. split; [done|]. rewrite Hv, eq64_i64.
  change (total_in l (i :: ins)) with (coin_value l i + total_in l ins). unfold coin_value. rewrite Hu, Z.add_assoc. done.
Qed.
Lemma GetValueIn_models tx c l r c' : tx_checked max tx -> models c l -> IsCoinBase tx = false -> available l (vin tx) ->
  GetValueIn (V := V) tx c = Some (r, c') -> models c' l /\ r =64= value_in l tx.
Proof.
  intros Hc Hm Hb HF E. unfold GetValueIn, value_in in *. rewrite Hb in *.
  destruct (no_zerocoins tx (chk_zerocoin _ _ Hc)) as (Hz & _ & _). rewrite Hz in E.
  destruct (value_in_loop (vin tx) 0 c) as [v c1] eqn:Ev. destruct (value_in_loop_models _ _ _ _ _ _ Hm HF Ev) as [Hm1 Hv].
  rewrite (chk_in _ _ Hc) in E. cbn [obind] in E. injection E as <- <-. split; [done|]. by rewrite eq64_i64, Hv.
Qed.

Lemma check_inputs_go tx n v spends st c r st' c' l : tx_checked max tx -> models c l ->
  check_inputs (V := V) chain zc env hashBlock nHeight tx n v spends st c = Some (Some r, st', c') ->
  st' = st /\ models c' l /\ r.1.2 = v /\ (IsCoinBase tx = false -> available l (vin tx) /\ requirements_met l tx = true).
Proof.
  intros Hc Hm E. destruct (no_zerocoins tx (chk_zerocoin _ _ Hc)) as (Hz & _ & Hno). unfold check_inputs in E. rewrite Hz in E.
  destruct (IsCoinBase tx) eqn:Eb; cbn [negb] in E.
  { apply ret_go in E as (-> & -> & ->). done. }
  go E. apply read_go in G as [G ->]. destruct (HaveInputs_models _ _ _ _ _ Hm G) as [Hm1 Hh].
  destruct r0; cbn [negb] in E; [|go E]. go E. apply read_go in G0 as [G0 ->].
  destruct (HaveShieldedRequirements_models _ _ _ _ _ Hm1 G0) as (Hm2 & _ & Hreq). destruct r0; cbn [negb] in E; [|go E].
  go E. assert (s = st /\ k1 = k0) as [-> ->].
  { destruct (GetP2SHSigOpCount _ _); cbn [obind] in G1; [|done]. by injection G1. }
  cbv zeta in E. destruct (too_many_sigops _); [go E|]. apply ret_go in E as (-> & -> & ->).
  split; [done|]. split; [done|]. split; [done|]. intros _. split; [|done]. apply (proj1 Hh); [done|]. by rewrite Hno.
Qed.

(** All that acceptance says of the inputs of a transaction. *)
Definition spends_ok (n : Z) l tx : Prop :=
  IsCoinBase tx = false ->
  tx_inputs_ok consensus l tx (n + 1) (shielded_in tx) (value_out tx) /\
  (fScriptChecks = true -> scripts_ok l tx flags (Precomputed tx) 0 (vin tx)).

Lemma spend_checks_go tx fees v st c r st' c' l n : tx_checked max tx -> models c l ->
  (IsCoinBase tx = false -> available l (vin tx)) -> blockIndexHeight node (l_best l) = Some n -> 0 <= n < 2 ^ 31 - 1 ->
  spend_checks (V := V) chain node env fScriptChecks fCLTVIsActivated tx fees v st c = Some (Some r, st', c') ->
  let '(fees', v', checks) := r in
  st' = st /\ models c' l /\ fees' =64= fees + fee l tx /\ v' =64= v + value_in l tx /\ (all_pass checks -> spends_ok n l tx).
Proof.
  intros Hc Hm Hav Hn Hnr E. destruct (no_zerocoins tx (chk_zerocoin _ _ Hc)) as (_ & _ & Hno).
  unfold spend_checks in E. unfold fee, value_in, spends_ok.
  destruct (IsCoinBase tx) eqn:Eb; cbn [orb].
  { apply ret_go in E as (-> & -> & ->). by rewrite !Z.add_0_r. }
  specialize (Hav eq_refl). go E.
  assert (Hfee : s = st /\ models k l /\ r0 =64= fees + (if IsCoinStake tx then 0 else value_in l tx - value_out tx)).
  { destruct (IsCoinStake tx); [apply ret_go in G as (-> & -> & ->); by rewrite Z.add_0_r|]. go G.
    unfold GetValueIn_step in G1. destruct (GetValueIn tx c) as [[x cx]|] eqn:Ex; [|done]. cbn in G1. injection G1 as <- <- <-.
    apply lift_go in G2 as (Eo & -> & ->). apply ret_go in G as (-> & -> & ->).
    destruct (GetValueIn_models _ _ _ _ _ Hc Hm Eb Hav Ex) as [Hm1 Hx]. split; [done|]. split; [done|].
    rewrite !eq64_i64, Hx. rewrite (chk_out _ _ Hc) in Eo. by injection Eo as <-. }
  destruct Hfee as (-> & Hm1 & Hfee).
  unfold GetValueIn_step in G0. destruct (GetValueIn tx k) as [[x cx]|] eqn:Ex; [|done]. cbn in G0. injection G0 as <- <- <-.
  destruct (GetValueIn_models _ _ _ _ _ Hc Hm1 Eb Hav Ex) as [Hm2 Hx].
  pose proof (CheckInputs_spec consensus (fun h => blockIndexHeight node h) tx fScriptChecks (nScriptCheckThreads env) flags (Precomputed tx)
    st cx l n (shielded_in tx) (value_out tx) Hm2 Hno ltac:(lia) (chk_in _ _ Hc) (chk_out _ _ Hc) (chk_in_range _ _ Hc) (chk_out_range _ _ Hc) Hn Hnr) as Hci.
  cbv zeta in Hci. destruct (CheckInputs _ _ _ _ _ _ _ _ _) as [[[[ok checks] st1] c1]|]; cbn [obind] in E; [|done].
  destruct ok; [|done]. injection E as <- <- <-. destruct Hci as (Hm3 & -> & Hin & Hiff).
  split; [done|]. split; [done|]. split; [|split].
  - rewrite Hfee. unfold value_in. by rewrite Eb.
  - rewrite eq64_i64, Hx. unfold value_in. by rewrite Eb.
  - intros Hp _. by split; [|apply Hiff].
Qed.

Lemma out_coin_Some txid outs mk o u : forall i, out_coin txid i outs mk o = Some u -> exists x, x ∈ outs /\ u = mk x /\ skipped u = false.
Proof.
  induction outs as [|x outs IH]; intros i E; [done|]. cbn [out_coin] in E. case_decide.
  - destruct (skipped (mk x)) eqn:Es; [done|]. injection E as <-. exists x. split; [left|done].
  - destruct (IH _ E) as (y & Hy & Hu). exists y. split; [by right|done].
Qed.
Lemma checked_not_null tx x : tx_checked max tx -> x ∈ vout tx -> CTxOut_IsNull x = false.
Proof.
  intros Hc Hx. pose proof (chk_values _ _ Hc) as HF. rewrite Forall_forall in HF. specialize (HF x Hx).
  unfold CTxOut_IsNull. lia.
Qed.
Lemma connect_restorable l tx : tx_checked max tx -> coins_restorable l -> coins_restorable (ledger_connect nHeight l tx).
Proof.
  intros Hc Hl o u. cbn [ledger_connect l_utxo]. unfold tx_outs.
  destruct (out_coin _ _ _ _ o) as [w|] eqn:Ew.
  - intros [= <-]. apply out_coin_Some in Ew as (x & Hx & -> & Hs). split; [by apply (checked_not_null tx)|]. by split.
  - destruct (_ && _); [done|]. apply Hl.
Qed.
(** The shielded requirements make the nullifiers new. *)
Lemma requirements_fresh l tx n : tx_checked max tx -> requirements_met l tx = true -> in_sapData tx n = true -> l_spent l n = false.
Proof.
  intros Hc Hr Hn. unfold in_sapData, requirements_met, IsShieldedTx in *. pose proof (chk_version _ _ Hc) as Hv.
  assert (Hs : hasSaplingData tx = true).
  { unfold hasSaplingData. destruct (sapData tx) as [d|]; [|done]. destruct (vShieldedSpend d); [done|].
    cbn. by rewrite orb_true_r. }
  rewrite Hs, (Hv Hs) in Hr. cbn [andb] in Hr. destruct (sapData tx) as [d|]; [|done].
  apply existsb_exists in Hn as (e & He & Ee). apply bool_decide_eq_true in Ee. subst n.
  rewrite forallb_forall in Hr. specialize (Hr e He). apply andb_true_iff in Hr as [Hr _]. by apply negb_true_iff.
Qed.
Lemma accepted_connectable l tx : tx_checked max tx -> coins_restorable l -> fresh_outputs nHeight l tx ->
  (IsCoinBase tx = false -> available l (vin tx) /\ requirements_met l tx = true) ->
  connectable ContainsOutPoint false nHeight l tx.
Proof.
  intros Hc Hl Hf Hi. destruct (no_zerocoins tx (chk_zerocoin _ _ Hc)) as (_ & _ & Hno). split; rewrite ?Hno.
  - intros _. apply (chk_distinct _ _ Hc).
  - intros Hb. destruct (Hi Hb) as [Ha _]. eapply Forall_impl; [exact Ha|]. intros i [u Hu]. exists u. split; [done|by apply (Hl (prevout i))].
  - exact Hf.
  - apply Forall_forall. intros x Hx. by apply (checked_not_null tx).
  - apply (chk_few _ _ Hc).
  - done.
  - intros n Hn. destruct (IsCoinBase tx) eqn:Eb; [by rewrite (chk_coinbase _ _ Hc Eb) in Hn|]. split; [done|].
    by apply (requirements_fresh l tx n Hc); [apply Hi|].
Qed.

Abbreviation connect_tx' := (connect_tx (V := V) chain zc node env ContainsOutPoint hashBlock nHeight fScriptChecks fCLTVIsActivated
  fInitialBlockDownload fZerocoinMaintenance fSaplingMaintenance isV5UpgradeEnforced).
Abbreviation connect_loop' := (connect_loop (V := V) chain zc node env ContainsOutPoint hashBlock nHeight fScriptChecks fCLTVIsActivated
  fInitialBlockDownload fZerocoinMaintenance fSaplingMaintenance isV5UpgradeEnforced).

Record tx_accepted (n : Z) l tx (first : bool) (a a' : Acc) : Prop := {
  acc_connectable : connectable ContainsOutPoint false nHeight l tx;
  acc_undo : exists us, undo_ok l tx us /\ vtxundo a' = if first then vtxundo a else vtxundo a ++ [us];
  acc_tree : update_tree tx (sapling_tree a) = Some (sapling_tree a');
  acc_checks : exists checks, vChecks a' = vChecks a ++ checks /\ (all_pass checks -> spends_ok n l tx);
  acc_fees : nFees a' =64= nFees a + fee l tx;
  acc_in : nValueIn a' =64= nValueIn a + value_in l tx;
  acc_out : nValueOut a' =64= nValueOut a + value_out tx
}.

Lemma connect_tx_go first tx a st c a' st' c' l n : tx_checked max tx -> models c l -> coins_restorable l -> fresh_outputs nHeight l tx ->
  blockIndexHeight node (l_best l) = Some n -> 0 <= n < 2 ^ 31 - 1 ->
  connect_tx' first tx a st c = Some (Some a', st', c') ->
  st' = st /\ models c' (ledger_connect nHeight l tx) /\ tx_accepted n l tx first a a'.
Proof.
  intros Hc Hm Hl Hf Hn Hnr E. unfold connect_tx in E. go E. apply lift_go in G as (_ & -> & ->). cbv zeta in E.
  destruct (too_many_sigops _); [go E|]. go E. apply check_kind_go in G as [-> ->].
  destruct (no_zerocoins tx (chk_zerocoin _ _ Hc)) as (_ & Hmint & _). rewrite Hmint in G0. apply ret_go in G0 as (-> & -> & ->).
  destruct (check_inputs_go _ _ _ _ _ _ _ _ _ _ Hc Hm G1) as (-> & Hm1 & Hv & Hi). destruct r2 as [[ops v] spends]. cbn in Hv. subst v.
  go E.
  assert (Hav : IsCoinBase tx = false -> available l (vin tx)) by (intros Hb; by apply Hi).
  pose proof (spend_checks_go _ _ _ _ _ _ _ _ _ _ Hc Hm1 Hav Hn Hnr G) as Hs. destruct r1 as [[fees v] checks].
  destruct Hs as (-> & Hm2 & Hfee & Hval & Hck). apply sbind_go in E as (o & sx & kx & Gx & E). apply lift_go in Gx as (Eo & -> & ->).
  rewrite (chk_out _ _ Hc) in Eo. injection Eo as <-. rewrite no_skip in E.
  pose proof (accepted_connectable l tx Hc Hl Hf Hi) as Hcon.
  destruct (UpdateCoins_models ContainsOutPoint false nHeight _ l tx Hm2 Hcon) as (us & c2 & Hu & Hus & Hm3). rewrite Hu in E. cbn [obind] in E.
  destruct (update_tree tx (sapling_tree a)) as [t|] eqn:Et; [|done]. cbn [obind fst snd] in E. injection E as <- <- <-.
  split; [done|]. split; [done|]. split; cbn; try done.
  - by exists us.
  - by exists checks.
  - by rewrite eq64_i64.
Qed.

(** ** All transactions of a block *)

(** A property, or a sum, over the transactions, each at the ledger it meets. *)
Fixpoint along (P : Ledger -> CTransaction -> Prop) l (txs : list CTransaction) : Prop :=
  match txs with
  | [] => True
  | tx :: txs => P l tx /\ along P (ledger_connect nHeight l tx) txs
  end.
Fixpoint block_sum (f : Ledger -> CTransaction -> Z) l (txs : list CTransaction) : Z :=
  match txs with
  | [] => 0
  | tx :: txs => f l tx + block_sum f (ledger_connect nHeight l tx) txs
  end.
(** No coin of the ledger has one of the transaction ids, which are distinct. *)
Definition fresh_txids l (txs : list CTransaction) : Prop :=
  NoDup (map GetHash txs) /\ forall o, out_hash o ∈ map GetHash txs -> l_utxo l o = None.

Lemma out_coin_hash txid outs mk o u : forall i, out_coin txid i outs mk o = Some u -> out_hash o = txid.
Proof. induction outs as [|x outs IH]; intros i E; [done|]. cbn [out_coin] in E. case_decide; [by subst|by eapply IH]. Qed.
Lemma fresh_head l tx txs : fresh_txids l (tx :: txs) -> fresh_outputs nHeight l tx.
Proof. intros [_ Hf] o u Ho. apply out_coin_hash in Ho. apply Hf. rewrite Ho. left. Qed.
Lemma fresh_tail l tx txs : fresh_txids l (tx :: txs) -> fresh_txids (ledger_connect nHeight l tx) txs.
Proof.
  intros [HN Hf]. cbn in HN. apply NoDup_cons in HN as [Hn HN]. split; [done|]. intros o Ho. cbn [ledger_connect l_utxo].
  destruct (tx_outs nHeight tx o) as [u|] eqn:Eo.
  - apply out_coin_hash in Eo. rewrite Eo in Ho. done.
  - destruct (_ && _); [done|]. apply Hf. by right.
Qed.

Record loop_accepted (n : Z) l (txs : list CTransaction) (first : bool) (a a' : Acc) : Prop := {
  all_accepted : all_connectable ContainsOutPoint false nHeight l txs;
  all_undo : exists uss, undos_ok nHeight l txs uss /\ vtxundo a' = vtxundo a ++ (if first then tl uss else uss);
  all_tree : update_trees txs (sapling_tree a) = Some (sapling_tree a');
  all_checks : exists checks, vChecks a' = vChecks a ++ checks /\ (all_pass checks -> along (spends_ok n) l txs);
  all_fees : nFees a' =64= nFees a + block_sum fee l txs;
  all_in : nValueIn a' =64= nValueIn a + block_sum value_in l txs;
  all_out : nValueOut a' =64= nValueOut a + block_sum (fun _ => value_out) l txs
}.

Lemma connect_loop_go txs : forall first a st c a' st' c' l n, Forall (tx_checked max) txs -> models c l -> coins_restorable l -> fresh_txids l txs ->
  blockIndexHeight node (l_best l) = Some n -> 0 <= n < 2 ^ 31 - 1 ->
  connect_loop' first txs a st c = Some (Some a', st', c') ->
  st' = st /\ models c' (ledger_block nHeight l txs) /\ loop_accepted n l txs first a a'.
Proof.
  induction txs as [|tx txs IH]; intros first a st c a' st' c' l n HF Hm Hl Hf Hn Hnr E.
  { apply ret_go in E as (-> & -> & ->). split; [done|]. split; [done|]. split; cbn; try done; try by rewrite Z.add_0_r.
    - exists []. split; [done|]. destruct first; by rewrite app_nil_r.
    - exists []. by rewrite app_nil_r. }
  apply Forall_cons in HF as [Hc HF]. cbn [connect_loop] in E. apply sbind_go in E as (a1 & s1 & c1 & G & E).
  destruct (connect_tx_go _ _ _ _ _ _ _ _ _ _ Hc Hm Hl (fresh_head _ _ _ Hf) Hn Hnr G) as (-> & Hm1 & T).
  destruct (IH _ _ _ _ _ _ _ _ n HF Hm1 (connect_restorable _ _ Hc Hl) (fresh_tail _ _ _ Hf) Hn Hnr E) as (-> & Hm2 & L).
  destruct T as [T1 (us & T2 & T2') T3 (ks & T4 & T4') T5 T6 T7], L as [L1 (uss & L2 & L2') L3 (kss & L4 & L4') L5 L6 L7].
  split; [done|]. split; [done|]. split.
  - by split.
  - exists (us :: uss). split; [by split|]. rewrite L2', T2'. destruct first; cbn [tl]; [done|]. by rewrite <- app_assoc.
  - cbn [update_trees]. rewrite T3. cbn [obind]. done.
  - exists (ks ++ kss). rewrite L4, T4, <- app_assoc. split; [done|]. unfold all_pass. rewrite Forall_app. intros [H1 H2].
    split; [by apply T4'|by apply L4'].
  - rewrite L5, T5. cbn [block_sum]. by rewrite Z.add_assoc.
  - rewrite L6, T6. cbn [block_sum]. by rewrite Z.add_assoc.
  - rewrite L7, T7. cbn [block_sum]. by rewrite Z.add_assoc.
Qed.

(** ** The money *)

Definition minted l tx : Z := if IsCoinBase tx || IsCoinStake tx then value_out tx - value_in l tx else 0.
Definition balance_of tx : Z := match sapData tx with Some d => valueBalance d | None => 0 end.

Lemma mint_sum l txs : block_sum (fun _ => value_out) l txs - block_sum value_in l txs + block_sum fee l txs = block_sum minted l txs.
Proof.
  revert l. induction txs as [|tx txs IH]; intros l; [done|]. cbn [block_sum]. specialize (IH (ledger_connect nHeight l tx)).
  unfold minted at 1, fee at 1. destruct (_ || _); lia.
Qed.

Lemma flow_bound l tx : tx_checked max tx -> total (vout tx) - taken l tx <= minted l tx - fee l tx + balance_of tx.
Proof.
  intros Hc. destruct (no_zerocoins tx (chk_zerocoin _ _ Hc)) as (_ & _ & Hno).
  unfold taken, minted, fee, value_in, value_out, balance_of, shielded_out, shielded_in. rewrite Hno.
  destruct (IsCoinBase tx), (IsCoinStake tx), (sapData tx); cbn [orb]; lia.
Qed.
Lemma block_money l m txs : Forall (tx_checked max) txs -> holds l m -> all_connectable ContainsOutPoint false nHeight l txs ->
  exists m', holds (ledger_block nHeight l txs) m' /\
    money m' + block_sum (fun _ tx => total (burned (vout tx))) l txs + block_sum fee l txs <=
    money m + block_sum (fun _ => balance_of) l txs + block_sum minted l txs.
Proof.
  revert l m. induction txs as [|tx txs IH]; intros l m HF Hh Hc; [exists m; split; [done|cbn; lia]|].
  apply Forall_cons in HF as [Htx HF]. destruct Hc as [Hc Hcs].
  destruct (connect_money _ _ _ l m tx Hh Hc) as (m1 & Hh1 & E1). destruct (IH _ m1 HF Hh1 Hcs) as (m' & Hh' & E').
  exists m'. split; [done|]. cbn [block_sum]. pose proof (flow_bound l tx Htx). lia.
Qed.

Lemma fees_nonneg n txs : forall l, along (spends_ok n) l txs -> 0 <= block_sum fee l txs.
Proof.
  induction txs as [|tx txs IH]; intros l [Hs HF] || intros l _; cbn [block_sum]; [lia|]. specialize (IH _ HF).
  enough (0 <= fee l tx) by lia. unfold fee, value_in. destruct (IsCoinBase tx) eqn:Eb; [done|]. cbn [orb].
  destruct (IsCoinStake tx) eqn:Es; [done|]. destruct (proj1 (Hs Eb)) as [_ _ _ Hb]. specialize (Hb Es). lia.
Qed.

(** In a proof-of-stake block only the coinbase and the coinstake mint, within
    64 bits. *)
Lemma stake_mint n l cb cs txs : tx_checked max cb -> tx_checked max cs -> IsCoinBase cb = true ->
  Forall (fun tx => IsCoinBase tx = false /\ IsCoinStake tx = false) txs -> along (spends_ok n) l (cb :: cs :: txs) ->
  - 2 ^ 63 <= block_sum minted l (cb :: cs :: txs) < 2 ^ 63.
Proof.
  intros Hcb Hcs Eb HF (_ & Hs & _). set (l1 := ledger_connect nHeight l cb) in Hs.
  assert (H0 : forall txs l, Forall (fun tx => IsCoinBase tx = false /\ IsCoinStake tx = false) txs -> block_sum minted l txs = 0).
  { clear. intros txs. induction txs as [|tx txs IH]; intros l HF; [done|]. apply Forall_cons in HF as [[H1 H2] HF].
    cbn [block_sum]. rewrite (IH _ HF). unfold minted. by rewrite H1, H2. }
  cbn [block_sum]. fold l1. rewrite H0 by done. unfold minted, value_in. rewrite Eb. cbn [orb].
  pose proof (chk_out_range _ _ Hcb). pose proof (chk_out_range _ _ Hcs). pose proof (chk_in_range _ _ Hcs).
  fold (value_out cb) (value_out cs) in *.
  destruct (IsCoinBase cs) eqn:Ec; cbn [orb]; [lia|]. destruct (IsCoinStake cs); [|lia].
  destruct (proj1 (Hs Ec)) as [Ha _ [Hi Ht] _]. pose proof (total_in_nonneg _ _ _ _ Ha Hi). lia.
Qed.
End Accepted.

(** * An accepted block *)

Section Block.
Context `{STL : SaplingTreeLib} {V : Type} {view : CoinsView V} {babi : BlockAbi} `{SphLib} {crypto : ScriptCrypto} {sig : SigCrypto}.
Variables (chain : ChainParams) (zc : ZerocoinEnv) (zerocoin_pubkey : CTxIn -> option (list Z)) (node : NodeState) (env : ConnectEnv).
Variable ContainsOutPoint : COutPoint -> bool.
Variables (block : CBlock) (pindex : BlockIndexEntry).
Abbreviation consensus := (chain_consensus chain).
Abbreviation max := (nMaxMoneyOut consensus).
Abbreviation nHeight := (bi_nHeight pindex).
Abbreviation txs := (vtx block).
Abbreviation hash := (CBlockHeader_GetHash (header block)).
Abbreviation root := (hashFinalSaplingRoot (header block)).

(** The circumstances: after the last upgrade, on top of a ledger whose coins can be
    restored, a block as the format carries it, with new transaction ids and
    without shielded spends in its coinbase. *)
Record connecting (l : Ledger) : Prop := {
  money_range : 0 <= max < 2 ^ 61;
  no_invalid_outs : SkipInvalidUTXOS chain nHeight = false;
  height_stored : u32 nHeight <> 0;
  v5_here : NetworkUpgradeActive consensus nHeight UPGRADE_V5_0 = true;
  v5_tip : NetworkUpgradeActive consensus (i32 (chain_height node + 1)) UPGRADE_V5_0 = true;
  pos_here : NetworkUpgradeActive consensus nHeight UPGRADE_POS = true;
  tip_indexed : exists n, blockIndexHeight node (l_best l) = Some n /\ 0 <= n < 2 ^ 31 - 1;
  block_format : block_ok block;
  not_genesis : list_eqb hash (hashGenesisBlock chain) = false;
  root_not_zero : all_zero root = false;
  coins_ok : coins_restorable l;
  ids_fresh : fresh_txids l txs;
  plain_coinbase : Forall (fun tx => IsCoinBase tx = true -> forall n, in_sapData tx n = false) txs
}.

Lemma tx_ok_balance tx : tx_ok tx -> balance_ok tx.
Proof.
  intros (_ & _ & _ & _ & _ & Hs) d Hd. destruct (isSaplingVersion tx).
  - destruct Hs as [Hs _]. apply (Hs d Hd).
  - destruct Hs as [Hs _]. rewrite Hd in Hs. injection Hs as ->. cbn. lia.
Qed.
Lemma plain_prevouts_all ins : existsb (fun i => CTxIn_IsZerocoinSpend i || CTxIn_IsZerocoinPublicSpend i) ins = false ->
  plain_prevouts ins = map prevout ins.
Proof.
  unfold plain_prevouts. induction ins as [|i ins IH]; [done|]. cbn. intros [[H1 _]%orb_false_iff H2]%orb_false_iff.
  rewrite H1. cbn. by rewrite IH.
Qed.
Lemma CheckTransaction_checked tx zact vs fake cold sact st st' : 0 <= max < 2 ^ 61 -> tx_ok tx -> ContainsZerocoins tx = false ->
  (IsCoinBase tx = true -> forall n, in_sapData tx n = false) ->
  CheckTransaction consensus zc tx zact vs fake cold sact st = Some (true, st') -> tx_checked max tx.
Proof.
  intros Hmax Hok Hz Hcb Hc. assert (Hm : money_bound consensus) by (unfold money_bound; lia). pose proof (tx_ok_balance tx Hok) as Hb.
  destruct (CheckTransaction_amounts _ _ _ _ _ _ _ _ _ _ Hm Hb Hc) as (Ho & Hv & Hvr & Hs & Hsr).
  apply CheckTransaction_true in Hc as ((_ & _ & Hver & _) & _ & _ & _ & HN & _); [|done..]. split; try done.
  - eapply List.Forall_impl; [|exact Ho]. intros o [? _]. lia.
  - destruct Hok as (_ & _ & _ & [Hl _] & _). unfold MAX_SIZE in Hl. lia.
  - apply NoDup_ListNoDup. rewrite plain_prevouts_all in HN; [done|]. by apply no_zerocoins in Hz as [Hz _].
Qed.
Lemma block_checked l pow rt sg st st' checked rej : connecting l ->
  CheckBlock chain zc zerocoin_pubkey node block pow rt sg st = Some (true, st', checked, rej) ->
  Forall (tx_checked max) txs /\ order_ok block /\ (rt = true -> BlockMerkleRoot txs = Some (hashMerkleRoot (header block), false)).
Proof.
  intros Hb E. destruct (block_format _ Hb) as (_ & [_ Hv] & _ & Hf).
  destruct (CheckBlock_true _ _ _ _ _ _ _ _ _ _ _ _ Hf E) as ([Ho _ Ht] & Hr & _). split; [|split; [done|exact Hr]].
  rewrite List.Forall_forall in Ht, Hv. apply List.Forall_forall. intros tx Hin. destruct (Ht tx Hin) as (z & f & c & s & s1 & s2 & Hc & Hs & Hz).
  pose proof (plain_coinbase _ Hb) as Hp. rewrite List.Forall_forall in Hp. rewrite (v5_tip _ Hb) in Hs.
  by apply (CheckTransaction_checked tx z (verifyZerocoinSignature node) f c s s1 s2 (money_range _ Hb) (Hv tx Hin) (Hz Hs) (Hp tx Hin)).
Qed.

(** The most a block may mint: its value and, where due, the budget. *)
Definition mint_limit : Z :=
  (IsBlockValueValid (network chain) consensus (sporkActive node) (mnBudget node) (mnSynced node) nHeight (GetBlockValue (network chain) nHeight) 0).2.
Lemma IsBlockValueValid_limit v : (network chain <> TESTNET \/ mnSynced node = true) ->
  fst (IsBlockValueValid (network chain) consensus (sporkActive node) (mnBudget node) (mnSynced node) nHeight (GetBlockValue (network chain) nHeight) v) = true ->
  v <= mint_limit.
Proof.
  unfold mint_limit, IsBlockValueValid. intros Hn E. destruct (mnSynced node); cbn [negb] in *; [by apply Z.leb_le in E|].
  destruct (_ <? 100); [|by apply Z.leb_le in E]. destruct (network chain); try (by apply Z.leb_le in E). by destruct Hn.
Qed.

Lemma run_queue_true checks : run_queue checks = Some true -> all_pass checks.
Proof.
  induction checks as [|k checks IH]; intros E; [constructor|]. cbn in E. destruct (run_check k) as [[]|e|] eqn:Ek; try done.
  constructor; [done|by apply IH].
Qed.

Abbreviation fScriptChecks := (nHeight >=? totalBlocksEstimate env).
Abbreviation fCLTV := (match bi_pprev pindex with Some p => fScriptChecks && NetworkUpgradeActive consensus (snd p) UPGRADE_BIP65 | None => false end).

(** What acceptance means. *)
Record block_accepted (n : Z) (l : Ledger) (undo : list (list Coin)) (l' : Ledger) : Prop := {
  bacc_connectable : all_connectable ContainsOutPoint false nHeight l txs;
  bacc_undo : exists uss, undos_ok nHeight l txs uss /\ undo = tl uss;
  bacc_tree : exists t t', tree_root t = l_anchor l /\ update_trees txs t = Some t' /\ tree_root t' = root;
  bacc_spends : along nHeight (spends_ok chain fScriptChecks fCLTV n) l txs;
  bacc_mint : exists nMint, nMint =64= block_sum nHeight minted l txs /\
    fst (IsBlockValueValid (network chain) consensus (sporkActive node) (mnBudget node) (mnSynced node) nHeight
           (GetBlockValue (network chain) nHeight) (i64 nMint)) = true;
  bacc_stake : IsProofOfStake block = true;
  bacc_utxo : forall o, l_utxo l' o = l_utxo (ledger_block nHeight l txs) o
}.

Lemma push_anchor_utxo l r : l_utxo (push_anchor l r) = l_utxo l.
Proof. unfold push_anchor. by destruct (list_eqb _ _). Qed.

Lemma connect_new_go fJustCheck st c undo st' c' l n : connecting l -> models c l -> Forall (tx_checked max) txs ->
  blockIndexHeight node (l_best l) = Some n -> 0 <= n < 2 ^ 31 - 1 -> all_zero hash = false ->
  connect_new (V := V) chain zc node env ContainsOutPoint block pindex fJustCheck st c = Some (Some undo, st', c') ->
  let l' := if fJustCheck then push_anchor (ledger_block nHeight l txs) root else block_ledger nHeight l txs root hash in
  models c' l' /\ block_accepted n l undo l'.
Proof.
  intros Hb Hm HF Hn Hnr Hz E. unfold connect_new in E. cbv zeta in E. rewrite (pos_here _ Hb), (v5_here _ Hb) in E. cbn [negb andb] in E.
  unfold IsProofOfWork in E. destruct (IsProofOfStake block) eqn:Epos; cbn [negb] in E; [|go E].
  destruct (match nChainSaplingValue pindex with Some _ => _ | None => _ end); [go E|].
  apply sbind_go in E as (rt & s1 & c1 & G1 & E). apply read_go in G1 as [G1 ->].
  apply sbind_go in E as (ot & s2 & c2 & G2 & E). apply read_go in G2 as [G2 ->].
  apply sbind_go in E as (t & s3 & c3 & G3 & E). apply lift_go in G3 as (-> & -> & ->).
  pose proof Hm as [Hok (_ & _ & _ & _ & L5)]. cbn in L5.
  destruct (cache_GetBestAnchor_spec _ _ _ Hok G1) as (Hok1 & Hl1 & _ & _ & Hr1).
  destruct (cache_GetSaplingAnchorAt_spec _ _ _ _ Hok1 G2) as (Hok2 & Hl2 & _ & (_ & Hroot & _)).
  assert (Hm1 : models c1 l) by (by eapply models_read). assert (Hm2 : models c2 l) by (by eapply models_read).
  apply sbind_go in E as (a & s4 & c4 & G4 & E).
  destruct (connect_loop_go chain zc node env ContainsOutPoint _ nHeight _ _ _ _ _ _ (money_range _ Hb) (no_invalid_outs _ Hb) (height_stored _ Hb)
    _ _ _ _ _ _ _ _ _ n HF Hm2 (coins_ok _ Hb) (ids_fresh _ Hb) Hn Hnr G4) as (-> & Hm4 & [A1 A2 A3 A4 A5 A6 A7]).
  cbn [nFees nValueIn nValueOut vtxundo vChecks sapling_tree] in *. rewrite !Z.add_0_l in *.
  apply sbind_go in E as ([] & s5 & c5 & G5 & E). injection G5 as <- <-.
  destruct (list_eqb root (tree_root (sapling_tree a))) eqn:Er; cbn [negb] in E; [|go E]. apply list_eqb_eq in Er.
  destruct (fst (IsBlockValueValid _ _ _ _ _ _ _ _)) eqn:Ev in E; cbn [negb] in E; [|go E].
  apply sbind_go in E as (ok & s6 & c6 & G6 & E). apply lift_go in G6 as (Hq & -> & ->). destruct ok; cbn [negb] in E; [|go E].
  apply run_queue_true in Hq. destruct A4 as (checks & Ec & Hsp). rewrite Ec in Hq.
  assert (Hm5 : models (PushAnchor c4 (sapling_tree a)) (push_anchor (ledger_block nHeight l txs) root)).
  { rewrite Er. apply PushAnchor_models; [done|]. rewrite <- Er. apply (root_not_zero _ Hb). }
  assert (Hacc : forall l' undo, undo = vtxundo a -> (forall o, l_utxo l' o = l_utxo (ledger_block nHeight l txs) o) -> block_accepted n l undo l').
  { intros l' undo' -> Hu. split; try done.
    - exists t, (sapling_tree a). split; [by rewrite Hroot, <- L5|done].
    - by apply Hsp.
    - eexists. split; [|exact Ev]. rewrite !eq64_i64, A5, A6, A7. by rewrite <- mint_sum. }
  cbv zeta. destruct fJustCheck.
  - apply ret_go in E as (-> & -> & ->). split; [done|]. apply Hacc; [done|]. intros o. by rewrite push_anchor_utxo.
  - apply sbind_go in E as (? & s7 & c7 & G7 & E). unfold run_checked in G7. apply obind_Some in G7 as ([w sw] & _ & G7). injection G7 as _ <- <-.
    assert (Hab : forall b r st c u st' c', or_abort_node (V := V) b r st c = Some (Some u, st', c') -> c' = c)
      by (clear; intros [] *; cbn; by intros [= <- <-]).
    do 3 (apply sbind_go in E as (? & ? & ? & ?%Hab & E)). subst.
    apply sbind_go in E as ([] & s8 & c8 & G8 & E). injection G8 as <- <-. apply ret_go in E as (-> & -> & ->).
    split; [by apply SetBestBlock_models|]. apply Hacc; [done|]. intros o. cbn. by rewrite push_anchor_utxo.
Qed.

Lemma ConnectBlock_go fJustCheck st c undo st' c' l : connecting l -> models c l -> all_zero hash = false ->
  ConnectBlock (V := V) chain zc zerocoin_pubkey node env ContainsOutPoint block pindex fJustCheck st c = Some (Some undo, st', c') ->
  let l' := if fJustCheck then push_anchor (ledger_block nHeight l txs) root else block_ledger nHeight l txs root hash in
  exists n, blockIndexHeight node (l_best l) = Some n /\ Forall (tx_checked max) txs /\ order_ok block /\ models c' l' /\ block_accepted n l undo l'.
Proof.
  intros Hb Hm Hz E. unfold ConnectBlock in E. apply obind_Some in E as ([[[ok st1] chk] rej] & Hc & E).
  destruct ok; cbn [negb] in E; [|done]. destruct (block_checked l _ _ _ _ _ _ _ Hb Hc) as (HF & Ho & _).
  destruct (cache_GetBestBlock c) as [best c1] eqn:Eb. pose proof Hm as [Hok _].
  destruct (cache_GetBestBlock_spec _ _ _ Hok Eb) as (Hok1 & Hl1 & _). assert (Hm1 : models c1 l) by (by eapply models_read).
  destruct (list_eqb _ best); cbn [negb] in E; [|done]. rewrite (not_genesis _ Hb) in E.
  destruct (tip_indexed _ Hb) as (n & Hn & Hnr). exists n. split; [done|]. split; [done|]. split; [done|].
  by apply (connect_new_go fJustCheck st1 c1 undo st' c' l n).
Qed.
End Block.

(** The coins of the ledger after the block can be restored again. *)
Lemma ledger_block_restorable (chain : ChainParams) nHeight {babi : BlockAbi} {crypto : ScriptCrypto} txs : u32 nHeight <> 0 ->
  Forall (tx_checked (nMaxMoneyOut (chain_consensus chain))) txs -> forall l,
  coins_restorable l -> coins_restorable (ledger_block nHeight l txs).
Proof.
  intros Hh HF. induction HF as [|tx txs Hc HF IH]; intros l Hl; [done|]. apply IH. eapply connect_restorable; [exact Hh|exact Hc|exact Hl].
Qed.
(** The shape of a proof-of-stake block. *)
Lemma stake_block_txs block : IsProofOfStake block = true -> order_ok block -> exists cb cs txs, vtx block = cb :: cs :: txs /\
  IsCoinBase cb = true /\ Forall (fun tx => IsCoinBase tx = false /\ IsCoinStake tx = false) txs.
Proof.
  intros Hp [H1 H2 _ H4]. specialize (H4 Hp). unfold IsProofOfStake, second_is_coinstake in Hp.
  destruct (vtx block) as [|cb [|cs txs]]; [done|done|]. exists cb, cs, txs. split; [done|]. split; [exact H1|].
  cbn [skipn] in H2, H4. apply Forall_cons in H2 as [_ H2]. apply Forall_forall. intros tx Htx. rewrite Forall_forall in H2, H4.
  split; [by apply H2|by apply H4].
Qed.

Section Claims.
Context `{STL : SaplingTreeLib} {V : Type} {view : CoinsView V} {babi : BlockAbi} `{SphLib} {crypto : ScriptCrypto} {sig : SigCrypto}.
Implicit Types (c : CCoinsViewCache V).


(** C9: what an accepted block has passed. [ConnectBlock] accepts only when, for every
    transaction but the coinbase and in the ledger the earlier ones leave behind, the inputs
    are unspent, ripe and in the money range, its nullifiers are new and its anchors known,
    and - above the last checkpoint - every input script verifies, at once or in the checking
    threads. The inputs cover the outputs of every transaction except the coinstake, which may
    pay out more (what the block as a whole may create is bounded by the supply theorem
    above). The Sapling root of the header is the root of the tree with all new notes
    appended. The view then stands for the ledger after all transactions, whose coins can all
    be restored by undo records. The block is one of proof of stake, above the heights where
    proof of stake and the V5.0 rules start. *)
Theorem ConnectBlock_accepts (chain : ChainParams) (zc : ZerocoinEnv) (zerocoin_pubkey : CTxIn -> option (list Z)) (node : NodeState) (env : ConnectEnv)
    (ContainsOutPoint : COutPoint -> bool) (block : CBlock) (pindex : BlockIndexEntry) (fJustCheck : bool) (st st' : CValidationState)
    c c' (undo : list (list Coin)) (l : Ledger) (n : Z) :
  connecting chain node block pindex l -> models c l -> all_zero (CBlockHeader_GetHash (header block)) = false ->
  blockIndexHeight node (l_best l) = Some n ->
  ConnectBlock chain zc zerocoin_pubkey node env ContainsOutPoint block pindex fJustCheck st c = Some (Some undo, st', c') ->
  let h := bi_nHeight pindex in
  let fScriptChecks := h >=? totalBlocksEstimate env in
  let fCLTV := match bi_pprev pindex with
               | Some p => fScriptChecks && NetworkUpgradeActive (chain_consensus chain) (snd p) UPGRADE_BIP65
               | None => false
               end in
  along h (fun l tx => IsCoinBase tx = false ->
    tx_inputs_ok (chain_consensus chain) l tx (n + 1) (shielded_in tx) (value_out tx) /\
    (fScriptChecks = true -> scripts_ok l tx (script_flags fCLTV) (Precomputed tx) 0 (vin tx))) l (vtx block) /\
  (exists t t', tree_root t = l_anchor l /\ update_trees (vtx block) t = Some t' /\ tree_root t' = hashFinalSaplingRoot (header block)) /\
  exists l', models c' l' /\ (forall o, l_utxo l' o = l_utxo (ledger_block h l (vtx block)) o) /\ coins_restorable l' /\
    (fJustCheck = false -> l_best l' = CBlockHeader_GetHash (header block)).
Proof.
  intros Hb Hm Hz Hn E h fScriptChecks fCLTV.
  destruct (ConnectBlock_go _ _ _ _ _ _ _ _ _ _ _ _ _ _ _ Hb Hm Hz E) as (n' & Hn' & HF & _ & Hm' & [_ _ A3 A4 _ _ A7]).
  rewrite Hn in Hn'. injection Hn' as <-. split; [exact A4|]. split; [exact A3|].
  set (l' := if fJustCheck then _ else _) in *. exists l'. split; [done|]. split; [exact A7|]. split.
  - intros o u. rewrite A7. eapply ledger_block_restorable; [apply (height_stored _ _ _ _ _ Hb)|exact HF|apply (coins_ok _ _ _ _ _ Hb)].
  - unfold l'. by intros ->.
Qed.

(** C12: an accepted block can be taken back. After [ConnectBlock] has accepted a block and
    returned its undo records, [DisconnectBlock] run with them on any cache that stands for
    the same ledger reports a clean result and restores the ledger from before: coins,
    nullifiers, anchors and tip. *)
Theorem ConnectBlock_undone {W : Type} {view' : CoinsView W} (chain : ChainParams) (zc : ZerocoinEnv) (zerocoin_pubkey : CTxIn -> option (list Z))
    (node : NodeState) (env : ConnectEnv) (ContainsOutPoint : COutPoint -> bool) (block : CBlock) (pindex : BlockIndexEntry)
    (st st' : CValidationState) c c' (undo : list (list Coin)) (l : Ledger) :
  connecting chain node block pindex l -> models c l -> all_zero (CBlockHeader_GetHash (header block)) = false ->
  root_ok l (hashFinalSaplingRoot (header block)) -> all_zero (l_anchor l) = false -> all_zero (l_best l) = false ->
  ConnectBlock chain zc zerocoin_pubkey node env ContainsOutPoint block pindex false st c = Some (Some undo, st', c') ->
  exists l', models c' l' /\ forall d : CCoinsViewCache W, models d l' ->
    exists d', DisconnectBlock (vtx block) undo (l_anchor l) (l_best l) d = Some (DISCONNECT_OK, d') /\ models d' l.
Proof.
  intros Hb Hm Hz Hr Ha Hbest E. destruct (ConnectBlock_go _ _ _ _ _ _ _ _ _ _ _ _ _ _ _ Hb Hm Hz E) as (n & _ & _ & Ho & Hm' & [A1 (uss & A2 & ->) _ _ _ A6 _]).
  eexists. split; [exact Hm'|]. intros d Hd. destruct (stake_block_txs block A6 Ho) as (cb & cs & txs & Ev & Hcb & _). rewrite Ev in *.
  eapply DisconnectBlock_models; try done. destruct Hm as [Hok (_ & _ & _ & L4 & _)]. rewrite <- L4. by apply cache_empty_root.
Qed.
End Claims.

(** A proof-of-stake block on a small ledger. *)
#[local] Existing Instance ex_trees.
#[local] Existing Instances blockAbi64 toy_sph toy_crypto toy_sig.
Definition ex_stake_node : NodeState :=
  mkNode (Some (repeat 1 32, 60)) (fun _ => Some 60) true (fun _ => false) false no_payments no_budget (fun _ => false) (fun _ => None) false.
Definition ex_connect_env : ConnectEnv :=
  mkConnectEnv 0 true false (fun _ => 2 ^ 62) (fun _ => None) (fun _ => accept) (fun _ _ st => (None, st)) (fun _ _ _ _ => false)
    (fun _ => accept) (fun _ => true) (fun _ => true) true (fun _ => true).
Definition ex_pubkey : list Z := 2 :: repeat 9 32.
Definition ex_stake_coinbase : CTransaction :=
  mkTx 1 0 [mkTxIn (mkOutPoint (repeat 0 32) 0xffffffff) [1; 12] 0] [mkTxOut 0 [] (-10)] 0 (Some SaplingTxData_default) None.
Definition ex_coinstake : CTransaction :=
  mkTx 1 0 [mkTxIn ex_o1 [] 0] [mkTxOut 0 [] (-10); mkTxOut 100005000 (GetScriptForRawPubKey ex_pubkey) (-10)] 0 (Some SaplingTxData_default) None.
Definition ex_stake_txs : list CTransaction := [ex_stake_coinbase; ex_coinstake].
Definition ex_stake_block : CBlock :=
  mkBlock (mkHeader 9 (repeat 1 32) (match BlockMerkleRoot ex_stake_txs with Some r => fst r | None => [] end) 1600000000 0x207fffff 7
             (repeat 0 32) (repeat 1 32)) ex_stake_txs [1] false.
Definition ex_stake_index : BlockIndexEntry := mkIndex 61 (Some (repeat 1 32, 60)) None.
Definition ex_stake_cache := CCoinsViewCache_new ex_over_db.
Abbreviation ex_run := (ConnectBlock (V := CCoinsViewCache CCoinsViewDB) ex_chain no_zerocoin (fun _ => None) ex_stake_node ex_connect_env (fun _ => false) ex_stake_block ex_stake_index).
Lemma ex_stake_utxo : holds (ledger ex_over_db) {[ex_o1 := ex_coin1]}.
Proof.
  intros o. change (l_utxo (ledger ex_over_db) o) with (cache_utxo ex_over_db o). unfold cache_utxo. cbn [ex_over_db CCoinsViewCache_new cacheCoins].
  rewrite lookup_empty. change (db_utxo ex_db o = ({[ex_o1 := ex_coin1]} : gmap COutPoint Coin) !! o).
  unfold db_utxo, db_GetCoin. cbn [ex_db db_coins]. destruct (decide (ex_o1 = o)) as [<-|Hne].
  - rewrite lookup_singleton_eq. reflexivity.
  - rewrite lookup_singleton_ne by done. reflexivity.
Qed.
Lemma ex_stake_block_ok : block_ok ex_stake_block.
Proof.
  split; [|split; [|split; [|reflexivity]]].
  - vm_compute BlockMerkleRoot. change (header_ok (header ex_stake_block)). unfold header_ok, ex_stake_block. cbn -[Z.pow bytes_ok BlockMerkleRoot ex_stake_txs].
    set (r := match BlockMerkleRoot ex_stake_txs with Some r => fst r | None => [] end). vm_compute in r. subst r. format_ok.
  - split; [vm_compute; discriminate|]. unfold ex_stake_block, ex_stake_txs. cbn [vtx]. format_ok.
    all: pose proof (eq_refl : MAX_SIZE = 33554432); unfold ser_ok; cbn -[Z.pow MAX_SIZE bytes_ok]; unfold tx_ok; cbn -[Z.pow MAX_SIZE bytes_ok]; format_ok.
  - split; [vm_compute; discriminate|]. format_ok.
Qed.
Lemma ex_connecting : connecting ex_chain ex_stake_node ex_stake_block ex_stake_index (ledger ex_over_db).
Proof.
  split.
  - cbn [ex_chain chain_consensus ex_params nMaxMoneyOut]. lia.
  - vm_compute. reflexivity.
  - discriminate.
  - vm_compute. reflexivity.
  - vm_compute. reflexivity.
  - vm_compute. reflexivity.
  - exists 60. split; [reflexivity|lia].
  - exact ex_stake_block_ok.
  - vm_compute. reflexivity.
  - reflexivity.
  - intros o u. rewrite ex_stake_utxo. intros [<- <-]%lookup_singleton_Some. split; [reflexivity|]. split; [reflexivity|discriminate].
  - assert (E : exists a b, map GetHash (vtx ex_stake_block) = [a; b] /\ a <> b /\ a <> repeat 7 32 /\ b <> repeat 7 32).
    { eexists _, _. split; [vm_compute; reflexivity|]. split; [discriminate|]. split; discriminate. }
    destruct E as (a & b & E & H1 & H2 & H3). split; rewrite E.
    + apply NoDup_cons. split; [by intros ->%list_elem_of_singleton|apply NoDup_singleton].
    + intros o Ho. rewrite ex_stake_utxo. apply lookup_singleton_ne. intros <-. cbn [out_hash ex_o1] in Ho.
      apply elem_of_cons in Ho as [Ho|Ho%list_elem_of_singleton]; congruence.
  - repeat constructor; intros; reflexivity.
Qed.
Lemma ex_stake_models : models ex_stake_cache (ledger ex_over_db).
Proof. apply new_cache_models, ex_over_db_ok. Qed.
Lemma ex_stake_hash : all_zero (CBlockHeader_GetHash (header ex_stake_block)) = false.
Proof. vm_compute. reflexivity. Qed.
Lemma ex_stake_tip : all_zero (l_anchor (ledger ex_over_db)) = false /\ all_zero (l_best (ledger ex_over_db)) = false.
Proof. split; reflexivity. Qed.
Lemma ex_run_accepts b : exists undo st' c', ex_run b CValidationState_default ex_stake_cache = Some (Some undo, st', c').
Proof.
  assert (E : match ex_run b CValidationState_default ex_stake_cache with Some (Some _, _, _) => true | _ => false end = true)
    by (destruct b; vm_compute; reflexivity).
  revert E. generalize (ex_run b CValidationState_default ex_stake_cache). intros [[[[undo|] st'] c']|]; try discriminate.
  intros _. now exists undo, st', c'.
Qed.


Lemma ConnectBlock_accepts_witness :
  exists undo st' c', ex_run true CValidationState_default ex_stake_cache = Some (Some undo, st', c') /\
  exists l', models c' l' /\ coins_restorable l'.
Proof.
  destruct (ex_run_accepts true) as (undo & st' & c' & E).
  exists undo, st', c'. split; [exact E|].
  destruct (ConnectBlock_accepts ex_chain no_zerocoin (fun _ => None) ex_stake_node ex_connect_env (fun _ => false) ex_stake_block ex_stake_index
    true CValidationState_default st' ex_stake_cache c' undo (ledger ex_over_db) 60
    ex_connecting ex_stake_models ex_stake_hash eq_refl E) as (_ & _ & l' & H1 & _ & H2 & _).
  exists l'. split; [exact H1|exact H2].
Defined.

Lemma ConnectBlock_undone_witness :
  exists undo st' c', ex_run false CValidationState_default ex_stake_cache = Some (Some undo, st', c') /\
  exists d', DisconnectBlock (vtx ex_stake_block) undo (repeat 1 32) (repeat 1 32) c' = Some (DISCONNECT_OK, d') /\ models d' (ledger ex_over_db).
Proof.
  destruct (ex_run_accepts false) as (undo & st' & c' & E).
  exists undo, st', c'. split; [exact E|].
  destruct (ConnectBlock_undone (W := CCoinsViewCache CCoinsViewDB) ex_chain no_zerocoin (fun _ => None) ex_stake_node ex_connect_env (fun _ => false)
    ex_stake_block ex_stake_index CValidationState_default st' ex_stake_cache c' undo (ledger ex_over_db)
    ex_connecting ex_stake_models ex_stake_hash ltac:(split; [reflexivity|left; reflexivity])
    (proj1 ex_stake_tip) (proj2 ex_stake_tip) E) as (l' & H1 & H2).
  apply (H2 c' H1).
Defined.
