(* ===== verification/MempoolAccept.v ===== *)
(** Accepting a transaction from a peer into the memory pool, and refilling the pool after a
    reorganization (src/validation.cpp: [CheckFinalTx], [LimitMempoolSize],
    [GetMinRelayFee], [AcceptToMemoryPool], [UpdateMempoolForReorg]; src/coins.cpp:
    [GetPriority]; src/txmempool.cpp: [CCoinsViewMemPool]). *)
From Stdlib Require Import String SpecFloat.
From Stdlib Require Import ZArith Lia List Bool.
From stdpp Require Import base list gmap sets relations.
From S2P Require Import Prelude Uint256 Consensus Pow Serialize Script Interpreter Codecs Standard Transaction TxVerify Policy SigHash Compressor Coins Mempool MempoolInv MempoolOps MempoolAdd MempoolReorg MempoolTheorems Ledger Connect Inputs Block Payments BlockCheck Chain Accept ConnectBlock.
Import ListNotations.
Local Open Scope Z_scope.
Local Open Scope passion_scope.

Definition REJECT_DUPLICATE : Z := 0x12.
Definition REJECT_INSUFFICIENTFEE : Z := 0x42.
Definition REJECT_HIGHFEE : Z := 0x100.
Definition REJECT_ALREADY_KNOWN : Z := 0x101.
Definition REJECT_CONFLICT : Z := 0x102.
Definition MEMPOOL_HEIGHT : Z := 0x7FFFFFFF.
Definition MAX_TX_SIGOPS_CURRENT : Z := MAX_BLOCK_SIGOPS_CURRENT / 5.
Definition INF_PRIORITY : spec_float := double_of (10 ^ 25) 0.

(** * Priorities *)

Definition AllowFreeThreshold : spec_float := double_of (COIN * 1440 / 250) 0.
Definition AllowFree (dPriority : spec_float) : bool := SFltb AllowFreeThreshold dPriority.
Definition ComputePriority {abi : Abi} (tx : CTransaction) (dPriorityInputs : spec_float) (nTxSize : Z) : spec_float
  :=
  let nTxSize := CalculateModifiedSize tx nTxSize in
  if nTxSize =? 0 then S754_zero false else double_div dPriorityInputs (double_of nTxSize 0).
(** The two sums of [CCoinsViewCache::GetPriority]; the coins are in the cache. *)
Fixpoint priority_sums (AccessCoin : COutPoint -> Coin) (nHeight : Z) (ins : list CTxIn) (dResult : spec_float)
  (inChainInputValue : Z) :
  spec_float * Z :=
  match ins with
  | [] => (dResult, inChainInputValue)
  | txin :: ins =>
      let coin := AccessCoin (prevout txin) in
      if IsSpent coin then priority_sums AccessCoin nHeight ins dResult inChainInputValue
      else if coin_nHeight coin <=? u32 nHeight then
        priority_sums AccessCoin nHeight ins
          (double_add dResult (double_of (i64 (nValue (coin_out coin) * u32 (nHeight - coin_nHeight coin))) 0))
          (i64 (inChainInputValue + nValue (coin_out coin)))
      else priority_sums AccessCoin nHeight ins dResult inChainInputValue
  end.
Definition coins_GetPriority {abi : Abi} (AccessCoin : COutPoint ->
  Coin) (tx : CTransaction) (nHeight : Z) : spec_float * Z :=
  if IsCoinBase tx || IsCoinStake tx then (S754_zero false, 0)
  else if IsShieldedTx tx then (INF_PRIORITY, 0)
  else
    let '(dResult, inChainInputValue) := priority_sums AccessCoin nHeight (vin tx) (S754_zero false) 0 in
    (ComputePriority tx dResult 0, inChainInputValue).
(** [CTxMemPoolEntry::GetPriority] of an entry with these members. *)
Definition entry_GetPriority (entryPriority : spec_float) (entryHeight inChainInputValue nModSize currentHeight : Z) :
  spec_float :=
  let deltaPriority := double_div (double_mul (double_of (u32 (currentHeight - entryHeight)) 0) (double_of
    inChainInputValue 0)) (double_of nModSize 0) in
  let dResult := double_add entryPriority deltaPriority in
  if SFltb dResult (S754_zero false) then S754_zero false else dResult.

(** * The pool as a view of coins

    [CCoinsView dummy], which has nothing, and [CCoinsViewMemPool] over the coins of the
    tip; a cache is switched from one to the other. *)
Section Backend.
Context `{STL : SaplingTreeLib} {V : Type} {view : CCoinsView V}.

Inductive Backend :=
  | BackDummy
  | BackPool (pool : CTxMemPool) (tip : CCoinsViewCache V).
(** The transaction in the pool comes first, spent or not. *)
Definition mempool_GetCoin (p : CTxMemPool) (tip : CCoinsViewCache V) (o : COutPoint) : option Coin * CCoinsViewCache
  V :=
  match mapTx p !! out_hash o with
  | Some e =>
      (match vout (e_tx e) !! Z.to_nat (out_n o) with Some out =>
        Some (mkCoin false false out MEMPOOL_HEIGHT) | None => None end, tip)
  | None =>
      let '(c, tip) := cache_GetCoin tip o in
      (match c with Some c => if IsSpent c then None else Some c | None => None end, tip)
  end.
Definition on_tip {A} (b : Backend) (none : A) (f : CCoinsViewCache V -> A * CCoinsViewCache V) : A * Backend :=
  match b with BackDummy => (none, b) | BackPool p tip => let '(a, tip) := f tip in (a, BackPool p tip) end.
#[export] Instance Backend_functions : CCoinsView Backend := {|
  GetCoin b o := match b with BackDummy => (None, b) | BackPool p tip => let '(c, tip) :=
    mempool_GetCoin p tip o in (c, BackPool p tip) end;
  GetNullifier b n :=
    match b with
    | BackPool p _ => if nullifierExists p n then (true, b) else on_tip b false (fun tip => cache_GetNullifier tip n)
    | BackDummy => (false, b)
    end;
  GetBestBlock b := on_tip b (repeat 0 32) cache_GetBestBlock;
  GetSaplingAnchorAt b rt := on_tip b None (fun tip => cache_GetSaplingAnchorAt tip rt);
  GetBestAnchor b := on_tip b (repeat 0 32) cache_GetBestAnchor;
  BatchWrite b m := match b with BackDummy => None | BackPool p tip => tip <- cache_BatchWrite tip m;;
    Some (BackPool p tip) end |}.
Definition SetBackend (c : CCoinsViewCache Backend) (b : Backend) : CCoinsViewCache Backend := with_base c b.
End Backend.
Arguments Backend {STL} V.

(** * State and settings *)

(** What the worker changes: the validation state, the pool, the coins of the tip, the
    limiter of free transactions ([dFreeCount], [nLastTime]), the coins to forget on
    failure and [*pfMissingInputs]. *)
Record TxState `{STL : SaplingTreeLib} {V : Type} := mkTxState {
  ts_state : CValidationState;
  ts_pool : CTxMemPool;
  ts_coins : CCoinsViewCache V;
  ts_free : spec_float * Z;
  ts_uncache : list COutPoint;
  ts_missing : bool
}.
Arguments TxState {STL} V.
Arguments mkTxState {STL V}.

(** The chain, the clock, sporks and settings; the memory a pool uses and its entry with the
    lowest score (compared in floating point); [pow] of the C library, the text of
    [strprintf] in debug messages, and the periodic flush of the coins. *)
Record RelayEnv `{STL : SaplingTreeLib} {V : Type} := mkRelay {
  re_idx : BlockMap;
  re_chainActive : CChain;
  re_sporkActive : Z -> bool;
  re_isIBD : bool;
  re_verifyZerocoinSignature : bool;
  re_adjustedTime : Z;
  re_time : Z;
  re_policy : PolicySettings;
  arg_relaypriority : bool;
  arg_limitfreerelay : Z;
  arg_limitancestorcount : Z;
  arg_limitancestorsize : Z;
  arg_limitdescendantcount : Z;
  arg_limitdescendantsize : Z;
  arg_maxmempool : Z;
  arg_mempoolexpiry : Z;
  re_usage : CTxMemPool -> Z;
  re_worst : CTxMemPool -> option txid;
  re_pow : spec_float -> spec_float -> spec_float;
  re_strprintf : string -> Z -> Z -> string;
  re_Flush : CCoinsViewCache V -> CCoinsViewCache V
}.
Arguments RelayEnv {STL} V.
Arguments mkRelay {STL V}.

Section Worker.
Context `{STL : SaplingTreeLib} {V : Type} {view : CCoinsView V} {abi : Abi} {crypto : ScriptCrypto} {sig : SigCrypto}
  {SV : SaplingVerifier}.
Variables (chain : ChainParams) (zc : ZerocoinEnv) (env : RelayEnv V).
Abbreviation consensus := (chain_consensus chain).
Abbreviation fRegTest := (match network chain with REGTEST => true | _ => false end).
Abbreviation View := (CCoinsViewCache (Backend V)).
Abbreviation chainHeight := (Height (re_chainActive env)).
Abbreviation blockHeight := (fun h => nHeight <$> re_idx env !! h).

(** [STANDARD_LOCKTIME_VERIFY_FLAGS] asks for the median time of the tip. *)
Definition CheckFinalTx (tx : CTransaction) : option bool :=
  tip <- Tip (re_chainActive env);;
  nBlockTime <- GetMedianTimePast (re_idx env) tip;;
  Some (IsFinalTx (re_adjustedTime env) tx (chainHeight + 1) nBlockTime).

Definition set_state (st : CValidationState) (s : TxState V) : TxState V :=
  mkTxState st (ts_pool s) (ts_coins s) (ts_free s) (ts_uncache s) (ts_missing s).
Definition set_pool (p : CTxMemPool) (s : TxState V) : TxState V :=
  mkTxState (ts_state s) p (ts_coins s) (ts_free s) (ts_uncache s) (ts_missing s).
Definition set_coins (c : CCoinsViewCache V) (s : TxState V) : TxState V :=
  mkTxState (ts_state s) (ts_pool s) c (ts_free s) (ts_uncache s) (ts_missing s).

Definition LimitMempoolSize (limit age : Z) (s : TxState V) : option (TxState V) :=
  r <- Expire (ts_pool s) (i64 (re_time env - age));;
  let p := fst r in
  r <- TrimToSize (S (base.size (mapTx p))) (re_usage env) (re_worst env) limit p [];;
  Some (set_coins (foldl Uncache (ts_coins s) (snd r)) (set_pool (fst r) s)).
Definition maxmempool_bytes : Z := u64 (i64 (arg_maxmempool env * 1000000)).
Definition mempoolexpiry_seconds : Z := i64 (arg_mempoolexpiry env * 60 * 60).

(** [None]: the assertion of [GetShieldedTxMinFee], which is called on shielded transactions. *)
Definition GetMinRelayFee_tx (tx : CTransaction) (p : CTxMemPool) (nBytes : Z) (fAllowFree : bool) : option Z :=
  if IsShieldedTx tx then GetShieldedTxMinFee consensus (re_policy env) tx
  else
    let '(dPriorityDelta, nFeeDelta) := ApplyDeltas p (GetHash tx) (S754_zero false) 0 in
    if SFltb (S754_zero false) dPriorityDelta || (nFeeDelta >? 0) then Some 0
    else Some (GetMinRelayFee consensus (re_policy env) nBytes fAllowFree).

(** ** Checks of the transaction alone *)

Definition check_alone (tx : CTransaction) : Check := fun st =>
  if re_sporkActive env SPORK_16_ZEROCOIN_MAINTENANCE_MODE && ContainsZerocoins tx
  then reject 10 REJECT_INVALID "bad-tx-zerocoin-maintenance" st
  else if re_sporkActive env SPORK_20_SAPLING_MAINTENANCE && IsShieldedTx tx
  then reject 10 REJECT_INVALID "bad-tx-sapling-maintenance" st
  else if ContainsZerocoins tx then reject_plain 100 st
  else
    let fSaplingActive := NetworkUpgradeActive consensus chainHeight UPGRADE_V5_0 in
    let fColdStakingActive := negb (re_sporkActive env SPORK_19_COLDSTAKING_MAINTENANCE) in
    and_then (CheckTransaction consensus zc tx (NetworkUpgradeActive consensus chainHeight UPGRADE_ZC)
      (re_verifyZerocoinSignature env)
                (isBlockBetweenFakeSerialAttackRange chain chainHeight) fColdStakingActive fSaplingActive)
    (and_then (ContextualCheckTransaction chain tx (chainHeight + 1) false (re_isIBD env))
    (fun st =>
      if IsCoinBase tx then reject 100 REJECT_INVALID "coinbase" st
      else if IsCoinStake tx then reject 100 REJECT_INVALID "coinstake" st
      else
        final <- CheckFinalTx tx;;
        if negb final then reject 0 REJECT_NONSTANDARD "non-final" st
        else
          reason <- IsStandardTx consensus (re_policy env) (re_adjustedTime env) tx (chainHeight + 1);;
          match reason with Some reason => reject 0 REJECT_NONSTANDARD reason st | None =>
            TxVerify.accept st end)) st.

(** ** Conflicts with the pool *)

Definition invalid (code : Z) (reason : string) : Check := fun st => Some (Invalid false code reason EmptyString st).
Definition check_conflicts (p : CTxMemPool) (tx : CTransaction) : Check := fun st =>
  if exists_tx p (GetHash tx) then invalid REJECT_ALREADY_KNOWN "txn-already-in-mempool" st
  else if existsb (fun i => isSpent p (prevout i)) (vin tx) then invalid REJECT_CONFLICT "txn-mempool-conflict" st
  else if existsb (nullifierExists p) (nullifiers tx) then invalid REJECT_INVALID "bad-txns-nullifier-double-spent" st
  else TxVerify.accept st.

(** ** Coins *)

Definition tip_of (c : View) : option (CCoinsViewCache V) :=
  match base c with BackDummy => None | BackPool _ tip => Some tip end.
Definition in_tip_cache (c : View) (o : COutPoint) : bool :=
  match tip_of c with Some tip => HaveCoinInCache tip o | None => false end.
(** The outputs [out], [out + 1], ... : is one of them known already? *)
Fixpoint already_known (hash : txid) (out : Z) (n : nat) (c : View) (uncache : list COutPoint) : bool * View * list
  COutPoint :=
  match n with
  | O => (false, c, uncache)
  | S n =>
      let outpoint := mkOutPoint hash (u32 out) in
      let had_coin_in_cache := in_tip_cache c outpoint in
      let '(have, c) := HaveCoin c outpoint in
      if have then (true, c, if had_coin_in_cache then uncache else uncache ++ [outpoint])
      else already_known hash (out + 1) n c uncache
  end.
Fixpoint inputs_exist (ins : list CTxIn) (c : View) (uncache : list COutPoint) : bool * View * list COutPoint :=
  match ins with
  | [] => (true, c, uncache)
  | txin :: ins =>
      let uncache := if in_tip_cache c (prevout txin) then uncache else uncache ++ [prevout txin] in
      let '(have, c) := HaveCoin c (prevout txin) in
      if have then inputs_exist ins c uncache else (false, c, uncache)
  end.
(** The state after reading through the view: the coins of the tip may have filled. *)
Definition read_back (c : View) (uncache : list COutPoint) (s : TxState V) : TxState V :=
  mkTxState (ts_state s) (ts_pool s) (match tip_of c with Some tip => tip | None =>
    ts_coins s end) (ts_free s) uncache (ts_missing s).
Definition set_missing (b : bool) (s : TxState V) : TxState V :=
  mkTxState (ts_state s) (ts_pool s) (ts_coins s) (ts_free s) (ts_uncache s) b.
Definition stop (k : Check) (s : TxState V) : option (option (Z * View) * TxState V) :=
  r <- k (ts_state s);; Some (None, set_state (snd r) s).
(** The value of the inputs and the view, cut off from the pool and the tip. *)
Definition read_coins (tx : CTransaction) (s : TxState V) : option (option (Z * View) * TxState V) :=
  let c := CCoinsViewCache_new (BackPool (ts_pool s) (ts_coins s)) in
  let '(known, c, uncache) := already_known (GetHash tx) 0 (length (vout tx)) c (ts_uncache s) in
  if known : bool then stop (invalid REJECT_ALREADY_KNOWN "txn-already-known") (read_back c uncache s)
  else
    let '(found, c, uncache) := inputs_exist (vin tx) c uncache in
    if negb found then Some (None, set_missing true (read_back c uncache s))
    else
      let '(met, c) := HaveShieldedRequirements c tx in
      if negb met then stop (invalid REJECT_DUPLICATE "bad-txns-shielded-requirements-not-met") (read_back c uncache
        s)
      else
        let '(_, c) := cache_GetBestBlock c in
        r <- GetValueIn tx c;;
        let '(nValueIn, c) := r in
        Some (Some (nValueIn, SetBackend c BackDummy), read_back c uncache s).
Definition CoinOf (c : View) (o : COutPoint) : Coin := fst (AccessCoin c o).

(** ** Fees *)

(** The limiter of free transactions: [None] when the limit is reached. *)
Definition limit_free (nSize : Z) (free : spec_float * Z) : bool * (spec_float * Z) :=
  let nNow := re_time env in
  let base := double_sub (double_of 1 0) (double_div (double_of 1 0) (double_of 600 0)) in
  let dFreeCount := double_mul (fst free) (re_pow env base (double_of (i64 (nNow - snd free)) 0)) in
  if SFleb (double_of (i64 (arg_limitfreerelay env * 10 * 1000)) 0) dFreeCount then (false, (dFreeCount, nNow))
  else (true, (double_add dFreeCount (double_of nSize 0), nNow)).
Definition dos_debug (code : Z) (reason debug : string) : Check := fun st =>
  Some (DoS 0 false code reason false debug st).
(** Verdict with the state and the limiter. *)
Definition check_fees (tx : CTransaction) (p : CTxMemPool) (nFees nSize : Z) (priority : spec_float) (fLimitFree
  fRejectAbsurdFee ignoreFees : bool)
    (st : CValidationState) (free : spec_float * Z) : option (bool * CValidationState * (spec_float * Z)) :=
  let rate := minRelayTxFee (re_policy env) in
  r <- (if ignoreFees then Some (true, st, free)
        else
          txMinFee <- GetMinRelayFee_tx tx p nSize false;;
          if fLimitFree && (nFees <? txMinFee) then
            r <- dos_debug REJECT_INSUFFICIENTFEE "insufficient fee" (re_strprintf env "%d < %d" nFees txMinFee) st;;
              Some (r, free)
          else if arg_relaypriority env && (nFees <? GetFee rate nSize) && negb (AllowFree priority) then
            r <- reject 0 REJECT_INSUFFICIENTFEE "insufficient priority" st;; Some (r, free)
          else if fLimitFree && (nFees <? GetFee rate nSize) then
            let '(ok, free) := limit_free nSize free in
            if negb ok then r <- reject 0 REJECT_INSUFFICIENTFEE "rate limited free transaction" st;; Some (r, free)
            else Some (true, st, free)
          else Some (true, st, free));;
  let '(ok, st, free) := r in
  if negb ok then Some (false, st, free)
  else
    nMaxFee <- (if negb fRejectAbsurdFee then Some 0
                else if IsShieldedTx tx then f <- GetShieldedTxMinFee consensus (re_policy env) tx;;
                  Some (i64 (f * 100))
                else Some (i64 (GetMinRelayFee consensus (re_policy env) nSize false * 10000)));;
    if fRejectAbsurdFee && (nFees >? nMaxFee) then
      Some (Invalid false REJECT_HIGHFEE "absurdly-high-fee" (re_strprintf env "%d > %d" nFees nMaxFee) st, free)
    else if negb fRegTest && (nFees =? 0) then Some (false, st, free)
    else Some (true, st, free).

(** ** The worker *)

Definition mempool_limits : Limits := mkLimits (u64 (arg_limitancestorcount env)) (u64 (i64 (arg_limitancestorsize env
  * 1000)))
  (u64 (arg_limitdescendantcount env)) (u64 (i64 (arg_limitdescendantsize env * 1000))).
(** Run a check on the state; [k] follows when it passes. *)
Definition checked (c : Check) (k : TxState V -> option (bool * TxState V)) (s : TxState V) : option (bool * TxState
  V) :=
  r <- c (ts_state s);;
  let s := set_state (snd r) s in
  if fst r : bool then k s else Some (false, s).
Definition fail (level code : Z) (reason : string) : TxState V -> option (bool * TxState V) :=
  checked (reject level code reason) (fun s => Some (true, s)).
(** Adding, and trimming what is too much. *)
Definition store (tx : CTransaction) (entry : CTxMemPoolEntry) (setAncestors : gset txid) (fOverrideMempoolLimit :
  bool) (s : TxState V) :
  option (bool * TxState V) :=
  let hash := GetHash tx in
  p <- addUnchecked (ts_pool s) hash entry setAncestors;;
  let s := set_pool p s in
  s <- (if fOverrideMempoolLimit then Some s else LimitMempoolSize maxmempool_bytes mempoolexpiry_seconds s);;
  if negb fOverrideMempoolLimit && negb (exists_tx (ts_pool s) hash) then fail 0 REJECT_INSUFFICIENTFEE "mempool full"
    s
  else
    r <- TrimToSize (S (base.size (mapTx (ts_pool s)))) (re_usage env) (re_worst env) maxmempool_bytes (ts_pool s)
      [];;
    let s := set_pool (fst r) s in
    if negb (exists_tx (ts_pool s) hash) then fail 0 REJECT_INSUFFICIENTFEE "mempool full" s
    else Some (true, s).
(** Standard flags first, then the mandatory ones. *)
Definition check_scripts (tx : CTransaction) (c : View) (flags : Z) (s : TxState V) : option (bool * TxState V * View)
  :=
  r <- CheckInputs consensus blockHeight tx true flags (Precomputed tx) false (ts_state s) c;;
  let '(ok, _, st, c) := r in Some (ok, set_state st s, c).
Definition cltv_flag : Z :=
  if NetworkUpgradeActive consensus chainHeight UPGRADE_BIP65 then SCRIPT_VERIFY_CHECKLOCKTIMEVERIFY else 0.
Definition verify_and_store (tx : CTransaction) (c : View) (entry : CTxMemPoolEntry) (setAncestors : gset txid)
  (fOverrideMempoolLimit : bool)
    (s : TxState V) : option (bool * TxState V) :=
  '(ok, s, c) <- check_scripts tx c (Z.lor STANDARD_SCRIPT_VERIFY_FLAGS cltv_flag) s;;
  if negb ok then Some (false, s)
  else
    '(ok, s, c) <- check_scripts tx c (Z.lor MANDATORY_SCRIPT_VERIFY_FLAGS cltv_flag) s;;
    if negb ok then Some (false, s) else store tx entry setAncestors fOverrideMempoolLimit s.
(** With the coins read: standard inputs, signature operations, fees, ancestors, scripts. *)
Definition with_coins_read (tx : CTransaction) (nValueIn : Z) (c : View)
    (fLimitFree : bool) (nAcceptTime : Z) (fOverrideMempoolLimit fRejectAbsurdFee ignoreFees : bool) (s : TxState V) :
      option (bool * TxState V) :=
  standard <- (if fRegTest then Some true else AreInputsStandard (CoinOf c) tx);;
  if negb standard then checked (invalid REJECT_NONSTANDARD "bad-txns-nonstandard-inputs") (fun s => Some (true, s)) s
  else
    legacy <- GetLegacySigOpCount tx;;
    p2sh <- GetP2SHSigOpCount (fun o => coin_out (CoinOf c o)) tx;;
    let nSigOps := u32 (legacy + p2sh) in
    if nSigOps >? MAX_TX_SIGOPS_CURRENT
    then checked (dos_debug REJECT_NONSTANDARD "bad-txns-too-many-sigops" (re_strprintf env "%d > %d" nSigOps
      MAX_TX_SIGOPS_CURRENT))
           (fun s => Some (true, s)) s
    else
      nValueOut <- GetValueOut tx;;
      let nFees := i64 (nValueIn - nValueOut) in
      let '(dPriority, inChainInputValue) := coins_GetPriority (CoinOf c) tx chainHeight in
      let fSpendsCoinbaseOrCoinstake := existsb (fun i => fCoinBase (CoinOf c (prevout i)) ||
        fCoinStake (CoinOf c (prevout i))) (vin tx) in
      entry <- new_entry tx nFees nAcceptTime fSpendsCoinbaseOrCoinstake nSigOps inChainInputValue nValueOut;;
      let nSize := u32 (nTxSize entry) in
      let priority := entry_GetPriority dPriority chainHeight inChainInputValue (CalculateModifiedSize tx nSize)
        (chainHeight + 1) in
      '(ok, st, free) <- check_fees tx (ts_pool s) nFees nSize priority fLimitFree fRejectAbsurdFee ignoreFees
        (ts_state s) (ts_free s);;
      let s := mkTxState st (ts_pool s) (ts_coins s) free (ts_uncache s) (ts_missing s) in
      if negb ok then Some (false, s)
      else
        r <- CalculateMemPoolAncestors (ts_pool s) (GetHash tx) entry mempool_limits true;;
        match r with
        | inl _ => fail 0 REJECT_NONSTANDARD "too-long-mempool-chain" s
        | inr setAncestors => verify_and_store tx c entry setAncestors fOverrideMempoolLimit s
        end.
Definition AcceptToMemoryPoolWorker (tx : CTransaction) (fLimitFree : bool) (nAcceptTime : Z) (fOverrideMempoolLimit
  fRejectAbsurdFee ignoreFees : bool)
    (s : TxState V) : option (bool * TxState V) :=
  checked (check_alone tx) (checked (check_conflicts (ts_pool s) tx) (fun s =>
    r <- read_coins tx s;;
    let '(coins, s) := r in
    match coins with
    | None => Some (false, s)
    | Some (nValueIn, c) => with_coins_read tx nValueIn c fLimitFree nAcceptTime fOverrideMempoolLimit
      fRejectAbsurdFee ignoreFees s
    end)) (set_missing false s).
(** The coins that were read for a refused transaction are forgotten; then the coins may be
    flushed. *)
Definition AcceptToMemoryPoolWithTime (tx : CTransaction) (fLimitFree : bool) (nAcceptTime : Z) (fOverrideMempoolLimit
  fRejectAbsurdFee ignoreFees : bool)
    (s : TxState V) : option (bool * TxState V) :=
  r <- AcceptToMemoryPoolWorker tx fLimitFree nAcceptTime fOverrideMempoolLimit fRejectAbsurdFee ignoreFees
         (mkTxState (ts_state s) (ts_pool s) (ts_coins s) (ts_free s) [] (ts_missing s));;
  let '(res, s) := r in
  let coins := if res : bool then ts_coins s else foldl Uncache (ts_coins s) (ts_uncache s) in
  Some (res, set_coins (re_Flush env coins) s).
Definition AcceptToMemoryPool (tx : CTransaction) (fLimitFree fOverrideMempoolLimit fRejectInsaneFee ignoreFees :
  bool) (s : TxState V) :
  option (bool * TxState V) :=
  AcceptToMemoryPoolWithTime tx fLimitFree (re_time env) fOverrideMempoolLimit fRejectInsaneFee ignoreFees s.

(** * After a reorganization *)

(** The transactions of the disconnected blocks, latest block first, last transaction first. *)
Fixpoint readd (fAddToMempool : bool) (queued : list CTransaction) (vHashUpdate : list txid) (s : TxState V) : option
  (list txid * TxState V) :=
  match queued with
  | [] => Some (vHashUpdate, s)
  | tx :: queued =>
      '(added, s) <- (if negb fAddToMempool || IsCoinBase tx || IsCoinStake tx then Some (false, s)
                      else AcceptToMemoryPool tx false true false false (set_state CValidationState_default s));;
      if negb added : bool then
        p <- removeRecursive (ts_pool s) tx;; readd fAddToMempool queued vHashUpdate (set_pool p s)
      else readd fAddToMempool queued (if exists_tx (ts_pool s) (GetHash tx) then vHashUpdate ++ [GetHash tx] else
        vHashUpdate) s
  end.
Definition UpdateMempoolForReorg (disconnectpool : list CTransaction) (fAddToMempool : bool) (s : TxState V) : option
  (TxState V) :=
  '(vHashUpdate, s) <- readd fAddToMempool (rev disconnectpool) [] s;;
  p <- UpdateTransactionsFromBlock (ts_pool s) vHashUpdate;;
  tip <- Tip (re_chainActive env);; b <- re_idx env !! tip;;
  p <- removeForReorg (fun tx => match CheckFinalTx tx with Some f => f | None => true end) (fun o =>
    fst (AccessCoin (ts_coins s) o))
         (u32 (nHeight b + 1)) (nCoinbaseMaturity consensus) p;;
  LimitMempoolSize maxmempool_bytes mempoolexpiry_seconds (set_pool p s).
End Worker.
