(* ===== verification/MempoolView.v ===== *)
(** The view [AcceptToMemoryPool] reads through: the pool over the coins of the tip is a
    readable view; reading only fills caches; what is cached for a transaction is found again
    after the view is cut off from the pool and the tip, so [CheckInputs] does not notice. *)
From Stdlib Require Import String SpecFloat.
From Stdlib Require Import ZArith Lia List Bool.
From stdpp Require Import base list gmap sets relations.
From S2P Require Import Prelude Uint256 Consensus Pow Serialize Script Interpreter ScriptTheorems Codecs Standard Transaction TxVerify Policy SigHash Compressor Coins Mempool MempoolInv MempoolOps MempoolAdd MempoolReorg MempoolTheorems Ledger Connect Inputs Block Payments BlockCheck Chain Accept ConnectBlock ConnectTheorems MempoolAccept.
Import ListNotations.
Local Open Scope Z_scope.
Local Open Scope passion_scope.
#[local] Remove Hints finite.finite_countable : typeclass_instances.

(** * The pool over the coins of the tip is a view *)

(** The transactions of the pool come first; its nullifiers count as spent. *)
Definition pool_utxo (p : CTxMemPool) (l : Ledger) (o : COutPoint) : option Coin :=
  match mapTx p !! out_hash o with
  | Some e => out <- vout (e_tx e) !! Z.to_nat (out_n o);; live (mkCoin false false out MEMPOOL_HEIGHT)
  | None => l_utxo l o
  end.
Definition pool_ledger (p : CTxMemPool) (l : Ledger) : Ledger :=
  mkLedger (pool_utxo p l) (fun n => nullifierExists p n || l_spent l n) (l_best l) (l_anchors l) (l_anchor l).

Section Reading.
Context `{STL : SaplingTreeLib} {V : Type} {view : CoinsReader V}.
Abbreviation View := (CCoinsViewCache (Backend V)).

Lemma pool_ledger_leq p l l' : leq l l' -> leq (pool_ledger p l) (pool_ledger p l').
Proof.
  intros (H1 & H2 & H3). split; [|split; [|done]]; [intros o|intros n]; cbn; [|by rewrite H2].
  unfold pool_utxo. destruct (mapTx p !! out_hash o); [done|apply H1].
Qed.
Definition backend_ledger (b : Backend V) : Ledger :=
  match b with
  | BackDummy => mkLedger (fun _ => None) (fun _ => false) (repeat 0 32) (fun _ => false) (repeat 0 32)
  | BackPool p tip => pool_ledger p (cache_ledger tip)
  end.
Lemma mempool_GetCoin_spec p tip o r tip' : cache_ok tip -> mempool_GetCoin p tip o = (r, tip') ->
  cache_ok tip' /\ leq (cache_ledger tip') (cache_ledger tip) /\
  pool_utxo p (cache_ledger tip) o = match r with Some c => live c | None => None end.
Proof.
  intros Hok. unfold mempool_GetCoin, pool_utxo. destruct (mapTx p !! out_hash o) as [e|].
  { intros [= <- <-]. split; [done|]. split; [done|]. destruct (vout (e_tx e) !! Z.to_nat (out_n o)); reflexivity. }
  unfold cache_GetCoin. destruct (FetchCoin tip o) as [it t1] eqn:Ef. intros [= <- <-].
  destruct (FetchCoin_spec _ _ _ _ Hok Ef) as (H1 & H2 & _ & _ & H3). split; [done|]. split; [done|]. cbn. rewrite H3.
  destruct it as [e|]; [|done]. cbn. unfold live. destruct (IsSpent (coin e)) eqn:Es; [done|]. by rewrite Es.
Qed.
#[export] Instance Backend_reader : CoinsReader (Backend V).
Proof.
  refine {| view_functions := Backend_functions;
            view_ok b := match b with BackDummy => False | BackPool _ tip => cache_ok tip end;
            ledger := backend_ledger |}.
  - intros [|p tip] o r v' Hok; [done|]. cbn [GetCoin Backend_functions].
    destruct (mempool_GetCoin p tip o) as [c t] eqn:E.
    intros [= <- <-]. destruct (mempool_GetCoin_spec _ _ _ _ _ Hok E) as (H1 & H2 & H3).
    split; [done|]. split; [by apply pool_ledger_leq|done].
  - intros [|p tip] n b v' Hok; [done|]. cbn. destruct (nullifierExists p n) eqn:Ep; [by intros [= <- <-]|].
    destruct (cache_GetNullifier tip n) as [c t] eqn:E. intros [= <- <-].
    destruct (cache_GetNullifier_spec _ _ _ _ Hok E) as (H1 & H2 & _ & H3). split; [done|].
    split; [by apply pool_ledger_leq|done].
  - intros [|p tip] h v' Hok; [done|]. cbn. destruct (cache_GetBestBlock tip) as [c t] eqn:E. intros [= <- <-].
    destruct (cache_GetBestBlock_spec _ _ _ Hok E) as (H1 & H2 & _ & _ & H3). split; [done|].
    split; [by apply pool_ledger_leq|done].
  - intros [|p tip] rt r v' Hok; [done|]. cbn. destruct (cache_GetSaplingAnchorAt tip rt) as [c t] eqn:E.
    intros [= <- <-].
    destruct (cache_GetSaplingAnchorAt_spec _ _ _ _ Hok E) as (H1 & H2 & _ & H3).
    split; [done|]. split; [by apply pool_ledger_leq|]. destruct c; [|done]. by destruct H3 as (? & ? & _).
  - intros [|p tip] h v' Hok; [done|]. cbn. destruct (cache_GetBestAnchor tip) as [c t] eqn:E. intros [= <- <-].
    destruct (cache_GetBestAnchor_spec _ _ _ Hok E) as (H1 & H2 & _ & _ & H3). split; [done|].
    split; [by apply pool_ledger_leq|done].
  - intros [|p tip] Hok; [done|]. cbn. by apply cache_empty_root.
Defined.

(** ** Reading through the view *)

(** The view lies over the pool and coins that stand for the ledger. *)
Definition over (p : CTxMemPool) (l : Ledger) (c : View) : Prop := exists tip, base c = BackPool p tip /\
  models tip l.
Definition reading (p : CTxMemPool) (l : Ledger) (c : View) : Prop := over p l c /\ models c (pool_ledger p l).
(** What was cached stays cached. *)
Record grows (c c' : View) : Prop := {
  gr_coins : forall o e, cacheCoins c !! o = Some e -> cacheCoins c' !! o = Some e;
  gr_nullifiers : forall n e, cacheSaplingNullifiers c !! n = Some e -> cacheSaplingNullifiers c' !! n = Some e;
  gr_anchors : forall r e, cacheSaplingAnchors c !! r = Some e -> cacheSaplingAnchors c' !! r = Some e;
  gr_hash : all_zero (hashBlock c) = false -> hashBlock c' = hashBlock c
}.
#[export] Instance grows_preorder : PreOrder grows.
Proof.
  split; [by split|]. intros c c1 c2 [A1 A2 A3 A4] [B1 B2 B3 B4]. split; eauto.
  intros Hz. rewrite B4; [by apply A4|by rewrite A4].
Qed.
(** One more element of a map that was not there. *)
Lemma insert_grows {K} `{Countable K} {A} (m : gmap K A) k a : m !! k = None ->
  forall k' a', m !! k' = Some a' -> <[k := a]> m !! k' = Some a'.
Proof. intros Hn k' a' Hk. rewrite lookup_insert_ne; [done|congruence]. Qed.

Lemma new_reading p tip l : models tip l -> reading p l (CCoinsViewCache_new (BackPool p tip)).
Proof.
  intros Hm. split; [by exists tip|]. eapply models_leq; [apply new_cache_models; exact (proj1 Hm)|].
  cbn. apply pool_ledger_leq, Hm.
Qed.
Lemma FetchCoin_reading p l c o r c' : reading p l c -> FetchCoin c o = (r, c') ->
  reading p l c' /\ grows c c' /\ cacheCoins c' !! o = r /\ pool_utxo p l o = match r with Some e =>
    live (coin e) | None => None end.
Proof.
  intros [(tip & Eb & Ht) Hm] Hf. destruct (FetchCoin_models _ _ _ _ _ Hm Hf) as (Hm' & _ & Hr & Hu).
  assert (G : over p l c' /\ grows c c').
  { unfold FetchCoin in Hf. destruct (cacheCoins c !! o) as [it|] eqn:Ec;
    [injection Hf as <- <-; split; [by exists tip|done]|].
    rewrite Eb in Hf. cbn [GetCoin view_functions Backend_reader Backend_functions] in Hf.
    destruct (mempool_GetCoin p tip o) as [tmp t1] eqn:Eg.
    destruct (mempool_GetCoin_spec _ _ _ _ _ (proj1 Ht) Eg) as (T1 & T2 & _).
    assert (Ht1 : models t1 l) by (by eapply models_read).
    destruct tmp as [u|]; injection Hf as <- <-; (split; [by exists t1|]); split; cbn; try done.
    by apply insert_grows. }
  split; [split; [apply G|done]|]. split; [apply G|]. split; [done|exact Hu].
Qed.
Lemma HaveCoin_reading p l c o b c' : reading p l c -> HaveCoin c o = (b, c') ->
  reading p l c' /\ grows c c' /\ (b = true -> exists e, cacheCoins c' !! o = Some e /\ IsSpent (coin e) = false /\
    pool_utxo p l o = Some (coin e)) /\
  (b = false -> pool_utxo p l o = None).
Proof.
  intros Hr. unfold HaveCoin. destruct (FetchCoin c o) as [it c1] eqn:Ef. intros [= <- <-].
  destruct (FetchCoin_reading _ _ _ _ _ _ Hr Ef) as (H1 & H2 & H3 & H4). split; [done|]. split; [done|]. rewrite H4.
  destruct it as [e|]; [|done]. unfold live. destruct (IsSpent (coin e)) eqn:Es; cbn; split; try done. intros _.
  by exists e.
Qed.
Lemma GetNullifier_reading p l c n b c' : reading p l c -> cache_GetNullifier c n = (b, c') ->
  reading p l c' /\ grows c c' /\ (exists e, cacheSaplingNullifiers c' !! n = Some e /\ entered e = b) /\
    nullifierExists p n || l_spent l n = b.
Proof.
  intros [(tip & Eb & Ht) Hm] Hf. destruct (cache_GetNullifier_spec _ _ _ _ (proj1 Hm) Hf) as (H1 & H2 & _ & H3).
  assert (Hm' : models c' (pool_ledger p l)) by (by eapply models_read).
  assert (Hs : nullifierExists p n || l_spent l n = b) by (rewrite <- H3; symmetry; apply (proj2 Hm)).
  unfold cache_GetNullifier in Hf. destruct (cacheSaplingNullifiers c !! n) as [e|] eqn:Ec.
  { injection Hf as <- <-. split; [split; [by exists tip|done]|]. split; [done|]. split; [by exists e|done]. }
  assert (R : exists tmp t1, models t1 l /\ GetNullifier (base c) n = (tmp, BackPool p t1)).
  { rewrite Eb. cbn [GetNullifier view_functions Backend_reader Backend_functions on_tip].
    destruct (nullifierExists p n); [by exists true, tip|]. destruct (cache_GetNullifier tip n) as [tmp t1] eqn:Eg.
    destruct (cache_GetNullifier_spec _ _ _ _ (proj1 Ht) Eg) as (T1 & T2 & _). exists tmp, t1.
    split; [by eapply models_read|done]. }
  destruct R as (tmp & t1 & Ht1 & Eg). rewrite Eg in Hf. injection Hf as <- <-.
  split; [split; [by exists t1|done]|]. split; [split; cbn; try done; by apply insert_grows|].
  split; [|done]. cbn. rewrite lookup_insert_eq. by eexists.
Qed.
Lemma GetAnchor_reading p l c rt r c' : reading p l c -> cache_GetSaplingAnchorAt c rt = (r, c') ->
  reading p l c' /\ grows c c' /\
  match r with Some _ => l_anchors l rt = true /\ exists e, cacheSaplingAnchors c' !! rt = Some e /\
    an_entered e = true
             | None => l_anchors l rt = false end.
Proof.
  intros [(tip & Eb & Ht) Hm] Hf. destruct (cache_GetSaplingAnchorAt_spec _ _ _ _ (proj1 Hm) Hf) as (H1 & H2 & _ &
  H3).
  assert (Hm' : models c' (pool_ledger p l)) by (by eapply models_read).
  assert (Hs : cache_has_anchor c rt = l_anchors l rt) by apply (proj2 Hm).
  unfold cache_GetSaplingAnchorAt in Hf. destruct (cacheSaplingAnchors c !! rt) as [e|] eqn:Ec.
  { injection Hf as <- <-. split; [split; [by exists tip|done]|]. split; [done|]. rewrite <- Hs.
    unfold cache_has_anchor in *. rewrite Ec in *. destruct (an_entered e) eqn:Ea; [|done]. split; [done|].
      by exists e. }
  rewrite Eb in Hf. cbn [GetSaplingAnchorAt view_functions Backend_reader Backend_functions on_tip] in Hf.
  destruct (cache_GetSaplingAnchorAt tip rt) as [tmp t1] eqn:Eg.
  destruct (cache_GetSaplingAnchorAt_spec _ _ _ _ (proj1 Ht) Eg) as (T1 & T2 & _).
  assert (Ht1 : models t1 l) by (by eapply models_read).
  destruct tmp as [u|]; injection Hf as <- <-.
  - split; [split; [by exists t1|done]|]. split; [split; cbn; try done; by apply insert_grows|].
    split; [rewrite <- Hs; by apply H3|]. cbn. rewrite lookup_insert_eq. by eexists.
  - split; [split; [by exists t1|done]|]. split; [by split|]. by rewrite <- Hs.
Qed.
Lemma GetBestBlock_reading p l c h c' : reading p l c -> cache_GetBestBlock c = (h, c') ->
  reading p l c' /\ grows c c' /\ h = l_best l /\ hashBlock c' = h.
Proof.
  intros [(tip & Eb & Ht) Hm] Hf. destruct (cache_GetBestBlock_spec _ _ _ (proj1 Hm) Hf) as (H1 & H2 & _ & H4 & H3).
  assert (Hm' : models c' (pool_ledger p l)) by (by eapply models_read).
  assert (Hs : cache_best c = l_best l) by apply (proj2 Hm).
  unfold cache_GetBestBlock in Hf. destruct (all_zero (hashBlock c)) eqn:Ez.
  2:{ injection Hf as <- <-. split; [split; [by exists tip|done]|]. split; [done|]. by split; [congruence|]. }
  rewrite Eb in Hf. cbn [GetBestBlock view_functions Backend_reader Backend_functions on_tip] in Hf.
  destruct (cache_GetBestBlock tip) as [h0 t1] eqn:Eg.
  destruct (cache_GetBestBlock_spec _ _ _ (proj1 Ht) Eg) as (T1 & T2 & _).
  assert (Ht1 : models t1 l) by (by eapply models_read). injection Hf as <- <-.
  split; [split; [by exists t1|done]|]. split; [split; cbn; try done; by rewrite Ez|]. split; [congruence|done].
Qed.

(** ** What is cached for a transaction *)

Definition coin_cached (p : CTxMemPool) (l : Ledger) (c : View) (o : COutPoint) : Prop :=
  exists e, cacheCoins c !! o = Some e /\ IsSpent (coin e) = false /\ pool_utxo p l o = Some (coin e).
Definition spend_cached (c : View) (s : SpendDescription) : Prop :=
  (exists e, cacheSaplingNullifiers c !! nullifier s = Some e /\ entered e = false) /\
  (exists e, cacheSaplingAnchors c !! anchor s = Some e /\ an_entered e = true).
Definition spends_of (tx : CTransaction) : list SpendDescription :=
  if IsShieldedTx tx then match sapData tx with Some d => vShieldedSpend d | None => [] end else [].
Record cached (p : CTxMemPool) (l : Ledger) (c : View) (tx : CTransaction) : Prop := {
  ca_coins : Forall (fun i => coin_cached p l c (prevout i)) (vin tx);
  ca_spends : Forall (spend_cached c) (spends_of tx);
  ca_hash : all_zero (hashBlock c) = false
}.
Lemma coin_cached_grows p l c c' o : grows c c' -> coin_cached p l c o -> coin_cached p l c' o.
Proof. intros G (e & H & R). exists e. split; [by apply (gr_coins _ _ G)|done]. Qed.
Lemma spend_cached_grows c c' s : grows c c' -> spend_cached c s -> spend_cached c' s.
Proof. intros G [(e & H1 & H2) (f & H3 & H4)]. split; [exists e|exists f]; (split; [|done]); by apply G. Qed.

Lemma already_known_reading p l hash n : forall out c uncache known c' uncache', reading p l c ->
  already_known hash out n c uncache = (known, c', uncache') -> reading p l c' /\ grows c c' /\
  (known = false -> forall k, (k < n)%nat -> pool_utxo p l (mkOutPoint hash (u32 (out + Z.of_nat k))) = None).
Proof.
  induction n as [|n IH]; intros out c uncache known c' uncache' Hr; cbn [already_known].
  { intros [= <- <- <-]. split; [done|]. split; [done|]. lia. }
  cbv zeta. destruct (HaveCoin c (mkOutPoint hash (u32 out))) as [have c1] eqn:Eh.
  destruct (HaveCoin_reading _ _ _ _ _ _ Hr Eh) as (R1 & G1 & _ & Hn). destruct have; [by intros [= <- <- <-]|].
  intros H. destruct (IH _ _ _ _ _ _ R1 H) as (R2 & G2 & Hk). split; [done|]. split; [by etransitivity|].
  intros E k Lk. destruct k as [|k]; [rewrite Z.add_0_r; by apply Hn|].
  replace (out + Z.of_nat (S k)) with (out + 1 + Z.of_nat k) by lia.
  apply (Hk E). lia.
Qed.
Lemma inputs_exist_reading p l ins : forall c uncache found c' uncache', reading p l c ->
  inputs_exist ins c uncache = (found, c', uncache') -> reading p l c' /\ grows c c' /\
  (found = true -> Forall (fun i => coin_cached p l c' (prevout i)) ins).
Proof.
  induction ins as [|i ins IH]; intros c uncache found c' uncache' Hr; cbn [inputs_exist].
  { by intros [= <- <- <-]. }
  cbv zeta. destruct (HaveCoin c (prevout i)) as [have c1] eqn:Eh.
  destruct (HaveCoin_reading _ _ _ _ _ _ Hr Eh) as (R1 & G1 & Hy & _). destruct have; [|by intros [= <- <- <-]].
  intros H. destruct (IH _ _ _ _ _ R1 H) as (R2 & G2 & Hk). split; [done|]. split; [by etransitivity|].
  intros E. apply Forall_cons. split; [|by apply Hk]. by apply (coin_cached_grows p l c1), Hy.
Qed.
Lemma shielded_reading p l ds : forall c b c', reading p l c -> shielded_requirements ds c = (b, c') ->
  reading p l c' /\ grows c c' /\ (b = true -> Forall (spend_cached c') ds).
Proof.
  induction ds as [|d ds IH]; intros c b c' Hr; cbn [shielded_requirements]; [by intros [= <- <-]|].
  destruct (cache_GetNullifier c (nullifier d)) as [bn c1] eqn:En.
  destruct (GetNullifier_reading _ _ _ _ _ _ Hr En) as (R1 & G1 & (e & E1 & E2) & _).
  destruct bn; [by intros [= <- <-]|]. destruct (cache_GetSaplingAnchorAt c1 (anchor d)) as [t c2] eqn:Ea.
  destruct (GetAnchor_reading _ _ _ _ _ _ R1 Ea) as (R2 & G2 & Ht). destruct t as [t|].
  2:{ intros [= <- <-]. split; [done|]. split; [by etransitivity|done]. }
  destruct Ht as (_ & f & F1 & F2). intros H. destruct (IH _ _ _ R2 H) as (R3 & G3 & Hk). split; [done|].
  split; [etransitivity; [exact G1|]; by etransitivity|]. intros E. apply Forall_cons. split; [|by apply Hk].
  apply (spend_cached_grows c2); [done|]. split; [exists e|by exists f]. split; [|done].
  by apply (gr_nullifiers _ _ G2).
Qed.
Lemma HaveShieldedRequirements_reading p l tx c b c' : reading p l c -> HaveShieldedRequirements c tx = (b, c') ->
  reading p l c' /\ grows c c' /\ (b = true -> Forall (spend_cached c') (spends_of tx)).
Proof.
  intros Hr. unfold HaveShieldedRequirements, spends_of. destruct (IsShieldedTx tx); [|by intros [= <- <-]].
  destruct (sapData tx); [by apply shielded_reading|by intros [= <- <-]].
Qed.

(** ** Cut off from what lies below, the cache still answers *)

Definition detached (c : View) (b : Backend V) : View := with_base c b.
Lemma AccessCoin_detached p l c b o : coin_cached p l c o -> exists u, pool_utxo p l o = Some u /\
  IsSpent u = false /\
  AccessCoin (detached c b) o = (u, detached c b) /\ HaveCoin (detached c b) o = (true, detached c b).
Proof.
  intros (e & H1 & H2 & H3). exists (coin e). split; [done|]. split; [done|]. unfold AccessCoin, HaveCoin, FetchCoin.
  cbn [detached with_base cacheCoins]. rewrite H1. by rewrite H2.
Qed.
Lemma have_inputs_detached p l c b ins : Forall (fun i => coin_cached p l c (prevout i)) ins ->
  have_inputs_loop ins (detached c b) = (true, detached c b).
Proof.
  induction 1 as [|i ins Hi HF IH]; [done|]. cbn [have_inputs_loop].
    destruct (AccessCoin_detached p l c b _ Hi) as (u & _ & _ & _ & ->). done.
Qed.
Lemma shielded_detached c b ds : Forall (spend_cached c) ds -> shielded_requirements ds (detached c b) = (true,
  detached c b).
Proof.
  induction 1 as [|s ds [(e & H1 & H2) (f & H3 & H4)] HF IH]; [done|]. cbn [shielded_requirements].
  assert (En : cache_GetNullifier (detached c b) (nullifier s) = (false, detached c b))
    by (unfold cache_GetNullifier; cbn [detached with_base cacheSaplingNullifiers]; by rewrite H1, H2).
  assert (Ea : cache_GetSaplingAnchorAt (detached c b) (anchor s) = (Some (tree f), detached c b))
    by (unfold cache_GetSaplingAnchorAt; cbn [detached with_base cacheSaplingAnchors]; by rewrite H3, H4).
  by rewrite En, Ea.
Qed.
Lemma requirements_detached p l c b tx : cached p l c tx -> HaveShieldedRequirements (detached c b) tx = (true,
  detached c b).
Proof.
  intros [_ Hs _]. unfold HaveShieldedRequirements. unfold spends_of in Hs. destruct (IsShieldedTx tx); [|done].
  destruct (sapData tx); [by apply shielded_detached|done].
Qed.

Section Detached.
Context {abi : Abi} {crypto : ScriptCrypto} {sig : SigCrypto}.
Variables (consensus : Params) (p : CTxMemPool) (l : Ledger) (c : View).
(** A computation that leaves the cut-off cache as it is, whatever lies below. *)
Definition steady {A} (f : View -> option (A * View)) : Prop :=
  exists r : option A, forall b, f (detached c b) = option_map (fun a => (a, detached c b)) r.
Lemma steady_Some {A} (a : A) : steady (fun c => Some (a, c)).
Proof. by exists (Some a). Qed.
Lemma steady_None {A} : steady (fun c => None : option (A * View)).
Proof. by exists None. Qed.

Lemma check_fee_steady tx v st : steady (fun c => check_fee consensus tx v st c).
Proof.
  unfold check_fee, vaccept, vreject. destruct (GetShieldedValueIn tx); cbn [obind]; [|apply steady_None].
  destruct (IsCoinStake tx); [apply steady_Some|]. destruct (GetValueOut tx); cbn [obind]; [|apply steady_None].
  cbv zeta. repeat match goal with |- context [if ?b then _ else _] => destruct b end; apply steady_Some.
Qed.
Lemma input_values_steady h tx st ins : Forall (fun i => coin_cached p l c (prevout i)) ins -> forall acc,
  steady (fun c => input_values consensus h ins acc (check_fee consensus tx) st c).
Proof.
  induction 1 as [|i ins Hi HF IH]; intros acc; cbn [input_values]; [apply check_fee_steady|].
  destruct (AccessCoin_detached p l c BackDummy _ Hi) as (u & Hu & Hs & _).
  assert (E : forall b, AccessCoin (detached c b) (prevout i) = (u, detached c b)).
  { intros b. destruct (AccessCoin_detached p l c b _ Hi) as (u' & Hu' & _ & E & _).
    by replace u with u' by congruence. }
  unfold steady in *. setoid_rewrite E. rewrite Hs. unfold vreject.
  repeat match goal with |- context [if ?b then _ else _] => destruct b end; first [apply IH|apply steady_Some].
Qed.
Lemma script_checks_steady tx flags precom pv ins : Forall (fun i => coin_cached p l c (prevout i)) ins ->
  forall i checks st,
  steady (fun c => script_checks tx flags precom pv ins i checks st c).
Proof.
  induction 1 as [|i ins Hi HF IH]; intros n checks st; cbn [script_checks];
    [apply (steady_Some (true, checks, st))|].
  destruct (AccessCoin_detached p l c BackDummy _ Hi) as (u & Hu & Hs & _).
  assert (E : forall b, AccessCoin (detached c b) (prevout i) = (u, detached c b)).
  { intros b. destruct (AccessCoin_detached p l c b _ Hi) as (u' & Hu' & _ & E & _).
    by replace u with u' by congruence. }
  unfold steady in *. setoid_rewrite E. rewrite Hs. cbv zeta.
  repeat match goal with
    | |- exists r, forall b, script_checks _ _ _ _ _ _ _ _ _ = _ => apply IH
    | |- exists r, forall b, Some (?a, _) = _ => by exists (Some a)
    | |- exists r, forall b, None = _ => by exists None
    | |- context [if ?b then _ else _] => destruct b
    | |- context [match run_check ?k with _ => _ end] => destruct (run_check k)
    | |- context [let '(_, _) := ?x in _] => destruct x
    end.
Qed.
Lemma CheckTxInputs_steady tx h st : cached p l c tx -> steady (fun c => CheckTxInputs consensus tx h st c).
Proof.
  intros Hca. destruct (input_values_steady h tx st (vin tx) (ca_coins _ _ _ _ Hca) 0) as [r Hr]. exists r. intros b.
  unfold CheckTxInputs, HaveInputs. rewrite (have_inputs_detached p l c b _ (ca_coins _ _ _ _ Hca)).
  destruct (_ && _); cbn [negb]; rewrite (requirements_detached p l c b tx Hca); cbn [negb]; apply Hr.
Qed.
Lemma CheckInputs_steady bh tx fs flags precom pv st : cached p l c tx ->
  steady (fun c => CheckInputs consensus bh tx fs flags precom pv st c).
Proof.
  intros Hca. unfold CheckInputs. destruct (negb (IsCoinBase tx) && negb (HasZerocoinSpendInputs tx));
  [|apply (steady_Some (true, [], st))].
  assert (Eb : forall b, GetSpendHeight bh (detached c b) = (n <- bh (hashBlock c);;
  Some (i32 (n + 1), detached c b))).
  { intros b. unfold GetSpendHeight, cache_GetBestBlock. cbn [detached with_base hashBlock].
    by rewrite (ca_hash _ _ _ _ Hca). }
  unfold steady. destruct (bh (hashBlock c)) as [n|]; cbn [obind] in Eb; [|exists None; intros b; by rewrite Eb].
  destruct (CheckTxInputs_steady tx (i32 (n + 1)) st Hca) as [r1 H1].
  destruct r1 as [[[] st1]|]; [|exists (Some (false, [], st1))|exists None];
  try (intros b; rewrite Eb; cbn [obind fst snd]; by rewrite H1).
  destruct fs; [|exists (Some (true, [], st1)); intros b; rewrite Eb; cbn [obind fst snd]; by rewrite H1].
  destruct (script_checks_steady tx flags precom pv (vin tx) (ca_coins _ _ _ _ Hca) 0 [] st1) as [r2 H2].
  exists r2. intros b. rewrite Eb. cbn [obind fst snd]. rewrite H1. cbn [option_map obind fst snd negb]. apply H2.
Qed.
End Detached.
End Reading.
