(* ===== verification/MempoolRelay.v ===== *)
(** What [AcceptToMemoryPool] guarantees: every step of the worker returns; an accepted
    transaction has passed every rule; the pool stays backed by the ledger the coins stand
    for. *)
From Stdlib Require Import String SpecFloat.
From Stdlib Require Import ZArith Lia List Bool.
From stdpp Require Import base list gmap sets relations.
From S2P Require Import Prelude Uint256 Consensus Pow Serialize Script Interpreter ScriptTheorems Codecs Standard Transaction TxVerify Policy SigHash Compressor Coins Mempool MempoolInv MempoolOps MempoolAdd MempoolReorg MempoolTheorems Ledger Connect Inputs Block Payments BlockCheck Chain Accept ConnectBlock ConnectTheorems MempoolAccept MempoolView.
Import ListNotations.
Local Open Scope Z_scope.
Local Open Scope passion_scope.
#[local] Remove Hints finite.finite_countable : typeclass_instances.

(** * Every check returns *)

Section Returns.
Context {abi : Abi} {crypto : ScriptCrypto} {sig : SigCrypto} {SV : SaplingVerifier}.

Lemma sigop_loop_returns acc fuel : forall pc lastOpcode n, (length pc <= fuel)%nat -> exists r,
  sigop_loop fuel acc pc lastOpcode n = Some r.
Proof.
  induction fuel as [|f IH]; intros [|x pc] lastOpcode n Hf; try by eexists. { cbn in Hf. lia. }
  cbn [sigop_loop]. destruct (GetOp (x :: pc)) as [[[op d] pc']|] eqn:E; [|by eexists].
  pose proof (GetOp_progress _ _ _ _ E) as Hp. cbn [length] in Hp, Hf.
  assert (Hr : forall m, exists r, sigop_loop f acc pc' op m = Some r) by (intros m; apply IH; lia).
  repeat match goal with |- context [if ?b then _ else _] => destruct b eqn:? end; cbn [obind]; try apply Hr.
  repeat match goal with H : _ && _ = true |- _ => apply andb_true_iff in H as [? ?] end.
  destruct (DecodeOP_N_range lastOpcode) as (k & -> & _); [split; [apply Z.geb_le|apply Z.leb_le]; done|apply Hr].
Qed.
Lemma GetSigOpCount_returns s b : exists n, GetSigOpCount s b = Some n.
Proof. by apply sigop_loop_returns. Qed.
Lemma add_sigops_returns l : Forall (fun o => exists n, o = Some n) l -> forall acc, exists n,
  add_sigops l acc = Some n.
Proof. induction 1 as [|o l [n ->] HF IH]; intros acc; cbn; [by eexists|apply IH]. Qed.
Lemma GetLegacySigOpCount_returns tx : exists n, GetLegacySigOpCount tx = Some n.
Proof.
  unfold GetLegacySigOpCount.
  destruct (add_sigops_returns (map (fun i => GetSigOpCount (scriptSig i) false) (vin tx))) with (acc :=
  0) as (n & ->);
    [apply Forall_map, Forall_true; intros; apply GetSigOpCount_returns|]. cbn [obind].
  apply add_sigops_returns, Forall_map, Forall_true. intros; apply GetSigOpCount_returns.
Qed.
Lemma GetP2SHSigOpCount_returns AccessCoin tx : exists n, GetP2SHSigOpCount AccessCoin tx = Some n.
Proof.
  unfold GetP2SHSigOpCount. destruct (_ || _); [by eexists|]. apply add_sigops_returns, Forall_map, Forall_true.
    intros i.
  cbv zeta. destruct (IsPayToScriptHash _) eqn:E; [|by eexists]. unfold GetSigOpCount_P2SH. rewrite E. cbn [negb].
  destruct (last_push_loop_total (length (scriptSig i)) (scriptSig i) []) as [[d|] ->];
  [lia|apply GetSigOpCount_returns|by eexists].
Qed.

Variables (chain : ChainParams) (zc : ZerocoinEnv).
Lemma CheckTransaction_returns tx zact vs fake cold sact st : 0 <= nMaxMoneyOut (chain_consensus chain) < 2 ^ 62 ->
  balance_ok tx -> HasZerocoinSpendInputs tx = false ->
  exists r, CheckTransaction (chain_consensus chain) zc tx zact vs fake cold sact st = Some r.
Proof.
  intros Hm Hb Hz. apply returns_CheckTransaction_any; [done|done|]. intros _ txin Hin Hs. exfalso.
  unfold HasZerocoinSpendInputs in Hz. rewrite <- not_true_iff_false in Hz. apply Hz, existsb_exists. exists txin.
  by rewrite Hs.
Qed.
Lemma ContextualCheckTransaction_returns tx h mined ibd st : exists r,
  ContextualCheckTransaction chain tx h mined ibd st = Some r.
Proof.
  unfold ContextualCheckTransaction. cbv zeta.
  repeat match goal with
    | |- exists r, Some _ = Some r => by eexists
    | |- exists r, reject _ _ _ _ = Some r => by eexists
    | |- context [if ?b then _ else _] => destruct b
    | |- context [match sapData ?t with _ => _ end] => destruct (sapData t)
    | |- context [match SignatureHash ?a ?b ?c ?d ?e ?f ?g with _ => _ end] => destruct (SignatureHash a b c d e f g)
    | |- context [let '(_, _) := ?x in _] => destruct x
    end.
Qed.
End Returns.

(** * The steps of the worker *)

Section Steps.
Context `{STL : SaplingTreeLib} {V : Type} {view : CoinsReader V} {abi : Abi} {crypto : ScriptCrypto} {sig :
  SigCrypto} {SV : SaplingVerifier}.
Variables (chain : ChainParams) (zc : ZerocoinEnv) (env : RelayEnv V).
Abbreviation consensus := (chain_consensus chain).
Abbreviation chainHeight := (Height (re_chainActive env)).
Abbreviation View := (CCoinsViewCache (Backend V)).
Implicit Types (s : TxState V) (l : Ledger).

(** A transaction as it is read from the wire. *)
Record tx_wire (tx : CTransaction) : Prop := {
  tw_scripts : Forall (fun i => bytes_ok (scriptSig i)) (vin tx);
  tw_outputs : Forall (fun o => bytes_ok (scriptPubKey o)) (vout tx);
  tw_size : Z.of_nat (length (SerializeTransaction tx)) < 2 ^ 32;
  tw_few : Z.of_nat (length (vout tx)) < 2 ^ 32;
  tw_balance : balance_ok tx
}.
(** The tip of the active chain, on which the coins stand, and what trimming needs: an empty
    pool is small enough, another has an entry with the lowest score. *)
Record relay_ready l : Prop := {
  rr_tip : exists t b m, Tip (re_chainActive env) = Some t /\ re_idx env !! t = Some b /\ nHeight b = chainHeight /\
    GetMedianTimePast (re_idx env) t = Some m /\ l_best l = t;
  rr_hash : all_zero (l_best l) = false;
  rr_height : 0 <= chainHeight < 2 ^ 31 - 1;
  rr_empty : forall q, mapTx q = ∅ -> re_usage env q <= maxmempool_bytes env;
  rr_worst : forall q, mapTx q <> ∅ -> exists x, re_worst env q = Some x /\ x ∈ dom (mapTx q);
  rr_money : 0 <= nMaxMoneyOut consensus < 2 ^ 62
}.

(** ** The transaction alone *)

Record alone_ok (tx : CTransaction) : Prop := {
  al_sapling : re_sporkActive env SPORK_20_SAPLING_MAINTENANCE = true -> IsShieldedTx tx = false;
  al_zerocoin : ContainsZerocoins tx = false;
  al_checked : exists st st', CheckTransaction consensus zc tx (NetworkUpgradeActive consensus chainHeight UPGRADE_ZC)
    (re_verifyZerocoinSignature env) (isBlockBetweenFakeSerialAttackRange chain chainHeight)
    (negb (re_sporkActive env SPORK_19_COLDSTAKING_MAINTENANCE)) (NetworkUpgradeActive consensus chainHeight
      UPGRADE_V5_0) st =
    Some (true, st');
  al_context : exists st st', ContextualCheckTransaction chain tx (chainHeight + 1) false (re_isIBD env) st = Some
    (true, st');
  al_coinbase : IsCoinBase tx = false;
  al_coinstake : IsCoinStake tx = false;
  al_final : CheckFinalTx env tx = Some true;
  al_standard : standard_tx consensus (re_policy env) (re_adjustedTime env) tx (chainHeight + 1);
  al_out : GetValueOut tx = Some (value_out tx) /\ 0 <= value_out tx <= nMaxMoneyOut consensus;
  al_in : GetShieldedValueIn tx = Some (shielded_in tx) /\ 0 <= shielded_in tx <= nMaxMoneyOut consensus
}.
Lemma and_then_returns (P : Prop) (c k : Check) (Q : Prop) st : (exists b st', c st = Some (b, st') /\ (b = true ->
  P)) ->
  (P -> forall st', exists b st'', k st' = Some (b, st'') /\ (b = true -> Q)) ->
  exists b st', and_then c k st = Some (b, st') /\ (b = true -> Q).
Proof.
  intros (b & st1 & E & HP) Hk. unfold and_then. rewrite E. cbn [obind].
  destruct b; [by apply Hk, HP|by exists false, st1].
Qed.
Lemma reject_returns level code reason st (P : Prop) : exists b st', reject level code reason st = Some (b, st') /\
  (b = true -> P).
Proof. unfold reject, DoS. destruct (mode st); by eexists _, _. Qed.
Lemma check_alone_returns tx l st : relay_ready l -> tx_wire tx ->
  exists b st', check_alone chain zc env tx st = Some (b, st') /\ (b = true -> alone_ok tx).
Proof.
  intros [(t & blk & m & Et & Eb & Eh & Em & _) _ _ _ _ Hmax] [Hs Hi Hsz Hf Hbal]. unfold check_alone.
  destruct (_ && _); [apply reject_returns|]. destruct (_ && IsShieldedTx tx) eqn:Esp; [apply reject_returns|].
  destruct (ContainsZerocoins tx) eqn:Ez; [unfold reject_plain; apply reject_returns|]. cbv zeta.
  destruct (no_zerocoins tx Ez) as (Hz & _ & _).
  set (check := CheckTransaction _ _ _ _ _ _ _ _).
  apply (and_then_returns ((exists st st', check st = Some (true, st')) /\ GetValueOut tx = Some (value_out tx) /\
  0 <= value_out tx <= nMaxMoneyOut consensus /\
    GetShieldedValueIn tx = Some (shielded_in tx) /\ 0 <= shielded_in tx <= nMaxMoneyOut consensus)).
  - edestruct CheckTransaction_returns as [[b st1] E]; [exact Hmax|exact Hbal|exact Hz|]. exists b, st1.
    split; [exact E|].
    intros ->. split; [by exists st, st1|].
    apply CheckTransaction_amounts in E as (_ & H1 & H2 & H3 & H4); [|exact Hmax|exact Hbal]. done.
  - intros (H0 & H1 & H2 & H3 & H4) st1.
    apply (and_then_returns (exists st st', ContextualCheckTransaction chain tx (chainHeight + 1) false (re_isIBD env)
    st = Some (true, st'))).
    + edestruct ContextualCheckTransaction_returns as [[b st2] E]. exists b, st2. split; [exact E|]. intros ->.
      by exists st1, st2.
    + intros Hc st2. destruct (IsCoinBase tx) eqn:Ecb; [apply reject_returns|].
      destruct (IsCoinStake tx) eqn:Ecs; [apply reject_returns|].
      assert (Ef : CheckFinalTx env tx = Some (IsFinalTx (re_adjustedTime env) tx (chainHeight + 1) m))
        by (unfold CheckFinalTx; rewrite Et; cbn [obind]; by rewrite Em).
      rewrite Ef. cbn [obind]. destruct (IsFinalTx _ _ _ _) eqn:E; cbn [negb]; [|apply reject_returns].
      destruct (IsStandardTx_exact consensus (re_policy env) (re_adjustedTime env) tx (chainHeight + 1) Hf) as (r & ->
      & Hr). cbn [obind].
      destruct r; [apply reject_returns|]. eexists _, _. split; [done|]. intros _. split; try done; [|by apply Hr].
      intros A. by rewrite A in Esp.
Qed.

(** ** Conflicts *)

Record no_conflict (p : CTxMemPool) (tx : CTransaction) : Prop := {
  nc_fresh : GetHash tx ∉ dom (mapTx p);
  nc_inputs : forall o, o ∈ inputs_of tx -> isSpent p o = false;
  nc_nullifiers : forall nf, nf ∈ Mempool.nullifiers tx -> nullifierExists p nf = false
}.
Lemma existsb_false {A} (f : A -> bool) xs : existsb f xs = false -> forall x, x ∈ xs -> f x = false.
Proof. intros H x Hx. apply not_true_iff_false. intros Hf. rewrite <- not_true_iff_false in H.
  apply H, existsb_exists. exists x. by rewrite <- list_elem_of_In. Qed.
Lemma check_conflicts_returns p tx st : exists b st', check_conflicts p tx st = Some (b, st') /\ (b = true ->
  no_conflict p tx).
Proof.
  unfold check_conflicts, invalid, Invalid, DoS.
  destruct (exists_tx p (GetHash tx)) eqn:E1; [destruct (mode st); by eexists _, _|].
  destruct (existsb (fun i => isSpent p (prevout i)) (vin tx)) eqn:E2; [destruct (mode st); by eexists _, _|].
  destruct (existsb (nullifierExists p) (Mempool.nullifiers tx)) eqn:E3; [destruct (mode st); by eexists _, _|].
  eexists _, _. split; [done|]. intros _. split.
  - rewrite exists_tx_dom in E1. by apply bool_decide_eq_false in E1.
  - intros o Ho. apply list_elem_of_fmap in Ho as (i & -> & Hi). by apply (existsb_false _ _ E2 i).
  - by apply existsb_false.
Qed.

(** ** Coins *)

(** The value of a coin as the view shows it; no sum overflows. *)
Definition money_ok (p : CTxMemPool) l (tx : CTransaction) : Prop :=
  Forall (fun i => 0 <= coin_value (pool_ledger p l) i) (vin tx) /\
  total_in (pool_ledger p l) (vin tx) + nMaxMoneyOut consensus < 2 ^ 63.
Lemma AccessCoin_cached (p : CTxMemPool) l (c : View) o : coin_cached p l c o ->
  exists u, pool_utxo p l o = Some u /\ IsSpent u = false /\ AccessCoin c o = (u, c) /\ forall b,
    CoinOf (detached c b) o = u.
Proof.
  intros H. destruct (AccessCoin_detached p l c (base c) o H) as (u & H1 & H2 & H3 & _). exists u. split; [done|].
  split; [done|].
  split; [by destruct c|]. intros b. destruct (AccessCoin_detached p l c b o H) as (u' & G1 & _ & G3 & _).
  unfold CoinOf. rewrite G3. cbn. congruence.
Qed.
Lemma total_in_nonneg' (p : CTxMemPool) l ins : Forall (fun i => 0 <= coin_value (pool_ledger p l) i) ins ->
  0 <= total_in (pool_ledger p l) ins.
Proof. induction 1 as [|i ins Hi HF IH]; [done|]. cbn. unfold total_in in IH. lia. Qed.
Lemma value_in_loop_cached (p : CTxMemPool) l (c : View) ins : Forall (fun i => coin_cached p l c (prevout i)) ins ->
  Forall (fun i => 0 <= coin_value (pool_ledger p l) i) ins -> forall acc, 0 <= acc ->
    acc + total_in (pool_ledger p l) ins < 2 ^ 63 ->
  value_in_loop ins acc c = (acc + total_in (pool_ledger p l) ins, c).
Proof.
  intros HF Hv. revert Hv. induction HF as [|i ins Hi HF IH]; intros Hv acc Ha Hb; cbn [value_in_loop].
  { cbn. by rewrite Z.add_0_r. }
  apply Forall_cons in Hv as [Hi' Hv]. destruct (AccessCoin_cached p l c _ Hi) as (u & Hu & _ & -> & _).
  change (total_in (pool_ledger p l) (i :: ins)) with (coin_value (pool_ledger p l) i + total_in (pool_ledger p l)
    ins) in *.
  pose proof (total_in_nonneg' p l ins Hv) as Hn.
  assert (Ec : coin_value (pool_ledger p l) i = nValue (coin_out u)) by (unfold coin_value; cbn; by rewrite Hu).
  rewrite Ec in *. rewrite i64_small by lia. rewrite IH by (done || lia). f_equal. lia.
Qed.

Definition same_but_coins s s' : Prop := ts_pool s' = ts_pool s /\ ts_free s' = ts_free s.
(** The coins are read; a view that was cut off answers for the inputs of the transaction. *)
Definition coins_read (p : CTxMemPool) l (tx : CTransaction) (v : Z) (c : View) : Prop :=
  exists c0, c = detached c0 BackDummy /\ reading p l c0 /\ cached p l c0 tx /\
    v = total_in (pool_ledger p l) (vin tx) + shielded_in tx /\
    forall k, (k < length (vout tx))%nat -> pool_utxo p l (mkOutPoint (GetHash tx) (Z.of_nat k)) = None.
Lemma read_back_models (p : CTxMemPool) l (c : View) uncache s : reading p l c -> models (ts_coins s) l ->
  models (ts_coins (read_back c uncache s)) l.
Proof. intros [(tip & Eb & Ht) _] _. unfold read_back, tip_of. cbn. by rewrite Eb. Qed.
Lemma stop_returns k s : (exists r, k (ts_state s) = Some r) -> exists s', stop k s = Some (None, s') /\
  same_but_coins s s' /\ ts_coins s' = ts_coins s.
Proof. intros [r E]. unfold stop. rewrite E. by eexists. Qed.
Lemma read_coins_returns l tx s : relay_ready l -> tx_wire tx -> alone_ok tx -> models (ts_coins s) l ->
  money_ok (ts_pool s) l tx ->
  exists r s', read_coins tx s = Some (r, s') /\ same_but_coins s s' /\ models (ts_coins s') l /\
    match r with Some (v, c) => coins_read (ts_pool s) l tx v c | None => True end.
Proof.
  intros [(t & blk & m & _ & _ & _ & _ & Eb) Hz _ _ _ Hmax] [_ _ _ Hfew _] [_ Az _ _ Acb Acs _ _ _ [Ain Arange]] Hm
  [Hv Hb].
  unfold read_coins. set (p := ts_pool s) in *. cbv zeta.
  pose proof (new_reading p (ts_coins s) l Hm) as R0.
  destruct (already_known (GetHash tx) 0 (length (vout tx)) _ _) as [[known c1] u1] eqn:E1.
  destruct (already_known_reading p l _ _ _ _ _ _ _ _ R0 E1) as (R1 & G1 & Hk).
  assert (Stop : forall c u k, reading p l c -> (exists r, k (ts_state s) = Some r) -> exists r s',
  stop k (read_back c u s) = Some (r, s') /\
    same_but_coins s s' /\ models (ts_coins s') l /\ match r with Some (v, c) => coins_read p l tx v c | None =>
      True end).
  { intros c u k R Hr. destruct (stop_returns k (read_back c u s) Hr) as (s' & E & Hs & Ec). exists None, s'.
    split; [done|].
    split; [exact Hs|]. split; [|done]. rewrite Ec. by apply (read_back_models p). }
  destruct known; [apply Stop; [done|by eexists]|].
  destruct (inputs_exist (vin tx) c1 u1) as [[found c2] u2] eqn:E2.
  destruct (inputs_exist_reading p l _ _ _ _ _ _ R1 E2) as (R2 & G2 & Hf).
  destruct found; cbn [negb].
  2:{ eexists None, _. split; [done|]. split; [done|]. split; [|done]. by apply (read_back_models p). }
  destruct (HaveShieldedRequirements c2 tx) as [met c3] eqn:E3.
  destruct (HaveShieldedRequirements_reading p l tx _ _ _ R2 E3) as (R3 & G3 & Hs).
  destruct met; cbn [negb]; [|apply Stop; [done|by eexists]].
  destruct (cache_GetBestBlock c3) as [h c4] eqn:E4.
  destruct (GetBestBlock_reading p l _ _ _ R3 E4) as (R4 & G4 & -> & Hh).
  assert (Ca : cached p l c4 tx).
  { split; [eapply Forall_impl; [exact (Hf eq_refl)|]; intros i Hi; apply (coin_cached_grows p l c2);
    [by etransitivity|done]
           |eapply Forall_impl; [exact (Hs eq_refl)|]; intros d Hd; by apply (spend_cached_grows c3)|by rewrite Hh]. }
  unfold GetValueIn. rewrite Acb. destruct (no_zerocoins tx Az) as (-> & _ & _).
  pose proof (total_in_nonneg' p l (vin tx) Hv) as Hn.
  rewrite (value_in_loop_cached p l c4 (vin tx) (ca_coins _ _ _ _ Ca) Hv 0) by lia. rewrite Ain. cbn [obind].
  eexists (Some _), _. split; [done|]. split; [done|]. split; [by apply (read_back_models p)|].
  exists c4. split; [done|]. split; [done|]. split; [done|]. split; [rewrite i64_small by lia; lia|].
  intros k Lk. specialize (Hk eq_refl k Lk). by rewrite Z.add_0_l, u32_small in Hk by lia.
Qed.

(** ** Fees *)

(** The fee against what relaying asks: the minimum of the size (unless the fee is
    ignored), the priority and the limiter for what pays less than the rate, the upper
    bound when absurd fees are refused, and no free transactions outside regtest. *)
Abbreviation rate_fee nSize := (GetFee (minRelayTxFee (re_policy env)) nSize).
Definition absurd_fee (tx : CTransaction) (nSize : Z) : option Z :=
  if IsShieldedTx tx then f <- GetShieldedTxMinFee consensus (re_policy env) tx;; Some (i64 (f * 100))
  else Some (i64 (GetMinRelayFee consensus (re_policy env) nSize false * 10000)).
Record fees_ok (tx : CTransaction) (p : CTxMemPool) (nFees nSize : Z) (priority : spec_float)
    (fLimitFree fRejectAbsurdFee ignoreFees : bool) (free : spec_float * Z) : Prop := {
  fo_minimum : ignoreFees = false -> fLimitFree = true ->
    exists txMinFee, GetMinRelayFee_tx chain env tx p nSize false = Some txMinFee /\ txMinFee <= nFees;
  fo_priority : ignoreFees = false -> arg_relaypriority env = true -> nFees < rate_fee nSize ->
    AllowFree priority = true;
  fo_free : ignoreFees = false -> fLimitFree = true -> nFees < rate_fee nSize ->
    fst (limit_free env nSize free) = true;
  fo_absurd : fRejectAbsurdFee = true -> exists nMaxFee, absurd_fee tx nSize = Some nMaxFee /\ nFees <= nMaxFee;
  fo_zero : network chain <> REGTEST -> nFees <> 0
}.
Lemma GetMinRelayFee_tx_returns tx p nSize : exists f, GetMinRelayFee_tx chain env tx p nSize false = Some f.
Proof.
  unfold GetMinRelayFee_tx, GetShieldedTxMinFee. destruct (IsShieldedTx tx); [by eexists|].
  destruct (ApplyDeltas _ _ _ _) as [d f]. destruct (_ || _); by eexists.
Qed.
Lemma absurd_fee_returns tx nSize : exists f, absurd_fee tx nSize = Some f.
Proof. unfold absurd_fee, GetShieldedTxMinFee. destruct (IsShieldedTx tx); by eexists. Qed.
Lemma check_fees_returns tx p nFees nSize priority fLimitFree fRejectAbsurdFee ignoreFees st free :
  exists ok st' free', check_fees chain env tx p nFees nSize priority fLimitFree fRejectAbsurdFee ignoreFees st free =
    Some (ok, st', free') /\
    (ok = true -> fees_ok tx p nFees nSize priority fLimitFree fRejectAbsurdFee ignoreFees free).
Proof.
  unfold check_fees. cbv zeta. set (first := if ignoreFees then _ else _).
  assert (F : exists ok st' free', first = Some (ok, st', free') /\ (ok = true -> ignoreFees = false ->
    (fLimitFree = true -> exists m, GetMinRelayFee_tx chain env tx p nSize false = Some m /\ m <= nFees) /\
    (arg_relaypriority env = true -> nFees < rate_fee nSize -> AllowFree priority = true) /\
    (fLimitFree = true -> nFees < rate_fee nSize -> fst (limit_free env nSize free) = true))).
  { unfold first. destruct ignoreFees; [by eexists _, _, _|].
    destruct (GetMinRelayFee_tx_returns tx p nSize) as [m ->]. cbn [obind]. unfold dos_debug, reject, DoS.
    destruct (fLimitFree && (nFees <? m)) eqn:E1; [destruct (mode st); by eexists _, _, _|].
    destruct (arg_relaypriority env && _ && _) eqn:E2; [destruct (mode st); by eexists _, _, _|].
    assert (H1 : fLimitFree = true -> exists m', Some m = Some m' /\ m' <= nFees).
    { intros ->. exists m. split; [done|]. by apply Z.ltb_ge in E1. }
    assert (H2 : arg_relaypriority env = true -> nFees < rate_fee nSize -> AllowFree priority = true).
    { intros A B. apply Z.ltb_lt in B. rewrite A, B in E2. cbn in E2. by apply negb_false_iff in E2. }
    destruct (fLimitFree && (nFees <? rate_fee nSize)) eqn:E3.
    - destruct (limit_free env nSize free) as [[] free'] eqn:El; cbn [negb fst];
        [by eexists _, _, _|destruct (mode st); by eexists _, _, _].
    - eexists _, _, _. split; [done|]. intros _ _. split; [done|]. split; [done|]. intros -> B.
      apply Z.ltb_lt in B. by rewrite B in E3. }
  destruct F as (ok & st1 & free1 & -> & HF). cbn [obind]. destruct ok; cbn [negb]; [|by eexists _, _, _].
  specialize (HF eq_refl). destruct (absurd_fee_returns tx nSize) as [m Em].
  assert (Ea : (if negb fRejectAbsurdFee then Some 0 else absurd_fee tx nSize) = Some (if fRejectAbsurdFee then m else
  0))
    by (by destruct fRejectAbsurdFee).
  unfold absurd_fee in Ea. rewrite Ea. cbn [obind]. destruct (fRejectAbsurdFee && _) eqn:Eb.
  { unfold Invalid, DoS. destruct (mode st1); by eexists _, _, _. }
  assert (Hok : (network chain <> REGTEST -> nFees <> 0) ->
  fees_ok tx p nFees nSize priority fLimitFree fRejectAbsurdFee ignoreFees free).
  { intros Hz. split; try done; [by intros A; apply HF| by intros A; apply HF|by intros A; apply HF|].
    intros ->. exists m. split; [done|]. rewrite Z.gtb_ltb in Eb. by apply Z.ltb_ge in Eb. }
  destruct (network chain) eqn:En; cbn [negb andb]; try (destruct (Z.eqb_spec nFees 0)); eexists _, _, _;
  (split; [done|]);
    intros Hs; try done; by apply Hok.
Qed.

(** ** Scripts *)

Definition readable (p : CTxMemPool) l : Prop := forall o u, pool_utxo p l o = Some u ->
  bytes_ok (scriptPubKey (coin_out u)).
Lemma run_check_returns tx i u flags precom : Forall (fun i => bytes_ok (scriptSig i)) (vin tx) ->
  (i < length (vin tx))%nat ->
  bytes_ok (scriptPubKey (coin_out u)) -> run_check (mkScriptCheck (scriptPubKey (coin_out u)) (nValue (coin_out u))
    tx (Z.of_nat i) flags precom) <> Abort.
Proof.
  intros Hs Hi Hu. unfold run_check. cbn [ptxTo chk_nIn chk_scriptPubKey Inputs.nFlags precomTxData chk_amount].
  rewrite Nat2Z.id.
  destruct (nth_error (vin tx) i) as [txin|] eqn:E; [|apply nth_error_None in E; lia].
  assert (Hb : bytes_ok (scriptSig txin)) by (rewrite Forall_forall in Hs; apply Hs, list_elem_of_In;
  by eapply nth_error_In).
  intros Ea. pose proof (VerifyScript_good flags (TransactionSignatureChecker tx (Z.of_nat i) (nValue (coin_out u))
  (Some precom))
    (GetRequiredSigVersion tx) (scriptSig txin) (scriptPubKey (coin_out u)) Hb Hu) as G. by rewrite Ea in G.
Qed.
Lemma script_checks_returns (p : CTxMemPool) l (c : View) tx flags precom : readable p l -> Forall (fun i =>
  bytes_ok (scriptSig i)) (vin tx) ->
  forall ins i checks st, Forall (fun i => coin_cached p l c (prevout i)) ins ->
    (i + length ins <= length (vin tx))%nat ->
  exists r, script_checks tx flags precom false ins (Z.of_nat i) checks st c = Some r.
Proof.
  intros Hr Hs. induction ins as [|txin ins IH]; intros i checks st HF Hl; [by eexists|].
  cbn [script_checks length] in *.
  apply Forall_cons in HF as [Hi HF]. destruct (AccessCoin_cached p l c _ Hi) as (u & Hu & Hsp & -> & _). rewrite Hsp.
  cbv zeta.
  pose proof (fun f => run_check_returns tx i u f precom Hs ltac:(lia) (Hr _ _ Hu)) as Hn.
  replace (Z.of_nat i + 1) with (Z.of_nat (S i)) by lia.
  destruct (run_check _) as [x|e|] eqn:Er; [apply IH; [done|lia]| |by destruct (Hn flags Er)].
  clear Er. unfold Invalid, DoS. destruct (negb _);
    [match goal with |- context [run_check ?x] => destruct (run_check x) as [|e'|] eqn:Er' end;
      [| |by destruct (Hn _ Er')]|];
    destruct (mode st); by eexists.
Qed.
(** Checks that are run at once leave nothing for the threads. *)
Lemma script_checks_none {W : Type} {vw : CCoinsView W} tx flags precom ins : forall i checks st (c : CCoinsViewCache
  W) b ks st' c',
  script_checks tx flags precom false ins i checks st c = Some (b, ks, st', c') -> ks = checks.
Proof.
  induction ins as [|txin ins IH]; intros i checks st c b ks st' c'; cbn [script_checks]; [by intros [= _ <- _ _]|].
  destruct (AccessCoin c (prevout txin)) as [u c1]. destruct (IsSpent u); [done|]. cbv zeta. unfold Invalid, DoS.
  destruct (run_check _); [apply IH|destruct (negb _); [destruct (run_check _)|]|done]; destruct (mode st);
  by intros [= _ <- _ _].
Qed.
Lemma CheckInputs_none {W : Type} {vw : CCoinsView W} bh tx flags precom st (c : CCoinsViewCache W) b ks st' c' :
  CheckInputs consensus bh tx true flags precom false st c = Some (b, ks, st', c') -> ks = [].
Proof.
  unfold CheckInputs. destruct (_ && _); [|by intros [= _ <- _ _]].
    destruct (GetSpendHeight bh c) as [h|]; cbn [obind]; [|done].
  destruct (CheckTxInputs _ _ _ _ _) as [[[ok st1] c1]|]; cbn [obind fst snd]; [|done].
  destruct ok; cbn [negb]; [apply script_checks_none|by intros [= _ <- _ _]].
Qed.
Definition same_but_state s s' : Prop := ts_pool s' = ts_pool s /\ ts_coins s' = ts_coins s /\ ts_free s' = ts_free s.
Lemma check_scripts_returns l tx v c flags s : relay_ready l -> tx_wire tx -> alone_ok tx -> readable (ts_pool s) l ->
  coins_read (ts_pool s) l tx v c ->
  exists ok s', check_scripts chain env tx c flags s = Some (ok, s', c) /\ same_but_state s s' /\
    (ok = true -> tx_inputs_ok consensus (pool_ledger (ts_pool s) l) tx (chainHeight + 1) (shielded_in tx) (value_out
      tx) /\
       scripts_ok (pool_ledger (ts_pool s) l) tx flags (Precomputed tx) 0 (vin tx)).
Proof.
  intros [(t & blk & m & _ & Ei & Eh & _ & Et) _ Hh _ _ Hmax] Hw Al Hr (c0 & -> & Hrd & Hca & _ & _).
  set (p := ts_pool s) in *. set (bh := fun h => nHeight <$> re_idx env !! h).
  assert (Hno : no_coin_inputs tx = false) by (destruct (no_zerocoins tx (al_zerocoin _ Al)) as (_ & _ & ->);
  apply (al_coinbase _ Al)).
  assert (Hbest : bh (l_best (pool_ledger p l)) = Some chainHeight) by (unfold bh; cbn; rewrite Et, Ei; cbn;
  by rewrite Eh).
  assert (Sp : let inputs_ok := tx_inputs_ok consensus (pool_ledger p l) tx (chainHeight + 1) (shielded_in tx)
  (value_out tx) in
    let all_scripts := true = true -> scripts_ok (pool_ledger p l) tx flags (Precomputed tx) 0 (vin tx) in
    match CheckInputs consensus bh tx true flags (Precomputed tx) false (ts_state s) c0 with
    | Some (true, checks, st', c') => models c' (pool_ledger p l) /\ st' = ts_state s /\ inputs_ok /\
      (all_pass checks <-> all_scripts)
    | _ => ~ (inputs_ok /\ all_scripts)
    end) by exact (CheckInputs_spec consensus bh tx true false flags (Precomputed tx) (ts_state s) c0 (pool_ledger p
      l) chainHeight
    (shielded_in tx) (value_out tx) (proj2 Hrd) Hno Hmax (proj1 (al_in _ Al)) (proj1 (al_out _ Al)) (proj2 (al_in _
      Al)) (proj2 (al_out _ Al)) Hbest Hh).
  destruct (CheckInputs_steady consensus p l c0 bh tx true flags (Precomputed tx) false (ts_state s) Hca) as [r Hst].
  assert (E0 : detached c0 (base c0) = c0) by (by destruct c0).
  pose proof (Hst (base c0)) as Hb. rewrite E0 in Hb. cbv zeta in Sp.
  assert (Tot : exists x, CheckInputs consensus bh tx true flags (Precomputed tx) false (ts_state s) c0 = Some x).
  { unfold CheckInputs. rewrite <- negb_orb. fold (no_coin_inputs tx). rewrite Hno. cbn [negb].
    assert (Eg : cache_GetBestBlock c0 = (hashBlock c0, c0)) by (unfold cache_GetBestBlock;
    by rewrite (ca_hash _ _ _ _ Hca)).
    destruct (GetBestBlock_reading p l _ _ _ Hrd Eg) as (_ & _ & Eh0 & _). unfold GetSpendHeight. rewrite Eg, Eh0.
    change (l_best l) with (l_best (pool_ledger p l)). rewrite Hbest. cbn [obind fst snd].
    destruct (CheckTxInputs_spec consensus tx (i32 (chainHeight + 1)) (shielded_in tx) (value_out tx) (ts_state s) c0
    (pool_ledger p l)
      (proj2 Hrd) Hno Hmax (proj1 (al_in _ Al)) (proj1 (al_out _ Al)) (proj2 (al_in _ Al)) (proj2 (al_out _ Al)))
      as (b & st' & c2 & E2 & _).
    destruct (CheckTxInputs_steady consensus p l c0 tx (i32 (chainHeight + 1)) (ts_state s) Hca) as [r1 H1].
    specialize (H1 (base c0)). rewrite E0 in H1. pose proof (eq_trans (eq_sym H1) E2) as E3.
      destruct r1 as [[b1 st1]|]; [|done].
    cbn [option_map] in E3, H1. clear E2. rewrite H1. cbn [obind fst snd]. destruct b1; cbn [negb]; [|by eexists].
    by apply (script_checks_returns p l c0 tx flags (Precomputed tx) Hr (tw_scripts _ Hw) (vin tx) 0 [] st1 (ca_coins
      _ _ _ _ Hca)). }
  destruct Tot as [x Ex]. rewrite Ex in Hb, Sp. destruct r as [[[ok ks] st']|]; [|done]. cbn [option_map] in Hb.
  injection Hb as ->.
  unfold check_scripts. fold bh. rewrite (Hst BackDummy). cbn [option_map obind]. exists ok, (set_state st' s).
    split; [done|]. split; [done|].
  intros ->. destruct Sp as (_ & _ & Hin & Hp). split; [done|]. apply Hp; [|done]. apply CheckInputs_none in Ex as ->.
  constructor.
Qed.

(** ** Storing *)

(** What the pool holds afterwards: the new transaction and some of what was there, nothing
    without its parents. *)
Definition stays (W : gset txid) (p : CTxMemPool) (tx : CTransaction) (p' : CTxMemPool) : Prop :=
  (forall h e', mapTx p' !! h = Some e' -> (h = GetHash tx /\ e_tx e' = tx) \/ (exists e, mapTx p !! h = Some e /\
    core e' = core e)) /\
  (forall c e' a, mapTx p' !! c = Some e' -> spends_from (e_tx e') a -> a ∈ dom (mapTx p) -> (a ∈ W -> c ∈ W) ->
    a ∈ dom (mapTx p')).
Abbreviation keeps := (keeps_parents (fun _ => False)).
Lemma stays_refl W p tx : stays W p tx p.
Proof. split; [|done]. intros h e E. right. by exists e. Qed.
Lemma stays_shrunk R W p tx q r : stays W p tx q -> shrunk R q r -> keeps W q r -> stays W p tx r.
Proof.
  intros [S1 S2] Sh Kp. split.
  - intros h e' E. destruct (shrunk_lookup R q r h e' Sh E) as (f & Ef & C).
    destruct (S1 h f Ef) as [[-> Ht]|(e & Ee & Ce)].
    + left. split; [done|]. by rewrite (core_tx _ _ C).
    + right. exists e. split; [done|congruence].
  - intros c e' a E F Ha HW. destruct (shrunk_lookup R q r c e' Sh E) as (f & Ef & C). rewrite (core_tx _ _ C) in F.
    destruct (Kp c a) as [|[]]; [|apply elem_of_dom; by exists e'|done]. split; [|done]. exists f. split; [done|].
    split; [by apply (S2 c f a)|done].
Qed.
Lemma TrimToSize_keeps K W usage worst limit : (forall q, mapTx q <> ∅ -> forall x, worst q = Some x ->
  x ∈ dom (mapTx q)) ->
  (forall q, mapTx q = ∅ -> usage q <= limit) -> forall fuel p acc p' acc', pool_ok K W p ->
  TrimToSize fuel usage worst limit p acc = Some (p', acc') -> keeps W p p' /\ shrunk (fun _ => True) p p'.
Proof.
  intros Hw He. induction fuel as [|fuel IH]; intros p acc p' acc' O; cbn [TrimToSize]; [done|].
  destruct (Z.gtb_spec (usage p) limit) as [Hu|_]; [|intros [= <- <-]; split; [apply keeps_parents_refl|apply
  shrunk_refl]].
  destruct (worst p) as [x|] eqn:Ew; cbn [obind]; [|done].
  assert (Hx : x ∈ dom (mapTx p)) by (apply Hw; [intros Em; specialize (He p Em); lia|done]).
  destruct (descendants_of _ W p O x Hx) as (St & E & HS). rewrite E. cbn [obind].
  assert (Cl : forall c a, linked W p c a -> a ∈ St -> c ∈ St) by (intros c a Lk Hs; apply HS; apply HS in Hs;
  by eapply rtc_l).
  destruct (RemoveStaged_children K W p St O) as (q & Eq & Oq & Wo & _); [by apply (descendants_sub W p x)|exact Cl|].
  rewrite Eq. cbn [obind].
  intros E'. destruct (IH _ _ _ _ Oq E') as [K2 S2]. assert (S1 : shrunk (fun _ => True) p q) by (by exists St).
  split; [|by eapply shrunk_trans]. eapply keeps_parents_trans;
  [apply (keeps_parents_without _ W p St q Wo); left; by eapply Cl|exact S1|exact S2|exact K2].
Qed.
Lemma foldl_Uncache_models l os : forall c : CCoinsViewCache V, models c l -> models (foldl Uncache c os) l.
Proof. induction os as [|o os IH]; intros c Hm; cbn; [done|]. by apply IH, Uncache_models. Qed.
Lemma Trim_returns K W p acc l : (forall k, k <> Fee -> K k) -> relay_ready l -> pool_ok K W p -> (forall o,
  o ∈ acc -> unneeded p o) ->
  exists p' acc', TrimToSize (S (base.size (mapTx p))) (re_usage env) (re_worst env) (maxmempool_bytes env) p acc =
    Some (p', acc') /\
    pool_ok K W p' /\ shrunk (fun _ => True) p p' /\ keeps W p p'.
Proof.
  intros HK R O Ha. destruct (TrimToSize_ok K W HK (re_usage env) (re_worst env) (maxmempool_bytes env) (rr_empty _ R)
  (rr_worst _ R)
    (S (base.size (mapTx p))) p acc) as (p' & acc' & E & O' & Sh & _); [lia|done|done|].
      exists p', acc'. split_and!; try done.
  apply (TrimToSize_keeps K W _ _ _) in E as [Kp _]; [done| |apply (rr_empty _ R)|done].
  intros q Nq x Hx. destruct (rr_worst _ R q Nq) as (y & Hy & Hd). congruence.
Qed.
Lemma LimitMempoolSize_returns K W l s : (forall k, k <> Fee -> K k) -> relay_ready l -> pool_ok K W (ts_pool s) ->
  models (ts_coins s) l ->
  exists s', LimitMempoolSize env (maxmempool_bytes env) (mempoolexpiry_seconds env) s = Some s' /\
    pool_ok K W (ts_pool s') /\
    shrunk (fun _ => True) (ts_pool s) (ts_pool s') /\ keeps W (ts_pool s) (ts_pool s') /\
      models (ts_coins s') l.
Proof.
  intros HK R O Hm. unfold LimitMempoolSize.
  destruct (Expire_ok K W (i64 (re_time env - mempoolexpiry_seconds env)) (ts_pool s) O) as (St & p1 & ->
  & O1 & W1 & _ & HSt). cbn [obind fst].
  destruct (Trim_returns K W p1 [] l HK R O1) as (p2 & acc & -> & O2 & Sh & Kp); [set_solver|]. cbn [obind fst snd].
  eexists. split; [done|]. split; [done|]. assert (S1 : shrunk (fun _ => True) (ts_pool s) p1) by (by exists St).
  split; [by eapply shrunk_trans|]. split; [|by apply foldl_Uncache_models].
  eapply keeps_parents_trans; [|exact S1|exact Sh|exact Kp]. apply (keeps_parents_without _ W _ St); [done|].
  intros c a L Ha. left. apply HSt. apply HSt in Ha as (x & e & Ex & Ht & P). exists x, e. split_and!; [done|done|].
  by eapply rtc_l.
Qed.
Lemma fail_returns level code reason s : exists s', fail level code reason s = Some (false, s') /\
  same_but_state s s'.
Proof. unfold fail, checked, reject, DoS. destruct (mode (ts_state s)); by eexists. Qed.
Lemma store_returns K W W' l tx entry A ov s : (forall k, k <> Fee -> K k) -> relay_ready l ->
  pool_ok K W (ts_pool s) ->
  addable W W' (ts_pool s) entry -> e_tx entry = tx -> (forall y, y ∈ A <->
    new_ancestor (ts_pool s) (e_tx entry) y) -> models (ts_coins s) l ->
  exists b s', store env tx entry A ov s = Some (b, s') /\ models (ts_coins s') l /\ pool_ok K W' (ts_pool s') /\
    stays W' (ts_pool s) tx (ts_pool s') /\ (b = true <-> GetHash tx ∈ dom (mapTx (ts_pool s'))).
Proof.
  intros HK R O Ad <- HA Hm. unfold store. cbv zeta.
  destruct (addUnchecked_ok K W W' (ts_pool s) entry A O Ad HA) as (p1 & -> & O1 & [Ex _] & _). cbn [obind].
  set (tx := e_tx entry) in *.
  assert (S1 : stays W' (ts_pool s) tx p1).
  { split; [|intros c e' a _ _ Ha _; specialize (Ex a); apply elem_of_dom in Ha as [f Hf]; rewrite Hf in Ex;
    apply elem_of_dom;
      case_bool_decide; destruct (mapTx p1 !! a); done].
    intros h e E. specialize (Ex h). rewrite E in Ex. case_bool_decide as Hh; cbn in Ex.
    - left. split; [done|]. injection Ex as Ex _ _ _ _ _ _. rewrite Ex. by rewrite (proj1 (with_delta_tx _ _)).
    - right. destruct (mapTx (ts_pool s) !! h) as [f|]; [|done]. exists f. split; [done|]. exact (inj Some _ _ Ex). }
  assert (G : exists s2, (if ov then Some (set_pool p1 s) else LimitMempoolSize env (maxmempool_bytes env)
  (mempoolexpiry_seconds env) (set_pool p1 s)) = Some s2 /\
    pool_ok K W' (ts_pool s2) /\ stays W' (ts_pool s) tx (ts_pool s2) /\ models (ts_coins s2) l).
  { destruct ov; [by eexists|]. destruct (LimitMempoolSize_returns K W' l (set_pool p1 s) HK R O1 Hm) as (s2 & E & O2
    & Sh & Kp & Hm2).
    exists s2. split; [done|]. split; [done|]. split; [by eapply stays_shrunk|done]. }
  destruct G as (s2 & -> & O2 & S2 & Hm2). cbn [obind]. rewrite exists_tx_dom.
  assert (Fail : forall s3, pool_ok K W' (ts_pool s3) -> stays W' (ts_pool s) tx (ts_pool s3) ->
  models (ts_coins s3) l -> GetHash tx ∉ dom (mapTx (ts_pool s3)) ->
    exists b s', fail 0 REJECT_INSUFFICIENTFEE "mempool full" s3 = Some (b, s') /\ models (ts_coins s') l /\
      pool_ok K W' (ts_pool s') /\
      stays W' (ts_pool s) tx (ts_pool s') /\ (b = true <-> GetHash tx ∈ dom (mapTx (ts_pool s')))).
  { intros s3 O3 S3 M3 N3. destruct (fail_returns 0 REJECT_INSUFFICIENTFEE "mempool full" s3) as (s' & E & E1 & E2 &
    _).
    exists false, s'. rewrite E1, E2. split; [done|]. split; [done|]. split; [done|]. split; [done|]. by split. }
  destruct (negb ov && _) eqn:Eo.
  { apply Fail; try done. apply andb_true_iff in Eo as [_ Eo%negb_true_iff]. by apply bool_decide_eq_false in Eo. }
  destruct (Trim_returns K W' (ts_pool s2) [] l HK R O2) as (p3 & acc & -> & O3 & Sh3 & Kp3); [set_solver|].
  cbn [obind fst]. cbv zeta.
  rewrite exists_tx_dom. cbn [set_pool ts_pool]. assert (S3 : stays W' (ts_pool s) tx p3) by (by eapply stays_shrunk).
  clear Eo. case_bool_decide as Hd; cbn [negb]; [|by apply (Fail (set_pool p3 s2))].
  eexists true, _. split; [done|]. by split_and!.
Qed.

(** ** Priorities: the value that is in the chain *)

Lemma priority_sums_value (p : CTxMemPool) l (c : View) b h ins : Forall (fun i =>
  coin_cached p l c (prevout i)) ins ->
  Forall (fun i => 0 <= coin_value (pool_ledger p l) i) ins -> forall d acc, 0 <= acc ->
    acc + total_in (pool_ledger p l) ins < 2 ^ 63 ->
  snd (priority_sums (CoinOf (detached c b)) h ins d acc) <= acc + total_in (pool_ledger p l) ins.
Proof.
  intros HF. induction HF as [|i ins Hi HF IH]; intros Hv d acc Ha Hb; [cbn; lia|]. cbn [priority_sums].
  apply Forall_cons in Hv as [Hi' Hv]. destruct (AccessCoin_cached p l c _ Hi) as (u & Hu & Hs & _ & Hc).
  rewrite Hc, Hs. cbv zeta.
  change (total_in (pool_ledger p l) (i :: ins)) with (coin_value (pool_ledger p l) i + total_in (pool_ledger p l)
    ins) in *.
  pose proof (total_in_nonneg' p l ins Hv) as Hn.
  assert (Ec : coin_value (pool_ledger p l) i = nValue (coin_out u)) by (unfold coin_value; cbn; by rewrite Hu).
  rewrite Ec in *.
  destruct (_ <=? _).
  - rewrite (i64_small (acc + nValue (coin_out u))) by lia. etransitivity; [apply IH; (done || lia)|lia].
  - etransitivity; [apply IH; (done || lia)|lia].
Qed.
Lemma coins_GetPriority_value (p : CTxMemPool) l (c : View) b h tx : Forall (fun i =>
  coin_cached p l c (prevout i)) (vin tx) ->
  money_ok p l tx -> 0 <= nMaxMoneyOut consensus ->
    snd (coins_GetPriority (CoinOf (detached c b)) tx h) <= total_in (pool_ledger p l) (vin tx).
Proof.
  intros HF [Hv Hb] Hm. pose proof (total_in_nonneg' p l _ Hv). unfold coins_GetPriority. destruct (_ || _); [done|].
  destruct (IsShieldedTx tx); [done|].
  pose proof (priority_sums_value p l c b h (vin tx) HF Hv (S754_zero false) 0) as P.
    destruct (priority_sums _ _ _ _ _) as [d v]. cbn in *. lia.
Qed.

(** ** All steps together *)

(** The pool stays below the widths of its counters. *)
Definition room_for (p : CTxMemPool) (tx : CTransaction) : Prop :=
  wsum (weight p Size) (dom (mapTx p)) + Z.of_nat (length (SerializeTransaction tx)) < 2 ^ 63 /\
  wsum (weight p Ops) (dom (mapTx p)) + MAX_TX_SIGOPS_CURRENT < 2 ^ 31.
Definition fee_of (p : CTxMemPool) l (tx : CTransaction) : Z :=
  total_in (pool_ledger p l) (vin tx) + shielded_in tx - value_out tx.
(** The coin an input spends, as the ledger and the pool have it. *)
Definition coin_at (p : CTxMemPool) l (o : COutPoint) : Coin := default coinEmpty (pool_utxo p l o).
Lemma CoinOf_at p l (c : View) b tx : cached p l c tx ->
  Forall (fun i => CoinOf (detached c b) (prevout i) = coin_at p l (prevout i)) (vin tx).
Proof.
  intros Ca. eapply Forall_impl; [exact (ca_coins _ _ _ _ Ca)|]. intros i Hi. unfold coin_at.
  destruct (AccessCoin_cached p l c _ Hi) as (u & -> & _ & _ & Hu). apply Hu.
Qed.
Lemma GetP2SHSigOpCount_ext A B tx : Forall (fun i => A (prevout i) = B (prevout i)) (vin tx) ->
  GetP2SHSigOpCount A tx = GetP2SHSigOpCount B tx.
Proof.
  intros H. unfold GetP2SHSigOpCount. destruct (_ || _); [done|]. f_equal. apply map_ext_in. intros i Hi.
  rewrite Forall_forall in H. by rewrite (H i) by (by apply list_elem_of_In).
Qed.
Lemma coins_GetPriority_ext A B tx h : Forall (fun i => A (prevout i) = B (prevout i)) (vin tx) ->
  coins_GetPriority A tx h = coins_GetPriority B tx h.
Proof.
  intros H. unfold coins_GetPriority. destruct (_ || _); [done|]. destruct (IsShieldedTx tx); [done|].
  assert (E : forall d v, priority_sums A h (vin tx) d v = priority_sums B h (vin tx) d v); [|by rewrite E].
  induction H as [|i ins Hi HF IH]; intros d v; [done|]. cbn [priority_sums]. rewrite Hi.
  destruct (IsSpent _); [done|]. by destruct (_ <=? _).
Qed.
Definition tx_size (tx : CTransaction) : Z := Z.of_nat (length (SerializeTransaction tx)).
(** The priority of the transaction in the next block. *)
Definition priority_of (p : CTxMemPool) l (tx : CTransaction) : spec_float :=
  let '(dPriority, inChainInputValue) := coins_GetPriority (coin_at p l) tx chainHeight in
  entry_GetPriority dPriority chainHeight inChainInputValue (CalculateModifiedSize tx (tx_size tx)) (chainHeight + 1).
(** The package it joins, within the limits on count and size of ancestors and of the
    descendants of each ancestor. *)
Definition package_ok (p : CTxMemPool) (tx : CTransaction) : Prop :=
  exists A : gset txid, (forall y, y ∈ A <-> new_ancestor p tx y) /\
    (A = ∅ \/ (set_size A + 1 <= limitAncestorCount (mempool_limits env) /\
      tx_size tx + wsum (weight p Size) A <= limitAncestorSize (mempool_limits env))) /\
    forall a, a ∈ A -> allows p (mempool_limits env) (tx_size tx) a.

(** A call: which fees are asked for, and the state of the limiter. *)
Section Query.
Variables (fLimitFree fRejectAbsurdFee ignoreFees : bool) (free : spec_float * Z).
(** Every rule an accepted transaction has passed. *)
Record relayed (p : CTxMemPool) l (tx : CTransaction) : Prop := {
  rl_alone : alone_ok tx;
  rl_conflict : no_conflict p tx;
  rl_inputs : tx_inputs_ok consensus (pool_ledger p l) tx (chainHeight + 1) (shielded_in tx) (value_out tx);
  rl_scripts : scripts_ok (pool_ledger p l) tx (Z.lor STANDARD_SCRIPT_VERIFY_FLAGS (cltv_flag chain env)) (Precomputed
    tx) 0 (vin tx);
  rl_mandatory : scripts_ok (pool_ledger p l) tx (Z.lor MANDATORY_SCRIPT_VERIFY_FLAGS (cltv_flag chain env))
    (Precomputed tx) 0 (vin tx);
  rl_unknown : forall k, (k < length (vout tx))%nat -> pool_utxo p l (mkOutPoint (GetHash tx) (Z.of_nat k)) = None;
  rl_standard : network chain <> REGTEST -> AreInputsStandard (coin_at p l) tx = Some true;
  rl_sigops : exists legacy p2sh, GetLegacySigOpCount tx = Some legacy /\
    GetP2SHSigOpCount (fun o => coin_out (coin_at p l o)) tx = Some p2sh /\
      u32 (legacy + p2sh) <= MAX_TX_SIGOPS_CURRENT;
  rl_positive : 0 <= fee_of p l tx;
  rl_fees : fees_ok tx p (fee_of p l tx) (tx_size tx) (priority_of p l tx) fLimitFree fRejectAbsurdFee ignoreFees
    free;
  rl_package : package_ok p tx
}.
(** What becomes of the pool; [W] and [W'] are the transactions whose children are not
    linked, before and after. *)
Definition outcome (K : stat -> Prop) (W W' : gset txid) (p : CTxMemPool) l (tx : CTransaction) (b : bool) s' : Prop
  :=
  models (ts_coins s') l /\ stays W' p tx (ts_pool s') /\
  if b then pool_ok K W' (ts_pool s') /\ GetHash tx ∈ dom (mapTx (ts_pool s')) /\ relayed p l tx
  else pool_ok K W (ts_pool s') /\ forall h e', mapTx (ts_pool s') !! h = Some e' -> exists e,
    mapTx p !! h = Some e /\ core e' = core e.
(** How the transaction meets the pool it joins. *)
Record joins (W W' : gset txid) (p : CTxMemPool) l (tx : CTransaction) : Prop := {
  jn_same : forall h, h <> GetHash tx -> h ∈ W' <-> h ∈ W;
  jn_parents : forall a, a ∈ dom (mapTx p) -> spends_from tx a -> a ∈ W' -> GetHash tx ∈ W';
  jn_own : forall o u, out_hash o = GetHash tx -> l_utxo l o = Some u -> 0 <= out_n o < Z.of_nat (length (vout tx));
  jn_children : GetHash tx ∉ dom (mapTx p) -> (forall k, (k < length (vout tx))%nat ->
    pool_utxo p l (mkOutPoint (GetHash tx) (Z.of_nat k)) = None) ->
    forall c e, mapTx p !! c = Some e -> spends_from (e_tx e) (GetHash tx) -> GetHash tx ∈ W' /\ c ∉ W'
}.
Lemma outcome_unchanged K W W' p l tx s s' : pool_ok K W p -> ts_pool s = p -> ts_pool s' = ts_pool s ->
  models (ts_coins s') l ->
  outcome K W W' p l tx false s'.
Proof. intros O E E' Hm. split; [done|]. rewrite E', E. split; [apply stays_refl|]. split; [done|]. intros h e Eh.
  by exists e. Qed.
Lemma not_self_spending W W' p l tx v c : joins W W' p l tx -> no_conflict p tx -> coins_read p l tx v c ->
  ~ spends_from tx (GetHash tx).
Proof.
  intros J N (c0 & _ & _ & Ca & _ & Hn) (i & Hi & Eh). pose proof (ca_coins _ _ _ _ Ca) as HF.
  rewrite Forall_forall in HF.
  destruct (HF i Hi) as (e & _ & _ & Hu).
  assert (Hl : l_utxo l (prevout i) = Some (coin e)).
  { unfold pool_utxo in Hu. rewrite Eh, (not_elem_of_dom_1 _ _ (nc_fresh _ _ N)) in Hu. done. }
  pose proof (jn_own _ _ _ _ _ J _ _ Eh Hl) as Hlt. specialize (Hn (Z.to_nat (out_n (prevout i))) ltac:(lia)).
    rewrite Z2Nat.id in Hn by lia.
  destruct (prevout i) as [h n]. cbn in *. by rewrite <- Eh, Hu in Hn.
Qed.
Lemma new_entry_addable W W' p l tx v c fee time spends_cb sigOps inChain valueOut entry :
  joins W W' p l tx -> tx_wire tx -> alone_ok tx -> no_conflict p tx -> coins_read p l tx v c -> room_for p tx ->
  new_entry tx fee time spends_cb sigOps inChain valueOut = Some entry -> i64 fee = fee ->
    0 <= sigOps <= MAX_TX_SIGOPS_CURRENT ->
  e_tx entry = tx /\ addable W W' p entry.
Proof.
  intros J Hw Al N Cr [R1 R2] En Hf Hs. pose proof (tw_size _ Hw) as Hsz.
  assert (Ms : MAX_TX_SIGOPS_CURRENT < 2 ^ 32) by reflexivity.
  destruct (new_entry_alone _ _ _ _ _ _ _ _ En Hf) as (Et & Ed & Ea); [lia|lia|]. split; [done|].
  destruct (no_zerocoins tx (al_zerocoin _ Al)) as (Hz & _ & _).
  assert (Ef : nTxSize entry = Z.of_nat (length (SerializeTransaction tx)) /\ sigOpCount entry = sigOps).
  { unfold new_entry in En. destruct (_ <=? _); [|done]. by injection En as <-. }
  destruct Ef as [E1 E2]. split; rewrite ?Et.
  - apply (nc_fresh _ _ N).
  - done.
  - split; [rewrite E1; unfold SerializeTransaction; rewrite !length_app; cbn; lia|]. split; [lia|by rewrite Et].
  - by rewrite E1.
  - rewrite E2. lia.
  - apply (nc_inputs _ _ N).
  - apply (nc_nullifiers _ _ N).
  - by apply (not_self_spending W W' p l tx v c).
  - apply (jn_same _ _ _ _ _ J).
  - apply (jn_children _ _ _ _ _ J (nc_fresh _ _ N)). by destruct Cr as (c0 & _ & _ & _ & _ & Hn).
  - apply (jn_parents _ _ _ _ _ J).
Qed.
Lemma ancestors_return K W p it entry lim : pool_ok K W p -> exists r,
  CalculateMemPoolAncestors p it entry lim true = Some r.
Proof.
  intros O. unfold CalculateMemPoolAncestors. cbn [obind].
  pose proof (search_parents_spec p (links_dom _ W p O) (parents_in _ W p O) lim (vin (e_tx entry)) ∅) as Sp.
  destruct (search_parents _ _ _ _) as [err|ps]; [by eexists|].
  destruct (ancestors_walk_exact p lim (nTxSize entry) (links_dom _ W p O) (parents_in _ W p O) (S (base.size (mapTx
  p))) ps ∅ (nTxSize entry))
    as (r & E & _); [set_solver|intros y Hy; apply Sp in Hy as [|[? _]]; [set_solver|done]|intros a b Ha; set_solver
    |rewrite difference_empty_L, size_dom; lia|by exists r].
Qed.
Lemma verify_and_store_returns K W W' l tx v c entry A ov s : (forall k, k <> Fee -> K k) -> relay_ready l ->
  tx_wire tx -> alone_ok tx ->
  no_conflict (ts_pool s) tx -> readable (ts_pool s) l -> coins_read (ts_pool s) l tx v c ->
    pool_ok K W (ts_pool s) -> models (ts_coins s) l ->
  addable W W' (ts_pool s) entry -> e_tx entry = tx -> (forall y, y ∈ A <->
    new_ancestor (ts_pool s) (e_tx entry) y) ->
  (network chain <> REGTEST -> AreInputsStandard (coin_at (ts_pool s) l) tx = Some true) ->
  (exists legacy p2sh, GetLegacySigOpCount tx = Some legacy /\
    GetP2SHSigOpCount (fun o => coin_out (coin_at (ts_pool s) l o)) tx = Some p2sh /\
      u32 (legacy + p2sh) <= MAX_TX_SIGOPS_CURRENT) ->
  fees_ok tx (ts_pool s) (fee_of (ts_pool s) l tx) (tx_size tx) (priority_of (ts_pool s) l tx) fLimitFree
    fRejectAbsurdFee ignoreFees free ->
  package_ok (ts_pool s) tx ->
  exists b s', verify_and_store chain env tx c entry A ov s = Some (b, s') /\ outcome K W W' (ts_pool s) l tx b s'.
Proof.
  intros HK R Hw Al N Rd Cr O Hm Ad Et HA Hst Hops Hfee Hpk. unfold verify_and_store.
  destruct (check_scripts_returns l tx v c (Z.lor STANDARD_SCRIPT_VERIFY_FLAGS (cltv_flag chain env)) s R Hw Al Rd Cr)
  as (ok & s1 & -> & (P1 & C1 & _) & H1).
  cbn [obind]. destruct ok; cbn [negb].
  2:{ exists false, s1. split; [done|]. apply (outcome_unchanged K W W' _ l tx s); try done. by rewrite C1. }
  destruct (H1 eq_refl) as [Hin Hsc].
  destruct (check_scripts_returns l tx v c (Z.lor MANDATORY_SCRIPT_VERIFY_FLAGS (cltv_flag chain env)) s1 R Hw Al) as
  (ok & s2 & -> & (P2 & C2 & _) & H2);
    [by rewrite P1..|]. cbn [obind]. rewrite P1 in *. destruct ok; cbn [negb].
  2:{ exists false, s2. split; [done|]. apply (outcome_unchanged K W W' _ l tx s); try done; congruence. }
  destruct (H2 eq_refl) as [_ Hmd].
  destruct (store_returns K W W' l tx entry A ov s2) as (b & s3 & -> & M3 & O3 & S3 & D3);
  try (rewrite ?P2, ?C2, ?C1; done).
  rewrite P2 in *. exists b, s3. split; [done|]. split; [done|]. split; [done|]. destruct b.
  - split; [done|]. split; [by apply D3|]. pose proof (balanced _ _ _ _ _ _ Hin (al_coinstake _ Al)) as [Hb _].
    assert (F0 : 0 <= fee_of (ts_pool s) l tx) by (unfold fee_of; lia).
    split; try done. by destruct Cr as (c0 & _ & _ & _ & _ & Hn).
  - assert (Nd : GetHash tx ∉ dom (mapTx (ts_pool s3))) by (intros Hd; by apply D3 in Hd).
    split.
    + apply (pool_ok_waiting K W'); [|done]. intros h Hh. pose proof (ad_same _ _ _ _ Ad h) as Hs. rewrite Et in Hs.
      rewrite Hs; [done|]. by intros ->.
    + intros h e E. destruct (proj1 S3 h e E) as [[-> _]|H]; [destruct Nd; apply elem_of_dom; by exists e|done].
Qed.
Lemma checked_returns (c : Check) (P : Prop) (k : TxState V -> option (bool * TxState V)) s (Q : bool -> TxState V ->
  Prop) :
  (exists b st, c (ts_state s) = Some (b, st) /\ (b = true -> P)) ->
  (forall st, Q false (set_state st s)) -> (P -> forall st, exists b s', k (set_state st s) = Some (b, s') /\
    Q b s') ->
  exists b s', checked c k s = Some (b, s') /\ Q b s'.
Proof.
  intros (b & st & E & HP) H1 H2. unfold checked. rewrite E. cbn [obind fst snd]. destruct b; [by apply H2, HP|].
  eexists false, _. split; [done|apply H1].
Qed.
(** The ancestors that were found are the package. *)
Lemma ancestors_package K W W' p tx entry A : pool_ok K W p -> addable W W' p entry -> e_tx entry = tx ->
  nTxSize entry = tx_size tx -> tx_size tx < 2 ^ 32 ->
  CalculateMemPoolAncestors p (GetHash tx) entry (mempool_limits env) true = Some (inr A) -> package_ok p tx.
Proof.
  intros O Ad Et Esz Hs Er. destruct (limited_ancestors K W p (mempool_limits env) O (GetHash tx) entry A) as [L1 L2];
    [destruct (ad_entry _ _ _ _ Ad) as (Sz & _); lia|done|]. exists A. rewrite Esz in *. split; [|by split].
  pose proof (limited_ancestors_exact p (links_dom _ W _ O) (parents_in _ W _ O) (GetHash tx) entry
    (mempool_limits env) A Er) as HA. by rewrite Et in HA.
Qed.
Lemma new_entry_returns tx fee time cb ops inChain valueOut : inChain <= i64 (valueOut + fee) ->
  exists entry, new_entry tx fee time cb ops inChain valueOut = Some entry.
Proof. intros H%Z.leb_le. unfold new_entry. rewrite H. by eexists. Qed.
Lemma new_entry_size tx fee time cb ops inChain valueOut entry :
  new_entry tx fee time cb ops inChain valueOut = Some entry -> nTxSize entry = tx_size tx.
Proof. unfold new_entry. destruct (_ <=? _); [by intros [= <-]|done]. Qed.
(** A check that fails changes neither the pool nor the coins. *)
Lemma checked_rejects K W W' p l tx ck s : pool_ok K W p -> models (ts_coins s) l -> ts_pool s = p ->
  (exists st, ck (ts_state s) = Some (false, st)) ->
  exists b s', checked ck (fun s => Some (true, s)) s = Some (b, s') /\ outcome K W W' p l tx b s'.
Proof.
  intros O Hm Ep [st E]. unfold checked. rewrite E. cbn. eexists false, _. split; [done|].
  by apply (outcome_unchanged K W W' _ l tx s).
Qed.
Lemma with_coins_read_returns K W W' l tx v c time ov s : ts_free s = free -> (forall k, k <> Fee -> K k) ->
  relay_ready l ->
  tx_wire tx -> alone_ok tx ->
  no_conflict (ts_pool s) tx -> money_ok (ts_pool s) l tx -> readable (ts_pool s) l ->
    coins_read (ts_pool s) l tx v c ->
  pool_ok K W (ts_pool s) -> models (ts_coins s) l -> room_for (ts_pool s) tx -> joins W W' (ts_pool s) l tx ->
  exists b s', with_coins_read chain env tx v c fLimitFree time ov fRejectAbsurdFee ignoreFees s = Some (b, s') /\
    outcome K W W' (ts_pool s) l tx b s'.
Proof.
  intros Hfr HK R Hw Al N Mo Rd Cr O Hm Rm J. unfold with_coins_read.
  assert (St : exists b, (if (match network chain with REGTEST => true | _ =>
  false end) then Some true else AreInputsStandard (CoinOf c) tx) = Some b).
  { destruct (network chain); try (apply AreInputsStandard_total, Hw); by eexists. }
  destruct St as [std Est]. rewrite Est. cbn [obind].
  destruct std; cbn [negb]; [|apply checked_rejects; [done..|]; unfold invalid, Invalid, DoS;
  destruct (mode (ts_state s));
  by eexists].
  destruct (GetLegacySigOpCount_returns tx) as [legacy El]. rewrite El. cbn [obind].
  destruct (GetP2SHSigOpCount_returns (fun o => coin_out (CoinOf c o)) tx) as [p2sh Ep]. rewrite Ep. cbn [obind].
  cbv zeta.
  set (ops := u32 (legacy + p2sh)). assert (Ho : 0 <= ops) by (apply Z.mod_pos_bound; lia).
  destruct (Z.gtb_spec ops MAX_TX_SIGOPS_CURRENT) as [Hgt|Hle];
    [apply checked_rejects; [done..|]; unfold dos_debug, DoS; destruct (mode (ts_state s)); by eexists|].
  rewrite (proj1 (al_out _ Al)). cbn [obind]. pose proof Cr as (c0 & Ec & Hrd & Ca & Ev & _).
  pose proof (rr_money _ R) as Hmax. pose proof (total_in_nonneg' (ts_pool s) l (vin tx) (proj1 Mo)) as Hn.
    pose proof (proj2 Mo) as Hb.
  pose proof (proj2 (al_in _ Al)) as Hsi. pose proof (proj2 (al_out _ Al)) as Hso.
  rewrite (i64_small (v - value_out tx)) by lia. subst c v.
  pose proof (CoinOf_at (ts_pool s) l c0 BackDummy tx Ca) as Hat.
  rewrite (AreInputsStandard_ext _ _ tx Hat) in Est.
  rewrite (GetP2SHSigOpCount_ext _ (fun o => coin_out (coin_at (ts_pool s) l o)) tx) in Ep
    by (eapply Forall_impl; [exact Hat|]; by intros i ->).
  pose proof (coins_GetPriority_value (ts_pool s) l c0 BackDummy chainHeight tx (ca_coins _ _ _ _ Ca) Mo ltac:(lia))
    as Hp.
  rewrite (coins_GetPriority_ext _ _ tx chainHeight Hat) in *.
  destruct (coins_GetPriority _ tx chainHeight) as [dPriority inChain] eqn:Epr. cbn [snd] in Hp.
  set (fee := total_in (pool_ledger (ts_pool s) l) (vin tx) + shielded_in tx - value_out tx).
  assert (En : exists entry, new_entry tx fee time
    (existsb (fun i => fCoinBase (CoinOf (detached c0 BackDummy) (prevout i)) ||
      fCoinStake (CoinOf (detached c0 BackDummy) (prevout i))) (vin tx))
    ops inChain (value_out tx) = Some entry).
  { apply new_entry_returns. rewrite i64_small; unfold fee; lia. }
  destruct En as [entry En]. rewrite En. cbn [obind].
  destruct (new_entry_addable W W' (ts_pool s) l tx _ _ _ _ _ _ _ _ _ J Hw Al N Cr Rm En) as [Et Ad];
  [apply i64_small; unfold fee; lia|lia|].
  pose proof (new_entry_size _ _ _ _ _ _ _ _ En) as Esz.
  pose proof (tw_size _ Hw) as Hts. rewrite Esz. rewrite (u32_small (tx_size tx)) by (unfold tx_size in *; lia).
  edestruct check_fees_returns as (ok & st' & free' & -> & Hfee). cbn [obind].
  destruct ok; cbn [negb]; [|eexists false, _; split; [done|]; by apply (outcome_unchanged K W W' _ l tx s)].
  cbn [ts_pool]. destruct (ancestors_return K W (ts_pool s) (GetHash tx) entry (mempool_limits env) O) as [r Er].
    rewrite Er. cbn [obind].
  set (s1 := mkTxState st' _ _ _ _ _). destruct r as [err|A].
  { apply checked_rejects; [done..|]. unfold reject, DoS. destruct (mode (ts_state s1)); by eexists. }
  apply (verify_and_store_returns K W W' l tx (total_in (pool_ledger (ts_pool s) l) (vin tx) + shielded_in tx) _ entry
  A ov s1); try done.
  - by apply (limited_ancestors_exact (ts_pool s) (links_dom _ W _ O) (parents_in _ W _ O) (GetHash tx) entry
    (mempool_limits env) A Er).
  - intros Hr. change (ts_pool s1) with (ts_pool s). by destruct (network chain).
  - by exists legacy, p2sh.
  - change (ts_pool s1) with (ts_pool s). unfold priority_of. rewrite Epr, <- Hfr. by apply Hfee.
  - by apply (ancestors_package K W W' (ts_pool s) tx entry A).
Qed.
Lemma AcceptToMemoryPoolWorker_returns K W W' l tx time ov s : ts_free s = free -> (forall k, k <> Fee -> K k) ->
  relay_ready l -> tx_wire tx ->
  money_ok (ts_pool s) l tx -> readable (ts_pool s) l -> pool_ok K W (ts_pool s) -> models (ts_coins s) l ->
    room_for (ts_pool s) tx ->
  joins W W' (ts_pool s) l tx ->
  exists b s', AcceptToMemoryPoolWorker chain zc env tx fLimitFree time ov fRejectAbsurdFee ignoreFees s = Some (b,
    s') /\
    outcome K W W' (ts_pool s) l tx b s'.
Proof.
  intros Hfr HK R Hw Mo Rd O Hm Rm J. unfold AcceptToMemoryPoolWorker.
  apply (checked_returns _ (alone_ok tx)); [by apply (check_alone_returns tx l)|intros st; by apply (outcome_unchanged
  K W W' _ l tx s)|].
  intros Al st. apply (checked_returns _ (no_conflict (ts_pool s) tx));
  [apply check_conflicts_returns|intros st2; by apply (outcome_unchanged K W W' _ l tx s)|].
  intros N st2. set (s2 := set_state st2 _).
  destruct (read_coins_returns l tx s2 R Hw Al) as (r & s3 & -> & [P3 F3] & M3 & H3); [done|done|]. cbn [obind].
  destruct r as [[v c]|]; [|eexists false, _; split; [done|]; by apply (outcome_unchanged K W W' _ l tx s2)].
  change (ts_pool s) with (ts_pool s2). rewrite <- P3.
  apply (with_coins_read_returns K W W' l tx v c time ov s3); rewrite ?P3, ?F3; done.
Qed.

(** * The pool over the ledger *)

(** A pool the ledger backs: its maps and statistics agree, every input of its transactions
    is an unspent output of the ledger or of another of them, and its scripts are bytes. *)
Record backed (K : stat -> Prop) (p : CTxMemPool) l : Prop := {
  bk_ok : pool_ok K ∅ p;
  bk_inputs : forall h e i, mapTx p !! h = Some e -> i ∈ vin (e_tx e) -> is_Some (pool_utxo p l (prevout i));
  bk_scripts : forall h e, mapTx p !! h = Some e -> Forall (fun o => bytes_ok (scriptPubKey o)) (vout (e_tx e))
}.
Definition ledger_readable l : Prop := forall o u, l_utxo l o = Some u -> bytes_ok (scriptPubKey (coin_out u)).
(** Coins under the hash of a transaction are outputs of that transaction. *)
Definition owns_hash l (tx : CTransaction) : Prop :=
  forall o u, out_hash o = GetHash tx -> l_utxo l o = Some u -> 0 <= out_n o < Z.of_nat (length (vout tx)).
Lemma backed_readable K p l : backed K p l -> ledger_readable l -> readable p l.
Proof.
  intros B L o u. unfold pool_utxo. destruct (mapTx p !! out_hash o) as [e|] eqn:E; [|apply L].
  pose proof (bk_scripts _ _ _ B _ _ E) as F. rewrite Forall_forall in F.
  destruct (vout (e_tx e) !! Z.to_nat (out_n o)) as [out|] eqn:Eo; cbn [obind]; [|done]. unfold live.
  destruct (IsSpent _); [done|].
  intros [= <-]. cbn. apply F. by eapply list_elem_of_lookup_2.
Qed.
Lemma own_unknown l tx o u : owns_hash l tx -> out_hash o = GetHash tx -> l_utxo l o = Some u ->
  (forall k, (k < length (vout tx))%nat -> l_utxo l (mkOutPoint (GetHash tx) (Z.of_nat k)) = None) -> False.
Proof.
  intros Ow E Hu Hn. pose proof (Ow o u E Hu) as Hr. specialize (Hn (Z.to_nat (out_n o)) ltac:(lia)).
  rewrite Z2Nat.id in Hn by lia.
  destruct o as [h n]. cbn in *. subst h. congruence.
Qed.
Lemma pool_utxo_absent p l o : out_hash o ∉ dom (mapTx p) -> pool_utxo p l o = l_utxo l o.
Proof. intros H. unfold pool_utxo. by rewrite (not_elem_of_dom_1 _ _ H). Qed.
Lemma backed_joins K p l tx : backed K p l -> owns_hash l tx -> joins ∅ ∅ p l tx.
Proof.
  intros B Ow. split; [done|set_solver|exact Ow|]. intros Nd Hn c e Ec (i & Hi & Eh).
  destruct (bk_inputs _ _ _ B c e i Ec Hi) as [u Hu].
  rewrite pool_utxo_absent in Hu by (by rewrite Eh). destruct (own_unknown l tx (prevout i) u Ow Eh Hu).
  intros k Hk. specialize (Hn k Hk). by rewrite pool_utxo_absent in Hn.
Qed.
(** An input that was there is there still when its transaction stays in the pool or out of it. *)
Definition from_pool (p p' : CTxMemPool) : Prop :=
  forall h e', mapTx p' !! h = Some e' -> h ∈ dom (mapTx p) -> exists e, mapTx p !! h = Some e /\ core e' = core e.
Lemma supply_kept p l p' o u : from_pool p p' -> (out_hash o ∈ dom (mapTx p) <-> out_hash o ∈ dom (mapTx p')) ->
  pool_utxo p l o = Some u -> pool_utxo p' l o = Some u.
Proof.
  intros Fp Hd. unfold pool_utxo. rewrite !elem_of_dom in Hd. destruct (mapTx p' !! out_hash o) as [e'|] eqn:E'.
  - destruct (Fp _ _ E') as (e & -> & C); [apply elem_of_dom; apply Hd; by eexists|]. by rewrite (core_tx _ _ C).
  - destruct (mapTx p !! out_hash o) as [e|]; [|done]. by destruct (proj1 Hd (ex_intro _ e eq_refl)).
Qed.
Lemma outcome_backed K p l tx b s' : outcome K ∅ ∅ p l tx b s' -> backed K p l -> owns_hash l tx -> tx_wire tx ->
  backed K (ts_pool s') l.
Proof.
  set (p' := ts_pool s'). intros (_ & [S1 S2] & Hb) B Ow Hw. fold p' in S1, S2, Hb.
  assert (O : pool_ok K ∅ p') by (destruct b; apply Hb).
  assert (Fp : from_pool p p').
  { intros h e' E Hd. destruct (S1 h e' E) as [[-> _]|H]; [|done]. destruct b; [|by apply Hb].
    destruct Hb as (_ & _ & Rl). by destruct (nc_fresh _ _ (rl_conflict _ _ _ Rl)). }
  assert (New : forall a, a ∈ dom (mapTx p') -> a ∉ dom (mapTx p) -> a = GetHash tx /\ relayed p l tx).
  { intros a [e' E]%elem_of_dom Na. destruct b.
    - destruct (S1 a e' E) as [[-> _]|(e & Ee & _)];
      [by split; [|apply Hb]|destruct Na; apply elem_of_dom; by exists e].
    - destruct (proj2 Hb a e' E) as (e & Ee & _). destruct Na. apply elem_of_dom. by exists e. }
  assert (Sup : forall c e' i u, mapTx p' !! c = Some e' -> i ∈ vin (e_tx e') -> pool_utxo p l (prevout i) = Some u ->
  is_Some (pool_utxo p' l (prevout i))).
  { intros c e' i u Ec Hi Hu. exists u. apply (supply_kept p l p'); [done| |done]. split; intros Hd.
    - apply (S2 c e'); [done|by exists i|done|set_solver].
    - destruct (decide (out_hash (prevout i) ∈ dom (mapTx p))) as [|Na]; [done|exfalso].
      destruct (New _ Hd Na) as [Eh Rl].
      rewrite pool_utxo_absent in Hu by done. apply (own_unknown l tx (prevout i) u Ow Eh Hu). intros k Hk.
      rewrite <- (rl_unknown _ _ _ Rl k Hk). symmetry. apply pool_utxo_absent. cbn. by rewrite <- Eh. }
  split; [done| |].
  - intros h e' i E Hi. destruct (decide (h ∈ dom (mapTx p))) as [Hd|Nd].
    + destruct (Fp h e' E Hd) as (e & Ee & C). destruct (bk_inputs _ _ _ B h e i Ee) as [u Hu];
      [by rewrite <- (core_tx _ _ C)|by apply (Sup h e' i u)].
    + destruct (New h) as [-> Rl]; [apply elem_of_dom; by exists e'|done|].
      destruct (S1 _ _ E) as [[_ Et]|(e & Ee & _)]; [|destruct Nd; apply elem_of_dom; by exists e]. rewrite Et in Hi.
      pose proof (inputs_there _ _ _ _ _ _ (rl_inputs _ _ _ Rl)) as Av. unfold available in Av.
        rewrite Forall_forall in Av.
      destruct (Av i Hi) as [u Hu]. apply (Sup (GetHash tx) e' i u); [done|by rewrite Et|done].
  - intros h e' E. destruct (S1 h e' E) as [[_ ->]|(e & Ee & C)];
    [apply Hw|rewrite (core_tx _ _ C); by apply (bk_scripts _ _ _ B h)].
Qed.

End Query.

(** C3: on a pool the ledger backs, handing over a transaction as it is read from the wire,
    whose id no other coins carry, returns as long as no sum overflows (the values it spends,
    the sizes and signature operations of the pool), and on every path: the coins still stand
    for the same ledger; the pool is again backed by it (maps, links and statistics agree, no
    coin or nullifier is spent twice, every input is there); what the pool held before is held
    unchanged but for statistics or was dropped together with its children. When the
    transaction is accepted, it is in the pool and has passed every rule: the checks of a
    transaction alone and in the next block, no zerocoins, no shielded data under maintenance,
    standard and final, no conflict, inputs available, mature and within the money range, not
    yet known, standard inputs (outside regtest), few enough signature operations, scripts
    valid under the standard and the mandatory flags, a package within the limits, and a fee
    that is not negative, not zero outside regtest, and - as far as the caller asks - at least
    the minimum for relaying, with the priority and within the limiter when below the rate,
    and not absurdly high; when it is refused, nothing new is in the pool. *)
Theorem AcceptToMemoryPool_safe K l tx fLimitFree fOverrideMempoolLimit fRejectInsaneFee ignoreFees s :
  (forall k, k <> Fee -> K k) -> relay_ready l -> (forall c, models c l -> models (re_Flush env c) l) ->
    ledger_readable l ->
  tx_wire tx -> owns_hash l tx -> money_ok (ts_pool s) l tx -> room_for (ts_pool s) tx ->
  backed K (ts_pool s) l -> models (ts_coins s) l ->
  exists accepted s', AcceptToMemoryPool chain zc env tx fLimitFree fOverrideMempoolLimit fRejectInsaneFee ignoreFees
    s = Some (accepted, s') /\
    models (ts_coins s') l /\ backed K (ts_pool s') l /\ stays ∅ (ts_pool s) tx (ts_pool s') /\
    if accepted
    then GetHash tx ∈ dom (mapTx (ts_pool s')) /\ relayed fLimitFree fRejectInsaneFee ignoreFees (ts_free s) (ts_pool
      s) l tx
    else forall h e', mapTx (ts_pool s') !! h = Some e' -> exists e, mapTx (ts_pool s) !! h = Some e /\
      core e' = core e.
Proof.
  intros HK R HF Lr Hw Ow Mo Rm B Hm. unfold AcceptToMemoryPool, AcceptToMemoryPoolWithTime.
  set (s0 := mkTxState _ _ _ _ [] _).
  destruct (AcceptToMemoryPoolWorker_returns fLimitFree fRejectInsaneFee ignoreFees (ts_free s) K ∅ ∅ l tx (re_time
  env)
    fOverrideMempoolLimit s0)
    as (b & s1 & -> & Out); try done; [by eapply backed_readable|apply B|by eapply backed_joins|]. cbn [obind].
      cbv zeta.
  eexists b, _. split; [done|]. change (ts_pool s0) with (ts_pool s) in Out. cbn [set_coins ts_pool ts_coins].
  pose proof (outcome_backed _ _ _ _ K _ l tx b s1 Out B Ow Hw) as B1. destruct Out as (Hm1 & S1 & Hb).
  split; [apply HF; destruct b; [done|by apply foldl_Uncache_models]|]. split; [done|]. split; [done|].
  destruct b; apply Hb.
Qed.
End Steps.

(** * Example: a transaction on an empty pool *)

#[local] Existing Instance ex_trees.
#[local] Existing Instances blockAbi64 toy_sph toy_crypto toy_sig.
Definition ex_tip_entry : CBlockIndex :=
  mkIndexEntry None None 12 0 0 0 (nChainWork ac_entry) 1 1 29 [] 0 0 None
    (mkHeader 8 (repeat 0 32) (repeat 2 32) 1599999000 0x207fffff 7 (repeat 0 32) (repeat 0 32)) 1 1599999000.
Definition ex_relay : RelayEnv (CCoinsViewCache CCoinsViewDB) :=
  mkRelay {[repeat 1 32 := ex_tip_entry]} (repeat None 12 ++ [Some (repeat 1 32)]) (fun _ =>
    false) false true 1600000000 1600000000
    (mkPolicy 10 true true 83) true 15 25 101 25 101 300 72 (fun _ => 0)
    (fun p => fst <$> head (map_to_list (mapTx p))) (fun _ _ => double_of 1 0) (fun _ _ _ => EmptyString) (fun c =>
      c).
Definition ex_pay_tx : CTransaction :=
  mkTx 1 0 [mkTxIn ex_o1 [] 0xffffffff] [mkTxOut 4000 ([OP_DUP; OP_HASH160; 20] ++ repeat 3 20 ++ [OP_EQUALVERIFY;
    OP_CHECKSIG]) (-10)] 0 None None.
Definition ex_relay_state : TxState (CCoinsViewCache CCoinsViewDB) :=
  mkTxState CValidationState_default (empty_pool ∅) ex_stake_cache (S754_zero false, 0) [] false.
Abbreviation ex_relay_run := (AcceptToMemoryPool ex_chain no_zerocoin ex_relay ex_pay_tx true false true false
  ex_relay_state).
Lemma ex_relay_utxo o u : l_utxo (ledger ex_over_db) o = Some u -> o = ex_o1 /\ u = ex_coin1.
Proof. rewrite ex_stake_utxo. by intros [<- <-]%lookup_singleton_Some. Qed.
Lemma ex_relay_ready : relay_ready ex_chain ex_relay (ledger ex_over_db).
Proof.
  split.
  - exists (repeat 1 32), ex_tip_entry, 1599999000. split_and!; vm_compute; reflexivity.
  - reflexivity.
  - vm_compute. split; [discriminate|reflexivity].
  - intros q _. vm_compute. discriminate.
  - intros q Hq. cbn [re_worst ex_relay]. destruct (map_to_list (mapTx q)) as [|[h e] xs] eqn:E;
    [by apply map_to_list_empty_iff in E|].
    exists h. split; [done|]. apply elem_of_dom. exists e. apply elem_of_map_to_list. rewrite E. constructor.
  - vm_compute. split; [discriminate|reflexivity].
Qed.
Lemma ex_relay_backed : backed (fun _ => True) (empty_pool ∅) (ledger ex_over_db).
Proof. split; [apply empty_pool_ok|by intros h e i E|by intros h e E]. Qed.
Lemma AcceptToMemoryPool_safe_witness :
  exists s', ex_relay_run = Some (true, s') /\ models (ts_coins s') (ledger ex_over_db) /\ backed (fun _ =>
    True) (ts_pool s') (ledger ex_over_db) /\
    GetHash ex_pay_tx ∈ dom (mapTx (ts_pool s')) /\ fee_of (empty_pool ∅) (ledger ex_over_db) ex_pay_tx = 1000.
Proof.
  assert (E : match ex_relay_run with Some (true, _) => true | _ => false end = true) by (vm_compute; reflexivity).
  destruct (AcceptToMemoryPool_safe ex_chain no_zerocoin ex_relay (fun _ =>
  True) (ledger ex_over_db) ex_pay_tx true false true false ex_relay_state)
    as (b & s' & E' & Hm & B & _ & Hb).
  - done.
  - exact ex_relay_ready.
  - done.
  - intros o u [-> ->]%ex_relay_utxo. unfold ex_coin1. cbn. format_ok.
  - unfold ex_pay_tx. split; cbn [vin vout sapData]; [format_ok|format_ok|vm_compute; reflexivity|reflexivity|done].
  - intros o u Eh [-> ->]%ex_relay_utxo. vm_compute in Eh. discriminate.
  - split; [repeat constructor|]; vm_compute; [discriminate|reflexivity].
  - split; vm_compute; reflexivity.
  - exact ex_relay_backed.
  - exact ex_stake_models.
  - rewrite E' in E. destruct b; [|discriminate E]. exists s'. split; [exact E'|]. split; [exact Hm|].
    split; [exact B|]. split; [apply Hb|].
    vm_compute. reflexivity.
Defined.
