(* ===== verification/CheckQueue.v ===== *)
(** The queue of script checks shared by the validation thread and its workers
    (src/checkqueue.h): a step relation over the threads, one rule for each
    section under the mutex. *)
From Stdlib Require Import ZArith Lia List Bool.
From stdpp Require Import base list.
From S2P Require Import Prelude.
Import ListNotations.
Local Open Scope Z_scope.
Local Open Scope passion_scope.

Section CheckQueue.
(** The checks; [check()] returns a bool. *)
Context {T : Type}.
Variable check : T -> bool.
Variable nBatchSize : Z.

Record CCheckQueue := mkQueue {
  queue : list T;
  nIdle : Z;
  nTotal : Z;
  fAllOk : bool;
  nTodo : Z;
  fQuit : bool
}.
Definition CCheckQueue_new : CCheckQueue := mkQueue [] 0 0 true 0 false.

(** Where a thread is in [Loop]: at the lock at the top of the loop with the size and
    the result of its last batch; in [cond.wait], perhaps notified; or at work on a
    batch.  [Outside] is a master that has not called [Wait], or a thread that has
    left the loop. *)
Inductive tstate :=
| Outside
| Enter (nNow : Z) (fOk : bool)
| Waiting (notified : bool)
| Working (nNow : Z) (fOk : bool) (vChecks : list T).

(** What a section under the lock ends with. *)
Inductive outcome := OReturn (fRet : bool) | OWait | OWork (nNow : Z) (fOk : bool) (vChecks : list T).

(** The clean-up of the previous run, and whether the master is to be notified. *)
Definition cleanup (fMaster : bool) (nNow : Z) (fOk : bool) (q : CCheckQueue) : bool * CCheckQueue :=
  if negb (nNow =? 0) then
    let nTodo := u32 (nTodo q - nNow) in
    ((nTodo =? 0) && negb fMaster, mkQueue (queue q) (nIdle q) (nTotal q) (fAllOk q && fOk) nTodo (fQuit q))
  else (false, mkQueue (queue q) (nIdle q) (nTotal q + 1) (fAllOk q) (nTodo q) (fQuit q)).

(** [max(1U, min(nBatchSize, size / (nTotal + nIdle + 1)))] *)
Definition batch_size (q : CCheckQueue) : Z :=
  Z.max 1 (Z.min nBatchSize (u32 (Z.of_nat (length (queue q))) / (nTotal q + nIdle q + 1))).
(** [n] times [back] and [pop_back]; [None]: the vector is empty. *)
Fixpoint pop_batch (n : nat) (v : list T) : option (list T * list T) :=
  match n with
  | O => Some ([], v)
  | S n =>
      match last v with
      | None => None
      | Some k => r <- pop_batch n (removelast v);; Some (k :: fst r, snd r)
      end
  end.

(** From [while (queue.empty())] to the end of the section. *)
Definition wait_or_take (fMaster : bool) (q : CCheckQueue) : option (outcome * CCheckQueue) :=
  match queue q with
  | [] =>
      if (fMaster || fQuit q) && (nTodo q =? 0)
      then Some (OReturn (fAllOk q),
                 mkQueue [] (nIdle q) (nTotal q - 1) (if fMaster then true else fAllOk q) (nTodo q) (fQuit q))
      else Some (OWait, mkQueue [] (nIdle q + 1) (nTotal q) (fAllOk q) (nTodo q) (fQuit q))
  | _ =>
      let nNow := batch_size q in
      r <- pop_batch (Z.to_nat nNow) (queue q);;
      Some (OWork nNow (fAllOk q) (fst r), mkQueue (snd r) (nIdle q) (nTotal q) (fAllOk q) (nTodo q) (fQuit q))
  end.
Definition enter (fMaster : bool) (nNow : Z) (fOk : bool) (q : CCheckQueue) : option (bool * outcome * CCheckQueue) :=
  let '(notify, q) := cleanup fMaster nNow fOk q in
  r <- wait_or_take fMaster q;; Some (notify, fst r, snd r).
(** After [cond.wait] returns. *)
Definition wake (fMaster : bool) (q : CCheckQueue) : option (outcome * CCheckQueue) :=
  wait_or_take fMaster (mkQueue (queue q) (nIdle q - 1) (nTotal q) (fAllOk q) (nTodo q) (fQuit q)).
(** One check of a batch. *)
Definition run_one (fOk : bool) (k : T) : bool := if fOk then check k else fOk.

Definition Add (vChecks : list T) (q : CCheckQueue) : CCheckQueue :=
  mkQueue (queue q ++ vChecks) (nIdle q) (nTotal q) (fAllOk q) (u32 (nTodo q + Z.of_nat (length vChecks))) (fQuit q).
Definition IsIdle (q : CCheckQueue) : bool := (nTotal q =? nIdle q) && (nTodo q =? 0) && Bool.eqb (fAllOk q) true.

(** * The threads

    Thread 0 is the master.  [added] records what was added since the last result. *)

Record Sys := mkSys { sq : CCheckQueue; threads : list tstate; added : list T }.
Definition start (workers : nat) : Sys := mkSys CCheckQueue_new (Outside :: repeat (Enter 0 true) workers) [].

Definition after (o : outcome) : tstate :=
  match o with OReturn _ => Outside | OWait => Waiting false | OWork n ok v => Working n ok v end.
Definition notify_waiting (t : tstate) : tstate := match t with Waiting _ => Waiting true | t => t end.
Definition notify_master (b : bool) (ts : list tstate) : list tstate :=
  match ts with t :: ts => (if b then notify_waiting t else t) :: ts | [] => [] end.
(** [notify_one] reaches some thread that waits, if there is one; the master is not
    waiting when it adds. *)
Inductive notify_workers : nat -> list tstate -> list tstate -> Prop :=
| notify_nobody ts : notify_workers 0 ts ts
| notify_one ts j : ts !! j = Some (Waiting false) -> notify_workers 1 ts (<[j := Waiting true]> ts)
| notify_lost ts : Forall (fun t => t <> Waiting false) ts -> notify_workers 1 ts ts
| notify_all n ts : (1 < n)%nat -> notify_workers n ts (map notify_waiting ts).

(** Steps carry whether a thread woke up without having been notified, and the result
    when the master leaves the loop, which also ends what was added. *)
Definition section_result (i : nat) (o : outcome) : option bool := match o with OReturn b => if (i =? 0)%nat then Some b else None | _ => None end.
Definition section_added (i : nat) (o : outcome) (l : list T) : list T := match section_result i o with Some _ => [] | None => l end.
Definition is_master (i : nat) : bool := (i =? 0)%nat.

Inductive step : Sys -> bool -> option bool -> Sys -> Prop :=
| step_Add s v ts : threads s !! 0%nat = Some Outside -> Z.of_nat (length (added s) + length v) < 2 ^ 32 ->
    notify_workers (length v) (threads s) ts -> step s false None (mkSys (Add v (sq s)) ts (added s ++ v))
| step_Wait s : threads s !! 0%nat = Some Outside ->
    step s false None (mkSys (sq s) (<[0%nat := Enter 0 true]> (threads s)) (added s))
| step_enter s i n ok notify o q : threads s !! i = Some (Enter n ok) -> enter (is_master i) n ok (sq s) = Some (notify, o, q) ->
    step s false (section_result i o) (mkSys q (notify_master notify (<[i := after o]> (threads s))) (section_added i o (added s)))
| step_wake s i notified o q : threads s !! i = Some (Waiting notified) -> wake (is_master i) (sq s) = Some (o, q) ->
    step s (negb notified) (section_result i o) (mkSys q (<[i := after o]> (threads s)) (section_added i o (added s)))
| step_check s i n ok k v : threads s !! i = Some (Working n ok (k :: v)) ->
    step s false None (mkSys (sq s) (<[i := Working n (run_one ok k) v]> (threads s)) (added s))
| step_done s i n ok : threads s !! i = Some (Working n ok []) ->
    step s false None (mkSys (sq s) (<[i := Enter n ok]> (threads s)) (added s)).
Inductive reachable (workers : nat) : Sys -> Prop :=
| reach_start : reachable workers (start workers)
| reach_step s sp r s' : reachable workers s -> step s sp r s' -> reachable workers s'.

(** * Invariant *)

Definition sum (f : tstate -> Z) (ts : list tstate) : Z := fold_right (fun t acc => f t + acc) 0 ts.
(** Checks a thread has taken and not yet reported, whether it knows of a failure, and
    its part in the counters. *)
Definition pend (t : tstate) : Z := match t with Enter n _ | Working n _ _ => n | _ => 0 end.
Definition bad (t : tstate) : Z :=
  match t with
  | Enter n ok => if (n =? 0) || ok then 0 else 1
  | Working _ ok v => if ok && forallb check v then 0 else 1
  | _ => 0
  end.
Definition idle (t : tstate) : Z := match t with Waiting _ => 1 | _ => 0 end.
Definition inside (t : tstate) : Z := match t with Outside => 0 | Enter n _ => if n =? 0 then 0 else 1 | _ => 1 end.
Definition wf (t : tstate) : Prop := match t with Enter n _ => 0 <= n | Working n _ _ => 1 <= n | _ => True end.

Record Counts (q : CCheckQueue) (ts : list tstate) (l : list T) : Prop := {
  c_todo : nTodo q = Z.of_nat (length (queue q)) + sum pend ts;
  c_fits : Z.of_nat (length (queue q)) + sum pend ts <= Z.of_nat (length l) < 2 ^ 32;
  c_result : forallb check l = fAllOk q && forallb check (queue q) && (sum bad ts =? 0);
  c_idle : nIdle q = sum idle ts;
  c_total : nTotal q = sum inside ts;
  c_quit : fQuit q = false
}.
Record Inv (s : Sys) : Prop := {
  inv_counts : Counts (sq s) (threads s) (added s);
  inv_wf : Forall wf (threads s);
  inv_master : threads s !! 0%nat = Some (Waiting false) -> queue (sq s) = [] /\ nTodo (sq s) <> 0;
  inv_some : threads s <> []
}.

Lemma sum_insert f ts : forall i t t', ts !! i = Some t -> sum f (<[i := t']> ts) = sum f ts - f t + f t'.
Proof.
  induction ts as [|x ts IH]; intros [|i] t t' Hi; try done.
  - injection Hi as ->. change (f t' + sum f ts = f t + sum f ts - f t + f t'). lia.
  - specialize (IH i t t' Hi). change (f x + sum f (<[i := t']> ts) = f x + sum f ts - f t + f t'). lia.
Qed.
Lemma sum_same f ts ts' : Forall2 (fun t t' => f t = f t') ts ts' -> sum f ts' = sum f ts.
Proof. induction 1 as [|t t' ts ts' Ht HF IH]; [done|]. cbn. unfold sum in *. lia. Qed.
Lemma sum_nonneg f ts : Forall (fun t => 0 <= f t) ts -> 0 <= sum f ts.
Proof. induction 1; cbn; [lia|]. unfold sum in *. lia. Qed.
Lemma sum_zero f ts : Forall (fun t => 0 <= f t) ts -> sum f ts = 0 -> Forall (fun t => f t = 0) ts.
Proof.
  induction 1 as [|t ts Ht HF IH]; intros E; [done|]. pose proof (sum_nonneg f ts HF). cbn in E. fold (sum f ts) in E.
  constructor; [lia|apply IH; lia].
Qed.
Lemma pend_nonneg ts : Forall wf ts -> Forall (fun t => 0 <= pend t) ts.
Proof. intros H. eapply Forall_impl; [exact H|]. intros []; cbn; lia. Qed.
Lemma bad_range t : 0 <= bad t <= 1.
Proof. destruct t; cbn; repeat case_match; lia. Qed.
Lemma bad_nonneg ts : Forall (fun t => 0 <= bad t) ts.
Proof. apply Forall_forall. intros t _. apply bad_range. Qed.

(** A thread that knows of a failure has checks to report. *)
Lemma no_pend_no_bad ts : Forall wf ts -> sum pend ts = 0 -> sum bad ts = 0.
Proof.
  intros Hw H0. apply sum_zero in H0; [|by apply pend_nonneg]. clear -Hw H0.
  induction ts as [|t ts IH]; [done|]. apply Forall_cons in Hw as [Ht Hw], H0 as [H0 H1]. cbn. fold (sum bad ts). rewrite IH by done.
  destruct t; cbn in *; try lia; subst; done || lia.
Qed.

(** Notifications leave all of this as it is. *)
Definition same_counts (t t' : tstate) : Prop := t' = t \/ exists b b', t = Waiting b /\ t' = Waiting b'.
Lemma Counts_same q ts ts' l : Forall2 same_counts ts ts' -> Counts q ts l -> Counts q ts' l.
Proof.
  intros H C.
  assert (E : forall f : tstate -> Z, (forall b b', f (Waiting b) = f (Waiting b')) -> sum f ts' = sum f ts).
  { intros f Hf. apply sum_same. eapply Forall2_impl; [exact H|]. intros t t' [->|(b & b' & -> & ->)]; [done|apply Hf]. }
  destruct C. split; rewrite ?E by done; done.
Qed.
Lemma wf_same ts ts' : Forall2 same_counts ts ts' -> Forall wf ts -> Forall wf ts'.
Proof.
  induction 1 as [|t t' ts ts' Ht HF IH]; intros Hw; [done|]. apply Forall_cons in Hw as [Hw1 Hw]. constructor; [|by apply IH].
  destruct Ht as [->|(b & b' & -> & ->)]; done.
Qed.
Lemma same_refl ts : Forall2 same_counts ts ts.
Proof. induction ts; constructor; [by left|done]. Qed.
Lemma notify_master_same b ts : Forall2 same_counts ts (notify_master b ts).
Proof.
  destruct ts as [|t ts]; [constructor|]. cbn. constructor; [|apply same_refl].
  destruct b; [|by left]. destruct t; try (by left). right. by eexists _, _.
Qed.
Lemma notify_workers_same n ts ts' : notify_workers n ts ts' -> Forall2 same_counts ts ts'.
Proof.
  induction 1 as [ts|ts j Hj|ts HF|n ts Hn]; [apply same_refl| |apply same_refl|].
  - revert j Hj. induction ts as [|t ts IH]; intros [|j] Hj; try done; cbn; constructor.
    + injection Hj as ->. right. by eexists _, _.
    + apply same_refl.
    + by left.
    + by apply IH.
  - induction ts as [|t ts IH]; cbn; constructor; [|done]. destruct t; try (by left). right. by eexists _, _.
Qed.

(** ** Batches *)

Lemma pop_batch_spec n : forall v, (n <= length v)%nat -> exists b v', pop_batch n v = Some (b, v') /\ v = v' ++ rev b /\ length b = n.
Proof.
  induction n as [|n IH]; intros v Hn; [exists [], v; cbn; by rewrite app_nil_r|].
  destruct v as [|x v] using rev_ind; [cbn in Hn; lia|]. clear IHv. rewrite length_app in Hn. cbn in Hn.
  destruct (IH v ltac:(lia)) as (b & v' & E & Ev & Hl). exists (x :: b), v'. cbn [pop_batch]. rewrite last_snoc, removelast_last, E.
  cbn [obind fst snd]. split; [done|]. cbn [rev]. rewrite Ev at 1. rewrite app_assoc. split; [done|]. cbn. lia.
Qed.
Lemma batch_size_range q : queue q <> [] -> Z.of_nat (length (queue q)) < 2 ^ 32 -> 0 <= nTotal q + nIdle q ->
  1 <= batch_size q <= Z.of_nat (length (queue q)).
Proof.
  intros Hne Hl Ht. unfold batch_size. rewrite u32_small by lia. assert (0 < length (queue q))%nat by (destruct (queue q); [done|cbn; lia]).
  pose proof (Z.div_le_upper_bound (Z.of_nat (length (queue q))) (nTotal q + nIdle q + 1) (Z.of_nat (length (queue q))) ltac:(lia) ltac:(nia)). lia.
Qed.

(** The three ways a section ends; it always does. *)
Lemma wait_or_take_cases m q : Z.of_nat (length (queue q)) < 2 ^ 32 -> 0 <= nTotal q + nIdle q -> fQuit q = false ->
  (queue q = [] /\ m = true /\ nTodo q = 0 /\
     wait_or_take m q = Some (OReturn (fAllOk q), mkQueue [] (nIdle q) (nTotal q - 1) true (nTodo q) false)) \/
  (queue q = [] /\ (m = true -> nTodo q <> 0) /\
     wait_or_take m q = Some (OWait, mkQueue [] (nIdle q + 1) (nTotal q) (fAllOk q) (nTodo q) false)) \/
  (exists n b v', 1 <= n /\ queue q = v' ++ rev b /\ Z.of_nat (length b) = n /\
     wait_or_take m q = Some (OWork n (fAllOk q) b, mkQueue v' (nIdle q) (nTotal q) (fAllOk q) (nTodo q) false)).
Proof.
  intros Hl Ht Hq. unfold wait_or_take. rewrite Hq, orb_false_r. destruct (queue q) as [|x v] eqn:Ev.
  - destruct m; cbn [andb]; [destruct (Z.eqb_spec (nTodo q) 0)|]; [left|right; left|right; left]; done.
  - right. right. rewrite <- Ev in *. assert (Hne : queue q <> []) by (by rewrite Ev). pose proof (batch_size_range q Hne Hl Ht) as Hb.
    destruct (pop_batch_spec (Z.to_nat (batch_size q)) (queue q) ltac:(lia)) as (b & v' & E & Eq & Hlen).
    exists (batch_size q), b, v'. split; [lia|]. split; [done|]. split; [lia|]. cbv zeta. by rewrite E.
Qed.

(** ** Every step keeps it *)

(** A thread inside a section counts like one with an empty batch. *)
Definition in_section : tstate := Working 0 true [].
Lemma Counts_insert q ts l i t t' : ts !! i = Some t -> Counts q ts l ->
  pend t' = pend t -> bad t' = bad t -> idle t' = idle t -> inside t' = inside t -> Counts q (<[i := t']> ts) l.
Proof.
  intros Hi C E1 E2 E3 E4. destruct C as [C1 C2 C3 C4 C5 C6].
  split; rewrite ?(sum_insert _ _ _ _ t' Hi), ?E1, ?E2, ?E3, ?E4; try lia; [|done]. by rewrite Z.sub_add.
Qed.

Lemma cleanup_counts m n ok q ts l i notify q' : ts !! i = Some (Enter n ok) -> Forall wf ts -> Counts q ts l ->
  cleanup m n ok q = (notify, q') ->
  Counts q' (<[i := in_section]> ts) l /\ queue q' = queue q /\ (notify = true <-> n <> 0 /\ nTodo q' = 0 /\ m = false) /\ nTodo q' = nTodo q - n.
Proof.
  intros Hi Hw [C1 C2 C3 C4 C5 C6] E.
  assert (Hn : 0 <= n). { rewrite Forall_lookup in Hw. apply (Hw i _ Hi). }
  assert (Hp : n <= sum pend ts).
  { pose proof (sum_insert pend ts i _ Outside Hi) as E1. cbn in E1.
    enough (0 <= sum pend (<[i := Outside]> ts)) by lia. apply sum_nonneg, Forall_insert; [by apply pend_nonneg|done]. }
  pose proof (fun f => sum_insert f ts i _ in_section Hi) as Es. unfold cleanup in E.
  assert (Hb : bad in_section = 0 /\ pend in_section = 0 /\ idle in_section = 0 /\ inside in_section = 1) by done.
  destruct Hb as (B1 & B2 & B3 & B4). pose proof (sum_nonneg bad ts (bad_nonneg ts)) as Hbad.
  pose proof (sum_nonneg bad _ (bad_nonneg (<[i := in_section]> ts))) as Hbad'.
  destruct (Z.eqb_spec n 0) as [->|Hn0]; cbn [negb] in E; injection E as <- <-; cbn.
  - split; [split; cbn; rewrite ?Es, ?B1, ?B2, ?B3, ?B4; cbn; try lia; [|done]|].
    + rewrite C3. f_equal. f_equal. lia.
    + split; [done|]. split; [|lia]. split; [done|]. intros (? & _). done.
  - rewrite u32_small by lia. split; [split; cbn; rewrite ?Es, ?B1, ?B2, ?B3, ?B4; cbn; try lia; [|..]|].
    + rewrite C3. specialize (Es bad). rewrite B1 in Es. cbn in Es, Hbad'. destruct (Z.eqb_spec n 0) as [|_]; [done|]. cbn [orb] in *.
      destruct ok; rewrite ?andb_true_r; [f_equal; f_equal; lia|]. rewrite andb_false_r. cbn [andb].
      destruct (fAllOk q), (forallb check (queue q)); cbn [andb]; try done. apply Z.eqb_neq. lia.
    + destruct (Z.eqb_spec n 0); [done|]. lia.
    + done.
    + split; [done|]. split; [|done]. rewrite andb_true_iff, Z.eqb_eq, negb_true_iff. tauto.
Qed.

Lemma wait_or_take_counts m q ts l i t o q' : ts !! i = Some t -> Forall wf (<[i := Outside]> ts) -> m = is_master i ->
  Counts q (<[i := in_section]> ts) l -> wait_or_take m q = Some (o, q') ->
  Counts q' (<[i := after o]> ts) (section_added i o l) /\ wf (after o) /\
  (forall b, section_result i o = Some b -> b = forallb check l) /\
  (m = true -> o = OWait -> queue q' = [] /\ nTodo q' <> 0) /\ nTodo q' = nTodo q /\ (queue q = [] -> queue q' = []).
Proof.
  intros Hi Hw Hm C E. pose proof (lookup_lt_Some _ _ _ Hi) as Hlt.
  assert (Hi' : <[i := in_section]> ts !! i = Some in_section) by (by rewrite list_lookup_insert_eq).
  pose proof (fun f => sum_insert f _ i _ (after o) Hi') as Es. setoid_rewrite list_insert_insert_eq in Es.
  assert (Hpo : 0 <= sum pend (<[i := in_section]> ts)).
  { rewrite (sum_insert pend ts i t in_section Hi). pose proof (sum_insert pend ts i t Outside Hi) as E1. cbn in E1 |- *.
    pose proof (sum_nonneg pend _ (pend_nonneg _ Hw)). lia. }
  assert (Hti : 0 <= nTotal q + nIdle q).
  { rewrite (c_idle _ _ _ C), (c_total _ _ _ C). clear. generalize (<[i := in_section]> ts). intros us.
    pose proof (sum_nonneg idle us ltac:(apply Forall_forall; intros [] _; cbn; lia)).
    pose proof (sum_nonneg inside us ltac:(apply Forall_forall; intros [] _; cbn; repeat case_match; lia)). lia. }
  pose proof C as [C1 C2 C3 C4 C5 C6].
  destruct (wait_or_take_cases m q ltac:(lia) Hti C6) as [(Q1 & -> & Q2 & W)|[(Q1 & Q2 & W)|(n & b & v' & Q1 & Q2 & Q3 & W)]];
    rewrite W in E; injection E as <- <-; cbn [after] in *; unfold section_added, section_result.
  - symmetry in Hm. unfold is_master in Hm. rewrite Hm. rewrite Q1 in *. cbn in C1, C2, C3.
    assert (Hp0 : sum pend (<[i := in_section]> ts) = 0) by lia.
    assert (Hb0 : sum bad (<[i := in_section]> ts) = 0).
    { rewrite (sum_insert bad ts i t in_section Hi). pose proof (sum_insert bad ts i t Outside Hi) as E1.
      pose proof (sum_insert pend ts i t Outside Hi) as E2. pose proof (sum_insert pend ts i t in_section Hi) as E3.
      rewrite <- (no_pend_no_bad _ Hw); cbn in *; lia. }
    split; [|split; [done|split; [|split; [done|split; [done|done]]]]].
    + split; cbn; rewrite ?Es; cbn; try lia; done.
    + intros b [= <-]. rewrite C3, Hb0, !andb_true_r. done.
  - rewrite Q1 in *. split; [|split; [done|split; [done|split; [by intros Em _; split; [|apply Q2]|split; [done|done]]]]].
    cbn in C1, C2, C3. split; cbn; rewrite ?Es; cbn; try lia; try done. rewrite C3. f_equal. f_equal. lia.
  - rewrite Q2 in *. rewrite length_app, length_rev in *. split; [|split; [done|split; [done|split; [done|split; [done|]]]]].
    + split; cbn -[forallb]; rewrite ?Es; cbn -[forallb]; try lia; try done.
      rewrite C3, forallb_app. pose proof (sum_nonneg bad _ (bad_nonneg (<[i := in_section]> ts))).
      assert (Er : forallb check (rev b) = forallb check b).
      { clear. induction b as [|x b IH]; [done|]. cbn. rewrite forallb_app, IH. cbn. rewrite andb_true_r. apply andb_comm. }
      rewrite Er. destruct (fAllOk q), (forallb check v'), (forallb check b); cbn [andb]; try done;
        cbn [forallb]; rewrite ?Z.sub_0_r, ?Z.add_0_r; try done; symmetry; apply Z.eqb_neq; lia.
    + intros Hn. destruct b; [cbn in Q3; lia|]. apply (f_equal length) in Hn. rewrite length_app, length_rev in Hn. cbn in Hn. lia.
Qed.

Lemma lookup_insert_other {A} (ts : list A) i j (t : A) : i <> j -> <[i := t]> ts !! j = ts !! j.
Proof. intros H. by apply list_lookup_insert_ne. Qed.
Lemma same_lookup ts ts' i t' : Forall2 same_counts ts ts' -> ts' !! i = Some t' -> exists t, ts !! i = Some t /\ same_counts t t'.
Proof. intros H Hi. destruct (Forall2_lookup_r _ _ _ _ _ H Hi) as (t & Ht & Hs). by exists t. Qed.
Lemma notify_master_0 b ts : notify_master b ts !! 0%nat = Some (Waiting false) -> b = false /\ ts !! 0%nat = Some (Waiting false).
Proof. destruct ts as [|t ts]; [done|]. cbn. destruct b; [destruct t; done|done]. Qed.

Lemma Add_inv s v ts : Inv s -> threads s !! 0%nat = Some Outside -> Z.of_nat (length (added s) + length v) < 2 ^ 32 ->
  notify_workers (length v) (threads s) ts -> Inv (mkSys (Add v (sq s)) ts (added s ++ v)).
Proof.
  intros [C Hw Hm Hne] H0 Hf Hn. apply notify_workers_same in Hn. pose proof (sum_nonneg pend _ (pend_nonneg _ Hw)) as Hp.
  split; cbn.
  - apply (Counts_same _ _ _ _ Hn). destruct C as [C1 C2 C3 C4 C5 C6]. split; cbn; rewrite ?length_app, ?forallb_app; try lia; try done.
    + rewrite u32_small; lia.
    + rewrite C3. destruct (fAllOk _), (forallb check (queue _)), (forallb check v), (_ =? 0); done.
  - by apply (wf_same _ _ Hn).
  - intros E. destruct (same_lookup _ _ _ _ Hn E) as (t & Ht & Hs). rewrite H0 in Ht. injection Ht as <-.
    destruct Hs as [?|(? & ? & ? & _)]; done.
  - intros ->. inversion Hn. congruence.
Qed.

(** A section, after the clean-up or after waking up. *)
Lemma section_inv s i t q o q' b : Inv s -> threads s !! i = Some t -> Counts q (<[i := in_section]> (threads s)) (added s) ->
  wait_or_take (is_master i) q = Some (o, q') ->
  (threads s !! 0%nat = Some (Waiting false) -> i <> 0%nat -> b = false -> queue q = [] /\ nTodo q <> 0) ->
  (is_master i = true -> b = false) ->
  Inv (mkSys q' (notify_master b (<[i := after o]> (threads s))) (section_added i o (added s))) /\
  forall r, section_result i o = Some r -> r = forallb check (added s).
Proof.
  intros [C Hw Hm Hne] Hi Hq E Hmaster Hb. assert (Hw' : Forall wf (<[i := Outside]> (threads s))) by (by apply Forall_insert).
  destruct (wait_or_take_counts _ _ _ _ _ _ _ _ Hi Hw' eq_refl Hq E) as (C' & Hwf & Hr & Hwait & Htodo & Hempty).
  split; [|exact Hr]. pose proof (notify_master_same b (<[i := after o]> (threads s))) as Hsame. split; cbn.
  - by apply (Counts_same _ _ _ _ Hsame).
  - apply (wf_same _ _ Hsame). by apply Forall_insert.
  - intros [Hbf H0]%notify_master_0. destruct (decide (i = 0%nat)) as [->|Hi0].
    + rewrite list_lookup_insert_eq in H0 by (by eapply lookup_lt_Some). injection H0 as H0. apply Hwait; [done|]. by destruct o.
    + rewrite lookup_insert_other in H0 by done. destruct (Hmaster H0 Hi0 Hbf) as [H1 H2]. split; [by apply Hempty|congruence].
  - destruct (threads s) as [|x ts]; [done|]. by destruct i.
Qed.

Lemma step_inv s sp r s' : Inv s -> step s sp r s' -> Inv s' /\ forall b, r = Some b -> b = forallb check (added s).
Proof.
  intros HI Hs. pose proof HI as [C Hw Hm Hne].
  destruct Hs as [s v ts H0 Hf Hn|s H0|s i n ok notify o q Hi E|s i notified o q Hi E|s i n ok k v Hi|s i n ok Hi].
  - split; [by apply Add_inv|done].
  - split; [|done]. split; cbn; [by apply (Counts_insert _ _ _ _ _ _ H0)|by apply Forall_insert| |destruct (threads s); done].
    rewrite list_lookup_insert_eq by (by eapply lookup_lt_Some). done.
  - unfold enter in E. destruct (cleanup (is_master i) n ok (sq s)) as [nt q1] eqn:Ec. apply obind_Some in E as ([o1 q2] & E & E').
    cbn in E'. injection E' as <- <- <-. destruct (cleanup_counts _ _ _ _ _ _ _ _ _ Hi Hw C Ec) as (C1 & Q1 & Hnt & Hto).
    apply (section_inv s i _ _ _ _ _ HI Hi C1 E).
    + intros H0 Hi0 ->. destruct (Hm H0) as [Hq Ht]. split; [congruence|]. intros Hz.
      destruct (decide (n = 0)) as [->|Hn0]; [lia|]. apply diff_false_true. apply Hnt. split; [done|]. split; [done|]. by apply Nat.eqb_neq.
    + intros Hmi. destruct nt; [|done]. destruct (proj1 Hnt eq_refl) as (_ & _ & ?). congruence.
  - unfold wake in E. set (q1 := mkQueue _ _ _ _ _ _) in E.
    assert (C1 : Counts q1 (<[i := in_section]> (threads s)) (added s)).
    { destruct C as [C1 C2 C3 C4 C5 C6]. split; cbn; rewrite ?(sum_insert _ _ _ _ in_section Hi); cbn; try lia; [|done].
      rewrite C3. f_equal. f_equal. lia. }
    destruct (section_inv s i _ q1 o q false HI Hi C1 E) as [HI' Hr]; [intros H0 _ _; apply (Hm H0)|done|].
    assert (En : notify_master false (<[i := after o]> (threads s)) = <[i := after o]> (threads s)) by (by destruct (<[i := after o]> (threads s))).
    rewrite En in HI'. by split.
  - split; [|done]. assert (Hn : 1 <= n) by (rewrite Forall_lookup in Hw; apply (Hw i _ Hi)). split; cbn.
    + apply (Counts_insert _ _ _ _ _ _ Hi C); try done. cbn. by destruct ok.
    + by apply Forall_insert.
    + intros E. destruct (decide (i = 0%nat)) as [->|Hi0]; [rewrite list_lookup_insert_eq in E by (by eapply lookup_lt_Some); done|].
      rewrite lookup_insert_other in E by done. by apply Hm.
    + destruct (threads s); [done|]. by destruct i.
  - split; [|done]. assert (Hn : 1 <= n) by (rewrite Forall_lookup in Hw; apply (Hw i _ Hi)). split; cbn.
    + apply (Counts_insert _ _ _ _ _ _ Hi C); try done; cbn; destruct (Z.eqb_spec n 0); try lia; by destruct ok.
    + apply Forall_insert; [done|cbn; lia].
    + intros E. destruct (decide (i = 0%nat)) as [->|Hi0]; [rewrite list_lookup_insert_eq in E by (by eapply lookup_lt_Some); done|].
      rewrite lookup_insert_other in E by done. by apply Hm.
    + destruct (threads s); [done|]. by destruct i.
Qed.

Lemma start_inv workers : Inv (start workers).
Proof.
  assert (Hs : forall f : tstate -> Z, f Outside = 0 -> f (Enter 0 true) = 0 -> sum f (Outside :: repeat (Enter 0 true) workers) = 0).
  { intros f H1 H2. cbn. rewrite H1. induction workers as [|n IH]; [done|]. cbn. rewrite H2. exact IH. }
  split; cbn; [split; cbn -[sum]; rewrite ?Hs by done; cbn; try lia; done| |done|done].
  constructor; [done|]. apply Forall_forall. intros t Ht. apply list_elem_of_In, repeat_spec in Ht as ->. cbn. lia.
Qed.
Lemma reachable_inv workers s : reachable workers s -> Inv s.
Proof. induction 1 as [|s sp r s' Hr IH Hs]; [apply start_inv|]. by eapply step_inv. Qed.

(** * Progress and termination *)

(** A budget that every step spends, except a wake-up without a notification. *)
Definition weight (t : tstate) : Z :=
  match t with
  | Outside => 0
  | Enter n _ => if n =? 0 then 2 else 4
  | Waiting notified => if notified then 2 else 0
  | Working _ _ v => 5 + 8 * Z.of_nat (length v)
  end.
Definition budget (s : Sys) : Z := 12 * Z.of_nat (length (queue (sq s))) + sum weight (threads s).
Lemma weight_nonneg ts : Forall (fun t => 0 <= weight t) ts.
Proof. apply Forall_forall. intros [] _; cbn; repeat case_match; lia. Qed.
Lemma budget_nonneg s : 0 <= budget s.
Proof. unfold budget. pose proof (sum_nonneg weight _ (weight_nonneg (threads s))). lia. Qed.

Lemma notify_master_weight b ts : sum weight (notify_master b ts) <= sum weight ts + (if b then 2 else 0).
Proof. destruct ts as [|t ts]; [destruct b; cbn; lia|]. destruct b; cbn; [|lia]. destruct t; cbn; try lia. case_match; lia. Qed.
Lemma wait_or_take_weight m q o q' : fQuit q = false -> Z.of_nat (length (queue q)) < 2 ^ 32 -> 0 <= nTotal q + nIdle q ->
  wait_or_take m q = Some (o, q') ->
  12 * Z.of_nat (length (queue q')) + weight (after o) <= 12 * Z.of_nat (length (queue q)) + 1.
Proof.
  intros Hq Hl Ht E. destruct (wait_or_take_cases m q Hl Ht Hq) as [(Q1 & _ & _ & W)|[(Q1 & _ & W)|(n & b & v' & Q1 & Q2 & Q3 & W)]];
    rewrite W in E; injection E as <- <-; cbn -[Z.mul]; rewrite ?Q1; cbn -[Z.mul]; [lia|lia|].
  rewrite Q2, length_app, length_rev. lia.
Qed.
Lemma inv_section s : Inv s -> fQuit (sq s) = false /\ Z.of_nat (length (queue (sq s))) < 2 ^ 32 /\ 0 <= nIdle (sq s) <= nTotal (sq s).
Proof.
  intros [[C1 C2 C3 C4 C5 C6] Hw _ _]. pose proof (sum_nonneg pend _ (pend_nonneg _ Hw)). split; [done|]. split; [lia|].
  rewrite C4, C5. clear. induction (threads s) as [|t ts IH]; [done|]. cbn. fold (sum idle ts) (sum inside ts).
  destruct t; cbn; repeat case_match; lia.
Qed.

Lemma waiting_idle ts i b : ts !! i = Some (Waiting b) -> 1 <= sum idle ts.
Proof.
  intros Hi. pose proof (sum_insert idle ts i _ Outside Hi) as E.
  pose proof (sum_nonneg idle (<[i := Outside]> ts) ltac:(apply Forall_forall; intros [] _; cbn; lia)). cbn in E. lia.
Qed.
Lemma step_budget s r s' : Inv s -> threads s !! 0%nat <> Some Outside -> step s false r s' -> budget s' < budget s.
Proof.
  intros HI H0 Hs. pose proof (inv_section s HI) as (Hq & Hl & Hti). pose proof HI as [C Hw _ _]. remember false as sp eqn:Esp.
  destruct Hs as [s v ts H0' _ _|s H0'|s i n ok notify o q Hi E|s i notified o q Hi E|s i n ok k v Hi|s i n ok Hi]; try done.
  - assert (Hn : 0 <= n) by (rewrite Forall_lookup in Hw; apply (Hw i _ Hi)).
    unfold enter in E. destruct (cleanup (is_master i) n ok (sq s)) as [nt q1] eqn:Ec. apply obind_Some in E as ([o1 q2] & E & E').
    cbn in E'. injection E' as <- <- <-. destruct (cleanup_counts _ _ _ _ _ _ _ _ _ Hi Hw C Ec) as (C1 & Q1 & Hnt & _).
    assert (Ht1 : fQuit q1 = false /\ 0 <= nTotal q1 + nIdle q1).
    { unfold cleanup in Ec. destruct (negb _) in Ec; injection Ec as _ <-; cbn; (split; [done|lia]). }
    pose proof (wait_or_take_weight _ _ _ _ (proj1 Ht1) ltac:(rewrite Q1; done) (proj2 Ht1) E) as W. rewrite Q1 in W.
    unfold budget. cbn [sq threads]. pose proof (notify_master_weight nt (<[i := after o1]> (threads s))) as Hnw.
    rewrite (sum_insert weight _ _ _ (after o1) Hi) in Hnw. cbn [weight] in Hnw. destruct (Z.eqb_spec n 0) as [->|Hn0].
    + destruct nt; [|lia]. destruct (proj1 Hnt eq_refl) as (? & _). done.
    + destruct nt; lia.
  - apply negb_false_iff in Esp as ->. unfold wake in E. set (q1 := mkQueue _ _ _ _ _ _) in E.
    pose proof (wait_or_take_weight _ q1 _ _ Hq Hl ltac:(cbn; pose proof (waiting_idle _ _ _ Hi); destruct C as [_ _ _ C4 C5 _]; lia) E) as W. cbn -[Z.mul] in W.
    unfold budget. cbn [sq threads]. rewrite (sum_insert weight _ _ _ (after o) Hi). cbn [weight]. lia.
  - unfold budget. cbn [sq threads]. rewrite (sum_insert weight _ _ _ (Working n (run_one ok k) v) Hi). cbn [weight length]. lia.
  - unfold budget. cbn [sq threads]. rewrite (sum_insert weight _ _ _ (Enter n ok) Hi). cbn [weight length].
    assert (1 <= n) by (rewrite Forall_lookup in Hw; apply (Hw i _ Hi)). destruct (Z.eqb_spec n 0); lia.
Qed.

(** A thread that does not wait can always go on. *)
Lemma thread_progress s i t : Inv s -> threads s !! i = Some t -> t <> Outside -> t <> Waiting false -> exists r s', step s false r s'.
Proof.
  intros HI Hi H1 H2. pose proof (inv_section s HI) as (Hq & Hl & Hti). pose proof HI as [C Hw _ _].
  assert (Hwt : forall m q, fQuit q = false -> queue q = queue (sq s) -> 0 <= nTotal q + nIdle q -> exists o q', wait_or_take m q = Some (o, q')).
  { intros m q E1 E2 E3. rewrite <- E2 in Hl.
    destruct (wait_or_take_cases m q Hl E3 E1) as [(_ & _ & _ & W)|[(_ & _ & W)|(n & b & v' & _ & _ & _ & W)]]; by eexists _, _. }
  destruct t as [|n ok|[]|n ok [|k v]]; try done.
  - destruct (cleanup (is_master i) n ok (sq s)) as [nt q1] eqn:Ec.
    destruct (Hwt (is_master i) q1) as (o & q' & W); try (unfold cleanup in Ec; destruct (negb _) in Ec; injection Ec as _ <-; cbn; done || lia).
    eexists _, _. eapply step_enter; [exact Hi|]. unfold enter. rewrite Ec, W. done.
  - pose proof (waiting_idle _ _ _ Hi). destruct C as [_ _ _ C4 C5 _].
    destruct (Hwt (is_master i) (mkQueue (queue (sq s)) (nIdle (sq s) - 1) (nTotal (sq s)) (fAllOk (sq s)) (nTodo (sq s)) (fQuit (sq s))))
      as (o & q' & W); [done|done|cbn; lia|]. eexists _, _. apply (step_wake s i true o q' Hi W).
  - eexists _, _. by eapply step_done.
  - eexists _, _. by eapply step_check.
Qed.
(** No deadlock: while the master is in the loop, some thread can go on. *)
Lemma progress s : Inv s -> threads s !! 0%nat <> Some Outside -> exists r s', step s false r s'.
Proof.
  intros HI H0. pose proof HI as [C Hw Hm Hne]. destruct (threads s) as [|t ts] eqn:Et; [done|]. cbn in H0.
  assert (Hd : t = Waiting false \/ t <> Waiting false) by (destruct t as [| |[]|]; (by left) || by right). destruct Hd as [->|Hnw].
  - destruct (Hm eq_refl) as [Hq Ht]. destruct C as [C1 _ _ _ _ _]. rewrite Hq in C1. cbn in C1. fold (sum pend ts) in C1.
    assert (Hex : Exists (fun t => pend t <> 0) ts).
    { apply not_Forall_Exists; [intros x; apply _|]. intros HF. enough (sum pend ts = 0) by lia. clear -HF. induction HF as [|x ts Hx HF IH]; [done|]. cbn.
      fold (sum pend ts). destruct (decide (pend x = 0)); lia. }
    apply Exists_exists in Hex as (x & Hx & Hp). apply list_elem_of_lookup in Hx as [j Hj].
    apply (thread_progress s (S j) x HI); [by rewrite Et|..]; intros ->; done.
  - apply (thread_progress s 0 t HI); [by rewrite Et|congruence|done].
Qed.

(** Whatever the threads do, [Wait] returns [b]. *)
Inductive inevitably (b : bool) : Sys -> Prop :=
| inevitable s : (exists r s', step s false r s') ->
    (forall b' s', step s false (Some b') s' -> b' = b) ->
    (forall s', step s false None s' -> inevitably b s') -> inevitably b s.

(** The master leaves the loop only by returning, and what was added stays. *)
Lemma step_inside s r s' : threads s !! 0%nat <> Some Outside -> threads s <> [] -> Inv s -> step s false r s' -> r = None ->
  threads s' !! 0%nat <> Some Outside /\ added s' = added s.
Proof.
  intros H0 Hne HI Hs Hr. remember false as sp eqn:Esp.
  destruct Hs as [s v ts H0' _ _|s H0'|s i n ok notify o q Hi E|s i notified o q Hi E|s i n ok k v Hi|s i n ok Hi]; try done; cbn.
  - unfold section_added. rewrite Hr. split; [|done]. intros Ho.
    assert (Hn : <[i := after o]> (threads s) !! 0%nat = Some Outside).
    { destruct (<[i := after o]> (threads s)) as [|t ts]; [done|]. cbn in *. destruct notify; [|done]. by destruct t. }
    destruct i as [|i]; [|by rewrite lookup_insert_other in Hn].
    rewrite list_lookup_insert_eq in Hn by (by eapply lookup_lt_Some). destruct o; done.
  - unfold section_added. rewrite Hr. split; [|done]. intros Hn. destruct i as [|i]; [|by rewrite lookup_insert_other in Hn].
    rewrite list_lookup_insert_eq in Hn by (by eapply lookup_lt_Some). destruct o; done.
  - split; [|done]. intros Hn. destruct i as [|i]; [|by rewrite lookup_insert_other in Hn].
    by rewrite list_lookup_insert_eq in Hn by (by eapply lookup_lt_Some).
  - split; [|done]. intros Hn. destruct i as [|i]; [|by rewrite lookup_insert_other in Hn].
    by rewrite list_lookup_insert_eq in Hn by (by eapply lookup_lt_Some).
Qed.
Lemma wait_returns s : Inv s -> threads s !! 0%nat <> Some Outside -> inevitably (forallb check (added s)) s.
Proof.
  remember (Z.to_nat (budget s)) as n eqn:En. revert s En. induction n as [n IH] using lt_wf_ind. intros s En HI H0.
  constructor; [by apply progress|intros b s' Hs; by apply (step_inv s _ _ _ HI Hs)|]. intros s' Hs. destruct (step_inv s _ _ _ HI Hs) as [HI' _].
  destruct (step_inside s None s' H0 (inv_some s HI) HI Hs eq_refl) as [H0' Ea]. rewrite <- Ea.
  pose proof (step_budget s None s' HI H0 Hs). pose proof (budget_nonneg s'). by apply (IH (Z.to_nat (budget s'))); [lia|..].
Qed.

(** Nothing to do: all threads that run wait. *)
Lemma idle_inside s : Inv s -> added s = [] -> IsIdle (sq s) = true.
Proof.
  intros HI Ha. pose proof HI as [[C1 C2 C3 C4 C5 C6] Hw _ _]. rewrite Ha in C2, C3. cbn in C2, C3.
  pose proof (sum_nonneg pend _ (pend_nonneg _ Hw)) as Hp. assert (H0 : sum pend (threads s) = 0) by lia.
  unfold IsIdle. rewrite (proj2 (Z.eqb_eq (nTodo (sq s)) 0)) by lia. symmetry in C3. apply andb_true_iff in C3 as [[C3 _]%andb_true_iff _]. rewrite C3.
  rewrite C4, C5, andb_true_r. cbn. rewrite andb_true_r. apply Z.eqb_eq. apply sum_zero in H0; [|by apply pend_nonneg]. clear -H0 Hw.
  induction (threads s) as [|t ts IH]; [done|]. apply Forall_cons in H0 as [H0 H1], Hw as [Hw0 Hw]. cbn. fold (sum inside ts) (sum idle ts).
  specialize (IH Hw H1). destruct t; cbn in *; try lia. subst. cbn. lia.
Qed.
End CheckQueue.

(** C15: the result of [Wait] is right: whatever the number of workers, the batch size and the
    order in which the threads run, with or without spurious wake-ups, the master leaves the
    loop with true exactly when every check added since the last result passes. When nothing
    is left from before, the queue is idle, so the assertion of [CCheckQueueControl] holds. *)
Theorem CheckQueue_safe {T : Type} (check : T -> bool) (nBatchSize : Z) (workers : nat) (s : Sys) :
  reachable check nBatchSize workers s ->
  (forall spurious b s', step check nBatchSize s spurious (Some b) s' -> b = forallb check (added s)) /\
  (added s = [] -> IsIdle (sq s) = true).
Proof.
  intros Hr. apply reachable_inv in Hr. split; [|by apply (idle_inside check)].
  intros sp b s' Hs. by apply (step_inv _ _ _ _ _ _ Hr Hs).
Qed.

(** C14: [Wait] returns: once the master is in the loop there is no deadlock and no lost
    notification, and every execution - without counting on spurious wake-ups, and whichever
    thread runs next - is finite and ends with the master returning the conjunction of all
    checks. *)
Theorem CheckQueue_returns {T : Type} (check : T -> bool) (nBatchSize : Z) (workers : nat) (s : Sys) :
  reachable check nBatchSize workers s -> threads s !! 0%nat <> Some Outside ->
  inevitably check nBatchSize (forallb check (added s)) s.
Proof. intros Hr H0. apply reachable_inv in Hr. by apply wait_returns. Qed.

(** One worker, two checks of which one fails. *)
Definition ex_queue_state : Sys (T := bool) :=
  mkSys (Add [true; false] CCheckQueue_new) [Enter 0 true; Enter 0 true] [true; false].
Lemma ex_queue_reachable : reachable (fun b : bool => b) 128 1 ex_queue_state.
Proof.
  eapply reach_step; [eapply reach_step; [apply reach_start|]|].
  - apply (step_Add _ _ (start 1) [true; false] [Outside; Enter 0 true]); [reflexivity|cbn; lia|].
    apply (notify_all 2 [Outside; Enter 0 true]). lia.
  - exact (step_Wait (fun b : bool => b) 128 (mkSys (Add [true; false] CCheckQueue_new) [Outside; Enter 0 true] [true; false]) eq_refl).
Qed.
Lemma CheckQueue_returns_witness : inevitably (fun b : bool => b) 128 false ex_queue_state.
Proof. apply (CheckQueue_returns (fun b : bool => b) 128 1 ex_queue_state ex_queue_reachable). discriminate. Defined.
Lemma CheckQueue_safe_witness :
  reachable (fun b : bool => b) 128 1 ex_queue_state /\
  forall spurious b s', step (fun b : bool => b) 128 ex_queue_state spurious (Some b) s' -> b = false.
Proof.
  split; [exact ex_queue_reachable|]. exact (proj1 (CheckQueue_safe (fun b : bool => b) 128 1 ex_queue_state ex_queue_reachable)).
Defined.
